(* ===== verification/_CoqProject ===== *)
-Q . S2P
Prelude.v
Words.v
Unicode.v
Bytes.v
Fields.v
Errors.v
Value.v
Numeric.v
Float.v
FloatProps.v
Code.v
CodeProps.v
Layout.v
Heap.v
HeapLists.v
HeapInv.v
HeapOps.v
HeapProps.v
Frame.v
FrameProps.v
FrameValues.v
Path.v
BTree.v
Artifact.v
Verify.v
VerifyProps.v
Text.v
TextProps.v
Scalar.v
ScalarProps.v
ScalarSafe.v
Container.v
Records.v
Tables.v
Modules.v
TablesProps.v
ModulesProps.v
Exceptions.v
ExceptionsProps.v
Gc.v
GcInv.v
GcProps.v
Alloc.v
ArrayCopy.v
Task.v
TaskProps.v
Channel.v
ChannelProps.v
Requests.v
RequestsProps.v
Checkpoint.v
CheckpointLaws.v
CheckpointState.v
CheckpointProps.v
CheckpointMemory.v
FileHandle.v
Redstone.v
Terminal.v
TerminalProps.v
Stdio.v
StdioProps.v
Codec.v
Journal.v
FsCheckpoint.v
Recovery.v
Replay.v
Gate.v
Rom.v
Tree.v
TreeInv.v
TreeOps.v
TreeRename.v
TreeSpec.v
TreeRead.v
TreeReplay.v
TreeLoad.v
RomLoad.v
Store.v
Crash.v
StoreProps.v
