(* ===== verification/Prelude.v ===== *)
(** Compukter VM: a verification of its runtime components.

    The program (Rust, under src/src/) is a resource-bounded virtual machine.
    An artifact is decoded and verified, admitted against an execution profile,
    and run by an interpreter over a managed heap; guest tasks are scheduled
    cooperatively and talk through channels; calls that leave the guest become
    host requests; a computer adds devices (terminal, redstone) and a virtual
    filesystem.  This library models the stateful components one by one, from
    the source, as executable definitions, and proves what each promises.

    Conventions
    - A w-bit integer is a [Z]; each operation writes out what the source does at
      the edge of the range ([checked_add], wrapping, saturation).  [usize] is
      64 bits wide.  Plain arithmetic that leaves its width, an index out of
      range and a failing [expect] are [Panic].
    - [Result<A, E>] is [outcome E A]; a [&mut self] method is a state
      transformer [ST S E A], which returns the state on every branch, so what an
      early return has already changed stays visible.
    - [Vec], [Box<[T]>] and [VecDeque] are lists; a string is the list of its
      UTF-8 bytes.
    - Exhaustion of the host's own memory ([try_reserve], allocation failure) is
      not modelled: the vectors are as large as the code asks for.

    Files, in dependency order.  Some Modules share a file: HeapView and HeapClass are
    in HeapLists, FrameInv in FrameProps, VerifyInv and VerifyFlow in VerifyProps,
    GcRoots, GcHeap and GcSweep in GcInv, HeapSpec in Alloc, TaskInv in TaskProps, ChannelInv in ChannelProps,
    TerminalInv and TerminalOps in TerminalProps, TreeView in TreeInv, and Total,
    ContainerProps and RecordsProps in TablesProps.
    - Prelude: this vocabulary, its lemmas and the tactics [bsimp], [run_inv],
      [bind_simp], [eval_pow].  Words, Fields: little-endian words, byte slices,
      bit fields.  Unicode: UTF-8 and UTF-16 as the standard library defines them.
    - Bytes: src/diagnostic.rs (bounded diagnostics) and src/bytes.rs (the cursor
      every decoder reads through).  The ULEB128 reader accepts exactly the
      canonical encodings.
    - Errors, Value, Numeric, Layout: src/execution/error.rs, value.rs (tagged
      32-bit references), numeric.rs (integer semantics), layout.rs (object
      layouts and the storage plan).
    - Float: the floating-point half of numeric.rs and math.rs on bit patterns,
      through the Standard Library's IEEE 754 ([SpecFloat]); the libm crate is the
      parameter [libm], of which only that it returns bit patterns is assumed
      ([libm_ok]).  FloatProps: every operation returns a bit pattern of its width,
      comparison orders the numbers the patterns stand for, conversions truncate
      and saturate.
    - Code: src/artifact/math.rs, matrix.rs, the instruction set of artifact/mod.rs,
      decode/code.rs (the decoder of code records and the costs).  CodeProps: the
      decoder accepts exactly the canonical encodings of well-formed instruction
      sequences.  Its loop runs on fuel, the number of bytes, enough because an
      instruction has at least four.
    - Heap: src/execution/heap.rs, the two-level segregated-fit allocator with
      its legacy and compact header formats.  HeapView reads headers and links as
      fields of the arena and says what each write touches; HeapClass relates
      size classes to sizes; HeapLists is the invariant of the free lists and
      their bitmaps; HeapInv the invariant of the whole arena (blocks tile it,
      neighbours are coalesced, counters are exact) and the two operations that
      move block boundaries; HeapOps the remaining operations; HeapProps the
      client's operations and the behaviour of each.  HeapSpec, with Alloc, is the
      specification, a table of blocks, types and bytes, and the theorem that every
      enabled operation answers and changes the table as it says.
      Loops over the arena run on fuel [arena_bytes], enough because every block
      has positive size ([fuel_enough]).
    - Frame: src/execution/frame.rs, the arena of call frames and the static fields:
      frames carved first fit from a free list kept inside the free regions, values
      split into physical components at derived offsets.  FrameInv is its invariant
      (frames and free regions tile the arena, the list has every region in address
      order, neighbours are merged) and follows push and release; FrameProps proves
      that the arena implements a map of disjoint frames; FrameValues that typed
      values are read back and nothing else changes.  The loops over the free list
      run on [loop_fuel], the number of 8-byte units plus one, enough because a
      region is at least one unit.
    - Artifact: the decoded records of src/artifact/mod.rs, the header of
      decode/container.rs, src/limits.rs, and how types are resolved and compared
      (verify/modules.rs, verify/functions.rs).  The comparisons recurse on array
      elements; they take the depth of the host's call stack as [depth] and panic
      beyond it, as nothing in the source bounds the recursion.  The walk over
      supertypes runs on [nominal_fuel], every reference between types plus one,
      which bounds the pushes on its stack.
    - Container: src/artifact/format.rs, decode/container.rs (header, directory and
      digest) and decode/indexed.rs (sections of records); Records, Tables:
      decode/records.rs, record by record, the checks of their references and
      [decode_artifact]; SHA-256 is the parameter [sha256], of which nothing is
      assumed.  Total: total decoding, [safe] outcomes and [reads] of the cursor,
      with the tactics that follow a decoder.  ContainerProps, RecordsProps,
      TablesProps: no bytes make the decoder panic, and the tables of an artifact it
      accepts are well formed.
    - Verify: the verifier of functions, src/verify/functions.rs and cfg.rs, with one
      definition for each kind of instruction.  VerifyInv: sets of registers as
      words, what an accepted instruction reads and writes; VerifyFlow: the work list
      ends and leaves a solution of the flow equations; VerifyProps: every path of an
      accepted function, exceptions included, writes a register before it reads it.
      The work list runs on [dataflow_fuel], the [1 + blocks * (1 + 64 *
      words)] iterations it makes at most, for [words] words of 64 registers
      ([dataflow_terminates]).
    - Modules: verify/modules.rs, the semantic hashes, the order of imports, their
      resolution and the rules for nominal types.  Its depth-first search runs on
      [search_fuel], a step for each node and edge.  ModulesProps: the search decides
      whether there is a cycle and within that fuel, imports come first, and
      subtyping is the closure of the declared supertypes and a partial order.
    - Exceptions: verify/exceptions.rs and verify/mod.rs, the Throwable root, the
      roles, the handler tables, the feature bits and [verify_artifact].
      ExceptionsProps: protected ranges nest, and what acceptance of an artifact
      means for every path of its functions.
    - Text: src/execution/text.rs, strings as the instructions read them and the
      sliced hash, equality and comparison (fuel: the length of the string, which
      [sliced_text_equiv] shows enough).  TextProps: slicing does not change their
      results.
    - Scalar: the scalar instructions, [execute_scalar] of src/execution/machine.rs,
      the matrix kernel of matrix.rs, and the constants and register accesses
      image.rs resolves for them.  ScalarProps: what their operations return on
      values of the kinds the verifier asks for; ScalarSafe: a verified scalar
      instruction never faults and keeps every component at its kind.
    - Gc: src/execution/gc.rs, heap_ops.rs and external_roots.rs, the mark and sweep
      collector run in steps, typed access to objects and the incremental
      initialisation of new ones.  GcRoots: the roots are enumerated exactly; GcHeap:
      what marking and sweeping do to the blocks; GcInv: the object graph and the
      invariant of the mark phase; GcSweep: the sweep; GcProps: a collection sliced
      into any budgets ends within [collection_bound] steps and frees exactly what
      the roots do not reach.
    - Alloc: the allocation of an object, from the request of machine.rs through the
      slices that clear it to its publication.  ArrayCopy: src/execution/array_copy.rs,
      copies of array elements in slices, which have the effect of one memmove.  Its
      loop runs on fuel, the number of elements to copy, of which a round takes one at
      least.
    - Task: src/execution/task.rs, the scheduler.  TaskInv is its invariant (ring
      of runnable slots, one running task, acyclic waits), TaskProps the
      theorems: no operation corrupts it, service is first in, first out, joins
      cannot deadlock.  The loop of [join] runs at most once per task, as in the
      source.
    - Channel: src/execution/channel.rs.  ChannelInv has the abstract channel, a
      bounded queue with two wait queues, and the representation invariant;
      ChannelProps proves that any run of the arena answers as the abstract
      channels do, that no value is lost, duplicated or reordered, and that nobody
      waits who could proceed.
    - Requests: src/execution/requests.rs, the table of pending host requests and
      the last-write-wins reduction; RequestsProps its accounting, round trip and
      the meaning of the reduction.  The cancellation loop runs on fuel, the
      number of pending requests, which bounds its iterations.
    - Path: src/filesystem/error.rs, limits.rs, path.rs, capability.rs, with the
      parse/print round trip, UTF-16 input and delegation.  FileHandle:
      src/filesystem/quota.rs and handle.rs; handles never alias.
    - Redstone: src/redstone.rs, packets, levels and waiters; no wakeup
      is missed, repeated or invented.
    - Terminal: src/terminal/input.rs, replication.rs, state.rs, the text screen
      with its history and the log of changes for remote views.  TerminalInv says
      what each change means to a replica and how the ring of rows is read;
      TerminalOps follows every operation; TerminalProps proves that the answers to a
      replica bring it to what the terminal published last.  The loop that trims the
      history runs on fuel, the length of the history, which an iteration shortens.
    - Stdio: src/stdio.rs, the ownership of the standard input and its line
      discipline, and the loop of src/computer.rs that feeds it; StdioProps proves
      it equal to a line editor over characters.  The loop runs on fuel, the length
      of the input queue, which each iteration shortens.
    - Checkpoint: src/execution/checkpoint.rs and src/checkpoint/envelope.rs.  An
      [impl Checkpoint] is a [Codec], the macros are combinators of codecs.
      CheckpointLaws is the class [Lawful] of codecs that read back what they write,
      from one encoding only, within the allocation and the nesting allowed, with an
      instance per combinator.  CheckpointState: the codecs of values, tasks,
      channels, external roots and host requests of src/execution/checkpoint/, and the
      [validate_checkpoint] of each; the sizes Rust gives to structs and enums are
      parameters, and the walk along a wait list runs on fuel, the number of waiters.
      CheckpointProps: the states of these components round trip, the envelope is
      accepted only as it was made, and the checks of schedulers and channels
      establish the invariants the running components keep.  CheckpointMemory does the
      same for the heap (layout.rs, heap.rs, heap_ops.rs) and the frames (frame.rs): the
      checks accept exactly the memory the components represent their state with.  The
      walks over blocks and free regions run on fuel, the number of blocks that fit in
      the arena.
    - BTree: ordered maps as sorted association lists ([BTreeMap]), with a class of
      ordered keys.
    - Codec, Journal, FsCheckpoint: src/filesystem/persistence/codec.rs, mod.rs,
      journal.rs, checkpoint.rs.  A reader is described by the words it accepts
      ([Reads]); both formats are canonical.  SHA-256 is a parameter, assumed to
      return 32 bytes.
    - Recovery: recovery.rs, the replay of a journal over a checkpoint.  Replay: what
      a chain of records leads to, whatever torn records follow it.
    - Gate: src/filesystem/worker.rs, the bounded queue between the filesystems and
      the persistence thread, with its reservations and its health.
    - Rom: src/filesystem/rom.rs.  Tree: src/filesystem/tree.rs, the tree, the
      content-addressed object store and every request, over the gate.  The loop of
      [read_executable] runs on fuel, the size of the file, which each read
      shortens ([read_executable_complete]).
    - TreeView reads the nested tree as a flat map from paths to nodes; TreeInv is
      the invariant (sorted directories, exact ledger and reference counts, entry
      limits) and a small program logic for requests that do everything or nothing;
      TreeOps and TreeRename follow the requests; TreeSpec has the abstract
      namespace of files and bytes, and the theorem that the requests implement it;
      TreeRead the readers.  TreeReplay proves that the journal record of a
      mutation replays to the namespace it produced; TreeLoad and RomLoad that
      restoring a recovered state and mounting an image rebuild the very tree.
    - Store: the disk side of worker.rs and src/filesystem/store.rs, the files of a
      computer, and the collection of the objects all computers share.  Crash puts a
      computer, the thread and the disk together as a step relation and proves that
      nothing durable is lost, whatever crashes come, if requests are atomic for the
      thread, keep every path within the limits and leave a journal that recovery
      admits.  StoreProps: what recovers is what the records say, garbage
      collection keeps what any computer needs, and four concrete ways to a computer
      that cannot be opened again or loses a file when these conditions fail.
      The limits are assumed to lie in the range both profiles of limits.rs lie in
      ([fs_limits_ok], [limits_ok]); where bytes are compared by digest, the digest
      is assumed not to collide on the contents in use.

    Not modelled yet, in the order planned: the calls, heap and suspending
    instructions and the run loop of the interpreter; the checkpoint codecs of the
    collector, the machine, the session and the devices; processes and the
    computer.
    Left out: errors of the operating system other than a stop of the thread, the
    names of generation files, the lock file and the execution checkpoint files of the store;
    the FFI and JNI bindings, the release tools, tests and fixtures.  Field
    accessors that only read a record are its projections. *)

From stdpp Require Export base list list_numbers gmap strings sorting.
From Stdlib Require Export ZArith Lia.

Global Open Scope Z_scope.

(** * Outcomes

    A Rust function that returns [Result<A, E>] is modelled by [outcome E A].
    [Panic] is the third possibility of the language: an out-of-range index, an
    [expect] that fails, or plain arithmetic that leaves its machine width. *)

Inductive outcome (E A : Type) : Type :=
| Ok (a : A)
| Err (e : E)
| Panic.
Arguments Ok {E A} a.
Arguments Err {E A} e.
Arguments Panic {E A}.

Global Instance outcome_ret E : MRet (outcome E) := fun A a => Ok a.

Global Instance outcome_bind E : MBind (outcome E) := fun A B f m =>
  match m with
  | Ok a => f a
  | Err e => Err e
  | Panic => Panic
  end.

Global Instance outcome_fmap E : FMap (outcome E) := fun A B f m =>
  match m with
  | Ok a => Ok (f a)
  | Err e => Err e
  | Panic => Panic
  end.

Definition is_ok {E A} (o : outcome E A) : bool :=
  match o with Ok _ => true | _ => false end.

(** [Option::ok_or]. *)
Definition ok_or {E A} (o : option A) (e : E) : outcome E A :=
  match o with Some a => Ok a | None => Err e end.

(** [Option::expect], slice indexing: absence is a panic. *)
Definition expect {E A} (o : option A) : outcome E A :=
  match o with Some a => Ok a | None => Panic end.

(** [if cond { return Err(e) }]. *)
Definition guard_err {E} (b : bool) (e : E) : outcome E unit :=
  if b then Err e else Ok tt.

(** * Fallible code over a mutable receiver

    [&mut self] methods are state transformers.  The state is returned on every
    branch, so what an early return has already changed stays visible. *)

Definition ST (S E A : Type) : Type := S -> outcome E A * S.

Global Instance ST_ret S E : MRet (ST S E) := fun A a s => (Ok a, s).

Global Instance ST_bind S E : MBind (ST S E) := fun A B f m s =>
  match m s with
  | (Ok a, s') => f a s'
  | (Err e, s') => (Err e, s')
  | (Panic, s') => (Panic, s')
  end.

Definition st_get {S E} : ST S E S := fun s => (Ok s, s).
Definition st_put {S E} (s : S) : ST S E unit := fun _ => (Ok tt, s).
Definition st_modify {S E} (f : S -> S) : ST S E unit := fun s => (Ok tt, f s).
Definition st_err {S E A} (e : E) : ST S E A := fun s => (Err e, s).
Definition st_panic {S E A} : ST S E A := fun s => (Panic, s).
Definition st_lift {S E A} (o : outcome E A) : ST S E A := fun s => (o, s).
(** A [&self] method called from a [&mut self] one. *)
Definition st_read {S E A} (f : S -> outcome E A) : ST S E A := fun s => (f s, s).

Section MonadLaws.
Context {S E : Type}.

Lemma st_bind_ok {A B} (m : ST S E A) (f : A -> ST S E B) s a s' :
  m s = (Ok a, s') -> (m ≫= f) s = f a s'.
Proof. intros H. unfold mbind, ST_bind. by rewrite H. Qed.

Lemma st_bind_err {A B} (m : ST S E A) (f : A -> ST S E B) s e s' :
  m s = (Err e, s') -> (m ≫= f) s = (Err e, s').
Proof. intros H. unfold mbind, ST_bind. by rewrite H. Qed.

Lemma st_bind_assoc {A B C} (m : ST S E A) (f : A -> ST S E B) (g : B -> ST S E C) s :
  ((m ≫= f) ≫= g) s = (m ≫= (fun a => f a ≫= g)) s.
Proof. unfold mbind, ST_bind. by destruct (m s) as [[| |] ?]. Qed.

Lemma st_bind_inv {A B} (m : ST S E A) (f : A -> ST S E B) s b s' :
  (m ≫= f) s = (Ok b, s') ->
  exists a s1, m s = (Ok a, s1) /\ f a s1 = (Ok b, s').
Proof.
  unfold mbind, ST_bind. destruct (m s) as [[a| |] s1] eqn:Hm; intros H; try done.
  by exists a, s1.
Qed.
End MonadLaws.

Lemma outcome_bind_inv {E A B} (m : outcome E A) (f : A -> outcome E B) b :
  m ≫= f = Ok b -> exists a, m = Ok a /\ f a = Ok b.
Proof. destruct m; intros H; try done. by exists a. Qed.

Lemma guard_err_ok {E} b (e : E) u : guard_err b e = Ok u <-> b = false.
Proof. destruct u. by destruct b. Qed.

Lemma ok_or_ok {E A} (o : option A) (e : E) a : ok_or o e = Ok a <-> o = Some a.
Proof. destruct o; naive_solver. Qed.

Lemma expect_ok {E A} (o : option A) (a : A) : expect (E:=E) o = Ok a <-> o = Some a.
Proof. destruct o; naive_solver. Qed.

(** * Machine integers

    A [w]-bit integer is a [Z]; the range is a side condition, and each
    operation writes out what it does at the edge of the range.  [usize] is 64
    bits wide: both supported targets are x86_64. *)

Definition u8_max : Z := 2 ^ 8 - 1.
Definition u16_max : Z := 2 ^ 16 - 1.
Definition u32_max : Z := 2 ^ 32 - 1.
Definition u64_max : Z := 2 ^ 64 - 1.
Definition usize_max : Z := 2 ^ 64 - 1.
Definition i32_max : Z := 2 ^ 31 - 1.
Definition i32_min : Z := - 2 ^ 31.
Definition i64_max : Z := 2 ^ 63 - 1.
Definition i64_min : Z := - 2 ^ 63.

Definition in_range (lo hi z : Z) : bool := (lo <=? z) && (z <=? hi).

Definition checked_add (max a b : Z) : option Z :=
  if a + b <=? max then Some (a + b) else None.
Definition checked_sub (a b : Z) : option Z :=
  if b <=? a then Some (a - b) else None.
Definition checked_mul (max a b : Z) : option Z :=
  if a * b <=? max then Some (a * b) else None.
Definition saturating_sub (a b : Z) : Z := Z.max 0 (a - b).
Definition saturating_add (max a b : Z) : Z := Z.min max (a + b).

(** [T::try_from] for an unsigned target with the given maximum. *)
Definition try_from_unsigned (max z : Z) : option Z :=
  if in_range 0 max z then Some z else None.

(** [as uN] truncation and [as iN] reinterpretation. *)
Definition wrap_unsigned (w z : Z) : Z := z mod 2 ^ w.
Definition wrap_signed (w z : Z) : Z :=
  let m := z mod 2 ^ w in if m <? 2 ^ (w - 1) then m else m - 2 ^ w.

Definition is_multiple_of (a b : Z) : bool := a mod b =? 0.

Lemma checked_add_Some max a b c :
  checked_add max a b = Some c <-> c = a + b /\ a + b <= max.
Proof. unfold checked_add. destruct (Z.leb_spec (a + b) max); naive_solver lia. Qed.

Lemma checked_add_le max a b : a + b <= max -> checked_add max a b = Some (a + b).
Proof. intros. by apply checked_add_Some. Qed.

Lemma checked_add_None max a b : checked_add max a b = None <-> max < a + b.
Proof. unfold checked_add. destruct (Z.leb_spec (a + b) max); naive_solver lia. Qed.

Lemma checked_sub_Some a b c : checked_sub a b = Some c <-> c = a - b /\ b <= a.
Proof. unfold checked_sub. destruct (Z.leb_spec b a); naive_solver lia. Qed.

Lemma checked_mul_Some max a b c :
  checked_mul max a b = Some c <-> c = a * b /\ a * b <= max.
Proof. unfold checked_mul. destruct (Z.leb_spec (a * b) max); naive_solver lia. Qed.

Lemma try_from_unsigned_Some max z z' :
  try_from_unsigned max z = Some z' <-> z' = z /\ 0 <= z <= max.
Proof.
  unfold try_from_unsigned, in_range.
  destruct (Z.leb_spec 0 z), (Z.leb_spec z max); naive_solver lia.
Qed.

Lemma is_multiple_of_true a b : is_multiple_of a b = true <-> a mod b = 0.
Proof. apply Z.eqb_eq. Qed.

Lemma wrap_signed_range w z : 0 < w -> - 2 ^ (w - 1) <= wrap_signed w z < 2 ^ (w - 1).
Proof.
  intros Hw. unfold wrap_signed.
  assert (Hp : 2 ^ w = 2 * 2 ^ (w - 1)) by (rewrite <- Z.pow_succ_r; [f_equal|]; lia).
  pose proof (Z.mod_pos_bound z (2 ^ w) ltac:(lia)).
  destruct (Z.ltb_spec (z mod 2 ^ w) (2 ^ (w - 1))); lia.
Qed.

Lemma wrap_signed_id w z : 0 < w -> - 2 ^ (w - 1) <= z < 2 ^ (w - 1) -> wrap_signed w z = z.
Proof.
  intros Hw Hz. unfold wrap_signed.
  assert (Hp : 2 ^ w = 2 * 2 ^ (w - 1)) by (rewrite <- Z.pow_succ_r; [f_equal|]; lia).
  destruct (Z.le_gt_cases 0 z).
  - rewrite Z.mod_small by lia. destruct (Z.ltb_spec z (2 ^ (w - 1))); lia.
  - replace (z mod 2 ^ w) with (z + 2 ^ w).
    + destruct (Z.ltb_spec (z + 2 ^ w) (2 ^ (w - 1))); lia.
    + symmetry. rewrite <- (Z.mod_add z 1 (2 ^ w)) by lia.
      rewrite Z.mod_small; lia.
Qed.

Lemma wrap_signed_congr w z : 0 < w -> wrap_signed w z mod 2 ^ w = z mod 2 ^ w.
Proof.
  intros Hw. unfold wrap_signed.
  pose proof (Z.pow_pos_nonneg 2 w ltac:(lia) ltac:(lia)).
  destruct (_ <? _); [by rewrite Z.mod_mod by lia|].
  replace (z mod 2 ^ w - 2 ^ w) with (z mod 2 ^ w + (-1) * 2 ^ w) by lia.
  rewrite Z.mod_add, Z.mod_mod; lia.
Qed.

Lemma wrap_signed_ext w a b : a mod 2 ^ w = b mod 2 ^ w -> wrap_signed w a = wrap_signed w b.
Proof. intros H. unfold wrap_signed. by rewrite H. Qed.

(** * Indexed storage

    [Box<[T]>] and [Vec<T>] indexed by a [usize]. *)

Definition zget {A} (l : list A) (i : Z) : option A := l !! Z.to_nat i.
Definition zset {A} (i : Z) (x : A) (l : list A) : list A := <[Z.to_nat i := x]> l.

Lemma zget_zset_eq {A} (l : list A) i x y : zget l i = Some y -> zget (zset i x l) i = Some x.
Proof.
  unfold zget, zset. intros H. apply list_lookup_insert_eq. by eapply lookup_lt_Some.
Qed.

Lemma zget_zset_ne {A} (l : list A) i j (x : A) :
  0 <= i -> 0 <= j -> i <> j -> zget (zset i x l) j = zget l j.
Proof. intros. unfold zget, zset. apply list_lookup_insert_ne. lia. Qed.

Lemma zset_Forall {A} (P : A -> Prop) l i x : Forall P l -> P x -> Forall P (zset i x l).
Proof. intros. by apply Forall_insert. Qed.

Lemma zset_length {A} (l : list A) i x : length (zset i x l) = length l.
Proof. apply length_insert. Qed.

Lemma zget_Some_lt {A} (l : list A) i x : 0 <= i -> zget l i = Some x -> 0 <= i < Z.of_nat (length l).
Proof. intros Hi H. apply lookup_lt_Some in H. lia. Qed.

Lemma zget_is_Some {A} (l : list A) i : 0 <= i < Z.of_nat (length l) -> exists x, zget l i = Some x.
Proof. intros Hi. destruct (lookup_lt_is_Some_2 l (Z.to_nat i)) as [x Hx]; [lia|]. by exists x. Qed.

Lemma filter_none {A} (P : A -> Prop) `{!forall x, Decision (P x)} l : Forall (fun x => ~ P x) l -> filter P l = [].
Proof. induction 1 as [|x l Hx _ IH]; [done|]. by rewrite filter_cons_False. Qed.
Lemma filter_all {A} (P : A -> Prop) `{!forall x, Decision (P x)} l : Forall P l -> filter P l = l.
Proof. induction 1 as [|x l Hx _ IH]; [done|]. by rewrite filter_cons_True, IH. Qed.

(** [iter().position(..)]. *)
Definition position {A} (P : A -> Prop) `{!forall x, Decision (P x)} (l : list A) : option Z :=
  (fun '(i, _) => Z.of_nat i) <$> list_find P l.

Lemma position_Some {A} (P : A -> Prop) `{!forall x, Decision (P x)} (l : list A) i :
  position P l = Some i -> 0 <= i < Z.of_nat (length l) /\ exists x, zget l i = Some x /\ P x.
Proof.
  unfold position. intros Hpos. apply fmap_Some in Hpos as ([j x] & Hf & ->).
  apply list_find_Some in Hf as (Hx & HP & _). pose proof (lookup_lt_Some _ _ _ Hx).
  split; [lia|]. exists x. unfold zget. by rewrite Nat2Z.id.
Qed.

Lemma position_None {A} (P : A -> Prop) `{!forall x, Decision (P x)} (l : list A) :
  position P l = None <-> Forall (fun x => ~ P x) l.
Proof. unfold position. rewrite fmap_None. apply list_find_None. Qed.

(** * Automation *)

(** Turns the boolean tests the source's guards become into propositions. *)
Ltac bsimp :=
  repeat match goal with
  | H : context [andb _ _ = true] |- _ => rewrite andb_true_iff in H
  | H : context [andb _ _ = false] |- _ => rewrite andb_false_iff in H
  | H : context [orb _ _ = true] |- _ => rewrite orb_true_iff in H
  | H : context [orb _ _ = false] |- _ => rewrite orb_false_iff in H
  | H : context [negb _ = true] |- _ => rewrite negb_true_iff in H
  | H : context [negb _ = false] |- _ => rewrite negb_false_iff in H
  | H : (_ <? _) = true |- _ => apply Z.ltb_lt in H
  | H : (_ <? _) = false |- _ => apply Z.ltb_ge in H
  | H : (_ <=? _) = true |- _ => apply Z.leb_le in H
  | H : (_ <=? _) = false |- _ => apply Z.leb_gt in H
  | H : (_ =? _) = true |- _ => apply Z.eqb_eq in H
  | H : (_ =? _) = false |- _ => apply Z.eqb_neq in H
  | H : bool_decide _ = true |- _ => apply bool_decide_eq_true in H
  | H : bool_decide _ = false |- _ => apply bool_decide_eq_false in H
  | H : checked_add _ _ _ = Some _ |- _ => apply checked_add_Some in H as [? ?]
  | H : checked_add _ _ _ = None |- _ => apply checked_add_None in H
  | H : checked_sub _ _ = Some _ |- _ => apply checked_sub_Some in H as [? ?]
  | H : checked_mul _ _ _ = Some _ |- _ => apply checked_mul_Some in H as [? ?]
  | H : _ /\ _ |- _ => destruct H
  end.

(** Inverts the binds of a successful run, one step at a time. *)
Ltac run_inv :=
  repeat match goal with
  | H : (_ ≫= _) _ = (Ok _, _) |- _ =>
      let a := fresh "a" in let s := fresh "s" in let H1 := fresh "Hrun" in
      apply st_bind_inv in H as (a & s & H1 & H)
  | H : _ ≫= _ = Ok _ |- _ =>
      let a := fresh "a" in let H1 := fresh "Hrun" in
      apply outcome_bind_inv in H as (a & H1 & H)
  | H : guard_err _ _ = Ok _ |- _ => apply guard_err_ok in H
  | H : ok_or _ _ = Ok _ |- _ => apply ok_or_ok in H
  | H : expect _ = Ok _ |- _ => apply expect_ok in H
  | H : mret _ = Ok _ |- _ => unfold mret, outcome_ret in H
  | H : mret _ _ = (Ok _, _) |- _ => unfold mret, ST_ret in H
  | H : Ok _ = Ok _ |- _ => injection H as H
  | H : (Ok _, _) = (Ok _, _) |- _ => injection H as H
  end.

Create HintDb vm discriminated.

(** Evaluates the closed powers of two of a goal and its hypotheses. *)
Ltac eval_pow :=
  repeat match goal with
  | |- context [Z.pow ?b ?e] =>
      let v := eval vm_compute in (Z.pow b e) in
      lazymatch v with Z.pos _ => idtac | Z0 => idtac end; change (Z.pow b e) with v
  | H : context [Z.pow ?b ?e] |- _ =>
      let v := eval vm_compute in (Z.pow b e) in
      lazymatch v with Z.pos _ => idtac | Z0 => idtac end; change (Z.pow b e) with v in H
  end.

(** Reduces binds whose first computation is already a value. *)
Ltac bind_simp := cbn [mbind mret option_bind outcome_bind outcome_ret negb ok_or expect].
