(* ===== verification/Words.v ===== *)
(** Byte strings: little-endian words ([to_le_bytes] / [from_le_bytes]), slices
    of a byte buffer and in-place writes ([copy_from_slice]).  A byte is a [Z];
    [is_bytes] states that every element is in [0, 255]. *)

From S2P Require Import Prelude.

Definition is_byte (b : Z) : Prop := 0 <= b < 256.
Abbreviation is_bytes := (Forall is_byte).

(** [uN::from_le_bytes]. *)
Fixpoint le_val (bs : list Z) : Z :=
  match bs with
  | [] => 0
  | b :: bs => b + 256 * le_val bs
  end.

(** [uN::to_le_bytes], [n] bytes. *)
Fixpoint le_bytes (n : nat) (z : Z) : list Z :=
  match n with
  | O => []
  | S n => z mod 256 :: le_bytes n (z / 256)
  end.

(** [&buffer[start..start + len]], clipped at the end of the buffer. *)
Definition slice {A} (start len : Z) (l : list A) : list A :=
  take (Z.to_nat len) (drop (Z.to_nat start) l).

(** [slice.get(start..end)]. *)
Definition slice_get {A} (start stop : Z) (l : list A) : option (list A) :=
  if (start <=? stop) && (stop <=? Z.of_nat (length l))
  then Some (slice start (stop - start) l) else None.

(** [buffer[start..].copy_from_slice(bs)]: overwrites the bytes in place. *)
Definition splice {A} (start : Z) (bs l : list A) : list A :=
  take (Z.to_nat start) l ++ bs ++ drop (Z.to_nat start + length bs) l.

(** A two's complement reading of an unsigned word. *)
Definition as_signed (w z : Z) : Z := wrap_signed w z.

Lemma le_bytes_length n z : length (le_bytes n z) = n.
Proof. revert z. induction n; simpl; auto. Qed.

Lemma le_bytes_is_bytes n z : is_bytes (le_bytes n z).
Proof.
  revert z. induction n as [|n IH]; intros z; simpl; constructor; [|done].
  apply Z.mod_pos_bound. lia.
Qed.

Lemma le_val_bound bs : is_bytes bs -> 0 <= le_val bs < 256 ^ Z.of_nat (length bs).
Proof.
  induction 1 as [|b bs Hb _ IH]; cbn [le_val length]; [done|].
  rewrite Nat2Z.inj_succ, Z.pow_succ_r by lia. unfold is_byte in Hb. lia.
Qed.

Lemma le_val_bytes n z : le_val (le_bytes n z) = z mod 256 ^ Z.of_nat n.
Proof.
  revert z. induction n as [|n IH]; intros z; cbn [le_val le_bytes].
  - by rewrite Z.mod_1_r.
  - rewrite IH, Nat2Z.inj_succ, Z.pow_succ_r by lia.
    rewrite Z.rem_mul_r by lia. lia.
Qed.

Lemma le_val_bytes_small n z :
  0 <= z < 256 ^ Z.of_nat n -> le_val (le_bytes n z) = z.
Proof. intros. rewrite le_val_bytes. by apply Z.mod_small. Qed.

Lemma le_bytes_val bs : is_bytes bs -> le_bytes (length bs) (le_val bs) = bs.
Proof.
  induction 1 as [|b bs Hb _ IH]; cbn [le_val le_bytes length]; [done|].
  unfold is_byte in Hb. f_equal.
  - rewrite Z.mul_comm, Z.mod_add by lia. by apply Z.mod_small.
  - rewrite Z.mul_comm, Z.div_add, (Z.div_small b) by lia. by rewrite Z.add_0_l.
Qed.

Lemma le_val_app bs1 bs2 :
  le_val (bs1 ++ bs2) = le_val bs1 + 256 ^ Z.of_nat (length bs1) * le_val bs2.
Proof.
  induction bs1 as [|b bs1 IH]; cbn [le_val app length]; [lia|].
  rewrite IH, Nat2Z.inj_succ, Z.pow_succ_r by lia. lia.
Qed.

Lemma is_bytes_app bs1 bs2 : is_bytes bs1 -> is_bytes bs2 -> is_bytes (bs1 ++ bs2).
Proof. intros. by apply Forall_app. Qed.

Section Slices.
Context {A : Type}.
Implicit Types (l bs : list A).

Lemma slice_length start len l :
  0 <= start -> 0 <= len -> start + len <= Z.of_nat (length l) ->
  length (slice start len l) = Z.to_nat len.
Proof. intros. unfold slice. rewrite length_take, length_drop. lia. Qed.

Lemma splice_length start bs l :
  0 <= start -> start + Z.of_nat (length bs) <= Z.of_nat (length l) ->
  length (splice start bs l) = length l.
Proof.
  intros. unfold splice. rewrite !length_app, length_take, length_drop. lia.
Qed.

Lemma slice_app_l start len l1 l2 :
  0 <= start -> 0 <= len -> start + len <= Z.of_nat (length l1) ->
  slice start len (l1 ++ l2) = slice start len l1.
Proof.
  intros. unfold slice. rewrite drop_app_le, take_app_le; [done|rewrite length_drop|]; lia.
Qed.

Lemma slice_app_r start len l1 l2 :
  Z.of_nat (length l1) <= start ->
  slice start len (l1 ++ l2) = slice (start - Z.of_nat (length l1)) len l2.
Proof.
  intros. unfold slice. rewrite drop_app_ge by lia. do 2 f_equal. lia.
Qed.

Lemma slice_splice_eq start bs l :
  0 <= start -> start + Z.of_nat (length bs) <= Z.of_nat (length l) ->
  slice start (Z.of_nat (length bs)) (splice start bs l) = bs.
Proof.
  intros. unfold splice. assert (Hl : length (take (Z.to_nat start) l) = Z.to_nat start)
    by (rewrite length_take; lia).
  rewrite slice_app_r by lia. rewrite Hl, Z2Nat.id by lia.
  rewrite Z.sub_diag. unfold slice. rewrite drop_0, Nat2Z.id. apply take_app_length.
Qed.

Lemma slice_splice_ne start len start' bs l :
  0 <= start -> 0 <= len -> 0 <= start' ->
  start' + Z.of_nat (length bs) <= Z.of_nat (length l) ->
  start + len <= start' \/ start' + Z.of_nat (length bs) <= start ->
  slice start len (splice start' bs l) = slice start len l.
Proof.
  intros ? ? ? ? Hd. unfold splice.
  assert (Hl : length (take (Z.to_nat start') l) = Z.to_nat start')
    by (rewrite length_take; lia).
  destruct Hd as [Hd|Hd].
  - rewrite slice_app_l by lia. unfold slice.
    rewrite <- (take_drop (Z.to_nat start') l) at 2.
    rewrite drop_app_le, take_app_le; [done|rewrite length_drop|]; lia.
  - rewrite !slice_app_r by lia. rewrite Hl. unfold slice.
    rewrite drop_drop. do 2 f_equal. lia.
Qed.

Lemma splice_splice_eq start bs bs' l :
  0 <= start -> length bs = length bs' ->
  start + Z.of_nat (length bs) <= Z.of_nat (length l) ->
  splice start bs (splice start bs' l) = splice start bs l.
Proof.
  intros. unfold splice at 1 3.
  assert (Hl : length (take (Z.to_nat start) l) = Z.to_nat start)
    by (rewrite length_take; lia).
  unfold splice. f_equal; [|f_equal].
  - rewrite take_app_le, take_take by lia. f_equal. lia.
  - rewrite !drop_app_ge, drop_drop by lia. f_equal. lia.
Qed.

Lemma splice_Forall (P : A -> Prop) start bs l :
  Forall P bs -> Forall P l -> Forall P (splice start bs l).
Proof.
  intros. unfold splice. rewrite !Forall_app.
  repeat split; auto using Forall_take, Forall_drop.
Qed.

Lemma slice_Forall (P : A -> Prop) start len l :
  Forall P l -> Forall P (slice start len l).
Proof. intros. apply Forall_take, Forall_drop. done. Qed.

Lemma slice_get_Some start stop l bs :
  slice_get start stop l = Some bs <->
  bs = slice start (stop - start) l /\ start <= stop <= Z.of_nat (length l).
Proof.
  unfold slice_get.
  destruct (Z.leb_spec start stop), (Z.leb_spec stop (Z.of_nat (length l)));
    simpl; naive_solver lia.
Qed.

Lemma slice_full l : slice 0 (Z.of_nat (length l)) l = l.
Proof. unfold slice. rewrite drop_0. apply firstn_all2. lia. Qed.
End Slices.

#[export] Hint Resolve le_bytes_is_bytes is_bytes_app splice_Forall slice_Forall : vm.
Create Rewrite HintDb vm_len.
#[export] Hint Rewrite @le_bytes_length @splice_length using lia : vm_len.

(** A fact about one byte, decided by running through all 256 of them. *)
Lemma byte_forall (P : Z -> bool) :
  forallb P (seqZ 0 256) = true -> forall b, is_byte b -> P b = true.
Proof.
  intros HP b Hb. rewrite forallb_forall in HP. apply HP.
  apply list_elem_of_In, elem_of_seqZ. unfold is_byte in Hb. lia.
Qed.

(** [a | (x << n)] with [a] below the shift is addition. *)
Lemma lor_shifted a x n :
  0 <= n -> 0 <= a < 2 ^ n -> Z.lor a (x * 2 ^ n) = a + x * 2 ^ n.
Proof.
  intros Hn Ha. rewrite <- Z.add_lor_land.
  replace (Z.land a (x * 2 ^ n)) with 0; [lia|].
  symmetry. apply Z.bits_inj'. intros i Hi. rewrite Z.land_spec, Z.bits_0.
  destruct (Z.lt_ge_cases i n).
  - by rewrite Z.mul_pow2_bits_low, andb_false_r.
  - rewrite <- (Z.mod_small a (2 ^ n)), Z.mod_pow2_bits_high by lia. done.
Qed.

Lemma is_bytes_forallb bs : forallb (in_range 0 255) bs = true -> is_bytes bs.
Proof.
  intros H. apply Forall_forall. intros b Hb. rewrite forallb_forall in H.
  apply list_elem_of_In, H in Hb. unfold in_range in Hb. bsimp. unfold is_byte. lia.
Qed.

(** Masking with a run of ones from bit [k] to bit [w]. *)
Lemma land_high_mask k w z :
  0 <= k <= w -> 0 <= z < 2 ^ w -> Z.land z (2 ^ w - 2 ^ k) = z - z mod 2 ^ k.
Proof.
  intros Hk Hz.
  assert (Hm : 2 ^ w - 2 ^ k = Z.shiftl (Z.ones (w - k)) k).
  { rewrite Z.shiftl_mul_pow2, Z.ones_equiv by lia.
    replace w with (w - k + k) at 1 by lia. rewrite Z.pow_add_r by lia. lia. }
  assert (Hr : z - z mod 2 ^ k = Z.shiftl (Z.shiftr z k) k).
  { rewrite Z.shiftl_mul_pow2, Z.shiftr_div_pow2 by lia.
    pose proof (Z.div_mod z (2 ^ k)). lia. }
  rewrite Hm, Hr. apply Z.bits_inj'. intros i Hi.
  rewrite Z.land_spec, !Z.shiftl_spec by lia.
  destruct (Z.lt_ge_cases i k).
  { rewrite !(Z.testbit_neg_r _ (i - k)) by lia. apply andb_false_r. }
  rewrite Z.shiftr_spec by lia. replace (i - k + k) with i by lia.
  destruct (Z.lt_ge_cases i w).
  - rewrite Z.ones_spec_low by lia. apply andb_true_r.
  - rewrite <- (Z.mod_small z (2 ^ w)), Z.mod_pow2_bits_high by lia. done.
Qed.

Lemma land_low_mask k z : 0 <= k -> Z.land z (2 ^ k - 1) = z mod 2 ^ k.
Proof. intros. rewrite <- Z.land_ones, Z.ones_equiv by lia. done. Qed.

Lemma slice_slice {A} (l : list A) a m i n : 0 <= a -> 0 <= i -> 0 <= n -> i + n <= m ->
  slice (a + i) n l = slice i n (slice a m l).
Proof.
  intros. unfold slice. rewrite skipn_firstn_comm, firstn_firstn, drop_drop. f_equal; [lia|f_equal; lia].
Qed.

Lemma slice_ext {A} (l l' : list A) start len :
  0 <= start -> length l = length l' ->
  (forall i : nat, start <= Z.of_nat i < start + len -> l !! i = l' !! i) ->
  slice start len l = slice start len l'.
Proof.
  intros Hs Hl H. unfold slice. apply list_eq. intros i.
  destruct (decide (i < Z.to_nat len)%nat).
  - rewrite !lookup_take_lt by done. rewrite !lookup_drop. apply H. lia.
  - rewrite !lookup_take_ge by lia. done.
Qed.

Lemma splice_lookup_ne {A} (l bs : list A) start (i : nat) :
  0 <= start -> start + Z.of_nat (length bs) <= Z.of_nat (length l) ->
  Z.of_nat i < start \/ start + Z.of_nat (length bs) <= Z.of_nat i ->
  splice start bs l !! i = l !! i.
Proof.
  intros Hs Hb Hi. unfold splice.
  assert (Hl : length (take (Z.to_nat start) l) = Z.to_nat start)
    by (rewrite length_take; lia).
  destruct Hi as [Hi|Hi].
  - rewrite lookup_app_l by lia. apply lookup_take_lt. lia.
  - rewrite !lookup_app_r by lia. rewrite Hl, lookup_drop. f_equal. lia.
Qed.

Lemma splice_mid {A} (l1 m l2 bs : list A) off : 0 <= off -> off + Z.of_nat (length bs) <= Z.of_nat (length m) ->
  splice (Z.of_nat (length l1) + off) bs (l1 ++ m ++ l2) = l1 ++ splice off bs m ++ l2.
Proof.
  intros Ho Hle. unfold splice. replace (Z.to_nat (Z.of_nat (length l1) + off)) with (length l1 + Z.to_nat off)%nat by lia.
  rewrite take_app_add, <- Nat.add_assoc, drop_app_add, take_app_le, drop_app_le by lia.
  by rewrite <- !app_assoc.
Qed.

Lemma slice_mid {A} (l1 m l2 : list A) : slice (Z.of_nat (length l1)) (Z.of_nat (length m)) (l1 ++ m ++ l2) = m.
Proof. unfold slice. by rewrite !Nat2Z.id, drop_app_length, take_app_length. Qed.

Lemma slice_splice_in {A} (l bs : list A) lo n off : 0 <= lo -> 0 <= off -> off + Z.of_nat (length bs) <= n ->
  lo + n <= Z.of_nat (length l) -> slice lo n (splice (lo + off) bs l) = splice off bs (slice lo n l).
Proof.
  intros Hlo Ho Hn Hl.
  assert (exists l1 m l2, l = l1 ++ m ++ l2 /\ lo = Z.of_nat (length l1) /\ n = Z.of_nat (length m)) as (l1 & m & l2 & -> & -> & ->).
  { exists (take (Z.to_nat lo) l), (take (Z.to_nat n) (drop (Z.to_nat lo) l)), (drop (Z.to_nat n) (drop (Z.to_nat lo) l)).
    rewrite !take_drop, !length_take, length_drop. split_and!; [done|lia..]. }
  rewrite splice_mid, slice_mid by lia. rewrite <- (slice_mid l1 (splice off bs m) l2) at 2. by rewrite splice_length by lia.
Qed.

Lemma splice_lookup_eq {A} (l bs : list A) start (i : nat) :
  0 <= start -> start + Z.of_nat (length bs) <= Z.of_nat (length l) ->
  start <= Z.of_nat i < start + Z.of_nat (length bs) -> splice start bs l !! i = bs !! (i - Z.to_nat start)%nat.
Proof.
  intros. unfold splice. rewrite lookup_app_r by (rewrite length_take; lia).
  rewrite length_take, lookup_app_l by lia. f_equal. lia.
Qed.

(** A slice of one value only. *)
Lemma slice_const {A} (l : list A) start n x : 0 <= start -> 0 <= n ->
  slice start n l = replicate (Z.to_nat n) x <->
  forall i : nat, start <= Z.of_nat i < start + n -> l !! i = Some x.
Proof.
  intros Hs Hn. unfold slice. split.
  - intros E i Hi. assert (El : take (Z.to_nat n) (drop (Z.to_nat start) l) !! (i - Z.to_nat start)%nat = Some x).
    { rewrite E. apply lookup_replicate. split; [done|lia]. }
    rewrite lookup_take_lt, lookup_drop in El by lia. rewrite <- El. f_equal. lia.
  - intros H. apply list_eq. intros i. destruct (decide (i < Z.to_nat n)%nat) as [Hi|Hi].
    + rewrite lookup_take_lt, lookup_drop by lia. rewrite H by lia. symmetry. apply lookup_replicate. split; [done|lia].
    + rewrite lookup_take_ge by lia. symmetry. apply lookup_ge_None. rewrite length_replicate. lia.
Qed.
