(* ===== verification/Unicode.v ===== *)
(** The parts of Rust's text types the sources rely on: UTF-8 well-formedness
    ([str::from_utf8]), the UTF-8 encoding of a scalar ([String::push]) and
    [char::decode_utf16].  A string is the list of its UTF-8 bytes; a UTF-16
    sequence is a list of code units. *)

From S2P Require Import Prelude Words.

(** [char]: a Unicode scalar value. *)
Definition is_scalar (c : Z) : bool :=
  in_range 0 55295 c || in_range 57344 1114111 c.

Definition is_continuation (b : Z) : bool := in_range 128 191 b.

(** [std::str::from_utf8(bytes).is_ok()]. *)
Fixpoint utf8_valid (bs : list Z) : bool :=
  match bs with
  | [] => true
  | b0 :: r0 =>
    if in_range 0 127 b0 then utf8_valid r0
    else match r0 with
    | [] => false
    | b1 :: r1 =>
      if in_range 194 223 b0 then is_continuation b1 && utf8_valid r1
      else match r1 with
      | [] => false
      | b2 :: r2 =>
        if in_range 224 239 b0 then
          in_range (if b0 =? 224 then 160 else 128) (if b0 =? 237 then 159 else 191) b1
          && is_continuation b2 && utf8_valid r2
        else match r2 with
        | [] => false
        | b3 :: r3 =>
          in_range 240 244 b0
          && in_range (if b0 =? 240 then 144 else 128) (if b0 =? 244 then 143 else 191) b1
          && is_continuation b2 && is_continuation b3 && utf8_valid r3
        end
      end
    end
  end.

(** [char::encode_utf8]. *)
Definition encode_scalar (c : Z) : list Z :=
  if c <? 128 then [c]
  else if c <? 2048 then [192 + c / 64; 128 + c mod 64]
  else if c <? 65536 then [224 + c / 4096; 128 + (c / 64) mod 64; 128 + c mod 64]
  else [240 + c / 262144; 128 + (c / 4096) mod 64; 128 + (c / 64) mod 64; 128 + c mod 64].

Definition is_high_surrogate (u : Z) : bool := in_range 55296 56319 u.
Definition is_low_surrogate (u : Z) : bool := in_range 56320 57343 u.

(** [char::decode_utf16]: [None] stands for an unpaired surrogate. *)
Fixpoint decode_utf16 (units : list Z) : list (option Z) :=
  match units with
  | [] => []
  | u :: rest =>
    if is_high_surrogate u then
      match rest with
      | v :: rest' =>
        if is_low_surrogate v
        then Some (65536 + (u - 55296) * 1024 + (v - 56320)) :: decode_utf16 rest'
        else None :: decode_utf16 rest
      | [] => [None]
      end
    else if is_low_surrogate u then None :: decode_utf16 rest
    else Some u :: decode_utf16 rest
  end.

(** [char::encode_utf16]. *)
Definition encode_utf16 (c : Z) : list Z :=
  if c <? 65536 then [c]
  else [55296 + (c - 65536) / 1024; 56320 + (c - 65536) mod 1024].

(** [str::chars] over the bytes of a string; a string holds valid UTF-8, and the
    scalar of a sequence is read from its payload bits. *)
Fixpoint utf8_chars (bs : list Z) : list Z :=
  match bs with
  | [] => []
  | b0 :: r0 =>
    if b0 <? 128 then b0 :: utf8_chars r0
    else match r0 with
    | [] => []
    | b1 :: r1 =>
      if b0 <? 224 then (b0 - 192) * 64 + (b1 - 128) :: utf8_chars r1
      else match r1 with
      | [] => []
      | b2 :: r2 =>
        if b0 <? 240 then (b0 - 224) * 4096 + (b1 - 128) * 64 + (b2 - 128) :: utf8_chars r2
        else match r2 with
        | [] => []
        | b3 :: r3 => (b0 - 240) * 262144 + (b1 - 128) * 4096 + (b2 - 128) * 64 + (b3 - 128) :: utf8_chars r3
        end
      end
    end
  end.

Ltac unfold_ranges :=
  unfold is_scalar, is_continuation, is_high_surrogate, is_low_surrogate, in_range in *.

Lemma in_range_true lo hi z : in_range lo hi z = true <-> lo <= z <= hi.
Proof. unfold in_range. rewrite andb_true_iff, !Z.leb_le. done. Qed.

Lemma in_range_false lo hi z : in_range lo hi z = false <-> z < lo \/ hi < z.
Proof. unfold in_range. rewrite andb_false_iff, !Z.leb_gt. done. Qed.

Lemma is_scalar_true c :
  is_scalar c = true <-> 0 <= c <= 55295 \/ 57344 <= c <= 1114111.
Proof. unfold is_scalar. rewrite orb_true_iff, !in_range_true. done. Qed.

(** Decides the range tests of a goal from arithmetic in context. *)
Ltac decide_ranges :=
  repeat match goal with
  | |- context [in_range ?lo ?hi ?z] =>
      first [ rewrite (proj2 (in_range_true lo hi z)) by lia
            | rewrite (proj2 (in_range_false lo hi z)) by lia ]
  | |- context [?a =? ?b] =>
      first [ rewrite (proj2 (Z.eqb_eq a b)) by lia
            | rewrite (proj2 (Z.eqb_neq a b)) by lia ]
  end.

Lemma encode_scalar_valid c rest :
  is_scalar c = true -> utf8_valid (encode_scalar c ++ rest) = utf8_valid rest.
Proof.
  intros Hc. apply is_scalar_true in Hc. unfold encode_scalar.
  destruct (Z.ltb_spec c 128); [|destruct (Z.ltb_spec c 2048); [|destruct (Z.ltb_spec c 65536)]];
    cbn [app utf8_valid]; unfold is_continuation.
  - by decide_ranges.
  - pose proof (Z.div_mod c 64 ltac:(lia)). pose proof (Z.mod_pos_bound c 64 ltac:(lia)).
    by decide_ranges.
  - pose proof (Z.div_mod c 64 ltac:(lia)). pose proof (Z.mod_pos_bound c 64 ltac:(lia)).
    pose proof (Z.div_mod (c / 64) 64 ltac:(lia)).
    pose proof (Z.mod_pos_bound (c / 64) 64 ltac:(lia)).
    assert (Hq : c / 4096 = c / 64 / 64) by (by rewrite Z.div_div).
    rewrite Hq.
    destruct (Z.eqb_spec (224 + c / 64 / 64) 224), (Z.eqb_spec (224 + c / 64 / 64) 237);
      by decide_ranges.
  - pose proof (Z.div_mod c 64 ltac:(lia)). pose proof (Z.mod_pos_bound c 64 ltac:(lia)).
    pose proof (Z.div_mod (c / 64) 64 ltac:(lia)).
    pose proof (Z.mod_pos_bound (c / 64) 64 ltac:(lia)).
    pose proof (Z.div_mod (c / 64 / 64) 64 ltac:(lia)).
    pose proof (Z.mod_pos_bound (c / 64 / 64) 64 ltac:(lia)).
    assert (Hq : c / 4096 = c / 64 / 64) by (by rewrite Z.div_div).
    assert (Hq' : c / 262144 = c / 64 / 64 / 64) by (by rewrite !Z.div_div).
    rewrite Hq', Hq.
    destruct (Z.eqb_spec (240 + c / 64 / 64 / 64) 240), (Z.eqb_spec (240 + c / 64 / 64 / 64) 244);
      by decide_ranges.
Qed.

Lemma decode_encode_utf16 c rest :
  is_scalar c = true ->
  decode_utf16 (encode_utf16 c ++ rest) = Some c :: decode_utf16 rest.
Proof.
  intros Hc. apply is_scalar_true in Hc. unfold encode_utf16.
  destruct (Z.ltb_spec c 65536); cbn [app decode_utf16];
    unfold is_high_surrogate, is_low_surrogate.
  - by decide_ranges.
  - pose proof (Z.div_mod (c - 65536) 1024 ltac:(lia)).
    pose proof (Z.mod_pos_bound (c - 65536) 1024 ltac:(lia)).
    decide_ranges. do 2 f_equal. lia.
Qed.

Lemma utf8_chars_encode c rest : is_scalar c = true -> utf8_chars (encode_scalar c ++ rest) = c :: utf8_chars rest.
Proof.
  intros Hc. apply is_scalar_true in Hc. unfold encode_scalar.
  pose proof (Z.div_mod c 64 ltac:(lia)). pose proof (Z.mod_pos_bound c 64 ltac:(lia)).
  assert (Hq : c / 4096 = c / 64 / 64) by (by rewrite Z.div_div).
  assert (Hq' : c / 262144 = c / 64 / 64 / 64) by (by rewrite !Z.div_div).
  pose proof (Z.div_mod (c / 64) 64 ltac:(lia)). pose proof (Z.mod_pos_bound (c / 64) 64 ltac:(lia)).
  pose proof (Z.div_mod (c / 64 / 64) 64 ltac:(lia)). pose proof (Z.mod_pos_bound (c / 64 / 64) 64 ltac:(lia)).
  destruct (Z.ltb_spec c 128); [|destruct (Z.ltb_spec c 2048); [|destruct (Z.ltb_spec c 65536)]]; cbn [app utf8_chars];
    rewrite ?Hq', ?Hq; repeat match goal with |- context [?a <? ?b] => destruct (Z.ltb_spec a b); try lia end;
    f_equal; lia.
Qed.

(** The characters of a valid string are scalars. *)
Lemma utf8_chars_scalars bs : utf8_valid bs = true -> Forall (fun c => is_scalar c = true) (utf8_chars bs).
Proof.
  enough (H : forall n bs, (length bs <= n)%nat -> utf8_valid bs = true -> Forall (fun c => is_scalar c = true) (utf8_chars bs)).
  { by apply (H (length bs)). }
  clear bs. induction n as [|n IH]; intros bs Hn Hv; [destruct bs; simpl in Hn; [constructor|lia]|].
  destruct bs as [|b0 r0]; [constructor|]. cbn [utf8_valid utf8_chars] in *. simpl in Hn.
  destruct (in_range 0 127 b0) eqn:E0; [apply in_range_true in E0|apply in_range_false in E0].
  { rewrite (proj2 (Z.ltb_lt _ _)) by lia. constructor; [apply is_scalar_true; lia|]. apply IH; [lia|done]. }
  destruct r0 as [|b1 r1]; [done|]. simpl in Hn.
  destruct (in_range 194 223 b0) eqn:E1; [apply in_range_true in E1|apply in_range_false in E1].
  { apply andb_true_iff in Hv as [H1 Hv]. apply in_range_true in H1.
    rewrite (proj2 (Z.ltb_ge _ 128)), (proj2 (Z.ltb_lt _ 224)) by lia.
    constructor; [apply is_scalar_true; lia|]. apply IH; [lia|done]. }
  destruct r1 as [|b2 r2]; [done|]. simpl in Hn.
  destruct (in_range 224 239 b0) eqn:E2; [apply in_range_true in E2|apply in_range_false in E2].
  { apply andb_true_iff in Hv as [Hv Hr]. apply andb_true_iff in Hv as [H1 H2]. apply in_range_true in H1, H2.
    rewrite (proj2 (Z.ltb_ge _ 128)), (proj2 (Z.ltb_ge _ 224)), (proj2 (Z.ltb_lt _ 240)) by lia.
    constructor; [|apply IH; [lia|done]]. apply is_scalar_true.
    destruct (Z.eqb_spec b0 224), (Z.eqb_spec b0 237); lia. }
  destruct r2 as [|b3 r3]; [done|]. simpl in Hn.
  repeat (apply andb_true_iff in Hv as [Hv ?]). rename Hv into Hb. unfold is_continuation in *.
  repeat match goal with H : in_range _ _ _ = true |- _ => apply in_range_true in H end.
  rewrite (proj2 (Z.ltb_ge _ 128)), (proj2 (Z.ltb_ge _ 224)), (proj2 (Z.ltb_ge _ 240)) by lia.
  constructor; [|apply IH; [lia|done]]. apply is_scalar_true.
  destruct (Z.eqb_spec b0 240), (Z.eqb_spec b0 244); lia.
Qed.
