(* ===== verification/Bytes.v ===== *)
(** src/diagnostic.rs and src/bytes.rs: bounded diagnostics and the byte cursor
    every decoder of the artifact format reads through.

    [Diagnostics] models the diagnostic record, its bounded detail text and the
    bounded [DiagnosticSet].  [Cursor] models the bounds-checked reader: fixed
    width little-endian reads, canonical ULEB128 and [take].  The reader is a
    state transformer over the cursor, so a failed read shows the position it
    leaves behind. *)

From S2P Require Import Prelude Words Unicode.

Module Diagnostics.

Definition MAX_DETAIL_BYTES : Z := 256.

Inductive Family :=
| Container | Section_ | Limit | Module_ | Symbol | Type_ | Code_ | Cfg | Register_
| Exception | Capability | Cost.

Inductive Code :=
| UnexpectedEnd | IntegerOverflow | NonCanonicalUleb128 | InvalidUtf8 | LimitExceeded
| BadMagic | UnsupportedVersion | BadLength | BadDigest | BadDirectory | BadSection
| BadRecord | BadModule | BadSymbol | BadType | BadInstruction | BadControlFlow
| UninitializedRegister | BadException | BadCapability | BadCost.

Record Location := mkLocation {
  offset : option Z;
  section : option Z;
  module : option Z;
  function : option Z;
  block : option Z;
  instruction : option Z }.

Definition Location_default : Location := mkLocation None None None None None None.

(** [detail] is the UTF-8 bytes of the message. *)
Record Diagnostic := mkDiagnostic {
  family : Family;
  code : Code;
  location : Location;
  detail : list Z }.

(** [str::is_char_boundary]: the ends, and every byte that is not a UTF-8
    continuation byte. *)
Definition is_char_boundary (s : list Z) (i : nat) : bool :=
  if (i =? 0)%nat then true
  else match s !! i with
       | None => (i =? length s)%nat
       | Some b => negb (Z.land b 192 =? 128)
       end.

(** [while !detail.is_char_boundary(boundary) { boundary -= 1 }]: structural on
    the boundary itself, since zero is always a boundary. *)
Fixpoint char_boundary_below (s : list Z) (boundary : nat) : nat :=
  if is_char_boundary s boundary then boundary
  else match boundary with
       | O => O
       | S b => char_boundary_below s b
       end.

Definition truncate_detail (s : list Z) : list Z :=
  if Z.of_nat (length s) <=? MAX_DETAIL_BYTES then s
  else take (char_boundary_below s (Z.to_nat MAX_DETAIL_BYTES)) s.

Definition at_offset (f : Family) (c : Code) (off : Z) (text : list Z) : Diagnostic :=
  mkDiagnostic f c
    (mkLocation (try_from_unsigned u64_max off) None None None None None)
    (truncate_detail text).

Record DiagnosticSet := mkSet { diagnostics : list Diagnostic; limit : nat }.

Definition DiagnosticSet_new (l : nat) : DiagnosticSet := mkSet [] l.

Definition push (set : DiagnosticSet) (d : Diagnostic) : DiagnosticSet :=
  if (limit set <=? length (diagnostics set))%nat then set
  else mkSet (diagnostics set ++
                [mkDiagnostic (family d) (code d) (location d) (truncate_detail (detail d))])
             (limit set).

Definition DiagnosticSet_first (set : DiagnosticSet) : option Diagnostic := head (diagnostics set).

(** The UTF-8 bytes of an ASCII literal of the source. *)
Fixpoint text (s : string) : list Z :=
  match s with
  | EmptyString => []
  | String c s => Z.of_nat (Ascii.nat_of_ascii c) :: text s
  end.

Lemma char_boundary_below_spec s b :
  (char_boundary_below s b <= b)%nat /\ is_char_boundary s (char_boundary_below s b) = true.
Proof.
  induction b as [|b IH]; [done|].
  unfold char_boundary_below; fold char_boundary_below.
  destruct (is_char_boundary s (S b)) eqn:E; [split; [lia|done]|].
  destruct IH. split; [lia|done].
Qed.

Lemma char_boundary_below_greatest s b c :
  (char_boundary_below s b < c <= b)%nat -> is_char_boundary s c = false.
Proof.
  induction b as [|b IH]; [simpl; lia|].
  unfold char_boundary_below; fold char_boundary_below.
  destruct (is_char_boundary s (S b)) eqn:E; [lia|]. intros Hc.
  destruct (decide (c = S b)) as [->|]; [done|]. apply IH. lia.
Qed.

Lemma truncate_detail_idemp s : truncate_detail (truncate_detail s) = truncate_detail s.
Proof.
  unfold truncate_detail at 2 3.
  destruct (Z.leb_spec (Z.of_nat (length s)) MAX_DETAIL_BYTES) as [H|H].
  { unfold truncate_detail. by apply Z.leb_le in H as ->. }
  pose proof (char_boundary_below_spec s (Z.to_nat MAX_DETAIL_BYTES)) as [Hle _].
  unfold truncate_detail. rewrite (proj2 (Z.leb_le _ _)); [done|].
  rewrite length_take. unfold MAX_DETAIL_BYTES in *. lia.
Qed.

End Diagnostics.

Module Cursor.
Import Diagnostics.

Record Cursor := mkCursor { bytes : list Z; position : Z }.

Abbreviation Read := (ST Cursor Diagnostic).

Definition cursor_new (bs : list Z) : Cursor := mkCursor bs 0.

Definition error_at (off : Z) (c : Code) (d : string) : Diagnostic :=
  at_offset Container c off (text d).

Definition take (len : Z) : Read (list Z) := fun c =>
  let start := position c in
  match checked_add usize_max start len with
  | None => (Err (error_at start IntegerOverflow "byte range overflows usize"), c)
  | Some stop =>
    match slice_get start stop (bytes c) with
    | None => (Err (error_at start UnexpectedEnd "value extends beyond input"), c)
    | Some bs => (Ok bs, mkCursor (bytes c) stop)
    end
  end.

(** [self.take(1)?[0]]. *)
Definition read_u8 : Read Z :=
  bs ← take 1; st_lift (expect (head bs)).

Definition read_u16 : Read Z := bs ← take 2; mret (le_val bs).
Definition read_u32 : Read Z := bs ← take 4; mret (le_val bs).
Definition read_i32 : Read Z := bs ← take 4; mret (as_signed 32 (le_val bs)).
Definition read_u64 : Read Z := bs ← take 8; mret (le_val bs).

(** The [&str] is its bytes; the closure runs after [take] has advanced. *)
Definition read_utf8 (len : Z) : Read (list Z) := fun c =>
  let start := position c in
  (bs ← take len;
   if utf8_valid bs then mret bs
   else st_err (error_at start InvalidUtf8 "text is not valid UTF-8")) c.

(** The body of [for group in 0..5]. *)
Fixpoint read_uleb32_groups (start value : Z) (groups : list Z) : Read Z :=
  match groups with
  | [] => st_err (error_at start IntegerOverflow "ULEB128 exceeds five bytes")
  | group :: groups =>
      byte ← read_u8;
      if (group =? 4) && negb (Z.land byte 240 =? 0)
      then st_err (error_at start IntegerOverflow "ULEB128 exceeds u32")
      else
        let value := Z.lor value (wrap_unsigned 32 (Z.shiftl (Z.land byte 127) (group * 7))) in
        if Z.land byte 128 =? 0 then
          if (0 <? group) && (Z.land byte 127 =? 0)
          then st_err (error_at start NonCanonicalUleb128 "ULEB128 has a redundant final group")
          else mret value
        else read_uleb32_groups start value groups
  end.

Definition read_uleb32 : Read Z := fun c =>
  read_uleb32_groups (position c) 0 [0; 1; 2; 3; 4] c.

(** ** Specification of the canonical ULEB128 encoding of a [u32] *)

Fixpoint uleb_encode (fuel : nat) (v : Z) : list Z :=
  match fuel with
  | O => []
  | S fuel => if v <? 128 then [v] else (v mod 128 + 128) :: uleb_encode fuel (v / 128)
  end.

Definition cursor_ok (c : Cursor) : Prop :=
  is_bytes (bytes c) /\ 0 <= position c <= Z.of_nat (length (bytes c)) /\
  Z.of_nat (length (bytes c)) <= usize_max.

(** The unread input. *)
Definition rest (c : Cursor) : list Z := drop (Z.to_nat (position c)) (bytes c).

Definition advance (n : nat) (c : Cursor) : Cursor :=
  mkCursor (bytes c) (position c + Z.of_nat n).

Lemma rest_length c : cursor_ok c ->
  Z.of_nat (length (rest c)) = Z.of_nat (length (bytes c)) - position c.
Proof. intros (_ & ? & _). unfold rest. rewrite length_drop. lia. Qed.

Lemma rest_advance n c : cursor_ok c -> rest (advance n c) = drop n (rest c).
Proof.
  intros (_ & ? & _). unfold rest, advance. simpl. rewrite drop_drop. f_equal. lia.
Qed.

Lemma advance_ok n c :
  cursor_ok c -> (n <= length (rest c))%nat -> cursor_ok (advance n c).
Proof.
  intros Hc Hn. pose proof (rest_length c Hc). destruct Hc as (Hb & ? & ?).
  split; [done|]. simpl. lia.
Qed.

Lemma take_ok c (n : nat) :
  cursor_ok c -> (n <= length (rest c))%nat ->
  take (Z.of_nat n) c = (Ok (firstn n (rest c)), advance n c).
Proof.
  intros Hc Hn. pose proof (rest_length c Hc). destruct Hc as (Hb & ? & ?).
  unfold take, checked_add. rewrite (proj2 (Z.leb_le _ _)) by lia.
  unfold slice_get. rewrite !(proj2 (Z.leb_le _ _)) by lia. simpl.
  unfold slice, rest, advance. do 4 f_equal. lia.
Qed.

Lemma take_short c len :
  cursor_ok c -> Z.of_nat (length (rest c)) < len ->
  exists e, take len c = (Err e, c) /\ location e = mkLocation (Some (position c)) None None None None None.
Proof.
  intros Hc Hn. pose proof (rest_length c Hc). destruct Hc as (Hb & ? & ?).
  unfold take. destruct (checked_add _ _ _) as [stop|] eqn:E.
  - bsimp. unfold slice_get. rewrite (proj2 (Z.leb_le _ _)) by lia.
    rewrite (proj2 (Z.leb_gt _ _)) by lia. eexists. split; [reflexivity|].
    simpl. unfold try_from_unsigned, in_range, u64_max, usize_max in *.
    rewrite !(proj2 (Z.leb_le _ _)) by lia. done.
  - eexists. split; [reflexivity|].
    simpl. unfold try_from_unsigned, in_range, u64_max, usize_max in *.
    rewrite !(proj2 (Z.leb_le _ _)) by lia. done.
Qed.

Lemma read_u8_cons c b bs :
  cursor_ok c -> rest c = b :: bs -> read_u8 c = (Ok b, advance 1 c).
Proof.
  intros Hc Hr. unfold read_u8. erewrite st_bind_ok.
  2:{ apply (take_ok c 1); [done|]. rewrite Hr. simpl. lia. }
  by rewrite Hr.
Qed.

Lemma read_u8_nil c : cursor_ok c -> rest c = [] -> exists e, read_u8 c = (Err e, c).
Proof.
  intros Hc Hr. destruct (take_short c 1 Hc) as (e & He & _); [rewrite Hr; simpl; lia|].
  exists e. unfold read_u8. by apply st_bind_err.
Qed.

(** The masks of the decoder, as arithmetic on a byte. *)
Lemma byte_masks b : is_byte b ->
  Z.land b 127 = b mod 128 /\ (Z.land b 128 =? 0) = (b <? 128) /\
  (Z.land b 240 =? 0) = (b <? 16).
Proof.
  intros Hb.
  assert (H : (Z.land b 127 =? b mod 128) && eqb (Z.land b 128 =? 0) (b <? 128)
              && eqb (Z.land b 240 =? 0) (b <? 16) = true).
  { revert b Hb. apply byte_forall. by vm_compute. }
  bsimp. by rewrite !eqb_true_iff in *.
Qed.

Lemma uleb_group_value acc x g :
  0 <= g <= 4 -> 0 <= acc < 2 ^ (g * 7) -> 0 <= x < 2 ^ (32 - g * 7) ->
  Z.lor acc (wrap_unsigned 32 (Z.shiftl x (g * 7))) = acc + x * 2 ^ (g * 7).
Proof.
  intros Hg Hacc Hx. rewrite Z.shiftl_mul_pow2 by lia. unfold wrap_unsigned.
  rewrite Z.mod_small.
  2:{ split; [apply Z.mul_nonneg_nonneg; lia|].
      replace 32 with (32 - g * 7 + g * 7) by lia. rewrite Z.pow_add_r by lia.
      apply Z.mul_lt_mono_pos_r; lia. }
  apply lor_shifted; lia.
Qed.

Lemma groups_cons n :
  seqZ (5 - Z.of_nat (S n)) (Z.of_nat (S n)) =
  (5 - Z.of_nat (S n)) :: seqZ (5 - Z.of_nat n) (Z.of_nat n).
Proof. rewrite seqZ_cons by lia. do 2 f_equal; lia. Qed.

Lemma pow_step n : (n < 5)%nat ->
  2 ^ ((5 - Z.of_nat n) * 7) = 128 * 2 ^ ((5 - Z.of_nat (S n)) * 7).
Proof.
  intros. replace ((5 - Z.of_nat n) * 7) with (7 + (5 - Z.of_nat (S n)) * 7) by lia.
  rewrite Z.pow_add_r by lia. done.
Qed.

Lemma pow_step_room n : (0 < n < 5)%nat ->
  2 ^ (32 - (5 - Z.of_nat (S n)) * 7) = 128 * 2 ^ (32 - (5 - Z.of_nat n) * 7).
Proof.
  intros. replace (32 - (5 - Z.of_nat (S n)) * 7) with (7 + (32 - (5 - Z.of_nat n) * 7)) by lia.
  rewrite Z.pow_add_r by lia. done.
Qed.

(** The last group has room for four bits only. *)
Lemma group_limit n b : (n < 5)%nat -> is_byte b ->
  ((5 - Z.of_nat (S n) =? 4) && negb (Z.land b 240 =? 0)) = false <->
  b mod 128 < 2 ^ (32 - (5 - Z.of_nat (S n)) * 7) /\ (n = O -> b < 128).
Proof.
  intros Hn Hb. destruct (byte_masks b Hb) as (_ & _ & ->). unfold is_byte in Hb.
  pose proof (Z.mod_pos_bound b 128 ltac:(lia)).
  assert (n = 0 \/ n = 1 \/ n = 2 \/ n = 3 \/ n = 4)%nat as Hcases by lia.
  destruct Hcases as [-> | [-> | [-> | [-> | ->]]]]; eval_pow; simpl.
  { destruct (Z.ltb_spec b 16); simpl.
    - rewrite Z.mod_small by lia. split; [|done]. intros _. split; lia.
    - split; [done|]. intros [Hlt Hb']. specialize (Hb' eq_refl).
      rewrite Z.mod_small in Hlt by lia. lia. }
  all: split; [intros _; split; [lia|done]|done].
Qed.

Lemma uleb_encode_S fuel v :
  uleb_encode (S fuel) v =
  if v <? 128 then [v] else (v mod 128 + 128) :: uleb_encode fuel (v / 128).
Proof. done. Qed.

Lemma read_groups_sound n start acc c v c' :
  (n <= 5)%nat -> cursor_ok c -> 0 <= acc < 2 ^ ((5 - Z.of_nat n) * 7) ->
  read_uleb32_groups start acc (seqZ (5 - Z.of_nat n) (Z.of_nat n)) c = (Ok v, c') ->
  exists r tl, 0 <= r < 2 ^ (32 - (5 - Z.of_nat n) * 7) /\ ((n < 5)%nat -> 0 < r) /\
    v = acc + r * 2 ^ ((5 - Z.of_nat n) * 7) /\
    rest c = uleb_encode n r ++ tl /\ c' = advance (length (uleb_encode n r)) c.
Proof.
  revert acc c v c'. induction n as [|n IH]; intros acc c v c' Hn Hc Hacc Hrun.
  { by simpl in Hrun. }
  rewrite groups_cons in Hrun. cbn [read_uleb32_groups] in Hrun.
  destruct (rest c) as [|b tl] eqn:Hrest.
  { destruct (read_u8_nil c Hc Hrest) as [e He].
    by rewrite (st_bind_err _ _ _ _ _ He) in Hrun. }
  rewrite (st_bind_ok _ _ _ _ _ (read_u8_cons c b tl Hc Hrest)) in Hrun.
  assert (Hb : is_byte b).
  { destruct Hc as [Hbs _]. assert (Hf : is_bytes (rest c)) by (by apply Forall_drop).
    rewrite Hrest in Hf. by inversion Hf. }
  destruct (_ && _) eqn:Hlim in Hrun; [done|].
  apply group_limit in Hlim as [Hlt Hlast]; [|lia|done].
  destruct (byte_masks b Hb) as (Hm & Hm8 & _). rewrite Hm, Hm8 in Hrun.
  pose proof (Z.mod_pos_bound b 128 ltac:(lia)) as Hbm.
  rewrite uleb_group_value in Hrun by lia. unfold is_byte in Hb.
  destruct (Z.ltb_spec b 128) as [Hb128|Hb128].
  - destruct (_ && _) eqn:Hcan in Hrun; [done|]. injection Hrun as <- <-.
    rewrite Z.mod_small in * by lia.
    exists b, tl. rewrite uleb_encode_S, (proj2 (Z.ltb_lt _ _)) by lia.
    split_and!; [lia|lia| |done|done|done].
    intros. apply andb_false_iff in Hcan as [Hcan|Hcan]; bsimp; lia.
  - destruct n as [|n]; [specialize (Hlast eq_refl); lia|].
    rewrite (pow_step (S n)) in IH by lia. rewrite pow_step_room by lia.
    apply IH in Hrun as (r & tl' & Hr & Hrpos & -> & Hrest' & ->);
      [|lia|apply advance_ok; [done|rewrite Hrest; simpl; lia]|nia].
    specialize (Hrpos ltac:(lia)).
    exists (b mod 128 + 128 * r), tl'.
    rewrite uleb_encode_S, (proj2 (Z.ltb_ge _ _)) by lia.
    rewrite (Z.add_comm (b mod 128)), Z.mul_comm, Z_div_plus_full_l, Z.div_small by lia.
    rewrite Z.add_0_r, (Z.add_comm (r * 128)), Z_mod_plus_full, Z.mod_mod by lia.
    split_and!; [lia|lia|lia|lia| |].
    + rewrite rest_advance, Hrest in Hrest' by done. cbn [drop] in Hrest'.
      rewrite drop_0 in Hrest'. rewrite Hrest'. cbn [app]. f_equal.
      pose proof (Z.mod_unique_pos b 128 1 (b - 128)). lia.
    + unfold advance. simpl. f_equal. lia.
Qed.

Lemma read_groups_complete n start acc c r tl :
  (0 < n <= 5)%nat -> cursor_ok c -> 0 <= acc < 2 ^ ((5 - Z.of_nat n) * 7) ->
  0 <= r < 2 ^ (32 - (5 - Z.of_nat n) * 7) -> ((n < 5)%nat -> 0 < r) ->
  rest c = uleb_encode n r ++ tl ->
  read_uleb32_groups start acc (seqZ (5 - Z.of_nat n) (Z.of_nat n)) c =
  (Ok (acc + r * 2 ^ ((5 - Z.of_nat n) * 7)), advance (length (uleb_encode n r)) c).
Proof.
  revert acc c r. induction n as [|n IH]; intros acc c r Hn Hc Hacc Hr Hpos Hrest; [lia|].
  rewrite groups_cons. cbn [read_uleb32_groups]. rewrite uleb_encode_S in *.
  destruct (Z.ltb_spec r 128) as [Hr128|Hr128]; cbn [app] in Hrest.
  - rewrite (st_bind_ok _ _ _ _ _ (read_u8_cons c r tl Hc Hrest)).
    assert (Hb : is_byte r) by (unfold is_byte; lia).
    rewrite (proj2 (group_limit n r ltac:(lia) Hb)) by (rewrite Z.mod_small; lia).
    destruct (byte_masks r Hb) as (-> & -> & _). rewrite Z.mod_small by lia.
    rewrite (proj2 (Z.ltb_lt _ _)), uleb_group_value by lia.
    destruct (_ && _) eqn:Hcan; [|done]. bsimp. lia.
  - set (b := r mod 128 + 128) in *.
    pose proof (Z.mod_pos_bound r 128 ltac:(lia)) as Hm.
    pose proof (Z.div_mod r 128 ltac:(lia)) as Hdm.
    rewrite (st_bind_ok _ _ _ _ _ (read_u8_cons c b _ Hc Hrest)).
    assert (Hb : is_byte b) by (unfold is_byte; lia).
    assert (Hbm : b mod 128 = r mod 128).
    { subst b. rewrite <- (Z.mul_1_l 128) at 2. by rewrite Z_mod_plus_full, Z.mod_mod. }
    destruct n as [|n]; [change (2 ^ (32 - (5 - Z.of_nat 1) * 7)) with 16 in Hr; lia|].
    rewrite pow_step_room in Hr by lia.
    pose proof (Z.pow_pos_nonneg 2 (32 - (5 - Z.of_nat (S n)) * 7) ltac:(lia) ltac:(lia)).
    rewrite (proj2 (group_limit (S n) b ltac:(lia) Hb))
      by (rewrite Hbm, pow_step_room; lia).
    destruct (byte_masks b Hb) as (-> & -> & _). rewrite Hbm.
    rewrite (proj2 (Z.ltb_ge _ _)), uleb_group_value
      by (try rewrite pow_step_room by lia; lia).
    pose proof (pow_step (S n) ltac:(lia)) as Hstep.
    rewrite (IH _ _ (r / 128)); [|lia| | | | |].
    + f_equal; [f_equal; nia|]. unfold advance. simpl. f_equal. lia.
    + apply advance_ok; [done|]. rewrite Hrest. simpl. lia.
    + nia.
    + split; [apply Z.div_pos; lia|apply Z.div_lt_upper_bound; lia].
    + intros _. apply Z.div_str_pos. lia.
    + by rewrite rest_advance, Hrest by done.
Qed.

End Cursor.

(** ** Properties *)

Module CursorProps.
Import Diagnostics Cursor.

(** The ULEB128 reader accepts exactly the canonical encodings: it returns
    [v] and stops [k] bytes later if and only if [v] is a [u32] and the next [k]
    bytes of the input are the canonical encoding of [v]. *)
Theorem read_uleb32_canonical (c : Cursor) (v : Z) (c' : Cursor) :
  cursor_ok c ->
  read_uleb32 c = (Ok v, c') <->
  0 <= v < 2 ^ 32 /\ c' = advance (length (uleb_encode 5 v)) c /\
  exists tl, rest c = uleb_encode 5 v ++ tl.
Proof.
  intros Hc. unfold read_uleb32. change [0; 1; 2; 3; 4] with (seqZ (5 - Z.of_nat 5) (Z.of_nat 5)).
  split.
  - intros Hrun. apply read_groups_sound in Hrun as (r & tl & Hr & _ & -> & Hrest & ->);
      [|lia|done|done].
    rewrite Z.mul_1_r, Z.add_0_l. split; [exact Hr|]. split; [done|by exists tl].
  - intros (Hv & -> & tl & Hrest).
    rewrite (read_groups_complete 5 _ 0 c v tl); [|lia|done|done|done|lia|done].
    by rewrite Z.mul_1_r, Z.add_0_l.
Qed.

Lemma read_uleb32_canonical_witness :
  read_uleb32 (cursor_new [229; 142; 38; 7]) = (Ok 624485, mkCursor [229; 142; 38; 7] 3).
Proof.
  apply (read_uleb32_canonical (cursor_new [229; 142; 38; 7])).
  - split; [by apply is_bytes_forallb|]. vm_compute. by split; [split|].
  - split; [vm_compute; by split|]. split; [reflexivity|]. exists [7]. reflexivity.
Defined.

(** A detail text is cut to at most 256 bytes, at the last character
    boundary that fits, and short texts are kept as they are. *)
Theorem truncate_detail_spec (s : list Z) :
  (length (truncate_detail s) <= 256)%nat /\
  truncate_detail s `prefix_of` s /\
  is_char_boundary s (length (truncate_detail s)) = true /\
  forall i, (length (truncate_detail s) < i <= 256)%nat -> (i <= length s)%nat ->
            is_char_boundary s i = false.
Proof.
  unfold truncate_detail, MAX_DETAIL_BYTES.
  destruct (Z.leb_spec (Z.of_nat (length s)) 256) as [H|H].
  - split_and!; [lia|done| |lia].
    unfold is_char_boundary. destruct (_ =? _)%nat; [done|].
    rewrite lookup_ge_None_2 by lia. apply Nat.eqb_refl.
  - pose proof (char_boundary_below_spec s 256) as [Hle Hb].
    rewrite length_take. change (Z.to_nat 256) with 256%nat.
    rewrite Nat.min_l by lia.
    split_and!; [lia|apply prefix_take|done|].
    intros i Hi _. by apply (char_boundary_below_greatest s 256).
Qed.

End CursorProps.
