(* ===== verification/Fields.v ===== *)
(** Bit fields of a machine word: reading [n] bits at [sh], replacing them, and
    the two's independence.  The header words of the heap are read and written
    through these. *)

From S2P Require Import Prelude Words.

(** [(x >> sh) & ones(n)]. *)
Definition get_field (x sh n : Z) : Z := Z.land (Z.shiftr x sh) (Z.ones n).

(** [(x & !(ones(n) << sh)) | (u << sh)]. *)
Definition set_field (x sh n u : Z) : Z :=
  Z.lor (Z.ldiff x (Z.shiftl (Z.ones n) sh)) (Z.shiftl u sh).

Lemma testbit_ones n i : 0 <= n -> 0 <= i -> Z.testbit (Z.ones n) i = (i <? n).
Proof.
  intros. destruct (Z.ltb_spec i n); [apply Z.ones_spec_low|apply Z.ones_spec_high]; lia.
Qed.

Lemma testbit_small w z i : 0 <= z < 2 ^ w -> 0 <= w <= i -> Z.testbit z i = false.
Proof.
  intros Hz Hi. rewrite <- (Z.mod_small z (2 ^ w)) by done. by apply Z.mod_pow2_bits_high.
Qed.

Lemma bits_bound w z : 0 <= w -> 0 <= z -> (forall i, w <= i -> Z.testbit z i = false) -> z < 2 ^ w.
Proof.
  intros Hw Hz H. destruct (Z.lt_ge_cases z (2 ^ w)) as [|Hge]; [done|exfalso].
  assert (Hz0 : 0 < z) by (pose proof (Z.pow_pos_nonneg 2 w); lia).
  pose proof (Z.bit_log2 z Hz0) as Hb. rewrite H in Hb; [done|].
  apply Z.log2_le_pow2; lia.
Qed.

Lemma testbit_get_field x sh n i :
  0 <= sh -> 0 <= n -> 0 <= i ->
  Z.testbit (get_field x sh n) i = Z.testbit x (i + sh) && (i <? n).
Proof. intros. unfold get_field. by rewrite Z.land_spec, Z.shiftr_spec, testbit_ones. Qed.

Lemma testbit_set_field x sh n u i :
  0 <= sh -> 0 <= n -> 0 <= u < 2 ^ n -> 0 <= i ->
  Z.testbit (set_field x sh n u) i =
  if (sh <=? i) && (i <? sh + n) then Z.testbit u (i - sh) else Z.testbit x i.
Proof.
  intros Hsh Hn Hu Hi. unfold set_field.
  rewrite Z.lor_spec, Z.ldiff_spec, !Z.shiftl_spec by lia.
  destruct (Z.leb_spec sh i); simpl.
  - rewrite testbit_ones by lia.
    destruct (Z.ltb_spec (i - sh) n), (Z.ltb_spec i (sh + n)); try lia; simpl.
    + by rewrite andb_false_r.
    + rewrite andb_true_r, (testbit_small n u) by lia. apply orb_false_r.
  - rewrite !(Z.testbit_neg_r _ (i - sh)) by lia. by rewrite andb_true_r, orb_false_r.
Qed.

Lemma get_set_field x sh n u :
  0 <= sh -> 0 <= n -> 0 <= u < 2 ^ n -> get_field (set_field x sh n u) sh n = u.
Proof.
  intros Hsh Hn Hu. apply Z.bits_inj'. intros i Hi.
  rewrite testbit_get_field, testbit_set_field by lia.
  destruct (Z.ltb_spec i n).
  - rewrite (proj2 (Z.leb_le _ _)), (proj2 (Z.ltb_lt _ _)) by lia. simpl.
    rewrite andb_true_r. f_equal. lia.
  - by rewrite andb_false_r, (testbit_small n u) by lia.
Qed.

Lemma get_set_field_ne x sh n u sh' n' :
  0 <= sh -> 0 <= n -> 0 <= u < 2 ^ n -> 0 <= sh' -> 0 <= n' ->
  sh' + n' <= sh \/ sh + n <= sh' ->
  get_field (set_field x sh n u) sh' n' = get_field x sh' n'.
Proof.
  intros Hsh Hn Hu Hsh' Hn' Hd. apply Z.bits_inj'. intros i Hi.
  rewrite !testbit_get_field, testbit_set_field by lia.
  destruct (Z.ltb_spec i n'); [|by rewrite !andb_false_r].
  destruct (Z.leb_spec sh (i + sh')), (Z.ltb_spec (i + sh') (sh + n)); simpl; try done; lia.
Qed.

Lemma get_field_bound x sh n : 0 <= n -> 0 <= get_field x sh n < 2 ^ n.
Proof. intros. unfold get_field. rewrite Z.land_ones by lia. apply Z.mod_pos_bound. lia. Qed.

Lemma set_field_bound w x sh n u :
  0 <= x < 2 ^ w -> 0 <= sh -> 0 <= n -> sh + n <= w -> 0 <= u < 2 ^ n ->
  0 <= set_field x sh n u < 2 ^ w.
Proof.
  intros Hx Hsh Hn Hw Hu.
  assert (Hnn : 0 <= set_field x sh n u).
  { apply Z.lor_nonneg. split; [apply Z.ldiff_nonneg; lia|apply Z.shiftl_nonneg; lia]. }
  split; [done|]. apply bits_bound; [lia|done|]. intros i Hi.
  rewrite testbit_set_field by lia.
  destruct (Z.ltb_spec i (sh + n)); [lia|]. rewrite andb_false_r.
  apply (testbit_small w); lia.
Qed.

Lemma get_field_0 x n : 0 <= n -> get_field x 0 n = x mod 2 ^ n.
Proof. intros. unfold get_field. by rewrite Z.shiftr_0_r, Z.land_ones. Qed.

Lemma shiftl_bound w sh n u :
  0 <= sh -> 0 <= n -> sh + n <= w -> 0 <= u < 2 ^ n -> 0 <= Z.shiftl u sh < 2 ^ w.
Proof.
  intros. rewrite Z.shiftl_mul_pow2 by lia. split; [apply Z.mul_nonneg_nonneg; lia|].
  apply Z.lt_le_trans with (2 ^ n * 2 ^ sh); [apply Z.mul_lt_mono_pos_r; lia|].
  rewrite <- Z.pow_add_r by lia. apply Z.pow_le_mono_r; lia.
Qed.

(** A field that reaches the top of the word is what a plain shift leaves. *)
Lemma get_field_top w x sh : 0 <= sh <= w -> 0 <= x < 2 ^ w ->
  Z.shiftr x sh = get_field x sh (w - sh).
Proof.
  intros. unfold get_field. rewrite Z.land_ones, Z.shiftr_div_pow2 by lia.
  rewrite Z.mod_small; [done|]. split; [apply Z.div_pos; lia|].
  apply Z.div_lt_upper_bound; [lia|]. rewrite <- Z.pow_add_r by lia.
  replace (sh + (w - sh)) with w by lia. lia.
Qed.

(** ** A word assembled from disjoint fields *)
Lemma set_field_zero sh n u :
  0 <= sh -> 0 <= n -> 0 <= u < 2 ^ n -> set_field 0 sh n u = Z.shiftl u sh.
Proof. intros. unfold set_field. rewrite Z.ldiff_0_l, Z.lor_0_l. done. Qed.

Lemma lor_set_field x sh n u :
  0 <= sh -> 0 <= n -> 0 <= u < 2 ^ n -> get_field x sh n = 0 ->
  Z.lor x (Z.shiftl u sh) = set_field x sh n u.
Proof.
  intros Hsh Hn Hu Hg. apply Z.bits_inj'. intros i Hi.
  rewrite testbit_set_field, Z.lor_spec, Z.shiftl_spec by lia.
  destruct (Z.leb_spec sh i); simpl.
  - destruct (Z.ltb_spec i (sh + n)).
    + assert (Hx : Z.testbit (get_field x sh n) (i - sh) = false) by (rewrite Hg; apply Z.bits_0).
      rewrite testbit_get_field in Hx by lia.
      replace (i - sh + sh) with i in Hx by lia.
      rewrite (proj2 (Z.ltb_lt _ _)), andb_true_r in Hx by lia. by rewrite Hx.
    + rewrite (testbit_small n u) by lia. apply orb_false_r.
  - rewrite (Z.testbit_neg_r _ (i - sh)) by lia. apply orb_false_r.
Qed.
