(* ===== verification/Errors.v ===== *)
(** src/execution/error.rs: the error values the execution engine returns. *)

From S2P Require Import Prelude.

Module Errors.

Inductive ResidentStorageComponent :=
| HeapArena | HeapAllocator | FrameArena | FrameRecords | TaskScheduler | Channels
| Statics | TypeInitialization | ExternalRoots | PendingState | MachineFixedState.

Inductive AdmissionError :=
| CompilerAbiMismatch
| PlatformAbiMismatch
| MissingCapability (index : Z)
| HeapLimit (required available : Z)
| InvalidHeapSize (supplied : Z)
| FrameStorageLimit (required available : Z)
| CallDepthLimit (required available : Z)
| CoroutineLimit (required available : Z)
| ChannelLimit (required available : Z)
| ChannelValueLimit (required available : Z)
| HostRequestLimit (required available : Z)
| EventLimit (required available : Z)
| SliceLimit (required available : Z)
| StoragePlanOverflow
| ResidentStorageOverflow (component : ResidentStorageComponent)
| AllocationFailed
| InvalidEntry
| DuplicateCapabilityBinding
| CapabilityOperationCount (capability required available : Z)
| CapabilitySchema (capability operation : Z)
| SynchronousCapabilityUnsupported.

Inductive GuestTrap :=
| DivisionByZero | StackOverflow | NegativeArraySize | NullReference
| IndexOutOfBounds | ClassCast | InvalidExitCode | InvalidArgument.

Inductive VmFault :=
| InvalidResolvedId | InvalidValueType | AccountingOverflow | InvalidStoragePlan
| CorruptLifecycle | ReachedUnreachable | UnsupportedInstruction | HandleExhausted
| CorruptHeap | InvalidReference | InvalidRootMap.

End Errors.
