(* ===== verification/Value.v ===== *)
(** src/execution/value.rs: tagged 32-bit references and runtime values. *)

From S2P Require Import Prelude Words.

Module Value.

Inductive ReferenceDomain := Managed | Image | External | Reserved.

#[global] Instance ReferenceDomain_eq : EqDecision ReferenceDomain.
Proof. solve_decision. Defined.

(** [domain as u32]. *)
Definition domain_bits (d : ReferenceDomain) : Z :=
  match d with Managed => 0 | Image => 1 | External => 2 | Reserved => 3 end.

(** [struct Ref32(u32)]: the bits, never zero. *)
Record Ref32 := mkRef32 { bits : Z }.

#[global] Instance Ref32_eq : EqDecision Ref32.
Proof. solve_decision. Defined.

Definition DOMAIN_SHIFT : Z := 30.
Definition MAX_PAYLOAD : Z := Z.shiftl 1 DOMAIN_SHIFT - 1.

Definition new (domain : ReferenceDomain) (payload : Z) : option Ref32 :=
  if MAX_PAYLOAD <? payload then None
  else
    let b := Z.lor (Z.shiftl (domain_bits domain) DOMAIN_SHIFT) payload in
    if b =? 0 then None else Some (mkRef32 b).

Definition managed (object_header_offset : Z) : option Ref32 := new Managed object_header_offset.
Definition image (index : Z) : option Ref32 := new Image index.
Definition external (slot : Z) : option Ref32 := new External slot.
Definition reserved (payload : Z) : option Ref32 := new Reserved payload.

Definition domain (r : Ref32) : ReferenceDomain :=
  let d := Z.shiftr (bits r) DOMAIN_SHIFT in
  if d =? 0 then Managed else if d =? 1 then Image else if d =? 2 then External else Reserved.

Definition payload (r : Ref32) : Z := Z.land (bits r) MAX_PAYLOAD.

Definition to_bits (r : Ref32) : Z := bits r.

Definition from_bits (b : Z) : option Ref32 :=
  if b =? 0 then None else Some (mkRef32 b).

(** Floats are carried as their IEEE bits, as in the source. *)
Inductive RuntimeValue :=
| I32 (v : Z) | I64 (v : Z) | F32 (b : Z) | F64 (b : Z)
| Bool (v : bool) | Char (v : Z) | Null | Reference (r : Ref32).

#[global] Instance RuntimeValue_eq : EqDecision RuntimeValue.
Proof. solve_decision. Defined.

(** [f32::from_bits(bits).is_nan()] and its 64-bit twin: exponent all ones and a
    non-zero fraction. *)
Definition f32_is_nan (b : Z) : bool := 0x7f800000 <? Z.land b 0x7fffffff.
Definition f64_is_nan (b : Z) : bool := 0x7ff0000000000000 <? Z.land b 0x7fffffffffffffff.

Definition hash_code (form : Z) (v : RuntimeValue) : option Z :=
  match v with
  | I32 value => if form =? 1 then Some value else None
  | I64 value =>
      if form =? 2 then
        let u := wrap_unsigned 64 value in
        Some (wrap_signed 32 (Z.lxor u (Z.shiftr u 32)))
      else None
  | F32 b =>
      if form =? 3 then
        Some (if f32_is_nan b then 0x7fc00000 else wrap_signed 32 b)
      else None
  | F64 b =>
      if form =? 4 then
        let canonical := if f64_is_nan b then 0x7ff8000000000000 else b in
        Some (wrap_signed 32 (Z.lxor canonical (Z.shiftr canonical 32)))
      else None
  | Bool value => if form =? 5 then Some (if value then 1231 else 1237) else None
  | Char value => if form =? 6 then Some value else None
  | Null => if form =? 7 then Some 0 else None
  | Reference value => if form =? 7 then Some (wrap_signed 32 (to_bits value)) else None
  end.

Definition trace_bits_u64 (v : RuntimeValue) : Z :=
  match v with
  | I32 value => wrap_unsigned 32 value
  | I64 value => wrap_unsigned 64 value
  | F32 b => b
  | F64 b => b
  | Bool value => if value then 1 else 0
  | Char value => value
  | Null => 0
  | Reference value => payload value
  end.

Definition trace_tag (v : RuntimeValue) : Z :=
  match v with
  | I32 _ => 1 | I64 _ => 2 | F32 _ => 3 | F64 _ => 4
  | Bool _ => 5 | Char _ => 6 | Null => 7 | Reference _ => 8
  end.

Definition trace_payload_len (v : RuntimeValue) : Z :=
  match v with
  | I32 _ | F32 _ => 4
  | Char _ => 2
  | I64 _ | F64 _ => 8
  | Bool _ => 1
  | Null => 0
  | Reference _ => 12
  end.

(** The widths of the payloads a well-typed value carries. *)
Definition value_ok (v : RuntimeValue) : Prop :=
  match v with
  | I32 z => i32_min <= z <= i32_max
  | I64 z => i64_min <= z <= i64_max
  | F32 b => 0 <= b <= u32_max
  | F64 b => 0 <= b <= u64_max
  | Bool _ | Null => True
  | Char c => 0 <= c <= u16_max
  | Reference r => 0 < bits r <= u32_max
  end.

Lemma MAX_PAYLOAD_eq : MAX_PAYLOAD = 2 ^ 30 - 1.
Proof. done. Qed.

Lemma domain_bits_bound d : 0 <= domain_bits d <= 3.
Proof. by destruct d. Qed.

Lemma new_bits d p r :
  0 <= p -> new d p = Some r ->
  bits r = p + domain_bits d * 2 ^ 30 /\ p <= MAX_PAYLOAD /\ bits r <> 0.
Proof.
  intros Hp. unfold new. destruct (Z.ltb_spec MAX_PAYLOAD p) as [|Hmax]; [done|].
  rewrite Z.shiftl_mul_pow2, Z.lor_comm by (unfold DOMAIN_SHIFT; lia).
  unfold DOMAIN_SHIFT. rewrite lor_shifted by (rewrite MAX_PAYLOAD_eq in Hmax; lia).
  destruct (Z.eqb_spec (p + domain_bits d * 2 ^ 30) 0); [done|].
  intros [= <-]. done.
Qed.

Lemma new_total d p :
  0 <= p <= MAX_PAYLOAD -> p + domain_bits d * 2 ^ 30 <> 0 ->
  new d p = Some (mkRef32 (p + domain_bits d * 2 ^ 30)).
Proof.
  intros [Hp Hmax] Hz. unfold new. rewrite (proj2 (Z.ltb_ge _ _)) by lia.
  rewrite Z.shiftl_mul_pow2, Z.lor_comm by (unfold DOMAIN_SHIFT; lia).
  unfold DOMAIN_SHIFT. rewrite lor_shifted by (rewrite MAX_PAYLOAD_eq in Hmax; lia).
  by rewrite (proj2 (Z.eqb_neq _ _)).
Qed.

Lemma payload_mod r : payload r = bits r mod 2 ^ 30.
Proof. unfold payload. rewrite MAX_PAYLOAD_eq. change (2 ^ 30 - 1) with (Z.ones 30).
  by rewrite Z.land_ones. Qed.

Lemma domain_div r :
  domain r = let d := bits r / 2 ^ 30 in
    if d =? 0 then Managed else if d =? 1 then Image else if d =? 2 then External else Reserved.
Proof. unfold domain, DOMAIN_SHIFT. by rewrite Z.shiftr_div_pow2. Qed.

(** A managed reference is its payload. *)
Lemma managed_inv p r :
  0 <= p -> managed p = Some r -> r = mkRef32 p /\ 0 < p <= MAX_PAYLOAD.
Proof.
  intros Hp H. apply new_bits in H as (Hb & Hm & Hz); [|done].
  destruct r as [b]. simpl in *. rewrite Z.add_0_r in Hb. subst b. split; [done|lia].
Qed.

Lemma managed_Some p : 0 < p <= MAX_PAYLOAD -> managed p = Some (mkRef32 p).
Proof.
  intros Hp. unfold managed. rewrite new_total; simpl; [|lia|lia]. by rewrite Z.add_0_r.
Qed.

Lemma managed_payload p : 0 <= p <= MAX_PAYLOAD -> payload (mkRef32 p) = p.
Proof. intros. rewrite payload_mod, MAX_PAYLOAD_eq in *. simpl. apply Z.mod_small. lia. Qed.

Lemma managed_domain p : 0 <= p <= MAX_PAYLOAD -> domain (mkRef32 p) = Managed.
Proof.
  intros. rewrite domain_div, MAX_PAYLOAD_eq in *. simpl.
  rewrite Z.div_small by lia. done.
Qed.

(** A reference keeps what it was built from: [new] fails only on an
    oversized payload or the null pattern, and the domain and payload read back
    are the ones it was given; [from_bits] inverts [to_bits]. *)
Theorem ref32_roundtrip (d : ReferenceDomain) (p : Z) :
  0 <= p <= u32_max ->
  match new d p with
  | Some r => domain r = d /\ payload r = p /\ from_bits (to_bits r) = Some r
              /\ 0 < to_bits r <= u32_max
  | None => MAX_PAYLOAD < p \/ (d = Managed /\ p = 0)
  end.
Proof.
  intros Hp. destruct (new d p) as [r|] eqn:E.
  - apply new_bits in E as (Hb & Hm & Hz); [|lia]. rewrite MAX_PAYLOAD_eq in Hm.
    pose proof (domain_bits_bound d). unfold from_bits, to_bits.
    rewrite domain_div, payload_mod, (proj2 (Z.eqb_neq _ _)) by done.
    destruct r as [b]. simpl in *. subst b.
    rewrite Z.div_add, Z_mod_plus_full, Z.div_small, Z.mod_small by lia.
    split_and!; [by destruct d|done|done|lia|unfold u32_max; lia].
  - unfold new in E. destruct (Z.ltb_spec MAX_PAYLOAD p) as [|Hm]; [by left|].
    destruct (Z.eqb_spec (Z.lor (Z.shiftl (domain_bits d) DOMAIN_SHIFT) p) 0) as [Hz|]; [|done].
    apply Z.lor_eq_0_iff in Hz as [Hd ->]. right. split; [|done]. by destruct d.
Qed.

Lemma ref32_roundtrip_witness :
  exists r, new External 77 = Some r /\ domain r = External /\ payload r = 77.
Proof.
  pose proof (ref32_roundtrip External 77 ltac:(vm_compute; split; discriminate)) as H.
  destruct (new External 77) as [r|] eqn:E; [|vm_compute in E; discriminate E].
  exists r. destruct H as (Hd & Hp & _). split; [reflexivity|]. split; assumption.
Defined.

End Value.
