(* ===== verification/Numeric.v ===== *)
(** src/execution/numeric.rs: the guest's integer arithmetic, and the NaN
    canonicalisation of float results on their bit patterns.

    A guest [Int] is an [i32], a guest [Long] an [i64], both as [Z] with the
    two's complement wrap written out.  The IEEE operations themselves are the
    host's; what is modelled of the float side is what this file adds to them. *)

From S2P Require Import Prelude Words Errors Value.

Module Numeric.
Import Errors Value.



Definition add_i32 (lhs rhs : Z) : Z := wrap_signed 32 (lhs + rhs).
Definition add_i64 (lhs rhs : Z) : Z := wrap_signed 64 (lhs + rhs).
Definition sub_i32 (lhs rhs : Z) : Z := wrap_signed 32 (lhs - rhs).
Definition sub_i64 (lhs rhs : Z) : Z := wrap_signed 64 (lhs - rhs).
Definition mul_i32 (lhs rhs : Z) : Z := wrap_signed 32 (lhs * rhs).
Definition mul_i64 (lhs rhs : Z) : Z := wrap_signed 64 (lhs * rhs).
Definition neg_i32 (value : Z) : Z := wrap_signed 32 (- value).
Definition neg_i64 (value : Z) : Z := wrap_signed 64 (- value).

(** [(count as u32) & 31], [(count as u32) & 63]. *)
Definition shl_i32 (value count : Z) : Z :=
  wrap_signed 32 (Z.shiftl value (Z.land (wrap_unsigned 32 count) 31)).
Definition shl_i64 (value count : Z) : Z :=
  wrap_signed 64 (Z.shiftl value (Z.land (wrap_unsigned 32 count) 63)).
Definition shr_i32 (value count : Z) : Z :=
  Z.shiftr value (Z.land (wrap_unsigned 32 count) 31).
Definition shr_i64 (value count : Z) : Z :=
  Z.shiftr value (Z.land (wrap_unsigned 32 count) 63).
Definition ushr_i32 (value count : Z) : Z :=
  wrap_signed 32 (Z.shiftr (wrap_unsigned 32 value) (Z.land (wrap_unsigned 32 count) 31)).
Definition ushr_i64 (value count : Z) : Z :=
  wrap_signed 64 (Z.shiftr (wrap_unsigned 64 value) (Z.land (wrap_unsigned 32 count) 63)).

(** [/] and [%] truncate toward zero: [Z.quot] and [Z.rem]. *)
Definition div_i32 (lhs rhs : Z) : outcome GuestTrap Z :=
  if rhs =? 0 then Err DivisionByZero
  else if (lhs =? i32_min) && (rhs =? -1) then Ok i32_min
  else Ok (Z.quot lhs rhs).
Definition div_i64 (lhs rhs : Z) : outcome GuestTrap Z :=
  if rhs =? 0 then Err DivisionByZero
  else if (lhs =? i64_min) && (rhs =? -1) then Ok i64_min
  else Ok (Z.quot lhs rhs).
Definition rem_i32 (lhs rhs : Z) : outcome GuestTrap Z :=
  if rhs =? 0 then Err DivisionByZero
  else if (lhs =? i32_min) && (rhs =? -1) then Ok 0
  else Ok (Z.rem lhs rhs).
Definition rem_i64 (lhs rhs : Z) : outcome GuestTrap Z :=
  if rhs =? 0 then Err DivisionByZero
  else if (lhs =? i64_min) && (rhs =? -1) then Ok 0
  else Ok (Z.rem lhs rhs).

Definition CANONICAL_F32_NAN : Z := 0x7fc00000.
Definition CANONICAL_F64_NAN : Z := 0x7ff8000000000000.

(** On bit patterns. *)
Definition canonical_f32 (value : Z) : Z :=
  if f32_is_nan value then CANONICAL_F32_NAN else value.
Definition canonical_f64 (value : Z) : Z :=
  if f64_is_nan value then CANONICAL_F64_NAN else value.

Definition i32_to_i64 (value : Z) : Z := value.
Definition i64_to_i32 (value : Z) : Z := wrap_signed 32 value.
Definition i32_to_char (value : Z) : Z := wrap_unsigned 16 value.
Definition char_to_i32 (value : Z) : Z := value.

Definition is_i32 (z : Z) : Prop := i32_min <= z <= i32_max.
Definition is_i64 (z : Z) : Prop := i64_min <= z <= i64_max.

Lemma is_i32_wrap z : is_i32 z <-> - 2 ^ (32 - 1) <= z < 2 ^ (32 - 1).
Proof. unfold is_i32, i32_min, i32_max. change (32 - 1) with 31. lia. Qed.

Lemma is_i64_wrap z : is_i64 z <-> - 2 ^ (64 - 1) <= z < 2 ^ (64 - 1).
Proof. unfold is_i64, i64_min, i64_max. change (64 - 1) with 63. lia. Qed.

(** Truncating division stays in the two's complement range but for the one
    quotient the source singles out. *)
Lemma quot_range m lhs rhs :
  0 < m -> - m <= lhs < m -> rhs <> 0 -> ~ (lhs = - m /\ rhs = -1) ->
  - m <= Z.quot lhs rhs < m.
Proof.
  intros Hm Hl Hr Hn.
  destruct (decide (rhs = -1)) as [->|].
  - change (-1) with (- (1)). rewrite Z.quot_opp_r, Z.quot_1_r by lia. lia.
  - pose proof (Z.quot_abs lhs rhs Hr) as Habs.
    assert (Z.abs (Z.quot lhs rhs) <= Z.abs lhs).
    { rewrite <- Habs. apply Z.quot_le_upper_bound; nia. }
    destruct (decide (rhs = 1)) as [->|]; [rewrite Z.quot_1_r; lia|].
    assert (2 * Z.abs (Z.quot lhs rhs) <= Z.abs lhs); [|lia].
    rewrite <- Habs. pose proof (Z.mul_quot_le (Z.abs lhs) (Z.abs rhs)). 
    pose proof (Z.quot_pos (Z.abs lhs) (Z.abs rhs)). nia.
Qed.

Lemma rem_range m lhs rhs :
  0 < m -> - m <= lhs < m -> rhs <> 0 -> - m <= Z.rem lhs rhs < m.
Proof.
  intros Hm Hl Hr.
  destruct (Z.le_gt_cases 0 lhs).
  - pose proof (Z.rem_nonneg lhs rhs Hr ltac:(lia)).
    pose proof (Z.quot_rem' lhs rhs). pose proof (Z.rem_le lhs (Z.abs rhs)).
    rewrite Z.rem_abs_r in * by done. lia.
  - pose proof (Z.rem_nonpos lhs rhs Hr ltac:(lia)).
    pose proof (Z.rem_le (- lhs) (Z.abs rhs)).
    rewrite Z.rem_abs_r, Z.rem_opp_l in * by done. lia.
Qed.

Section Width.
Context (w : Z) (Hw : 1 < w).

(** The division law of a [w]-bit two's complement type, the overflowing
    quotient included. *)
Lemma div_rem_law lhs rhs q r :
  - 2 ^ (w - 1) <= lhs < 2 ^ (w - 1) -> rhs <> 0 ->
  (lhs = - 2 ^ (w - 1) /\ rhs = -1 /\ q = - 2 ^ (w - 1) /\ r = 0) \/
  (~ (lhs = - 2 ^ (w - 1) /\ rhs = -1) /\ q = Z.quot lhs rhs /\ r = Z.rem lhs rhs) ->
  wrap_signed w (wrap_signed w (q * rhs) + r) = lhs /\
  - 2 ^ (w - 1) <= q < 2 ^ (w - 1) /\ - 2 ^ (w - 1) <= r < 2 ^ (w - 1) /\
  Z.abs r < Z.abs rhs.
Proof.
  intros Hl Hr Hcase.
  assert (Hpos : 0 < 2 ^ (w - 1)) by (apply Z.pow_pos_nonneg; lia).
  destruct Hcase as [(-> & -> & -> & ->)|(Hn & -> & ->)].
  - split_and!; try lia. rewrite Z.add_0_r.
    assert (Hwr : wrap_signed w (- 2 ^ (w - 1) * -1) = - 2 ^ (w - 1)).
    { unfold wrap_signed.
      assert (Hp : 2 ^ w = 2 * 2 ^ (w - 1)) by (rewrite <- Z.pow_succ_r; [f_equal|]; lia).
      rewrite Z.mod_small by lia. rewrite (proj2 (Z.ltb_ge _ _)) by lia. lia. }
    rewrite Hwr. apply wrap_signed_id; lia.
  - pose proof (quot_range (2 ^ (w - 1)) lhs rhs Hpos Hl Hr Hn) as Hq.
    pose proof (rem_range (2 ^ (w - 1)) lhs rhs Hpos Hl Hr) as Hrr.
    pose proof (Z.quot_rem' lhs rhs) as Hqr.
    pose proof (Z.rem_bound_abs lhs rhs Hr).
    split_and!; try lia.
    replace (Z.quot lhs rhs * rhs) with (lhs - Z.rem lhs rhs) by lia.
    transitivity (wrap_signed w lhs); [|apply wrap_signed_id; lia].
    apply wrap_signed_ext.
    rewrite Z.add_mod, wrap_signed_congr, <- Z.add_mod by lia. f_equal. lia.
Qed.
End Width.

(** Guest [Int] division and remainder follow the JVM: they trap exactly on
    a zero divisor, and otherwise [q * rhs + r] computed with the guest's own
    wrapping operations gives back [lhs], both results are [i32]s and the
    remainder is smaller than the divisor, the overflowing quotient included. *)
Theorem div_rem_i32 (lhs rhs : Z) :
  is_i32 lhs -> is_i32 rhs ->
  if rhs =? 0 then div_i32 lhs rhs = Err DivisionByZero /\ rem_i32 lhs rhs = Err DivisionByZero
  else exists q r, div_i32 lhs rhs = Ok q /\ rem_i32 lhs rhs = Ok r /\
    add_i32 (mul_i32 q rhs) r = lhs /\ is_i32 q /\ is_i32 r /\ Z.abs r < Z.abs rhs.
Proof.
  intros Hl Hr. unfold div_i32, rem_i32. destruct (Z.eqb_spec rhs 0) as [|Hz]; [done|].
  apply is_i32_wrap in Hl. change i32_min with (- 2 ^ (32 - 1)).
  destruct (_ && _) eqn:E; eexists _, _; (split; [reflexivity|]); (split; [reflexivity|]);
    rewrite !is_i32_wrap; unfold add_i32, mul_i32; apply div_rem_law; try done; bsimp.
  - left. done.
  - right. split; [|done]. intros [-> ->]. by destruct E.
Qed.

Lemma div_rem_i32_witness :
  add_i32 (mul_i32 i32_min (-1)) 0 = i32_min /\ div_i32 i32_min (-1) = Ok i32_min.
Proof.
  pose proof (div_rem_i32 i32_min (-1)
    ltac:(vm_compute; split; discriminate) ltac:(vm_compute; split; discriminate)) as H.
  simpl in H. destruct H as (q & r & Hq & Hr & H & _).
  vm_compute in Hq, Hr. injection Hq as <-. injection Hr as <-. split; [exact H|reflexivity].
Defined.

(** Guest [Long] division and remainder obey the same law at 64 bits. *)
Theorem div_rem_i64 (lhs rhs : Z) :
  is_i64 lhs -> is_i64 rhs ->
  if rhs =? 0 then div_i64 lhs rhs = Err DivisionByZero /\ rem_i64 lhs rhs = Err DivisionByZero
  else exists q r, div_i64 lhs rhs = Ok q /\ rem_i64 lhs rhs = Ok r /\
    add_i64 (mul_i64 q rhs) r = lhs /\ is_i64 q /\ is_i64 r /\ Z.abs r < Z.abs rhs.
Proof.
  intros Hl Hr. unfold div_i64, rem_i64. destruct (Z.eqb_spec rhs 0) as [|Hz]; [done|].
  apply is_i64_wrap in Hl. change i64_min with (- 2 ^ (64 - 1)).
  destruct (_ && _) eqn:E; eexists _, _; (split; [reflexivity|]); (split; [reflexivity|]);
    rewrite !is_i64_wrap; unfold add_i64, mul_i64; apply div_rem_law; try done; bsimp.
  - left. done.
  - right. split; [|done]. intros [-> ->]. by destruct E.
Qed.

Lemma div_rem_i64_witness :
  exists q r, div_i64 (-7) 2 = Ok q /\ rem_i64 (-7) 2 = Ok r /\ add_i64 (mul_i64 q 2) r = -7.
Proof.
  pose proof (div_rem_i64 (-7) 2
    ltac:(vm_compute; split; discriminate) ltac:(vm_compute; split; discriminate)) as H.
  simpl in H. destruct H as (q & r & Hq & Hr & H & _). exists q, r.
  split; [exact Hq|]. split; [exact Hr|exact H].
Defined.

End Numeric.
