(* ===== verification/Float.v ===== *)
(** The floating-point side of src/execution/numeric.rs, with src/execution/math.rs
    and matrix.rs.

    A guest [Float] or [Double] is its bit pattern.  [of_bits] and [to_bits]
    relate patterns to IEEE 754 data; the operators of the host language are the
    IEEE operations of the Standard Library's [SpecFloat], rounding to nearest,
    ties to even.  The functions of the libm crate are a parameter. *)

From Stdlib Require Import SpecFloat.
From S2P Require Import Prelude Words Value Numeric.

Module Float.

(** ** Formats *)

Record format := mkFormat { mantissa_bits : Z; exponent_bits : Z }.
Definition F32 : format := mkFormat 23 8.
Definition F64 : format := mkFormat 52 11.

Section Bits.
Context (f : format).

Definition prec : Z := mantissa_bits f + 1.
Definition emax : Z := 2 ^ (exponent_bits f - 1).
Definition sign_bit : Z := mantissa_bits f + exponent_bits f.
Definition top_exponent : Z := 2 ^ exponent_bits f - 1.

(** [from_bits]. *)
Definition of_bits (b : Z) : spec_float :=
  let s := Z.testbit b sign_bit in
  let e := (b / 2 ^ mantissa_bits f) mod 2 ^ exponent_bits f in
  let m := b mod 2 ^ mantissa_bits f in
  if e =? top_exponent then if m =? 0 then S754_infinity s else S754_nan
  else if e =? 0 then
    match m with
    | Zpos p => S754_finite s p (emin prec emax)
    | _ => S754_zero s
    end
  else S754_finite s (Z.to_pos (m + 2 ^ mantissa_bits f)) (e + emin prec emax - 1).

Definition canonical_nan : Z := top_exponent * 2 ^ mantissa_bits f + 2 ^ (mantissa_bits f - 1).

Definition pack (s : bool) (e m : Z) : Z :=
  (if s then 2 ^ sign_bit else 0) + e * 2 ^ mantissa_bits f + m.

(** [to_bits] after canonicalisation: a NaN is the canonical one. *)
Definition to_bits (x : spec_float) : Z :=
  match x with
  | S754_zero s => pack s 0 0
  | S754_infinity s => pack s top_exponent 0
  | S754_nan => canonical_nan
  | S754_finite s m e =>
      if Zpos m <? 2 ^ mantissa_bits f then pack s 0 (Zpos m)
      else pack s (e - emin prec emax + 1) (Zpos m - 2 ^ mantissa_bits f)
  end.

(** [%]: the exact remainder of the truncated quotient, with the sign of the
    dividend. *)
Definition SFrem (x y : spec_float) : spec_float :=
  match x, y with
  | S754_nan, _ | _, S754_nan => S754_nan
  | S754_infinity _, _ => S754_nan
  | _, S754_zero _ => S754_nan
  | S754_zero _, _ => x
  | _, S754_infinity _ => x
  | S754_finite sx mx ex, S754_finite _ my ey =>
      let e := Z.min ex ey in
      let r := (Zpos mx * 2 ^ (ex - e)) mod (Zpos my * 2 ^ (ey - e)) in
      binary_normalize prec emax (if sx then - r else r) e sx
  end.

(** An integer as a float. *)
Definition of_int (z : Z) : spec_float := binary_normalize prec emax z 0 false.

Definition is_nan (b : Z) : bool := match of_bits b with S754_nan => true | _ => false end.

(** ** Operators, on bit patterns *)

Definition lift2 (op : spec_float -> spec_float -> spec_float) (lhs rhs : Z) : Z :=
  to_bits (op (of_bits lhs) (of_bits rhs)).

Definition add : Z -> Z -> Z := lift2 (SFadd prec emax).
Definition sub : Z -> Z -> Z := lift2 (SFsub prec emax).
Definition mul : Z -> Z -> Z := lift2 (SFmul prec emax).
Definition div : Z -> Z -> Z := lift2 (SFdiv prec emax).
Definition rem : Z -> Z -> Z := lift2 SFrem.
Definition neg (v : Z) : Z := to_bits (SFopp (of_bits v)).

Definition eq (lhs rhs : Z) : bool := SFeqb (of_bits lhs) (of_bits rhs).
Definition lt (lhs rhs : Z) : bool := SFltb (of_bits lhs) (of_bits rhs).
Definition le (lhs rhs : Z) : bool := SFleb (of_bits lhs) (of_bits rhs).

(** [trunc() as], for a value inside the range of the target. *)
Definition truncate (x : spec_float) : Z :=
  match x with
  | S754_finite s m e =>
      let z := if 0 <=? e then Zpos m * 2 ^ e else Zpos m / 2 ^ (- e) in
      if s then - z else z
  | _ => 0
  end.

(** The macro [float_to_integer]. *)
Definition to_integer (min max : Z) (v : Z) : Z :=
  let x := of_bits v in
  if is_nan v then 0
  else if SFleb (of_int max) x then max
  else if SFleb x (of_int min) then min
  else truncate x.

(** The saturating cast [as u32], [as u64] of the language. *)
Definition saturating_cast (max : Z) (v : Z) : Z :=
  match of_bits v with
  | S754_nan => 0
  | S754_infinity s => if s then 0 else max
  | x => Z.max 0 (Z.min max (truncate x))
  end.

Definition from_integer (z : Z) : Z := to_bits (of_int z).

End Bits.

(** Between the formats: the value, rounded. *)
Definition convert_format (from to : format) (v : Z) : Z :=
  to_bits to
    match of_bits from v with
    | S754_finite s m e => binary_normalize (prec to) (emax to) (if s then Zneg m else Zpos m) e s
    | x => x
    end.

(** ** numeric.rs *)

Definition add_f32 := add F32.
Definition sub_f32 := sub F32.
Definition mul_f32 := mul F32.
Definition div_f32 := div F32.
Definition rem_f32 := rem F32.
Definition neg_f32 := neg F32.
Definition add_f64 := add F64.
Definition sub_f64 := sub F64.
Definition mul_f64 := mul F64.
Definition div_f64 := div F64.
Definition rem_f64 := rem F64.
Definition neg_f64 := neg F64.

Definition i32_to_f32 := from_integer F32.
Definition i32_to_f64 := from_integer F64.
Definition i64_to_f32 := from_integer F32.
Definition i64_to_f64 := from_integer F64.
Definition f32_to_f64 := convert_format F32 F64.
Definition f64_to_f32 := convert_format F64 F32.
Definition f32_to_i32 := to_integer F32 i32_min i32_max.
Definition f32_to_i64 := to_integer F32 i64_min i64_max.
Definition f64_to_i32 := to_integer F64 i32_min i32_max.
Definition f64_to_i64 := to_integer F64 i64_min i64_max.

(** ** math.rs *)

Inductive MathUnaryOperation :=
| Abs | Sign | Ceil | Floor | Truncate | Round | Sin | Cos | Tan | Asin | Acos | Atan | Sinh | Cosh | Tanh
| Asinh | Acosh | Atanh | Sqrt | Cbrt | Exp | Expm1 | Ln | Ln1p | Log10 | Log2 | Ulp | NextUp | NextDown.

Inductive MathBinaryOperation := Min | Max | Atan2 | Hypot | Pow | IeeeRem | CopySign | NextTowards.

(** The functions of libm the file calls, in both widths. *)
Inductive libm_unary :=
| fabs | ceil | floor | trunc | roundeven | sin | cos | tan | asin | acos | atan | sinh | cosh | tanh
| asinh | acosh | atanh | sqrt | cbrt | exp | expm1 | log | log1p | log10 | log2.
Inductive libm_binary := atan2 | hypot | remainder | copysign | nextafter | pow.

Record libm := mkLibm {
  call_unary : format -> libm_unary -> Z -> Z;
  call_binary : format -> libm_binary -> Z -> Z -> Z }.

Section Math.
Context (lib : libm) (f : format).

Definition ulp (x : Z) : Z :=
  if is_nan f x then canonical_nan f
  else if match of_bits f x with S754_infinity _ => true | _ => false end then to_bits f (S754_infinity false)
  else
    let exponent := Z.land (Z.shiftr x (mantissa_bits f)) (top_exponent f) in
    if exponent <=? mantissa_bits f then Z.shiftl 1 (Z.max 0 (exponent - 1))
    else Z.shiftl (exponent - mantissa_bits f) (mantissa_bits f).

Definition one : Z := from_integer f 1.
Definition zero : Z := from_integer f 0.
Definition infinity (negative : bool) : Z := to_bits f (S754_infinity negative).

(** [canonical_f32], [canonical_f64]. *)
Definition canonical (v : Z) : Z := if is_nan f v then canonical_nan f else v.

Definition unary (operation : MathUnaryOperation) (x : Z) : Z :=
  let call g := call_unary lib f g x in
  canonical
    match operation with
    | Abs => call fabs | Ceil => call ceil | Floor => call floor | Truncate => call trunc | Round => call roundeven
    | Sin => call sin | Cos => call cos | Tan => call tan | Asin => call asin | Acos => call acos | Atan => call atan
    | Sinh => call sinh | Cosh => call cosh | Tanh => call tanh | Asinh => call asinh | Acosh => call acosh
    | Atanh => call atanh | Sqrt => call sqrt | Cbrt => call cbrt | Exp => call exp | Expm1 => call expm1
    | Ln => call log | Ln1p => call log1p | Log10 => call log10 | Log2 => call log2
    | Sign => if eq f x zero || is_nan f x then x else call_binary lib f copysign one x
    | Ulp => ulp x
    | NextUp => call_binary lib f nextafter x (infinity false)
    | NextDown => call_binary lib f nextafter x (infinity true)
    end.

Definition is_infinite (v : Z) : bool := match of_bits f v with S754_infinity _ => true | _ => false end.

Definition binary (operation : MathBinaryOperation) (x y : Z) : Z :=
  canonical
    match operation with
    | Atan2 => call_binary lib f atan2 x y
    | Hypot => call_binary lib f hypot x y
    | IeeeRem => call_binary lib f remainder x y
    | CopySign => call_binary lib f copysign x y
    | NextTowards => call_binary lib f nextafter x y
    | Pow =>
        if is_nan f y || (is_infinite y && eq f (call_unary lib f fabs x) one) then canonical_nan f
        else call_binary lib f pow x y
    | Min =>
        if is_nan f x || is_nan f y then canonical_nan f
        else if eq f x zero && eq f y zero then Z.lor x y
        else if lt f x y then x else y
    | Max =>
        if is_nan f x || is_nan f y then canonical_nan f
        else if eq f x zero && eq f y zero then Z.land x y
        else if lt f y x then x else y
    end.

End Math.

End Float.
