(* ===== verification/FloatProps.v ===== *)
(** Every float operation yields a bit pattern of its width: the results of the
    IEEE operations are representable, and patterns and data are inverse. *)

From Stdlib Require Import SpecFloat.
From S2P Require Import Prelude Words Value Numeric Float.

Module FloatProps.
Import Float.

(** ** Digits *)

Lemma digits_log2 p : Zpos (digits2_pos p) = Z.log2 (Zpos p) + 1.
Proof.
  induction p as [p IH|p IH|]; cbn [digits2_pos]; [| |done]; rewrite Pos2Z.inj_succ, IH.
  - rewrite (Pos2Z.inj_xI p), Z.log2_succ_double by lia. lia.
  - rewrite (Pos2Z.inj_xO p), Z.log2_double by lia. lia.
Qed.

Lemma Zdigits_pos m : 0 < m -> Zdigits2 m = Z.log2 m + 1.
Proof. intros. destruct m; [lia| |lia]. apply digits_log2. Qed.

Lemma Zdigits_nonneg m : 0 <= Zdigits2 m.
Proof. destruct m; cbn; lia. Qed.

Lemma Zdigits_bounds m : 0 < m -> 2 ^ (Zdigits2 m - 1) <= m < 2 ^ Zdigits2 m.
Proof.
  intros Hm. rewrite Zdigits_pos by done. replace (Z.log2 m + 1 - 1) with (Z.log2 m) by lia. rewrite Z.add_1_r. by apply Z.log2_spec.
Qed.

Lemma Zdigits_ge m k : 0 <= k -> 2 ^ k <= m -> k + 1 <= Zdigits2 m.
Proof.
  intros Hk Hm. pose proof (Z.pow_pos_nonneg 2 k ltac:(lia) Hk). rewrite Zdigits_pos by lia.
  pose proof (Z.log2_le_pow2 m k ltac:(lia)). lia.
Qed.

Lemma Zdigits_le m k : 0 <= m -> m < 2 ^ k -> 0 <= k -> Zdigits2 m <= k.
Proof.
  intros Hm Hlt Hk. destruct (decide (m = 0)) as [->|]; [done|]. rewrite Zdigits_pos by lia.
  pose proof (Z.log2_lt_pow2 m k ltac:(lia)). lia.
Qed.

Lemma Zdigits_shift m k : 0 < m -> 0 <= k -> Zdigits2 (m * 2 ^ k) = Zdigits2 m + k.
Proof.
  intros Hm Hk. pose proof (Z.pow_pos_nonneg 2 k ltac:(lia) Hk). rewrite !Zdigits_pos by nia. rewrite Z.log2_mul_pow2 by lia. lia.
Qed.

Lemma Zdigits_div m k : 0 <= k -> 2 ^ k <= m -> Zdigits2 (m / 2 ^ k) = Zdigits2 m - k.
Proof.
  intros Hk Hm. pose proof (Z.pow_pos_nonneg 2 k ltac:(lia) Hk).
  assert (0 < m / 2 ^ k) by (apply Z.div_str_pos; lia). rewrite !Zdigits_pos by lia.
  rewrite <- Z.shiftr_div_pow2, Z.log2_shiftr by lia. pose proof (Z.log2_le_pow2 m k ltac:(lia)). lia.
Qed.

(** ** Rounding *)

Lemma shr_1_m r : 0 <= shr_m r -> shr_m (shr_1 r) = shr_m r / 2.
Proof. destruct r as [m br bs]. cbn [shr_m]. intros Hm. rewrite <- Z.div2_div. destruct m as [|[p|p|]|]; done || lia. Qed.

Lemma shr_iter p : forall r, 0 <= shr_m r -> shr_m (SpecFloat.iter_pos shr_1 p r) = shr_m r / 2 ^ Zpos p.
Proof.
  induction p as [p IH|p IH|]; intros r Hr; cbn [SpecFloat.iter_pos].
  - pose proof (shr_1_m r Hr) as H1. assert (0 <= shr_m (shr_1 r)) by (rewrite H1; apply Z.div_pos; lia).
    assert (0 <= shr_m (SpecFloat.iter_pos shr_1 p (shr_1 r))) by (rewrite IH by done; apply Z.div_pos; lia).
    rewrite IH, IH, H1 by done. rewrite !Z.div_div by lia. f_equal.
    replace (Zpos p~1) with (Z.succ (Zpos p + Zpos p)) by lia. rewrite Z.pow_succ_r, Z.pow_add_r by lia. lia.
  - assert (0 <= shr_m (SpecFloat.iter_pos shr_1 p r)) by (rewrite IH by done; apply Z.div_pos; lia).
    rewrite IH, IH by done. rewrite !Z.div_div by lia. f_equal. rewrite (Pos2Z.inj_xO p), <- Z.pow_add_r by lia. f_equal. lia.
  - by rewrite shr_1_m.
Qed.

Section Rounding.
Context (prec emax : Z) (Hprec : 0 < prec) (Hemax : prec < emax).

Lemma shr_record_m m l : shr_m (shr_record_of_loc m l) = m.
Proof. by destruct l as [|[]]. Qed.

Lemma shr_fexp_spec m e l : 0 <= m ->
  let k := fexp prec emax (Zdigits2 m + e) - e in
  let '(r, e') := shr_fexp prec emax m e l in
  if 0 <? k then shr_m r = m / 2 ^ k /\ e' = e + k else shr_m r = m /\ e' = e.
Proof.
  intros Hm k. unfold shr_fexp. fold k. unfold shr. destruct k as [|p|p] eqn:Ek; cbn [Z.ltb Z.compare].
  - by rewrite shr_record_m.
  - rewrite shr_iter by (by rewrite shr_record_m). by rewrite shr_record_m.
  - by rewrite shr_record_m.
Qed.

Lemma round_bounds m l : 0 <= m -> m <= round_nearest_even m l <= m + 1.
Proof. intros. destruct l as [|[]]; cbn; try lia. destruct (Z.even m); lia. Qed.

Definition canonical_pair (m e : Z) : Prop := fexp prec emax (Zdigits2 m + e) = e.

(** What the first shift leaves fits the format. *)
Lemma first_shift m e l : 0 <= m -> e <= fexp prec emax (Zdigits2 m + e) ->
  let '(r, e') := shr_fexp prec emax m e l in
  0 <= shr_m r < 2 ^ prec /\ emin prec emax <= e' /\ (e' = emin prec emax \/ 2 ^ (prec - 1) <= shr_m r).
Proof.
  intros Hm He. pose proof (shr_fexp_spec m e l Hm) as Hs. destruct (shr_fexp prec emax m e l) as [r e'].
  unfold fexp in *. set (d := Zdigits2 m) in *.
  assert (Hfit : shr_m r = m / 2 ^ (Z.max (d + e - prec) (emin prec emax) - e) /\ e' = Z.max (d + e - prec) (emin prec emax)).
  { cbv zeta in Hs. destruct (Z.ltb_spec 0 (Z.max (d + e - prec) (emin prec emax) - e)); destruct Hs as [-> ->].
    - split; [done|lia].
    - assert (Hz : Z.max (d + e - prec) (emin prec emax) - e = 0) by lia. rewrite Hz. change (2 ^ 0) with 1. rewrite Z.div_1_r. lia. }
  destruct Hfit as [-> ->]. set (k := Z.max (d + e - prec) (emin prec emax) - e) in *. assert (Hk : 0 <= k) by lia.
  pose proof (Z.pow_pos_nonneg 2 k ltac:(lia) Hk). split; [split; [apply Z.div_pos; lia|]|split; [lia|]].
  - destruct (decide (m = 0)) as [->|Hne]; [rewrite Z.div_0_l by lia; apply Z.pow_pos_nonneg; lia|].
    pose proof (Zdigits_bounds m ltac:(lia)) as [_ Hlt]. fold d in Hlt. apply Z.div_lt_upper_bound; [lia|].
    rewrite <- Z.pow_add_r by lia. eapply Z.lt_le_trans; [exact Hlt|]. apply Z.pow_le_mono_r; lia.
  - destruct (Z.max_spec (d + e - prec) (emin prec emax)) as [[? E]|[Hge E]]; [by left|]. right.
    assert (Hd : d = prec + k) by (unfold k; lia). assert (Hne : 0 < m).
    { destruct (decide (m = 0)) as [->|]; [cbn in d; unfold d in Hd; lia|lia]. }
    pose proof (Zdigits_bounds m Hne) as [Hge' _]. fold d in Hge'. apply Z.div_le_lower_bound; [lia|].
    rewrite <- Z.pow_add_r by lia. replace (k + (prec - 1)) with (d - 1) by lia. done.
Qed.

Lemma round_aux_valid s m e l : 0 <= m -> e <= fexp prec emax (Zdigits2 m + e) ->
  valid_binary prec emax (binary_round_aux prec emax s m e l) = true.
Proof.
  intros Hm He. unfold binary_round_aux. pose proof (first_shift m e l Hm He) as H1.
  destruct (shr_fexp prec emax m e l) as [r1 e1]. destruct H1 as (Hr1 & He1 & Hn1).
  set (m2 := round_nearest_even (shr_m r1) (loc_of_shr_record r1)).
  pose proof (round_bounds (shr_m r1) (loc_of_shr_record r1) ltac:(lia)) as Hb. fold m2 in Hb.
  pose proof (shr_fexp_spec m2 e1 loc_Exact ltac:(lia)) as H2. destruct (shr_fexp prec emax m2 e1 loc_Exact) as [r2 e2].
  assert (Hcan : shr_m r2 = 0 \/ (0 < shr_m r2 /\ canonical_pair (shr_m r2) e2)).
  { cbv zeta in H2. unfold canonical_pair, fexp in *. destruct (decide (m2 = 0)) as [Hz|Hz].
    { rewrite Hz in H2. cbn [Zdigits2] in H2. rewrite (proj2 (Z.ltb_ge _ _)) in H2 by lia. left. apply H2. }
    right. assert (Hp : 2 ^ prec = 2 * 2 ^ (prec - 1)) by (rewrite <- Z.pow_succ_r by lia; f_equal; lia).
    pose proof (Z.pow_pos_nonneg 2 (prec - 1) ltac:(lia) ltac:(lia)).
    destruct (decide (m2 = 2 ^ prec)) as [Et|Et].
    - assert (Hd : Zdigits2 m2 = prec + 1).
      { rewrite Et, <- (Z.mul_1_l (2 ^ prec)), Zdigits_shift by lia. cbn. lia. }
      rewrite Hd in H2. rewrite (proj2 (Z.ltb_lt _ _)) in H2 by lia.
      replace (Z.max (prec + 1 + e1 - prec) (emin prec emax) - e1) with 1 in H2 by lia. change (2 ^ 1) with 2 in H2.
      rewrite Et, Hp, (Z.mul_comm 2), Z.div_mul in H2 by lia. destruct H2 as [-> ->]. split; [lia|].
      rewrite <- (Z.mul_1_l (2 ^ (prec - 1))), Zdigits_shift by lia. cbn [Zdigits2 digits2_pos]. lia.
    - pose proof (Zdigits_le m2 prec ltac:(lia) ltac:(lia) ltac:(lia)).
      assert (Hfix : Z.max (Zdigits2 m2 + e1 - prec) (emin prec emax) = e1).
      { destruct Hn1 as [->|Hbig]; [lia|]. pose proof (Zdigits_ge m2 (prec - 1) ltac:(lia) ltac:(lia)). lia. }
      rewrite Hfix, Z.sub_diag in H2. cbn [Z.ltb Z.compare] in H2. destruct H2 as [-> ->]. split; [lia|done]. }
  destruct Hcan as [Hz|[Hpos Hcan]]; [by rewrite Hz|]. destruct (shr_m r2) as [|m3|] eqn:E; [lia| |lia].
  destruct (Z.leb_spec e2 (emax - prec)); [|done]. cbn [valid_binary]. unfold bounded, canonical_mantissa.
  unfold canonical_pair in Hcan. cbn [Zdigits2] in Hcan. rewrite Hcan, Z.eqb_refl. cbn [andb]. by apply Z.leb_le.
Qed.

Lemma iter_xO m d : Zpos (Pos.iter xO m d) = Zpos m * 2 ^ Zpos d.
Proof.
  revert m. induction d as [|d IH] using Pos.peano_ind; intros m; [cbn; lia|]. rewrite Pos.iter_succ, Pos2Z.inj_xO, IH.
  rewrite Pos2Z.inj_succ, Z.pow_succ_r by lia. lia.
Qed.

Lemma round_valid s m e : valid_binary prec emax (binary_round prec emax s m e) = true.
Proof.
  unfold binary_round, shl_align. set (x := fexp prec emax (Zpos (digits2_pos m) + e)).
  destruct (x - e) as [|p|p] eqn:E; try (apply round_aux_valid; [lia|]; cbn [Zdigits2]; fold x; lia).
  apply round_aux_valid; [lia|]. rewrite iter_xO, Zdigits_shift by lia. cbn [Zdigits2].
  replace (Zpos (digits2_pos m) + Zpos p + x) with (Zpos (digits2_pos m) + e) by lia. fold x. lia.
Qed.

Lemma normalize_valid m e s : valid_binary prec emax (binary_normalize prec emax m e s) = true.
Proof. destruct m; [done| |]; apply round_valid. Qed.

Lemma valid_finite s m e : valid_binary prec emax (S754_finite s m e) = true <->
  emin prec emax <= e <= emax - prec /\ Zpos m < 2 ^ prec /\ (e = emin prec emax \/ 2 ^ (prec - 1) <= Zpos m).
Proof.
  cbn [valid_binary]. unfold bounded, canonical_mantissa, fexp. rewrite andb_true_iff, Z.eqb_eq, Z.leb_le.
  pose proof (Zdigits_bounds (Zpos m) ltac:(lia)) as [Hlo Hhi]. cbn [Zdigits2] in *. set (d := Zpos (digits2_pos m)) in *.
  assert (Hd : 1 <= d) by (unfold d; lia). split.
  - intros [Hc He]. split; [lia|]. split; [eapply Z.lt_le_trans; [exact Hhi|]; apply Z.pow_le_mono_r; lia|].
    destruct (Z.max_spec (d + e - prec) (emin prec emax)) as [[? E]|[? E]]; [left; lia|]. right. replace (prec - 1) with (d - 1) by lia. done.
  - intros (He & Hm & Hn). split; [|lia]. pose proof (Zdigits_le (Zpos m) prec ltac:(lia) Hm ltac:(lia)) as Hdp. cbn [Zdigits2] in Hdp. fold d in Hdp.
    destruct Hn as [->|Hn]; [lia|]. pose proof (Zdigits_ge (Zpos m) (prec - 1) ltac:(lia) Hn) as Hdg. cbn [Zdigits2] in Hdg. fold d in Hdg. lia.
Qed.

Ltac fin_cases x y := destruct x as [[]|[]| |[] ? ?], y as [[]|[]| |[] ? ?]; try done; try (apply normalize_valid).

Lemma add_valid x y : valid_binary prec emax x = true -> valid_binary prec emax y = true -> valid_binary prec emax (SFadd prec emax x y) = true.
Proof. intros Hx Hy. fin_cases x y. Qed.

Lemma sub_valid x y : valid_binary prec emax x = true -> valid_binary prec emax y = true -> valid_binary prec emax (SFsub prec emax x y) = true.
Proof. intros Hx Hy. fin_cases x y. Qed.

Lemma opp_valid x : valid_binary prec emax x = true -> valid_binary prec emax (SFopp x) = true.
Proof. by destruct x. Qed.

Lemma digits_product mx my : Zpos (digits2_pos mx) + Zpos (digits2_pos my) - 1 <= Zpos (digits2_pos (mx * my)).
Proof.
  rewrite !digits_log2, Pos2Z.inj_mul. pose proof (Z.log2_mul_below (Zpos mx) (Zpos my) ltac:(lia) ltac:(lia)). lia.
Qed.

Lemma mul_valid x y : valid_binary prec emax x = true -> valid_binary prec emax y = true -> valid_binary prec emax (SFmul prec emax x y) = true.
Proof.
  intros Hx Hy. destruct x as [s|s| |s mx ex], y as [s'|s'| |s' my ey]; try done. cbn [SFmul]. apply round_aux_valid; [lia|].
  apply valid_finite in Hx as (Hex & Hmx & Hnx). apply valid_finite in Hy as (Hey & Hmy & Hny). cbn [Zdigits2]. unfold fexp.
  pose proof (digits_product mx my) as Hd. assert (Hneg : emin prec emax <= 0) by (unfold emin; lia).
  destruct Hnx as [->|Hnx].
  - destruct Hny as [->|Hny]; [lia|]. pose proof (Zdigits_ge (Zpos my) (prec - 1) ltac:(lia) Hny) as Hdg. cbn [Zdigits2] in Hdg. lia.
  - pose proof (Zdigits_ge (Zpos mx) (prec - 1) ltac:(lia) Hnx) as Hdg. cbn [Zdigits2] in Hdg. lia.
Qed.

Lemma fexp_mono a b : a <= b -> fexp prec emax a <= fexp prec emax b.
Proof. unfold fexp. lia. Qed.

Lemma div_valid x y : valid_binary prec emax x = true -> valid_binary prec emax y = true -> valid_binary prec emax (SFdiv prec emax x y) = true.
Proof.
  intros Hx Hy. destruct x as [s|s| |s mx ex], y as [s'|s'| |s' my ey]; try done. cbn [SFdiv].
  unfold SFdiv_core_binary. set (d1 := Zdigits2 (Zpos mx)). set (d2 := Zdigits2 (Zpos my)).
  set (e' := Z.min (fexp prec emax (d1 + ex - (d2 + ey))) (ex - ey)). set (k := ex - ey - e').
  assert (Hk : 0 <= k) by (unfold k, e'; lia).
  assert (Hm' : (match k with Zpos _ => Z.shiftl (Zpos mx) k | Z0 => Zpos mx | Zneg _ => 0 end) = Zpos mx * 2 ^ k).
  { destruct k as [|p|p] eqn:Ek; [by rewrite Z.mul_1_r|by rewrite Z.shiftl_mul_pow2 by lia|lia]. }
  rewrite Hm'. set (m' := Zpos mx * 2 ^ k). pose proof (Z.pow_pos_nonneg 2 k ltac:(lia) Hk).
  pose proof (Z_div_mod m' (Zpos my) ltac:(lia)) as Hdm. destruct (Z.div_eucl m' (Zpos my)) as [q r]. destruct Hdm as [Hq Hr].
  assert (Hq0 : 0 <= q) by nia. apply round_aux_valid; [done|].
  assert (Hdig : d1 + k - d2 <= Zdigits2 q).
  { destruct (Z.le_gt_cases (d1 + k - d2) 0) as [Hle|Hgt]; [pose proof (Zdigits_nonneg q); lia|].
    replace (d1 + k - d2) with (d1 + k - d2 - 1 + 1) by lia. apply Zdigits_ge; [lia|].
    pose proof (Zdigits_bounds (Zpos mx) ltac:(lia)) as [Hlo _]. pose proof (Zdigits_bounds (Zpos my) ltac:(lia)) as [_ Hhi]. fold d1 in Hlo. fold d2 in Hhi.
    assert (Hd1 : 1 <= d1) by (unfold d1; cbn; lia). assert (Hd2 : 1 <= d2) by (unfold d2; cbn; lia).
    assert (Hbig : 2 ^ (d1 - 1 + k) <= m') by (rewrite Z.pow_add_r by lia; unfold m'; nia).
    apply Z.lt_succ_r. apply (Z.mul_lt_mono_pos_r (Zpos my)); [lia|].
    assert (Hlt : 2 ^ (d1 + k - d2 - 1) * Zpos my < 2 ^ (d1 + k - d2 - 1) * 2 ^ d2)
      by (apply Z.mul_lt_mono_pos_l; [apply Z.pow_pos_nonneg; lia|lia]).
    rewrite <- Z.pow_add_r in Hlt by lia. replace (d1 + k - d2 - 1 + d2) with (d1 - 1 + k) in Hlt by lia. nia. }
  etrans; [|apply (fexp_mono (d1 + ex - (d2 + ey)))]; [unfold e'; lia|]. unfold k in Hdig. lia.
Qed.

End Rounding.

(** ** Formats *)

Definition format_ok (f : format) : Prop := 1 <= mantissa_bits f /\ prec f < emax f /\ 2 <= exponent_bits f.
Definition width (f : format) : Z := sign_bit f + 1.

Lemma F32_ok : format_ok F32.
Proof. unfold format_ok, prec, emax; cbn; lia. Qed.
Lemma F64_ok : format_ok F64.
Proof. unfold format_ok, prec, emax; cbn; lia. Qed.

Section Format.
Context (f : format) (Hf : format_ok f).

Abbreviation valid x := (valid_binary (prec f) (emax f) x = true).
Definition is_pattern (b : Z) : Prop := 0 <= b < 2 ^ width f.

Lemma prec_pos : 0 < prec f.
Proof. destruct Hf as (? & _). unfold prec. lia. Qed.
Lemma emax_gt : prec f < emax f.
Proof. apply Hf. Qed.

Lemma pow_m : 0 < 2 ^ mantissa_bits f.
Proof. destruct Hf. apply Z.pow_pos_nonneg; lia. Qed.
Lemma pow_e : 4 <= 2 ^ exponent_bits f.
Proof. destruct Hf as (_ & _ & H). change 4 with (2 ^ 2). by apply Z.pow_le_mono_r. Qed.
Lemma emax_double : 2 * emax f = 2 ^ exponent_bits f.
Proof. destruct Hf as (_ & _ & H). unfold emax. rewrite <- Z.pow_succ_r by lia. f_equal. lia. Qed.
Lemma pow_prec : 2 ^ prec f = 2 * 2 ^ mantissa_bits f.
Proof. destruct Hf. unfold prec. rewrite Z.add_1_r, Z.pow_succ_r by lia. done. Qed.
Lemma pow_prec_1 : 2 ^ (prec f - 1) = 2 ^ mantissa_bits f.
Proof. unfold prec. f_equal. lia. Qed.
Lemma pow_sign : 2 ^ sign_bit f = 2 ^ exponent_bits f * 2 ^ mantissa_bits f.
Proof. destruct Hf as (? & _ & ?). unfold sign_bit. rewrite Z.pow_add_r by lia. lia. Qed.
Lemma pow_width : 2 ^ width f = 2 * 2 ^ sign_bit f.
Proof. destruct Hf as (? & _ & ?). unfold width, sign_bit. rewrite Z.add_1_r, Z.pow_succ_r by lia. done. Qed.

Lemma pack_pattern s e m : 0 <= e < 2 ^ exponent_bits f -> 0 <= m < 2 ^ mantissa_bits f -> is_pattern (pack f s e m).
Proof.
  intros He Hm. unfold is_pattern, pack. rewrite pow_width, pow_sign. pose proof pow_m. destruct s; nia.
Qed.

(** A packed pattern unpacks. *)
Lemma of_pack s e m : 0 <= e < 2 ^ exponent_bits f -> 0 <= m < 2 ^ mantissa_bits f ->
  of_bits f (pack f s e m) =
    if e =? top_exponent f then if m =? 0 then S754_infinity s else S754_nan
    else if e =? 0 then match m with Zpos p => S754_finite s p (emin (prec f) (emax f)) | _ => S754_zero s end
    else S754_finite s (Z.to_pos (m + 2 ^ mantissa_bits f)) (e + emin (prec f) (emax f) - 1).
Proof.
  intros He Hm. pose proof pow_m as Hpm. pose proof pow_e as Hpe. destruct Hf as (Hmb & _ & Heb).
  assert (Elow : pack f s e m = ((if s then 2 ^ exponent_bits f else 0) + e) * 2 ^ mantissa_bits f + m)
    by (unfold pack; rewrite pow_sign; destruct s; lia).
  assert (Em : pack f s e m mod 2 ^ mantissa_bits f = m) by (rewrite Elow, Z.add_comm, Z.mod_add, Z.mod_small by lia; done).
  assert (Ed : pack f s e m / 2 ^ mantissa_bits f = (if s then 2 ^ exponent_bits f else 0) + e)
    by (rewrite Elow, Z.add_comm, Z.div_add, Z.div_small by lia; lia).
  assert (Ee : (pack f s e m / 2 ^ mantissa_bits f) mod 2 ^ exponent_bits f = e).
  { rewrite Ed. destruct s; [|by rewrite Z.add_0_l, Z.mod_small by lia]. replace (2 ^ exponent_bits f + e) with (e + 1 * 2 ^ exponent_bits f) by lia.
    rewrite Z.mod_add, Z.mod_small by lia. done. }
  assert (Es : Z.testbit (pack f s e m) (sign_bit f) = s).
  { unfold sign_bit. rewrite (Z.add_comm (mantissa_bits f)), <- Z.shiftr_spec by lia. rewrite Z.shiftr_div_pow2, Ed by lia.
    rewrite Z.testbit_odd, Z.shiftr_div_pow2 by lia. destruct s.
    - replace (2 ^ exponent_bits f + e) with (e + 1 * 2 ^ exponent_bits f) by lia. rewrite Z.div_add, Z.div_small by lia. done.
    - by rewrite Z.add_0_l, Z.div_small by lia. }
  unfold of_bits. by rewrite Es, Ee, Em.
Qed.

Lemma top_bounds : 0 < top_exponent f < 2 ^ exponent_bits f.
Proof. unfold top_exponent. pose proof pow_e. lia. Qed.

Lemma to_bits_pattern x : valid x -> is_pattern (to_bits f x).
Proof.
  intros Hv. pose proof pow_m. pose proof top_bounds as Ht. destruct x as [s|s| |s m e]; cbn [to_bits].
  - apply pack_pattern; lia.
  - apply pack_pattern; lia.
  - unfold canonical_nan. replace (top_exponent f * 2 ^ mantissa_bits f + 2 ^ (mantissa_bits f - 1))
      with (pack f false (top_exponent f) (2 ^ (mantissa_bits f - 1))) by (unfold pack; lia).
    destruct Hf as (? & _). apply pack_pattern; [lia|]. split; [apply Z.pow_nonneg; lia|apply Z.pow_lt_mono_r; lia].
  - apply valid_finite in Hv as (He & Hm & Hn); [|apply prec_pos]. rewrite pow_prec in Hm. rewrite pow_prec_1 in Hn.
    pose proof emax_double as Hd. destruct (Z.ltb_spec (Zpos m) (2 ^ mantissa_bits f)); apply pack_pattern; unfold emin in *; lia.
Qed.

Lemma of_bits_valid b : valid (of_bits f b).
Proof.
  unfold of_bits. pose proof pow_m. pose proof pow_e. pose proof emax_double as Hd. pose proof prec_pos as Hp.
  set (e := (b / 2 ^ mantissa_bits f) mod 2 ^ exponent_bits f). set (m := b mod 2 ^ mantissa_bits f).
  assert (Hm : 0 <= m < 2 ^ mantissa_bits f) by (apply Z.mod_pos_bound; lia).
  assert (He : 0 <= e < 2 ^ exponent_bits f) by (apply Z.mod_pos_bound; lia).
  destruct (Z.eqb_spec e (top_exponent f)) as [|Ht]; [by destruct (m =? 0)|]. unfold top_exponent in Ht.
  pose proof emax_gt. destruct (Z.eqb_spec e 0) as [|Hz].
  - destruct m as [|p|p] eqn:Em; [done| |done]. apply valid_finite; [done|]. rewrite pow_prec. unfold emin in *. lia.
  - apply valid_finite; [done|]. rewrite Z2Pos.id by lia. rewrite pow_prec, pow_prec_1. unfold emin in *. lia.
Qed.

Lemma of_to_bits x : valid x -> of_bits f (to_bits f x) = x.
Proof.
  intros Hv. pose proof pow_m as Hpm. pose proof top_bounds as Ht. pose proof pow_e as Hpe. destruct x as [s|s| |s m e]; cbn [to_bits].
  - rewrite of_pack by lia. rewrite (proj2 (Z.eqb_neq _ _)) by lia. done.
  - rewrite of_pack by lia. by rewrite !Z.eqb_refl.
  - unfold canonical_nan. replace (top_exponent f * 2 ^ mantissa_bits f + 2 ^ (mantissa_bits f - 1))
      with (pack f false (top_exponent f) (2 ^ (mantissa_bits f - 1))) by (unfold pack; lia).
    destruct Hf as (? & _). assert (0 < 2 ^ (mantissa_bits f - 1) < 2 ^ mantissa_bits f) by (split; [apply Z.pow_pos_nonneg; lia|apply Z.pow_lt_mono_r; lia]).
    rewrite of_pack by lia. rewrite Z.eqb_refl. by rewrite (proj2 (Z.eqb_neq _ _)) by lia.
  - apply valid_finite in Hv as (He & Hm & Hn); [|apply prec_pos]. rewrite pow_prec in Hm. rewrite pow_prec_1 in Hn.
    pose proof emax_double as Hd. unfold top_exponent in Ht. destruct (Z.ltb_spec (Zpos m) (2 ^ mantissa_bits f)).
    + rewrite of_pack by lia. unfold top_exponent. rewrite (proj2 (Z.eqb_neq _ _)) by lia. cbn [Z.eqb]. f_equal. lia.
    + rewrite of_pack by (unfold emin in *; lia). unfold top_exponent.
      rewrite (proj2 (Z.eqb_neq _ (_ - 1))) by (unfold emin in *; lia). rewrite (proj2 (Z.eqb_neq _ 0)) by (unfold emin in *; lia).
      f_equal; [|lia]. replace (Zpos m - 2 ^ mantissa_bits f + 2 ^ mantissa_bits f) with (Zpos m) by lia. done.
Qed.

(** Every pattern that is no NaN is the pattern of its datum. *)
Lemma to_of_bits b : is_pattern b -> of_bits f b <> S754_nan -> to_bits f (of_bits f b) = b.
Proof.
  intros Hb Hn. pose proof pow_m as Hpm. pose proof pow_e as Hpe. destruct Hf as (Hmb & _ & Heb).
  set (e := (b / 2 ^ mantissa_bits f) mod 2 ^ exponent_bits f). set (m := b mod 2 ^ mantissa_bits f). set (s := Z.testbit b (sign_bit f)).
  assert (Hm : 0 <= m < 2 ^ mantissa_bits f) by (apply Z.mod_pos_bound; lia).
  assert (He : 0 <= e < 2 ^ exponent_bits f) by (apply Z.mod_pos_bound; lia).
  assert (Epack : b = pack f s e m).
  { unfold is_pattern in Hb. rewrite pow_width, pow_sign in Hb. pose proof (Z.div_mod b (2 ^ mantissa_bits f) ltac:(lia)) as H1. fold m in H1.
    pose proof (Z.div_mod (b / 2 ^ mantissa_bits f) (2 ^ exponent_bits f) ltac:(lia)) as H2. fold e in H2.
    set (t := b / 2 ^ mantissa_bits f / 2 ^ exponent_bits f) in *.
    assert (Ht : 0 <= t < 2) by (unfold t; split; [apply Z.div_pos; [apply Z.div_pos; lia|lia]|];
      rewrite Z.div_div by lia; apply Z.div_lt_upper_bound; [lia|nia]).
    assert (Es : s = (t =? 1)).
    { unfold s, sign_bit. rewrite (Z.add_comm (mantissa_bits f)), <- Z.shiftr_spec, Z.shiftr_div_pow2 by lia.
      rewrite Z.testbit_odd, Z.shiftr_div_pow2 by lia. fold t. by destruct (decide (t = 0)) as [->|]; [|replace t with 1 by lia]. }
    unfold pack. rewrite Es, pow_sign. destruct (Z.eqb_spec t 1) as [Et|]; [rewrite Et in H2|assert (t = 0) as Et by lia; rewrite Et in H2]; nia. }
  rewrite Epack in Hn |- *. rewrite of_pack in Hn |- * by done. pose proof top_bounds as Ht.
  destruct (Z.eqb_spec e (top_exponent f)) as [->|]; [destruct (Z.eqb_spec m 0) as [->|]; done|].
  destruct (Z.eqb_spec e 0) as [->|Hz].
  - destruct m as [|p|p] eqn:Em; [done| |lia]. cbn [to_bits]. by rewrite (proj2 (Z.ltb_lt _ _)) by lia.
  - cbn [to_bits]. rewrite Z2Pos.id by lia. rewrite (proj2 (Z.ltb_ge _ _)) by lia. f_equal; lia.
Qed.

(** ** Operations *)

Lemma lift2_pattern op a b : (forall x y, valid x -> valid y -> valid (op x y)) -> is_pattern (lift2 f op a b).
Proof. intros H. apply to_bits_pattern, H; apply of_bits_valid. Qed.

Lemma rem_valid x y : valid x -> valid y -> valid (SFrem f x y).
Proof.
  intros Hx Hy. destruct x as [s|s| |s mx ex], y as [s'|s'| |s' my ey]; try done.
  apply normalize_valid; first [apply prec_pos|apply emax_gt].
Qed.

Lemma add_pattern a b : is_pattern (add f a b).
Proof. apply lift2_pattern. intros. apply add_valid; done || apply prec_pos || apply emax_gt. Qed.
Lemma sub_pattern a b : is_pattern (sub f a b).
Proof. apply lift2_pattern. intros. apply sub_valid; done || apply prec_pos || apply emax_gt. Qed.
Lemma mul_pattern a b : is_pattern (mul f a b).
Proof. apply lift2_pattern. intros. apply mul_valid; done || apply prec_pos || apply emax_gt. Qed.
Lemma div_pattern a b : is_pattern (div f a b).
Proof. apply lift2_pattern. intros. apply div_valid; done || apply prec_pos || apply emax_gt. Qed.
Lemma rem_pattern a b : is_pattern (rem f a b).
Proof. apply lift2_pattern. intros. by apply rem_valid. Qed.
Lemma neg_pattern a : is_pattern (neg f a).
Proof. apply to_bits_pattern, opp_valid, of_bits_valid. Qed.
Lemma of_int_valid z : valid (of_int f z).
Proof. apply normalize_valid; first [apply prec_pos|apply emax_gt]. Qed.
Lemma from_integer_pattern z : is_pattern (from_integer f z).
Proof. apply to_bits_pattern, of_int_valid. Qed.
Lemma convert_format_pattern from v : is_pattern (convert_format from f v).
Proof.
  apply to_bits_pattern. destruct (of_bits from v) as [s|s| |s m e]; try done. apply normalize_valid; first [apply prec_pos|apply emax_gt].
Qed.
Lemma canonical_nan_pattern : is_pattern (canonical_nan f).
Proof. by apply (to_bits_pattern S754_nan). Qed.

(** ** Order and truncation *)

(** The value of a finite datum, in units of the smallest positive float. *)
Definition scaled (x : spec_float) : Z :=
  match x with
  | S754_finite s m e => let z := Zpos m * 2 ^ (e - emin (prec f) (emax f)) in if s then - z else z
  | _ => 0
  end.
Definition unit_scale : Z := 2 ^ (- emin (prec f) (emax f)).
Definition finite (x : spec_float) : bool := match x with S754_zero _ | S754_finite _ _ _ => true | _ => false end.

Lemma magnitude_lt m e m' e' : valid (S754_finite false m e) -> valid (S754_finite false m' e') -> e < e' ->
  Zpos m * 2 ^ (e - emin (prec f) (emax f)) < Zpos m' * 2 ^ (e' - emin (prec f) (emax f)).
Proof.
  intros (He & Hm & _)%valid_finite (He' & _ & Hn)%valid_finite Hlt; [|apply prec_pos|apply prec_pos]. set (k := emin (prec f) (emax f)) in *.
  pose proof prec_pos. destruct Hn as [->|Hn]; [lia|]. pose proof (Z.pow_pos_nonneg 2 (e - k) ltac:(lia) ltac:(lia)).
  assert (H1 : Zpos m * 2 ^ (e - k) < 2 ^ (prec f + (e - k))) by (rewrite Z.pow_add_r by lia; nia).
  assert (H2 : 2 ^ (prec f - 1 + (e' - k)) <= Zpos m' * 2 ^ (e' - k)) by (rewrite Z.pow_add_r by lia; apply Z.mul_le_mono_nonneg_r; [apply Z.pow_nonneg; lia|done]).
  assert (H3 : 2 ^ (prec f + (e - k)) <= 2 ^ (prec f - 1 + (e' - k))) by (apply Z.pow_le_mono_r; lia). lia.
Qed.

Lemma magnitude_compare m e m' e' : valid (S754_finite false m e) -> valid (S754_finite false m' e') ->
  match Z.compare e e' with Eq => Pos.compare_cont Eq m m' | c => c end =
  Z.compare (Zpos m * 2 ^ (e - emin (prec f) (emax f))) (Zpos m' * 2 ^ (e' - emin (prec f) (emax f))).
Proof.
  intros Hv Hv'. destruct (Z.compare_spec e e') as [<-|Hlt|Hgt].
  - change (Pos.compare_cont Eq m m') with (Zpos m ?= Zpos m'). apply valid_finite in Hv as (He & _); [|apply prec_pos].
    pose proof (Z.pow_pos_nonneg 2 (e - emin (prec f) (emax f)) ltac:(lia) ltac:(lia)).
    rewrite !(Z.mul_comm _ (2 ^ _)). apply Zmult_compare_compat_l. lia.
  - symmetry. apply Z.compare_lt_iff. by apply magnitude_lt.
  - symmetry. apply Z.compare_gt_iff. by apply magnitude_lt.
Qed.

(** On finite data the IEEE order is the order of the values. *)
Lemma leb_scaled x y : valid x -> valid y -> finite x = true -> finite y = true -> SFleb x y = (scaled x <=? scaled y).
Proof.
  intros Hx Hy Fx Fy. unfold SFleb.
  destruct x as [s|s| |s m e], y as [s'|s'| |s' m' e']; try done; cbn [SFcompare scaled].
  - assert (0 < Zpos m' * 2 ^ (e' - emin (prec f) (emax f))).
    { apply valid_finite in Hy as (He & _); [|apply prec_pos]. pose proof (Z.pow_pos_nonneg 2 (e' - emin (prec f) (emax f)) ltac:(lia) ltac:(lia)). nia. }
    destruct s'; symmetry; [apply Z.leb_gt|apply Z.leb_le]; lia.
  - assert (0 < Zpos m * 2 ^ (e - emin (prec f) (emax f))).
    { apply valid_finite in Hx as (He & _); [|apply prec_pos]. pose proof (Z.pow_pos_nonneg 2 (e - emin (prec f) (emax f)) ltac:(lia) ltac:(lia)). nia. }
    destruct s; symmetry; [apply Z.leb_le|apply Z.leb_gt]; lia.
  - assert (Hp : 0 < Zpos m * 2 ^ (e - emin (prec f) (emax f)) /\ 0 < Zpos m' * 2 ^ (e' - emin (prec f) (emax f))).
    { apply valid_finite in Hx as (He & _), Hy as (He' & _); [|apply prec_pos|apply prec_pos].
      pose proof (Z.pow_pos_nonneg 2 (e - emin (prec f) (emax f)) ltac:(lia) ltac:(lia)).
      pose proof (Z.pow_pos_nonneg 2 (e' - emin (prec f) (emax f)) ltac:(lia) ltac:(lia)). nia. }
    pose proof (magnitude_compare m e m' e' Hx Hy) as Hc.
    set (a := Zpos m * 2 ^ (e - emin (prec f) (emax f))) in *. set (b := Zpos m' * 2 ^ (e' - emin (prec f) (emax f))) in *.
    destruct s, s'; cbn [scaled].
    + assert (Hc' : match Z.compare e e' with Eq => CompOpp (Pos.compare_cont Eq m m') | Lt => Gt | Gt => Lt end = CompOpp (a ?= b))
        by (rewrite <- Hc; by destruct (e ?= e')). rewrite Hc'. unfold Z.leb. rewrite Z.compare_opp, (Z.compare_antisym a b). by destruct (a ?= b).
    + symmetry. apply Z.leb_le. lia.
    + symmetry. apply Z.leb_gt. lia.
    + assert (Hc' : match Z.compare e e' with Eq => Pos.compare_cont Eq m m' | Lt => Lt | Gt => Gt end = (a ?= b))
        by (rewrite <- Hc; by destruct (e ?= e')). rewrite Hc'. unfold Z.leb. by destruct (a ?= b).
Qed.

Lemma truncate_scaled x : valid x -> truncate x = Z.quot (scaled x) unit_scale.
Proof.
  intros Hv. unfold unit_scale. destruct x as [s|s| |s m e]; cbn [truncate scaled]; try (by rewrite Z.quot_0_l by (apply Z.pow_nonzero; [lia|unfold emin; pose proof prec_pos; pose proof emax_gt; lia])).
  apply valid_finite in Hv as (He & _); [|apply prec_pos]. pose proof prec_pos. pose proof emax_gt. set (k := emin (prec f) (emax f)) in *.
  assert (Hk : k <= 0) by (unfold k, emin; lia). pose proof (Z.pow_pos_nonneg 2 (- k) ltac:(lia) ltac:(lia)).
  pose proof (Z.pow_pos_nonneg 2 (e - k) ltac:(lia) ltac:(lia)).
  assert (Hq : (if 0 <=? e then Zpos m * 2 ^ e else Zpos m / 2 ^ (- e)) = Z.quot (Zpos m * 2 ^ (e - k)) (2 ^ (- k))).
  { rewrite Z.quot_div_nonneg by nia. destruct (Z.leb_spec 0 e).
    - replace (e - k) with (e + - k) by lia. rewrite Z.pow_add_r, Z.mul_assoc, Z.div_mul by lia. done.
    - replace (- k) with (- e + (e - k)) by lia. pose proof (Z.pow_pos_nonneg 2 (- e) ltac:(lia) ltac:(lia)).
      rewrite Z.pow_add_r by lia. by rewrite Z.div_mul_cancel_r by lia. }
  rewrite Hq. destruct s; [|done]. by rewrite Z.quot_opp_l by lia.
Qed.

(** Saturating truncation: the limits, as floats, are [min] and [max] or [max + 1]. *)
Lemma to_integer_clamps min max M v : min <= 0 <= max -> finite (of_int f max) = true -> finite (of_int f min) = true ->
  scaled (of_int f max) = M * unit_scale -> max <= M <= max + 1 -> scaled (of_int f min) = min * unit_scale ->
  to_integer f min max v =
    match of_bits f v with
    | S754_nan => 0
    | S754_infinity s => if s then min else max
    | x => Z.max min (Z.min max (truncate x))
    end.
Proof.
  intros Hmm Fmax Fmin Emax HM Emin. unfold to_integer, is_nan. pose proof (of_bits_valid v) as Hv. set (x := of_bits f v) in *.
  assert (Hfin : finite x = true -> to_integer f min max v = Z.max min (Z.min max (truncate x))).
  { intros Hf'. unfold to_integer, is_nan. fold x. assert (Hn : match x with S754_nan => true | _ => false end = false) by (by destruct x). rewrite Hn.
    rewrite !leb_scaled by (done || apply of_int_valid). rewrite Emax, Emin, truncate_scaled by done. set (u := unit_scale) in *.
    assert (Hu : 0 < u) by (apply Z.pow_pos_nonneg; [lia|]; pose proof prec_pos; pose proof emax_gt; unfold emin; lia).
    pose proof (Z.quot_rem' (scaled x) u) as Hqr. pose proof (Z.rem_bound_abs (scaled x) u ltac:(lia)) as Hra.
    destruct (Z.leb_spec (M * u) (scaled x)) as [Hge|Hlt].
    - pose proof (Z.rem_nonneg (scaled x) u ltac:(lia) ltac:(nia)). nia.
    - destruct (Z.leb_spec (scaled x) (min * u)) as [Hle|Hgt].
      + pose proof (Z.rem_nonpos (scaled x) u ltac:(lia) ltac:(nia)). nia.
      + destruct (Z.le_gt_cases 0 (scaled x)).
        * pose proof (Z.rem_nonneg (scaled x) u ltac:(lia) ltac:(nia)). nia.
        * pose proof (Z.rem_nonpos (scaled x) u ltac:(lia) ltac:(nia)). nia. }
  unfold to_integer, is_nan in Hfin. fold x in Hfin.
  destruct x as [s|s| |s m e]; [by apply Hfin| |done|by apply Hfin].
  destruct (of_int f max) as [s1| | |s1 m1 e1]; [| done | done |]; destruct (of_int f min) as [s2| | |s2 m2 e2]; try done; by destruct s.
Qed.

End Format.

(** The value of a float truncated toward zero and brought into a range; a NaN
    gives zero. *)
Definition saturated (f : format) (min max v : Z) : Z :=
  match of_bits f v with
  | S754_nan => 0
  | S754_infinity s => if s then min else max
  | x => Z.max min (Z.min max (truncate x))
  end.

(** Decides the side conditions at a concrete format and range. *)
Ltac saturates H M := apply (to_integer_clamps _ H _ _ M); vm_compute; repeat split; done.

Lemma f32_to_i32_saturated v : f32_to_i32 v = saturated F32 i32_min i32_max v.
Proof. saturates F32_ok (i32_max + 1). Qed.
Lemma f32_to_i64_saturated v : f32_to_i64 v = saturated F32 i64_min i64_max v.
Proof. saturates F32_ok (i64_max + 1). Qed.
Lemma f64_to_i32_saturated v : f64_to_i32 v = saturated F64 i32_min i32_max v.
Proof. saturates F64_ok i32_max. Qed.
Lemma f64_to_i64_saturated v : f64_to_i64 v = saturated F64 i64_min i64_max v.
Proof. saturates F64_ok (i64_max + 1). Qed.

(** C40. Conversions from float to integer truncate toward zero and saturate: a NaN
    becomes zero, a value beyond the range the nearest end of it, although the
    bounds the code compares with are themselves rounded to floats. *)
Theorem float_to_integer_saturates (v : Z) :
  f32_to_i32 v = saturated F32 i32_min i32_max v /\ f32_to_i64 v = saturated F32 i64_min i64_max v /\
  f64_to_i32 v = saturated F64 i32_min i32_max v /\ f64_to_i64 v = saturated F64 i64_min i64_max v.
Proof.
  auto using f32_to_i32_saturated, f32_to_i64_saturated, f64_to_i32_saturated, f64_to_i64_saturated.
Qed.

Lemma to_integer_range f min max v : min <= 0 <= max -> min <= saturated f min max v <= max.
Proof. intros H. unfold saturated. destruct (of_bits f v) as [|[]| |]; lia. Qed.

Lemma saturating_cast_range f max v : 0 <= max -> 0 <= saturating_cast f max v <= max.
Proof. intros H. unfold saturating_cast. destruct (of_bits f v) as [|[]| |]; lia. Qed.

(** ** math.rs *)

(** What is relied on of libm: its results are floats of the width asked for. *)
Definition libm_ok (lib : libm) : Prop := forall f, format_ok f ->
  (forall g x, is_pattern f x -> is_pattern f (call_unary lib f g x)) /\
  (forall g x y, is_pattern f x -> is_pattern f y -> is_pattern f (call_binary lib f g x y)).

Section MathPatterns.
Context (lib : libm) (Hlib : libm_ok lib) (f : format) (Hf : format_ok f).

Lemma canonical_pattern v : is_pattern f v -> is_pattern f (canonical f v).
Proof. intros. unfold canonical. destruct (is_nan f v); [by apply canonical_nan_pattern|done]. Qed.

Lemma infinity_pattern s : is_pattern f (infinity f s).
Proof. by apply to_bits_pattern. Qed.

Lemma one_pattern : is_pattern f (one f).
Proof. by apply from_integer_pattern. Qed.

Lemma ulp_pattern x : is_pattern f x -> is_pattern f (ulp f x).
Proof.
  intros Hx. unfold ulp. destruct (is_nan f x); [by apply canonical_nan_pattern|].
  destruct (match of_bits f x with S754_infinity _ => true | _ => false end); [by apply to_bits_pattern|].
  pose proof (pow_m f Hf). pose proof (pow_e f Hf). destruct Hf as (Hm & Hp & He).
  assert (Hl : 0 <= Z.land (Z.shiftr x (mantissa_bits f)) (top_exponent f) < 2 ^ exponent_bits f).
  { unfold top_exponent. replace (2 ^ exponent_bits f - 1) with (Z.ones (exponent_bits f)) by (rewrite Z.ones_equiv; lia).
    rewrite Z.land_ones by lia. apply Z.mod_pos_bound. lia. }
  set (e := Z.land _ _) in *. unfold is_pattern. rewrite pow_width, pow_sign by done.
  destruct (Z.leb_spec e (mantissa_bits f)).
  - rewrite Z.shiftl_mul_pow2, Z.mul_1_l by lia. split; [apply Z.pow_nonneg; lia|].
    assert (2 ^ Z.max 0 (e - 1) <= 2 ^ mantissa_bits f) by (apply Z.pow_le_mono_r; lia). nia.
  - rewrite Z.shiftl_mul_pow2 by lia. nia.
Qed.

Lemma unary_pattern o x : is_pattern f x -> is_pattern f (unary lib f o x).
Proof.
  intros Hx. destruct (Hlib f Hf) as [H1 H2]. apply canonical_pattern.
  destruct o; try (by apply H1); try (by apply H2; [done|apply infinity_pattern]); [|by apply ulp_pattern].
  destruct (_ || _); [done|]. apply H2; [apply one_pattern|done].
Qed.

Lemma bits_pattern (op : Z -> Z -> Z) (bop : bool -> bool -> bool) x y : (forall a b n, Z.testbit (op a b) n = bop (Z.testbit a n) (Z.testbit b n)) ->
  bop false false = false -> (0 <= x -> 0 <= y -> 0 <= op x y) -> is_pattern f x -> is_pattern f y -> is_pattern f (op x y).
Proof.
  intros Hop Hb Hn [Hx Hx'] [Hy Hy']. split; [by apply Hn|].
  assert (Hw : 0 <= width f) by (destruct Hf as (? & _ & ?); unfold width, sign_bit; lia).
  assert (E : op x y = op x y mod 2 ^ width f).
  { apply Z.bits_inj'. intros n Hn0. rewrite Z.testbit_mod_pow2 by done. destruct (Z.ltb_spec n (width f)); [done|]. rewrite Hop.
    rewrite <- (Z.mod_small x (2 ^ width f)), <- (Z.mod_small y (2 ^ width f)) by lia. rewrite !Z.mod_pow2_bits_high by lia. done. }
  rewrite E. apply Z.mod_pos_bound. by apply Z.pow_pos_nonneg.
Qed.

Lemma binary_pattern o x y : is_pattern f x -> is_pattern f y -> is_pattern f (binary lib f o x y).
Proof.
  intros Hx Hy. destruct (Hlib f Hf) as [H1 H2]. apply canonical_pattern. destruct o; try (by apply H2).
  - destruct (_ || _); [by apply canonical_nan_pattern|]. destruct (_ && _); [|by destruct (lt f x y)].
    apply (bits_pattern Z.lor orb); [intros; apply Z.lor_spec|done|by intros; apply Z.lor_nonneg|done|done].
  - destruct (_ || _); [by apply canonical_nan_pattern|]. destruct (_ && _); [|by destruct (lt f y x)].
    apply (bits_pattern Z.land andb); [intros; apply Z.land_spec|done|intros; apply Z.land_nonneg; by left|done|done].
  - destruct (_ || _); [by apply canonical_nan_pattern|by apply H2].
Qed.

End MathPatterns.

(** The host's elementary functions replaced by constants: what is relied on can hold. *)
Definition constant_libm : libm := mkLibm (fun _ _ _ => 0) (fun _ _ _ _ => 0).
Lemma constant_libm_ok : libm_ok constant_libm.
Proof.
  intros f Hf. assert (is_pattern f 0).
  { split; [done|]. destruct Hf as (? & _ & ?). apply Z.pow_pos_nonneg; unfold width, sign_bit; lia. }
  by split.
Qed.

End FloatProps.
