(* ===== verification/Code.v ===== *)
(** The code of an artifact: the instruction set of src/artifact/mod.rs, matrix.rs,
    math.rs and format.rs, and the decoder of code records of src/decode/code.rs. *)

From S2P Require Import Prelude Words Bytes Float.

Module Code.
Import Diagnostics Cursor.

(** ** Selectors *)

Inductive MatrixOperation :=
| Transpose | MultiplyMatrix | MultiplyVector | TransformPoint | TransformDirection
| Transpose3f | MultiplyMatrix3f | MultiplyVector3f | Transpose3d | MultiplyMatrix3d | MultiplyVector3d
| Transpose4d | MultiplyMatrix4d | MultiplyVector4d | TransformPoint4d | TransformDirection4d.

(** The discriminants, [self as u32]. *)
Definition matrix_selector (o : MatrixOperation) : Z :=
  match o with
  | Transpose => 1 | MultiplyMatrix => 2 | MultiplyVector => 3 | TransformPoint => 4 | TransformDirection => 5
  | Transpose3f => 6 | MultiplyMatrix3f => 7 | MultiplyVector3f => 8 | Transpose3d => 9 | MultiplyMatrix3d => 10
  | MultiplyVector3d => 11 | Transpose4d => 12 | MultiplyMatrix4d => 13 | MultiplyVector4d => 14
  | TransformPoint4d => 15 | TransformDirection4d => 16
  end.

Definition matrix_decode (selector : Z) : option MatrixOperation :=
  match selector with
  | 1 => Some Transpose | 2 => Some MultiplyMatrix | 3 => Some MultiplyVector | 4 => Some TransformPoint
  | 5 => Some TransformDirection | 6 => Some Transpose3f | 7 => Some MultiplyMatrix3f | 8 => Some MultiplyVector3f
  | 9 => Some Transpose3d | 10 => Some MultiplyMatrix3d | 11 => Some MultiplyVector3d | 12 => Some Transpose4d
  | 13 => Some MultiplyMatrix4d | 14 => Some MultiplyVector4d | 15 => Some TransformPoint4d
  | 16 => Some TransformDirection4d | _ => None
  end.

Definition dimension (o : MatrixOperation) : Z :=
  match o with
  | Transpose3f | MultiplyMatrix3f | MultiplyVector3f | Transpose3d | MultiplyMatrix3d | MultiplyVector3d => 3
  | _ => 4
  end.
Definition scalar_kind (o : MatrixOperation) : Z := if 9 <=? matrix_selector o then 4 else 3.
Definition matrix_runtime_minor (o : MatrixOperation) : Z := if 6 <=? matrix_selector o then 19 else 17.
Definition is_transpose (o : MatrixOperation) : bool :=
  match o with Transpose | Transpose3f | Transpose3d | Transpose4d => true | _ => false end.
Definition is_matrix_product (o : MatrixOperation) : bool :=
  match o with MultiplyMatrix | MultiplyMatrix3f | MultiplyMatrix3d | MultiplyMatrix4d => true | _ => false end.
Definition homogeneous_w (o : MatrixOperation) : option bool :=
  match o with
  | TransformPoint | TransformPoint4d => Some true
  | TransformDirection | TransformDirection4d => Some false
  | _ => None
  end.
Definition left_components (o : MatrixOperation) : Z := dimension o * dimension o.
Definition right_components (o : MatrixOperation) : option Z :=
  if is_transpose o then None
  else if is_matrix_product o then Some (left_components o)
  else if bool_decide (is_Some (homogeneous_w o)) then Some 3
  else Some (dimension o).
Definition result_components (o : MatrixOperation) : Z :=
  if is_transpose o || is_matrix_product o then left_components o else dimension o.
Definition matrix_cost (o : MatrixOperation) : Z :=
  if is_transpose o then left_components o + 2
  else if is_matrix_product o then 2 * dimension o ^ 3
  else 2 * left_components o.

Definition unary_selector (o : Float.MathUnaryOperation) : Z :=
  match o with
  | Float.Abs => 1 | Float.Sign => 2 | Float.Ceil => 3 | Float.Floor => 4 | Float.Truncate => 5 | Float.Round => 6
  | Float.Sin => 7 | Float.Cos => 8 | Float.Tan => 9 | Float.Asin => 10 | Float.Acos => 11 | Float.Atan => 12
  | Float.Sinh => 13 | Float.Cosh => 14 | Float.Tanh => 15 | Float.Asinh => 16 | Float.Acosh => 17
  | Float.Atanh => 18 | Float.Sqrt => 19 | Float.Cbrt => 20 | Float.Exp => 21 | Float.Expm1 => 22 | Float.Ln => 23
  | Float.Ln1p => 24 | Float.Log10 => 25 | Float.Log2 => 26 | Float.Ulp => 27 | Float.NextUp => 28 | Float.NextDown => 29
  end.
Definition unary_decode (selector : Z) : option Float.MathUnaryOperation :=
  match selector with
  | 1 => Some Float.Abs | 2 => Some Float.Sign | 3 => Some Float.Ceil | 4 => Some Float.Floor
  | 5 => Some Float.Truncate | 6 => Some Float.Round | 7 => Some Float.Sin | 8 => Some Float.Cos
  | 9 => Some Float.Tan | 10 => Some Float.Asin | 11 => Some Float.Acos | 12 => Some Float.Atan
  | 13 => Some Float.Sinh | 14 => Some Float.Cosh | 15 => Some Float.Tanh | 16 => Some Float.Asinh
  | 17 => Some Float.Acosh | 18 => Some Float.Atanh | 19 => Some Float.Sqrt | 20 => Some Float.Cbrt
  | 21 => Some Float.Exp | 22 => Some Float.Expm1 | 23 => Some Float.Ln | 24 => Some Float.Ln1p
  | 25 => Some Float.Log10 | 26 => Some Float.Log2 | 27 => Some Float.Ulp | 28 => Some Float.NextUp
  | 29 => Some Float.NextDown | _ => None
  end.
Definition unary_cost (o : Float.MathUnaryOperation) : Z :=
  match o with
  | Float.Abs | Float.Sign => 2
  | Float.Ceil | Float.Floor | Float.Truncate | Float.Round | Float.Ulp | Float.NextUp | Float.NextDown => 4
  | Float.Sqrt => 16
  | _ => 64
  end.

Definition binary_selector (o : Float.MathBinaryOperation) : Z :=
  match o with
  | Float.Min => 1 | Float.Max => 2 | Float.Atan2 => 3 | Float.Hypot => 4 | Float.Pow => 5 | Float.IeeeRem => 6
  | Float.CopySign => 7 | Float.NextTowards => 8
  end.
Definition binary_decode (selector : Z) : option Float.MathBinaryOperation :=
  match selector with
  | 1 => Some Float.Min | 2 => Some Float.Max | 3 => Some Float.Atan2 | 4 => Some Float.Hypot | 5 => Some Float.Pow
  | 6 => Some Float.IeeeRem | 7 => Some Float.CopySign | 8 => Some Float.NextTowards | _ => None
  end.
Definition binary_cost (o : Float.MathBinaryOperation) : Z :=
  match o with
  | Float.Min | Float.Max | Float.CopySign => 2 | Float.NextTowards => 4 | Float.Hypot => 32
  | Float.Atan2 | Float.Pow | Float.IeeeRem => 64
  end.

(** ** Instructions *)

Record SwitchCase := mkCase { value : Z; target : Z }.

Inductive Instruction :=
| InlineConstruct (dst : Z) (components : list Z)
| InlineComponent (dst src component : Z)
| Nop
| Move (dst src : Z)
| Const (dst constant : Z)
| Null (dst : Z)
| MatrixMath (operation : MatrixOperation) (dst lhs : Z) (rhs : option Z)
| MathUnary (form : Z) (operation : Float.MathUnaryOperation) (dst src : Z)
| MathBinary (form : Z) (operation : Float.MathBinaryOperation) (dst lhs rhs : Z)
| Convert (form dst src : Z)
| Add (form dst lhs rhs : Z)
| Sub (form dst lhs rhs : Z)
| Mul (form dst lhs rhs : Z)
| Div (form dst lhs rhs : Z)
| Rem (form dst lhs rhs : Z)
| Neg (form dst src : Z)
| BitAnd (form dst lhs rhs : Z)
| BitOr (form dst lhs rhs : Z)
| BitXor (form dst lhs rhs : Z)
| ShiftLeft (form dst lhs rhs : Z)
| ShiftRight (form dst lhs rhs : Z)
| ShiftUnsigned (form dst lhs rhs : Z)
| Equal (form dst lhs rhs : Z)
| NotEqual (form dst lhs rhs : Z)
| Less (form dst lhs rhs : Z)
| LessEqual (form dst lhs rhs : Z)
| Greater (form dst lhs rhs : Z)
| GreaterEqual (form dst lhs rhs : Z)
| RefEqual (dst lhs rhs : Z)
| RefNotEqual (dst lhs rhs : Z)
| NewObject (dst type_ref : Z)
| NewArray (dst type_ref length : Z)
| ArrayLength (dst array : Z)
| ArrayLoad (dst array index : Z)
| ArrayStore (array index value : Z)
| ArrayCopy (source destination source_start destination_start length : Z)
| FieldGet (dst receiver field_ref : Z)
| FieldSet (receiver field_ref value : Z)
| StaticGet (dst field_ref : Z)
| StaticSet (field_ref value : Z)
| IsType (dst value type_ref : Z)
| CheckedCast (dst value type_ref : Z)
| CallDirect (dst function_ref : Z) (args : list Z)
| CallVirtual (dst function_ref : Z) (args : list Z)
| CallInterface (dst function_ref : Z) (args : list Z)
| CoroutineSpawn (dst function_ref : Z) (args : list Z)
| CapabilityCallSync (dst capability operation : Z) (args : list Z)
| StringLength (dst string : Z)
| StringGet (dst string index : Z)
| StringEquals (dst lhs rhs : Z)
| StringCompare (dst lhs rhs : Z)
| StringHash (dst string : Z)
| StringConcat (dst lhs rhs : Z)
| ValueHash (form dst source : Z)
| StringValueOf (form dst source : Z)
| StringSubstring (dst string start stop : Z)
| StringFromCharArray (dst array start stop : Z)
| Jump (target : Z)
| Branch (condition true_block false_block : Z)
| SwitchI32 (key default_block : Z) (cases : list SwitchCase)
| Return (value : Z)
| Throw (exception : Z)
| CallSuspend (dst function_ref : Z) (args : list Z) (resume_block : Z)
| Yield (resume_block : Z)
| Sleep (duration resume_block : Z)
| CoroutineJoin (dst coroutine resume_block : Z)
| ChannelCreate (dst capacity : Z)
| ChannelSend (channel value resume_block : Z)
| ChannelReceive (dst channel resume_block : Z)
| CapabilityCallAsync (dst capability operation : Z) (args : list Z) (resume_block : Z)
| Unreachable.

(** Forms 8 and 9 select the unsigned reading of an integer instruction. *)
Definition unsigned_form (form : Z) : bool := (form =? 8) || (form =? 9).

Definition uses_unsigned_semantics (i : Instruction) : bool :=
  match i with
  | Convert form _ _ => in_range 1 3 form
  | Add form _ _ _ | Sub form _ _ _ | Mul form _ _ _ | Div form _ _ _ | Rem form _ _ _
  | Equal form _ _ _ | NotEqual form _ _ _ | Less form _ _ _ | LessEqual form _ _ _
  | Greater form _ _ _ | GreaterEqual form _ _ _ | StringValueOf form _ _ => unsigned_form form
  | _ => false
  end.

Definition is_terminator (i : Instruction) : bool :=
  match i with
  | Jump _ | Branch _ _ _ | SwitchI32 _ _ _ | Return _ | Throw _ | CallSuspend _ _ _ _ | Yield _ | Sleep _ _
  | CoroutineJoin _ _ _ | ChannelSend _ _ _ | ChannelReceive _ _ _ | CapabilityCallAsync _ _ _ _ _ | Unreachable => true
  | _ => false
  end.

(** [format::valid_instruction_form]. *)
Definition valid_instruction_form (opcode form : Z) : bool :=
  if opcode =? 0x04 then in_range 0 3 form
  else if in_range 0x10 0x14 opcode then in_range 1 4 form || unsigned_form form
  else if opcode =? 0x15 then in_range 1 4 form
  else if in_range 0x1c 0x1d opcode then in_range 3 4 form
  else if in_range 0x16 0x1b opcode then in_range 1 2 form
  else if in_range 0x20 0x21 opcode then in_range 1 6 form || unsigned_form form
  else if in_range 0x22 0x25 opcode then in_range 1 4 form || (form =? 6) || unsigned_form form
  else if in_range 0x26 0x27 opcode then form =? 7
  else if opcode =? 0x69 then in_range 1 7 form
  else if opcode =? 0x68 then in_range 1 9 form
  else form =? 0.

(** ** The decoder *)

(** The two limits of src/limits.rs the decoder of code consults. *)
Record CodeLimits := mkCodeLimits { records_per_section : Z; registers_per_function : Z }.

Abbreviation Dec := (ST Cursor DiagnosticSet).

Definition single (d : Diagnostic) : DiagnosticSet := push (DiagnosticSet_new 1) d.
Definition error (c : Diagnostics.Code) (offset : Z) (detail : string) : DiagnosticSet := single (at_offset Code_ c offset (text detail)).

(** [remap]: the family and offset of a cursor error, seen from the record. *)
Definition remap (d : Diagnostic) (base : Z) : DiagnosticSet :=
  let l := location d in
  let off := o ← offset l; checked_add u64_max o base in
  single (mkDiagnostic Code_ (code d) (mkLocation off (section l) (module l) (function l) (block l) (instruction l)) (detail d)).

Definition remapped {A} (base : Z) (m : Read A) : Dec A := fun c =>
  match m c with
  | (Ok a, c') => (Ok a, c')
  | (Err d, c') => (Err (remap d base), c')
  | (Panic, c') => (Panic, c')
  end.

Definition ABSENT : Z := u16_max.

Definition optional_reg (offset : Z) : Dec Z := remapped offset read_u16.
Definition reg (offset : Z) : Dec Z :=
  v ← optional_reg offset;
  if v =? ABSENT then st_err (error BadInstruction offset "absent register sentinel is not allowed for this operand")
  else mret v.
Definition id (offset : Z) : Dec Z := remapped offset read_uleb32.

Definition list_count (limits : CodeLimits) (offset : Z) : Dec Z :=
  count ← id offset;
  if registers_per_function limits <? count then st_err (error LimitExceeded offset "instruction list limit exceeded")
  else mret count.

(** [for _ in 0..count { values.push(..) }]. *)
Fixpoint repeat_read {A} (n : nat) (m : Dec A) : Dec (list A) :=
  match n with
  | O => mret []
  | S n => v ← m; vs ← repeat_read n m; mret (v :: vs)
  end.

Definition args (limits : CodeLimits) (offset : Z) : Dec (list Z) :=
  count ← list_count limits offset;
  repeat_read (Z.to_nat count) (reg offset).

(** The loop over the cases of a switch, after the case [previous]. *)
Fixpoint switch_cases (n : nat) (offset : Z) (previous : option SwitchCase) : Dec (list SwitchCase) :=
  match n with
  | O => mret []
  | S n =>
      v ← remapped offset read_i32;
      t ← id offset;
      if match previous with Some p => v <=? value p | None => false end
      then st_err (error BadInstruction offset "switch cases are not sorted and unique")
      else
        rest ← switch_cases n offset (Some (mkCase v t));
        mret (mkCase v t :: rest)
  end.

(** A selector that must name an operation. *)
Definition selected {A} (o : option A) (offset : Z) (detail : string) : Dec A :=
  st_lift (ok_or o (error BadInstruction offset detail)).

Section Operands.
Context (limits : CodeLimits) (off : Z).

Definition regs2 (k : Z -> Z -> Instruction) : Dec Instruction := a ← reg off; b ← reg off; mret (k a b).
Definition regs3 (k : Z -> Z -> Z -> Instruction) : Dec Instruction :=
  a ← reg off; b ← reg off; c ← reg off; mret (k a b c).
Definition regs4 (k : Z -> Z -> Z -> Z -> Instruction) : Dec Instruction :=
  a ← reg off; b ← reg off; c ← reg off; d ← reg off; mret (k a b c d).
Definition call (k : Z -> Z -> list Z -> Instruction) : Dec Instruction :=
  dst ← optional_reg off; f ← id off; xs ← args limits off; mret (k dst f xs).

Definition decode_operands (opcode form : Z) : Dec Instruction :=
  if opcode =? 0x00 then mret Nop
  else if opcode =? 0x01 then regs2 Move
  else if opcode =? 0x02 then dst ← reg off; constant ← id off; mret (Const dst constant)
  else if opcode =? 0x03 then dst ← reg off; mret (Null dst)
  else if (opcode =? 0x05) && (form =? 0) then dst ← reg off; xs ← args limits off; mret (InlineConstruct dst xs)
  else if (opcode =? 0x06) && (form =? 0) then
    dst ← reg off; src ← reg off; n ← id off;
    if u16_max <? n then st_err (error BadInstruction off "inline component index exceeds u16")
    else mret (InlineComponent dst src n)
  else if opcode =? 0x04 then regs2 (Convert form)
  else if (opcode =? 0x1e) && (form =? 0) then
    n ← id off;
    operation ← selected (matrix_decode n) off "unknown matrix selector";
    dst ← reg off; lhs ← reg off;
    rhs ← (if bool_decide (is_Some (right_components operation)) then r ← reg off; mret (Some r) else mret None);
    mret (MatrixMath operation dst lhs rhs)
  else if opcode =? 0x1c then
    n ← id off;
    operation ← selected (unary_decode n) off "unknown unary math selector";
    regs2 (MathUnary form operation)
  else if opcode =? 0x1d then
    n ← id off;
    operation ← selected (binary_decode n) off "unknown binary math selector";
    regs3 (MathBinary form operation)
  else if opcode =? 0x10 then regs3 (Add form)
  else if opcode =? 0x11 then regs3 (Sub form)
  else if opcode =? 0x12 then regs3 (Mul form)
  else if opcode =? 0x13 then regs3 (Div form)
  else if opcode =? 0x14 then regs3 (Rem form)
  else if opcode =? 0x15 then regs2 (Neg form)
  else if opcode =? 0x16 then regs3 (BitAnd form)
  else if opcode =? 0x17 then regs3 (BitOr form)
  else if opcode =? 0x18 then regs3 (BitXor form)
  else if opcode =? 0x19 then regs3 (ShiftLeft form)
  else if opcode =? 0x1a then regs3 (ShiftRight form)
  else if opcode =? 0x1b then regs3 (ShiftUnsigned form)
  else if opcode =? 0x20 then regs3 (Equal form)
  else if opcode =? 0x21 then regs3 (NotEqual form)
  else if opcode =? 0x22 then regs3 (Less form)
  else if opcode =? 0x23 then regs3 (LessEqual form)
  else if opcode =? 0x24 then regs3 (Greater form)
  else if opcode =? 0x25 then regs3 (GreaterEqual form)
  else if opcode =? 0x26 then regs3 RefEqual
  else if opcode =? 0x27 then regs3 RefNotEqual
  else if opcode =? 0x30 then dst ← reg off; ty ← id off; mret (NewObject dst ty)
  else if opcode =? 0x31 then dst ← reg off; ty ← id off; length ← reg off; mret (NewArray dst ty length)
  else if opcode =? 0x3b then
    a ← reg off; b ← reg off; c ← reg off; d ← reg off; e ← reg off; mret (ArrayCopy a b c d e)
  else if opcode =? 0x32 then regs2 ArrayLength
  else if opcode =? 0x33 then regs3 ArrayLoad
  else if opcode =? 0x34 then regs3 ArrayStore
  else if opcode =? 0x35 then dst ← reg off; receiver ← reg off; field ← id off; mret (FieldGet dst receiver field)
  else if opcode =? 0x36 then receiver ← reg off; field ← id off; v ← reg off; mret (FieldSet receiver field v)
  else if opcode =? 0x37 then dst ← reg off; field ← id off; mret (StaticGet dst field)
  else if opcode =? 0x38 then field ← id off; v ← reg off; mret (StaticSet field v)
  else if opcode =? 0x39 then dst ← reg off; v ← reg off; ty ← id off; mret (IsType dst v ty)
  else if opcode =? 0x3a then dst ← reg off; v ← reg off; ty ← id off; mret (CheckedCast dst v ty)
  else if opcode =? 0x40 then call CallDirect
  else if opcode =? 0x41 then call CallVirtual
  else if opcode =? 0x42 then call CallInterface
  else if opcode =? 0x50 then dst ← reg off; f ← id off; xs ← args limits off; mret (CoroutineSpawn dst f xs)
  else if opcode =? 0x51 then
    dst ← optional_reg off; capability ← id off; operation ← id off; xs ← args limits off;
    mret (CapabilityCallSync dst capability operation xs)
  else if opcode =? 0x52 then regs2 ChannelCreate
  else if opcode =? 0x60 then regs2 StringLength
  else if opcode =? 0x61 then regs3 StringGet
  else if opcode =? 0x62 then regs3 StringEquals
  else if opcode =? 0x63 then regs3 StringCompare
  else if opcode =? 0x64 then regs2 StringHash
  else if opcode =? 0x65 then regs3 StringConcat
  else if opcode =? 0x69 then regs2 (ValueHash form)
  else if opcode =? 0x68 then regs2 (StringValueOf form)
  else if opcode =? 0x66 then regs4 StringSubstring
  else if opcode =? 0x67 then regs4 StringFromCharArray
  else if opcode =? 0xe0 then t ← id off; mret (Jump t)
  else if opcode =? 0xe1 then c ← reg off; t ← id off; f ← id off; mret (Branch c t f)
  else if opcode =? 0xe2 then
    key ← reg off; default ← id off; count ← list_count limits off;
    cases ← switch_cases (Z.to_nat count) off None;
    mret (SwitchI32 key default cases)
  else if opcode =? 0xe3 then v ← optional_reg off; mret (Return v)
  else if opcode =? 0xe4 then e ← reg off; mret (Throw e)
  else if opcode =? 0xe5 then
    dst ← optional_reg off; f ← id off; xs ← args limits off; resume ← id off; mret (CallSuspend dst f xs resume)
  else if opcode =? 0xe6 then resume ← id off; mret (Yield resume)
  else if opcode =? 0xe7 then d ← reg off; resume ← id off; mret (Sleep d resume)
  else if opcode =? 0xe8 then
    dst ← optional_reg off; coroutine ← reg off; resume ← id off; mret (CoroutineJoin dst coroutine resume)
  else if opcode =? 0xe9 then
    dst ← optional_reg off; capability ← id off; operation ← id off; xs ← args limits off; resume ← id off;
    mret (CapabilityCallAsync dst capability operation xs resume)
  else if opcode =? 0xea then channel ← reg off; v ← reg off; resume ← id off; mret (ChannelSend channel v resume)
  else if opcode =? 0xeb then dst ← reg off; channel ← reg off; resume ← id off; mret (ChannelReceive dst channel resume)
  else if opcode =? 0xff then mret Unreachable
  else st_err (error BadInstruction off "unknown opcode").

Definition decode_instruction (opcode form : Z) (operands : list Z) : outcome DiagnosticSet Instruction :=
  if negb (valid_instruction_form opcode form) then Err (error BadInstruction off "opcode form is invalid")
  else
    let '(r, c) := decode_operands opcode form (cursor_new operands) in
    i ← r;
    if negb (position c =? Z.of_nat (length operands))
    then Err (error BadInstruction off "instruction operand length is not canonical") else Ok i.

End Operands.

(** One iteration of the loop of [decode_code_record]: an instruction and its bytes. *)
Definition decode_next (limits : CodeLimits) : Dec Instruction := fun c =>
  let offset := position c in
  (opcode ← remapped offset read_u8;
   form ← remapped offset read_u8;
   length ← remapped offset read_u16;
   if length <? 4 then st_err (error BadInstruction offset "instruction length is below four")
   else
     operands ← (fun c => match Cursor.take (length - 4) c with
                          | (Err _, c') => (Err (error BadInstruction offset "instruction overruns code record"), c')
                          | (Ok bs, c') => (Ok bs, c')
                          | (Panic, c') => (Panic, c')
                          end);
     st_lift (decode_instruction limits offset opcode form operands)) c.

(** The [while] loop; each instruction has four bytes or more, so the number of
    bytes is fuel enough. *)
Fixpoint decode_loop (fuel : nat) (limits : CodeLimits) (expected : Z) (decoded : list Instruction) (saw_terminator : bool)
    : Dec (list Instruction * bool) := fun c =>
  if position c <? Z.of_nat (length (bytes c)) then
    match fuel with
    | O => (Panic, c)
    | S fuel =>
        let offset := position c in
        if saw_terminator then (Err (error BadInstruction offset "instruction follows a terminator"), c)
        else
          (i ← decode_next limits;
           let decoded := decoded ++ [i] in
           if expected <? Z.of_nat (length decoded)
           then st_err (error BadInstruction offset "instruction count exceeds block declaration")
           else decode_loop fuel limits expected decoded (is_terminator i)) c
    end
  else (Ok (decoded, saw_terminator), c).

Definition decode_code_record (bs : list Z) (expected : Z) (limits : CodeLimits) : outcome DiagnosticSet (list Instruction) :=
  if records_per_section limits <? expected then Err (error LimitExceeded 0 "instruction count limit exceeded")
  else if Z.of_nat (length bs) / 4 <? expected
  then Err (error BadInstruction 0 "declared instruction count cannot fit code bytes")
  else
    '(decoded, saw_terminator) ← (decode_loop (length bs) limits expected [] false (cursor_new bs)).1;
    if negb (Z.of_nat (length decoded) =? expected) || negb saw_terminator
    then Err (error BadInstruction (Z.of_nat (length bs)) "instruction count or final terminator is invalid")
    else Ok decoded.

(** ** Costs *)

Definition cost_overflow (detail : string) : Diagnostic := at_offset Cost BadCost 0 (text detail).

Definition variable_cost (base count : Z) : outcome Diagnostic Z :=
  ok_or (n ← try_from_unsigned u32_max count; checked_add u32_max base n) (cost_overflow "fixed cost overflows u32").

Definition zlength {A} (l : list A) : Z := Z.of_nat (length l).

Definition fixed_cost (i : Instruction) : outcome Diagnostic Z :=
  match i with
  | InlineConstruct _ components => variable_cost 2 (zlength components)
  | InlineComponent _ _ _ => Ok 2
  | MatrixMath o _ _ _ => Ok (matrix_cost o)
  | MathUnary _ o _ _ => Ok (unary_cost o)
  | MathBinary _ o _ _ _ => Ok (binary_cost o)
  | Mul _ _ _ _ | Convert _ _ _ | ArrayLength _ _ | ArrayLoad _ _ _ | ArrayStore _ _ _ | ArrayCopy _ _ _ _ _
  | FieldGet _ _ _ | FieldSet _ _ _ | StaticGet _ _ | StaticSet _ _ | IsType _ _ _ | CheckedCast _ _ _ | Throw _ | Yield _ => Ok 2
  | Div _ _ _ _ | Rem _ _ _ _ | NewObject _ _ | NewArray _ _ _ | CoroutineJoin _ _ _ => Ok 4
  | ChannelCreate _ _ => Ok 3
  | ChannelSend _ _ _ | ChannelReceive _ _ _ => Ok 4
  | Sleep _ _ => Ok 3
  | CallDirect _ _ xs => variable_cost 4 (zlength xs)
  | CallVirtual _ _ xs | CallSuspend _ _ xs _ => variable_cost 5 (zlength xs)
  | CallInterface _ _ xs | CoroutineSpawn _ _ xs | CapabilityCallAsync _ _ _ xs _ => variable_cost 6 (zlength xs)
  | CapabilityCallSync _ _ _ xs => variable_cost 5 (zlength xs)
  | SwitchI32 _ _ cases => variable_cost 1 (zlength cases)
  | _ => Ok 1
  end.

End Code.
