(* ===== verification/CodeProps.v ===== *)
(** The decoder of code records accepts exactly the canonical encodings of
    well-formed code: an instruction has one encoding, and every accepted record is
    the concatenation of the encodings of its instructions. *)

From S2P Require Import Prelude Words Bytes Float Code.

Module CodeProps.
Import Diagnostics Cursor Code.

(** ** Readers described by the words they accept *)

Definition Scans {A} (m : Dec A) (P : A -> list Z -> Prop) : Prop := forall c, cursor_ok c ->
  (forall a c', m c = (Ok a, c') -> exists w, P a w /\ rest c = w ++ rest c' /\ c' = advance (length w) c) /\
  (forall a w tl, rest c = w ++ tl -> P a w -> m c = (Ok a, advance (length w) c)) /\ (m c).1 <> Panic.

(** A reader of one encoding per value. *)
Abbreviation Encodes m ok enc := (Scans m (fun a w => ok a /\ w = enc a)).

Lemma advance_rest c w tl : cursor_ok c -> rest c = w ++ tl -> rest (advance (length w) c) = tl /\ cursor_ok (advance (length w) c).
Proof.
  intros Hc Hr. split; [rewrite rest_advance, Hr by done; apply drop_app_length|]. apply advance_ok; [done|]. rewrite Hr, length_app. lia.
Qed.

Lemma advance_advance m n c : advance n (advance m c) = advance (m + n) c.
Proof. unfold advance. simpl. f_equal. lia. Qed.

Lemma scans_bind {A B} (m : Dec A) (f : A -> Dec B) ok enc Q : Encodes m ok enc -> (forall a, ok a -> Scans (f a) (Q a)) ->
  Scans (m ≫= f) (fun b w => exists a, ok a /\ exists w2, Q a b w2 /\ w = enc a ++ w2).
Proof.
  intros Hm Hf c Hc. destruct (Hm c Hc) as (Hs & Hcm & Hp). split_and!.
  - intros b c' H. apply st_bind_inv in H as (a & c1 & H1 & H2). destruct (Hs a c1 H1) as (w1 & [Hok ->] & Hr1 & ->).
    destruct (advance_rest c _ _ Hc Hr1) as [_ Hc1]. destruct (Hf a Hok _ Hc1) as (Hs2 & _). destruct (Hs2 b c' H2) as (w2 & HQ & Hr2 & ->).
    exists (enc a ++ w2). split; [by exists a; split; [|exists w2]|]. split; [by rewrite Hr1, Hr2, <- app_assoc|].
    by rewrite advance_advance, length_app.
  - intros b w tl Hr (a & Hok & w2 & HQ & ->). rewrite <- app_assoc in Hr.
    rewrite (st_bind_ok _ _ _ _ _ (Hcm a (enc a) _ Hr (conj Hok eq_refl))). destruct (advance_rest c _ _ Hc Hr) as [Hr1 Hc1].
    destruct (Hf a Hok _ Hc1) as (_ & Hc2 & _). rewrite (Hc2 b w2 tl Hr1 HQ). by rewrite advance_advance, length_app.
  - unfold mbind, ST_bind. destruct (m c) as [[a| |] c1] eqn:E; [|done|done]. destruct (Hs a c1 eq_refl) as (w1 & [Hok ->] & Hr1 & ->).
    destruct (advance_rest c _ _ Hc Hr1) as [_ Hc1]. by destruct (Hf a Hok _ Hc1) as (_ & _ & ?).
Qed.

Lemma scans_ret {A} (a : A) : Scans (mret a) (fun b w => b = a /\ w = []).
Proof.
  intros c Hc. assert (E : advance 0 c = c) by (unfold advance; rewrite Z.add_0_r; by destruct c).
  split_and!; [|intros b w tl _ [-> ->]; cbn [length]; by rewrite E|done]. intros b c' [= <- <-]. exists []. cbn [length]. by rewrite E.
Qed.

Lemma scans_last {A B} (m : Dec A) (k : A -> B) ok enc : Encodes m ok enc ->
  Scans (m ≫= fun a => mret (k a)) (fun b w => exists a, ok a /\ b = k a /\ w = enc a).
Proof.
  intros Hm c Hc. destruct (scans_bind m (fun a => mret (k a)) ok enc _ Hm (fun a _ => scans_ret (k a)) c Hc) as (H1 & H2 & H3).
  split_and!; [|intros b w tl Hr (a & Hok & -> & ->)|done].
  - intros b c' H. destruct (H1 b c' H) as (w & (a & Hok & w2 & [-> ->] & ->) & Hr). exists (enc a ++ []). rewrite app_nil_r in *. split; [by exists a|done].
  - apply (H2 (k a) (enc a) tl Hr). exists a. split; [done|]. exists []. by rewrite app_nil_r.
Qed.

Lemma scans_err {A} e (P : A -> list Z -> Prop) : (forall a w, ~ P a w) -> Scans (st_err e) P.
Proof. intros HP c Hc. split_and!; [done|intros a w tl _ Ha; by apply HP in Ha|done]. Qed.

Lemma scans_bytes {A} (m : Dec A) P Q : Scans m P -> (forall a w, is_bytes w -> P a w <-> Q a w) -> Scans m Q.
Proof.
  intros Hm HPQ c Hc. destruct (Hm c Hc) as (H1 & H2 & H3). assert (Hby : forall w tl, rest c = w ++ tl -> is_bytes w).
  { intros w tl Hr. destruct Hc as [Hb _]. assert (Hf : is_bytes (rest c)) by (by apply Forall_drop). rewrite Hr in Hf. by apply Forall_app in Hf as [? _]. }
  split_and!; [|intros a w tl Hr HQ; eapply H2; [done|apply HPQ; [by eapply Hby|done]]|done].
  intros a c' H. destruct (H1 a c' H) as (w & HP & Hr & Hc'). exists w. split; [apply HPQ; [by eapply Hby|done]|done].
Qed.

Lemma scans_iff {A} (m : Dec A) P Q : Scans m P -> (forall a w, P a w <-> Q a w) -> Scans m Q.
Proof. intros Hm HPQ. apply (scans_bytes m P); auto. Qed.

(** A check after a read restricts its values. *)
Lemma encodes_check {A} (m : Dec A) ok enc (bad : A -> bool) e : Encodes m ok enc ->
  Encodes (a ← m; if bad a then st_err e else mret a) (fun a => ok a /\ bad a = false) enc.
Proof.
  intros Hm. eapply scans_iff.
  - apply (scans_bind _ _ _ _ (fun a b w => bad a = false /\ b = a /\ w = []) Hm). intros a Ha. destruct (bad a) eqn:E.
    + apply scans_err. naive_solver.
    + eapply scans_iff; [apply scans_ret|]. naive_solver.
  - intros b w. split.
    + intros (a & Ha & w2 & (Hb & -> & ->) & ->). by rewrite app_nil_r.
    + intros [[Ha Hb] ->]. exists b. split; [done|]. exists []. by rewrite app_nil_r.
Qed.

(** A remapped read of the cursor. *)
Lemma scans_remapped {A} off (m : Read A) P :
  (forall c, cursor_ok c ->
    (forall a c', m c = (Ok a, c') -> exists w, P a w /\ rest c = w ++ rest c' /\ c' = advance (length w) c) /\
    (forall a w tl, rest c = w ++ tl -> P a w -> m c = (Ok a, advance (length w) c)) /\ (m c).1 <> Panic) ->
  Scans (remapped off m) P.
Proof.
  intros Hm c Hc. destruct (Hm c Hc) as (H1 & H2 & H3). unfold remapped. split_and!.
  - intros a c' H. destruct (m c) as [[b| |] c1] eqn:E; try done. injection H as <- <-. by apply H1.
  - intros a w tl Hr HP. by rewrite (H2 a w tl Hr HP).
  - by destruct (m c) as [[| |] ?].
Qed.

(** ** Primitive readers *)

Lemma take_scan (n : nat) c : cursor_ok c ->
  (forall a c', Cursor.take (Z.of_nat n) c = (Ok a, c') -> exists w, (w = a /\ length a = n) /\ rest c = w ++ rest c' /\ c' = advance (length w) c) /\
  (forall a w tl, rest c = w ++ tl -> w = a /\ length a = n -> Cursor.take (Z.of_nat n) c = (Ok a, advance (length w) c)) /\
  (Cursor.take (Z.of_nat n) c).1 <> Panic.
Proof.
  intros Hc. destruct (decide (n <= length (rest c))%nat) as [Hn|Hn].
  - pose proof (take_ok c n Hc Hn) as Ht. pose proof (firstn_length_le _ Hn) as Hl. split_and!.
    + intros a c' H. rewrite Ht in H. injection H as <- <-. eexists. split; [done|]. rewrite Hl. split; [|done].
      rewrite rest_advance by done. by rewrite take_drop.
    + intros a w tl Hr [-> Hla]. rewrite Ht. subst n. rewrite Hr, take_app_length. done.
    + by rewrite Ht.
  - destruct (take_short c (Z.of_nat n) Hc) as (e & He & _); [lia|]. rewrite He. split_and!; [done| |done].
    intros a w tl Hr [-> Hla]. exfalso. apply Hn. rewrite Hr, length_app. lia.
Qed.

Lemma read_le_scan (n : nat) (v : list Z -> Z) (ok : Z -> Prop) (enc : Z -> list Z) off (m : Read Z) :
  (forall c, m c = (bs ← Cursor.take (Z.of_nat n); mret (v bs)) c) ->
  (forall bs, is_bytes bs -> length bs = n -> ok (v bs) /\ bs = enc (v bs)) ->
  (forall a, ok a -> length (enc a) = n /\ v (enc a) = a) -> Encodes (remapped off m) ok enc.
Proof.
  intros Hm H1 H2. apply scans_remapped. intros c Hc. rewrite Hm. destruct (take_scan n c Hc) as (T1 & T2 & T3). split_and!.
  - intros a c' H. apply st_bind_inv in H as (bs & c1 & Ht & [= <- <-]). destruct (T1 bs c1 Ht) as (w & [-> Hl] & Hr & ->).
    assert (Hb : is_bytes bs).
    { destruct Hc as [Hb _]. assert (Hf : is_bytes (rest c)) by (by apply Forall_drop). rewrite Hr in Hf. by apply Forall_app in Hf as [? _]. }
    destruct (H1 bs Hb Hl) as [Hok E]. exists bs. split; [by rewrite <- E|done].
  - intros a w tl Hr [Hok ->]. destruct (H2 a Hok) as [Hl Hv].
    rewrite (st_bind_ok _ _ _ _ _ (T2 (enc a) (enc a) tl Hr (conj eq_refl Hl))). by rewrite Hv.
  - unfold mbind, ST_bind. by destruct (Cursor.take (Z.of_nat n) c) as [[| |] ?].
Qed.

Lemma read_u_scan (n : nat) off (m : Read Z) : (forall c, m c = (bs ← Cursor.take (Z.of_nat n); mret (le_val bs)) c) ->
  Encodes (remapped off m) (fun v => 0 <= v < 256 ^ Z.of_nat n) (le_bytes n).
Proof.
  intros Hm. apply (read_le_scan n le_val); [done| |].
  - intros bs Hb Hl. subst n. split; [by apply le_val_bound|by rewrite le_bytes_val].
  - intros a Ha. split; [apply le_bytes_length|by apply le_val_bytes_small].
Qed.

Lemma u16_scan off : Encodes (remapped off read_u16) (fun v => 0 <= v <= u16_max) (le_bytes 2).
Proof. eapply scans_iff; [by apply (read_u_scan 2)|]. intros a w. unfold u16_max. change (256 ^ Z.of_nat 2) with 65536. naive_solver lia. Qed.

Lemma u8_scan off : Encodes (remapped off read_u8) is_byte (fun b => [b]).
Proof.
  apply scans_remapped. intros c Hc. destruct (rest c) as [|b bs] eqn:Hr.
  - destruct (read_u8_nil c Hc Hr) as [e He]. rewrite He. split_and!; [done| |done]. intros a w tl H [_ ->]. done.
  - rewrite (read_u8_cons c b bs Hc Hr). assert (Hb : is_byte b).
    { destruct Hc as [Hb _]. assert (Hf : is_bytes (rest c)) by (by apply Forall_drop). rewrite Hr in Hf. by inversion Hf. }
    split_and!; [|intros a w tl H [_ ->]; by injection H as -> ->|done].
    intros a c' [= <- <-]. exists [b]. split; [done|]. rewrite rest_advance, Hr by done. done.
Qed.

Lemma signed_bytes z : i32_min <= z <= i32_max -> as_signed 32 (le_val (le_bytes 4 (wrap_unsigned 32 z))) = z.
Proof.
  intros Hz. unfold wrap_unsigned. rewrite le_val_bytes_small by (change (256 ^ Z.of_nat 4) with (2 ^ 32); apply Z.mod_pos_bound; lia).
  unfold as_signed. rewrite (wrap_signed_ext 32 _ z) by (by rewrite Z.mod_mod). apply wrap_signed_id; [lia|].
  change (2 ^ (32 - 1)) with 2147483648. unfold i32_min, i32_max in Hz. lia.
Qed.

Definition signed_word (z : Z) : list Z := le_bytes 4 (wrap_unsigned 32 z).

Lemma i32_scan off : Encodes (remapped off read_i32) (fun z => i32_min <= z <= i32_max) signed_word.
Proof.
  apply (read_le_scan 4 (fun bs => as_signed 32 (le_val bs))); [done| |].
  - intros bs Hb Hl. pose proof (le_val_bound bs Hb) as Hv. rewrite Hl in Hv. change (256 ^ Z.of_nat 4) with (2 ^ 32) in Hv.
    assert (E : wrap_unsigned 32 (as_signed 32 (le_val bs)) = le_val bs).
    { unfold wrap_unsigned, as_signed. rewrite wrap_signed_congr by lia. by apply Z.mod_small. }
    split; [|unfold signed_word; rewrite E, <- Hl; by rewrite le_bytes_val].
    pose proof (wrap_signed_range 32 (le_val bs) ltac:(lia)) as Hr. change (2 ^ (32 - 1)) with 2147483648 in Hr.
    unfold as_signed, i32_min, i32_max. lia.
  - intros a Ha. split; [apply le_bytes_length|by apply signed_bytes].
Qed.

(** ** Operands *)

Definition is_reg (r : Z) : Prop := 0 <= r < ABSENT.
Definition is_optional (r : Z) : Prop := 0 <= r <= u16_max.
Definition is_id (n : Z) : Prop := 0 <= n < 2 ^ 32.
Definition reg_word : Z -> list Z := le_bytes 2.
Definition id_word : Z -> list Z := uleb_encode 5.

Lemma id_scan off : Encodes (id off) is_id id_word.
Proof.
  apply scans_remapped. intros c Hc. split_and!.
  - intros a c' H. unfold read_uleb32 in H. change [0; 1; 2; 3; 4] with (seqZ (5 - Z.of_nat 5) (Z.of_nat 5)) in H.
    apply read_groups_sound in H as (r & tl & Hr & _ & -> & Hrest & ->); [|lia|done|done].
    rewrite Z.mul_1_r, Z.add_0_l. exists (uleb_encode 5 r). split; [done|]. destruct (advance_rest c _ _ Hc Hrest) as [-> _]. done.
  - intros a w tl Hr [Ha ->]. unfold read_uleb32. change [0; 1; 2; 3; 4] with (seqZ (5 - Z.of_nat 5) (Z.of_nat 5)).
    rewrite (read_groups_complete 5 _ 0 c a tl); [by rewrite Z.mul_1_r, Z.add_0_l|lia|done|done|done|lia|done].
  - unfold read_uleb32. assert (Hnp : forall gs acc c1, cursor_ok c1 -> (read_uleb32_groups (position c) acc gs c1).1 <> Panic); [|by apply Hnp].
    induction gs as [|g gs IH]; intros acc c1 Hc1; [done|]. cbn [read_uleb32_groups].
    destruct (rest c1) as [|b bs] eqn:Hr.
    + destruct (read_u8_nil c1 Hc1 Hr) as [e He]. by rewrite (st_bind_err _ _ _ _ _ He).
    + rewrite (st_bind_ok _ _ _ _ _ (read_u8_cons c1 b bs Hc1 Hr)). destruct (_ && _); [done|]. destruct (Z.land b 128 =? 0); [by destruct (_ && _)|].
      apply IH, advance_ok; [done|]. rewrite Hr. simpl. lia.
Qed.

Lemma optional_scan off : Encodes (optional_reg off) is_optional reg_word.
Proof. apply u16_scan. Qed.

Lemma reg_scan off : Encodes (reg off) is_reg reg_word.
Proof.
  eapply scans_iff; [apply encodes_check, optional_scan|]. intros a w. cbv beta. rewrite Z.eqb_neq. unfold is_reg, is_optional, ABSENT. naive_solver lia.
Qed.

Section Lists.
Context (limits : CodeLimits) (off : Z).

Definition counted (n : Z) : Prop := is_id n /\ n <= registers_per_function limits.

Lemma count_scan : Encodes (list_count limits off) counted id_word.
Proof. eapply scans_iff; [apply encodes_check, id_scan|]. intros a w. cbv beta. rewrite Z.ltb_ge. done. Qed.

Lemma repeat_scan {A} (m : Dec A) ok enc n : Encodes m ok enc ->
  Encodes (repeat_read n m) (fun vs => length vs = n /\ Forall ok vs) (fun vs => concat (enc <$> vs)).
Proof.
  intros Hm. induction n as [|n IH]; cbn [repeat_read].
  - eapply scans_iff; [apply scans_ret|]. intros vs w. split; [by intros [-> ->]|]. intros [[Hl _] ->]. by apply nil_length_inv in Hl as ->.
  - eapply scans_iff; [eapply scans_bind; [exact Hm|intros v _; apply scans_last, IH]|]. intros vs w. split.
    + intros (v & Hv & w2 & (vs' & [Hl Hvs] & -> & ->) & ->). split; [|done]. split; [simpl; lia|by constructor].
    + intros [[Hl Hvs] ->]. destruct vs as [|v vs]; [done|]. apply Forall_cons in Hvs as [Hv Hvs]. exists v. split; [done|].
      eexists. split; [exists vs; split; [split; [simpl in Hl; lia|done]|done]|done].
Qed.

Definition is_args (xs : list Z) : Prop := counted (zlength xs) /\ Forall is_reg xs.
Definition args_word (xs : list Z) : list Z := id_word (zlength xs) ++ concat (reg_word <$> xs).

Lemma args_scan : Encodes (args limits off) is_args args_word.
Proof.
  eapply scans_iff; [eapply scans_bind; [exact count_scan|intros n Hn; apply repeat_scan, reg_scan]|]. intros xs w. unfold is_args, args_word, zlength. split.
  - intros (n & Hn & w2 & [[Hl Hxs] ->] & ->). assert (n = Z.of_nat (length xs)) as -> by (destruct Hn as [[? ?] _]; lia). done.
  - intros [[Hn Hxs] ->]. eexists. split; [exact Hn|]. eexists. split; [split; [split; [lia|done]|done]|done].
Qed.

Definition is_case (c : SwitchCase) : Prop := i32_min <= value c <= i32_max /\ is_id (target c).
Definition case_word (c : SwitchCase) : list Z := signed_word (value c) ++ id_word (target c).

(** Strictly increasing, above [previous]. *)
Fixpoint ascending (previous : option SwitchCase) (cs : list SwitchCase) : Prop :=
  match cs with
  | [] => True
  | c :: cs => match previous with Some p => value p < value c | None => True end /\ ascending (Some c) cs
  end.

Lemma cases_scan n : forall previous, Encodes (switch_cases n off previous)
  (fun cs => length cs = n /\ Forall is_case cs /\ ascending previous cs) (fun cs => concat (case_word <$> cs)).
Proof.
  induction n as [|n IH]; intros previous; cbn [switch_cases].
  - eapply scans_iff; [apply scans_ret|]. intros cs w. split; [intros [-> ->]; by split_and!|]. intros [[Hl _] ->]. by apply nil_length_inv in Hl as ->.
  - eapply scans_iff.
    + eapply scans_bind; [exact (i32_scan off)|]. intros v Hv. eapply scans_bind; [exact (id_scan off)|]. intros t Ht.
      instantiate (1 := fun t cs w => match previous with Some p => value p < v | None => True end /\
        exists cs', (length cs' = n /\ Forall is_case cs' /\ ascending (Some (mkCase v t)) cs') /\ cs = mkCase v t :: cs' /\ w = concat (case_word <$> cs')).
      destruct previous as [p|]; [destruct (Z.leb_spec v (value p)) as [Hle|Hgt]|].
      * apply scans_err. intros cs w [? _]. lia.
      * eapply scans_iff; [apply scans_last, IH|]. naive_solver.
      * eapply scans_iff; [apply scans_last, IH|]. naive_solver.
    + intros cs w. split.
      * intros (v & Hv & w2 & (t & Ht & w3 & (Hp & cs' & (Hl & Hcs & Ha) & -> & ->) & ->) & ->). split.
        2: { rewrite fmap_cons. cbn [concat]. unfold case_word at 2. cbn [value target]. by rewrite <- app_assoc. }
        split_and!; [simpl; lia|by constructor|done].
      * intros [(Hl & Hcs & Ha) ->]. destruct cs as [|[v t] cs]; [done|]. apply Forall_cons in Hcs as [[Hv Ht] Hcs]. destruct Ha as [Hp Ha].
        exists v. split; [done|]. eexists. split; [exists t; split; [done|]; eexists; split; [split; [done|exists cs; split_and!; [simpl in Hl; lia|done|done|done|done]]|done]|].
        rewrite fmap_cons. cbn [concat]. unfold case_word at 1. cbn [value target]. by rewrite <- app_assoc.
Qed.

End Lists.

(** ** The encoding of an instruction *)

Definition opcode_of (i : Instruction) : Z :=
  match i with
  | Nop => 0x00 | Move _ _ => 0x01 | Const _ _ => 0x02 | Null _ => 0x03 | Convert _ _ _ => 0x04
  | InlineConstruct _ _ => 0x05 | InlineComponent _ _ _ => 0x06
  | Add _ _ _ _ => 0x10 | Sub _ _ _ _ => 0x11 | Mul _ _ _ _ => 0x12 | Div _ _ _ _ => 0x13 | Rem _ _ _ _ => 0x14
  | Neg _ _ _ => 0x15 | BitAnd _ _ _ _ => 0x16 | BitOr _ _ _ _ => 0x17 | BitXor _ _ _ _ => 0x18
  | ShiftLeft _ _ _ _ => 0x19 | ShiftRight _ _ _ _ => 0x1a | ShiftUnsigned _ _ _ _ => 0x1b
  | MathUnary _ _ _ _ => 0x1c | MathBinary _ _ _ _ _ => 0x1d | MatrixMath _ _ _ _ => 0x1e
  | Equal _ _ _ _ => 0x20 | NotEqual _ _ _ _ => 0x21 | Less _ _ _ _ => 0x22 | LessEqual _ _ _ _ => 0x23
  | Greater _ _ _ _ => 0x24 | GreaterEqual _ _ _ _ => 0x25 | RefEqual _ _ _ => 0x26 | RefNotEqual _ _ _ => 0x27
  | NewObject _ _ => 0x30 | NewArray _ _ _ => 0x31 | ArrayLength _ _ => 0x32 | ArrayLoad _ _ _ => 0x33
  | ArrayStore _ _ _ => 0x34 | FieldGet _ _ _ => 0x35 | FieldSet _ _ _ => 0x36 | StaticGet _ _ => 0x37
  | StaticSet _ _ => 0x38 | IsType _ _ _ => 0x39 | CheckedCast _ _ _ => 0x3a | ArrayCopy _ _ _ _ _ => 0x3b
  | CallDirect _ _ _ => 0x40 | CallVirtual _ _ _ => 0x41 | CallInterface _ _ _ => 0x42
  | CoroutineSpawn _ _ _ => 0x50 | CapabilityCallSync _ _ _ _ => 0x51 | ChannelCreate _ _ => 0x52
  | StringLength _ _ => 0x60 | StringGet _ _ _ => 0x61 | StringEquals _ _ _ => 0x62 | StringCompare _ _ _ => 0x63
  | StringHash _ _ => 0x64 | StringConcat _ _ _ => 0x65 | StringSubstring _ _ _ _ => 0x66
  | StringFromCharArray _ _ _ _ => 0x67 | StringValueOf _ _ _ => 0x68 | ValueHash _ _ _ => 0x69
  | Jump _ => 0xe0 | Branch _ _ _ => 0xe1 | SwitchI32 _ _ _ => 0xe2 | Return _ => 0xe3 | Throw _ => 0xe4
  | CallSuspend _ _ _ _ => 0xe5 | Yield _ => 0xe6 | Sleep _ _ => 0xe7 | CoroutineJoin _ _ _ => 0xe8
  | CapabilityCallAsync _ _ _ _ _ => 0xe9 | ChannelSend _ _ _ => 0xea | ChannelReceive _ _ _ => 0xeb
  | Unreachable => 0xff
  end.

(** Comparisons of references carry the fixed form 7. *)
Definition form_of (i : Instruction) : Z :=
  match i with
  | Convert f _ _ | Add f _ _ _ | Sub f _ _ _ | Mul f _ _ _ | Div f _ _ _ | Rem f _ _ _ | Neg f _ _ | BitAnd f _ _ _
  | BitOr f _ _ _ | BitXor f _ _ _ | ShiftLeft f _ _ _ | ShiftRight f _ _ _ | ShiftUnsigned f _ _ _
  | MathUnary f _ _ _ | MathBinary f _ _ _ _ | Equal f _ _ _ | NotEqual f _ _ _ | Less f _ _ _ | LessEqual f _ _ _
  | Greater f _ _ _ | GreaterEqual f _ _ _ | StringValueOf f _ _ | ValueHash f _ _ => f
  | RefEqual _ _ _ | RefNotEqual _ _ _ => 7
  | _ => 0
  end.

Section Encoding.
Context (limits : CodeLimits).

Abbreviation R := reg_word.
Abbreviation I := id_word.
Abbreviation A := args_word.

Definition operands_of (i : Instruction) : list Z :=
  match i with
  | Nop | Unreachable => []
  | Null a | Return a | Throw a => R a
  | Move a b | Convert _ a b | Neg _ a b | ArrayLength a b | ChannelCreate a b | StringLength a b | StringHash a b
  | StringValueOf _ a b | ValueHash _ a b => R a ++ R b
  | Add _ a b c | Sub _ a b c | Mul _ a b c | Div _ a b c | Rem _ a b c | BitAnd _ a b c | BitOr _ a b c
  | BitXor _ a b c | ShiftLeft _ a b c | ShiftRight _ a b c | ShiftUnsigned _ a b c | Equal _ a b c
  | NotEqual _ a b c | Less _ a b c | LessEqual _ a b c | Greater _ a b c | GreaterEqual _ a b c | RefEqual a b c
  | RefNotEqual a b c | ArrayLoad a b c | ArrayStore a b c | StringGet a b c | StringEquals a b c
  | StringCompare a b c | StringConcat a b c => R a ++ R b ++ R c
  | StringSubstring a b c d | StringFromCharArray a b c d => R a ++ R b ++ R c ++ R d
  | ArrayCopy a b c d e => R a ++ R b ++ R c ++ R d ++ R e
  | Const a n | NewObject a n | StaticGet a n | Sleep a n => R a ++ I n
  | StaticSet n a => I n ++ R a
  | NewArray a n b => R a ++ I n ++ R b
  | FieldSet a n b => R a ++ I n ++ R b
  | InlineComponent a b n | FieldGet a b n | IsType a b n | CheckedCast a b n | CoroutineJoin a b n | ChannelSend a b n
  | ChannelReceive a b n => R a ++ R b ++ I n
  | InlineConstruct a xs => R a ++ A xs
  | MathUnary _ o a b => I (unary_selector o) ++ R a ++ R b
  | MathBinary _ o a b c => I (binary_selector o) ++ R a ++ R b ++ R c
  | MatrixMath o a b rhs => I (matrix_selector o) ++ R a ++ R b ++ match rhs with Some c => R c | None => [] end
  | CallDirect a n xs | CallVirtual a n xs | CallInterface a n xs | CoroutineSpawn a n xs => R a ++ I n ++ A xs
  | CallSuspend a n xs t => R a ++ I n ++ A xs ++ I t
  | CapabilityCallSync a n m xs => R a ++ I n ++ I m ++ A xs
  | CapabilityCallAsync a n m xs t => R a ++ I n ++ I m ++ A xs ++ I t
  | Jump t | Yield t => I t
  | Branch a t f => R a ++ I t ++ I f
  | SwitchI32 a d cases => R a ++ I d ++ I (zlength cases) ++ concat (case_word <$> cases)
  end.

(** What the operands of an instruction may be. *)
Definition operands_ok (i : Instruction) : Prop :=
  match i with
  | Nop | Unreachable => True
  | Null a | Throw a => is_reg a
  | Return a => is_optional a
  | Move a b | Convert _ a b | Neg _ a b | ArrayLength a b | ChannelCreate a b | StringLength a b | StringHash a b
  | StringValueOf _ a b | ValueHash _ a b | MathUnary _ _ a b => is_reg a /\ is_reg b
  | Add _ a b c | Sub _ a b c | Mul _ a b c | Div _ a b c | Rem _ a b c | BitAnd _ a b c | BitOr _ a b c
  | BitXor _ a b c | ShiftLeft _ a b c | ShiftRight _ a b c | ShiftUnsigned _ a b c | Equal _ a b c
  | NotEqual _ a b c | Less _ a b c | LessEqual _ a b c | Greater _ a b c | GreaterEqual _ a b c | RefEqual a b c
  | RefNotEqual a b c | ArrayLoad a b c | ArrayStore a b c | StringGet a b c | StringEquals a b c
  | StringCompare a b c | StringConcat a b c | MathBinary _ _ a b c => is_reg a /\ is_reg b /\ is_reg c
  | StringSubstring a b c d | StringFromCharArray a b c d => is_reg a /\ is_reg b /\ is_reg c /\ is_reg d
  | ArrayCopy a b c d e => is_reg a /\ is_reg b /\ is_reg c /\ is_reg d /\ is_reg e
  | Const a n | NewObject a n | StaticGet a n | Sleep a n => is_reg a /\ is_id n
  | StaticSet n a => is_id n /\ is_reg a
  | NewArray a n b | FieldSet a n b => is_reg a /\ is_id n /\ is_reg b
  | FieldGet a b n | IsType a b n | CheckedCast a b n | ChannelSend a b n | ChannelReceive a b n => is_reg a /\ is_reg b /\ is_id n
  | InlineComponent a b n => is_reg a /\ is_reg b /\ 0 <= n <= u16_max
  | CoroutineJoin a b n => is_optional a /\ is_reg b /\ is_id n
  | InlineConstruct a xs => is_reg a /\ is_args limits xs
  | MatrixMath o a b rhs => is_reg a /\ is_reg b /\
      match rhs with Some c => is_Some (right_components o) /\ is_reg c | None => right_components o = None end
  | CallDirect a n xs | CallVirtual a n xs | CallInterface a n xs => is_optional a /\ is_id n /\ is_args limits xs
  | CoroutineSpawn a n xs => is_reg a /\ is_id n /\ is_args limits xs
  | CallSuspend a n xs t => is_optional a /\ is_id n /\ is_args limits xs /\ is_id t
  | CapabilityCallSync a n m xs => is_optional a /\ is_id n /\ is_id m /\ is_args limits xs
  | CapabilityCallAsync a n m xs t => is_optional a /\ is_id n /\ is_id m /\ is_args limits xs /\ is_id t
  | Jump t | Yield t => is_id t
  | Branch a t f => is_reg a /\ is_id t /\ is_id f
  | SwitchI32 a d cases => is_reg a /\ is_id d /\ counted limits (zlength cases) /\ Forall is_case cases /\ ascending None cases
  end.

Lemma matrix_selector_decode n o : matrix_decode n = Some o <-> n = matrix_selector o.
Proof.
  split; [|intros ->; by destruct o]. unfold matrix_decode. intros H.
  repeat match type of H with
  | (match ?x with _ => _ end) = Some _ => destruct x; try discriminate
  end; injection H as <-; reflexivity.
Qed.

Lemma unary_selector_decode n o : unary_decode n = Some o <-> n = unary_selector o.
Proof.
  split; [|intros ->; by destruct o]. unfold unary_decode. intros H.
  repeat match type of H with
  | (match ?x with _ => _ end) = Some _ => destruct x; try discriminate
  end; injection H as <-; reflexivity.
Qed.

Lemma binary_selector_decode n o : binary_decode n = Some o <-> n = binary_selector o.
Proof.
  split; [|intros ->; by destruct o]. unfold binary_decode. intros H.
  repeat match type of H with
  | (match ?x with _ => _ end) = Some _ => destruct x; try discriminate
  end; injection H as <-; reflexivity.
Qed.

(** A selector read and looked up. *)
Lemma selector_scan {B} off (decode : Z -> option B) (selector : B -> Z) detail : (forall n o, decode n = Some o <-> n = selector o) ->
  (forall o, is_id (selector o)) ->
  Encodes (n ← id off; selected (decode n) off detail) (fun _ => True) (fun o => I (selector o)).
Proof.
  intros Hd Hi. eapply scans_iff.
  - eapply scans_bind; [apply id_scan|]. intros n Hn. instantiate (1 := fun n o w => decode n = Some o /\ w = []).
    unfold selected. destruct (decode n) as [o|].
    + eapply scans_iff; [apply scans_ret|]. naive_solver.
    + apply (scans_err (A := B)). naive_solver.
  - intros o w. split.
    + intros (n & Hn & w2 & [Ho ->] & ->). apply Hd in Ho as ->. by rewrite app_nil_r.
    + intros [_ ->]. exists (selector o). split; [done|]. exists []. split; [split; [by apply Hd|done]|by rewrite app_nil_r].
Qed.

Lemma scans_assoc {X Y B} (m : Dec X) (f : X -> Dec Y) (g : Y -> Dec B) P : Scans ((m ≫= f) ≫= g) P -> Scans (m ≫= fun a => f a ≫= g) P.
Proof. intros H c Hc. specialize (H c Hc). by rewrite st_bind_assoc in H. Qed.

(** The optional right operand of a matrix operation. *)
Lemma right_scan off o : Encodes (if bool_decide (is_Some (right_components o)) then r ← reg off; mret (Some r) else mret None)
  (fun rhs => match rhs with Some c => is_Some (right_components o) /\ is_reg c | None => right_components o = None end)
  (fun rhs => match rhs with Some c => R c | None => [] end).
Proof.
  destruct (right_components o) as [n|]; cbn.
  - eapply scans_iff; [apply scans_last, reg_scan|]. intros rhs w. split; [intros (r & Hr & -> & ->); by split_and!; [|done|]|].
    intros [Hr ->]. destruct rhs as [r|]; [|done]. exists r. by destruct Hr.
  - eapply scans_iff; [apply scans_ret|]. intros rhs w. split; [by intros [-> ->]|]. intros [Hr ->]. destruct rhs; [by destruct Hr as [[? ?] _]|done].
Qed.

Lemma component_scan off : Encodes (n ← id off; if u16_max <? n then st_err (error BadInstruction off "inline component index exceeds u16") else mret n)
  (fun n => 0 <= n <= u16_max) I.
Proof.
  eapply scans_iff; [apply encodes_check, id_scan|]. intros n w. cbv beta. rewrite Z.ltb_ge. unfold is_id, u16_max.
  change (2 ^ 32) with 4294967296. naive_solver lia.
Qed.

Lemma selectors_are_ids : (forall o, is_id (matrix_selector o)) /\ (forall o, is_id (unary_selector o)) /\ (forall o, is_id (binary_selector o)).
Proof. unfold is_id. split_and!; intros []; cbn; lia. Qed.

End Encoding.

Ltac scan_leaf := first
  [ apply reg_scan | apply id_scan | apply args_scan | apply optional_scan | apply count_scan | apply cases_scan | apply right_scan
  | apply (selector_scan _ _ matrix_selector); [exact matrix_selector_decode|apply selectors_are_ids]
  | apply (selector_scan _ _ unary_selector); [exact unary_selector_decode|apply selectors_are_ids]
  | apply (selector_scan _ _ binary_selector); [exact binary_selector_decode|apply selectors_are_ids] ].

Ltac scan :=
  unfold regs2, regs3, regs4, call;
  lazymatch goal with
  | |- Scans (mret _) _ => apply scans_ret
  | |- Scans (mbind (fun _ => mret _) _) _ => eapply scans_last; scan_leaf
  | |- Scans (mbind (fun _ => mbind _ (selected _ _ _)) _) _ => apply scans_assoc; eapply scans_bind; [scan_leaf|intros ? ?; scan]
  | |- Scans (mbind _ _) _ => eapply scans_bind; [scan_leaf|intros ? ?; scan]
  end.

(** The existentials of a scanned predicate, from the operands down. *)
Ltac build_word :=
  lazymatch goal with
  | |- exists _, _ /\ exists _, _ => eexists; split; [|eexists; split; [build_word|reflexivity]]
  | |- exists _, _ /\ _ /\ _ => eexists; split; [|split; reflexivity]
  | |- _ /\ _ => split; reflexivity
  end.

Ltac words_case :=
  let i := fresh "i" in let w := fresh "w" in
  intros i w; split;
  [ let H := fresh in intros H; decompose [ex and] H; subst; cbn [opcode_of form_of operands_ok operands_of]; by split_and!
  | let Ho := fresh in let Hf := fresh in let Hok := fresh in intros (Ho & Hf & Hok & ->);
    destruct i; cbn [opcode_of] in Ho; try discriminate Ho; clear Ho; cbn [form_of operands_ok operands_of] in *;
    decompose [and] Hok; subst; build_word; first [assumption|exact Logic.I|by split_and!] ].

Ltac read_case := eapply scans_iff; [scan|]; words_case.

Lemma scans_check_ret {A B} (m : Dec A) ok enc (bad : A -> bool) e (k : A -> B) :
  Encodes (a ← m; if bad a then st_err e else mret a) ok enc ->
  Scans (a ← m; if bad a then st_err e else mret (k a)) (fun b w => exists a, ok a /\ b = k a /\ w = enc a).
Proof.
  intros H. apply (scans_last _ k) in H. intros c Hc. specialize (H c Hc). rewrite st_bind_assoc in H.
  assert (E : (m ≫= fun a => (if bad a then st_err e else mret a) ≫= fun a0 => mret (k a0)) c = (a ← m; if bad a then st_err e else mret (k a)) c).
  { unfold mbind, ST_bind. destruct (m c) as [[a| |] c1]; [|done|done]. by destruct (bad a). }
  by rewrite E in H.
Qed.

Section Decoding.
Context (limits : CodeLimits).

Lemma switch_scan {B} off (k : list SwitchCase -> B) :
  Scans (count ← list_count limits off; cases ← switch_cases (Z.to_nat count) off None; mret (k cases))
    (fun b w => exists cs, (counted limits (zlength cs) /\ Forall is_case cs /\ ascending None cs) /\ b = k cs /\
                           w = id_word (zlength cs) ++ concat (case_word <$> cs)).
Proof.
  eapply scans_iff; [eapply scans_bind; [apply count_scan|intros n Hn; apply scans_last, cases_scan]|]. intros b w. unfold zlength. split.
  - intros (n & Hn & w2 & (cs & (Hl & Hcs & Ha) & -> & ->) & ->). assert (n = Z.of_nat (length cs)) as -> by (destruct Hn as [[? ?] _]; lia).
    exists cs. by split_and!.
  - intros (cs & (Hn & Hcs & Ha) & -> & ->). eexists. split; [exact Hn|]. eexists. split; [exists cs; split_and!; [lia|done|done|done|done]|done].
Qed.

(** The form that goes with an opcode of one form. *)
Ltac fix_form form Hform :=
  try (change ((form =? 0) = true) in Hform; apply Z.eqb_eq in Hform; subst form);
  try (change ((form =? 7) = true) in Hform; apply Z.eqb_eq in Hform; subst form).

Lemma operands_scan off opcode form : valid_instruction_form opcode form = true ->
  Scans (decode_operands limits off opcode form) (fun i w => opcode_of i = opcode /\ form_of i = form /\ operands_ok limits i /\ w = operands_of i).
Proof.
  intros Hform. unfold decode_operands.
  repeat match goal with
  | |- Scans (if opcode =? 0xe2 then _ else _) _ =>
      destruct (Z.eqb_spec opcode 0xe2) as [->|?];
      [fix_form form Hform;
       eapply scans_iff; [eapply scans_bind; [scan_leaf|intros ? ?; eapply scans_bind; [scan_leaf|intros ? ?; apply switch_scan]]|]; words_case|]
  | |- Scans (if opcode =? ?k then _ else _) _ =>
      destruct (Z.eqb_spec opcode k) as [->|?]; [fix_form form Hform; read_case|]
  | |- Scans (if (opcode =? 0x06) && _ then _ else _) _ =>
      destruct (Z.eqb_spec opcode 0x06) as [->|?];
      [fix_form form Hform; cbn [andb Z.eqb];
       eapply scans_iff; [eapply scans_bind; [scan_leaf|intros ? ?; eapply scans_bind; [scan_leaf|intros ? ?; apply scans_check_ret, component_scan]]|]; words_case
      |cbn [andb]]
  | |- Scans (if (opcode =? ?k) && _ then _ else _) _ =>
      destruct (Z.eqb_spec opcode k) as [->|?]; [fix_form form Hform; cbn [andb Z.eqb]; read_case|cbn [andb]]
  end.
  apply scans_err. intros i w (Ho & _). destruct i; cbn [opcode_of] in Ho; congruence.
Qed.

(** ** Records *)

Definition instruction_ok (i : Instruction) : Prop :=
  valid_instruction_form (opcode_of i) (form_of i) = true /\ operands_ok limits i /\ 4 + zlength (operands_of i) <= u16_max.

(** Opcode, form, length, operands. *)
Definition instruction_word (i : Instruction) : list Z :=
  [opcode_of i] ++ [form_of i] ++ le_bytes 2 (4 + zlength (operands_of i)) ++ operands_of i.

Lemma valid_form_bound opcode form : valid_instruction_form opcode form = true -> 0 <= form <= 9.
Proof.
  unfold valid_instruction_form. repeat match goal with |- (if ?b then _ else _) = true -> _ => destruct b end;
    unfold unsigned_form, in_range; rewrite ?orb_true_iff, ?andb_true_iff, ?Z.leb_le, ?Z.eqb_eq; lia.
Qed.

Lemma instruction_head i : instruction_ok i -> is_byte (opcode_of i) /\ is_byte (form_of i).
Proof. intros (Hf%valid_form_bound & _). unfold is_byte. split; [destruct i; cbn; lia|lia]. Qed.

Lemma decode_instruction_iff off opcode form ops : is_bytes ops -> Z.of_nat (length ops) <= usize_max ->
  decode_instruction limits off opcode form ops <> Panic /\
  forall i, decode_instruction limits off opcode form ops = Ok i <->
    opcode_of i = opcode /\ form_of i = form /\ valid_instruction_form opcode form = true /\ operands_ok limits i /\ ops = operands_of i.
Proof.
  intros Hb Hl. unfold decode_instruction. destruct (valid_instruction_form opcode form) eqn:Hform; cbn [negb]; [|split; [done|naive_solver]].
  assert (Hc : cursor_ok (cursor_new ops)) by (split_and!; simpl; done || lia). pose proof (rest_length _ Hc) as Hrl.
  assert (Hr0 : rest (cursor_new ops) = ops) by (unfold rest; simpl; apply drop_0).
  destruct (operands_scan off opcode form Hform _ Hc) as (Hs & Hcm & Hp).
  destruct (decode_operands limits off opcode form (cursor_new ops)) as [[i0|e|] c'] eqn:E; cbn [mbind outcome_bind]; [| |done].
  - destruct (Hs i0 c' eq_refl) as (w & (Ho & Hf & Hok & Hw) & Hrest & Hc'). rewrite Hr0 in Hrest.
    assert (Hpos : position c' = Z.of_nat (length w)) by (subst c'; simpl; lia).
    destruct (Z.eqb_spec (position c') (Z.of_nat (length ops))) as [Epos|Epos]; cbn [negb].
    + assert (Hnil : rest c' = []) by (apply nil_length_inv; apply (f_equal length) in Hrest; rewrite length_app in Hrest; lia).
      rewrite Hnil, app_nil_r in Hrest. split; [done|]. intros i. split.
      * intros [= <-]. subst w. by split_and!.
      * intros (Ho' & Hf' & _ & Hok' & Hw').
        assert (Hrun := Hcm i (operands_of i) [] ltac:(by rewrite app_nil_r, Hr0) ltac:(by split_and!)). congruence.
    + split; [done|]. intros i. split; [done|]. intros (Ho' & Hf' & _ & Hok' & Hw').
      assert (Hrun := Hcm i (operands_of i) [] ltac:(by rewrite app_nil_r, Hr0) ltac:(by split_and!)).
      exfalso. apply Epos. injection Hrun as _ ->. simpl. rewrite <- Hw'. lia.
  - split; [done|]. intros i. split; [done|]. intros (Ho' & Hf' & _ & Hok' & Hw').
    assert (Hrun := Hcm i (operands_of i) [] ltac:(by rewrite app_nil_r, Hr0) ltac:(by split_and!)). done.
Qed.

Lemma take_scan_at off (n : Z) : 0 <= n ->
  Encodes (fun c => match Cursor.take n c with
                    | (Err _, c') => (Err (error BadInstruction off "instruction overruns code record"), c')
                    | (Ok bs, c') => (Ok bs, c')
                    | (Panic, c') => (Panic, c')
                    end) (fun bs => zlength bs = n /\ is_bytes bs) (fun bs => bs).
Proof.
  intros Hn c Hc. destruct (take_scan (Z.to_nat n) c Hc) as (T1 & T2 & T3). rewrite Z2Nat.id in * by done. unfold zlength. split_and!.
  - intros a c' H. destruct (Cursor.take n c) as [[bs| |] c1] eqn:E; try done. injection H as <- <-.
    destruct (T1 bs c1 eq_refl) as (w & [-> Hl] & Hr & ->). exists bs. split; [|done]. split; [|done]. split; [lia|].
    destruct Hc as [Hb _]. assert (Hf : is_bytes (rest c)) by (by apply Forall_drop). rewrite Hr in Hf. by apply Forall_app in Hf as [? _].
  - intros a w tl Hr [[Hl _] ->]. by rewrite (T2 a a tl Hr ltac:(split; [done|lia])).
  - by destruct (Cursor.take n c) as [[| |] ?].
Qed.

Lemma next_scan : Encodes (decode_next limits) instruction_ok instruction_word.
Proof.
  enough (H : forall off, Encodes (
    opcode ← remapped off read_u8; form ← remapped off read_u8; length ← remapped off read_u16;
    if length <? 4 then st_err (error BadInstruction off "instruction length is below four")
    else
      operands ← (fun c => match Cursor.take (length - 4) c with
                          | (Err _, c') => (Err (error BadInstruction off "instruction overruns code record"), c')
                          | (Ok bs, c') => (Ok bs, c')
                          | (Panic, c') => (Panic, c')
                          end);
      st_lift (decode_instruction limits off opcode form operands)) instruction_ok instruction_word).
  { intros c Hc. exact (H (position c) c Hc). }
  intros off. eapply scans_iff.
  - eapply scans_bind; [apply u8_scan|]. intros opcode Ho. eapply scans_bind; [apply u8_scan|]. intros form Hf.
    eapply scans_bind; [apply u16_scan|]. intros len Hlen.
    instantiate (1 := fun len i w => 4 <= len /\ opcode_of i = opcode /\ form_of i = form /\ valid_instruction_form opcode form = true /\
      operands_ok limits i /\ w = operands_of i /\ zlength w = len - 4).
    destruct (Z.ltb_spec len 4) as [Hlt|Hge]; [apply scans_err; intros i w [? _]; lia|].
    eapply scans_bytes; [eapply scans_bind; [apply take_scan_at; lia|]|].
    + intros ops [Hl Hb]. instantiate (1 := fun ops i w => opcode_of i = opcode /\ form_of i = form /\ valid_instruction_form opcode form = true /\
        operands_ok limits i /\ ops = operands_of i /\ w = []).
      destruct (decode_instruction_iff off opcode form ops Hb) as [Hnp Hiff]; [unfold zlength, usize_max, u16_max in *; lia|].
      destruct (decode_instruction limits off opcode form ops) as [i0|e|] eqn:E; [| |done].
      * eapply scans_iff; [apply (scans_ret i0)|]. intros i w. pose proof (Hiff i) as Hi. split; [intros [-> ->]; naive_solver|]. intros (H1 & H2 & H3 & H4 & H5 & ->).
        assert (Ok i0 = Ok i) as [= ->] by (by apply Hi). done.
      * apply (scans_err (A := Instruction)). intros i w (H1 & H2 & H3 & H4 & H5 & _). assert (Err e = Ok i) as Hbad; [|done]. by apply Hiff.
    + intros i w Hw. split.
      * intros (ops & [Hl Hb] & w2 & (H1 & H2 & H3 & H4 & -> & ->) & ->). rewrite app_nil_r. by split_and!.
      * intros (_ & H1 & H2 & H3 & H4 & -> & Hl). exists (operands_of i). split; [done|].
        exists []. split; [by split_and!|by rewrite app_nil_r].
  - intros i w. split.
    + intros (opcode & _ & w2 & (form & _ & w3 & (len & Hlen & w4 & (Hge & H1 & H2 & H3 & H4 & -> & Hl) & ->) & ->) & ->). subst opcode form.
      unfold instruction_ok, instruction_word. replace len with (4 + zlength (operands_of i)) in * by lia. split_and!; done || lia.
    + intros [Hok ->]. destruct (instruction_head i Hok) as [Ho Hf]. destruct Hok as (H1 & H2 & H3).
      exists (opcode_of i). split; [done|]. eexists. split; [|reflexivity]. exists (form_of i). split; [done|]. eexists. split; [|reflexivity].
      exists (4 + zlength (operands_of i)). unfold zlength in *. split; [lia|]. eexists. split; [|reflexivity]. split_and!; try done; lia.
Qed.

Definition code_word (code : list Instruction) : list Z := concat (instruction_word <$> code).

(** Whether the last of the instructions is a terminator, if none before it is. *)
Fixpoint walk (saw : bool) (code : list Instruction) : option bool :=
  match code with
  | [] => Some saw
  | i :: code => if saw then None else walk (is_terminator i) code
  end.

Lemma word_length i : instruction_ok i -> (4 <= length (instruction_word i))%nat.
Proof. intros _. unfold instruction_word. rewrite !length_app, le_bytes_length. simpl. lia. Qed.

Lemma bind_none_panic {A B} (m : Dec A) (f : A -> Dec B) c : (m c).1 <> Panic -> (forall a c', m c = (Ok a, c') -> (f a c').1 <> Panic) -> ((m ≫= f) c).1 <> Panic.
Proof. intros Hm Hf. unfold mbind, ST_bind. destruct (m c) as [[a| |] c1]; [by apply Hf|done|done]. Qed.

(** The loop, from any point of the record on. *)
Lemma loop_spec expected fuel : forall decoded saw c, cursor_ok c -> (length (rest c) <= fuel)%nat -> Z.of_nat (length decoded) <= expected ->
  (decode_loop fuel limits expected decoded saw c).1 <> Panic /\
  forall ds saw', (exists c', decode_loop fuel limits expected decoded saw c = (Ok (ds, saw'), c')) <->
    exists code, ds = decoded ++ code /\ rest c = code_word code /\ Forall instruction_ok code /\ Z.of_nat (length ds) <= expected /\
      walk saw code = Some saw'.
Proof.
  induction fuel as [|fuel IH]; intros decoded saw c Hc Hfuel Hexp; pose proof (rest_length c Hc) as Hrl; cbn [decode_loop];
    destruct (Z.ltb_spec (position c) (Z.of_nat (length (bytes c)))) as [Hlt|Hge]; try lia.
  - split; [done|]. intros ds saw'. split.
    + intros [c' [= <- <- _]]. exists []. rewrite app_nil_r. split_and!; [done| |by constructor|done|done].
      apply nil_length_inv. lia.
    + intros (code & -> & Hr & Hok & _ & Hw). destruct code as [|i code].
      * injection Hw as <-. rewrite app_nil_r. by exists c.
      * apply Forall_cons in Hok as [Hi _]. pose proof (word_length i Hi). apply (f_equal length) in Hr.
        change (code_word (i :: code)) with (instruction_word i ++ code_word code) in Hr. rewrite length_app in Hr. lia.
  - destruct saw.
    { split; [done|]. intros ds saw'. split; [by intros [? ?]|]. intros (code & -> & Hr & Hok & _ & Hw).
      destruct code as [|i code]; [|done]. apply (f_equal length) in Hr. simpl in Hr. lia. }
    destruct (next_scan c Hc) as (Hs & Hcm & Hp). split.
    + apply bind_none_panic; [done|]. intros i c1 H1. destruct (Hs i c1 H1) as (w & [Hi ->] & Hr & ->).
      destruct (advance_rest c _ _ Hc Hr) as [Hr1 Hc1]. destruct (Z.ltb_spec expected (Z.of_nat (length (decoded ++ [i])))); [done|].
      apply IH; [done| |done]. apply (f_equal length) in Hr. rewrite length_app in Hr. pose proof (word_length i Hi). lia.
    + intros ds saw'. split.
      * intros [c' H]. apply st_bind_inv in H as (i & c1 & H1 & H2). destruct (Hs i c1 H1) as (w & [Hi ->] & Hr & ->).
        destruct (advance_rest c _ _ Hc Hr) as [Hr1 Hc1]. cbv zeta in H2. destruct (Z.ltb_spec expected (Z.of_nat (length (decoded ++ [i])))); [done|].
        destruct (IH (decoded ++ [i]) (is_terminator i) _ Hc1) as [_ Hiff]; [|done|].
        { apply (f_equal length) in Hr. rewrite length_app in Hr. pose proof (word_length i Hi). lia. }
        destruct (proj1 (Hiff ds saw') (ex_intro _ c' H2)) as (code & -> & Hrc & Hok & Hle & Hw).
        exists (i :: code). rewrite <- app_assoc in Hle |- *. split_and!; [done| |by constructor|done|done].
        rewrite Hr, Hrc. done.
      * intros (code & -> & Hr & Hok & Hle & Hw). destruct code as [|i code]; [apply (f_equal length) in Hr; simpl in Hr; lia|].
        apply Forall_cons in Hok as [Hi Hok]. change (code_word (i :: code)) with (instruction_word i ++ code_word code) in Hr.
        destruct (advance_rest c _ _ Hc Hr) as [Hr1 Hc1]. rewrite (st_bind_ok _ _ _ _ _ (Hcm i _ _ Hr (conj Hi eq_refl))). cbv zeta.
        assert (Hn : Z.of_nat (length (decoded ++ [i])) <= expected) by (rewrite length_app in *; simpl in *; lia).
        rewrite (proj2 (Z.ltb_ge expected _) Hn). destruct (IH (decoded ++ [i]) (is_terminator i) _ Hc1) as [_ Hiff].
        { rewrite Hr1. apply (f_equal length) in Hr. rewrite length_app in Hr. pose proof (word_length i Hi). lia. }
        { done. }
        apply Hiff. exists code. rewrite <- app_assoc. split_and!; [done|by rewrite Hr1|done|exact Hle|done].
  - split; [done|]. intros ds saw'. split.
    + intros [c' [= <- <- _]]. exists []. rewrite app_nil_r. split_and!; [done| |by constructor|done|done].
      apply nil_length_inv. lia.
    + intros (code & -> & Hr & Hok & _ & Hw). destruct code as [|i code].
      * injection Hw as <-. rewrite app_nil_r. by exists c.
      * apply Forall_cons in Hok as [Hi _]. pose proof (word_length i Hi). apply (f_equal length) in Hr.
        change (code_word (i :: code)) with (instruction_word i ++ code_word code) in Hr. rewrite length_app in Hr. lia.
Qed.

Lemma walk_spec code : walk false code = Some true <->
  exists body t, code = body ++ [t] /\ is_terminator t = true /\ Forall (fun i => is_terminator i = false) body.
Proof.
  split.
  - induction code as [|i code IH]; [done|]. cbn [walk]. intros H. destruct (is_terminator i) eqn:E.
    + destruct code; [|done]. by exists [], i.
    + destruct (IH H) as (body & t & -> & Ht & Hb). exists (i :: body), t. by split_and!; [| |constructor].
  - intros (body & t & -> & Ht & Hb). induction Hb as [|i body Hi _ IH]; cbn [walk app]; [by rewrite Ht|by rewrite Hi].
Qed.

(** A block of code within the limits. *)
Record block_ok (expected : Z) (code : list Instruction) : Prop := {
  b_count : zlength code = expected;
  b_limit : expected <= records_per_section limits;
  b_instructions : Forall instruction_ok code;
  b_shape : exists body t, code = body ++ [t] /\ is_terminator t = true /\ Forall (fun i => is_terminator i = false) body }.

Lemma code_word_length code : Forall instruction_ok code -> 4 * zlength code <= zlength (code_word code).
Proof.
  unfold zlength. induction 1 as [|i code Hi _ IH]; [done|]. change (code_word (i :: code)) with (instruction_word i ++ code_word code).
  rewrite length_app. simpl length at 1. pose proof (word_length i Hi). lia.
Qed.

End Decoding.

(** What the decoder of a block accepts. *)
Lemma code_record_iff (limits : CodeLimits) (bs : list Z) (expected : Z) :
  is_bytes bs -> Z.of_nat (length bs) <= usize_max -> 0 <= expected ->
  decode_code_record bs expected limits <> Panic /\
  forall code, decode_code_record bs expected limits = Ok code <-> block_ok limits expected code /\ bs = code_word code.
Proof.
  intros Hb Hl He. unfold decode_code_record.
  assert (Hc : cursor_ok (cursor_new bs)) by (split_and!; simpl; done || lia).
  assert (Hr : rest (cursor_new bs) = bs) by (unfold rest; simpl; apply drop_0).
  destruct (loop_spec limits expected (length bs) [] false _ Hc) as [Hnp Hiff]; [by rewrite Hr|simpl; lia|].
  assert (Hno : forall code, block_ok limits expected code /\ bs = code_word code ->
    exists c', decode_loop (length bs) limits expected [] false (cursor_new bs) = (Ok (code, true), c') /\ expected <= records_per_section limits /\ expected <= Z.of_nat (length bs) / 4).
  { intros code [[Hn Hlim Hok Hsh] Ebs]. apply walk_spec in Hsh. destruct (proj2 (Hiff code true)) as [c' H].
    { exists code. rewrite Hr. unfold zlength in Hn. split_and!; try done. lia. }
    exists c'. split_and!; [done|done|]. apply Z.div_le_lower_bound; [lia|]. pose proof (code_word_length limits code Hok) as Hw. rewrite <- Ebs in Hw. unfold zlength in *. lia. }
  destruct (Z.ltb_spec (records_per_section limits) expected) as [Hlt|Hge].
  { split; [done|]. intros code. split; [done|]. intros (c' & _ & ? & _)%Hno. lia. }
  destruct (Z.ltb_spec (Z.of_nat (length bs) / 4) expected) as [Hlt'|Hge'].
  { split; [done|]. intros code. split; [done|]. intros (c' & _ & _ & ?)%Hno. lia. }
  destruct (decode_loop (length bs) limits expected [] false (cursor_new bs)) as [[[ds saw]|e|] c1] eqn:E; cbn [mbind outcome_bind fst]; [| |done].
  - destruct (proj1 (Hiff ds saw) (ex_intro _ c1 eq_refl)) as (code0 & Eds & Ebs & Hok & _ & Hw). simpl in Eds. subst code0. rewrite Hr in Ebs.
    destruct (Z.eqb_spec (Z.of_nat (length ds)) expected) as [En|En], saw; cbn [negb orb]; (split; [done|]); intros code.
    + split; [|by intros (c' & [= ->] & _)%Hno]. intros [= <-]. split; [split; [done|done|done|by apply walk_spec]|done].
    + split; [done|]. by intros (c' & [= ] & _)%Hno.
    + split; [done|]. intros H. pose proof H as [[Hn _ _ _] _]. apply Hno in H as (c' & [= ->] & _). done.
    + split; [done|]. by intros (c' & [= ] & _)%Hno.
  - split; [done|]. intros code. split; [done|]. by intros (c' & [= ] & _)%Hno.
Qed.

(** C7. The decoder of code accepts exactly the canonical encodings of well-formed
    blocks: it never panics, and it returns a sequence of instructions if and only
    if that sequence has the declared length within the limit, each instruction has
    a form its opcode allows and operands in range, the last and only the last is a
    terminator, and the input is the concatenation of their encodings. *)
Theorem code_record_roundtrip (limits : CodeLimits) (bs : list Z) (expected : Z) :
  is_bytes bs -> Z.of_nat (length bs) <= usize_max -> 0 <= expected ->
  decode_code_record bs expected limits <> Panic /\
  forall code, decode_code_record bs expected limits = Ok code <-> block_ok limits expected code /\ bs = code_word code.
Proof. apply code_record_iff. Qed.

Definition sample_limits : CodeLimits := mkCodeLimits 16 16.
(** [v2 := v0 + v1] on ints, a call and the return of its result. *)
Definition sample_code : list Instruction := [Add 1 2 0 1; CallDirect 3 300 [2; 0]; Return 3].

Lemma code_record_roundtrip_witness : decode_code_record (code_word sample_code) 3 sample_limits = Ok sample_code.
Proof.
  destruct (code_record_roundtrip sample_limits (code_word sample_code) 3) as [_ H].
  - by apply is_bytes_forallb.
  - vm_compute. discriminate.
  - done.
  - apply H. split; [|done]. split; [done|vm_compute; discriminate| |].
    + repeat constructor; vm_compute; done.
    + exists [Add 1 2 0 1; CallDirect 3 300 [2; 0]], (Return 3). split; [done|]. split; [done|]. repeat constructor.
Defined.

End CodeProps.
