(* ===== verification/Layout.v ===== *)
(** src/execution/layout.rs: header formats, object/array/string layouts and the
    resident-storage plan.  [u32] arithmetic is checked, as in the source; the
    capacity reservations of the host allocator ([try_reserve_exact]) are taken
    to succeed. *)

From S2P Require Import Prelude Words Errors Value.

Module Layout.
Import Errors.

Definition BLOCK_HEADER_BYTES : Z := 8.
Definition LEGACY_HEAP_HEADER_BYTES : Z := 12.
Definition INDEXED_HEADER_BYTES : Z := 8.
Definition BLOCK_ALIGNMENT : Z := 8.
Definition MINIMUM_BLOCK_BYTES : Z := 16.

Inductive HeaderFormat :=
| Legacy
| Compact (size_bits link_bits : Z).

(** [uN::leading_zeros] at width [w]. *)
Definition leading_zeros (w z : Z) : Z := if z =? 0 then w else w - 1 - Z.log2 z.

Definition select (heap_bytes type_count : Z) : HeaderFormat :=
  if (heap_bytes <? 32) || negb (is_multiple_of heap_bytes 16)
     || (Value.MAX_PAYLOAD <? heap_bytes)
  then Legacy
  else
    let units := heap_bytes / BLOCK_ALIGNMENT in
    let size_bits := 64 - leading_zeros 64 units in
    let link_bits := 64 - leading_zeros 64 (units - 1) in
    match checked_sub 64 (3 + size_bits + link_bits) with
    | None => Legacy
    | Some type_bits =>
        if (type_bits =? 0)
           || match try_from_unsigned u64_max type_count with
              | None => true
              | Some count => Z.shiftl 1 type_bits <? count
              end
        then Legacy
        else Compact size_bits link_bits
    end.

Definition header_bytes (f : HeaderFormat) : Z :=
  match f with
  | Legacy => LEGACY_HEAP_HEADER_BYTES
  | Compact _ _ => BLOCK_HEADER_BYTES
  end.

Inductive ValueWidth := I8 | I16 | U8 | U16 | Bool | Char | I32 | F32 | I64 | F64 | Ref.

#[global] Instance ValueWidth_eq : EqDecision ValueWidth.
Proof. solve_decision. Defined.

Definition width_bytes (w : ValueWidth) : Z :=
  match w with
  | Bool | I8 | U8 => 1
  | Char | I16 | U16 => 2
  | I32 | F32 | Ref => 4
  | I64 | F64 => 8
  end.

Record FieldSpec := mkFieldSpec { spec_field : Z; spec_width : ValueWidth }.
Record FieldLayout := mkFieldLayout { field : Z; width : ValueWidth; offset : Z }.

Record ObjectLayout := mkObjectLayout {
  payload_bytes : Z;
  object_block_bytes : Z;
  fields : list FieldLayout;
  reference_offsets : list Z }.

Record ArrayLayout := mkArrayLayout {
  element_bytes : Z; array_length : Z; array_payload_bytes : Z; array_block_bytes : Z }.

Inductive StringEncoding := Latin1 | Utf16.

Definition encoding_bytes (e : StringEncoding) : Z :=
  match e with Latin1 => 1 | Utf16 => 2 end.

Record StringLayout := mkStringLayout {
  encoding : StringEncoding; string_length : Z;
  string_payload_bytes : Z; string_block_bytes : Z }.

Inductive RuntimeTypeLayout :=
| Object (l : ObjectLayout)
| Array (element : ValueWidth)
| NonHeap.

(** [sum & !(alignment - 1)] on [u32]. *)
Definition align_up (value alignment : Z) : outcome AdmissionError Z :=
  match checked_add u32_max value (alignment - 1) with
  | Some sum => Ok (Z.land sum (u32_max - (alignment - 1)))
  | None => Err StoragePlanOverflow
  end.

Definition block_bytes (payload : Z) (f : HeaderFormat) : outcome AdmissionError Z :=
  unaligned ← ok_or (checked_add u32_max (header_bytes f) payload) StoragePlanOverflow;
  aligned ← align_up unaligned BLOCK_ALIGNMENT;
  mret (Z.max aligned MINIMUM_BLOCK_BYTES).

(** The sort key [(Reverse(width.bytes()), declaration)], as the order it induces. *)
Definition field_before (a b : nat * FieldSpec) : Prop :=
  width_bytes (spec_width b.2) < width_bytes (spec_width a.2) \/
  (width_bytes (spec_width a.2) = width_bytes (spec_width b.2) /\ (a.1 <= b.1)%nat).

#[global] Instance field_before_dec : RelDecision field_before.
Proof. intros a b. unfold field_before. apply _. Defined.

Definition ordered_fields (declared : list FieldSpec) : list (nat * FieldSpec) :=
  merge_sort field_before (imap pair declared).

(** The loop that places the declared fields, in sorted order. *)
Fixpoint place_fields (off : Z) (fs : list FieldLayout) (refs : list Z)
    (todo : list (nat * FieldSpec)) : outcome AdmissionError (Z * list FieldLayout * list Z) :=
  match todo with
  | [] => Ok (off, fs, refs)
  | (_, f) :: todo =>
      off ← align_up off (width_bytes (spec_width f));
      let fs := fs ++ [mkFieldLayout (spec_field f) (spec_width f) off] in
      let refs := if decide (spec_width f = Ref) then refs ++ [off] else refs in
      off ← ok_or (checked_add u32_max off (width_bytes (spec_width f))) StoragePlanOverflow;
      place_fields off fs refs todo
  end.

Definition object_layout (superclass : option ObjectLayout) (declared : list FieldSpec)
    (f : HeaderFormat) : outcome AdmissionError ObjectLayout :=
  let '(off, fs, refs) :=
    match superclass with
    | None => (0, [], [])
    | Some s => (payload_bytes s, fields s, reference_offsets s)
    end in
  '(off, fs, refs) ← place_fields off fs refs (ordered_fields declared);
  bb ← block_bytes off f;
  mret (mkObjectLayout off bb fs refs).

Definition empty_object_layout : outcome AdmissionError ObjectLayout :=
  object_layout None [] Legacy.

Definition array_layout (element : ValueWidth) (len : Z) (f : HeaderFormat)
    : outcome AdmissionError ArrayLayout :=
  len ← ok_or (try_from_unsigned u32_max len) StoragePlanOverflow;
  elements ← ok_or (checked_mul u32_max (width_bytes element) len) StoragePlanOverflow;
  payload ← ok_or (checked_add u32_max INDEXED_HEADER_BYTES elements) StoragePlanOverflow;
  bb ← block_bytes payload f;
  mret (mkArrayLayout (width_bytes element) len payload bb).

Definition string_layout (e : StringEncoding) (len : Z) (f : HeaderFormat)
    : outcome AdmissionError StringLayout :=
  characters ← ok_or (checked_mul u32_max (encoding_bytes e) len) StoragePlanOverflow;
  payload ← ok_or (checked_add u32_max INDEXED_HEADER_BYTES characters) StoragePlanOverflow;
  bb ← block_bytes payload f;
  mret (mkStringLayout e len payload bb).

Record StorageCharges := mkStorageCharges {
  c_heap_arena : Z; c_heap_allocator : Z; c_frame_arena : Z; c_frame_record : Z;
  c_task_scheduler : Z; c_channel : Z; c_static : Z; c_type_initialization : Z;
  c_external_root : Z; c_pending_state : Z; c_machine_fixed : Z }.

Record StoragePlan := mkStoragePlan {
  header_format : HeaderFormat;
  charges : StorageCharges;
  mutable_resident_bytes : Z }.

Definition heap_arena_bytes (p : StoragePlan) : Z := c_heap_arena (charges p).

Definition charge_components (c : StorageCharges) : list (ResidentStorageComponent * Z) :=
  [(HeapArena, c_heap_arena c); (HeapAllocator, c_heap_allocator c);
   (FrameArena, c_frame_arena c); (FrameRecords, c_frame_record c);
   (TaskScheduler, c_task_scheduler c); (Channels, c_channel c); (Statics, c_static c);
   (TypeInitialization, c_type_initialization c); (ExternalRoots, c_external_root c);
   (PendingState, c_pending_state c); (MachineFixedState, c_machine_fixed c)].

(** [try_fold] with [checked_add] on [u64]. *)
Fixpoint sum_charges (total : Z) (cs : list (ResidentStorageComponent * Z))
    : outcome AdmissionError Z :=
  match cs with
  | [] => Ok total
  | (component, bytes) :: cs =>
      match checked_add u64_max total bytes with
      | Some total => sum_charges total cs
      | None => Err (ResidentStorageOverflow component)
      end
  end.

Definition checked (c : StorageCharges) : outcome AdmissionError StoragePlan :=
  total ← sum_charges 0 (charge_components c);
  mret (mkStoragePlan Legacy c total).

Definition with_header_format (p : StoragePlan) (f : HeaderFormat) : StoragePlan :=
  mkStoragePlan f (charges p) (mutable_resident_bytes p).

(** ** Alignment *)

Lemma width_pow w : exists k, 0 <= k <= 3 /\ width_bytes w = 2 ^ k.
Proof.
  destruct w;
    (first [ by exists 0 | by exists 1 | by exists 2 | by exists 3 ]).
Qed.

Lemma width_pos w : 1 <= width_bytes w <= 8.
Proof. destruct w; simpl; lia. Qed.

Lemma align_up_eq value k :
  0 <= value -> 0 <= k <= 32 ->
  align_up value (2 ^ k) =
  if value + 2 ^ k - 1 <=? u32_max
  then Ok (value + (- value) mod 2 ^ k) else Err StoragePlanOverflow.
Proof.
  intros Hv Hk. unfold align_up, checked_add.
  replace (value + (2 ^ k - 1)) with (value + 2 ^ k - 1) by lia.
  destruct (Z.leb_spec (value + 2 ^ k - 1) u32_max) as [Hle|]; [|done].
  pose proof (Z.pow_pos_nonneg 2 k ltac:(lia) ltac:(lia)) as Hp.
  replace (u32_max - (2 ^ k - 1)) with (2 ^ 32 - 2 ^ k) by (unfold u32_max; lia).
  rewrite land_high_mask by (unfold u32_max in Hle; lia). f_equal.
  destruct (decide (value mod 2 ^ k = 0)) as [Hz|Hz].
  - rewrite Z.mod_opp_l_z by lia.
    assert (Hmod : (value + 2 ^ k - 1) mod 2 ^ k = 2 ^ k - 1).
    { replace (value + 2 ^ k - 1) with (value + (2 ^ k - 1)) by lia.
      rewrite Z.add_mod, Hz, Z.add_0_l, !Z.mod_mod by lia. apply Z.mod_small. lia. }
    lia.
  - rewrite Z.mod_opp_l_nz by lia.
    assert (Hmod : (value + 2 ^ k - 1) mod 2 ^ k = value mod 2 ^ k - 1).
    { replace (value + 2 ^ k - 1) with (value - 1 + 1 * 2 ^ k) by lia.
      rewrite Z_mod_plus_full. pose proof (Z.mod_pos_bound value (2 ^ k) Hp).
      symmetry. apply (Z.mod_unique_pos _ _ (value / 2 ^ k)); [lia|].
      pose proof (Z.div_mod value (2 ^ k)). lia. }
    lia.
Qed.

(** What a successful [align_up] returns: the least multiple from [value] up. *)
Lemma align_up_spec value k r :
  0 <= value -> 0 <= k <= 32 -> align_up value (2 ^ k) = Ok r ->
  value <= r < value + 2 ^ k /\ r mod 2 ^ k = 0 /\ r <= u32_max.
Proof.
  intros Hv Hk. rewrite align_up_eq by done.
  pose proof (Z.pow_pos_nonneg 2 k ltac:(lia) ltac:(lia)) as Hp.
  pose proof (Z.mod_pos_bound (- value) (2 ^ k) Hp).
  destruct (Z.leb_spec (value + 2 ^ k - 1) u32_max); [|done]. intros [= <-].
  split_and!; [lia|lia| |lia].
  rewrite Z.add_mod_idemp_r by lia. rewrite Z.add_opp_diag_r. by apply Z.mod_0_l; lia.
Qed.

Lemma block_bytes_spec payload f r :
  0 <= payload -> block_bytes payload f = Ok r ->
  MINIMUM_BLOCK_BYTES <= r <= u32_max /\ r mod BLOCK_ALIGNMENT = 0 /\
  header_bytes f + payload <= r /\
  r < Z.max (MINIMUM_BLOCK_BYTES + 1) (header_bytes f + payload + BLOCK_ALIGNMENT).
Proof.
  intros Hp. unfold block_bytes. intros Hrun. run_inv. bsimp. subst.
  assert (0 < header_bytes f) by (by destruct f).
  apply (align_up_spec _ 3) in Hrun1 as (Hle & Hmod & Hmax); [|lia|lia].
  unfold MINIMUM_BLOCK_BYTES, BLOCK_ALIGNMENT in *. change (2 ^ 3) with 8 in *.
  destruct (Z.max_spec a0 16) as [[? ->]|[? ->]]; split_and!; try lia; try done.
Qed.

(** ** Object layouts *)

(** Field [g] lies entirely after field [f]. *)
Definition field_end (f : FieldLayout) : Z := offset f + width_bytes (width f).

(** Well-formed fields up to [limit]: aligned, in increasing and disjoint
    positions, and inside the payload. *)
Inductive fields_ok : Z -> list FieldLayout -> Prop :=
| fields_ok_nil limit : 0 <= limit -> fields_ok limit []
| fields_ok_snoc limit fs f :
    fields_ok (offset f) fs -> offset f mod width_bytes (width f) = 0 ->
    field_end f <= limit -> fields_ok limit (fs ++ [f]).

Definition references (fs : list FieldLayout) : list Z :=
  offset <$> filter (fun f => width f = Ref) fs.

Record layout_ok (l : ObjectLayout) : Prop := {
  lo_fields : fields_ok (payload_bytes l) (fields l);
  lo_refs : reference_offsets l = references (fields l);
  lo_bound : payload_bytes l <= u32_max }.

Lemma fields_ok_nonneg limit fs : fields_ok limit fs -> 0 <= limit.
Proof.
  induction 1 as [|limit fs f ? IH ? Hend]; [done|].
  unfold field_end in Hend. pose proof (width_pos (width f)). lia.
Qed.

Lemma fields_ok_weaken limit limit' fs :
  fields_ok limit fs -> limit <= limit' -> fields_ok limit' fs.
Proof.
  intros H Hle. destruct H; [constructor; lia|]. constructor; [done|done|lia].
Qed.

Lemma references_snoc fs f :
  references (fs ++ [f]) =
  if decide (width f = Ref) then references fs ++ [offset f] else references fs.
Proof.
  unfold references. rewrite filter_app, fmap_app. simpl. rewrite filter_cons, filter_nil.
  destruct (decide (width f = Ref)); simpl; [done|apply app_nil_r].
Qed.

Lemma place_fields_ok todo off fs off' fs' refs' :
  fields_ok off fs -> off <= u32_max ->
  place_fields off fs (references fs) todo = Ok (off', fs', refs') ->
  fields_ok off' fs' /\ off' <= u32_max /\ off <= off' /\ refs' = references fs' /\
  exists placed, fs' = fs ++ placed /\
    map (fun f => mkFieldSpec (field f) (width f)) placed = todo.*2.
Proof.
  revert off fs. induction todo as [|[n f] todo IH]; intros off fs Hok Hoff Hrun.
  { simpl in Hrun. injection Hrun as <- <- <-. split_and!; try done.
    exists []. by rewrite app_nil_r. }
  cbn [place_fields] in Hrun. run_inv. bsimp. subst.
  destruct (width_pow (spec_width f)) as (k & Hk & Hw). rewrite Hw in Hrun0.
  pose proof (fields_ok_nonneg _ _ Hok) as Hnn.
  apply align_up_spec in Hrun0 as (Hle & Hmod & Hmax); [|done|lia].
  pose proof (width_pos (spec_width f)) as Hwp.
  set (g := mkFieldLayout (spec_field f) (spec_width f) a) in *.
  assert (Hg : fields_ok (a + width_bytes (spec_width f)) (fs ++ [g])).
  { constructor; simpl; [eapply fields_ok_weaken; [done|lia]|by rewrite Hw|].
    unfold field_end, g; simpl. lia. }
  replace (if decide (spec_width f = Ref) then references fs ++ [a] else references fs)
    with (references (fs ++ [g])) in Hrun by (by rewrite references_snoc).
  apply IH in Hrun as (? & ? & ? & ? & placed & -> & Hpl); [|done|lia].
  split_and!; try done; [lia|]. exists (g :: placed). rewrite <- app_assoc. split; [done|].
  simpl. rewrite Hpl. by destruct f.
Qed.

Lemma ordered_fields_perm declared : (ordered_fields declared).*2 ≡ₚ declared.
Proof.
  unfold ordered_fields. rewrite merge_sort_Permutation, fmap_imap.
  by rewrite (imap_const id), list_fmap_id.
Qed.

Lemma fields_ok_bound limit fs f :
  fields_ok limit fs -> f ∈ fs ->
  0 <= offset f /\ field_end f <= limit /\ offset f mod width_bytes (width f) = 0.
Proof.
  induction 1 as [|limit fs g Hok IH Hmod Hend]; [by intros ?%not_elem_of_nil|].
  intros [Hin|Hin]%elem_of_app.
  - destruct (IH Hin) as (? & ? & ?). unfold field_end in Hend.
    pose proof (width_pos (width g)). split_and!; [done|lia|done].
  - apply list_elem_of_singleton in Hin as ->.
    split_and!; [by eapply fields_ok_nonneg|done|done].
Qed.

Lemma fields_ok_disjoint limit fs i j f g :
  fields_ok limit fs -> fs !! i = Some f -> fs !! j = Some g -> (i < j)%nat ->
  field_end f <= offset g.
Proof.
  intros Hok. revert i j f g. induction Hok as [|limit fs h Hok IH Hmod Hend]; [done|].
  intros i j f g Hi Hj Hij.
  apply lookup_lt_Some in Hj as Hj'. rewrite length_app in Hj'. simpl in Hj'.
  rewrite lookup_app_l in Hi by lia.
  destruct (decide (j < length fs)%nat).
  - rewrite lookup_app_l in Hj by done. by eapply IH.
  - replace j with (length fs) in Hj by lia.
    rewrite list_lookup_middle in Hj by done. injection Hj as <-.
    eapply fields_ok_bound; [done|]. by eapply list_elem_of_lookup_2.
Qed.

Lemma object_layout_ok superclass declared f l :
  (forall s, superclass = Some s -> layout_ok s) ->
  object_layout superclass declared f = Ok l ->
  layout_ok l /\ block_bytes (payload_bytes l) f = Ok (object_block_bytes l) /\
  exists placed, fields l = from_option fields [] superclass ++ placed /\
    map (fun x => mkFieldSpec (field x) (width x)) placed ≡ₚ declared.
Proof.
  intros Hs. unfold object_layout.
  set (st := match superclass with Some s => _ | None => _ end).
  assert (Hst : exists off fs, st = (off, fs, references fs) /\ fields_ok off fs /\
            off <= u32_max /\ fs = from_option fields [] superclass).
  { subst st. destruct superclass as [s|].
    - destruct (Hs s eq_refl) as [? Hr ?]. exists (payload_bytes s), (fields s).
      by rewrite Hr.
    - exists 0, []. by split_and!; [|constructor| |]. }
  destruct Hst as (off & fs & -> & Hok & Hoff & Hfs). intros Hrun.
  apply outcome_bind_inv in Hrun as ([[off' fs'] refs'] & Hplace & Hrun).
  apply outcome_bind_inv in Hrun as (bb & Hbb & Hrun). injection Hrun as <-.
  apply place_fields_ok in Hplace as (? & ? & ? & ? & placed & -> & Hpl); [|done|done].
  split_and!; [by constructor|done|]. exists placed. simpl. rewrite <- Hfs, Hpl.
  split; [done|apply ordered_fields_perm].
Qed.

(** ** Header formats *)

Lemma leading_zeros_pos w z :
  0 < z -> w - leading_zeros w z = Z.log2 z + 1.
Proof. intros. unfold leading_zeros. rewrite (proj2 (Z.eqb_neq _ _)) by lia. lia. Qed.

Lemma bit_length_bound z : 0 < z -> 2 ^ Z.log2 z <= z < 2 ^ (Z.log2 z + 1).
Proof. intros. apply Z.log2_spec. done. Qed.

(** The compact format is chosen only when a size, a link and a type id of this
    heap all fit in one 64-bit header beside the three flag bits. *)
Lemma select_compact heap_bytes type_count s l :
  0 <= type_count -> select heap_bytes type_count = Compact s l ->
  32 <= heap_bytes <= Value.MAX_PAYLOAD /\ heap_bytes mod 16 = 0 /\
  1 <= s <= 28 /\ 1 <= l <= 28 /\ 3 + s + l < 64 /\
  heap_bytes / 8 < 2 ^ s /\ heap_bytes / 8 - 1 < 2 ^ l /\
  type_count <= 2 ^ (64 - (3 + s + l)).
Proof.
  intros Ht. unfold select.
  destruct (_ || _) eqn:E; [done|]. bsimp. apply is_multiple_of_true in H1.
  unfold BLOCK_ALIGNMENT. set (u := heap_bytes / 8).
  assert (Hu : 4 <= u < 2 ^ 27).
  { subst u. rewrite Value.MAX_PAYLOAD_eq in *.
    split; [apply Z.div_le_lower_bound; lia|apply Z.div_lt_upper_bound; lia]. }
  rewrite !leading_zeros_pos by lia.
  pose proof (bit_length_bound u ltac:(lia)) as Hb1.
  pose proof (bit_length_bound (u - 1) ltac:(lia)) as Hb2.
  assert (Hlog : forall z, 0 < z < 2 ^ 27 -> 0 <= Z.log2 z <= 26).
  { intros z Hz. split; [apply Z.log2_nonneg|].
    destruct (Z.le_gt_cases (Z.log2 z) 26); [done|].
    pose proof (Z.log2_spec z ltac:(lia)) as [Hz' _].
    pose proof (Z.pow_le_mono_r 2 27 (Z.log2 z)). lia. }
  pose proof (Hlog u ltac:(lia)). pose proof (Hlog (u - 1) ltac:(lia)).
  destruct (checked_sub _ _) as [tb|] eqn:Htb; [|done]. bsimp.
  destruct (_ || _) eqn:Hz; [done|]. bsimp. intros [= <- <-].
  destruct (try_from_unsigned u64_max type_count) as [n|] eqn:Hn; [|done].
  apply try_from_unsigned_Some in Hn as [-> _]. bsimp.
  rewrite Z.shiftl_1_l in *. subst tb.
  split_and!; try lia; try done.
Qed.

End Layout.

Module LayoutProps.
Import Errors Layout.

(** An object layout places every declared field at an aligned offset, after
    and disjoint from the inherited ones, inside the payload; it keeps the
    superclass fields where the superclass has them, places every declared field
    exactly once, and its reference map lists exactly the reference fields. *)
Theorem object_layout_sound (superclass : option ObjectLayout) (declared : list FieldSpec)
    (f : HeaderFormat) (l : ObjectLayout) :
  (forall s, superclass = Some s -> layout_ok s) ->
  object_layout superclass declared f = Ok l ->
  layout_ok l /\
  (forall i j a b, fields l !! i = Some a -> fields l !! j = Some b -> (i < j)%nat ->
     field_end a <= offset b) /\
  (forall a, a ∈ fields l -> 0 <= offset a /\ field_end a <= payload_bytes l /\
     offset a mod width_bytes (width a) = 0) /\
  from_option fields [] superclass `prefix_of` fields l /\
  (exists placed, fields l = from_option fields [] superclass ++ placed /\
     map (fun x => mkFieldSpec (field x) (width x)) placed ≡ₚ declared) /\
  reference_offsets l = offset <$> filter (fun x => width x = Ref) (fields l).
Proof.
  intros Hs Hrun. destruct (object_layout_ok _ _ _ _ Hs Hrun) as (Hok & _ & placed & Hf & Hp).
  split_and!; [done| | | |by exists placed|apply Hok].
  - intros i j a b. eapply fields_ok_disjoint, Hok.
  - intros a. eapply fields_ok_bound, Hok.
  - rewrite Hf. by apply prefix_app_r.
Qed.

Definition sample_fields : list FieldSpec :=
  [mkFieldSpec 0 Bool; mkFieldSpec 1 Ref; mkFieldSpec 2 I64; mkFieldSpec 3 Char].

Lemma object_layout_sound_witness :
  exists l, object_layout None sample_fields Legacy = Ok l /\
            reference_offsets l = [8] /\ payload_bytes l = 15 /\ layout_ok l.
Proof.
  destruct (object_layout None sample_fields Legacy) as [l| |] eqn:E;
    [|vm_compute in E; discriminate E|vm_compute in E; discriminate E].
  assert (Hs : forall s, None = Some s -> layout_ok s) by discriminate.
  pose proof (object_layout_sound None sample_fields Legacy l Hs E) as H.
  exists l. split; [reflexivity|]. vm_compute in E. injection E as <-.
  split; [reflexivity|]. split; [reflexivity|]. apply H.
Defined.

(** Every layout asks the allocator for a block it accepts: object, array
    and string block sizes are multiples of the alignment, at least the minimum
    block, hold the header and the payload, and waste less than one alignment
    unit beyond the minimum. *)
Theorem layout_blocks_admissible (f : HeaderFormat) (payload bb : Z) :
  0 <= payload -> block_bytes payload f = Ok bb ->
  MINIMUM_BLOCK_BYTES <= bb <= u32_max /\ bb mod BLOCK_ALIGNMENT = 0 /\
  header_bytes f + payload <= bb /\
  (bb = MINIMUM_BLOCK_BYTES \/ bb < header_bytes f + payload + BLOCK_ALIGNMENT).
Proof.
  intros Hp Hrun. apply block_bytes_spec in Hrun as (H1 & H2 & H3 & H4); [|done].
  unfold MINIMUM_BLOCK_BYTES in *. split_and!; try lia; done.
Qed.

Lemma layout_blocks_admissible_witness :
  block_bytes 13 (Compact 7 7) = Ok 24 /\ 8 + 13 <= 24.
Proof.
  split; [reflexivity|].
  exact (proj1 (proj2 (proj2 (layout_blocks_admissible (Compact 7 7) 13 24
    ltac:(discriminate) eq_refl)))).
Defined.

End LayoutProps.
