(* ===== verification/Heap.v ===== *)
(** src/execution/heap.rs: the managed heap, a boundary-tag allocator with
    two-level segregated free lists over a byte arena.

    The arena is the flat list of its bytes; the source keeps it as 16-byte
    units, so every access keeps the source's bound on the unit index and on the
    position inside a unit.  Block headers exist in two formats: [Legacy] has two
    32-bit words (size and flags, predecessor size) and a type word, [Compact]
    packs flags, size, predecessor link and type id into one 64-bit word. *)

From S2P Require Import Prelude Words Errors Value Layout.

Module Heap.
Import Errors Layout.

Definition NULL_OFFSET : Z := u32_max.
Definition CLASS_COUNT : Z := 32 * 8.
Definition ALLOCATED : Z := 1.
Definition MARKED : Z := 2.
Definition LIVE : Z := 4.
Definition SIZE_MASK : Z := u32_max - (BLOCK_ALIGNMENT - 1).
Definition SIZE_FLAGS : Z := 0.
Definition PREVIOUS_SIZE : Z := 4.
Definition NEXT_FREE : Z := 8.
Definition PREVIOUS_FREE : Z := 12.
Definition OBJECT_TYPE_ID : Z := BLOCK_HEADER_BYTES.

(** [BlockOffset(u32)] is the offset itself. *)
Abbreviation BlockOffset := Z (only parsing).

Record SizeClass := mkSizeClass { first : Z; second : Z }.

#[global] Instance SizeClass_eq : EqDecision SizeClass.
Proof. solve_decision. Defined.

Record AllocationRequest := mkRequest { request_block_bytes : Z; request_type_id : Z }.
Record ReservedAllocation := mkReserved { block : BlockOffset; type_id : Z }.

Record HeapDiagnostic := mkHeapDiagnostic {
  d_total_free : Z; d_largest_free_block : Z; d_live_handles : Z; d_retired_handles : Z }.

Record Heap := mkHeap {
  header_format : HeaderFormat;
  arena : list Z;
  arena_bytes : Z;
  class_heads : list Z;
  first_bitmap : Z;
  second_bitmaps : list Z;
  largest_free_hint : Z;
  total_free : Z;
  live_objects : Z }.

Definition set_arena (a : list Z) (h : Heap) : Heap :=
  mkHeap (header_format h) a (arena_bytes h) (class_heads h) (first_bitmap h)
    (second_bitmaps h) (largest_free_hint h) (total_free h) (live_objects h).
Definition set_class_heads (c : list Z) (h : Heap) : Heap :=
  mkHeap (header_format h) (arena h) (arena_bytes h) c (first_bitmap h)
    (second_bitmaps h) (largest_free_hint h) (total_free h) (live_objects h).
Definition set_bitmaps (f : Z) (s : list Z) (h : Heap) : Heap :=
  mkHeap (header_format h) (arena h) (arena_bytes h) (class_heads h) f
    s (largest_free_hint h) (total_free h) (live_objects h).
Definition set_hint (x : Z) (h : Heap) : Heap :=
  mkHeap (header_format h) (arena h) (arena_bytes h) (class_heads h) (first_bitmap h)
    (second_bitmaps h) x (total_free h) (live_objects h).
Definition set_total_free (x : Z) (h : Heap) : Heap :=
  mkHeap (header_format h) (arena h) (arena_bytes h) (class_heads h) (first_bitmap h)
    (second_bitmaps h) (largest_free_hint h) x (live_objects h).
Definition set_live_objects (x : Z) (h : Heap) : Heap :=
  mkHeap (header_format h) (arena h) (arena_bytes h) (class_heads h) (first_bitmap h)
    (second_bitmaps h) (largest_free_hint h) (total_free h) x.

Abbreviation HeapM := (ST Heap VmFault).

(** ** Raw words *)

(** [arena.get(start / 16)] and [unit.get(start % 16 .. start % 16 + len)]. *)
Definition in_unit (a : list Z) (start len : Z) : bool :=
  (start / 16 <? Z.of_nat (length a) / 16) && (start mod 16 + len <=? 16).

Definition read_word (h : Heap) (block : BlockOffset) (field : Z) : outcome VmFault Z :=
  start ← ok_or (checked_add u32_max block field) CorruptHeap;
  if in_unit (arena h) start 4 then Ok (le_val (slice start 4 (arena h))) else Err CorruptHeap.

Definition write_word (block : BlockOffset) (field value : Z) : HeapM unit := fun h =>
  match checked_add u32_max block field with
  | None => (Err CorruptHeap, h)
  | Some start =>
      if in_unit (arena h) start 4
      then (Ok tt, set_arena (splice start (le_bytes 4 value) (arena h)) h)
      else (Err CorruptHeap, h)
  end.

Definition read_compact_header (h : Heap) (block : BlockOffset) : outcome VmFault Z :=
  if in_unit (arena h) block 8 then Ok (le_val (slice block 8 (arena h))) else Err CorruptHeap.

Definition write_compact_header (block : BlockOffset) (header : Z) : HeapM unit := fun h =>
  if in_unit (arena h) block 8
  then (Ok tt, set_arena (splice block (le_bytes 8 header) (arena h)) h)
  else (Err CorruptHeap, h).

(** [u64::MAX >> (64 - bits)]. *)
Definition bit_mask (bits : Z) : Z := Z.shiftr u64_max (64 - bits).

(** ** Header fields *)

Definition size_ok (size : Z) : bool :=
  negb ((size <? MINIMUM_BLOCK_BYTES) || negb (is_multiple_of size BLOCK_ALIGNMENT)).

Definition block_size (h : Heap) (block : BlockOffset) : outcome VmFault Z :=
  size ← match header_format h with
         | Legacy => w ← read_word h block SIZE_FLAGS; mret (Z.land w SIZE_MASK)
         | Compact size_bits _ =>
             w ← read_compact_header h block;
             let units := Z.land (Z.shiftr w 3) (bit_mask size_bits) in
             ok_or (try_from_unsigned u32_max (units * BLOCK_ALIGNMENT)) CorruptHeap
         end;
  if size_ok size then Ok size else Err CorruptHeap.

Definition read_flags (h : Heap) (block : BlockOffset) : outcome VmFault Z :=
  match header_format h with
  | Legacy => w ← read_word h block SIZE_FLAGS; mret (Z.ldiff w SIZE_MASK)
  | Compact _ _ => w ← read_compact_header h block; mret (Z.land w 7)
  end.

Definition block_allocated (h : Heap) (block : BlockOffset) : outcome VmFault bool :=
  flags ← read_flags h block; mret (negb (Z.land flags ALLOCATED =? 0)).

Definition write_flags (block : BlockOffset) (flags : Z) : HeapM unit := fun h =>
  if negb (Z.ldiff flags 7 =? 0) then (Err CorruptHeap, h)
  else
    match header_format h with
    | Legacy =>
        (w ← st_read (fun h => read_word h block SIZE_FLAGS);
         write_word block SIZE_FLAGS (Z.lor (Z.land w SIZE_MASK) flags)) h
    | Compact _ _ =>
        (header ← st_read (fun h => read_compact_header h block);
         write_compact_header block (Z.lor (Z.ldiff header 7) flags)) h
    end.

Definition read_previous_or_gray (h : Heap) (block : BlockOffset) : outcome VmFault Z :=
  match header_format h with
  | Legacy => read_word h block PREVIOUS_SIZE
  | Compact size_bits link_bits =>
      w ← read_compact_header h block;
      let units := Z.land (Z.shiftr w (3 + size_bits)) (bit_mask link_bits) in
      ok_or (try_from_unsigned u32_max (units * BLOCK_ALIGNMENT)) CorruptHeap
  end.

Definition write_previous_or_gray (block : BlockOffset) (value : Z) : HeapM unit := fun h =>
  match header_format h with
  | Legacy => write_word block PREVIOUS_SIZE value h
  | Compact size_bits link_bits =>
      if negb (value =? NULL_OFFSET) && negb (is_multiple_of value BLOCK_ALIGNMENT)
      then (Err CorruptHeap, h)
      else
        let units := if value =? NULL_OFFSET then 0 else value / BLOCK_ALIGNMENT in
        if bit_mask link_bits <? units then (Err CorruptHeap, h)
        else
          let shift := 3 + size_bits in
          let mask := wrap_unsigned 64 (Z.shiftl (bit_mask link_bits) shift) in
          (header ← st_read (fun h => read_compact_header h block);
           write_compact_header block
             (Z.lor (Z.ldiff header mask) (wrap_unsigned 64 (Z.shiftl units shift)))) h
  end.

Definition read_type (h : Heap) (block : BlockOffset) : outcome VmFault Z :=
  match header_format h with
  | Legacy => read_word h block OBJECT_TYPE_ID
  | Compact size_bits link_bits =>
      w ← read_compact_header h block;
      ok_or (try_from_unsigned u32_max (Z.shiftr w (3 + size_bits + link_bits))) CorruptHeap
  end.

Definition write_type (block : BlockOffset) (type_id : Z) : HeapM unit := fun h =>
  match header_format h with
  | Legacy => write_word block OBJECT_TYPE_ID type_id h
  | Compact size_bits link_bits =>
      let shift := 3 + size_bits + link_bits in
      let mask := bit_mask (64 - shift) in
      if mask <? type_id then (Err CorruptHeap, h)
      else
        (header ← st_read (fun h => read_compact_header h block);
         write_compact_header block
           (Z.lor (Z.ldiff header (wrap_unsigned 64 (Z.shiftl mask shift)))
                  (wrap_unsigned 64 (Z.shiftl type_id shift)))) h
  end.

Definition write_block_header (block : BlockOffset) (size previous_size : Z) (allocated : bool)
    : HeapM unit := fun h =>
  match header_format h with
  | Legacy =>
      (_ ← write_word block SIZE_FLAGS (Z.lor size (Z.b2z allocated));
       write_word block PREVIOUS_SIZE previous_size) h
  | Compact size_bits link_bits =>
      if negb (is_multiple_of previous_size BLOCK_ALIGNMENT) then (Err CorruptHeap, h)
      else
        let size_units := size / BLOCK_ALIGNMENT in
        let previous_units := previous_size / BLOCK_ALIGNMENT in
        if (bit_mask size_bits <? size_units) || (bit_mask link_bits <? previous_units)
        then (Err CorruptHeap, h)
        else
          write_compact_header block
            (Z.lor (Z.lor (Z.b2z allocated) (wrap_unsigned 64 (Z.shiftl size_units 3)))
                   (wrap_unsigned 64 (Z.shiftl previous_units (3 + size_bits)))) h
  end.

Definition write_header (block : BlockOffset) (size previous_size : Z) (allocated : bool)
    : HeapM unit :=
  if negb (size_ok size) then st_err CorruptHeap
  else
    _ ← write_block_header block size previous_size allocated;
    _ ← write_word block NEXT_FREE NULL_OFFSET;
    write_word block PREVIOUS_FREE NULL_OFFSET.

Definition update_next_previous_size (block : BlockOffset) (size : Z) : HeapM unit :=
  next ← st_lift (ok_or (checked_add u32_max block size) CorruptHeap);
  h ← st_get;
  if next <? arena_bytes h then write_previous_or_gray next size else mret tt.

(** ** Size classes *)

(** [1_u32.checked_shl(n)]. *)
Definition checked_shl_u32 (n : Z) : option Z :=
  if n <? 32 then Some (wrap_unsigned 32 (Z.shiftl 1 n)) else None.

Definition downward_class (size : Z) : option (Z * Z * Z) :=
  if negb (size_ok size) then None
  else
    let first := 31 - leading_zeros 32 size in
    base ← checked_shl_u32 first;
    width ← (if 3 <=? first
             then s ← checked_shl_u32 (first - 3); Some (Z.max s BLOCK_ALIGNMENT)
             else Some BLOCK_ALIGNMENT);
    second ← try_from_unsigned u8_max ((size - base) / width);
    scaled ← checked_mul u32_max second width;
    lower_bound ← checked_add u32_max base scaled;
    if second <? 8 then Some (first, second, lower_bound) else None.

Definition free_size_class (size : Z) : option SizeClass :=
  '(first, second, _) ← downward_class size; Some (mkSizeClass first second).

Definition request_size_class (size : Z) : option SizeClass :=
  '(first, second, lower_bound) ← downward_class size;
  '(first, second) ←
    (if negb (size =? lower_bound)
     then if second + 1 =? 8
          then first ← checked_add u8_max first 1; Some (first, 0)
          else Some (first, second + 1)
     else Some (first, second));
  if first <? 32 then Some (mkSizeClass first second) else None.

Definition class_index (c : SizeClass) : Z := first c * 8 + second c.

(** [uN::trailing_zeros]: the lowest set bit, or the width. *)
Fixpoint trailing_zeros_from (n : nat) (i z : Z) : Z :=
  match n with
  | O => i
  | S n => if Z.testbit z i then i else trailing_zeros_from n (i + 1) z
  end.
Definition trailing_zeros (w : nat) (z : Z) : Z := trailing_zeros_from w 0 z.

(** ** Free lists *)

Definition find_suitable (h : Heap) (size : Z) : outcome VmFault (option BlockOffset) :=
  match request_size_class size with
  | None => Ok None
  | Some class =>
    lower ← ok_or (free_size_class size) CorruptHeap;
    hit ← (if decide (lower = class) then Ok None
           else
             head ← expect (zget (class_heads h) (class_index lower));
             if head =? NULL_OFFSET then Ok None
             else hs ← block_size h head;
                  Ok (if size <=? hs then Some head else None));
    match hit with
    | Some head => Ok (Some head)
    | None =>
      bitmap ← expect (zget (second_bitmaps h) (first class));
      let second_mask := Z.land bitmap (wrap_unsigned 8 (Z.shiftl u8_max (second class))) in
      selected ←
        (if negb (second_mask =? 0)
         then Ok (Some (mkSizeClass (first class) (trailing_zeros 8 second_mask)))
         else
           let higher_first :=
             if first class =? 31 then 0
             else Z.land (first_bitmap h) (wrap_unsigned 32 (Z.shiftl u32_max (first class + 1))) in
           if higher_first =? 0 then Ok None
           else
             let selected_first := trailing_zeros 32 higher_first in
             selected_second ← expect (zget (second_bitmaps h) selected_first);
             if selected_second =? 0 then Err CorruptHeap
             else Ok (Some (mkSizeClass selected_first (trailing_zeros 8 selected_second))));
      match selected with
      | None =>
          if largest_free_hint h =? NULL_OFFSET then Ok None
          else hs ← block_size h (largest_free_hint h);
               Ok (if size <=? hs then Some (largest_free_hint h) else None)
      | Some selected =>
          head ← ok_or (zget (class_heads h) (class_index selected)) CorruptHeap;
          if head =? NULL_OFFSET then Err CorruptHeap else Ok (Some head)
      end
    end
  end.

Definition observe_free_block (block : BlockOffset) : HeapM unit := fun h =>
  if largest_free_hint h =? NULL_OFFSET then (Ok tt, set_hint block h)
  else
    match (a ← block_size h block; b ← block_size h (largest_free_hint h); mret (b <? a)) with
    | Ok true => (Ok tt, set_hint block h)
    | Ok false => (Ok tt, h)
    | Err e => (Err e, h)
    | Panic => (Panic, h)
    end.

(** [self.second_bitmaps[first] |= 1 << second; self.first_bitmap |= 1 << first]. *)
Definition mark_class (c : SizeClass) : HeapM unit := fun h =>
  match zget (second_bitmaps h) (first c) with
  | None => (Panic, h)
  | Some b =>
      (Ok tt, set_bitmaps (Z.lor (first_bitmap h) (Z.shiftl 1 (first c)))
                (zset (first c) (Z.lor b (Z.shiftl 1 (second c))) (second_bitmaps h)) h)
  end.

(** [self.second_bitmaps[first] &= !(1 << second)], and the first level when the
    second one is empty. *)
Definition clear_class (c : SizeClass) : HeapM unit := fun h =>
  match zget (second_bitmaps h) (first c) with
  | None => (Panic, h)
  | Some b =>
      let b' := Z.ldiff b (Z.shiftl 1 (second c)) in
      (Ok tt, set_bitmaps
                (if b' =? 0 then Z.ldiff (first_bitmap h) (Z.shiftl 1 (first c)) else first_bitmap h)
                (zset (first c) b' (second_bitmaps h)) h)
  end.

Definition insert_free (block : BlockOffset) : HeapM unit :=
  size ← st_read (fun h => block_size h block);
  class ← st_lift (ok_or (free_size_class size) CorruptHeap);
  let index := class_index class in
  head ← st_read (fun h => ok_or (zget (class_heads h) index) CorruptHeap);
  _ ← write_word block NEXT_FREE head;
  _ ← write_word block PREVIOUS_FREE NULL_OFFSET;
  _ ← (if head =? NULL_OFFSET then mret tt else write_word head PREVIOUS_FREE block);
  _ ← st_modify (fun h => set_class_heads (zset index block (class_heads h)) h);
  _ ← mark_class class;
  observe_free_block block.

Definition remove_free (block : BlockOffset) : HeapM unit :=
  _ ← st_modify (fun h => if largest_free_hint h =? block then set_hint NULL_OFFSET h else h);
  size ← st_read (fun h => block_size h block);
  class ← st_lift (ok_or (free_size_class size) CorruptHeap);
  let index := class_index class in
  next ← st_read (fun h => read_word h block NEXT_FREE);
  previous ← st_read (fun h => read_word h block PREVIOUS_FREE);
  _ ← (if previous =? NULL_OFFSET
       then
         head ← st_read (fun h => expect (zget (class_heads h) index));
         if negb (head =? block) then st_err CorruptHeap
         else st_modify (fun h => set_class_heads (zset index next (class_heads h)) h)
       else write_word previous NEXT_FREE next);
  _ ← (if next =? NULL_OFFSET then mret tt else write_word next PREVIOUS_FREE previous);
  head ← st_read (fun h => expect (zget (class_heads h) index));
  _ ← (if head =? NULL_OFFSET then clear_class class else mret tt);
  _ ← write_word block NEXT_FREE NULL_OFFSET;
  write_word block PREVIOUS_FREE NULL_OFFSET.

(** ** Allocation *)

Definition sub_total_free (n : Z) : HeapM unit := fun h =>
  match checked_sub (total_free h) n with
  | Some t => (Ok tt, set_total_free t h)
  | None => (Err CorruptHeap, h)
  end.

Definition add_total_free (n : Z) : HeapM unit := fun h =>
  match checked_add u32_max (total_free h) n with
  | Some t => (Ok tt, set_total_free t h)
  | None => (Err CorruptHeap, h)
  end.

Definition reserve (request : AllocationRequest) : HeapM (option ReservedAllocation) :=
  let bytes := request_block_bytes request in
  if negb (size_ok bytes) then st_err InvalidStoragePlan
  else
    found ← st_read (fun h => find_suitable h bytes);
    match found with
    | None => mret None
    | Some b =>
        size ← st_read (fun h => block_size h b);
        if size <? bytes then st_err CorruptHeap
        else
          previous_size ← st_read (fun h => read_previous_or_gray h b);
          _ ← remove_free b;
          let remainder := size - bytes in
          allocated_size ←
            (if MINIMUM_BLOCK_BYTES <=? remainder
             then
               remainder_offset ← st_lift (ok_or (checked_add u32_max b bytes) CorruptHeap);
               _ ← write_header remainder_offset remainder bytes false;
               _ ← update_next_previous_size remainder_offset remainder;
               _ ← insert_free remainder_offset;
               mret bytes
             else mret size);
          _ ← write_header b allocated_size previous_size true;
          _ ← sub_total_free allocated_size;
          mret (Some (mkReserved b (request_type_id request)))
    end.

Definition free_block (b : BlockOffset) : HeapM unit :=
  allocated ← st_read (fun h => block_allocated h b);
  if negb allocated then st_err CorruptHeap
  else
    original_size ← st_read (fun h => block_size h b);
    previous_size ← st_read (fun h => read_previous_or_gray h b);
    '(merged, merged_size, previous_size) ←
      (if b =? 0 then mret (b, original_size, previous_size)
       else
         previous ← st_lift (ok_or (checked_sub b previous_size) CorruptHeap);
         previous_allocated ← st_read (fun h => block_allocated h previous);
         if negb previous_allocated
         then
           _ ← remove_free previous;
           size ← st_read (fun h => block_size h previous);
           merged_size ← st_lift (ok_or (checked_add u32_max original_size size) CorruptHeap);
           previous_size ← st_read (fun h => read_previous_or_gray h previous);
           mret (previous, merged_size, previous_size)
         else mret (b, original_size, previous_size));
    next ← st_lift (ok_or (checked_add u32_max merged merged_size) CorruptHeap);
    h ← st_get;
    merged_size ←
      (if next <? arena_bytes h
       then
         next_allocated ← st_read (fun h => block_allocated h next);
         if negb next_allocated
         then
           _ ← remove_free next;
           size ← st_read (fun h => block_size h next);
           st_lift (ok_or (checked_add u32_max merged_size size) CorruptHeap)
         else mret merged_size
       else mret merged_size);
    _ ← (if negb (merged =? b) then write_flags b 0 else mret tt);
    _ ← write_header merged merged_size previous_size false;
    _ ← update_next_previous_size merged merged_size;
    _ ← insert_free merged;
    add_total_free original_size.

Definition validate_reservation (h : Heap) (r : ReservedAllocation) : outcome VmFault unit :=
  allocated ← block_allocated h (block r);
  if negb allocated then Err CorruptHeap
  else flags ← read_flags h (block r);
       if Z.land flags LIVE =? 0 then Ok tt else Err CorruptHeap.

Definition commit (r : ReservedAllocation) : HeapM Value.Ref32 :=
  _ ← st_read (fun h => validate_reservation h r);
  _ ← write_type (block r) (type_id r);
  flags ← st_read (fun h => read_flags h (block r));
  _ ← write_flags (block r) (Z.lor flags LIVE);
  h ← st_get;
  live ← st_lift (ok_or (checked_add u32_max (live_objects h) 1) CorruptHeap);
  _ ← st_modify (set_live_objects live);
  object_header ← st_lift (ok_or (checked_add u32_max (block r) OBJECT_TYPE_ID) CorruptHeap);
  st_lift (ok_or (Value.managed object_header) CorruptHeap).

Definition abort (r : ReservedAllocation) : HeapM unit :=
  _ ← st_read (fun h => validate_reservation h r);
  free_block (block r).

(** ** Payload access *)

Definition payload_offset (h : Heap) : Z := header_bytes (header_format h).

(** [arena.get_mut(position / 16)] for one byte. *)
Definition write_byte (position value : Z) : HeapM unit := fun h =>
  if position / 16 <? Z.of_nat (length (arena h)) / 16
  then (Ok tt, set_arena (splice position [value] (arena h)) h)
  else (Err CorruptHeap, h).

(** [for (index, byte) in bytes { let position = start + index as u32; .. }]. *)
Fixpoint write_bytes_from (start : Z) (bs : list Z) : HeapM unit :=
  match bs with
  | [] => mret tt
  | b :: bs =>
      if u32_max <? start then st_panic
      else _ ← write_byte start b; write_bytes_from (start + 1) bs
  end.

(** Bytes of the block beyond its header. *)
Definition capacity (h : Heap) (b : BlockOffset) : outcome VmFault Z :=
  size ← block_size h b;
  ok_or (checked_sub size (payload_offset h)) CorruptHeap.

(** [block.0 + payload_offset + offset], checked. *)
Definition payload_start (h : Heap) (b : BlockOffset) (off : Z) : outcome VmFault Z :=
  base ← ok_or (checked_add u32_max b (payload_offset h)) CorruptHeap;
  ok_or (checked_add u32_max base off) CorruptHeap.

Definition zero_reserved_payload (r : ReservedAllocation) (off len : Z) : HeapM unit :=
  _ ← st_read (fun h => validate_reservation h r);
  cap ← st_read (fun h => capacity h (block r));
  stop ← st_lift (ok_or (checked_add u32_max off len) CorruptHeap);
  if cap <? stop then st_err CorruptHeap
  else
    start ← st_read (fun h => payload_start h (block r) off);
    if u32_max <? start + len then st_panic
    else write_bytes_from start (replicate (Z.to_nat len) 0).

Definition write_reserved (r : ReservedAllocation) (off : Z) (bs : list Z) : HeapM unit :=
  _ ← st_read (fun h => validate_reservation h r);
  cap ← st_read (fun h => capacity h (block r));
  len ← st_lift (ok_or (try_from_unsigned u32_max (Z.of_nat (length bs))) CorruptHeap);
  stop ← st_lift (ok_or (checked_add u32_max off len) CorruptHeap);
  if cap <? stop then st_err CorruptHeap
  else
    start ← st_read (fun h => payload_start h (block r) off);
    write_bytes_from start bs.

(** The source repeats [write_reserved] for the four bytes of a word. *)
Definition write_reserved_u32 (r : ReservedAllocation) (off value : Z) : HeapM unit :=
  _ ← st_read (fun h => validate_reservation h r);
  cap ← st_read (fun h => capacity h (block r));
  stop ← st_lift (ok_or (checked_add u32_max off 4) CorruptHeap);
  if cap <? stop then st_err CorruptHeap
  else
    start ← st_read (fun h => payload_start h (block r) off);
    (fix go (start : Z) (bs : list Z) : HeapM unit :=
       match bs with
       | [] => mret tt
       | b :: bs =>
           if u32_max <? start then st_err CorruptHeap
           else _ ← write_byte start b; go (start + 1) bs
       end) start (le_bytes 4 value).

Definition live_block (h : Heap) (r : Value.Ref32) : outcome VmFault BlockOffset :=
  if negb (bool_decide (Value.domain r = Value.Managed))
     || (Value.payload r <? OBJECT_TYPE_ID)
     || negb (is_multiple_of (Value.payload r) BLOCK_ALIGNMENT)
  then Err InvalidReference
  else
    b ← ok_or (checked_sub (Value.payload r) OBJECT_TYPE_ID) InvalidReference;
    if arena_bytes h <=? b then Err InvalidReference
    else
      allocated ← block_allocated h b;
      if negb allocated then Err InvalidReference
      else
        flags ← read_flags h b;
        if Z.land flags LIVE =? 0 then Err InvalidReference else Ok b.

Definition free (r : Value.Ref32) : HeapM bool := fun h =>
  if negb (bool_decide (Value.domain r = Value.Managed)) then (Ok false, h)
  else
    match live_block h r with
    | Panic => (Panic, h)
    | Err _ => (Ok false, h)
    | Ok b =>
        (live ← st_lift (ok_or (checked_sub (live_objects h) 1) CorruptHeap);
         _ ← st_modify (set_live_objects live);
         _ ← free_block b;
         mret true) h
    end.

Definition managed_type (h : Heap) (r : Value.Ref32) : outcome VmFault Z :=
  b ← live_block h r; read_type h b.

Definition runtime_type (h : Heap) (r : Value.Ref32) : option Z :=
  match managed_type h r with Ok t => Some t | _ => None end.

(** One byte of the arena, [arena.get(position / 16)]. *)
Definition read_byte (h : Heap) (position : Z) : outcome VmFault Z :=
  if position / 16 <? Z.of_nat (length (arena h)) / 16
  then expect (zget (arena h) position) else Err CorruptHeap.

Fixpoint read_bytes_from (h : Heap) (start : Z) (n : nat) : outcome VmFault (list Z) :=
  match n with
  | O => Ok []
  | S n =>
      if u32_max <? start then Panic
      else b ← read_byte h start; bs ← read_bytes_from h (start + 1) n; Ok (b :: bs)
  end.

(** The result is an 8-byte array whose tail stays zero. *)
Definition read_payload (h : Heap) (r : Value.Ref32) (off len : Z) : outcome VmFault (list Z) :=
  b ← live_block h r;
  cap ← capacity h b;
  stop ← ok_or (checked_add u32_max off len) CorruptHeap;
  if (8 <? len) || (cap <? stop) then Err CorruptHeap
  else
    start ← payload_start h b off;
    bs ← read_bytes_from h start (Z.to_nat len);
    Ok (bs ++ replicate (8 - length bs) 0).

Definition write_payload (r : Value.Ref32) (off : Z) (bs : list Z) : HeapM unit :=
  b ← st_read (fun h => live_block h r);
  len ← st_lift (ok_or (try_from_unsigned u32_max (Z.of_nat (length bs))) CorruptHeap);
  cap ← st_read (fun h => capacity h b);
  stop ← st_lift (ok_or (checked_add u32_max off len) CorruptHeap);
  if cap <? stop then st_err CorruptHeap
  else
    start ← st_read (fun h => payload_start h b off);
    write_bytes_from start bs.

(** The [span] closure of [copy_payload_range]. *)
Definition copy_span (h : Heap) (r : Value.Ref32) (off len : Z) : outcome VmFault Z :=
  b ← live_block h r;
  cap ← capacity h b;
  if (match checked_add u32_max off len with None => true | Some stop => cap <? stop end)
  then Err CorruptHeap
  else
    start ← payload_start h b off;
    if (match checked_add u32_max start len with None => true | Some stop => arena_bytes h <? stop end)
    then Err CorruptHeap
    else Ok start.

(** [copy_within] is a memmove over the whole arena. *)
Definition copy_payload_range (source : Value.Ref32) (source_offset : Z)
    (destination : Value.Ref32) (destination_offset len : Z) : HeapM unit :=
  source_start ← st_read (fun h => copy_span h source source_offset len);
  destination_start ← st_read (fun h => copy_span h destination destination_offset len);
  (fun h =>
     let size := Z.of_nat (length (arena h)) in
     if (size <? source_start + len) || (size <? destination_start + len) then (Panic, h)
     else (Ok tt, set_arena (splice destination_start (slice source_start len (arena h)) (arena h)) h))
  : HeapM unit.

(** ** Collector support *)

(** The collector's [gray_head] and [gray_tail], threaded by reference. *)
Record GrayQueue := mkGray { gray_head : option Z; gray_tail : option Z }.

Abbreviation GrayM := (ST (Heap * GrayQueue) VmFault).

Definition on_heap {A} (m : HeapM A) : GrayM A := fun '(h, q) =>
  let '(o, h') := m h in (o, (h', q)).

Definition enqueue_gray (r : Value.Ref32) : GrayM unit := fun '(h, q) =>
  if negb (bool_decide (Value.domain r = Value.Managed)) then (Ok tt, (h, q))
  else
    (b ← on_heap (st_read (fun h => live_block h r));
     flags ← on_heap (st_read (fun h => read_flags h b));
     if negb (Z.land flags MARKED =? 0) then mret tt
     else
       _ ← on_heap (write_flags b (Z.lor flags MARKED));
       _ ← on_heap (write_previous_or_gray b NULL_OFFSET);
       _ ← (match gray_tail q with
            | Some previous =>
                previous ← st_lift (ok_or (Value.managed previous) CorruptHeap);
                previous_block ← on_heap (st_read (fun h => live_block h previous));
                on_heap (write_previous_or_gray previous_block (Value.payload r))
            | None =>
                st_modify (fun '(h, q) => (h, mkGray (Some (Value.payload r)) (gray_tail q)))
            end);
       st_modify (fun '(h, q) => (h, mkGray (gray_head q) (Some (Value.payload r))))) (h, q).

Definition dequeue_gray : GrayM (option (Value.Ref32 * Z)) := fun '(h, q) =>
  match gray_head q with
  | None => (Ok None, (h, q))
  | Some payload =>
      (r ← st_lift (ok_or (Value.managed payload) CorruptHeap);
       b ← on_heap (st_read (fun h => live_block h r));
       next ← on_heap (st_read (fun h => read_previous_or_gray h b));
       _ ← on_heap (write_previous_or_gray b NULL_OFFSET);
       let head := if negb (next =? NULL_OFFSET) && negb (next =? 0) then Some next else None in
       _ ← st_modify (fun '(h, q) =>
             (h, mkGray head (match head with None => None | Some _ => gray_tail q end)));
       ty ← on_heap (st_read (fun h => managed_type h r));
       mret (Some (r, ty))) (h, q)
  end.

Definition sweep_block (off previous_size : Z) : HeapM (Z * Z) := fun h =>
  if arena_bytes h <=? off then (Err CorruptHeap, h)
  else
    (size ← st_read (fun h => block_size h off);
     _ ← write_previous_or_gray off previous_size;
     allocated ← st_read (fun h => block_allocated h off);
     if negb allocated
     then
       _ ← observe_free_block off;
       next ← st_lift (ok_or (checked_add u32_max off size) CorruptHeap);
       mret (next, size)
     else
       flags ← st_read (fun h => read_flags h off);
       if Z.land flags LIVE =? 0 then st_err CorruptHeap
       else if negb (Z.land flags MARKED =? 0)
       then
         _ ← write_flags off (Z.ldiff flags MARKED);
         next ← st_lift (ok_or (checked_add u32_max off size) CorruptHeap);
         mret (next, size)
       else
         previous_size ← st_read (fun h => read_previous_or_gray h off);
         merged ←
           (if off =? 0 then mret off
            else
              previous ← st_lift (ok_or (checked_sub off previous_size) CorruptHeap);
              previous_allocated ← st_read (fun h => block_allocated h previous);
              mret (if (previous_allocated : bool) then off else previous));
         header ← st_lift (ok_or (checked_add u32_max off OBJECT_TYPE_ID) CorruptHeap);
         r ← st_lift (ok_or (Value.managed header) CorruptHeap);
         freed ← free r;
         if negb freed then st_err CorruptHeap
         else
           merged_size ← st_read (fun h => block_size h merged);
           next ← st_lift (ok_or (checked_add u32_max merged merged_size) CorruptHeap);
           mret (next, merged_size)) h.

(** The walk of [diagnostic]; every block is at least 16 bytes, so the arena
    size in 16-byte units bounds the steps. *)
Fixpoint largest_free_from (h : Heap) (fuel : nat) (off best : Z) : Z :=
  match fuel with
  | O => best
  | S fuel =>
      if off <? arena_bytes h then
        match block_size h off with
        | Ok size =>
            let best :=
              match block_allocated h off with
              | Ok false => Z.max best size
              | _ => best
              end in
            match checked_add u32_max off size with
            | Some next => largest_free_from h fuel next best
            | None => 0
            end
        | _ => 0
        end
      else best
  end.

Definition diagnostic (h : Heap) : HeapDiagnostic :=
  mkHeapDiagnostic (total_free h)
    (largest_free_from h (S (Z.to_nat (arena_bytes h / 16))) 0 0) (live_objects h) 0.

(** [Heap::new]. *)
Definition new (plan : StoragePlan) : outcome AdmissionError Heap :=
  match try_from_unsigned u32_max (heap_arena_bytes plan) with
  | None => Err (ResidentStorageOverflow HeapArena)
  | Some heap_bytes =>
      if (heap_bytes <? 32) || negb (is_multiple_of heap_bytes 16)
         || (Value.MAX_PAYLOAD <? heap_bytes)
      then Err (InvalidHeapSize heap_bytes)
      else
        let heap := mkHeap (Layout.header_format plan)
                      (replicate (Z.to_nat (16 * (heap_bytes / 16))) 0) heap_bytes
                      (replicate (Z.to_nat CLASS_COUNT) NULL_OFFSET) 0 (replicate 32 0)
                      NULL_OFFSET heap_bytes 0 in
        match (_ ← write_header 0 heap_bytes 0 false; insert_free 0) heap with
        | (Ok _, heap) => Ok heap
        | (Err _, _) => Err StoragePlanOverflow
        | (Panic, _) => Panic
        end
  end.

Definition allocator_resident_bytes : Z := CLASS_COUNT * 4.

End Heap.
