(* ===== verification/HeapLists.v ===== *)
(** The segregated free lists of src/execution/heap.rs: a state predicate that
    ties the doubly linked lists, their heads, both bitmap levels and the
    largest-block hint to an abstract map of free blocks, and the proof that
    [insert_free], [remove_free], [observe_free_block] and [find_suitable]
    implement insertion, removal and search on that map. *)

From S2P Require Import Prelude Words Fields Errors Value Layout Heap.

(** The heap's memory, one layer up: what the header and link accessors of
    src/execution/heap.rs read and write at a block offset, for both header
    formats at once.  Everything above this file talks about the view functions
    [vsize], [vflags], [vprev], [vtype], [vnext], [vpf] and about which bytes an
    operation may have touched, never about bytes. *)

Module HeapView.
Import Errors Layout Heap.

(** The shape of a heap that [Heap::new] builds and nothing changes. *)
Record geom (h : Heap) : Prop := {
  g_len : Z.of_nat (length (arena h)) = arena_bytes h;
  g_align : arena_bytes h mod 16 = 0;
  g_size : 32 <= arena_bytes h <= Value.MAX_PAYLOAD;
  g_bytes : is_bytes (arena h);
  g_fmt : match header_format h with
          | Legacy => True
          | Compact s l => 1 <= s <= 28 /\ 1 <= l <= 28 /\ 3 + s + l < 64 /\
                           arena_bytes h / 8 < 2 ^ s /\ arena_bytes h / 8 - 1 < 2 ^ l
          end }.

(** A place where a block header may stand. *)
Definition bo (h : Heap) (b : Z) : Prop :=
  0 <= b /\ b mod 8 = 0 /\ b + 16 <= arena_bytes h.

Definition word (h : Heap) (b f : Z) : Z := le_val (slice (b + f) 4 (arena h)).
Definition dword (h : Heap) (b : Z) : Z := le_val (slice b 8 (arena h)).

Definition hword (h : Heap) (b : Z) : Z :=
  match header_format h with Legacy => word h b 0 | Compact _ _ => dword h b end.
Definition sbits (h : Heap) : Z :=
  match header_format h with Legacy => 29 | Compact s _ => s end.

Definition vflags (h : Heap) (b : Z) : Z := get_field (hword h b) 0 3.
Definition vsize (h : Heap) (b : Z) : Z := 8 * get_field (hword h b) 3 (sbits h).
Definition vprev (h : Heap) (b : Z) : Z :=
  match header_format h with
  | Legacy => word h b 4
  | Compact s l => 8 * get_field (dword h b) (3 + s) l
  end.
Definition vtype (h : Heap) (b : Z) : Z :=
  match header_format h with
  | Legacy => word h b 8
  | Compact s l => get_field (dword h b) (3 + s + l) (64 - (3 + s + l))
  end.
Definition vnext (h : Heap) (b : Z) : Z := word h b 8.
Definition vpf (h : Heap) (b : Z) : Z := word h b 12.

(** [h'] differs from [h] at most in the arena bytes of [P]. *)
Record touch (P : Z -> Prop) (h h' : Heap) : Prop := {
  t_same : h' = set_arena (arena h') h;
  t_geom : geom h';
  t_bytes : forall i : nat, ~ P (Z.of_nat i) -> arena h' !! i = arena h !! i }.

(** Bytes [lo] (included) to [hi] (excluded) of the block at [b]. *)
Definition rng (b lo hi : Z) : Z -> Prop := fun i => b + lo <= i < b + hi.

Lemma touch_refl P h : geom h -> touch P h h.
Proof. intros. constructor; [by destruct h|done|done]. Qed.

Lemma touch_mono (P Q : Z -> Prop) h h' :
  (forall i, P i -> Q i) -> touch P h h' -> touch Q h h'.
Proof. intros HPQ [? ? H]. constructor; [done|done|]. intros i Hi. apply H. auto. Qed.

Lemma touch_trans (P Q : Z -> Prop) h h1 h2 :
  touch P h h1 -> touch Q h1 h2 -> touch (fun i => P i \/ Q i) h h2.
Proof.
  intros [E1 ? H1] [E2 ? H2]. constructor; [|done|].
  - rewrite E2 at 1. rewrite E1. by destruct h, h1, h2.
  - intros i Hi. simpl in Hi. rewrite H2, H1 by tauto. done.
Qed.

Lemma touch_trans_same P h h1 h2 : touch P h h1 -> touch P h1 h2 -> touch P h h2.
Proof. intros H1 H2. eapply touch_mono; [|exact (touch_trans _ _ _ _ _ H1 H2)]. simpl. tauto. Qed.

Lemma touch_fmt P h h' : touch P h h' -> header_format h' = header_format h.
Proof. intros [-> _ _]. done. Qed.
Lemma touch_size P h h' : touch P h h' -> arena_bytes h' = arena_bytes h.
Proof. intros [-> _ _]. done. Qed.
Lemma touch_heads P h h' : touch P h h' -> class_heads h' = class_heads h.
Proof. intros [-> _ _]. done. Qed.
Lemma touch_first P h h' : touch P h h' -> first_bitmap h' = first_bitmap h.
Proof. intros [-> _ _]. done. Qed.
Lemma touch_second P h h' : touch P h h' -> second_bitmaps h' = second_bitmaps h.
Proof. intros [-> _ _]. done. Qed.
Lemma touch_hint P h h' : touch P h h' -> largest_free_hint h' = largest_free_hint h.
Proof. intros [-> _ _]. done. Qed.
Lemma touch_total P h h' : touch P h h' -> total_free h' = total_free h.
Proof. intros [-> _ _]. done. Qed.
Lemma touch_live P h h' : touch P h h' -> live_objects h' = live_objects h.
Proof. intros [-> _ _]. done. Qed.

Lemma touch_bo P h h' b : touch P h h' -> bo h b -> bo h' b.
Proof. intros Ht. unfold bo. by rewrite (touch_size _ _ _ Ht). Qed.

Lemma touch_slice P h h' start len :
  geom h -> touch P h h' -> 0 <= start ->
  (forall i, start <= i < start + len -> ~ P i) ->
  slice start len (arena h') = slice start len (arena h).
Proof.
  intros Hg Ht Hs HP. pose proof (touch_size _ _ _ Ht) as Hn.
  apply slice_ext; [done| |].
  - pose proof (g_len _ Hg). pose proof (g_len _ (t_geom _ _ _ Ht)). lia.
  - intros i Hi. apply (t_bytes _ _ _ Ht), HP, Hi.
Qed.

(** Blocks whose sixteen bytes were left alone look as before. *)
Lemma touch_word P h h' b f :
  geom h -> touch P h h' -> 0 <= b + f -> (forall i, rng b f (f + 4) i -> ~ P i) ->
  word h' b f = word h b f.
Proof.
  intros Hg Ht ? HP. unfold word. rewrite (touch_slice P h h'); [done|done|done|lia|].
  intros i Hi. apply HP. unfold rng. lia.
Qed.

Lemma touch_dword P h h' b :
  geom h -> touch P h h' -> 0 <= b -> (forall i, rng b 0 8 i -> ~ P i) ->
  dword h' b = dword h b.
Proof.
  intros Hg Ht ? HP. unfold dword. rewrite (touch_slice P h h'); [done|done|done|lia|].
  intros i Hi. apply HP. unfold rng. lia.
Qed.

(** The header fields that allocation decisions read. *)
Definition same_header (h h' : Heap) (b : Z) : Prop :=
  vsize h' b = vsize h b /\ vflags h' b = vflags h b /\ vprev h' b = vprev h b.
Definition same_links (h h' : Heap) (b : Z) : Prop :=
  vnext h' b = vnext h b /\ vpf h' b = vpf h b.

Lemma same_header_refl h b : same_header h h b.
Proof. done. Qed.
Lemma same_header_trans h h1 h2 b :
  same_header h h1 b -> same_header h1 h2 b -> same_header h h2 b.
Proof. unfold same_header. naive_solver congruence. Qed.

Lemma touch_header P h h' b :
  geom h -> touch P h h' -> 0 <= b -> (forall i, rng b 0 8 i -> ~ P i) ->
  same_header h h' b.
Proof.
  intros Hg Ht Hb HP. unfold same_header, vsize, vflags, vprev, hword, sbits.
  rewrite (touch_fmt _ _ _ Ht). destruct (header_format h).
  - rewrite !(touch_word P h h') by (try done; try lia; intros i Hi; apply HP; unfold rng in *; lia).
    done.
  - by rewrite !(touch_dword P h h').
Qed.

Lemma touch_links P h h' b :
  geom h -> touch P h h' -> 0 <= b -> (forall i, rng b 8 16 i -> ~ P i) ->
  same_links h h' b.
Proof.
  intros Hg Ht Hb HP. unfold same_links, vnext, vpf.
  rewrite !(touch_word P h h') by (try done; try lia; intros i Hi; apply HP; unfold rng in *; lia).
  done.
Qed.

Lemma touch_type P h h' b :
  geom h -> touch P h h' -> 0 <= b -> (forall i, rng b 0 12 i -> ~ P i) ->
  vtype h' b = vtype h b.
Proof.
  intros Hg Ht Hb HP. unfold vtype. rewrite (touch_fmt _ _ _ Ht).
  destruct (header_format h).
  - rewrite (touch_word P h h') by (try done; try lia; intros i Hi; apply HP; unfold rng in *; lia).
    done.
  - rewrite (touch_dword P h h') by (try done; intros i Hi; apply HP; unfold rng in *; lia).
    done.
Qed.

(** ** Reads *)

Lemma word_bound h b f : geom h -> 0 <= b + f -> b + f + 4 <= arena_bytes h -> 0 <= word h b f <= u32_max.
Proof.
  intros Hg Hb Hf. unfold word.
  pose proof (le_val_bound (slice (b + f) 4 (arena h)) (slice_Forall _ _ _ _ (g_bytes _ Hg))) as H.
  rewrite slice_length in H by (pose proof (g_len _ Hg); lia). change (256 ^ Z.of_nat (Z.to_nat 4)) with (2 ^ 32) in H.
  unfold u32_max. lia.
Qed.

Lemma dword_bound h b : geom h -> 0 <= b -> b + 8 <= arena_bytes h -> 0 <= dword h b < 2 ^ 64.
Proof.
  intros Hg Hb Hf. unfold dword.
  pose proof (le_val_bound (slice b 8 (arena h)) (slice_Forall _ _ _ _ (g_bytes _ Hg))) as H.
  rewrite slice_length in H by (pose proof (g_len _ Hg); lia). exact H.
Qed.

Lemma in_unit_word h b f :
  geom h -> bo h b -> f = 0 \/ f = 4 \/ f = 8 \/ f = 12 -> in_unit (arena h) (b + f) 4 = true.
Proof.
  intros Hg (Hb & Hm & Hn) Hf. unfold in_unit. rewrite (g_len _ Hg).
  pose proof (g_align _ Hg). apply andb_true_iff.
  rewrite Z.ltb_lt, Z.leb_le. Z.to_euclidean_division_equations. lia.
Qed.

Lemma in_unit_dword h b : geom h -> bo h b -> in_unit (arena h) b 8 = true.
Proof.
  intros Hg (Hb & Hm & Hn). unfold in_unit. rewrite (g_len _ Hg).
  pose proof (g_align _ Hg). apply andb_true_iff.
  rewrite Z.ltb_lt, Z.leb_le. Z.to_euclidean_division_equations. lia.
Qed.

Lemma bo_fits h b f : geom h -> bo h b -> 0 <= f <= 12 -> b + f <= u32_max.
Proof.
  intros Hg (Hb & Hm & Hn) Hf. pose proof (g_size _ Hg). rewrite Value.MAX_PAYLOAD_eq in *.
  unfold u32_max. lia.
Qed.

Lemma read_word_view h b f :
  geom h -> bo h b -> f = 0 \/ f = 4 \/ f = 8 \/ f = 12 -> read_word h b f = Ok (word h b f).
Proof.
  intros Hg Hb Hf. unfold read_word, checked_add.
  rewrite (proj2 (Z.leb_le _ _)) by (apply (bo_fits h); try done; lia). simpl.
  by rewrite in_unit_word.
Qed.

Lemma read_compact_view h b : geom h -> bo h b -> read_compact_header h b = Ok (dword h b).
Proof. intros. unfold read_compact_header. by rewrite in_unit_dword. Qed.

Lemma bit_mask_ones n : 0 <= n <= 64 -> bit_mask n = Z.ones n.
Proof.
  intros. unfold bit_mask. rewrite Z.shiftr_div_pow2, Z.ones_equiv by lia.
  unfold u64_max. symmetry. apply (Z.div_unique_pos _ _ _ (2 ^ (64 - n) - 1)).
  - pose proof (Z.pow_pos_nonneg 2 (64 - n)). lia.
  - replace 64 with (64 - n + n) at 1 by lia. rewrite Z.pow_add_r by lia. lia.
Qed.

Lemma legacy_fields w : 0 <= w <= u32_max ->
  Z.land w SIZE_MASK = 8 * get_field w 3 29 /\ Z.ldiff w SIZE_MASK = get_field w 0 3.
Proof.
  intros Hw. unfold SIZE_MASK, BLOCK_ALIGNMENT, u32_max in *.
  assert (Hm : 2 ^ 32 - 1 - (8 - 1) = 2 ^ 32 - 2 ^ 3) by lia. rewrite Hm.
  assert (Hg : get_field w 3 29 = w / 8).
  { change 29 with (32 - 3). rewrite <- (get_field_top 32 w 3) by lia.
    by rewrite Z.shiftr_div_pow2. }
  split.
  - rewrite land_high_mask by lia. rewrite Hg. change (2 ^ 3) with 8.
    pose proof (Z.div_mod w 8). lia.
  - change (2 ^ 32 - 2 ^ 3) with (Z.shiftl (Z.ones 29) 3).
    apply Z.bits_inj'. intros i Hi.
    rewrite testbit_get_field, Z.ldiff_spec, Z.shiftl_spec, Z.add_0_r by lia.
    destruct (Z.ltb_spec i 3).
    + by rewrite (Z.testbit_neg_r _ (i - 3)) by lia.
    + rewrite testbit_ones, andb_false_r by lia.
      destruct (Z.ltb_spec (i - 3) 29); [apply andb_false_r|].
      rewrite (testbit_small 32 w) by lia. done.
Qed.

Lemma vsize_bound h b : geom h -> bo h b -> 0 <= vsize h b <= u32_max.
Proof.
  intros Hg (Hb & Hm & Hn). unfold vsize.
  assert (Hs : 0 <= sbits h <= 29).
  { unfold sbits. pose proof (g_fmt _ Hg). destruct (header_format h); lia. }
  pose proof (get_field_bound (hword h b) 3 (sbits h) ltac:(lia)) as H.
  pose proof (Z.pow_le_mono_r 2 (sbits h) 29). unfold u32_max. lia.
Qed.

Lemma block_size_view h b :
  geom h -> bo h b ->
  block_size h b = if size_ok (vsize h b) then Ok (vsize h b) else Err CorruptHeap.
Proof.
  intros Hg Hb. pose proof (vsize_bound h b Hg Hb) as Hv. pose proof (g_fmt _ Hg) as Hf.
  unfold block_size, vsize, hword, sbits, SIZE_FLAGS in *.
  destruct (header_format h) as [|s l].
  - rewrite read_word_view by (try done; lia). simpl.
    rewrite (proj1 (legacy_fields _ (word_bound h b 0 Hg ltac:(destruct Hb; lia) ltac:(unfold bo in Hb; lia)))).
    done.
  - rewrite read_compact_view by done. simpl.
    rewrite bit_mask_ones by lia. unfold get_field in *.
    unfold BLOCK_ALIGNMENT. rewrite Z.mul_comm in Hv. unfold try_from_unsigned, in_range.
    rewrite !(proj2 (Z.leb_le _ _)) by lia. simpl. by rewrite Z.mul_comm.
Qed.

Lemma read_flags_view h b : geom h -> bo h b -> read_flags h b = Ok (vflags h b).
Proof.
  intros Hg Hb. unfold read_flags, vflags, hword, SIZE_FLAGS.
  destruct (header_format h) as [|s l].
  - rewrite read_word_view by (try done; lia). simpl.
    by rewrite (proj2 (legacy_fields _ (word_bound h b 0 Hg ltac:(destruct Hb; lia) ltac:(unfold bo in Hb; lia)))).
  - rewrite read_compact_view by done. simpl. unfold get_field. by rewrite Z.shiftr_0_r.
Qed.

Lemma block_allocated_view h b :
  geom h -> bo h b -> block_allocated h b = Ok (negb (Z.land (vflags h b) ALLOCATED =? 0)).
Proof. intros. unfold block_allocated. by rewrite read_flags_view. Qed.

Lemma read_prev_view h b : geom h -> bo h b -> read_previous_or_gray h b = Ok (vprev h b).
Proof.
  intros Hg Hb. pose proof (g_fmt _ Hg) as Hf. unfold read_previous_or_gray, vprev, PREVIOUS_SIZE.
  destruct (header_format h) as [|s l].
  - apply read_word_view; [done|done|lia].
  - rewrite read_compact_view by done. simpl. rewrite bit_mask_ones by lia.
    fold (get_field (dword h b) (3 + s) l).
    pose proof (get_field_bound (dword h b) (3 + s) l ltac:(lia)).
    pose proof (Z.pow_le_mono_r 2 l 28). unfold try_from_unsigned, in_range, u32_max, BLOCK_ALIGNMENT.
    rewrite !(proj2 (Z.leb_le _ _)) by lia. simpl. by rewrite Z.mul_comm.
Qed.

Lemma read_next_view h b : geom h -> bo h b -> read_word h b NEXT_FREE = Ok (vnext h b).
Proof. intros. apply read_word_view; [done|done|]. unfold NEXT_FREE. lia. Qed.

Lemma read_pf_view h b : geom h -> bo h b -> read_word h b PREVIOUS_FREE = Ok (vpf h b).
Proof. intros. apply read_word_view; [done|done|]. unfold PREVIOUS_FREE. lia. Qed.

Lemma read_type_view h b :
  geom h -> bo h b -> vtype h b <= u32_max -> read_type h b = Ok (vtype h b).
Proof.
  intros Hg Hb Ht. pose proof (g_fmt _ Hg) as Hf. unfold read_type, vtype, OBJECT_TYPE_ID, BLOCK_HEADER_BYTES in *.
  destruct (header_format h) as [|s l].
  - apply read_word_view; [done|done|lia].
  - rewrite read_compact_view by done. simpl.
    rewrite (get_field_top 64) by (try lia; apply dword_bound; destruct Hb as (? & ? & ?); try done; lia).
    pose proof (get_field_bound (dword h b) (3 + s + l) (64 - (3 + s + l)) ltac:(lia)).
    unfold try_from_unsigned, in_range. by rewrite !(proj2 (Z.leb_le _ _)) by lia.
Qed.

(** ** Writes *)

Lemma set_arena_touch P h a :
  geom h -> length a = length (arena h) -> is_bytes a ->
  (forall i : nat, ~ P (Z.of_nat i) -> a !! i = arena h !! i) -> touch P h (set_arena a h).
Proof.
  intros [? ? ? ? ?] Hl Ha HP. constructor; [done| |done].
  constructor; simpl; try done. by rewrite Hl.
Qed.

Lemma splice_touch h start bs :
  geom h -> is_bytes bs -> 0 <= start -> start + Z.of_nat (length bs) <= arena_bytes h ->
  touch (fun i => start <= i < start + Z.of_nat (length bs)) h (set_arena (splice start bs (arena h)) h).
Proof.
  intros Hg Hb Hs Hn. pose proof (g_len _ Hg).
  apply set_arena_touch; [done|apply splice_length; lia|apply splice_Forall; [done|apply Hg]|].
  intros i Hi. apply splice_lookup_ne; lia.
Qed.

Lemma write_word_spec h b f v :
  geom h -> bo h b -> f = 0 \/ f = 4 \/ f = 8 \/ f = 12 -> 0 <= v <= u32_max ->
  exists h', write_word b f v h = (Ok tt, h') /\ touch (rng b f (f + 4)) h h' /\ word h' b f = v.
Proof.
  intros Hg Hb Hf Hv. unfold write_word, checked_add.
  rewrite (proj2 (Z.leb_le _ _)) by (apply (bo_fits h); try done; lia).
  rewrite in_unit_word by done. eexists. split; [reflexivity|].
  assert (Hl : Z.of_nat (length (le_bytes 4 v)) = 4) by (by rewrite le_bytes_length).
  destruct Hb as (? & ? & ?). split.
  - eapply touch_mono; [|apply (splice_touch h (b + f) (le_bytes 4 v)); try done;
      [apply le_bytes_is_bytes|lia|lia]].
    intros i. unfold rng. rewrite Hl. lia.
  - unfold word. cbn [arena set_arena]. rewrite <- Hl at 1. rewrite slice_splice_eq by (pose proof (g_len _ Hg); lia).
    apply le_val_bytes_small. change (256 ^ Z.of_nat 4) with (2 ^ 32). unfold u32_max in Hv. lia.
Qed.

Lemma write_compact_spec h b v :
  geom h -> bo h b -> 0 <= v < 2 ^ 64 ->
  exists h', write_compact_header b v h = (Ok tt, h') /\ touch (rng b 0 8) h h' /\ dword h' b = v.
Proof.
  intros Hg Hb Hv. unfold write_compact_header.
  rewrite in_unit_dword by done. eexists. split; [reflexivity|].
  assert (Hl : Z.of_nat (length (le_bytes 8 v)) = 8) by (by rewrite le_bytes_length).
  destruct Hb as (? & ? & ?). split.
  - eapply touch_mono; [|apply (splice_touch h b (le_bytes 8 v)); try done;
      [apply le_bytes_is_bytes|lia]].
    intros i. unfold rng. rewrite Hl. lia.
  - unfold dword. cbn [arena set_arena]. rewrite <- Hl at 1. rewrite slice_splice_eq by (pose proof (g_len _ Hg); lia).
    apply le_val_bytes_small. exact Hv.
Qed.

Lemma rng_apart b lo hi lo' hi' i : hi <= lo' \/ hi' <= lo -> rng b lo hi i -> ~ rng b lo' hi' i.
Proof. unfold rng. lia. Qed.

Lemma write_next_spec h b v :
  geom h -> bo h b -> 0 <= v <= u32_max ->
  exists h', write_word b NEXT_FREE v h = (Ok tt, h') /\ touch (rng b 8 12) h h' /\
    vnext h' b = v /\ vpf h' b = vpf h b /\ same_header h h' b.
Proof.
  intros Hg Hb Hv.
  destruct (write_word_spec h b 8 v) as (h' & Hw & Ht & Hv'); try done; [lia|].
  exists h'. destruct Hb as (? & ? & ?). split_and!; try done.
  - unfold vpf. eapply touch_word; [done|done|lia|]. intros i. apply rng_apart. lia.
  - eapply touch_header; try done. intros i. apply rng_apart. lia.
Qed.

Lemma write_pf_spec h b v :
  geom h -> bo h b -> 0 <= v <= u32_max ->
  exists h', write_word b PREVIOUS_FREE v h = (Ok tt, h') /\ touch (rng b 12 16) h h' /\
    vpf h' b = v /\ vnext h' b = vnext h b /\ same_header h h' b.
Proof.
  intros Hg Hb Hv.
  destruct (write_word_spec h b 12 v) as (h' & Hw & Ht & Hv'); try done; [lia|].
  exists h'. destruct Hb as (? & ? & ?). split_and!; try done.
  - unfold vnext. eapply touch_word; [done|done|lia|]. intros i. apply rng_apart. lia.
  - eapply touch_header; try done. intros i. apply rng_apart. lia.
Qed.

Lemma land_size_mask w : 0 <= w <= u32_max -> Z.land w SIZE_MASK = Z.ldiff w 7.
Proof.
  intros Hw. unfold SIZE_MASK, u32_max, BLOCK_ALIGNMENT in *.
  change (2 ^ 32 - 1 - (8 - 1)) with (Z.shiftl (Z.ones 29) 3). change 7 with (Z.ones 3).
  apply Z.bits_inj'. intros i Hi.
  rewrite Z.land_spec, Z.ldiff_spec, Z.shiftl_spec, (testbit_ones 3) by lia.
  destruct (Z.ltb_spec i 3).
  - rewrite (Z.testbit_neg_r _ (i - 3)) by lia. by rewrite !andb_false_r.
  - rewrite testbit_ones by lia. destruct (Z.ltb_spec (i - 3) 29); [done|].
    rewrite (testbit_small 32 w) by lia. done.
Qed.

Lemma set_low_field w f : Z.lor (Z.ldiff w 7) f = set_field w 0 3 f.
Proof. unfold set_field. by rewrite !Z.shiftl_0_r. Qed.

Lemma hword_bound h b : geom h -> bo h b -> 0 <= hword h b < 2 ^ 64.
Proof.
  intros Hg (? & ? & ?). unfold hword. destruct (header_format h).
  - pose proof (word_bound h b 0 Hg). unfold u32_max in *. lia.
  - apply dword_bound; [done|done|lia].
Qed.

(** Flags, size, link and type of a compact header after one field changed. *)
Ltac fields_tac :=
  repeat first
    [ rewrite get_set_field by lia
    | rewrite get_set_field_ne by lia ].

Lemma write_flags_spec h b f :
  geom h -> bo h b -> 0 <= f < 8 ->
  exists h', write_flags b f h = (Ok tt, h') /\ touch (rng b 0 8) h h' /\
    vflags h' b = f /\ vsize h' b = vsize h b /\ vprev h' b = vprev h b /\
    same_links h h' b /\ vtype h' b = vtype h b.
Proof.
  intros Hg Hb Hf. pose proof Hb as (? & ? & ?). pose proof (g_fmt _ Hg) as Hfmt.
  unfold write_flags.
  assert (Hz : Z.ldiff f 7 = 0).
  { change 7 with (Z.ones 3). rewrite Z.ldiff_ones_r, Z.shiftr_div_pow2, Z.div_small by lia. done. }
  rewrite Hz. simpl. change 8 with (2 ^ 3) in Hf.
  destruct (header_format h) as [|s l] eqn:Hh.
  - assert (Hw : read_word h b SIZE_FLAGS = Ok (word h b 0))
      by (apply read_word_view; try done; unfold SIZE_FLAGS; lia).
    unfold mbind, ST_bind, st_read. rewrite Hw.
    pose proof (word_bound h b 0 Hg ltac:(lia) ltac:(lia)) as Hwb.
    rewrite land_size_mask, set_low_field by done.
    pose proof (set_field_bound 32 (word h b 0) 0 3 f) as Hsb.
    destruct (write_word_spec h b 0 (set_field (word h b 0) 0 3 f)) as (h' & Hrun & Ht & Hv);
      [done|done|lia|unfold u32_max in *; lia|].
    exists h'. pose proof (touch_fmt _ _ _ Ht) as Hfm.
    split; [done|]. split; [eapply touch_mono; [|done]; unfold rng; lia|].
    unfold vflags, vsize, vprev, vtype, same_links, vnext, vpf, hword, sbits. rewrite Hfm, Hh, Hv.
    rewrite !(touch_word (rng b 0 4) h h') by (try done; try lia; intros i; apply rng_apart; lia).
    fields_tac. done.
  - assert (Hw : read_compact_header h b = Ok (dword h b)) by (by apply read_compact_view).
    unfold mbind, ST_bind, st_read. rewrite Hw, set_low_field.
    pose proof (dword_bound h b Hg ltac:(lia) ltac:(lia)) as Hwb.
    destruct (write_compact_spec h b (set_field (dword h b) 0 3 f)) as (h' & Hrun & Ht & Hv);
      [done|done|apply set_field_bound; lia|].
    exists h'. pose proof (touch_fmt _ _ _ Ht) as Hfm.
    split; [done|]. split; [done|].
    unfold vflags, vsize, vprev, vtype, same_links, vnext, vpf, hword, sbits. rewrite Hfm, Hh, Hv.
    rewrite !(touch_word (rng b 0 8) h h') by (try done; try lia; intros i; apply rng_apart; lia).
    fields_tac. done.
Qed.

(** What [read_previous_or_gray] returns after the null link was stored. *)
Definition null_link (h : Heap) : Z :=
  match header_format h with Legacy => NULL_OFFSET | Compact _ _ => 0 end.

(** A value the predecessor/link field can hold in this heap. *)
Definition link_ok (h : Heap) (v : Z) : Prop :=
  0 <= v <= arena_bytes h - 8 /\ v mod 8 = 0.

Lemma link_units h v s l : geom h -> header_format h = Compact s l -> link_ok h v ->
  0 <= v / 8 < 2 ^ l /\ 8 * (v / 8) = v.
Proof.
  intros Hg Hh [Hv Hm]. pose proof (g_fmt _ Hg) as Hf. rewrite Hh in Hf.
  pose proof (g_align _ Hg). pose proof (g_size _ Hg).
  assert (v / 8 <= arena_bytes h / 8 - 1).
  { replace (arena_bytes h / 8 - 1) with ((arena_bytes h - 8) / 8).
    - apply Z.div_le_mono; lia.
    - replace (arena_bytes h - 8) with (arena_bytes h + (-1) * 8) by lia. rewrite Z.div_add; lia. }
  split; [|Z.to_euclidean_division_equations; lia].
  split; [apply Z.div_pos; lia|lia].
Qed.

Lemma wrap_mask n sh : 0 <= n -> 0 <= sh -> sh + n <= 64 ->
  wrap_unsigned 64 (Z.shiftl (Z.ones n) sh) = Z.shiftl (Z.ones n) sh.
Proof.
  intros. unfold wrap_unsigned. apply Z.mod_small. apply (shiftl_bound 64 sh n); try lia.
  rewrite Z.ones_equiv. pose proof (Z.pow_pos_nonneg 2 n). lia.
Qed.

Lemma wrap_shiftl n sh u : 0 <= n -> 0 <= sh -> sh + n <= 64 -> 0 <= u < 2 ^ n ->
  wrap_unsigned 64 (Z.shiftl u sh) = Z.shiftl u sh.
Proof. intros. unfold wrap_unsigned. apply Z.mod_small. by apply (shiftl_bound 64 sh n). Qed.

Lemma ones_ltb n u : 0 <= n -> 0 <= u < 2 ^ n -> (Z.ones n <? u) = false.
Proof. intros. rewrite Z.ones_equiv. apply Z.ltb_ge. lia. Qed.

(** Storing [units] in the link field of a compact header. *)
Lemma write_link_compact h b s l units :
  geom h -> bo h b -> header_format h = Compact s l -> 0 <= units < 2 ^ l ->
  exists h', (header ← st_read (fun h => read_compact_header h b);
              write_compact_header b
                (Z.lor (Z.ldiff header (wrap_unsigned 64 (Z.shiftl (bit_mask l) (3 + s))))
                       (wrap_unsigned 64 (Z.shiftl units (3 + s))))) h = (Ok tt, h') /\
    touch (rng b 0 8) h h' /\ vprev h' b = 8 * units /\
    vsize h' b = vsize h b /\ vflags h' b = vflags h b /\ same_links h h' b /\ vtype h' b = vtype h b.
Proof.
  intros Hg Hb Hh Hu. pose proof Hb as (? & ? & ?). pose proof (g_fmt _ Hg) as Hf. rewrite Hh in Hf.
  unfold mbind, ST_bind, st_read. rewrite read_compact_view by done.
  rewrite bit_mask_ones, wrap_mask, (wrap_shiftl l) by lia.
  fold (set_field (dword h b) (3 + s) l units).
  pose proof (dword_bound h b Hg ltac:(lia) ltac:(lia)) as Hwb.
  destruct (write_compact_spec h b (set_field (dword h b) (3 + s) l units)) as (h' & Hrun & Ht & Hv);
    [done|done|apply set_field_bound; lia|].
  exists h'. pose proof (touch_fmt _ _ _ Ht) as Hfm. split; [done|]. split; [done|].
  unfold vflags, vsize, vprev, vtype, same_links, vnext, vpf, hword, sbits. rewrite Hfm, Hh, Hv.
  rewrite !(touch_word (rng b 0 8) h h') by (try done; try lia; intros i; apply rng_apart; lia).
  fields_tac. done.
Qed.

Lemma write_prev_gen h b v :
  geom h -> bo h b -> link_ok h v \/ v = NULL_OFFSET ->
  exists h', write_previous_or_gray b v h = (Ok tt, h') /\ touch (rng b 0 8) h h' /\
    vprev h' b = (if v =? NULL_OFFSET then null_link h else v) /\
    vsize h' b = vsize h b /\ vflags h' b = vflags h b /\ same_links h h' b /\ vtype h' b = vtype h b.
Proof.
  intros Hg Hb Hv. pose proof Hb as (? & ? & ?). pose proof (g_fmt _ Hg) as Hf.
  pose proof (g_size _ Hg) as Hsz. rewrite Value.MAX_PAYLOAD_eq in Hsz.
  unfold write_previous_or_gray, null_link.
  destruct (header_format h) as [|s l] eqn:Hh.
  - destruct (write_word_spec h b 4 v) as (h' & Hrun & Ht & Hw); [done|done|lia|..].
    { unfold link_ok, NULL_OFFSET, u32_max in *. lia. }
    exists h'. pose proof (touch_fmt _ _ _ Ht) as Hfm. split; [done|].
    split; [eapply touch_mono; [|done]; unfold rng; lia|].
    unfold vflags, vsize, vprev, vtype, same_links, vnext, vpf, hword, sbits. rewrite Hfm, Hh, Hw.
    rewrite !(touch_word (rng b 4 8) h h') by (try done; try lia; intros i; apply rng_apart; lia).
    split_and!; try done. by destruct (Z.eqb_spec v NULL_OFFSET).
  - destruct (Z.eqb_spec v NULL_OFFSET) as [->|Hn]; simpl.
    + rewrite bit_mask_ones, ones_ltb by lia.
      rewrite <- (bit_mask_ones l) by lia.
      destruct (write_link_compact h b s l 0) as (h' & Hrun & Ht & Hr); [done|done|done|lia|].
      by exists h'.
    + destruct Hv as [Hv|]; [|done].
      destruct (link_units h v s l Hg Hh Hv) as [Hu Hu8].
      unfold is_multiple_of, BLOCK_ALIGNMENT. rewrite (proj2 Hv). simpl.
      rewrite bit_mask_ones, ones_ltb by lia. rewrite <- (bit_mask_ones l) by lia.
      destruct (write_link_compact h b s l (v / 8)) as (h' & Hrun & Ht & Hp & Hr); [done|done|done|done|].
      exists h'. rewrite Hu8 in Hp. done.
Qed.

Lemma size_ok_true size : size_ok size = true <-> 16 <= size /\ size mod 8 = 0.
Proof.
  unfold size_ok, MINIMUM_BLOCK_BYTES, BLOCK_ALIGNMENT, is_multiple_of.
  rewrite negb_true_iff, orb_false_iff, negb_false_iff, Z.ltb_ge, Z.eqb_eq. done.
Qed.

Lemma size_units h size s l : geom h -> header_format h = Compact s l ->
  16 <= size <= arena_bytes h -> size mod 8 = 0 -> 0 <= size / 8 < 2 ^ s /\ 8 * (size / 8) = size.
Proof.
  intros Hg Hh Hs Hm. pose proof (g_fmt _ Hg) as Hf. rewrite Hh in Hf.
  assert (size / 8 <= arena_bytes h / 8) by (apply Z.div_le_mono; lia).
  split; [split; [apply Z.div_pos|]; lia|Z.to_euclidean_division_equations; lia].
Qed.

Lemma get_field_small x sh n : 0 <= x < 2 ^ sh -> 0 <= sh -> get_field x sh n = 0.
Proof.
  intros. unfold get_field. rewrite Z.shiftr_div_pow2, Z.div_small by lia. apply Z.land_0_l.
Qed.

Lemma b2z_bound a : 0 <= Z.b2z a < 2.
Proof. destruct a; simpl; lia. Qed.

Lemma write_block_header_spec h b size prev a :
  geom h -> bo h b -> 16 <= size <= arena_bytes h -> size mod 8 = 0 -> link_ok h prev ->
  exists h', write_block_header b size prev a h = (Ok tt, h') /\ touch (rng b 0 8) h h' /\
    vsize h' b = size /\ vflags h' b = Z.b2z a /\ vprev h' b = prev.
Proof.
  intros Hg Hb Hs Hm Hp. pose proof Hb as (? & ? & ?). pose proof (g_fmt _ Hg) as Hf.
  pose proof (g_size _ Hg) as Hsz. rewrite Value.MAX_PAYLOAD_eq in Hsz.
  pose proof (b2z_bound a) as Ha. unfold write_block_header.
  destruct (header_format h) as [|s l] eqn:Hh.
  - assert (Hdec : Z.lor size (Z.b2z a) = set_field (Z.b2z a) 3 29 (size / 8)).
    { rewrite <- (lor_set_field (Z.b2z a) 3 29).
      - rewrite Z.lor_comm, Z.shiftl_mul_pow2 by lia. f_equal.
        change (2 ^ 3) with 8. Z.to_euclidean_division_equations. lia.
      - lia.
      - lia.
      - split; [apply Z.div_pos; lia|apply Z.div_lt_upper_bound; lia].
      - apply get_field_small; lia. }
    assert (Hu : 0 <= size / 8 < 2 ^ 29)
      by (split; [apply Z.div_pos; lia|apply Z.div_lt_upper_bound; lia]).
    pose proof (set_field_bound 32 (Z.b2z a) 3 29 (size / 8)) as Hbd.
    destruct (write_word_spec h b 0 (Z.lor size (Z.b2z a))) as (h1 & Hr1 & Ht1 & Hw1);
      [done|done|lia|rewrite Hdec; unfold u32_max; lia|].
    pose proof (touch_bo _ _ _ b Ht1 Hb) as Hb1.
    destruct (write_word_spec h1 b 4 prev) as (h2 & Hr2 & Ht2 & Hw2);
      [apply Ht1|done|lia|unfold link_ok, u32_max in *; lia|].
    exists h2. unfold mbind, ST_bind, SIZE_FLAGS, PREVIOUS_SIZE. rewrite Hr1, Hr2.
    split; [done|]. split.
    { eapply touch_mono; [|exact (touch_trans _ _ _ _ _ Ht1 Ht2)]. simpl. unfold rng. lia. }
    assert (Hkeep : word h2 b 0 = word h1 b 0)
      by (eapply touch_word; [apply Ht1|done|lia|intros i; apply rng_apart; lia]).
    unfold vsize, vflags, vprev, hword, sbits.
    rewrite (touch_fmt _ _ _ Ht2), (touch_fmt _ _ _ Ht1), Hh, Hkeep, Hw1, Hw2, Hdec.
    fields_tac. rewrite get_field_0, Z.mod_small by lia.
    split_and!; try done. Z.to_euclidean_division_equations. lia.
  - destruct (link_units h prev s l Hg Hh Hp) as [Hpu Hpu8].
    destruct (size_units h size s l Hg Hh Hs Hm) as [Hsu Hsu8].
    unfold is_multiple_of, BLOCK_ALIGNMENT. rewrite (proj2 Hp). simpl.
    rewrite !bit_mask_ones, !ones_ltb by lia. simpl.
    rewrite (wrap_shiftl s), (wrap_shiftl l) by lia.
    assert (Hz : get_field (Z.b2z a) 3 s = 0) by (apply get_field_small; lia).
    rewrite (lor_set_field _ 3 s) by lia.
    assert (Hz2 : get_field (set_field (Z.b2z a) 3 s (size / 8)) (3 + s) l = 0).
    { fields_tac. apply get_field_small; [|lia].
      pose proof (Z.pow_le_mono_r 2 1 (3 + s)). lia. }
    rewrite (lor_set_field _ (3 + s) l) by lia.
    destruct (write_compact_spec h b
      (set_field (set_field (Z.b2z a) 3 s (size / 8)) (3 + s) l (prev / 8))) as (h' & Hr & Ht & Hw);
      [done|done|repeat apply set_field_bound; lia|].
    exists h'. split; [done|]. split; [done|].
    unfold vsize, vflags, vprev, hword, sbits. rewrite (touch_fmt _ _ _ Ht), Hh, Hw.
    fields_tac. rewrite get_field_0, Z.mod_small by lia. done.
Qed.

Lemma null_bound : 0 <= NULL_OFFSET <= u32_max.
Proof. done. Qed.

Lemma write_header_spec h b size prev a :
  geom h -> bo h b -> size_ok size = true -> size <= arena_bytes h -> link_ok h prev ->
  exists h', write_header b size prev a h = (Ok tt, h') /\ touch (rng b 0 16) h h' /\
    vsize h' b = size /\ vflags h' b = Z.b2z a /\ vprev h' b = prev /\
    vnext h' b = NULL_OFFSET /\ vpf h' b = NULL_OFFSET.
Proof.
  intros Hg Hb Hs Hle Hp. pose proof Hb as (? & ? & ?). unfold write_header. rewrite Hs. simpl.
  apply size_ok_true in Hs as [Hs Hm].
  destruct (write_block_header_spec h b size prev a) as (h1 & Hr1 & Ht1 & Hsz & Hfl & Hpr); try done.
  rewrite (st_bind_ok _ _ _ _ _ Hr1).
  destruct (write_next_spec h1 b NULL_OFFSET) as (h2 & Hr2 & Ht2 & Hn2 & _ & Hh2);
    [apply Ht1|by eapply touch_bo|apply null_bound|].
  rewrite (st_bind_ok _ _ _ _ _ Hr2).
  destruct (write_pf_spec h2 b NULL_OFFSET) as (h3 & Hr3 & Ht3 & Hp3 & Hn3 & Hh3);
    [apply Ht2|eapply touch_bo; [done|]; by eapply touch_bo|apply null_bound|].
  exists h3. split; [done|]. split.
  { eapply touch_mono; [|exact (touch_trans _ _ _ _ _ (touch_trans _ _ _ _ _ Ht1 Ht2) Ht3)].
    simpl. unfold rng. lia. }
  destruct Hh2 as (? & ? & ?), Hh3 as (? & ? & ?). split_and!; congruence.
Qed.

(** The largest type id the header format can record. *)
Definition type_ok (h : Heap) (ty : Z) : Prop :=
  0 <= ty <= u32_max /\
  match header_format h with Legacy => True | Compact s l => ty < 2 ^ (64 - (3 + s + l)) end.

Lemma write_type_spec h b ty :
  geom h -> bo h b -> type_ok h ty ->
  exists h', write_type b ty h = (Ok tt, h') /\ touch (rng b 0 (header_bytes (header_format h))) h h' /\
    vtype h' b = ty /\ same_header h h' b.
Proof.
  intros Hg Hb [Ht Hc]. pose proof Hb as (? & ? & ?). pose proof (g_fmt _ Hg) as Hf.
  unfold write_type. destruct (header_format h) as [|s l] eqn:Hh.
  - destruct (write_next_spec h b ty) as (h' & Hr & Htc & Hn & _ & Hs); [done|done|done|].
    exists h'. split; [done|].
    split; [eapply touch_mono; [|done]; unfold rng, header_bytes, LEGACY_HEAP_HEADER_BYTES; lia|].
    split; [|done]. unfold vtype. rewrite (touch_fmt _ _ _ Htc), Hh. exact Hn.
  - set (sh := 3 + s + l) in *. rewrite bit_mask_ones, ones_ltb by lia.
    unfold mbind, ST_bind, st_read. rewrite read_compact_view by done.
    rewrite wrap_mask, (wrap_shiftl (64 - sh)) by lia.
    fold (set_field (dword h b) sh (64 - sh) ty).
    pose proof (dword_bound h b Hg ltac:(lia) ltac:(lia)).
    destruct (write_compact_spec h b (set_field (dword h b) sh (64 - sh) ty)) as (h' & Hr & Htc & Hw);
      [done|done|apply set_field_bound; lia|].
    exists h'. split; [done|]. split; [done|].
    unfold vtype, same_header, vsize, vflags, vprev, hword, sbits.
    rewrite (touch_fmt _ _ _ Htc), Hh, Hw. subst sh. fields_tac. done.
Qed.

End HeapView.

(** Size classes and bitmap search of src/execution/heap.rs: the two-level
    class of a block size, why every block of a class at or above the rounded-up
    request class fits, and the lowest-bit search. *)

Module HeapClass.
Import Errors Layout Heap HeapView.

(** Width of the second-level buckets below [2 ^ (f + 1)]. *)
Definition bucket_width (f : Z) : Z := Z.max (2 ^ (f - 3)) 8.

Definition class_of (size : Z) : SizeClass :=
  mkSizeClass (Z.log2 size) ((size - 2 ^ Z.log2 size) / bucket_width (Z.log2 size)).

(** The smallest size of a class. *)
Definition class_lower (c : SizeClass) : Z := 2 ^ first c + second c * bucket_width (first c).

Definition class_ok (c : SizeClass) : Prop := 4 <= first c <= 31 /\ 0 <= second c < 8.

Lemma bucket_width_pos f : 0 < bucket_width f.
Proof. unfold bucket_width. lia. Qed.

Lemma log2_range size : 16 <= size <= u32_max ->
  4 <= Z.log2 size <= 31 /\ 2 ^ Z.log2 size <= size < 2 * 2 ^ Z.log2 size.
Proof.
  intros [Hlo Hhi]. pose proof (Z.log2_spec size ltac:(lia)) as Hs.
  rewrite Z.pow_succ_r in Hs by apply Z.log2_nonneg. split; [|lia].
  split; [apply (Z.log2_le_mono 16); lia|].
  apply Z.lt_succ_r. change (Z.succ 31) with 32. apply Z.log2_lt_pow2; unfold u32_max in *; lia.
Qed.

Lemma pow_split f : 3 <= f -> 2 ^ f = 8 * 2 ^ (f - 3).
Proof. intros. replace f with (3 + (f - 3)) at 1 by lia. rewrite Z.pow_add_r by lia. done. Qed.

Lemma class_of_ok size : 16 <= size <= u32_max ->
  class_ok (class_of size) /\
  class_lower (class_of size) <= size < class_lower (class_of size) + bucket_width (Z.log2 size).
Proof.
  intros Hs. destruct (log2_range size Hs) as [Hf Hb].
  unfold class_ok, class_lower, class_of. simpl. set (f := Z.log2 size) in *.
  pose proof (bucket_width_pos f) as Hw. pose proof (pow_split f ltac:(lia)) as Hp.
  pose proof (Z.div_mod (size - 2 ^ f) (bucket_width f) ltac:(lia)) as Hd.
  pose proof (Z.mod_pos_bound (size - 2 ^ f) (bucket_width f) Hw) as Hm.
  split; [|lia]. split; [lia|]. split; [apply Z.div_pos; lia|].
  apply Z.div_lt_upper_bound; [lia|]. unfold bucket_width. lia.
Qed.

Lemma checked_shl_pow n : 0 <= n < 32 -> checked_shl_u32 n = Some (2 ^ n).
Proof.
  intros. unfold checked_shl_u32. rewrite (proj2 (Z.ltb_lt _ _)) by lia.
  rewrite Z.shiftl_1_l. unfold wrap_unsigned. rewrite Z.mod_small; [done|].
  split; [lia|]. apply Z.pow_lt_mono_r; lia.
Qed.

Lemma downward_class_eq size : size_ok size = true -> size <= u32_max ->
  downward_class size =
  Some (first (class_of size), second (class_of size), class_lower (class_of size)).
Proof.
  intros Hok Hmax. pose proof (proj1 (size_ok_true _) Hok) as [Hlo Hmod].
  destruct (class_of_ok size ltac:(lia)) as [[Hf Hs] Hl].
  unfold downward_class. rewrite Hok. bind_simp.
  replace (31 - leading_zeros 32 size) with (Z.log2 size)
    by (pose proof (leading_zeros_pos 32 size); lia).
  unfold class_lower, class_of in *. simpl in *. set (f := Z.log2 size) in *.
  rewrite (checked_shl_pow f) by lia. bind_simp.
  rewrite (proj2 (Z.leb_le _ _)), (checked_shl_pow (f - 3)) by lia. bind_simp.
  change (Z.max (2 ^ (f - 3)) BLOCK_ALIGNMENT) with (bucket_width f).
  set (s := (size - 2 ^ f) / bucket_width f) in *.
  pose proof (bucket_width_pos f).
  unfold try_from_unsigned, in_range, u8_max.
  rewrite !(proj2 (Z.leb_le _ _)) by lia. cbn [andb]. bind_simp.
  unfold checked_mul, checked_add. pose proof (Z.pow_nonneg 2 f).
  rewrite (proj2 (Z.leb_le (s * bucket_width f) _)) by lia. bind_simp.
  rewrite (proj2 (Z.leb_le (2 ^ f + s * bucket_width f) _)) by lia. bind_simp.
  by rewrite (proj2 (Z.ltb_lt _ _)) by lia.
Qed.

Lemma free_size_class_eq size : size_ok size = true -> size <= u32_max ->
  free_size_class size = Some (class_of size).
Proof.
  intros. unfold free_size_class. rewrite downward_class_eq by done. done.
Qed.

Lemma class_index_bound c : class_ok c -> 32 <= class_index c < 256.
Proof. unfold class_ok, class_index. lia. Qed.

Lemma class_index_inj c c' : class_ok c -> class_ok c' -> class_index c = class_index c' -> c = c'.
Proof.
  unfold class_ok, class_index. destruct c, c'; simpl. intros. f_equal; lia.
Qed.

(** Sizes below 64 and multiples of eight are always the bottom of their bucket. *)
Lemma lower_exact_small size : 16 <= size <= u32_max -> size mod 8 = 0 -> Z.log2 size <= 6 ->
  class_lower (class_of size) = size.
Proof.
  intros Hs Hm Hf. destruct (class_of_ok size Hs) as [[Hf' Hs'] Hl].
  unfold class_lower, class_of in *. simpl in *. set (f := Z.log2 size) in *.
  assert (Hw : bucket_width f = 8).
  { unfold bucket_width. pose proof (Z.pow_le_mono_r 2 (f - 3) 3). lia. }
  rewrite Hw in *. pose proof (pow_split f ltac:(lia)).
  Z.to_euclidean_division_equations. lia.
Qed.

(** The rounded-up class: its smallest size holds the request. *)
Lemma request_class_lower size c :
  size_ok size = true -> size <= u32_max -> request_size_class size = Some c ->
  0 <= first c < 32 /\ 0 <= second c < 8 /\ size <= class_lower c /\
  (class_of size = c \/ class_index c = class_index (class_of size) + 1).
Proof.
  intros Hok Hmax. pose proof (proj1 (size_ok_true _) Hok) as [Hlo Hmod].
  destruct (class_of_ok size ltac:(lia)) as [[Hf Hs] Hl].
  unfold request_size_class. rewrite downward_class_eq by done. bind_simp.
  destruct (Z.eqb_spec size (class_lower (class_of size))) as [Heq|Hne]; bind_simp.
  - destruct (Z.ltb_spec (first (class_of size)) 32); [|done]. intros [= <-].
    change (mkSizeClass (Z.log2 size) _) with (class_of size).
    split_and!; [lia|lia|lia|lia|lia|by left].
  - assert (H6 : 6 < first (class_of size)).
    { destruct (Z.lt_ge_cases 6 (first (class_of size))); [done|].
      destruct Hne. rewrite lower_exact_small; [done|lia|done|done]. }
    change (Z.log2 size) with (first (class_of size)) in Hl.
    unfold class_lower in *.
    set (f := first (class_of size)) in *. set (s := second (class_of size)) in *.
    assert (Hw : bucket_width f = 2 ^ (f - 3)).
    { unfold bucket_width. pose proof (Z.pow_le_mono_r 2 3 (f - 3)). lia. }
    pose proof (pow_split f ltac:(lia)) as Hp.
    destruct (Z.eqb_spec (s + 1) 8).
    + unfold checked_add, u8_max. rewrite (proj2 (Z.leb_le _ _)) by lia. simpl.
      destruct (Z.ltb_spec (f + 1) 32); [|done]. intros [= <-]. simpl.
      replace (f + 1) with (Z.succ f) by lia. rewrite Z.pow_succ_r by lia.
      rewrite ?Hw in *. split_and!; try nia. right. unfold class_index, f, s in *. simpl. unfold class_of in *. simpl in *. lia.
    + simpl. destruct (Z.ltb_spec f 32); [|done]. intros [= <-]. simpl.
      rewrite ?Hw in *. split_and!; try nia. right. unfold class_index, f, s in *. simpl. unfold class_of in *. simpl in *. lia.
Qed.

(** Every block in a class at or above the request class is large enough. *)
Lemma class_fits size c size' :
  size_ok size = true -> size <= u32_max -> request_size_class size = Some c ->
  16 <= size' <= u32_max -> class_index c <= class_index (class_of size') -> size <= size'.
Proof.
  intros Hok Hmax Hreq Hs' Hidx.
  destruct (request_class_lower size c Hok Hmax Hreq) as (Hf & Hs & Hle & Hcase).
  pose proof (proj1 (size_ok_true _) Hok) as [Hlo Hmod].
  destruct (class_of_ok size ltac:(lia)) as [Hcok Hcl].
  destruct (class_of_ok size' Hs') as [Hc' Hl'].
  destruct Hcase as [Heq|Hnext].
  - (* the request is the bottom of its own bucket *)
    destruct (Z.lt_ge_cases size' size) as [Hlt|]; [exfalso|done].
    pose proof (Z.log2_le_mono size' size ltac:(lia)) as Hmono.
    unfold class_index, class_ok, class_lower in *. subst c.
    unfold class_of in *. simpl in *.
    set (f := Z.log2 size) in *. set (f' := Z.log2 size') in *.
    assert (f' = f) as Hff by lia. rewrite Hff in *.
    pose proof (bucket_width_pos f). nia.
  - (* strictly above the class of the request *)
    destruct (Z.lt_ge_cases size' size) as [Hlt|]; [exfalso|done].
    pose proof (Z.log2_le_mono size' size ltac:(lia)) as Hmono.
    unfold class_index, class_ok, class_lower in *.
    unfold class_of in *. simpl in *.
    set (f := Z.log2 size) in *. set (f' := Z.log2 size') in *.
    assert (f' = f) as Hff by lia. rewrite Hff in *.
    pose proof (bucket_width_pos f).
    assert ((size' - 2 ^ f) / bucket_width f <= (size - 2 ^ f) / bucket_width f)
      by (apply Z.div_le_mono; lia).
    lia.
Qed.

(** Conversely a block of at least nine eighths of the request is in a class
    the bitmap search reaches. *)
Lemma class_reached size c size' :
  size_ok size = true -> size <= u32_max -> request_size_class size = Some c ->
  size_ok size' = true -> size' <= u32_max -> 9 * size <= 8 * size' ->
  class_index c <= class_index (class_of size').
Proof.
  intros Hok Hmax Hreq Hok' Hmax' Hle.
  destruct (request_class_lower size c Hok Hmax Hreq) as (_ & _ & _ & Hcase).
  pose proof (proj1 (size_ok_true _) Hok) as [Hlo Hmod]. pose proof (proj1 (size_ok_true _) Hok') as [Hlo' Hmod'].
  destruct (class_of_ok size ltac:(lia)) as [[Hf Hs] _]. destruct (class_of_ok size' ltac:(lia)) as [[Hf' Hs'] _].
  destruct (log2_range size ltac:(lia)) as [_ Hb]. pose proof (Z.log2_le_mono size size' ltac:(lia)) as Hmono.
  assert (class_index (class_of size) + 1 <= class_index (class_of size')).
  { unfold class_index, class_of in *. simpl in *. set (f := Z.log2 size) in *. set (f' := Z.log2 size') in *.
    destruct (Z.eq_dec f' f) as [E|]; [|lia]. rewrite E in *. pose proof (pow_split f ltac:(lia)).
    assert ((size - 2 ^ f) / bucket_width f + 1 <= (size' - 2 ^ f) / bucket_width f); [|lia].
    pose proof (bucket_width_pos f). rewrite <- Z.div_add by lia. apply Z.div_le_mono; [done|].
    assert (size + bucket_width f <= size'); [|lia]. unfold bucket_width.
    destruct (Z.max_spec (2 ^ (f - 3)) 8) as [[_ ->]|[_ ->]]; [|lia].
    Z.to_euclidean_division_equations. lia. }
  destruct Hcase as [<-|Hn]; lia.
Qed.

(** ** Lowest set bit *)

Lemma trailing_zeros_from_spec n i z :
  0 <= i -> (exists j, i <= j < i + Z.of_nat n /\ Z.testbit z j = true) ->
  let t := trailing_zeros_from n i z in
  i <= t < i + Z.of_nat n /\ Z.testbit z t = true /\
  forall j, i <= j < t -> Z.testbit z j = false.
Proof.
  revert i. induction n as [|n IH]; intros i Hi (j & Hj & Hb); [lia|]. simpl.
  destruct (Z.testbit z i) eqn:E; [split_and!; try done; lia|].
  destruct (IH (i + 1)) as (? & ? & Hlow); [lia|exists j|].
  { split; [|done]. destruct (decide (j = i)); [congruence|lia]. }
  split_and!; [lia|lia|done|]. intros k Hk.
  destruct (decide (k = i)) as [->|]; [done|]. apply Hlow. lia.
Qed.

Lemma trailing_zeros_spec w z :
  0 <= z < 2 ^ Z.of_nat w -> z <> 0 ->
  0 <= trailing_zeros w z < Z.of_nat w /\ Z.testbit z (trailing_zeros w z) = true /\
  forall j, 0 <= j < trailing_zeros w z -> Z.testbit z j = false.
Proof.
  intros Hz Hn. apply trailing_zeros_from_spec; [lia|]. exists (Z.log2 z).
  pose proof (Z.log2_nonneg z). split; [|apply Z.bit_log2; lia].
  assert (Z.log2 z < Z.of_nat w) by (apply Z.log2_lt_pow2; lia). lia.
Qed.

Lemma nonzero_bit z : 0 <= z -> z <> 0 <-> exists j, 0 <= j /\ Z.testbit z j = true.
Proof.
  intros Hz. split.
  - intros Hn. exists (Z.log2 z). split; [apply Z.log2_nonneg|apply Z.bit_log2; lia].
  - intros (j & _ & Hb) ->. by rewrite Z.bits_0 in Hb.
Qed.

Lemma testbit_one_shift c i : 0 <= c -> 0 <= i -> Z.testbit (Z.shiftl 1 c) i = (i =? c).
Proof.
  intros. rewrite Z.shiftl_1_l, Z.pow2_bits_eqb by lia. apply Z.eqb_sym.
Qed.

End HeapClass.

Module HeapLists.
Import Errors Layout Heap HeapView HeapClass.

(** ** Frames: what an operation leaves alone *)

(** Like [touch], but the free-list roots may change too. *)
Record frame (P : Z -> Prop) (h h' : Heap) : Prop := {
  f_fmt : header_format h' = header_format h;
  f_size : arena_bytes h' = arena_bytes h;
  f_total : total_free h' = total_free h;
  f_live : live_objects h' = live_objects h;
  f_geom : geom h';
  f_bytes : forall i : nat, ~ P (Z.of_nat i) -> arena h' !! i = arena h !! i }.

Lemma touch_frame P h h' : touch P h h' -> frame P h h'.
Proof.
  intros H. constructor;
    eauto using touch_fmt, touch_size, touch_total, touch_live, t_geom, t_bytes.
Qed.

Lemma frame_refl P h : geom h -> frame P h h.
Proof. intros. by apply touch_frame, touch_refl. Qed.

Lemma frame_mono (P Q : Z -> Prop) h h' : (forall i, P i -> Q i) -> frame P h h' -> frame Q h h'.
Proof. intros HPQ []. constructor; auto. Qed.

Lemma frame_trans P h h1 h2 : frame P h h1 -> frame P h1 h2 -> frame P h h2.
Proof.
  intros [? ? ? ? _ Hb1] [? ? ? ? ? Hb2]. constructor; try congruence; try done.
  intros i Hi. by rewrite Hb2, Hb1.
Qed.

Lemma frame_touch P h h' : frame P h h' -> touch P h (set_arena (arena h') h).
Proof.
  intros [Hf Hs _ _ [] Hb]. constructor; [by destruct h| |done].
  constructor; simpl; rewrite <- ?Hs, <- ?Hf; done.
Qed.

Lemma geom_ext h h' :
  arena h' = arena h -> arena_bytes h' = arena_bytes h -> header_format h' = header_format h ->
  geom h -> geom h'.
Proof. intros Ha Hb Hf []. constructor; rewrite ?Ha, ?Hb, ?Hf; done. Qed.

Lemma frame_header P h h' b : geom h -> frame P h h' -> 0 <= b ->
  (forall i, rng b 0 8 i -> ~ P i) -> same_header h h' b.
Proof.
  intros Hg Hf Hb HP. pose proof (touch_header P h _ b Hg (frame_touch _ _ _ Hf) Hb HP) as H.
  unfold same_header, vsize, vflags, vprev, hword, sbits, word, dword in *. simpl in *.
  by rewrite (f_fmt _ _ _ Hf).
Qed.

Lemma frame_links P h h' b : geom h -> frame P h h' -> 0 <= b ->
  (forall i, rng b 8 16 i -> ~ P i) -> same_links h h' b.
Proof.
  intros Hg Hf Hb HP. exact (touch_links P h _ b Hg (frame_touch _ _ _ Hf) Hb HP).
Qed.

Lemma frame_type P h h' b : geom h -> frame P h h' -> 0 <= b ->
  (forall i, rng b 0 12 i -> ~ P i) -> vtype h' b = vtype h b.
Proof.
  intros Hg Hf Hb HP. pose proof (touch_type P h _ b Hg (frame_touch _ _ _ Hf) Hb HP) as H.
  unfold vtype, word, dword in *. simpl in *. by rewrite (f_fmt _ _ _ Hf).
Qed.

Lemma frame_slice P h h' start len : geom h -> frame P h h' -> 0 <= start ->
  (forall i, start <= i < start + len -> ~ P i) ->
  slice start len (arena h') = slice start len (arena h).
Proof. intros Hg Hf Hs HP. exact (touch_slice P h _ start len Hg (frame_touch _ _ _ Hf) Hs HP). Qed.

Lemma frame_bo P h h' b : frame P h h' -> bo h b -> bo h' b.
Proof. intros Hf (? & ? & ?). unfold bo. by rewrite (f_size _ _ _ Hf). Qed.

(** ** Doubly linked segments *)

Definition head_or (d : Z) (l : list Z) : Z := match l with [] => d | b :: _ => b end.
Definition last_or (d : Z) (l : list Z) : Z := default d (last l).

(** Blocks [l] are chained forwards to [n] and backwards to [p]. *)
Fixpoint dseg (h : Heap) (p : Z) (l : list Z) (n : Z) : Prop :=
  match l with
  | [] => True
  | b :: l' => vpf h b = p /\ vnext h b = head_or n l' /\ dseg h b l' n
  end.

Lemma last_or_cons d b l : last_or d (b :: l) = last_or b l.
Proof. destruct l; [done|]. unfold last_or. rewrite last_cons_cons. by destruct (last (z :: l)) eqn:E;
  [|apply last_None in E]. Qed.

Lemma dseg_app h p l1 l2 n :
  dseg h p (l1 ++ l2) n <-> dseg h p l1 (head_or n l2) /\ dseg h (last_or p l1) l2 n.
Proof.
  revert p. induction l1 as [|b l1 IH]; intros p; simpl; [naive_solver|].
  rewrite IH, last_or_cons. by destruct l1; simpl; naive_solver.
Qed.

Lemma dseg_ext h h' p l n :
  (forall b, b ∈ l -> same_links h h' b) -> dseg h p l n -> dseg h' p l n.
Proof.
  revert p. induction l as [|b l IH]; intros p Hl; simpl; [done|].
  destruct (Hl b) as [-> ->]; [left|]. intros (? & ? & ?). split_and!; try done.
  apply IH; [|done]. intros c Hc. apply Hl. by right.
Qed.

(** Redirecting the last forward link, or the first backward link. *)
Lemma dseg_set_last h h' p l a n n' :
  (forall b, b ∈ l -> same_links h h' b) -> vpf h' a = vpf h a -> vnext h' a = n' ->
  dseg h p (l ++ [a]) n -> dseg h' p (l ++ [a]) n'.
Proof.
  intros Hl Hp Hn. rewrite !dseg_app. simpl. intros (H1 & H2 & _).
  split_and!; [by eapply dseg_ext|congruence|done|done].
Qed.

Lemma dseg_set_first h h' p p' c l n :
  (forall b, b ∈ l -> same_links h h' b) -> vnext h' c = vnext h c -> vpf h' c = p' ->
  dseg h p (c :: l) n -> dseg h' p' (c :: l) n.
Proof.
  intros Hl Hp Hn. simpl. intros (H1 & H2 & H3).
  split_and!; [done|congruence|by eapply dseg_ext].
Qed.

(** ** Both bitmap levels against the lists *)

Record bitmaps_ok (fb : Z) (sb : list Z) (L : list (list Z)) : Prop := {
  m_len : length sb = 32%nat;
  m_second : Forall (fun z => 0 <= z < 256) sb;
  m_bits : forall f s z l, 0 <= f < 32 -> 0 <= s < 8 -> zget sb f = Some z ->
    L !! Z.to_nat (f * 8 + s) = Some l -> Z.testbit z s = true <-> l <> [];
  m_first : 0 <= fb < 2 ^ 32;
  m_fbits : forall f z, 0 <= f < 32 -> zget sb f = Some z -> Z.testbit fb f = true <-> z <> 0 }.

Definition class_fits_maps (c : SizeClass) : Prop := 0 <= first c < 32 /\ 0 <= second c < 8.

Lemma lor_bit_bound z c w : 0 <= c < w -> 0 <= z < 2 ^ w -> 0 <= Z.lor z (Z.shiftl 1 c) < 2 ^ w.
Proof.
  intros Hc Hz. assert (0 <= Z.shiftl 1 c) by (rewrite Z.shiftl_1_l; lia).
  assert (0 <= Z.lor z (Z.shiftl 1 c)) by (apply Z.lor_nonneg; lia).
  split; [done|]. apply bits_bound; [lia|done|]. intros i Hi.
  rewrite Z.lor_spec, testbit_one_shift, (testbit_small w) by lia.
  rewrite (proj2 (Z.eqb_neq i c)) by lia. done.
Qed.

Lemma ldiff_bit_bound z c w : 0 <= c < w -> 0 <= z < 2 ^ w -> 0 <= Z.ldiff z (Z.shiftl 1 c) < 2 ^ w.
Proof.
  intros Hc Hz. assert (0 <= Z.ldiff z (Z.shiftl 1 c)) by (apply Z.ldiff_nonneg; lia).
  split; [done|]. apply bits_bound; [lia|done|]. intros i Hi.
  by rewrite Z.ldiff_spec, (testbit_small w) by lia.
Qed.

Lemma bitmaps_same fb sb L i l l' :
  bitmaps_ok fb sb L -> L !! i = Some l -> (l = [] <-> l' = []) -> bitmaps_ok fb sb (<[i := l']> L).
Proof.
  intros [Hl H2 Hb H1 Hf] Hi Hll. constructor; try done.
  intros f s z k ? ? Hz Hk. destruct (decide (i = Z.to_nat (f * 8 + s))) as [->|Hne].
  - rewrite list_lookup_insert_eq in Hk by (by eapply lookup_lt_Some). injection Hk as <-.
    rewrite (Hb f s z l) by done. tauto.
  - rewrite list_lookup_insert_ne in Hk by done. by apply (Hb f).
Qed.

(** A change of one bit of one second-level bitmap, and of one first-level bit. *)
Lemma bitmaps_update fb sb L c z fb' z' l' :
  bitmaps_ok fb sb L -> class_fits_maps c -> zget sb (first c) = Some z ->
  0 <= z' < 256 -> 0 <= fb' < 2 ^ 32 -> length L = 256%nat ->
  (forall s, 0 <= s < 8 -> s <> second c -> Z.testbit z' s = Z.testbit z s) ->
  (Z.testbit z' (second c) = true <-> l' <> []) ->
  (forall f, 0 <= f < 32 -> f <> first c -> Z.testbit fb' f = Z.testbit fb f) ->
  (Z.testbit fb' (first c) = true <-> z' <> 0) ->
  bitmaps_ok fb' (zset (first c) z' sb) (<[Z.to_nat (class_index c) := l']> L).
Proof.
  intros [Hl H2 Hb H1 Hf] [Hc1 Hc2] Hz Hz' Hfb' HL Hs1 Hs2 Hf1 Hf2. unfold class_index.
  constructor; try done; [by unfold zset; rewrite length_insert|by apply zset_Forall| |].
  - intros f s y k Hfr Hsr Hy Hk. destruct (decide (f = first c)) as [->|Hne].
    + rewrite (zget_zset_eq _ _ _ _ Hz) in Hy. injection Hy as <-.
      destruct (decide (s = second c)) as [->|Hns].
      * rewrite list_lookup_insert_eq in Hk by (rewrite HL; lia). by injection Hk as <-.
      * rewrite list_lookup_insert_ne in Hk by lia. rewrite Hs1 by done. by apply (Hb (first c)).
    + rewrite zget_zset_ne in Hy by lia. rewrite list_lookup_insert_ne in Hk by lia.
      by apply (Hb f).
  - intros f y Hfr Hy. destruct (decide (f = first c)) as [->|Hne].
    + rewrite (zget_zset_eq _ _ _ _ Hz) in Hy. by injection Hy as <-.
    + rewrite zget_zset_ne in Hy by lia. rewrite Hf1 by done. by apply Hf.
Qed.

Lemma lor_bit_other z c i : 0 <= c -> 0 <= i -> i <> c ->
  Z.testbit (Z.lor z (Z.shiftl 1 c)) i = Z.testbit z i.
Proof.
  intros. rewrite Z.lor_spec, testbit_one_shift by lia.
  rewrite (proj2 (Z.eqb_neq i c)) by done. apply orb_false_r.
Qed.
Lemma lor_bit_self z c : 0 <= c -> Z.testbit (Z.lor z (Z.shiftl 1 c)) c = true.
Proof. intros. rewrite Z.lor_spec, testbit_one_shift, Z.eqb_refl by lia. apply orb_true_r. Qed.
Lemma ldiff_bit_other z c i : 0 <= c -> 0 <= i -> i <> c ->
  Z.testbit (Z.ldiff z (Z.shiftl 1 c)) i = Z.testbit z i.
Proof.
  intros. rewrite Z.ldiff_spec, testbit_one_shift by lia.
  rewrite (proj2 (Z.eqb_neq i c)) by done. apply andb_true_r.
Qed.
Lemma ldiff_bit_self z c : 0 <= c -> Z.testbit (Z.ldiff z (Z.shiftl 1 c)) c = false.
Proof. intros. rewrite Z.ldiff_spec, testbit_one_shift, Z.eqb_refl by lia. apply andb_false_r. Qed.

Lemma bitmaps_mark fb sb L c z l' :
  bitmaps_ok fb sb L -> class_fits_maps c -> zget sb (first c) = Some z ->
  length L = 256%nat -> l' <> [] ->
  bitmaps_ok (Z.lor fb (Z.shiftl 1 (first c)))
    (zset (first c) (Z.lor z (Z.shiftl 1 (second c))) sb) (<[Z.to_nat (class_index c) := l']> L).
Proof.
  intros Hm [Hc1 Hc2] Hz HL Hl'.
  assert (Hzb : 0 <= z < 2 ^ 8) by exact (Forall_lookup_1 _ _ _ _ (m_second _ _ _ Hm) Hz).
  eapply (bitmaps_update fb sb L c z); try done.
  - apply (lor_bit_bound z (second c) 8); [lia|done].
  - apply lor_bit_bound; [lia|apply Hm].
  - intros. apply lor_bit_other; lia.
  - rewrite lor_bit_self by lia. tauto.
  - intros. apply lor_bit_other; lia.
  - rewrite lor_bit_self by lia. split; [intros _ H0|done].
    pose proof (lor_bit_self z (second c) ltac:(lia)) as Hb. rewrite H0, Z.bits_0 in Hb. done.
Qed.

Lemma bitmaps_clear fb sb L c z :
  bitmaps_ok fb sb L -> class_fits_maps c -> zget sb (first c) = Some z -> length L = 256%nat ->
  bitmaps_ok
    (if Z.ldiff z (Z.shiftl 1 (second c)) =? 0 then Z.ldiff fb (Z.shiftl 1 (first c)) else fb)
    (zset (first c) (Z.ldiff z (Z.shiftl 1 (second c))) sb) (<[Z.to_nat (class_index c) := []]> L).
Proof.
  intros Hm [Hc1 Hc2] Hz HL.
  assert (Hzb : 0 <= z < 2 ^ 8) by exact (Forall_lookup_1 _ _ _ _ (m_second _ _ _ Hm) Hz).
  pose proof (m_fbits _ _ _ Hm (first c) z Hc1 Hz) as Hfb.
  eapply (bitmaps_update fb sb L c z); try done.
  - apply (ldiff_bit_bound z (second c) 8); [lia|done].
  - destruct (_ =? 0); [apply ldiff_bit_bound; [lia|apply Hm]|apply Hm].
  - intros. apply ldiff_bit_other; lia.
  - rewrite ldiff_bit_self by lia. naive_solver.
  - intros f ? ?. destruct (_ =? 0); [apply ldiff_bit_other; lia|done].
  - destruct (Z.eqb_spec (Z.ldiff z (Z.shiftl 1 (second c))) 0) as [E|E].
    + rewrite ldiff_bit_self by lia. naive_solver.
    + split; [done|]. intros _. apply Hfb. intros ->. by rewrite Z.ldiff_0_l in E.
Qed.

(** ** The class lists as an index of the free blocks *)

Record index_ok (FS : gmap Z Z) (L : list (list Z)) : Prop := {
  x_len : length L = 256%nat;
  x_nodup : forall i l, L !! i = Some l -> NoDup l;
  x_mem : forall i l b, L !! i = Some l -> b ∈ l ->
    exists size, FS !! b = Some size /\ class_index (class_of size) = Z.of_nat i;
  x_all : forall b size, FS !! b = Some size ->
    exists l, L !! Z.to_nat (class_index (class_of size)) = Some l /\ b ∈ l }.

Lemma index_remove FS L b size l1 l2 :
  index_ok FS L -> FS !! b = Some size ->
  L !! Z.to_nat (class_index (class_of size)) = Some (l1 ++ b :: l2) ->
  index_ok (delete b FS) (<[Z.to_nat (class_index (class_of size)) := l1 ++ l2]> L).
Proof.
  intros [Hlen Hnd Hmem Hall] Hb Hl. set (n := Z.to_nat _) in *.
  assert (Hlt : (n < length L)%nat) by (by eapply lookup_lt_Some).
  pose proof (Hnd _ _ Hl) as Hnd'. apply NoDup_app in Hnd' as (Hn1 & Hdis & Hn2).
  apply NoDup_cons in Hn2 as [Hb2 Hn2].
  assert (Hnb : b ∉ l1 ++ l2).
  { rewrite elem_of_app. intros [?|?]; [|done]. by apply (Hdis b); [|left]. }
  constructor; [by rewrite length_insert| | |].
  - intros i l Hi. destruct (decide (i = n)) as [->|Hne].
    + rewrite list_lookup_insert_eq in Hi by done. injection Hi as <-.
      apply NoDup_app. split_and!; try done. intros x ? ?. by apply (Hdis x); [|right].
    + rewrite list_lookup_insert_ne in Hi by done. by eapply Hnd.
  - intros i l c Hi Hc. destruct (decide (i = n)) as [->|Hne].
    + rewrite list_lookup_insert_eq in Hi by done. injection Hi as <-.
      rewrite lookup_delete_ne by (intros ->; done). eapply Hmem; [exact Hl|].
      rewrite elem_of_app in *. rewrite elem_of_cons. tauto.
    + rewrite list_lookup_insert_ne in Hi by done.
      destruct (Hmem _ _ _ Hi Hc) as (s & Hs & Hcl).
      rewrite lookup_delete_ne; [by eauto|]. intros <-. rewrite Hb in Hs. injection Hs as <-.
      unfold n in Hne. rewrite Hcl, Nat2Z.id in Hne. done.
  - intros c s Hc. apply lookup_delete_Some in Hc as [Hne Hc].
    destruct (Hall _ _ Hc) as (l & Hls & Hcl).
    destruct (decide (Z.to_nat (class_index (class_of s)) = n)) as [E|E].
    + rewrite E in *. rewrite list_lookup_insert_eq by done. exists (l1 ++ l2). split; [done|].
      rewrite Hl in Hls. injection Hls as <-. rewrite elem_of_app, elem_of_cons in *. naive_solver.
    + rewrite list_lookup_insert_ne by done. eauto.
Qed.

Lemma index_insert FS L b size l :
  index_ok FS L -> FS !! b = None -> 0 <= class_index (class_of size) ->
  L !! Z.to_nat (class_index (class_of size)) = Some l ->
  index_ok (<[b := size]> FS) (<[Z.to_nat (class_index (class_of size)) := b :: l]> L).
Proof.
  intros [Hlen Hnd Hmem Hall] Hb Hpos Hl. set (n := Z.to_nat _) in *.
  assert (Hlt : (n < length L)%nat) by (by eapply lookup_lt_Some).
  constructor; [by rewrite length_insert| | |].
  - intros i k Hi. destruct (decide (i = n)) as [->|Hne].
    + rewrite list_lookup_insert_eq in Hi by done. injection Hi as <-.
      apply NoDup_cons. split; [|by eapply Hnd]. intros Hin.
      destruct (Hmem _ _ _ Hl Hin) as (? & ? & _). congruence.
    + rewrite list_lookup_insert_ne in Hi by done. by eapply Hnd.
  - intros i k c Hi Hc. destruct (decide (c = b)) as [->|Hcb].
    + rewrite lookup_insert_eq. exists size. split; [done|].
      destruct (decide (i = n)) as [->|Hne]; [unfold n; lia|].
      rewrite list_lookup_insert_ne in Hi by done.
      destruct (Hmem _ _ _ Hi Hc) as (? & ? & _). congruence.
    + rewrite lookup_insert_ne by done. destruct (decide (i = n)) as [->|Hne].
      * rewrite list_lookup_insert_eq in Hi by done. injection Hi as <-.
        apply elem_of_cons in Hc as [?|Hc]; [done|]. by eapply Hmem.
      * rewrite list_lookup_insert_ne in Hi by done. by eapply Hmem.
  - intros c s Hc. destruct (decide (c = b)) as [->|Hcb].
    + rewrite lookup_insert_eq in Hc. injection Hc as <-. exists (b :: l).
      fold n. rewrite list_lookup_insert_eq by done. split; [done|left].
    + rewrite lookup_insert_ne in Hc by done. destruct (Hall _ _ Hc) as (k & Hk & Hin).
      destruct (decide (Z.to_nat (class_index (class_of s)) = n)) as [E|E].
      * rewrite E in *. rewrite list_lookup_insert_eq by done. exists (b :: l).
        rewrite Hl in Hk. injection Hk as <-. split; [done|by right].
      * rewrite list_lookup_insert_ne by done. eauto.
Qed.

(** ** The free-list state *)

Record lists_ok (h : Heap) (FS : gmap Z Z) (L : list (list Z)) : Prop := {
  l_geom : geom h;
  l_index : index_ok FS L;
  l_heads : class_heads h = head_or NULL_OFFSET <$> L;
  l_seg : forall i l, L !! i = Some l -> dseg h NULL_OFFSET l NULL_OFFSET;
  l_blk : forall b size, FS !! b = Some size ->
    bo h b /\ vsize h b = size /\ size_ok size = true /\ b + size <= arena_bytes h;
  l_apart : forall b b', is_Some (FS !! b) -> is_Some (FS !! b') -> b <> b' ->
    b + 16 <= b' \/ b' + 16 <= b;
  l_maps : bitmaps_ok (first_bitmap h) (second_bitmaps h) L;
  l_hint : largest_free_hint h = NULL_OFFSET \/ is_Some (FS !! largest_free_hint h) }.

(** The link words of the blocks of [FS]. *)
Definition link_bytes (FS : gmap Z Z) : Z -> Prop :=
  fun i => exists b size, FS !! b = Some size /\ rng b 8 16 i.

(** The hint designates a free block of maximal size. *)
Definition hint_max (h : Heap) (FS : gmap Z Z) : Prop :=
  forall b size, FS !! b = Some size ->
    exists m, FS !! largest_free_hint h = Some m /\ size <= m.

Section Facts.
Context {h : Heap} {FS : gmap Z Z} {L : list (list Z)} (Hok : lists_ok h FS L).

Lemma blk_bounds b size : FS !! b = Some size ->
  0 <= b /\ b <> NULL_OFFSET /\ b <= u32_max /\ 16 <= size <= u32_max.
Proof.
  intros Hb. destruct (l_blk _ _ _ Hok _ _ Hb) as ((? & ? & ?) & Hv & Hs & ?).
  apply size_ok_true in Hs. pose proof (g_size _ (l_geom _ _ _ Hok)) as Hg.
  rewrite Value.MAX_PAYLOAD_eq in Hg. unfold NULL_OFFSET, u32_max. lia.
Qed.

Lemma blk_size b size : FS !! b = Some size -> block_size h b = Ok size.
Proof.
  intros Hb. destruct (l_blk _ _ _ Hok _ _ Hb) as (Hbo & Hv & Hs & ?).
  rewrite block_size_view, Hv, Hs; [done|apply Hok|done].
Qed.

Lemma blk_class b size : FS !! b = Some size ->
  class_ok (class_of size) /\ free_size_class size = Some (class_of size).
Proof.
  intros Hb. destruct (l_blk _ _ _ Hok _ _ Hb) as (Hbo & Hv & Hs & ?).
  destruct (blk_bounds _ _ Hb) as (? & ? & ? & ?).
  split; [by apply class_of_ok|apply free_size_class_eq; [done|lia]].
Qed.

Lemma list_at c : class_ok c -> exists l, L !! Z.to_nat (class_index c) = Some l /\
  zget (class_heads h) (class_index c) = Some (head_or NULL_OFFSET l).
Proof.
  intros Hc. pose proof (class_index_bound c Hc).
  destruct (lookup_lt_is_Some_2 L (Z.to_nat (class_index c))) as [l Hl].
  { rewrite (x_len _ _ (l_index _ _ _ Hok)). lia. }
  exists l. split; [done|]. unfold zget. rewrite (l_heads _ _ _ Hok), list_lookup_fmap, Hl. done.
Qed.

Lemma second_at f : 0 <= f < 32 -> exists z, zget (second_bitmaps h) f = Some z /\ 0 <= z < 256.
Proof.
  intros Hf. destruct (l_maps _ _ _ Hok) as [Hl Hall _ _ _].
  destruct (lookup_lt_is_Some_2 (second_bitmaps h) (Z.to_nat f)) as [z Hz]; [lia|].
  exists z. split; [done|]. exact (Forall_lookup_1 _ _ _ _ Hall Hz).
Qed.

End Facts.

(** ** Changing links inside the lists *)

(** Only link words of free blocks change, and only those of the blocks [S]. *)
Record relink (FS : gmap Z Z) (S : list Z) (h h' : Heap) : Prop := {
  r_frame : frame (link_bytes FS) h h';
  r_links : forall x size, FS !! x = Some size -> x ∉ S -> same_links h h' x;
  r_first : first_bitmap h' = first_bitmap h;
  r_second : second_bitmaps h' = second_bitmaps h;
  r_hint : largest_free_hint h' = largest_free_hint h }.

Lemma same_links_trans h h1 h2 x : same_links h h1 x -> same_links h1 h2 x -> same_links h h2 x.
Proof. unfold same_links. intuition congruence. Qed.

Lemma relink_refl FS S h : geom h -> relink FS S h h.
Proof. intros. by constructor. Qed.

Lemma relink_trans FS S1 S2 h h1 h2 :
  relink FS S1 h h1 -> relink FS S2 h1 h2 -> relink FS (S1 ++ S2) h h2.
Proof.
  intros [Hf1 Hl1 ? ? ?] [Hf2 Hl2 ? ? ?]. constructor; try congruence.
  - by eapply frame_trans.
  - intros x size Hx Hn. rewrite elem_of_app in Hn. eapply same_links_trans; eauto.
Qed.

(** Separation of the free blocks' words. *)
Definition blocks_apart (h : Heap) (FS : gmap Z Z) : Prop :=
  (forall b size, FS !! b = Some size -> bo h b) /\
  (forall b b', is_Some (FS !! b) -> is_Some (FS !! b') -> b <> b' -> b + 16 <= b' \/ b' + 16 <= b).

Lemma lists_apart h FS L : lists_ok h FS L -> blocks_apart h FS.
Proof. intros Hok. split; [|apply Hok]. intros b size Hb. by destruct (l_blk _ _ _ Hok _ _ Hb). Qed.

Lemma link_bytes_header h FS x : blocks_apart h FS -> is_Some (FS !! x) ->
  forall i, rng x 0 8 i -> ~ link_bytes FS i.
Proof.
  intros [_ Hap] Hx i Hi (b & size & Hb & Hr). unfold rng in *.
  destruct (decide (x = b)) as [->|Hne]; [lia|].
  destruct (Hap x b) as [|]; [done|by eauto|done|lia|lia].
Qed.

Lemma frame_apart P h h' FS : frame P h h' -> blocks_apart h FS -> blocks_apart h' FS.
Proof. intros Hf [Hb Ha]. split; [|done]. intros. eapply frame_bo; eauto. Qed.

Lemma touch_relink h h' FS a size lo hi : geom h -> blocks_apart h FS -> FS !! a = Some size ->
  8 <= lo -> hi <= 16 -> touch (rng a lo hi) h h' -> relink FS [a] h h'.
Proof.
  intros Hg [Hbo Hap] Ha Hlo Hhi Ht. constructor.
  - eapply frame_mono; [|by apply touch_frame]. intros i Hi. exists a, size.
    split; [done|]. unfold rng in *. lia.
  - intros x sz Hx Hn. eapply touch_links; [done|done|by destruct (Hbo _ _ Hx)|].
    intros i Hi Hi'. unfold rng in *.
    destruct (Hap x a) as [|]; [by eauto|by eauto|set_solver|lia|lia].
  - by eapply touch_first.
  - by eapply touch_second.
  - by eapply touch_hint.
Qed.

Lemma set_next_ok h FS a size v : geom h -> blocks_apart h FS -> FS !! a = Some size ->
  0 <= v <= u32_max ->
  exists h', write_word a NEXT_FREE v h = (Ok tt, h') /\ relink FS [a] h h' /\
    class_heads h' = class_heads h /\ vnext h' a = v /\ vpf h' a = vpf h a.
Proof.
  intros Hg Hap Ha Hv. destruct (write_next_spec h a v) as (h' & Hr & Ht & Hn & Hp & _);
    [done|by eapply Hap|done|].
  exists h'. split_and!; try done; [|by eapply touch_heads].
  eapply (touch_relink h h' FS a size 8 12); try done; lia.
Qed.

Lemma set_pf_ok h FS a size v : geom h -> blocks_apart h FS -> FS !! a = Some size ->
  0 <= v <= u32_max ->
  exists h', write_word a PREVIOUS_FREE v h = (Ok tt, h') /\ relink FS [a] h h' /\
    class_heads h' = class_heads h /\ vpf h' a = v /\ vnext h' a = vnext h a.
Proof.
  intros Hg Hap Ha Hv. destruct (write_pf_spec h a v) as (h' & Hr & Ht & Hp & Hn & _);
    [done|by eapply Hap|done|].
  exists h'. split_and!; try done; [|by eapply touch_heads].
  eapply (touch_relink h h' FS a size 12 16); try done; lia.
Qed.

Lemma relink_dseg FS S h h' p l n :
  relink FS S h h' -> (forall x, x ∈ l -> is_Some (FS !! x) /\ x ∉ S) ->
  dseg h p l n -> dseg h' p l n.
Proof.
  intros Hr Hl. apply dseg_ext. intros x Hx. destruct (Hl x Hx) as [[sz Hsz] Hn].
  by eapply (r_links _ _ _ _ Hr).
Qed.

Lemma set_heads_relink FS h c : geom h -> relink FS [] h (set_class_heads c h).
Proof.
  intros Hg. constructor; try done. constructor; try done. by apply (geom_ext h).
Qed.

(** The state of one list with [b] between [l1] and [l2]. *)
Lemma seg_split h FS L n l1 b l2 :
  lists_ok h FS L -> L !! n = Some (l1 ++ b :: l2) ->
  dseg h NULL_OFFSET l1 b /\ vpf h b = last_or NULL_OFFSET l1 /\
  vnext h b = head_or NULL_OFFSET l2 /\ dseg h b l2 NULL_OFFSET.
Proof.
  intros Hok Hn. pose proof (l_seg _ _ _ Hok _ _ Hn) as Hs.
  apply dseg_app in Hs as [? Hs]. simpl in *. by destruct Hs as (? & ? & ?).
Qed.

Lemma list_members h FS L n l x : lists_ok h FS L -> L !! n = Some l -> x ∈ l ->
  is_Some (FS !! x) /\ 0 <= x <= u32_max /\ x <> NULL_OFFSET.
Proof.
  intros Hok Hn Hx. destruct (x_mem _ _ (l_index _ _ _ Hok) _ _ _ Hn Hx) as (size & Hs & _).
  destruct (blk_bounds Hok _ _ Hs) as (? & ? & ? & ?). split; [by eexists|lia].
Qed.

Lemma head_or_bound h FS L n l l' : lists_ok h FS L -> L !! n = Some l -> (forall x, x ∈ l' -> x ∈ l) ->
  0 <= head_or NULL_OFFSET l' <= u32_max /\ (head_or NULL_OFFSET l' = NULL_OFFSET <-> l' = []).
Proof.
  intros Hok Hn Hsub. destruct l' as [|x l']; simpl; [split; [apply null_bound|done]|].
  destruct (list_members _ _ _ _ _ x Hok Hn) as (_ & ? & ?); [apply Hsub; left|]. done.
Qed.

Lemma dseg_set_hint x h p l n : dseg h p l n -> dseg (set_hint x h) p l n.
Proof. apply dseg_ext. intros. done. Qed.

Lemma lists_set_hint h FS L x :
  lists_ok h FS L -> x = NULL_OFFSET \/ is_Some (FS !! x) -> lists_ok (set_hint x h) FS L.
Proof.
  intros [] Hx. constructor; try done; [by apply (geom_ext h)|].
  intros. by apply dseg_set_hint; eauto.
Qed.

Lemma relink_geom FS S h h' : relink FS S h h' -> geom h'.
Proof. intros []. by eapply f_geom. Qed.

Lemma relink_apart FS S h h' : relink FS S h h' -> blocks_apart h FS -> blocks_apart h' FS.
Proof. intros []. by eapply frame_apart. Qed.

Lemma relink_sub FS S S' h h' : relink FS S h h' -> (forall x, x ∈ S -> x ∈ S') -> relink FS S' h h'.
Proof. intros [] Hsub. constructor; try done. intros x size Hx Hn. eauto. Qed.

(** *** Removal *)

Section Remove.
Context (h : Heap) (FS : gmap Z Z) (L : list (list Z)) (n : nat) (l1 l2 : list Z) (b : Z).
Context (Hok : lists_ok h FS L) (Hn : L !! n = Some (l1 ++ b :: l2)).

Let previous := last_or NULL_OFFSET l1.
Let next := head_or NULL_OFFSET l2.

Lemma members1 x : x ∈ l1 -> is_Some (FS !! x) /\ 0 <= x <= u32_max /\ x <> NULL_OFFSET.
Proof. intros Hx. eapply list_members; [done..|]. rewrite elem_of_app. by left. Qed.
Lemma members2 x : x ∈ l2 -> is_Some (FS !! x) /\ 0 <= x <= u32_max /\ x <> NULL_OFFSET.
Proof. intros Hx. eapply list_members; [done..|]. rewrite elem_of_app, elem_of_cons. tauto. Qed.

Lemma split_nodup : (forall x, x ∈ l1 -> x ∉ l2) /\ (b ∉ l1) /\ (b ∉ l2).
Proof.
  pose proof (x_nodup _ _ (l_index _ _ _ Hok) _ _ Hn) as Hd.
  apply NoDup_app in Hd as (_ & Hd & H2). apply NoDup_cons in H2 as [H2 _].
  split_and!; [| |done].
  - intros x H1 H3. apply (Hd x H1). by right.
  - intros Hb. apply (Hd b Hb). left.
Qed.

Lemma next_bound : 0 <= next <= u32_max /\ (next = NULL_OFFSET <-> l2 = []).
Proof.
  eapply head_or_bound; [done..|]. intros x Hx. rewrite elem_of_app, elem_of_cons. tauto.
Qed.

Lemma previous_bound : 0 <= previous <= u32_max /\ (previous = NULL_OFFSET <-> l1 = []).
Proof.
  unfold previous, last_or. destruct (last l1) as [a|] eqn:E; simpl.
  - destruct (members1 a) as (_ & ? & ?); [apply last_Some in E as [k ->]; set_solver|].
    split; [done|]. split; [done|]. intros ->. done.
  - apply last_None in E as ->. split; [apply null_bound|done].
Qed.

Lemma heads_after : (class_heads h !! n = Some (head_or b l1)) /\
  (head_or NULL_OFFSET <$> <[n := l1 ++ l2]> L) = <[n := head_or next l1]> (class_heads h).
Proof.
  rewrite (l_heads _ _ _ Hok), list_lookup_fmap, Hn, list_fmap_insert. simpl.
  split; [|]; by destruct l1.
Qed.

Lemma unlink_previous (index : Z) : n = Z.to_nat index ->
  exists h1,
    (if previous =? NULL_OFFSET
     then head ← st_read (fun h => expect (zget (class_heads h) index));
          if negb (head =? b) then st_err CorruptHeap
          else st_modify (fun h => set_class_heads (zset index next (class_heads h)) h)
     else write_word previous NEXT_FREE next) h = (Ok tt, h1) /\
    relink FS l1 h h1 /\ class_heads h1 = (head_or NULL_OFFSET <$> <[n := l1 ++ l2]> L) /\
    dseg h1 NULL_OFFSET l1 next.
Proof using Hok Hn.
  intros Hidx. destruct (seg_split _ _ _ _ _ _ _ Hok Hn) as (Hs1 & _).
  destruct heads_after as [Hhd Haft]. destruct previous_bound as [Hpb Hpn].
  destruct next_bound as [Hnb _]. rewrite Haft.
  destruct (Z.eqb_spec previous NULL_OFFSET) as [E|E].
  - assert (Hl1 : l1 = []) by tauto. rewrite Hl1 in *. unfold mbind, ST_bind, st_read, zget, zset.
    rewrite <- Hidx, Hhd. simpl. rewrite Z.eqb_refl. simpl.
    eexists. split; [reflexivity|]. split_and!; [by apply set_heads_relink, Hok|done|done].
  - destruct (exists_last (l:=l1)) as (k & a0 & Hl1); [tauto|].
    assert (Hp : previous = a0) by (unfold previous, last_or; by rewrite Hl1, last_snoc).
    destruct (members1 a0) as ([sz Hsz] & _); [set_solver|]. rewrite Hp.
    destruct (set_next_ok h FS a0 sz next) as (h1 & Hr & Hrl & Hh & Hv & Hpf);
      [apply Hok|by eapply lists_apart|done|done|].
    exists h1. split_and!; [done| | |].
    + eapply relink_sub; [done|]. set_solver.
    + rewrite Hh. symmetry. apply list_insert_id. rewrite Hhd, Hl1. by destruct k.
    + rewrite Hl1 in Hs1 |- *. eapply dseg_set_last; [|done|done|done]. intros x Hx.
      destruct (members1 x) as ([sx Hsx] & _); [set_solver|].
      eapply (r_links _ _ _ _ Hrl); [done|].
      pose proof (x_nodup _ _ (l_index _ _ _ Hok) _ _ Hn) as Hd.
      rewrite Hl1, <- app_assoc in Hd. apply NoDup_app in Hd as (_ & Hd & _).
      intros Hin. apply (Hd x Hx). set_solver.
Qed.

Lemma unlink_next h1 : relink FS l1 h h1 ->
  exists h2,
    (if next =? NULL_OFFSET then mret tt else write_word next PREVIOUS_FREE previous) h1 = (Ok tt, h2) /\
    relink FS l2 h1 h2 /\ class_heads h2 = class_heads h1 /\
    dseg h2 previous l2 NULL_OFFSET.
Proof using Hok Hn.
  intros Hr1. destruct (seg_split _ _ _ _ _ _ _ Hok Hn) as (_ & _ & _ & Hs2).
  destruct next_bound as [Hnb Hnn]. destruct previous_bound as [Hpb _].
  destruct split_nodup as (Hdis & _ & _).
  assert (Hs2' : dseg h1 b l2 NULL_OFFSET).
  { eapply relink_dseg; [done| |done]. intros x Hx. split; [by apply members2|].
    intros Hx1. by apply (Hdis x). }
  destruct (Z.eqb_spec next NULL_OFFSET) as [E|E].
  - assert (Hl2 : l2 = []) by tauto. exists h1. split_and!; try done.
    + by apply relink_refl; eapply relink_geom.
    + by rewrite Hl2.
  - assert (exists c k, l2 = c :: k) as (c & k & Hl2) by (destruct l2; [tauto|eauto]).
    assert (Hnx : next = c) by (unfold next; by rewrite Hl2). rewrite Hnx. rewrite Hl2 in Hs2'.
    destruct (members2 c) as ([sz Hsz] & _); [rewrite Hl2; left|].
    destruct (set_pf_ok h1 FS c sz previous) as (h2 & Hr & Hrl & Hh & Hv & Hpf);
      [by eapply relink_geom|by eapply relink_apart; [done|]; eapply lists_apart|done|done|].
    exists h2. split_and!; [done| |done|].
    + eapply relink_sub; [done|]. set_solver.
    + rewrite Hl2. eapply dseg_set_first; [|done|done|done]. intros x Hx.
      destruct (members2 x) as ([sx Hsx] & _); [rewrite Hl2; by right|].
      eapply (r_links _ _ _ _ Hrl); [done|].
      pose proof (x_nodup _ _ (l_index _ _ _ Hok) _ _ Hn) as Hd.
      rewrite Hl2 in Hd. apply NoDup_app in Hd as (_ & _ & Hd). apply NoDup_cons in Hd as [_ Hd].
      apply NoDup_cons in Hd as [Hd _]. set_solver.
Qed.

End Remove.

Lemma lists_removed h h' FS L b size l1 l2 :
  let n := Z.to_nat (class_index (class_of size)) in
  lists_ok h FS L -> FS !! b = Some size -> L !! n = Some (l1 ++ b :: l2) ->
  frame (link_bytes FS) h h' ->
  (forall x s, FS !! x = Some s -> x ∉ l1 ++ b :: l2 -> same_links h h' x) ->
  class_heads h' = (head_or NULL_OFFSET <$> <[n := l1 ++ l2]> L) ->
  dseg h' NULL_OFFSET (l1 ++ l2) NULL_OFFSET ->
  bitmaps_ok (first_bitmap h') (second_bitmaps h') (<[n := l1 ++ l2]> L) ->
  largest_free_hint h' = NULL_OFFSET \/ is_Some (delete b FS !! largest_free_hint h') ->
  lists_ok h' (delete b FS) (<[n := l1 ++ l2]> L).
Proof.
  intros n Hok Hb Hn Hf Hlinks Hheads Hseg Hmaps Hhint.
  pose proof (lists_apart _ _ _ Hok) as Hap.
  constructor; try done.
  - by eapply f_geom.
  - by eapply index_remove; [apply Hok| |].
  - intros i l Hi. destruct (decide (i = n)) as [->|Hne].
    + rewrite list_lookup_insert_eq in Hi by (by eapply lookup_lt_Some). by injection Hi as <-.
    + rewrite list_lookup_insert_ne in Hi by done.
      eapply dseg_ext; [|by eapply (l_seg _ _ _ Hok)]. intros x Hx.
      destruct (x_mem _ _ (l_index _ _ _ Hok) _ _ _ Hi Hx) as (s & Hs & Hci).
      eapply Hlinks; [done|]. intros Hx'.
      destruct (x_mem _ _ (l_index _ _ _ Hok) _ _ _ Hn Hx') as (s' & Hs' & Hci').
      rewrite Hs in Hs'. injection Hs' as <-. lia.
  - intros x s Hx. apply lookup_delete_Some in Hx as [_ Hx].
    destruct (l_blk _ _ _ Hok _ _ Hx) as (Hbo & Hv & Hs & Hle). rewrite (f_size _ _ _ Hf).
    split_and!; [by eapply frame_bo| |done|done]. rewrite <- Hv.
    apply (frame_header _ _ _ x (l_geom _ _ _ Hok) Hf); [by destruct Hbo|].
    eapply link_bytes_header; [done|by eexists].
  - intros x y [sx Hx] [sy Hy]. apply lookup_delete_Some in Hx as [_ Hx], Hy as [_ Hy].
    apply (l_apart _ _ _ Hok); by eexists.
Qed.

(** [clear_class] when the list became empty, nothing otherwise. *)
Lemma clear_if_empty h FS L c l l' :
  lists_ok h FS L -> class_ok c -> forall h1, L !! Z.to_nat (class_index c) = Some l ->
  (l <> []) -> first_bitmap h1 = first_bitmap h -> second_bitmaps h1 = second_bitmaps h -> geom h1 ->
  exists h', (if head_or NULL_OFFSET l' =? NULL_OFFSET then clear_class c else mret tt) h1 = (Ok tt, h') /\
    frame (fun _ => False) h1 h' /\ arena h' = arena h1 /\ class_heads h' = class_heads h1 /\
    largest_free_hint h' = largest_free_hint h1 /\
    ((head_or NULL_OFFSET l' = NULL_OFFSET <-> l' = []) ->
     bitmaps_ok (first_bitmap h') (second_bitmaps h') (<[Z.to_nat (class_index c) := l']> L)).
Proof.
  intros Hok [Hc1 Hc2] h1 Hl Hne Hf1 Hs1 Hg1.
  destruct (second_at Hok (first c)) as (z & Hz & Hzb); [lia|].
  destruct (Z.eqb_spec (head_or NULL_OFFSET l') NULL_OFFSET) as [E|E].
  - unfold clear_class. rewrite Hs1, Hz. eexists. split; [reflexivity|]. split_and!; try done.
    { constructor; try done. by apply (geom_ext h1). }
    intros Hnil. assert (l' = []) as -> by tauto. simpl. rewrite Hf1.
    apply bitmaps_clear; [apply Hok|split; [lia|done]|done|apply Hok].
  - exists h1. split; [done|]. split_and!; try done.
    intros Hnil. rewrite Hf1, Hs1. eapply bitmaps_same; [apply Hok|done|tauto].
Qed.

Lemma relink_frame_maps FS S h h1 h2 :
  relink FS S h h1 -> frame (fun _ => False) h1 h2 -> arena h2 = arena h1 ->
  frame (link_bytes FS) h h2 /\
  (forall x size, FS !! x = Some size -> x ∉ S -> same_links h h2 x) /\
  (forall p l n, dseg h1 p l n -> dseg h2 p l n).
Proof.
  intros [Hf Hl _ _ _] Hf2 Ha.
  assert (Hv : forall x, same_links h1 h2 x) by (intros; unfold same_links, vnext, vpf, word; by rewrite Ha).
  split_and!.
  - eapply frame_trans; [done|]. eapply frame_mono; [|done]. done.
  - intros x size Hx Hn. eapply same_links_trans; [by eapply Hl|done].
  - intros p l n. apply dseg_ext. auto.
Qed.

(** The end of [remove_free]: bitmaps and the links of the removed block. *)
Lemma finish_remove h h2 FS L b size l1 l2 :
  let n := Z.to_nat (class_index (class_of size)) in
  lists_ok h FS L -> FS !! b = Some size -> L !! n = Some (l1 ++ b :: l2) ->
  relink FS (l1 ++ l2) h h2 -> class_heads h2 = (head_or NULL_OFFSET <$> <[n := l1 ++ l2]> L) ->
  dseg h2 NULL_OFFSET (l1 ++ l2) NULL_OFFSET ->
  largest_free_hint h = NULL_OFFSET \/ is_Some (delete b FS !! largest_free_hint h) ->
  exists h',
    (head ← st_read (fun h => expect (zget (class_heads h) (class_index (class_of size))));
     _ ← (if head =? NULL_OFFSET then clear_class (class_of size) else mret tt);
     _ ← write_word b NEXT_FREE NULL_OFFSET;
     write_word b PREVIOUS_FREE NULL_OFFSET) h2 = (Ok tt, h') /\
    lists_ok h' (delete b FS) (<[n := l1 ++ l2]> L) /\
    frame (link_bytes FS) h h' /\
    largest_free_hint h' = largest_free_hint h.
Proof.
  intros n Hok Hb Hn Hr Hheads Hseg Hhint. destruct (blk_class Hok _ _ Hb) as [Hc _].
  assert (Hap : blocks_apart h FS) by (by eapply lists_apart).
  assert (Hsub : forall x, x ∈ l1 ++ l2 -> x ∈ l1 ++ b :: l2) by set_solver.
  assert (Hhd : head_or NULL_OFFSET (l1 ++ l2) = NULL_OFFSET <-> l1 ++ l2 = [])
    by (by eapply head_or_bound).
  destruct (clear_if_empty h FS L (class_of size) _ (l1 ++ l2) Hok Hc h2 Hn)
    as (h3 & Hrun3 & Hf3 & Ha3 & Hh3 & Hhint3 & Hmaps3);
    [by destruct l1|apply Hr|apply Hr|by eapply relink_geom|]. specialize (Hmaps3 Hhd).
  destruct (relink_frame_maps FS (l1 ++ l2) h h2 h3 Hr Hf3 Ha3) as (Hf & Hlk & Hds).
  destruct (set_next_ok h3 FS b size NULL_OFFSET) as (h4 & Hrun4 & Hr4 & Hh4 & Hn4 & Hp4);
    [by eapply f_geom|by eapply frame_apart|done|apply null_bound|].
  destruct (set_pf_ok h4 FS b size NULL_OFFSET) as (h5 & Hrun5 & Hr5 & Hh5 & Hn5 & Hp5);
    [by eapply relink_geom|by eapply relink_apart; [done|]; eapply frame_apart|done|apply null_bound|].
  pose proof (relink_trans _ _ _ _ _ _ Hr4 Hr5) as Hr45. simpl in Hr45.
  destruct (split_nodup _ _ _ _ _ _ _ Hok Hn) as (_ & Hb1 & Hb2).
  assert (Hfr : frame (link_bytes FS) h h5) by (eapply frame_trans; [done|apply Hr45]).
  assert (Hhint5 : largest_free_hint h5 = largest_free_hint h).
  { rewrite (r_hint _ _ _ _ Hr45), Hhint3. apply Hr. }
  exists h5. split; [|split; [|done]].
  - rewrite (st_bind_ok _ _ _ (head_or NULL_OFFSET (l1 ++ l2)) h2).
    2:{ unfold st_read, zget. rewrite Hheads, list_lookup_fmap. fold n.
        by rewrite list_lookup_insert_eq by (by eapply lookup_lt_Some). }
    by rewrite (st_bind_ok _ _ _ _ _ Hrun3), (st_bind_ok _ _ _ _ _ Hrun4).
  - eapply lists_removed; try done.
    + intros x s Hx Hnin. eapply same_links_trans; [eapply Hlk; [done|set_solver]|].
      eapply (r_links _ _ _ _ Hr45); [done|set_solver].
    + by rewrite Hh5, Hh4, Hh3.
    + eapply relink_dseg; [exact Hr45| |by apply Hds]. intros x Hx. split; [|set_solver].
      eapply list_members; [done|exact Hn|by apply Hsub].
    + by rewrite (r_first _ _ _ _ Hr45), (r_second _ _ _ _ Hr45).
    + by rewrite Hhint5.
Qed.

(** [remove_free] unlinks exactly the given free block. *)
Lemma remove_free_ok h FS L b size :
  lists_ok h FS L -> FS !! b = Some size ->
  exists h' L', remove_free b h = (Ok tt, h') /\ lists_ok h' (delete b FS) L' /\
    frame (link_bytes FS) h h' /\
    largest_free_hint h' = (if largest_free_hint h =? b then NULL_OFFSET else largest_free_hint h).
Proof.
  intros Hok0 Hb.
  set (h0 := if largest_free_hint h =? b then set_hint NULL_OFFSET h else h).
  assert (Hok : lists_ok h0 FS L).
  { unfold h0. destruct (_ =? b); [apply lists_set_hint; [done|by left]|done]. }
  assert (Hf0 : frame (link_bytes FS) h h0).
  { unfold h0. destruct (_ =? b); [|apply frame_refl, Hok0].
    constructor; try done. apply (geom_ext h); try done. apply Hok0. }
  assert (Hh0 : largest_free_hint h0 =
    (if largest_free_hint h =? b then NULL_OFFSET else largest_free_hint h)).
  { unfold h0. by destruct (_ =? b). }
  rewrite <- Hh0.
  destruct (blk_class Hok _ _ Hb) as [Hc Hfc].
  destruct (x_all _ _ (l_index _ _ _ Hok) _ _ Hb) as (l & Hn & Hin).
  apply list_elem_of_split in Hin as (l1 & l2 & ->).
  set (n := Z.to_nat (class_index (class_of size))) in *.
  destruct (seg_split _ _ _ _ _ _ _ Hok Hn) as (_ & Hpf & Hnx & _).
  destruct (l_blk _ _ _ Hok _ _ Hb) as (Hbo & _).
  destruct (unlink_previous h0 FS L n l1 l2 b Hok Hn (class_index (class_of size)) eq_refl)
    as (h1 & Hrun1 & Hr1 & Hheads1 & Hseg1).
  destruct (unlink_next h0 FS L n l1 l2 b Hok Hn h1 Hr1) as (h2 & Hrun2 & Hr2 & Hheads2 & Hseg2).
  destruct (split_nodup _ _ _ _ _ _ _ Hok Hn) as (Hdis & _ & _).
  assert (Hseg1' : dseg h2 NULL_OFFSET l1 (head_or NULL_OFFSET l2)).
  { eapply relink_dseg; [exact Hr2| |done]. intros x Hx.
    split; [by eapply (members1 _ _ _ _ _ _ _ Hok Hn)|by apply Hdis]. }
  destruct (finish_remove h0 h2 FS L b size l1 l2 Hok Hb Hn (relink_trans _ _ _ _ _ _ Hr1 Hr2))
    as (h' & Hrun3 & Hok' & Hf' & Hh'); [by rewrite Hheads2|apply dseg_app; done| |].
  { rewrite Hh0. destruct (Z.eqb_spec (largest_free_hint h) b) as [|Hne]; [by left|].
    rewrite lookup_delete_ne by done. apply (l_hint _ _ _ Hok0). }
  exists h', (<[n := l1 ++ l2]> L). split_and!; [|done|by eapply frame_trans|done].
  unfold remove_free. rewrite (st_bind_ok _ _ _ tt h0) by done.
  rewrite (st_bind_ok _ _ _ size h0) by (unfold st_read; by rewrite (blk_size Hok _ _ Hb)).
  rewrite Hfc. rewrite (st_bind_ok _ _ _ (class_of size) h0) by done.
  rewrite (st_bind_ok _ _ _ (head_or NULL_OFFSET l2) h0)
    by (unfold st_read; rewrite read_next_view by (done || apply Hok); by rewrite Hnx).
  rewrite (st_bind_ok _ _ _ (last_or NULL_OFFSET l1) h0)
    by (unfold st_read; rewrite read_pf_view by (done || apply Hok); by rewrite Hpf).
  rewrite (st_bind_ok _ _ _ _ _ Hrun1), (st_bind_ok _ _ _ _ _ Hrun2). exact Hrun3.
Qed.

(** *** Insertion *)

(** A block that may join the free lists. *)
Definition insertable (h : Heap) (FS : gmap Z Z) (b size : Z) : Prop :=
  FS !! b = None /\ bo h b /\ vsize h b = size /\ size_ok size = true /\
  b + size <= arena_bytes h /\
  (forall b', is_Some (FS !! b') -> b + 16 <= b' \/ b' + 16 <= b).

Lemma insert_apart h FS b size : blocks_apart h FS -> insertable h FS b size ->
  blocks_apart h (<[b := size]> FS).
Proof.
  intros [Hbo Hap] (Hn & Hb & _ & _ & _ & Hd). split.
  - intros x s Hx. apply lookup_insert_Some in Hx as [[<- _]|[_ Hx]]; [done|by eapply Hbo].
  - intros x y [sx Hx] [sy Hy] Hne.
    apply lookup_insert_Some in Hx as [[<- _]|[Hbx Hx]], Hy as [[<- _]|[Hby Hy]]; [done| | |].
    + apply Hd. by eexists.
    + destruct (Hd x); [by eexists|by right|by left].
    + apply Hap; [by eexists|by eexists|done].
Qed.

Lemma push_links h FS L b size n l :
  lists_ok h FS L -> insertable h FS b size -> L !! n = Some l ->
  let head := head_or NULL_OFFSET l in
  exists h',
    (forall k : HeapM unit,
      (_ ← write_word b NEXT_FREE head;
       _ ← write_word b PREVIOUS_FREE NULL_OFFSET;
       _ ← (if head =? NULL_OFFSET then mret tt else write_word head PREVIOUS_FREE b);
       k) h = k h') /\
    relink (<[b := size]> FS) (b :: l) h h' /\ class_heads h' = class_heads h /\
    dseg h' NULL_OFFSET (b :: l) NULL_OFFSET.
Proof.
  intros Hok Hins Hn head. pose proof Hins as (Hnone & Hbo & _).
  set (FS' := <[b := size]> FS).
  assert (Hap : blocks_apart h FS') by (apply insert_apart; [by eapply lists_apart|done]).
  assert (HFb : FS' !! b = Some size) by apply lookup_insert_eq.
  assert (Hmem : forall x, x ∈ l -> is_Some (FS' !! x) /\ x <> b).
  { intros x Hx. destruct (list_members _ _ _ _ _ x Hok Hn Hx) as ([s Hs] & _).
    assert (x <> b) by congruence. unfold FS'. rewrite lookup_insert_ne by done. eauto. }
  destruct (head_or_bound _ _ _ _ l l Hok Hn ltac:(done)) as [Hhb Hhn]. fold head in Hhb, Hhn.
  assert (Hbb : 0 <= b <= u32_max).
  { destruct Hbo as (? & _ & ?). pose proof (g_size _ (l_geom _ _ _ Hok)) as Hg.
    rewrite Value.MAX_PAYLOAD_eq in Hg. unfold u32_max. lia. }
  destruct (set_next_ok h FS' b size head) as (h1 & Hrun1 & Hr1 & Hh1 & Hn1 & _);
    [apply Hok|done|done|done|].
  destruct (set_pf_ok h1 FS' b size NULL_OFFSET) as (h2 & Hrun2 & Hr2 & Hh2 & Hp2 & Hn2);
    [by eapply relink_geom|by eapply relink_apart|done|apply null_bound|].
  pose proof (relink_trans _ _ _ _ _ _ Hr1 Hr2) as Hr12. simpl in Hr12.
  assert (Hs2 : dseg h2 NULL_OFFSET l NULL_OFFSET).
  { eapply relink_dseg; [exact Hr12| |by eapply (l_seg _ _ _ Hok)].
    intros x Hx. destruct (Hmem x Hx). split; [done|set_solver]. }
  assert (exists h3,
    (if head =? NULL_OFFSET then mret tt else write_word head PREVIOUS_FREE b) h2 = (Ok tt, h3) /\
    relink FS' l h2 h3 /\ class_heads h3 = class_heads h2 /\ dseg h3 b l NULL_OFFSET)
    as (h3 & Hrun3 & Hr3 & Hh3 & Hs3).
  { destruct (Z.eqb_spec head NULL_OFFSET) as [E|E].
    - assert (l = []) as -> by tauto. exists h2. split_and!; try done.
      by apply relink_refl; eapply relink_geom.
    - destruct l as [|c l]; [tauto|]. change head with c. destruct (Hmem c) as [[sc Hsc] _]; [left|].
      destruct (set_pf_ok h2 FS' c sc b) as (h3 & ? & Hr3 & ? & ? & ?);
        [by eapply relink_geom|by eapply relink_apart|done|done|].
      exists h3. split_and!; try done; [eapply relink_sub; [done|set_solver]|].
      eapply dseg_set_first; [|done|done|done]. intros x Hx.
      destruct (Hmem x) as [[sx Hsx] _]; [by right|].
      eapply (r_links _ _ _ _ Hr3); [done|].
      pose proof (x_nodup _ _ (l_index _ _ _ Hok) _ _ Hn) as Hd. apply NoDup_cons in Hd as [Hd _].
      set_solver. }
  exists h3. split_and!.
  - intros k. by rewrite (st_bind_ok _ _ _ _ _ Hrun1), (st_bind_ok _ _ _ _ _ Hrun2),
      (st_bind_ok _ _ _ _ _ Hrun3).
  - eapply relink_sub; [exact (relink_trans _ _ _ _ _ _ Hr12 Hr3)|set_solver].
  - congruence.
  - assert (Hb3 : same_links h2 h3 b).
    { eapply (r_links _ _ _ _ Hr3); [done|]. intros Hx. by destruct (Hmem b Hx). }
    destruct Hb3 as [Hbn Hbp]. simpl. rewrite Hbn, Hbp, Hp2, Hn2. done.
Qed.

Lemma lists_inserted h h' FS L b size l :
  let n := Z.to_nat (class_index (class_of size)) in
  lists_ok h FS L -> insertable h FS b size -> L !! n = Some l ->
  frame (link_bytes (<[b := size]> FS)) h h' ->
  (forall x s, <[b := size]> FS !! x = Some s -> x ∉ b :: l -> same_links h h' x) ->
  class_heads h' = (head_or NULL_OFFSET <$> <[n := b :: l]> L) ->
  dseg h' NULL_OFFSET (b :: l) NULL_OFFSET ->
  bitmaps_ok (first_bitmap h') (second_bitmaps h') (<[n := b :: l]> L) ->
  largest_free_hint h' = NULL_OFFSET \/ is_Some (<[b := size]> FS !! largest_free_hint h') ->
  lists_ok h' (<[b := size]> FS) (<[n := b :: l]> L).
Proof.
  intros n Hok Hins Hn Hf Hlinks Hheads Hseg Hmaps Hhint.
  pose proof Hins as (Hnone & Hbo & Hv & Hs & Hle & _).
  pose proof (insert_apart _ _ _ _ (lists_apart _ _ _ Hok) Hins) as Hap.
  assert (Hidx : 0 <= class_index (class_of size)).
  { apply size_ok_true in Hs. pose proof (g_size _ (l_geom _ _ _ Hok)) as Hg.
    rewrite Value.MAX_PAYLOAD_eq in Hg. destruct Hbo as (? & ? & ?).
    destruct (class_of_ok size) as [Hc _]; [unfold u32_max; lia|].
    pose proof (class_index_bound _ Hc). lia. }
  constructor; try done.
  - by eapply f_geom.
  - by apply index_insert; [apply Hok| | |].
  - intros i k Hi. destruct (decide (i = n)) as [->|Hne].
    + rewrite list_lookup_insert_eq in Hi by (by eapply lookup_lt_Some). by injection Hi as <-.
    + rewrite list_lookup_insert_ne in Hi by done.
      eapply dseg_ext; [|by eapply (l_seg _ _ _ Hok)]. intros x Hx.
      destruct (x_mem _ _ (l_index _ _ _ Hok) _ _ _ Hi Hx) as (s & Hs' & Hci).
      assert (x <> b) by congruence.
      eapply Hlinks; [by rewrite lookup_insert_ne|]. intros [|Hx']%elem_of_cons; [done|].
      destruct (x_mem _ _ (l_index _ _ _ Hok) _ _ _ Hn Hx') as (s' & Hs'' & Hci').
      rewrite Hs' in Hs''. injection Hs'' as <-. lia.
  - intros x s Hx. rewrite (f_size _ _ _ Hf).
    assert (Hxh : vsize h' x = vsize h x).
    { apply (frame_header _ _ _ x (l_geom _ _ _ Hok) Hf); [by destruct (proj1 Hap x s Hx)|].
      eapply link_bytes_header; [done|by eexists]. }
    rewrite Hxh. apply lookup_insert_Some in Hx as [[<- <-]|[Hne Hx]].
    + split_and!; try done. by eapply frame_bo.
    + destruct (l_blk _ _ _ Hok _ _ Hx) as (? & ? & ? & ?). split_and!; try done. by eapply frame_bo.
  - apply Hap.
Qed.

(** The hint after a block of the given size was observed. *)
Definition pick_hint (h : Heap) (FS : gmap Z Z) (b size : Z) : Z :=
  match FS !! largest_free_hint h with
  | Some m => if m <? size then b else largest_free_hint h
  | None => b
  end.

Lemma set_hint_id h : set_hint (largest_free_hint h) h = h.
Proof. by destruct h. Qed.

Lemma observe_ok h FS L b size : lists_ok h FS L -> FS !! b = Some size ->
  observe_free_block b h = (Ok tt, set_hint (pick_hint h FS b size) h).
Proof.
  intros Hok Hb. unfold observe_free_block, pick_hint.
  destruct (l_hint _ _ _ Hok) as [E|[m Hm]].
  - rewrite E, Z.eqb_refl. destruct (FS !! NULL_OFFSET) eqn:En; [|done].
    destruct (blk_bounds Hok _ _ En) as (_ & ? & _). done.
  - destruct (blk_bounds Hok _ _ Hm) as (_ & Hne & _). rewrite (proj2 (Z.eqb_neq _ _) Hne).
    rewrite (blk_size Hok _ _ Hb), (blk_size Hok _ _ Hm), Hm. simpl.
    destruct (m <? size); [done|by rewrite set_hint_id].
Qed.

Lemma lists_observed h FS L b size : lists_ok h FS L -> FS !! b = Some size ->
  lists_ok (set_hint (pick_hint h FS b size) h) FS L.
Proof.
  intros Hok Hb. apply lists_set_hint; [done|]. right. unfold pick_hint.
  destruct (FS !! largest_free_hint h) as [m|] eqn:E; [|by eexists].
  destruct (m <? size); by eexists.
Qed.

(** The hinted block is at least [s] bytes long. *)
Definition covers (h : Heap) (FS : gmap Z Z) (s : Z) : Prop :=
  exists m, FS !! largest_free_hint h = Some m /\ s <= m.

Lemma covers_ext h h' FS s : largest_free_hint h' = largest_free_hint h -> covers h FS s -> covers h' FS s.
Proof. unfold covers. by intros ->. Qed.

(** Removing a block loses at most what the block itself covered. *)
Lemma covers_remove h h' FS b q s :
  largest_free_hint h' = (if largest_free_hint h =? b then NULL_OFFSET else largest_free_hint h) ->
  covers h (<[b := q]> FS) s -> covers h' FS s \/ s <= q.
Proof.
  intros Hh (m & Hm & Hs). destruct (Z.eqb_spec (largest_free_hint h) b) as [E|E].
  - rewrite E, lookup_insert_eq in Hm. injection Hm as ->. by right.
  - rewrite lookup_insert_ne in Hm by done. left. exists m. by rewrite Hh.
Qed.

(** After an insertion the hint covers the new block and what it covered. *)
Lemma covers_insert h h' FS b size s : largest_free_hint h' = pick_hint h FS b size -> FS !! b = None ->
  s <= size \/ covers h FS s -> covers h' (<[b := size]> FS) s.
Proof.
  unfold covers, pick_hint. intros -> Hb Hs.
  destruct (FS !! largest_free_hint h) as [m|] eqn:E; [destruct (Z.ltb_spec m size)|].
  - exists size. rewrite lookup_insert_eq. naive_solver lia.
  - exists m. rewrite lookup_insert_ne by congruence. naive_solver lia.
  - exists size. rewrite lookup_insert_eq. naive_solver lia.
Qed.

(** [insert_free] pushes the block on the list of its class. *)
Lemma insert_free_ok h FS L b size :
  lists_ok h FS L -> insertable h FS b size ->
  exists h' L', insert_free b h = (Ok tt, h') /\ lists_ok h' (<[b := size]> FS) L' /\
    frame (link_bytes (<[b := size]> FS)) h h' /\
    largest_free_hint h' = pick_hint h FS b size.
Proof.
  intros Hok Hins. pose proof Hins as (Hnone & Hbo & Hv & Hs & Hle & _).
  assert (Hmax : 16 <= size <= u32_max).
  { apply size_ok_true in Hs. pose proof (g_size _ (l_geom _ _ _ Hok)) as Hg.
    rewrite Value.MAX_PAYLOAD_eq in Hg. destruct Hbo as (? & ? & ?). unfold u32_max. lia. }
  destruct (class_of_ok size Hmax) as [Hc _]. pose proof Hc as [Hc1 Hc2].
  destruct (list_at Hok _ Hc) as (l & Hn & Hhd).
  set (n := Z.to_nat (class_index (class_of size))) in *.
  destruct (push_links h FS L b size n l Hok Hins Hn) as (h1 & Hrun1 & Hr1 & Hh1 & Hs1).
  set (h2 := set_class_heads (zset (class_index (class_of size)) b (class_heads h1)) h1).
  destruct (second_at Hok (first (class_of size))) as (z & Hz & _); [lia|].
  assert (Hz2 : zget (second_bitmaps h2) (first (class_of size)) = Some z)
    by (simpl; by rewrite (r_second _ _ _ _ Hr1)).
  set (h3 := set_bitmaps (Z.lor (first_bitmap h2) (Z.shiftl 1 (first (class_of size))))
     (zset (first (class_of size)) (Z.lor z (Z.shiftl 1 (second (class_of size)))) (second_bitmaps h2)) h2).
  assert (Hg1 : geom h1) by (by eapply relink_geom).
  destruct (relink_frame_maps _ _ h h1 h3 Hr1) as (Hf & Hlk & Hds); [|done|].
  { constructor; try done. by apply (geom_ext h1). }
  assert (Hok3 : lists_ok h3 (<[b := size]> FS) (<[n := b :: l]> L)).
  { eapply lists_inserted; try done.
    - simpl. rewrite Hh1, (l_heads _ _ _ Hok), list_fmap_insert. done.
    - by apply Hds.
    - simpl. rewrite (r_first _ _ _ _ Hr1), (r_second _ _ _ _ Hr1).
      apply (bitmaps_mark _ _ _ (class_of size)); [apply Hok|split; lia|done|apply Hok|done].
    - simpl. rewrite (r_hint _ _ _ _ Hr1). destruct (l_hint _ _ _ Hok) as [|[m Hm]]; [by left|].
      right. rewrite lookup_insert_ne by congruence. by eexists. }
  exists (set_hint (pick_hint h3 (<[b := size]> FS) b size) h3), (<[n := b :: l]> L).
  split_and!.
  - unfold insert_free. rewrite (st_bind_ok _ _ _ size h)
      by (unfold st_read; rewrite block_size_view by (done || apply Hok); by rewrite Hv, Hs).
    rewrite (st_bind_ok _ _ _ (class_of size) h)
      by (rewrite free_size_class_eq by (done || lia); done).
    rewrite (st_bind_ok _ _ _ (head_or NULL_OFFSET l) h) by (unfold st_read; by rewrite Hhd).
    etransitivity; [apply Hrun1|]. rewrite (st_bind_ok _ _ _ tt h2) by done.
    rewrite (st_bind_ok _ _ _ tt h3) by (unfold mark_class; by rewrite Hz2).
    eapply observe_ok; [done|apply lookup_insert_eq].
  - apply lists_observed; [done|apply lookup_insert_eq].
  - eapply frame_trans; [exact Hf|]. constructor; try done. by apply (geom_ext h3); [..|apply Hok3].
  - simpl. unfold pick_hint. simpl. rewrite (r_hint _ _ _ _ Hr1).
    destruct (decide (largest_free_hint h = b)) as [->|Hne].
    + rewrite lookup_insert_eq, Hnone. destruct (_ <? _); done.
    + rewrite lookup_insert_ne by done. done.
Qed.

Lemma hint_max_insert h FS h' b size : largest_free_hint h' = pick_hint h FS b size -> FS !! b = None ->
  hint_max h FS -> hint_max h' (<[b := size]> FS).
Proof.
  intros Hh Hnone Hmax x s Hx. rewrite Hh. unfold pick_hint.
  apply lookup_insert_Some in Hx as [[<- <-]|[Hne Hx]].
  - destruct (FS !! largest_free_hint h) as [m|] eqn:E.
    + destruct (Z.ltb_spec m size); [rewrite lookup_insert_eq; eauto with lia|].
      rewrite lookup_insert_ne by congruence. eauto.
    + rewrite lookup_insert_eq. eauto with lia.
  - destruct (Hmax _ _ Hx) as (m & Hm & Hle). rewrite Hm.
    destruct (Z.ltb_spec m size); [rewrite lookup_insert_eq; eauto with lia|].
    rewrite lookup_insert_ne by congruence. eauto.
Qed.

(** *** Search *)

Lemma testbit_from w s i : 0 <= w -> 0 <= s -> 0 <= i ->
  Z.testbit (wrap_unsigned w (Z.shiftl (2 ^ w - 1) s)) i = (s <=? i) && (i <? w).
Proof.
  intros. unfold wrap_unsigned. destruct (Z.ltb_spec i w) as [Hi|Hi].
  - rewrite Z.mod_pow2_bits_low, Z.shiftl_spec, andb_true_r by lia.
    replace (2 ^ w - 1) with (Z.ones w) by (rewrite Z.ones_equiv; lia).
    destruct (Z.leb_spec s i); [rewrite testbit_ones by lia; apply Z.ltb_lt; lia|].
    by rewrite Z.testbit_neg_r by lia.
  - rewrite Z.mod_pow2_bits_high by lia. by rewrite andb_false_r.
Qed.

(** The lowest set bit at or above position [s]. *)
Lemma lowest_from w z s : 0 <= z < 2 ^ Z.of_nat w -> 0 <= s ->
  let m := Z.land z (wrap_unsigned (Z.of_nat w) (Z.shiftl (2 ^ Z.of_nat w - 1) s)) in
  if m =? 0 then forall i, s <= i < Z.of_nat w -> Z.testbit z i = false
  else s <= trailing_zeros w m < Z.of_nat w /\ Z.testbit z (trailing_zeros w m) = true.
Proof.
  intros Hz Hs m.
  assert (Hb : forall i, 0 <= i -> Z.testbit m i = Z.testbit z i && ((s <=? i) && (i <? Z.of_nat w))).
  { intros i Hi. unfold m. by rewrite Z.land_spec, testbit_from by lia. }
  assert (Hm : 0 <= m < 2 ^ Z.of_nat w).
  { assert (0 <= m) by (apply Z.land_nonneg; lia). split; [done|].
    apply bits_bound; [lia|done|]. intros i Hi. rewrite Hb by lia.
    by rewrite (testbit_small (Z.of_nat w) z) by lia. }
  destruct (Z.eqb_spec m 0) as [E|E].
  - intros i Hi. specialize (Hb i ltac:(lia)). rewrite E, Z.bits_0 in Hb.
    rewrite (proj2 (Z.leb_le s i)), (proj2 (Z.ltb_lt i _)) in Hb by lia.
    by destruct (Z.testbit z i).
  - destruct (trailing_zeros_spec w m Hm E) as (Ht & Hbit & _).
    rewrite Hb in Hbit by lia. apply andb_true_iff in Hbit as [? Hr].
    apply andb_true_iff in Hr as [Hr _]. apply Z.leb_le in Hr. split; [lia|done].
Qed.

Definition select_class (h : Heap) (class : SizeClass) : outcome VmFault (option SizeClass) :=
  bitmap ← expect (zget (second_bitmaps h) (first class));
  let second_mask := Z.land bitmap (wrap_unsigned 8 (Z.shiftl u8_max (second class))) in
  if negb (second_mask =? 0)
  then Ok (Some (mkSizeClass (first class) (trailing_zeros 8 second_mask)))
  else
    let higher_first :=
      if first class =? 31 then 0
      else Z.land (first_bitmap h) (wrap_unsigned 32 (Z.shiftl u32_max (first class + 1))) in
    if higher_first =? 0 then Ok None
    else
      let selected_first := trailing_zeros 32 higher_first in
      selected_second ← expect (zget (second_bitmaps h) selected_first);
      if selected_second =? 0 then Err CorruptHeap
      else Ok (Some (mkSizeClass selected_first (trailing_zeros 8 selected_second))).

(** The bitmap search returns the first nonempty class at or above the given
    one, and nothing exactly when there is none. *)
Lemma select_ok h FS L c :
  lists_ok h FS L -> class_fits_maps c ->
  exists r, select_class h c = Ok r /\
    match r with
    | Some c' => class_fits_maps c' /\ class_index c <= class_index c' /\
        exists l, L !! Z.to_nat (class_index c') = Some l /\ l <> []
    | None => forall c' l, class_fits_maps c' -> class_index c <= class_index c' ->
        L !! Z.to_nat (class_index c') = Some l -> l = []
    end.
Proof.
  intros Hok [Hc1 Hc2]. pose proof (l_maps _ _ _ Hok) as Hm.
  assert (Hlist : forall f s, 0 <= f < 32 -> 0 <= s < 8 -> exists l, L !! Z.to_nat (f * 8 + s) = Some l).
  { intros f s Hf Hs. apply lookup_lt_is_Some_2. rewrite (x_len _ _ (l_index _ _ _ Hok)). lia. }
  destruct (second_at Hok (first c) Hc1) as (z & Hz & Hzb).
  unfold select_class. rewrite Hz. bind_simp. cbv zeta.
  pose proof (lowest_from 8 z (second c) Hzb ltac:(lia)) as Hlow. cbv zeta in Hlow.
  change (2 ^ Z.of_nat 8 - 1) with u8_max in Hlow. change (Z.of_nat 8) with 8 in Hlow.
  destruct (Z.land z _ =? 0) eqn:Em; bind_simp.
  - set (hf := if first c =? 31 then 0 else _).
    assert (Hhf : if hf =? 0 then forall i, first c < i < 32 -> Z.testbit (first_bitmap h) i = false
      else first c < trailing_zeros 32 hf < 32 /\ Z.testbit (first_bitmap h) (trailing_zeros 32 hf) = true).
    { unfold hf. destruct (Z.eqb_spec (first c) 31) as [E31|E31]; [simpl; intros; lia|].
      pose proof (lowest_from 32 (first_bitmap h) (first c + 1) (m_first _ _ _ Hm) ltac:(lia)) as Hl.
      cbv zeta in Hl. change (2 ^ Z.of_nat 32 - 1) with u32_max in Hl. change (Z.of_nat 32) with 32 in Hl.
      destruct (Z.land (first_bitmap h) _ =? 0); [intros; apply Hl; lia|]. split; [lia|apply Hl]. }
    destruct (hf =? 0) eqn:Eh; bind_simp.
    + exists None. split; [done|]. intros c' l [Hc1' Hc2'] Hle Hl. unfold class_index in *.
      destruct (second_at Hok (first c') Hc1') as (z' & Hz' & _).
      destruct (decide (l = [])) as [|Hne]; [done|exfalso].
      apply (m_bits _ _ _ Hm _ _ _ _ Hc1' Hc2' Hz' Hl) in Hne.
      destruct (decide (first c' = first c)) as [E|E].
      * rewrite E, Hz in Hz'. injection Hz' as <-. rewrite Hlow in Hne by lia. done.
      * assert (Hb : Z.testbit (first_bitmap h) (first c') = true).
        { apply (m_fbits _ _ _ Hm _ _ Hc1' Hz'). intros ->. by rewrite Z.bits_0 in Hne. }
        rewrite Hhf in Hb by lia. done.
    + destruct Hhf as [Ht Hb]. set (t := trailing_zeros 32 hf) in *.
      destruct (second_at Hok t) as (z' & Hz' & Hzb'); [lia|]. rewrite Hz'. bind_simp.
      apply (m_fbits _ _ _ Hm t z') in Hb; [|lia|done]. rewrite (proj2 (Z.eqb_neq _ _) Hb).
      destruct (trailing_zeros_spec 8 z' Hzb' Hb) as (Ht8 & Hb8 & _). change (Z.of_nat 8) with 8 in Ht8.
      eexists. split; [done|]. unfold class_fits_maps, class_index; simpl.
      destruct (Hlist t (trailing_zeros 8 z')) as [l Hl]; [lia|done|].
      split_and!; try lia. exists l. split; [done|].
      by apply (m_bits _ _ _ Hm t (trailing_zeros 8 z') z'); [lia|..].
  - destruct Hlow as [Ht Hb]. eexists. split; [done|]. unfold class_fits_maps, class_index; simpl.
    set (t := trailing_zeros 8 _) in *. destruct (Hlist (first c) t) as [l Hl]; [lia|lia|].
    split_and!; try lia. exists l. split; [done|].
    by apply (m_bits _ _ _ Hm (first c) t z); [lia|lia|..].
Qed.

Lemma find_suitable_select h size : find_suitable h size =
  match request_size_class size with
  | None => Ok None
  | Some class =>
    lower ← ok_or (free_size_class size) CorruptHeap;
    hit ← (if decide (lower = class) then Ok None
           else
             head ← expect (zget (class_heads h) (class_index lower));
             if head =? NULL_OFFSET then Ok None
             else hs ← block_size h head;
                  Ok (if size <=? hs then Some head else None));
    match hit with
    | Some head => Ok (Some head)
    | None =>
      selected ← select_class h class;
      match selected with
      | None =>
          if largest_free_hint h =? NULL_OFFSET then Ok None
          else hs ← block_size h (largest_free_hint h);
               Ok (if size <=? hs then Some (largest_free_hint h) else None)
      | Some selected =>
          head ← ok_or (zget (class_heads h) (class_index selected)) CorruptHeap;
          if head =? NULL_OFFSET then Err CorruptHeap else Ok (Some head)
      end
    end
  end.
Proof.
  unfold find_suitable, select_class.
  destruct (request_size_class size) as [class|]; [|done].
  destruct (free_size_class size) as [lower|]; [|done]. bind_simp.
  set (hit := if decide (lower = class) then _ else _). destruct hit as [[?|]| |]; try done. simpl.
  by destruct (zget (second_bitmaps h) (first class)).
Qed.

Lemma request_class_None size : size_ok size = true -> size <= u32_max ->
  request_size_class size = None -> 2 ^ 31 <= size.
Proof.
  intros Hok Hmax. pose proof (proj1 (size_ok_true _) Hok) as [Hlo _].
  destruct (class_of_ok size ltac:(lia)) as [[Hf Hs] Hl].
  destruct (log2_range size ltac:(lia)) as [_ Hlg].
  change (Z.log2 size) with (first (class_of size)) in Hlg.
  unfold request_size_class. rewrite downward_class_eq by done. bind_simp.
  set (f := first (class_of size)) in *. set (s := second (class_of size)) in *.
  destruct (negb _); bind_simp; [destruct (Z.eqb_spec (s + 1) 8)|].
  - unfold checked_add, u8_max. rewrite (proj2 (Z.leb_le _ _)) by lia. bind_simp.
    destruct (Z.ltb_spec (f + 1) 32); [done|]. intros _. assert (f = 31) as -> by lia. lia.
  - bind_simp. destruct (Z.ltb_spec f 32); [done|lia].
  - destruct (Z.ltb_spec f 32); [done|lia].
Qed.

(** [find_suitable] never fails; what it returns is free and large enough.  It
    misses no block of nine eighths of the request, and no fitting block at all as
    long as the hint is up to date. *)
Lemma find_suitable_ok h FS L size :
  lists_ok h FS L -> size_ok size = true -> size <= u32_max ->
  exists r, find_suitable h size = Ok r /\
    match r with
    | Some b => exists s, FS !! b = Some s /\ size <= s
    | None => (hint_max h FS -> forall b s, FS !! b = Some s -> s < size) /\
        (forall b s, FS !! b = Some s -> 8 * s < 9 * size)
    end.
Proof.
  intros Hok Hsz Hmax. pose proof (proj1 (size_ok_true _) Hsz) as [Hlo Hmod].
  assert (Hsizes : forall b s, FS !! b = Some s -> 16 <= s < 2 ^ 31).
  { intros b s Hb. destruct (l_blk _ _ _ Hok _ _ Hb) as ((? & ? & ?) & _ & Hs & ?).
    apply size_ok_true in Hs. pose proof (g_size _ (l_geom _ _ _ Hok)) as Hg.
    rewrite Value.MAX_PAYLOAD_eq in Hg. lia. }
  rewrite find_suitable_select. destruct (request_size_class size) as [c|] eqn:Hreq.
  2:{ exists None. split; [done|]. pose proof (request_class_None _ Hsz Hmax Hreq).
      split; [intros _|]; intros b s Hb; specialize (Hsizes _ _ Hb); lia. }
  destruct (request_class_lower size c Hsz Hmax Hreq) as (Hc1 & Hc2 & _ & Hcase).
  rewrite free_size_class_eq by done. bind_simp.
  destruct (class_of_ok size ltac:(lia)) as [Hlow _].
  assert (Hmember : forall c' l b, L !! Z.to_nat (class_index c') = Some l -> b ∈ l ->
    exists s, FS !! b = Some s /\ class_index (class_of s) = Z.of_nat (Z.to_nat (class_index c')))
    by (intros; by eapply (x_mem _ _ (l_index _ _ _ Hok))).
  set (hit := if decide _ then _ else _).
  assert (Hhit : exists r, hit = Ok r /\
    match r with Some b => exists s, FS !! b = Some s /\ size <= s | None => True end).
  { unfold hit. destruct (decide _); [by exists None|].
    destruct (list_at Hok _ Hlow) as (l & Hl & Hhd). rewrite Hhd. bind_simp.
    destruct l as [|b l]; simpl; [by exists None|].
    destruct (Hmember _ _ b Hl) as (s & Hs & _); [left|].
    destruct (blk_bounds Hok _ _ Hs) as (_ & Hne & _). rewrite (proj2 (Z.eqb_neq _ _) Hne).
    rewrite (blk_size Hok _ _ Hs). bind_simp. destruct (Z.leb_spec size s).
    - exists (Some b). eauto.
    - by exists None. }
  destruct Hhit as (r & -> & Hr). bind_simp. destruct r as [b|]; [by exists (Some b)|].
  destruct (select_ok h FS L c Hok (conj Hc1 Hc2)) as (sel & -> & Hsel). bind_simp.
  destruct sel as [c'|].
  - destruct Hsel as (Hf' & Hle & l & Hl & Hne). destruct l as [|b l]; [done|].
    unfold zget. rewrite (l_heads _ _ _ Hok), list_lookup_fmap, Hl. simpl.
    destruct (Hmember _ _ b Hl) as (s & Hs & Hci); [left|].
    destruct (blk_bounds Hok _ _ Hs) as (_ & Hnb & _). rewrite (proj2 (Z.eqb_neq _ _) Hnb).
    exists (Some b). split; [done|]. exists s. split; [done|]. specialize (Hsizes _ _ Hs).
    eapply (class_fits size c s); try done; [unfold u32_max; lia|].
    unfold class_fits_maps, class_index in *. lia.
  - assert (Hnear : forall b s, FS !! b = Some s -> 8 * s < 9 * size).
    { intros b s Hb. destruct (Z.lt_ge_cases (8 * s) (9 * size)) as [|Hge]; [done|exfalso].
      destruct (l_blk _ _ _ Hok _ _ Hb) as (_ & _ & Hsb & _). specialize (Hsizes _ _ Hb).
      pose proof (class_reached size c s Hsz Hmax Hreq Hsb ltac:(unfold u32_max; lia) ltac:(lia)) as Hr'.
      destruct (class_of_ok s ltac:(unfold u32_max; lia)) as [Hcs _].
      destruct (x_all _ _ (l_index _ _ _ Hok) _ _ Hb) as (l & Hl & Hin).
      rewrite (Hsel (class_of s) l) in Hin; [by apply not_elem_of_nil in Hin| |done|done].
      destruct Hcs. split; lia. }
    destruct (Z.eqb_spec (largest_free_hint h) NULL_OFFSET) as [E|E].
    + exists None. split; [done|]. split; [|done]. intros Hhm b s Hb. destruct (Hhm _ _ Hb) as (m & Hm & _).
      destruct (blk_bounds Hok _ _ Hm) as (_ & ? & _). done.
    + destruct (l_hint _ _ _ Hok) as [|[m Hm]]; [done|]. rewrite (blk_size Hok _ _ Hm). bind_simp.
      destruct (Z.leb_spec size m) as [Hle|Hlt]; [by exists (Some (largest_free_hint h)); eauto|].
      exists None. split; [done|]. split; [|done]. intros Hhm b s Hb. destruct (Hhm _ _ Hb) as (m' & Hm' & ?).
      rewrite Hm in Hm'. injection Hm' as <-. lia.
Qed.

End HeapLists.
