(* ===== verification/HeapInv.v ===== *)
(** The allocator of src/execution/heap.rs against its specification: a heap is
    a sequence of blocks that tile the arena, the free lists hold exactly the
    free ones, neighbouring free blocks are always merged, and the counters
    agree.  [reserve], [commit], [abort], [free] and [free_block] are functions
    on that sequence. *)

From S2P Require Import Prelude Words Fields Errors Value Layout Heap HeapLists.

Module HeapInv.
Import Errors Layout Heap HeapView HeapClass HeapLists.

(** ** The block sequence *)

Record blk := mkBlk { b_size : Z; b_flags : Z }.

Definition is_free (k : blk) : bool := b_flags k =? 0.

(** Free, reserved, live, live and marked. *)
Definition flags_ok (f : Z) : Prop := f = 0 \/ f = 1 \/ f = 5 \/ f = 7.

Fixpoint sizes (B : list blk) : Z :=
  match B with [] => 0 | k :: B => b_size k + sizes B end.

Definition last_size (prev : Z) (B : list blk) : Z := default prev (b_size <$> last B).

(** Blocks [B] stand one after the other from [off]; the predecessor sizes are
    recorded in the headers up to offset [cut] (the collector borrows the field
    beyond it). *)
Fixpoint seg (h : Heap) (cut off prev : Z) (B : list blk) : Prop :=
  match B with
  | [] => True
  | k :: B =>
      vsize h off = b_size k /\ vflags h off = b_flags k /\ (off <= cut -> vprev h off = prev) /\
      size_ok (b_size k) = true /\ flags_ok (b_flags k) /\
      seg h cut (off + b_size k) (b_size k) B
  end.

Fixpoint free_map (off : Z) (B : list blk) : gmap Z Z :=
  match B with
  | [] => ∅
  | k :: B =>
      if is_free k then <[off := b_size k]> (free_map (off + b_size k) B)
      else free_map (off + b_size k) B
  end.

Fixpoint free_sum (B : list blk) : Z :=
  match B with [] => 0 | k :: B => (if is_free k then b_size k else 0) + free_sum B end.

Definition is_live (k : blk) : bool := negb (Z.land (b_flags k) LIVE =? 0).

Fixpoint live_count (B : list blk) : Z :=
  match B with [] => 0 | k :: B => Z.b2z (is_live k) + live_count B end.

(** No two neighbours are free. *)
Fixpoint coalesced (B : list blk) : bool :=
  match B with
  | k :: ((k' :: _) as B) => negb (is_free k && is_free k') && coalesced B
  | _ => true
  end.

Record heap_ok (cut : Z) (h : Heap) (B : list blk) (L : list (list Z)) : Prop := {
  k_lists : lists_ok h (free_map 0 B) L;
  k_seg : seg h cut 0 0 B;
  k_sum : sizes B = arena_bytes h;
  k_coalesced : coalesced B = true;
  k_total : total_free h = free_sum B;
  k_live : live_objects h = live_count B }.

(** *** Sequence lemmas *)

Lemma sizes_app B1 B2 : sizes (B1 ++ B2) = sizes B1 + sizes B2.
Proof. induction B1; simpl; lia. Qed.
Lemma free_sum_app B1 B2 : free_sum (B1 ++ B2) = free_sum B1 + free_sum B2.
Proof. induction B1; simpl; lia. Qed.
Lemma live_count_app B1 B2 : live_count (B1 ++ B2) = live_count B1 + live_count B2.
Proof. induction B1; simpl; lia. Qed.

Lemma last_size_cons prev k B : last_size prev (k :: B) = last_size (b_size k) B.
Proof.
  unfold last_size. destruct B as [|k' B]; [done|]. rewrite last_cons_cons.
  destruct (last (k' :: B)) eqn:E; [done|by apply last_None in E].
Qed.

Lemma seg_app h cut off prev B1 B2 :
  seg h cut off prev (B1 ++ B2) <->
  seg h cut off prev B1 /\ seg h cut (off + sizes B1) (last_size prev B1) B2.
Proof.
  revert off prev. induction B1 as [|k B1 IH]; intros off prev.
  - simpl. rewrite Z.add_0_r. unfold last_size. simpl. tauto.
  - simpl. rewrite IH, last_size_cons, Z.add_assoc. tauto.
Qed.

Lemma coalesced_app B1 k B2 :
  coalesced (B1 ++ k :: B2) = coalesced (B1 ++ [k]) && coalesced (k :: B2).
Proof.
  induction B1 as [|a B1 IH]; [done|]. destruct B1 as [|b B1].
  - simpl. by rewrite andb_true_r.
  - cbn [app coalesced] in *. rewrite IH. by rewrite andb_assoc.
Qed.

(** Every block of a segment is at least 16 bytes and aligned. *)
Definition all_ok (B : list blk) : Prop :=
  Forall (fun k => size_ok (b_size k) = true /\ flags_ok (b_flags k)) B.

Lemma seg_all_ok h cut off prev B : seg h cut off prev B -> all_ok B.
Proof.
  revert off prev. induction B as [|k B IH]; intros off prev; [by constructor|].
  intros (_ & _ & _ & ? & ? & H). constructor; [done|by eapply IH].
Qed.

Lemma sizes_ok B : all_ok B -> 0 <= sizes B /\ sizes B mod 8 = 0.
Proof.
  induction 1 as [|k B [Hs _] _ IH]; [done|]. simpl. apply size_ok_true in Hs.
  Z.to_euclidean_division_equations. lia.
Qed.

Lemma free_map_range off B x s : all_ok B -> free_map off B !! x = Some s ->
  off <= x /\ x + s <= off + sizes B /\ size_ok s = true.
Proof.
  revert off. induction B as [|k B IH]; intros off Hall; [done|]. simpl.
  apply Forall_cons in Hall as [[Hs _] Hall].
  pose proof (proj1 (size_ok_true _) Hs). pose proof (proj1 (sizes_ok _ Hall)).
  assert (Hrec : free_map (off + b_size k) B !! x = Some s ->
    off <= x /\ x + s <= off + (b_size k + sizes B) /\ size_ok s = true).
  { intros Hx. destruct (IH _ Hall Hx) as (? & ? & ?). split_and!; [lia|lia|done]. }
  destruct (is_free k); [|done]. intros Hx.
  apply lookup_insert_Some in Hx as [[<- <-]|[_ Hx]]; [split_and!; [lia|lia|done]|by apply Hrec].
Qed.

Lemma free_map_below off B x : all_ok B -> x < off -> free_map off B !! x = None.
Proof.
  intros Hall Hx. destruct (free_map off B !! x) eqn:E; [|done].
  apply free_map_range in E; [lia|done].
Qed.

Lemma free_map_above off B x : all_ok B -> off + sizes B <= x -> free_map off B !! x = None.
Proof.
  intros Hall Hx. destruct (free_map off B !! x) eqn:E; [|done].
  apply free_map_range in E as (? & ? & Hs); [|done]. apply size_ok_true in Hs. lia.
Qed.

Lemma free_map_app off B1 B2 : all_ok B1 -> all_ok B2 ->
  free_map off (B1 ++ B2) = free_map off B1 ∪ free_map (off + sizes B1) B2.
Proof.
  revert off. induction B1 as [|k B1 IH]; intros off H1 H2; simpl.
  - by rewrite Z.add_0_r, (left_id_L ∅ (∪)).
  - apply Forall_cons in H1 as [_ H1]. rewrite IH, Z.add_assoc by done.
    destruct (is_free k); [|done]. by rewrite insert_union_l.
Qed.

(** A block in the middle. *)
Lemma free_map_mid B1 k B2 : all_ok B1 -> all_ok (k :: B2) ->
  free_map 0 (B1 ++ k :: B2) =
  (if is_free k then <[sizes B1 := b_size k]> else id)
    (free_map 0 B1 ∪ free_map (sizes B1 + b_size k) B2).
Proof.
  intros H1 H2. rewrite free_map_app by done. simpl. destruct (is_free k); [|done].
  rewrite <- insert_union_r; [done|]. apply free_map_above; [done|lia].
Qed.

Lemma free_map_mid_None B1 k B2 : all_ok B1 -> all_ok (k :: B2) ->
  (free_map 0 B1 ∪ free_map (sizes B1 + b_size k) B2) !! sizes B1 = None.
Proof.
  intros H1 H2. apply Forall_cons in H2 as [[Hs _] H2]. apply size_ok_true in Hs.
  apply lookup_union_None. split; [apply free_map_above; [done|lia]|apply free_map_below; [done|lia]].
Qed.

Lemma free_map_lookup off B x s : free_map off B !! x = Some s -> all_ok B ->
  exists B1 B2, B = B1 ++ mkBlk s 0 :: B2 /\ x = off + sizes B1.
Proof.
  revert off. induction B as [|k B IH]; intros off; [done|]. simpl. intros Hx Hall.
  apply Forall_cons in Hall as [_ Hall].
  assert (Hrec : free_map (off + b_size k) B !! x = Some s ->
    exists B1 B2, k :: B = B1 ++ mkBlk s 0 :: B2 /\ x = off + sizes B1).
  { intros Hx'. destruct (IH _ Hx' Hall) as (B1 & B2 & -> & ->).
    exists (k :: B1), B2. simpl. split; [done|lia]. }
  destruct (is_free k) eqn:Ef; [|by apply Hrec].
  apply lookup_insert_Some in Hx as [[<- <-]|[_ Hx]]; [|by apply Hrec].
  exists [], B. destruct k as [sz fl]. unfold is_free in Ef. simpl in *. bsimp. subst fl.
  split; [done|lia].
Qed.

(** ** Blocks by offset *)

Fixpoint at_off (off : Z) (B : list blk) (x : Z) (k : blk) : Prop :=
  match B with
  | [] => False
  | k0 :: B => (x = off /\ k = k0) \/ at_off (off + b_size k0) B x k
  end.

Lemma at_app off B1 B2 x k :
  at_off off (B1 ++ B2) x k <-> at_off off B1 x k \/ at_off (off + sizes B1) B2 x k.
Proof.
  revert off. induction B1 as [|k0 B1 IH]; intros off; simpl; [rewrite Z.add_0_r; tauto|].
  rewrite IH, Z.add_assoc. tauto.
Qed.

Lemma at_mid off B1 k B2 : at_off off (B1 ++ k :: B2) (off + sizes B1) k.
Proof. apply at_app. right. by left. Qed.

Lemma at_ok off B x k : all_ok B -> at_off off B x k -> 16 <= b_size k /\ b_size k mod 8 = 0 /\ flags_ok (b_flags k).
Proof.
  revert off. induction B as [|k0 B IH]; intros off Hall; [done|].
  apply Forall_cons in Hall as [[Hs Hf] Hall]. apply size_ok_true in Hs.
  intros [[_ ->]|H]; [naive_solver|by eapply IH].
Qed.

Lemma at_range off B x k : all_ok B -> at_off off B x k -> off <= x /\ x + b_size k <= off + sizes B.
Proof.
  revert off. induction B as [|k0 B IH]; intros off Hall; [done|].
  apply Forall_cons in Hall as [[Hs Hf] Hall]. apply size_ok_true in Hs.
  pose proof (sizes_ok _ Hall). simpl.
  intros [[-> ->]|Hx]; [lia|]. apply IH in Hx; [lia|done].
Qed.

Lemma at_sep off B x k x' k' : all_ok B -> at_off off B x k -> at_off off B x' k' ->
  (x = x' /\ k = k') \/ x + b_size k <= x' \/ x' + b_size k' <= x.
Proof.
  revert off. induction B as [|k0 B IH]; intros off Hall; [done|].
  apply Forall_cons in Hall as [[Hs Hf] Hall]. simpl.
  intros [[-> ->]|H] [[-> ->]|H']; [by left| | |by eapply IH].
  - apply at_range in H'; [lia|done].
  - apply at_range in H; [lia|done].
Qed.

Lemma at_free off B x s : all_ok B -> free_map off B !! x = Some s <-> at_off off B x (mkBlk s 0).
Proof.
  intros Hall. split.
  - intros H. destruct (free_map_lookup _ _ _ _ H Hall) as (B1 & B2 & -> & ->). apply at_mid.
  - revert off. induction B as [|k0 B IH]; intros off; [done|].
    apply Forall_cons in Hall as [[Hs Hf] Hall]. apply size_ok_true in Hs. simpl.
    intros [[-> <-]|H]; [apply lookup_insert_eq|].
    destruct (is_free k0); [|by apply IH].
    apply at_range in H as Hr; [|done]. rewrite lookup_insert_ne by lia. by apply IH.
Qed.

(** The link words of free blocks meet no header and no allocated block. *)
Lemma link_spares FS B x k i :
  all_ok B -> FS ⊆ free_map 0 B -> at_off 0 B x k -> link_bytes FS i ->
  ~ rng x 0 (if is_free k then 8 else b_size k) i.
Proof.
  intros Hall Hsub Hx (b & s & Hb & Hi) Hr.
  apply (lookup_weaken _ _ _ _ Hb) in Hsub. apply at_free in Hsub; [|done].
  pose proof (at_ok _ _ _ _ Hall Hx) as (? & _).
  pose proof (at_ok _ _ _ _ Hall Hsub) as (? & _).
  destruct (at_sep _ _ _ _ _ _ Hall Hx Hsub) as [[-> ->]|Hd].
  - unfold is_free, rng in *. simpl in *. lia.
  - unfold rng in *. simpl in *. destruct (is_free k); lia.
Qed.

(** ** What an operation keeps of the other blocks *)

Definition hdr_kept (h h' : Heap) (off : Z) (B : list blk) : Prop :=
  forall x k, at_off off B x k -> same_header h h' x.

(** The object type and the payload bytes of every allocated block. *)
Definition pay_kept (h h' : Heap) (off : Z) (B : list blk) : Prop :=
  forall x k, at_off off B x k -> is_free k = false ->
    vtype h' x = vtype h x /\
    slice (x + 8) (b_size k - 8) (arena h') = slice (x + 8) (b_size k - 8) (arena h).

Lemma hdr_kept_trans h h1 h2 off B : hdr_kept h h1 off B -> hdr_kept h1 h2 off B -> hdr_kept h h2 off B.
Proof. intros H1 H2 x k Hx. eapply same_header_trans; eauto. Qed.

Lemma pay_kept_trans h h1 h2 off B : pay_kept h h1 off B -> pay_kept h1 h2 off B -> pay_kept h h2 off B.
Proof.
  intros H1 H2 x k Hx Hf. destruct (H1 x k Hx Hf) as [T1 S1], (H2 x k Hx Hf) as [T2 S2].
  split; congruence.
Qed.

Lemma hdr_kept_app h h' off B1 B2 :
  hdr_kept h h' off (B1 ++ B2) <-> hdr_kept h h' off B1 /\ hdr_kept h h' (off + sizes B1) B2.
Proof. unfold hdr_kept. setoid_rewrite at_app. naive_solver. Qed.

Lemma pay_kept_app h h' off B1 B2 :
  pay_kept h h' off (B1 ++ B2) <-> pay_kept h h' off B1 /\ pay_kept h h' (off + sizes B1) B2.
Proof. unfold pay_kept. setoid_rewrite at_app. naive_solver. Qed.

Lemma seg_kept h h' cut off prev B : hdr_kept h h' off B -> seg h cut off prev B -> seg h' cut off prev B.
Proof.
  revert off prev. induction B as [|k B IH]; intros off prev Hk; [done|].
  intros (Hs & Hf & Hp & ? & ? & H). destruct (Hk off k) as (E1 & E2 & E3); [by left|].
  simpl. rewrite E1, E2, E3. split_and!; try done. apply IH; [|done].
  intros x k' Hx. apply (Hk x k'). by right.
Qed.

Lemma frame_kept P h h' off B : geom h -> frame P h h' -> 0 <= off -> all_ok B ->
  (forall x k i, at_off off B x k -> P i -> ~ rng x 0 (if is_free k then 8 else b_size k) i) ->
  hdr_kept h h' off B /\ pay_kept h h' off B.
Proof.
  intros Hg Hf Ho Hall HP. split.
  - intros x k Hx. pose proof (at_range _ _ _ _ Hall Hx). pose proof (at_ok _ _ _ _ Hall Hx) as (? & _).
    eapply frame_header; [done|done|lia|]. intros i Hi Hp. apply (HP x k i Hx Hp).
    unfold rng in *. destruct (is_free k); lia.
  - intros x k Hx Hfr. pose proof (at_range _ _ _ _ Hall Hx). pose proof (at_ok _ _ _ _ Hall Hx) as (? & _).
    assert (HP' : forall i, rng x 0 (b_size k) i -> ~ P i).
    { intros i Hi Hp. apply (HP x k i Hx Hp). by rewrite Hfr. }
    split.
    + eapply frame_type; [done|done|lia|]. intros i Hi. apply HP'. unfold rng in *. lia.
    + eapply frame_slice; [done|done|lia|]. intros i Hi. apply HP'. unfold rng in *. lia.
Qed.

(** Free-list operations keep every block of the sequence. *)
Lemma links_kept FS h h' B : geom h -> all_ok B -> FS ⊆ free_map 0 B ->
  frame (link_bytes FS) h h' -> hdr_kept h h' 0 B /\ pay_kept h h' 0 B.
Proof.
  intros Hg Hall Hsub Hf. eapply frame_kept; [done|done|done|done|].
  intros x k i Hx Hp. by eapply link_spares.
Qed.

(** Writes inside [lo, hi) keep the blocks before and after. *)
Lemma range_kept (lo hi : Z) h h' off B : geom h -> frame (fun i => lo <= i < hi) h h' ->
  0 <= off -> all_ok B -> off + sizes B <= lo \/ hi <= off ->
  hdr_kept h h' off B /\ pay_kept h h' off B.
Proof.
  intros Hg Hf Ho Hall Hd. eapply frame_kept; [done..|].
  intros x k i Hx Hp. pose proof (at_range _ _ _ _ Hall Hx). pose proof (at_ok _ _ _ _ Hall Hx) as (? & _).
  simpl in Hp. unfold rng. destruct (is_free k); lia.
Qed.

(** Rewriting the predecessor size of the block that follows. *)
Lemma update_next_ok h cut b size p B :
  geom h -> 0 <= b -> b mod 8 = 0 -> size_ok size = true -> b + size + sizes B = arena_bytes h ->
  seg h cut (b + size) p B ->
  exists h', update_next_previous_size b size h = (Ok tt, h') /\
    touch (fun i => b + size <= i < b + size + 8 /\ B <> []) h h' /\
    seg h' cut (b + size) size B /\ pay_kept h h' (b + size) B.
Proof.
  intros Hg Hb Hm Hs Hsum Hseg. pose proof (seg_all_ok _ _ _ _ _ Hseg) as Hall.
  apply size_ok_true in Hs as [Hs Hsm]. pose proof (sizes_ok _ Hall) as [Hpos _].
  pose proof (g_size _ Hg) as Hgs. rewrite Value.MAX_PAYLOAD_eq in Hgs.
  unfold update_next_previous_size, checked_add.
  rewrite (proj2 (Z.leb_le _ _)) by (unfold u32_max; lia).
  unfold mbind, ST_bind, st_lift, st_get, ok_or. destruct B as [|k B].
  - simpl in *. rewrite (proj2 (Z.ltb_ge _ _)) by lia. exists h. split; [done|].
    split; [by apply touch_refl|]. split; done.
  - pose proof Hall as Hall'. apply Forall_cons in Hall' as [[Hks _] Hall'].
    apply size_ok_true in Hks as [Hks Hkm]. simpl in Hsum. pose proof (sizes_ok _ Hall') as [? _].
    rewrite (proj2 (Z.ltb_lt _ _)) by lia.
    destruct (write_prev_gen h (b + size) size) as (h' & Hrun & Ht & Hv & E1 & E2 & E3 & E4);
      [done|split_and!; [lia|Z.to_euclidean_division_equations; lia|lia]|left; split; [lia|done]|].
    rewrite (proj2 (Z.eqb_neq size NULL_OFFSET)) in Hv by (unfold NULL_OFFSET, u32_max; lia).
    exists h'. split; [done|]. split; [eapply touch_mono; [|done]; unfold rng; intros; split; [lia|done]|].
    assert (Hk : hdr_kept h h' (b + size + b_size k) B /\ pay_kept h h' (b + size + b_size k) B).
    { eapply (range_kept (b + size) (b + size + 8)); [done| |lia|done|lia].
      apply touch_frame. eapply touch_mono; [|done]. unfold rng. lia. }
    split.
    + destruct Hseg as (? & ? & _ & ? & ? & Hseg). simpl. rewrite E1, E2.
      split_and!; try done. by eapply seg_kept; [apply Hk|].
    + intros x k' [[-> ->]|Hx] Hf; [|by apply Hk]. split; [done|].
      eapply touch_slice; [done|done|lia|]. unfold rng. intros. lia.
Qed.

Lemma seg_at h cut off prev B x k : seg h cut off prev B -> at_off off B x k ->
  vsize h x = b_size k /\ vflags h x = b_flags k.
Proof.
  revert off prev. induction B as [|k0 B IH]; intros off prev; [done|].
  intros (? & ? & _ & _ & _ & H) [[-> ->]|Hx]; [done|by eapply IH].
Qed.

(** The free lists only depend on the sizes and links of their blocks. *)
Lemma lists_same P h h' FS L : lists_ok h FS L -> touch P h h' ->
  (forall x s, FS !! x = Some s -> vsize h' x = vsize h x /\ same_links h h' x) ->
  lists_ok h' FS L.
Proof.
  intros Hok Ht Hsame. constructor.
  - apply Ht.
  - apply Hok.
  - rewrite (touch_heads _ _ _ Ht). apply Hok.
  - intros i l Hi. eapply dseg_ext; [|by eapply (l_seg _ _ _ Hok)]. intros x Hx.
    destruct (x_mem _ _ (l_index _ _ _ Hok) _ _ _ Hi Hx) as (s & Hs & _). by apply (Hsame x s).
  - intros x s Hx. destruct (l_blk _ _ _ Hok _ _ Hx) as (? & ? & ? & ?).
    destruct (Hsame _ _ Hx) as [-> _]. rewrite (touch_size _ _ _ Ht). split_and!; try done.
    by eapply touch_bo.
  - apply Hok.
  - rewrite (touch_first _ _ _ Ht), (touch_second _ _ _ Ht). apply Hok.
  - rewrite (touch_hint _ _ _ Ht). apply Hok.
Qed.

(** A write that avoids the first 16 bytes of every free block. *)
Lemma lists_avoid P h h' FS L : lists_ok h FS L -> touch P h h' ->
  (forall x s i, FS !! x = Some s -> P i -> ~ rng x 0 16 i) -> lists_ok h' FS L.
Proof.
  intros Hok Ht HP. eapply lists_same; [done|done|]. intros x s Hx.
  pose proof (l_geom _ _ _ Hok) as Hg. destruct (l_blk _ _ _ Hok _ _ Hx) as ((? & ? & ?) & _).
  split.
  - eapply touch_header; [done|done|done|]. intros i Hi Hp. apply (HP _ _ _ Hx Hp). unfold rng in *. lia.
  - eapply touch_links; [done|done|done|]. intros i Hi Hp. apply (HP _ _ _ Hx Hp). unfold rng in *. lia.
Qed.

Lemma lists_counters h FS L t n : lists_ok h FS L ->
  lists_ok (set_total_free t h) FS L /\ lists_ok (set_live_objects n h) FS L.
Proof.
  intros []. split; (constructor; try done; [by apply (geom_ext h)|]); intros i l Hi;
    eapply dseg_ext; eauto; done.
Qed.

Lemma last_size_ok B : all_ok B -> 0 <= last_size 0 B <= sizes B /\ last_size 0 B mod 8 = 0.
Proof.
  intros Hall. unfold last_size. destruct (last B) as [k|] eqn:E; simpl; [|pose proof (sizes_ok _ Hall); done || (split; [lia|done])].
  apply last_Some in E as [B' ->]. apply Forall_app in Hall as [H1 H2].
  apply Forall_cons in H2 as [[Hs _] _]. apply size_ok_true in Hs. rewrite sizes_app. simpl.
  pose proof (sizes_ok _ H1). lia.
Qed.

(** A position of the sequence, with what the invariant says there. *)
Section Position.
Context (cut : Z) (h : Heap) (B1 B2 : list blk) (k : blk) (L : list (list Z)).
Context (Hok : heap_ok cut h (B1 ++ k :: B2) L).

Lemma pos_ok : all_ok B1 /\ all_ok B2 /\ size_ok (b_size k) = true /\ flags_ok (b_flags k).
Proof.
  pose proof (seg_all_ok _ _ _ _ _ (k_seg _ _ _ _ Hok)) as Hall.
  apply Forall_app in Hall as [? H2]. apply Forall_cons in H2 as [[? ?] ?]. done.
Qed.

Lemma pos_seg : seg h cut 0 0 B1 /\ vsize h (sizes B1) = b_size k /\ vflags h (sizes B1) = b_flags k /\
  (sizes B1 <= cut -> vprev h (sizes B1) = last_size 0 B1) /\
  seg h cut (sizes B1 + b_size k) (b_size k) B2.
Proof.
  pose proof (k_seg _ _ _ _ Hok) as H. apply seg_app in H as [? H].
  destruct H as (? & ? & ? & _ & _ & ?). done.
Qed.

Lemma pos_bounds : 0 <= sizes B1 /\ sizes B1 mod 8 = 0 /\ 16 <= b_size k /\ b_size k mod 8 = 0 /\
  sizes B1 + b_size k + sizes B2 = arena_bytes h /\ 0 <= sizes B2 /\ arena_bytes h < 2 ^ 31.
Proof.
  destruct pos_ok as (H1 & H2 & Hs & _). apply size_ok_true in Hs.
  pose proof (sizes_ok _ H1). pose proof (sizes_ok _ H2).
  pose proof (k_sum _ _ _ _ Hok) as Hsum. rewrite sizes_app in Hsum. simpl in Hsum.
  pose proof (g_size _ (l_geom _ _ _ (k_lists _ _ _ _ Hok))) as Hg. rewrite Value.MAX_PAYLOAD_eq in Hg.
  split_and!; lia.
Qed.

Lemma pos_bo : bo h (sizes B1).
Proof. destruct pos_bounds as (? & ? & ? & ? & ? & ? & ?). split_and!; lia. Qed.

Lemma pos_free_map : free_map 0 (B1 ++ k :: B2) =
  (if is_free k then <[sizes B1 := b_size k]> else id)
    (free_map 0 B1 ∪ free_map (sizes B1 + b_size k) B2).
Proof.
  destruct pos_ok as (? & ? & ? & ?). apply free_map_mid; [done|by constructor].
Qed.

(** Free blocks other than this one lie before or after it. *)
Lemma pos_others x s : (free_map 0 B1 ∪ free_map (sizes B1 + b_size k) B2) !! x = Some s ->
  16 <= s /\ (0 <= x /\ x + s <= sizes B1 \/ sizes B1 + b_size k <= x /\ x + s <= arena_bytes h).
Proof.
  destruct pos_ok as (H1 & H2 & _). destruct pos_bounds as (? & ? & ? & ? & ? & ? & ?).
  intros [Hx|[_ Hx]]%lookup_union_Some_raw.
  - apply free_map_range in Hx as (? & ? & Hs); [|done]. apply size_ok_true in Hs. lia.
  - apply free_map_range in Hx as (? & ? & Hs); [|done]. apply size_ok_true in Hs. lia.
Qed.

End Position.

(** ** A hole in the sequence

    Between unlinking a block and writing the new headers, the operations work
    on a region that belongs to no block. *)

Definition around (B1 : list blk) (S : Z) (B2 : list blk) : gmap Z Z :=
  free_map 0 B1 ∪ free_map (sizes B1 + S) B2.

Record hole (cut : Z) (h : Heap) (B1 : list blk) (S : Z) (B2 : list blk) (L : list (list Z)) : Prop := {
  o_lists : lists_ok h (around B1 S B2) L;
  o_left : seg h cut 0 0 B1;
  o_right : exists p, seg h cut (sizes B1 + S) p B2;
  o_size : size_ok S = true;
  o_sum : sizes B1 + S + sizes B2 = arena_bytes h }.

(** Payloads and types on both sides stay. *)
Definition sides_kept (h h' : Heap) (B1 : list blk) (S : Z) (B2 : list blk) : Prop :=
  pay_kept h h' 0 B1 /\ pay_kept h h' (sizes B1 + S) B2.

Lemma sides_kept_trans h h1 h2 B1 S B2 :
  sides_kept h h1 B1 S B2 -> sides_kept h1 h2 B1 S B2 -> sides_kept h h2 B1 S B2.
Proof. intros [? ?] [? ?]. split; by eapply pay_kept_trans. Qed.

Lemma sides_kept_refl h B1 S B2 : sides_kept h h B1 S B2.
Proof. done. Qed.

Section Hole.
Context {cut : Z} {h : Heap} {B1 B2 : list blk} {S : Z} {L : list (list Z)}.
Context (Hh : hole cut h B1 S B2 L).

Lemma hole_geom : geom h.
Proof. apply (l_geom _ _ _ (o_lists _ _ _ _ _ _ Hh)). Qed.

Lemma hole_ok : all_ok B1 /\ all_ok B2.
Proof.
  split; [eapply seg_all_ok; apply Hh|]. destruct (o_right _ _ _ _ _ _ Hh) as [p Hp].
  by eapply seg_all_ok.
Qed.

Lemma hole_bounds : 0 <= sizes B1 /\ sizes B1 mod 8 = 0 /\ 16 <= S /\ S mod 8 = 0 /\
  0 <= sizes B2 /\ sizes B2 mod 8 = 0 /\ sizes B1 + S + sizes B2 = arena_bytes h /\ arena_bytes h < 2 ^ 31.
Proof.
  destruct hole_ok as [H1 H2]. pose proof (sizes_ok _ H1). pose proof (sizes_ok _ H2).
  pose proof (proj1 (size_ok_true _) (o_size _ _ _ _ _ _ Hh)). pose proof (o_sum _ _ _ _ _ _ Hh).
  pose proof (g_size _ hole_geom) as Hg. rewrite Value.MAX_PAYLOAD_eq in Hg. split_and!; lia.
Qed.

(** The sequence with the hole taken as one block. *)
Lemma hole_seq f : flags_ok f -> f <> 0 ->
  all_ok (B1 ++ mkBlk S f :: B2) /\ free_map 0 (B1 ++ mkBlk S f :: B2) = around B1 S B2.
Proof.
  intros Hf Hne. destruct hole_ok as [H1 H2].
  assert (H3 : all_ok (mkBlk S f :: B2)) by (constructor; [split; [apply Hh|done]|done]).
  split; [by apply Forall_app|]. rewrite free_map_mid by done. unfold is_free. simpl.
  by rewrite (proj2 (Z.eqb_neq f 0)).
Qed.

Lemma around_sep x s : around B1 S B2 !! x = Some s ->
  16 <= s /\ (0 <= x /\ x + s <= sizes B1 \/ sizes B1 + S <= x /\ x + s <= arena_bytes h).
Proof.
  destruct hole_ok as [H1 H2]. destruct hole_bounds as (? & ? & ? & ? & ? & ? & ? & ?).
  intros [Hx|[_ Hx]]%lookup_union_Some_raw;
    apply free_map_range in Hx as (? & ? & Hs); try done; apply size_ok_true in Hs; lia.
Qed.

(** Free-list operations leave both sides alone. *)
Lemma hole_links FS h' : FS ⊆ around B1 S B2 -> frame (link_bytes FS) h h' ->
  hdr_kept h h' 0 B1 /\ hdr_kept h h' (sizes B1 + S) B2 /\ sides_kept h h' B1 S B2.
Proof.
  intros Hsub Hf. destruct (hole_seq 1) as [Hall Heq]; [by right; left|done|].
  rewrite <- Heq in Hsub. destruct (links_kept FS h h' _ hole_geom Hall Hsub Hf) as [Hk Hp].
  apply hdr_kept_app in Hk as [Hk1 Hk2]. apply pay_kept_app in Hp as [Hp1 Hp2].
  split_and!; [done| |split; [done|]].
  - intros x k Hx. apply (Hk2 x k). by right.
  - intros x k Hx. apply (Hp2 x k). by right.
Qed.

(** Writes inside the hole. *)
Lemma hole_touch lo hi h' : sizes B1 <= lo -> hi <= sizes B1 + S ->
  touch (fun i => lo <= i < hi) h h' -> hole cut h' B1 S B2 L /\ sides_kept h h' B1 S B2.
Proof.
  intros Hlo Hhi Ht. destruct hole_ok as [H1 H2].
  destruct hole_bounds as (? & ? & ? & ? & ? & ? & ? & ?).
  pose proof (touch_frame _ _ _ Ht) as Hf.
  destruct (range_kept lo hi h h' 0 B1) as [Hk1 Hp1]; [apply hole_geom|done|done|done|lia|].
  destruct (range_kept lo hi h h' (sizes B1 + S) B2) as [Hk2 Hp2]; [apply hole_geom|done|lia|done|lia|].
  split; [|done]. destruct Hh as [Hl Hs1 [p Hs2] Hsz Hsum]. constructor; try done.
  - eapply lists_avoid; [done|done|]. intros x s i Hx Hi Hr. simpl in Hi.
    apply around_sep in Hx. unfold rng in Hr. lia.
  - by eapply seg_kept.
  - exists p. by eapply seg_kept.
  - by rewrite (f_size _ _ _ Hf).
Qed.

End Hole.

(** *** Opening and growing a hole *)

Lemma around_left B1 q S B2 : all_ok B1 -> all_ok [mkBlk q 0] -> all_ok B2 -> 0 < S ->
  around (B1 ++ [mkBlk q 0]) S B2 = <[sizes B1 := q]> (around B1 (q + S) B2) /\
  around B1 (q + S) B2 !! sizes B1 = None.
Proof.
  intros H1 Hq H2 HS. pose proof (Forall_inv Hq) as [Hs _]. apply size_ok_true in Hs. simpl in Hs.
  unfold around. rewrite free_map_app by done. rewrite sizes_app. simpl.
  replace (sizes B1 + (q + 0) + S) with (sizes B1 + (q + S)) by lia. split.
  - change (is_free (mkBlk q 0)) with true. simpl.
    rewrite <- insert_union_r by (apply free_map_above; [done|lia]).
    rewrite (right_id_L ∅ (∪)). by rewrite insert_union_l.
  - apply lookup_union_None. split; [apply free_map_above; [done|lia]|apply free_map_below; [done|lia]].
Qed.

Lemma around_right B1 S q B2 : all_ok B1 -> all_ok (mkBlk q 0 :: B2) -> 0 < S ->
  around B1 S (mkBlk q 0 :: B2) = <[sizes B1 + S := q]> (around B1 (S + q) B2) /\
  around B1 (S + q) B2 !! (sizes B1 + S) = None.
Proof.
  intros H1 H2 HS. pose proof H2 as H2'. apply Forall_cons in H2' as [[Hs _] H2'].
  apply size_ok_true in Hs. simpl in Hs. unfold around. simpl. rewrite Z.add_assoc. split.
  - rewrite <- insert_union_r by (apply free_map_above; [done|lia]). done.
  - apply lookup_union_None. split; [apply free_map_above; [done|lia]|apply free_map_below; [done|lia]].
Qed.

Lemma extend_left cut h B1 q S B2 L :
  hole cut h (B1 ++ [mkBlk q 0]) S B2 L ->
  exists h' L', remove_free (sizes B1) h = (Ok tt, h') /\ hole cut h' B1 (q + S) B2 L' /\
    frame (link_bytes (around (B1 ++ [mkBlk q 0]) S B2)) h h' /\
    sides_kept h h' B1 (q + S) B2 /\ same_header h h' (sizes B1) /\
    (forall s, covers h (around (B1 ++ [mkBlk q 0]) S B2) s -> covers h' (around B1 (q + S) B2) s \/ s <= q).
Proof.
  intros Hh. destruct (hole_ok Hh) as [H1 H2]. destruct (hole_bounds Hh) as (? & ? & ? & ? & ? & ? & ? & ?).
  rewrite sizes_app in *. simpl in *. apply Forall_app in H1 as [H1 Hq].
  destruct (around_left B1 q S B2 H1 Hq H2) as [Heq Hnone]; [lia|].
  pose proof (Forall_inv Hq) as [Hqs _]. apply size_ok_true in Hqs. simpl in Hqs.
  destruct (remove_free_ok h _ L (sizes B1) q (o_lists _ _ _ _ _ _ Hh)) as (h' & L' & Hrun & Hl & Hf & Hhint).
  { rewrite Heq. apply lookup_insert_eq. }
  rewrite Heq, delete_insert_id in Hl by done.
  destruct (hole_links Hh _ h' (reflexivity _) Hf) as (Hk1 & Hk2 & Hp1 & Hp2).
  apply hdr_kept_app in Hk1 as [Hk1 Hkq]. apply pay_kept_app in Hp1 as [Hp1 _].
  replace (sizes (B1 ++ [mkBlk q 0]) + S) with (sizes B1 + (q + S)) in * by (rewrite sizes_app; simpl; lia).
  exists h', L'. split_and!; try done;
    [|apply (Hkq _ (mkBlk q 0)); by left|intros s; rewrite Heq; by apply covers_remove].
  destruct Hh as [_ Hs1 [p Hs2] Hsz Hsum]. apply seg_app in Hs1 as [Hs1 _]. constructor.
  - done.
  - by eapply seg_kept.
  - exists p. rewrite sizes_app in Hs2. simpl in Hs2.
    replace (sizes B1 + (q + 0) + S) with (sizes B1 + (q + S)) in Hs2 by lia. by eapply seg_kept.
  - apply size_ok_true. Z.to_euclidean_division_equations. lia.
  - rewrite (f_size _ _ _ Hf). lia.
Qed.

Lemma extend_right cut h B1 S q B2 L :
  hole cut h B1 S (mkBlk q 0 :: B2) L ->
  exists h' L', remove_free (sizes B1 + S) h = (Ok tt, h') /\ hole cut h' B1 (S + q) B2 L' /\
    frame (link_bytes (around B1 S (mkBlk q 0 :: B2))) h h' /\
    sides_kept h h' B1 (S + q) B2 /\ same_header h h' (sizes B1 + S) /\
    (forall s, covers h (around B1 S (mkBlk q 0 :: B2)) s -> covers h' (around B1 (S + q) B2) s \/ s <= q).
Proof.
  intros Hh. destruct (hole_ok Hh) as [H1 H2]. destruct (hole_bounds Hh) as (? & ? & ? & ? & ? & ? & ? & ?).
  destruct (around_right B1 S q B2 H1 H2) as [Heq Hnone]; [lia|].
  apply Forall_cons in H2 as [[Hqs _] H2]. apply size_ok_true in Hqs. simpl in Hqs.
  destruct (remove_free_ok h _ L (sizes B1 + S) q (o_lists _ _ _ _ _ _ Hh)) as (h' & L' & Hrun & Hl & Hf & Hhint).
  { rewrite Heq. apply lookup_insert_eq. }
  rewrite Heq, delete_insert_id in Hl by done.
  destruct (hole_links Hh _ h' (reflexivity _) Hf) as (Hk1 & Hk2 & Hp1 & Hp2).
  assert (Hk2' : hdr_kept h h' (sizes B1 + (S + q)) B2).
  { intros x k Hx. apply (Hk2 x k). right. simpl. by rewrite <- Z.add_assoc. }
  assert (Hp2' : pay_kept h h' (sizes B1 + (S + q)) B2).
  { intros x k Hx. apply (Hp2 x k). right. simpl. by rewrite <- Z.add_assoc. }
  exists h', L'. split_and!; try done;
    [|apply (Hk2 _ (mkBlk q 0)); by left|intros s; rewrite Heq; by apply covers_remove].
  destruct Hh as [_ Hs1 [p Hs2] Hsz Hsum]. constructor.
  - done.
  - by eapply seg_kept.
  - exists q. destruct Hs2 as (_ & _ & _ & _ & _ & Hs2). simpl in Hs2.
    rewrite <- Z.add_assoc in Hs2. by eapply seg_kept.
  - apply size_ok_true. Z.to_euclidean_division_equations. lia.
  - rewrite (f_size _ _ _ Hf). simpl in Hsum. lia.
Qed.

(** An allocated block already is a hole for the free lists. *)
Lemma open_alloc cut h B1 k B2 L :
  heap_ok cut h (B1 ++ k :: B2) L -> is_free k = false -> hole cut h B1 (b_size k) B2 L.
Proof.
  intros Hok Hf. destruct (pos_seg _ _ _ _ _ _ Hok) as (? & ? & ? & ? & ?).
  destruct (pos_ok _ _ _ _ _ _ Hok) as (? & ? & ? & ?).
  pose proof (pos_free_map _ _ _ _ _ _ Hok) as Hm. rewrite Hf in Hm. unfold id in Hm.
  destruct (pos_bounds _ _ _ _ _ _ Hok) as (? & ? & ? & ? & ? & ? & ?).
  constructor; try done; [|by eexists]. unfold around. rewrite <- Hm. apply Hok.
Qed.

Lemma open_free cut h B1 s B2 L :
  heap_ok cut h (B1 ++ mkBlk s 0 :: B2) L ->
  exists h' L', remove_free (sizes B1) h = (Ok tt, h') /\ hole cut h' B1 s B2 L' /\
    frame (link_bytes (free_map 0 (B1 ++ mkBlk s 0 :: B2))) h h' /\
    sides_kept h h' B1 s B2 /\ seg h' cut (sizes B1 + s) s B2.
Proof.
  intros Hok. destruct (pos_seg _ _ _ _ _ _ Hok) as (Hs1 & _ & _ & _ & Hs2).
  destruct (pos_ok _ _ _ _ _ _ Hok) as (HB1 & HB2 & Hs & Hfl).
  pose proof (pos_free_map _ _ _ _ _ _ Hok) as Hm. simpl in Hm.
  destruct (pos_bounds _ _ _ _ _ _ Hok) as (? & ? & ? & ? & ? & ? & ?).
  assert (Hall : all_ok (mkBlk s 0 :: B2)) by (by constructor).
  destruct (remove_free_ok h _ L (sizes B1) s (k_lists _ _ _ _ Hok)) as (h' & L' & Hrun & Hl & Hf & _).
  { rewrite Hm. apply lookup_insert_eq. }
  rewrite Hm, delete_insert_id in Hl by (apply (free_map_mid_None B1 (mkBlk s 0)); done).
  destruct (links_kept (free_map 0 (B1 ++ mkBlk s 0 :: B2)) h h' (B1 ++ mkBlk s 0 :: B2)
    (l_geom _ _ _ (k_lists _ _ _ _ Hok))) as [Hk Hp]; [by apply Forall_app|done|done|].
  apply hdr_kept_app in Hk as [Hk1 Hk2]. apply pay_kept_app in Hp as [Hp1 Hp2].
  assert (Hs2' : seg h' cut (sizes B1 + s) s B2).
  { eapply seg_kept; [|done]. intros x k Hx. apply (Hk2 x k). by right. }
  exists h', L'. split_and!; try done.
  - constructor; try done; [by eapply seg_kept|by eexists|by rewrite (f_size _ _ _ Hf)].
  - split; [done|]. intros x k Hx. apply (Hp2 x k). by right.
Qed.

(** *** Filling a hole *)

(** The predecessor field of the block after the hole. *)
Lemma hole_update_next cut h B1 S B2 L r size :
  hole cut h B1 S B2 L -> sizes B1 <= r -> r + size = sizes B1 + S -> r mod 8 = 0 -> size_ok size = true ->
  exists h', update_next_previous_size r size h = (Ok tt, h') /\
    touch (fun i => sizes B1 + S <= i < sizes B1 + S + 8 /\ B2 <> []) h h' /\
    hole cut h' B1 S B2 L /\ seg h' cut (sizes B1 + S) size B2 /\ sides_kept h h' B1 S B2.
Proof.
  intros Hh Hr He Hm Hs. destruct (hole_ok Hh) as [H1 H2].
  destruct (hole_bounds Hh) as (? & ? & ? & ? & ? & ? & ? & ?).
  destruct (o_right _ _ _ _ _ _ Hh) as [p Hp]. rewrite <- He in *.
  destruct (update_next_ok h cut r size p B2) as (h' & Hrun & Ht & Hseg & Hpay);
    [by eapply hole_geom|lia|done|done|lia|done|].
  assert (Hf : frame (fun i => r + size <= i < r + size + 8) h h').
  { apply touch_frame. eapply touch_mono; [|done]. by intros i [? _]. }
  destruct (range_kept (r + size) (r + size + 8) h h' 0 B1) as [Hk1 Hp1];
    [by eapply hole_geom|done|done|done|lia|].
  exists h'. split_and!; try done; [|split; [done|by rewrite <- He]].
  constructor; rewrite <- ?He; [|by eapply seg_kept; [|apply Hh]|by eexists|apply Hh|].
  - eapply lists_same; [apply Hh|done|]. intros x s Hx.
    pose proof (around_sep Hh _ _ Hx) as (? & Hside). split.
    + destruct Hside as [Hside|Hside].
      * eapply touch_header; [by eapply hole_geom|done|lia|]. unfold rng. intros i ? [? _]. lia.
      * apply lookup_union_Some_raw in Hx as [Hx|[_ Hx]].
        { apply free_map_range in Hx; [lia|done]. }
        rewrite <- He in Hx. apply at_free in Hx; [|done].
        by rewrite (proj1 (seg_at _ _ _ _ _ _ _ Hp Hx)), (proj1 (seg_at _ _ _ _ _ _ _ Hseg Hx)).
    + eapply touch_links; [by eapply hole_geom|done|lia|]. unfold rng. intros i ? [? Hne].
      destruct Hside as [|Hside]; [lia|].
      apply lookup_union_Some_raw in Hx as [Hx|[_ Hx]]; [apply free_map_range in Hx; [lia|done]|].
      rewrite <- He in Hx. apply at_free in Hx; [|done]. destruct B2 as [|k B2]; [done|].
      destruct (at_sep (r + size) (k :: B2) x _ (r + size) k H2 Hx) as [[-> _]|Hd]; [by left|lia|].
      simpl in Hd. pose proof (at_ok _ _ (r + size) k H2 ltac:(by left)). lia.
  - rewrite (f_size _ _ _ Hf). lia.
Qed.

(** Inserting a block of the hole into the free lists keeps both sides. *)
Lemma insert_kept cut h h' B1 S B2 L r size :
  hole cut h B1 S B2 L -> sizes B1 <= r -> r + size = sizes B1 + S -> 16 <= size ->
  insertable h (around B1 S B2) r size -> frame (link_bytes (<[r := size]> (around B1 S B2))) h h' ->
  hdr_kept h h' 0 B1 /\ hdr_kept h h' (sizes B1 + S) B2 /\ sides_kept h h' B1 S B2 /\ same_header h h' r.
Proof.
  intros Hh Hr He Hs Hins Hf. destruct (hole_ok Hh) as [H1 H2].
  destruct (hole_bounds Hh) as (? & ? & ? & ? & ? & ? & ? & ?).
  destruct (hole_seq Hh 1) as [Hall Heq]; [by right; left|done|].
  pose proof (hole_geom Hh) as Hg.
  assert (Hside : forall off B, (off = 0 /\ B = B1) \/ (off = sizes B1 + S /\ B = B2) ->
    hdr_kept h h' off B /\ pay_kept h h' off B).
  { intros off B HB.
    assert (all_ok B /\ 0 <= off) as [HallB Hoff] by (destruct HB as [[-> ->]|[-> ->]]; split; (done || lia)).
    eapply frame_kept; [done|done|done|done|]. intros x k i Hx (b & s & Hb & Hi).
    apply lookup_insert_Some in Hb as [[<- <-]|[_ Hb]].
    - pose proof (at_range _ _ _ _ HallB Hx). pose proof (at_ok _ _ _ _ HallB Hx) as (? & _).
      unfold rng in *. destruct HB as [[-> ->]|[-> ->]]; destruct (is_free k); lia.
    - eapply (link_spares (around B1 S B2) (B1 ++ mkBlk S 1 :: B2)); [done|by rewrite Heq| |by exists b, s].
      apply at_app. destruct HB as [[-> ->]|[-> ->]]; [by left|right; by right]. }
  destruct (Hside 0 B1) as [? ?]; [by left|].
  destruct (Hside (sizes B1 + S) B2) as [? ?]; [by right|]. split_and!; try done.
  eapply frame_header; [done|exact Hf|lia|].
  eapply link_bytes_header; [eapply insert_apart; [|exact Hins]; eapply lists_apart; apply Hh|].
  rewrite lookup_insert_eq. by eexists.
Qed.

(** Writing a free block that ends where the hole ends. *)
Lemma place_free cut h B1 S B2 L r size pv :
  hole cut h B1 S B2 L -> sizes B1 <= r -> r + size = sizes B1 + S -> r mod 8 = 0 ->
  size_ok size = true -> link_ok h pv ->
  exists h' L',
    (forall A (k : HeapM A),
      (_ ← write_header r size pv false; _ ← update_next_previous_size r size; _ ← insert_free r; k) h
      = k h') /\
    lists_ok h' (<[r := size]> (around B1 S B2)) L' /\
    seg h' cut 0 0 B1 /\ seg h' cut (sizes B1 + S) size B2 /\
    vsize h' r = size /\ vflags h' r = 0 /\ vprev h' r = pv /\
    sides_kept h h' B1 S B2 /\ arena_bytes h' = arena_bytes h /\
    total_free h' = total_free h /\ live_objects h' = live_objects h /\
    (forall s, s <= size \/ covers h (around B1 S B2) s -> covers h' (<[r := size]> (around B1 S B2)) s).
Proof.
  intros Hh Hr He Hm Hs Hpv. destruct (hole_ok Hh) as [H1 H2].
  destruct (hole_bounds Hh) as (? & ? & ? & ? & ? & ? & ? & ?).
  pose proof (proj1 (size_ok_true _) Hs) as [Hs16 Hsm].
  assert (Hbo : bo h r) by (split_and!; lia).
  destruct (write_header_spec h r size pv false) as (h1 & Hrun1 & Ht1 & V1 & F1 & P1 & _ & _);
    [by eapply hole_geom|done|done|lia|done|].
  destruct (hole_touch Hh r (r + 16) h1) as [Hh1 Hk1]; [lia|lia|eapply touch_mono; [|done]; unfold rng; lia|].
  destruct (hole_update_next cut h1 B1 S B2 L r size Hh1) as (h2 & Hrun2 & Ht2 & Hh2 & Hseg2 & Hk2);
    [lia|done|done|done|].
  assert (Hrh : same_header h1 h2 r).
  { eapply touch_header; [by eapply hole_geom|done|lia|]. unfold rng. intros i ? [? _]. lia. }
  destruct Hrh as (V2 & F2 & P2).
  assert (Hins : insertable h2 (around B1 S B2) r size).
  { split_and!.
    - apply lookup_union_None. split; [apply free_map_above; [done|lia]|apply free_map_below; [done|lia]].
    - by eapply touch_bo; [exact Ht2|]; eapply touch_bo.
    - congruence.
    - done.
    - rewrite (touch_size _ _ _ Ht2), (touch_size _ _ _ Ht1). lia.
    - intros x [s Hx]. apply (around_sep Hh) in Hx. lia. }
  destruct (insert_free_ok h2 _ L r size (o_lists _ _ _ _ _ _ Hh2) Hins) as (h3 & L3 & Hrun3 & Hl3 & Hf3 & Hhint).
  destruct (insert_kept cut h2 h3 B1 S B2 L r size Hh2) as (K1 & K2 & K3 & (V3 & F3 & P3)); [lia..|done|done|].
  exists h3, L3. split_and!.
  - intros A k. by rewrite (st_bind_ok _ _ _ _ _ Hrun1), (st_bind_ok _ _ _ _ _ Hrun2), (st_bind_ok _ _ _ _ _ Hrun3).
  - done.
  - eapply seg_kept; [exact K1|apply Hh2].
  - eapply seg_kept; [exact K2|done].
  - congruence.
  - rewrite F3, F2, F1. done.
  - congruence.
  - eapply sides_kept_trans; [exact Hk1|]. by eapply sides_kept_trans.
  - by rewrite (f_size _ _ _ Hf3), (touch_size _ _ _ Ht2), (touch_size _ _ _ Ht1).
  - by rewrite (f_total _ _ _ Hf3), (touch_total _ _ _ Ht2), (touch_total _ _ _ Ht1).
  - by rewrite (f_live _ _ _ Hf3), (touch_live _ _ _ Ht2), (touch_live _ _ _ Ht1).
  - intros s Hc. eapply covers_insert; [exact Hhint|apply Hins|]. destruct Hc as [|Hc]; [by left|right].
    eapply covers_ext; [|exact Hc]. by rewrite (touch_hint _ _ _ Ht2), (touch_hint _ _ _ Ht1).
Qed.

(** ** Allocation *)

Lemma coalesced_replace B1 k k' B2 : coalesced (B1 ++ k :: B2) = true ->
  (is_free k' = true -> is_free k = true) -> coalesced (B1 ++ k' :: B2) = true.
Proof.
  intros H Hk. induction B1 as [|a B1 IH].
  - destruct B2 as [|b B2]; [done|]. cbn [app coalesced] in *. apply andb_true_iff in H as [H ->].
    destruct (is_free k'); [rewrite Hk in H by done|]; destruct (is_free b); simpl in *; done.
  - destruct B1 as [|b B1]; cbn [app coalesced] in *; apply andb_true_iff in H as [H HB];
      rewrite IH by done; [|by rewrite H].
    destruct (is_free a), (is_free k'); try done. by rewrite Hk in H.
Qed.

Lemma coalesced_tail B1 k B2 : coalesced (B1 ++ k :: B2) = true -> coalesced (k :: B2) = true.
Proof. rewrite coalesced_app. by intros [_ ?]%andb_true_iff. Qed.

Definition split_blocks (s bytes : Z) : list blk :=
  if 16 <=? s - bytes then [mkBlk bytes 1; mkBlk (s - bytes) 0] else [mkBlk s 1].

(** Writing an allocated header over a hole: the end of [reserve]. *)
Lemma place_alloc cut h B1 S size T L :
  lists_ok h T L -> (forall x s, T !! x = Some s -> x + 16 <= sizes B1 \/ sizes B1 + size <= x) ->
  seg h cut 0 0 B1 -> seg h cut (sizes B1 + size) size S ->
  sizes B1 + size + sizes S = arena_bytes h -> size_ok size = true ->
  T = around B1 size S -> coalesced (B1 ++ mkBlk size 1 :: S) = true ->
  exists h', write_header (sizes B1) size (last_size 0 B1) true h = (Ok tt, h') /\
    touch (rng (sizes B1) 0 16) h h' /\
    forall t, t = free_sum (B1 ++ S) -> live_objects h = live_count (B1 ++ S) ->
      heap_ok cut (set_total_free t h') (B1 ++ mkBlk size 1 :: S) L.
Proof.
  intros Hl Hsep Hs1 Hs2 Hsum Hsz HT Hco. pose proof (l_geom _ _ _ Hl) as Hg.
  pose proof (seg_all_ok _ _ _ _ _ Hs1) as H1. pose proof (seg_all_ok _ _ _ _ _ Hs2) as H2.
  pose proof (sizes_ok _ H1). pose proof (sizes_ok _ H2). pose proof (last_size_ok _ H1).
  pose proof (proj1 (size_ok_true _) Hsz) as [Hs16 Hsm].
  destruct (write_header_spec h (sizes B1) size (last_size 0 B1) true) as (h' & Hrun & Ht & V & F & P & _ & _);
    [done|split_and!; lia|done|lia|split; [lia|lia]|].
  exists h'. split; [done|]. split; [done|]. intros t Htot Hlive.
  assert (Hf : frame (fun i => sizes B1 <= i < sizes B1 + 16) h h').
  { apply touch_frame. eapply touch_mono; [|done]. unfold rng. intros; lia. }
  destruct (range_kept _ _ h h' 0 B1 Hg Hf) as [K1 _]; [done|done|lia|].
  destruct (range_kept _ _ h h' (sizes B1 + size) S Hg Hf) as [K2 _]; [lia|done|lia|].
  assert (Hall : all_ok (mkBlk size 1 :: S)) by (constructor; [split; [done|by right; left]|done]).
  constructor.
  - rewrite free_map_mid by done. change (is_free (mkBlk size 1)) with false. unfold id.
    change (free_map 0 B1 ∪ free_map (sizes B1 + b_size (mkBlk size 1)) S) with (around B1 size S).
    rewrite <- HT. apply (lists_counters h' T L t 0). eapply lists_avoid; [done|done|].
    intros x s i Hx Hi Hr. specialize (Hsep _ _ Hx). unfold rng in *. lia.
  - apply seg_app. split; [by eapply (seg_kept h)|]. simpl. split_and!; try done; [by right; left|].
    by eapply (seg_kept h).
  - rewrite sizes_app. simpl. rewrite (touch_size _ _ _ Ht). lia.
  - done.
  - simpl. rewrite Htot, !free_sum_app. simpl. lia.
  - simpl. rewrite (touch_live _ _ _ Ht), Hlive, !live_count_app. simpl. lia.
Qed.

(** The part of [reserve] after the search. *)
Definition carve (request : AllocationRequest) (b size previous_size : Z) : HeapM (option ReservedAllocation) :=
  let bytes := request_block_bytes request in
  let remainder := size - bytes in
  allocated_size ←
    (if MINIMUM_BLOCK_BYTES <=? remainder
     then
       remainder_offset ← st_lift (ok_or (checked_add u32_max b bytes) CorruptHeap);
       _ ← write_header remainder_offset remainder bytes false;
       _ ← update_next_previous_size remainder_offset remainder;
       _ ← insert_free remainder_offset;
       mret bytes
     else mret size);
  _ ← write_header b allocated_size previous_size true;
  _ ← sub_total_free allocated_size;
  mret (Some (mkReserved b (request_type_id request))).

Section Carve.
Context (cut : Z) (h h1 : Heap) (B1 B2 : list blk) (s bytes ty : Z) (L L1 : list (list Z)).
Context (Hok : heap_ok cut h (B1 ++ mkBlk s 0 :: B2) L) (Hbytes : size_ok bytes = true) (Hfit : bytes <= s).
Context (Hh1 : hole cut h1 B1 s B2 L1) (Hk1 : sides_kept h h1 B1 s B2).
Context (Hs2 : seg h1 cut (sizes B1 + s) s B2).
Context (Htot : total_free h1 = total_free h) (Hlive : live_objects h1 = live_objects h).

Lemma carve_total n : n <= s ->
  total_free h - n = free_sum (B1 ++ B2) + (s - n) /\ 0 <= free_sum (B1 ++ B2).
Proof using Hok.
  intros Hn. rewrite (k_total _ _ _ _ Hok), !free_sum_app. simpl.
  assert (Hpos : forall B, all_ok B -> 0 <= free_sum B).
  { induction 1 as [|k B [Hs _] _ IH]; [done|]. simpl. apply size_ok_true in Hs. destruct (is_free k); lia. }
  destruct (pos_ok _ _ _ _ _ _ Hok) as (H1 & H2 & _). pose proof (Hpos _ H1). pose proof (Hpos _ H2). lia.
Qed.

Lemma carve_live : live_objects h1 = live_count (B1 ++ B2).
Proof using Hok Hlive. rewrite Hlive, (k_live _ _ _ _ Hok), !live_count_app. simpl. lia. Qed.

Lemma carve_whole : s - bytes < 16 ->
  exists h' L', carve (mkRequest bytes ty) (sizes B1) s (last_size 0 B1) h1 =
      (Ok (Some (mkReserved (sizes B1) ty)), h') /\
    heap_ok cut h' (B1 ++ mkBlk s 1 :: B2) L' /\ sides_kept h h' B1 s B2.
Proof using All.
  intros Hrem. destruct (hole_bounds Hh1) as (? & ? & ? & ? & ? & ? & ? & ?).
  destruct (carve_total s) as [Ht Hpos]; [lia|].
  destruct (place_alloc cut h1 B1 B2 s (around B1 s B2) L1) as (h2 & Hrun & Htch & Hfin);
    [apply Hh1| |apply Hh1|done|lia|apply Hh1|done| |].
  { intros x sz Hx. apply (around_sep Hh1) in Hx. lia. }
  { eapply coalesced_replace; [apply Hok|done]. }
  exists (set_total_free (total_free h - s) h2), L1. split_and!.
  - unfold carve. simpl. unfold MINIMUM_BLOCK_BYTES. rewrite (proj2 (Z.leb_gt _ _)) by lia.
    rewrite (st_bind_ok _ _ _ s h1) by done. rewrite (st_bind_ok _ _ _ _ _ Hrun).
    rewrite (st_bind_ok _ _ _ tt (set_total_free (total_free h - s) h2)); [done|].
    unfold sub_total_free, checked_sub. rewrite (touch_total _ _ _ Htch), Htot.
    by rewrite (proj2 (Z.leb_le _ _)) by lia.
  - apply Hfin; [lia|apply carve_live].
  - eapply sides_kept_trans; [exact Hk1|].
    apply (hole_touch Hh1 (sizes B1) (sizes B1 + 16) h2); [lia|lia|].
    eapply touch_mono; [|done]. unfold rng. intros; lia.
Qed.

Lemma carve_split : 16 <= s - bytes ->
  exists h' L', carve (mkRequest bytes ty) (sizes B1) s (last_size 0 B1) h1 =
      (Ok (Some (mkReserved (sizes B1) ty)), h') /\
    heap_ok cut h' (B1 ++ mkBlk bytes 1 :: mkBlk (s - bytes) 0 :: B2) L' /\ sides_kept h h' B1 s B2.
Proof using All.
  intros Hrem. destruct (hole_bounds Hh1) as (? & ? & ? & ? & ? & ? & ? & ?).
  destruct (hole_ok Hh1) as [HB1 HB2].
  pose proof (proj1 (size_ok_true _) Hbytes) as [Hb16 Hbm].
  assert (Hrs : size_ok (s - bytes) = true)
    by (apply size_ok_true; Z.to_euclidean_division_equations; lia).
  destruct (carve_total bytes) as [Ht Hpos]; [lia|].
  set (r := sizes B1 + bytes).
  destruct (place_free cut h1 B1 s B2 L1 r (s - bytes) bytes Hh1)
    as (h2 & L2 & Hrun2 & Hl2 & Hs21 & Hs22 & V & F & P & K2 & Ea & Et & El & _);
    [lia|lia|unfold r; Z.to_euclidean_division_equations; lia|done|split; lia|].
  assert (Hall : all_ok (mkBlk (s - bytes) 0 :: B2)) by (constructor; [split; [done|by left]|done]).
  destruct (around_right B1 bytes (s - bytes) B2 HB1 Hall) as [Heq _]; [lia|].
  replace (bytes + (s - bytes)) with s in Heq by lia.
  destruct (place_alloc cut h2 B1 (mkBlk (s - bytes) 0 :: B2) bytes
              (<[r := s - bytes]> (around B1 s B2)) L2) as (h3 & Hrun3 & Htch & Hfin);
    [done| |done| |simpl; lia|done|by rewrite Heq| |].
  { intros x sz Hx. apply lookup_insert_Some in Hx as [[<- _]|[_ Hx]]; [lia|].
    apply (around_sep Hh1) in Hx. lia. }
  { simpl. fold r. split_and!; try done; [by left|].
    by replace (r + (s - bytes)) with (sizes B1 + s) by lia. }
  { rewrite coalesced_app. apply andb_true_iff. pose proof (k_coalesced _ _ _ _ Hok) as Hc.
    rewrite coalesced_app in Hc. apply andb_true_iff in Hc as [Hc1 Hc2]. split.
    - by eapply coalesced_replace.
    - exact (coalesced_replace [] (mkBlk s 0) (mkBlk (s - bytes) 0) B2 Hc2 ltac:(done)). }
  exists (set_total_free (total_free h - bytes) h3), L2. split_and!.
  - unfold carve. simpl. unfold MINIMUM_BLOCK_BYTES. rewrite (proj2 (Z.leb_le _ _)) by lia.
    rewrite (st_bind_ok _ _ _ bytes h2).
    2:{ rewrite (st_bind_ok _ _ _ r h1); [apply Hrun2|].
        unfold st_lift, checked_add. by rewrite (proj2 (Z.leb_le _ _)) by (unfold u32_max; lia). }
    rewrite (st_bind_ok _ _ _ _ _ Hrun3).
    rewrite (st_bind_ok _ _ _ tt (set_total_free (total_free h - bytes) h3)); [done|].
    unfold sub_total_free, checked_sub. rewrite (touch_total _ _ _ Htch), Et, Htot.
    by rewrite (proj2 (Z.leb_le _ _)) by lia.
  - apply Hfin.
    + rewrite free_sum_app in *. simpl. lia.
    + rewrite El, carve_live, !live_count_app. simpl. lia.
  - eapply sides_kept_trans; [exact Hk1|]. eapply sides_kept_trans; [exact K2|].
    pose proof (touch_frame _ _ _ Htch) as Hf.
    assert (Hf' : frame (fun i => sizes B1 <= i < sizes B1 + 16) h2 h3).
    { eapply frame_mono; [|done]. unfold rng. intros; lia. }
    pose proof (l_geom _ _ _ Hl2) as Hg2.
    destruct (range_kept _ _ h2 h3 0 B1 Hg2 Hf') as [_ Kl]; [done|done|lia|].
    destruct (range_kept _ _ h2 h3 (sizes B1 + s) B2 Hg2 Hf') as [_ Kr]; [lia|done|lia|]. done.
Qed.

End Carve.

Lemma reserve_ok cut h B L bytes ty :
  heap_ok cut h B L -> arena_bytes h <= cut -> size_ok bytes = true -> bytes <= u32_max ->
  exists r h', reserve (mkRequest bytes ty) h = (Ok r, h') /\
    match r with
    | None => h' = h /\
        (hint_max h (free_map 0 B) -> forall x k, at_off 0 B x k -> is_free k = true -> b_size k < bytes) /\
        (forall x k, at_off 0 B x k -> is_free k = true -> 8 * b_size k < 9 * bytes)
    | Some res => exists B1 s B2 L', B = B1 ++ mkBlk s 0 :: B2 /\ bytes <= s /\
        res = mkReserved (sizes B1) ty /\
        heap_ok cut h' (B1 ++ split_blocks s bytes ++ B2) L' /\ sides_kept h h' B1 s B2
    end.
Proof.
  intros Hok Hcut Hb Hmax. pose proof (seg_all_ok _ _ _ _ _ (k_seg _ _ _ _ Hok)) as Hall.
  destruct (find_suitable_ok h _ L bytes (k_lists _ _ _ _ Hok) Hb Hmax) as (r & Hfind & Hr).
  unfold reserve. simpl. rewrite Hb. simpl.
  rewrite (st_bind_ok _ _ _ r h) by (unfold st_read; by rewrite Hfind).
  destruct r as [b|].
  - destruct Hr as (s & Hs & Hfit). destruct (free_map_lookup _ _ _ _ Hs Hall) as (B1 & B2 & -> & Hbo).
    rewrite Z.add_0_l in Hbo. subst b. destruct (pos_seg _ _ _ _ _ _ Hok) as (_ & _ & _ & Hprev & _).
    destruct (pos_bounds _ _ _ _ _ _ Hok) as (? & ? & ? & ? & ? & ? & ?). simpl in *.
    destruct (open_free _ _ _ _ _ _ Hok) as (h1 & L1 & Hrun1 & Hh1 & Hf1 & Hk1 & Hs1).
    assert (Hcarve : exists h' L', carve (mkRequest bytes ty) (sizes B1) s (last_size 0 B1) h1 =
        (Ok (Some (mkReserved (sizes B1) ty)), h') /\
      heap_ok cut h' (B1 ++ split_blocks s bytes ++ B2) L' /\ sides_kept h h' B1 s B2).
    { unfold split_blocks. destruct (Z.leb_spec 16 (s - bytes)).
      - eapply carve_split; try done; [apply Hf1|apply Hf1].
      - eapply carve_whole; try done; [apply Hf1|apply Hf1]. }
    destruct Hcarve as (h' & L' & Hrun & Hok' & Hk').
    exists (Some (mkReserved (sizes B1) ty)), h'. split; [|by exists B1, s, B2, L'].
    rewrite (st_bind_ok _ _ _ s h) by (unfold st_read; by rewrite (blk_size (k_lists _ _ _ _ Hok) _ _ Hs)).
    rewrite (proj2 (Z.ltb_ge _ _)) by lia.
    rewrite (st_bind_ok _ _ _ (last_size 0 B1) h).
    2:{ unfold st_read. rewrite read_prev_view by (apply Hok || (by eapply pos_bo)). by rewrite Hprev by lia. }
    rewrite (st_bind_ok _ _ _ _ _ Hrun1). exact Hrun.
  - exists None, h. split; [done|]. split; [done|]. destruct Hr as [Hm Hn].
    assert (Hfm : forall x k, at_off 0 B x k -> is_free k = true -> free_map 0 B !! x = Some (b_size k)).
    { intros x [sz fl] Hx Hfree. apply at_free; [done|]. unfold is_free in Hfree. simpl in *. bsimp. by subst fl. }
    split; intros; eauto.
Qed.

(** ** Release *)

(** A free neighbour is absorbed. *)
Definition take_left (B1 : list blk) : list blk * Z :=
  match last B1 with
  | Some q => if is_free q then (removelast B1, b_size q) else (B1, 0)
  | None => (B1, 0)
  end.

Definition take_right (B2 : list blk) : list blk * Z :=
  match B2 with
  | q :: B2' => if is_free q then (B2', b_size q) else (B2, 0)
  | [] => (B2, 0)
  end.

(** The sequence after a block of size [s] between [B1] and [B2] was released. *)
Definition freed_blocks (B1 : list blk) (s : Z) (B2 : list blk) : list blk :=
  (take_left B1).1 ++ mkBlk ((take_left B1).2 + s + (take_right B2).2) 0 :: (take_right B2).1.

Lemma free_blk q : is_free q = true -> q = mkBlk (b_size q) 0.
Proof. unfold is_free. intros H. bsimp. destruct q. simpl in *. by subst. Qed.

Lemma take_left_spec B1 : let '(B, l) := take_left B1 in
  (B = B1 /\ l = 0 /\ forall q, last B1 = Some q -> is_free q = false) \/
  (B1 = B ++ [mkBlk l 0]).
Proof.
  unfold take_left. destruct (last B1) as [q|] eqn:E.
  - destruct (is_free q) eqn:Ef; [right|left; naive_solver].
    apply last_Some in E as [B ->]. rewrite removelast_last. by rewrite <- free_blk.
  - left. naive_solver.
Qed.

Lemma take_right_spec B2 : let '(B, r) := take_right B2 in
  (B = B2 /\ r = 0 /\ forall q, head B2 = Some q -> is_free q = false) \/
  (B2 = mkBlk r 0 :: B).
Proof.
  unfold take_right. destruct B2 as [|q B2]; [left; naive_solver|].
  destruct (is_free q) eqn:Ef; [right; by rewrite <- free_blk|left; naive_solver].
Qed.

Lemma coalesced_app_l B1 B2 : coalesced (B1 ++ B2) = true -> coalesced B1 = true.
Proof.
  induction B1 as [|a B1 IH]; [done|]. destruct B1 as [|b B1]; [done|].
  cbn [app coalesced] in *. intros [-> H]%andb_true_iff. by rewrite IH.
Qed.

Lemma coalesced_cons k B : coalesced (k :: B) = true -> coalesced B = true.
Proof. destruct B; [done|]. by intros [_ ?]%andb_true_iff. Qed.

Lemma coalesced_join B1 k B2 :
  coalesced B1 = true -> coalesced B2 = true ->
  (forall q, last B1 = Some q -> is_free q = false) ->
  (forall q, head B2 = Some q -> is_free q = false) -> coalesced (B1 ++ k :: B2) = true.
Proof.
  intros H1 H2 Hl Hr. rewrite coalesced_app. apply andb_true_iff. split.
  - induction B1 as [|a B1 IH]; [done|]. destruct B1 as [|b B1].
    + simpl. by rewrite (Hl a).
    + cbn [app coalesced] in *. apply andb_true_iff in H1 as [-> H1]. apply IH; [done|].
      intros q Hq. apply Hl. by rewrite last_cons_cons.
  - destruct B2 as [|b B2]; [done|].
    change (coalesced (k :: b :: B2)) with (negb (is_free k && is_free b) && coalesced (b :: B2)).
    rewrite H2, (Hr b) by done. by rewrite andb_false_r.
Qed.

Lemma freed_coalesced B1 k B2 : coalesced (B1 ++ k :: B2) = true ->
  coalesced (freed_blocks B1 (b_size k) B2) = true.
Proof.
  intros H. assert (H1 : coalesced B1 = true) by (by eapply coalesced_app_l).
  assert (H2 : coalesced B2 = true) by (by eapply coalesced_cons, coalesced_tail).
  unfold freed_blocks. pose proof (take_left_spec B1) as Hl. pose proof (take_right_spec B2) as Hr.
  destruct (take_left B1) as [Bl l], (take_right B2) as [Br r]. simpl. apply coalesced_join.
  - destruct Hl as [(-> & _)| ->]; [done|by eapply coalesced_app_l].
  - destruct Hr as [(-> & _)| ->]; [done|by eapply coalesced_cons].
  - destruct Hl as [(-> & _ & ?)| ->]; [done|]. intros q Hq. apply last_Some in Hq as [B ->].
    rewrite <- app_assoc in H1. apply coalesced_tail in H1. simpl in H1. by destruct (is_free q).
  - destruct Hr as [(-> & _ & ?)| ->]; [done|]. intros q Hq. destruct Br as [|b Br]; [done|].
    injection Hq as ->. simpl in H2. by destruct (is_free q).
Qed.

Lemma freed_sums B1 s B2 :
  sizes (freed_blocks B1 s B2) = sizes B1 + s + sizes B2 /\
  free_sum (freed_blocks B1 s B2) = free_sum B1 + s + free_sum B2 /\
  live_count (freed_blocks B1 s B2) = live_count B1 + live_count B2.
Proof.
  unfold freed_blocks. pose proof (take_left_spec B1) as Hl. pose proof (take_right_spec B2) as Hr.
  destruct (take_left B1) as [Bl l], (take_right B2) as [Br r]. simpl.
  rewrite sizes_app, free_sum_app, live_count_app. simpl.
  destruct Hl as [(-> & -> & _)| ->], Hr as [(-> & -> & _)| ->];
    rewrite ?sizes_app, ?free_sum_app, ?live_count_app; simpl; lia.
Qed.

Lemma pay_kept_snoc_free h h' off B q : pay_kept h h' off B -> pay_kept h h' off (B ++ [mkBlk q 0]).
Proof. intros H. apply pay_kept_app. split; [done|]. by intros x k [[-> ->]|[]]. Qed.

Lemma pay_kept_cons_free h h' off B q : pay_kept h h' (off + q) B -> pay_kept h h' off (mkBlk q 0 :: B).
Proof. intros H x k [[-> ->]|Hx]; [done|]. by apply H. Qed.

Lemma flags_allocated f : flags_ok f -> negb (Z.land f ALLOCATED =? 0) = negb (f =? 0).
Proof. by intros [-> |[-> |[-> | ->]]]. Qed.

(** The left neighbour, when there is one and it is free, joins the hole. *)
Lemma merge_left cut h B1 S B2 L :
  hole cut h B1 S B2 L -> sizes B1 <= cut ->
  let '(B, l) := take_left B1 in
  exists h' L',
    (if sizes B1 =? 0 then mret (sizes B1, S, last_size 0 B1)
     else
       previous ← st_lift (ok_or (checked_sub (sizes B1) (last_size 0 B1)) CorruptHeap);
       previous_allocated ← st_read (fun h => block_allocated h previous);
       if negb previous_allocated
       then
         _ ← remove_free previous;
         size ← st_read (fun h => block_size h previous);
         merged_size ← st_lift (ok_or (checked_add u32_max S size) CorruptHeap);
         previous_size ← st_read (fun h => read_previous_or_gray h previous);
         mret (previous, merged_size, previous_size)
       else mret (sizes B1, S, last_size 0 B1)) h = (Ok (sizes B, l + S, last_size 0 B), h') /\
    hole cut h' B (l + S) B2 L' /\ sides_kept h h' B1 S B2 /\
    arena_bytes h' = arena_bytes h /\ total_free h' = total_free h /\ live_objects h' = live_objects h /\
    sizes B + l = sizes B1 /\ 0 <= l /\
    (forall s, covers h (around B1 S B2) s -> covers h' (around B (l + S) B2) s \/ s <= l).
Proof.
  intros Hh Hcut. pose proof (take_left_spec B1) as Hl. destruct (take_left B1) as [B l].
  destruct (hole_ok Hh) as [H1 H2]. destruct (hole_bounds Hh) as (? & ? & ? & ? & ? & ? & ? & ?).
  destruct B1 as [|q Bq _] using rev_ind.
  - destruct Hl as [(-> & -> & _)|Hl]; [|by destruct B].
    exists h, L. simpl. split_and!; try done; try lia. by left.
  - assert (Hlast : last_size 0 (Bq ++ [q]) = b_size q) by (unfold last_size; by rewrite last_snoc).
    assert (Hsz : sizes (Bq ++ [q]) = sizes Bq + b_size q) by (rewrite sizes_app; simpl; lia).
    apply Forall_app in H1 as [H1 Hq]. pose proof (Forall_inv Hq) as [Hqs Hqf].
    pose proof (proj1 (size_ok_true _) Hqs) as [Hq16 Hqm]. pose proof (sizes_ok _ H1) as [? ?].
    pose proof (o_left _ _ _ _ _ _ Hh) as Hseg. apply seg_app in Hseg as [_ Hseg].
    destruct Hseg as (_ & Hvf & Hvp & _). rewrite Z.add_0_l in *.
    assert (Hbo : bo h (sizes Bq)) by (split_and!; lia). pose proof (hole_geom Hh) as Hg.
    rewrite (proj2 (Z.eqb_neq _ _)) by lia. rewrite Hlast.
    rewrite (st_bind_ok _ _ _ (sizes Bq) h).
    2:{ unfold st_lift, checked_sub. rewrite (proj2 (Z.leb_le _ _)) by lia. simpl. do 2 f_equal. lia. }
    rewrite (st_bind_ok _ _ _ (negb (is_free q)) h).
    2:{ unfold st_read. rewrite block_allocated_view, Hvf, flags_allocated by done. done. }
    destruct Hl as [(-> & -> & Hnf)|Hl].
    + rewrite (Hnf q) by (by rewrite last_snoc). simpl. rewrite <- Hlast, Z.add_0_r.
      exists h, L. split_and!; try done. by left.
    + apply app_inj_tail in Hl as [-> ->]. simpl in *.
      destruct (extend_left _ _ _ _ _ _ _ Hh) as (h' & L' & Hrun & Hh' & Hf & [K1 K2] & (V' & F' & P') & Hcov).
      exists h', L'. split; [|split_and!; try done; try apply Hf].
      * rewrite (st_bind_ok _ _ _ _ _ Hrun).
        assert (Hbo' : bo h' (sizes B)) by (by eapply frame_bo).
        pose proof (hole_geom Hh') as Hg'.
        rewrite (st_bind_ok _ _ _ l h').
        2:{ unfold st_read. rewrite block_size_view by done. rewrite V'.
            pose proof (o_left _ _ _ _ _ _ Hh) as Hs. apply seg_app in Hs as [_ (Hs & _)].
            rewrite Z.add_0_l in Hs. rewrite Hs. simpl. by rewrite Hqs. }
        rewrite (st_bind_ok _ _ _ (l + S) h').
        2:{ unfold st_lift, checked_add. rewrite (proj2 (Z.leb_le _ _)) by (unfold u32_max; lia).
            simpl. do 2 f_equal. lia. }
        rewrite (st_bind_ok _ _ _ (last_size 0 B) h'); [done|].
        unfold st_read. rewrite read_prev_view by done. by rewrite P', Hvp by lia.
      * split; [by apply pay_kept_snoc_free|]. rewrite Hsz.
        by replace (sizes B + l + S) with (sizes B + (l + S)) by lia.
      * lia.
Qed.

(** The right neighbour likewise. *)
Lemma merge_right cut h B1 S B2 L :
  hole cut h B1 S B2 L ->
  let '(B, r) := take_right B2 in
  exists h' L',
    (if sizes B1 + S <? arena_bytes h
     then
       next_allocated ← st_read (fun h => block_allocated h (sizes B1 + S));
       if negb next_allocated
       then
         _ ← remove_free (sizes B1 + S);
         size ← st_read (fun h => block_size h (sizes B1 + S));
         st_lift (ok_or (checked_add u32_max S size) CorruptHeap)
       else mret S
     else mret S) h = (Ok (S + r), h') /\
    hole cut h' B1 (S + r) B L' /\ sides_kept h h' B1 S B2 /\
    arena_bytes h' = arena_bytes h /\ total_free h' = total_free h /\ live_objects h' = live_objects h /\
    0 <= r /\ (forall s, covers h (around B1 S B2) s -> covers h' (around B1 (S + r) B) s \/ s <= r).
Proof.
  intros Hh. pose proof (take_right_spec B2) as Hr. destruct (take_right B2) as [B r].
  destruct (hole_ok Hh) as [H1 H2]. destruct (hole_bounds Hh) as (? & ? & ? & ? & ? & ? & ? & ?).
  destruct B2 as [|q Bq].
  - destruct Hr as [(-> & -> & _)|Hr]; [|done]. simpl in *.
    rewrite (proj2 (Z.ltb_ge _ _)) by lia. exists h, L. rewrite Z.add_0_r. split_and!; try done. by left.
  - pose proof H2 as H2'. apply Forall_cons in H2' as [[Hqs Hqf] H2']. simpl in *.
    pose proof (proj1 (size_ok_true _) Hqs) as [Hq16 Hqm]. pose proof (sizes_ok _ H2') as [? ?].
    destruct (o_right _ _ _ _ _ _ Hh) as [p Hseg]. destruct Hseg as (Hvs & Hvf & _).
    assert (Hbo : bo h (sizes B1 + S)) by (split_and!; [lia|Z.to_euclidean_division_equations; lia|lia]).
    pose proof (hole_geom Hh) as Hg.
    rewrite (proj2 (Z.ltb_lt _ _)) by lia.
    rewrite (st_bind_ok _ _ _ (negb (is_free q)) h).
    2:{ unfold st_read. rewrite block_allocated_view, Hvf, flags_allocated by done. done. }
    destruct Hr as [(-> & -> & Hnf)|Hr].
    + rewrite (Hnf q) by done. simpl. rewrite Z.add_0_r. exists h, L. split_and!; try done. by left.
    + injection Hr as -> ->. simpl in *.
      destruct (extend_right _ _ _ _ _ _ _ Hh) as (h' & L' & Hrun & Hh' & Hf & [K1 K2] & (V' & F' & P') & Hcov).
      exists h', L'. split; [|split_and!; try done; try apply Hf; try lia].
      * rewrite (st_bind_ok _ _ _ _ _ Hrun).
        assert (Hbo' : bo h' (sizes B1 + S)) by (by eapply frame_bo).
        pose proof (hole_geom Hh') as Hg'.
        rewrite (st_bind_ok _ _ _ r h').
        2:{ unfold st_read. rewrite block_size_view by done. by rewrite V', Hvs, Hqs. }
        unfold st_lift, checked_add. by rewrite (proj2 (Z.leb_le _ _)) by (unfold u32_max; lia).
      * split; [done|]. apply pay_kept_cons_free.
        by replace (sizes B1 + S + r) with (sizes B1 + (S + r)) by lia.
Qed.

Lemma sides_shift_left h h' B1 S B2 : 
  sides_kept h h' (take_left B1).1 ((take_left B1).2 + S) B2 ->
  sizes (take_left B1).1 + (take_left B1).2 = sizes B1 -> sides_kept h h' B1 S B2.
Proof.
  pose proof (take_left_spec B1) as Hl. destruct (take_left B1) as [B l]. simpl. intros [K1 K2] Hs.
  rewrite Z.add_assoc, Hs in K2. split; [|done].
  destruct Hl as [(-> & _)| ->]; [done|by apply pay_kept_snoc_free].
Qed.

Lemma sides_shift_right h h' B1 S B2 :
  sides_kept h h' B1 (S + (take_right B2).2) (take_right B2).1 -> sides_kept h h' B1 S B2.
Proof.
  pose proof (take_right_spec B2) as Hr. destruct (take_right B2) as [B r]. simpl. intros [K1 K2].
  split; [done|]. destruct Hr as [(-> & -> & _)| ->]; [by rewrite Z.add_0_r in K2|].
  apply pay_kept_cons_free. by rewrite <- Z.add_assoc.
Qed.

(** Clearing the flags of the absorbed header. *)
Lemma clear_absorbed cut h B1 S B2 L b :
  hole cut h B1 S B2 L -> sizes B1 <= b -> b + 16 <= sizes B1 + S -> b mod 8 = 0 ->
  exists h', (if negb (sizes B1 =? b) then write_flags b 0 else mret tt) h = (Ok tt, h') /\
    hole cut h' B1 S B2 L /\ sides_kept h h' B1 S B2 /\
    arena_bytes h' = arena_bytes h /\ total_free h' = total_free h /\ live_objects h' = live_objects h /\
    largest_free_hint h' = largest_free_hint h.
Proof.
  intros Hh Hlo Hhi Hm. destruct (hole_bounds Hh) as (? & ? & ? & ? & ? & ? & ? & ?).
  destruct (negb _); [|by exists h].
  destruct (write_flags_spec h b 0) as (h' & Hrun & Ht & _);
    [by eapply hole_geom|split_and!; lia|lia|].
  destruct (hole_touch Hh b (b + 8) h') as [? ?]; [lia|lia|eapply touch_mono; [|done]; unfold rng; intros; lia|].
  exists h'. split_and!; try done; [by eapply touch_size|by eapply touch_total|by eapply touch_live|by eapply touch_hint].
Qed.

Lemma hole_live n cut h B1 S B2 L : hole cut h B1 S B2 L -> hole cut (set_live_objects n h) B1 S B2 L.
Proof.
  intros [Hl Hs1 [p Hs2] ? ?]. constructor; try done.
  - by apply (lists_counters _ _ _ 0 n).
  - by eapply (seg_kept h).
  - exists p. by eapply (seg_kept h).
Qed.

(** The end of [free_block]: the hole becomes one free block. *)
Lemma finish_free cut h Bl m Br L size :
  hole cut h Bl m Br L -> coalesced (Bl ++ mkBlk m 0 :: Br) = true ->
  total_free h + size = free_sum Bl + m + free_sum Br ->
  live_objects h = live_count Bl + live_count Br ->
  exists h' L',
    (_ ← write_header (sizes Bl) m (last_size 0 Bl) false;
     _ ← update_next_previous_size (sizes Bl) m;
     _ ← insert_free (sizes Bl);
     add_total_free size) h = (Ok tt, h') /\
    heap_ok cut h' (Bl ++ mkBlk m 0 :: Br) L' /\ sides_kept h h' Bl m Br /\
    (forall s, s <= m \/ covers h (around Bl m Br) s -> covers h' (free_map 0 (Bl ++ mkBlk m 0 :: Br)) s).
Proof.
  intros Hh Hco Htot Hlive.
  destruct (hole_bounds Hh) as (? & ? & ? & ? & ? & ? & ? & ?). destruct (hole_ok Hh) as [HBl HBr].
  pose proof (last_size_ok _ HBl) as [? ?].
  assert (Hpos : forall B, all_ok B -> 0 <= free_sum B <= sizes B).
  { induction 1 as [|k B [Hs _] _ IH]; [done|]. simpl. apply size_ok_true in Hs. destruct (is_free k); lia. }
  pose proof (Hpos _ HBl). pose proof (Hpos _ HBr).
  destruct (place_free cut h Bl m Br L (sizes Bl) m (last_size 0 Bl) Hh)
    as (h4 & L4 & Hrun & Hl & Hs1 & Hs2 & V & F & P & K & Ea & Et & El & Hcov);
    [lia|done|done|apply Hh|split; lia|].
  assert (Hall : all_ok (mkBlk m 0 :: Br)) by (constructor; [split; [apply Hh|by left]|done]).
  exists (set_total_free (total_free h + size) h4), L4. split_and!; [| |exact K|].
  - rewrite Hrun. unfold add_total_free, checked_add. rewrite Et.
    by rewrite (proj2 (Z.leb_le _ _)) by (unfold u32_max; lia).
  - constructor.
    + rewrite free_map_mid by done. by apply (lists_counters h4 _ L4 _ 0).
    + apply seg_app. split; [by eapply (seg_kept h4)|]. simpl.
      split_and!; try done; [apply Hh|by left|by eapply (seg_kept h4)].
    + rewrite sizes_app. simpl. lia.
    + done.
    + simpl. rewrite free_sum_app. simpl. lia.
    + simpl. rewrite live_count_app. simpl. lia.
  - intros s Hs. rewrite free_map_mid by done. by apply Hcov.
Qed.

(** [free_block] merges the block with its free neighbours.  The object count
    is the caller's: [n] is what it left in the heap. *)
Lemma free_block_ok cut h B1 k B2 L n :
  heap_ok cut h (B1 ++ k :: B2) L -> is_free k = false -> sizes B1 <= cut ->
  n = live_count (B1 ++ B2) ->
  exists h' L', free_block (sizes B1) (set_live_objects n h) = (Ok tt, h') /\
    heap_ok cut h' (freed_blocks B1 (b_size k) B2) L' /\ sides_kept h h' B1 (b_size k) B2 /\
    (forall s, s <= (take_left B1).2 + b_size k + (take_right B2).2 \/ covers h (free_map 0 (B1 ++ k :: B2)) s ->
       covers h' (free_map 0 (freed_blocks B1 (b_size k) B2)) s).
Proof.
  intros Hok Hnf Hcut Hn. pose proof (open_alloc _ _ _ _ _ _ Hok Hnf) as Hh0.
  set (h0 := set_live_objects n h). pose proof (hole_live n _ _ _ _ _ _ Hh0) as Hh. fold h0 in Hh.
  destruct (pos_bounds _ _ _ _ _ _ Hok) as (? & ? & ? & ? & ? & ? & ?).
  destruct (pos_seg _ _ _ _ _ _ Hok) as (_ & Hvs & Hvf & Hvp & _).
  destruct (pos_ok _ _ _ _ _ _ Hok) as (_ & _ & Hks & Hkf).
  assert (Hbo : bo h0 (sizes B1)) by exact (pos_bo _ _ _ _ _ _ Hok).
  pose proof (hole_geom Hh) as Hg.
  pose proof (merge_left _ _ _ _ _ _ Hh Hcut) as Hleft.
  pose proof (fun h h' => sides_shift_left h h' B1 (b_size k) B2) as Shl.
  pose proof (freed_coalesced _ _ _ (k_coalesced _ _ _ _ Hok)) as Hco.
  pose proof (freed_sums B1 (b_size k) B2) as (Hfs & Hff & Hfl).
  unfold freed_blocks in *. destruct (take_left B1) as [Bl l].
  destruct Hleft as (h1 & L1 & Hrun1 & Hh1 & K1 & Ea1 & Et1 & El1 & Hl1 & Hl0 & Hcov1). simpl in *.
  pose proof (merge_right _ _ _ _ _ _ Hh1) as Hright.
  pose proof (fun h h' => sides_shift_right h h' Bl (l + b_size k) B2) as Shr.
  destruct (take_right B2) as [Br r].
  destruct Hright as (h2 & L2 & Hrun2 & Hh2 & K2 & Ea2 & Et2 & El2 & Hr0 & Hcov2). simpl in *.
  destruct (clear_absorbed _ _ _ _ _ _ (sizes B1) Hh2) as (h3 & Hrun3 & Hh3 & K3 & Ea3 & Et3 & El3 & Eh3);
    [lia|lia|done|].
  set (m := l + b_size k + r) in *.
  destruct (finish_free cut h3 Bl m Br L2 (b_size k) Hh3 Hco) as (h4 & L4 & Hrun4 & Hok4 & K4 & Hcov4).
  { rewrite Et3, Et2, Et1, (k_total _ _ _ _ Hok), free_sum_app in *. simpl in *. rewrite Hnf.
    lia. }
  { rewrite El3, El2, El1, Hn, live_count_app in *. simpl in *. lia. }
  pose proof (pos_free_map _ _ _ _ _ _ Hok) as Hfm. rewrite Hnf in Hfm. unfold id in Hfm.
  exists h4, L4. split_and!; [|done| |].
  - unfold free_block. rewrite (st_bind_ok _ _ _ true h0).
    2:{ unfold st_read. rewrite block_allocated_view by done. change (vflags h0 (sizes B1)) with (vflags h (sizes B1)).
        rewrite Hvf, flags_allocated by done. unfold is_free in Hnf. by rewrite Hnf. }
    simpl. rewrite (st_bind_ok _ _ _ (b_size k) h0).
    2:{ unfold st_read. rewrite block_size_view by done. change (vsize h0 (sizes B1)) with (vsize h (sizes B1)).
        by rewrite Hvs, Hks. }
    rewrite (st_bind_ok _ _ _ (last_size 0 B1) h0).
    2:{ unfold st_read. rewrite read_prev_view by done. change (vprev h0 (sizes B1)) with (vprev h (sizes B1)).
        by rewrite Hvp. }
    rewrite (st_bind_ok _ _ _ _ _ Hrun1). rewrite (st_bind_ok _ _ _ (sizes Bl + (l + b_size k)) h1).
    2:{ unfold st_lift, checked_add. by rewrite (proj2 (Z.leb_le _ _)) by (unfold u32_max; lia). }
    rewrite (st_bind_ok _ _ _ h1 h1) by done.
    rewrite (st_bind_ok _ _ _ _ _ Hrun2), (st_bind_ok _ _ _ _ _ Hrun3). exact Hrun4.
  - eapply (sides_kept_trans h h1); [exact K1|]. apply Shl; [|lia].
    eapply sides_kept_trans; [exact K2|]. apply Shr. by eapply sides_kept_trans.
  - intros s Hs. apply Hcov4. destruct Hs as [|Hs]; [by left|]. rewrite Hfm in Hs.
    destruct (Hcov1 s) as [Hs1|]; [by eapply covers_ext; [|exact Hs]| |left; lia].
    destruct (Hcov2 s Hs1) as [Hs2|]; [right; by eapply covers_ext|left; lia].
Qed.

End HeapInv.
