(* ===== verification/HeapOps.v ===== *)
(** The operations of src/execution/heap.rs that clients call, on a heap that
    satisfies the allocator invariant: construction, commit, abort, free,
    reference resolution and payload access. *)

From S2P Require Import Prelude Words Fields Errors Value Layout Heap HeapLists HeapInv.

Module HeapOps.
Import Errors Layout Heap HeapView HeapClass HeapLists HeapInv.

Lemma at_split off B x k : at_off off B x k <-> exists B1 B2, B = B1 ++ k :: B2 /\ x = off + sizes B1.
Proof.
  split.
  - revert off. induction B as [|k0 B IH]; intros off; [done|].
    intros [[-> ->]|Hx]; [exists [], B; simpl; split; [done|lia]|].
    destruct (IH _ Hx) as (B1 & B2 & -> & ->). exists (k0 :: B1), B2. simpl. split; [done|lia].
  - intros (B1 & B2 & -> & ->). apply at_mid.
Qed.

Lemma hdr_kept_live h h' n off B : hdr_kept h h' off B -> hdr_kept h (set_live_objects n h') off B.
Proof. intros H x k Hx. exact (H x k Hx). Qed.

Lemma hdr_kept_refl h off B : hdr_kept h h off B.
Proof. intros x k _. apply same_header_refl. Qed.

(** ** Changing the flags of an allocated block *)

Lemma reflag cut h h' B1 s f f' B2 L n hi :
  heap_ok cut h (B1 ++ mkBlk s f :: B2) L -> f <> 0 -> f' <> 0 -> flags_ok f' ->
  touch (rng (sizes B1) 0 hi) h h' -> hi <= 16 ->
  vsize h' (sizes B1) = s -> vflags h' (sizes B1) = f' -> vprev h' (sizes B1) = vprev h (sizes B1) ->
  n = live_count (B1 ++ mkBlk s f' :: B2) ->
  heap_ok cut (set_live_objects n h') (B1 ++ mkBlk s f' :: B2) L /\ sides_kept h h' B1 s B2.
Proof.
  intros Hok Hf Hf' Hfo Ht Hhi Vs Vf Vp Hn.
  assert (Hnf : is_free (mkBlk s f) = false) by (by apply Z.eqb_neq).
  assert (Hnf' : is_free (mkBlk s f') = false) by (by apply Z.eqb_neq).
  pose proof (open_alloc _ _ _ _ _ _ Hok Hnf) as Hh. simpl in Hh.
  destruct (pos_bounds _ _ _ _ _ _ Hok) as (? & ? & Hs16 & ? & Hsum & ? & ?). simpl in *.
  destruct (pos_seg _ _ _ _ _ _ Hok) as (Hs1 & _ & _ & Hvp & Hs2). simpl in *.
  destruct (hole_touch Hh (sizes B1) (sizes B1 + 16) h') as [Hh' Hk]; [lia|lia|
    eapply touch_mono; [|done]; unfold rng; intros; lia|].
  split; [|done]. destruct (hole_ok Hh) as [HB1 HB2].
  assert (Hall : all_ok (mkBlk s f' :: B2)) by (constructor; [split; [apply Hh|done]|done]).
  pose proof (k_coalesced _ _ _ _ Hok) as Hco. pose proof (k_total _ _ _ _ Hok) as Htot.
  constructor.
  - rewrite free_map_mid, Hnf' by done. apply (lists_counters h' _ L 0 n). apply Hh'.
  - apply seg_app. split; [apply (seg_kept h'); [apply hdr_kept_live, hdr_kept_refl|apply Hh']|].
    rewrite Z.add_0_l. split_and!; try done; [|apply Hh|].
    + intros Hle. change (vprev h' (sizes B1) = last_size 0 B1). rewrite Vp. by apply Hvp.
    + eapply (seg_kept h); [|exact Hs2]. apply hdr_kept_live.
      eapply (range_kept (sizes B1) (sizes B1 + 16)); try done; [by eapply hole_geom| |simpl; lia|simpl; lia].
      apply touch_frame. eapply touch_mono; [|done]. unfold rng. intros; lia.
  - rewrite sizes_app. simpl. rewrite (touch_size _ _ _ Ht). lia.
  - eapply coalesced_replace; [done|]. by rewrite Hnf'.
  - simpl. rewrite (touch_total _ _ _ Ht), Htot, !free_sum_app. simpl. by rewrite Hnf, Hnf'.
  - done.
Qed.

(** ** References *)

Lemma live_count_bound B : all_ok B -> 16 * live_count B <= sizes B /\ 0 <= live_count B.
Proof.
  induction 1 as [|k B [Hs _] _ IH]; [done|]. simpl. apply size_ok_true in Hs.
  destruct (is_live k); simpl; lia.
Qed.

(** The reference of the object in the block at [x]. *)
Definition ref_of (x : Z) : Value.Ref32 := Value.mkRef32 (x + OBJECT_TYPE_ID).

Lemma ref_of_managed h x : geom h -> bo h x ->
  Value.managed (x + OBJECT_TYPE_ID) = Some (ref_of x) /\
  Value.payload (ref_of x) = x + OBJECT_TYPE_ID /\ Value.domain (ref_of x) = Value.Managed.
Proof.
  intros Hg (? & ? & ?). pose proof (g_size _ Hg). unfold ref_of, OBJECT_TYPE_ID, BLOCK_HEADER_BYTES in *.
  split_and!; [apply Value.managed_Some|apply Value.managed_payload|apply Value.managed_domain]; lia.
Qed.


(** Resolving the reference of a block: live objects resolve, everything else
    is refused. *)
Lemma live_block_at cut h B L x k : heap_ok cut h B L -> at_off 0 B x k ->
  live_block h (ref_of x) = if is_live k then Ok x else Err InvalidReference.
Proof.
  intros Hok Hx. pose proof (l_geom _ _ _ (k_lists _ _ _ _ Hok)) as Hg.
  apply at_split in Hx as (B1 & B2 & -> & ->). rewrite Z.add_0_l.
  pose proof (pos_bo _ _ _ _ _ _ Hok) as Hbo. pose proof Hbo as (? & ? & ?).
  destruct (pos_seg _ _ _ _ _ _ Hok) as (_ & _ & Hvf & _).
  destruct (pos_ok _ _ _ _ _ _ Hok) as (_ & _ & _ & Hkf).
  destruct (ref_of_managed h _ Hg Hbo) as (_ & Hp & Hd).
  unfold live_block. rewrite Hd, Hp, bool_decide_eq_true_2 by done. simpl.
  unfold OBJECT_TYPE_ID, BLOCK_HEADER_BYTES.
  rewrite (proj2 (Z.ltb_ge _ _)) by lia. simpl.
  unfold is_multiple_of, BLOCK_ALIGNMENT. rewrite (proj2 (Z.eqb_eq ((sizes B1 + 8) mod 8) 0))
    by (Z.to_euclidean_division_equations; lia). simpl.
  unfold checked_sub. rewrite (proj2 (Z.leb_le _ _)) by lia. bind_simp.
  replace (sizes B1 + 8 - 8) with (sizes B1) by lia.
  rewrite (proj2 (Z.leb_gt _ _)) by lia.
  rewrite block_allocated_view, read_flags_view, Hvf by done. bind_simp. unfold is_live.
  by destruct Hkf as [-> |[-> |[-> | ->]]].
Qed.

(** ** Commit, abort, free *)

Lemma validate_ok cut h B1 s B2 L ty : heap_ok cut h (B1 ++ mkBlk s 1 :: B2) L ->
  validate_reservation h (mkReserved (sizes B1) ty) = Ok tt.
Proof.
  intros Hok. pose proof (l_geom _ _ _ (k_lists _ _ _ _ Hok)) as Hg.
  pose proof (pos_bo _ _ _ _ _ _ Hok) as Hbo. destruct (pos_seg _ _ _ _ _ _ Hok) as (_ & _ & Hvf & _).
  unfold validate_reservation. simpl.
  by rewrite block_allocated_view, read_flags_view, Hvf by done.
Qed.

Lemma commit_ok cut h B1 s B2 L ty :
  heap_ok cut h (B1 ++ mkBlk s 1 :: B2) L -> type_ok h ty ->
  exists h', commit (mkReserved (sizes B1) ty) h = (Ok (ref_of (sizes B1)), h') /\
    heap_ok cut h' (B1 ++ mkBlk s 5 :: B2) L /\ sides_kept h h' B1 s B2 /\
    vtype h' (sizes B1) = ty /\ header_format h' = header_format h /\
    slice (sizes B1 + payload_offset h) (s - payload_offset h) (arena h') =
    slice (sizes B1 + payload_offset h) (s - payload_offset h) (arena h).
Proof.
  intros Hok Hty. pose proof (l_geom _ _ _ (k_lists _ _ _ _ Hok)) as Hg.
  pose proof (pos_bo _ _ _ _ _ _ Hok) as Hbo. pose proof Hbo as (? & ? & ?).
  destruct (pos_seg _ _ _ _ _ _ Hok) as (_ & Hvs & Hvf & _). simpl in Hvs, Hvf.
  pose proof (seg_all_ok _ _ _ _ _ (k_seg _ _ _ _ Hok)) as Hall.
  assert (Hhb : 8 <= header_bytes (header_format h) <= 12) by (by destruct (header_format h)).
  destruct (write_type_spec h (sizes B1) ty Hg Hbo Hty) as (h1 & Hrun1 & Ht1 & Vt1 & (Vs1 & Vf1 & Vp1)).
  pose proof (t_geom _ _ _ Ht1) as Hg1. pose proof (touch_bo _ _ _ _ Ht1 Hbo) as Hbo1.
  destruct (write_flags_spec h1 (sizes B1) 5 Hg1 Hbo1) as (h2 & Hrun2 & Ht2 & Vf2 & Vs2 & Vp2 & _ & Vt2); [lia|].
  assert (Htt : touch (rng (sizes B1) 0 (header_bytes (header_format h))) h h2).
  { eapply touch_trans_same; [done|]. eapply touch_mono; [|done]. unfold rng. intros; lia. }
  assert (Hlive : live_objects h2 + 1 = live_count (B1 ++ mkBlk s 5 :: B2)).
  { rewrite (touch_live _ _ _ Htt), (k_live _ _ _ _ Hok), !live_count_app. simpl. lia. }
  destruct (reflag cut h h2 B1 s 1 5 B2 L (live_objects h2 + 1) (header_bytes (header_format h)))
    as [Hok' Hk]; [done|done|done|by right; right; left|done|lia|congruence|done|congruence|done|].
  exists (set_live_objects (live_objects h2 + 1) h2). split_and!; try done; [| |exact (touch_fmt _ _ _ Htt)|].
  - unfold commit. rewrite (st_bind_ok _ _ _ tt h) by (unfold st_read; by rewrite (validate_ok cut h B1 s B2 L ty Hok)).
    cbn [block type_id]. rewrite (st_bind_ok _ _ _ _ _ Hrun1).
    rewrite (st_bind_ok _ _ _ 1 h1) by (unfold st_read; rewrite read_flags_view by done; by rewrite Vf1, Hvf).
    change (Z.lor 1 LIVE) with 5. rewrite (st_bind_ok _ _ _ _ _ Hrun2), (st_bind_ok _ _ _ h2 h2) by done.
    pose proof (live_count_bound _ Hall) as [Hlb _]. rewrite (k_sum _ _ _ _ Hok) in Hlb.
    rewrite <- (k_live _ _ _ _ Hok) in Hlb. pose proof (g_size _ Hg) as Hgs. rewrite Value.MAX_PAYLOAD_eq in Hgs.
    rewrite (st_bind_ok _ _ _ (live_objects h2 + 1) h2).
    2:{ unfold st_lift, checked_add. rewrite (proj2 (Z.leb_le _ _)); [done|].
        rewrite (touch_live _ _ _ Htt). unfold u32_max. lia. }
    rewrite (st_bind_ok _ _ _ tt (set_live_objects (live_objects h2 + 1) h2)) by done.
    rewrite (st_bind_ok _ _ _ (sizes B1 + OBJECT_TYPE_ID) (set_live_objects (live_objects h2 + 1) h2)).
    2:{ unfold st_lift, checked_add, OBJECT_TYPE_ID, BLOCK_HEADER_BYTES.
        by rewrite (proj2 (Z.leb_le _ _)) by (unfold u32_max; lia). }
    unfold st_lift. by rewrite (proj1 (ref_of_managed h _ Hg Hbo)).
  - change (vtype h2 (sizes B1) = ty). congruence.
  - unfold payload_offset. simpl. eapply touch_slice; [done|done|lia|]. unfold rng. intros; lia.
Qed.

Lemma live_flags k : is_live k = true -> is_free k = false.
Proof. unfold is_live, is_free. destruct (b_flags k =? 0) eqn:E; [|done]. bsimp. by rewrite E. Qed.

Lemma abort_ok cut h B1 s B2 L ty :
  heap_ok cut h (B1 ++ mkBlk s 1 :: B2) L -> sizes B1 <= cut ->
  exists h' L', abort (mkReserved (sizes B1) ty) h = (Ok tt, h') /\
    heap_ok cut h' (freed_blocks B1 s B2) L' /\ sides_kept h h' B1 s B2.
Proof.
  intros Hok Hcut. unfold abort. rewrite (st_bind_ok _ _ _ tt h) by (unfold st_read; by rewrite (validate_ok cut h B1 s B2 L ty Hok)).
  destruct (free_block_ok cut h B1 (mkBlk s 1) B2 L (live_objects h)) as (h' & L' & Hrun & ? & ? & _); try done.
  { rewrite (k_live _ _ _ _ Hok), !live_count_app. simpl. lia. }
  replace (set_live_objects (live_objects h) h) with h in Hrun by (by destruct h). by exists h', L'.
Qed.

Lemma free_ok cut h B1 k B2 L :
  heap_ok cut h (B1 ++ k :: B2) L -> sizes B1 <= cut ->
  if is_live k
  then exists h' L', free (ref_of (sizes B1)) h = (Ok true, h') /\
    heap_ok cut h' (freed_blocks B1 (b_size k) B2) L' /\ sides_kept h h' B1 (b_size k) B2 /\
    (forall s, s <= (take_left B1).2 + b_size k + (take_right B2).2 \/ covers h (free_map 0 (B1 ++ k :: B2)) s ->
       covers h' (free_map 0 (freed_blocks B1 (b_size k) B2)) s)
  else free (ref_of (sizes B1)) h = (Ok false, h).
Proof.
  intros Hok Hcut. pose proof (l_geom _ _ _ (k_lists _ _ _ _ Hok)) as Hg.
  pose proof (pos_bo _ _ _ _ _ _ Hok) as Hbo.
  pose proof (live_block_at _ _ _ _ _ _ Hok (at_mid 0 B1 k B2)) as Hlb. rewrite Z.add_0_l in Hlb.
  destruct (ref_of_managed h _ Hg Hbo) as (_ & _ & Hd).
  unfold free. rewrite Hd, bool_decide_eq_true_2 by done. cbn [negb]. rewrite Hlb.
  destruct (is_live k) eqn:Elive; [|done].
  assert (Hn : live_objects h - 1 = live_count (B1 ++ B2)).
  { rewrite (k_live _ _ _ _ Hok), !live_count_app. simpl. rewrite Elive. simpl. lia. }
  destruct (pos_ok _ _ _ _ _ _ Hok) as (HB1 & HB2 & _).
  pose proof (live_count_bound _ HB1). pose proof (live_count_bound _ HB2).
  destruct (free_block_ok cut h B1 k B2 L _ Hok (live_flags _ Elive) Hcut Hn) as (h' & L' & Hrun & Hok' & Hk & Hcov).
  exists h', L'. split_and!; [|done|done|done].
  rewrite (st_bind_ok _ _ _ (live_objects h - 1) h).
  2:{ unfold st_lift, checked_sub. rewrite (proj2 (Z.leb_le _ _)); [done|]. rewrite live_count_app in Hn. lia. }
  rewrite (st_bind_ok _ _ _ tt (set_live_objects (live_objects h - 1) h)) by done.
  by rewrite (st_bind_ok _ _ _ _ _ Hrun).
Qed.

(** ** Payload bytes *)

Lemma splice_cons start b bs l : 0 <= start -> start + 1 + Z.of_nat (length bs) <= Z.of_nat (length l) ->
  splice (start + 1) bs (splice start [b] l) = splice (A:=Z) start (b :: bs) l.
Proof.
  intros Hs Hl. unfold splice. simpl. replace (Z.to_nat (start + 1)) with (Z.to_nat start + 1)%nat by lia.
  assert (Ht : length (take (Z.to_nat start) l) = Z.to_nat start) by (rewrite length_take; lia).
  rewrite take_app, take_take, Ht. replace (Z.to_nat start + 1 - Z.to_nat start)%nat with 1%nat by lia.
  rewrite Nat.min_r by lia. simpl. rewrite take_0, <- app_assoc. simpl. f_equal. f_equal. f_equal.
  rewrite drop_app, Ht. rewrite (drop_ge (take _ _)) by (rewrite Ht; lia). simpl.
  replace (Z.to_nat start + 1 + length bs - Z.to_nat start)%nat with (S (length bs)) by lia. simpl.
  rewrite drop_drop. f_equal. lia.
Qed.

Lemma write_bytes_ok h start bs : geom h -> 0 <= start -> start + Z.of_nat (length bs) <= arena_bytes h ->
  is_bytes bs ->
  write_bytes_from start bs h = (Ok tt, set_arena (splice start bs (arena h)) h).
Proof.
  revert h start. induction bs as [|b bs IH]; intros h start Hg Hs Hl Hb.
  - simpl. unfold splice. simpl. rewrite Nat.add_0_r, take_drop. by destruct h.
  - simpl in *. pose proof (g_len _ Hg). pose proof (g_size _ Hg) as Hgs. rewrite Value.MAX_PAYLOAD_eq in Hgs.
    pose proof (g_align _ Hg). apply Forall_cons in Hb as [Hb Hbs].
    rewrite (proj2 (Z.ltb_ge _ _)) by (unfold u32_max; lia).
    set (h1 := set_arena (splice start [b] (arena h)) h).
    rewrite (st_bind_ok _ _ _ tt h1).
    2:{ unfold write_byte. rewrite (proj2 (Z.ltb_lt _ _)); [done|].
        Z.to_euclidean_division_equations. lia. }
    assert (Ht : touch (fun i => start <= i < start + 1) h h1).
    { apply (splice_touch h start [b]); [done|by constructor|done|simpl; lia]. }
    rewrite IH; [|apply Ht|lia|simpl; lia|done].
    unfold h1. simpl. rewrite splice_cons by lia. done.
Qed.

Lemma read_bytes_ok h start n : geom h -> 0 <= start -> start + Z.of_nat n <= arena_bytes h ->
  read_bytes_from h start n = Ok (slice start (Z.of_nat n) (arena h)).
Proof.
  intros Hg. revert start. induction n as [|n IH]; intros start Hs Hn.
  - by unfold slice.
  - cbn [read_bytes_from].
    pose proof (g_len _ Hg). pose proof (g_size _ Hg) as Hgs. rewrite Value.MAX_PAYLOAD_eq in Hgs.
    pose proof (g_align _ Hg).
    rewrite (proj2 (Z.ltb_ge _ _)) by (unfold u32_max; lia).
    destruct (lookup_lt_is_Some_2 (arena h) (Z.to_nat start)) as [b Hb]; [lia|].
    assert (Hrb : read_byte h start = Ok b).
    { unfold read_byte, zget. rewrite Hb, (proj2 (Z.ltb_lt _ _)); [done|].
      Z.to_euclidean_division_equations. lia. }
    rewrite Hrb, IH by lia. bind_simp. do 2 f_equal. unfold slice.
    rewrite !Nat2Z.id. apply drop_S in Hb. rewrite Hb. simpl. by replace (Z.to_nat (start + 1)) with (S (Z.to_nat start)) by lia.
Qed.

(** Writes inside an allocated block beyond its header. *)
Lemma payload_touch cut h h' B1 k B2 L lo hi :
  heap_ok cut h (B1 ++ k :: B2) L -> is_free k = false ->
  touch (fun i => lo <= i < hi) h h' -> sizes B1 + header_bytes (header_format h) <= lo ->
  hi <= sizes B1 + b_size k ->
  heap_ok cut h' (B1 ++ k :: B2) L /\ sides_kept h h' B1 (b_size k) B2 /\
  vtype h' (sizes B1) = vtype h (sizes B1).
Proof.
  intros Hok Hnf Ht Hlo Hhi. pose proof (l_geom _ _ _ (k_lists _ _ _ _ Hok)) as Hg.
  assert (Hhb : 8 <= header_bytes (header_format h) <= 12) by (by destruct (header_format h)).
  destruct (pos_bounds _ _ _ _ _ _ Hok) as (? & ? & ? & ? & ? & ? & ?).
  destruct (pos_seg _ _ _ _ _ _ Hok) as (Hs1 & Hvs & Hvf & Hvp & Hs2).
  destruct (pos_ok _ _ _ _ _ _ Hok) as (HB1 & HB2 & Hks & Hkf).
  pose proof (open_alloc _ _ _ _ _ _ Hok Hnf) as Hh.
  destruct (hole_touch Hh lo hi h') as [Hh' Hk]; [lia|lia|done|].
  assert (Hhd : same_header h h' (sizes B1)).
  { eapply touch_header; [done|done|lia|]. unfold rng. intros; lia. }
  destruct Hhd as (Es & Ef & Ep). split_and!; [|done|].
  - constructor.
    + rewrite free_map_mid, Hnf by (done || (constructor; done)). apply Hh'.
    + apply seg_app. split; [apply Hh'|]. simpl. rewrite Z.add_0_l, Es, Ef, Ep.
      split_and!; try done. eapply (seg_kept h); [|done].
      eapply (range_kept lo hi); try done; [by apply touch_frame|lia|lia].
    + rewrite (touch_size _ _ _ Ht). apply Hok.
    + apply Hok.
    + rewrite (touch_total _ _ _ Ht). apply Hok.
    + rewrite (touch_live _ _ _ Ht). apply Hok.
  - unfold vtype. rewrite (touch_fmt _ _ _ Ht). destruct (header_format h); simpl in *.
    + eapply touch_word; [done|done|lia|]. unfold rng, LEGACY_HEAP_HEADER_BYTES in *. intros; lia.
    + erewrite touch_dword; [done|done|done|lia|]. unfold rng, BLOCK_HEADER_BYTES in *. intros; lia.
Qed.

(** Bytes an object can hold. *)
Definition room (h : Heap) (k : blk) : Z := b_size k - payload_offset h.

Section Payload.
Context (cut : Z) (h : Heap) (B1 B2 : list blk) (k : blk) (L : list (list Z)).
Context (Hok : heap_ok cut h (B1 ++ k :: B2) L) (Hlive : is_live k = true).

Let start (off : Z) : Z := sizes B1 + payload_offset h + off.

Lemma payload_prefix off : 0 <= off <= room h k ->
  live_block h (ref_of (sizes B1)) = Ok (sizes B1) /\ capacity h (sizes B1) = Ok (room h k) /\
  payload_start h (sizes B1) off = Ok (start off) /\ 8 <= payload_offset h /\
  0 <= start off /\ start off <= sizes B1 + b_size k /\ sizes B1 + b_size k <= arena_bytes h /\ 0 <= sizes B1.
Proof using Hok Hlive.
  intros Hoff. pose proof (l_geom _ _ _ (k_lists _ _ _ _ Hok)) as Hg.
  pose proof (live_block_at _ _ _ _ _ _ Hok (at_mid 0 B1 k B2)) as Hlb. rewrite Z.add_0_l, Hlive in Hlb.
  destruct (pos_bounds _ _ _ _ _ _ Hok) as (? & ? & ? & ? & ? & ? & ?).
  destruct (pos_seg _ _ _ _ _ _ Hok) as (_ & Hvs & _). destruct (pos_ok _ _ _ _ _ _ Hok) as (_ & _ & Hks & _).
  pose proof (pos_bo _ _ _ _ _ _ Hok) as Hbo. unfold room, start in *.
  assert (Hhb : 8 <= payload_offset h <= 12) by (unfold payload_offset; by destruct (header_format h)).
  split_and!; try done; try lia.
  - unfold capacity. rewrite block_size_view, Hvs, Hks by done. bind_simp.
    unfold checked_sub. by rewrite (proj2 (Z.leb_le _ _)) by lia.
  - unfold payload_start, checked_add. rewrite (proj2 (Z.leb_le _ _)) by (unfold u32_max; lia). bind_simp.
    by rewrite (proj2 (Z.leb_le _ _)) by (unfold u32_max; lia).
Qed.

Lemma write_payload_ok off bs : is_bytes bs -> 0 <= off -> off + Z.of_nat (length bs) <= room h k ->
  exists h', write_payload (ref_of (sizes B1)) off bs h = (Ok tt, h') /\
    heap_ok cut h' (B1 ++ k :: B2) L /\ sides_kept h h' B1 (b_size k) B2 /\
    vtype h' (sizes B1) = vtype h (sizes B1) /\ header_format h' = header_format h /\
    arena h' = splice (start off) bs (arena h).
Proof using Hok Hlive.
  intros Hb Hoff Hlen. pose proof (l_geom _ _ _ (k_lists _ _ _ _ Hok)) as Hg.
  destruct (payload_prefix off) as (Hlb & Hcap & Hst & ? & ? & ? & ? & ?); [lia|].
  unfold room in *. pose proof (g_size _ Hg) as Hgs. rewrite Value.MAX_PAYLOAD_eq in Hgs.
  assert (Hend : start off + Z.of_nat (length bs) <= sizes B1 + b_size k) by (unfold start; lia).
  set (h' := set_arena (splice (start off) bs (arena h)) h).
  assert (Ht : touch (fun i => start off <= i < start off + Z.of_nat (length bs)) h h')
    by (apply splice_touch; (done || lia)).
  destruct (payload_touch cut h h' B1 k B2 L _ _ Hok (live_flags _ Hlive) Ht) as (? & ? & ?);
    [unfold start, payload_offset; lia|done|].
  exists h'. split_and!; try done. unfold write_payload.
  rewrite (st_bind_ok _ _ _ (sizes B1) h) by (unfold st_read; by rewrite Hlb).
  rewrite (st_bind_ok _ _ _ (Z.of_nat (length bs)) h).
  2:{ unfold st_lift. rewrite (proj2 (try_from_unsigned_Some u32_max (Z.of_nat (length bs)) (Z.of_nat (length bs)))); [done|split; [done|unfold u32_max; lia]]. }
  rewrite (st_bind_ok _ _ _ (room h k) h) by (unfold st_read; by rewrite Hcap).
  rewrite (st_bind_ok _ _ _ (off + Z.of_nat (length bs)) h).
  2:{ unfold st_lift, checked_add. by rewrite (proj2 (Z.leb_le _ _)) by (unfold u32_max; lia). }
  rewrite (proj2 (Z.ltb_ge _ _)) by (unfold room; lia).
  rewrite (st_bind_ok _ _ _ (start off) h) by (unfold st_read; by rewrite Hst).
  apply write_bytes_ok; (done || lia).
Qed.

Lemma read_payload_ok off len : 0 <= off -> 0 <= len <= 8 -> off + len <= room h k ->
  read_payload h (ref_of (sizes B1)) off len =
  Ok (slice (start off) len (arena h) ++ replicate (8 - Z.to_nat len) 0).
Proof using Hok Hlive.
  intros Hoff Hlen Hend. pose proof (l_geom _ _ _ (k_lists _ _ _ _ Hok)) as Hg.
  destruct (payload_prefix off) as (Hlb & Hcap & Hst & ? & ? & ? & ? & ?); [lia|].
  unfold read_payload. rewrite Hlb. bind_simp. rewrite Hcap. bind_simp.
  pose proof (g_size _ Hg) as Hgs. rewrite Value.MAX_PAYLOAD_eq in Hgs. unfold room, start in *.
  unfold checked_add. rewrite (proj2 (Z.leb_le _ _)) by (unfold u32_max; lia). bind_simp.
  rewrite (proj2 (Z.ltb_ge 8 _)) by lia. rewrite (proj2 (Z.ltb_ge _ _)) by lia. simpl.
  rewrite Hst. bind_simp. rewrite read_bytes_ok by (done || lia). bind_simp.
  rewrite Z2Nat.id by lia. rewrite slice_length; [done|lia|lia|]. rewrite (g_len _ Hg). lia.
Qed.

(** Requests beyond the object fail and change nothing. *)
Lemma payload_out_of_range off bs : 0 <= off -> Z.of_nat (length bs) <= u32_max ->
  room h k < off + Z.of_nat (length bs) -> 0 <= room h k ->
  write_payload (ref_of (sizes B1)) off bs h = (Err CorruptHeap, h).
Proof using Hok Hlive.
  intros Hoff Hlen Hover Hroom.
  destruct (payload_prefix 0) as (Hlb & Hcap & _); [lia|]. unfold write_payload.
  rewrite (st_bind_ok _ _ _ (sizes B1) h) by (unfold st_read; by rewrite Hlb).
  rewrite (st_bind_ok _ _ _ (Z.of_nat (length bs)) h).
  2:{ unfold st_lift. rewrite (proj2 (try_from_unsigned_Some u32_max (Z.of_nat (length bs)) (Z.of_nat (length bs)))); [done|split; [done|lia]]. }
  rewrite (st_bind_ok _ _ _ (room h k) h) by (unfold st_read; by rewrite Hcap).
  unfold mbind, ST_bind, st_lift, checked_add. destruct (Z.leb_spec (off + Z.of_nat (length bs)) u32_max).
  - simpl. by rewrite (proj2 (Z.ltb_lt _ _)) by lia.
  - done.
Qed.

End Payload.

(** ** Construction *)

Lemma bitmaps_empty : bitmaps_ok 0 (replicate 32 0) (replicate 256 []).
Proof.
  constructor; [done|by apply Forall_replicate| |done|].
  - intros f s z l Hf Hs Hz Hl. apply lookup_replicate in Hz as [-> _]. apply lookup_replicate in Hl as [-> _].
    rewrite Z.bits_0. naive_solver.
  - intros f z Hf Hz. apply lookup_replicate in Hz as [-> _]. rewrite Z.bits_0. naive_solver.
Qed.

Lemma index_empty : index_ok ∅ (replicate 256 []).
Proof.
  constructor; [done| | |done].
  - intros i l Hl. apply lookup_replicate in Hl as [-> _]. constructor.
  - intros i l b Hl Hb. apply lookup_replicate in Hl as [-> _]. by apply not_elem_of_nil in Hb.
Qed.

Lemma lists_empty h : geom h -> class_heads h = replicate 256 NULL_OFFSET -> first_bitmap h = 0 ->
  second_bitmaps h = replicate 32 0 -> largest_free_hint h = NULL_OFFSET ->
  lists_ok h ∅ (replicate 256 []).
Proof.
  intros Hg Hc Hf Hs Hh. constructor; [done|apply index_empty| | |done| | |by left].
  - by rewrite Hc.
  - intros i l Hl. by apply lookup_replicate in Hl as [-> _].
  - intros b b' [? ?]. done.
  - rewrite Hf, Hs. apply bitmaps_empty.
Qed.

(** The formats an admitted plan can carry. *)
Definition plan_format_ok (plan : StoragePlan) : Prop :=
  Layout.header_format plan = Legacy \/
  exists count, 0 <= count /\ Layout.header_format plan = select (heap_arena_bytes plan) count.

Lemma new_geom f n : 32 <= n <= Value.MAX_PAYLOAD -> n mod 16 = 0 ->
  (f = Legacy \/ exists count, 0 <= count /\ f = select n count) ->
  forall c b s hint t l, geom (mkHeap f (replicate (Z.to_nat (16 * (n / 16))) 0) n c b s hint t l).
Proof.
  intros Hn Hm Hf c b s hint t l. constructor; simpl; try done.
  - rewrite length_replicate. Z.to_euclidean_division_equations. lia.
  - by apply Forall_replicate.
  - destruct f as [|sb lb]; [done|]. destruct Hf as [|(count & Hc & Hsel)]; [done|].
    symmetry in Hsel. apply select_compact in Hsel as (? & ? & ? & ? & ? & ? & ? & ?); [|done].
    split_and!; lia.
Qed.

Lemma new_ok plan : 32 <= heap_arena_bytes plan <= Value.MAX_PAYLOAD ->
  heap_arena_bytes plan mod 16 = 0 -> plan_format_ok plan ->
  exists h L, new plan = Ok h /\ arena_bytes h = heap_arena_bytes plan /\
    header_format h = Layout.header_format plan /\
    heap_ok (arena_bytes h) h [mkBlk (heap_arena_bytes plan) 0] L.
Proof.
  intros Hn Hm Hf. set (n := heap_arena_bytes plan) in *. unfold new. fold n.
  assert (Hu : n <= u32_max) by (rewrite Value.MAX_PAYLOAD_eq in Hn; unfold u32_max; lia).
  rewrite (proj2 (try_from_unsigned_Some u32_max n n)) by (split; [done|lia]).
  rewrite (proj2 (Z.ltb_ge _ _)) by lia. unfold is_multiple_of. rewrite (proj2 (Z.eqb_eq _ _) Hm).
  rewrite (proj2 (Z.ltb_ge _ _)) by lia. cbn [orb negb].
  set (h0 := mkHeap _ _ _ _ _ _ _ _ _).
  assert (Hg0 : geom h0) by (by apply new_geom).
  assert (Hsz : size_ok n = true) by (apply size_ok_true; Z.to_euclidean_division_equations; lia).
  destruct (write_header_spec h0 0 n 0 false) as (h1 & Hrun1 & Ht1 & V1 & F1 & P1 & _ & _);
    [done|split_and!; simpl; (done || lia)|done|simpl; lia|split; simpl; (done || lia)|].
  assert (Hl1 : lists_ok h1 ∅ (replicate 256 [])).
  { apply lists_empty; [apply Ht1|rewrite (touch_heads _ _ _ Ht1)|rewrite (touch_first _ _ _ Ht1)|
      rewrite (touch_second _ _ _ Ht1)|rewrite (touch_hint _ _ _ Ht1)]; done. }
  assert (Hins : insertable h1 ∅ 0 n).
  { split_and!; try done; [|rewrite (touch_size _ _ _ Ht1); simpl; lia|by intros b' [? ?]].
    eapply touch_bo; [done|]. split_and!; simpl; (done || lia). }
  destruct (insert_free_ok h1 ∅ _ 0 n Hl1 Hins) as (h2 & L2 & Hrun2 & Hl2 & Hf2 & _).
  exists h2, L2. split_and!.
  - by rewrite (st_bind_ok _ _ _ _ _ Hrun1), Hrun2.
  - by rewrite (f_size _ _ _ Hf2), (touch_size _ _ _ Ht1).
  - by rewrite (f_fmt _ _ _ Hf2), (touch_fmt _ _ _ Ht1).
  - destruct (frame_header _ h1 h2 0 (l_geom _ _ _ Hl1) Hf2) as (V2 & F2 & P2); [done| |].
    { eapply link_bytes_header; [by eapply insert_apart; [eapply lists_apart|]|].
      rewrite lookup_insert_eq. by eexists. }
    constructor; try done.
    + simpl. rewrite V2, F2, P2. split_and!; try done. by left.
    + simpl. rewrite (f_size _ _ _ Hf2), (touch_size _ _ _ Ht1). simpl. lia.
    + simpl. rewrite (f_total _ _ _ Hf2), (touch_total _ _ _ Ht1). simpl. lia.
    + by rewrite (f_live _ _ _ Hf2), (touch_live _ _ _ Ht1).
Qed.

End HeapOps.
