(* ===== verification/HeapProps.v ===== *)
(** What src/execution/heap.rs guarantees to its clients, stated on the block
    sequence of an allocator state ([HeapInv.blk]): construction, allocation,
    publication, release, payload access, the diagnostic walk, and arbitrary
    sequences of those operations. *)

From S2P Require Import Prelude Words Fields Errors Value Layout Heap HeapLists.
From S2P Require Import HeapInv HeapOps.

Module HeapProps.
Import Errors Layout Heap HeapView HeapClass HeapLists HeapInv HeapOps.

(** [h] is a well-formed heap whose blocks are [B], in address order. *)
Definition heap_inv (h : Heap) (B : list blk) : Prop := exists L, heap_ok (arena_bytes h) h B L.

Lemma at_below h B L x k : heap_ok (arena_bytes h) h B L -> at_off 0 B x k -> x <= arena_bytes h.
Proof.
  intros Hok Hx. pose proof (seg_all_ok _ _ _ _ _ (k_seg _ _ _ _ Hok)) as Hall.
  pose proof (at_range _ _ _ _ Hall Hx). pose proof (at_ok _ _ _ _ Hall Hx) as (? & _).
  rewrite (k_sum _ _ _ _ Hok) in *. lia.
Qed.

Lemma mid_below h B1 k B2 L : heap_ok (arena_bytes h) h (B1 ++ k :: B2) L -> sizes B1 <= arena_bytes h.
Proof. intros Hok. apply (at_below _ _ _ _ _ Hok (at_mid 0 B1 k B2)). Qed.

Lemma same_arena h h' B L : heap_ok (arena_bytes h) h' B L -> sizes B = arena_bytes h -> heap_inv h' B.
Proof. intros Hok Hs. exists L. by rewrite <- (k_sum _ _ _ _ Hok), Hs. Qed.

Lemma inv_sizes h B : heap_inv h B -> sizes B = arena_bytes h.
Proof. intros [L Hok]. apply Hok. Qed.

(** A released sequence has the same extent. *)
Lemma freed_sizes B1 k B2 : sizes (freed_blocks B1 (b_size k) B2) = sizes (B1 ++ k :: B2).
Proof. rewrite (proj1 (freed_sums _ _ _)), sizes_app. simpl. lia. Qed.

Lemma split_sizes s bytes : sizes (split_blocks s bytes) = s.
Proof. unfold split_blocks. destruct (16 <=? s - bytes); simpl; lia. Qed.

(** Objects other than the one at [x] keep their type and their payload. *)
Definition others_kept (h h' : Heap) (B : list blk) (x : Z) : Prop :=
  forall y k, at_off 0 B y k -> is_free k = false -> y <> x ->
    vtype h' y = vtype h y /\
    slice (y + 8) (b_size k - 8) (arena h') = slice (y + 8) (b_size k - 8) (arena h).

Lemma sides_others h h' B1 k B2 : all_ok (B1 ++ k :: B2) -> sides_kept h h' B1 (b_size k) B2 ->
  others_kept h h' (B1 ++ k :: B2) (sizes B1).
Proof.
  intros Hall [K1 K2] y k' Hy Hf Hne. apply at_app in Hy as [Hy|[[-> ->]|Hy]]; [by apply K1|lia|by apply K2].
Qed.

(** ** The diagnostic walk *)

Fixpoint largest_free (B : list blk) : Z :=
  match B with [] => 0 | k :: B => Z.max (if is_free k then b_size k else 0) (largest_free B) end.

Lemma largest_free_nonneg B : 0 <= largest_free B.
Proof. induction B; simpl; lia. Qed.

Lemma largest_free_walk h cut B fuel off prev best :
  geom h -> seg h cut off prev B -> 0 <= off -> off mod 8 = 0 -> off + sizes B = arena_bytes h ->
  (length B < fuel)%nat -> 0 <= best ->
  largest_free_from h fuel off best = Z.max best (largest_free B).
Proof.
  intros Hg. revert fuel off prev best. induction B as [|k B IH]; intros [|fuel] off prev best Hseg Ho Hm Hsum Hfu Hb;
    [simpl in *; lia| |simpl in *; lia|].
  - simpl in *. rewrite (proj2 (Z.ltb_ge _ _)) by lia. lia.
  - pose proof (seg_all_ok _ _ _ _ _ Hseg) as Hall. apply Forall_cons in Hall as [[Hks Hkf] Hall].
    destruct Hseg as (Hvs & Hvf & _ & _ & _ & Hseg).
    pose proof (proj1 (size_ok_true _) Hks) as [Hs16 Hsm]. pose proof (sizes_ok _ Hall) as [? ?].
    cbn [sizes length largest_free] in *. cbn [largest_free_from].
    pose proof (g_size _ Hg) as Hgs. rewrite Value.MAX_PAYLOAD_eq in Hgs.
    assert (Hbo : bo h off) by (split_and!; lia).
    rewrite (proj2 (Z.ltb_lt _ _)) by lia.
    rewrite block_size_view, Hvs, Hks, block_allocated_view, Hvf, flags_allocated by done.
    unfold checked_add. rewrite (proj2 (Z.leb_le _ _)) by (unfold u32_max; lia).
    unfold is_free. destruct (b_flags k =? 0); simpl;
      (rewrite (IH fuel _ _ _ Hseg) by (lia || (Z.to_euclidean_division_equations; lia))); lia.
Qed.

Lemma blocks_bounded B : all_ok B -> 16 * Z.of_nat (length B) <= sizes B.
Proof. induction 1 as [|k B [Hs _] _ IH]; [done|]. simpl. apply size_ok_true in Hs. lia. Qed.

(** ** Sequences of operations *)

Inductive op :=
| OReserve (bytes ty : Z)
| OCommit (x ty : Z)
| OAbort (x ty : Z)
| OFree (x : Z)
| OWrite (x off : Z) (bs : list Z).

(** What they answer. *)
Inductive answer :=
| Reserved (r : option ReservedAllocation)
| Committed (r : Value.Ref32)
| Freed (b : bool)
| Done.

Definition run_op (o : op) : HeapM answer :=
  match o with
  | OReserve bytes ty => r ← reserve (mkRequest bytes ty); mret (Reserved r)
  | OCommit x ty => r ← commit (mkReserved x ty); mret (Committed r)
  | OAbort x ty => _ ← abort (mkReserved x ty); mret Done
  | OFree x => b ← free (ref_of x); mret (Freed b)
  | OWrite x off bs => _ ← write_payload (ref_of x) off bs; mret Done
  end.

(** Operations a client may issue on blocks [B] of a heap with this format:
    reservations are committed or aborted, objects written within bounds, and
    references belong to blocks. *)
Definition enabled (h : Heap) (B : list blk) (o : op) : Prop :=
  match o with
  | OReserve bytes _ => size_ok bytes = true /\ bytes <= u32_max
  | OCommit x ty => type_ok h ty /\ exists s, at_off 0 B x (mkBlk s 1)
  | OAbort x _ => exists s, at_off 0 B x (mkBlk s 1)
  | OFree x => exists k, at_off 0 B x k
  | OWrite x off bs => exists k, at_off 0 B x k /\ is_live k = true /\ is_bytes bs /\ 0 <= off /\
      off + Z.of_nat (length bs) <= room h k
  end.

(** The blocks a heap's headers describe. *)
Fixpoint walk (h : Heap) (fuel : nat) (off : Z) : list blk :=
  match fuel with
  | O => []
  | S fuel =>
      if off <? arena_bytes h
      then mkBlk (vsize h off) (vflags h off) :: walk h fuel (off + vsize h off)
      else []
  end.

Definition blocks_of (h : Heap) : list blk := walk h (S (Z.to_nat (arena_bytes h / 16))) 0.

Lemma walk_seg h cut B fuel off prev :
  seg h cut off prev B -> off + sizes B = arena_bytes h -> (length B < fuel)%nat ->
  walk h fuel off = B.
Proof.
  revert fuel off prev. induction B as [|k B IH]; intros [|fuel] off prev Hseg Hsum Hfu; simpl in *; try lia.
  - by rewrite (proj2 (Z.ltb_ge _ _)) by lia.
  - destruct Hseg as (Hvs & Hvf & _ & Hks & _ & Hseg). apply size_ok_true in Hks.
    pose proof (sizes_ok _ (seg_all_ok _ _ _ _ _ Hseg)) as [? _].
    rewrite (proj2 (Z.ltb_lt _ _)), Hvs, Hvf by lia. rewrite (IH fuel _ _ Hseg) by lia. by destruct k.
Qed.

Lemma fuel_enough h B L cut : heap_ok cut h B L -> (length B < S (Z.to_nat (arena_bytes h / 16)))%nat.
Proof.
  intros Hok. pose proof (blocks_bounded B (seg_all_ok _ _ _ _ _ (k_seg _ _ _ _ Hok))) as Hb.
  rewrite (k_sum _ _ _ _ Hok) in Hb.
  assert (Z.of_nat (length B) <= arena_bytes h / 16) by (apply Z.div_le_lower_bound; lia). lia.
Qed.

Lemma blocks_of_eq h B : heap_inv h B -> blocks_of h = B.
Proof.
  intros [L Hok]. eapply walk_seg; [apply Hok|rewrite (k_sum _ _ _ _ Hok); lia|by eapply fuel_enough].
Qed.

(** Heaps a client reaches that only issues enabled operations, whatever the
    operations return. *)
Inductive reachable (plan : StoragePlan) : Heap -> Prop :=
| reach_new h : new plan = Ok h -> reachable plan h
| reach_op h o r h' : reachable plan h -> enabled h (blocks_of h) o -> run_op o h = (r, h') ->
    reachable plan h'.

(** An enabled operation answers and leaves a well-formed heap. *)
Lemma simulate h B o : heap_inv h B -> enabled h B o ->
  exists r h' B', run_op o h = (Ok r, h') /\ heap_inv h' B'.
Proof.
  intros [L Hok] Hen. pose proof (k_sum _ _ _ _ Hok) as Hsum. destruct o as [bytes ty|x ty|x ty|x|x off bs]; simpl in *.
  - destruct Hen as [Hb Hmax].
    destruct (reserve_ok _ _ _ _ bytes ty Hok (Z.le_refl _) Hb Hmax) as (r & h' & Hrun & Hr).
    eexists _, h'. destruct r as [res|].
    + destruct Hr as (B1 & s & B2 & L' & -> & Hle & _ & Hok' & _). exists (B1 ++ split_blocks s bytes ++ B2).
      split; [by rewrite (st_bind_ok _ _ _ _ _ Hrun)|].
      eapply same_arena; [done|]. rewrite <- Hsum, !sizes_app, split_sizes. done.
    + destruct Hr as [-> _]. exists B. split; [by rewrite (st_bind_ok _ _ _ _ _ Hrun)|by exists L].
  - destruct Hen as [Hty [s Hx]]. apply at_split in Hx as (B1 & B2 & -> & ->). rewrite Z.add_0_l.
    destruct (commit_ok _ _ _ _ _ _ ty Hok Hty) as (h' & Hrun & Hok' & _).
    eexists _, h', (B1 ++ mkBlk s 5 :: B2). split; [by rewrite (st_bind_ok _ _ _ _ _ Hrun)|].
    eapply same_arena; [done|]. by rewrite <- Hsum, !sizes_app.
  - destruct Hen as [s Hx]. apply at_split in Hx as (B1 & B2 & -> & ->). rewrite Z.add_0_l.
    destruct (abort_ok _ _ _ _ _ _ ty Hok) as (h' & L' & Hrun & Hok' & _); [by eapply mid_below|].
    eexists _, h', (freed_blocks B1 s B2). split; [by rewrite (st_bind_ok _ _ _ _ _ Hrun)|].
    eapply same_arena; [done|]. rewrite <- Hsum. apply (freed_sizes B1 (mkBlk s 1)).
  - destruct Hen as [k Hx]. apply at_split in Hx as (B1 & B2 & -> & ->). rewrite Z.add_0_l.
    pose proof (free_ok _ _ _ _ _ _ Hok (mid_below _ _ _ _ _ Hok)) as Hfree.
    destruct (is_live k) eqn:Elive.
    + destruct Hfree as (h' & L' & Hrun & Hok' & _). eexists _, h', (freed_blocks B1 (b_size k) B2).
      split; [by rewrite (st_bind_ok _ _ _ _ _ Hrun)|].
      eapply same_arena; [done|]. rewrite <- Hsum. apply freed_sizes.
    + eexists _, h, (B1 ++ k :: B2). split; [by rewrite (st_bind_ok _ _ _ _ _ Hfree)|by exists L].
  - destruct Hen as (k & Hx & Hlive & Hb & Hoff & Hlen). apply at_split in Hx as (B1 & B2 & -> & ->).
    rewrite Z.add_0_l. destruct (write_payload_ok _ _ _ _ _ _ Hok Hlive off bs Hb Hoff Hlen) as (h' & Hrun & Hok' & _).
    eexists _, h', (B1 ++ k :: B2). split; [by rewrite (st_bind_ok _ _ _ _ _ Hrun)|]. by eapply same_arena.
Qed.

Lemma simulate_blocks h B o : heap_inv h B -> enabled h B o ->
  let h' := (run_op o h).2 in heap_inv h' (blocks_of h').
Proof.
  intros Hi He. destruct (simulate h B o Hi He) as (r & h' & B' & Hrun & Hi').
  rewrite Hrun. simpl. by rewrite (blocks_of_eq _ _ Hi').
Qed.

(** ** Example heaps *)

Definition demo_plan : StoragePlan :=
  mkStoragePlan (select 128 5) (mkStorageCharges 128 0 0 0 0 0 0 0 0 0 0) 128.

Definition demo_new : Heap :=
  match new demo_plan with
  | Ok h => h
  | _ => mkHeap Legacy [] 0 [] 0 [] 0 0 0
  end.

(** Two live objects and a free rest. *)
Definition demo_reserved : Heap := (run_op (OReserve 32 3) demo_new).2.
Definition demo_one : Heap := (run_op (OCommit 0 3) demo_reserved).2.
Definition demo_two : Heap := (run_op (OReserve 24 1) demo_one).2.
Definition demo_live : Heap := (run_op (OCommit 32 1) demo_two).2.

Lemma demo_plan_ok : 32 <= heap_arena_bytes demo_plan <= Value.MAX_PAYLOAD /\
  heap_arena_bytes demo_plan mod 16 = 0 /\ plan_format_ok demo_plan.
Proof.
  split_and!; [done|done|done|].
  right. exists 5. split; [lia|done].
Qed.

Lemma demo_new_inv : heap_inv demo_new [mkBlk 128 0].
Proof.
  destruct demo_plan_ok as (H1 & H2 & H3).
  destruct (new_ok demo_plan H1 H2 H3) as (h & L & Hnew & Ha & _ & Hok).
  unfold demo_new. rewrite Hnew. by exists L.
Qed.

Lemma demo_step h B o B' : heap_inv h B -> enabled h B o -> blocks_of (run_op o h).2 = B' ->
  heap_inv (run_op o h).2 B'.
Proof. intros Hi He <-. by apply (simulate_blocks h B o). Qed.

Lemma demo_reserved_inv : heap_inv demo_reserved [mkBlk 32 1; mkBlk 96 0].
Proof. apply (demo_step _ _ _ _ demo_new_inv); [done|]. vm_compute. reflexivity. Qed.

Lemma demo_type h ty : header_format h = Compact 5 4 -> 0 <= ty < 100 -> type_ok h ty.
Proof.
  intros Hf Ht. unfold type_ok. rewrite Hf. unfold u32_max. split; [lia|].
  pose proof (Z.pow_le_mono_r 2 10 (64 - (3 + 5 + 4))). lia.
Qed.

Lemma demo_one_inv : heap_inv demo_one [mkBlk 32 5; mkBlk 96 0].
Proof.
  apply (demo_step _ _ _ _ demo_reserved_inv); [|vm_compute; reflexivity].
  split; [apply demo_type; [vm_compute; reflexivity|lia]|exists 32; by left].
Qed.

Lemma demo_two_inv : heap_inv demo_two [mkBlk 32 5; mkBlk 24 1; mkBlk 72 0].
Proof. apply (demo_step _ _ _ _ demo_one_inv); [done|]. vm_compute. reflexivity. Qed.

Lemma demo_live_inv : heap_inv demo_live [mkBlk 32 5; mkBlk 24 5; mkBlk 72 0].
Proof.
  apply (demo_step _ _ _ _ demo_two_inv); [|vm_compute; reflexivity].
  split; [apply demo_type; [vm_compute; reflexivity|lia]|exists 24; right; by left].
Qed.

Lemma read_type_eq h b : geom h -> bo h b ->
  read_type h b = ok_or (try_from_unsigned u32_max (vtype h b)) CorruptHeap.
Proof.
  intros Hg Hb. pose proof Hb as (? & ? & ?). pose proof (g_fmt _ Hg) as Hf.
  destruct (Z.le_gt_cases (vtype h b) u32_max) as [Hle|Hgt].
  - rewrite read_type_view by done. rewrite (proj2 (try_from_unsigned_Some _ _ (vtype h b))); [done|].
    split; [done|]. split; [|done]. unfold vtype. destruct (header_format h) as [|s l].
    + apply (word_bound h b 8 Hg); lia.
    + apply get_field_bound. lia.
  - unfold read_type, vtype in *. destruct (header_format h) as [|s l].
    + pose proof (word_bound h b 8 Hg). lia.
    + rewrite read_compact_view by done. simpl. pose proof (dword_bound h b Hg ltac:(lia) ltac:(lia)).
      rewrite <- (get_field_top 64) in Hgt |- * by lia. done.
Qed.

(** ** Properties *)

(** [Heap::new] accepts exactly the arenas of 32 bytes to the largest
    managed offset that are whole units; it then returns one free block that
    spans the arena, and otherwise it reports which limit was broken. *)
Theorem heap_new_correct (plan : StoragePlan) :
  0 <= heap_arena_bytes plan -> plan_format_ok plan ->
  (u32_max < heap_arena_bytes plan -> new plan = Err (ResidentStorageOverflow HeapArena)) /\
  (heap_arena_bytes plan <= u32_max ->
   ~ (32 <= heap_arena_bytes plan <= Value.MAX_PAYLOAD /\ heap_arena_bytes plan mod 16 = 0) ->
   new plan = Err (InvalidHeapSize (heap_arena_bytes plan))) /\
  (32 <= heap_arena_bytes plan <= Value.MAX_PAYLOAD -> heap_arena_bytes plan mod 16 = 0 ->
   exists h, new plan = Ok h /\ heap_inv h [mkBlk (heap_arena_bytes plan) 0] /\
     total_free h = heap_arena_bytes plan /\ live_objects h = 0 /\
     header_format h = Layout.header_format plan).
Proof.
  intros Hpos Hf. split_and!.
  - intros Hbig. unfold new, try_from_unsigned, in_range.
    rewrite (proj2 (Z.leb_le _ _)), (proj2 (Z.leb_gt _ u32_max)) by lia. done.
  - intros Hle Hbad. unfold new. rewrite (proj2 (try_from_unsigned_Some _ _ (heap_arena_bytes plan))) by lia.
    destruct (_ || _) eqn:E; [done|]. destruct Hbad. bsimp. apply is_multiple_of_true in H1. done.
  - intros Hn Hm. destruct (new_ok plan Hn Hm Hf) as (h & L & Hnew & Ha & Hfm & Hok).
    exists h. split_and!; [done|by exists L| | |done].
    + rewrite (k_total _ _ _ _ Hok). simpl. lia.
    + by rewrite (k_live _ _ _ _ Hok).
Qed.

Lemma heap_new_correct_witness : exists h, new demo_plan = Ok h /\ total_free h = 128.
Proof.
  destruct demo_plan_ok as (H1 & H2 & H3).
  destruct (proj2 (proj2 (heap_new_correct demo_plan ltac:(discriminate) H3)) H1 H2) as (h & Hn & _ & Ht & _).
  exists h. split; [exact Hn|exact Ht].
Defined.

(** [reserve] rejects a malformed size; for a well-formed one it never
    fails: it either takes a free block that is large enough, splitting off a
    remainder of at least a minimum block, and keeps every other object's type
    and payload, or returns nothing and changes nothing.  It returns nothing
    only if no free block has nine eighths of the requested size, and, as long as the
    largest-block hint is current, only if no free block fits. *)
Theorem reserve_correct (h : Heap) (B : list blk) (bytes ty : Z) :
  heap_inv h B -> bytes <= u32_max ->
  if size_ok bytes
  then exists r h', reserve (mkRequest bytes ty) h = (Ok r, h') /\
    match r with
    | None => h' = h /\
        (hint_max h (free_map 0 B) -> forall x k, at_off 0 B x k -> is_free k = true -> b_size k < bytes) /\
        (forall x k, at_off 0 B x k -> is_free k = true -> 8 * b_size k < 9 * bytes)
    | Some res => exists B1 s B2, B = B1 ++ mkBlk s 0 :: B2 /\ bytes <= s /\
        res = mkReserved (sizes B1) ty /\ heap_inv h' (B1 ++ split_blocks s bytes ++ B2) /\
        others_kept h h' B (sizes B1)
    end
  else reserve (mkRequest bytes ty) h = (Err InvalidStoragePlan, h).
Proof.
  intros [L Hok] Hmax. destruct (size_ok bytes) eqn:Hb; [|unfold reserve; simpl; by rewrite Hb].
  pose proof (k_sum _ _ _ _ Hok) as Hsum. pose proof (seg_all_ok _ _ _ _ _ (k_seg _ _ _ _ Hok)) as Hall.
  destruct (reserve_ok _ _ _ _ bytes ty Hok (Z.le_refl _) Hb Hmax) as (r & h' & Hrun & Hr).
  exists r, h'. split; [done|]. destruct r as [res|]; [|done].
  destruct Hr as (B1 & s & B2 & L' & -> & Hle & -> & Hok' & Hk). exists B1, s, B2. split_and!; try done.
  - eapply same_arena; [done|]. rewrite <- Hsum, !sizes_app, split_sizes. done.
  - by apply (sides_others h h' B1 (mkBlk s 0) B2).
Qed.

Lemma reserve_correct_witness : exists h', reserve (mkRequest 40 2) demo_live =
  (Ok (Some (mkReserved 56 2)), h').
Proof.
  pose proof (reserve_correct demo_live _ 40 2 demo_live_inv ltac:(discriminate)) as H.
  assert (E : size_ok 40 = true) by reflexivity. rewrite E in H.
  destruct H as (r & h' & Hrun & _). exists h'. rewrite Hrun. f_equal. f_equal.
  assert (F : (reserve (mkRequest 40 2) demo_live).1 = Ok (Some (mkReserved 56 2))) by (vm_compute; reflexivity).
  rewrite Hrun in F. simpl in F. congruence.
Defined.

(** [commit] publishes a reservation: the reference it returns resolves to
    the block and to the requested type, the payload written before is intact,
    and no other object changes. *)
Theorem commit_correct (h : Heap) (B1 B2 : list blk) (s ty : Z) :
  heap_inv h (B1 ++ mkBlk s 1 :: B2) -> type_ok h ty ->
  exists h', commit (mkReserved (sizes B1) ty) h = (Ok (ref_of (sizes B1)), h') /\
    heap_inv h' (B1 ++ mkBlk s 5 :: B2) /\
    live_block h' (ref_of (sizes B1)) = Ok (sizes B1) /\
    managed_type h' (ref_of (sizes B1)) = Ok ty /\
    slice (sizes B1 + payload_offset h) (s - payload_offset h) (arena h') =
      slice (sizes B1 + payload_offset h) (s - payload_offset h) (arena h) /\
    others_kept h h' (B1 ++ mkBlk s 1 :: B2) (sizes B1).
Proof.
  intros [L Hok] Hty. pose proof (k_sum _ _ _ _ Hok) as Hsum.
  destruct (commit_ok _ _ _ _ _ _ ty Hok Hty) as (h' & Hrun & Hok' & Hk & Hvt & _ & Hpay).
  pose proof (live_block_at _ _ _ _ _ _ Hok' (at_mid 0 B1 (mkBlk s 5) B2)) as Hlb.
  rewrite Z.add_0_l in Hlb. exists h'. split_and!; try done.
  - eapply same_arena; [done|]. by rewrite <- Hsum, !sizes_app.
  - unfold managed_type. rewrite Hlb. simpl. rewrite read_type_view; [by rewrite Hvt|apply Hok'| |].
    + exact (pos_bo _ _ _ _ _ _ Hok').
    + rewrite Hvt. apply Hty.
  - apply (sides_others h h' B1 (mkBlk s 1) B2); [|done]. exact (seg_all_ok _ _ _ _ _ (k_seg _ _ _ _ Hok)).
Qed.

Lemma commit_correct_witness : exists h', commit (mkReserved 32 1) demo_two = (Ok (Value.mkRef32 40), h') /\
  managed_type h' (Value.mkRef32 40) = Ok 1.
Proof.
  destruct (commit_correct demo_two [mkBlk 32 5] [mkBlk 72 0] 24 1 demo_two_inv) as (h' & Hrun & _ & _ & Hty & _).
  - apply demo_type; [vm_compute; reflexivity|lia].
  - exists h'. split; [exact Hrun|exact Hty].
Defined.

(** [free] releases a live object by merging its block with the free blocks
    on either side, and reports [false] without effect for anything else.  The
    other objects keep their types and payloads; afterwards no two neighbouring
    blocks are free. *)
Theorem free_correct (h : Heap) (B1 B2 : list blk) (k : blk) :
  heap_inv h (B1 ++ k :: B2) ->
  if is_live k
  then exists h', free (ref_of (sizes B1)) h = (Ok true, h') /\
    heap_inv h' (freed_blocks B1 (b_size k) B2) /\
    coalesced (freed_blocks B1 (b_size k) B2) = true /\
    total_free h' = total_free h + b_size k /\
    others_kept h h' (B1 ++ k :: B2) (sizes B1)
  else free (ref_of (sizes B1)) h = (Ok false, h).
Proof.
  intros [L Hok]. pose proof (k_sum _ _ _ _ Hok) as Hsum.
  pose proof (free_ok _ _ _ _ _ _ Hok (mid_below _ _ _ _ _ Hok)) as Hfree.
  destruct (is_live k) eqn:El; [|done]. destruct Hfree as (h' & L' & Hrun & Hok' & Hk & _).
  exists h'. split_and!; try done.
  - eapply same_arena; [done|]. rewrite <- Hsum. apply freed_sizes.
  - apply Hok'.
  - rewrite (k_total _ _ _ _ Hok'), (k_total _ _ _ _ Hok), free_sum_app. simpl.
    rewrite (live_flags _ El), (proj1 (proj2 (freed_sums B1 (b_size k) B2))). lia.
  - apply sides_others; [|done]. exact (seg_all_ok _ _ _ _ _ (k_seg _ _ _ _ Hok)).
Qed.

Lemma free_correct_witness : exists h', free (Value.mkRef32 40) demo_live = (Ok true, h') /\
  heap_inv h' [mkBlk 32 5; mkBlk 96 0].
Proof.
  destruct (free_correct demo_live [mkBlk 32 5] [mkBlk 72 0] (mkBlk 24 5) demo_live_inv)
    as (h' & Hrun & Hi & _).
  exists h'. split; [exact Hrun|exact Hi].
Defined.

(** Aborting a fresh reservation undoes it: the block sequence of the heap
    is the one before [reserve], whether or not the block had been split. *)
Theorem reserve_abort_roundtrip (h h1 : Heap) (B : list blk) (bytes ty : Z) (r : ReservedAllocation) :
  heap_inv h B -> size_ok bytes = true -> bytes <= u32_max ->
  reserve (mkRequest bytes ty) h = (Ok (Some r), h1) ->
  exists h2, abort r h1 = (Ok tt, h2) /\ heap_inv h2 B /\ total_free h2 = total_free h.
Proof.
  intros [L Hok] Hb Hmax Hres. pose proof (k_sum _ _ _ _ Hok) as Hsum.
  destruct (reserve_ok _ _ _ _ bytes ty Hok (Z.le_refl _) Hb Hmax) as (r' & h' & Hrun & Hr).
  rewrite Hres in Hrun. injection Hrun as <- <-. destruct Hr as (B1 & s & B2 & L1 & HB & Hle & -> & Hok1 & _).
  assert (Hfb : exists c B2', B1 ++ split_blocks s bytes ++ B2 = B1 ++ mkBlk c 1 :: B2' /\
    freed_blocks B1 c B2' = B).
  { pose proof (k_coalesced _ _ _ _ Hok) as Hco. subst B.
    assert (Hl : take_left B1 = (B1, 0)).
    { pose proof (take_left_spec B1) as Hl. destruct (take_left B1) as [Bl l].
      destruct Hl as [(-> & -> & _)| ->]; [done|]. rewrite <- app_assoc in Hco.
      apply coalesced_tail in Hco. done. }
    assert (Hr : take_right B2 = (B2, 0)).
    { apply coalesced_tail in Hco. destruct B2 as [|q B2]; [done|]. simpl in *.
      by destruct (is_free q). }
    unfold split_blocks. destruct (16 <=? s - bytes).
    - exists bytes, (mkBlk (s - bytes) 0 :: B2). split; [done|]. unfold freed_blocks. rewrite Hl. simpl.
      do 3 f_equal. lia.
    - exists s, B2. split; [done|]. unfold freed_blocks. rewrite Hl, Hr. simpl.
      do 3 f_equal. lia. }
  destruct Hfb as (c & B2' & E1 & E2). rewrite E1 in Hok1.
  pose proof (k_sum _ _ _ _ Hok1) as Hsum1.
  assert (Ha : arena_bytes h1 = arena_bytes h).
  { rewrite <- Hsum1, <- E1, !sizes_app, split_sizes, <- Hsum, HB, sizes_app. done. }
  destruct (abort_ok _ _ _ _ _ _ ty Hok1) as (h2 & L2 & Hab & Hok2 & _).
  { rewrite <- Ha. eapply mid_below. rewrite Ha. exact Hok1. }
  rewrite E2 in Hok2. exists h2. split_and!; [done|by eapply same_arena|].
  by rewrite (k_total _ _ _ _ Hok2), (k_total _ _ _ _ Hok).
Qed.

Lemma reserve_abort_roundtrip_witness :
  exists h2, abort (mkReserved 0 3) demo_reserved = (Ok tt, h2) /\ heap_inv h2 [mkBlk 128 0].
Proof.
  destruct (reserve_abort_roundtrip demo_new demo_reserved [mkBlk 128 0] 32 3 (mkReserved 0 3))
    as (h2 & Hab & Hi & _).
  - exact demo_new_inv.
  - reflexivity.
  - discriminate.
  - vm_compute. reflexivity.
  - exists h2. split; [exact Hab|exact Hi].
Defined.

(** Payload access: bytes written inside an object are read back, bytes of
    the same object outside the written range and all other objects are not
    affected, the type stays; a range that leaves the object fails and changes
    nothing. *)
Theorem payload_roundtrip (h : Heap) (B1 B2 : list blk) (k : blk) (off : Z) (bs : list Z) :
  heap_inv h (B1 ++ k :: B2) -> is_live k = true -> is_bytes bs -> 0 <= off ->
  (length bs <= 8)%nat -> 0 <= room h k ->
  let r := ref_of (sizes B1) in
  if off + Z.of_nat (length bs) <=? room h k
  then exists h', write_payload r off bs h = (Ok tt, h') /\ heap_inv h' (B1 ++ k :: B2) /\
    read_payload h' r off (Z.of_nat (length bs)) = Ok (bs ++ replicate (8 - length bs) 0) /\
    (forall off' len', 0 <= off' -> 0 <= len' <= 8 -> off' + len' <= room h k ->
       off' + len' <= off \/ off + Z.of_nat (length bs) <= off' ->
       read_payload h' r off' len' = read_payload h r off' len') /\
    managed_type h' r = managed_type h r /\
    others_kept h h' (B1 ++ k :: B2) (sizes B1)
  else write_payload r off bs h = (Err CorruptHeap, h).
Proof.
  intros [L Hok] Hlive Hb Hoff Hlen Hroom r. pose proof (k_sum _ _ _ _ Hok) as Hsum.
  pose proof (l_geom _ _ _ (k_lists _ _ _ _ Hok)) as Hg. pose proof (g_len _ Hg) as Hgl.
  destruct (Z.leb_spec (off + Z.of_nat (length bs)) (room h k)) as [Hin|Hout].
  2:{ eapply payload_out_of_range; try done. unfold u32_max. lia. }
  destruct (write_payload_ok _ _ _ _ _ _ Hok Hlive off bs Hb Hoff Hin) as (h' & Hrun & Hok' & Hk & Hvt & Hfm & Ha).
  assert (Hpo : payload_offset h' = payload_offset h) by (unfold payload_offset; by rewrite Hfm).
  assert (Hrm : room h' k = room h k) by (unfold room; by rewrite Hpo).
  destruct (payload_prefix _ _ _ _ _ _ Hok Hlive off) as (Hlb & _ & _ & Hp8 & Hst & Hst' & Hend & Hb1); [lia|].
  destruct (payload_prefix _ _ _ _ _ _ Hok' Hlive off) as (Hlb' & _); [lia|].
  exists h'. split_and!; try done.
  - by eapply same_arena.
  - rewrite (read_payload_ok _ _ _ _ _ _ Hok' Hlive) by lia. rewrite Ha, Hpo, Nat2Z.id.
    rewrite slice_splice_eq; [done|lia|]. unfold room in *. lia.
  - intros off' len' ? ? Hin' Hd. rewrite (read_payload_ok _ _ _ _ _ _ Hok' Hlive) by lia.
    rewrite (read_payload_ok _ _ _ _ _ _ Hok Hlive) by lia. rewrite Ha, Hpo.
    rewrite slice_splice_ne; [done|lia|lia|lia| |lia]. unfold room in *. lia.
  - unfold managed_type, r. rewrite Hlb, Hlb'. simpl. rewrite !read_type_eq, Hvt; try done;
      [apply (pos_bo _ _ _ _ _ _ Hok)|apply Hok'|apply (pos_bo _ _ _ _ _ _ Hok')].
  - apply sides_others; [|done]. exact (seg_all_ok _ _ _ _ _ (k_seg _ _ _ _ Hok)).
Qed.

Lemma payload_roundtrip_witness : exists h',
  write_payload (Value.mkRef32 40) 4 [1; 2; 3] demo_live = (Ok tt, h') /\
  read_payload h' (Value.mkRef32 40) 4 3 = Ok [1; 2; 3; 0; 0; 0; 0; 0].
Proof.
  assert (Hr : room demo_live (mkBlk 24 5) = 16) by (vm_compute; reflexivity).
  pose proof (payload_roundtrip demo_live [mkBlk 32 5] [mkBlk 72 0] (mkBlk 24 5) 4 [1; 2; 3]
    demo_live_inv eq_refl) as H.
  specialize (H ltac:(repeat constructor; discriminate) ltac:(lia) ltac:(simpl; lia) ltac:(rewrite Hr; lia)).
  rewrite Hr in H. destruct H as (h' & Hw & _ & Hrd & _). exists h'. split; [exact Hw|exact Hrd].
Defined.

(** The diagnostic report is exact: its walk terminates within its bound
    and reports the free bytes, the largest free block and the object count of
    the block sequence. *)
Theorem diagnostic_correct (h : Heap) (B : list blk) :
  heap_inv h B ->
  diagnostic h = mkHeapDiagnostic (free_sum B) (largest_free B) (live_count B) 0.
Proof.
  intros [L Hok]. unfold diagnostic. rewrite (k_total _ _ _ _ Hok), (k_live _ _ _ _ Hok). f_equal.
  rewrite (largest_free_walk h (arena_bytes h) B _ 0 0 0).
  - pose proof (largest_free_nonneg B). lia.
  - apply (k_lists _ _ _ _ Hok).
  - apply (k_seg _ _ _ _ Hok).
  - done.
  - done.
  - rewrite (k_sum _ _ _ _ Hok). lia.
  - by eapply fuel_enough.
  - done.
Qed.

Lemma diagnostic_correct_witness : diagnostic demo_live = mkHeapDiagnostic 72 72 2 0.
Proof. exact (diagnostic_correct demo_live _ demo_live_inv). Defined.

(** Every heap reachable from a constructed one by enabled operations, in
    any order and number, satisfies the allocator invariant. *)
Theorem heap_reachable_invariant (plan : StoragePlan) (h : Heap) :
  32 <= heap_arena_bytes plan <= Value.MAX_PAYLOAD -> heap_arena_bytes plan mod 16 = 0 ->
  plan_format_ok plan -> reachable plan h ->
  heap_inv h (blocks_of h) /\ coalesced (blocks_of h) = true /\
  total_free h = free_sum (blocks_of h) /\ live_objects h = live_count (blocks_of h).
Proof.
  intros Hn Hm Hf Hr.
  assert (Hi : heap_inv h (blocks_of h)).
  { induction Hr as [h Hnew|h o r h' Hr IH He Hrun].
    - destruct (new_ok plan Hn Hm Hf) as (h' & L & Hnew' & Ha & _ & Hok).
      rewrite Hnew in Hnew'. injection Hnew' as <-.
      assert (Hi : heap_inv h [mkBlk (heap_arena_bytes plan) 0]) by (by exists L).
      by rewrite (blocks_of_eq _ _ Hi).
    - pose proof (simulate_blocks h _ o IH He) as Hi. by rewrite Hrun in Hi. }
  split; [done|]. destruct Hi as [L Hok]. split_and!; apply Hok.
Qed.

Lemma heap_reachable_invariant_witness : heap_inv demo_reserved (blocks_of demo_reserved).
Proof.
  destruct demo_plan_ok as (H1 & H2 & H3).
  assert (Hn : new demo_plan = Ok demo_new) by (vm_compute; reflexivity).
  assert (Hr : reachable demo_plan demo_reserved).
  { eapply (reach_op _ demo_new (OReserve 32 3)).
    - exact (reach_new _ _ Hn).
    - split; [reflexivity|discriminate].
    - unfold demo_reserved. apply surjective_pairing. }
  exact (proj1 (heap_reachable_invariant demo_plan demo_reserved H1 H2 H3 Hr)).
Defined.

End HeapProps.
