(* ===== verification/Frame.v ===== *)
(** src/execution/frame.rs: the arena that holds the frames of all tasks and the
    static fields.  A frame is a byte range whose values are split into physical
    components at fixed offsets; the free space of the arena is a list of regions
    in address order whose links are kept inside the regions themselves.  The
    fields and checks the source compiles only for its tests are left out. *)

From S2P Require Import Prelude Words Errors Value.

Module Frame.
Import Errors.

(** [PhysicalAtom] and [ValueComponent] of src/artifact/mod.rs. *)
Inductive PhysicalAtom := AI32 | AI64 | AF32 | AF64 | ARef32.

#[global] Instance PhysicalAtom_eq : EqDecision PhysicalAtom.
Proof. solve_decision. Defined.

Record ValueComponent := mkValueComponent { vc_value : Z; vc_component : Z }.

Definition byte_size (a : PhysicalAtom) : Z :=
  match a with AI32 | AF32 | ARef32 => 4 | AI64 | AF64 => 8 end.
Definition alignment_of (a : PhysicalAtom) : Z := byte_size a.

Record ComponentLayout := mkComponent { c_offset : Z; c_atom : PhysicalAtom }.
Record FrameValueAccess := mkAccess { a_kind : Z; a_component : option ComponentLayout }.

(** [ValueLayout] is the list of its components. *)
Abbreviation ValueLayout := (list ComponentLayout) (only parsing).

Record FrameLayout := mkFrameLayout {
  fl_byte_len : Z; fl_alignment : Z; fl_values : list ValueLayout }.

(** [SafepointMap] is the list of its [reference_offsets]. *)
Abbreviation SafepointMap := (list Z) (only parsing).

Record FrameReservation := mkFrameReservation { r_base : Z; r_byte_len : Z }.

Inductive PhysicalValue :=
| PI32 (v : Z) | PI64 (v : Z) | PF32 (b : Z) | PF64 (b : Z) | PRef32 (r : option Value.Ref32).

Definition atom (v : PhysicalValue) : PhysicalAtom :=
  match v with
  | PI32 _ => AI32 | PI64 _ => AI64 | PF32 _ => AF32 | PF64 _ => AF64 | PRef32 _ => ARef32
  end.

Record FrameArena := mkFrameArena { bytes : list Z; free_head : option Z }.

Record StaticArena := mkStaticArena {
  s_arena : FrameArena; s_layout : FrameLayout; s_reservation : FrameReservation }.

Inductive FrameLayoutError := Overflow | InvalidRoot.

Abbreviation FrameM := (ST FrameArena VmFault).

Definition arena_len (a : FrameArena) : Z := Z.of_nat (length (bytes a)).
Definition set_bytes (bs : list Z) (a : FrameArena) : FrameArena := mkFrameArena bs (free_head a).
Definition set_free_head (o : option Z) (a : FrameArena) : FrameArena := mkFrameArena (bytes a) o.

(** [value + (alignment - 1) & !(alignment - 1)] on [u32]. *)
Definition align (value alignment : Z) : outcome FrameLayoutError Z :=
  match checked_add u32_max value (alignment - 1) with
  | Some sum => Ok (Z.land sum (u32_max - (alignment - 1)))
  | None => Err Overflow
  end.

(** [.map_err(|_| fault)]. *)
Definition map_err {E E' A} (o : outcome E A) (e : E') : outcome E' A :=
  match o with Ok a => Ok a | Err _ => Err e | Panic => Panic end.

(** ** Free regions *)

Definition read_free (a : FrameArena) (base : Z) : outcome VmFault (option Z * Z) :=
  stop ← ok_or (checked_add usize_max base 8) CorruptLifecycle;
  bs ← ok_or (slice_get base stop (bytes a)) CorruptLifecycle;
  let next := le_val (slice 0 4 bs) in
  let len := le_val (slice 4 4 bs) in
  if (len <? 8) || negb (len mod 8 =? 0) then Err CorruptLifecycle
  else Ok (if next =? u32_max then None else Some next, len).

Definition write_free (base : Z) (next : option Z) (len : Z) : FrameM unit := fun a =>
  match checked_add usize_max base 8 with
  | None => (Err CorruptLifecycle, a)
  | Some stop =>
      if (base <=? stop) && (stop <=? arena_len a)
      then (Ok tt, set_bytes (splice base (le_bytes 4 (default u32_max next) ++ le_bytes 4 len)
                                (bytes a)) a)
      else (Err CorruptLifecycle, a)
  end.

(** [FrameArena::new]; the host allocation is taken to succeed. *)
Definition FrameArena_new (capacity : Z) : outcome VmFault FrameArena :=
  let arena := mkFrameArena (replicate (Z.to_nat capacity) 0)
                 (if 8 <=? capacity then Some 0 else None) in
  if 8 <=? capacity then
    match write_free 0 None capacity arena with
    | (Ok _, arena) => Ok arena
    | (Err e, _) => Err e
    | (Panic, _) => Panic
    end
  else Ok arena.

(** The loop of [push].  Every region is at least eight bytes long, so the arena
    length bounds the steps; an endless loop shows as [Panic]. *)
Fixpoint push_loop (fuel : nat) (byte_len : Z) (previous current : option Z) : FrameM Z :=
  match fuel with
  | O => st_panic
  | S fuel =>
      region ← st_lift (ok_or current InvalidStoragePlan);
      '(next, available) ← st_read (fun a => read_free a region);
      if byte_len <=? available
      then
        let remaining := available - byte_len in
        replacement ←
          (if remaining =? 0 then mret next
           else
             remainder ← st_lift (ok_or (checked_add u32_max region byte_len) InvalidStoragePlan);
             _ ← write_free remainder next remaining;
             mret (Some remainder));
        _ ← (match previous with
             | Some previous =>
                 '(_, previous_len) ← st_read (fun a => read_free a previous);
                 write_free previous replacement previous_len
             | None => st_modify (set_free_head replacement)
             end);
        mret region
      else push_loop fuel byte_len current next
  end.

Definition loop_fuel (a : FrameArena) : nat := S (length (bytes a) / 8).

Definition push (layout : FrameLayout) : FrameM FrameReservation :=
  byte_len ← st_lift (map_err (align (fl_byte_len layout) 8) InvalidStoragePlan);
  if byte_len =? 0 then mret (mkFrameReservation 0 byte_len)
  else
    a ← st_get;
    base ← push_loop (loop_fuel a) byte_len None (free_head a);
    a ← st_get;
    stop ← st_lift (ok_or (stop ← checked_add u32_max base byte_len;
                           if stop <=? wrap_unsigned 32 (arena_len a) then Some stop else None)
                    InvalidStoragePlan);
    _ ← st_modify (fun a => set_bytes (splice base (replicate (Z.to_nat (stop - base)) 0) (bytes a)) a);
    mret (mkFrameReservation base byte_len).

(** The search of [release]: the last region before the frame and the first one
    after it. *)
Fixpoint release_loop (fuel : nat) (a : FrameArena) (base stop : Z) (previous next : option Z)
    : outcome VmFault (option Z * option Z) :=
  match fuel with
  | O => Panic
  | S fuel =>
      match next with
      | None => Ok (previous, next)
      | Some region =>
          '(following, region_len) ← read_free a region;
          region_end ← ok_or (checked_add u32_max region region_len) CorruptLifecycle;
          if stop <=? region then Ok (previous, next)
          else if base <? region_end then Err CorruptLifecycle
          else release_loop fuel a base stop (Some region) following
      end
  end.

Definition release (frame : FrameReservation) : FrameM unit :=
  if r_byte_len frame =? 0 then mret tt
  else
    a ← st_get;
    stop ← st_lift (ok_or (stop ← checked_add u32_max (r_base frame) (r_byte_len frame);
                           if stop <=? wrap_unsigned 32 (arena_len a) then Some stop else None)
                    CorruptLifecycle);
    if negb (is_multiple_of (r_base frame) 8) || (r_byte_len frame <? 8)
       || negb (is_multiple_of (r_byte_len frame) 8)
    then st_err CorruptLifecycle
    else
      '(previous, next) ← st_lift (release_loop (loop_fuel a) a (r_base frame) stop None (free_head a));
      '(next, free_len) ←
        (match next with
         | Some region =>
             if stop =? region
             then
               '(following, region_len) ← st_read (fun a => read_free a region);
               free_len ← st_lift (ok_or (checked_add u32_max (r_byte_len frame) region_len)
                                     CorruptLifecycle);
               mret (following, free_len)
             else mret (next, r_byte_len frame)
         | None => mret (next, r_byte_len frame)
         end);
      match previous with
      | Some region =>
          '(_, region_len) ← st_read (fun a => read_free a region);
          region_end ← st_lift (ok_or (checked_add u32_max region region_len) CorruptLifecycle);
          if region_end =? r_base frame
          then
            free_len ← st_lift (ok_or (checked_add u32_max region_len free_len) CorruptLifecycle);
            write_free region next free_len
          else
            _ ← write_free region (Some (r_base frame)) region_len;
            write_free (r_base frame) next free_len
      | None =>
          _ ← st_modify (set_free_head (Some (r_base frame)));
          write_free (r_base frame) next free_len
      end.

Definition pop (frame : FrameReservation) : FrameM unit := release frame.

(** ** Components *)

Definition component_range (a : FrameArena) (base : Z) (c : ComponentLayout)
    : outcome VmFault (Z * Z) :=
  start ← ok_or (checked_add u32_max base (c_offset c)) InvalidStoragePlan;
  stop ← ok_or (stop ← checked_add usize_max start (byte_size (c_atom c));
                if stop <=? arena_len a then Some stop else None) InvalidStoragePlan;
  mret (start, stop).

(** [.filter(|component| component.atom == atom)]. *)
Definition with_atom (atom : PhysicalAtom) (c : option ComponentLayout) : option ComponentLayout :=
  c ← c; if decide (c_atom c = atom) then Some c else None.

Definition component (layout : FrameLayout) (value component : Z) (atom : PhysicalAtom)
    : outcome VmFault ComponentLayout :=
  ok_or (with_atom atom (v ← zget (fl_values layout) value; zget v component)) InvalidValueType.

(** [self.bytes[range].try_into()] for an [n]-byte array. *)
Definition read_range (n : Z) (a : FrameArena) (base : Z) (c : ComponentLayout)
    : outcome VmFault (list Z) :=
  '(start, stop) ← component_range a base c;
  if stop - start =? n then Ok (slice start (stop - start) (bytes a)) else Err InvalidStoragePlan.

Definition read4 (a : FrameArena) (base : Z) (layout : FrameLayout) (value comp : Z)
    (atom : PhysicalAtom) : outcome VmFault (list Z) :=
  c ← component layout value comp atom; read_range 4 a base c.

Definition read8 (a : FrameArena) (base : Z) (layout : FrameLayout) (value comp : Z)
    (atom : PhysicalAtom) : outcome VmFault (list Z) :=
  c ← component layout value comp atom; read_range 8 a base c.

Definition read4_access (a : FrameArena) (base : Z) (c : option ComponentLayout)
    (atom : PhysicalAtom) : outcome VmFault (list Z) :=
  c ← ok_or (with_atom atom c) InvalidValueType; read_range 4 a base c.

Definition read8_access (a : FrameArena) (base : Z) (c : option ComponentLayout)
    (atom : PhysicalAtom) : outcome VmFault (list Z) :=
  c ← ok_or (with_atom atom c) InvalidValueType; read_range 8 a base c.

Section Reads.
Context (a : FrameArena) (base : Z) (layout : FrameLayout) (value comp : Z).

Definition read_i32 : outcome VmFault Z :=
  bs ← read4 a base layout value comp AI32; mret (wrap_signed 32 (le_val bs)).
Definition read_i64 : outcome VmFault Z :=
  bs ← read8 a base layout value comp AI64; mret (wrap_signed 64 (le_val bs)).
Definition read_f32 : outcome VmFault Z :=
  bs ← read4 a base layout value comp AF32; mret (le_val bs).
Definition read_f64 : outcome VmFault Z :=
  bs ← read8 a base layout value comp AF64; mret (le_val bs).
Definition read_ref32 : outcome VmFault (option Value.Ref32) :=
  bs ← read4 a base layout value comp ARef32; mret (Value.from_bits (le_val bs)).
End Reads.

(** [value.map_or(RuntimeValue::Null, RuntimeValue::Reference)]. *)
Definition reference_value (r : option Value.Ref32) : Value.RuntimeValue :=
  match r with None => Value.Null | Some r => Value.Reference r end.

Definition read_access (a : FrameArena) (base : Z) (access : FrameValueAccess)
    : outcome VmFault Value.RuntimeValue :=
  let c := a_component access in
  if a_kind access =? 1 then
    bs ← read4_access a base c AI32; mret (Value.I32 (wrap_signed 32 (le_val bs)))
  else if a_kind access =? 2 then
    bs ← read8_access a base c AI64; mret (Value.I64 (wrap_signed 64 (le_val bs)))
  else if a_kind access =? 3 then
    bs ← read4_access a base c AF32; mret (Value.F32 (le_val bs))
  else if a_kind access =? 4 then
    bs ← read8_access a base c AF64; mret (Value.F64 (le_val bs))
  else if a_kind access =? 5 then
    bs ← read4_access a base c AI32;
    let v := wrap_signed 32 (le_val bs) in
    if v =? 0 then Ok (Value.Bool false) else if v =? 1 then Ok (Value.Bool true)
    else Err InvalidValueType
  else if a_kind access =? 6 then
    bs ← read4_access a base c AI32;
    ok_or (Value.Char <$> try_from_unsigned u16_max (wrap_signed 32 (le_val bs))) InvalidValueType
  else if a_kind access =? 7 then
    bs ← read4_access a base c ARef32; mret (reference_value (Value.from_bits (le_val bs)))
  else Err InvalidValueType.

Definition read_ref32_offset (a : FrameArena) (frame : FrameReservation) (off : Z)
    : outcome VmFault (option Value.Ref32) :=
  relative_end ← ok_or (checked_add u32_max off 4) InvalidRootMap;
  if r_byte_len frame <? relative_end then Err InvalidRootMap
  else
    start ← ok_or (checked_add u32_max (r_base frame) off) InvalidRootMap;
    stop ← ok_or (checked_add usize_max start 4) InvalidRootMap;
    bs ← ok_or (slice_get start stop (bytes a)) InvalidRootMap;
    Ok (Value.from_bits (le_val bs)).

(** [to_le_bytes] of the stored value. *)
Definition physical_bytes (v : PhysicalValue) : list Z :=
  match v with
  | PI32 v => le_bytes 4 (wrap_unsigned 32 v)
  | PI64 v => le_bytes 8 (wrap_unsigned 64 v)
  | PF32 b => le_bytes 4 b
  | PF64 b => le_bytes 8 b
  | PRef32 r => le_bytes 4 (match r with None => 0 | Some r => Value.to_bits r end)
  end.

(** [self.bytes[range].copy_from_slice(..)]: the lengths agree or it panics. *)
Definition store_range (range : Z * Z) (bs : list Z) : FrameM unit := fun a =>
  if range.2 - range.1 =? Z.of_nat (length bs)
  then (Ok tt, set_bytes (splice range.1 bs (bytes a)) a) else (Panic, a).

Definition write_component (base : Z) (layout : FrameLayout) (value comp : Z)
    (stored : PhysicalValue) : FrameM unit :=
  c ← st_lift (component layout value comp (atom stored));
  range ← st_read (fun a => component_range a base c);
  store_range range (physical_bytes stored).

Definition write_i32 base layout value comp stored := write_component base layout value comp (PI32 stored).
Definition write_i64 base layout value comp stored := write_component base layout value comp (PI64 stored).
Definition write_f32 base layout value comp stored := write_component base layout value comp (PF32 stored).
Definition write_f64 base layout value comp stored := write_component base layout value comp (PF64 stored).
Definition write_ref32 base layout value comp stored := write_component base layout value comp (PRef32 stored).

(** The physical form of a runtime value of the given kind. *)
Definition physical_of (kind : Z) (v : Value.RuntimeValue) : option PhysicalValue :=
  match v with
  | Value.I32 v => if kind =? 1 then Some (PI32 v) else None
  | Value.I64 v => if kind =? 2 then Some (PI64 v) else None
  | Value.F32 b => if kind =? 3 then Some (PF32 b) else None
  | Value.F64 b => if kind =? 4 then Some (PF64 b) else None
  | Value.Bool b => if kind =? 5 then Some (PI32 (Z.b2z b)) else None
  | Value.Char c => if kind =? 6 then Some (PI32 c) else None
  | Value.Null => if kind =? 7 then Some (PRef32 None) else None
  | Value.Reference r => if kind =? 7 then Some (PRef32 (Some r)) else None
  end.

Definition write_access (base : Z) (access : FrameValueAccess) (v : Value.RuntimeValue)
    : FrameM unit :=
  stored ← st_lift (ok_or (physical_of (a_kind access) v) InvalidValueType);
  c ← st_lift (ok_or (with_atom (atom stored) (a_component access)) InvalidValueType);
  range ← st_read (fun a => component_range a base c);
  store_range range (physical_bytes stored).

Definition kind_of_atom (a : PhysicalAtom) : Z :=
  match a with AI32 => 1 | AI64 => 2 | AF32 => 3 | AF64 => 4 | ARef32 => 7 end.

Definition read_component_value (a : FrameArena) (base : Z) (c : ComponentLayout)
    : outcome VmFault Value.RuntimeValue :=
  read_access a base (mkAccess (kind_of_atom (c_atom c)) (Some c)).

(** [copy_within] is a memmove; its ranges were checked against the length. *)
Definition copy_component (source_base : Z) (source : ComponentLayout)
    (destination_base : Z) (destination : ComponentLayout) : FrameM unit :=
  if negb (bool_decide (c_atom source = c_atom destination)) then st_err InvalidValueType
  else
    '(start, stop) ← st_read (fun a => component_range a source_base source);
    '(dest, _) ← st_read (fun a => component_range a destination_base destination);
    (fun a =>
       if arena_len a <? dest + (stop - start) then (Panic, a)
       else (Ok tt, set_bytes (splice dest (slice start (stop - start) (bytes a)) (bytes a)) a))
    : FrameM unit.

(** The loop of [copy_value] over the zipped components. *)
Fixpoint copy_components (source_base destination_base : Z) (source destination : ValueLayout)
    : FrameM unit :=
  match source, destination with
  | s :: source, d :: destination =>
      _ ← copy_component source_base s destination_base d;
      copy_components source_base destination_base source destination
  | _, _ => mret tt
  end.

Definition copy_value (source_base : Z) (source : ValueLayout) (destination_base : Z)
    (destination : ValueLayout) : FrameM unit :=
  if negb (length source =? length destination)%nat then st_err InvalidValueType
  else copy_components source_base destination_base source destination.

(** The two passes of [write_value]. *)
Fixpoint check_components (a : FrameArena) (base : Z) (cs : ValueLayout) (vs : list PhysicalValue)
    : outcome VmFault unit :=
  match cs, vs with
  | c :: cs, v :: vs =>
      if negb (bool_decide (c_atom c = atom v)) then Err InvalidValueType
      else _ ← component_range a base c; check_components a base cs vs
  | _, _ => Ok tt
  end.

Fixpoint store_components (base : Z) (cs : ValueLayout) (vs : list PhysicalValue) : FrameM unit :=
  match cs, vs with
  | c :: cs, v :: vs =>
      range ← st_read (fun a => component_range a base c);
      _ ← store_range range (physical_bytes v);
      store_components base cs vs
  | _, _ => mret tt
  end.

Definition write_value (base : Z) (layout : FrameLayout) (value : Z) (stored : list PhysicalValue)
    : FrameM unit :=
  components ← st_lift (ok_or (zget (fl_values layout) value) InvalidStoragePlan);
  if negb (length components =? length stored)%nat then st_err InvalidValueType
  else
    _ ← st_read (fun a => check_components a base components stored);
    store_components base components stored.

(** ** Static fields *)

Definition StaticArena_new (layout : FrameLayout) : outcome VmFault StaticArena :=
  capacity ← map_err (align (fl_byte_len layout) 8) InvalidStoragePlan;
  arena ← FrameArena_new capacity;
  match push layout arena with
  | (Ok reservation, arena) => Ok (mkStaticArena arena layout reservation)
  | (Err e, _) => Err e
  | (Panic, _) => Panic
  end.

Definition static_read (s : StaticArena) (slot kind : Z) : outcome VmFault Value.RuntimeValue :=
  let base := r_base (s_reservation s) in
  if kind =? 1 then v ← read_i32 (s_arena s) base (s_layout s) slot 0; mret (Value.I32 v)
  else if kind =? 2 then v ← read_i64 (s_arena s) base (s_layout s) slot 0; mret (Value.I64 v)
  else if kind =? 3 then v ← read_f32 (s_arena s) base (s_layout s) slot 0; mret (Value.F32 v)
  else if kind =? 4 then v ← read_f64 (s_arena s) base (s_layout s) slot 0; mret (Value.F64 v)
  else if kind =? 5 then
    v ← read_i32 (s_arena s) base (s_layout s) slot 0; mret (Value.Bool (negb (v =? 0)))
  else if kind =? 6 then
    v ← read_i32 (s_arena s) base (s_layout s) slot 0;
    ok_or (Value.Char <$> try_from_unsigned u16_max v) InvalidValueType
  else if kind =? 7 then
    v ← read_ref32 (s_arena s) base (s_layout s) slot 0; mret (reference_value v)
  else Err InvalidValueType.

(** Running an arena operation inside the static storage. *)
Definition on_statics {A} (m : FrameM A) : ST StaticArena VmFault A := fun s =>
  let '(o, a) := m (s_arena s) in (o, mkStaticArena a (s_layout s) (s_reservation s)).

Definition static_write (slot kind : Z) (v : Value.RuntimeValue) : ST StaticArena VmFault unit := fun s =>
  match physical_of kind v with
  | None => (Err InvalidValueType, s)
  | Some stored =>
      on_statics (write_component (r_base (s_reservation s)) (s_layout s) slot 0 stored) s
  end.

Definition reference (s : StaticArena) (slot : Z) : outcome VmFault (option Value.Ref32) :=
  read_ref32 (s_arena s) (r_base (s_reservation s)) (s_layout s) slot 0.

(** ** Deriving layouts *)

(** One value's components, in order. *)
Fixpoint place_atoms (off frame_alignment : Z) (atoms : list PhysicalAtom)
    : outcome FrameLayoutError (Z * Z * list ComponentLayout) :=
  match atoms with
  | [] => Ok (off, frame_alignment, [])
  | atom :: atoms =>
      let alignment := alignment_of atom in
      let frame_alignment := Z.max frame_alignment alignment in
      off ← align off alignment;
      next ← ok_or (checked_add u32_max off (byte_size atom)) Overflow;
      '(stop, frame_alignment, rest) ← place_atoms next frame_alignment atoms;
      Ok (stop, frame_alignment, mkComponent off atom :: rest)
  end.

Fixpoint place_values (off frame_alignment : Z) (values : list (list PhysicalAtom))
    : outcome FrameLayoutError (Z * Z * list ValueLayout) :=
  match values with
  | [] => Ok (off, frame_alignment, [])
  | value :: values =>
      '(off, frame_alignment, components) ← place_atoms off frame_alignment value;
      '(off, frame_alignment, rest) ← place_values off frame_alignment values;
      Ok (off, frame_alignment, components :: rest)
  end.

(** [FrameLayout::derive]; of a [FunctionValue] only its components matter. *)
Definition derive (values : list (list PhysicalAtom)) : outcome FrameLayoutError FrameLayout :=
  '(off, frame_alignment, layouts) ← place_values 0 1 values;
  byte_len ← align off frame_alignment;
  Ok (mkFrameLayout byte_len (wrap_unsigned 8 frame_alignment) layouts).

(** [derive_scalars]: the same loop over one atom per value. *)
Fixpoint place_scalars (off frame_alignment : Z) (atoms : list PhysicalAtom)
    : outcome FrameLayoutError (Z * Z * list ValueLayout) :=
  match atoms with
  | [] => Ok (off, frame_alignment, [])
  | atom :: atoms =>
      let alignment := alignment_of atom in
      let frame_alignment := Z.max frame_alignment alignment in
      off ← align off alignment;
      next ← ok_or (checked_add u32_max off (byte_size atom)) Overflow;
      '(stop, frame_alignment, rest) ← place_scalars next frame_alignment atoms;
      Ok (stop, frame_alignment, [mkComponent off atom] :: rest)
  end.

Definition derive_scalars (atoms : list PhysicalAtom) : outcome FrameLayoutError FrameLayout :=
  '(off, frame_alignment, layouts) ← place_scalars 0 1 atoms;
  byte_len ← align off frame_alignment;
  Ok (mkFrameLayout byte_len (wrap_unsigned 8 frame_alignment) layouts).

Definition value_access (layout : FrameLayout) (kind value : Z) : FrameValueAccess :=
  mkAccess kind (v ← zget (fl_values layout) value; head v).

(** The loop of [SafepointMap::derive]; [offsets] are the ones already pushed. *)
Fixpoint safepoint_offsets (frame : FrameLayout) (offsets : list Z) (references : list ValueComponent)
    : outcome FrameLayoutError SafepointMap :=
  match references with
  | [] => Ok offsets
  | r :: references =>
      c ← ok_or (with_atom ARef32 (v ← zget (fl_values frame) (vc_value r); zget v (vc_component r)))
            InvalidRoot;
      if (match last offsets with Some previous => c_offset c <=? previous | None => false end)
      then Err InvalidRoot
      else safepoint_offsets frame (offsets ++ [c_offset c]) references
  end.

Definition SafepointMap_derive (frame : FrameLayout) (references : list ValueComponent)
    : outcome FrameLayoutError SafepointMap := safepoint_offsets frame [] references.

End Frame.
