(* ===== verification/FrameProps.v ===== *)
(** What src/execution/frame.rs promises its clients: an arena of frames with
    their own contents.  The abstract arena is a map from the base of each frame
    to its bytes; gaps are what no frame covers. *)

From S2P Require Import Prelude Words Errors Value Frame.

(** The frame arena as a sequence of tiles.  Free regions and frames tile the
    arena; every free region starts with its length and a link to the next one.
    This file has the representation invariant and follows [push] and [release]
    through the list of free regions. *)

Module FrameInv.
Import Errors Frame.

(** A free region or a frame with its contents. *)
Inductive tile := TFree (size : Z) | TUsed (contents : list Z).

Definition tsize (t : tile) : Z :=
  match t with TFree s => s | TUsed bs => Z.of_nat (length bs) end.

Definition is_used (t : tile) : Prop := match t with TUsed _ => True | TFree _ => False end.

Definition tile_ok (t : tile) : Prop := 8 <= tsize t /\ tsize t mod 8 = 0.

Fixpoint tsizes (T : list tile) : Z :=
  match T with [] => 0 | t :: T => tsize t + tsizes T end.

(** Offset of the first free region of [T], which starts at [off]; [tl] is the
    first one behind it. *)
Fixpoint first_free (off : Z) (T : list tile) (tl : option Z) : option Z :=
  match T with
  | [] => tl
  | TFree _ :: _ => Some off
  | t :: T => first_free (off + tsize t) T tl
  end.

Fixpoint last_free (off : Z) (T : list tile) (before : option Z) : option Z :=
  match T with
  | [] => before
  | t :: T => last_free (off + tsize t) T (match t with TFree _ => Some off | TUsed _ => before end)
  end.

(** The bytes at [off] are [bs]. *)
Definition knows (a : FrameArena) (off : Z) (bs : list Z) : Prop :=
  slice off (Z.of_nat (length bs)) (bytes a) = bs.

Definition region_header (next : option Z) (len : Z) : list Z :=
  le_bytes 4 (default u32_max next) ++ le_bytes 4 len.

(** What the arena holds for a tile: all of a frame, the header of a region. *)
Definition tile_bytes (t : tile) (next : option Z) : list Z :=
  match t with TFree s => region_header next s | TUsed bs => bs end.

Fixpoint links (a : FrameArena) (off : Z) (T : list tile) (tl : option Z) : Prop :=
  match T with
  | [] => True
  | t :: T =>
      knows a off (tile_bytes t (first_free (off + tsize t) T tl)) /\ links a (off + tsize t) T tl
  end.

(** No two free regions touch. *)
Fixpoint separated (T : list tile) : Prop :=
  match T with
  | TFree _ :: ((TFree _ :: _) as _) => False
  | _ :: T => separated T
  | [] => True
  end.

Record arena_ok (a : FrameArena) (T : list tile) : Prop := {
  f_len : arena_len a = tsizes T;
  f_max : arena_len a <= u32_max;
  f_tiles : Forall tile_ok T;
  f_sep : separated T;
  f_head : free_head a = first_free 0 T None;
  f_links : links a 0 T None }.

(** ** Sequences of tiles *)

Lemma tsizes_app T1 T2 : tsizes (T1 ++ T2) = tsizes T1 + tsizes T2.
Proof. induction T1 as [|t T1 IH]; simpl; [done|]. rewrite IH. lia. Qed.

Lemma tsizes_pos T : Forall tile_ok T -> 0 <= tsizes T.
Proof. induction 1 as [|t T [? _] _ IH]; simpl; lia. Qed.

Lemma tsizes_mod T : Forall tile_ok T -> tsizes T mod 8 = 0.
Proof.
  induction 1 as [|t T [_ Ht] _ IH]; simpl; [done|].
  by rewrite Z.add_mod, Ht, IH by done.
Qed.

Lemma tsizes_count T : Forall tile_ok T -> 8 * Z.of_nat (length T) <= tsizes T.
Proof. induction 1 as [|t T [? _] _ IH]; cbn [tsizes length]; lia. Qed.

Lemma first_free_app off T1 T2 tl :
  first_free off (T1 ++ T2) tl = first_free off T1 (first_free (off + tsizes T1) T2 tl).
Proof.
  revert off. induction T1 as [|[s|bs] T1 IH]; intros off; cbn [app first_free tsizes]; [by rewrite Z.add_0_r|done|].
  rewrite IH. do 2 f_equal. lia.
Qed.

Lemma last_free_app off T1 T2 b :
  last_free off (T1 ++ T2) b = last_free (off + tsizes T1) T2 (last_free off T1 b).
Proof.
  revert off b. induction T1 as [|t T1 IH]; intros off b; cbn [app last_free tsizes]; [by rewrite Z.add_0_r|].
  rewrite IH. f_equal. lia.
Qed.

Lemma links_app a off T1 T2 tl :
  links a off (T1 ++ T2) tl <->
  links a off T1 (first_free (off + tsizes T1) T2 tl) /\ links a (off + tsizes T1) T2 tl.
Proof.
  revert off. induction T1 as [|t T1 IH]; intros off; cbn [app links tsizes].
  - rewrite Z.add_0_r. naive_solver.
  - rewrite IH, first_free_app, <- !Z.add_assoc. naive_solver.
Qed.

Lemma used_first off T tl : Forall is_used T -> first_free off T tl = tl.
Proof. intros H. revert off. induction H as [|[] T Hu _ IH]; intros; [done|done|]. simpl. apply IH. Qed.

Lemma used_last off T b : Forall is_used T -> last_free off T b = b.
Proof. intros H. revert off. induction H as [|[] T Hu _ IH]; intros; [done|done|]. simpl. apply IH. Qed.

Lemma used_links a off T tl tl' : Forall is_used T -> links a off T tl -> links a off T tl'.
Proof.
  intros H. revert off. induction H as [|[] T Hu _ IH]; intros off; [done|done|].
  simpl. intros [? ?]. auto.
Qed.

(** The first free region, if there is one. *)
Lemma split_first_free T : Forall is_used T \/ exists U s R, T = U ++ TFree s :: R /\ Forall is_used U.
Proof.
  induction T as [|[s|bs] T IH]; [by left|right; by exists [], s, T|].
  destruct IH as [IH|(U & s & R & -> & IH)]; [left; by constructor|right].
  exists (TUsed bs :: U), s, R. split; [done|by constructor].
Qed.

Lemma split_last_free T : Forall is_used T \/ exists P s U, T = P ++ TFree s :: U /\ Forall is_used U.
Proof.
  induction T as [|t T IH]; [by left|].
  destruct IH as [IH|(P & s & U & -> & IH)].
  - destruct t as [s|bs]; [right; by exists [], s, T|left; by constructor].
  - right. by exists (t :: P), s, U.
Qed.

Lemma last_free_split off P s U b : Forall is_used U ->
  last_free off (P ++ TFree s :: U) b = Some (off + tsizes P).
Proof. intros HU. rewrite last_free_app. cbn [last_free]. by rewrite used_last. Qed.

(** ** Reading and writing headers *)

Lemma header_length next len : length (region_header next len) = 8%nat.
Proof. unfold region_header. by rewrite length_app, !le_bytes_length. Qed.

Lemma header_fields next len :
  slice 0 4 (region_header next len) = le_bytes 4 (default u32_max next) /\
  slice 4 4 (region_header next len) = le_bytes 4 len.
Proof. done. Qed.

Lemma knows_range a off bs : 0 <= off -> knows a off bs -> off + Z.of_nat (length bs) <= arena_len a \/ bs = [].
Proof.
  intros Ho Hk. destruct bs as [|b bs]; [by right|left]. unfold knows, slice, arena_len in *.
  apply (f_equal length) in Hk. rewrite length_take, length_drop in Hk. cbn [length] in *. lia.
Qed.

Definition link_ok (next : option Z) : Prop := forall x, next = Some x -> 0 <= x < u32_max.

Lemma read_free_ok a off next len : 0 <= off -> knows a off (region_header next len) ->
  link_ok next -> 8 <= len <= u32_max -> len mod 8 = 0 -> arena_len a <= u32_max ->
  read_free a off = Ok (next, len).
Proof.
  intros Ho Hk Hn Hl Hm Hmax. unfold knows in Hk. rewrite header_length in Hk.
  destruct (knows_range a off (region_header next len)) as [Hr|Hr];
    [done|unfold knows; by rewrite header_length| |by apply (f_equal length) in Hr; rewrite header_length in Hr].
  rewrite header_length in Hr. unfold arena_len in *. unfold u32_max in *. eval_pow.
  unfold read_free, checked_add, usize_max. eval_pow. rewrite (proj2 (Z.leb_le _ _)) by lia. bind_simp.
  unfold slice_get. rewrite !(proj2 (Z.leb_le _ _)) by lia. cbn [andb]. bind_simp.
  replace (off + 8 - off) with (Z.of_nat 8) by lia. rewrite Hk.
  destruct (header_fields next len) as [-> ->]. rewrite (le_val_bytes_small 4 len) by (change (256 ^ Z.of_nat 4) with 4294967296; lia).
  rewrite (proj2 (Z.ltb_ge _ _)), (proj2 (Z.eqb_eq _ _) Hm) by lia. cbn [orb negb].
  destruct next as [x|]; simpl default.
  - specialize (Hn x eq_refl). unfold u32_max in Hn. eval_pow. rewrite le_val_bytes_small by (change (256 ^ Z.of_nat 4) with 4294967296; lia).
    by rewrite (proj2 (Z.eqb_neq _ _)) by (unfold u32_max; eval_pow; lia).
  - by rewrite le_val_bytes_small by (unfold u32_max; eval_pow; change (256 ^ Z.of_nat 4) with 4294967296; lia).
Qed.

(** [a'] is [a] with [lo, hi) overwritten. *)
Record rewrote (a a' : FrameArena) (lo hi : Z) : Prop := {
  w_len : arena_len a' = arena_len a;
  w_keep : forall off bs, 0 <= off -> off + Z.of_nat (length bs) <= lo \/ hi <= off ->
    knows a off bs -> knows a' off bs }.

Lemma splice_rewrote a start bs : 0 <= start -> start + Z.of_nat (length bs) <= arena_len a ->
  rewrote a (set_bytes (splice start bs (bytes a)) a) start (start + Z.of_nat (length bs)) /\
  knows (set_bytes (splice start bs (bytes a)) a) start bs.
Proof.
  intros Hs Hl. unfold arena_len in Hl. split; [constructor|].
  - unfold arena_len. simpl. by rewrite splice_length by lia.
  - intros off cs Ho Hd Hk. unfold knows in *. simpl. rewrite slice_splice_ne by lia. done.
  - unfold knows. simpl. by apply slice_splice_eq.
Qed.

Lemma write_free_ok a base next len : 0 <= base -> base + 8 <= arena_len a -> arena_len a <= u32_max ->
  exists a', write_free base next len a = (Ok tt, a') /\ rewrote a a' base (base + 8) /\
    knows a' base (region_header next len) /\ free_head a' = free_head a.
Proof.
  intros Hb Hl Hm. unfold write_free, checked_add, usize_max. unfold u32_max in *. eval_pow.
  rewrite (proj2 (Z.leb_le _ _)) by lia. rewrite !(proj2 (Z.leb_le _ _)) by lia. cbn [andb].
  pose proof (splice_rewrote a base (region_header next len) Hb) as Hs. rewrite header_length in Hs.
  destruct Hs as [Hw Hk]; [done|]. eexists. split_and!; [done|exact Hw|exact Hk|done].
Qed.

Lemma links_rewrote a a' lo hi off T tl : rewrote a a' lo hi -> Forall tile_ok T -> 0 <= off ->
  off + tsizes T <= lo \/ hi <= off -> links a off T tl -> links a' off T tl.
Proof.
  intros Hw HT. revert off. induction HT as [|t T [Ht Hm] HT IH]; intros off Ho Hd; [done|].
  cbn [links tsizes] in *. intros [Hk Hl]. pose proof (tsizes_pos _ HT). split; [|apply IH; [lia|lia|done]].
  apply (w_keep _ _ _ _ Hw); [done| |done].
  assert (Z.of_nat (length (tile_bytes t (first_free (off + tsize t) T tl))) <= tsize t); [|lia].
  destruct t; cbn [tile_bytes tsize] in *; [rewrite header_length|]; lia.
Qed.

Lemma rewrote_mono a a' lo hi lo' hi' : rewrote a a' lo hi -> lo' <= lo -> hi <= hi' -> rewrote a a' lo' hi'.
Proof. intros [? Hk] ? ?. constructor; [done|]. intros off bs ? ?. apply Hk; [done|lia]. Qed.

Lemma rewrote_refl a a' lo hi : bytes a' = bytes a -> rewrote a a' lo hi.
Proof. intros E. constructor; unfold arena_len, knows; rewrite E; auto. Qed.

Lemma rewrote_trans a1 a2 a3 lo hi : rewrote a1 a2 lo hi -> rewrote a2 a3 lo hi -> rewrote a1 a3 lo hi.
Proof. intros [E1 K1] [E2 K2]. constructor; [congruence|auto]. Qed.

(** ** Links *)

Lemma first_free_range off T tl x : Forall tile_ok T -> first_free off T tl = Some x ->
  off <= x < off + tsizes T \/ tl = Some x.
Proof.
  intros HT. revert off. induction HT as [|t T [Ht _] HT IH]; intros off; [by right|].
  pose proof (tsizes_pos _ HT). cbn [tsizes]. destruct t as [s|bs]; cbn [first_free tsize] in *.
  - intros [= <-]. left. lia.
  - intros [?|?]%IH; [left; lia|by right].
Qed.

Lemma first_free_ok off T tl : Forall tile_ok T -> 0 <= off -> off + tsizes T <= u32_max -> link_ok tl ->
  link_ok (first_free off T tl).
Proof. intros HT Ho Hm Htl x [?|?]%first_free_range; [lia|by apply Htl|done]. Qed.

Lemma link_none : link_ok None.
Proof. by intros x. Qed.

(** The header of the free region behind [W]. *)
Lemma region_read a W s R tl : links a 0 (W ++ TFree s :: R) tl -> Forall tile_ok (W ++ TFree s :: R) ->
  tsizes (W ++ TFree s :: R) <= arena_len a <= u32_max -> link_ok tl ->
  read_free a (tsizes W) = Ok (first_free (tsizes W + s) R tl, s).
Proof.
  intros Hl HT Hm Htl. apply links_app in Hl as [_ [Hk _]]. rewrite Z.add_0_l in *. cbn [tile_bytes tsize] in Hk.
  apply Forall_app in HT as [HW [[Hs Hd] HR]%Forall_cons]. rewrite tsizes_app in Hm. cbn [tsizes tsize] in *.
  pose proof (tsizes_pos _ HW). pose proof (tsizes_pos _ HR).
  apply read_free_ok; try done; [|lia|lia]. apply first_free_ok; try done; lia.
Qed.

(** What both operations do to the region before the one they handle. *)
Definition relink (previous next : option Z) : FrameM unit :=
  match previous with
  | Some previous =>
      '(_, previous_len) ← st_read (fun a => read_free a previous);
      write_free previous next previous_len
  | None => st_modify (set_free_head next)
  end.

Lemma relink_ok a W X Y : Forall tile_ok W -> links a 0 W X -> free_head a = first_free 0 W X ->
  tsizes W <= arena_len a <= u32_max -> link_ok X ->
  exists a', relink (last_free 0 W None) Y a = (Ok tt, a') /\ links a' 0 W Y /\
    free_head a' = first_free 0 W Y /\ rewrote a a' 0 (tsizes W).
Proof.
  intros HW Hl Hh Hm HX. destruct (split_last_free W) as [HU|(P & s & U & -> & HU)].
  - rewrite used_last by done. exists (set_free_head Y a). split; [done|].
    split_and!; [|by rewrite used_first|by apply rewrote_refl].
    apply used_links with X; [done|]. apply (links_rewrote a _ 0 0); [by apply rewrote_refl|done|lia|lia|done].
  - rewrite last_free_split by done. rewrite Z.add_0_l. cbn [relink].
    rewrite (st_bind_ok _ _ _ (first_free (tsizes P + s) U X, s) a) by (unfold st_read; by rewrite (region_read a P s U X)).
    apply Forall_app in HW as [HP HsU]. pose proof HsU as [[Hs Hd] HU']%Forall_cons. cbn [tsize] in *.
    rewrite tsizes_app in *. cbn [tsizes tsize] in *. pose proof (tsizes_pos _ HP). pose proof (tsizes_pos _ HU').
    destruct (write_free_ok a (tsizes P) Y s) as (a' & Hrun & Hw & Hk & Hfh); [lia|lia|lia|].
    exists a'. split; [done|]. apply links_app in Hl as (HlP & HlF & HlU). rewrite Z.add_0_l in *. cbn [tsize] in *.
    split_and!.
    + apply links_app. rewrite Z.add_0_l. cbn [links first_free tile_bytes tsize] in *. split_and!.
      * apply (links_rewrote a _ _ _ _ _ _ Hw); [done|lia|lia|done].
      * by rewrite used_first.
      * apply used_links with X; [done|]. apply (links_rewrote a _ _ _ _ _ _ Hw); [done|lia|lia|done].
    + rewrite Hfh, Hh, !first_free_app. cbn [first_free]. done.
    + apply (rewrote_mono _ _ _ _ _ _ Hw); lia.
Qed.

(** ** Pushing a frame *)

(** Free regions of the tile are shorter than [n]. *)
Definition smaller (n : Z) (t : tile) : Prop := match t with TFree s => s < n | TUsed _ => True end.

Definition leftover (s n : Z) : list tile := if s =? n then [] else [TFree (s - n)].

Lemma tsizes_leftover s n : tsizes (leftover s n) = s - n.
Proof. unfold leftover. destruct (Z.eqb_spec s n); simpl; lia. Qed.

Lemma leftover_min s n : s mod 8 = 0 -> n mod 8 = 0 -> n < s -> 8 <= s - n.
Proof. intros [x ->]%Z.mod_divide [y ->]%Z.mod_divide; lia. Qed.

Lemma leftover_ok s n : tile_ok (TFree s) -> 0 < n -> n <= s -> n mod 8 = 0 -> Forall tile_ok (leftover s n).
Proof.
  intros [Hs Hd] H0 Hn Hm. cbn [tsize] in *. unfold leftover. destruct (Z.eqb_spec s n); repeat constructor; cbn [tsize].
  - apply leftover_min; [done..|lia].
  - by rewrite Zminus_mod, Hd, Hm.
Qed.

(** [n] bytes were taken from the front of the region behind [W]. *)
Record carved (a a' : FrameArena) (W : list tile) (s : Z) (R : list tile) (n : Z) : Prop := {
  v_len : arena_len a' = arena_len a;
  v_before : links a' 0 W (first_free (tsizes W + n) (leftover s n ++ R) None);
  v_after : links a' (tsizes W + n) (leftover s n ++ R) None;
  v_head : free_head a' = first_free 0 W (first_free (tsizes W + n) (leftover s n ++ R) None) }.

Lemma push_split a W s R n : arena_ok a (W ++ TFree s :: R) -> 0 < n -> n <= s -> n mod 8 = 0 ->
  exists a', (replacement ←
          (if s - n =? 0 then mret (first_free (tsizes W + s) R None)
           else
             remainder ← st_lift (ok_or (checked_add u32_max (tsizes W) n) InvalidStoragePlan);
             _ ← write_free remainder (first_free (tsizes W + s) R None) (s - n);
             mret (Some remainder));
        _ ← relink (last_free 0 W None) replacement;
        mret (tsizes W)) a = (Ok (tsizes W), a') /\
    carved a a' W s R n.
Proof.
  intros [Elen Hmax HT _ Hh Hl] H0 Hn Hm. pose proof HT as [HW HsR]%Forall_app. pose proof HsR as [Hts HR]%Forall_cons.
  pose proof Hts as [Hs Hd]. cbn [tsize] in *. pose proof (tsizes_pos _ HW). pose proof (tsizes_pos _ HR).
  rewrite tsizes_app in Elen. cbn [tsizes tsize] in Elen.
  apply links_app in Hl as (HlW & _ & HlR). rewrite first_free_app in Hh. rewrite Z.add_0_l in *.
  cbn [first_free tsize] in *. destruct (Z.eqb_spec (s - n) 0) as [E|E].
  - assert (n = s) as -> by lia.
    destruct (relink_ok a W (Some (tsizes W)) (first_free (tsizes W + s) R None)) as (a' & Hrun & Hl' & Hh' & Hw);
      try done; [lia|intros x [= <-]; lia|].
    exists a'. split; [|constructor; unfold leftover; rewrite ?Z.eqb_refl; [apply (w_len _ _ _ _ Hw)|done| |done]].
    + rewrite (st_bind_ok _ _ _ (first_free (tsizes W + s) R None) a) by done. by rewrite (st_bind_ok _ _ _ _ _ Hrun).
    + apply (links_rewrote _ _ _ _ _ _ _ Hw); [done|lia|lia|done].
  - pose proof (leftover_min s n Hd Hm ltac:(lia)). 
    assert (El : leftover s n = [TFree (s - n)]) by (unfold leftover; by rewrite (proj2 (Z.eqb_neq s n)) by lia).
    destruct (write_free_ok a (tsizes W + n) (first_free (tsizes W + s) R None) (s - n)) as (a1 & Hrun1 & Hw1 & Hk1 & Hh1).
    { lia. } { lia. } { lia. }
    destruct (relink_ok a1 W (Some (tsizes W)) (Some (tsizes W + n))) as (a' & Hrun & Hl' & Hh' & Hw).
    + done.
    + apply (links_rewrote _ _ _ _ _ _ _ Hw1); [done|lia|lia|done].
    + congruence.
    + rewrite (w_len _ _ _ _ Hw1). lia.
    + intros x [= <-]. lia.
    + exists a'. split; [|constructor; rewrite ?El; cbn [app first_free links tsize tile_bytes];
        [by rewrite (w_len _ _ _ _ Hw), (w_len _ _ _ _ Hw1)|done|split|done]].
      * rewrite (st_bind_ok _ _ _ (Some (tsizes W + n)) a1); [by rewrite (st_bind_ok _ _ _ _ _ Hrun)|].
        rewrite checked_add_le by lia. rewrite (st_bind_ok _ _ _ (tsizes W + n) a) by done.
        by rewrite (st_bind_ok _ _ _ _ _ Hrun1).
      * apply (w_keep _ _ _ _ Hw); [lia|lia|]. by replace (tsizes W + n + (s - n)) with (tsizes W + s) by lia.
      * replace (tsizes W + n + (s - n)) with (tsizes W + s) by lia.
        apply (links_rewrote _ _ _ _ _ _ _ Hw); [done|lia|lia|].
        apply (links_rewrote _ _ _ _ _ _ _ Hw1); [done|lia|lia|done].
Qed.

Lemma push_loop_ok n fuel : forall T1 R a, arena_ok a (T1 ++ R) -> 0 < n -> n mod 8 = 0 ->
  Forall (smaller n) T1 -> (length R < fuel)%nat ->
  let run := push_loop fuel n (last_free 0 T1 None) (first_free (tsizes T1) R None) a in
  (run = (Err InvalidStoragePlan, a) /\ Forall (smaller n) (T1 ++ R)) \/
  exists W s R' a', T1 ++ R = W ++ TFree s :: R' /\ Forall (smaller n) W /\ n <= s /\
    run = (Ok (tsizes W), a') /\ carved a a' W s R' n.
Proof.
  induction fuel as [|fuel IH]; intros T1 R a Ha H0 Hm Hsm Hf run; [lia|]. subst run.
  destruct (split_first_free R) as [HU|(U & s & R' & -> & HU)].
  - left. rewrite used_first by done. split; [done|]. apply Forall_app. split; [done|].
    apply (Forall_impl _ _ _ HU). by intros [].
  - assert (HsmU : Forall (smaller n) (T1 ++ U)).
    { apply Forall_app. split; [done|]. apply (Forall_impl _ _ _ HU). by intros []. }
    rewrite app_assoc in Ha. rewrite first_free_app, used_first by done. cbn [first_free].
    rewrite <- tsizes_app. cbn [push_loop].
    assert (El : last_free 0 T1 None = last_free 0 (T1 ++ U) None) by (by rewrite last_free_app, (used_last _ U)).
    rewrite El. pose proof Ha as [Elen Hmax HT _ _ Hl].
    rewrite (st_bind_ok _ _ _ (tsizes (T1 ++ U)) a) by done.
    rewrite (st_bind_ok _ _ _ (first_free (tsizes (T1 ++ U) + s) R' None, s) a).
    2: { unfold st_read. by rewrite (region_read a (T1 ++ U) s R' None) by (done || lia || apply link_none). }
    destruct (Z.leb_spec n s) as [Hle|Hgt].
    + right. destruct (push_split a (T1 ++ U) s R' n Ha H0 Hle Hm) as (a' & Hrun & Hc).
      exists (T1 ++ U), s, R', a'. split_and!; [by rewrite app_assoc|done|done|exact Hrun|done].
    + destruct (IH ((T1 ++ U) ++ [TFree s]) R' a) as [[Hrun Hall]|(W & s' & R2 & a' & E & HW & Hn & Hrun & Hc)].
      * by rewrite <- app_assoc.
      * done.
      * done.
      * apply Forall_app. split; [done|]. by repeat constructor.
      * rewrite length_app in Hf. simpl in Hf. lia.
      * left. rewrite last_free_app, (tsizes_app _ [_]) in Hrun. cbn [last_free tsizes tsize] in Hrun.
        rewrite Z.add_0_l, Z.add_0_r in Hrun. split; [done|]. rewrite <- app_assoc in Hall. by rewrite app_assoc.
      * right. exists W, s', R2, a'. rewrite last_free_app, (tsizes_app _ [_]) in Hrun. cbn [last_free tsizes tsize] in Hrun.
        rewrite Z.add_0_l, Z.add_0_r in Hrun. split_and!; try done. rewrite <- app_assoc in E. by rewrite app_assoc.
Qed.

(** ** Adjacent regions *)

Lemma sep_used W bs X : separated (W ++ TUsed bs :: X) <-> separated W /\ separated X.
Proof.
  induction W as [|[s|cs] W IH]; [simpl; naive_solver| |done].
  destruct W as [|[s'|cs'] W]; [simpl in *; naive_solver|simpl; naive_solver|exact IH].
Qed.

Lemma sep_tail t X : separated (t :: X) -> separated X.
Proof. destruct t as [s|bs]; [|done]. by destruct X as [|[s'|bs'] X]. Qed.

Lemma sep_app W X : separated (W ++ X) -> separated W /\ separated X.
Proof.
  induction W as [|t W IH]; [done|]. intros H. pose proof (IH (sep_tail _ _ H)) as [? ?]. split; [|done].
  destruct t as [s|bs]; [|done]. by destruct W as [|[s'|bs'] W].
Qed.

(** Two sequences meet without two free regions touching. *)
Lemma sep_join W X : separated W -> separated X ->
  (forall P s Y s', W = P ++ [TFree s] -> X = TFree s' :: Y -> False) -> separated (W ++ X).
Proof.
  induction W as [|t W IH]; [done|]. intros HW HX Hn. cbn [app].
  assert (separated (W ++ X)).
  { apply IH; [by eapply sep_tail|done|]. intros P s Y s' -> ->. by apply (Hn (t :: P) s Y s'). }
  destruct t as [s|bs]; [|done]. destruct W as [|[s'|bs'] W]; [|done|done].
  destruct X as [|[s'|bs'] X]; [done| |done]. by apply (Hn [] s X s').
Qed.

Lemma sep_leftover s n R : separated (TFree s :: R) -> separated (leftover s n ++ R).
Proof. unfold leftover. destruct (s =? n); [apply sep_tail|]. by destruct R as [|[]]. Qed.

Lemma carved_ok a a' W s R n : arena_ok a (W ++ TFree s :: R) -> carved a a' W s R n -> 0 < n -> n <= s -> n mod 8 = 0 ->
  let a2 := set_bytes (splice (tsizes W) (replicate (Z.to_nat n) 0) (bytes a')) a' in
  arena_ok a2 (W ++ TUsed (replicate (Z.to_nat n) 0) :: leftover s n ++ R).
Proof.
  intros [Elen Hmax HT Hsep _ _] [Cl Cb Ca Ch] H0 Hn Hm a2.
  pose proof HT as [HW HsR]%Forall_app. pose proof HsR as [Hts HR]%Forall_cons.
  pose proof (tsizes_pos _ HW). pose proof (tsizes_pos _ HR). pose proof (leftover_ok s n Hts H0 Hn Hm) as Hlo.
  rewrite tsizes_app in Elen. cbn [tsizes tsize] in Elen.
  destruct (splice_rewrote a' (tsizes W) (replicate (Z.to_nat n) 0)) as [Hw Hk]; [lia|rewrite length_replicate; lia|].
  rewrite length_replicate, Z2Nat.id in Hw by lia. fold a2 in Hw, Hk.
  assert (En : tsize (TUsed (replicate (Z.to_nat n) 0)) = n) by (cbn [tsize]; rewrite length_replicate; lia).
  assert (HloR : Forall tile_ok (leftover s n ++ R)) by (by apply Forall_app).
  pose proof (tsizes_app (leftover s n) R) as Esz. rewrite tsizes_leftover in Esz.
  constructor.
  - rewrite (w_len _ _ _ _ Hw), Cl, Elen, tsizes_app. cbn [tsizes]. rewrite En, Esz. lia.
  - rewrite (w_len _ _ _ _ Hw), Cl. done.
  - apply Forall_app. split; [done|]. constructor; [|done]. split; rewrite En; [|done].
    apply Z.mod_divide in Hm as [x ->]; lia.
  - apply sep_app in Hsep as [? ?]. apply sep_used. split; [done|]. by apply sep_leftover.
  - rewrite first_free_app. cbn [first_free]. rewrite Z.add_0_l, En. exact Ch.
  - apply links_app. rewrite Z.add_0_l. cbn [first_free links tile_bytes]. rewrite En. split_and!.
    + apply (links_rewrote _ _ _ _ _ _ _ Hw); [done|lia|lia|done].
    + done.
    + apply (links_rewrote _ _ _ _ _ _ _ Hw); [done|lia|lia|done].
Qed.

Lemma loop_fuel_enough a T : arena_ok a T -> (length T < loop_fuel a)%nat.
Proof.
  intros [Elen _ HT _ _ _]. pose proof (tsizes_count _ HT). unfold loop_fuel, arena_len in *.
  pose proof (Nat.div_mod (length (bytes a)) 8 ltac:(lia)).
  pose proof (Nat.mod_upper_bound (length (bytes a)) 8 ltac:(lia)). lia.
Qed.

(** *** What a push does to the tiles: the first region that is long enough. *)
Fixpoint first_fit (off : Z) (T : list tile) (n : Z) : option (Z * list tile) :=
  match T with
  | [] => None
  | t :: R =>
      match t with
      | TFree s =>
          if n <=? s then Some (off, TUsed (replicate (Z.to_nat n) 0) :: leftover s n ++ R)
          else prod_map id (cons t) <$> first_fit (off + tsize t) R n
      | TUsed _ => prod_map id (cons t) <$> first_fit (off + tsize t) R n
      end
  end.

Lemma first_fit_none off T n : Forall (smaller n) T -> first_fit off T n = None.
Proof.
  intros H. revert off. induction H as [|[s|bs] T Hs _ IH]; intros off; cbn [first_fit]; [done| |by rewrite IH].
  rewrite (proj2 (Z.leb_gt _ _)) by exact Hs. by rewrite IH.
Qed.

Lemma first_fit_some off W s R n : Forall (smaller n) W -> n <= s ->
  first_fit off (W ++ TFree s :: R) n =
    Some (off + tsizes W, W ++ TUsed (replicate (Z.to_nat n) 0) :: leftover s n ++ R).
Proof.
  intros H Hn. revert off. induction H as [|[s'|bs] W Hs _ IH]; intros off; cbn [app first_fit tsizes].
  - by rewrite (proj2 (Z.leb_le _ _)), Z.add_0_r.
  - rewrite (proj2 (Z.leb_gt _ _)) by exact Hs. rewrite IH. simpl. do 2 f_equal. lia.
  - rewrite IH. simpl. do 2 f_equal. lia.
Qed.

Lemma first_fit_inv off T n :
  match first_fit off T n with
  | Some _ => exists W s R, T = W ++ TFree s :: R /\ Forall (smaller n) W /\ n <= s
  | None => Forall (smaller n) T
  end.
Proof.
  revert off. induction T as [|t T IH]; intros off; [constructor|]. cbn [first_fit]. specialize (IH (off + tsize t)).
  assert (Hrec : smaller n t -> match prod_map id (cons t) <$> first_fit (off + tsize t) T n with
    | Some _ => exists W s R, t :: T = W ++ TFree s :: R /\ Forall (smaller n) W /\ n <= s
    | None => Forall (smaller n) (t :: T) end).
  { intros Hs. destruct (first_fit (off + tsize t) T n); simpl; [|by constructor].
    destruct IH as (W & s & R & -> & ? & ?). exists (t :: W), s, R. split_and!; [done|by constructor|done]. }
  destruct t as [s|bs]; [|by apply Hrec]. destruct (Z.leb_spec n s); [|by apply Hrec]. by exists [], s, T.
Qed.

Definition rounded (n : Z) : Z := (n + 7) / 8 * 8.

Lemma align_8 n : 0 <= n -> align n 8 = if n + 7 <=? u32_max then Ok (rounded n) else Err Overflow.
Proof.
  intros Hn. unfold align, checked_add. change (8 - 1) with 7. destruct (Z.leb_spec (n + 7) u32_max); [|done].
  f_equal. change (u32_max - 7) with (2 ^ 32 - 2 ^ 3). unfold u32_max in *. rewrite land_high_mask by (eval_pow; lia).
  unfold rounded. change (2 ^ 3) with 8. pose proof (Z.div_mod (n + 7) 8). lia.
Qed.

Lemma push_ok a T layout : arena_ok a T -> 0 <= fl_byte_len layout ->
  let n := rounded (fl_byte_len layout) in
  if (u32_max <? fl_byte_len layout + 7) then push layout a = (Err InvalidStoragePlan, a)
  else if n =? 0 then push layout a = (Ok (mkFrameReservation 0 0), a)
  else match first_fit 0 T n with
       | None => push layout a = (Err InvalidStoragePlan, a)
       | Some (base, T') => exists a', push layout a = (Ok (mkFrameReservation base n), a') /\ arena_ok a' T'
       end.
Proof.
  intros Ha Hb n. unfold push. rewrite align_8 by done. fold n. rewrite Z.ltb_antisym.
  destruct (Z.leb_spec (fl_byte_len layout + 7) u32_max) as [Hle|]; [|done]. cbn [negb].
  rewrite (st_bind_ok _ _ _ n a) by done. destruct (Z.eqb_spec n 0) as [->|Hn0]; [done|].
  assert (Hn : 0 < n /\ n mod 8 = 0).
  { unfold n, rounded in *. split; [|by rewrite Z.mod_mul].
    pose proof (Z.div_pos (fl_byte_len layout + 7) 8). lia. }
  destruct Hn as [Hn Hm]. rewrite (st_bind_ok _ _ _ a a) by done.
  pose proof Ha as [Elen Hmax HT _ Hh _]. pose proof (loop_fuel_enough _ _ Ha) as Hf.
  destruct (push_loop_ok n (loop_fuel a) [] T a Ha Hn Hm) as [[Hrun Hs]|(W & s & R & a' & E & HW & Hns & Hrun & Hc)];
    [by constructor|done| |]; cbn [last_free tsizes app] in *; rewrite <- Hh in Hrun.
  - by rewrite first_fit_none, (st_bind_err _ _ _ _ _ Hrun).
  - subst T. rewrite first_fit_some by done. rewrite (st_bind_ok _ _ _ _ _ Hrun), Z.add_0_l.
    rewrite (st_bind_ok _ _ _ a' a') by done. pose proof (v_len _ _ _ _ _ _ Hc) as Ea. rewrite tsizes_app in Elen.
    cbn [tsizes tsize] in Elen. apply Forall_app in HT as [HW' [_ HR]%Forall_cons].
    pose proof (tsizes_pos _ HW'). pose proof (tsizes_pos _ HR).
    rewrite (st_bind_ok _ _ _ (tsizes W + n) a').
    2: { unfold checked_add, wrap_unsigned. rewrite (proj2 (Z.leb_le _ _)) by lia. bind_simp. unfold u32_max in *.
         rewrite Z.mod_small by lia. by rewrite (proj2 (Z.leb_le _ _)) by lia. }
    replace (tsizes W + n - tsizes W) with n by lia.
    eexists. split; [done|]. by apply (carved_ok a).
Qed.

(** ** Popping a frame *)

Definition cons_tile (t : tile) (T : list tile) : list tile :=
  match t, T with
  | TFree s, TFree s' :: T => TFree (s + s') :: T
  | _, _ => t :: T
  end.

(** Free regions that touch, made one. *)
Definition coalesce (T : list tile) : list tile := foldr cons_tile [] T.

Lemma coalesce_app T1 T2 : coalesce (T1 ++ T2) = foldr cons_tile (coalesce T2) T1.
Proof. unfold coalesce. by rewrite foldr_app. Qed.

Lemma coalesce_sep T1 X : separated (T1 ++ X) -> foldr cons_tile X T1 = T1 ++ X.
Proof.
  induction T1 as [|t T1 IH]; [done|]. intros H. cbn [foldr app]. rewrite IH by (by eapply sep_tail).
  destruct t as [s|bs]; [|done]. cbn [app separated cons_tile] in *. by destruct (T1 ++ X) as [|[s'|bs'] Y].
Qed.

Lemma coalesce_id T : separated T -> coalesce T = T.
Proof. intros H. unfold coalesce. rewrite coalesce_sep; by rewrite app_nil_r. Qed.

(** The regions a frame is merged with: behind it and before it. *)
Definition take_next (T2 : list tile) : Z * list tile :=
  match T2 with TFree s :: R => (s, R) | _ => (0, T2) end.

Inductive take_last : list tile -> Z -> list tile -> Prop :=
| last_region P s : take_last (P ++ [TFree s]) s P
| last_frame T : (forall P s, T <> P ++ [TFree s]) -> take_last T 0 T.

Lemma coalesce_freed T1 n T2 p P : separated T1 -> separated T2 -> take_last T1 p P ->
  coalesce (T1 ++ TFree n :: T2) = P ++ TFree (p + (n + (take_next T2).1)) :: (take_next T2).2 /\
  separated (P ++ TFree (p + (n + (take_next T2).1)) :: (take_next T2).2).
Proof.
  intros H1 H2 Hl.
  assert (E2 : coalesce (TFree n :: T2) = TFree (n + (take_next T2).1) :: (take_next T2).2 /\
    forall m, separated (TFree m :: (take_next T2).2)).
  { unfold coalesce. cbn [foldr]. fold (coalesce T2). rewrite coalesce_id by done.
    destruct T2 as [|[s|bs] T2]; cbn [cons_tile take_next fst snd]; rewrite ?Z.add_0_r; split; auto. }
  destruct E2 as [E2 Hs]. rewrite coalesce_app, E2. destruct Hl as [P s|T Hn].
  - rewrite foldr_app. cbn [foldr cons_tile]. apply sep_app in H1 as H1'. destruct H1' as [HP _].
    assert (Hj : separated (P ++ TFree (s + (n + (take_next T2).1)) :: (take_next T2).2)).
    { apply sep_join; [done|apply Hs|]. intros Q q Y y -> _.
      rewrite <- app_assoc in H1. by apply sep_app in H1 as [_ H1]. }
    by rewrite coalesce_sep.
  - rewrite Z.add_0_l. assert (Hj : separated (T ++ TFree (n + (take_next T2).1) :: (take_next T2).2)).
    { apply sep_join; [done|apply Hs|]. intros P s Y s' -> _. by apply (Hn P s). }
    by rewrite coalesce_sep.
Qed.

(** The search for the neighbours of the frame behind [T1]. *)
Lemma release_loop_ok a T1 bs T2 : arena_ok a (T1 ++ TUsed bs :: T2) ->
  let stop := tsizes T1 + Z.of_nat (length bs) in
  forall fuel P Q, T1 = P ++ Q -> (length Q < fuel)%nat ->
  release_loop fuel a (tsizes T1) stop (last_free 0 P None)
    (first_free (tsizes P) (Q ++ TUsed bs :: T2) None) =
  Ok (last_free 0 T1 None, first_free stop T2 None).
Proof.
  intros [Elen Hmax HT _ _ Hl] stop. pose proof HT as [HT1 [[Hb _] HT2]%Forall_cons]%Forall_app. cbn [tsize] in Hb.
  pose proof (tsizes_pos _ HT1). pose proof (tsizes_pos _ HT2). rewrite tsizes_app in Elen. cbn [tsizes tsize] in Elen.
  induction fuel as [|fuel IH]; intros P Q E Hf; [lia|].
  destruct (split_first_free Q) as [HU|(U & s & Q' & -> & HU)].
  - rewrite first_free_app, used_first by done. cbn [first_free tsize]. rewrite <- tsizes_app, <- E. fold stop.
    replace (last_free 0 T1 None) with (last_free 0 P None) by (by rewrite E, last_free_app, (used_last _ Q)).
    cbn [release_loop]. destruct (split_first_free T2) as [HU2|(U2 & s2 & R2 & -> & HU2)]; [by rewrite used_first|].
    rewrite first_free_app, (used_first _ U2) by done. cbn [first_free].
    replace (stop + tsizes U2) with (tsizes (T1 ++ TUsed bs :: U2)) by (rewrite tsizes_app; cbn [tsizes tsize]; lia).
    rewrite (region_read a (T1 ++ TUsed bs :: U2) s2 R2 None).
    + bind_simp. apply Forall_app in HT2 as [HU2' [[Hs2 _] HR2]%Forall_cons]. cbn [tsize] in Hs2.
      pose proof (tsizes_pos _ HU2'). pose proof (tsizes_pos _ HR2). rewrite tsizes_app in *. cbn [tsizes tsize] in *.
      rewrite checked_add_le by lia. bind_simp. by rewrite (proj2 (Z.leb_le _ _)) by lia.
    + rewrite <- app_assoc. done.
    + rewrite <- app_assoc. done.
    + rewrite !tsizes_app in *. cbn [tsizes tsize] in *. lia.
    + apply link_none.
  - rewrite <- app_assoc, first_free_app, used_first by done. cbn [app first_free release_loop]. rewrite <- tsizes_app.
    assert (ET : T1 ++ TUsed bs :: T2 = (P ++ U) ++ TFree s :: Q' ++ TUsed bs :: T2) by (rewrite E, <- !app_assoc; done).
    rewrite ET in Hl, HT. rewrite (region_read a (P ++ U) s (Q' ++ TUsed bs :: T2) None).
    + bind_simp. pose proof HT1 as HT1'. rewrite E, app_assoc in HT1'. apply Forall_app in HT1' as [HPU [[Hs _] HQ']%Forall_cons].
      cbn [tsize] in Hs. pose proof (tsizes_pos _ HPU). pose proof (tsizes_pos _ HQ').
      assert (ES : tsizes T1 = tsizes (P ++ U) + (s + tsizes Q')) by (by rewrite E, app_assoc, tsizes_app).
      rewrite checked_add_le by lia. bind_simp.
      rewrite (proj2 (Z.leb_gt _ _)), (proj2 (Z.ltb_ge _ _)) by lia.
      pose proof (IH ((P ++ U) ++ [TFree s]) Q') as IH'. rewrite last_free_app, (tsizes_app _ [_]) in IH'.
      cbn [last_free tsizes tsize] in IH'. rewrite Z.add_0_l, Z.add_0_r in IH'. apply IH'.
      * rewrite E, <- !app_assoc. done.
      * rewrite length_app in Hf. simpl in Hf. lia.
    + done.
    + done.
    + rewrite <- ET, tsizes_app. cbn [tsizes tsize]. lia.
    + apply link_none.
Qed.

Lemma take_next_sizes T2 : tsizes T2 = (take_next T2).1 + tsizes (take_next T2).2.
Proof. by destruct T2 as [|[s|bs] T2]. Qed.

Lemma take_next_ok T2 : Forall tile_ok T2 -> 0 <= (take_next T2).1 /\ (take_next T2).1 mod 8 = 0 /\
  Forall tile_ok (take_next T2).2.
Proof. intros HT. destruct HT as [|[s|bs] T2 [Hs Hd] HT]; cbn [take_next fst snd tsize] in *; split_and!; by try lia; try constructor. Qed.

(** The step of [release] that looks behind the frame. *)
Lemma absorb_next a T1 bs T2 : arena_ok a (T1 ++ TUsed bs :: T2) ->
  let n := Z.of_nat (length bs) in let stop := tsizes T1 + n in
  (match first_free stop T2 None with
   | Some region =>
       if stop =? region
       then
         '(following, region_len) ← st_read (fun a => read_free a region);
         free_len ← st_lift (ok_or (checked_add u32_max n region_len) CorruptLifecycle);
         mret (following, free_len)
       else mret (first_free stop T2 None, n)
   | None => mret (first_free stop T2 None, n)
   end) a =
  (Ok (first_free (stop + (take_next T2).1) (take_next T2).2 None, n + (take_next T2).1) : outcome VmFault _, a).
Proof.
  intros [Elen Hmax HT _ _ Hl] n stop. pose proof HT as [HT1 [[Hb _] HT2]%Forall_cons]%Forall_app. cbn [tsize] in Hb.
  pose proof (tsizes_pos _ HT1). pose proof (tsizes_pos _ HT2). rewrite tsizes_app in Elen. cbn [tsizes tsize] in Elen. fold n in Elen, Hb.
  destruct T2 as [|[s|cs] R]; cbn [take_next fst snd].
  - by rewrite !Z.add_0_r.
  - cbn [first_free]. rewrite Z.eqb_refl. cbn [tsizes tsize] in *. pose proof HT2 as [[Hs _] HR]%Forall_cons.
    pose proof (tsizes_pos _ HR). cbn [tsize] in Hs.
    assert (Estop : stop = tsizes (T1 ++ [TUsed bs])) by (rewrite tsizes_app; cbn [tsizes tsize]; lia).
    rewrite (st_bind_ok _ _ _ (first_free (stop + s) R None, s) a).
    + rewrite checked_add_le by lia. done.
    + unfold st_read. rewrite Estop, (region_read a (T1 ++ [TUsed bs]) s R None); [done|by rewrite <- app_assoc..| |apply link_none].
      rewrite <- app_assoc, tsizes_app. cbn [app tsizes tsize]. fold n. lia.
  - rewrite !Z.add_0_r. destruct (first_free stop (TUsed cs :: R) None) as [region|] eqn:Er; [|done].
    pose proof HT2 as [[Hc _] HR]%Forall_cons. cbn [first_free tsize] in *. apply first_free_range in Er as [Er|Er]; [|done..].
    by rewrite (proj2 (Z.eqb_neq _ _)) by lia.
Qed.

Lemma finish_region a P m R : links a 0 P (Some (tsizes P)) -> free_head a = first_free 0 P (Some (tsizes P)) ->
  links a (tsizes P + m) R None -> arena_len a = tsizes P + m + tsizes R -> arena_len a <= u32_max ->
  Forall tile_ok (P ++ TFree m :: R) -> separated (P ++ TFree m :: R) ->
  exists a', write_free (tsizes P) (first_free (tsizes P + m) R None) m a = (Ok tt, a') /\ arena_ok a' (P ++ TFree m :: R).
Proof.
  intros HlP Hh HlR Elen Hmax HT Hsep. pose proof HT as [HP [[Hm _] HR]%Forall_cons]%Forall_app. cbn [tsize] in Hm.
  pose proof (tsizes_pos _ HP). pose proof (tsizes_pos _ HR).
  destruct (write_free_ok a (tsizes P) (first_free (tsizes P + m) R None) m) as (a' & Hrun & Hw & Hk & Hfh); [lia..|].
  exists a'. split; [done|]. constructor; try done.
  - rewrite (w_len _ _ _ _ Hw), tsizes_app. cbn [tsizes tsize]. lia.
  - by rewrite (w_len _ _ _ _ Hw).
  - by rewrite Hfh, first_free_app.
  - apply links_app. rewrite Z.add_0_l. cbn [first_free links tile_bytes tsize]. split_and!; [|done|].
    + apply (links_rewrote _ _ _ _ _ _ _ Hw); [done|lia|lia|done].
    + apply (links_rewrote _ _ _ _ _ _ _ Hw); [done|lia|lia|done].
Qed.

Lemma take_last_used P s U : Forall is_used U -> U <> [] -> take_last (P ++ TFree s :: U) 0 (P ++ TFree s :: U).
Proof.
  intros HU Hne. constructor. intros Q s' E. destruct (exists_last Hne) as (V & t & ->).
  rewrite app_comm_cons, app_assoc in E. apply app_inj_tail in E as [_ ->].
  apply Forall_app in HU as [_ [? _]%Forall_cons]. done.
Qed.

Lemma take_last_inv T p P : take_last T p P ->
  (forall Q s, T = Q ++ [TFree s] -> p = s /\ P = Q) /\ ((forall Q s, T <> Q ++ [TFree s]) -> p = 0 /\ P = T).
Proof.
  intros [P' s'|T' Hn]; split; intros.
  - match goal with H : _ ++ [_] = _ ++ [_] |- _ => apply app_inj_tail in H as [-> [= ->]] end. done.
  - naive_solver.
  - naive_solver.
  - done.
Qed.

(** The step of [release] that looks before the frame and writes the region. *)
Lemma link_previous a T1 bs T2 p P : arena_ok a (T1 ++ TUsed bs :: T2) -> take_last T1 p P ->
  let n := Z.of_nat (length bs) in let x := (take_next T2).1 in let R := (take_next T2).2 in
  let next := first_free (tsizes T1 + n + x) R None in
  exists a', (match last_free 0 T1 None with
      | Some region =>
          '(_, region_len) ← st_read (fun a => read_free a region);
          region_end ← st_lift (ok_or (checked_add u32_max region region_len) CorruptLifecycle);
          if region_end =? tsizes T1
          then
            free_len ← st_lift (ok_or (checked_add u32_max region_len (n + x)) CorruptLifecycle);
            write_free region next free_len
          else
            _ ← write_free region (Some (tsizes T1)) region_len;
            write_free (tsizes T1) next (n + x)
      | None =>
          _ ← st_modify (set_free_head (Some (tsizes T1)));
          write_free (tsizes T1) next (n + x)
      end) a = (Ok tt, a') /\ arena_ok a' (coalesce (T1 ++ TFree n :: T2)).
Proof.
  intros Ha HtP n x R next. pose proof Ha as [Elen Hmax HT Hsep Hh Hl].
  pose proof HT as [HT1 [[Hb Hbm] HT2]%Forall_cons]%Forall_app. cbn [tsize] in Hb, Hbm. fold n in Hb, Hbm.
  pose proof (tsizes_pos _ HT1). destruct (take_next_ok T2 HT2) as (Hx & Hxm & HR). fold x R in Hx, Hxm, HR. pose proof (tsizes_pos _ HR).
  pose proof (take_next_sizes T2) as Esz. fold x R in Esz. rewrite tsizes_app in Elen. cbn [tsizes tsize] in Elen. fold n in Elen.
  apply sep_used in Hsep as [Hs1 Hs2].
  destruct (coalesce_freed T1 n T2 p P Hs1 Hs2 HtP) as [-> HsepF]. fold x R in HsepF |- *.
  rewrite first_free_app in Hh. apply links_app in Hl as (Hl1 & _ & Hl2). rewrite Z.add_0_l in *.
  cbn [first_free tsize] in *. fold n in Hh, Hl1, Hl2. set (X := first_free (tsizes T1 + n) T2 None) in *.
  assert (HX : link_ok X) by (apply first_free_ok; try done; lia).
  assert (HlR : links a (tsizes T1 + n + x) R None).
  { unfold x, R. destruct T2 as [|[s|cs] T2]; cbn [take_next fst snd]; rewrite ?Z.add_0_r; [done| |done].
    by destruct Hl2 as [_ Hl2]. }
  assert (Hnx : (n + x) mod 8 = 0) by (by rewrite Z.add_mod, Hbm, Hxm).
  assert (Hfin : forall a1, rewrote a a1 0 (tsizes T1) -> links a1 0 T1 (Some (tsizes T1)) ->
    free_head a1 = first_free 0 T1 (Some (tsizes T1)) -> separated (T1 ++ TFree (n + x) :: R) ->
    exists a', write_free (tsizes T1) next (n + x) a1 = (Ok tt, a') /\ arena_ok a' (T1 ++ TFree (n + x) :: R)).
  { intros a1 Hw1 Hl1' Hh1 Hsp. unfold next. rewrite <- Z.add_assoc. pose proof (w_len _ _ _ _ Hw1).
    apply finish_region; try done; [|lia|lia|].
    - rewrite Z.add_assoc. apply (links_rewrote _ _ _ _ _ _ _ Hw1); [done|lia|lia|done].
    - apply Forall_app. split; [done|]. constructor; [|done]. split; cbn [tsize]; [lia|done]. }
  destruct (split_last_free T1) as [HU|(Q & s & U & -> & HU)].
  - rewrite used_last by done. rewrite (st_bind_ok _ _ _ tt (set_free_head (Some (tsizes T1)) a)) by done.
    assert (p = 0 /\ P = T1) as [-> ->].
    { destruct HtP as [P s|T]; [|done]. apply Forall_app in HU as [_ [? _]%Forall_cons]. done. }
    apply Hfin; [by apply rewrote_refl| |by rewrite used_first|done].
    apply used_links with X; [done|]. apply (links_rewrote a _ 0 0); [by apply rewrote_refl|done|lia|lia|done].
  - pose proof HT1 as [HQ [[Hs Hsm] HU']%Forall_cons]%Forall_app. cbn [tsize] in Hs, Hsm.
    pose proof (tsizes_pos _ HQ). pose proof (tsizes_pos _ HU').
    assert (ES : tsizes (Q ++ TFree s :: U) = tsizes Q + (s + tsizes U)) by (by rewrite tsizes_app).
    rewrite last_free_split by done. rewrite Z.add_0_l.
    assert (Hrd : read_free a (tsizes Q) = Ok (first_free (tsizes Q + s) U X, s)).
    { apply region_read; [done|done|lia|done]. }
    rewrite (st_bind_ok _ _ _ (first_free (tsizes Q + s) U X, s) a) by (unfold st_read; by rewrite Hrd).
    rewrite (checked_add_le _ (tsizes Q)) by lia. rewrite (st_bind_ok _ _ _ (tsizes Q + s) a) by done.
    destruct (decide (U = [])) as [->|HUne].
    + assert (p = s /\ P = Q) as [-> ->].
      { by apply (take_last_inv _ _ _ HtP). }
      cbn [tsizes] in ES. rewrite (proj2 (Z.eqb_eq _ _)) by lia. rewrite checked_add_le by lia.
      rewrite (st_bind_ok _ _ _ (s + (n + x)) a) by done.
      assert (En : next = first_free (tsizes Q + (s + (n + x))) R None) by (unfold next; f_equal; lia).
      rewrite En. apply links_app in Hl1 as [HlQ _]. rewrite first_free_app in Hh. rewrite Z.add_0_l in *. cbn [first_free] in *.
      apply finish_region; try done; [|lia|].
      * by replace (tsizes Q + (s + (n + x))) with (tsizes (Q ++ [TFree s]) + n + x) by lia.
      * apply Forall_app. split; [done|]. constructor; [|done]. split; cbn [tsize]; [lia|]. by rewrite Z.add_mod, Hsm, Hnx.
    + assert (HU0 : 0 < tsizes U).
      { destruct U as [|u U]; [done|]. apply Forall_cons in HU' as [[? _] HU']. pose proof (tsizes_pos _ HU'). cbn [tsizes]. lia. }
      rewrite (proj2 (Z.eqb_neq _ _)) by lia.
      assert (p = 0 /\ P = Q ++ TFree s :: U) as [-> ->].
      { apply (take_last_inv _ _ _ HtP). pose proof (take_last_used Q s U HU HUne) as Ht.
        intros Q' s' E. apply take_last_inv in Ht as [Ht _]. destruct (Ht Q' s' E) as [_ EQ].
        apply (f_equal length) in E. rewrite EQ, length_app in E. simpl in E. lia. }
      destruct (relink_ok a (Q ++ TFree s :: U) X (Some (tsizes (Q ++ TFree s :: U)))) as (a1 & Hrun & Hl1' & Hh1 & Hw1);
        [done|done|done|lia|done|].
      rewrite last_free_split, Z.add_0_l in Hrun by done. cbn [relink] in Hrun.
      rewrite (st_bind_ok _ _ _ (first_free (tsizes Q + s) U X, s) a) in Hrun by (unfold st_read; by rewrite Hrd).
      rewrite (st_bind_ok _ _ _ tt a1) by done. by apply Hfin.
Qed.

Lemma frame_release_ok a T1 bs T2 : arena_ok a (T1 ++ TUsed bs :: T2) ->
  exists a', release (mkFrameReservation (tsizes T1) (Z.of_nat (length bs))) a = (Ok tt, a') /\
    arena_ok a' (coalesce (T1 ++ TFree (Z.of_nat (length bs)) :: T2)).
Proof.
  intros Ha. pose proof Ha as [Elen Hmax HT _ Hh _]. pose proof HT as [HT1 [[Hb Hbm] HT2]%Forall_cons]%Forall_app.
  cbn [tsize] in *. pose proof (tsizes_pos _ HT1). pose proof (tsizes_pos _ HT2). pose proof (tsizes_mod _ HT1) as Hm1. rewrite tsizes_app in Elen. cbn [tsizes tsize] in Elen.
  unfold release. cbn [r_byte_len r_base]. rewrite (proj2 (Z.eqb_neq _ _)) by lia.
  rewrite (st_bind_ok _ _ _ a a) by done.
  rewrite (st_bind_ok _ _ _ (tsizes T1 + Z.of_nat (length bs)) a).
  2: { rewrite checked_add_le by lia. bind_simp. unfold wrap_unsigned, u32_max in *.
       rewrite Z.mod_small by lia. by rewrite (proj2 (Z.leb_le _ _)) by lia. }
  unfold is_multiple_of. rewrite Hm1, Hbm, (proj2 (Z.ltb_ge _ _)) by lia. cbn [Z.eqb negb orb].
  rewrite (st_bind_ok _ _ _ (last_free 0 T1 None, first_free (tsizes T1 + Z.of_nat (length bs)) T2 None) a).
  2: { unfold st_lift. rewrite Hh. f_equal. apply (release_loop_ok a T1 bs T2 Ha (loop_fuel a) [] T1 eq_refl).
       pose proof (loop_fuel_enough _ _ Ha) as Hf. rewrite length_app in Hf. simpl in Hf. lia. }
  rewrite (st_bind_ok _ _ _ _ _ (absorb_next a T1 bs T2 Ha)).
  assert (exists p P, take_last T1 p P) as (p & P & Ht).
  { destruct (split_last_free T1) as [HU|(Q & s & U & -> & HU)].
    - exists 0, T1. constructor. intros Q s ->. apply Forall_app in HU as [_ [? _]%Forall_cons]. done.
    - destruct (decide (U = [])) as [->|Hne]; [by eexists _, _; constructor|]. eexists _, _. by apply take_last_used. }
  apply (link_previous a T1 bs T2 p P Ha Ht).
Qed.

(** A range that reaches into a free region is refused. *)
Lemma release_loop_overlap a W s R base stop : arena_ok a (W ++ TFree s :: R) ->
  base < tsizes W + s -> tsizes W < stop ->
  forall fuel P Q, W = P ++ Q -> (length Q < fuel)%nat ->
  release_loop fuel a base stop (last_free 0 P None) (first_free (tsizes P) (Q ++ TFree s :: R) None) =
  Err CorruptLifecycle.
Proof.
  intros [Elen Hmax HT _ _ Hl] Hb Hst. pose proof HT as [HW [[Hs _] HR]%Forall_cons]%Forall_app. cbn [tsize] in Hs.
  pose proof (tsizes_pos _ HW). pose proof (tsizes_pos _ HR).
  induction fuel as [|fuel IH]; intros P Q E Hf; [lia|].
  assert (Hregion : forall V t Y, V ++ TFree t :: Y = W ++ TFree s :: R -> tsizes V <= tsizes W ->
    read_free a (tsizes V) = Ok (first_free (tsizes V + t) Y None, t) /\ tsizes V + t <= u32_max).
  { intros V t Y EV Hle. rewrite <- EV in Hl, HT, Elen. split; [apply region_read; try done; lia|].
    rewrite tsizes_app in Elen. apply Forall_app in HT as [_ [_ HY]%Forall_cons]. pose proof (tsizes_pos _ HY).
    cbn [tsizes tsize] in Elen. lia. }
  destruct (split_first_free Q) as [HU|(U & t & Q' & -> & HU)].
  - rewrite first_free_app, used_first by done. cbn [first_free release_loop]. rewrite <- tsizes_app, <- E.
    destruct (Hregion W s R eq_refl) as [-> Hm]; [lia|]. bind_simp. rewrite checked_add_le by lia. bind_simp.
    by rewrite (proj2 (Z.leb_gt _ _)), (proj2 (Z.ltb_lt _ _)) by lia.
  - rewrite <- app_assoc, first_free_app, used_first by done. cbn [app first_free release_loop]. rewrite <- tsizes_app.
    assert (EW : (P ++ U) ++ TFree t :: Q' ++ TFree s :: R = W ++ TFree s :: R) by (rewrite E, <- !app_assoc; done).
    pose proof HW as HW'. rewrite E, app_assoc in HW'. apply Forall_app in HW' as [HPU [[Ht _] HQ']%Forall_cons].
    cbn [tsize] in Ht. pose proof (tsizes_pos _ HQ').
    assert (ES : tsizes W = tsizes (P ++ U) + (t + tsizes Q')) by (by rewrite E, app_assoc, tsizes_app).
    destruct (Hregion _ _ _ EW) as [-> Hm]; [lia|]. bind_simp. rewrite checked_add_le by lia. bind_simp.
    rewrite (proj2 (Z.leb_gt _ _)) by lia. destruct (Z.ltb_spec base (tsizes (P ++ U) + t)); [done|].
    pose proof (IH ((P ++ U) ++ [TFree t]) Q') as IH'. rewrite last_free_app, (tsizes_app _ [_]) in IH'.
    cbn [last_free tsizes tsize] in IH'. rewrite Z.add_0_l, Z.add_0_r in IH'. apply IH'.
    + rewrite E, <- !app_assoc. done.
    + rewrite length_app in Hf. simpl in Hf. lia.
Qed.

Lemma release_overlap a W s R base n : arena_ok a (W ++ TFree s :: R) -> 0 <= base -> 0 < n ->
  base < tsizes W + s -> tsizes W < base + n ->
  release (mkFrameReservation base n) a = (Err CorruptLifecycle, a).
Proof.
  intros Ha H0 Hn Hb Hst. unfold release. cbn [r_byte_len r_base]. rewrite (proj2 (Z.eqb_neq _ _)) by lia.
  rewrite (st_bind_ok _ _ _ a a) by done.
  destruct (stop ← checked_add u32_max base n; if stop <=? wrap_unsigned 32 (arena_len a) then Some stop else None)
    as [stop|] eqn:E; [|done].
  assert (stop = base + n) as ->.
  { destruct (checked_add u32_max base n) as [t|] eqn:Et; [|done]. apply checked_add_Some in Et as [-> _]. simpl in E.
    by destruct (_ <=? _); simplify_eq. }
  rewrite (st_bind_ok _ _ _ (base + n) a) by done. destruct (_ || _); [done|].
  rewrite (st_bind_err _ _ _ CorruptLifecycle a); [done|]. unfold st_lift. rewrite (f_head _ _ Ha). f_equal.
  apply (release_loop_overlap a W s R base (base + n) Ha Hb Hst (loop_fuel a) [] W eq_refl).
  pose proof (loop_fuel_enough _ _ Ha) as Hf. rewrite length_app in Hf. simpl in Hf. lia.
Qed.

End FrameInv.

Module FrameProps.
Import Errors Frame FrameInv.

(** ** The frames of a sequence of tiles *)

Fixpoint frames_from (off : Z) (T : list tile) : gmap Z (list Z) :=
  match T with
  | [] => ∅
  | TFree s :: T => frames_from (off + s) T
  | TUsed bs :: T => <[off := bs]> (frames_from (off + Z.of_nat (length bs)) T)
  end.

Lemma frames_range off T b bs : Forall tile_ok T -> frames_from off T !! b = Some bs ->
  off <= b /\ b + Z.of_nat (length bs) <= off + tsizes T /\ 8 <= Z.of_nat (length bs).
Proof.
  intros HT. revert off. induction HT as [|[s|cs] T [Hs _] HT IH]; intros off; cbn [frames_from tsizes tsize] in *; [done| |].
  - intros ?%IH. lia.
  - rewrite lookup_insert_Some. pose proof (tsizes_pos _ HT). intros [[<- <-]|[_ ?%IH]]; lia.
Qed.

Lemma frames_before off T b : Forall tile_ok T -> b < off -> frames_from off T !! b = None.
Proof.
  intros HT Hb. destruct (frames_from off T !! b) as [bs|] eqn:E; [|done].
  apply frames_range in E; [lia|done].
Qed.

(** A frame of the map is a tile. *)
Lemma frames_split off T b bs : frames_from off T !! b = Some bs ->
  exists T1 T2, T = T1 ++ TUsed bs :: T2 /\ b = off + tsizes T1.
Proof.
  revert off. induction T as [|[s|cs] T IH]; intros off; cbn [frames_from]; [done| |].
  - intros (T1 & T2 & -> & ->)%IH. exists (TFree s :: T1), T2. split; [done|]. cbn [tsizes tsize]. lia.
  - rewrite lookup_insert_Some. intros [[<- <-]|[_ (T1 & T2 & -> & ->)%IH]].
    + exists [], T. split; [done|]. cbn [tsizes]. lia.
    + exists (TUsed cs :: T1), T2. split; [done|]. cbn [tsizes tsize]. lia.
Qed.

(** Changing the tiles behind [W] at or after their start. *)
Lemma frames_put off W X bs Y : Forall tile_ok (W ++ X) ->
  frames_from (off + tsizes W) Y = <[off + tsizes W := bs]> (frames_from (off + tsizes W) X) ->
  frames_from off (W ++ Y) = <[off + tsizes W := bs]> (frames_from off (W ++ X)).
Proof.
  revert off. induction W as [|[s|cs] W IH]; intros off HT; cbn [app tsizes]; [by rewrite Z.add_0_r| |];
    apply Forall_cons in HT as [[Ht _] HT]; cbn [tsize frames_from] in *; intros E.
  - rewrite Z.add_assoc in *. by apply IH.
  - rewrite Z.add_assoc in *. rewrite IH by done. apply Forall_app in HT as [HW _]. pose proof (tsizes_pos _ HW).
    apply insert_insert_ne. lia.
Qed.

Lemma frames_same off W X Y : frames_from (off + tsizes W) Y = frames_from (off + tsizes W) X ->
  frames_from off (W ++ Y) = frames_from off (W ++ X).
Proof.
  revert off. induction W as [|[s|cs] W IH]; intros off; cbn [app tsizes tsize frames_from]; [by rewrite Z.add_0_r| |];
    rewrite Z.add_assoc; intros E; [by apply IH|]. by rewrite IH.
Qed.

Lemma frames_coalesce off T : frames_from off (coalesce T) = frames_from off T.
Proof.
  revert off. induction T as [|t T IH]; intros off; [done|]. unfold coalesce in *. cbn [foldr].
  destruct t as [s|bs]; cbn [cons_tile frames_from]; [|by rewrite IH].
  rewrite <- IH. destruct (foldr cons_tile [] T) as [|[s'|cs] Y]; [done| |done].
  cbn [frames_from]. by rewrite Z.add_assoc.
Qed.

Lemma frames_leftover off s n R : frames_from off (leftover s n ++ R) = frames_from (off + (s - n)) R.
Proof.
  unfold leftover. destruct (Z.eqb_spec s n) as [->|]; [|done]. by rewrite Z.sub_diag, Z.add_0_r.
Qed.

Lemma sizes_coalesce T : tsizes (coalesce T) = tsizes T.
Proof.
  induction T as [|t T IH]; [done|]. unfold coalesce in *. cbn [foldr tsizes]. rewrite <- IH.
  destruct t as [s|bs]; [|done]. destruct (foldr cons_tile [] T) as [|[s'|cs] Y]; cbn [cons_tile tsizes tsize]; lia.
Qed.

(** ** The abstract arena *)

(** [cap] bytes that hold the frames [F]. *)
Definition holds (a : FrameArena) (cap : Z) (F : gmap Z (list Z)) : Prop :=
  exists T, arena_ok a T /\ tsizes T = cap /\ frames_from 0 T = F.

(** [x, x + n) lies in the arena and meets no frame. *)
Definition gap (cap : Z) (F : gmap Z (list Z)) (x n : Z) : Prop :=
  0 <= x /\ x + n <= cap /\
  forall b bs, F !! b = Some bs -> b + Z.of_nat (length bs) <= x \/ x + n <= b.

Lemma gap_smaller n x off T : Forall tile_ok T -> separated T -> Forall (smaller n) T -> 0 < n ->
  off <= x -> x + n <= off + tsizes T ->
  (forall b bs, frames_from off T !! b = Some bs -> b + Z.of_nat (length bs) <= x \/ x + n <= b) -> False.
Proof.
  intros HT. revert off. induction HT as [|t T [Ht _] HT IH]; intros off Hsep Hsm Hn Hx Hle Hd;
    cbn [tsizes] in Hle; [lia|].
  apply Forall_cons in Hsm as [Hs Hsm]. apply sep_tail in Hsep as Hsep'. pose proof (tsizes_pos _ HT).
  destruct t as [s|bs]; cbn [tsize frames_from smaller] in *.
  - destruct (Z.lt_ge_cases x (off + s)) as [Hlt|]; [|apply (IH (off + s)); try done; lia].
    destruct T as [|[s'|cs] T]; [cbn [tsizes] in *; lia|done|].
    apply Forall_cons in HT as [[Hc _] _]. cbn [tsize] in Hc.
    destruct (Hd (off + s) cs) as [?|?]; [cbn [frames_from]; by rewrite lookup_insert_eq|lia|lia].
  - destruct (Hd off bs) as [?|?]; [by rewrite lookup_insert_eq| |lia].
    apply (IH (off + Z.of_nat (length bs))); try done; [lia|]. intros b cs Hb. apply (Hd b cs).
    apply frames_range in Hb as Hr; [|done]. rewrite lookup_insert_ne by lia. done.
Qed.

Lemma gap_first W s R n : Forall tile_ok (W ++ TFree s :: R) -> 0 < n <= s ->
  gap (tsizes (W ++ TFree s :: R)) (frames_from 0 (W ++ TFree s :: R)) (tsizes W) n.
Proof.
  intros HT Hn. pose proof HT as [HW [_ HR]%Forall_cons]%Forall_app. pose proof (tsizes_pos _ HW). pose proof (tsizes_pos _ HR).
  split_and!; [done|rewrite tsizes_app; cbn [tsizes tsize]; lia|].
  intros b bs (T1 & T2 & E & ->)%frames_split. rewrite Z.add_0_l.
  apply app_eq_inv in E as [(k & EW & ER)|(k & EW & ER)].
  - left. subst W. destruct k as [|t k]; [done|]. injection ER as <- _. rewrite tsizes_app. cbn [tsizes tsize].
    apply Forall_app in HW as [_ [_ Hk]%Forall_cons]. pose proof (tsizes_pos _ Hk). lia.
  - right. subst T1. destruct k as [|t k]; [done|]. injection ER as <- ->. rewrite tsizes_app. cbn [tsizes tsize].
    apply Forall_app in HR as [Hk _]. pose proof (tsizes_pos _ Hk). lia.
Qed.

Lemma covered_or_free off T y : Forall tile_ok T -> off <= y < off + tsizes T ->
  (forall b bs, frames_from off T !! b = Some bs -> ~ (b <= y < b + Z.of_nat (length bs))) ->
  exists W s R, T = W ++ TFree s :: R /\ off + tsizes W <= y < off + tsizes W + s.
Proof.
  intros HT. revert off. induction HT as [|[s|cs] T [Ht _] HT IH]; intros off Hy Hd; cbn [tsizes tsize frames_from] in *; [lia| |].
  - destruct (Z.lt_ge_cases y (off + s)) as [Hlt|Hge].
    + exists [], s, T. split; [done|]. cbn [tsizes]. lia.
    + destruct (IH (off + s)) as (W & s' & R & -> & ?); [lia|done|]. exists (TFree s :: W), s', R.
      split; [done|]. cbn [tsizes tsize]. lia.
  - destruct (Z.lt_ge_cases y (off + Z.of_nat (length cs))) as [Hlt|Hge].
    + exfalso. apply (Hd off cs); [by rewrite lookup_insert_eq|lia].
    + destruct (IH (off + Z.of_nat (length cs))) as (W & s' & R & -> & ?); [lia| |].
      * intros b bs Hb. apply (Hd b bs). apply frames_range in Hb as Hr; [|done]. by rewrite lookup_insert_ne by lia.
      * exists (TUsed cs :: W), s', R. split; [done|]. cbn [tsizes tsize]. lia.
Qed.

Lemma new_holds cap : 0 <= cap <= u32_max -> cap mod 8 = 0 ->
  exists a, FrameArena_new cap = Ok a /\ holds a cap ∅.
Proof.
  intros Hc Hm. unfold FrameArena_new. destruct (Z.leb_spec 8 cap) as [H8|H8].
  - destruct (write_free_ok (mkFrameArena (replicate (Z.to_nat cap) 0) (Some 0)) 0 None cap)
      as (a & -> & Hw & Hk & Hh); [lia|unfold arena_len; simpl; rewrite length_replicate; lia..|].
    exists a. split; [done|]. exists [TFree cap]. cbn [tsizes tsize frames_from]. split_and!; [|lia|done].
    assert (El : arena_len a = cap) by (rewrite (w_len _ _ _ _ Hw); unfold arena_len; simpl; rewrite length_replicate; lia).
    constructor; cbn [tsizes tsize]; try done; [lia|lia|by repeat constructor].
  - assert (cap = 0) as ->. { apply Z.mod_divide in Hm as [x ->]; lia. }
    eexists. split; [done|]. exists []. split_and!; [|done..]. by constructor.
Qed.

Lemma push_holds a cap F layout : holds a cap F -> 0 <= fl_byte_len layout ->
  let n := rounded (fl_byte_len layout) in
  (n = 0 /\ push layout a = (Ok (mkFrameReservation 0 0), a)) \/
  (0 < n /\ push layout a = (Err InvalidStoragePlan, a) /\ forall x, ~ gap cap F x n) \/
  (0 < n /\ exists base a', push layout a = (Ok (mkFrameReservation base n), a') /\ gap cap F base n /\
     holds a' cap (<[base := replicate (Z.to_nat n) 0]> F)).
Proof.
  intros (T & Ha & <- & <-) Hb n. pose proof (push_ok a T layout Ha Hb) as Hp. cbn zeta in Hp. fold n in Hp.
  pose proof Ha as [Elen Hmax HT Hsep _ _]. pose proof (tsizes_mod _ HT) as HTm.
  assert (Hn : 0 <= n /\ fl_byte_len layout <= n < fl_byte_len layout + 8 /\ n mod 8 = 0).
  { unfold n, rounded. pose proof (Z.div_mod (fl_byte_len layout + 7) 8). pose proof (Z.mod_pos_bound (fl_byte_len layout + 7) 8).
    rewrite Z.mod_mul by done. lia. }
  destruct Hn as (Hn0 & Hn & Hnm). destruct (Z.ltb_spec u32_max (fl_byte_len layout + 7)) as [Hov|Hov].
  { right. left. unfold u32_max in *. split_and!; [lia|done|]. intros x (? & Hle & _).
    apply Z.mod_divide in HTm as [k Hk]; [|done]. lia. }
  destruct (Z.eqb_spec n 0) as [E0|Hne]; [by left|right].
  destruct (first_fit 0 T n) as [[base T']|] eqn:E.
  - right. split; [lia|]. destruct Hp as (a' & Hrun & Ha'). exists base, a'. split; [done|].
    pose proof (first_fit_inv 0 T n) as Hi. rewrite E in Hi. destruct Hi as (W & s & R & -> & HW & Hs).
    rewrite first_fit_some, Z.add_0_l in E by done. injection E as <- <-.
    split; [apply gap_first; [done|lia]|]. exists (W ++ TUsed (replicate (Z.to_nat n) 0) :: leftover s n ++ R).
    split_and!; [done| |].
    + rewrite !tsizes_app. cbn [tsizes]. rewrite tsizes_app, tsizes_leftover. cbn [tsize]. rewrite length_replicate. lia.
    + rewrite <- (Z.add_0_l (tsizes W)). apply frames_put; [done|]. cbn [frames_from].
      rewrite length_replicate, Z2Nat.id, frames_leftover by lia. do 2 f_equal. lia.
  - left. split_and!; [lia|done|]. intros x (? & ? & Hd). apply (gap_smaller n x 0 T); try done; [|lia].
    pose proof (first_fit_inv 0 T n) as Hi. by rewrite E in Hi.
Qed.

Lemma pop_holds a cap F b bs : holds a cap F -> F !! b = Some bs ->
  exists a', pop (mkFrameReservation b (Z.of_nat (length bs))) a = (Ok tt, a') /\ holds a' cap (delete b F).
Proof.
  intros (T & Ha & <- & <-) (T1 & T2 & -> & ->)%frames_split. rewrite Z.add_0_l.
  destruct (frame_release_ok a T1 bs T2 Ha) as (a' & Hrun & Ha'). exists a'. split; [done|].
  exists (coalesce (T1 ++ TFree (Z.of_nat (length bs)) :: T2)). pose proof (f_tiles _ _ Ha) as HT.
  split_and!; [done|by rewrite sizes_coalesce, !tsizes_app|]. rewrite frames_coalesce.
  rewrite <- (Z.add_0_l (tsizes T1)) at 1. pose proof HT as [HT1 [[Hb _] HT2]%Forall_cons]%Forall_app. cbn [tsize] in Hb.
  assert (E : frames_from 0 (T1 ++ TUsed bs :: T2) =
    <[0 + tsizes T1 := bs]> (frames_from 0 (T1 ++ TFree (Z.of_nat (length bs)) :: T2))).
  { apply frames_put; [|done]. apply Forall_app. split; [done|]. constructor; [|done].
    apply Forall_app in HT as [_ [? _]%Forall_cons]. done. }
  rewrite E, delete_insert_id; [done|].
  destruct (frames_from 0 (T1 ++ TFree (Z.of_nat (length bs)) :: T2) !! (0 + tsizes T1)) as [cs|] eqn:El; [|done].
  exfalso. apply frames_split in El as (U1 & U2 & EU & Es). apply app_eq_inv in EU as [(k & E1 & E2)|(k & E1 & E2)].
  - destruct k as [|t k]; [done|]. injection E2 as <- _. subst T1. apply Forall_app in HT1 as [_ [[Hc _] Hk]%Forall_cons].
    pose proof (tsizes_pos _ Hk). rewrite tsizes_app in Es. cbn [tsizes tsize] in *. lia.
  - destruct k as [|t k]; [done|]. injection E2 as <- ->. subst U1. apply Forall_app in HT2 as [Hk _].
    pose proof (tsizes_pos _ Hk). rewrite tsizes_app in Es. cbn [tsizes tsize] in *. lia.
Qed.

Lemma pop_refused a cap F b n y : holds a cap F -> 0 <= b -> b <= y < b + n ->
  (cap <= y \/ forall b' bs, F !! b' = Some bs -> ~ (b' <= y < b' + Z.of_nat (length bs))) ->
  pop (mkFrameReservation b n) a = (Err CorruptLifecycle, a).
Proof.
  intros (T & Ha & <- & <-) Hb Hy Hun. pose proof Ha as [Elen Hmax HT _ _ _]. pose proof (tsizes_pos _ HT).
  destruct (Z.lt_ge_cases y (tsizes T)) as [Hlt|Hge].
  - destruct Hun as [?|Hun]; [lia|]. destruct (covered_or_free 0 T y) as (W & s & R & -> & Hw); [done|lia|done|].
    unfold pop. apply (release_overlap a W s R); try done; lia.
  - unfold pop, release. cbn [r_byte_len r_base]. rewrite (proj2 (Z.eqb_neq _ _)) by lia.
    rewrite (st_bind_ok _ _ _ a a) by done. rewrite (st_bind_err _ _ _ CorruptLifecycle a); [done|].
    unfold st_lift. f_equal. destruct (checked_add u32_max b n) as [t|] eqn:Et; [|done].
    apply checked_add_Some in Et as [-> _]. simpl. unfold wrap_unsigned, u32_max in *. rewrite Z.mod_small by lia.
    by rewrite (proj2 (Z.leb_gt _ _)) by lia.
Qed.

Lemma holds_disjoint a cap F b bs : holds a cap F -> F !! b = Some bs -> gap cap (delete b F) b (Z.of_nat (length bs)).
Proof.
  intros (T & Ha & <- & <-) Hb. pose proof (f_tiles _ _ Ha) as HT. pose proof (frames_range _ _ _ _ HT Hb) as Hr.
  apply frames_split in Hb as (T1 & T2 & -> & ->). rewrite Z.add_0_l in *. split_and!; [lia|lia|].
  intros b' bs' [Hne (U1 & U2 & E & ->)%frames_split]%lookup_delete_Some. rewrite Z.add_0_l in *.
  apply Forall_app in HT as [HT1 [_ HT2]%Forall_cons]. apply app_eq_inv in E as [(k & E1 & E2)|(k & E1 & E2)].
  - subst T1. destruct k as [|t k]; [by rewrite app_nil_r in Hne|]. injection E2 as <- _.
    apply Forall_app in HT1 as [_ [_ Hk]%Forall_cons]. pose proof (tsizes_pos _ Hk). left.
    rewrite tsizes_app. cbn [tsizes tsize]. lia.
  - subst U1. destruct k as [|t k]; [by rewrite app_nil_r in Hne|]. injection E2 as <- ->.
    apply Forall_app in HT2 as [Hk _]. pose proof (tsizes_pos _ Hk). right.
    rewrite tsizes_app. cbn [tsizes tsize]. lia.
Qed.

(** C16. The frame arena implements a map of frames.  A new arena of an admissible
    size holds no frame.  A push of a layout takes the size rounded up to eight
    bytes: it returns a range that no frame meets and adds a frame of zeros there,
    or it fails without effect exactly when no such range exists; an empty layout
    takes nothing.  A pop of a frame removes it and no other; a pop of a range with
    a byte that belongs to no frame, such as a second pop of the same frame, is
    refused without effect.  The frames held never overlap. *)
Theorem frame_arena_refines :
  (forall cap, 0 <= cap <= u32_max -> cap mod 8 = 0 -> exists a, FrameArena_new cap = Ok a /\ holds a cap ∅) /\
  (forall a cap F, holds a cap F ->
    (forall layout, 0 <= fl_byte_len layout ->
      let n := rounded (fl_byte_len layout) in
      (n = 0 /\ push layout a = (Ok (mkFrameReservation 0 0), a)) \/
      (0 < n /\ push layout a = (Err InvalidStoragePlan, a) /\ forall x, ~ gap cap F x n) \/
      (0 < n /\ exists base a', push layout a = (Ok (mkFrameReservation base n), a') /\ gap cap F base n /\
         holds a' cap (<[base := replicate (Z.to_nat n) 0]> F))) /\
    (forall b bs, F !! b = Some bs ->
      exists a', pop (mkFrameReservation b (Z.of_nat (length bs))) a = (Ok tt, a') /\ holds a' cap (delete b F)) /\
    (forall b n y, 0 <= b -> b <= y < b + n ->
      (cap <= y \/ forall b' bs, F !! b' = Some bs -> ~ (b' <= y < b' + Z.of_nat (length bs))) ->
      pop (mkFrameReservation b n) a = (Err CorruptLifecycle, a)) /\
    (forall b bs, F !! b = Some bs -> gap cap (delete b F) b (Z.of_nat (length bs)))).
Proof.
  split; [exact new_holds|]. intros a cap F Ha. split_and!.
  - intros layout Hl. by apply push_holds.
  - intros b bs Hb. by eapply pop_holds.
  - intros b n y Hb Hy Hun. by eapply pop_refused.
  - intros b bs Hb. by eapply holds_disjoint.
Qed.

Lemma frame_arena_refines_witness : exists a base a' a'',
  FrameArena_new 64 = Ok a /\ push (mkFrameLayout 20 4 []) a = (Ok (mkFrameReservation base 24), a') /\
  pop (mkFrameReservation base 24) a' = (Ok tt, a'') /\
  pop (mkFrameReservation base 24) a'' = (Err CorruptLifecycle, a'').
Proof.
  destruct frame_arena_refines as [Hnew Hops]. destruct (Hnew 64) as (a & Ha & H0); [vm_compute; split; discriminate|reflexivity|].
  destruct (proj1 (Hops a 64 ∅ H0) (mkFrameLayout 20 4 [])) as [[Hz _]|[(_ & _ & Hno)|(_ & base & a' & Hpush & Hgap & H1)]].
  - discriminate.
  - discriminate Hz.
  - exfalso. apply (Hno 0). split; [lia|]. split; [vm_compute; discriminate|]. intros b bs Hb. discriminate Hb.
  - destruct (Hops a' 64 _ H1) as (_ & Hpop & _).
    destruct (Hpop base (replicate 24 0) (lookup_insert_eq _ _ _)) as (a'' & Hp & H2).
    exists a, base, a', a''. split; [exact Ha|]. split; [exact Hpush|]. split; [exact Hp|].
    destruct (Hops a'' 64 _ H2) as (_ & _ & Href & _). destruct Hgap as (Hb & Hle & _).
    apply (Href base 24 base); [exact Hb|lia|]. right. intros b' bs Hb'. rewrite delete_insert_id in Hb' by reflexivity. discriminate Hb'.
Defined.

End FrameProps.
