(* ===== verification/FrameValues.v ===== *)
(** Typed values in frames: derived layouts give every component bytes of its
    own, and what is written to a value is read back from it and from nothing
    else. *)

From S2P Require Import Prelude Words Errors Value Frame FrameProps.

Module FrameValues.
Import Errors Frame FrameInv FrameProps.

(** ** Derived layouts *)

(** Components in address order, from [lo] to [hi]. *)
Fixpoint ordered (lo hi : Z) (cs : list ComponentLayout) : Prop :=
  match cs with
  | [] => lo <= hi
  | c :: cs => lo <= c_offset c /\ c_offset c mod alignment_of (c_atom c) = 0 /\
      ordered (c_offset c + byte_size (c_atom c)) hi cs
  end.

Lemma byte_size_pos a : 0 < byte_size a.
Proof. by destruct a. Qed.

Lemma ordered_app lo hi cs ds : ordered lo hi (cs ++ ds) <-> exists mid, ordered lo mid cs /\ ordered mid hi ds.
Proof.
  revert lo. induction cs as [|c cs IH]; intros lo; cbn [app ordered].
  - split; [intros H; by exists lo|]. intros (mid & Hle & H). destruct ds as [|d ds]; cbn [ordered] in *; [lia|].
    destruct H as (? & ? & ?). split_and!; [lia|done|done].
  - rewrite IH. naive_solver.
Qed.

Lemma ordered_le lo hi cs : ordered lo hi cs -> lo <= hi.
Proof.
  revert lo. induction cs as [|c cs IH]; intros lo; cbn [ordered]; [done|]. intros (? & _ & ?%IH).
  pose proof (byte_size_pos (c_atom c)). lia.
Qed.

Lemma ordered_in lo hi cs c : ordered lo hi cs -> c ∈ cs ->
  lo <= c_offset c /\ c_offset c + byte_size (c_atom c) <= hi.
Proof.
  intros H [i Hi]%list_elem_of_lookup_1. rewrite <- (take_drop_middle _ _ _ Hi) in H.
  apply ordered_app in H as (mid & H1 & H2 & _ & H3). apply ordered_le in H1, H3. lia.
Qed.

(** Alignments are 1, 4 or 8. *)
Definition is_alignment (al : Z) : Prop := exists k, al = 2 ^ k /\ 0 <= k <= 3.

Lemma atom_alignment a : is_alignment (alignment_of a).
Proof. destruct a; [exists 2|exists 3|exists 2|exists 3|exists 2]; split; done || lia. Qed.

Lemma max_alignment a b : is_alignment a -> is_alignment b -> is_alignment (Z.max a b).
Proof. intros. destruct (Z.max_spec a b) as [[_ ->]|[_ ->]]; done. Qed.

Lemma align_ok v al r : 0 <= v -> is_alignment al -> align v al = Ok r -> v <= r /\ r mod al = 0.
Proof.
  intros Hv (k & -> & Hk). unfold align. destruct (checked_add u32_max v (2 ^ k - 1)) as [s|] eqn:E; [|done].
  apply checked_add_Some in E as [-> Hm]. intros [= <-].
  replace (u32_max - (2 ^ k - 1)) with (2 ^ 32 - 2 ^ k) by (unfold u32_max; lia).
  pose proof (Z.pow_pos_nonneg 2 k). rewrite land_high_mask by (unfold u32_max in *; lia).
  pose proof (Z.mod_pos_bound (v + (2 ^ k - 1)) (2 ^ k)). split; [lia|].
  rewrite Zminus_mod_idemp_r, Z.sub_diag. apply Zmod_0_l.
Qed.

Lemma place_atoms_ok atoms : forall off fa off' fa' cs, 0 <= off -> is_alignment fa ->
  place_atoms off fa atoms = Ok (off', fa', cs) -> ordered off off' cs /\ map c_atom cs = atoms /\ is_alignment fa'.
Proof.
  induction atoms as [|a atoms IH]; intros off fa off' fa' cs Ho Hfa; cbn [place_atoms].
  - intros [= <- <- <-]. split; [|done]. simpl. lia.
  - intros (o & Ea & H)%outcome_bind_inv. apply align_ok in Ea as [Hle Hm]; [|done|apply atom_alignment].
    apply outcome_bind_inv in H as (next & En & H). apply ok_or_ok, checked_add_Some in En as [-> _].
    apply outcome_bind_inv in H as ([[stop fa2] rest] & Hr & [= <- <- <-]). pose proof (byte_size_pos a).
    apply IH in Hr as (? & <- & ?); [|lia|apply max_alignment; [done|apply atom_alignment]].
    split_and!; done.
Qed.

Lemma place_values_ok values : forall off fa off' fa' ls, 0 <= off -> is_alignment fa ->
  place_values off fa values = Ok (off', fa', ls) ->
  ordered off off' (concat ls) /\ map (map c_atom) ls = values /\ is_alignment fa'.
Proof.
  induction values as [|v values IH]; intros off fa off' fa' ls Ho Hfa; cbn [place_values].
  - intros [= <- <- <-]. split; [|done]. simpl. lia.
  - intros ([[o fa2] cs] & Ha & H)%outcome_bind_inv. apply place_atoms_ok in Ha as (Ha & Ea & Hfa2); [|done..].
    apply outcome_bind_inv in H as ([[o2 fa3] rest] & Hr & [= <- <- <-]). pose proof (ordered_le _ _ _ Ha).
    apply IH in Hr as (Hr & Er & ?); [|lia|done]. cbn [concat map]. rewrite Ea, Er. split_and!; [|done|done].
    apply ordered_app. by exists o.
Qed.

(** What a layout promises: components of their own, inside the frame. *)
Definition layout_ok (layout : FrameLayout) : Prop :=
  exists hi, hi <= fl_byte_len layout /\ ordered 0 hi (concat (fl_values layout)).

Lemma derive_ok values layout : derive values = Ok layout ->
  layout_ok layout /\ map (map c_atom) (fl_values layout) = values /\ 0 <= fl_byte_len layout.
Proof.
  unfold derive. intros ([[off fa] ls] & Hp & H)%outcome_bind_inv.
  apply place_values_ok in Hp as (Ho & Ev & Hfa); [|lia|exists 0; split; done || lia].
  apply outcome_bind_inv in H as (len & Hl & [= <-]). pose proof (ordered_le _ _ _ Ho).
  apply align_ok in Hl as [Hle _]; [|done..]. cbn [fl_values fl_byte_len]. split_and!; [|done|lia].
  exists off. done.
Qed.

Lemma ordered_disjoint lo hi ls i j vi vj c d : ordered lo hi (concat ls) ->
  ls !! i = Some vi -> ls !! j = Some vj -> (i < j)%nat -> c ∈ vi -> d ∈ vj ->
  c_offset c + byte_size (c_atom c) <= c_offset d.
Proof.
  intros Ho Hi Hj Hlt Hc Hd. rewrite <- (take_drop_middle _ _ _ Hi), concat_app in Ho. cbn [concat] in Ho.
  apply ordered_app in Ho as (m1 & _ & Ho). apply ordered_app in Ho as (m2 & H1 & H2).
  apply (ordered_in _ _ _ _ H1) in Hc. enough (d ∈ concat (drop (S i) ls)) as Hin by (apply (ordered_in _ _ _ _ H2) in Hin; lia).
  apply list_elem_of_In, in_concat. exists vj. split; [|by apply list_elem_of_In].
  apply list_elem_of_In, (list_elem_of_lookup_2 _ (j - S i)). rewrite lookup_drop. by replace (S i + (j - S i))%nat with j by lia.
Qed.

(** ** Values *)

Definition value_ok (v : Value.RuntimeValue) : Prop :=
  match v with
  | Value.I32 v => - 2 ^ 31 <= v < 2 ^ 31
  | Value.I64 v => - 2 ^ 63 <= v < 2 ^ 63
  | Value.F32 b => 0 <= b < 2 ^ 32
  | Value.F64 b => 0 <= b < 2 ^ 64
  | Value.Bool _ => True
  | Value.Char c => 0 <= c <= u16_max
  | Value.Null => True
  | Value.Reference r => 0 < Value.to_bits r < 2 ^ 32
  end.

Section Component.
Context (a : FrameArena) (base : Z) (c : ComponentLayout) (bs : list Z).
Context (Hbase : 0 <= base) (Hoff : 0 <= c_offset c) (Hmax : arena_len a <= u32_max).
Context (Hlen : Z.of_nat (length bs) = byte_size (c_atom c)) (Hk : knows a (base + c_offset c) bs).

Lemma component_end : base + c_offset c + byte_size (c_atom c) <= arena_len a.
Proof using All.
  destruct (knows_range a (base + c_offset c) bs) as [?|Hn]; [lia|done|lia|].
  rewrite Hn in Hlen. pose proof (byte_size_pos (c_atom c)). simpl in Hlen. lia.
Qed.

Lemma component_range_ok : component_range a base c = Ok (base + c_offset c, base + c_offset c + byte_size (c_atom c)).
Proof using All.
  pose proof component_end. pose proof (byte_size_pos (c_atom c)). unfold component_range, usize_max, u32_max in *. eval_pow.
  rewrite checked_add_le by lia. bind_simp. rewrite checked_add_le by lia. bind_simp.
  by rewrite (proj2 (Z.leb_le _ _)) by lia.
Qed.

Lemma read_range_ok : read_range (byte_size (c_atom c)) a base c = Ok bs.
Proof using All.
  unfold read_range. rewrite component_range_ok. bind_simp.
  replace (base + c_offset c + byte_size (c_atom c) - (base + c_offset c)) with (byte_size (c_atom c)) by lia.
  rewrite Z.eqb_refl, <- Hlen. by f_equal.
Qed.

Lemma read_typed n at_ : byte_size at_ = n ->
  (c ← ok_or (with_atom at_ (Some c)) InvalidValueType; read_range n a base c) =
  if decide (c_atom c = at_) then Ok bs else Err InvalidValueType.
Proof using All.
  intros <-. unfold with_atom. bind_simp. destruct (decide (c_atom c = at_)) as [<-|]; [|done]. bind_simp. apply read_range_ok.
Qed.

(** A read depends on the bytes of the component only. *)
Lemma read_access_bytes kind : read_access a base (mkAccess kind (Some c)) =
  let word at_ (f : list Z -> outcome VmFault Value.RuntimeValue) :=
    if decide (c_atom c = at_) then f bs else Err InvalidValueType in
  if kind =? 1 then word AI32 (fun bs => Ok (Value.I32 (wrap_signed 32 (le_val bs))))
  else if kind =? 2 then word AI64 (fun bs => Ok (Value.I64 (wrap_signed 64 (le_val bs))))
  else if kind =? 3 then word AF32 (fun bs => Ok (Value.F32 (le_val bs)))
  else if kind =? 4 then word AF64 (fun bs => Ok (Value.F64 (le_val bs)))
  else if kind =? 5 then word AI32 (fun bs =>
    let v := wrap_signed 32 (le_val bs) in
    if v =? 0 then Ok (Value.Bool false) else if v =? 1 then Ok (Value.Bool true) else Err InvalidValueType)
  else if kind =? 6 then word AI32 (fun bs =>
    ok_or (Value.Char <$> try_from_unsigned u16_max (wrap_signed 32 (le_val bs))) InvalidValueType)
  else if kind =? 7 then word ARef32 (fun bs => Ok (reference_value (Value.from_bits (le_val bs))))
  else Err InvalidValueType.
Proof using All.
  unfold read_access, read4_access, read8_access. cbn [a_kind a_component]. rewrite !read_typed by done.
  destruct (decide (c_atom c = AI32)), (decide (c_atom c = AI64)), (decide (c_atom c = AF32)),
    (decide (c_atom c = AF64)), (decide (c_atom c = ARef32)); done.
Qed.
End Component.

(** Two arenas that hold the same bytes for a component. *)
Lemma read_access_same a a' base base' c bs kind : 0 <= base -> 0 <= base' -> 0 <= c_offset c ->
  arena_len a <= u32_max -> arena_len a' <= u32_max -> Z.of_nat (length bs) = byte_size (c_atom c) ->
  knows a (base + c_offset c) bs -> knows a' (base' + c_offset c) bs ->
  read_access a' base' (mkAccess kind (Some c)) = read_access a base (mkAccess kind (Some c)).
Proof. intros. by rewrite !(read_access_bytes _ _ c bs). Qed.

Lemma physical_length p : Z.of_nat (length (physical_bytes p)) = byte_size (atom p).
Proof. destruct p; cbn [physical_bytes]; by rewrite le_bytes_length. Qed.

Lemma word_roundtrip w n v : 0 < w -> w = 8 * Z.of_nat n -> - 2 ^ (w - 1) <= v < 2 ^ (w - 1) ->
  wrap_signed w (le_val (le_bytes n (wrap_unsigned w v))) = v.
Proof.
  intros Hw En Hv. assert (E : 256 ^ Z.of_nat n = 2 ^ w) by (rewrite En, Z.pow_mul_r by lia; done).
  pose proof (Z.pow_pos_nonneg 2 w ltac:(lia) ltac:(lia)).
  rewrite le_val_bytes_small by (rewrite E; apply Z.mod_pos_bound; lia).
  transitivity (wrap_signed w v); [|by apply wrap_signed_id].
  apply wrap_signed_ext. unfold wrap_unsigned. by rewrite Z.mod_mod by lia.
Qed.

(** A stored value is read back. *)
Lemma read_stored a base c kind v p : 0 <= base -> 0 <= c_offset c -> arena_len a <= u32_max ->
  value_ok v -> physical_of kind v = Some p -> atom p = c_atom c -> knows a (base + c_offset c) (physical_bytes p) ->
  read_access a base (mkAccess kind (Some c)) = Ok v.
Proof.
  intros Hb Ho Hm Hv Hp Ha Hk. rewrite (read_access_bytes a base c (physical_bytes p)); try done; [|by rewrite physical_length, Ha].
  clear Hk. destruct v; cbn [physical_of value_ok] in *;
    match type of Hp with context [kind =? ?n] => destruct (Z.eqb_spec kind n) as [->|]; [|done] end; injection Hp as <-; cbn [atom] in Ha; rewrite <- Ha; cbn [Z.eqb Pos.eqb].
  - rewrite decide_True by done. cbn [physical_bytes]. by rewrite word_roundtrip.
  - rewrite decide_True by done. cbn [physical_bytes]. by rewrite word_roundtrip.
  - rewrite decide_True by done. cbn [physical_bytes]. by rewrite le_val_bytes_small.
  - rewrite decide_True by done. cbn [physical_bytes]. by rewrite le_val_bytes_small.
  - rewrite decide_True by done. cbn [physical_bytes]. rewrite word_roundtrip by (done || by destruct v). by destruct v.
  - rewrite decide_True by done. cbn [physical_bytes]. unfold u16_max in *. rewrite word_roundtrip by (done || lia).
    unfold try_from_unsigned, in_range, u16_max. by rewrite !(proj2 (Z.leb_le _ _)) by lia.
  - rewrite decide_True by done. done.
  - rewrite decide_True by done. cbn [physical_bytes]. rewrite le_val_bytes_small by (change (256 ^ Z.of_nat 4) with (2 ^ 32); lia).
    unfold Value.from_bits. rewrite (proj2 (Z.eqb_neq _ _)) by lia. by destruct r.
Qed.

(** ** Writes *)

Lemma splice_len {A} (bs l : list A) off : 0 <= off -> off + Z.of_nat (length bs) <= Z.of_nat (length l) ->
  Z.of_nat (length (splice off bs l)) = Z.of_nat (length l).
Proof. intros. by rewrite splice_length. Qed.

(** Overwriting a part of a frame. *)
Lemma store_holds a cap F b bs off new : holds a cap F -> F !! b = Some bs -> 0 <= off ->
  off + Z.of_nat (length new) <= Z.of_nat (length bs) ->
  holds (set_bytes (splice (b + off) new (bytes a)) a) cap (<[b := splice off new bs]> F).
Proof.
  intros (T & Ha & <- & <-) (T1 & T2 & -> & ->)%frames_split Ho Hle. rewrite Z.add_0_l.
  pose proof Ha as [Elen Hmax HT Hsep Hh Hl]. pose proof HT as [HT1 [[Hb Hbm] HT2]%Forall_cons]%Forall_app. cbn [tsize] in Hb, Hbm.
  pose proof (tsizes_pos _ HT1). pose proof (tsizes_pos _ HT2). pose proof Elen as Elen'. rewrite tsizes_app in Elen'. cbn [tsizes tsize] in Elen'.
  pose proof (splice_len new bs off Ho Hle) as Es.
  destruct (splice_rewrote a (tsizes T1 + off) new) as [Hw _]; [lia|lia|].
  exists (T1 ++ TUsed (splice off new bs) :: T2). split_and!.
  - apply links_app in Hl as (Hl1 & Hk & Hl2). rewrite first_free_app in Hh. rewrite Z.add_0_l in *.
    cbn [first_free links tile_bytes tsize] in *. constructor.
    + rewrite (w_len _ _ _ _ Hw), Elen, !tsizes_app. cbn [tsizes tsize]. by rewrite Es.
    + by rewrite (w_len _ _ _ _ Hw).
    + apply Forall_app. split; [done|]. constructor; [|done]. split; cbn [tsize]; by rewrite Es.
    + apply sep_used in Hsep. by apply sep_used.
    + rewrite first_free_app. cbn [first_free tsize]. rewrite Z.add_0_l, Es. exact Hh.
    + apply links_app. rewrite Z.add_0_l. cbn [first_free links tile_bytes tsize]. rewrite Es. split_and!.
      * apply (links_rewrote _ _ _ _ _ _ _ Hw); [done|lia|lia|done].
      * unfold knows in *. cbn [bytes set_bytes]. rewrite Es, slice_splice_in by (unfold arena_len in *; lia). by rewrite Hk.
      * apply (links_rewrote _ _ _ _ _ _ _ Hw); [done|lia|lia|done].
  - rewrite !tsizes_app. cbn [tsizes tsize]. by rewrite Es.
  - rewrite <- (Z.add_0_l (tsizes T1)). apply frames_put; [done|]. cbn [frames_from]. rewrite Es. by rewrite insert_insert_eq.
Qed.

(** What the arena holds for a frame. *)
Lemma holds_knows a cap F b bs : holds a cap F -> F !! b = Some bs ->
  knows a b bs /\ 0 <= b /\ arena_len a <= u32_max.
Proof.
  intros (T & Ha & <- & <-) Hb. pose proof (frames_range _ _ _ _ (f_tiles _ _ Ha) Hb).
  apply frames_split in Hb as (T1 & T2 & -> & ->). split_and!; [|lia|by eapply f_max].
  apply f_links, links_app in Ha as (_ & Hk & _). done.
Qed.

Lemma knows_part a b bs off n : knows a b bs -> 0 <= b -> 0 <= off -> 0 <= n -> off + n <= Z.of_nat (length bs) ->
  knows a (b + off) (slice off n bs).
Proof.
  intros Hk Hb Ho Hn Hle. unfold knows in *. rewrite slice_length by lia. rewrite Z2Nat.id by lia.
  by rewrite (slice_slice _ b (Z.of_nat (length bs))), Hk by lia.
Qed.

Lemma read_frame a a' cap cap' F F' b b' bs bs' c kind : holds a cap F -> holds a' cap' F' ->
  F !! b = Some bs -> F' !! b' = Some bs' -> 0 <= c_offset c -> c_offset c + byte_size (c_atom c) <= Z.of_nat (length bs) ->
  Z.of_nat (length bs') = Z.of_nat (length bs) ->
  slice (c_offset c) (byte_size (c_atom c)) bs' = slice (c_offset c) (byte_size (c_atom c)) bs ->
  read_access a' b' (mkAccess kind (Some c)) = read_access a b (mkAccess kind (Some c)).
Proof.
  intros Ha Ha' Hb Hb' Ho Hle El Es. pose proof (byte_size_pos (c_atom c)).
  apply (holds_knows _ _ _ _ _ Ha) in Hb as (Hk & ? & ?). apply (holds_knows _ _ _ _ _ Ha') in Hb' as (Hk' & ? & ?).
  eapply (read_access_same a a' b b' c (slice (c_offset c) (byte_size (c_atom c)) bs)); try done.
  - rewrite slice_length by lia. lia.
  - apply knows_part; try done; lia.
  - rewrite <- Es. apply knows_part; try done; lia.
Qed.

Lemma value_access_component layout kind i c : value_access layout kind i = mkAccess kind (Some c) ->
  exists v, fl_values layout !! Z.to_nat i = Some v /\ c ∈ v.
Proof.
  unfold value_access, zget. destruct (fl_values layout !! Z.to_nat i) as [v|]; [|done]. intros [= E].
  exists v. split; [done|]. destruct v; [done|]. injection E as ->. apply list_elem_of_here.
Qed.

Lemma write_access_ok a cap F b bs c kind v p : holds a cap F -> F !! b = Some bs -> 0 <= c_offset c ->
  c_offset c + byte_size (c_atom c) <= Z.of_nat (length bs) -> value_ok v -> physical_of kind v = Some p ->
  atom p = c_atom c ->
  exists a', write_access b (mkAccess kind (Some c)) v a = (Ok tt, a') /\
    holds a' cap (<[b := splice (c_offset c) (physical_bytes p) bs]> F) /\
    read_access a' b (mkAccess kind (Some c)) = Ok v.
Proof.
  intros Ha Hb Ho Hle Hv Hp Hat. destruct (holds_knows _ _ _ _ _ Ha Hb) as (Hk & Hb0 & Hm). pose proof (byte_size_pos (c_atom c)).
  pose proof (physical_length p) as Hl. rewrite Hat in Hl.
  assert (Hkc : knows a (b + c_offset c) (slice (c_offset c) (byte_size (c_atom c)) bs)) by (apply knows_part; done || lia).
  pose proof (store_holds a cap F b bs (c_offset c) (physical_bytes p) Ha Hb Ho ltac:(lia)) as Ha'.
  eexists. split; [|split; [exact Ha'|]].
  - unfold write_access. cbn [a_kind a_component]. rewrite Hp, (st_bind_ok _ _ _ p a) by done.
    unfold with_atom. rewrite Hat. bind_simp. rewrite decide_True by done. rewrite (st_bind_ok _ _ _ c a) by done.
    rewrite (st_bind_ok _ _ _ (b + c_offset c, b + c_offset c + byte_size (c_atom c)) a).
    2: { unfold st_read. rewrite (component_range_ok a b c (slice (c_offset c) (byte_size (c_atom c)) bs)); try done.
         rewrite slice_length by lia. lia. }
    unfold store_range. cbn [fst snd]. by rewrite (proj2 (Z.eqb_eq _ _)) by lia.
  - destruct (holds_knows _ _ _ b _ Ha' (lookup_insert_eq _ _ _)) as (Hk' & _ & Hm').
    apply (read_stored _ b c kind v p); try done. unfold knows. cbn [bytes set_bytes].
    apply slice_splice_eq; [lia|]. destruct (knows_range a b bs) as [Hr|Hn]; [done|done| |].
    + unfold arena_len in Hr. lia.
    + rewrite Hn in Hle. simpl in Hle. lia.
Qed.

(** C17. Values in frames do not disturb each other.  In a frame that has room for
    a derived layout, a value of the right type written to a register is read back
    as it was; the other registers of the frame and the registers of every other
    frame read as before, whatever their type; the arena still holds the same
    frames.  A value whose type does not match the register is refused without
    effect. *)
Theorem frame_values_roundtrip (values : list (list PhysicalAtom)) (layout : FrameLayout)
    (a : FrameArena) (cap : Z) (F : gmap Z (list Z)) (b : Z) (bs : list Z) (kind i : Z) (c : ComponentLayout)
    (v : Value.RuntimeValue) :
  derive values = Ok layout -> holds a cap F -> F !! b = Some bs -> fl_byte_len layout <= Z.of_nat (length bs) ->
  0 <= i -> value_access layout kind i = mkAccess kind (Some c) -> value_ok v ->
  if decide (atom <$> physical_of kind v = Some (c_atom c)) then
    exists a' bs', write_access b (value_access layout kind i) v a = (Ok tt, a') /\
      holds a' cap (<[b := bs']> F) /\ length bs' = length bs /\
      read_access a' b (value_access layout kind i) = Ok v /\
      (forall k j, 0 <= j -> j <> i ->
         read_access a' b (value_access layout k j) = read_access a b (value_access layout k j)) /\
      (forall b2 bs2 k d, b2 <> b -> F !! b2 = Some bs2 -> 0 <= c_offset d ->
         c_offset d + byte_size (c_atom d) <= Z.of_nat (length bs2) ->
         read_access a' b2 (mkAccess k (Some d)) = read_access a b2 (mkAccess k (Some d)))
  else write_access b (value_access layout kind i) v a = (Err InvalidValueType, a).
Proof.
  intros Hd Ha Hb Hlen Hi Hacc Hv. destruct (derive_ok _ _ Hd) as ((hi & Hhi & Hord) & _ & _).
  destruct (value_access_component _ _ _ _ Hacc) as (vi & Hvi & Hc). rewrite Hacc.
  assert (Hin : forall v' d, v' ∈ fl_values layout -> d ∈ v' -> 0 <= c_offset d /\ c_offset d + byte_size (c_atom d) <= Z.of_nat (length bs)).
  { intros v' d Hv' Hdv. assert (d ∈ concat (fl_values layout)) as Hdc.
    { apply list_elem_of_In, in_concat. exists v'. split; by apply list_elem_of_In. }
    apply (ordered_in _ _ _ _ Hord) in Hdc. lia. }
  destruct (Hin vi c) as [Hco Hce]; [by eapply list_elem_of_lookup_2|done|].
  destruct (physical_of kind v) as [p|] eqn:Hp; cbn [fmap option_fmap option_map].
  2: { unfold write_access. cbn [a_kind a_component]. by rewrite decide_False, Hp by done. }
  destruct (decide (Some (atom p) = Some (c_atom c))) as [[= Hat]|Hne].
  2: { unfold write_access, with_atom. cbn [a_kind a_component]. rewrite Hp. rewrite (st_bind_ok _ _ _ p a) by done.
       bind_simp. by rewrite decide_False by congruence. }
  destruct (write_access_ok a cap F b bs c kind v p) as (a' & Hrun & Ha' & Hrd); try done.
  pose proof (physical_length p) as Hl. rewrite Hat in Hl.
  exists a', (splice (c_offset c) (physical_bytes p) bs). split_and!; try done; [by rewrite splice_length by lia| |].
  - intros k j Hj Hne. destruct (value_access layout k j) as [k' od] eqn:Eacc.
    assert (k' = k) as -> by (by injection Eacc). destruct od as [d|]; [|done].
    destruct (value_access_component _ _ _ _ Eacc) as (vj & Hvj & Hdj).
    destruct (Hin vj d) as [Hdo Hde]; [by eapply list_elem_of_lookup_2|done|].
    apply (read_frame a a' cap cap F _ b b bs _ d k Ha Ha' Hb (lookup_insert_eq _ _ _)); [done|done|by rewrite splice_len by lia|].
    pose proof (byte_size_pos (c_atom d)). apply slice_splice_ne; try lia.
    destruct (Nat.lt_trichotomy (Z.to_nat i) (Z.to_nat j)) as [Hlt|[?|Hlt]]; [|lia|].
    + right. pose proof (ordered_disjoint _ _ _ _ _ _ _ c d Hord Hvi Hvj Hlt Hc Hdj). lia.
    + left. pose proof (ordered_disjoint _ _ _ _ _ _ _ d c Hord Hvj Hvi Hlt Hdj Hc). lia.
  - intros b2 bs2 k d Hne Hb2 Hdo Hde. apply (read_frame a a' cap cap F _ b2 b2 bs2 bs2 d k Ha Ha' Hb2); try done. by rewrite lookup_insert_ne.
Qed.

(** A frame of an int, a reference and a long. *)
Definition demo_atoms : list (list PhysicalAtom) := [[AI32]; [ARef32]; [AI64]].
Definition demo_layout : FrameLayout := mkFrameLayout 16 8
  [[mkComponent 0 AI32]; [mkComponent 4 ARef32]; [mkComponent 8 AI64]].
Definition demo_arena : FrameArena :=
  match FrameArena_new 32 with Ok a => (push demo_layout a).2 | _ => mkFrameArena [] None end.

Lemma demo_arena_holds : holds demo_arena 32 {[0 := replicate 16 0]}.
Proof.
  destruct (new_holds 32) as (a & Ha & H0); [vm_compute; split; discriminate|done|].
  unfold demo_arena. rewrite Ha.
  destruct (push_holds a 32 ∅ demo_layout H0) as [[Hz _]|[(_ & _ & Hno)|(_ & base & a' & Hpush & Hgap & H1)]]; [done|done| |].
  - exfalso. apply (Hno 0). split_and!; [lia|done|]. intros b bs Hb. discriminate Hb.
  - rewrite Hpush. assert (base = 0) as ->; [|exact H1]. cbn in Ha. injection Ha as <-.
    vm_compute in Hpush. by injection Hpush as <-.
Qed.

Lemma frame_values_roundtrip_witness : exists a', write_access 0 (value_access demo_layout 2 2) (Value.I64 (-5)) demo_arena = (Ok tt, a') /\
  read_access a' 0 (value_access demo_layout 2 2) = Ok (Value.I64 (-5)) /\
  read_access a' 0 (value_access demo_layout 1 0) = Ok (Value.I32 0).
Proof.
  pose proof (frame_values_roundtrip demo_atoms demo_layout demo_arena 32 {[0 := replicate 16 0]} 0 (replicate 16 0) 2 2
    (mkComponent 8 AI64) (Value.I64 (-5))) as H.
  rewrite decide_True in H by reflexivity.
  destruct H as (a' & bs' & Hw & _ & _ & Hr & Ho & _).
  - vm_compute. reflexivity.
  - exact demo_arena_holds.
  - reflexivity.
  - vm_compute. discriminate.
  - lia.
  - reflexivity.
  - simpl. lia.
  - exists a'. split; [exact Hw|]. split; [exact Hr|]. rewrite (Ho 1 0) by lia. vm_compute. reflexivity.
Defined.

End FrameValues.
