(* ===== verification/Path.v ===== *)
(** src/filesystem/error.rs, limits.rs, path.rs and capability.rs: the errors of
    the guest filesystem, its limits, virtual paths and the capabilities that
    grant rights over a subtree.  A string is the list of its UTF-8 bytes. *)

From S2P Require Import Prelude Words Unicode.

Module FsError.

Inductive FileSystemError :=
| InvalidPath | NotFound | AlreadyExists | NotDirectory | IsDirectory | NotExecutable | NotEmpty
| ReadOnly | PermissionDenied | StaleHandle | QuotaExceeded | Busy | StorageFaulted | Closed.

Inductive StoreHealth := Active | Draining | Faulted | HealthClosed.

End FsError.

Module FsLimits.

Record FileSystemLimits := mkFsLimits {
  maximum_path_bytes : Z;
  maximum_component_bytes : Z;
  maximum_components : Z;
  maximum_logical_bytes : Z;
  maximum_file_bytes : Z;
  maximum_nodes : Z;
  maximum_directory_entries : Z;
  maximum_open_handles : Z;
  maximum_io_bytes : Z;
  maximum_rom_bytes : Z;
  maximum_journal_record_bytes : Z;
  maximum_journal_payload_bytes : Z;
  maximum_checkpoint_bytes : Z;
  maximum_recovery_records : Z;
  maximum_recovery_bytes : Z;
  maximum_persistence_queue_records : Z;
  maximum_persistence_queue_bytes : Z }.

Definition testing : FileSystemLimits :=
  mkFsLimits 256 64 16 (Z.shiftl 1 20) (Z.shiftl 1 16) 1024 256 32 4096 (Z.shiftl 1 20) (Z.shiftl 1 16)
    (Z.shiftl 1 15) (Z.shiftl 1 20) 1024 (Z.shiftl 4 20) 64 (Z.shiftl 1 20).

Definition default_limits : FileSystemLimits :=
  mkFsLimits 4096 255 64 (Z.shiftl 64 20) (Z.shiftl 8 20) 65536 4096 256 (Z.shiftl 64 10) (Z.shiftl 16 20)
    (Z.shiftl 1 20) (Z.shiftl 512 10) (Z.shiftl 128 20) 65536 (Z.shiftl 512 20) 4096 (Z.shiftl 64 20).

End FsLimits.

Module Path.
Import FsError FsLimits.

Abbreviation str := (list Z) (only parsing).

(** [VirtualPath(Box<[Box<str>]>)]: the components. *)
Abbreviation VirtualPath := (list (list Z)) (only parsing).

Definition slash : Z := 47.
Definition dot : Z := 46.
Definition size {A} (l : list A) : Z := Z.of_nat (length l).

Definition root : VirtualPath := [].

(** [str::split('/')]: the separator is one ASCII byte, which never occurs
    inside the encoding of another scalar. *)
Fixpoint split (s : str) : list str :=
  match s with
  | [] => [[]]
  | b :: s =>
      if b =? slash then [] :: split s
      else match split s with
           | [] => [[b]]
           | c :: cs => (b :: c) :: cs
           end
  end.

Definition component_rejected (limits : FileSystemLimits) (c : str) : bool :=
  bool_decide (c = []) || bool_decide (c = [dot]) || bool_decide (c = [dot; dot]) ||
  (maximum_component_bytes limits <? size c).

(** [map(..).collect::<Result<..>>()]. *)
Fixpoint collect_components (limits : FileSystemLimits) (cs : list str) : outcome FileSystemError (list str) :=
  match cs with
  | [] => Ok []
  | c :: cs =>
      if component_rejected limits c then Err InvalidPath
      else cs ← collect_components limits cs; Ok (c :: cs)
  end.

Definition parse_utf8 (decoded : str) (limits : FileSystemLimits) : outcome FileSystemError VirtualPath :=
  if (maximum_path_bytes limits <? size decoded) || negb (bool_decide (head decoded = Some slash)) ||
     bool_decide (decoded = []) || bool_decide (0 ∈ decoded)
  then Err InvalidPath
  else if bool_decide (decoded = [slash]) then Ok []
  else if bool_decide (last decoded = Some slash) then Err InvalidPath
  else
    components ← collect_components limits (split (drop 1 decoded));
    if maximum_components limits <? size components then Err InvalidPath
    else Ok components.

(** The [for] loop over [char::decode_utf16]. *)
Fixpoint decode_loop (limits : FileSystemLimits) (scalars : list (option Z)) (decoded : str)
    : outcome FileSystemError str :=
  match scalars with
  | [] => Ok decoded
  | None :: _ => Err InvalidPath
  | Some scalar :: scalars =>
      if scalar =? 0 then Err InvalidPath
      else
        let decoded := decoded ++ encode_scalar scalar in
        if maximum_path_bytes limits <? size decoded then Err InvalidPath
        else decode_loop limits scalars decoded
  end.

Definition parse_utf16 (units : list Z) (limits : FileSystemLimits) : outcome FileSystemError VirtualPath :=
  decoded ← decode_loop limits (decode_utf16 units) [];
  parse_utf8 decoded limits.

(** [starts_with] on slices. *)
Fixpoint starts_with (p q : list str) : bool :=
  match q, p with
  | [], _ => true
  | c :: q, d :: p => bool_decide (d = c) && starts_with p q
  | _ :: _, [] => false
  end.
Definition is_within (p root : VirtualPath) : bool := starts_with p root.

Definition parent (p : VirtualPath) : option VirtualPath :=
  if bool_decide (p = []) then None else Some (take (length p - 1) p).
Definition file_name (p : VirtualPath) : option str := last p.

Definition encoded_len (p : VirtualPath) : Z :=
  1 + foldr (fun c n => size c + n) 0 p + saturating_sub (size p) 1.

(** [Display]. *)
Definition fmt (p : VirtualPath) : str :=
  slash :: match p with
           | [] => []
           | first :: components => first ++ (components ≫= fun c => slash :: c)
           end.

End Path.

Module Capability.
Import FsError Path.

(** [FileRights(u16)]. *)
Abbreviation FileRights := Z (only parsing).

Definition INSPECT : FileRights := Z.shiftl 1 0.
Definition LIST : FileRights := Z.shiftl 1 1.
Definition READ : FileRights := Z.shiftl 1 2.
Definition CREATE : FileRights := Z.shiftl 1 3.
Definition WRITE : FileRights := Z.shiftl 1 4.
Definition DELETE : FileRights := Z.shiftl 1 5.
Definition RENAME : FileRights := Z.shiftl 1 6.
Definition EXECUTE : FileRights := Z.shiftl 1 7.
Definition OWNER : FileRights := Z.shiftl 1 8 - 1.

Definition contains (rights required : FileRights) : bool := Z.land rights required =? required.
Definition bitor (a b : FileRights) : FileRights := Z.lor a b.

Record FileCapability := mkCapability {
  cap_root : VirtualPath;
  rights : FileRights;
  logical_byte_limit : Z;
  operation_limit : Z;
  handle_limit : Z }.

Definition new (root : VirtualPath) (r : FileRights) : FileCapability :=
  mkCapability root r u64_max u64_max u32_max.

Definition permits (c : FileCapability) (path : VirtualPath) (required : FileRights) : bool :=
  is_within path (cap_root c) && contains (rights c) required.

Definition delegate (c : FileCapability) (root : VirtualPath) (r : FileRights)
    : outcome FileSystemError FileCapability :=
  if negb (is_within root (cap_root c)) || negb (contains (rights c) r) then Err PermissionDenied
  else Ok (mkCapability root r (logical_byte_limit c) (operation_limit c) (handle_limit c)).

End Capability.

Module PathProps.
Import FsError FsLimits Path Capability.

(** ** Canonical paths *)

Definition component_ok (l : FileSystemLimits) (c : str) : Prop :=
  c <> [] /\ c <> [dot] /\ c <> [dot; dot] /\ size c <= maximum_component_bytes l /\
  (slash ∉ c) /\ (0 ∉ c).

Record path_ok (l : FileSystemLimits) (p : VirtualPath) : Prop := {
  p_components : Forall (component_ok l) p;
  p_count : size p <= maximum_components l;
  p_bytes : encoded_len p <= maximum_path_bytes l }.

Lemma split_no_slash c rest : slash ∉ c -> split (c ++ slash :: rest) = c :: split rest.
Proof.
  induction c as [|b c IH]; intros Hc; cbn [app split]; [by rewrite Z.eqb_refl|].
  apply not_elem_of_cons in Hc as [Hb Hc]. rewrite (proj2 (Z.eqb_neq _ _)) by done. by rewrite IH.
Qed.

Lemma split_last c : slash ∉ c -> split c = [c].
Proof.
  induction c as [|b c IH]; intros Hc; cbn [split]; [done|].
  apply not_elem_of_cons in Hc as [Hb Hc]. rewrite (proj2 (Z.eqb_neq _ _)) by done. by rewrite IH.
Qed.

(** The components joined by separators. *)
Definition join (p : list str) : str :=
  match p with [] => [] | first :: cs => first ++ (cs ≫= fun c => slash :: c) end.

Lemma join_cons c p : p <> [] -> join (c :: p) = c ++ slash :: join p.
Proof. destruct p as [|d p]; [done|]. intros _. done. Qed.

Lemma split_join p : p <> [] -> Forall (fun c => slash ∉ c) p -> split (join p) = p.
Proof.
  induction p as [|c p IH]; intros Hne Hp; [done|]. apply Forall_cons in Hp as [Hc Hp].
  destruct p as [|d p]; [simpl; rewrite app_nil_r; by apply split_last|].
  rewrite join_cons by done. rewrite split_no_slash by done. by rewrite IH.
Qed.

Lemma split_nonempty s : split s <> [].
Proof. destruct s as [|b s]; simpl; [done|]. destruct (_ =? _); [done|]. by destruct (split s). Qed.

Lemma join_split s : join (split s) = s.
Proof.
  induction s as [|b s IH]; simpl; [done|]. pose proof (split_nonempty s) as Hne.
  destruct (Z.eqb_spec b slash) as [->|Hb].
  - rewrite join_cons by done. by rewrite IH.
  - destruct (split s) as [|c cs]; [done|]. simpl in *. by rewrite IH.
Qed.

Lemma split_no_slashes s : Forall (fun c => slash ∉ c) (split s).
Proof.
  induction s as [|b s IH]; simpl; [by constructor; [apply not_elem_of_nil|]|].
  destruct (Z.eqb_spec b slash) as [->|Hb]; [constructor; [apply not_elem_of_nil|done]|].
  destruct (split s) as [|c cs]; [constructor; [|constructor]; set_solver|].
  apply Forall_cons in IH as [Hc Hcs]. constructor; [|done]. apply not_elem_of_cons. done.
Qed.

Lemma join_elem p c b : c ∈ p -> b ∈ c -> b ∈ join p.
Proof.
  induction p as [|d p IH]; intros Hc Hb; [by apply elem_of_nil in Hc|].
  destruct p as [|e p]; [apply list_elem_of_singleton in Hc as ->; simpl; by rewrite app_nil_r|].
  rewrite join_cons by done. apply elem_of_app. apply elem_of_cons in Hc as [->|Hc]; [by left|right].
  right. by apply IH.
Qed.

Lemma join_zero p : Forall (fun c => 0 ∉ c) p -> 0 ∉ join p.
Proof.
  induction 1 as [|c p Hc Hp IH]; [apply not_elem_of_nil|]. destruct p as [|d p]; [simpl; by rewrite app_nil_r|].
  rewrite join_cons by done. rewrite not_elem_of_app, not_elem_of_cons. done.
Qed.

Lemma join_size p : p <> [] -> size (join p) = foldr (fun c n => size c + n) 0 p + (size p - 1).
Proof.
  induction p as [|c p IH]; intros Hne; [done|]. destruct p as [|d p].
  - simpl. rewrite app_nil_r. unfold size. simpl. lia.
  - rewrite join_cons by done. specialize (IH ltac:(done)). unfold size in *. rewrite length_app. simpl in *. lia.
Qed.

Lemma fmt_join p : fmt p = slash :: join p.
Proof. by destruct p. Qed.

Lemma fmt_size p : size (fmt p) = encoded_len p.
Proof.
  rewrite fmt_join. unfold encoded_len, saturating_sub. destruct p as [|c p]; [done|].
  pose proof (join_size (c :: p) ltac:(done)). unfold size in *. simpl in *. lia.
Qed.

Lemma join_last p : Forall (fun c => c <> [] /\ slash ∉ c) p -> last (join p) <> Some slash.
Proof.
  intros Hp. destruct p as [|c0 p0] using rev_ind; [done|]. apply Forall_app in Hp as [_ Hc].
  apply Forall_cons in Hc as [[Hne Hs] _]. clear IHp0.
  assert (Hj : exists pre, join (p0 ++ [c0]) = pre ++ c0).
  { destruct p0 as [|d p0]; [exists []; simpl; by rewrite app_nil_r|].
    exists (d ++ (p0 ≫= fun c => slash :: c) ++ [slash]). simpl. rewrite bind_app. simpl. by rewrite app_nil_r, <- !app_assoc. }
  destruct Hj as [pre ->]. destruct c0 as [|b c0] using rev_ind; [done|]. rewrite app_assoc, last_snoc.
  intros [= ->]. apply Hs, elem_of_app. right. by left.
Qed.

Lemma collect_ok l cs : Forall (fun c => component_rejected l c = false) cs -> collect_components l cs = Ok cs.
Proof. induction 1 as [|c cs Hc _ IH]; simpl; [done|]. by rewrite Hc, IH. Qed.

Lemma collect_inv l cs p : collect_components l cs = Ok p -> p = cs /\ Forall (fun c => component_rejected l c = false) cs.
Proof.
  revert p. induction cs as [|c cs IH]; intros p H; simpl in H; [by injection H as <-|].
  destruct (component_rejected l c) eqn:E; [done|]. apply outcome_bind_inv in H as (q & Hq & [= <-]).
  destruct (IH q Hq) as [-> Hf]. split; [done|by constructor].
Qed.

Lemma parse_no_panic s l : parse_utf8 s l <> Panic.
Proof.
  unfold parse_utf8. destruct (_ || _); [done|]. destruct (bool_decide _); [done|]. destruct (bool_decide _); [done|].
  assert (Hc : forall cs, collect_components l cs <> Panic).
  { induction cs as [|c cs IH]; simpl; [done|]. destruct (component_rejected l c); [done|].
    by destruct (collect_components l cs). }
  specialize (Hc (split (drop 1 s))). destruct (collect_components l (split (drop 1 s))) as [cs| |]; [|done|done].
  simpl. by destruct (_ <? _).
Qed.

Lemma component_rejected_false l c : component_rejected l c = false <->
  c <> [] /\ c <> [dot] /\ c <> [dot; dot] /\ size c <= maximum_component_bytes l.
Proof.
  unfold component_rejected. rewrite !orb_false_iff, !bool_decide_eq_false, Z.ltb_ge. tauto.
Qed.

(** ** UTF-16 input *)

Definition utf8 (cs : list Z) : str := cs ≫= encode_scalar.

Lemma decode_scalars cs : Forall (fun c => is_scalar c = true) cs -> decode_utf16 (cs ≫= encode_utf16) = Some <$> cs.
Proof. induction 1 as [|c cs Hc _ IH]; [done|]. rewrite bind_cons, decode_encode_utf16 by done. by rewrite IH. Qed.

Lemma encode_scalar_zero c : is_scalar c = true -> 0 ∈ encode_scalar c <-> c = 0.
Proof.
  intros Hc. apply is_scalar_true in Hc. unfold encode_scalar.
  pose proof (Z.div_pos c 64 ltac:(lia) ltac:(lia)). pose proof (Z.div_pos c 4096 ltac:(lia) ltac:(lia)).
  pose proof (Z.div_pos c 262144 ltac:(lia) ltac:(lia)).
  pose proof (Z.mod_pos_bound c 64 ltac:(lia)). pose proof (Z.mod_pos_bound (c / 64) 64 ltac:(lia)).
  pose proof (Z.mod_pos_bound (c / 4096) 64 ltac:(lia)).
  destruct (Z.ltb_spec c 128); [|destruct (Z.ltb_spec c 2048); [|destruct (Z.ltb_spec c 65536)]];
    rewrite ?elem_of_cons, elem_of_nil; lia.
Qed.

Lemma utf8_zero cs : Forall (fun c => is_scalar c = true) cs -> 0 ∈ utf8 cs <-> 0 ∈ cs.
Proof.
  induction 1 as [|c cs Hc _ IH]; [done|]. unfold utf8 in *. rewrite bind_cons, elem_of_app, elem_of_cons, IH.
  rewrite encode_scalar_zero by done. naive_solver.
Qed.

Lemma decode_loop_ok l cs acc : Forall (fun c => is_scalar c = true) cs -> size acc <= maximum_path_bytes l ->
  decode_loop l (Some <$> cs) acc =
  if bool_decide (0 ∈ cs) || (maximum_path_bytes l <? size (acc ++ utf8 cs)) then Err InvalidPath else Ok (acc ++ utf8 cs).
Proof.
  intros Hcs. revert acc. induction Hcs as [|c cs Hc Hcs IH]; intros acc Hacc.
  - simpl. rewrite app_nil_r, (proj2 (Z.ltb_ge _ _)) by done. done.
  - cbn [fmap list_fmap decode_loop]. unfold utf8. rewrite bind_cons, app_assoc. fold (utf8 cs).
    destruct (Z.eqb_spec c 0) as [->|H0]; [by rewrite bool_decide_eq_true_2 by (by left)|].
    assert (Hmono : size (acc ++ encode_scalar c) <= size ((acc ++ encode_scalar c) ++ utf8 cs)).
    { unfold size. rewrite (length_app (acc ++ encode_scalar c)). lia. }
    assert (Hz : bool_decide (0 ∈ c :: cs) = bool_decide (0 ∈ cs)).
    { apply bool_decide_ext. rewrite elem_of_cons. naive_solver. }
    rewrite Hz. destruct (Z.ltb_spec (maximum_path_bytes l) (size (acc ++ encode_scalar c))).
    + rewrite (proj2 (Z.ltb_lt _ _)) by lia. by rewrite orb_true_r.
    + change (Some <$> cs) with (list_fmap _ _ Some cs). rewrite <- IH by done. done.
Qed.

(** ** Subtrees and rights *)

Lemma starts_with_prefix p q : starts_with p q = true <-> q `prefix_of` p.
Proof.
  revert p. induction q as [|c q IH]; intros p; [split; [intros _; apply prefix_nil|by destruct p]|].
  destruct p as [|d p]; simpl; [split; [done|intros [k Hk]; done]|].
  rewrite andb_true_iff, bool_decide_eq_true, IH. split.
  - intros [-> Hq]. by apply prefix_cons.
  - intros Hp. split; [by apply prefix_cons_inv_1 in Hp|by eapply prefix_cons_inv_2].
Qed.

Lemma contains_trans a b c : contains a b = true -> contains b c = true -> contains a c = true.
Proof.
  unfold contains. rewrite !Z.eqb_eq. intros Hab Hbc. rewrite <- Hbc at 1. by rewrite Z.land_assoc, Hab.
Qed.

(** ** Properties *)

Lemma parse_accepts (l : FileSystemLimits) (s : str) (p : VirtualPath) :
  0 <= maximum_components l -> 0 <= maximum_component_bytes l -> parse_utf8 s l = Ok p <-> path_ok l p /\ s = fmt p.
Proof.
  intros Hmax Hmaxc. unfold parse_utf8. split.
  - destruct (_ || _) eqn:E; [done|]. bsimp. destruct s as [|b s]; [done|]. simpl in *.
    match goal with H : Some b = Some slash |- _ => injection H as -> end.
    destruct (bool_decide (slash :: s = [slash])) eqn:E1; bsimp.
    + injection E1 as ->. intros [= <-]. split; [|done]. split; [constructor|done|]. rewrite <- fmt_size. done.
    + destruct (bool_decide _) eqn:E2; [done|]. intros Hp. apply outcome_bind_inv in Hp as (cs & Hc & Hp).
      destruct (Z.ltb_spec (maximum_components l) (size cs)); [done|]. injection Hp as <-.
      rewrite drop_0 in Hc. apply collect_inv in Hc as [-> Hc].
      assert (Hs : slash :: s = fmt (split s)) by (by rewrite fmt_join, join_split).
      split; [|done]. split; [|done|by rewrite <- fmt_size, <- Hs].
      apply Forall_lookup. intros i c Hi. rewrite Forall_lookup in Hc. pose proof (Hc i c Hi) as Hr.
      apply component_rejected_false in Hr as (? & ? & ? & ?). split_and!; try done.
      * pose proof (split_no_slashes s) as Hn. rewrite Forall_lookup in Hn. by apply (Hn i).
      * intros Hzero. match goal with H : 0 ∉ slash :: s |- _ => apply H end. right. rewrite <- (join_split s).
        eapply join_elem; [|exact Hzero]. by eapply list_elem_of_lookup_2.
  - intros [[Hc Hn Hb] ->]. rewrite <- fmt_size in Hb. rewrite (proj2 (Z.ltb_ge _ _)) by done.
    assert (Hz : 0 ∉ fmt p).
    { rewrite fmt_join. apply not_elem_of_cons. split; [done|]. apply join_zero.
      eapply Forall_impl; [exact Hc|]. intros c Hk. apply Hk. }
    rewrite (bool_decide_eq_false_2 (0 ∈ fmt p)) by done. rewrite fmt_join in *. simpl.
    destruct p as [|c p]; [done|].
    rewrite bool_decide_eq_false_2.
    2:{ apply Forall_cons in Hc as [(Hne & _) _]. simpl. destruct c; [done|]. done. }
    assert (Hj : join (c :: p) <> []).
    { apply Forall_cons in Hc as [(Hne & _) _]. simpl. destruct c; [done|]. done. }
    rewrite bool_decide_eq_false_2.
    2:{ intros Hl. apply (join_last (c :: p)).
        - eapply Forall_impl; [exact Hc|]. intros d Hd. split; apply Hd.
        - rewrite <- Hl. by destruct (join (c :: p)). }
    rewrite drop_0, split_join; [|done|eapply Forall_impl; [exact Hc|]; intros d Hd; apply Hd].
    rewrite collect_ok.
    2:{ eapply Forall_impl; [exact Hc|]. intros d (? & ? & ? & ? & _). by apply component_rejected_false. }
    simpl. by rewrite (proj2 (Z.ltb_ge _ _)).
Qed.

(** Parsing and printing are inverse: the parser accepts exactly the printed
    forms of the canonical paths within the limits, and returns the path that
    was printed; a printed path is as long as its computed encoded length. *)
Theorem path_roundtrip (l : FileSystemLimits) (s : str) (p : VirtualPath) :
  0 <= maximum_components l -> 0 <= maximum_component_bytes l ->
  (parse_utf8 s l = Ok p <-> path_ok l p /\ s = fmt p) /\ size (fmt p) = encoded_len p.
Proof. intros Hmax Hmaxc. split; [by apply parse_accepts|apply fmt_size]. Qed.

Definition demo_path : VirtualPath := [[104; 111; 109; 101]; [97]].

Lemma path_roundtrip_witness : parse_utf8 [47; 104; 111; 109; 101; 47; 97] testing = Ok demo_path /\
  path_ok testing demo_path.
Proof.
  assert (E : parse_utf8 [47; 104; 111; 109; 101; 47; 97] testing = Ok demo_path) by (vm_compute; reflexivity).
  split; [exact E|]. exact (proj1 (proj1 (proj1 (path_roundtrip testing [47; 104; 111; 109; 101; 47; 97] demo_path
    ltac:(vm_compute; discriminate) ltac:(vm_compute; discriminate))) E)).
Defined.

(** Guest paths given as UTF-16 mean their UTF-8 form: the UTF-16 encoding of
    a sequence of scalars parses to whatever its UTF-8 encoding parses to, and
    an unpaired surrogate is an invalid path. *)
Theorem parse_utf16_equiv (l : FileSystemLimits) (cs : list Z) (units : list Z) :
  0 <= maximum_path_bytes l -> Forall (fun c => is_scalar c = true) cs ->
  parse_utf16 (cs ≫= encode_utf16) l = parse_utf8 (utf8 cs) l /\
  (None ∈ decode_utf16 units -> parse_utf16 units l = Err InvalidPath).
Proof.
  intros Hmax Hcs. unfold parse_utf16. split.
  - rewrite decode_scalars, decode_loop_ok by done. simpl. unfold parse_utf8.
    assert (Hz : bool_decide (0 ∈ utf8 cs) = bool_decide (0 ∈ cs)) by (by apply bool_decide_ext, utf8_zero).
    rewrite Hz. destruct (bool_decide (0 ∈ cs)) eqn:E0; cbn [orb]; [by rewrite orb_true_r|].
    destruct (maximum_path_bytes l <? size (utf8 cs)) eqn:E; cbn [orb mbind outcome_bind]; [done|].
    rewrite E, Hz. done.
  - generalize (@nil Z). induction (decode_utf16 units) as [|[c|] r IH]; intros acc Hin; simpl; [by apply elem_of_nil in Hin| |done].
    apply elem_of_cons in Hin as [?|Hin]; [done|]. destruct (c =? 0); [done|]. destruct (_ <? _); [done|]. by apply IH.
Qed.

Lemma parse_utf16_equiv_witness : parse_utf16 [47; 55357; 56832] testing = Ok [[240; 159; 152; 128]].
Proof.
  change [47; 55357; 56832] with ([47; 128512] ≫= encode_utf16).
  rewrite (proj1 (parse_utf16_equiv testing [47; 128512] [] ltac:(vm_compute; discriminate) ltac:(repeat constructor))).
  vm_compute. reflexivity.
Defined.

(** Delegation never widens authority: a capability delegates exactly the
    subtrees and rights it holds, and whatever the delegate permits the
    delegating capability permits. *)
Theorem delegate_attenuates (c : FileCapability) (r : VirtualPath) (rs : FileRights) :
  match delegate c r rs with
  | Ok d => permits c r rs = true /\ permits d r rs = true /\ handle_limit d = handle_limit c /\
      forall path required, permits d path required = true ->
        r `prefix_of` path /\ permits c path required = true
  | Err e => e = PermissionDenied /\ permits c r rs = false
  | Panic => False
  end.
Proof.
  unfold delegate, permits. destruct (is_within r (cap_root c)) eqn:Ew; simpl; [|done].
  destruct (contains (rights c) rs) eqn:Ec; simpl; [|done]. split; [done|]. split.
  - unfold is_within. rewrite (proj2 (starts_with_prefix r r)) by done. simpl. unfold contains. by rewrite Z.land_diag, Z.eqb_refl.
  - split; [done|]. intros path required [Hp Hr]%andb_true_iff. unfold is_within in *.
    apply starts_with_prefix in Hp. split; [done|]. apply andb_true_iff. split; [|by eapply contains_trans].
    apply starts_with_prefix. apply starts_with_prefix in Ew. by etrans.
Qed.

End PathProps.
