(* ===== verification/BTree.v ===== *)
(** [std::collections::BTreeMap]: an association list in strictly ascending key
    order, with the total order of the key type as a class.  Slices and strings
    are ordered lexicographically, as [Ord] orders them. *)

From S2P Require Import Prelude Words.

Module BTree.

Class Ordered (K : Type) := {
  compare : K -> K -> comparison;
  compare_eq : forall a b, compare a b = Eq <-> a = b;
  compare_flip : forall a b, compare b a = CompOpp (compare a b);
  compare_lt_trans : forall a b c, compare a b = Lt -> compare b c = Lt -> compare a c = Lt }.

Section Order.
Context `{Ordered K}.

Definition lt (a b : K) : Prop := compare a b = Lt.

#[global] Instance lt_dec a b : Decision (lt a b).
Proof. unfold lt. solve_decision. Defined.

Lemma compare_refl a : compare a a = Eq.
Proof. by apply compare_eq. Qed.

Lemma lt_irrefl a : ~ lt a a.
Proof. unfold lt. by rewrite compare_refl. Qed.

Lemma lt_trans a b c : lt a b -> lt b c -> lt a c.
Proof. apply compare_lt_trans. Qed.

Lemma lt_ne a b : lt a b -> a <> b.
Proof. intros Hl ->. by apply lt_irrefl in Hl. Qed.

Lemma lt_total a b : lt a b \/ a = b \/ lt b a.
Proof.
  unfold lt. rewrite (compare_flip a b). destruct (compare a b) eqn:E; simpl; auto. right; left. by apply compare_eq.
Qed.

Lemma lt_asym a b : lt a b -> ~ lt b a.
Proof. intros H1 H2. by apply (lt_irrefl a), (lt_trans a b a). Qed.

End Order.

(** ** Instances *)

#[global] Program Instance Z_ordered : Ordered Z := {| compare := Z.compare |}.
Next Obligation. intros a b. apply Z.compare_eq_iff. Qed.
Next Obligation. intros a b. apply Z.compare_antisym. Qed.
Next Obligation. intros a b c. rewrite !Z.compare_lt_iff. lia. Qed.

Section Lexicographic.
Context `{Ordered A}.

Fixpoint lex (a b : list A) : comparison :=
  match a, b with
  | [], [] => Eq
  | [], _ :: _ => Lt
  | _ :: _, [] => Gt
  | x :: a, y :: b => match compare x y with Eq => lex a b | c => c end
  end.

Lemma lex_eq a : forall b, lex a b = Eq <-> a = b.
Proof.
  induction a as [|x a IH]; intros [|y b]; simpl; try done. destruct (compare x y) eqn:E.
  - apply compare_eq in E as ->. rewrite IH. naive_solver.
  - split; [done|]. intros [= -> ->]. by rewrite compare_refl in E.
  - split; [done|]. intros [= -> ->]. by rewrite compare_refl in E.
Qed.

Lemma lex_flip a : forall b, lex b a = CompOpp (lex a b).
Proof.
  induction a as [|x a IH]; intros [|y b]; simpl; try done. rewrite (compare_flip x y). destruct (compare x y); simpl; auto.
Qed.

Lemma lex_lt_trans a : forall b c, lex a b = Lt -> lex b c = Lt -> lex a c = Lt.
Proof.
  induction a as [|x a IH]; intros [|y b] [|z c]; simpl; try done.
  destruct (compare x y) eqn:Exy; intros H1; [| |done].
  - apply compare_eq in Exy as ->. destruct (compare y z); [|done|done]. by eapply IH.
  - destruct (compare y z) eqn:Eyz; intros H2; [| |done].
    + apply compare_eq in Eyz as ->. by rewrite Exy.
    + by rewrite (compare_lt_trans _ _ _ Exy Eyz).
Qed.

#[global] Instance list_ordered : Ordered (list A) :=
  {| compare := lex; compare_eq := lex_eq; compare_flip := lex_flip; compare_lt_trans := lex_lt_trans |}.

(** A list comes before its extensions, and no other list comes between them. *)
Lemma lex_prefix (p s : list A) : s <> [] -> lt p (p ++ s).
Proof.
  intros Hs. unfold lt, compare, list_ordered. induction p as [|x p IH]; simpl; [by destruct s|]. by rewrite compare_refl.
Qed.

Lemma lex_between (p q s : list A) : lt p q -> lt q (p ++ s) -> p `prefix_of` q.
Proof.
  unfold lt, compare, list_ordered. revert q. induction p as [|x p IH]; intros [|y q] H1 H2; simpl in *; try done.
  - apply prefix_nil.
  - rewrite (compare_flip x y) in H2. destruct (compare x y) eqn:E; simpl in *; try done.
    apply compare_eq in E as ->. apply prefix_cons, IH; done.
Qed.

End Lexicographic.

(** Tuples, component by component. *)
Section Pairs.
Context `{Ordered A, Ordered B}.

Definition pair_compare (x y : A * B) : comparison :=
  match compare x.1 y.1 with Eq => compare x.2 y.2 | c => c end.

#[global] Program Instance prod_ordered : Ordered (A * B) := {| compare := pair_compare |}.
Next Obligation.
  intros [a b] [c d]. unfold pair_compare. simpl. destruct (compare a c) eqn:E.
  - apply compare_eq in E as ->. rewrite compare_eq. naive_solver.
  - split; [done|]. intros [= -> ->]. by rewrite compare_refl in E.
  - split; [done|]. intros [= -> ->]. by rewrite compare_refl in E.
Qed.
Next Obligation.
  intros [a b] [c d]. unfold pair_compare. simpl. rewrite (compare_flip a c), (compare_flip b d). by destruct (compare a c).
Qed.
Next Obligation.
  intros [a b] [c d] [e f]. unfold pair_compare. simpl. destruct (compare a c) eqn:Exy; [| |done].
  - apply compare_eq in Exy as ->. destruct (compare c e); [|done|done]. apply compare_lt_trans.
  - intros _. destruct (compare c e) eqn:Eyz; [| |done].
    + apply compare_eq in Eyz as ->. by rewrite Exy.
    + by rewrite (compare_lt_trans _ _ _ Exy Eyz).
Qed.

End Pairs.

(** ** The map *)

Definition BTreeMap (K V : Type) : Type := list (K * V).

Section Operations.
Context `{Ordered K} {V : Type}.
Implicit Types m : BTreeMap K V.

Fixpoint get (k : K) (m : list (K * V)) : option V :=
  match m with
  | [] => None
  | (k', v) :: m => match compare k k' with Eq => Some v | Lt => None | Gt => get k m end
  end.

Fixpoint insert (k : K) (v : V) (m : list (K * V)) : list (K * V) :=
  match m with
  | [] => [(k, v)]
  | (k', v') :: m' =>
      match compare k k' with
      | Lt => (k, v) :: m
      | Eq => (k, v) :: m'
      | Gt => (k', v') :: insert k v m'
      end
  end.

Fixpoint remove (k : K) (m : list (K * V)) : list (K * V) :=
  match m with
  | [] => []
  | (k', v') :: m' =>
      match compare k k' with
      | Lt => m
      | Eq => m'
      | Gt => (k', v') :: remove k m'
      end
  end.

Definition contains_key (k : K) (m : list (K * V)) : bool := match get k m with Some _ => true | None => false end.
Definition keys (m : list (K * V)) : list K := m.*1.
Definition values (m : list (K * V)) : list V := m.*2.

Definition sorted (m : list (K * V)) : Prop := StronglySorted (fun a b => lt a.1 b.1) m.

End Operations.

Section Laws.
Context `{Ordered K, !EqDecision K} {V : Type}.
Implicit Types (k : K) (v : V) (m : list (K * V)).

Lemma sorted_nil : sorted (@nil (K * V)).
Proof. constructor. Qed.

Lemma sorted_cons k v m : sorted ((k, v) :: m) <-> sorted m /\ Forall (fun e => lt k e.1) m.
Proof. split; [intros Hs; by apply StronglySorted_inv in Hs|intros [? ?]; by constructor]. Qed.

Lemma get_below k m : Forall (fun e => lt k e.1) m -> get k m = None.
Proof. destruct 1 as [|[k' v'] m Hk]; simpl; [done|]. unfold lt in Hk. simpl in Hk. by rewrite Hk. Qed.

Lemma get_cons k k' v m : sorted ((k', v) :: m) -> get k ((k', v) :: m) = if decide (k = k') then Some v else get k m.
Proof.
  intros [Hm Hf]%sorted_cons. simpl. destruct (decide (k = k')) as [->|Hne]; [by rewrite compare_refl|].
  destruct (compare k k') eqn:E; [by apply compare_eq in E| |done]. symmetry. apply get_below.
  eapply Forall_impl; [exact Hf|]. intros e He. by apply (lt_trans k k').
Qed.

Lemma get_elem k v m : sorted m -> get k m = Some v <-> (k, v) ∈ m.
Proof.
  induction m as [|[k' v'] m IH]; intros Hs; [simpl; split; [done|]; by intros ?%elem_of_nil|].
  rewrite get_cons by done. apply sorted_cons in Hs as [Hm Hf]. rewrite elem_of_cons. destruct (decide (k = k')) as [->|Hne].
  - split; [intros [= ->]; by left|]. intros [[= ->]|Hin]; [done|]. rewrite Forall_forall in Hf.
    apply Hf in Hin. by apply lt_irrefl in Hin.
  - rewrite IH by done. split; [by right|]. intros [[= -> ->]|]; done.
Qed.

Lemma get_insert k k' v m : sorted m -> get k (insert k' v m) = if decide (k = k') then Some v else get k m.
Proof.
  induction m as [|[k1 v1] m IH]; intros Hs; simpl.
  - destruct (decide (k = k')) as [->|Hne]; [by rewrite compare_refl|].
    destruct (compare k k') eqn:E; [by apply compare_eq in E|done|done].
  - pose proof Hs as [Hm Hf]%sorted_cons. destruct (compare k' k1) eqn:E1; simpl.
    + apply compare_eq in E1 as ->. destruct (decide (k = k1)) as [->|Hne]; [by rewrite compare_refl|].
      destruct (compare k k1) eqn:E2; [by apply compare_eq in E2|done|done].
    + destruct (decide (k = k')) as [->|Hne]; [by rewrite compare_refl|].
      destruct (compare k k') eqn:E2; [by apply compare_eq in E2| |done]. by rewrite (compare_lt_trans _ _ _ E2 E1).
    + rewrite IH by done. destruct (compare k k1) eqn:E2; [| |done].
      * apply compare_eq in E2 as ->. rewrite decide_False; [done|]. intros ->. by rewrite compare_refl in E1.
      * rewrite decide_False; [done|]. intros ->. congruence.
Qed.

Lemma insert_keys k v m (P : K -> Prop) : P k -> Forall (fun e => P e.1) m -> Forall (fun e => P e.1) (insert k v m).
Proof.
  intros Hk. induction 1 as [|[k' v'] m Hk' Hm IH]; simpl; [by repeat constructor|]. destruct (compare k k'); by repeat constructor.
Qed.

Lemma insert_sorted k v m : sorted m -> sorted (insert k v m).
Proof.
  induction m as [|[k' v'] m IH]; intros Hs; simpl; [by repeat constructor|]. pose proof Hs as [Hm Hf]%sorted_cons.
  destruct (compare k k') eqn:E.
  - apply compare_eq in E as ->. by apply sorted_cons.
  - apply sorted_cons. split; [done|]. constructor; [done|]. eapply Forall_impl; [exact Hf|]. intros e. by apply lt_trans.
  - apply sorted_cons. split; [by apply IH|]. apply (insert_keys k v m (lt k')); [|done]. unfold lt. by rewrite compare_flip, E.
Qed.

Lemma get_remove k k' m : sorted m -> get k (remove k' m) = if decide (k = k') then None else get k m.
Proof.
  induction m as [|[k1 v1] m IH]; intros Hs; simpl; [by destruct (decide _)|]. pose proof Hs as [Hm Hf]%sorted_cons.
  destruct (compare k' k1) eqn:E1.
  - apply compare_eq in E1 as ->. destruct (decide (k = k1)) as [->|Hne].
    + by apply get_below.
    + destruct (compare k k1) eqn:E2; [by apply compare_eq in E2| |done]. apply get_below. eapply Forall_impl; [exact Hf|].
      intros e He. by apply (lt_trans k k1).
  - simpl. destruct (decide (k = k')) as [->|Hne]; [by rewrite E1|done].
  - simpl. rewrite IH by done. destruct (compare k k1) eqn:E2; [| |done].
    + apply compare_eq in E2 as ->. rewrite decide_False; [done|]. intros ->. by rewrite compare_refl in E1.
    + by destruct (decide _).
Qed.

Lemma remove_Forall k m (P : K * V -> Prop) : Forall P m -> Forall P (remove k m).
Proof.
  induction 1 as [|[k' v'] m Hk' Hm IH]; simpl; [constructor|]. destruct (compare k k'); [done|by constructor|by constructor].
Qed.

Lemma remove_sorted k m : sorted m -> sorted (remove k m).
Proof.
  induction m as [|[k' v'] m IH]; intros Hs; simpl; [done|]. pose proof Hs as [Hm Hf]%sorted_cons.
  destruct (compare k k'); [done|done|]. apply sorted_cons. split; [by apply IH|by apply remove_Forall].
Qed.

(** Maps with the same bindings are the same map. *)
Lemma sorted_ext m : forall m', sorted m -> sorted m' -> (forall k, get k m = get k m') -> m = m'.
Proof.
  induction m as [|[k v] m IH]; intros m' Hs Hs' E.
  - destruct m' as [|[k' v'] m']; [done|]. specialize (E k'). simpl in E. by rewrite compare_refl in E.
  - destruct m' as [|[k' v'] m']; [specialize (E k); simpl in E; by rewrite compare_refl in E|].
    assert (k = k') as <-.
    { pose proof (E k) as Ek. pose proof (E k') as Ek'. simpl in Ek, Ek'. rewrite compare_refl in Ek, Ek'.
      destruct (compare k k') eqn:C; [by apply compare_eq|done|]. rewrite (compare_flip k k'), C in Ek'. done. }
    pose proof (E k) as Ek. simpl in Ek. rewrite !compare_refl in Ek. injection Ek as <-. f_equal.
    apply IH; [by apply sorted_cons in Hs as [? _]|by apply sorted_cons in Hs' as [? _]|].
    intros k1. specialize (E k1). rewrite !get_cons in E by done. destruct (decide (k1 = k)) as [->|]; [|done].
    apply sorted_cons in Hs as [_ Hf]. apply sorted_cons in Hs' as [_ Hf']. by rewrite !get_below.
Qed.

Lemma contains_key_true k m : contains_key k m = true <-> is_Some (get k m).
Proof. unfold contains_key. destruct (get k m); naive_solver. Qed.

Lemma get_keys k m : sorted m -> is_Some (get k m) <-> k ∈ keys m.
Proof.
  intros Hs. unfold keys. rewrite list_elem_of_fmap. split.
  - intros [v Hv]. apply get_elem in Hv; [|done]. by exists (k, v).
  - intros ([k' v] & -> & Hin). exists v. by apply get_elem.
Qed.

Lemma keys_NoDup m : sorted m -> NoDup (keys m).
Proof.
  induction m as [|[k v] m IH]; intros Hs; simpl; [constructor|]. apply sorted_cons in Hs as [Hm Hf]. constructor; [|by apply IH].
  intros Hin. unfold keys in Hin. apply list_elem_of_fmap in Hin as ([k' v'] & -> & Hin). rewrite Forall_forall in Hf.
  apply Hf in Hin. by apply lt_irrefl in Hin.
Qed.

Lemma keys_subset_size m m' : sorted m -> sorted m' -> (forall k, is_Some (get k m) -> is_Some (get k m')) -> (length m <= length m')%nat.
Proof.
  intros Hs Hs' Hsub. rewrite <- (length_fmap fst m), <- (length_fmap fst m'). apply submseteq_length, NoDup_submseteq; [by apply keys_NoDup|].
  intros k Hk. apply get_keys; [done|]. by apply Hsub, get_keys.
Qed.

Lemma length_insert_new k v m : sorted m -> get k m = None -> length (insert k v m) = S (length m).
Proof.
  induction m as [|[k' v'] m IH]; intros Hs Hg; simpl in *; [done|]. apply sorted_cons in Hs as [Hm _].
  destruct (compare k k'); [done|done|]. simpl. by rewrite IH.
Qed.

Lemma length_insert_old k v v' m : sorted m -> get k m = Some v' -> length (insert k v m) = length m.
Proof.
  induction m as [|[k1 v1] m IH]; intros Hs Hg; simpl in *; [done|]. apply sorted_cons in Hs as [Hm _].
  destruct (compare k k1); [done|done|]. simpl. by rewrite IH.
Qed.

Lemma length_remove_some k v m : sorted m -> get k m = Some v -> S (length (remove k m)) = length m.
Proof.
  induction m as [|[k1 v1] m IH]; intros Hs Hg; simpl in *; [done|]. apply sorted_cons in Hs as [Hm _].
  destruct (compare k k1); [done|done|]. simpl. by rewrite IH.
Qed.

Lemma remove_none k m : sorted m -> get k m = None -> remove k m = m.
Proof.
  induction m as [|[k1 v1] m IH]; intros Hs Hg; simpl in *; [done|]. apply sorted_cons in Hs as [Hm _].
  destruct (compare k k1); [done|done|]. by rewrite IH.
Qed.

(** Where a binding sits: everything before it is smaller, everything after larger. *)
Lemma get_split k v m : sorted m -> get k m = Some v -> exists a b, m = a ++ (k, v) :: b /\
  (forall v', insert k v' m = a ++ (k, v') :: b) /\ remove k m = a ++ b.
Proof.
  induction m as [|[k1 v1] m IH]; intros Hs Hg; simpl in *; [done|]. apply sorted_cons in Hs as [Hm _].
  destruct (compare k k1) eqn:E; [|done|].
  - injection Hg as ->. apply compare_eq in E as ->. exists [], m. done.
  - destruct (IH Hm Hg) as (a & b & -> & Hi & Hr). exists ((k1, v1) :: a), b. split_and!; [done|intros v'; by rewrite Hi|by rewrite Hr].
Qed.

Lemma insert_split k v m : sorted m -> get k m = None -> exists a b, m = a ++ b /\ insert k v m = a ++ (k, v) :: b.
Proof.
  induction m as [|[k1 v1] m IH]; intros Hs Hg; simpl in *; [by exists [], []|]. apply sorted_cons in Hs as [Hm _].
  destruct (compare k k1) eqn:E; [done| |].
  - exists [], ((k1, v1) :: m). done.
  - destruct (IH Hm Hg) as (a & b & -> & ->). by exists ((k1, v1) :: a), b.
Qed.

Lemma sorted_app (a b : list (K * V)) : sorted (a ++ b) <-> sorted a /\ sorted b /\ (forall x y, x ∈ a -> y ∈ b -> lt x.1 y.1).
Proof.
  induction a as [|[k v] a IH]; simpl.
  - split; [intros Hb; split_and!; [constructor|done|]; by intros x y ?%elem_of_nil|by intros (_ & ? & _)].
  - rewrite !sorted_cons, IH, Forall_app, !Forall_forall. split.
    + intros ((Ha & Hb & Hab) & Hka & Hkb). split_and!; [done|done|done|]. intros x y [->|Hx]%elem_of_cons Hy; [by apply Hkb|by apply Hab].
    + intros ((Ha & Hka) & Hb & Hab). split_and!; [done|done| |done|].
      * intros x y Hx Hy. apply Hab; [by right|done].
      * intros y Hy. apply (Hab (k, v)); [by left|done].
Qed.

Lemma insert_last k v m : sorted (m ++ [(k, v)]) -> insert k v m = m ++ [(k, v)].
Proof.
  intros Hs. assert (Hlt : forall x, x ∈ m -> lt x.1 k). { intros x Hx. apply sorted_app in Hs as (_ & _ & Hs). apply (Hs x (k, v) Hx). by left. }
  clear Hs. induction m as [|[k' v'] m IH]; simpl; [done|]. pose proof (Hlt (k', v') ltac:(left)) as Hk. unfold lt in Hk. simpl in Hk.
  rewrite compare_flip, Hk. simpl. rewrite IH; [done|]. intros x Hx. apply Hlt. by right.
Qed.

End Laws.

End BTree.
