(* ===== verification/Artifact.v ===== *)
(** The decoded artifact of src/artifact/mod.rs, the header of
    src/decode/container.rs and the limits of src/limits.rs, with the resolution
    and comparison of types of src/verify/modules.rs and functions.rs.

    A [ByteRange] of the artifact's bytes is the bytes it denotes: the decoder
    builds ranges only inside the section they come from.  Ids and indexes are
    [Z]; an index out of range is [Panic].

    [value_types_match] and [value_assignable] call themselves on the elements of
    arrays.  The host gives them a call stack of [depth] frames; a call beyond it
    aborts the process, [Panic]. *)

From S2P Require Import Prelude Words Bytes Value Frame Float Code.
Import Diagnostics.

Module Artifact.

(** ** Records *)

Inductive EntryArguments := NoArguments | StringArray.
#[global] Instance EntryArguments_eq : EqDecision EntryArguments.
Proof. solve_decision. Defined.

Record Header := mkHeader {
  runtime_major : Z; runtime_minor : Z; section_count : Z; semantic_features : Z; payload_end : Z;
  entry_module : Z; entry_function : Z; entry_arguments : EntryArguments }.

Record Manifest := mkManifest {
  required_heap_bytes : Z; required_stack_bytes : Z; maximum_coroutines : Z; maximum_call_depth : Z;
  maximum_host_requests : Z; maximum_events : Z; maximum_block_cost : Z; minimum_slice_cost : Z;
  required_capabilities : Z; optional_capabilities : Z; compiler_abi : list Z; platform_abi : list Z; maximum_channels : Z; maximum_channel_values : Z }.

Record ValueType := mkType { kind : Z; flags : Z; nominal_type : Z }.
#[global] Instance ValueType_eq : EqDecision ValueType.
Proof. solve_decision. Defined.

Record FunctionValue := mkValue { semantic_type : ValueType; components : list Frame.PhysicalAtom }.

Inductive NominalType :=
| InlineValue (name : Z) (components : list ValueType)
| Class (flags generic_arity name super_type : Z) (interfaces : list Z)
    (field_start field_count method_start method_count : Z) (initializer : option Z)
| Interface (flags generic_arity name super_type : Z) (interfaces : list Z) (method_start method_count : Z)
| Array (name storage : Z) (element : ValueType) (super_type : option Z)
| Function_ (name flags : Z) (result : ValueType) (parameters : list ValueType).

Inductive Constant :=
| CI32 (v : Z) | CI64 (v : Z) | CF32 (bits : Z) | CF64 (bits : Z) | CBool (b : bool) | CChar (c : Z)
| CString (literal : Z) | CNull.

Record CapabilityRecord := mkCapability {
  cap_namespace : Z; cap_name : Z; abi_major : Z; minimum_abi_minor : Z; cap_flags : Z; operation_count : Z }.

Record Import := mkImport {
  import_kind : Z; target_module : Z; target_name : Z; expected_signature : Z; target_hash : list Z }.

Record Export := mkExport { export_kind : Z; visibility : Z; export_name : Z; local_symbol : Z; export_signature : Z }.

Record Field := mkField { field_owner : Z; field_name : Z; value_type : ValueType; field_flags : Z }.

Record Function := mkFunction {
  fn_owner : Z; fn_name : Z; signature : Z; fn_flags : Z; register_count : Z; parameter_count : Z;
  first_block : Z; block_count : Z; first_exception : Z; exception_count : Z; values : list FunctionValue }.

Record Block := mkBlock {
  owner_function : Z; code_record : Z; instruction_count : Z; declared_fixed_cost : Z; block_flags : Z }.

Record SafepointRoots := mkRoots {
  roots_function : Z; roots_block : Z; instruction_boundary : Z; references : list Frame.ValueComponent }.

Record DebugEntry := mkDebug {
  debug_function : Z; debug_block : Z; debug_instruction : Z; start_utf16 : Z; end_utf16 : Z; inline_parent : Z;
  source_path : list Z; source_position : option (Z * Z) }.

Record DecodedCode := mkCode { code_range : list Z; instructions : list Code.Instruction; code_cost : Z }.

Record ExceptionEntry := mkException {
  exc_owner : Z; first_protected_block : Z; protected_block_count : Z; catch_type : Z; exc_handler : Z;
  exc_register : Z }.

Record DecodedModule := mkModule {
  name_string : Z; module_flags : Z; semantic_hash : list Z; declared_imports : Z; declared_exports : Z;
  declared_types : Z; declared_functions : Z; strings : list (list Z); utf16_literals : list (list Z);
  types : list NominalType; constants : list Constant; imports : list Import; exports : list Export;
  fields : list Field; functions : list Function; blocks : list Block; code : list DecodedCode;
  exceptions : list ExceptionEntry; safepoint_roots : list SafepointRoots; debug : list DebugEntry }.

Record DecodedArtifact := mkArtifact {
  art_bytes : list Z; content_hash : list Z; header : Header; manifest : Manifest; capabilities : list CapabilityRecord; modules : list DecodedModule }.

(** [ArtifactLimits]. *)
Record ArtifactLimits := mkLimits {
  artifact_bytes : Z; sections : Z; max_modules : Z; records_per_section : Z; strings_bytes : Z;
  utf16_literal_code_units : Z; code_bytes : Z; max_functions : Z; max_blocks : Z; registers_per_function : Z;
  physical_components_per_value : Z; safepoints_per_function : Z; roots_per_safepoint : Z; max_imports : Z;
  max_exceptions : Z; max_capabilities : Z; debug_bytes : Z; max_diagnostics : Z }.

Definition limits_default : ArtifactLimits :=
  mkLimits (16 * 1024 * 1024) 4096 1024 1000000 (8 * 1024 * 1024) (4 * 1024 * 1024) (12 * 1024 * 1024) 1000000
    4000000 u16_max u16_max 1000000 u16_max 1000000 1000000 65536 (16 * 1024 * 1024) 32.

(** The literals [TypeId(u32::MAX)] and [u16::MAX] that stand for nothing. *)
Definition NO_TYPE : Z := u32_max.
Definition NO_REGISTER : Z := u16_max.

Definition bit (n v : Z) : bool := Z.testbit v n.

(** ** Resolution of types *)

Abbreviation Dia := (outcome DiagnosticSet).

Section Types.
Context (art : DecodedArtifact).

Definition module_at (m : Z) : Dia DecodedModule := expect (zget (modules art) m).
Definition type_at (identity : Z * Z) : Dia NominalType :=
  m ← module_at identity.1;
  expect (zget (types m) identity.2).

Definition named (m : DecodedModule) (id : Z) (name : list Z) : bool :=
  match zget (strings m) id with
  | Some s => bool_decide (s = name)
  | None => false
  end.

Definition resolved_type (module_id reference : Z) : Dia (option (Z * Z)) :=
  if reference =? NO_TYPE then Ok None
  else
    m ← module_at module_id;
    if Z.land reference 0x80000000 =? 0 then
      Ok (if reference <? Z.of_nat (length (types m)) then Some (module_id, reference) else None)
    else
      Ok (import ← zget (imports m) (Z.land reference 0x7fffffff);
          if negb (import_kind import =? 0) then None
          else
            target ← zget (modules art) (target_module import);
            source_name ← zget (strings m) (target_name import);
            export ← List.find (fun e => (export_kind e =? 0) && named target (export_name e) source_name) (exports target);
            if local_symbol export <? Z.of_nat (length (types target))
            then Some (target_module import, local_symbol export) else None).

Fixpoint value_types_match (depth : nat) (left_module : Z) (left : ValueType) (right_module : Z) (right : ValueType)
    : Dia bool :=
  match depth with
  | O => Panic
  | S depth =>
      if negb ((kind left =? kind right) && (flags left =? flags right)) then Ok false
      else if (kind left =? 7) || (kind left =? 8) then
        l ← resolved_type left_module (nominal_type left);
        r ← resolved_type right_module (nominal_type right);
        match l, r with
        | Some l, Some r =>
            tl ← type_at l;
            tr ← type_at r;
            match tl, tr with
            | Array _ left_storage left_element _, Array _ right_storage right_element _ =>
                if left_storage =? right_storage
                then value_types_match depth l.1 left_element r.1 right_element else Ok false
            | _, _ => Ok (bool_decide (l = r))
            end
        | _, _ => Ok false
        end
      else Ok true
  end.

(** [iter().zip().all()], of a test that may fail. *)
Fixpoint all_match {A} (test : A -> A -> Dia bool) (xs ys : list A) : Dia bool :=
  match xs, ys with
  | x :: xs, y :: ys => b ← test x y; if (b : bool) then all_match test xs ys else Ok false
  | _, _ => Ok true
  end.

Definition signatures_match (depth : nat) (left_module left right_module right : Z) : Dia bool :=
  l ← resolved_type left_module left;
  r ← resolved_type right_module right;
  match l, r with
  | Some l, Some r =>
      tl ← type_at l;
      tr ← type_at r;
      match tl, tr with
      | Function_ _ left_flags left_result left_parameters, Function_ _ right_flags right_result right_parameters =>
          if negb (left_flags =? right_flags) then Ok false
          else
            b ← value_types_match depth l.1 left_result r.1 right_result;
            if negb b then Ok false
            else if negb (length left_parameters =? length right_parameters)%nat then Ok false
            else all_match (fun x y => value_types_match depth l.1 x r.1 y) left_parameters right_parameters
      | _, _ => Ok (bool_decide (l = r))
      end
  | _, _ => Ok false
  end.

(** ** Assignability *)

(** [filter_map] of the resolution over the interfaces. *)
Fixpoint resolve_all (module_id : Z) (references : list Z) : Dia (list (Z * Z)) :=
  match references with
  | [] => Ok []
  | reference :: references =>
      t ← resolved_type module_id reference;
      rest ← resolve_all module_id references;
      Ok (match t with Some t => t :: rest | None => rest end)
  end.

(** What [nominal_assignable] pushes for a type, in order. *)
Definition parents (module_id : Z) (t : NominalType) : Dia (list (Z * Z)) :=
  match t with
  | Class _ _ _ super_type interfaces _ _ _ _ _ | Interface _ _ _ super_type interfaces _ _ =>
      s ← (if super_type =? NO_TYPE then Ok None else resolved_type module_id super_type);
      is_ ← resolve_all module_id interfaces;
      Ok (match s with Some s => s :: is_ | None => is_ end)
  | Array _ _ _ (Some parent) =>
      p ← resolved_type module_id parent;
      Ok (match p with Some p => [p] | None => [] end)
  | _ => Ok []
  end.

(** The loop; the head of [stack] is its top. *)
Fixpoint nominal_loop (fuel : nat) (destination : Z * Z) (stack visited : list (Z * Z)) : Dia bool :=
  match stack with
  | [] => Ok false
  | identity :: stack =>
      match fuel with
      | O => Panic
      | S fuel =>
          if bool_decide (identity = destination) then Ok true
          else if bool_decide (identity ∈ visited) then nominal_loop fuel destination stack visited
          else
            t ← type_at identity;
            ps ← parents identity.1 t;
            nominal_loop fuel destination (rev ps ++ stack) (visited ++ [identity])
      end
  end.

(** The pushes there can be: each type is expanded once. *)
Definition parent_count (t : NominalType) : nat :=
  match t with
  | Class _ _ _ _ interfaces _ _ _ _ _ | Interface _ _ _ _ interfaces _ _ => S (length interfaces)
  | Array _ _ _ _ => 1
  | _ => 0
  end.
Definition nominal_fuel : nat :=
  S (list_sum (map (fun m => list_sum (map parent_count (types m))) (modules art))).

Definition nominal_assignable (source destination : Z * Z) : Dia bool :=
  nominal_loop nominal_fuel destination [source] [].

Fixpoint value_assignable (depth : nat) (source_module : Z) (source : ValueType) (destination_module : Z)
    (destination : ValueType) : Dia bool :=
  match depth with
  | O => Panic
  | S depth =>
      if negb (kind source =? kind destination) then Ok false
      else if kind source =? 7 then
        if bit 0 (flags source) && negb (bit 0 (flags destination)) then Ok false
        else
          s ← resolved_type source_module (nominal_type source);
          d ← resolved_type destination_module (nominal_type destination);
          match s, d with
          | Some s, Some d =>
              ts ← type_at s;
              td ← type_at d;
              match ts, td with
              | Array _ source_storage source_element _, Array _ destination_storage destination_element _ =>
                  if negb (source_storage =? destination_storage) then Ok false
                  else
                    b ← value_assignable depth s.1 source_element d.1 destination_element;
                    if (b : bool) then value_assignable depth d.1 destination_element s.1 source_element else Ok false
              | _, _ => nominal_assignable s d
              end
          | _, _ => Ok false
          end
      else if kind source =? 8 then
        s ← resolved_type source_module (nominal_type source);
        d ← resolved_type destination_module (nominal_type destination);
        Ok (match s, d with Some s, Some d => bool_decide (s = d) | _, _ => false end)
      else Ok true
  end.

End Types.

End Artifact.
