(* ===== verification/Verify.v ===== *)
(** The verifier of functions: src/verify/functions.rs and cfg.rs.

    [verify_control_flow] collects the edges between the blocks of a function;
    [verify_dataflow] is a work list over the blocks that computes which registers
    are certainly written, and checks every instruction against it and against the
    types of the registers.  A set of registers is its words of 64 bits, as in the
    source. *)

From S2P Require Import Prelude Words Bytes Value Frame Float Code Artifact.
Import Diagnostics Artifact.

Module Verify.
Import Code.

Record Handler := mkHandler {
  protected_start : Z; protected_end : Z; handler_block : Z; exception_register : Z }.

Definition ExceptionModel := list (list (list Handler)).

(** [failure] of functions.rs and cfg.rs. *)
Definition failure_at (limits : ArtifactLimits) (family : Family) (code : Diagnostics.Code) (module_ function_ : Z)
    (detail : string) : DiagnosticSet :=
  let d := at_offset family code 0 (text detail) in
  push (DiagnosticSet_new (Z.to_nat (max_diagnostics limits)))
    (mkDiagnostic family code
       (mkLocation (offset (location d)) None (try_from_unsigned u32_max module_) (try_from_unsigned u32_max function_)
          None None) (Diagnostics.detail d)).

Definition numeric_form_kind (form : Z) : Z := if form =? 8 then 1 else if form =? 9 then 2 else form.
Definition numeric (k : Z) : bool := in_range 1 4 k.
Definition convertible (source destination : Z) : bool :=
  (numeric source && numeric destination)
  || ((source =? 1) && (destination =? 6)) || ((source =? 6) && (destination =? 1)).

Definition constant_assignable (c : Constant) (destination : ValueType) : bool :=
  match c with
  | CI32 _ => kind destination =? 1
  | CI64 _ => kind destination =? 2
  | CF32 _ => kind destination =? 3
  | CF64 _ => kind destination =? 4
  | CBool _ => kind destination =? 5
  | CChar _ => kind destination =? 6
  | CString _ => kind destination =? 7
  | CNull => (kind destination =? 7) && bit 0 (flags destination)
  end.

(** ** Sets of registers *)

Definition get (bits : list Z) (b : Z) : bool :=
  match zget bits (b / 64) with
  | Some word => negb (Z.land word (Z.shiftl 1 (b mod 64)) =? 0)
  | None => false
  end.

Definition set {E} (b : Z) : ST (list Z) E unit := fun bits =>
  match zget bits (b / 64) with
  | Some word => (Ok tt, zset (b / 64) (Z.lor word (Z.shiftl 1 (b mod 64))) bits)
  | None => (Panic, bits)
  end.

Definition may_throw (i : Instruction) : bool :=
  match i with
  | Convert _ _ _ | Div _ _ _ _ | Rem _ _ _ _ | NewObject _ _ | NewArray _ _ _ | ArrayLength _ _ | ArrayLoad _ _ _
  | ArrayStore _ _ _ | ArrayCopy _ _ _ _ _ | FieldGet _ _ _ | FieldSet _ _ _ | StaticGet _ _ | StaticSet _ _
  | CheckedCast _ _ _ | CallDirect _ _ _ | CallVirtual _ _ _ | CallInterface _ _ _ | CoroutineSpawn _ _ _
  | CapabilityCallSync _ _ _ _ | Throw _ | CallSuspend _ _ _ _ | StringValueOf _ _ _ | StringLength _ _
  | StringGet _ _ _ | StringEquals _ _ _ | StringCompare _ _ _ | StringHash _ _ | StringConcat _ _ _
  | StringSubstring _ _ _ _ | StringFromCharArray _ _ _ _ | Sleep _ _ | CoroutineJoin _ _ _ | ChannelCreate _ _
  | ChannelSend _ _ _ | ChannelReceive _ _ _ | CapabilityCallAsync _ _ _ _ _ => true
  | _ => false
  end.

Definition is_allocation (i : Instruction) : bool :=
  match i with
  | NewObject _ _ | NewArray _ _ _ | StringConcat _ _ _ | StringValueOf _ _ _ | StringSubstring _ _ _ _
  | StringFromCharArray _ _ _ _ => true
  | _ => false
  end.

Inductive CallKind := Direct | Virtual | InterfaceCall | Suspend.

(** The condition of a [return Err(..)]. *)
Definition reject {S E} (b : bool) (e : E) : ST S E unit := if b then st_err e else mret tt.

Section Function.
Context (art : DecodedArtifact) (depth : nat) (limits : ArtifactLimits) (module_id function_id : Z) (function : Function).

Definition failure (family : Family) (code : Diagnostics.Code) (detail : string) : DiagnosticSet :=
  failure_at limits family code module_id function_id detail.
Definition type_failure (detail : string) : DiagnosticSet := failure Type_ BadType detail.
Definition code_failure (detail : string) : DiagnosticSet := failure Code_ BadInstruction detail.
Definition capability_failure (detail : string) : DiagnosticSet := failure Capability BadCapability detail.

(** ** Resolution of operands *)

(** [find] over the exports of the target, with the comparison of signatures. *)
Fixpoint find_export (target_id : Z) (target : DecodedModule) (import : Import) (source_name : list Z)
    (es : list Export) : Dia (option Export) :=
  match es with
  | [] => Ok None
  | e :: es =>
      if (export_kind e =? import_kind import) && named target (export_name e) source_name then
        b ← signatures_match art depth module_id (expected_signature import) target_id (export_signature e);
        if (b : bool) then Ok (Some e) else find_export target_id target import source_name es
      else find_export target_id target import source_name es
  end.

Definition resolve_symbol (reference k : Z) : Dia (Z * Z) :=
  if reference =? u32_max then Err (code_failure "symbol reference uses the absent sentinel")
  else if Z.land reference 0x80000000 =? 0 then Ok (module_id, reference)
  else
    m ← module_at art module_id;
    import ← ok_or (zget (imports m) (Z.land reference 0x7fffffff)) (code_failure "import reference is out of range");
    if negb (import_kind import =? k) then Err (type_failure "import reference has the wrong symbol kind")
    else
      target ← ok_or (zget (modules art) (target_module import)) (code_failure "import target module is out of range");
      source_name ← ok_or (zget (strings m) (target_name import)) (code_failure "import target name is out of range");
      e ← find_export (target_module import) target import source_name (exports target);
      match e with
      | Some e => Ok (target_module import, local_symbol e)
      | None => Err (code_failure "imported symbol does not resolve")
      end.

Definition resolve_function (reference : Z) : Dia (Z * Function) :=
  '(target, symbol) ← resolve_symbol reference 1;
  m ← module_at art target;
  f ← ok_or (zget (functions m) symbol) (code_failure "function reference is out of range");
  Ok (target, f).

Definition resolve_field (reference : Z) : Dia (Z * Field) :=
  '(target, symbol) ← resolve_symbol reference 2;
  m ← module_at art target;
  f ← ok_or (zget (fields m) symbol) (code_failure "field reference is out of range");
  Ok (target, f).

Definition resolve_type_operand (reference : Z) : Dia (Z * Z) :=
  t ← resolved_type art module_id reference;
  ok_or t (type_failure "type operand does not resolve").

Definition inline_layout (v : ValueType) : Dia (Z * list ValueType) :=
  if negb (kind v =? 8) || (runtime_minor (header art) <? 15)
  then Err (type_failure "inline values require Runtime ABI 1.15")
  else
    t ← resolved_type art module_id (nominal_type v);
    identity ← ok_or t (type_failure "inline nominal type does not resolve");
    nominal ← type_at art identity;
    match nominal with
    | InlineValue _ cs => Ok (identity.1, cs)
    | _ => Err (type_failure "inline value does not name an inline layout")
    end.

Definition kotlin_string : list Z := text "kotlin.String".

(** The exports of one module, in [resolve_string_type]. *)
Fixpoint string_exports (candidate : Z) (m : DecodedModule) (es : list Export) (found : option (Z * Z))
    : Dia (option (Z * Z)) :=
  match es with
  | [] => Ok found
  | e :: es =>
      if (export_kind e =? 0) && (visibility e =? 1) && named m (export_name e) kotlin_string then
        match found with
        | Some _ => Err (type_failure "artifact has more than one public kotlin.String type")
        | None => string_exports candidate m es (Some (candidate, local_symbol e))
        end
      else string_exports candidate m es found
  end.

Fixpoint string_modules (candidate : Z) (ms : list DecodedModule) (found : option (Z * Z)) : Dia (option (Z * Z)) :=
  match ms with
  | [] => Ok found
  | m :: ms =>
      found ← (if negb (module_flags m =? 2) then Ok found else string_exports candidate m (exports m) found);
      string_modules (candidate + 1) ms found
  end.

Definition resolve_string_type : Dia (Z * Z) :=
  found ← string_modules 0 (modules art) None;
  string_type ← ok_or found (type_failure "artifact has no public kotlin.String type");
  m ← module_at art string_type.1;
  match zget (types m) string_type.2 with
  | Some (Class class_flags _ _ _ _ _ field_count _ _ _) =>
      if bit 0 class_flags || negb (bit 1 class_flags) || negb (field_count =? 0)
      then Err (type_failure "kotlin.String must be final, concrete, and fieldless") else Ok string_type
  | _ => Err (type_failure "kotlin.String export does not resolve to a class")
  end.

(** ** Registers *)

Definition register_type (register : Z) : Dia ValueType :=
  v ← ok_or (zget (values function) register) (failure Register_ BadInstruction "register is out of range");
  Ok (semantic_type v).

Abbreviation Ver := (ST (list Z) DiagnosticSet).

Definition read (register : Z) : Ver unit := fun state =>
  (_ ← register_type register;
   if negb (get state register)
   then Err (failure Register_ UninitializedRegister "instruction reads an uninitialized register") else Ok tt, state).

Definition write (register : Z) : Ver unit :=
  _ ← st_lift (register_type register);
  set register.

Definition require_kind (register k : Z) : Dia ValueType :=
  v ← register_type register;
  if kind v =? k then Ok v else Err (type_failure "register has the wrong value kind").

Definition require_string (register : Z) : Dia unit :=
  v ← register_type register;
  actual ← resolved_type art module_id (nominal_type v);
  expected ← resolve_string_type;
  guard_err (negb (kind v =? 7) || bit 0 (flags v) || negb (bool_decide (actual = Some expected)))
    (type_failure "register is not the non-null standard-library String type").

(** [if !value_assignable(..) { return Err(type_failure(detail)) }]. *)
Definition require_assignable (source_module : Z) (source : ValueType) (destination_module : Z)
    (destination : ValueType) (detail : string) : Dia unit :=
  b ← value_assignable art depth source_module source destination_module destination;
  guard_err (negb b) (type_failure detail).

Definition require_match (left_module : Z) (left : ValueType) (right_module : Z) (right : ValueType) (detail : string)
    : Dia unit :=
  b ← value_types_match art depth left_module left right_module right;
  guard_err (negb b) (type_failure detail).

Definition require_reference_destination (dst : Z) (identity : Z * Z) : Dia unit :=
  destination ← require_kind dst 7;
  require_assignable identity.1 (mkType 7 0 identity.2) module_id destination
    "reference destination has an incompatible nominal type".

Definition array_element (array : Z) : Ver (Z * ValueType) :=
  _ ← read array;
  st_lift
    (array_type ← require_kind array 7;
     if bit 0 (flags array_type) then Err (type_failure "array receiver is nullable")
     else
       t ← resolved_type art module_id (nominal_type array_type);
       identity ← ok_or t (type_failure "array type does not resolve");
       nominal ← type_at art identity;
       match nominal with
       | Array _ _ element _ => Ok (identity.1, element)
       | _ => Err (type_failure "array register is not an array type")
       end).

Definition verify_receiver (receiver owner_module owner : Z) : Ver unit :=
  _ ← read receiver;
  st_lift
    (receiver_type ← require_kind receiver 7;
     if bit 0 (flags receiver_type) then Err (type_failure "field receiver is nullable")
     else require_assignable module_id receiver_type owner_module (mkType 7 0 owner)
            "field receiver has an incompatible type").

Definition verify_capability (capability operation : Z) : Dia unit :=
  descriptor ← ok_or (zget (capabilities art) capability) (capability_failure "capability id is out of range");
  guard_err (operation_count descriptor <=? operation) (capability_failure "capability operation id is out of range").

(** [for r in rs { read(r)? }]. *)
Fixpoint read_all (rs : list Z) : Ver unit :=
  match rs with
  | [] => mret tt
  | r :: rs => _ ← read r; read_all rs
  end.

(** ** Instructions

    One definition per arm of [verify_instruction]. *)

(** The components of a construction against the layout. *)
Fixpoint construct_components (layout_module : Z) (sources : list Z) (layout : list ValueType) : Ver unit :=
  match sources, layout with
  | source :: sources, expected :: layout =>
      _ ← read source;
      actual ← st_lift (register_type source);
      _ ← st_lift (require_match module_id actual layout_module expected "inline construction component type differs");
      construct_components layout_module sources layout
  | _, _ => mret tt
  end.

Definition verify_inline_construct (dst : Z) (sources : list Z) : Ver unit :=
  v ← st_lift (register_type dst);
  '(layout_module, layout) ← st_lift (inline_layout v);
  _ ← reject (negb (length sources =? length layout)%nat) (type_failure "inline construction component count differs");
  _ ← construct_components layout_module sources layout;
  write dst.

Definition verify_inline_component (dst src n : Z) : Ver unit :=
  _ ← read src;
  v ← st_lift (register_type src);
  '(layout_module, layout) ← st_lift (inline_layout v);
  expected ← st_lift (ok_or (zget layout n) (type_failure "inline component index is out of range"));
  actual ← st_lift (register_type dst);
  _ ← st_lift (require_match layout_module expected module_id actual "inline extraction component type differs");
  write dst.

Definition verify_move (dst src : Z) : Ver unit :=
  _ ← read src;
  dst_type ← st_lift (register_type dst);
  src_type ← st_lift (register_type src);
  _ ← st_lift (require_match module_id dst_type module_id src_type "move source and destination types differ");
  write dst.

Definition verify_const (dst constant : Z) : Ver unit :=
  m ← st_lift (module_at art module_id);
  v ← st_lift (ok_or (zget (constants m) constant) (code_failure "constant id is out of range"));
  destination ← st_lift (register_type dst);
  _ ← reject (negb (constant_assignable v destination)) (type_failure "constant is not assignable to destination");
  _ ← st_lift (match v with CString _ => require_string dst | _ => Ok tt end);
  write dst.

Definition verify_null (dst : Z) : Ver unit :=
  destination ← st_lift (register_type dst);
  _ ← reject (negb (kind destination =? 7) || negb (bit 0 (flags destination)))
        (type_failure "null destination is not a nullable reference");
  write dst.

(** The closure [check] of the matrix arm. *)
Definition check_matrix (operation : MatrixOperation) (register count : Z) : Dia unit :=
  v ← register_type register;
  '(_, layout) ← inline_layout v;
  guard_err (negb (Z.of_nat (length layout) =? count)
             || existsb (fun v => negb (kind v =? scalar_kind operation)) layout)
    (type_failure "matrix math requires exact scalar-width inline layout").

Definition verify_matrix (operation : MatrixOperation) (dst lhs : Z) (rhs : option Z) : Ver unit :=
  _ ← reject ((runtime_minor (header art) <? matrix_runtime_minor operation)
              || negb (bool_decide (is_Some rhs <-> is_Some (right_components operation))))
        (type_failure "matrix math requires operation ABI and exact arity");
  _ ← read lhs;
  _ ← st_lift (check_matrix operation lhs (left_components operation));
  _ ← (match rhs with
       | Some rhs =>
           _ ← read rhs;
           count ← st_lift (expect (right_components operation));
           st_lift (check_matrix operation rhs count)
       | None => mret tt
       end);
  _ ← st_lift (check_matrix operation dst (result_components operation));
  write dst.

Definition floating_form (form : Z) : bool := (form =? 3) || (form =? 4).

Definition verify_math_unary (form dst src : Z) : Ver unit :=
  _ ← reject ((runtime_minor (header art) <? 16) || negb (floating_form form))
        (type_failure "floating math requires Runtime ABI 1.16 and F32/F64");
  _ ← read src;
  _ ← st_lift (require_kind src form);
  _ ← st_lift (require_kind dst form);
  write dst.

Definition verify_math_binary (form dst lhs rhs : Z) : Ver unit :=
  _ ← reject ((runtime_minor (header art) <? 16) || negb (floating_form form))
        (type_failure "floating math requires Runtime ABI 1.16 and F32/F64");
  _ ← read lhs;
  _ ← read rhs;
  _ ← st_lift (require_kind lhs form);
  _ ← st_lift (require_kind rhs form);
  _ ← st_lift (require_kind dst form);
  write dst.

Definition integer_kind (k : Z) : bool := (k =? 1) || (k =? 2).

Definition verify_convert (form dst src : Z) : Ver unit :=
  _ ← read src;
  source ← st_lift (register_type src);
  destination ← st_lift (register_type dst);
  _ ← reject ((negb (form =? 0) && (runtime_minor (header art) <? 14))
              || (bit 0 form && negb (integer_kind (kind source)))
              || (bit 1 form && negb (integer_kind (kind destination)))
              || (bit 0 form && (kind destination =? 6))
              || negb (convertible (kind source) (kind destination)))
        (type_failure "convert register types are incompatible");
  write dst.

(** Arithmetic, bit operations and shifts; a shift takes its distance as an I32. *)
Definition verify_binary (form dst lhs rhs rhs_kind : Z) : Ver unit :=
  _ ← read lhs;
  _ ← read rhs;
  _ ← st_lift (require_kind dst (numeric_form_kind form));
  _ ← st_lift (require_kind lhs (numeric_form_kind form));
  _ ← st_lift (require_kind rhs rhs_kind);
  write dst.

Definition verify_neg (form dst src : Z) : Ver unit :=
  _ ← read src;
  _ ← st_lift (require_kind src form);
  _ ← st_lift (require_kind dst (numeric_form_kind form));
  write dst.

Definition verify_comparison (form dst lhs rhs : Z) : Ver unit :=
  _ ← read lhs;
  _ ← read rhs;
  _ ← st_lift (require_kind lhs (numeric_form_kind form));
  _ ← st_lift (require_kind rhs (numeric_form_kind form));
  _ ← st_lift (require_kind dst 5);
  write dst.

Definition verify_ref_comparison (dst lhs rhs : Z) : Ver unit :=
  _ ← read lhs;
  _ ← read rhs;
  left ← st_lift (require_kind lhs 7);
  right ← st_lift (require_kind rhs 7);
  l ← st_lift (resolved_type art module_id (nominal_type left));
  r ← st_lift (resolved_type art module_id (nominal_type right));
  _ ← reject (negb (bool_decide (l = r))
              && ((runtime_major (header art) <? 1)
                  || ((runtime_major (header art) =? 1) && (runtime_minor (header art) <? 6))))
        (type_failure "heterogeneous reference comparison requires Runtime ABI 1.6");
  _ ← st_lift (require_kind dst 5);
  write dst.

Definition verify_new_object (dst type_ref : Z) : Ver unit :=
  identity ← st_lift (resolve_type_operand type_ref);
  t ← st_lift (type_at art identity);
  _ ← reject (match t with Class class_flags _ _ _ _ _ _ _ _ _ => bit 0 class_flags | _ => true end)
        (type_failure "new_object target is not a concrete class");
  _ ← st_lift (require_reference_destination dst identity);
  write dst.

Definition is_array (t : NominalType) : bool := match t with Array _ _ _ _ => true | _ => false end.

Definition verify_new_array (dst type_ref length : Z) : Ver unit :=
  _ ← read length;
  _ ← st_lift (require_kind length 1);
  identity ← st_lift (resolve_type_operand type_ref);
  t ← st_lift (type_at art identity);
  _ ← reject (negb (is_array t)) (type_failure "new_array target is not an array type");
  _ ← st_lift (require_reference_destination dst identity);
  write dst.

Definition verify_array_length (dst array : Z) : Ver unit :=
  _ ← array_element array;
  _ ← st_lift (require_kind dst 1);
  write dst.

Definition verify_array_load (dst array index : Z) : Ver unit :=
  '(type_module, element) ← array_element array;
  _ ← read index;
  _ ← st_lift (require_kind index 1);
  destination ← st_lift (register_type dst);
  _ ← st_lift (require_assignable type_module element module_id destination
                 "array element is not assignable to destination");
  write dst.

Definition verify_array_store (array index v : Z) : Ver unit :=
  '(type_module, element) ← array_element array;
  _ ← read index;
  _ ← read v;
  _ ← st_lift (require_kind index 1);
  source ← st_lift (register_type v);
  st_lift (require_assignable module_id source type_module element "array store value has the wrong type").

(** The closure [storage] of the copy arm. *)
Definition array_storage (register : Z) : Dia (option Z) :=
  match zget (values function) register with
  | None => Ok None
  | Some v =>
      t ← resolved_type art module_id (nominal_type (semantic_type v));
      match t with
      | None => Ok None
      | Some array_type =>
          nominal ← type_at art array_type;
          Ok (match nominal with Array _ storage _ _ => Some storage | _ => None end)
      end
  end.

Definition verify_array_copy (source destination source_start destination_start length : Z) : Ver unit :=
  '(source_module, source_element) ← array_element source;
  '(destination_module, destination_element) ← array_element destination;
  _ ← read source_start;
  _ ← st_lift (require_kind source_start 1);
  _ ← read destination_start;
  _ ← st_lift (require_kind destination_start 1);
  _ ← read length;
  _ ← st_lift (require_kind length 1);
  s ← st_lift (array_storage source);
  d ← st_lift (array_storage destination);
  b ← st_lift (if bool_decide (s = d)
               then value_assignable art depth source_module source_element destination_module destination_element
               else Ok false);
  reject (negb b) (type_failure "array copy elements are incompatible").

Definition verify_field_get (dst receiver field_ref : Z) : Ver unit :=
  '(field_module, field) ← st_lift (resolve_field field_ref);
  _ ← reject (bit 1 (field_flags field)) (type_failure "field_get names a static field");
  _ ← verify_receiver receiver field_module (field_owner field);
  destination ← st_lift (register_type dst);
  _ ← st_lift (require_assignable field_module (value_type field) module_id destination
                 "field value is not assignable to destination");
  write dst.

Definition verify_field_set (receiver field_ref v : Z) : Ver unit :=
  '(field_module, field) ← st_lift (resolve_field field_ref);
  _ ← reject (negb (bit 0 (field_flags field)) || bit 1 (field_flags field))
        (type_failure "field_set requires a mutable instance field");
  _ ← verify_receiver receiver field_module (field_owner field);
  _ ← read v;
  source ← st_lift (register_type v);
  st_lift (require_assignable module_id source field_module (value_type field) "field store value has the wrong type").

Definition verify_static_get (dst field_ref : Z) : Ver unit :=
  '(field_module, field) ← st_lift (resolve_field field_ref);
  _ ← reject (negb (bit 1 (field_flags field))) (type_failure "static_get names an instance field");
  destination ← st_lift (register_type dst);
  _ ← st_lift (require_assignable field_module (value_type field) module_id destination
                 "static field value has the wrong type");
  write dst.

Definition verify_static_set (field_ref v : Z) : Ver unit :=
  '(field_module, field) ← st_lift (resolve_field field_ref);
  _ ← reject (negb (Z.land (field_flags field) 3 =? 3)) (type_failure "static_set requires a mutable static field");
  _ ← read v;
  source ← st_lift (register_type v);
  st_lift (require_assignable module_id source field_module (value_type field) "static field store has the wrong type").

Definition verify_is_type (dst v type_ref : Z) : Ver unit :=
  _ ← read v;
  _ ← st_lift (require_kind v 7);
  _ ← st_lift (resolve_type_operand type_ref);
  _ ← st_lift (require_kind dst 5);
  write dst.

Definition verify_checked_cast (dst v type_ref : Z) : Ver unit :=
  _ ← read v;
  _ ← st_lift (require_kind v 7);
  identity ← st_lift (resolve_type_operand type_ref);
  _ ← st_lift (require_reference_destination dst identity);
  write dst.

(** ** Calls *)

Fixpoint verify_arguments (parameter_module : Z) (args : list Z) (parameters : list ValueType) : Ver unit :=
  match args, parameters with
  | argument :: args, parameter :: parameters =>
      _ ← read argument;
      argument_type ← st_lift (register_type argument);
      _ ← st_lift (require_assignable module_id argument_type parameter_module parameter
                     "call argument type disagrees with signature");
      verify_arguments parameter_module args parameters
  | _, _ => mret tt
  end.

Definition verify_call_arguments (target_id : Z) (callee : Function) (args : list Z) : Ver (Z * ValueType) :=
  t ← st_lift (resolved_type art target_id (signature callee));
  identity ← st_lift (ok_or t (type_failure "call target signature does not resolve"));
  nominal ← st_lift (type_at art identity);
  match nominal with
  | Function_ _ _ result parameters =>
      _ ← reject (negb (length args =? length parameters)%nat)
            (type_failure "call argument count disagrees with signature");
      _ ← verify_arguments identity.1 args parameters;
      mret (identity.1, result)
  | _ => st_err (type_failure "call target signature is not a function type")
  end.

(** The [match kind] of [verify_call]. *)
Definition check_call_kind (k : CallKind) (target_id : Z) (callee : Function) : Dia unit :=
  match k with
  | Direct => guard_err (bit 0 (fn_flags callee)) (type_failure "call_direct targets a suspending function")
  | Virtual => guard_err (negb (bit 2 (fn_flags callee))) (type_failure "call_virtual target is not virtual")
  | InterfaceCall =>
      t ← resolved_type art target_id (fn_owner callee);
      owner ← ok_or t (type_failure "interface call owner does not resolve");
      nominal ← type_at art owner;
      guard_err (match nominal with Interface _ _ _ _ _ _ _ => false | _ => true end)
        (type_failure "call_interface target owner is not an interface")
  | Suspend => guard_err (negb (bit 0 (fn_flags callee))) (type_failure "call_suspend target is not suspending")
  end.

Definition verify_call (dst reference : Z) (args : list Z) (k : CallKind) : Ver unit :=
  '(target_id, callee) ← st_lift (resolve_function reference);
  _ ← reject (bit 3 (fn_flags callee) && match k with Direct => true | _ => false end)
        (type_failure "direct call targets an abstract function");
  _ ← st_lift (check_call_kind k target_id callee);
  '(result_module, result) ← verify_call_arguments target_id callee args;
  if kind result =? 0 then reject (negb (dst =? NO_REGISTER)) (type_failure "unit call has a destination register")
  else
    _ ← reject (dst =? NO_REGISTER) (type_failure "non-unit call omits its destination");
    destination ← st_lift (register_type dst);
    _ ← st_lift (require_assignable result_module result module_id destination
                   "call result is not assignable to destination");
    write dst.

Definition verify_spawn (dst function_ref : Z) (args : list Z) : Ver unit :=
  '(target_id, callee) ← st_lift (resolve_function function_ref);
  _ ← verify_call_arguments target_id callee args;
  _ ← st_lift (require_kind dst 1);
  write dst.

(** Both capability calls. *)
Definition verify_capability_call (dst capability operation : Z) (args : list Z) : Ver unit :=
  _ ← st_lift (verify_capability capability operation);
  _ ← read_all args;
  if dst =? NO_REGISTER then mret tt
  else
    v ← st_lift (register_type dst);
    _ ← reject ((kind v =? 8) && (runtime_minor (header art) <? 20))
          (type_failure "inline host responses require Runtime ABI 1.20");
    write dst.

(** ** Terminators and tasks *)

Definition verify_return (result_module : Z) (result : ValueType) (v : Z) : Ver unit :=
  if kind result =? 0 then reject (negb (v =? NO_REGISTER)) (type_failure "unit return contains a value")
  else
    _ ← read v;
    value_type ← st_lift (register_type v);
    st_lift (require_assignable module_id value_type result_module result "return value type disagrees with signature").

Definition verify_throw (e : Z) : Ver unit :=
  _ ← read e;
  v ← st_lift (require_kind e 7);
  reject (bit 0 (flags v)) (type_failure "throw operand is nullable").

(** [read(r)?; require_kind(r, k)?]. *)
Definition verify_use (register k : Z) : Ver unit :=
  _ ← read register;
  _ ← st_lift (require_kind register k);
  mret tt.

Definition verify_join (dst coroutine : Z) : Ver unit :=
  _ ← verify_use coroutine 1;
  reject (negb (dst =? NO_REGISTER)) (type_failure "task join destination must be Unit").

Definition verify_channel_create (dst capacity : Z) : Ver unit :=
  _ ← verify_use capacity 1;
  _ ← st_lift (require_kind dst 1);
  write dst.

Definition verify_channel_send (channel v : Z) : Ver unit :=
  _ ← read channel;
  _ ← read v;
  _ ← st_lift (require_kind channel 1);
  _ ← st_lift (require_kind v 1);
  mret tt.

Definition verify_channel_receive (dst channel : Z) : Ver unit :=
  _ ← verify_use channel 1;
  _ ← st_lift (require_kind dst 1);
  write dst.

(** ** Strings *)

(** [StringLength] and [StringHash]. *)
Definition verify_string_to_i32 (dst string : Z) : Ver unit :=
  _ ← read string;
  _ ← st_lift (require_string string);
  _ ← st_lift (require_kind dst 1);
  write dst.

Definition verify_string_get (dst string index : Z) : Ver unit :=
  _ ← read string;
  _ ← read index;
  _ ← st_lift (require_string string);
  _ ← st_lift (require_kind index 1);
  _ ← st_lift (require_kind dst 6);
  write dst.

(** [StringEquals] and [StringCompare], whose results have kinds 5 and 1. *)
Definition verify_string_relation (dst lhs rhs k : Z) : Ver unit :=
  _ ← read lhs;
  _ ← read rhs;
  _ ← st_lift (require_string lhs);
  _ ← st_lift (require_string rhs);
  _ ← st_lift (require_kind dst k);
  write dst.

Definition verify_string_concat (dst lhs rhs : Z) : Ver unit :=
  _ ← read lhs;
  _ ← read rhs;
  _ ← st_lift (require_string lhs);
  _ ← st_lift (require_string rhs);
  _ ← st_lift (require_string dst);
  write dst.

Definition verify_value_hash (form dst source : Z) : Ver unit :=
  _ ← reject ((form =? 4) && (runtime_minor (header art) <? 12))
        (type_failure "Double text and hashing require Runtime ABI 1.12");
  _ ← reject ((runtime_minor (header art) <? 11) || negb (in_range 1 7 form))
        (type_failure "value hash requires Runtime ABI 1.11 and a supported form");
  _ ← read source;
  _ ← st_lift (require_kind source form);
  _ ← st_lift (require_kind dst 1);
  write dst.

Definition verify_string_value_of (form dst source : Z) : Ver unit :=
  _ ← reject ((form =? 4) && (runtime_minor (header art) <? 12))
        (type_failure "Double text and hashing require Runtime ABI 1.12");
  _ ← reject (negb (in_range 1 9 form)) (type_failure "unsupported string conversion form");
  _ ← reject ((form =? 7) && (runtime_minor (header art) <? 10))
        (type_failure "reference string conversion requires Runtime ABI 1.10");
  _ ← read source;
  _ ← st_lift (require_kind source (numeric_form_kind form));
  _ ← st_lift (require_string dst);
  write dst.

Definition verify_substring (dst string start stop : Z) : Ver unit :=
  _ ← read string;
  _ ← read start;
  _ ← read stop;
  _ ← st_lift (require_string string);
  _ ← st_lift (require_kind start 1);
  _ ← st_lift (require_kind stop 1);
  _ ← st_lift (require_string dst);
  write dst.

Definition verify_string_from_char_array (dst array start stop : Z) : Ver unit :=
  '(_, element) ← array_element array;
  _ ← reject (negb (kind element =? 6)) (type_failure "string source is not a CharArray");
  _ ← read start;
  _ ← read stop;
  _ ← st_lift (require_kind start 1);
  _ ← st_lift (require_kind stop 1);
  _ ← st_lift (require_string dst);
  write dst.

(** ** [verify_instruction] *)

Definition is_call_suspend (i : Instruction) : bool := match i with CallSuspend _ _ _ _ => true | _ => false end.

Section Signature.
Context (result_module : Z) (result : ValueType).

(** The [match instruction]. *)
Definition verify_operands (i : Instruction) : Ver unit :=
  match i with
  | InlineConstruct dst sources => verify_inline_construct dst sources
  | InlineComponent dst src n => verify_inline_component dst src n
  | Nop | Jump _ | Unreachable => mret tt
  | Move dst src => verify_move dst src
  | Const dst constant => verify_const dst constant
  | Null dst => verify_null dst
  | MatrixMath operation dst lhs rhs => verify_matrix operation dst lhs rhs
  | MathUnary form _ dst src => verify_math_unary form dst src
  | MathBinary form _ dst lhs rhs => verify_math_binary form dst lhs rhs
  | Convert form dst src => verify_convert form dst src
  | Add form dst lhs rhs | Sub form dst lhs rhs | Mul form dst lhs rhs | Div form dst lhs rhs | Rem form dst lhs rhs
  | BitAnd form dst lhs rhs | BitOr form dst lhs rhs | BitXor form dst lhs rhs =>
      verify_binary form dst lhs rhs (numeric_form_kind form)
  | ShiftLeft form dst lhs rhs | ShiftRight form dst lhs rhs | ShiftUnsigned form dst lhs rhs =>
      verify_binary form dst lhs rhs 1
  | Neg form dst src => verify_neg form dst src
  | Equal form dst lhs rhs | NotEqual form dst lhs rhs | Less form dst lhs rhs | LessEqual form dst lhs rhs
  | Greater form dst lhs rhs | GreaterEqual form dst lhs rhs => verify_comparison form dst lhs rhs
  | RefEqual dst lhs rhs | RefNotEqual dst lhs rhs => verify_ref_comparison dst lhs rhs
  | NewObject dst type_ref => verify_new_object dst type_ref
  | NewArray dst type_ref length => verify_new_array dst type_ref length
  | ArrayLength dst array => verify_array_length dst array
  | ArrayLoad dst array index => verify_array_load dst array index
  | ArrayStore array index v => verify_array_store array index v
  | ArrayCopy source destination source_start destination_start length =>
      verify_array_copy source destination source_start destination_start length
  | FieldGet dst receiver field_ref => verify_field_get dst receiver field_ref
  | FieldSet receiver field_ref v => verify_field_set receiver field_ref v
  | StaticGet dst field_ref => verify_static_get dst field_ref
  | StaticSet field_ref v => verify_static_set field_ref v
  | IsType dst v type_ref => verify_is_type dst v type_ref
  | CheckedCast dst v type_ref => verify_checked_cast dst v type_ref
  | CallDirect dst function_ref args => verify_call dst function_ref args Direct
  | CallVirtual dst function_ref args => verify_call dst function_ref args Virtual
  | CallInterface dst function_ref args => verify_call dst function_ref args InterfaceCall
  | CoroutineSpawn dst function_ref args => verify_spawn dst function_ref args
  | CapabilityCallSync dst capability operation args => verify_capability_call dst capability operation args
  | Branch condition _ _ => verify_use condition 5
  | SwitchI32 key _ _ => verify_use key 1
  | Return v => verify_return result_module result v
  | Throw e => verify_throw e
  | CallSuspend dst function_ref args _ => verify_call dst function_ref args Suspend
  | Yield _ => mret tt
  | Sleep duration _ => verify_use duration 2
  | CoroutineJoin dst coroutine _ => verify_join dst coroutine
  | ChannelCreate dst capacity => verify_channel_create dst capacity
  | ChannelSend channel v _ => verify_channel_send channel v
  | ChannelReceive dst channel _ => verify_channel_receive dst channel
  | CapabilityCallAsync dst capability operation args _ => verify_capability_call dst capability operation args
  | StringLength dst string | StringHash dst string => verify_string_to_i32 dst string
  | StringGet dst string index => verify_string_get dst string index
  | StringEquals dst lhs rhs => verify_string_relation dst lhs rhs 5
  | StringCompare dst lhs rhs => verify_string_relation dst lhs rhs 1
  | StringConcat dst lhs rhs => verify_string_concat dst lhs rhs
  | ValueHash form dst source => verify_value_hash form dst source
  | StringValueOf form dst source => verify_string_value_of form dst source
  | StringSubstring dst string start stop => verify_substring dst string start stop
  | StringFromCharArray dst array start stop => verify_string_from_char_array dst array start stop
  end.

Definition verify_instruction (i : Instruction) : Ver unit :=
  _ ← reject (negb (bit 0 (fn_flags function)) && is_call_suspend i)
        (failure Cfg BadControlFlow "suspending terminator appears in a non-suspending function");
  _ ← reject (uses_unsigned_semantics i && (runtime_minor (header art) <? 14))
        (type_failure "unsigned numeric forms require Runtime ABI 1.14");
  verify_operands i.

End Signature.

(** ** Costs: [fixed_cost_for_values] of src/decode/code.rs *)

Definition transferred (i : Instruction) : list Z :=
  match i with
  | Move _ src => [src]
  | Return v => if v =? NO_REGISTER then [] else [v]
  | CallDirect _ _ args | CallVirtual _ _ args | CallInterface _ _ args | CallSuspend _ _ args _
  | CoroutineSpawn _ _ args => args
  | _ => []
  end.

Definition transfer_cost (register : Z) : Z :=
  match zget (values function) register with
  | Some v =>
      if kind (semantic_type v) =? 8
      then wrap_unsigned 32 (saturating_sub (Z.of_nat (length (components v))) 1) else 0
  | None => 0
  end.

Fixpoint transfer_costs (total : Z) (registers : list Z) : outcome Diagnostic Z :=
  match registers with
  | [] => Ok total
  | r :: registers =>
      total ← ok_or (checked_add u32_max total (transfer_cost r)) (cost_overflow "inline transfer cost overflows u32");
      transfer_costs total registers
  end.

Definition fixed_cost_for_values (i : Instruction) : outcome Diagnostic Z :=
  additional ← transfer_costs 0 (transferred i);
  fixed ← fixed_cost i;
  ok_or (checked_add u32_max fixed additional) (cost_overflow "inline transfer cost overflows u32").

(** The [try_fold] over the instructions of a block. *)
Fixpoint block_cost (total : Z) (is_ : list Instruction) : Dia Z :=
  match is_ with
  | [] => Ok total
  | i :: is_ =>
      match fixed_cost_for_values i with
      | Ok cost =>
          total ← ok_or (checked_add u32_max total cost) (failure Cost BadCost "block fixed cost overflows u32");
          block_cost total is_
      | Err d => Err (single d)
      | Panic => Panic
      end
  end.

(** ** Data flow *)

Record Flow := mkFlow { states : list (option (list Z)); queue : list Z }.

(** The loop of [merge_state] over the words: whether one changed, and the words. *)
Fixpoint merge_words (existing incoming : list Z) : bool * list Z :=
  match existing, incoming with
  | word :: existing, other :: incoming =>
      let intersection := Z.land word other in
      let '(changed, rest) := merge_words existing incoming in
      (negb (intersection =? word) || changed, intersection :: rest)
  | existing, _ => (false, existing)
  end.

Definition merge_state (t : Z) (incoming : list Z) : ST Flow DiagnosticSet unit := fun f =>
  match zget (states f) t with
  | None => (Panic, f)
  | Some None => (Ok tt, mkFlow (zset t (Some incoming) (states f)) (queue f ++ [t]))
  | Some (Some existing) =>
      let '(changed, merged) := merge_words existing incoming in
      (Ok tt, mkFlow (zset t (Some merged) (states f)) (if changed then queue f ++ [t] else queue f))
  end.

Fixpoint merge_all (ts : list Z) (incoming : list Z) : ST Flow DiagnosticSet unit :=
  match ts with
  | [] => mret tt
  | t :: ts => _ ← merge_state t incoming; merge_all ts incoming
  end.

Fixpoint set_all (rs : list Z) : Ver unit :=
  match rs with
  | [] => mret tt
  | r :: rs => _ ← set r; set_all rs
  end.

Definition parameters_of : list Z := seqZ 0 (parameter_count function).

(** What a handler may count on: the registers written before the instruction,
    the parameters and the exception. *)
Fixpoint merge_handlers (handlers : list Handler) (state : list Z) : ST Flow DiagnosticSet unit :=
  match handlers with
  | [] => mret tt
  | h :: handlers =>
      incoming ← st_lift (let '(r, incoming) := set_all (parameters_of ++ [exception_register h]) state in
                          _ ← r; Ok incoming);
      local ← st_lift (expect (checked_sub (handler_block h) (first_block function)));
      _ ← merge_state local incoming;
      merge_handlers handlers state
  end.

Definition protects (block_id : Z) (h : Handler) : bool :=
  (protected_start h <=? block_id) && (block_id <? protected_end h).

Section Dataflow.
Context (result_module : Z) (result : ValueType) (successors : list (list Z)) (handlers : list Handler).

(** The instructions of a block; the state is the flow and the registers written. *)
Fixpoint verify_instructions (block_id : Z) (index : nat) (allocation_seen : bool) (is_ : list Instruction)
    : ST (Flow * list Z) DiagnosticSet unit := fun '(f, state) =>
  match is_ with
  | [] => (Ok tt, (f, state))
  | i :: is_ =>
      if is_allocation i && (negb (index =? 0)%nat || allocation_seen)
      then (Err (code_failure "allocation must be the first and only allocating instruction in its block"), (f, state))
      else
        let '(r, f) := (if may_throw i then merge_handlers (List.filter (protects block_id) handlers) state
                        else mret tt) f in
        match r with
        | Ok _ =>
            let '(r, state) := verify_instruction result_module result i state in
            match r with
            | Ok _ => verify_instructions block_id (S index) (allocation_seen || is_allocation i) is_ (f, state)
            | Err e => (Err e, (f, state))
            | Panic => (Panic, (f, state))
            end
        | Err e => (Err e, (f, state))
        | Panic => (Panic, (f, state))
        end
  end.

(** The checks on a block before its instructions. *)
Definition check_block (block_id : Z) : Dia (list Instruction) :=
  m ← module_at art module_id;
  block ← expect (zget (blocks m) block_id);
  record ← expect (zget (code m) block_id);
  if negb (Z.of_nat (length (instructions record)) =? instruction_count block)
  then Err (failure Code_ BadInstruction "decoded instruction count disagrees with block")
  else
    cost ← block_cost 0 (instructions record);
    if negb (cost =? code_cost record) || negb (cost =? declared_fixed_cost block)
       || (maximum_block_cost (manifest art) <? cost)
    then Err (failure Cost BadCost "declared and recomputed block costs disagree")
    else Ok (instructions record).

(** The instructions of a block from a state, and what its successors get. *)
Definition flow_block (local_block : Z) (is_ : list Instruction) (state : list Z) : ST Flow DiagnosticSet unit := fun f =>
  let '(r, (f, state)) := verify_instructions (first_block function + local_block) 0 false is_ (f, state) in
  (_ ← st_lift r;
   targets ← st_lift (expect (zget successors local_block));
   merge_all targets state) f.

(** One iteration of the work list. *)
Definition visit_block (local_block : Z) : ST Flow DiagnosticSet unit := fun f =>
  match zget (states f) local_block with
  | Some (Some state) =>
      (is_ ← st_lift (check_block (first_block function + local_block));
       flow_block local_block is_ state) f
  | _ => (Panic, f)
  end.

Fixpoint dataflow_loop (fuel : nat) : ST Flow DiagnosticSet unit := fun f =>
  match queue f with
  | [] => (Ok tt, f)
  | local_block :: rest =>
      match fuel with
      | O => (Panic, f)
      | S fuel => (_ ← visit_block local_block; dataflow_loop fuel) (mkFlow (states f) rest)
      end
  end.

Definition words : nat := Z.to_nat ((register_count function + 63) / 64).

(** A block enters the queue when it is first reached, and again only when its
    state loses a register. *)
Definition dataflow_fuel : nat := S (length successors * S (64 * words)).

Definition verify_dataflow : Dia unit :=
  let '(r, entry) := set_all parameters_of (replicate words 0) in
  _ ← r;
  let none := replicate (length successors) None in
  _ ← expect (zget none 0);
  let '(r, f) := dataflow_loop dataflow_fuel (mkFlow (zset 0 (Some entry) none) [0]) in
  _ ← r;
  guard_err (existsb (fun s => match s with None => true | _ => false end) (states f))
    (failure Cfg BadControlFlow
       "function contains an unreachable block or handler without a throwing predecessor").

End Dataflow.

(** ** Control flow: src/verify/cfg.rs *)

Definition terminator_targets (i : Instruction) : list Z :=
  match i with
  | Jump t => [t]
  | Branch _ true_block false_block => [true_block; false_block]
  | SwitchI32 _ default_block cases => default_block :: map target cases
  | CallSuspend _ _ _ resume_block | Yield resume_block | Sleep _ resume_block | CoroutineJoin _ _ resume_block
  | ChannelSend _ _ resume_block | ChannelReceive _ _ resume_block | CapabilityCallAsync _ _ _ _ resume_block =>
      [resume_block]
  | _ => []
  end.

Section Cfg.
Context (m : DecodedModule) (handler_blocks : list Z) (start stop : Z).

Definition cfg_failure (detail : string) : DiagnosticSet := failure Cfg BadControlFlow detail.

Fixpoint local_targets (block_id : Z) (ts : list Z) : Dia (list Z) :=
  match ts with
  | [] => Ok []
  | t :: ts =>
      if (t <? start) || (stop <=? t) then Err (cfg_failure "control-flow target is outside the function")
      else
        block ← expect (zget (blocks m) t);
        if (t <=? block_id) && negb (bit 0 (block_flags block))
        then Err (cfg_failure "backedge target is not a loop-header safepoint")
        else if bool_decide (t ∈ handler_blocks)
        then Err (cfg_failure "ordinary control flow targets an exception handler")
        else
          rest ← local_targets block_id ts;
          Ok ((t - start) :: rest)
  end.

Definition block_successors (block_id : Z) : Dia (list Z) :=
  block ← expect (zget (blocks m) block_id);
  if negb (owner_function block =? function_id) || negb (code_record block =? block_id)
  then Err (cfg_failure "function blocks are not contiguous or have the wrong owner")
  else
    record ← expect (zget (code m) block_id);
    match last (instructions record) with
    | Some terminator =>
        if negb (is_terminator terminator) || existsb is_terminator (removelast (instructions record))
        then Err (cfg_failure "block does not contain exactly one final terminator")
        else local_targets block_id (terminator_targets terminator)
    | None => Err (cfg_failure "block does not contain exactly one final terminator")
    end.

Fixpoint all_successors (block_ids : list Z) : Dia (list (list Z)) :=
  match block_ids with
  | [] => Ok []
  | block_id :: block_ids =>
      local ← block_successors block_id;
      rest ← all_successors block_ids;
      Ok (local :: rest)
  end.
End Cfg.

Definition verify_control_flow (m : DecodedModule) (handler_blocks : list Z) : Dia (list (list Z)) :=
  let start := first_block function in
  stop ← ok_or
           (stop ← checked_add usize_max start (block_count function);
            if (stop <=? Z.of_nat (length (blocks m))) && (stop <=? Z.of_nat (length (code m)))
            then Some stop else None)
           (cfg_failure "function block range is invalid");
  if start =? stop then Err (cfg_failure "non-abstract function has no blocks")
  else all_successors m handler_blocks start stop (seqZ start (stop - start)).

(** ** Signatures *)

Fixpoint match_parameters (signature_module : Z) (vs : list FunctionValue) (parameters : list ValueType) : Dia unit :=
  match vs, parameters with
  | v :: vs, parameter :: parameters =>
      _ ← require_match module_id (semantic_type v) signature_module parameter
            "parameter register type disagrees with signature";
      match_parameters signature_module vs parameters
  | _, _ => Ok tt
  end.

Definition verify_signature : Dia (Z * ValueType * list ValueType) :=
  if negb (register_count function =? Z.of_nat (length (values function)))
     || (register_count function <? parameter_count function)
  then Err (type_failure "function register or parameter count is inconsistent")
  else
    t ← resolved_type art module_id (signature function);
    id_ ← ok_or t (type_failure "function signature does not resolve");
    nominal ← type_at art id_;
    match nominal with
    | Function_ _ signature_flags result parameters =>
        if negb (Z.land (fn_flags function) 1 =? Z.land signature_flags 1)
           || negb (Z.of_nat (length parameters) =? parameter_count function)
        then Err (type_failure "function flags or parameter count disagree with signature")
        else
          _ ← match_parameters id_.1 (values function) parameters;
          Ok (id_.1, result, parameters)
    | _ => Err (type_failure "function signature is not a function type")
    end.

(** The physical atom of a scalar kind. *)
Definition physical_atom (k : Z) : option Frame.PhysicalAtom :=
  if (k =? 1) || (k =? 5) || (k =? 6) then Some Frame.AI32
  else if k =? 2 then Some Frame.AI64
  else if k =? 3 then Some Frame.AF32
  else if k =? 4 then Some Frame.AF64
  else if k =? 7 then Some Frame.ARef32
  else None.

(** The check of one register's physical shape in [verify_functions]. *)
Definition verify_shape (v : FunctionValue) : Dia unit :=
  if kind (semantic_type v) =? 8 then
    '(_, layout) ← inline_layout (semantic_type v);
    guard_err (negb (length (components v) =? length layout)%nat
               || existsb (fun '(a, s) => negb (bool_decide (physical_atom (kind s) = Some a)))
                    (zip (components v) layout))
      (type_failure "inline physical shape differs from nominal layout")
  else Ok tt.

Fixpoint verify_shapes (vs : list FunctionValue) : Dia unit :=
  match vs with
  | [] => Ok tt
  | v :: vs => _ ← verify_shape v; verify_shapes vs
  end.

(** The body of the loop of [verify_functions]. *)
Definition verify_function (m : DecodedModule) (handlers : Dia (list Handler)) : Dia unit :=
  _ ← verify_shapes (values function);
  '(result_module, result, _) ← verify_signature;
  if bit 3 (fn_flags function) then
    guard_err (negb (block_count function =? 0)
               || ((module_id =? entry_module (header art)) && (function_id =? entry_function (header art))))
      (failure Cfg BadControlFlow "abstract function has blocks or is the entry")
  else
    handlers ← handlers;
    successors ← verify_control_flow m (map handler_block handlers);
    verify_dataflow result_module result successors handlers.

End Function.

Definition entry_of (art : DecodedArtifact) : option Function :=
  m ← zget (modules art) (entry_module (header art));
  zget (functions m) (entry_function (header art)).

Section Functions.
Context (art : DecodedArtifact) (depth : nat) (model : ExceptionModel) (limits : ArtifactLimits).

Definition handlers_of (module_id function_id : Z) : Dia (list Handler) :=
  hs ← expect (zget model module_id);
  expect (zget hs function_id).

Fixpoint verify_module_functions (m : DecodedModule) (module_id function_id : Z) (fs : list Function) : Dia unit :=
  match fs with
  | [] => Ok tt
  | f :: fs =>
      _ ← verify_function art depth limits module_id function_id f m (handlers_of module_id function_id);
      verify_module_functions m module_id (function_id + 1) fs
  end.

Fixpoint verify_all_modules (module_id : Z) (ms : list DecodedModule) : Dia unit :=
  match ms with
  | [] => Ok tt
  | m :: ms =>
      _ ← verify_module_functions m module_id 0 (functions m);
      verify_all_modules (module_id + 1) ms
  end.

Definition verify_functions : Dia unit :=
  if minimum_slice_cost (manifest art) <? maximum_block_cost (manifest art)
  then Err (failure_at limits Cost BadCost 0 0 "minimum slice cost is below maximum block cost")
  else if bool_decide (entry_of art = None)
  then Err (failure_at limits Cfg BadControlFlow (entry_module (header art)) (entry_function (header art))
              "entry function is out of range")
  else verify_all_modules 0 (modules art).

(** ** The entry point *)

Definition entry_arguments_match (signature_module : Z) (parameters : list ValueType) : Dia bool :=
  match entry_arguments (header art) with
  | NoArguments => Ok (match parameters with [] => true | _ => false end)
  | StringArray =>
      match parameters with
      | [parameter] =>
          if negb (kind parameter =? 7) || negb (flags parameter =? 0) then Ok false
          else
            array_id ← resolved_type art signature_module (nominal_type parameter);
            match array_id with
            | None => Ok false
            | Some array_id =>
                t ← type_at art array_id;
                match t with
                | Array _ _ element _ =>
                    if negb (kind element =? 7) || negb (flags element =? 0) then Ok false
                    else
                      string_id ← resolved_type art array_id.1 (nominal_type element);
                      match string_id with
                      | None => Ok false
                      | Some string_id =>
                          s ← type_at art string_id;
                          m ← module_at art string_id.1;
                          match s with
                          | Class _ _ name _ _ _ _ _ _ _ =>
                              n ← expect (zget (strings m) name);
                              Ok (bool_decide (n = kotlin_string))
                          | _ => Ok false
                          end
                      end
                | _ => Ok false
                end
            end
      | _ => Ok false
      end
  end.

Definition verify_entry_arguments : Dia unit :=
  let module_id := entry_module (header art) in
  let function_id := entry_function (header art) in
  let type_failure := type_failure limits module_id function_id in
  f ← ok_or (entry_of art) (type_failure "entry function is out of range");
  '(signature_module, result, parameters) ← verify_signature art depth limits module_id function_id f;
  b ← (if kind result =? 8 then Ok false else entry_arguments_match signature_module parameters);
  guard_err (negb b) (type_failure "entry argument contract disagrees with the entry function signature").

End Functions.

End Verify.
