(* ===== verification/VerifyProps.v ===== *)
(** What acceptance by the verifier means for the paths of a function. *)

From S2P Require Import Prelude Words Bytes Value Float Code CodeProps Frame Artifact Verify.

(** What the verifier keeps: sets of registers as words of bits, and what an
    accepted instruction reads and writes. *)

Import Diagnostics Artifact Verify.

Module VerifyInv.
Import Code.

(** ** Sets of registers *)

Lemma land_bit w k : 0 <= k -> negb (Z.land w (Z.shiftl 1 k) =? 0) = Z.testbit w k.
Proof.
  intros Hk. rewrite Z.shiftl_mul_pow2, Z.mul_1_l by done. destruct (Z.testbit w k) eqn:E.
  - destruct (Z.eqb_spec (Z.land w (2 ^ k)) 0) as [H|]; [|done]. apply (f_equal (fun z => Z.testbit z k)) in H.
    rewrite Z.land_spec, Z.pow2_bits_true, E, Z.bits_0 in H by done. done.
  - apply negb_false_iff, Z.eqb_eq. apply Z.bits_inj'. intros n Hn. rewrite Z.land_spec, Z.bits_0, Z.pow2_bits_eqb by done.
    destruct (Z.eqb_spec k n) as [->|]; [by rewrite E|apply andb_false_r].
Qed.

Lemma get_bit bits b : 0 <= b -> get bits b = match zget bits (b / 64) with Some w => Z.testbit w (b mod 64) | None => false end.
Proof. intros Hb. unfold get. destruct (zget bits (b / 64)); [|done]. apply land_bit. by apply Z.mod_pos_bound. Qed.

Definition word (w : Z) : Prop := 0 <= w < 2 ^ 64.
Definition bitset (n : nat) (bits : list Z) : Prop := length bits = n /\ Forall word bits.

Lemma word_bits w n : word w -> 64 <= n -> Z.testbit w n = false.
Proof.
  intros [H0 H1] Hn. apply Z.testbit_false; [lia|]. rewrite Z.div_small; [done|]. split; [done|].
  eapply Z.lt_le_trans; [done|]. apply Z.pow_le_mono_r; lia.
Qed.

Lemma word_of_bits w : 0 <= w -> (forall n, 64 <= n -> Z.testbit w n = false) -> word w.
Proof.
  intros H0 H. split; [done|]. destruct (Z.eq_dec w 0) as [->|Hne]; [done|].
  apply Z.log2_lt_pow2; [lia|]. destruct (Z.lt_ge_cases (Z.log2 w) 64) as [|Hge]; [done|].
  pose proof (H _ Hge) as Hb. rewrite Z.bit_log2 in Hb by lia. done.
Qed.

Lemma word_land w v : word w -> word v -> word (Z.land w v).
Proof.
  intros Hw Hv. apply word_of_bits; [apply Z.land_nonneg; left; apply Hw|]. intros n Hn. rewrite Z.land_spec.
  by rewrite (word_bits w n Hw Hn).
Qed.

Lemma word_set w k : word w -> 0 <= k < 64 -> word (Z.lor w (Z.shiftl 1 k)).
Proof.
  intros Hw Hk. rewrite Z.shiftl_mul_pow2, Z.mul_1_l by lia.
  apply word_of_bits; [apply Z.lor_nonneg; split; [apply Hw|lia]|]. intros n Hn.
  rewrite Z.lor_spec, (word_bits w n Hw Hn), Z.pow2_bits_false by lia. done.
Qed.

Lemma get_out n bits b : bitset n bits -> 64 * Z.of_nat n <= b -> get bits b = false.
Proof.
  intros [Hl _] Hb. rewrite get_bit by lia. unfold zget. rewrite lookup_ge_None_2; [done|].
  rewrite Hl. assert (Z.of_nat n <= b / 64) by (apply Z.div_le_lower_bound; lia). lia.
Qed.

Lemma zget_same {A} (l : list A) i j x : 0 <= i -> 0 <= j -> is_Some (zget l i) ->
  zget (zset i x l) j = if i =? j then Some x else zget l j.
Proof.
  intros Hi Hj [y Hy]. destruct (Z.eqb_spec i j) as [<-|Hne]; [by eapply zget_zset_eq|].
  apply zget_zset_ne; lia.
Qed.

Lemma set_spec {E} n bits b r bits' : 0 <= b -> bitset n bits -> set (E:=E) b bits = (Ok r, bits') ->
  bitset n bits' /\ forall c, 0 <= c -> get bits' c = get bits c || (c =? b).
Proof.
  intros Hb [Hl Hw] H. unfold set in H. destruct (zget bits (b / 64)) as [w|] eqn:Ew; [|done]. injection H as <- <-.
  assert (Hmod : 0 <= b mod 64 < 64) by (by apply Z.mod_pos_bound).
  assert (Hword : word w). { eapply Forall_lookup_1; [exact Hw|exact Ew]. }
  split.
  - split; [rewrite <- Hl; apply zset_length|]. apply zset_Forall; [done|]. by apply word_set.
  - intros c Hc. rewrite !get_bit by done. rewrite zget_same by eauto using Z.div_pos with lia.
    destruct (Z.eqb_spec (b / 64) (c / 64)) as [E'|Hne].
    + rewrite <- E', Ew, Z.lor_spec, Z.shiftl_mul_pow2, Z.mul_1_l, Z.pow2_bits_eqb by lia. f_equal.
      pose proof (Z.div_mod b 64). pose proof (Z.div_mod c 64).
      destruct (Z.eqb_spec (b mod 64) (c mod 64)), (Z.eqb_spec c b); lia || done.
    + destruct (Z.eqb_spec c b) as [->|]; [done|]. by rewrite orb_false_r.
Qed.

Lemma set_all_spec n rs : forall bits u bits', Forall (fun r => 0 <= r) rs -> bitset n bits -> set_all rs bits = (Ok u, bits') ->
  bitset n bits' /\ forall c, 0 <= c -> get bits' c = true <-> get bits c = true \/ c ∈ rs.
Proof.
  induction rs as [|r rs IH]; intros bits u bits' Hr Hb H.
  - injection H as <- <-. split; [done|]. intros. set_solver.
  - apply Forall_cons in Hr as [Hr0 Hr]. cbn [set_all] in H. apply st_bind_inv in H as ([] & bits1 & H1 & H2).
    apply (set_spec n) in H1 as [Hb1 H1]; [|done..]. apply IH in H2 as [Hb2 H2]; [|done..].
    split; [done|]. intros c Hc. rewrite H2, H1, orb_true_iff, Z.eqb_eq by done. set_solver.
Qed.

(** ** Merging *)

Definition subset (s t : list Z) : Prop := forall c, 0 <= c -> get s c = true -> get t c = true.

#[global] Instance subset_preorder : PreOrder subset.
Proof. split; [by intros s c|intros s t u H1 H2 c Hc H; by apply H2, H1]. Qed.

Lemma merge_words_spec n : forall s t changed m, bitset n s -> bitset n t -> merge_words s t = (changed, m) ->
  bitset n m /\ (forall c, 0 <= c -> get m c = get s c && get t c) /\ (changed = false <-> m = s).
Proof.
  induction n as [|n IH]; intros s t changed m [Ls Ws] [Lt Wt] H; destruct s as [|w s], t as [|v t]; simplify_eq/=.
  - split; [done|]. split; [|done]. intros c Hc. rewrite !get_bit by done. unfold zget. by rewrite lookup_nil.
  - inversion Ws; inversion Wt; subst. destruct (merge_words s t) as [changed' m'] eqn:Em. injection H as <- <-.
    apply IH in Em as ((Lm & Wm) & Hg & Hc); [|by split..]. split; [|split].
    + split; [simpl; lia|]. constructor; [by apply word_land|done].
    + intros c Hc0. specialize (Hg (c - 64)). rewrite !get_bit by done. unfold zget.
      destruct (Z.lt_ge_cases c 64) as [Hlt|Hge].
      * rewrite Z.div_small by lia. simpl. by rewrite Z.land_spec.
      * assert (Hd : c / 64 = 1 + (c - 64) / 64) by (replace c with ((c - 64) + 1 * 64) at 1 by lia; rewrite Z.div_add by lia; lia).
        assert (Hm : c mod 64 = (c - 64) mod 64) by (replace c with ((c - 64) + 1 * 64) at 1 by lia; apply Z.mod_add; lia).
        assert (0 <= (c - 64) / 64) by (apply Z.div_pos; lia).
        rewrite Hd, Hm, Z2Nat.inj_add by lia. simpl. rewrite !get_bit in Hg by lia. apply Hg. lia.
    + rewrite orb_false_iff, negb_false_iff, Z.eqb_eq, Hc. split; [by intros [-> ->]|by intros [= -> ->]].
Qed.

(** The registers in a set, and what the loss of one means. *)
Definition weight (n : nat) (s : list Z) : nat := length (List.filter (get s) (seqZ 0 (64 * Z.of_nat n))).

Lemma filter_mono {A} (p q : A -> bool) l : (forall x, x ∈ l -> p x = true -> q x = true) ->
  (length (List.filter p l) <= length (List.filter q l))%nat.
Proof.
  induction l as [|x l IH]; intros H; simpl; [lia|]. specialize (IH ltac:(set_solver)).
  pose proof (H x ltac:(set_solver)). destruct (p x), (q x); simpl; lia || (by intuition).
Qed.

Lemma filter_strict {A} (p q : A -> bool) l x : (forall x, x ∈ l -> p x = true -> q x = true) ->
  x ∈ l -> p x = false -> q x = true -> (length (List.filter p l) < length (List.filter q l))%nat.
Proof.
  induction l as [|y l IH]; intros H Hx Hp Hq; [set_solver|]. apply elem_of_cons in Hx as [->|Hx]; simpl.
  - rewrite Hp, Hq. simpl. pose proof (filter_mono p q l ltac:(set_solver)). lia.
  - specialize (IH ltac:(set_solver) Hx Hp Hq). pose proof (H y ltac:(set_solver)). destruct (p y), (q y); simpl; lia || (by intuition).
Qed.

Lemma weight_bound n s : (weight n s <= 64 * n)%nat.
Proof.
  unfold weight. etrans; [apply List.filter_length_le|]. rewrite length_seqZ. lia.
Qed.

Lemma word_eq w v : word w -> word v -> (forall k, 0 <= k < 64 -> Z.testbit w k = Z.testbit v k) -> w = v.
Proof.
  intros Hw Hv H. apply Z.bits_inj'. intros k Hk. destruct (Z.lt_ge_cases k 64); [by apply H|].
  by rewrite !word_bits.
Qed.

Lemma bitset_eq n s t : bitset n s -> bitset n t -> (forall c, 0 <= c < 64 * Z.of_nat n -> get s c = get t c) -> s = t.
Proof.
  intros [Ls Ws] [Lt Wt] H. apply (list_eq_same_length _ _ n); [done|done|].
  intros i w v Hi Hw Hv. apply word_eq; [by eapply (Forall_lookup_1 _ s)|by eapply (Forall_lookup_1 _ t)|]. intros k Hk.
  specialize (H (64 * Z.of_nat i + k)). rewrite !get_bit in H by lia.
  rewrite Z.add_comm, Z.mul_comm, Z.div_add, Z.mod_add, Z.div_small, Z.mod_small in H by lia.
  unfold zget in H. rewrite Z.add_0_l, Nat2Z.id, Hw, Hv in H. apply H. lia.
Qed.

Lemma weight_merge n s t changed m : bitset n s -> bitset n t -> merge_words s t = (changed, m) ->
  if changed then (weight n m < weight n s)%nat else m = s.
Proof.
  intros Hs Ht H. pose proof (merge_words_spec n _ _ _ _ Hs Ht H) as (Hm & Hg & Hc).
  destruct changed; [|by apply Hc].
  assert (Hlost : exists c, c ∈ seqZ 0 (64 * Z.of_nat n) /\ get m c = false /\ get s c = true).
  { destruct (decide (Exists (fun c => get m c = false /\ get s c = true) (seqZ 0 (64 * Z.of_nat n)))) as [He|Hn].
    - apply Exists_exists in He as (c & ? & ? & ?). by exists c.
    - exfalso. assert (Hms : m = s); [|by apply Hc in Hms]. apply (bitset_eq n); [done..|]. intros c Hcr.
      rewrite <- Forall_Exists_neg, Forall_forall in Hn. specialize (Hn c). rewrite elem_of_seqZ in Hn.
      specialize (Hn ltac:(lia)). rewrite Hg in Hn |- * by lia. destruct (get s c), (get t c); intuition. }
  destruct Hlost as (c & Hin & Hl & Hh). apply (filter_strict _ _ _ c); [|done..].
  intros x Hx. rewrite elem_of_seqZ in Hx. rewrite Hg by lia. by intros [? _]%andb_true_iff.
Qed.
(** ** What an instruction reads and writes *)

Definition present (r : Z) : list Z := if r =? NO_REGISTER then [] else [r].

Definition reads (i : Instruction) : list Z :=
  match i with
  | InlineConstruct _ sources => sources
  | MatrixMath _ _ lhs rhs => lhs :: match rhs with Some rhs => [rhs] | None => [] end
  | Nop | Const _ _ | Null _ | NewObject _ _ | StaticGet _ _ | Jump _ | Unreachable | Yield _ => []
  | InlineComponent _ r _ | Move _ r | MathUnary _ _ _ r | Convert _ _ r | Neg _ _ r | NewArray _ _ r | ArrayLength _ r
  | FieldGet _ r _ | StaticSet _ r | IsType _ r _ | CheckedCast _ r _ | StringLength _ r | StringHash _ r
  | ValueHash _ _ r | StringValueOf _ _ r | Branch r _ _ | SwitchI32 r _ _ | Throw r | Sleep r _ | CoroutineJoin _ r _
  | ChannelCreate _ r | ChannelReceive _ r _ => [r]
  | MathBinary _ _ _ a b | Add _ _ a b | Sub _ _ a b | Mul _ _ a b | Div _ _ a b | Rem _ _ a b | BitAnd _ _ a b
  | BitOr _ _ a b | BitXor _ _ a b | ShiftLeft _ _ a b | ShiftRight _ _ a b | ShiftUnsigned _ _ a b | Equal _ _ a b
  | NotEqual _ _ a b | Less _ _ a b | LessEqual _ _ a b | Greater _ _ a b | GreaterEqual _ _ a b | RefEqual _ a b
  | RefNotEqual _ a b | ArrayLoad _ a b | FieldSet a _ b | StringGet _ a b | StringEquals _ a b | StringCompare _ a b
  | StringConcat _ a b | ChannelSend a b _ => [a; b]
  | ArrayStore a b c | StringSubstring _ a b c | StringFromCharArray _ a b c => [a; b; c]
  | ArrayCopy a b c d e => [a; b; c; d; e]
  | CallDirect _ _ args | CallVirtual _ _ args | CallInterface _ _ args | CoroutineSpawn _ _ args
  | CallSuspend _ _ args _ | CapabilityCallSync _ _ _ args | CapabilityCallAsync _ _ _ args _ => args
  | Return r => present r
  end.

Definition writes (i : Instruction) : list Z :=
  match i with
  | Nop | ArrayStore _ _ _ | ArrayCopy _ _ _ _ _ | FieldSet _ _ _ | StaticSet _ _ | Jump _ | Branch _ _ _
  | SwitchI32 _ _ _ | Return _ | Throw _ | Yield _ | Sleep _ _ | CoroutineJoin _ _ _ | ChannelSend _ _ _
  | Unreachable => []
  | InlineConstruct dst _ | InlineComponent dst _ _ | Move dst _ | Const dst _ | Null dst | MatrixMath _ dst _ _
  | MathUnary _ _ dst _ | MathBinary _ _ dst _ _ | Convert _ dst _ | Add _ dst _ _ | Sub _ dst _ _ | Mul _ dst _ _
  | Div _ dst _ _ | Rem _ dst _ _ | Neg _ dst _ | BitAnd _ dst _ _ | BitOr _ dst _ _ | BitXor _ dst _ _
  | ShiftLeft _ dst _ _ | ShiftRight _ dst _ _ | ShiftUnsigned _ dst _ _ | Equal _ dst _ _ | NotEqual _ dst _ _
  | Less _ dst _ _ | LessEqual _ dst _ _ | Greater _ dst _ _ | GreaterEqual _ dst _ _ | RefEqual dst _ _
  | RefNotEqual dst _ _ | NewObject dst _ | NewArray dst _ _ | ArrayLength dst _ | ArrayLoad dst _ _ | FieldGet dst _ _
  | StaticGet dst _ | IsType dst _ _ | CheckedCast dst _ _ | CoroutineSpawn dst _ _ | StringLength dst _
  | StringGet dst _ _ | StringEquals dst _ _ | StringCompare dst _ _ | StringHash dst _ | StringConcat dst _ _
  | ValueHash _ dst _ | StringValueOf _ dst _ | StringSubstring dst _ _ _ | StringFromCharArray dst _ _ _
  | ChannelCreate dst _ | ChannelReceive dst _ _ => [dst]
  | CallDirect dst _ _ | CallVirtual dst _ _ | CallInterface dst _ _ | CallSuspend dst _ _ _
  | CapabilityCallSync dst _ _ _ | CapabilityCallAsync dst _ _ _ _ => present dst
  end.

Section Function.
Context (art : DecodedArtifact) (depth : nat) (limits : ArtifactLimits) (module_id function_id : Z) (function : Function).
Abbreviation Ver := (ST (list Z) DiagnosticSet).

(** A register the function has. *)
Definition declared (r : Z) : Prop := exists v, zget (values function) r = Some v.

(** An accepted run of [m] changes nothing and finds [R] written. *)
Definition reads_only {A} (m : Ver A) (R : list Z) : Prop := forall st a st', m st = (Ok a, st') ->
  st' = st /\ Forall (fun r => declared r /\ get st r = true) R.

(** An accepted run of [m] finds [R] written and writes [W]. *)
Definition sees (m : Ver unit) (R W : list Z) : Prop := forall st st', m st = (Ok tt, st') ->
  Forall (fun r => declared r /\ get st r = true) R /\ Forall declared W /\ set_all W st = (Ok tt, st').

Lemma reads_lift {A} (o : outcome _ A) : reads_only (st_lift o) [].
Proof. intros st a st' H. injection H as _ <-. done. Qed.

Lemma reads_reject b e : reads_only (reject b e) [].
Proof. intros st a st' H. unfold reject in H. destruct b; [done|]. by injection H as _ <-. Qed.

Lemma reads_only_ret {A} (a : A) : reads_only (mret a) [].
Proof. intros st b st' H. by injection H as _ <-. Qed.

Lemma reads_only_err {A} e R : reads_only (st_err e : Ver A) R.
Proof. done. Qed.

Lemma register_type_declared r t : register_type limits module_id function_id function r = Ok t -> declared r.
Proof. intros H. unfold register_type in H. destruct (zget (values function) r) eqn:E; [by eexists|done]. Qed.

Lemma reads_read r : reads_only (read limits module_id function_id function r) [r].
Proof.
  intros st a st' H. unfold read in H. injection H as H <-. split; [done|].
  destruct (register_type _ _ _ _ r) as [t| |] eqn:Et; cbn in H; [|done..]. apply register_type_declared in Et.
  destruct (get st r) eqn:Eg; cbn in H; [|done]. by apply Forall_singleton.
Qed.

Lemma reads_only_bind {A B} (m : Ver A) (k : A -> Ver B) R S :
  reads_only m R -> (forall a, reads_only (k a) S) -> reads_only (m ≫= k) (R ++ S).
Proof.
  intros Hm Hk st b st' H. apply st_bind_inv in H as (a & st1 & H1 & H2). apply Hm in H1 as [-> H1]. apply Hk in H2 as [-> H2].
  split; [done|]. by apply Forall_app.
Qed.

Lemma sees_bind {A} (m : Ver A) (k : A -> Ver unit) R S W :
  reads_only m R -> (forall a, sees (k a) S W) -> sees (m ≫= k) (R ++ S) W.
Proof.
  intros Hm Hk st st' H. apply st_bind_inv in H as (a & st1 & H1 & H2). apply Hm in H1 as [-> H1]. apply Hk in H2 as [H2 Hw].
  split; [by apply Forall_app|done].
Qed.

Lemma sees_reads m R : reads_only m R -> sees m R [].
Proof. intros H st st' E. apply H in E as [-> ?]. split; [done|]. split; [constructor|done]. Qed.

Lemma sees_write r : sees (write limits module_id function_id function r) [] [r].
Proof.
  intros st st' H. unfold write in H. apply st_bind_inv in H as (t & st1 & H1 & H2). injection H1 as H1 <-.
  apply register_type_declared in H1. split; [constructor|]. split; [by apply Forall_singleton|].
  cbn [set_all]. erewrite st_bind_ok by exact H2. done.
Qed.

Lemma sees_weaken m R R' W : sees m R W -> R' ⊆ R -> sees m R' W.
Proof. intros H HR st st' E. apply H in E as [H1 H2]. split; [|done]. rewrite Forall_forall in *. set_solver. Qed.

Lemma reads_weaken {A} (m : Ver A) R R' : reads_only m R -> R' ⊆ R -> reads_only m R'.
Proof. intros H HR st a st' E. apply H in E as [H1 H2]. split; [done|]. rewrite Forall_forall in *. set_solver. Qed.

End Function.

(** ** The pieces of the verifier *)

Create HintDb sees.

Ltac sees_step :=
  match goal with
  | |- reads_only _ (st_lift _) _ => apply reads_lift
  | |- reads_only _ (reject _ _) _ => apply reads_reject
  | |- reads_only _ (mret _) _ => apply reads_only_ret
  | |- reads_only _ (st_err _) _ => apply reads_only_err
  | |- reads_only _ (read _ _ _ _ _) _ => apply reads_read
  | |- sees _ (write _ _ _ _ _) _ _ => apply sees_write
  | |- reads_only _ (mbind _ _) _ => eapply reads_only_bind
  | |- sees _ (mbind _ _) _ _ => eapply sees_bind
  | |- forall _ : _ * _, _ => intros []
  | |- forall _, _ => intros ?
  | |- reads_only _ _ _ => eauto with sees
  | |- sees _ _ _ [] => eapply sees_reads
  end.

Ltac head_of t := match t with ?f _ => head_of f | _ => t end.
(** An accepted run reads at least [R]: weaken to what the steps collect. *)
Ltac sees := (eapply sees_weaken || eapply reads_weaken); [repeat sees_step|simpl; set_solver].
Ltac sees_arm :=
  match goal with |- sees _ ?m _ _ => let h := head_of m in unfold h end;
  sees.

Section Pieces.
Context (art : DecodedArtifact) (depth : nat) (limits : ArtifactLimits) (module_id function_id : Z) (function : Function).
Abbreviation Ver := (ST (list Z) DiagnosticSet).

Lemma reads_array_element r : reads_only function (array_element art limits module_id function_id function r) [r].
Proof. unfold array_element. sees. Qed.

Lemma reads_receiver r om o : reads_only function (verify_receiver art depth limits module_id function_id function r om o) [r].
Proof. unfold verify_receiver. sees. Qed.

Lemma reads_use r k : reads_only function (verify_use limits module_id function_id function r k) [r].
Proof. unfold verify_use. sees. Qed.

Lemma reads_read_all rs : reads_only function (read_all limits module_id function_id function rs) rs.
Proof. induction rs as [|r rs IH]; cbn [read_all]; [sees|]. eapply (reads_only_bind _ _ _ [r]); [sees|done]. Qed.

Lemma reads_construct_components lm rs : forall layout, (length rs <= length layout)%nat ->
  reads_only function (construct_components art depth limits module_id function_id function lm rs layout) rs.
Proof.
  induction rs as [|r rs IH]; intros [|t layout] Hl; cbn [construct_components]; simpl in Hl; [sees|sees|lia|].
  eapply reads_weaken; [eapply reads_only_bind; [sees_step|intros _; eapply reads_only_bind; [sees_step|intros ?; eapply reads_only_bind; [sees_step|intros _; apply IH; lia]]]|].
  simpl. set_solver.
Qed.

Lemma reads_arguments pm rs : forall parameters, (length rs <= length parameters)%nat ->
  reads_only function (verify_arguments art depth limits module_id function_id function pm rs parameters) rs.
Proof.
  induction rs as [|r rs IH]; intros [|t parameters] Hl; cbn [verify_arguments]; simpl in Hl; [sees|sees|lia|].
  eapply reads_weaken; [eapply reads_only_bind; [sees_step|intros _; eapply reads_only_bind; [sees_step|intros ?; eapply reads_only_bind; [sees_step|intros _; apply IH; lia]]]|].
  simpl. set_solver.
Qed.

(** A count that was compared first. *)
Lemma sees_counted {A B} (xs : list A) (ys : list B) e k R W :
  ((length xs <= length ys)%nat -> sees function k R W) ->
  sees function (_ ← reject (negb (length xs =? length ys)%nat) e; k) R W.
Proof.
  intros H st st' E. apply st_bind_inv in E as ([] & st1 & H1 & H2). unfold reject in H1.
  destruct (Nat.eqb_spec (length xs) (length ys)); cbn in H1; [|done]. injection H1 as <-. apply H in H2; [done|lia].
Qed.

Lemma reads_counted {A B C} (xs : list A) (ys : list B) e (k : Ver C) R :
  ((length xs <= length ys)%nat -> reads_only function k R) ->
  reads_only function (_ ← reject (negb (length xs =? length ys)%nat) e; k) R.
Proof.
  intros H st a st' E. apply st_bind_inv in E as ([] & st1 & H1 & H2). unfold reject in H1.
  destruct (Nat.eqb_spec (length xs) (length ys)); cbn in H1; [|done]. injection H1 as <-. apply H in H2; [done|lia].
Qed.

Lemma reads_call_arguments t callee args :
  reads_only function (verify_call_arguments art depth limits module_id function_id function t callee args) args.
Proof.
  unfold verify_call_arguments. do 3 (eapply (reads_only_bind _ _ _ []); [sees_step|intros ?]).
  destruct a1; try apply reads_only_err. apply reads_counted. intros Hl.
  eapply reads_weaken; [eapply reads_only_bind; [by apply reads_arguments|intros _; sees_step]|]. set_solver.
Qed.


End Pieces.

#[export] Hint Resolve reads_array_element reads_receiver reads_use reads_read_all reads_call_arguments : sees.

Section Instructions.
Context (art : DecodedArtifact) (depth : nat) (limits : ArtifactLimits) (module_id function_id : Z) (function : Function).

Lemma sees_inline_construct dst rs : sees function (verify_inline_construct art depth limits module_id function_id function dst rs) rs [dst].
Proof.
  unfold verify_inline_construct. eapply (sees_bind _ _ _ []); [sees_step|intros v]. eapply (sees_bind _ _ _ []); [sees_step|intros [lm layout]].
  apply sees_counted. intros Hl. eapply sees_weaken; [eapply sees_bind; [by apply reads_construct_components|intros _; sees_step]|]. set_solver.
Qed.

Lemma sees_matrix o dst lhs rhs : sees function (verify_matrix art limits module_id function_id function o dst lhs rhs)
  (lhs :: match rhs with Some rhs => [rhs] | None => [] end) [dst].
Proof. unfold verify_matrix. destruct rhs; (eapply sees_weaken; [repeat sees_step|simpl; set_solver]). Qed.

Lemma sees_call dst f args k : sees function (verify_call art depth limits module_id function_id function dst f args k) args (present dst).
Proof.
  unfold verify_call, present. eapply (sees_bind _ _ _ []); [sees_step|intros [t callee]].
  do 2 (eapply (sees_bind _ _ _ []); [sees_step|intros _]).
  eapply sees_weaken; [eapply sees_bind; [apply reads_call_arguments|intros [rm r]; instantiate (1 := [])]|set_solver].
  destruct (Z.eqb_spec dst NO_REGISTER) as [->|Hne].
  - destruct (kind r =? 0); [repeat sees_step|]. intros st st' H. done.
  - destruct (kind r =? 0).
    + intros st st' H. done.
    + eapply sees_weaken; [repeat sees_step|set_solver].
Qed.

Lemma sees_capability_call dst c o args :
  sees function (verify_capability_call art limits module_id function_id function dst c o args) args (present dst).
Proof.
  unfold verify_capability_call, present. destruct (dst =? NO_REGISTER); (eapply sees_weaken; [repeat sees_step|simpl; set_solver]).
Qed.

Context (result_module : Z) (result : ValueType).

Lemma sees_return r : sees function (verify_return art depth limits module_id function_id function result_module result r) (present r) [].
Proof.
  unfold verify_return, present. destruct (Z.eqb_spec r NO_REGISTER) as [->|Hne].
  - destruct (kind result =? 0); sees.
  - destruct (kind result =? 0); [|sees]. by intros st st' H.
Qed.

(** What an accepted instruction reads was written before; what it writes is
    known to be written after. *)
Lemma sees_operands i : sees function (verify_operands art depth limits module_id function_id function result_module result i) (reads i) (writes i).
Proof.
  destruct i; cbn [verify_operands reads writes];
    solve [apply sees_inline_construct | apply sees_matrix | apply sees_call | apply sees_capability_call | apply sees_return
          | solve [sees] | sees_arm].
Qed.

Lemma sees_instruction i :
  sees function (verify_instruction art depth limits module_id function_id function result_module result i) (reads i) (writes i).
Proof. unfold verify_instruction. do 2 (eapply (sees_bind _ _ _ []); [sees_step|intros _]). apply sees_operands. Qed.

End Instructions.
End VerifyInv.

(** The work list of the verifier: it ends, and what it leaves is a solution.

    [grows f g] says what a step of the work list does to the flow: the states of
    blocks lose registers, and a block whose state changed is in the queue.  The
    invariant is that every block that has a state is in the queue or [closed]: its
    instructions are accepted from its state, and its successors and handlers have
    states that ask for no more than they get from it. *)

Import Diagnostics Artifact Verify VerifyInv.

Module VerifyFlow.
Import Code.

Section Flow.
Context (art : DecodedArtifact) (depth : nat) (limits : ArtifactLimits) (module_id function_id : Z) (function : Function).
Context (result_module : Z) (result : ValueType) (successors : list (list Z)) (handlers : list Handler).
Abbreviation n := (words function).
Abbreviation accepts := (verify_instruction art depth limits module_id function_id function result_module result).

Record flow_ok (f : Flow) : Prop := {
  fo_length : length (states f) = length successors;
  fo_queue : Forall (fun b => 0 <= b) (queue f);
  fo_states : forall b s, 0 <= b -> zget (states f) b = Some (Some s) -> bitset n s }.

(** ** What a step does *)

Record grows (f g : Flow) : Prop := {
  gr_queue : forall b, b ∈ queue f -> b ∈ queue g;
  gr_state : forall b s, 0 <= b -> zget (states f) b = Some (Some s) ->
    exists t, zget (states g) b = Some (Some t) /\ subset t s /\ (t = s \/ b ∈ queue g);
  gr_none : forall b t, 0 <= b -> zget (states f) b = Some None -> zget (states g) b = Some (Some t) -> b ∈ queue g;
  gr_out : forall b, 0 <= b -> zget (states f) b = None -> zget (states g) b = None }.

#[global] Instance grows_preorder : PreOrder grows.
Proof.
  split.
  - intros f. split; [done| |congruence|done]. intros b s Hb H. exists s. split; [done|]. split; [done|by left].
  - intros f g h [Q1 S1 N1 O1] [Q2 S2 N2 O2]. split; [auto| | |auto].
    + intros b s Hb H. destruct (S1 b s Hb H) as (t & Ht & Hs & Hq). destruct (S2 b t Hb Ht) as (u & Hu & Hs' & Hq').
      exists u. split; [done|]. split; [by etrans|]. destruct Hq as [->|Hq]; [done|]. right. by apply Q2.
    + intros b t Hb H Ht. destruct (zget (states g) b) as [[u|]|] eqn:E.
      * apply Q2. by eapply N1.
      * by eapply N2.
      * rewrite (O2 b Hb E) in Ht. done.
Qed.

(** Block [b] asks for no more than [incoming]. *)
Definition reached (f : Flow) (b : Z) (incoming : list Z) : Prop :=
  exists s, zget (states f) b = Some (Some s) /\ subset s incoming.

Lemma reached_grows f g b s : 0 <= b -> grows f g -> reached f b s -> reached g b s.
Proof. intros Hb G (t & Ht & Hs). destruct (gr_state _ _ G b t Hb Ht) as (u & Hu & Hs' & _). exists u. split; [done|by etrans]. Qed.

(** ** The measure: blocks in the queue, and registers left to lose *)

Definition state_weight (o : option (list Z)) : nat := match o with None => S (64 * n) | Some s => weight n s end.
Definition measure (f : Flow) : nat := length (queue f) + list_sum (map state_weight (states f)).

Lemma sum_zset {A} (w : A -> nat) (l : list A) i x y : zget l i = Some y ->
  (list_sum (map w (zset i x l)) + w y = list_sum (map w l) + w x)%nat.
Proof.
  unfold zget, zset. generalize (Z.to_nat i) as k. clear i. intros k. revert l.
  induction k as [|k IH]; intros [|z l] H; simplify_eq/=; [lia|]. specialize (IH l H). lia.
Qed.

(** ** Merging *)

(** Block [b] gets the state [m]; it is queued when [queued] says so. *)
Definition update (f : Flow) (b : Z) (m : list Z) (queued : bool) : Flow :=
  mkFlow (zset b (Some m) (states f)) (if queued then queue f ++ [b] else queue f).

Lemma update_ok f b o m queued : flow_ok f -> 0 <= b -> zget (states f) b = Some o -> bitset n m ->
  (forall old, o = Some old -> subset m old /\ (queued = false -> m = old)) -> (o = None -> queued = true) ->
  flow_ok (update f b m queued) /\ grows f (update f b m queued) /\ zget (states (update f b m queued)) b = Some (Some m).
Proof.
  intros F Hb Eb Hm Hold Hnone. unfold update.
  assert (Hz : forall c, 0 <= c -> zget (zset b (Some m) (states f)) c = if b =? c then Some (Some m) else zget (states f) c)
    by (intros; apply zget_same; [done|done|by eexists]).
  split; [|split]; [split|split|]; cbn [states queue].
  - rewrite zset_length. apply F.
  - destruct queued; [|apply F]. apply Forall_app. split; [apply F|by apply Forall_singleton].
  - intros c t Hc Et. rewrite Hz in Et by done. destruct (Z.eqb_spec b c); [by injection Et as <-|by eapply fo_states].
  - intros c Hc. destruct queued; set_solver.
  - intros c t Hc Et. rewrite Hz by done. destruct (Z.eqb_spec b c) as [<-|]; [|exists t; split; [done|]; split; [done|by left]].
    destruct (Hold t) as [Hs Hq]; [congruence|]. exists m. split; [done|]. split; [done|]. destruct queued; [right; set_solver|left; auto].
  - intros c t Hc Et. rewrite Hz by done. destruct (Z.eqb_spec b c) as [<-|]; [|congruence]. intros _. rewrite Hnone by congruence. set_solver.
  - intros c Hc Et. rewrite Hz by done. destruct (Z.eqb_spec b c); congruence.
  - by rewrite Hz, Z.eqb_refl by done.
Qed.

Lemma update_measure f b o m (queued : bool) : zget (states f) b = Some o ->
  (weight n m + (if queued then 1 else 0) <= state_weight o)%nat -> (measure (update f b m queued) <= measure f)%nat.
Proof.
  intros Eb Hw. unfold measure, update. cbn [states queue]. pose proof (sum_zset state_weight _ _ (Some m) _ Eb) as Hsum.
  cbn [state_weight] in Hsum. destruct queued; [rewrite length_app; simpl|]; lia.
Qed.

Lemma merge_state_spec f b s u g : flow_ok f -> 0 <= b -> bitset n s -> merge_state b s f = (Ok u, g) ->
  flow_ok g /\ grows f g /\ reached g b s /\ (measure g <= measure f)%nat.
Proof.
  intros F Hb Hs H. unfold merge_state in H. destruct (zget (states f) b) as [[old|]|] eqn:Eb; [| |done].
  - destruct (merge_words old s) as [changed m] eqn:Em. injection H as _ <-.
    pose proof (fo_states f F _ _ Hb Eb) as Hold. pose proof (merge_words_spec n _ _ _ _ Hold Hs Em) as (Hm & Hg & _).
    pose proof (weight_merge n _ _ _ _ Hold Hs Em) as Hw. fold (update f b m changed).
    destruct (update_ok f b (Some old) m changed) as (F' & G & E'); [done..| |done|].
    { intros ? [= <-]. split; [|by intros ->]. intros c Hc. rewrite Hg by done. by intros [? _]%andb_true_iff. }
    split; [done|]. split; [done|]. split.
    + exists m. split; [done|]. intros c Hc. rewrite Hg by done. by intros [_ ?]%andb_true_iff.
    + eapply update_measure; [done|]. cbn [state_weight]. destruct changed; [lia|subst m; lia].
  - injection H as _ <-. change (mkFlow _ _) with (update f b s true).
    destruct (update_ok f b None s true) as (F' & G & E'); [done..|].
    split; [done|]. split; [done|]. split; [by exists s|].
    eapply update_measure; [done|]. cbn [state_weight]. pose proof (weight_bound n s). lia.
Qed.

Lemma merge_all_spec bs s : forall f u g, flow_ok f -> Forall (fun b => 0 <= b) bs -> bitset n s -> merge_all bs s f = (Ok u, g) ->
  flow_ok g /\ grows f g /\ Forall (fun b => reached g b s) bs /\ (measure g <= measure f)%nat.
Proof.
  induction bs as [|b bs IH]; intros f u g F Hb Hs H; cbn [merge_all] in H.
  - injection H as _ <-. by eauto.
  - apply Forall_cons in Hb as [Hb Hbs]. apply st_bind_inv in H as ([] & f1 & H1 & H2).
    apply merge_state_spec in H1 as (F1 & G1 & R1 & M1); [|done..]. apply IH in H2 as (F2 & G2 & R2 & M2); [|done..].
    split; [done|]. split; [by etrans|]. split; [|lia]. constructor; [by eapply reached_grows|done].
Qed.

(** ** Handlers *)

Definition caught (state : list Z) (h : Handler) (c : Z) : Prop :=
  get state c = true \/ c ∈ parameters_of function \/ c = exception_register h.

(** The block of handler [h] asks for no more than what it gets from [state]. *)
Definition handled (f : Flow) (state : list Z) (h : Handler) : Prop :=
  first_block function <= handler_block h /\
  exists s, zget (states f) (handler_block h - first_block function) = Some (Some s) /\
            forall c, 0 <= c -> get s c = true -> caught state h c.

Lemma handled_grows f g s h : grows f g -> handled f s h -> handled g s h.
Proof.
  intros G (Hle & t & Ht & Hs). split; [done|]. destruct (gr_state _ _ G (handler_block h - first_block function) t ltac:(lia) Ht) as (u & Hu & Hs' & _).
  exists u. split; [done|]. intros c Hc Hg. by apply Hs, Hs'.
Qed.

Lemma parameters_nonneg : Forall (fun r => 0 <= r) (parameters_of function).
Proof. apply Forall_forall. intros r Hr. unfold parameters_of in Hr. rewrite elem_of_seqZ in Hr. lia. Qed.

Lemma merge_handlers_spec hs s : forall f u g, flow_ok f -> Forall (fun h => 0 <= exception_register h) hs -> bitset n s ->
  merge_handlers function hs s f = (Ok u, g) ->
  flow_ok g /\ grows f g /\ Forall (handled g s) hs /\ (measure g <= measure f)%nat.
Proof.
  induction hs as [|h hs IH]; intros f u g F Hh Hs H; cbn [merge_handlers] in H.
  - injection H as _ <-. by eauto.
  - apply Forall_cons in Hh as [Hh Hhs]. apply st_bind_inv in H as (incoming & f0 & H0 & H). injection H0 as H0 <-.
    destruct (set_all (parameters_of function ++ [exception_register h]) s) as [r inc] eqn:Es. destruct r; cbn in H0; [|done..]. injection H0 as ->.
    apply (set_all_spec n) in Es as [Hi Hg]; [|apply Forall_app; split; [apply parameters_nonneg|by apply Forall_singleton]|done].
    apply st_bind_inv in H as (local & f0 & H0 & H). injection H0 as H0 <-. apply expect_ok, checked_sub_Some in H0 as [-> Hle].
    apply st_bind_inv in H as ([] & f1 & H1 & H2). apply merge_state_spec in H1 as (F1 & G1 & R1 & M1); [|done|lia|done].
    apply IH in H2 as (F2 & G2 & R2 & M2); [|done..]. split; [done|]. split; [by etrans|]. split; [|lia].
    constructor; [|done]. apply (handled_grows f1); [done|]. destruct R1 as (t & Ht & Hsub). split; [done|]. exists t. split; [done|].
    intros c Hc Hgt. apply Hsub in Hgt; [|done]. apply Hg in Hgt; [|done]. unfold caught. set_solver.
Qed.

(** ** Blocks *)

Definition registers_ok (i : Instruction) : Prop := Forall (fun r => 0 <= r) (reads i ++ writes i).

(** From [state], block [block_id] runs [is_] to [out]; at each instruction that
    may throw, the handlers are content with what was written before it. *)
Fixpoint covered (f : Flow) (block_id : Z) (is_ : list Instruction) (state out : list Z) : Prop :=
  match is_ with
  | [] => out = state
  | i :: is_ =>
      (may_throw i = true -> Forall (fun h => protects block_id h = true -> handled f state h) handlers) /\
      exists next, accepts i state = (Ok tt, next) /\ covered f block_id is_ next out
  end.

Lemma covered_grows f g b is_ : grows f g -> forall s out, covered f b is_ s out -> covered g b is_ s out.
Proof.
  intros G. induction is_ as [|i is_ IH]; intros s out H; [done|]. destruct H as [Hh (t & Ht & H)].
  split; [|by exists t; auto]. intros Ht'. eapply Forall_impl; [by apply Hh|]. intros h Hp Hpr. by eapply handled_grows; [|apply Hp].
Qed.

Lemma accepts_spec i s t : registers_ok i -> bitset n s -> accepts i s = (Ok tt, t) ->
  bitset n t /\ Forall (fun r => declared function r /\ get s r = true) (reads i) /\
  forall c, 0 <= c -> get t c = true <-> get s c = true \/ c ∈ writes i.
Proof.
  intros Hr Hs H. apply Forall_app in Hr as [_ Hw]. apply sees_instruction in H as (HR & HW & H).
  apply (set_all_spec n) in H as [Ht Hg]; done.
Qed.

Lemma verify_instructions_spec b is_ : forall k seen f s u g out, Forall registers_ok is_ ->
  Forall (fun h => 0 <= exception_register h) handlers -> flow_ok f -> bitset n s ->
  verify_instructions art depth limits module_id function_id function result_module result handlers b k seen is_ (f, s) = (Ok u, (g, out)) ->
  flow_ok g /\ grows f g /\ bitset n out /\ covered g b is_ s out /\ (measure g <= measure f)%nat.
Proof.
  induction is_ as [|i is_ IH]; intros k seen f s u g out Hi Hh F Hs H; cbn [verify_instructions] in H.
  - injection H as _ <- <-. by eauto 10.
  - apply Forall_cons in Hi as [Hi His]. destruct (is_allocation i && _); [done|].
    set (m := if may_throw i then _ else _) in H. destruct (m f) as [r f1] eqn:Em. destruct r as [[]| |]; [|done..].
    assert (H1 : flow_ok f1 /\ grows f f1 /\ (measure f1 <= measure f)%nat /\
      (may_throw i = true -> Forall (fun h => protects b h = true -> handled f1 s h) handlers)).
    { subst m. destruct (may_throw i).
      - apply merge_handlers_spec in Em as (F1 & G1 & R1 & M1); [|done| |done].
        + split; [done|]. split; [done|]. split; [done|]. intros _. rewrite Forall_forall in R1 |- *. intros h Hin Hp.
          apply R1. apply list_elem_of_In, List.filter_In. split; [by apply list_elem_of_In|done].
        + rewrite Forall_forall in Hh |- *. intros h Hin. apply list_elem_of_In, List.filter_In in Hin as [Hin _].
          apply Hh. by apply list_elem_of_In.
      - injection Em as <-. split; [done|]. split; [done|]. split; [done|]. done. }
    destruct H1 as (F1 & G1 & M1 & Hc). destruct (accepts i s) as [r s1] eqn:Ea. destruct r as [[]| |]; [|done..].
    pose proof (accepts_spec i s s1 Hi Hs Ea) as (Hs1 & _ & _).
    apply IH in H as (F2 & G2 & Hout & Hcov & M2); [|done..].
    split; [done|]. split; [by etrans|]. split; [done|]. split; [|lia]. split; [|by exists s1].
    intros Ht. eapply Forall_impl; [by apply Hc|]. intros h Hp Hpr. by eapply handled_grows; [|apply Hp].
Qed.

Definition block_at (b : Z) : Dia (list Instruction) := check_block art limits module_id function_id function (first_block function + b).

(** Block [b] with state [s] is settled. *)
Definition closed (f : Flow) (b : Z) (s : list Z) : Prop := exists is_ out targets,
  block_at b = Ok is_ /\ Forall registers_ok is_ /\ covered f (first_block function + b) is_ s out /\
  zget successors b = Some targets /\ Forall (fun t => 0 <= t /\ reached f t out) targets.

Lemma closed_grows f g b s : grows f g -> closed f b s -> closed g b s.
Proof.
  intros G (is_ & out & ts & H1 & H2 & H3 & H4 & H5). exists is_, out, ts. split; [done|]. split; [done|].
  split; [by eapply covered_grows|]. split; [done|]. eapply Forall_impl; [done|]. intros t [Ht H]. split; [done|]. by eapply reached_grows.
Qed.

(** It depends on the states only. *)
Lemma closed_states f q b s : closed f b s -> closed (mkFlow (states f) q) b s.
Proof.
  intros (is_ & out & ts & H1 & H2 & H3 & H4 & H5). exists is_, out, ts. split; [done|]. split; [done|]. split; [|done].
  clear H1 H2 H4 H5. revert s H3. induction is_ as [|i is_ IH]; intros s H; [done|]. destruct H as [Hh (t & Ht & H)].
  split; [done|]. exists t. auto.
Qed.

(** What the decoder and the other passes guarantee. *)
Record flow_input : Prop := {
  fi_code : forall b is_, block_at b = Ok is_ -> Forall registers_ok is_;
  fi_handlers : Forall (fun h => 0 <= exception_register h) handlers;
  fi_successors : Forall (Forall (fun t => 0 <= t)) successors }.

Context (Hin : flow_input).

Lemma visit_block_spec b f u g : flow_ok f -> 0 <= b ->
  visit_block art depth limits module_id function_id function result_module result successors handlers b f = (Ok u, g) ->
  flow_ok g /\ grows f g /\ (measure g <= measure f)%nat /\ exists s, zget (states f) b = Some (Some s) /\ closed g b s.
Proof.
  intros F Hb H. unfold visit_block in H. destruct (zget (states f) b) as [[s|]|] eqn:Eb; [|done..].
  apply st_bind_inv in H as (is_ & f0 & H0 & H). injection H0 as H0 <-. unfold flow_block in H.
  destruct (verify_instructions _ _ _ _ _ _ _ _ _ _ 0 false is_ (f, s)) as [r [f1 out]] eqn:Ev.
  apply st_bind_inv in H as ([] & f0 & H1 & H). injection H1 as -> <-.
  pose proof (fi_code Hin _ _ H0) as Hcode.
  apply verify_instructions_spec in Ev as (F1 & G1 & Hout & Hcov & M1); [|done|apply Hin|done|by eapply fo_states].
  apply st_bind_inv in H as (ts & f0 & H1 & H). injection H1 as H1 <-. apply expect_ok in H1.
  assert (Hts : Forall (fun t => 0 <= t) ts) by (eapply (Forall_lookup_1 _ successors); [apply Hin|exact H1]).
  apply merge_all_spec in H as (F2 & G2 & R2 & M2); [|done..].
  split; [done|]. split; [by etrans|]. split; [lia|]. exists s. split; [done|]. exists is_, out, ts.
  split; [done|]. split; [done|]. split; [by eapply covered_grows|]. split; [done|].
  rewrite Forall_forall in R2, Hts |- *. auto.
Qed.

(** ** The loop *)

Definition flow_inv (f : Flow) : Prop := flow_ok f /\
  forall b s, 0 <= b -> zget (states f) b = Some (Some s) -> b ∈ queue f \/ closed f b s.

Abbreviation loop := (dataflow_loop art depth limits module_id function_id function result_module result successors handlers).

Lemma visit_inv b q f u g : flow_inv f -> queue f = b :: q ->
  visit_block art depth limits module_id function_id function result_module result successors handlers b (mkFlow (states f) q) = (Ok u, g) ->
  flow_inv g /\ (measure g < measure f)%nat.
Proof.
  intros [F I] Eq H. pose proof (fo_queue f F) as Hq. rewrite Eq in Hq. apply Forall_cons in Hq as [Hb Hq].
  assert (F0 : flow_ok (mkFlow (states f) q)) by (split; [apply F|done|apply F]).
  apply visit_block_spec in H as (F1 & G1 & M1 & s & Es & Hcl); [|done..]. cbn [states] in Es.
  split; [|unfold measure in *; rewrite Eq; cbn [states queue length] in *; lia].
  split; [done|]. intros c t Hc Et. destruct (zget (states f) c) as [[old|]|] eqn:Ec.
  - destruct (gr_state _ _ G1 c old Hc Ec) as (t' & Et' & _ & Hor). rewrite Et in Et'. injection Et' as <-.
    destruct Hor as [->|]; [|by left]. destruct (I c old Hc Ec) as [Hi|Hi]; [|right].
    + rewrite Eq in Hi. apply elem_of_cons in Hi as [->|Hi]; [right; congruence|left]. by apply (gr_queue _ _ G1).
    + by eapply closed_grows, closed_states.
  - left. by eapply (gr_none _ _ G1).
  - rewrite (gr_out _ _ G1 c Hc Ec) in Et. done.
Qed.

Lemma flow_loop_spec fuel : forall f u g, flow_inv f -> loop fuel f = (Ok u, g) ->
  flow_inv g /\ queue g = [] /\ forall b s, 0 <= b -> reached f b s -> reached g b s.
Proof.
  induction fuel as [|fuel IH]; intros f u g I H; cbn [dataflow_loop] in H; destruct (queue f) as [|b q] eqn:Eq; simplify_eq/=; [done..|].
  apply st_bind_inv in H as ([] & f1 & H1 & H2). pose proof I as [F _].
  pose proof (fo_queue f F) as Hq. rewrite Eq in Hq. apply Forall_cons in Hq as [Hb Hq].
  pose proof (visit_inv b q f _ _ I Eq H1) as [I1 _]. apply IH in H2 as (I2 & E2 & R2); [|done].
  split; [done|]. split; [done|]. intros c s Hc Hs. apply R2; [done|].
  apply visit_block_spec in H1 as (_ & G & _); [|split; [apply F|done|apply F]|done]. by apply (reached_grows (mkFlow (states f) q)).
Qed.

(** The work list from [f] on, without a bound: it ends after [n] iterations, with
    nothing queued or with the refusal of a block. *)
Inductive iterates : nat -> Flow -> outcome DiagnosticSet unit -> Flow -> Prop :=
| iterates_end f : queue f = [] -> iterates 0 f (Ok tt) f
| iterates_refused f b q r g : queue f = b :: q ->
    visit_block art depth limits module_id function_id function result_module result successors handlers b (mkFlow (states f) q) = (r, g) ->
    r <> Ok tt -> iterates 1 f r g
| iterates_next n f b q g r h : queue f = b :: q ->
    visit_block art depth limits module_id function_id function result_module result successors handlers b (mkFlow (states f) q) = (Ok tt, g) ->
    iterates n g r h -> iterates (S n) f r h.

(** It ends after as many iterations as the measure says, and a bound from there on
    is never met. *)
Lemma flow_iterates m : forall f, flow_inv f -> (measure f <= m)%nat ->
  exists n r g, iterates n f r g /\ (n <= m)%nat /\ forall fuel, (m <= fuel)%nat -> loop fuel f = (r, g).
Proof.
  induction m as [|m IH]; intros f I Hm; destruct (queue f) as [|b q] eqn:Eq.
  1, 3: exists 0%nat, (Ok tt), f; split_and!; [by constructor|lia|]; intros fuel _; destruct fuel; cbn [dataflow_loop]; by rewrite Eq.
  - unfold measure in Hm. rewrite Eq in Hm. simpl in Hm. lia.
  - destruct (visit_block art depth limits module_id function_id function result_module result successors handlers b (mkFlow (states f) q))
      as [r1 f1] eqn:E1.
    assert (Hrun : forall fuel, loop (S fuel) f = (match r1 with Ok _ => loop fuel f1 | Err e => (Err e, f1) | Panic => (Panic, f1) end)).
    { intros fuel. cbn [dataflow_loop]. rewrite Eq. unfold mbind, ST_bind. rewrite E1. by destruct r1 as [[]| |]. }
    destruct r1 as [[]|e|].
    + pose proof (visit_inv b q f _ _ I Eq E1) as [I1 M1]. destruct (IH f1 I1) as (n & r & g & Hi & Hn & Hl); [lia|].
      exists (S n), r, g. split_and!; [by econstructor|lia|]. intros [|fuel] Hf; [lia|]. rewrite Hrun. apply Hl. lia.
    + exists 1%nat, (Err e), f1. split_and!; [by econstructor|lia|]. intros [|fuel] Hf; [lia|]. apply Hrun.
    + exists 1%nat, Panic, f1. split_and!; [by econstructor|lia|]. intros [|fuel] Hf; [lia|]. apply Hrun.
Qed.

End Flow.
End VerifyFlow.

Import Diagnostics Artifact Verify VerifyInv VerifyFlow.

Module VerifyProps.
Import Code.

(** ** Paths

    [on_path block k W]: control can be before instruction [k] of [block], and [W]
    has every register written on the way.  Control leaves a block by its
    terminator, or by an exception of an instruction in the range of a handler. *)

Definition code_at (m : DecodedModule) (block : Z) : option (list Instruction) := instructions <$> zget (code m) block.

Section Paths.
Context (m : DecodedModule) (function : Function) (handlers : list Handler).

Inductive on_path : Z -> nat -> list Z -> Prop :=
| path_entry : on_path (first_block function) 0 (parameters_of function)
| path_next block k W is_ i :
    on_path block k W -> code_at m block = Some is_ -> is_ !! k = Some i -> is_terminator i = false ->
    on_path block (S k) (writes i ++ W)
| path_jump block k W is_ i t :
    on_path block k W -> code_at m block = Some is_ -> is_ !! k = Some i -> t ∈ terminator_targets i ->
    on_path t 0 (writes i ++ W)
| path_throw block k W is_ i h :
    on_path block k W -> code_at m block = Some is_ -> is_ !! k = Some i -> may_throw i = true ->
    h ∈ handlers -> protects block h = true ->
    on_path (handler_block h) 0 (exception_register h :: W).

End Paths.

(** ** Control flow *)

Lemma local_targets_spec (limits : ArtifactLimits) module_id function_id m hs start stop b : forall ts local,
  local_targets limits module_id function_id m hs start stop b ts = Ok local ->
  local = map (fun t => t - start) ts /\ Forall (fun t => start <= t < stop) ts.
Proof.
  induction ts as [|t ts IH]; intros local H; cbn [local_targets] in H; [by injection H as <-|].
  destruct (Z.ltb_spec t start), (Z.leb_spec stop t); cbn [orb] in H; [done..|].
  apply outcome_bind_inv in H as (block & _ & H). destruct (_ && _); [done|]. case_bool_decide; [done|].
  apply outcome_bind_inv in H as (rest & Hrest & H). injection H as <-. apply IH in Hrest as [-> HF].
  split; [done|]. constructor; [lia|done].
Qed.

Lemma block_successors_spec limits module_id function_id m hs start stop b local :
  block_successors limits module_id function_id m hs start stop b = Ok local ->
  exists body i, code_at m b = Some (body ++ [i]) /\ is_terminator i = true /\ Forall (fun i => is_terminator i = false) body /\
    local = map (fun t => t - start) (terminator_targets i) /\ Forall (fun t => start <= t < stop) (terminator_targets i).
Proof.
  intros H. unfold block_successors in H. apply outcome_bind_inv in H as (block & _ & H). destruct (_ || _); [done|].
  apply outcome_bind_inv in H as (record & H1 & H). apply expect_ok in H1.
  destruct (last (instructions record)) as [i|] eqn:El; [|done].
  destruct (negb (is_terminator i) || existsb is_terminator (removelast (instructions record))) eqn:Eb; [done|].
  apply orb_false_iff in Eb as [Ht Hb]. apply negb_false_iff in Ht. apply local_targets_spec in H as [-> HF].
  apply last_Some in El as [body El]. exists body, i. unfold code_at. rewrite H1. cbn. rewrite El. split; [done|]. split; [done|].
  split; [|done]. rewrite El, removelast_last in Hb. apply Forall_forall. intros j Hj. destruct (is_terminator j) eqn:E; [|done].
  rewrite <- Hb. symmetry. apply existsb_exists. exists j. split; [by apply list_elem_of_In|done].
Qed.

Lemma all_successors_spec limits module_id function_id m hs start stop : forall bs successors,
  all_successors limits module_id function_id m hs start stop bs = Ok successors ->
  Forall2 (fun b local => block_successors limits module_id function_id m hs start stop b = Ok local) bs successors.
Proof.
  induction bs as [|b bs IH]; intros successors H; cbn [all_successors] in H; [injection H as <-; constructor|].
  apply outcome_bind_inv in H as (local & H1 & H). apply outcome_bind_inv in H as (rest & H2 & H). injection H as <-. constructor; auto.
Qed.

(** The successors of the blocks of a function are the targets of their
    terminators, inside the function. *)
Lemma control_flow_spec limits module_id function_id function m hs successors :
  0 <= first_block function -> 0 <= block_count function ->
  verify_control_flow limits module_id function_id function m hs = Ok successors ->
  let start := first_block function in let stop := start + Z.of_nat (length successors) in
  (0 < length successors)%nat /\
  forall block, start <= block < stop -> exists body i,
    code_at m block = Some (body ++ [i]) /\ is_terminator i = true /\ Forall (fun i => is_terminator i = false) body /\
    zget successors (block - start) = Some (map (fun t => t - start) (terminator_targets i)) /\
    Forall (fun t => start <= t < stop) (terminator_targets i).
Proof.
  intros Hs Hbc H. unfold verify_control_flow in H. apply outcome_bind_inv in H as (stop & H1 & H). apply ok_or_ok in H1.
  apply bind_Some in H1 as (stop' & H1 & H2). apply checked_add_Some in H1 as [-> _].
  destruct (_ && _); [|done]. injection H2 as <-. destruct (Z.eqb_spec (first_block function) (first_block function + block_count function)); [done|].
  apply all_successors_spec in H. pose proof (Forall2_length _ _ _ H) as Hl. rewrite length_seqZ in Hl. cbn zeta.
  split; [lia|]. intros block Hb.
  destruct (Forall2_lookup_l _ _ _ (Z.to_nat (block - first_block function)) block H) as (local & Hl' & Hsp).
  { apply lookup_seqZ. lia. }
  apply block_successors_spec in Hsp as (body & i & H1 & H2 & H3 & -> & H4). exists body, i. split; [done|]. split; [done|]. split; [done|].
  split; [done|]. eapply Forall_impl; [done|]. simpl. lia.
Qed.

(** ** The solution the work list leaves *)

Section Function.
Context (art : DecodedArtifact) (depth : nat) (limits : ArtifactLimits) (module_id function_id : Z) (function : Function).
Context (result_module : Z) (result : ValueType) (successors : list (list Z)) (handlers : list Handler).
Context (Hin : flow_input art limits module_id function_id function successors handlers).

(** The registers the caller writes, and the flow the work list starts from. *)
Definition entry_state : outcome DiagnosticSet unit * list Z :=
  set_all (parameters_of function) (replicate (words function) 0).
Definition initial_flow (entry : list Z) : Flow :=
  mkFlow (zset 0 (Some entry) (replicate (length successors) None)) [0].

Lemma entry_spec u entry : entry_state = (Ok u, entry) ->
  bitset (words function) entry /\ forall c, 0 <= c -> get entry c = true <-> c ∈ parameters_of function.
Proof.
  intros H. apply (set_all_spec (words function)) in H as [Hb Hg].
  - split; [done|]. intros c Hc. rewrite Hg by done. split; [|by right]. intros [Hz|]; [|done]. exfalso.
    rewrite get_bit in Hz by done. destruct (zget _ _) as [w|] eqn:E; [|done]. apply lookup_replicate in E as [-> _].
    by rewrite Z.bits_0 in Hz.
  - apply parameters_nonneg.
  - split; [by rewrite length_replicate|]. apply Forall_replicate. done.
Qed.

Lemma initial_inv u entry : (0 < length successors)%nat -> entry_state = (Ok u, entry) ->
  flow_inv art depth limits module_id function_id function result_module result successors handlers (initial_flow entry) /\
  reached (initial_flow entry) 0 entry /\
  (measure function (initial_flow entry) <= dataflow_fuel function successors)%nat.
Proof.
  intros Hl H. pose proof (entry_spec _ _ H) as [Hb _].
  assert (E0 : zget (replicate (length successors) (None (A:=list Z))) 0 = Some None) by (apply lookup_replicate; split; [done|lia]).
  assert (Ez : forall c, 0 <= c -> zget (states (initial_flow entry)) c = if 0 =? c then Some (Some entry) else zget (replicate (length successors) None) c)
    by (intros c Hc; apply zget_same; [done|done|by eexists]).
  split; [split|split].
  - split.
    + cbn [initial_flow states]. by rewrite zset_length, length_replicate.
    + by apply Forall_singleton.
    + intros b s Hb0 Es. rewrite Ez in Es by done. destruct (Z.eqb_spec 0 b); [by injection Es as <-|].
      by apply lookup_replicate in Es as [? _].
  - intros b s Hb0 Es. rewrite Ez in Es by done. destruct (Z.eqb_spec 0 b) as [<-|]; [left; by apply list_elem_of_singleton|].
    by apply lookup_replicate in Es as [? _].
  - exists entry. by rewrite Ez.
  - unfold measure, dataflow_fuel, initial_flow. cbn [states queue length].
    pose proof (sum_zset (state_weight function) _ _ (Some entry) _ E0) as Hsum. cbn [state_weight] in Hsum.
    pose proof (weight_bound (words function) entry).
    assert (Hr : list_sum (map (state_weight function) (replicate (length successors) None)) = (length successors * S (64 * words function))%nat).
    { generalize (length successors). intros k. induction k as [|k IH]; [done|]. simpl in IH |- *. lia. }
    lia.
Qed.

(** C13. The work list of the verifier ends.  From the entry of a function, whatever
    its code is, it stops after at most [1 + blocks * (1 + 64 * w)] iterations, where
    [w] is the number of words of 64 bits that hold a bit per register, since a block
    returns to the queue only when its set loses a register: either a block is refused, or
    the queue is empty and the sets are a fixed point, every reached block being
    settled, with its successors and handlers below what it passes on.  So the
    loop with this bound, or any larger one, gives that result and never runs into the
    bound. *)
Theorem dataflow_terminates entry : (0 < length successors)%nat -> entry_state = (Ok tt, entry) ->
  exists n r f,
    iterates art depth limits module_id function_id function result_module result successors handlers n (initial_flow entry) r f /\
    (n <= 1 + length successors * (1 + 64 * words function))%nat /\
    (r = Ok tt -> queue f = [] /\ forall b s, 0 <= b -> zget (states f) b = Some (Some s) ->
       closed art depth limits module_id function_id function result_module result successors handlers f b s) /\
    (forall fuel, (dataflow_fuel function successors <= fuel)%nat ->
       dataflow_loop art depth limits module_id function_id function result_module result successors handlers fuel (initial_flow entry) = (r, f)).
Proof.
  intros Hl He. pose proof (initial_inv _ _ Hl He) as (I & _ & M).
  destruct (flow_iterates art depth limits module_id function_id function result_module result successors handlers Hin
    (dataflow_fuel function successors) (initial_flow entry) I M) as (n & r & f & Hi & Hn & Hrun).
  exists n, r, f. split_and!; [done|unfold dataflow_fuel in Hn; lia| |done]. intros ->.
  specialize (Hrun _ (Nat.le_refl _)). apply flow_loop_spec in Hrun as ([_ If] & Eq & _); [|done|done].
  split; [done|]. intros b s Hb Es. destruct (If b s Hb Es) as [Hin'|]; [|done]. rewrite Eq in Hin'. by apply elem_of_nil in Hin'.
Qed.

Lemma dataflow_spec : verify_dataflow art depth limits module_id function_id function result_module result successors handlers = Ok tt ->
  exists f, flow_inv art depth limits module_id function_id function result_module result successors handlers f /\ queue f = [] /\
    (forall b, 0 <= b < Z.of_nat (length successors) -> exists s, zget (states f) b = Some (Some s)) /\
    exists s, zget (states f) 0 = Some (Some s) /\ forall c, 0 <= c -> get s c = true -> c ∈ parameters_of function.
Proof.
  intros H. unfold verify_dataflow in H. fold entry_state in H. destruct entry_state as [r entry] eqn:Ee.
  apply outcome_bind_inv in H as ([] & -> & H). apply outcome_bind_inv in H as (o & H1 & H). apply expect_ok in H1.
  assert (Hl : (0 < length successors)%nat) by (apply lookup_replicate in H1 as [_ ?]; lia).
  fold (initial_flow entry) in H. destruct (dataflow_loop _ _ _ _ _ _ _ _ _ _ _ _) as [r f] eqn:El.
  apply outcome_bind_inv in H as ([] & -> & H). pose proof (initial_inv _ _ Hl Ee) as (I & R & _).
  apply flow_loop_spec in El as (If & Eq & Rf); [|done|done]. exists f. split; [done|]. split; [done|]. split.
  - intros b Hb. apply guard_err_ok in H. destruct If as [F _].
    destruct (zget_is_Some (states f) b) as [o' Eo]; [rewrite (fo_length _ _ _ F); lia|]. rewrite Eo. destruct o' as [s|]; [by exists s|].
    exfalso. assert (Ht : existsb (fun s => match s with None => true | _ => false end) (states f) = true); [|congruence].
    apply existsb_exists. exists (None (A:=list Z)). split; [|done]. apply list_elem_of_In. by apply list_elem_of_lookup_2 in Eo.
  - destruct (Rf 0 entry) as (s & Es & Hs); [done|done|]. exists s. split; [done|]. intros c Hc Hg.
    apply (entry_spec _ _ Ee); [done|]. by apply Hs.
Qed.

(** ** Paths stay inside the solution *)

Context (m : DecodedModule) (Hm : zget (modules art) module_id = Some m).

Lemma check_block_code b is_ : check_block art limits module_id function_id function b = Ok is_ -> code_at m b = Some is_.
Proof.
  intros H. unfold check_block, module_at in H. rewrite Hm in H. cbn [expect] in H. unfold code_at.
  apply outcome_bind_inv in H as (m' & [= <-] & H).
  apply outcome_bind_inv in H as (block & _ & H). apply outcome_bind_inv in H as (record & H1 & H). apply expect_ok in H1. rewrite H1.
  destruct (negb _); [done|]. apply outcome_bind_inv in H as (cost & _ & H). destruct (_ || _); [done|]. by injection H as <-.
Qed.

(** Before instruction [k] of the block the state is within [W]. *)
Definition position_ok (f : Flow) (block : Z) (k : nat) (W : list Z) : Prop :=
  first_block function <= block < first_block function + Z.of_nat (length successors) /\
  (forall r, r ∈ parameters_of function -> r ∈ W) /\
  exists is_ state out,
    code_at m block = Some is_ /\ Forall registers_ok is_ /\ (k < length is_)%nat /\ bitset (words function) state /\
    covered art depth limits module_id function_id function result_module result handlers f block (drop k is_) state out /\
    (forall c, 0 <= c -> get state c = true -> c ∈ W) /\
    exists targets, zget successors (block - first_block function) = Some targets /\ Forall (fun t => 0 <= t /\ reached f t out) targets.

Context (start_ok : 0 <= first_block function) (count_ok : 0 <= block_count function).
Context (cfg : verify_control_flow limits module_id function_id function m (map handler_block handlers) = Ok successors).
Context (f : Flow) (If : flow_inv art depth limits module_id function_id function result_module result successors handlers f).
Context (Eq : queue f = []).

Lemma enter_block block s W : first_block function <= block < first_block function + Z.of_nat (length successors) ->
  zget (states f) (block - first_block function) = Some (Some s) -> (forall c, 0 <= c -> get s c = true -> c ∈ W) ->
  (forall r, r ∈ parameters_of function -> r ∈ W) -> position_ok f block 0 W.
Proof.
  intros Hb Es HW Hp. destruct If as [F I]. destruct (I (block - first_block function) _ ltac:(lia) Es) as [Hq|(is_ & out & ts & H1 & H2 & H3 & H4 & H5)].
  { rewrite Eq in Hq. set_solver. }
  unfold block_at in H1. replace (first_block function + (block - first_block function)) with block in H1, H3 by lia.
  split; [done|]. split; [done|]. exists is_, s, out. rewrite drop_0.
  pose proof (check_block_code _ _ H1) as Hc.
  destruct (proj2 (control_flow_spec _ _ _ _ _ _ _ start_ok count_ok cfg) block Hb) as (body & i & Hc' & _).
  split; [done|]. split; [done|]. split; [rewrite Hc in Hc'; injection Hc' as ->; rewrite length_app; simpl; lia|].
  split; [by eapply (fo_states _ _ _ F); [|exact Es]; lia|]. split; [done|]. split; [done|]. by exists ts.
Qed.

(** One instruction from a position. *)
Lemma position_step block k W : position_ok f block k W -> exists i is_ state next out,
  code_at m block = Some is_ /\ is_ !! k = Some i /\
  (forall c, 0 <= c -> get state c = true -> c ∈ W) /\
  Forall (fun r => declared function r /\ r ∈ W) (reads i) /\
  bitset (words function) next /\ (forall c, 0 <= c -> get next c = true -> c ∈ writes i ++ W) /\
  covered art depth limits module_id function_id function result_module result handlers f block (drop (S k) is_) next out /\
  (may_throw i = true -> Forall (fun h => protects block h = true -> handled function f state h) handlers) /\
  Forall registers_ok is_ /\
  exists targets, zget successors (block - first_block function) = Some targets /\ Forall (fun t => 0 <= t /\ reached f t out) targets.
Proof.
  intros (Hb & Hp & is_ & state & out & Hc & Hr & Hk & Hs & Hcov & HW & Ht).
  destruct (lookup_lt_is_Some_2 is_ k Hk) as [i Ei]. rewrite (drop_S _ _ _ Ei) in Hcov. destruct Hcov as [Hh (next & Ha & Hcov)].
  pose proof (proj1 (Forall_lookup _ _) Hr _ _ Ei) as Hri.
  destruct (accepts_spec _ _ _ _ _ _ _ _ _ _ _ Hri Hs Ha) as (Hn & HR & Hg).
  exists i, is_, state, next, out. split; [done|]. split; [done|]. split; [done|]. split.
  { apply Forall_app in Hri as [Hri _]. rewrite Forall_forall in HR, Hri |- *. intros r Hin'. destruct (HR r Hin') as [Hd Hgr]. split; [done|].
    apply HW; [by apply Hri|done]. }
  split; [done|]. split. { intros c Hc0 Hgc. apply Hg in Hgc; [|done]. apply elem_of_app. destruct Hgc; [right; auto|by left]. }
  by eauto 10.
Qed.

Lemma path_position block k W : (exists s, zget (states f) 0 = Some (Some s) /\ forall c, 0 <= c -> get s c = true -> c ∈ parameters_of function) ->
  on_path m function handlers block k W -> position_ok f block k W.
Proof.
  intros (s0 & E0 & H0) H. destruct (control_flow_spec _ _ _ _ _ _ _ start_ok count_ok cfg) as [Hl Hcf].
  induction H as [|block k W is_ i Hpath IH Hc Hi Hnt|block k W is_ i t Hpath IH Hc Hi Ht|block k W is_ i h Hpath IH Hc Hi Ht Hh Hpr].
  - apply (enter_block _ s0); [lia|by rewrite Z.sub_diag|done|done].
  - pose proof IH as (Hb & Hp & _).
    destruct (position_step _ _ _ IH) as (i' & is' & st & next & out & Hc' & Hi' & _ & _ & Hn & Hnext & Hcov & _ & Hr & Hts).
    rewrite Hc in Hc'. injection Hc' as <-. rewrite Hi in Hi'. injection Hi' as <-.
    split; [done|]. split; [intros r ?; apply elem_of_app; right; auto|]. exists is_, next, out. split; [done|]. split; [done|]. split; [|by auto].
    destruct (Hcf block Hb) as (body & j & Hc'' & Hj & _). rewrite Hc in Hc''. injection Hc'' as ->.
    apply lookup_lt_Some in Hi as Hk. rewrite length_app in *. simpl in *. destruct (decide (k = length body)) as [->|]; [|lia].
    rewrite lookup_app_r, Nat.sub_diag in Hi by lia. injection Hi as <-. congruence.
  - pose proof IH as (Hb & Hp & _).
    destruct (position_step _ _ _ IH) as (i' & is' & st & next & out & Hc' & Hi' & _ & _ & Hn & Hnext & Hcov & _ & Hr & ts & Ets & Hts).
    rewrite Hc in Hc'. injection Hc' as <-. rewrite Hi in Hi'. injection Hi' as <-.
    destruct (Hcf block Hb) as (body & j & Hc'' & Hj & Hbody & Esucc & Hrange). rewrite Hc in Hc''. injection Hc'' as ->.
    assert (Hk : k = length body).
    { destruct (decide (k < length body)%nat) as [Hlt|Hge].
      - rewrite lookup_app_l in Hi by lia. pose proof (proj1 (Forall_lookup _ _) Hbody _ _ Hi) as Hnt. exfalso. destruct i; simpl in Hnt, Ht; try set_solver; done.
      - apply lookup_lt_Some in Hi. rewrite length_app in Hi. simpl in Hi. lia. }
    subst k. rewrite lookup_app_r, Nat.sub_diag in Hi by lia. injection Hi as ->.
    rewrite drop_ge in Hcov by (rewrite length_app; simpl; lia). cbn [covered] in Hcov. subst out.
    rewrite Esucc in Ets. injection Ets as <-. rewrite Forall_forall in Hts, Hrange.
    destruct (Hts (t - first_block function)) as (Ht0 & s & Es & Hsub). { apply list_elem_of_fmap. by exists t. }
    apply (enter_block _ s); [by apply Hrange|done|auto|]. intros r ?. apply elem_of_app. right. auto.
  - pose proof IH as (Hb & Hp & _).
    destruct (position_step _ _ _ IH) as (i' & is' & st & next & out & Hc' & Hi' & Hst & _ & Hn & Hnext & Hcov & Hhand & Hr & _).
    rewrite Hc in Hc'. injection Hc' as <-. rewrite Hi in Hi'. injection Hi' as <-. specialize (Hhand Ht). rewrite Forall_forall in Hhand.
    destruct (Hhand h Hh Hpr) as (Hle & s & Es & Hcaught). apply (enter_block _ s); [|done| |].
    + split; [done|]. destruct If as [F _]. apply zget_Some_lt in Es as [_ Hlt]; [|lia]. rewrite (fo_length _ _ _ F) in Hlt. lia.
    + intros c Hc0 Hg. destruct (Hcaught c Hc0 Hg) as [Hg'|[Hpar| ->]]; apply elem_of_cons; [right|right|left; done]; auto.
    + intros r ?. apply elem_of_cons. right. auto.
Qed.

End Function.

(** ** Functions of an artifact *)

Lemma instruction_registers climits i : CodeProps.instruction_ok climits i -> registers_ok i.
Proof.
  intros (_ & H & _). unfold registers_ok. apply Forall_app.
  assert (Hp : forall r, 0 <= r -> Forall (fun r => 0 <= r) (present r)).
  { intros r Hr. unfold present. destruct (r =? _); [constructor|by apply Forall_singleton]. }
  assert (Ha : forall xs, CodeProps.is_args climits xs -> Forall (fun r => 0 <= r) xs).
  { intros xs [_ Hx]. eapply Forall_impl; [done|]. intros r [? _]. done. }
  destruct i; cbn [CodeProps.operands_ok reads writes] in *; unfold CodeProps.is_reg, CodeProps.is_optional in *;
    try match goal with o : option Z |- _ => destruct o end;
    split; repeat match goal with
      | |- Forall _ (_ :: _) => constructor
      | |- Forall _ [] => constructor
      | |- Forall _ (present _) => apply Hp
      | |- 0 <= _ => lia
      | |- Forall _ _ => apply Ha; tauto
      end; naive_solver lia.
Qed.

(** What the decoder guarantees of the numbers and the code of a module, and the
    handler tables of registers. *)
Record module_decoded (climits : CodeLimits) (m : DecodedModule) : Prop := {
  md_code : forall b is_, code_at m b = Some is_ -> Forall (CodeProps.instruction_ok climits) is_;
  md_functions : Forall (fun f => 0 <= first_block f /\ 0 <= block_count f) (functions m) }.
Definition handlers_decoded (hs : list Handler) : Prop := Forall (fun h => 0 <= exception_register h) hs.

Lemma verify_module_functions_each art depth model limits m module_id : forall fs i,
  verify_module_functions art depth model limits m module_id i fs = Ok tt ->
  forall k f, fs !! k = Some f ->
    verify_function art depth limits module_id (i + Z.of_nat k) f m (handlers_of model module_id (i + Z.of_nat k)) = Ok tt.
Proof.
  induction fs as [|g fs IH]; intros i H k f Hf; [done|]. cbn [verify_module_functions] in H.
  apply outcome_bind_inv in H as ([] & H1 & H2). destruct k as [|k].
  - injection Hf as ->. by rewrite Z.add_0_r.
  - specialize (IH _ H2 k f Hf). by replace (i + Z.of_nat (S k)) with (i + 1 + Z.of_nat k) by lia.
Qed.

Lemma verify_functions_each art depth model limits module_id m function_id f :
  verify_functions art depth model limits = Ok tt -> 0 <= module_id -> zget (modules art) module_id = Some m ->
  0 <= function_id -> zget (functions m) function_id = Some f ->
  verify_function art depth limits module_id function_id f m (handlers_of model module_id function_id) = Ok tt.
Proof.
  intros H Hi Hm Hj Hf. unfold verify_functions in H. destruct (_ <? _); [done|]. case_bool_decide; [done|].
  assert (Hgen : forall ms i k m, verify_all_modules art depth model limits i ms = Ok tt -> ms !! k = Some m ->
    verify_module_functions art depth model limits m (i + Z.of_nat k) 0 (functions m) = Ok tt).
  { induction ms as [|m0 ms IH]; intros i k m' HA Hk; [done|]. cbn [verify_all_modules] in HA.
    apply outcome_bind_inv in HA as ([] & H1 & H2). destruct k as [|k].
    - injection Hk as ->. by rewrite Z.add_0_r.
    - specialize (IH _ _ _ H2 Hk). by replace (i + Z.of_nat (S k)) with (i + 1 + Z.of_nat k) by lia. }
  specialize (Hgen _ _ _ _ H Hm). rewrite Z2Nat.id, Z.add_0_l in Hgen by done.
  pose proof (verify_module_functions_each _ _ _ _ _ _ _ _ Hgen _ _ Hf) as Hv. by rewrite Z2Nat.id, Z.add_0_l in Hv by done.
Qed.

(** Definite assignment: in an artifact whose functions the verifier accepts, on
    every path through a function, ordinary or exceptional, every register an
    instruction reads is declared and has been written before, by the caller, by an
    earlier instruction or by the handler that was entered; and control never runs
    past the code of a block. *)
Theorem definite_assignment art depth model limits climits module_id m function_id f hs block k W :
  verify_functions art depth model limits = Ok tt ->
  0 <= module_id -> zget (modules art) module_id = Some m -> module_decoded climits m ->
  0 <= function_id -> zget (functions m) function_id = Some f -> bit 3 (fn_flags f) = false ->
  handlers_of model module_id function_id = Ok hs -> handlers_decoded hs ->
  on_path m f hs block k W ->
  exists is_ i, code_at m block = Some is_ /\ is_ !! k = Some i /\ Forall (fun r => declared f r /\ r ∈ W) (reads i).
Proof.
  intros H Hi Hm Md Hj Hf Habs Hhs Hd Hpath.
  pose proof (verify_functions_each _ _ _ _ _ _ _ _ H Hi Hm Hj Hf) as Hv. unfold verify_function in Hv.
  apply outcome_bind_inv in Hv as ([] & _ & Hv). apply outcome_bind_inv in Hv as ([[rm r] ps] & _ & Hv).
  rewrite Habs, Hhs in Hv. apply outcome_bind_inv in Hv as (hs' & [= <-] & Hv). apply outcome_bind_inv in Hv as (successors & Hcfg & Hv).
  pose proof (proj1 (Forall_lookup _ _) (md_functions _ _ Md) _ _ Hf) as [Hs Hc].
  assert (Hin : flow_input art limits module_id function_id f successors hs).
  { split; [|done|].
    - intros b is_ Hb. unfold block_at in Hb. apply (check_block_code art limits module_id function_id f m Hm) in Hb.
      eapply Forall_impl; [by eapply (md_code _ _ Md)|]. intros i. apply instruction_registers.
    - apply Forall_lookup. intros b ts Hts. destruct (control_flow_spec _ _ _ _ _ _ _ Hs Hc Hcfg) as [_ Hcf].
      destruct (Hcf (first_block f + Z.of_nat b)) as (body & i & _ & _ & _ & Ez & Hrange). { apply lookup_lt_Some in Hts. lia. }
      unfold zget in Ez. replace (Z.to_nat (first_block f + Z.of_nat b - first_block f)) with b in Ez by lia. rewrite Hts in Ez. injection Ez as ->.
      apply Forall_fmap. eapply Forall_impl; [done|]. simpl. lia. }
  destruct (dataflow_spec _ depth _ _ _ _ rm r _ _ Hin Hv) as (flow & If & Eq & _ & H0).
  pose proof (path_position _ _ _ _ _ _ _ _ _ _ Hin m Hm Hs Hc Hcfg flow If Eq block k W H0 Hpath) as Hpos.
  destruct (position_step _ _ _ _ _ _ _ _ _ _ m flow _ _ _ Hpos) as (i & is_ & st & next & out & Hc' & Hi' & _ & HR & _).
  by exists is_, i.
Qed.

(** ** A function with a loop and a handler

    [fun f(n) { var a = 7; while (a < n) try { a = a / n } catch (e) { return n }; return a }]. *)

Definition int_type : ValueType := mkType 1 0 NO_TYPE.
Definition sample_values : list FunctionValue :=
  [mkValue int_type [Frame.AI32]; mkValue int_type [Frame.AI32]; mkValue (mkType 5 0 NO_TYPE) [Frame.AI32];
   mkValue (mkType 7 0 1) [Frame.ARef32]].
Definition sample_function : Function := mkFunction NO_TYPE 0 0 0 4 1 0 5 0 1 sample_values.
Definition sample_blocks : list (Z * list Instruction) :=
  [(2, [Const 1 0; Jump 1]); (2, [Less 1 2 1 0; Branch 2 2 3]); (5, [Div 1 1 1 0; Jump 1]); (1, [Return 1]); (1, [Return 0])].
Definition sample_module : DecodedModule :=
  mkModule 0 0 [] 0 0 2 1 [text "f"; text "E"] []
    [Function_ 0 0 int_type [int_type]; Class 2 0 1 NO_TYPE [] 0 0 0 0 None]
    [CI32 7] [] [] [] [sample_function]
    (imap (fun i '(cost, is_) => mkBlock 0 (Z.of_nat i) (zlength is_) cost (if (i =? 1)%nat then 1 else 0)) sample_blocks)
    (map (fun '(cost, is_) => mkCode [] is_ cost) sample_blocks)
    [mkException 0 2 1 1 4 3] [] [].
Definition sample_artifact : DecodedArtifact :=
  mkArtifact [] [] (mkHeader 1 20 0 0 0 0 0 NoArguments) (mkManifest 0 0 1 1 0 0 5 5 0 0 [] [] 0 0) [] [sample_module].
Definition sample_handlers : list Handler := [mkHandler 2 3 4 3].

Lemma sample_decoded : module_decoded (mkCodeLimits 16 16) sample_module.
Proof.
  split; [|repeat constructor; vm_compute; discriminate]. intros b is_ H. unfold code_at, zget in H.
  destruct (Z.to_nat b) as [|[|[|[|[|k]]]]]; simplify_eq/=; repeat constructor; vm_compute; done.
Qed.

(** Before [Return 0] in the handler: the loop was entered and the division threw. *)
Lemma definite_assignment_witness : exists W,
  on_path sample_module sample_function sample_handlers 4 0 W /\
  verify_functions sample_artifact 10 [[sample_handlers]] limits_default = Ok tt /\
  exists is_ i, code_at sample_module 4 = Some is_ /\ is_ !! 0%nat = Some i /\ Forall (fun r => declared sample_function r /\ r ∈ W) (reads i).
Proof.
  assert (Hp : on_path sample_module sample_function sample_handlers 4 0 [3; 2; 1; 0]).
  { eapply (path_throw _ _ _ 2 0 _ _ (Div 1 1 1 0) (mkHandler 2 3 4 3)); [|done|done|done|by apply list_elem_of_singleton|done].
    eapply (path_jump _ _ _ 1 1 _ _ (Branch 2 2 3) 2); [|done|done|set_solver].
    eapply (path_next _ _ _ 1 0 [1; 0] _ (Less 1 2 1 0)); [|done..].
    eapply (path_jump _ _ _ 0 1 [1; 0] _ (Jump 1) 1); [|done|done|set_solver].
    eapply (path_next _ _ _ 0 0 [0] _ (Const 1 0)); [|done..]. apply path_entry. }
  assert (Hv : verify_functions sample_artifact 10 [[sample_handlers]] limits_default = Ok tt) by (vm_compute; reflexivity).
  exists [3; 2; 1; 0]. split; [done|]. split; [done|].
  apply (definite_assignment sample_artifact 10 [[sample_handlers]] limits_default (mkCodeLimits 16 16) 0 sample_module 0 sample_function
           sample_handlers 4 0 [3; 2; 1; 0]); try done.
  - apply sample_decoded.
  - by apply Forall_singleton.
Defined.

Definition sample_successors : list (list Z) := [[1]; [2; 3]; [1]; []; []].

Lemma dataflow_terminates_witness : exists n f,
  iterates sample_artifact 10 limits_default 0 0 sample_function 0 int_type sample_successors sample_handlers n
    (initial_flow sample_successors [1]) (Ok tt) f /\ (n <= 326)%nat /\ queue f = [].
Proof.
  assert (Hin : flow_input sample_artifact limits_default 0 0 sample_function sample_successors sample_handlers).
  { split; [|by apply Forall_singleton|repeat constructor; lia].
    intros b is_ Hb. apply (check_block_code sample_artifact limits_default 0 0 sample_function sample_module eq_refl) in Hb.
    eapply Forall_impl; [by eapply (md_code _ _ sample_decoded)|]. intros i. apply instruction_registers. }
  destruct (dataflow_terminates sample_artifact 10 limits_default 0 0 sample_function 0 int_type sample_successors sample_handlers Hin [1])
    as (n & r & f & Hi & Hn & Hq & Hrun); [vm_compute; lia|reflexivity|].
  assert (Er : (dataflow_loop sample_artifact 10 limits_default 0 0 sample_function 0 int_type sample_successors sample_handlers
    (dataflow_fuel sample_function sample_successors) (initial_flow sample_successors [1])).1 = Ok tt) by (vm_compute; reflexivity).
  rewrite (Hrun _ (Nat.le_refl _)) in Er. simpl in Er. subst r. exists n, f. split; [exact Hi|]. split; [exact Hn|]. exact (proj1 (Hq eq_refl)).
Defined.

End VerifyProps.
