(* ===== verification/Text.v ===== *)
(** src/execution/text.rs: how the machine reads strings, and the sliced
    operations over their code units (hash, equality, comparison).

    A string is a literal of the image, the name of a type, a managed object (a
    header of eight bytes, then one or two bytes per code unit), the units of a
    char array, or a short buffer of units.  The operations run in slices: a unit
    of budget pays for eight code units.  A pending operation that fails is gone,
    so its state matters only on success. *)

From S2P Require Import Prelude Words Errors Value Layout Heap.
Import Errors.

Module Text.

(** [ResolvedLiteral]: the bytes its range denotes, and the number of units. *)
Record ResolvedLiteral := mkLiteral { l_bytes : list Z; code_units : Z }.

(** What text.rs asks of the image: its literals, the index of the string type,
    the names of its types. *)
Record TextImage := mkTextImage {
  literals : list ResolvedLiteral; string_type : option Z; type_names : list (list Z) }.

Definition literal_reference (img : TextImage) (r : Value.Ref32) : option ResolvedLiteral :=
  if bool_decide (Value.domain r = Value.Image) then zget (literals img) (Value.payload r) else None.

Inductive TextError :=
| Trap (t : GuestTrap)
| Fault (f : VmFault)
| Exhausted (used block_bytes requested : Z) (collection_attempted : bool).

Inductive StringBacking :=
| Inline (units : list Z) (start length : Z)
| Literal (l : ResolvedLiteral)
| TypeName (index length : Z)
| ManagedString (reference : Value.Ref32) (length : Z) (encoding : Layout.StringEncoding)
| CharArray (reference : Value.Ref32) (length : Z).

Definition backing_length (b : StringBacking) : Z :=
  match b with
  | Inline _ _ length => length
  | Literal l => code_units l
  | TypeName _ length => length
  | ManagedString _ length _ => length
  | CharArray _ length => length
  end.

Abbreviation Txt := (outcome TextError).

(** [map_err(TextError::Fault)]. *)
Definition faults {A} (o : outcome VmFault A) : Txt A :=
  match o with Ok a => Ok a | Err f => Err (Fault f) | Panic => Panic end.

Section Image.
Context (img : TextImage) (heap : Heap.Heap).

Definition backing (v : Value.RuntimeValue) : Txt StringBacking :=
  match v with
  | Value.Reference reference =>
      match literal_reference img reference with
      | Some l => Ok (Literal l)
      | None =>
          ty ← faults (Heap.managed_type heap reference);
          expected ← ok_or (string_type img) (Fault InvalidResolvedId);
          if negb (ty =? expected) then Err (Fault InvalidReference)
          else
            header ← faults (Heap.read_payload heap reference 0 8);
            tag ← expect (zget header 4);
            encoding ← (if tag =? 0 then Ok Layout.Latin1 else if tag =? 1 then Ok Layout.Utf16
                        else Err (Fault CorruptHeap));
            Ok (ManagedString reference (le_val (take 4 header)) encoding)
      end
  | Value.Null => Err (Trap NullReference)
  | _ => Err (Fault InvalidValueType)
  end.

(** A sum in [u32] that must not overflow. *)
Definition plus32 (a b : Z) : Txt Z := expect (checked_add u32_max a b).

(** A difference in [i32] that must not overflow. *)
Definition minus32 (a b : Z) : Txt Z := if in_range i32_min i32_max (a - b) then Ok (a - b) else Panic.

Definition wide_unit (reference : Value.Ref32) (index : Z) : Txt Z :=
  twice ← expect (checked_mul u32_max index 2);
  off ← plus32 8 twice;
  bs ← faults (Heap.read_payload heap reference off 2);
  Ok (le_val (take 2 bs)).

Definition code_unit (b : StringBacking) (index : Z) : Txt Z :=
  match b with
  | Inline units start _ => expect (zget units (start + index))
  | TypeName ty _ => ok_or (units ← zget (type_names img) ty; zget units index) (Fault InvalidResolvedId)
  | Literal l =>
      low ← expect (zget (l_bytes l) (index * 2));
      high ← expect (zget (l_bytes l) (index * 2 + 1));
      Ok (le_val [low; high])
  | ManagedString reference _ Layout.Latin1 =>
      off ← plus32 8 index;
      bs ← faults (Heap.read_payload heap reference off 1);
      expect (zget bs 0)
  | ManagedString reference _ Layout.Utf16 => wide_unit reference index
  | CharArray reference _ => wide_unit reference index
  end.

Definition length (v : Value.RuntimeValue) : Txt Z :=
  b ← backing v;
  if i32_max <? backing_length b then Err (Fault InvalidReference) else Ok (backing_length b).

Definition get (v : Value.RuntimeValue) (index : Z) : Txt Z :=
  if index <? 0 then Err (Trap IndexOutOfBounds)
  else
    b ← backing v;
    if backing_length b <=? index then Err (Trap IndexOutOfBounds) else code_unit b index.

(** ** Sliced operations *)

Inductive PendingText :=
| Hash (value : StringBacking) (index hash destination : Z)
| Equals (lhs rhs : StringBacking) (index destination : Z)
| Compare (lhs rhs : StringBacking) (index destination : Z).

Definition pending_hash (v : Value.RuntimeValue) (destination : Z) : Txt PendingText :=
  b ← backing v;
  Ok (Hash b 0 0 destination).

Definition pending_equals (lhs rhs : Value.RuntimeValue) (destination : Z) : Txt PendingText :=
  l ← backing lhs;
  r ← backing rhs;
  Ok (Equals l r 0 destination).

Definition pending_compare (lhs rhs : Value.RuntimeValue) (destination : Z) : Txt PendingText :=
  l ← backing lhs;
  r ← backing rhs;
  Ok (Compare l r 0 destination).

(** [while index < end { .. }] of one unit of budget: [step] handles the code
    units at an index and may end the operation. *)
Section Slices.
Context {A R : Type} (step : Z -> A -> Txt (A + R)).

Fixpoint slice_units (fuel : nat) (stop index : Z) (a : A) : Txt (Z * (A + R)) :=
  if index <? stop then
    match fuel with
    | O => Panic
    | S fuel =>
        next ← step index a;
        match next with
        | inl a => slice_units fuel stop (index + 1) a
        | inr r => Ok (index, inr r)
        end
    end
  else Ok (index, inl a).

(** [while index < limit && used < budget { .. used += 1 }]; ending early counts
    the unit. *)
Fixpoint slices (fuel : nat) (limit budget index used : Z) (a : A) : Txt (Z * Z * (A + R)) :=
  if (index <? limit) && (used <? budget) then
    match fuel with
    | O => Panic
    | S fuel =>
        let stop := Z.min (saturating_add u32_max index 8) limit in
        '(index, next) ← slice_units 8 stop index a;
        match next with
        | inl a => slices fuel limit budget index (used + 1) a
        | inr r => Ok (index, used + 1, inr r)
        end
    end
  else Ok (index, used, inl a).
End Slices.

Definition hash_step (value : StringBacking) (index hash : Z) : Txt (Z + Empty_set) :=
  unit ← code_unit value index;
  Ok (inl (wrap_signed 32 (wrap_signed 32 (hash * 31) + unit))).

Definition equals_step (lhs rhs : StringBacking) (index : Z) (_ : unit) : Txt (unit + Value.RuntimeValue) :=
  left ← code_unit lhs index;
  right ← code_unit rhs index;
  Ok (if left =? right then inl tt else inr (Value.Bool false)).

Definition compare_step (lhs rhs : StringBacking) (index : Z) (_ : unit) : Txt (unit + Value.RuntimeValue) :=
  left ← code_unit lhs index;
  right ← code_unit rhs index;
  Ok (if left =? right then inl tt else inr (Value.I32 (left - right))).

(** The state after the slice, the budget used, and the result when it is there. *)
Definition resume (p : PendingText) (budget : Z) : Txt (PendingText * Z * option (Z * Value.RuntimeValue)) :=
  match p with
  | Hash value index hash destination =>
      let limit := backing_length value in
      '(index, used, next) ← slices (hash_step value) (Z.to_nat limit) limit budget index 0 hash;
      match next with
      | inl hash =>
          Ok (Hash value index hash destination, used,
              if index =? limit then Some (destination, Value.I32 hash) else None)
      | inr e => match e : Empty_set with end
      end
  | Equals lhs rhs index destination =>
      if negb (backing_length lhs =? backing_length rhs) then Ok (p, 0, Some (destination, Value.Bool false))
      else
        let limit := backing_length lhs in
        '(index, used, next) ← slices (equals_step lhs rhs) (Z.to_nat limit) limit budget index 0 tt;
        Ok (Equals lhs rhs index destination, used,
            match next with
            | inl _ => if index =? limit then Some (destination, Value.Bool true) else None
            | inr v => Some (destination, v)
            end)
  | Compare lhs rhs index destination =>
      let limit := Z.min (backing_length lhs) (backing_length rhs) in
      '(index, used, next) ← slices (compare_step lhs rhs) (Z.to_nat limit) limit budget index 0 tt;
      result ← (match next with
                | inl _ =>
                    d ← minus32 (wrap_signed 32 (backing_length lhs)) (wrap_signed 32 (backing_length rhs));
                    Ok (if index =? limit then Some (destination, Value.I32 d) else None)
                | inr v => Ok (Some (destination, v))
                end);
      Ok (Compare lhs rhs index destination, used, result)
  end.

End Image.

End Text.
