(* ===== verification/TextProps.v ===== *)
(** Strings under slices: however the budget of an operation on strings is cut up, it
    gives what Kotlin's [hashCode], [equals] and [compareTo] give on the code units, and
    a unit of budget pays for eight code units. *)

From S2P Require Import Prelude Words Errors Value Layout Heap Text.
Import Errors.

Module TextProps.
Import Text.

(** ** Reference definitions *)

(** [String.hashCode]. *)
Definition kotlin_hash (units : list Z) : Z := fold_left (fun h u => wrap_signed 32 (h * 31 + u)) units 0.

(** [String.compareTo]: the difference of the first units that differ, or of the
    lengths. *)
Fixpoint kotlin_compare (us vs : list Z) : Z :=
  match us, vs with
  | u :: us, v :: vs => if u =? v then kotlin_compare us vs else u - v
  | _, _ => Z.of_nat (List.length us) - Z.of_nat (List.length vs)
  end.

(** [b] holds the code units [us]. *)
Record readable (img : TextImage) (heap : Heap.Heap) (b : StringBacking) (us : list Z) : Prop := {
  r_length : backing_length b = Z.of_nat (List.length us);
  r_short : Z.of_nat (List.length us) <= i32_max;
  r_units : forall i u, us !! i = Some u -> code_unit img heap b (Z.of_nat i) = Ok u }.

(** The slices of an operation: what they used, and the result. *)
Fixpoint run_text (img : TextImage) (heap : Heap.Heap) (p : PendingText) (budgets : list Z) (used : Z)
    : Txt (Z * option (Z * Value.RuntimeValue)) :=
  match budgets with
  | [] => Ok (used, None)
  | b :: budgets =>
      '(p, u, result) ← resume img heap p b;
      match result with
      | Some _ => Ok (used + u, result)
      | None => run_text img heap p budgets (used + u)
      end
  end.

(** ** Slices of a loop *)

Section Loop.
Context {A R : Type} (next : nat -> A -> A + R).

(** [k] rounds of the loop from index [i]. *)
Fixpoint rounds (k i : nat) (a : A) : A + R :=
  match k with
  | O => inl a
  | S k => match next i a with inl a => rounds k (S i) a | inr r => inr r end
  end.

Lemma rounds_split k m i a : rounds (k + m) i a = match rounds k i a with inl a => rounds m (i + k) a | inr r => inr r end.
Proof.
  revert i a. induction k as [|k IH]; intros i a; cbn; [by rewrite Nat.add_0_r|].
  destruct (next i a) as [a'|r]; [|done]. rewrite IH. destruct (rounds k (S i) a'); [|done]. f_equal. lia.
Qed.

Context (step : Z -> A -> Txt (A + R)) (n : nat).
Context (Hstep : forall i a, (i < n)%nat -> step (Z.of_nat i) a = Ok (next i a)).

Lemma slice_units_ok fuel : forall i stop a, (stop <= n)%nat -> (i <= stop)%nat -> (stop - i <= fuel)%nat ->
  exists j, slice_units step fuel (Z.of_nat stop) (Z.of_nat i) a = Ok (Z.of_nat j, rounds (stop - i) i a) /\
    match rounds (stop - i) i a with inl _ => j = stop | inr _ => True end.
Proof.
  induction fuel as [|fuel IH]; intros i stop a Hs Hi Hf.
  - cbn. rewrite (proj2 (Z.ltb_ge _ _)) by lia. replace (stop - i)%nat with 0%nat by lia. exists i. split; [done|cbn; lia].
  - cbn [slice_units]. destruct (Z.ltb_spec (Z.of_nat i) (Z.of_nat stop)) as [Hlt|Hge].
    + rewrite Hstep by lia. bind_simp. replace (stop - i)%nat with (S (stop - S i)) by lia. cbn [rounds].
      destruct (next i a) as [a'|r]; [|by exists i]. replace (Z.of_nat i + 1) with (Z.of_nat (S i)) by lia. apply IH; lia.
    + replace (stop - i)%nat with 0%nat by lia. exists i. split; [done|cbn; lia].
Qed.

(** Units of budget due for the rounds from [i] on. *)
Definition due (i : nat) : Z := (Z.of_nat (n - i) + 7) / 8.

Lemma due_pos i : 0 <= due i.
Proof. unfold due. apply Z.div_pos; lia. Qed.
Lemma due_end i : (n <= i)%nat -> due i = 0.
Proof. intros. unfold due. by replace (n - i)%nat with 0%nat by lia. Qed.
Lemma due_step i : (i < n)%nat -> due (Nat.min (i + 8) n) = due i - 1.
Proof.
  intros Hi. unfold due. destruct (Nat.le_gt_cases n (i + 8)).
  - rewrite Nat.min_r, Nat.sub_diag by done. change ((Z.of_nat 0 + 7) / 8) with 0.
    assert ((Z.of_nat (n - i) + 7) / 8 = 1) by (symmetry; apply (Z.div_unique _ 8 1 (Z.of_nat (n - i) - 1)); lia). lia.
  - rewrite Nat.min_l by lia. replace (Z.of_nat (n - i) + 7) with (Z.of_nat (n - (i + 8)) + 7 + 1 * 8) by lia. rewrite Z.div_add by lia. lia.
Qed.

Context (Hn : Z.of_nat n <= i32_max).

(** What a slice does: it stops at the end, at the end of its budget, or with a
    result; it never uses more than is due. *)
Lemma slices_ok fuel : forall budget i used a, (i <= n)%nat -> (n - i <= fuel)%nat -> used <= budget ->
  exists j used' res, slices step fuel (Z.of_nat n) budget (Z.of_nat i) used a = Ok (Z.of_nat j, used', res) /\ used <= used' <= budget /\
    match res with
    | inl a' => (i <= j <= n)%nat /\ rounds (j - i) i a = inl a' /\ used' - used = due i - due j /\ (j = n \/ used' = budget)
    | inr r => rounds (n - i) i a = inr r /\ used' - used <= due i
    end.
Proof.
  induction fuel as [|fuel IH]; intros budget i used a Hi Hf Hu.
  { cbn. rewrite (proj2 (Z.ltb_ge _ _)) by lia. cbn [andb]. exists i, used, (inl a). rewrite Nat.sub_diag. cbn. split_and!; try done; lia. }
  cbn [slices]. destruct (Z.ltb_spec (Z.of_nat i) (Z.of_nat n)) as [Hlt|Hge]; cbn [andb].
  2:{ exists i, used, (inl a). rewrite Nat.sub_diag. cbn. split_and!; try done; lia. }
  destruct (Z.ltb_spec used budget) as [Hub|Hub].
  2:{ exists i, used, (inl a). rewrite Nat.sub_diag. cbn. split_and!; try done; lia. }
  assert (Es : Z.min (saturating_add u32_max (Z.of_nat i) 8) (Z.of_nat n) = Z.of_nat (Nat.min (i + 8) n)).
  { unfold saturating_add, u32_max, i32_max in *. lia. }
  rewrite Es. pose proof (due_step i ltac:(lia)) as Hdue. set (stop := Nat.min (i + 8) n) in *.
  assert (Hrest : forall k, (stop <= k)%nat -> rounds (k - i) i a = match rounds (stop - i) i a with inl a => rounds (k - stop) stop a | inr r => inr r end).
  { intros k Hk. replace (k - i)%nat with ((stop - i) + (k - stop))%nat by lia. rewrite rounds_split. by replace (i + (stop - i))%nat with stop by lia. }
  destruct (slice_units_ok 8 i stop a) as (j & Hj & Hjs); [lia..|]. rewrite Hj. bind_simp. pose proof (due_pos stop).
  destruct (rounds (stop - i) i a) as [a'|r] eqn:Er.
  - subst j. destruct (IH budget stop (used + 1) a') as (j & used' & res & Hrun & Hle & H'); [lia..|].
    exists j, used', res. rewrite Hrun. split; [done|]. split; [lia|]. destruct res as [a2|r].
    + destruct H' as (Hj1 & Hr & Hd & He). rewrite (Hrest j) by lia. split_and!; try done; lia.
    + destruct H' as (Hr & Hd). rewrite (Hrest n) by lia. split; [done|lia].
  - exists j, (used + 1), (inr r). split; [done|]. split; [lia|]. rewrite (Hrest n) by lia. split; [done|lia].
Qed.

(** ** A run of slices *)

(** An operation whose state at index [i] with accumulator [a] is [state i a]. *)
Context (img : TextImage) (heap : Heap.Heap) (state : Z -> A -> PendingText) (destination : Z).
Context (result : A + R -> Value.RuntimeValue).
Context (Hresume : forall i a b, resume img heap (state i a) b =
  match slices step n (Z.of_nat n) b i 0 a with
  | Ok (j, used, inl a') => Ok (state j a', used, if j =? Z.of_nat n then Some (destination, result (inl a')) else None)
  | Ok (j, used, inr r) => Ok (state j a, used, Some (destination, result (inr r)))
  | Err e => Err e
  | Panic => Panic
  end).

Lemma run_ok budgets : forall i a used, (i <= n)%nat -> Forall (fun b => 0 <= b) budgets ->
  exists used' res, run_text img heap (state (Z.of_nat i) a) budgets used = Ok (used', res) /\
    used <= used' <= used + due i /\ used' - used <= foldr Z.add 0 budgets /\
    (res = None \/ res = Some (destination, result (rounds (n - i) i a))) /\
    (budgets <> [] -> due i <= foldr Z.add 0 budgets -> res <> None).
Proof.
  induction budgets as [|b budgets IH]; intros i a used Hi Hb.
  { exists used, None. pose proof (due_pos i). cbn. split_and!; auto; lia. }
  apply Forall_cons in Hb as [Hb Hbs]. cbn [run_text foldr]. rewrite Hresume. pose proof (due_pos i) as Hdue.
  assert (Hsum : 0 <= foldr Z.add 0 budgets) by (clear -Hbs; induction Hbs; cbn; lia).
  destruct (slices_ok n b i 0 a) as (j & u & res & Hrun & Hu & H); [done|lia|done|]. rewrite Hrun. destruct res as [a'|r].
  2:{ destruct H as [Hr Hd]. bind_simp. exists (used + u), (Some (destination, result (inr r))). rewrite Hr. split_and!; auto; lia. }
  destruct H as (Hij & Hr & Hd & He). bind_simp. pose proof (due_pos j). destruct (Z.eqb_spec (Z.of_nat j) (Z.of_nat n)) as [Ej|Nj].
  { assert (j = n) by lia. subst j. rewrite Hr. eexists _, _. split; [reflexivity|]. split_and!; auto; lia. }
  destruct (IH j a' (used + u)) as (used' & res & Hrun' & Hu' & Hs & Hres & Hend); [lia|done|].
  rewrite Hrun'. exists used', res. split; [done|]. split; [lia|]. split; [lia|].
  assert (Er : rounds (n - i) i a = rounds (n - j) j a').
  { replace (n - i)%nat with ((j - i) + (n - j))%nat by lia. rewrite rounds_split, Hr. by replace (i + (j - i))%nat with j by lia. }
  split; [by rewrite Er|]. intros _ Hle. apply Hend; [|lia]. intros ->. cbn in Hle.
  assert (due j = 0) by lia. unfold due in *. assert (8 <= Z.of_nat (n - j) + 7) by lia.
  pose proof (Z.div_le_mono 8 (Z.of_nat (n - j) + 7) 8). rewrite Z.div_same in *; lia.
Qed.
End Loop.

(** ** The operations *)

Definition hash_next (us : list Z) (i : nat) (h : Z) : Z + Empty_set :=
  inl (wrap_signed 32 (wrap_signed 32 (h * 31) + default 0 (us !! i))).
Definition equals_next (us vs : list Z) (i : nat) (_ : unit) : unit + Value.RuntimeValue :=
  if default 0 (us !! i) =? default 0 (vs !! i) then inl tt else inr (Value.Bool false).
Definition compare_next (us vs : list Z) (i : nat) (_ : unit) : unit + Value.RuntimeValue :=
  if default 0 (us !! i) =? default 0 (vs !! i) then inl tt else inr (Value.I32 (default 0 (us !! i) - default 0 (vs !! i))).

Lemma wrap_signed_add_l w a b : 0 < w -> wrap_signed w (wrap_signed w a + b) = wrap_signed w (a + b).
Proof. intros Hw. apply wrap_signed_ext. rewrite Z.add_mod, wrap_signed_congr, <- Z.add_mod by lia. done. Qed.

Lemma hash_rounds us k : forall i h, (i + k <= List.length us)%nat ->
  rounds (hash_next us) k i h = inl (fold_left (fun h u => wrap_signed 32 (h * 31 + u)) (take k (drop i us)) h).
Proof.
  induction k as [|k IH]; intros i h Hk; [done|]. destruct (lookup_lt_is_Some_2 us i) as [u Hu]; [lia|].
  rewrite (drop_S us u i Hu). cbn. rewrite Hu, IH by lia. cbn. by rewrite wrap_signed_add_l by lia.
Qed.

Lemma equals_rounds us vs k : forall i, (i + k <= List.length us)%nat -> (i + k <= List.length vs)%nat ->
  rounds (equals_next us vs) k i tt = if decide (take k (drop i us) = take k (drop i vs)) then inl tt else inr (Value.Bool false).
Proof.
  induction k as [|k IH]; intros i Hu Hv; [by rewrite decide_True|].
  destruct (lookup_lt_is_Some_2 us i) as [u Eu]; [lia|]. destruct (lookup_lt_is_Some_2 vs i) as [v Ev]; [lia|].
  rewrite (drop_S us u i Eu), (drop_S vs v i Ev). cbn. unfold equals_next. rewrite Eu, Ev. cbn. destruct (Z.eqb_spec u v) as [->|Hne].
  - rewrite IH by lia. destruct (decide (take k (drop (S i) us) = take k (drop (S i) vs))) as [->|]; [by rewrite decide_True|by rewrite decide_False by congruence].
  - by rewrite decide_False by congruence.
Qed.

Lemma compare_rounds us vs k : forall i, k = Nat.min (List.length us - i) (List.length vs - i) -> (i <= List.length us)%nat -> (i <= List.length vs)%nat ->
  match rounds (compare_next us vs) k i tt with
  | inl _ => Value.I32 (Z.of_nat (List.length us) - Z.of_nat (List.length vs))
  | inr v => v
  end = Value.I32 (kotlin_compare (drop i us) (drop i vs)).
Proof.
  induction k as [|k IH]; intros i Hk Hu Hv.
  - cbn. assert (E : drop i us = [] \/ drop i vs = []) by (destruct (Nat.le_gt_cases (List.length us) i); [left|right]; apply drop_ge; lia).
    f_equal. replace (Z.of_nat (List.length us) - Z.of_nat (List.length vs)) with (Z.of_nat (List.length (drop i us)) - Z.of_nat (List.length (drop i vs)))
      by (rewrite !length_drop; lia). destruct E as [-> | ->]; [done|by destruct (drop i us)].
  - destruct (lookup_lt_is_Some_2 us i) as [u Eu]; [lia|]. destruct (lookup_lt_is_Some_2 vs i) as [v Ev]; [lia|].
    rewrite (drop_S us u i Eu), (drop_S vs v i Ev). cbn. unfold compare_next at 1. rewrite Eu, Ev. cbn. destruct (Z.eqb_spec u v) as [->|Hne]; [|done].
    apply IH; lia.
Qed.

Section Operations.
Context (img : TextImage) (heap : Heap.Heap) (l r : StringBacking) (us vs : list Z) (d : Z) (budgets : list Z).
Context (Hl : readable img heap l us) (Hr : readable img heap r vs) (Hb : Forall (fun b => 0 <= b) budgets).

Lemma read_unit b ws i : readable img heap b ws -> (i < List.length ws)%nat -> code_unit img heap b (Z.of_nat i) = Ok (default 0 (ws !! i)).
Proof. intros [_ _ H] Hi. destruct (lookup_lt_is_Some_2 ws i Hi) as [u Hu]. rewrite Hu. by apply H. Qed.

(** A run ends with [v], given the budget. *)
Definition runs_to (p : PendingText) (units : nat) (v : Value.RuntimeValue) : Prop := exists used res,
  run_text img heap p budgets 0 = Ok (used, res) /\ 0 <= used <= due units 0 /\ used <= foldr Z.add 0 budgets /\
  (res = None \/ res = Some (d, v)) /\ (budgets <> [] -> due units 0 <= foldr Z.add 0 budgets -> res <> None).

Lemma hash_run : runs_to (Hash l 0 0 d) (List.length us) (Value.I32 (kotlin_hash us)).
Proof.
  destruct (run_ok (hash_next us) (hash_step img heap l) (List.length us)) with
    (img := img) (heap := heap) (state := fun i h => Hash l i h d) (destination := d)
    (result := fun x : Z + Empty_set => match x with inl h => Value.I32 h | inr e => match e : Empty_set with end end)
    (budgets := budgets) (i := 0%nat) (a := 0) (used := 0) as (used & res & Hrun & Hu & Hs & Hres & Hend).
  - intros i h Hi. unfold hash_step. by rewrite (read_unit l us).
  - apply (r_short _ _ _ _ Hl).
  - intros i a b. cbn [resume]. rewrite (r_length _ _ _ _ Hl), Nat2Z.id. by destruct (slices _ _ _ _ _ _ _) as [[[j u] [a'|[]]]| |].
  - lia.
  - done.
  - exists used, res. rewrite Nat.sub_0_r, hash_rounds, drop_0, take_ge in Hres by lia. split_and!; try done; lia.
Qed.

Lemma equals_run : List.length us = List.length vs -> runs_to (Equals l r 0 d) (List.length us) (Value.Bool (bool_decide (us = vs))).
Proof.
  intros Hlen. destruct (run_ok (equals_next us vs) (equals_step img heap l r) (List.length us)) with
    (img := img) (heap := heap) (state := fun i (_ : unit) => Equals l r i d) (destination := d)
    (result := fun x : unit + Value.RuntimeValue => match x with inl _ => Value.Bool true | inr v => v end)
    (budgets := budgets) (i := 0%nat) (a := tt) (used := 0) as (used & res & Hrun & Hu & Hs & Hres & Hend).
  - intros i [] Hi. unfold equals_step. by rewrite (read_unit l us), (read_unit r vs) by (done || lia).
  - apply (r_short _ _ _ _ Hl).
  - intros i [] b. cbn [resume]. rewrite (r_length _ _ _ _ Hl), (r_length _ _ _ _ Hr), Hlen, Z.eqb_refl, Nat2Z.id. cbn [negb].
    by destruct (slices _ _ _ _ _ _ _) as [[[j u] [a'|v]]| |].
  - lia.
  - done.
  - exists used, res. rewrite Nat.sub_0_r, equals_rounds, !drop_0, !take_ge in Hres by lia. split_and!; try done; try lia.
    destruct (decide (us = vs)); [by rewrite bool_decide_true|by rewrite bool_decide_false].
Qed.

Lemma compare_run : runs_to (Compare l r 0 d) (Nat.min (List.length us) (List.length vs)) (Value.I32 (kotlin_compare us vs)).
Proof.
  pose proof (r_short _ _ _ _ Hl). pose proof (r_short _ _ _ _ Hr). set (n := Nat.min (List.length us) (List.length vs)).
  set (diff := Z.of_nat (List.length us) - Z.of_nat (List.length vs)).
  destruct (run_ok (compare_next us vs) (compare_step img heap l r) n) with
    (img := img) (heap := heap) (state := fun i (_ : unit) => Compare l r i d) (destination := d)
    (result := fun x : unit + Value.RuntimeValue => match x with inl _ => Value.I32 diff | inr v => v end)
    (budgets := budgets) (i := 0%nat) (a := tt) (used := 0) as (used & res & Hrun & Hu & Hs & Hres & Hend).
  - intros i [] Hi. unfold compare_step. by rewrite (read_unit l us), (read_unit r vs) by (done || lia).
  - lia.
  - intros i [] b. cbn [resume]. rewrite (r_length _ _ _ _ Hl), (r_length _ _ _ _ Hr).
    replace (Z.min (Z.of_nat (List.length us)) (Z.of_nat (List.length vs))) with (Z.of_nat n) by lia. rewrite Nat2Z.id.
    assert (Hd : minus32 (wrap_signed 32 (Z.of_nat (List.length us))) (wrap_signed 32 (Z.of_nat (List.length vs))) = Ok diff).
    { rewrite !wrap_signed_id by (unfold i32_max in *; lia). unfold minus32, in_range. fold diff.
      by rewrite !(proj2 (Z.leb_le _ _)) by (unfold diff, i32_min, i32_max in *; lia). }
    rewrite Hd. by destruct (slices _ _ _ _ _ _ _) as [[[j u] [a'|v]]| |].
  - lia.
  - done.
  - exists used, res. rewrite Nat.sub_0_r, compare_rounds, !drop_0 in Hres by lia. split_and!; try done; lia.
Qed.
End Operations.

(** C15. Slicing does not change what the operations on strings compute.  Take two values
    whose strings can be read and have the code units [us] and [vs], and any sequence of
    budgets.  The pending hash, equality and comparison never fail, never use more than
    their budget nor more than a unit per eight code units, and end with Kotlin's
    [hashCode], [==] and [compareTo] of the units: at the latest when the budgets add up
    to the units due.  Strings of different lengths are unequal at once. *)
Theorem sliced_text_equiv img heap x y l r us vs d budgets :
  backing img heap x = Ok l -> backing img heap y = Ok r -> readable img heap l us -> readable img heap r vs -> Forall (fun b => 0 <= b) budgets ->
  exists ph pe pc, pending_hash img heap x d = Ok ph /\ pending_equals img heap x y d = Ok pe /\ pending_compare img heap x y d = Ok pc /\
    runs_to img heap d budgets ph (List.length us) (Value.I32 (kotlin_hash us)) /\
    runs_to img heap d budgets pe (if decide (List.length us = List.length vs) then List.length us else 0) (Value.Bool (bool_decide (us = vs))) /\
    runs_to img heap d budgets pc (Nat.min (List.length us) (List.length vs)) (Value.I32 (kotlin_compare us vs)).
Proof.
  intros Hx Hy Hl Hr Hb. exists (Hash l 0 0 d), (Equals l r 0 d), (Compare l r 0 d). unfold pending_hash, pending_equals, pending_compare.
  rewrite Hx, Hy. split_and!; try done; [by apply hash_run| |by apply compare_run].
  destruct (decide (List.length us = List.length vs)) as [E|Hne]; [by apply equals_run|].
  rewrite bool_decide_false by congruence. destruct budgets as [|b bs]; [exists 0, None; split_and!; try done; auto|].
  exists 0, (Some (d, Value.Bool false)). assert (0 <= foldr Z.add 0 (b :: bs)) by (clear -Hb; induction Hb; cbn; lia).
  split_and!; try done; auto. cbn [run_text resume].
  rewrite (r_length _ _ _ _ Hl), (r_length _ _ _ _ Hr), (proj2 (Z.eqb_neq _ _)) by lia. done.
Qed.

(** Two literals of the image, compared under budgets of one and two units. *)
Definition word_image : TextImage := mkTextImage [mkLiteral [97; 0; 98; 0] 2; mkLiteral [97; 0; 99; 0] 2] None [].
Definition no_heap : Heap.Heap := Heap.mkHeap Layout.Legacy [] 0 [] 0 [] 0 0 0.
Definition word (i : Z) : Value.RuntimeValue := Value.Reference (default (Value.mkRef32 0) (Value.image i)).

Lemma sliced_text_equiv_witness : backing word_image no_heap (word 0) = Ok (Literal (mkLiteral [97; 0; 98; 0] 2)) /\
  exists pc, pending_compare word_image no_heap (word 0) (word 1) 7 = Ok pc /\ runs_to word_image no_heap 7 [0; 2] pc 2 (Value.I32 (-1)).
Proof.
  assert (Hx : backing word_image no_heap (word 0) = Ok (Literal (mkLiteral [97; 0; 98; 0] 2))) by (vm_compute; reflexivity).
  destruct (sliced_text_equiv word_image no_heap (word 0) (word 1) (Literal (mkLiteral [97; 0; 98; 0] 2)) (Literal (mkLiteral [97; 0; 99; 0] 2))
    [97; 98] [97; 99] 7 [0; 2] Hx) as (ph & pe & pc & _ & _ & Hc & _ & _ & Hr).
  - vm_compute. reflexivity.
  - split; [reflexivity|vm_compute; discriminate|]. intros [|[|i]] u E; [injection E as <-..|discriminate E]; reflexivity.
  - split; [reflexivity|vm_compute; discriminate|]. intros [|[|i]] u E; [injection E as <-..|discriminate E]; reflexivity.
  - repeat constructor; lia.
  - split; [exact Hx|]. exists pc. split; [exact Hc|exact Hr].
Defined.

End TextProps.
