(* ===== verification/Scalar.v ===== *)
(** The scalar instructions of the interpreter: [execute_scalar] of
    src/execution/machine.rs with its helpers, src/execution/matrix.rs, and what
    src/execution/image.rs prepares for them (constants, frame layouts and register
    accesses).

    A scalar instruction is the same in the artifact and in the image, except that
    a constant is numbered over all modules. *)

From S2P Require Import Prelude Words Bytes Errors Value Numeric Float Code Layout Heap Frame Artifact Text.
Import Errors.

Module Scalar.
Import Code.

(** ** Matrix kernels *)

Section Kernel.
Context (f : Float.format) (operation : MatrixOperation) (left right : list Z).

(** [a[i]] of the fixed arrays; every index the kernels form is below 16. *)
Definition element (a : list Z) (i : Z) : Z := default 0 (zget a i).

Definition factor (column k : Z) : Z :=
  if is_matrix_product operation then element right (k * dimension operation + column)
  else if k =? 3 then
    match homogeneous_w operation with
    | Some true => Float.one f
    | Some false => 0
    | None => element right k
    end
  else element right k.

Definition dot (row column : Z) : Z :=
  let n := dimension operation in
  fold_left (fun acc k => Float.add f acc (Float.mul f (element left (row * n + k)) (factor column k)))
    (seqZ 1 (n - 1)) (Float.mul f (element left (row * n)) (factor column 0)).

(** The loops over rows and columns, by the index they write. *)
Definition evaluate : list Z :=
  let n := dimension operation in
  let columns := if is_transpose operation then n else if is_matrix_product operation then n else 1 in
  (fun i =>
     if i <? n * columns then
       if is_transpose operation then element left ((i mod n) * n + i / n) else dot (i / columns) (i mod columns)
     else 0) <$> seqZ 0 16.
End Kernel.

(** ** Arithmetic *)

Inductive InstructionFailure := Trap (t : GuestTrap) | Fault (f : VmFault).

Inductive Arithmetic := AAdd | ASub | AMul | ADiv | ARem.
Inductive Shift := SLeft | SRight | SUnsigned.
Inductive Comparison := CEqual | CNotEqual | CLess | CLessEqual | CGreater | CGreaterEqual.

Abbreviation Res := (outcome InstructionFailure).

Definition invalid {A} : Res A := Err (Fault InvalidValueType).

(** [map_err(InstructionFailure::Trap)], [map_err(InstructionFailure::Fault)]. *)
Definition traps {A} (o : outcome GuestTrap A) : Res A :=
  match o with Ok a => Ok a | Err t => Err (Trap t) | Panic => Panic end.
Definition faults {A} (o : outcome VmFault A) : Res A :=
  match o with Ok a => Ok a | Err f => Err (Fault f) | Panic => Panic end.

(** [as u32], [as u64] and back. *)
Definition unsigned_arithmetic (w : Z) (operation : Arithmetic) (lhs rhs : Z) : Res Z :=
  let a := wrap_unsigned w lhs in
  let b := wrap_unsigned w rhs in
  r ← (match operation with
       | AAdd => Ok (wrap_unsigned w (a + b))
       | ASub => Ok (wrap_unsigned w (a - b))
       | AMul => Ok (wrap_unsigned w (a * b))
       | ADiv => if b =? 0 then Err (Trap DivisionByZero) else Ok (a / b)
       | ARem => if b =? 0 then Err (Trap DivisionByZero) else Ok (a mod b)
       end);
  Ok (wrap_signed w r).

Definition float_arithmetic (f : Float.format) (operation : Arithmetic) (a b : Z) : Z :=
  match operation with
  | AAdd => Float.add f a b | ASub => Float.sub f a b | AMul => Float.mul f a b | ADiv => Float.div f a b
  | ARem => Float.rem f a b
  end.

Definition arithmetic (form : Z) (lhs rhs : Value.RuntimeValue) (operation : Arithmetic) : Res Value.RuntimeValue :=
  match lhs, rhs with
  | Value.I32 a, Value.I32 b =>
      if form =? 1 then
        r ← (match operation with
             | AAdd => Ok (Numeric.add_i32 a b) | ASub => Ok (Numeric.sub_i32 a b) | AMul => Ok (Numeric.mul_i32 a b)
             | ADiv => traps (Numeric.div_i32 a b) | ARem => traps (Numeric.rem_i32 a b)
             end);
        Ok (Value.I32 r)
      else if form =? 8 then r ← unsigned_arithmetic 32 operation a b; Ok (Value.I32 r)
      else invalid
  | Value.I64 a, Value.I64 b =>
      if form =? 2 then
        r ← (match operation with
             | AAdd => Ok (Numeric.add_i64 a b) | ASub => Ok (Numeric.sub_i64 a b) | AMul => Ok (Numeric.mul_i64 a b)
             | ADiv => traps (Numeric.div_i64 a b) | ARem => traps (Numeric.rem_i64 a b)
             end);
        Ok (Value.I64 r)
      else if form =? 9 then r ← unsigned_arithmetic 64 operation a b; Ok (Value.I64 r)
      else invalid
  | Value.F32 a, Value.F32 b =>
      if form =? 3 then Ok (Value.F32 (float_arithmetic Float.F32 operation a b)) else invalid
  | Value.F64 a, Value.F64 b =>
      if form =? 4 then Ok (Value.F64 (float_arithmetic Float.F64 operation a b)) else invalid
  | _, _ => invalid
  end.

Definition negate (form : Z) (v : Value.RuntimeValue) : Res Value.RuntimeValue :=
  match v with
  | Value.I32 v => if form =? 1 then Ok (Value.I32 (Numeric.neg_i32 v)) else invalid
  | Value.I64 v => if form =? 2 then Ok (Value.I64 (Numeric.neg_i64 v)) else invalid
  | Value.F32 v => if form =? 3 then Ok (Value.F32 (Float.neg_f32 v)) else invalid
  | Value.F64 v => if form =? 4 then Ok (Value.F64 (Float.neg_f64 v)) else invalid
  | _ => invalid
  end.

Definition integer_binary (form : Z) (lhs rhs : Value.RuntimeValue) (op : Z -> Z -> Z) : Res Value.RuntimeValue :=
  match lhs, rhs with
  | Value.I32 a, Value.I32 b => if form =? 1 then Ok (Value.I32 (wrap_signed 32 (op a b))) else invalid
  | Value.I64 a, Value.I64 b => if form =? 2 then Ok (Value.I64 (op a b)) else invalid
  | _, _ => invalid
  end.

Definition shift (form : Z) (lhs rhs : Value.RuntimeValue) (op : Shift) : Res Value.RuntimeValue :=
  match lhs, rhs with
  | Value.I32 a, Value.I32 b =>
      if form =? 1 then
        Ok (Value.I32 (match op with
                       | SLeft => Numeric.shl_i32 a b | SRight => Numeric.shr_i32 a b | SUnsigned => Numeric.ushr_i32 a b
                       end))
      else invalid
  | Value.I64 a, Value.I32 b =>
      if form =? 2 then
        Ok (Value.I64 (match op with
                       | SLeft => Numeric.shl_i64 a b | SRight => Numeric.shr_i64 a b | SUnsigned => Numeric.ushr_i64 a b
                       end))
      else invalid
  | _, _ => invalid
  end.

(** ** Comparisons *)

Definition ordered (a b : Z) (op : Comparison) : bool :=
  match op with
  | CEqual => a =? b | CNotEqual => negb (a =? b) | CLess => a <? b | CLessEqual => a <=? b | CGreater => b <? a
  | CGreaterEqual => b <=? a
  end.

(** [float_compare_f32] and [float_compare_f64]. *)
Definition float_compare (f : Float.format) (a b : Z) (op : Comparison) : bool :=
  match op with
  | CEqual => Float.eq f a b | CNotEqual => negb (Float.eq f a b) | CLess => Float.lt f a b | CLessEqual => Float.le f a b
  | CGreater => Float.lt f b a | CGreaterEqual => Float.le f b a
  end.

Definition compare (form : Z) (lhs rhs : Value.RuntimeValue) (op : Comparison) : Res Value.RuntimeValue :=
  match lhs, rhs with
  | Value.I32 a, Value.I32 b =>
      if form =? 1 then Ok (Value.Bool (ordered a b op))
      else if form =? 8 then Ok (Value.Bool (ordered (wrap_unsigned 32 a) (wrap_unsigned 32 b) op))
      else invalid
  | Value.I64 a, Value.I64 b =>
      if form =? 2 then Ok (Value.Bool (ordered a b op))
      else if form =? 9 then Ok (Value.Bool (ordered (wrap_unsigned 64 a) (wrap_unsigned 64 b) op))
      else invalid
  | Value.F32 a, Value.F32 b => if form =? 3 then Ok (Value.Bool (float_compare Float.F32 a b op)) else invalid
  | Value.F64 a, Value.F64 b => if form =? 4 then Ok (Value.Bool (float_compare Float.F64 a b op)) else invalid
  | Value.Bool a, Value.Bool b =>
      if form =? 5 then
        match op with
        | CEqual => Ok (Value.Bool (eqb a b))
        | CNotEqual => Ok (Value.Bool (negb (eqb a b)))
        | _ => invalid
        end
      else invalid
  | Value.Char a, Value.Char b => if form =? 6 then Ok (Value.Bool (ordered a b op)) else invalid
  | _, _ => invalid
  end.

(** ** Conversions *)

Definition convert (v : Value.RuntimeValue) (destination : Z) : Res Value.RuntimeValue :=
  match v with
  | Value.I32 v =>
      if destination =? 1 then Ok (Value.I32 v)
      else if destination =? 2 then Ok (Value.I64 (Numeric.i32_to_i64 v))
      else if destination =? 3 then Ok (Value.F32 (Float.i32_to_f32 v))
      else if destination =? 4 then Ok (Value.F64 (Float.i32_to_f64 v))
      else if destination =? 6 then Ok (Value.Char (Numeric.i32_to_char v))
      else invalid
  | Value.I64 v =>
      if destination =? 1 then Ok (Value.I32 (Numeric.i64_to_i32 v))
      else if destination =? 2 then Ok (Value.I64 v)
      else if destination =? 3 then Ok (Value.F32 (Float.i64_to_f32 v))
      else if destination =? 4 then Ok (Value.F64 (Float.i64_to_f64 v))
      else invalid
  | Value.F32 v =>
      if destination =? 1 then Ok (Value.I32 (Float.f32_to_i32 v))
      else if destination =? 2 then Ok (Value.I64 (Float.f32_to_i64 v))
      else if destination =? 3 then Ok (Value.F32 v)
      else if destination =? 4 then Ok (Value.F64 (Float.f32_to_f64 v))
      else invalid
  | Value.F64 v =>
      if destination =? 1 then Ok (Value.I32 (Float.f64_to_i32 v))
      else if destination =? 2 then Ok (Value.I64 (Float.f64_to_i64 v))
      else if destination =? 3 then Ok (Value.F32 (Float.f64_to_f32 v))
      else if destination =? 4 then Ok (Value.F64 v)
      else invalid
  | Value.Char v => if destination =? 1 then Ok (Value.I32 (Numeric.char_to_i32 v)) else invalid
  | _ => invalid
  end.

Definition convert_with_signedness (v : Value.RuntimeValue) (destination form : Z) : Res Value.RuntimeValue :=
  if negb (Z.land form 1 =? 0) then
    u ← (match v with
         | Value.I32 v => Ok (wrap_unsigned 32 v)
         | Value.I64 v => Ok (wrap_unsigned 64 v)
         | _ => invalid
         end);
    if destination =? 1 then Ok (Value.I32 (wrap_signed 32 u))
    else if destination =? 2 then Ok (Value.I64 (wrap_signed 64 u))
    else if destination =? 3 then
      Ok (Value.F32 (Float.convert_format Float.F64 Float.F32 (Float.from_integer Float.F64 u)))
    else if destination =? 4 then Ok (Value.F64 (Float.from_integer Float.F64 u))
    else invalid
  else if negb (Z.land form 2 =? 0) then
    match v with
    | Value.F32 b =>
        if destination =? 1 then Ok (Value.I32 (wrap_signed 32 (Float.saturating_cast Float.F32 u32_max b)))
        else if destination =? 2 then Ok (Value.I64 (wrap_signed 64 (Float.saturating_cast Float.F32 u64_max b)))
        else convert v destination
    | Value.F64 b =>
        if destination =? 1 then Ok (Value.I32 (wrap_signed 32 (Float.saturating_cast Float.F64 u32_max b)))
        else if destination =? 2 then Ok (Value.I64 (wrap_signed 64 (Float.saturating_cast Float.F64 u64_max b)))
        else convert v destination
    | _ => convert v destination
    end
  else convert v destination.

(** ** What the image holds for a function *)

(** [offsets]: where the records of each module start, and the total. *)
Fixpoint offsets (start : Z) (lengths : list Z) : outcome AdmissionError (list Z) :=
  match lengths with
  | [] => Ok [start]
  | n :: lengths =>
      next ← ok_or (checked_add usize_max start n) StoragePlanOverflow;
      rest ← offsets next lengths;
      Ok (start :: rest)
  end.

Section Constants.
Context (literal_offsets literal_ids : list Z).

Definition resolve_constant (module_id : Z) (c : Artifact.Constant) : outcome AdmissionError Value.RuntimeValue :=
  match c with
  | Artifact.CI32 v => Ok (Value.I32 v)
  | Artifact.CI64 v => Ok (Value.I64 v)
  | Artifact.CF32 bits => Ok (Value.F32 bits)
  | Artifact.CF64 bits => Ok (Value.F64 bits)
  | Artifact.CBool v => Ok (Value.Bool v)
  | Artifact.CChar v => Ok (Value.Char v)
  | Artifact.CNull => Ok Value.Null
  | Artifact.CString literal =>
      source ← ok_or (off ← zget literal_offsets module_id; checked_add usize_max off literal) InvalidEntry;
      canonical ← ok_or (zget literal_ids source) InvalidEntry;
      index ← ok_or (try_from_unsigned u32_max canonical) StoragePlanOverflow;
      r ← ok_or (Value.image index) StoragePlanOverflow;
      Ok (Value.Reference r)
  end.

Fixpoint resolve_all (module_id : Z) (cs : list Artifact.Constant) : outcome AdmissionError (list Value.RuntimeValue) :=
  match cs with
  | [] => Ok []
  | c :: cs => v ← resolve_constant module_id c; vs ← resolve_all module_id cs; Ok (v :: vs)
  end.

(** The constants of all modules, one after the other. *)
Fixpoint resolve_constants (module_id : Z) (ms : list Artifact.DecodedModule)
    : outcome AdmissionError (list Value.RuntimeValue) :=
  match ms with
  | [] => Ok []
  | m :: ms =>
      vs ← resolve_all module_id (Artifact.constants m);
      rest ← resolve_constants (module_id + 1) ms;
      Ok (vs ++ rest)
  end.
End Constants.

(** The parts of [ResolvedFunction] the instructions use; of a register's type only
    the kind. *)
Record ResolvedFunction := mkResolved {
  registers : list Z; frame_layout : Frame.FrameLayout; register_accesses : list Frame.FrameValueAccess }.

Definition resolve_function (f : Artifact.Function) : outcome AdmissionError ResolvedFunction :=
  let kinds := (fun v => Artifact.kind (Artifact.semantic_type v)) <$> Artifact.values f in
  match Frame.derive (Artifact.components <$> Artifact.values f) with
  | Ok layout => Ok (mkResolved kinds layout (imap (fun i k => Frame.value_access layout k (Z.of_nat i)) kinds))
  | Err _ => Err StoragePlanOverflow
  | Panic => Panic
  end.

(** ** Execution *)

Section Execute.
Context (lib : Float.libm) (img : Text.TextImage) (constants : list Value.RuntimeValue) (constant_offset : Z).
Context (heap : Heap.Heap) (base : Z) (function : ResolvedFunction).
Abbreviation Exec := (ST Frame.FrameArena InstructionFailure).

Definition read_frame_value (register : Z) (a : Frame.FrameArena) : outcome VmFault Value.RuntimeValue :=
  access ← ok_or (zget (register_accesses function) register) InvalidStoragePlan;
  Frame.read_access a base access.

Definition write_frame_value (register : Z) (v : Value.RuntimeValue) : ST Frame.FrameArena VmFault unit :=
  access ← st_lift (ok_or (zget (register_accesses function) register) InvalidStoragePlan);
  Frame.write_access base access v.

Definition faulting {A} (m : ST Frame.FrameArena VmFault A) : Exec A := fun a => let '(r, a) := m a in (faults r, a).
Definition load (register : Z) : Exec Value.RuntimeValue := st_read (fun a => faults (read_frame_value register a)).
Definition store (register : Z) (v : Value.RuntimeValue) : Exec unit := faulting (write_frame_value register v).

(** The macro [binary!]. *)
Definition binary (dst lhs rhs : Z) (body : Value.RuntimeValue -> Value.RuntimeValue -> Res Value.RuntimeValue) : Exec unit :=
  a ← load lhs;
  b ← load rhs;
  v ← st_lift (body a b);
  store dst v.

Definition text_failure {A} (o : outcome Text.TextError A) : Res A :=
  match o with
  | Ok a => Ok a
  | Err (Text.Trap t) => Err (Trap t)
  | Err (Text.Fault f) => Err (Fault f)
  | Err (Text.Exhausted _ _ _ _) => Err (Fault CorruptLifecycle)
  | Panic => Panic
  end.

Definition layout_of (register : Z) : Res Frame.ValueLayout :=
  ok_or (zget (Frame.fl_values (frame_layout function)) register) (Fault InvalidValueType).

(** The closure [read] of the macro [run_kernel!]: the components of a register as
    bits, padded to sixteen. *)
Fixpoint read_components (scalar_kind : Z) (a : Frame.FrameArena) (cs : Frame.ValueLayout) : Res (list Z) :=
  match cs with
  | [] => Ok []
  | c :: cs =>
      v ← faults (Frame.read_component_value a base c);
      bits ← (match v with
              | Value.F32 bits => if scalar_kind =? 3 then Ok bits else invalid
              | Value.F64 bits => if scalar_kind =? 3 then invalid else Ok bits
              | _ => invalid
              end);
      rest ← read_components scalar_kind a cs;
      Ok (bits :: rest)
  end.

Definition read_matrix (scalar_kind register count : Z) (a : Frame.FrameArena) : Res (list Z) :=
  layout ← layout_of register;
  if negb (Z.of_nat (length layout) =? count) then invalid
  else
    bits ← read_components scalar_kind a layout;
    Ok (bits ++ replicate (16 - length bits) 0).

Fixpoint write_matrix (scalar_kind dst index : Z) (bits : list Z) : Exec unit :=
  match bits with
  | [] => mret tt
  | b :: bits =>
      _ ← faulting (if scalar_kind =? 3 then Frame.write_f32 base (frame_layout function) dst index b
                    else Frame.write_f64 base (frame_layout function) dst index b);
      write_matrix scalar_kind dst (index + 1) bits
  end.

Definition execute_matrix (operation : MatrixOperation) (dst lhs : Z) (rhs : option Z) : Exec unit :=
  let k := scalar_kind operation in
  left ← st_read (read_matrix k lhs (left_components operation));
  right ← (match rhs with
           | Some rhs =>
               count ← st_lift (ok_or (right_components operation) (Fault InvalidValueType));
               st_read (read_matrix k rhs count)
           | None => mret (replicate 16 0)
           end);
  let output := evaluate (if k =? 3 then Float.F32 else Float.F64) operation left right in
  write_matrix k dst 0 (take (Z.to_nat (result_components operation)) output).

Fixpoint construct (sources : list Z) (destination : Frame.ValueLayout) : Exec unit :=
  match sources, destination with
  | s :: sources, d :: destination =>
      source ← st_lift (ok_or (l ← zget (Frame.fl_values (frame_layout function)) s; head l) (Fault InvalidValueType));
      _ ← faulting (Frame.copy_component base source base d);
      construct sources destination
  | _, _ => mret tt
  end.

Definition execute_inline_construct (dst : Z) (sources : list Z) : Exec unit :=
  destination ← st_lift (layout_of dst);
  if negb (length sources =? length destination)%nat then st_err (Fault InvalidValueType)
  else construct sources destination.

Definition execute_inline_component (dst src n : Z) : Exec unit :=
  source ← st_lift (ok_or (l ← zget (Frame.fl_values (frame_layout function)) src; zget l n) (Fault InvalidValueType));
  destination ← st_lift (ok_or (l ← zget (Frame.fl_values (frame_layout function)) dst; head l) (Fault InvalidValueType));
  faulting (Frame.copy_component base source base destination).

Definition execute_move (dst src : Z) : Exec unit :=
  if match zget (registers function) src with Some k => negb (k =? 8) | None => false end then
    v ← load src;
    store dst v
  else
    source ← st_lift (layout_of src);
    destination ← st_lift (layout_of dst);
    faulting (Frame.copy_value base source base destination).

Definition execute_math_unary (form : Z) (operation : Float.MathUnaryOperation) (dst src : Z) : Exec unit :=
  source ← load src;
  v ← st_lift (match source with
               | Value.F32 x => if form =? 3 then Ok (Value.F32 (Float.unary lib Float.F32 operation x)) else invalid
               | Value.F64 x => if form =? 4 then Ok (Value.F64 (Float.unary lib Float.F64 operation x)) else invalid
               | _ => invalid
               end);
  store dst v.

Definition math_binary (form : Z) (operation : Float.MathBinaryOperation) (a b : Value.RuntimeValue) : Res Value.RuntimeValue :=
  match a, b with
  | Value.F32 x, Value.F32 y => if form =? 3 then Ok (Value.F32 (Float.binary lib Float.F32 operation x y)) else invalid
  | Value.F64 x, Value.F64 y => if form =? 4 then Ok (Value.F64 (Float.binary lib Float.F64 operation x y)) else invalid
  | _, _ => invalid
  end.

Definition execute_convert (form dst src : Z) : Exec unit :=
  destination ← st_lift (ok_or (zget (registers function) dst) (Fault InvalidValueType));
  source ← load src;
  v ← st_lift (convert_with_signedness source destination form);
  store dst v.

Definition execute_string_length (dst string : Z) : Exec unit :=
  s ← load string;
  v ← st_lift (text_failure (Text.length img heap s));
  store dst (Value.I32 v).

Definition execute_string_get (dst string index : Z) : Exec unit :=
  index_value ← load index;
  match index_value with
  | Value.I32 i =>
      s ← load string;
      v ← st_lift (text_failure (Text.get img heap s i));
      store dst (Value.Char v)
  | _ => st_err (Fault InvalidValueType)
  end.

Definition execute_scalar (i : Instruction) : Exec unit :=
  match i with
  | MatrixMath operation dst lhs rhs => execute_matrix operation dst lhs rhs
  | InlineConstruct dst sources => execute_inline_construct dst sources
  | InlineComponent dst src n => execute_inline_component dst src n
  | Nop => mret tt
  | Move dst src => execute_move dst src
  | Const dst constant =>
      v ← st_lift (ok_or (zget constants (constant_offset + constant)) (Fault InvalidResolvedId));
      store dst v
  | Null dst => store dst Value.Null
  | MathUnary form operation dst src => execute_math_unary form operation dst src
  | MathBinary form operation dst lhs rhs => binary dst lhs rhs (math_binary form operation)
  | Convert form dst src => execute_convert form dst src
  | Add form dst lhs rhs => binary dst lhs rhs (fun a b => arithmetic form a b AAdd)
  | Sub form dst lhs rhs => binary dst lhs rhs (fun a b => arithmetic form a b ASub)
  | Mul form dst lhs rhs => binary dst lhs rhs (fun a b => arithmetic form a b AMul)
  | Div form dst lhs rhs => binary dst lhs rhs (fun a b => arithmetic form a b ADiv)
  | Rem form dst lhs rhs => binary dst lhs rhs (fun a b => arithmetic form a b ARem)
  | Neg form dst src => source ← load src; v ← st_lift (negate form source); store dst v
  | BitAnd form dst lhs rhs => binary dst lhs rhs (fun a b => integer_binary form a b Z.land)
  | BitOr form dst lhs rhs => binary dst lhs rhs (fun a b => integer_binary form a b Z.lor)
  | BitXor form dst lhs rhs => binary dst lhs rhs (fun a b => integer_binary form a b Z.lxor)
  | ShiftLeft form dst lhs rhs => binary dst lhs rhs (fun a b => shift form a b SLeft)
  | ShiftRight form dst lhs rhs => binary dst lhs rhs (fun a b => shift form a b SRight)
  | ShiftUnsigned form dst lhs rhs => binary dst lhs rhs (fun a b => shift form a b SUnsigned)
  | Equal form dst lhs rhs => binary dst lhs rhs (fun a b => compare form a b CEqual)
  | NotEqual form dst lhs rhs => binary dst lhs rhs (fun a b => compare form a b CNotEqual)
  | Less form dst lhs rhs => binary dst lhs rhs (fun a b => compare form a b CLess)
  | LessEqual form dst lhs rhs => binary dst lhs rhs (fun a b => compare form a b CLessEqual)
  | Greater form dst lhs rhs => binary dst lhs rhs (fun a b => compare form a b CGreater)
  | GreaterEqual form dst lhs rhs => binary dst lhs rhs (fun a b => compare form a b CGreaterEqual)
  | RefEqual dst lhs rhs => binary dst lhs rhs (fun a b => Ok (Value.Bool (bool_decide (a = b))))
  | RefNotEqual dst lhs rhs => binary dst lhs rhs (fun a b => Ok (Value.Bool (negb (bool_decide (a = b)))))
  | StringLength dst string => execute_string_length dst string
  | StringGet dst string index => execute_string_get dst string index
  | _ => st_err (Fault UnsupportedInstruction)
  end.

End Execute.

End Scalar.
