(* ===== verification/ScalarProps.v ===== *)
(** What the scalar instructions are made of: the slots of a frame with the values of
    their kinds in them, and every operation on values of the kinds the verifier asks
    for. *)

From S2P Require Import Prelude Words Bytes Errors Value Numeric Float FloatProps Code CodeProps Layout Heap Frame FrameProps FrameValues Artifact Verify VerifyProps Text Scalar.
Import Errors.

Module ScalarProps.
Import Code FrameInv FrameProps FrameValues Artifact Verify VerifyInv Scalar.

(** ** Slots *)

Definition has_kind (k : Z) (x : Value.RuntimeValue) : Prop := value_ok x /\ is_Some (Frame.physical_of k x).

(** A frame at [b] whose components, in the order of the layout, hold values of the
    kinds [kss]. *)
Section Ready.
Context (cap b : Z) (layout : Frame.FrameLayout) (kss : list (list Z)).
Import Frame.

Definition slot_ok (a : FrameArena) (k : Z) (c : ComponentLayout) : Prop :=
  exists x, read_access a b (mkAccess k (Some c)) = Ok x /\ has_kind k x.

Definition ready (a : FrameArena) : Prop := exists F bs,
  holds a cap F /\ F !! b = Some bs /\ fl_byte_len layout <= Z.of_nat (length bs) /\
  forall p k c, concat kss !! p = Some k -> concat (fl_values layout) !! p = Some c -> slot_ok a k c.

Context (Hlayout : layout_ok layout).
Context (Hshape : Forall2 (Forall2 (fun k c => physical_atom k = Some (c_atom c))) kss (fl_values layout)).

Lemma lookup_concat {A} (ls : list (list A)) r l j x : ls !! r = Some l -> l !! j = Some x ->
  concat ls !! (length (concat (take r ls)) + j)%nat = Some x.
Proof.
  intros Hl Hj. assert (E : concat ls = concat (take r ls) ++ l ++ concat (drop (S r) ls)).
  { pose proof (take_drop_middle ls r l Hl) as E. apply (f_equal (@concat A)) in E. rewrite concat_app in E. by rewrite <- E. }
  rewrite E, lookup_app_r by lia. replace (length (concat (take r ls)) + j - length (concat (take r ls)))%nat with j by lia.
  by apply lookup_app_l_Some.
Qed.

Lemma offset_same r : length (concat (take r kss)) = length (concat (take r (fl_values layout))).
Proof.
  pose proof (Forall2_take _ _ _ r Hshape) as H. induction H as [|ks cs kss' css H _ IH]; [done|].
  cbn [concat]. rewrite !length_app, IH. by rewrite (Forall2_length _ _ _ H).
Qed.

(** Slot [j] of register [r]. *)
Definition slot (r j : nat) (k : Z) (c : ComponentLayout) : Prop :=
  (exists ks, kss !! r = Some ks /\ ks !! j = Some k) /\ exists cs, fl_values layout !! r = Some cs /\ cs !! j = Some c.

Lemma slot_flat r j k c : slot r j k c -> exists p, concat kss !! p = Some k /\ concat (fl_values layout) !! p = Some c.
Proof.
  intros [(ks & Hks & Hk) (cs & Hcs & Hc)]. exists (length (concat (take r kss)) + j)%nat.
  split; [by apply (lookup_concat _ _ ks)|]. rewrite offset_same. by apply (lookup_concat _ _ cs).
Qed.

Lemma flat_disjoint lo hi cs : FrameValues.ordered lo hi cs -> forall p q c d, cs !! p = Some c -> cs !! q = Some d -> (p < q)%nat ->
  c_offset c + byte_size (c_atom c) <= c_offset d.
Proof.
  intros H p q c d Hc Hd Hlt. rewrite <- (take_drop_middle cs p c Hc) in H.
  apply ordered_app in H as (mid & _ & H). destruct H as (_ & _ & H).
  enough (d ∈ drop (S p) cs) as Hin by (apply (ordered_in _ _ _ _ H) in Hin; lia).
  apply (list_elem_of_lookup_2 _ (q - S p)). rewrite lookup_drop. by replace (S p + (q - S p))%nat with q by lia.
Qed.

Lemma slot_inside (bs : list Z) p c : fl_byte_len layout <= Z.of_nat (length bs) -> concat (fl_values layout) !! p = Some c ->
  0 <= c_offset c /\ c_offset c + byte_size (c_atom c) <= Z.of_nat (length bs).
Proof.
  intros Hl Hc. destruct Hlayout as (hi & Hhi & Ho). apply list_elem_of_lookup_2 in Hc. apply (ordered_in _ _ _ _ Ho) in Hc. lia.
Qed.

(** Overwriting one slot with the bytes [new] keeps the frame ready if the slot is
    then typed. *)
Lemma overwrite_slot a F bs p k c new : holds a cap F -> F !! b = Some bs -> fl_byte_len layout <= Z.of_nat (length bs) ->
  (forall p k c, concat kss !! p = Some k -> concat (fl_values layout) !! p = Some c -> slot_ok a k c) ->
  concat kss !! p = Some k -> concat (fl_values layout) !! p = Some c -> Z.of_nat (length new) = byte_size (c_atom c) ->
  let a' := set_bytes (splice (b + c_offset c) new (bytes a)) a in
  (holds a' cap (<[b := splice (c_offset c) new bs]> F) -> slot_ok a' k c) -> ready a'.
Proof.
  intros Ha Hb Hl Ht Hk Hc Hn a' Hslot. destruct (slot_inside bs p c Hl Hc) as [Ho He].
  assert (Ha' : holds a' cap (<[b := splice (c_offset c) new bs]> F)) by (apply store_holds; done || lia).
  exists (<[b := splice (c_offset c) new bs]> F), (splice (c_offset c) new bs).
  split; [done|]. split; [by rewrite lookup_insert_eq|]. split; [rewrite splice_length by lia; lia|].
  intros q k' d Hk' Hd. destruct (decide (q = p)) as [->|Hne].
  { rewrite Hk in Hk'. rewrite Hc in Hd. injection Hk' as <-. injection Hd as <-. by apply Hslot. }
  destruct (Ht q k' d Hk' Hd) as (x & Hx & Hkx). exists x. split; [|done]. rewrite <- Hx.
  destruct (slot_inside bs q d Hl Hd) as [Hdo Hde]. destruct Hlayout as (hi & _ & Hord).
  apply (read_frame a a' cap cap F _ b b bs _ d k' Ha Ha' Hb (lookup_insert_eq _ _ _)); [done|done|by rewrite splice_len by lia|].
  pose proof (byte_size_pos (c_atom d)). apply slice_splice_ne; try lia.
  destruct (Nat.lt_trichotomy p q) as [Hlt|[?|Hlt]]; [right|lia|left].
  - pose proof (flat_disjoint _ _ _ Hord p q c d Hc Hd Hlt). lia.
  - pose proof (flat_disjoint _ _ _ Hord q p d c Hd Hc Hlt). lia.
Qed.

Lemma read_slot a r j k c : slot r j k c -> ready a -> slot_ok a k c.
Proof. intros Hs (F & bs & _ & _ & _ & Ht). destruct (slot_flat _ _ _ _ Hs) as (p & Hk & Hc). by apply (Ht p). Qed.

Lemma slot_atom r j k c : slot r j k c -> physical_atom k = Some (c_atom c).
Proof.
  intros [(ks & Hks & Hk) (cs & Hcs & Hc)]. pose proof (Forall2_lookup_lr _ _ _ _ _ _ Hshape Hks Hcs) as H.
  by apply (Forall2_lookup_lr _ _ _ _ _ _ H Hk Hc).
Qed.

Lemma physical_of_atom k x p : physical_of k x = Some p -> physical_atom k = Some (atom p).
Proof.
  destruct x; cbn [physical_of]; intros H;
    match type of H with context [k =? ?n] => destruct (Z.eqb_spec k n) as [->|]; [|done] end; by injection H as <-.
Qed.

(** The bytes of a slot. *)
Lemma slot_bytes a r j k c : slot r j k c -> ready a -> exists bs,
  Z.of_nat (length bs) = byte_size (c_atom c) /\ knows a (b + c_offset c) bs /\ 0 <= b /\ 0 <= c_offset c /\ arena_len a <= u32_max /\
  b + c_offset c + byte_size (c_atom c) <= arena_len a /\
  component_range a b c = Ok (b + c_offset c, b + c_offset c + byte_size (c_atom c)).
Proof.
  intros Hs (F & bs & Ha & Hb & Hl & _). destruct (slot_flat _ _ _ _ Hs) as (p & _ & Hc).
  destruct (slot_inside bs p c Hl Hc) as [Ho He]. destruct (holds_knows _ _ _ _ _ Ha Hb) as (Hk & Hb0 & Hm).
  pose proof (byte_size_pos (c_atom c)). exists (slice (c_offset c) (byte_size (c_atom c)) bs).
  assert (Hlen : Z.of_nat (length (slice (c_offset c) (byte_size (c_atom c)) bs)) = byte_size (c_atom c)) by (rewrite slice_length by lia; lia).
  assert (Hkc : knows a (b + c_offset c) (slice (c_offset c) (byte_size (c_atom c)) bs)) by (apply knows_part; done || lia).
  split; [done|]. split; [done|]. split; [done|]. split; [done|]. split; [done|].
  split; [by eapply component_end|by eapply component_range_ok].
Qed.

(** A slot that gets the bytes of a value of its kind. *)
Lemma store_slot a r j k c new : slot r j k c -> ready a -> Z.of_nat (length new) = byte_size (c_atom c) ->
  let a' := set_bytes (splice (b + c_offset c) new (bytes a)) a in
  (arena_len a' <= u32_max -> knows a' (b + c_offset c) new -> slot_ok a' k c) ->
  store_range (b + c_offset c, b + c_offset c + byte_size (c_atom c)) new a = (Ok tt, a') /\ ready a'.
Proof.
  intros Hs Hr Hn a' Hslot. destruct (slot_bytes a r j k c Hs Hr) as (old & Hlen & Hk & Hb0 & Ho & Hm & Hend & _).
  split; [unfold store_range; cbn [fst snd]; by rewrite (proj2 (Z.eqb_eq _ _)) by lia|].
  destruct Hr as (F & bs & Ha & Hb & Hl & Ht). destruct (slot_flat _ _ _ _ Hs) as (p & Hp & Hc).
  eapply (overwrite_slot a F bs p k c); try done. intros Ha'. apply Hslot.
  - destruct (holds_knows _ _ _ b _ Ha' (lookup_insert_eq _ _ _)) as (_ & _ & H). exact H.
  - unfold knows. cbn [bytes set_bytes]. apply slice_splice_eq; [lia|]. unfold arena_len in Hend. lia.
Qed.

Lemma value_slot a r j k c x p : slot r j k c -> ready a -> physical_of k x = Some p -> value_ok x ->
  store_range (b + c_offset c, b + c_offset c + byte_size (c_atom c)) (physical_bytes p) a =
    (Ok tt, set_bytes (splice (b + c_offset c) (physical_bytes p) (bytes a)) a) /\
  ready (set_bytes (splice (b + c_offset c) (physical_bytes p) (bytes a)) a).
Proof.
  intros Hs Hr Hp Hx. destruct (slot_bytes a r j k c Hs Hr) as (old & Hlen & Hk & Hb0 & Ho & Hm & Hend & _).
  assert (Hat : atom p = c_atom c). { apply physical_of_atom in Hp. rewrite (slot_atom _ _ _ _ Hs) in Hp. by injection Hp. }
  apply (store_slot a r j k); [done|done|by rewrite physical_length, Hat|]. intros Hm' Hk'. exists x.
  split; [by eapply read_stored|]. split; [done|]. by exists p.
Qed.

Lemma write_access_slot a r j k c x : slot r j k c -> ready a -> has_kind k x ->
  exists a', write_access b (mkAccess k (Some c)) x a = (Ok tt, a') /\ ready a'.
Proof.
  intros Hs Hr [Hx [p Hp]]. destruct (value_slot a r j k c x p Hs Hr Hp Hx) as [Hst Hr'].
  destruct (slot_bytes a r j k c Hs Hr) as (old & _ & _ & _ & _ & _ & _ & Hrange).
  assert (Hat : atom p = c_atom c). { apply physical_of_atom in Hp. rewrite (slot_atom _ _ _ _ Hs) in Hp. by injection Hp. }
  eexists. split; [|done]. unfold write_access. cbn [a_kind a_component]. rewrite Hp, (st_bind_ok _ _ _ p a) by done.
  unfold with_atom. rewrite Hat. bind_simp. rewrite decide_True, (st_bind_ok _ _ _ c a) by done.
  rewrite (st_bind_ok _ _ _ (b + c_offset c, b + c_offset c + byte_size (c_atom c)) a) by (unfold st_read; by rewrite Hrange). done.
Qed.

Lemma write_component_slot a r j k c x p : slot r j k c -> ready a -> physical_of k x = Some p -> value_ok x ->
  exists a', write_component b layout (Z.of_nat r) (Z.of_nat j) p a = (Ok tt, a') /\ ready a'.
Proof.
  intros Hs Hr Hp Hx. destruct (value_slot a r j k c x p Hs Hr Hp Hx) as [Hst Hr'].
  destruct (slot_bytes a r j k c Hs Hr) as (old & _ & _ & _ & _ & _ & _ & Hrange).
  assert (Hat : atom p = c_atom c). { apply physical_of_atom in Hp. rewrite (slot_atom _ _ _ _ Hs) in Hp. by injection Hp. }
  destruct Hs as [_ (cs & Hcs & Hc)].
  eexists. split; [|done]. unfold write_component, component, zget. rewrite !Nat2Z.id, Hcs. bind_simp. rewrite Hc. unfold with_atom. bind_simp.
  rewrite Hat, decide_True, (st_bind_ok _ _ _ c a) by done.
  rewrite (st_bind_ok _ _ _ (b + c_offset c, b + c_offset c + byte_size (c_atom c)) a) by (unfold st_read; by rewrite Hrange). done.
Qed.

Lemma copy_slot a r j k c r' j' c' : slot r j k c -> slot r' j' k c' -> ready a ->
  exists a', copy_component b c b c' a = (Ok tt, a') /\ ready a'.
Proof.
  intros Hs Hs' Hr. destruct (slot_bytes a r j k c Hs Hr) as (old & Hlen & Hk & Hb0 & Ho & Hm & Hend & Hrange).
  destruct (slot_bytes a r' j' k c' Hs' Hr) as (old' & Hlen' & Hk' & _ & Ho' & _ & Hend' & Hrange').
  assert (Hat : c_atom c = c_atom c'). { pose proof (slot_atom _ _ _ _ Hs). pose proof (slot_atom _ _ _ _ Hs'). congruence. }
  destruct (store_slot a r' j' k c' old Hs' Hr) as [_ Hr'].
  { by rewrite Hlen, Hat. }
  { intros Hm' Hk2. destruct (read_slot a r j k c Hs Hr) as (x & Hx & Hkx). exists x. split; [|done].
    rewrite (read_access_bytes _ b c' old); [|done|done|done|by rewrite Hlen, Hat|done].
    rewrite (read_access_bytes _ b c old) in Hx; [|done..]. by rewrite <- Hat. }
  eexists. split; [|exact Hr']. unfold copy_component. rewrite bool_decide_eq_true_2 by done. cbn [negb].
  rewrite (st_bind_ok _ _ _ (b + c_offset c, b + c_offset c + byte_size (c_atom c)) a) by (unfold st_read; by rewrite Hrange).
  rewrite (st_bind_ok _ _ _ (b + c_offset c', b + c_offset c' + byte_size (c_atom c')) a) by (unfold st_read; by rewrite Hrange').
  rewrite (proj2 (Z.ltb_ge _ _)) by (rewrite <- Hat in *; lia). f_equal. f_equal. f_equal.
  replace (b + c_offset c + byte_size (c_atom c) - (b + c_offset c)) with (Z.of_nat (length old)) by lia. exact Hk.
Qed.

End Ready.

(** ** Results *)

(** A result of kind [k], or a division by zero where [divides] allows it. *)
Definition settles (divides : bool) (k : Z) (o : Res Value.RuntimeValue) : Prop :=
  (exists v, o = Ok v /\ has_kind k v) \/ (divides = true /\ o = Err (Trap DivisionByZero)).

Lemma kind_cases k x : has_kind k x ->
  (k = 1 /\ exists v, x = Value.I32 v /\ Numeric.is_i32 v) \/ (k = 2 /\ exists v, x = Value.I64 v /\ Numeric.is_i64 v) \/
  (k = 3 /\ exists v, x = Value.F32 v /\ FloatProps.is_pattern Float.F32 v) \/
  (k = 4 /\ exists v, x = Value.F64 v /\ FloatProps.is_pattern Float.F64 v) \/
  (k = 5 /\ exists v, x = Value.Bool v) \/ (k = 6 /\ exists v, x = Value.Char v /\ 0 <= v <= u16_max) \/
  (k = 7 /\ (x = Value.Null \/ exists r, x = Value.Reference r)).
Proof.
  intros [Hx [p Hp]]. destruct x; cbn [Frame.physical_of value_ok] in *;
    match type of Hp with context [k =? ?n] => destruct (Z.eqb_spec k n) as [->|]; [|done] end;
    unfold Numeric.is_i32, Numeric.is_i64, i32_min, i32_max, i64_min, i64_max, FloatProps.is_pattern; cbn;
    repeat (first [left; split; [done|]; eauto; eexists; (split; [reflexivity|lia]) | right]); eauto.
Qed.

Lemma kind_i32 v : Numeric.is_i32 v -> has_kind 1 (Value.I32 v).
Proof. intros H. split; [unfold Numeric.is_i32, i32_min, i32_max in H; cbn; lia|by eexists]. Qed.
Lemma kind_i64 v : Numeric.is_i64 v -> has_kind 2 (Value.I64 v).
Proof. intros H. split; [unfold Numeric.is_i64, i64_min, i64_max in H; cbn; lia|by eexists]. Qed.
Lemma kind_f32 v : FloatProps.is_pattern Float.F32 v -> has_kind 3 (Value.F32 v).
Proof. intros H. split; [exact H|by eexists]. Qed.
Lemma kind_f64 v : FloatProps.is_pattern Float.F64 v -> has_kind 4 (Value.F64 v).
Proof. intros H. split; [exact H|by eexists]. Qed.
Lemma kind_bool v : has_kind 5 (Value.Bool v).
Proof. split; [done|by eexists]. Qed.
Lemma kind_char v : 0 <= v <= u16_max -> has_kind 6 (Value.Char v).
Proof. intros H. split; [exact H|by eexists]. Qed.
Lemma kind_null : has_kind 7 Value.Null.
Proof. split; [done|by eexists]. Qed.

Lemma wrap_i32 z : Numeric.is_i32 (wrap_signed 32 z).
Proof. apply Numeric.is_i32_wrap, wrap_signed_range. lia. Qed.
Lemma wrap_i64 z : Numeric.is_i64 (wrap_signed 64 z).
Proof. apply Numeric.is_i64_wrap, wrap_signed_range. lia. Qed.

Create HintDb kinds.
#[local] Hint Resolve kind_i32 kind_i64 kind_f32 kind_f64 kind_bool kind_char kind_null wrap_i32 wrap_i64 : kinds.
#[local] Hint Resolve FloatProps.F32_ok FloatProps.F64_ok FloatProps.add_pattern FloatProps.sub_pattern FloatProps.mul_pattern
  FloatProps.div_pattern FloatProps.rem_pattern FloatProps.neg_pattern FloatProps.from_integer_pattern
  FloatProps.convert_format_pattern FloatProps.canonical_nan_pattern FloatProps.unary_pattern FloatProps.binary_pattern : kinds.

Lemma settles_ok d k v : has_kind k v -> settles d k (Ok v).
Proof. intros. left. by exists v. Qed.
#[local] Hint Resolve settles_ok : kinds.

(** The values of a kind, by cases. *)
Ltac of_kind H := apply kind_cases in H; destruct_or! H; let E := fresh in destruct H as [E H];
  try (exfalso; lia); clear E; try (destruct H as [? [-> H]] || destruct H as [? ->]).

Lemma float_arithmetic_pattern f op a b : FloatProps.format_ok f -> FloatProps.is_pattern f (float_arithmetic f op a b).
Proof. intros Hf. destruct op; cbn; auto with kinds. Qed.

Lemma unsigned_arithmetic_ok w op a b : (exists r, unsigned_arithmetic w op a b = Ok (wrap_signed w r)) \/
  ((op = ADiv \/ op = ARem) /\ unsigned_arithmetic w op a b = Err (Trap DivisionByZero)).
Proof.
  unfold unsigned_arithmetic. destruct op; cbn [mbind outcome_bind]; try (left; by eexists);
    (destruct (_ =? 0); [right; auto|left; by eexists]).
Qed.

Definition divides (op : Arithmetic) : bool := match op with ADiv | ARem => true | _ => false end.

Lemma arithmetic_ok form a b op : In form [1; 2; 3; 4; 8; 9] ->
  has_kind (numeric_form_kind form) a -> has_kind (numeric_form_kind form) b ->
  settles (divides op) (numeric_form_kind form) (arithmetic form a b op).
Proof.
  intros Hf Ha Hb. cbn [In] in Hf. destruct_or! Hf; subst form; try done; cbn in Ha, Hb |- *; of_kind Ha; of_kind Hb; cbn.
  - destruct op; cbn; unfold Numeric.add_i32, Numeric.sub_i32, Numeric.mul_i32; auto with kinds;
      (pose proof (Numeric.div_rem_i32 _ _ Ha Hb) as H; destruct (_ =? 0);
       [destruct H as [H1 H2]; rewrite ?H1, ?H2; by right|destruct H as (q & r & H1 & H2 & _ & Hq & Hr & _); rewrite ?H1, ?H2; cbn; auto with kinds]).
  - destruct op; cbn; unfold Numeric.add_i64, Numeric.sub_i64, Numeric.mul_i64; auto with kinds;
      (pose proof (Numeric.div_rem_i64 _ _ Ha Hb) as H; destruct (_ =? 0);
       [destruct H as [H1 H2]; rewrite ?H1, ?H2; by right|destruct H as (q & r & H1 & H2 & _ & Hq & Hr & _); rewrite ?H1, ?H2; cbn; auto with kinds]).
  - auto using float_arithmetic_pattern with kinds.
  - auto using float_arithmetic_pattern with kinds.
  - destruct (unsigned_arithmetic_ok 32 op x x0) as [[r ->]|[Hop ->]]; cbn; [auto with kinds|right; by destruct Hop as [-> | ->]].
  - destruct (unsigned_arithmetic_ok 64 op x x0) as [[r ->]|[Hop ->]]; cbn; [auto with kinds|right; by destruct Hop as [-> | ->]].
Qed.

Lemma negate_ok form v : In form [1; 2; 3; 4] -> has_kind form v -> settles false form (negate form v).
Proof.
  intros Hf Hv. cbn [In] in Hf. destruct_or! Hf; subst form; try done; of_kind Hv; cbn;
    unfold Numeric.neg_i32, Numeric.neg_i64, Float.neg_f32, Float.neg_f64; auto with kinds.
Qed.

(** [&], [|] and [^] of two 64-bit integers are 64-bit integers. *)
Lemma bitwise_i64 (op : Z -> Z -> Z) (bop : bool -> bool -> bool) a b :
  (forall a b n, Z.testbit (op a b) n = bop (Z.testbit a n) (Z.testbit b n)) ->
  Numeric.is_i64 a -> Numeric.is_i64 b -> Numeric.is_i64 (op a b).
Proof.
  intros Hop Ha Hb. apply Numeric.is_i64_wrap in Ha, Hb. rewrite <- (wrap_signed_id 64 a), <- (wrap_signed_id 64 b) by (done || lia).
  assert (Hs : forall z, - 2 ^ (64 - 1) <= z < 2 ^ (64 - 1) <-> forall n, 63 <= n -> Z.testbit z n = Z.testbit z 63).
  { intros z. split.
    - intros Hz n Hn. assert (Hz' : z / 2 ^ 63 = 0 \/ z / 2 ^ 63 = -1) by (pose proof (Z.div_mod z (2 ^ 63)); pose proof (Z.mod_pos_bound z (2 ^ 63)); nia).
      replace n with ((n - 63) + 63) by lia. replace 63 with (0 + 63) at 3 by lia. rewrite <- !Z.shiftr_spec, !Z.shiftr_div_pow2 by lia.
      destruct Hz' as [-> | ->]; [by rewrite !Z.bits_0|by rewrite !Z.bits_m1 by lia].
    - intros Hz. assert (Hz' : Z.shiftr z 63 = 0 \/ Z.shiftr z 63 = -1).
      { destruct (Z.testbit z 63) eqn:E; [right|left]; apply Z.bits_inj'; intros n Hn; rewrite Z.shiftr_spec, Hz, ?Z.bits_m1, ?Z.bits_0 by lia; done. }
      rewrite Z.shiftr_div_pow2 in Hz' by lia. pose proof (Z.div_mod z (2 ^ 63)). pose proof (Z.mod_pos_bound z (2 ^ 63)). nia. }
  apply Numeric.is_i64_wrap. rewrite !wrap_signed_id by (done || lia). apply Hs. intros n Hn. rewrite !Hop.
  by rewrite (proj1 (Hs a) Ha n Hn), (proj1 (Hs b) Hb n Hn).
Qed.

Lemma integer_binary_ok form a b op : In form [1; 2] -> In op [Z.land; Z.lor; Z.lxor] -> has_kind form a -> has_kind form b ->
  settles false form (integer_binary form a b op).
Proof.
  intros Hf Hop Ha Hb. cbn [In] in Hf. destruct_or! Hf; subst form; try done; of_kind Ha; of_kind Hb; cbn; [auto with kinds|].
  apply settles_ok, kind_i64. cbn [In] in Hop. destruct_or! Hop; subst op; try done.
  - by apply (bitwise_i64 _ andb _ _ Z.land_spec).
  - by apply (bitwise_i64 _ orb _ _ Z.lor_spec).
  - by apply (bitwise_i64 _ xorb _ _ Z.lxor_spec).
Qed.

Lemma shiftr_between lo hi v n : lo <= 0 <= hi -> lo <= v <= hi -> 0 <= n -> lo <= Z.shiftr v n <= hi.
Proof.
  intros Hl Hv Hn. rewrite Z.shiftr_div_pow2 by done. pose proof (Z.pow_pos_nonneg 2 n). split.
  - apply Z.div_le_lower_bound; [lia|]. nia.
  - destruct (Z.le_gt_cases 0 v); [|pose proof (Z.div_lt_upper_bound v (2 ^ n) 0); lia].
    etrans; [|exact (proj2 Hv)]. apply Z.div_le_upper_bound; [lia|]. nia.
Qed.

Lemma shift_ok form a b op : In form [1; 2] -> has_kind form a -> has_kind 1 b -> settles false form (shift form a b op).
Proof.
  intros Hf Ha Hb. assert (Hn : forall z m, 0 <= m -> 0 <= Z.land (wrap_unsigned 32 z) m) by (intros; apply Z.land_nonneg; by right).
  cbn [In] in Hf. destruct_or! Hf; subst form; try done; of_kind Ha; of_kind Hb; cbn; destruct op;
    unfold Numeric.shl_i32, Numeric.shl_i64, Numeric.shr_i32, Numeric.shr_i64, Numeric.ushr_i32, Numeric.ushr_i64; auto with kinds.
  - apply settles_ok, kind_i32, shiftr_between; [done|done|by apply Hn].
  - apply settles_ok, kind_i64, shiftr_between; [done|done|by apply Hn].
Qed.

Definition equality (op : Comparison) : bool := match op with CEqual | CNotEqual => true | _ => false end.

Lemma compare_ok form a b op : In form [1; 2; 3; 4; 6; 8; 9] \/ (form = 5 /\ equality op = true) ->
  has_kind (numeric_form_kind form) a -> has_kind (numeric_form_kind form) b -> settles false 5 (compare form a b op).
Proof.
  intros [Hf|[-> Hop]] Ha Hb.
  - cbn [In] in Hf. destruct_or! Hf; subst form; try done; cbn in Ha, Hb; of_kind Ha; of_kind Hb; cbn; auto with kinds.
  - cbn in Ha, Hb. of_kind Ha. of_kind Hb. destruct op; try done; cbn; auto with kinds.
Qed.

Lemma to_integer_i32 f v : f = Float.F32 \/ f = Float.F64 -> Numeric.is_i32 (Float.to_integer f i32_min i32_max v).
Proof.
  intros [-> | ->]; [change (Float.to_integer Float.F32 i32_min i32_max v) with (Float.f32_to_i32 v); rewrite FloatProps.f32_to_i32_saturated
    |change (Float.to_integer Float.F64 i32_min i32_max v) with (Float.f64_to_i32 v); rewrite FloatProps.f64_to_i32_saturated];
    by apply FloatProps.to_integer_range.
Qed.
Lemma to_integer_i64 f v : f = Float.F32 \/ f = Float.F64 -> Numeric.is_i64 (Float.to_integer f i64_min i64_max v).
Proof.
  intros [-> | ->]; [change (Float.to_integer Float.F32 i64_min i64_max v) with (Float.f32_to_i64 v); rewrite FloatProps.f32_to_i64_saturated
    |change (Float.to_integer Float.F64 i64_min i64_max v) with (Float.f64_to_i64 v); rewrite FloatProps.f64_to_i64_saturated];
    by apply FloatProps.to_integer_range.
Qed.
Lemma i32_is_i64 v : Numeric.is_i32 v -> Numeric.is_i64 v.
Proof. unfold Numeric.is_i32, Numeric.is_i64, i32_min, i32_max, i64_min, i64_max. lia. Qed.
Lemma char_is_i32 v : 0 <= v <= u16_max -> Numeric.is_i32 v.
Proof. unfold Numeric.is_i32, i32_min, i32_max, u16_max. lia. Qed.
Lemma wrap_char v : 0 <= wrap_unsigned 16 v <= u16_max.
Proof. unfold wrap_unsigned, u16_max. pose proof (Z.mod_pos_bound v (2 ^ 16)). lia. Qed.

#[local] Hint Resolve to_integer_i32 to_integer_i64 i32_is_i64 char_is_i32 wrap_char : kinds.

Lemma convert_ok v source destination : convertible source destination = true -> has_kind source v ->
  settles false destination (convert v destination).
Proof.
  intros Hc Hv. unfold convertible, numeric, in_range in Hc.
  assert (Hd : In destination [1; 2; 3; 4; 6]) by (cbn [In]; bsimp; lia).
  cbn [In] in Hd. destruct_or! Hd; subst destination; try done; of_kind Hv; cbn in Hc |- *; try done;
    unfold Float.f32_to_i32, Float.f32_to_i64, Float.f64_to_i32, Float.f64_to_i64, Float.f32_to_f64, Float.f64_to_f32, Float.i32_to_f32,
      Float.i32_to_f64, Float.i64_to_f32, Float.i64_to_f64, Numeric.i32_to_i64, Numeric.i64_to_i32, Numeric.i32_to_char, Numeric.char_to_i32; auto 6 with kinds.
Qed.

Lemma signed_convert_ok v source destination form : In form [0; 1; 2; 3] -> convertible source destination = true ->
  (bit 0 form = true -> integer_kind source = true /\ destination <> 6) -> has_kind source v ->
  settles false destination (convert_with_signedness v destination form).
Proof.
  intros Hf Hc Hb Hv. unfold convert_with_signedness. pose proof (convert_ok v source destination Hc Hv) as Hplain.
  destruct (negb (Z.land form 1 =? 0)) eqn:E1.
  - assert (Hbit : bit 0 form = true) by (cbn [In] in Hf; destruct_or! Hf; subst form; done). destruct (Hb Hbit) as [Hi Hne].
    assert (Hd : In destination [1; 2; 3; 4]) by (unfold convertible, numeric, in_range, integer_kind in *; cbn [In]; bsimp; lia).
    assert (Hu : exists u, (match v with Value.I32 v => Ok (wrap_unsigned 32 v) | Value.I64 v => Ok (wrap_unsigned 64 v) | _ => invalid end) = Ok u :> Res Z).
    { unfold integer_kind in Hi. assert (Hs : source = 1 \/ source = 2) by (bsimp; lia). destruct Hs as [-> | ->]; of_kind Hv; by eexists. }
    destruct Hu as [u ->]. cbn [mbind outcome_bind]. cbn [In] in Hd. destruct_or! Hd; subst destination; try done; cbn; auto 6 with kinds.
  - destruct (negb (Z.land form 2 =? 0)); [|done]. destruct v; try done;
      (destruct (Z.eqb_spec destination 1) as [->|]; [auto with kinds|]; destruct (Z.eqb_spec destination 2) as [->|]; [auto with kinds|done]).
Qed.

End ScalarProps.
