(* ===== verification/ScalarSafe.v ===== *)
(** Verified scalar instructions run: on a frame whose slots hold values of their
    kinds, an instruction the verifier accepts never faults, keeps the frame so, and
    traps only on a division by zero. *)

From S2P Require Import Prelude Words Bytes Errors Value Numeric Float FloatProps Code CodeProps Layout Heap HeapProps Frame FrameProps FrameValues Artifact Verify VerifyProps Text Scalar ScalarProps.
Import Errors.

Module ScalarSafe.
Import Code FrameInv FrameProps FrameValues Artifact Verify VerifyInv Scalar ScalarProps.

(** ** Constants *)

Definition constant_ok (c : Artifact.Constant) : Prop :=
  match c with
  | CI32 v => Numeric.is_i32 v
  | CI64 v => Numeric.is_i64 v
  | CF32 bits => FloatProps.is_pattern Float.F32 bits
  | CF64 bits => FloatProps.is_pattern Float.F64 bits
  | CChar v => 0 <= v <= u16_max
  | _ => True
  end.

Lemma image_reference index r : 0 <= index -> Value.image index = Some r -> 0 < Value.to_bits r < 2 ^ 32.
Proof.
  unfold Value.image, Value.new. intros Hi. destruct (Z.ltb_spec Value.MAX_PAYLOAD index) as [|Hm]; [done|].
  set (v := Z.lor _ _). destruct (Z.eqb_spec v 0) as [|Hne]; [done|]. intros [= <-]. cbn.
  assert (Hv : 0 <= v) by (apply Z.lor_nonneg; split; [done|lia]). split; [lia|].
  assert (E : v = Z.lor (2 ^ 30) index) by reflexivity. change Value.MAX_PAYLOAD with (2 ^ 30 - 1) in Hm.
  apply Z.log2_lt_pow2; [lia|]. rewrite E, Z.log2_lor by lia.
  apply Z.max_lub_lt; [done|]. destruct (Z.eq_dec index 0) as [->|]; [done|]. apply Z.log2_lt_pow2; lia.
Qed.

Lemma resolved_constant lo li m c v t : constant_ok c -> resolve_constant lo li m c = Ok v -> constant_assignable c t = true -> has_kind (kind t) v.
Proof.
  intros Hc Hv Ha. destruct c; cbn in Hv, Ha; try (injection Hv as <-); try (apply Z.eqb_eq in Ha; rewrite Ha);
    auto using kind_i32, kind_i64, kind_f32, kind_f64, kind_bool, kind_char.
  - run_inv. subst v. unfold try_from_unsigned in *. destruct (in_range _ _ _) eqn:E; [|done].
    simplify_eq. match goal with H : Value.image _ = Some _ |- _ => apply image_reference in H; [|unfold in_range in E; bsimp; lia] end.
    split; [done|by eexists].
  - apply andb_true_iff in Ha as [Ha _]. apply Z.eqb_eq in Ha. rewrite Ha. apply kind_null.
Qed.

(** Constant [n] of module [k] is at the offset of the module. *)
Lemma resolve_all_lookup lo li m cs : forall vs n c, resolve_all lo li m cs = Ok vs -> cs !! n = Some c ->
  exists v, vs !! n = Some v /\ resolve_constant lo li m c = Ok v.
Proof.
  induction cs as [|c0 cs IH]; intros vs n c H Hn; [done|]. cbn in H. run_inv. subst vs.
  destruct n; [injection Hn as ->; eauto|]. cbn in Hn |- *. eauto.
Qed.

Lemma resolve_all_length lo li m cs : forall vs, resolve_all lo li m cs = Ok vs -> length vs = length cs.
Proof. induction cs as [|c0 cs IH]; intros vs H; cbn in H; run_inv; subst vs; [done|]. cbn. f_equal. eauto. Qed.

Lemma constants_lookup lo li ms : forall m0 start vs offs k off m n c, 0 <= start ->
  resolve_constants lo li m0 ms = Ok vs -> offsets start ((fun m => Z.of_nat (length (Artifact.constants m))) <$> ms) = Ok offs ->
  offs !! k = Some off -> ms !! k = Some m -> Artifact.constants m !! n = Some c ->
  start <= off /\ exists v, vs !! (Z.to_nat (off - start) + n)%nat = Some v /\ resolve_constant lo li (m0 + Z.of_nat k) c = Ok v.
Proof.
  induction ms as [|m1 ms IH]; intros m0 start vs offs k off m n c Hst Hvs Hoffs Hk Hm Hc; [done|]. cbn in Hvs, Hoffs. run_inv. subst vs offs.
  match goal with H : checked_add _ _ _ = Some ?next, H' : offsets ?next _ = Ok ?rest |- _ => rename H into Hadd, H' into Hrest; rename next into nx, rest into os end.
  unfold checked_add in Hadd. destruct (_ <=? _); [|done]. injection Hadd as <-.
  match goal with H : resolve_all _ _ _ _ = Ok ?l |- _ => rename H into Hall, l into here end.
  pose proof (resolve_all_length _ _ _ _ _ Hall) as Hlen. destruct k as [|k].
  - injection Hk as <-. injection Hm as ->. split; [lia|]. destruct (resolve_all_lookup _ _ _ _ _ _ _ Hall Hc) as (v & Hv & Hr).
    exists v. rewrite Z.sub_diag, Z.add_0_r. split; [by apply lookup_app_l_Some|done].
  - cbn in Hk, Hm. match goal with H : resolve_constants _ _ _ ms = Ok ?l |- _ =>
      destruct (IH (m0 + 1) (start + Z.of_nat (length (Artifact.constants m1))) l os k off m n c) as (Hle & v & Hv & Hr); [lia|done..|] end.
    split; [lia|]. exists v. replace (m0 + Z.of_nat (S k)) with (m0 + 1 + Z.of_nat k) by lia. split; [|done].
    rewrite lookup_app_r by lia. rewrite <- Hv. f_equal. lia.
Qed.

(** ** Registers *)

(** A register that is not an inline value has the one component of its kind. *)
Definition scalar_shape (v : FunctionValue) : Prop := kind (semantic_type v) = 8 \/
  exists at_, physical_atom (kind (semantic_type v)) = Some at_ /\ components v = [at_].

Section Registers.
Context (art : DecodedArtifact) (depth : nat) (limits : ArtifactLimits) (module_id function_id : Z).
Context (f : Artifact.Function) (rf : ResolvedFunction) (cap b : Z).
Abbreviation layout_of_type := (inline_layout art limits module_id function_id).
Abbreviation type_of := (register_type limits module_id function_id f).

(** The kinds of the components of a register. *)
Definition kinds_of (v : FunctionValue) : list Z :=
  if kind (semantic_type v) =? 8 then
    match layout_of_type (semantic_type v) with Ok (_, l) => kind <$> l | _ => [] end
  else [kind (semantic_type v)].
Definition all_kinds : list (list Z) := kinds_of <$> values f.

Context (Hresolve : Scalar.resolve_function f = Ok rf).
Context (Hscalar : Forall scalar_shape (values f)).
Context (Hshapes : verify_shapes art limits module_id function_id (values f) = Ok tt).
Abbreviation frame_ready := (ready cap b (frame_layout rf) all_kinds).

Lemma resolved : layout_ok (frame_layout rf) /\ map (map Frame.c_atom) (Frame.fl_values (frame_layout rf)) = components <$> values f /\
  registers rf = (fun v => kind (semantic_type v)) <$> values f /\
  register_accesses rf = imap (fun i k => Frame.value_access (frame_layout rf) k (Z.of_nat i)) (registers rf).
Proof.
  unfold Scalar.resolve_function in Hresolve. destruct (Frame.derive _) as [layout| |] eqn:E; [|done..].
  injection Hresolve as <-. destruct (derive_ok _ _ E) as (H1 & H2 & _). done.
Qed.

Lemma shape_kinds v : scalar_shape v -> verify_shape art limits module_id function_id v = Ok tt ->
  Forall2 (fun k at_ => physical_atom k = Some at_) (kinds_of v) (components v).
Proof.
  unfold verify_shape, kinds_of. intros [E|(at_ & Ha & Hc)] H.
  - rewrite E in *. cbn in *. apply outcome_bind_inv in H as ([lm l] & Hl & H). rewrite Hl. apply guard_err_ok in H.
    apply orb_false_iff in H as [Hlen Hex]. apply negb_false_iff, Nat.eqb_eq in Hlen.
    apply Forall2_same_length_lookup. split; [by rewrite length_fmap|]. intros i k at_ Hk Ha.
    apply list_lookup_fmap_Some in Hk as (s & -> & Hs).
    destruct (bool_decide (physical_atom (kind s) = Some at_)) eqn:Hd; [by apply bool_decide_eq_true in Hd|].
    enough (existsb (fun '(a, s) => negb (bool_decide (physical_atom (kind s) = Some a))) (zip (components v) l) = true) by congruence.
    apply existsb_exists. exists (at_, s). split; [|by rewrite Hd]. apply list_elem_of_In, (list_elem_of_lookup_2 _ i).
    apply lookup_zip_Some. done.
  - destruct (Z.eqb_spec (kind (semantic_type v)) 8) as [E|]; [rewrite E in Ha; done|]. rewrite Hc. by constructor.
Qed.

Lemma shape_at i v : values f !! i = Some v -> verify_shape art limits module_id function_id v = Ok tt.
Proof.
  revert i Hshapes. clear. induction (values f) as [|w vs IH]; intros i H Hi; [done|]. cbn in H.
  apply outcome_bind_inv in H as ([] & Hw & H). destruct i; [by injection Hi as <-|by eapply IH].
Qed.

Lemma shape_all : Forall2 (Forall2 (fun k c => physical_atom k = Some (Frame.c_atom c))) all_kinds (Frame.fl_values (frame_layout rf)).
Proof.
  destruct resolved as (_ & Hv & _). apply Forall2_same_length_lookup.
  assert (Hlen : length (Frame.fl_values (frame_layout rf)) = length (values f)).
  { apply (f_equal length) in Hv. by rewrite length_map, length_fmap in Hv. }
  unfold all_kinds. split; [by rewrite length_fmap|]. intros i ks cs Hk Hc. apply list_lookup_fmap_Some in Hk as (v & -> & Hvi).
  assert (Ev : map Frame.c_atom cs = components v).
  { apply (f_equal (fun l => l !! i)) in Hv. change (map (map Frame.c_atom)) with (fmap (M:=list) (map Frame.c_atom)) in Hv.
    rewrite !list_lookup_fmap, Hc, Hvi in Hv. by injection Hv. }
  pose proof (shape_kinds v (proj1 (Forall_lookup _ _) Hscalar i v Hvi) (shape_at i v Hvi)) as H. rewrite <- Ev in H.
  change (map Frame.c_atom cs) with (Frame.c_atom <$> cs) in H. by apply Forall2_fmap_r in H.
Qed.

Lemma type_value r t : type_of r = Ok t -> exists v, values f !! Z.to_nat r = Some v /\ semantic_type v = t.
Proof. unfold register_type. intros (v & Hv & H)%outcome_bind_inv. apply ok_or_ok in Hv. injection H as <-. by exists v. Qed.

(** Component [j] of register [r]. *)
Lemma type_slot r t v j k : type_of r = Ok t -> values f !! Z.to_nat r = Some v -> kinds_of v !! j = Some k ->
  exists cs c, Frame.fl_values (frame_layout rf) !! Z.to_nat r = Some cs /\ cs !! j = Some c /\ length cs = length (kinds_of v) /\
    slot (frame_layout rf) all_kinds (Z.to_nat r) j k c.
Proof.
  intros _ Hv Hk. pose proof shape_all as Hs.
  assert (Hks : all_kinds !! Z.to_nat r = Some (kinds_of v)) by (unfold all_kinds; by rewrite list_lookup_fmap, Hv).
  destruct (Forall2_lookup_l _ _ _ _ _ Hs Hks) as (cs & Hcs & H). destruct (Forall2_lookup_l _ _ _ _ _ H Hk) as (c & Hc & _).
  exists cs, c. split; [done|]. split; [done|]. split; [by rewrite (Forall2_length _ _ _ H)|]. split; eauto.
Qed.

Lemma scalar_slot r t : type_of r = Ok t -> kind t <> 8 -> exists cs c, Frame.fl_values (frame_layout rf) !! Z.to_nat r = Some cs /\ head cs = Some c /\
  zget (register_accesses rf) r = Some (Frame.mkAccess (kind t) (Some c)) /\ slot (frame_layout rf) all_kinds (Z.to_nat r) 0 (kind t) c.
Proof.
  intros Ht Hk. destruct (type_value r t Ht) as (v & Hv & <-).
  destruct (type_slot r _ v 0 (kind (semantic_type v)) Ht Hv) as (cs & c & Hcs & Hc & _ & Hs).
  { unfold kinds_of. by rewrite (proj2 (Z.eqb_neq _ _) Hk). }
  exists cs, c. destruct cs as [|c0 cs]; [done|]. injection Hc as ->. split; [done|]. split; [done|]. split; [|done].
  destruct resolved as (_ & _ & Hr & ->). unfold zget. rewrite list_lookup_imap, Hr, list_lookup_fmap, Hv. cbn.
  unfold Frame.value_access, zget. by rewrite Nat2Z.id, Hcs.
Qed.

(** ** Loads and stores *)

Lemma load_ok r t a : type_of r = Ok t -> kind t <> 8 -> frame_ready a -> exists x, load b rf r a = (Ok x, a) /\ has_kind (kind t) x.
Proof.
  intros Ht Hk Hr. destruct (scalar_slot r t Ht Hk) as (cs & c & _ & _ & Ha & Hs).
  destruct (read_slot cap b (frame_layout rf) all_kinds shape_all a _ _ _ _ Hs Hr) as (x & Hx & Hkx). exists x. split; [|done].
  unfold load, st_read, read_frame_value. rewrite Ha. bind_simp. by rewrite Hx.
Qed.

Lemma store_ok r t x a : type_of r = Ok t -> kind t <> 8 -> has_kind (kind t) x -> frame_ready a ->
  exists a', store b rf r x a = (Ok tt, a') /\ frame_ready a'.
Proof.
  intros Ht Hk Hx Hr. destruct (scalar_slot r t Ht Hk) as (cs & c & _ & _ & Ha & Hs). destruct resolved as (Hl & _).
  destruct (write_access_slot cap b (frame_layout rf) all_kinds Hl shape_all a _ _ _ _ _ Hs Hr Hx) as (a' & Hw & Hr'). exists a'. split; [|done].
  unfold store, faulting, write_frame_value. rewrite Ha, (st_bind_ok _ _ _ (Frame.mkAccess (kind t) (Some c)) a) by done. by rewrite Hw.
Qed.

(** What an instruction does to a ready frame. *)
Definition runs (divides : bool) (m : ST Frame.FrameArena InstructionFailure unit) (a : Frame.FrameArena) : Prop :=
  (exists a', m a = (Ok tt, a') /\ frame_ready a') \/ (divides = true /\ m a = (Err (Trap DivisionByZero), a)).

Lemma runs_load d r t k a : type_of r = Ok t -> kind t <> 8 -> frame_ready a -> (forall x, has_kind (kind t) x -> runs d (k x) a) ->
  runs d (load b rf r ≫= k) a.
Proof. intros Ht Hk Hr H. destruct (load_ok r t a Ht Hk Hr) as (x & Hx & Hkx). unfold runs. rewrite (st_bind_ok _ _ _ x a Hx). by apply H. Qed.

Lemma runs_settle d r t o a : type_of r = Ok t -> kind t <> 8 -> frame_ready a -> settles d (kind t) o ->
  runs d (v ← st_lift o; store b rf r v) a.
Proof.
  intros Ht Hk Hr [(v & -> & Hv)|[Hd ->]]; [left|by right]. rewrite (st_bind_ok _ _ _ v a) by done. by apply (store_ok r t).
Qed.

Lemma runs_binary d dst lhs rhs td tl tr body a : type_of dst = Ok td -> type_of lhs = Ok tl -> type_of rhs = Ok tr ->
  kind td <> 8 -> kind tl <> 8 -> kind tr <> 8 -> frame_ready a ->
  (forall x y, has_kind (kind tl) x -> has_kind (kind tr) y -> settles d (kind td) (body x y)) -> runs d (binary b rf dst lhs rhs body) a.
Proof.
  intros Hd Hl Hr Kd Kl Kr Ha H. unfold binary. apply (runs_load d lhs tl); [done..|]. intros x Hx. apply (runs_load d rhs tr); [done..|].
  intros y Hy. apply (runs_settle d dst td); auto.
Qed.

(** ** What the verifier has seen *)

Lemma kind_required r k t : require_kind limits module_id function_id f r k = Ok t -> type_of r = Ok t /\ kind t = k.
Proof. unfold require_kind. intros (v & Hv & H)%outcome_bind_inv. destruct (Z.eqb_spec (kind v) k) as [E|]; [|done]. by injection H as <-. Qed.

Lemma lift_ok {S E A} (o : outcome E A) (s : S) x s' : st_lift o s = (Ok x, s') -> o = Ok x.
Proof. unfold st_lift. intros H. by injection H. Qed.

Lemma reject_ok {S E} c (e : E) (s : S) u s' : reject c e s = (Ok u, s') -> c = false.
Proof. unfold reject. by destruct c. Qed.

Ltac seen := run_inv; repeat match goal with
  | H : st_lift _ _ = (Ok _, _) |- _ => apply lift_ok in H; run_inv
  | H : reject _ _ _ = (Ok _, _) |- _ => apply reject_ok in H
  | H : require_kind _ _ _ _ _ _ = Ok _ |- _ => apply kind_required in H as [? H]
  | H : read _ _ _ _ _ _ = (Ok _, _) |- _ => clear H
  | H : write _ _ _ _ _ _ = (Ok _, _) |- _ => clear H
  end.

Lemma form_kind_inline form : numeric_form_kind form <> 8.
Proof. unfold numeric_form_kind. destruct (Z.eqb_spec form 8); [lia|]. destruct (Z.eqb_spec form 9); lia. Qed.

Lemma form_kind_plain form : 1 <= form <= 4 -> numeric_form_kind form = form.
Proof. intros. unfold numeric_form_kind. by rewrite !(proj2 (Z.eqb_neq _ _)) by lia. Qed.

Lemma verify_binary_kinds form dst lhs rhs k s u s' : verify_binary limits module_id function_id f form dst lhs rhs k s = (Ok u, s') ->
  exists td tl tr, type_of dst = Ok td /\ type_of lhs = Ok tl /\ type_of rhs = Ok tr /\
    kind td = numeric_form_kind form /\ kind tl = numeric_form_kind form /\ kind tr = k.
Proof. unfold verify_binary. intros H. seen. eauto 12. Qed.

Lemma verify_comparison_kinds form dst lhs rhs s u s' : verify_comparison limits module_id function_id f form dst lhs rhs s = (Ok u, s') ->
  exists td tl tr, type_of dst = Ok td /\ type_of lhs = Ok tl /\ type_of rhs = Ok tr /\
    kind td = 5 /\ kind tl = numeric_form_kind form /\ kind tr = numeric_form_kind form.
Proof. unfold verify_comparison. intros H. seen. eauto 12. Qed.

(** An instruction with two operands, from the kinds and what the operation does with
    values of them. *)
Lemma two_operands d dst lhs rhs kd kl kr body a :
  (exists td tl tr, type_of dst = Ok td /\ type_of lhs = Ok tl /\ type_of rhs = Ok tr /\ kind td = kd /\ kind tl = kl /\ kind tr = kr) ->
  kd <> 8 -> kl <> 8 -> kr <> 8 -> frame_ready a ->
  (forall x y, has_kind kl x -> has_kind kr y -> settles d kd (body x y)) -> runs d (binary b rf dst lhs rhs body) a.
Proof. intros (td & tl & tr & Hd & Hl & Hr & <- & <- & <-) Kd Kl Kr Ha H. by apply (runs_binary d dst lhs rhs td tl tr). Qed.

Lemma run_arithmetic op form dst lhs rhs a s u s' : in_range 1 4 form || unsigned_form form = true -> frame_ready a ->
  verify_binary limits module_id function_id f form dst lhs rhs (numeric_form_kind form) s = (Ok u, s') ->
  runs (divides op) (binary b rf dst lhs rhs (fun x y => arithmetic form x y op)) a.
Proof.
  intros Hf Ha H%verify_binary_kinds. apply (two_operands _ _ _ _ _ _ _ _ _ H); try apply form_kind_inline; [done|].
  intros ? ?. apply arithmetic_ok. unfold in_range, unsigned_form in Hf. cbn [In]. bsimp. lia.
Qed.

Lemma run_bits op form dst lhs rhs a s u s' : in_range 1 2 form = true -> In op [Z.land; Z.lor; Z.lxor] -> frame_ready a ->
  verify_binary limits module_id function_id f form dst lhs rhs (numeric_form_kind form) s = (Ok u, s') ->
  runs false (binary b rf dst lhs rhs (fun x y => integer_binary form x y op)) a.
Proof.
  intros Hf Hop Ha H%verify_binary_kinds. apply (two_operands _ _ _ _ _ _ _ _ _ H); try apply form_kind_inline; [done|].
  assert (Hk : In form [1; 2]) by (unfold in_range in Hf; cbn [In]; bsimp; lia).
  assert (Ek : numeric_form_kind form = form) by (apply form_kind_plain; cbn [In] in Hk; lia). rewrite Ek.
  intros ? ?. by apply integer_binary_ok.
Qed.

Lemma run_shift op form dst lhs rhs a s u s' : in_range 1 2 form = true -> frame_ready a ->
  verify_binary limits module_id function_id f form dst lhs rhs 1 s = (Ok u, s') ->
  runs false (binary b rf dst lhs rhs (fun x y => shift form x y op)) a.
Proof.
  intros Hf Ha H%verify_binary_kinds. apply (two_operands _ _ _ _ _ _ _ _ _ H); try apply form_kind_inline; [done|done|].
  assert (Hk : In form [1; 2]) by (unfold in_range in Hf; cbn [In]; bsimp; lia).
  assert (Ek : numeric_form_kind form = form) by (apply form_kind_plain; cbn [In] in Hk; lia). rewrite Ek.
  intros ? ?. by apply shift_ok.
Qed.

Lemma run_compare op form dst lhs rhs a s u s' :
  (if equality op then in_range 1 6 form || unsigned_form form else in_range 1 4 form || (form =? 6) || unsigned_form form) = true ->
  frame_ready a -> verify_comparison limits module_id function_id f form dst lhs rhs s = (Ok u, s') ->
  runs false (binary b rf dst lhs rhs (fun x y => compare form x y op)) a.
Proof.
  intros Hf Ha H%verify_comparison_kinds. apply (two_operands _ _ _ _ _ _ _ _ _ H); try apply form_kind_inline; [done|done|].
  intros ? ?. apply compare_ok. unfold in_range, unsigned_form in Hf. cbn [In].
  destruct (equality op); bsimp; [destruct (Z.eq_dec form 5); [by right|]|]; lia.
Qed.

Lemma run_ref_compare body dst lhs rhs a s u s' : (forall x y, exists v, body x y = Ok (Value.Bool v)) -> frame_ready a ->
  verify_ref_comparison art limits module_id function_id f dst lhs rhs s = (Ok u, s') -> runs false (binary b rf dst lhs rhs body) a.
Proof.
  intros Hbody Ha H. unfold verify_ref_comparison in H. seen.
  apply (two_operands false dst lhs rhs 5 7 7); try done; [eauto 12|]. intros y z _ _. destruct (Hbody y z) as [v ->].
  apply settles_ok, kind_bool.
Qed.

Lemma run_neg form dst src a s u s' : in_range 1 4 form = true -> frame_ready a ->
  verify_neg limits module_id function_id f form dst src s = (Ok u, s') ->
  runs false (source ← load b rf src; v ← st_lift (negate form source); store b rf dst v) a.
Proof.
  intros Hf Ha H. unfold verify_neg in H. seen. assert (Hk : In form [1; 2; 3; 4]) by (unfold in_range in Hf; cbn [In]; bsimp; lia).
  assert (Ek : numeric_form_kind form = form) by (apply form_kind_plain; cbn [In] in Hk; lia).
  assert (form <> 8) by (cbn [In] in Hk; lia).
  eapply (runs_load false src); [done|congruence|done|]. intros ? Hx. eapply runs_settle; [done|congruence|done|].
  match goal with E : kind ?t = numeric_form_kind form |- settles _ (kind ?t) _ => rewrite E, Ek end.
  apply negate_ok; congruence.
Qed.

Lemma run_math_unary lib form op dst src a s u s' : FloatProps.libm_ok lib -> frame_ready a ->
  verify_math_unary art limits module_id function_id f form dst src s = (Ok u, s') ->
  runs false (execute_math_unary lib b rf form op dst src) a.
Proof.
  intros Hlib Ha H. unfold verify_math_unary in H. seen. unfold floating_form in *. assert (Hform : form = 3 \/ form = 4) by (bsimp; lia).
  eapply (runs_load false src); [done|lia|done|]. intros ? Hx. eapply runs_settle; [done|lia|done|].
  destruct Hform as [-> | ->]; repeat match goal with E : kind _ = _ |- _ => rewrite E in * end; of_kind Hx; cbn; apply settles_ok;
    [apply kind_f32|apply kind_f64]; apply FloatProps.unary_pattern; auto using FloatProps.F32_ok, FloatProps.F64_ok.
Qed.

Lemma run_math_binary lib form op dst lhs rhs a s u s' : FloatProps.libm_ok lib -> frame_ready a ->
  verify_math_binary art limits module_id function_id f form dst lhs rhs s = (Ok u, s') ->
  runs false (binary b rf dst lhs rhs (math_binary lib form op)) a.
Proof.
  intros Hlib Ha H. unfold verify_math_binary in H. seen. unfold floating_form in *. assert (Hform : form = 3 \/ form = 4) by (bsimp; lia).
  apply (two_operands false dst lhs rhs form form form); try lia; [eauto 12|done|]. intros ? ? Hx Hy.
  destruct Hform as [-> | ->]; of_kind Hx; of_kind Hy; cbn; apply settles_ok;
    [apply kind_f32|apply kind_f64]; apply FloatProps.binary_pattern; auto using FloatProps.F32_ok, FloatProps.F64_ok.
Qed.

Lemma run_convert form dst src a s u s' : in_range 0 3 form = true -> frame_ready a ->
  verify_convert art limits module_id function_id f form dst src s = (Ok u, s') -> runs false (execute_convert b rf form dst src) a.
Proof.
  intros Hf Ha H. unfold verify_convert in H. seen. rename a1 into ts, a2 into td.
  assert (Hc : convertible (kind ts) (kind td) = true) by (bsimp; by destruct (convertible _ _)).
  assert (Kinds : kind ts <> 8 /\ kind td <> 8) by (unfold convertible, numeric, in_range in Hc; bsimp; lia). destruct Kinds as [Ks Kd].
  destruct (type_value dst td Hrun1) as (v & Hv & Ev). unfold execute_convert, runs.
  assert (Hr : zget (registers rf) dst = Some (kind td)).
  { destruct resolved as (_ & _ & -> & _). unfold zget. by rewrite list_lookup_fmap, Hv, <- Ev. }
  rewrite Hr, (st_bind_ok _ _ _ (kind td) a) by done. eapply (runs_load false src); [done|done|done|]. intros ? Hx.
  eapply runs_settle; [done|done|done|]. eapply (signed_convert_ok _ (kind ts)); [|done| |done].
  - unfold in_range in Hf. cbn [In]. bsimp. lia.
  - intros Hbit. rewrite Hbit in *. bsimp. split; [naive_solver|]. intros E. rewrite E in *. naive_solver.
Qed.

Lemma run_null dst a s u s' : frame_ready a -> verify_null limits module_id function_id f dst s = (Ok u, s') -> runs false (store b rf dst Value.Null) a.
Proof.
  intros Ha H. unfold verify_null in H. seen. left. assert (Hk : kind a0 = 7) by (bsimp; by destruct (Z.eqb_spec (kind a0) 7)).
  apply (store_ok dst a0); [done|lia| |done]. rewrite Hk. apply kind_null.
Qed.

Lemma run_const consts off dst n a s u s' lo li offs : Forall (fun m => Forall constant_ok (Artifact.constants m)) (modules art) ->
  resolve_constants lo li 0 (modules art) = Ok consts ->
  offsets 0 ((fun m => Z.of_nat (length (Artifact.constants m))) <$> modules art) = Ok offs -> zget offs module_id = Some off ->
  0 <= module_id -> 0 <= n -> frame_ready a -> verify_const art limits module_id function_id f dst n s = (Ok u, s') ->
  runs false (v ← st_lift (ok_or (zget consts (off + n)) (Fault InvalidResolvedId)); store b rf dst v) a.
Proof.
  intros Hok Hcs Hoffs Hoff Hm0 Hn Ha H. unfold verify_const, module_at in H. seen.
  match goal with H1 : zget (modules art) _ = Some ?m, H2 : zget (Artifact.constants ?m) n = Some ?c, H3 : register_type _ _ _ _ dst = Ok ?t |- _ =>
    rename H1 into Hm, H2 into Hc, H3 into Ht; rename m into md, c into cst, t into td end.
  assert (Has : constant_assignable cst td = true) by (by destruct (constant_assignable _ _)).
  destruct (constants_lookup lo li (modules art) 0 0 consts offs (Z.to_nat module_id) off md (Z.to_nat n) cst) as (Hle & v & Hv & Hr); [done..|].
  assert (Hk : has_kind (kind td) v).
  { eapply resolved_constant; [|exact Hr|done].
    eapply (proj1 (Forall_lookup _ _) (proj1 (Forall_lookup _ _) Hok _ _ Hm)). exact Hc. }
  unfold runs. rewrite (st_bind_ok _ _ _ v a).
  - left. apply (store_ok dst td); [done| |done|done]. intros E. rewrite E in Hk. of_kind Hk.
  - unfold st_lift, zget. replace (Z.to_nat (off + n)) with (Z.to_nat (off - 0) + Z.to_nat n)%nat by lia. by rewrite Hv.
Qed.

(** ** Inline values *)

Lemma matching_kinds d lm l rm r : value_types_match art d lm l rm r = Ok true -> kind l = kind r.
Proof.
  destruct d; [done|]. cbn. destruct (Z.eqb_spec (kind l) (kind r)) as [|Hne]; [done|]. cbn. done.
Qed.

Lemma match_required lm l rm r d e : require_match art depth limits module_id function_id lm l rm r d = Ok e -> kind l = kind r.
Proof. unfold require_match. intros H. run_inv. eapply matching_kinds. by destruct a. Qed.

(** Matching inline types have the same layout. *)
Lemma matching_layout l r x : value_types_match art depth module_id l module_id r = Ok true -> layout_of_type l = Ok x -> layout_of_type r = Ok x.
Proof.
  intros H Hl. pose proof (matching_kinds _ _ _ _ _ H) as Hk'. destruct depth as [|d]; [done|]. cbn in H.
  unfold inline_layout in *. rewrite <- Hk' in *. destruct (Z.eqb_spec (kind l) 8) as [E|]; [|done]. rewrite E in H. cbn in H, Hl |- *.
  destruct (flags l =? flags r); [|done]. cbn in H. destruct (runtime_minor (header art) <? 15); [done|].
  destruct (resolved_type art module_id (nominal_type l)) as [[i|]| |]; cbn in H, Hl |- *; [|done..].
  destruct (resolved_type art module_id (nominal_type r)) as [[j|]| |]; cbn in H |- *; [|done..].
  destruct (type_at art i) as [ti| |] eqn:Ei; cbn in H, Hl |- *; [|done..]. destruct (type_at art j) as [tj| |] eqn:Ej; cbn in H |- *; [|done..].
  destruct ti; try done. injection H as H. apply bool_decide_eq_true in H. subst j. rewrite Ei in Ej. injection Ej as <-. done.
Qed.

(** The components of a register and their kinds. *)
Lemma register_components r v : values f !! Z.to_nat r = Some v -> exists cs, zget (Frame.fl_values (frame_layout rf)) r = Some cs /\
  length cs = length (kinds_of v) /\ forall j k c, kinds_of v !! j = Some k -> cs !! j = Some c -> slot (frame_layout rf) all_kinds (Z.to_nat r) j k c.
Proof.
  intros Hv. assert (Hks : all_kinds !! Z.to_nat r = Some (kinds_of v)) by (unfold all_kinds; by rewrite list_lookup_fmap, Hv).
  destruct (Forall2_lookup_l _ _ _ _ _ shape_all Hks) as (cs & Hcs & H). exists cs. split; [done|].
  split; [by rewrite (Forall2_length _ _ _ H)|]. intros j k c Hk Hc. split; eauto.
Qed.

Definition same_kind (c d : Frame.ComponentLayout) : Prop := exists k r j r' j',
  slot (frame_layout rf) all_kinds r j k c /\ slot (frame_layout rf) all_kinds r' j' k d.

Lemma copy_same c d a : same_kind c d -> frame_ready a -> exists a', Frame.copy_component b c b d a = (Ok tt, a') /\ frame_ready a'.
Proof.
  intros (k & r & j & r' & j' & Hc & Hd) Ha. destruct resolved as (Hl & _). by apply (copy_slot cap b _ _ Hl shape_all a r j k c r' j').
Qed.

Lemma faulting_ok {A} (m : ST Frame.FrameArena VmFault A) a x a' : m a = (Ok x, a') -> faulting m a = (Ok x, a').
Proof. unfold faulting. by intros ->. Qed.

Lemma copy_all cs ds : Forall2 same_kind cs ds -> forall a, frame_ready a -> exists a', Frame.copy_components b b cs ds a = (Ok tt, a') /\ frame_ready a'.
Proof.
  induction 1 as [|c d cs ds Hs _ IH]; intros a Ha; [by exists a|]. destruct (copy_same c d a Hs Ha) as (a1 & H1 & Ha1).
  cbn. rewrite (st_bind_ok _ _ _ tt a1) by done. by apply IH.
Qed.

Lemma run_move dst src a s u s' : frame_ready a -> verify_move art depth limits module_id function_id f dst src s = (Ok u, s') ->
  runs false (execute_move b rf dst src) a.
Proof.
  intros Ha H. unfold verify_move, require_match in H. seen.
  match goal with H1 : register_type _ _ _ _ dst = Ok ?t1, H2 : register_type _ _ _ _ src = Ok ?t2, H3 : value_types_match _ _ _ _ _ _ = Ok ?m |- _ =>
    rename H1 into Hd, H2 into Hs, H3 into Hm; rename t1 into td, t2 into ts; destruct m; [|done] end.
  pose proof (matching_kinds _ _ _ _ _ Hm) as Hk. destruct (type_value _ _ Hs) as (vs & Hvs & Es). destruct (type_value _ _ Hd) as (vd & Hvd & Ed).
  unfold execute_move. destruct resolved as (_ & _ & Hr & _).
  assert (Er : zget (registers rf) src = Some (kind ts)) by (unfold zget; by rewrite Hr, list_lookup_fmap, Hvs, <- Es).
  rewrite Er. destruct (Z.eqb_spec (kind ts) 8) as [E8|Hne]; cbn [negb].
  2:{ eapply (runs_load false src); [done..|]. intros x Hx. left. apply (store_ok dst td); [done|congruence|by rewrite Hk|done]. }
  destruct (register_components src vs Hvs) as (cs & Hcs & Hlc & Hsc). destruct (register_components dst vd Hvd) as (ds & Hds & Hld & Hsd).
  assert (Ek : kinds_of vs = kinds_of vd).
  { unfold kinds_of. rewrite Es, Ed, Hk, E8. cbn. pose proof (shape_at _ _ Hvd) as Hok. unfold verify_shape in Hok. rewrite Ed, Hk, E8 in Hok. cbn in Hok.
    apply outcome_bind_inv in Hok as ([lm l] & Hl & _). by rewrite Hl, (matching_layout _ _ _ Hm Hl). }
  destruct (copy_all cs ds) with (a := a) as (a' & Hcopy & Ha'); [|done|].
  { apply Forall2_same_length_lookup. split; [congruence|]. intros j c d Hc Hd'.
    destruct (lookup_lt_is_Some_2 (kinds_of vs) j) as [k Hkj]; [apply lookup_lt_Some in Hc; lia|].
    exists k, (Z.to_nat src), j, (Z.to_nat dst), j. split; [by apply Hsc|apply Hsd; [congruence|done]]. }
  left. exists a'. split; [|done]. unfold layout_of. rewrite Hcs, Hds. rewrite (st_bind_ok _ _ _ cs a), (st_bind_ok _ _ _ ds a) by done.
  apply faulting_ok. unfold Frame.copy_value. assert (El : length cs = length ds) by congruence. by rewrite El, Nat.eqb_refl.
Qed.

Lemma inline_kinds v lm l : layout_of_type (semantic_type v) = Ok (lm, l) -> kinds_of v = kind <$> l.
Proof. intros Hl. unfold kinds_of. rewrite Hl. unfold inline_layout in Hl. by destruct (kind (semantic_type v) =? 8). Qed.

Lemma inline_scalar r v lm l j e : values f !! Z.to_nat r = Some v -> layout_of_type (semantic_type v) = Ok (lm, l) -> l !! j = Some e -> kind e <> 8.
Proof.
  intros Hv Hl He E. pose proof (shape_kinds v (proj1 (Forall_lookup _ _) Hscalar _ _ Hv) (shape_at _ _ Hv)) as H.
  rewrite (inline_kinds v lm l Hl) in H.
  apply (Forall2_lookup_l _ _ _ j (kind e)) in H as (at_ & _ & Ha); [rewrite E in Ha; done|by rewrite list_lookup_fmap, He].
Qed.

(** The one component of a scalar register and a component of its kind. *)
Lemma scalar_same s ts r vr j e d ds : type_of s = Ok ts -> kind ts = kind e -> kind e <> 8 -> values f !! Z.to_nat r = Some vr ->
  zget (Frame.fl_values (frame_layout rf)) r = Some ds -> kinds_of vr !! j = Some (kind e) -> ds !! j = Some d ->
  exists c cs, zget (Frame.fl_values (frame_layout rf)) s = Some cs /\ head cs = Some c /\ same_kind c d /\ same_kind d c.
Proof.
  intros Hs Ek Hne Hvr Hds Hk Hd. destruct (scalar_slot s ts Hs) as (cs & c & Hcs & Hhd & _ & Hslot); [congruence|]. exists c, cs.
  split; [done|]. split; [done|]. destruct (register_components r vr Hvr) as (ds' & Hds' & _ & Hsl). rewrite Hds in Hds'. injection Hds' as <-.
  pose proof (Hsl j _ d Hk Hd) as Hsd. rewrite Ek in Hslot. split; unfold same_kind; eauto 10.
Qed.

Lemma construct_ok dst vd l : values f !! Z.to_nat dst = Some vd -> (exists lm, layout_of_type (semantic_type vd) = Ok (lm, l)) ->
  forall sources ds rest before, zget (Frame.fl_values (frame_layout rf)) dst = Some (before ++ ds) -> l = take (length before) l ++ rest ->
  length ds = length rest -> forall lm s u s' a, construct_components art depth limits module_id function_id f lm sources rest s = (Ok u, s') ->
  frame_ready a -> exists a', construct b rf sources ds a = (Ok tt, a') /\ frame_ready a'.
Proof.
  intros Hvd (lm0 & Hl) sources. pose proof (inline_kinds _ _ _ Hl) as Hkinds.
  induction sources as [|s sources IH]; intros ds rest before Hds Hrest Hlen lm st u st' a H Ha; [by exists a|].
  destruct ds as [|d ds]; [by exists a|]. destruct rest as [|e rest]; [done|]. cbn in H. seen.
  match goal with H1 : register_type _ _ _ _ s = Ok ?t, H2 : require_match _ _ _ _ _ _ _ _ _ _ = Ok _ |- _ =>
    rename H1 into Hs, H2 into Hm; rename t into ts; apply match_required in Hm end.
  assert (Hb : length (take (length before) l) = length before).
  { apply (f_equal length) in Hrest. rewrite length_app, length_take in *. cbn in Hrest. lia. }
  assert (He : l !! length before = Some e) by (rewrite Hrest, lookup_app_r, Hb, Nat.sub_diag by lia; done).
  destruct (scalar_same s ts dst vd (length before) e d _ Hs Hm (inline_scalar dst vd _ _ _ _ Hvd Hl He) Hvd Hds) as (c & cs & Hcs & Hhd & Hsame & _).
  { by rewrite Hkinds, list_lookup_fmap, He. }
  { by rewrite lookup_app_r, Nat.sub_diag by lia. }
  destruct (copy_same c d a Hsame Ha) as (a1 & Hcopy & Ha1). cbn. rewrite Hcs. bind_simp. rewrite Hhd.
  rewrite (st_bind_ok _ _ _ c a) by done. rewrite (st_bind_ok _ _ _ tt a1) by (by apply faulting_ok).
  eapply (IH ds rest (before ++ [d])); [by rewrite <- app_assoc| |by injection Hlen|done|done].
  rewrite length_app, Nat.add_1_r. rewrite Hrest at 1. rewrite (take_S_r _ _ e He), <- app_assoc. done.
Qed.

Lemma run_inline_construct dst sources a s u s' : frame_ready a ->
  verify_inline_construct art depth limits module_id function_id f dst sources s = (Ok u, s') -> runs false (execute_inline_construct b rf dst sources) a.
Proof.
  intros Ha H. unfold verify_inline_construct in H. run_inv. destruct a1 as [lm l]. seen.
  match goal with H1 : register_type _ _ _ _ dst = Ok ?t, H2 : inline_layout _ _ _ _ ?t = Ok _, H3 : negb (length sources =? _)%nat = false |- _ =>
    rename H1 into Hd, H2 into Hl, H3 into Hn; rename t into td end.
  apply negb_false_iff, Nat.eqb_eq in Hn. destruct (type_value _ _ Hd) as (vd & Hvd & <-).
  destruct (register_components dst vd Hvd) as (ds & Hds & Hlen & _). rewrite (inline_kinds vd lm l Hl), length_fmap in Hlen.
  match goal with H : construct_components _ _ _ _ _ _ _ _ _ _ = _ |- _ =>
    destruct (construct_ok dst vd l Hvd (ex_intro _ lm Hl) sources ds l [] Hds eq_refl Hlen _ _ _ _ a H Ha) as (a' & Hc & Ha') end.
  left. exists a'. split; [|done]. unfold execute_inline_construct, layout_of. rewrite Hds, (st_bind_ok _ _ _ ds a) by done.
  by rewrite Hn, Hlen, Nat.eqb_refl.
Qed.

Lemma run_inline_component dst src n a s u s' : frame_ready a ->
  verify_inline_component art depth limits module_id function_id f dst src n s = (Ok u, s') -> runs false (execute_inline_component b rf dst src n) a.
Proof.
  intros Ha H. unfold verify_inline_component in H. run_inv. destruct a2 as [lm l]. seen.
  match goal with H1 : register_type _ _ _ _ src = Ok ?t, H2 : inline_layout _ _ _ _ ?t = Ok _, H3 : zget l n = Some ?e, H4 : register_type _ _ _ _ dst = Ok ?t',
    H5 : require_match _ _ _ _ _ _ _ _ _ _ = Ok _ |- _ =>
    rename H1 into Hs, H2 into Hl, H3 into He, H4 into Hd; rename t into ts, t' into td, e into ex; apply match_required in H5; rename H5 into Hm end.
  destruct (type_value _ _ Hs) as (vs & Hvs & <-). destruct (register_components src vs Hvs) as (cs & Hcs & Hlen & _).
  pose proof (inline_kinds _ _ _ Hl) as Hk. rewrite Hk, length_fmap in Hlen.
  destruct (lookup_lt_is_Some_2 cs (Z.to_nat n)) as [c Hc]; [apply lookup_lt_Some in He; lia|].
  destruct (scalar_same dst td src vs (Z.to_nat n) ex c cs Hd) as (d & ds & Hds & Hhd & _ & Hsame); try done.
  { by eapply (inline_scalar src vs). }
  { unfold zget in He. by rewrite Hk, list_lookup_fmap, He. }
  destruct (copy_same c d a Hsame Ha) as (a' & Hcopy & Ha'). left. exists a'. split; [|done].
  unfold execute_inline_component. rewrite Hcs, Hds. bind_simp. unfold zget. rewrite Hc, Hhd.
  rewrite (st_bind_ok _ _ _ c a), (st_bind_ok _ _ _ d a) by done. by apply faulting_ok.
Qed.

(** ** Matrices *)

Definition format_of (k : Z) : Float.format := if k =? 3 then Float.F32 else Float.F64.

Lemma format_of_ok k : FloatProps.format_ok (format_of k).
Proof. unfold format_of. destruct (k =? 3); [apply FloatProps.F32_ok|apply FloatProps.F64_ok]. Qed.

Lemma zero_pattern fmt : FloatProps.format_ok fmt -> FloatProps.is_pattern fmt 0.
Proof. intros Hf. unfold FloatProps.is_pattern. split; [done|]. apply Z.pow_pos_nonneg; [lia|]. destruct Hf as (? & _ & ?). unfold FloatProps.width, Float.sign_bit. lia. Qed.

Lemma element_pattern fmt xs i : FloatProps.format_ok fmt -> Forall (FloatProps.is_pattern fmt) xs -> FloatProps.is_pattern fmt (element xs i).
Proof.
  intros Hf Hx. unfold element, zget. destruct (xs !! Z.to_nat i) as [x|] eqn:E; cbn; [by apply (proj1 (Forall_lookup _ _) Hx _ _ E)|].
  by apply zero_pattern.
Qed.

Lemma dot_pattern fmt o l r row column : FloatProps.format_ok fmt -> FloatProps.is_pattern fmt (dot fmt o l r row column).
Proof.
  intros Hf. unfold dot. set (acc := Float.mul fmt _ _). assert (H : FloatProps.is_pattern fmt acc) by (by apply FloatProps.mul_pattern).
  clearbody acc. revert acc H. induction (seqZ 1 _) as [|k ks IH]; intros acc H; [done|]. cbn. apply IH. by apply FloatProps.add_pattern.
Qed.

Lemma evaluate_pattern fmt o l r : FloatProps.format_ok fmt -> Forall (FloatProps.is_pattern fmt) l -> Forall (FloatProps.is_pattern fmt) (evaluate fmt o l r).
Proof.
  intros Hf Hl. unfold evaluate. apply Forall_fmap, Forall_forall. intros i _. cbn. destruct (_ <? _); [|by apply zero_pattern].
  destruct (is_transpose o); [by apply element_pattern|by apply dot_pattern].
Qed.

(** A register whose components all are of the scalar kind [k]. *)
Definition vector (k r count : Z) : Prop := exists v, values f !! Z.to_nat r = Some v /\ Z.of_nat (length (kinds_of v)) = count /\
  Forall (fun k' => k' = k) (kinds_of v).

Lemma check_vector o r count u : check_matrix art limits module_id function_id f o r count = Ok u -> vector (scalar_kind o) r count.
Proof.
  unfold check_matrix. intros H. run_inv. destruct a0 as [lm l]. run_inv. apply orb_false_iff in H as [Hn He]. apply negb_false_iff, Z.eqb_eq in Hn.
  match goal with H : register_type _ _ _ _ _ = Ok _ |- _ => destruct (type_value _ _ H) as (v & Hv & <-) end. exists v. split; [done|].
  match goal with H : layout_of_type _ = Ok _ |- _ => rewrite (inline_kinds v lm l H) end. split; [by rewrite length_fmap|].
  apply Forall_fmap, Forall_forall. intros t Ht. cbn. destruct (Z.eq_dec (kind t) (scalar_kind o)) as [|Hne]; [done|].
  enough (existsb (fun v => negb (kind v =? scalar_kind o)) l = true) by congruence. apply existsb_exists. exists t.
  split; [by apply list_elem_of_In|]. by rewrite (proj2 (Z.eqb_neq _ _) Hne).
Qed.

Lemma read_components_ok k cs a : k = 3 \/ k = 4 -> frame_ready a ->
  Forall (fun c => exists r j, slot (frame_layout rf) all_kinds r j k c) cs ->
  exists bits, read_components b k a cs = Ok bits /\ length bits = length cs /\ Forall (FloatProps.is_pattern (format_of k)) bits.
Proof.
  intros Hk Ha. induction 1 as [|c cs (r & j & Hs) _ (bits & Hb & Hl & Hp)]; [exists []; done|].
  destruct (read_slot cap b (frame_layout rf) all_kinds shape_all a _ _ _ _ Hs Ha) as (x & Hx & Hkx).
  pose proof (slot_atom (frame_layout rf) all_kinds shape_all _ _ _ _ Hs) as Hat. cbn. unfold Frame.read_component_value.
  assert (Ek : Frame.kind_of_atom (Frame.c_atom c) = k) by (destruct Hk as [-> | ->]; cbn in Hat; injection Hat as <-; done).
  rewrite Ek, Hx. cbn. destruct Hk as [-> | ->]; of_kind Hkx; cbn; rewrite Hb; cbn;
    (eexists; split; [reflexivity|]; split; [cbn; congruence|by constructor]).
Qed.

Lemma read_matrix_ok k r count a : k = 3 \/ k = 4 -> vector k r count -> frame_ready a ->
  exists bits, read_matrix b rf k r count a = Ok bits /\ Forall (FloatProps.is_pattern (format_of k)) bits.
Proof.
  intros Hk (v & Hv & Hn & Hall) Ha. destruct (register_components r v Hv) as (cs & Hcs & Hlen & Hsl).
  destruct (read_components_ok k cs a Hk Ha) as (bits & Hb & _ & Hp).
  { apply Forall_lookup. intros j c Hc. destruct (lookup_lt_is_Some_2 (kinds_of v) j) as [k' Hk']; [apply lookup_lt_Some in Hc; lia|].
    pose proof (proj1 (Forall_lookup _ _) Hall _ _ Hk') as Heq. cbn in Heq. subst k'. exists (Z.to_nat r), j. by apply Hsl. }
  eexists. unfold read_matrix, layout_of. rewrite Hcs. bind_simp. rewrite Hlen, Hn, Z.eqb_refl. cbn [negb]. rewrite Hb. split; [reflexivity|].
  apply Forall_app. split; [done|]. apply Forall_replicate, zero_pattern, format_of_ok.
Qed.

Lemma write_matrix_ok k dst count : k = 3 \/ k = 4 -> vector k dst count -> forall bits index a, 0 <= index -> index + Z.of_nat (length bits) <= count ->
  Forall (FloatProps.is_pattern (format_of k)) bits -> frame_ready a -> exists a', write_matrix b rf k dst index bits a = (Ok tt, a') /\ frame_ready a'.
Proof.
  intros Hk (v & Hv & Hn & Hall). destruct (register_components dst v Hv) as (cs & Hcs & Hlen & Hsl). destruct resolved as (Hlayout & _).
  induction bits as [|x bits IH]; intros index a Hi Hc Hp Ha; [by exists a|]. cbn [length] in Hc. apply Forall_cons in Hp as [Hx Hp].
  destruct (lookup_lt_is_Some_2 (kinds_of v) (Z.to_nat index)) as [k' Hk']; [lia|].
  pose proof (proj1 (Forall_lookup _ _) Hall _ _ Hk') as Heq. cbn in Heq. subst k'.
  destruct (lookup_lt_is_Some_2 cs (Z.to_nat index)) as [c Hcj]; [lia|]. pose proof (Hsl _ _ _ Hk' Hcj) as Hs.
  assert (Hw : exists p y, Frame.physical_of k y = Some p /\ value_ok y /\
    (if k =? 3 then Frame.write_f32 b (frame_layout rf) dst index x else Frame.write_f64 b (frame_layout rf) dst index x) =
    Frame.write_component b (frame_layout rf) dst index p).
  { destruct Hk as [-> | ->]; [exists (Frame.PF32 x), (Value.F32 x)|exists (Frame.PF64 x), (Value.F64 x)]; split_and!; done. }
  destruct Hw as (p & y & Hpy & Hy & Ew).
  destruct (write_component_slot cap b (frame_layout rf) all_kinds Hlayout shape_all a _ _ _ _ _ _ Hs Ha Hpy Hy) as (a1 & Hw & Ha1).
  cbn. rewrite Ew. rewrite (st_bind_ok _ _ _ tt a1).
  - apply IH; [lia|lia|done|done].
  - apply faulting_ok. rewrite <- Hw. unfold Frame.write_component, Frame.component, zget. by rewrite !Nat2Z.id.
Qed.

Lemma run_matrix o dst lhs rhs a s u s' : frame_ready a -> verify_matrix art limits module_id function_id f o dst lhs rhs s = (Ok u, s') ->
  runs false (execute_matrix b rf o dst lhs rhs) a.
Proof.
  intros Ha H. unfold verify_matrix in H. seen.
  assert (Hk : scalar_kind o = 3 \/ scalar_kind o = 4) by (unfold scalar_kind; destruct (_ <=? _); auto).
  repeat match goal with H : check_matrix _ _ _ _ _ _ _ _ = Ok _ |- _ => apply check_vector in H end.
  match goal with H1 : vector _ lhs _, H2 : vector _ dst _, H3 : _ = (Ok _, _) |- _ => rename H1 into Hl, H2 into Hd, H3 into Hr end.
  destruct (read_matrix_ok _ _ _ a Hk Hl Ha) as (left & Hleft & Pl). unfold execute_matrix, runs.
  rewrite (st_bind_ok _ _ _ left a) by (unfold st_read; by rewrite Hleft).
  assert (Hright : exists right, (match rhs with
    | Some rhs => count ← st_lift (ok_or (right_components o) (Fault InvalidValueType)); st_read (read_matrix b rf (scalar_kind o) rhs count)
    | None => mret (replicate 16 0) end : ST Frame.FrameArena InstructionFailure (list Z)) a = (Ok right, a)).
  { destruct rhs as [rhs|]; [|by eexists]. seen. repeat match goal with H : check_matrix _ _ _ _ _ _ rhs _ = Ok _ |- _ => apply check_vector in H end.
    match goal with H1 : vector _ rhs ?c, H2 : right_components o = Some ?c |- _ => rewrite H2; destruct (read_matrix_ok _ _ _ a Hk H1 Ha) as (right & Hrd & _) end.
    exists right. rewrite (st_bind_ok _ _ _ _ a) by reflexivity. unfold st_read. by rewrite Hrd. }
  destruct Hright as (right & Hright). rewrite (st_bind_ok _ _ _ right a Hright). left.
  apply (write_matrix_ok _ _ _ Hk Hd); [done| | |done].
  - assert (0 <= result_components o) by (by destruct o). rewrite length_take. lia.
  - apply Forall_take. by apply evaluate_pattern; [apply format_of_ok|].
Qed.

End Registers.

(** A frame that was just pushed is ready: zero is a value of every kind. *)
Lemma zero_word n : le_val (replicate n 0) = 0.
Proof. induction n as [|n IH]; [done|]. cbn. by rewrite IH. Qed.

Lemma zero_slot a b c k : 0 <= b -> 0 <= Frame.c_offset c -> Frame.arena_len a <= u32_max ->
  knows a (b + Frame.c_offset c) (replicate (Z.to_nat (Frame.byte_size (Frame.c_atom c))) 0) ->
  physical_atom k = Some (Frame.c_atom c) -> slot_ok b a k c.
Proof.
  intros Hb Ho Hm Hk Hp. pose proof (byte_size_pos (Frame.c_atom c)). unfold slot_ok.
  rewrite (read_access_bytes a b c (replicate (Z.to_nat (Frame.byte_size (Frame.c_atom c))) 0)); try done; [|rewrite length_replicate; lia].
  cbv beta zeta. rewrite zero_word. unfold physical_atom in Hp.
  destruct (Z.eqb_spec k 1) as [->|]; [injection Hp as <-; exists (Value.I32 0); by auto using kind_i32|].
  destruct (Z.eqb_spec k 5) as [->|]; [injection Hp as <-; exists (Value.Bool false); by auto using kind_bool|].
  destruct (Z.eqb_spec k 6) as [->|]; [injection Hp as <-; exists (Value.Char 0); by auto using kind_char|]. cbn in Hp.
  destruct (Z.eqb_spec k 2) as [->|]; [injection Hp as <-; exists (Value.I64 0); by auto using kind_i64|].
  destruct (Z.eqb_spec k 3) as [->|]; [injection Hp as <-; exists (Value.F32 0); by auto using kind_f32|].
  destruct (Z.eqb_spec k 4) as [->|]; [injection Hp as <-; exists (Value.F64 0); by auto using kind_f64|].
  destruct (Z.eqb_spec k 7) as [->|]; [injection Hp as <-; exists Value.Null; by auto using kind_null|done].
Qed.

Lemma fresh_ready cap b layout kss a F n : layout_ok layout ->
  Forall2 (Forall2 (fun k c => physical_atom k = Some (Frame.c_atom c))) kss (Frame.fl_values layout) ->
  holds a cap F -> F !! b = Some (replicate n 0) -> Frame.fl_byte_len layout <= Z.of_nat n -> ready cap b layout kss a.
Proof.
  intros (hi & Hhi & Ho) Hs Ha Hb Hn. exists F, (replicate n 0). split; [done|]. split; [done|]. split; [by rewrite length_replicate|].
  intros p k c Hk Hc. destruct (holds_knows _ _ _ _ _ Ha Hb) as (Hkn & Hb0 & Hm). pose proof (byte_size_pos (Frame.c_atom c)).
  pose proof (ordered_in _ _ _ _ Ho (list_elem_of_lookup_2 _ _ _ Hc)) as Hin.
  apply zero_slot; [done|lia|done| |].
  - assert (E : slice (Frame.c_offset c) (Frame.byte_size (Frame.c_atom c)) (replicate n 0) = replicate (Z.to_nat (Frame.byte_size (Frame.c_atom c))) 0).
    { unfold slice. rewrite drop_replicate, take_replicate. f_equal. lia. }
    rewrite <- E. apply knows_part; [done|done|lia|lia|]. rewrite length_replicate. lia.
  - assert (H2 : Forall2 (fun k c => physical_atom k = Some (Frame.c_atom c)) (concat kss) (concat (Frame.fl_values layout))).
    { clear -Hs. induction Hs; [constructor|]. cbn. by apply Forall2_app. }
    by apply (Forall2_lookup_lr _ _ _ _ _ _ H2 Hk Hc).
Qed.

(** ** The instructions *)

(** The instructions of [execute_scalar] other than the two that read strings. *)
Definition scalar (i : Instruction) : bool :=
  match i with
  | Nop | Move _ _ | Const _ _ | Null _ | InlineConstruct _ _ | InlineComponent _ _ _ | MatrixMath _ _ _ _ | MathUnary _ _ _ _
  | MathBinary _ _ _ _ _ | Convert _ _ _ | Add _ _ _ _ | Sub _ _ _ _ | Mul _ _ _ _ | Div _ _ _ _ | Rem _ _ _ _ | Neg _ _ _
  | BitAnd _ _ _ _ | BitOr _ _ _ _ | BitXor _ _ _ _ | ShiftLeft _ _ _ _ | ShiftRight _ _ _ _ | ShiftUnsigned _ _ _ _
  | Equal _ _ _ _ | NotEqual _ _ _ _ | Less _ _ _ _ | LessEqual _ _ _ _ | Greater _ _ _ _ | GreaterEqual _ _ _ _
  | RefEqual _ _ _ | RefNotEqual _ _ _ => true
  | _ => false
  end.

Definition division (i : Instruction) : bool := match i with Div _ _ _ _ | Rem _ _ _ _ => true | _ => false end.

(** What the image holds of the constants of an artifact; module [module_id]'s start at
    [off]. *)
Record constants_resolved (art : DecodedArtifact) (module_id : Z) (consts : list Value.RuntimeValue) (off : Z) : Prop := {
  cr_module : 0 <= module_id;
  cr_values : Forall (fun m => Forall constant_ok (Artifact.constants m)) (modules art);
  cr_resolved : exists literal_offsets literal_ids, resolve_constants literal_offsets literal_ids 0 (modules art) = Ok consts;
  cr_offset : exists offs, offsets 0 ((fun m => Z.of_nat (length (Artifact.constants m))) <$> modules art) = Ok offs /\ zget offs module_id = Some off;
}.

(** C14. Verified scalar code is type safe, for functions in which the components of
    each register are those of its type.  For registers of an inline class the
    verifier checks that ([verify_shapes]); that a register of any other type has the
    one component of its kind it does not check, and it is assumed here
    ([scalar_shape]).  Take an instruction the decoder produced and the verifier
    accepted, any that [execute_scalar] runs but for [StringLength] and [StringGet],
    which read the heap, and a frame whose components hold values of their kinds, such
    as one just pushed.  [execute_scalar] then never faults and never panics: it runs
    and leaves such a frame, or, for a division or remainder, it traps with a division
    by zero and leaves the frame as it was. *)
Theorem scalar_safe lib img art depth limits climits module_id function_id f rf consts off heap cap b result_module result i st st' a :
  FloatProps.libm_ok lib -> constants_resolved art module_id consts off ->
  Scalar.resolve_function f = Ok rf -> Forall scalar_shape (values f) -> verify_shapes art limits module_id function_id (values f) = Ok tt ->
  CodeProps.instruction_ok climits i -> scalar i = true ->
  verify_instruction art depth limits module_id function_id f result_module result i st = (Ok tt, st') ->
  ready cap b (frame_layout rf) (all_kinds art limits module_id function_id f) a ->
  (exists a', execute_scalar lib img consts off heap b rf i a = (Ok tt, a') /\
              ready cap b (frame_layout rf) (all_kinds art limits module_id function_id f) a') \/
  (division i = true /\ execute_scalar lib img consts off heap b rf i a = (Err (Trap DivisionByZero), a)).
Proof.
  intros Hlib [Hm0 Hcok (lo & li & Hres) (offs & Hoffs & Hoff)] Hrf Hscalar Hshapes (Hform & Hops & _) Hi Hv Ha. unfold verify_instruction in Hv.
  apply st_bind_inv in Hv as ([] & s1 & _ & Hv). apply st_bind_inv in Hv as ([] & s2 & _ & Hv).
  change (runs art limits module_id function_id f rf cap b (division i) (execute_scalar lib img consts off heap b rf i) a).
  destruct i; try discriminate Hi; cbn in Hv, Hform, Hops; cbn [execute_scalar division].
  all: try (first [eapply run_inline_construct|eapply run_inline_component|eapply run_move|eapply run_null|eapply run_matrix|eapply run_math_unary
    |eapply run_math_binary|eapply run_convert|eapply run_neg]; eassumption).
  all: try match goal with
    | |- context [arithmetic _ _ _ ?o] => eapply run_arithmetic with (op := o); eassumption
    | |- context [integer_binary _ _ _ ?o] => eapply run_bits with (op := o); [eassumption..|cbn [In]; tauto|eassumption|eassumption]
    | |- context [shift _ _ _ ?o] => eapply run_shift with (op := o); eassumption
    | |- context [compare _ _ _ ?o] => eapply run_compare with (op := o); eassumption
    end.
  - left. by exists a.
  - eapply run_const; try eassumption. apply Hops.
  - eapply run_ref_compare; try eassumption. intros. by eexists.
  - eapply run_ref_compare; try eassumption. intros. by eexists.
Qed.

(** A function with the frame [demo_layout] that loads a constant of the second module. *)
Definition loader : Artifact.Function := mkFunction NO_TYPE 0 0 0 3 0 0 1 0 1
  [mkValue (mkType 1 0 NO_TYPE) [Frame.AI32]; mkValue (mkType 7 1 0) [Frame.ARef32]; mkValue (mkType 2 0 NO_TYPE) [Frame.AI64]].
Definition constant_module (cs : list Constant) : DecodedModule := mkModule 0 0 [] 0 0 0 1 [] [] [] cs [] [] [] [loader] [] [] [] [] [].
Definition loader_artifact : DecodedArtifact :=
  mkArtifact [] [] (mkHeader 1 20 0 0 0 0 0 NoArguments) (mkManifest 0 0 1 1 0 0 5 5 0 0 [] [] 0 0) [] [constant_module [CI32 7]; constant_module [CI64 (-1)]].
Definition loader_resolved : ResolvedFunction := mkResolved [1; 7; 2] demo_layout
  [Frame.mkAccess 1 (Some (Frame.mkComponent 0 Frame.AI32)); Frame.mkAccess 7 (Some (Frame.mkComponent 4 Frame.ARef32));
   Frame.mkAccess 2 (Some (Frame.mkComponent 8 Frame.AI64))].
Definition no_image : Text.TextImage := Text.mkTextImage [] None [].

Lemma loader_constants : constants_resolved loader_artifact 1 [Value.I32 7; Value.I64 (-1)] 1.
Proof.
  split; [done| |exists [], []; done|exists [0; 1; 2]; done]. repeat constructor; done.
Qed.

Lemma loader_ready : ready 32 0 demo_layout (all_kinds loader_artifact limits_default 1 0 loader) demo_arena.
Proof.
  apply (fresh_ready 32 0 demo_layout _ demo_arena {[0 := replicate 16 0]} 16).
  - exists 16. split; [done|]. repeat split; done.
  - repeat constructor.
  - exact demo_arena_holds.
  - done.
  - done.
Qed.

Lemma scalar_safe_witness : let run := execute_scalar FloatProps.constant_libm no_image [Value.I32 7; Value.I64 (-1)] 1 HeapProps.demo_new 0 loader_resolved (Const 2 0) demo_arena in
  (exists a', run = (Ok tt, a') /\ ready 32 0 demo_layout (all_kinds loader_artifact limits_default 1 0 loader) a') \/
  (division (Const 2 0) = true /\ run = (Err (Trap DivisionByZero), demo_arena)).
Proof.
  apply (scalar_safe FloatProps.constant_libm no_image loader_artifact 1 limits_default (mkCodeLimits 16 16) 1 0 loader loader_resolved
    [Value.I32 7; Value.I64 (-1)] 1 HeapProps.demo_new 32 0 1 (mkType 0 0 NO_TYPE) (Const 2 0) [0] [4] demo_arena).
  - exact FloatProps.constant_libm_ok.
  - exact loader_constants.
  - vm_compute. reflexivity.
  - repeat (first [apply Forall_nil_2 | apply Forall_cons_2; [right; by eexists|]]).
  - vm_compute. reflexivity.
  - split; [reflexivity|]. split; [|vm_compute; discriminate]. cbn. unfold CodeProps.is_reg, CodeProps.is_id. split; vm_compute; done.
  - reflexivity.
  - vm_compute. reflexivity.
  - exact loader_ready.
Defined.

End ScalarSafe.
