(* ===== verification/Container.v ===== *)
(** src/artifact/format.rs, src/decode/container.rs and src/decode/indexed.rs: the
    container of an artifact, its fixed header, its directory of sections and its
    digest, and the sections of indexed records.

    The SHA-256 of the sha2 crate is the parameter [sha256].  Of it nothing is
    assumed. *)

From S2P Require Import Prelude Words Unicode Bytes BTree Value Frame Float Code Artifact.
Import Diagnostics Cursor Artifact.

Module Container.

(** ** src/artifact/format.rs *)

Definition HEADER_SIZE : Z := 64.
Definition DIRECTORY_ENTRY_SIZE : Z := 32.
Definition DIGEST_SIZE : Z := 32.
Definition FORMAT_MAJOR : Z := 3.
Definition RUNTIME_ABI_MAJOR : Z := 1.
Definition RUNTIME_ABI_MINOR : Z := 20.
Definition CRITICAL : Z := 1.
Definition KNOWN_FLAGS : Z := 3.
Definition KNOWN_FEATURES : Z := 0x3f.
Definition MANIFEST : Z := 0x0001.
Definition MODULES : Z := 0x0002.
Definition CAPABILITIES : Z := 0x0003.
Definition STRINGS : Z := 0x0100.
Definition TYPES : Z := 0x0101.
Definition CONSTANTS : Z := 0x0102.
Definition IMPORTS : Z := 0x0103.
Definition EXPORTS : Z := 0x0104.
Definition FIELDS : Z := 0x0105.
Definition FUNCTIONS : Z := 0x0106.
Definition BLOCKS : Z := 0x0107.
Definition CODE : Z := 0x0108.
Definition EXCEPTIONS : Z := 0x0109.
Definition UTF16_LITERALS : Z := 0x010a.
Definition SAFEPOINT_ROOTS : Z := 0x010b.
Definition DEBUG : Z := 0x0110.
Definition DEBUG_PATHS : Z := 0x0111.
Definition SAFEPOINT_ROOT_RANGES : Z := 0x0112.
Definition DEBUG_SOURCE_POSITIONS : Z := 0x8001.
Definition OPTIONAL_EXTENSION_START : Z := 0x8000.

Definition is_global (kind : Z) : bool := existsb (Z.eqb kind) [MANIFEST; MODULES; CAPABILITIES].
Definition is_module (kind : Z) : bool :=
  existsb (Z.eqb kind) [STRINGS; TYPES; CONSTANTS; IMPORTS; EXPORTS; FIELDS; FUNCTIONS; BLOCKS; CODE; EXCEPTIONS;
    UTF16_LITERALS; SAFEPOINT_ROOTS; DEBUG; DEBUG_PATHS; SAFEPOINT_ROOT_RANGES; DEBUG_SOURCE_POSITIONS].

(** ** Errors *)

(** [Result::map_err]. *)
Definition map_err {E F A} (f : E -> F) (o : outcome E A) : outcome F A :=
  match o with Ok a => Ok a | Err e => Err (f e) | Panic => Panic end.

(** The error of a read of the cursor, mapped. *)
Definition mapped {E F A} (f : E -> F) (m : ST Cursor E A) : ST Cursor F A := fun c =>
  let '(r, c') := m c in (map_err f r, c').

(** [single] of container.rs and of records.rs. *)
Definition single (limits : ArtifactLimits) (d : Diagnostic) : DiagnosticSet :=
  push (DiagnosticSet_new (Z.to_nat (max_diagnostics limits))) d.

(** [relocate] of container.rs and of records.rs. *)
Definition relocate (d : Diagnostic) (base : Z) : Diagnostic :=
  let l := location d in
  mkDiagnostic (family d) (Diagnostics.code d)
    (mkLocation (o ← offset l; checked_add u64_max o base) (section l) (module l) (function l) (block l) (instruction l))
    (detail d).

Definition diagnostic (f : Family) (c : Diagnostics.Code) (off : Z) (d : string) : Diagnostic := at_offset f c off (text d).

(** A diagnostic of the section [kind]. *)
Definition in_section (kind : Z) (d : Diagnostic) : Diagnostic :=
  let l := location d in
  mkDiagnostic (family d) (Diagnostics.code d) (mkLocation (offset l) (Some kind) (module l) (function l) (block l) (instruction l)) (detail d).

Definition align8 (value : Z) : option Z :=
  v ← checked_add usize_max value 7; Some (Z.ldiff v 7).

(** [a >= b] on the keys of the tables. *)
Definition ge {K} `{BTree.Ordered K} (a b : K) : bool := negb (bool_decide (BTree.lt a b)).

(** [windows(2).any(..)]. *)
Fixpoint windows2 {A} (bad : A -> A -> bool) (l : list A) : bool :=
  match l with
  | a :: (b :: _) as l' => bad a b || windows2 bad l'
  | _ => false
  end.

(** ** The container *)

Record DirectoryEntry := mkEntry {
  entry_kind : Z; entry_flags : Z; scope : Z; entry_offset : Z; entry_length : Z; element_count : Z }.

Record Container := mkContainer { container_bytes : list Z; container_header : Header; directory : list DirectoryEntry }.

Section Decode.
Context (sha256 : list Z -> list Z) (limits : ArtifactLimits).

Definition fail {A} (f : Family) (c : Diagnostics.Code) (off : Z) (d : string) : Dia A := Err (single limits (diagnostic f c off d)).

(** [cursor.read().map_err(|error| single(limits, error))]. *)
Definition plain {A} (m : Read A) : Code.Dec A := mapped (single limits) m.

Definition nonzero (bs : list Z) : bool := existsb (fun b => negb (b =? 0)) bs.

Definition read_header : Code.Dec Header :=
  magic ← plain (take 4);
  if negb (bool_decide (magic = text "CPKT")) then st_lift (fail Diagnostics.Container BadMagic 0 "magic is not CPKT") else
  format_major ← plain read_u16;
  _ ← plain read_u16;
  runtime_major ← plain read_u16;
  runtime_minor ← plain read_u16;
  header_size ← plain read_u16;
  directory_entry_size ← plain read_u16;
  section_count ← plain read_u32;
  semantic_features ← plain read_u32;
  directory_offset ← plain read_u64;
  payload_end ← plain read_u64;
  entry_module ← plain read_u32;
  entry_function ← plain read_u32;
  contract ← plain read_u8;
  entry_arguments ← st_lift (if contract =? 0 then Ok NoArguments else if contract =? 1 then Ok StringArray
                             else fail Diagnostics.Container UnsupportedVersion 48 "unsupported entry argument contract");
  reserved ← plain (take 15);
  if negb (format_major =? FORMAT_MAJOR) || (RUNTIME_ABI_MAJOR <? runtime_major)
    || ((runtime_major =? RUNTIME_ABI_MAJOR) && (RUNTIME_ABI_MINOR <? runtime_minor))
    || negb (Z.ldiff semantic_features KNOWN_FEATURES =? 0)
  then st_lift (fail Diagnostics.Container UnsupportedVersion 4 "unsupported format, runtime ABI, or feature bits")
  else if negb (header_size =? HEADER_SIZE) || negb (directory_entry_size =? DIRECTORY_ENTRY_SIZE)
    || negb (directory_offset =? HEADER_SIZE) || nonzero reserved
  then st_lift (fail Diagnostics.Container BadLength 12 "non-canonical fixed header fields")
  else if sections limits <? section_count
  then st_lift (fail Limit LimitExceeded 16 "section count limit exceeded")
  else mret (mkHeader runtime_major runtime_minor section_count semantic_features payload_end entry_module entry_function
               entry_arguments).

Definition decode_header (bytes : list Z) : Dia Header :=
  head ← expect (slice_get 0 HEADER_SIZE bytes);
  (read_header (cursor_new head)).1.

Definition check_zero (bytes : list Z) (start stop : Z) : Dia unit :=
  if match slice_get start stop bytes with Some padding => nonzero padding | None => true end
  then fail Diagnostics.Container BadDirectory start "alignment gap is missing or non-zero" else Ok tt.

Definition validate_entry (entry : DirectoryEntry) (reserved offset : Z) : Dia unit :=
  let kind := entry_kind entry in
  let known := is_global kind || is_module kind in
  if negb (reserved =? 0) || negb (Z.ldiff (entry_flags entry) KNOWN_FLAGS =? 0)
  then fail Diagnostics.Container BadDirectory offset "reserved directory bits are non-zero"
  else if (is_global kind && negb (scope entry =? 0)) || (is_module kind && (scope entry =? 0))
  then fail Section_ BadSection offset "section has the wrong scope"
  else
    _ ← (if known then
           let expected_flags :=
             if (kind =? DEBUG) || (kind =? DEBUG_SOURCE_POSITIONS) then 0
             else if (kind =? DEBUG_PATHS) || (kind =? SAFEPOINT_ROOT_RANGES) then CRITICAL
             else KNOWN_FLAGS in
           if negb (entry_flags entry =? expected_flags)
           then fail Section_ BadSection offset "known section has non-canonical flags" else Ok tt
         else if (kind <? OPTIONAL_EXTENSION_START) || negb (entry_flags entry =? 0)
         then fail Section_ BadSection offset "unknown required or semantic section" else Ok tt);
    if records_per_section limits <? element_count entry
    then fail Limit LimitExceeded (offset + 24) "section record limit exceeded" else Ok tt.

(** [cursor.read().map_err(|error| single(limits, relocate(error, HEADER_SIZE)))]. *)
Definition relocated {A} (m : Read A) : Code.Dec A := mapped (fun d => single limits (relocate d HEADER_SIZE)) m.

(** [for index in 0..count]: the entries from [index] on, after one with the key
    [previous]; the next section is to start at [expected_offset]. *)
Fixpoint directory_entries (n : nat) (bytes : list Z) (payload_end index : Z) (previous : option (Z * Z)) (expected_offset : Z)
    : Code.Dec (list DirectoryEntry) :=
  match n with
  | O => mret []
  | S n =>
      let at_ := HEADER_SIZE + index * DIRECTORY_ENTRY_SIZE in
      kind ← relocated read_u16;
      flags ← relocated read_u16;
      sc ← relocated read_u32;
      off ← relocated read_u64;
      len ← relocated read_u64;
      count ← relocated read_u32;
      reserved ← relocated read_u32;
      let entry := mkEntry kind flags sc off len count in
      _ ← st_lift (validate_entry entry reserved at_);
      let key := (sc, kind) in
      if match previous with Some p => ge p key | None => false end
      then st_lift (fail Diagnostics.Container BadDirectory at_ "directory keys are not strictly ordered") else
      offset ← st_lift (ok_or (try_from_unsigned usize_max off)
                          (single limits (diagnostic Diagnostics.Container BadDirectory (at_ + 8) "section offset does not fit usize")));
      length ← st_lift (ok_or (try_from_unsigned usize_max len)
                          (single limits (diagnostic Diagnostics.Container BadDirectory (at_ + 16) "section length does not fit usize")));
      if negb (offset =? expected_offset) || negb (offset mod 8 =? 0)
      then st_lift (fail Diagnostics.Container BadDirectory (at_ + 8) "section is not canonically packed and aligned") else
      stop ← st_lift (ok_or (checked_add usize_max offset length)
                        (single limits (diagnostic Diagnostics.Container BadDirectory (at_ + 16) "section range overflows usize")));
      if payload_end <? stop
      then st_lift (fail Diagnostics.Container BadDirectory (at_ + 16) "section extends beyond payload_end") else
      next ← st_lift (ok_or (align8 stop)
                        (single limits (diagnostic Diagnostics.Container BadDirectory at_ "section alignment overflows usize")));
      _ ← st_lift (check_zero bytes stop (Z.min next payload_end));
      rest ← directory_entries n bytes payload_end (index + 1) (Some key) next;
      mret (entry :: rest)
  end.

Definition decode_directory (bytes : list Z) (header : Header) : Dia (list DirectoryEntry) :=
  let count := section_count header in
  directory_bytes ← ok_or (checked_mul usize_max count DIRECTORY_ENTRY_SIZE)
                      (single limits (diagnostic Diagnostics.Container BadDirectory 16 "directory size overflows usize"));
  directory_end ← ok_or (checked_add usize_max HEADER_SIZE directory_bytes)
                    (single limits (diagnostic Diagnostics.Container BadDirectory 16 "directory end overflows usize"));
  let payload := payload_end header in
  if payload <? directory_end then fail Diagnostics.Container BadDirectory 16 "directory extends into trailer" else
  table ← expect (slice_get HEADER_SIZE directory_end bytes);
  expected_offset ← ok_or (align8 directory_end)
                      (single limits (diagnostic Diagnostics.Container BadDirectory directory_end "alignment overflows usize"));
  _ ← check_zero bytes directory_end expected_offset;
  entries ← (directory_entries (Z.to_nat count) bytes payload 0 None expected_offset (cursor_new table)).1;
  let last_end :=
    default (default directory_end (align8 directory_end))
      (e ← last entries; checked_add u64_max (entry_offset e) (entry_length e)) in
  if negb (last_end =? payload)
  then fail Diagnostics.Container BadDirectory directory_end "last section does not end at payload_end" else Ok entries.

Definition decode_container (bytes : list Z) : Dia Container :=
  let len := Z.of_nat (length bytes) in
  if artifact_bytes limits <? len then fail Limit LimitExceeded 0 "artifact byte limit exceeded" else
  if len <? HEADER_SIZE + DIGEST_SIZE
  then fail Diagnostics.Container BadLength 0 "artifact is shorter than header and digest" else
  header ← decode_header bytes;
  payload ← ok_or (try_from_unsigned usize_max (payload_end header))
              (single limits (diagnostic Diagnostics.Container BadLength 32 "payload_end does not fit host usize"));
  expected_length ← ok_or (checked_add usize_max payload DIGEST_SIZE)
                      (single limits (diagnostic Diagnostics.Container BadLength 32 "artifact length overflows usize"));
  if negb (expected_length =? len)
  then fail Diagnostics.Container BadLength 32 "payload_end does not match file length" else
  content ← expect (slice_get 0 payload bytes);
  trailer ← expect (slice_get payload len bytes);
  if negb (bool_decide (sha256 content = trailer))
  then fail Diagnostics.Container BadDigest payload "SHA-256 trailer mismatch" else
  entries ← decode_directory bytes header;
  Ok (mkContainer bytes header entries).

(** ** Indexed sections *)

Record IndexedSection := mkIndexed { indexed_kind : Z; offsets : list Z; records : list Z; records_offset : Z }.

(** [error] of indexed.rs. *)
Definition entry_error (entry : DirectoryEntry) (relative : Z) (c : Diagnostics.Code) (d : string) : Diagnostic :=
  let absolute := default relative (o ← try_from_unsigned usize_max (entry_offset entry); checked_add usize_max o relative) in
  let family := match c with LimitExceeded => Limit | _ => Section_ end in
  in_section (entry_kind entry) (diagnostic family c absolute d).

(** [read] of indexed.rs. *)
Definition section_read {A} (entry : DirectoryEntry) (section_offset : Z) (m : Read A) : Read A :=
  mapped (fun d =>
    let l := location d in
    mkDiagnostic Section_ (Diagnostics.code d)
      (mkLocation (o ← offset l; checked_add u64_max o section_offset) (Some (entry_kind entry)) (module l) (function l)
         (block l) (instruction l)) (detail d)) m.

Definition indexed_payload (bytes : list Z) (entry : DirectoryEntry) : outcome Diagnostic (Z * list Z) :=
  section_offset ← ok_or (try_from_unsigned usize_max (entry_offset entry)) (entry_error entry 0 BadRecord "section offset does not fit usize");
  section_length ← ok_or (try_from_unsigned usize_max (entry_length entry)) (entry_error entry 0 BadRecord "section length does not fit usize");
  section_end ← ok_or (checked_add usize_max section_offset section_length) (entry_error entry 0 BadRecord "section range overflows usize");
  payload ← ok_or (slice_get section_offset section_end bytes) (entry_error entry 0 BadRecord "section range is outside artifact");
  Ok (section_offset, payload).

Definition read_indexed (entry : DirectoryEntry) (section_offset : Z) (payload : list Z) : Read IndexedSection :=
  count ← section_read entry section_offset read_u32;
  reserved ← section_read entry section_offset read_u32;
  record_bytes_u64 ← section_read entry section_offset read_u64;
  if negb (reserved =? 0) || negb (count =? element_count entry)
  then st_err (entry_error entry 0 BadRecord "indexed header disagrees with directory or has reserved bits") else
  count ← st_lift (ok_or (try_from_unsigned usize_max count) (entry_error entry 0 LimitExceeded "record count does not fit usize"));
  if records_per_section limits <? count
  then st_err (entry_error entry 0 LimitExceeded "record count limit exceeded") else
  offset_count ← st_lift (ok_or (checked_add usize_max count 1) (entry_error entry 0 BadRecord "offset count overflows usize"));
  offsets ← (fix loop (n : nat) : Read (list Z) :=
               match n with
               | O => mret []
               | S n => o ← section_read entry section_offset read_u32; os ← loop n; mret (o :: os)
               end) (Z.to_nat offset_count);
  position_ ← st_read (fun c => Ok (position c));
  records_offset ← st_lift (ok_or (align8 position_) (entry_error entry position_ BadRecord "indexed prefix alignment overflows"));
  padding ← section_read entry section_offset (take (records_offset - position_));
  if nonzero padding
  then st_err (entry_error entry position_ BadRecord "indexed prefix padding is non-zero") else
  record_bytes ← st_lift (ok_or (try_from_unsigned usize_max record_bytes_u64)
                            (entry_error entry 8 BadRecord "record byte length does not fit usize"));
  expected_payload ← st_lift (ok_or (checked_add usize_max records_offset record_bytes)
                                (entry_error entry 8 BadRecord "record byte range overflows"));
  if negb (expected_payload =? Z.of_nat (length payload)) || negb (bool_decide (head offsets = Some 0))
    || negb (bool_decide (last offsets = try_from_unsigned u32_max record_bytes)) || windows2 (fun a b => b <? a) offsets
  then st_err (entry_error entry 0 BadRecord "indexed offsets are not canonical") else
  tail ← st_lift (expect (slice_get records_offset (Z.of_nat (length payload)) payload));
  mret (mkIndexed (entry_kind entry) offsets tail (section_offset + records_offset)).

(** [IndexedSection::decode]. *)
Definition decode_section (container : Container) (entry : DirectoryEntry) : outcome Diagnostic IndexedSection :=
  '(section_offset, payload) ← indexed_payload (container_bytes container) entry;
  (read_indexed entry section_offset payload (cursor_new payload)).1.

Definition section_len (s : IndexedSection) : Z := Z.of_nat (length (offsets s)) - 1.

Definition record_error (s : IndexedSection) (relative : Z) (c : Diagnostics.Code) (d : string) : Diagnostic :=
  in_section (indexed_kind s) (diagnostic Section_ c (saturating_add usize_max (records_offset s) relative) d).

Definition record_bounds (s : IndexedSection) (id : Z) : outcome Diagnostic (Z * Z) :=
  id ← ok_or (try_from_unsigned usize_max id) (record_error s 0 BadRecord "record id does not fit usize");
  start ← ok_or (zget (offsets s) id) (record_error s 0 BadRecord "record id is out of range");
  stop ← ok_or (zget (offsets s) (id + 1)) (record_error s 0 BadRecord "record end is out of range");
  Ok (start, stop).

Definition record (s : IndexedSection) (id : Z) : outcome Diagnostic (list Z) :=
  '(start, stop) ← record_bounds s id;
  ok_or (slice_get start stop (records s)) (record_error s start BadRecord "record range is outside section").

Definition record_range (s : IndexedSection) (id : Z) : outcome Diagnostic (Z * Z) :=
  '(start, stop) ← record_bounds s id;
  Ok (records_offset s + start, records_offset s + stop).

Definition record_bytes_len (s : IndexedSection) : Z := Z.of_nat (length (records s)).

Definition record_offset (s : IndexedSection) (id : Z) : outcome Diagnostic Z := expect (zget (offsets s) id).

(** The error of record [id], at its place. *)
Definition table_error {A} (s : IndexedSection) (id : Z) (c : Diagnostics.Code) (d : string) : outcome Diagnostic A :=
  off ← record_offset s id; Err (record_error s off c d).

Fixpoint string_table (s : IndexedSection) (ids : list Z) (previous : option (list Z)) : outcome Diagnostic (list (list Z)) :=
  match ids with
  | [] => Ok []
  | id :: ids =>
      value ← record s id;
      if negb (utf8_valid value) then table_error s id InvalidUtf8 "string is not UTF-8" else
      if (0 <? id) && bool_decide (value = []) then table_error s id BadRecord "only string zero may be empty" else
      if match previous with Some p => ge p value | None => false end
      then table_error s id BadRecord "strings are not strictly ordered and unique" else
      rest ← string_table s ids (Some value);
      Ok (value :: rest)
  end.

Definition decode_string_table (container : Container) (entry : DirectoryEntry) : outcome Diagnostic (list (list Z)) :=
  s ← decode_section container entry;
  if strings_bytes limits <? record_bytes_len s
  then Err (record_error s 0 LimitExceeded "string byte limit exceeded") else
  string_table s (seqZ 0 (section_len s)) None.

End Decode.

End Container.
