(* ===== verification/Records.v ===== *)
(** src/decode/records.rs: the tables of an artifact, record by record, and the
    checks of their references.

    A [ByteRange] is the bytes it denotes; the slice is taken when the range is
    made, and a range outside the artifact is [Panic].  The SHA-256 of the sha2
    crate is the parameter [sha256]. *)

From S2P Require Import Prelude Words Unicode Bytes BTree Path Value Frame Float Code Artifact Verify Container.
Import Diagnostics Cursor Artifact Container.

Module Records.
Import Container.

(** ** Errors and reads *)

Definition single_raw (d : Diagnostic) : DiagnosticSet := push (DiagnosticSet_new 1) d.
Definition raw (c : Diagnostics.Code) (d : string) : DiagnosticSet := single_raw (diagnostic Section_ c 0 d).
Definition at_ (c : Diagnostics.Code) (kind off : Z) (d : string) : Diagnostic := in_section kind (diagnostic Section_ c off d).

Definition relocate_section (d : Diagnostic) (base kind : Z) : Diagnostic :=
  let d := relocate d base in
  in_section kind (mkDiagnostic Section_ (Diagnostics.code d) (location d) (detail d)).

Definition ru8 : Code.Dec Z := mapped single_raw read_u8.
Definition ru16 : Code.Dec Z := mapped single_raw read_u16.
Definition ru32 : Code.Dec Z := mapped single_raw read_u32.
Definition ru64 : Code.Dec Z := mapped single_raw read_u64.

(** [read] of records.rs. *)
Definition read (kind base : Z) : Code.Dec Z := mapped (fun d => single_raw (relocate_section d base kind)) read_u32.

Definition finish (record : list Z) (valid : bool) : Code.Dec unit := fun c =>
  if valid && (position c =? Z.of_nat (length record)) then (Ok tt, c)
  else (Err (raw BadRecord "record shape or reserved fields are invalid"), c).

Definition deny {S} (b : bool) (e : DiagnosticSet) : ST S DiagnosticSet unit := st_lift (guard_err b e).

(** [for id in ids { values.push(f(id)?) }] and [for x in xs { f(x)? }]. *)
Fixpoint collect {A B} (f : A -> Dia B) (l : list A) : Dia (list B) :=
  match l with
  | [] => Ok []
  | x :: l => y ← f x; ys ← collect f l; Ok (y :: ys)
  end.
Fixpoint each {A} (f : A -> Dia unit) (l : list A) : Dia unit :=
  match l with
  | [] => Ok tt
  | x :: l => _ ← f x; each f l
  end.

Definition ids (s : IndexedSection) : list Z := seqZ 0 (section_len s).

(** One record, read from its start. *)
Definition parse_record {A} (s : IndexedSection) (parse : list Z -> Code.Dec A) (id : Z) : Dia A :=
  bs ← map_err single_raw (record s id);
  (parse bs (cursor_new bs)).1.

Definition parse_each {A} (s : IndexedSection) (parse : list Z -> Code.Dec A) : Dia (list A) :=
  collect (parse_record s parse) (ids s).

Section Decode.
Context (sha256 : list Z -> list Z) (limits : ArtifactLimits).

Definition invalid {A} (kind : Z) (d : string) : Dia A := Err (single limits (at_ BadRecord kind 0 d)).

(** ** Records *)

Definition value_type : Code.Dec ValueType :=
  kind ← ru8;
  flags ← ru8;
  reserved ← ru16;
  nominal ← ru32;
  _ ← deny (negb (reserved =? 0) || (8 <? kind)
            || (negb (kind =? 7) && negb (kind =? 8) && (negb (flags =? 0) || negb (nominal =? u32_max)))
            || ((kind =? 7) && (negb (Z.ldiff flags 1 =? 0) || (nominal =? u32_max)))
            || ((kind =? 8) && (negb (flags =? 0) || (nominal =? u32_max))))
        (raw BadType "invalid value type");
  mret (mkType kind flags nominal).

Definition parse_capability (record : list Z) : Code.Dec CapabilityRecord :=
  namespace ← ru32;
  name ← ru32;
  abi_major ← ru16;
  minimum_abi_minor ← ru16;
  flags ← ru32;
  operation_count ← ru32;
  reserved ← ru32;
  _ ← finish record ((reserved =? 0) && ((flags =? 1) || (flags =? 2)));
  mret (mkCapability namespace name abi_major minimum_abi_minor flags operation_count).

Definition parse_class (record : list Z) (tag flags generic_arity name : Z) : Code.Dec NominalType :=
  super_type ← ru32;
  interface_count ← ru32;
  field_start ← ru32;
  field_count ← ru32;
  method_start ← ru32;
  method_count ← ru32;
  interfaces ← Code.repeat_read (Z.to_nat interface_count) ru32;
  _ ← deny (windows2 (fun a b => b <=? a) interfaces) (raw BadType "interface refs are not sorted and unique");
  if tag =? 0 then
    _ ← deny (8 <? Z.shiftr flags 3) (raw BadType "invalid class flags");
    here ← st_read (fun c => Ok (position c));
    initializer ← (if here <? Z.of_nat (length record) then f ← ru32; mret (Some f) else mret None);
    mret (Class flags generic_arity name super_type interfaces field_start field_count method_start method_count initializer)
  else
    _ ← deny (negb (Z.ldiff flags 1 =? 0) || negb (field_count =? 0)) (raw BadType "invalid interface flags or field range");
    mret (Interface flags generic_arity name super_type interfaces method_start method_count).

Definition parse_array (flags generic_arity name : Z) : Code.Dec NominalType :=
  _ ← deny (negb (Z.ldiff flags 15 =? 0) || (6 <? Z.shiftr flags 1) || negb (generic_arity =? 0)) (raw BadType "invalid array header");
  element ← value_type;
  super_type ← (if Z.land flags 1 =? 0 then mret None else t ← ru32; mret (Some t));
  mret (Array name (Z.shiftr flags 1) element super_type).

Definition parse_function_type (flags name : Z) : Code.Dec NominalType :=
  _ ← deny (negb (flags =? 0)) (raw BadType "function type header flags are non-zero");
  parameter_count ← ru16;
  function_flags ← ru16;
  _ ← deny (negb (Z.ldiff function_flags 1 =? 0)) (raw BadType "invalid function type flags");
  result ← value_type;
  parameters ← Code.repeat_read (Z.to_nat parameter_count) value_type;
  mret (Function_ name function_flags result parameters).

Definition inline_component : Code.Dec ValueType :=
  component ← value_type;
  _ ← deny ((kind component =? 0) || (kind component =? 8))
        (raw BadType "inline layout must contain flattened scalar or reference components");
  mret component.

Definition parse_inline (flags generic_arity name : Z) : Code.Dec NominalType :=
  _ ← deny (negb (flags =? 0) || negb (generic_arity =? 0)) (raw BadType "invalid inline value header");
  count ← ru16;
  reserved ← ru16;
  _ ← deny (negb (reserved =? 0) || (count =? 0) || (physical_components_per_value limits <? count))
        (raw BadType "invalid inline component count or reserved field");
  components ← Code.repeat_read (Z.to_nat count) inline_component;
  mret (InlineValue name components).

Definition parse_type (record : list Z) : Code.Dec NominalType :=
  tag ← ru8;
  flags ← ru8;
  generic_arity ← ru16;
  name ← ru32;
  value ← (if (tag =? 0) || (tag =? 1) then parse_class record tag flags generic_arity name
           else if tag =? 2 then parse_array flags generic_arity name
           else if tag =? 3 then parse_function_type flags name
           else if tag =? 4 then parse_inline flags generic_arity name
           else st_err (raw BadType "unknown nominal type tag"));
  _ ← finish record true;
  mret value.

Definition parse_constant (record : list Z) : Code.Dec Constant :=
  tag ← ru8;
  value ← (if tag =? 0 then v ← mapped single_raw read_i32; mret (CI32 v)
           else if tag =? 1 then v ← ru64; mret (CI64 (as_signed 64 v))
           else if tag =? 2 then v ← ru32; mret (CF32 v)
           else if tag =? 3 then v ← ru64; mret (CF64 v)
           else if tag =? 4 then
             b ← ru8;
             if b =? 0 then mret (CBool false) else if b =? 1 then mret (CBool true)
             else st_err (raw BadRecord "invalid boolean constant")
           else if tag =? 5 then
             _ ← deny (negb (Z.of_nat (length record) =? 3)) (raw BadRecord "CHAR constant must be three bytes");
             v ← ru16; mret (CChar v)
           else if tag =? 6 then v ← ru32; mret (CString v)
           else if tag =? 7 then mret CNull
           else st_err (raw BadRecord "unknown constant tag"));
  _ ← finish record true;
  mret value.

Definition parse_import (record : list Z) : Code.Dec Import :=
  kind ← ru8;
  reserved ← mapped single_raw (take 3);
  target_module ← ru32;
  target_name ← ru32;
  expected_signature ← ru32;
  target_hash ← mapped single_raw (take 32);
  _ ← finish record ((kind <=? 2) && negb (nonzero reserved));
  mret (mkImport kind target_module target_name expected_signature target_hash).

Definition parse_export (record : list Z) : Code.Dec Export :=
  kind ← ru8;
  visibility ← ru8;
  reserved ← ru16;
  _ ← deny (negb (reserved =? 0)) (raw BadRecord "export reserved field is non-zero");
  name ← ru32;
  local_symbol ← ru32;
  signature ← ru32;
  _ ← finish record ((kind <=? 2) && (visibility <=? 1));
  mret (mkExport kind visibility name local_symbol signature).

Definition parse_field (record : list Z) : Code.Dec Field :=
  owner ← ru32;
  name ← ru32;
  ty ← value_type;
  flags ← ru32;
  reserved ← ru32;
  _ ← finish record ((reserved =? 0) && (Z.ldiff flags 3 =? 0));
  mret (mkField owner name ty flags).

Definition physical_atom : Code.Dec Frame.PhysicalAtom :=
  tag ← ru8;
  if tag =? 0 then mret Frame.AI32
  else if tag =? 1 then mret Frame.AI64
  else if tag =? 2 then mret Frame.AF32
  else if tag =? 3 then mret Frame.AF64
  else if tag =? 4 then mret Frame.ARef32
  else st_err (raw BadRecord "unknown physical atom tag").

Definition function_value : Code.Dec FunctionValue :=
  semantic_type ← value_type;
  component_count ← ru16;
  reserved ← ru16;
  _ ← deny ((component_count =? 0) || (physical_components_per_value limits <? component_count))
        (raw LimitExceeded "physical component count is empty or exceeds limit");
  _ ← deny (negb (reserved =? 0)) (raw BadRecord "function value reserved field is non-zero");
  components ← Code.repeat_read (Z.to_nat component_count) physical_atom;
  mret (mkValue semantic_type components).

Definition parse_function (record : list Z) : Code.Dec Function :=
  owner ← ru32;
  name ← ru32;
  signature ← ru32;
  flags ← ru32;
  register_count ← ru16;
  parameter_count ← ru16;
  first_block ← ru32;
  block_count ← ru32;
  first_exception ← ru32;
  exception_count ← ru32;
  _ ← deny (registers_per_function limits <? register_count) (raw LimitExceeded "register limit exceeded");
  values ← Code.repeat_read (Z.to_nat register_count) function_value;
  _ ← finish record (Z.ldiff flags 15 =? 0);
  mret (mkFunction owner name signature flags register_count parameter_count first_block block_count first_exception
          exception_count values).

Definition value_component : Code.Dec Frame.ValueComponent :=
  value ← ru16;
  component ← ru16;
  mret (Frame.mkValueComponent value component).

Definition parse_safepoint (record : list Z) : Code.Dec SafepointRoots :=
  function ← ru32;
  block ← ru32;
  instruction_boundary ← ru32;
  root_count ← ru16;
  reserved ← ru16;
  _ ← deny (roots_per_safepoint limits <? root_count) (raw LimitExceeded "safepoint root limit exceeded");
  references ← Code.repeat_read (Z.to_nat root_count) value_component;
  _ ← finish record (reserved =? 0);
  mret (mkRoots function block instruction_boundary references).

Definition parse_block (record : list Z) : Code.Dec Block :=
  owner ← ru32;
  code_record ← ru32;
  instruction_count ← ru32;
  declared_fixed_cost ← ru32;
  flags ← ru32;
  reserved ← ru32;
  _ ← finish record ((reserved =? 0) && (Z.ldiff flags 1 =? 0));
  mret (mkBlock owner code_record instruction_count declared_fixed_cost flags).

Definition parse_exception (record : list Z) : Code.Dec ExceptionEntry :=
  owner ← ru32;
  first_protected_block ← ru32;
  protected_block_count ← ru32;
  catch_type ← ru32;
  handler_block ← ru32;
  exception_register ← ru16;
  reserved ← ru16;
  _ ← finish record (reserved =? 0);
  mret (mkException owner first_protected_block protected_block_count catch_type handler_block exception_register).

Definition parse_capabilities (s : IndexedSection) : Dia (list CapabilityRecord) := parse_each s parse_capability.
Definition parse_types (s : IndexedSection) : Dia (list NominalType) := parse_each s parse_type.
Definition parse_imports (s : IndexedSection) : Dia (list Import) := parse_each s parse_import.
Definition parse_exports (s : IndexedSection) : Dia (list Export) := parse_each s parse_export.
Definition parse_fields (s : IndexedSection) : Dia (list Field) := parse_each s parse_field.
Definition parse_functions (s : IndexedSection) : Dia (list Function) := parse_each s parse_function.
Definition parse_blocks (s : IndexedSection) : Dia (list Block) := parse_each s parse_block.
Definition parse_exceptions (s : IndexedSection) : Dia (list ExceptionEntry) := parse_each s parse_exception.
Definition parse_safepoint_roots (s : IndexedSection) : Dia (list SafepointRoots) := parse_each s parse_safepoint.

(** ** Tables with an order or a pool *)

Fixpoint raw_order (s : IndexedSection) (ids : list Z) (previous : option (list Z)) (d : string) : Dia unit :=
  match ids with
  | [] => Ok tt
  | id :: ids =>
      bs ← map_err (single limits) (record s id);
      if match previous with Some p => ge p bs | None => false end
      then Err (single limits (diagnostic Section_ BadRecord 0 d))
      else raw_order s ids (Some bs) d
  end.
Definition ensure_raw_order (s : IndexedSection) (d : string) : Dia unit := raw_order s (ids s) None d.

Definition parse_constants (s : IndexedSection) : Dia (list Constant) :=
  _ ← ensure_raw_order s "constants are not sorted and unique";
  parse_each s parse_constant.

Definition add_to_limit (total amount maximum : Z) (d : string) : Dia Z :=
  match checked_add usize_max total amount with
  | Some next => if maximum <? next then Err (single limits (diagnostic Limit LimitExceeded 0 d)) else Ok next
  | None => Err (single limits (diagnostic Limit LimitExceeded 0 d))
  end.

(** A [ByteRange] of the artifact: its bytes. *)
Definition byte_range (bytes : list Z) (range : Z * Z) : Dia (list Z) := expect (slice_get range.1 range.2 bytes).

Definition range_of (bytes : list Z) (s : IndexedSection) (id : Z) : Dia (list Z) :=
  range ← map_err single_raw (record_range s id);
  byte_range bytes range.

Definition collect_ranges (bytes : list Z) (s : IndexedSection) : Dia (list (list Z)) := collect (range_of bytes s) (ids s).

Fixpoint literal_units (s : IndexedSection) (ids : list Z) (total : Z) : Dia Z :=
  match ids with
  | [] => Ok total
  | id :: ids =>
      bs ← map_err (single limits) (record s id);
      if negb (Z.of_nat (length bs) mod 2 =? 0) then invalid UTF16_LITERALS "UTF-16 literal has odd byte length" else
      total ← add_to_limit total (Z.of_nat (length bs) / 2) (utf16_literal_code_units limits)
                "total UTF-16 literal code-unit limit exceeded";
      literal_units s ids total
  end.

Definition parse_utf16_literals (bytes : list Z) (s : IndexedSection) (total : Z) : Dia (list (list Z) * Z) :=
  _ ← ensure_raw_order s "UTF-16 literals are not sorted and unique";
  total ← literal_units s (ids s) total;
  literals ← collect_ranges bytes s;
  Ok (literals, total).

Definition canonical_source_path (path : list Z) : bool :=
  negb (bool_decide (path = [])) && negb (bool_decide (head path = Some Path.slash)) && negb (existsb (Z.eqb 0x5c) path)
  && forallb (fun s => negb (bool_decide (s = [])) && negb (bool_decide (s = text ".")) && negb (bool_decide (s = text "..")))
       (Path.split path).

Fixpoint debug_paths (bytes : list Z) (s : IndexedSection) (ids : list Z) (unique : list (list Z)) : Dia (list (list Z)) :=
  match ids with
  | [] => Ok []
  | id :: ids =>
      path ← map_err single_raw (record s id);
      if negb (utf8_valid path) then Err (raw BadRecord "debug path is not UTF-8") else
      if negb (canonical_source_path path) || bool_decide (path ∈ unique)
      then Err (raw BadRecord "debug path is noncanonical or duplicated") else
      range ← range_of bytes s id;
      rest ← debug_paths bytes s ids (path :: unique);
      Ok (range :: rest)
  end.

Definition parse_debug_paths (bytes : list Z) (s : IndexedSection) : Dia (list (list Z)) :=
  if section_len s =? 0 then Err (raw BadRecord "debug path pool is empty")
  else debug_paths bytes s (ids s) [].

(** The path of an entry, and the paths used so far. *)
Definition debug_source (bytes : list Z) (paths : option (list (list Z))) (record_start path_value used_paths : Z)
    : Code.Dec (list Z * Z) :=
  match paths with
  | Some paths =>
      range ← st_lift (ok_or (zget paths path_value) (raw BadRecord "debug path index is outside pool"));
      _ ← deny (used_paths <? path_value) (raw BadRecord "debug paths are not in first-use order");
      mret (range, if path_value =? used_paths then used_paths + 1 else used_paths)
  | None =>
      path_start ← st_read (fun c => Ok (position c));
      path ← mapped single_raw (read_utf8 path_value);
      _ ← deny (negb (canonical_source_path path)) (raw BadRecord "debug source path is not canonical");
      range ← st_lift (byte_range bytes (record_start + path_start, record_start + path_start + path_value));
      mret (range, used_paths)
  end.

Definition debug_entry (bytes : list Z) (paths : option (list (list Z))) (record : list Z) (record_start id used_paths : Z)
    : Code.Dec (DebugEntry * Z) :=
  function ← ru32;
  block ← ru32;
  instruction ← ru32;
  start_utf16 ← ru32;
  end_utf16 ← ru32;
  inline_parent ← ru32;
  path_value ← ru32;
  '(source_path, used_paths) ← debug_source bytes paths record_start path_value used_paths;
  _ ← finish record ((inline_parent =? u32_max) || (inline_parent <? id));
  mret (mkDebug function block instruction start_utf16 end_utf16 inline_parent source_path None, used_paths).

Fixpoint debug_entries (bytes : list Z) (paths : option (list (list Z))) (s : IndexedSection) (ids : list Z) (used_paths : Z)
    : Dia (list DebugEntry * Z) :=
  match ids with
  | [] => Ok ([], used_paths)
  | id :: ids =>
      bs ← map_err single_raw (record s id);
      range ← map_err single_raw (record_range s id);
      '(entry, used_paths) ← (debug_entry bytes paths bs range.1 id used_paths (cursor_new bs)).1;
      '(rest, used_paths) ← debug_entries bytes paths s ids used_paths;
      Ok (entry :: rest, used_paths)
  end.

Definition debug_key (e : DebugEntry) : Z * (Z * Z) := (debug_function e, (debug_block e, debug_instruction e)).

Definition parse_debug (bytes : list Z) (s : IndexedSection) (paths : option (list (list Z))) : Dia (list DebugEntry) :=
  if debug_bytes limits <? record_bytes_len s then Err (raw LimitExceeded "debug byte limit exceeded") else
  '(values, used_paths) ← debug_entries bytes paths s (ids s) 0;
  if match paths with Some paths => negb (used_paths =? Z.of_nat (length paths)) | None => false end
  then Err (raw BadRecord "debug path pool has unused entries") else
  if windows2 (fun a b => ge (debug_key a) (debug_key b)) values
  then Err (raw BadRecord "debug records are not strictly ordered") else Ok values.

(** The loop over the section DEBUG_SOURCE_POSITIONS. *)
Definition set_position (e : DebugEntry) (position : Z * Z) : DebugEntry :=
  mkDebug (debug_function e) (debug_block e) (debug_instruction e) (start_utf16 e) (end_utf16 e) (inline_parent e)
    (source_path e) (Some position).

Definition source_position_record (previous : option Z) (record : list Z) : Code.Dec (Z * Z * Z) :=
  index ← ru32;
  line ← ru32;
  column ← ru32;
  _ ← finish record ((0 <? line) && (0 <? column) && match previous with Some p => p <? index | None => true end);
  mret (index, line, column).

Fixpoint source_positions (s : IndexedSection) (ids : list Z) (previous : option Z) (debug : list DebugEntry) : Dia (list DebugEntry) :=
  match ids with
  | [] => Ok debug
  | id :: ids =>
      '(index, line, column) ← parse_record s (source_position_record previous) id;
      value ← ok_or (zget debug index) (raw BadRecord "debug source position index is outside DEBUG");
      source_positions s ids (Some index) (zset index (set_position value (line, column)) debug)
  end.

(** ** Code *)

(** The two limits the decoder of code consults. *)
Definition code_limits : Code.CodeLimits := Code.mkCodeLimits (records_per_section limits) (registers_per_function limits).

(** [map_or(&[], |function| function.values)]: a function without values stands for a
    missing one. *)
Definition owner_of (functions : list Function) (block : Block) : Function :=
  default (mkFunction 0 0 0 0 0 0 0 0 0 0 []) (zget functions (owner_function block)).

Fixpoint code_total (owner : Function) (total : Z) (is_ : list Code.Instruction) : Dia Z :=
  match is_ with
  | [] => Ok total
  | i :: is_ =>
      cost ← map_err single_raw (Verify.fixed_cost_for_values owner i);
      total ← ok_or (checked_add u32_max total cost) (raw BadCost "block fixed cost overflows u32");
      code_total owner total is_
  end.

Definition code_entry (bytes : list Z) (s : IndexedSection) (functions : list Function) (id : Z) (block : Block) : Dia DecodedCode :=
  bs ← map_err single_raw (record s id);
  range ← map_err single_raw (record_range s id);
  instructions ← Code.decode_code_record bs (instruction_count block) code_limits;
  fixed_cost ← code_total (owner_of functions block) 0 instructions;
  bytes ← byte_range bytes range;
  Ok (mkCode bytes instructions fixed_cost).

Definition parse_code (bytes : list Z) (s : IndexedSection) (blocks : list Block) (functions : list Function) : Dia (list DecodedCode) :=
  if negb (section_len s =? Z.of_nat (length blocks)) then invalid CODE "block and code record counts disagree" else
  collect (fun '(id, block) => code_entry bytes s functions (Z.of_nat id) block) (imap pair blocks).

(** ** Root ranges *)

Definition roots_key (r : SafepointRoots) : Z * (Z * Z) := (roots_function r, (roots_block r, instruction_boundary r)).

#[global] Instance ValueComponent_eq : EqDecision Frame.ValueComponent.
Proof. solve_decision. Defined.

Definition component_key (c : Frame.ValueComponent) : Z * Z := (Frame.vc_value c, Frame.vc_component c).

Record Ranges := mkRanges { expanded : list SafepointRoots; per_function : list Z; record_bytes : Z }.

Section Ranges.
Context (expected_count expected_length prefix : Z) (blocks : list Block) (function_count : Z).

Definition root_range (record : list Z) (st : Ranges) : Code.Dec Ranges :=
  function ← ru32;
  block ← ru32;
  first ← ru32;
  run ← ru32;
  root_count ← ru16;
  reserved ← ru16;
  owner ← st_lift (ok_or (zget blocks block) (raw BadRecord "root range block is out of bounds"));
  _ ← deny ((function_count <=? function) || negb (owner_function owner =? function) || (run =? 0)
            || match checked_add u32_max first run with Some e => instruction_count owner <? e | None => true end
            || negb (reserved =? 0))
        (raw BadRecord "invalid root range owner or boundaries");
  _ ← deny ((roots_per_safepoint limits <? root_count)
            || match checked_add usize_max (Z.of_nat (length (expanded st))) run with
               | Some count => expected_count <? count | None => true end)
        (raw LimitExceeded "expanded root count limit exceeded");
  count ← st_lift (expect (zget (per_function st) function));
  let counts := zset function (count + run) (per_function st) in
  _ ← deny (safepoints_per_function limits <? count + run) (raw LimitExceeded "expanded function root limit exceeded");
  bytes ← st_lift (ok_or (checked_mul usize_max (16 + 4 * root_count) run) (raw LimitExceeded "expanded root bytes overflow"));
  total ← st_lift (ok_or (checked_add usize_max (record_bytes st) bytes) (raw LimitExceeded "expanded root bytes overflow"));
  _ ← deny (u32_max <? total) (raw LimitExceeded "canonical root offsets exceed u32");
  _ ← deny (match checked_add usize_max prefix total with Some length => expected_length <? length | None => true end)
        (raw LimitExceeded "expanded root bytes exceed marker");
  references ← Code.repeat_read (Z.to_nat root_count) value_component;
  _ ← finish record (negb (windows2 (fun a b => ge (component_key a) (component_key b)) references));
  _ ← (match last (expanded st) with
       | Some previous =>
           next ← st_lift (if (roots_function previous =? function) && (roots_block previous =? block) && negb (ge (roots_key previous) (function, (block, first)))
                           then expect (checked_add u32_max (instruction_boundary previous) 1) else Ok 0);
           deny (ge (roots_key previous) (function, (block, first))
                 || ((roots_function previous =? function) && (roots_block previous =? block) && (next =? first)
                     && bool_decide (Artifact.references previous = references)))
             (raw BadRecord "root ranges overlap or are unmerged")
       | None => mret tt
       end);
  mret (mkRanges (expanded st ++ map (fun boundary => mkRoots function block boundary references) (seqZ first run)) counts total).

Fixpoint root_ranges (s : IndexedSection) (ids : list Z) (st : Ranges) : Dia Ranges :=
  match ids with
  | [] => Ok st
  | id :: ids =>
      st ← parse_record s (fun record => root_range record st) id;
      root_ranges s ids st
  end.

End Ranges.

Definition parse_root_ranges (s : IndexedSection) (expected_count expected_length : Z) (blocks : list Block) (function_count : Z)
    : Dia (list SafepointRoots) :=
  let prefix := Z.ldiff (16 + 4 * (expected_count + 1) + 7) 7 in
  if (artifact_bytes limits <? expected_length) || (expected_length <? prefix) || (records_per_section limits <? expected_count)
  then Err (raw LimitExceeded "expanded root limit exceeded") else
  st ← root_ranges expected_count expected_length prefix blocks function_count s (ids s)
         (mkRanges [] (replicate (Z.to_nat function_count) 0) 0);
  if negb (Z.of_nat (length (expanded st)) =? expected_count) || negb (prefix + record_bytes st =? expected_length)
  then Err (raw BadRecord "expanded root counts disagree with marker") else Ok (expanded st).

End Decode.

End Records.
