(* ===== verification/Tables.v ===== *)
(** src/decode/records.rs: the checks of the references between the tables of an
    artifact, and [decode_artifact], which reads an artifact from its bytes. *)

From S2P Require Import Prelude Words Unicode Bytes BTree Path Value Frame Float Code Artifact Verify Container Records.
Import Diagnostics Cursor Artifact Container Records.

Module Tables.
Import Container.

Section Decode.
Context (sha256 : list Z -> list Z) (limits : ArtifactLimits).

Abbreviation invalid := (invalid limits).
Definition limit_error {A} (kind off : Z) (d : string) : Dia A := Err (single limits (at_ LimitExceeded kind off d)).

Definition size {A} (l : list A) : Z := Z.of_nat (length l).

(** ** References *)

Definition type_ref (m : DecodedModule) (value : Z) (allow_absent : bool) : Dia unit :=
  if value =? u32_max then
    if allow_absent then Ok tt else invalid TYPES "type reference uses an invalid absent sentinel"
  else
    let imported := negb (Z.land value 0x80000000 =? 0) in
    let '(index, bound) :=
      if negb imported then (value, size (types m)) else (Z.land value 0x7fffffff, size (imports m)) in
    if bound <=? index then invalid TYPES "type reference is out of range"
    else if imported then
      import ← expect (zget (imports m) index);
      if negb (import_kind import =? 0) then invalid TYPES "type reference names a non-type import" else Ok tt
    else Ok tt.

Definition value_type_ref (m : DecodedModule) (v : ValueType) : Dia unit :=
  if (kind v =? 7) || (kind v =? 8) then type_ref m (nominal_type v) false else Ok tt.

Definition checked_range (start count bound kind : Z) (d : string) : Dia unit :=
  match checked_add u32_max start count with
  | Some stop => if stop <=? bound then Ok tt else invalid kind d
  | None => invalid kind d
  end.

Definition string_ (m : DecodedModule) (id : Z) : Dia (list Z) :=
  match zget (strings m) id with Some s => Ok s | None => invalid STRINGS "string id is out of range" end.

Definition check_string (m : DecodedModule) (id : Z) : Dia unit := _ ← string_ m id; Ok tt.

(** [module.strings[id].slice(bytes)]. *)
Definition string_at (m : DecodedModule) (id : Z) : Dia (list Z) := expect (zget (strings m) id).

Definition capability_key (m : DecodedModule) (c : CapabilityRecord) : Dia (list Z * (list Z * (Z * Z))) :=
  namespace ← string_at m (cap_namespace c);
  name ← string_at m (cap_name c);
  Ok (namespace, (name, (abi_major c, minimum_abi_minor c))).

Definition import_key (m : DecodedModule) (i : Import) : Dia (Z * (Z * (list Z * Z))) :=
  name ← string_at m (target_name i);
  Ok (target_module i, (import_kind i, (name, expected_signature i))).

Definition export_key (m : DecodedModule) (e : Export) : Dia (Z * (list Z * Z)) :=
  name ← string_at m (export_name e);
  Ok (export_kind e, (name, export_signature e)).

(** [windows(2).any(|pair| key(&pair[0]) >= key(&pair[1]))]. *)
Fixpoint unordered {A K} `{BTree.Ordered K} (key : A -> Dia K) (l : list A) : Dia bool :=
  match l with
  | a :: (b :: _) as l' =>
      ka ← key a;
      kb ← key b;
      if ge ka kb then Ok true else unordered key l'
  | _ => Ok false
  end.

(** ** The tables of a module *)

Definition validate_type (m : DecodedModule) (t : NominalType) : Dia unit :=
  name ← match t with
         | InlineValue name components => _ ← each (value_type_ref m) components; Ok name
         | Class _ _ name super_type interfaces _ _ _ _ _ | Interface _ _ name super_type interfaces _ _ =>
             _ ← type_ref m super_type true;
             _ ← each (fun i => type_ref m i false) interfaces;
             Ok name
         | Array name _ element super_type =>
             _ ← value_type_ref m element;
             _ ← match super_type with Some parent => type_ref m parent false | None => Ok tt end;
             Ok name
         | Function_ name _ result parameters =>
             _ ← value_type_ref m result;
             _ ← each (value_type_ref m) parameters;
             Ok name
         end;
  check_string m name.

Definition validate_constant (m : DecodedModule) (c : Constant) : Dia unit :=
  match c with
  | CString id => if size (utf16_literals m) <=? id then invalid CONSTANTS "UTF-16 literal id is out of range" else Ok tt
  | _ => Ok tt
  end.

Definition validate_import (modules : list DecodedModule) (m : DecodedModule) (i : Import) : Dia unit :=
  match zget modules (target_module i) with
  | None => invalid IMPORTS "import target module is out of range"
  | Some _ =>
      _ ← check_string m (target_name i);
      type_ref m (expected_signature i) false
  end.

Definition validate_export (m : DecodedModule) (e : Export) : Dia unit :=
  _ ← check_string m (export_name e);
  _ ← type_ref m (export_signature e) false;
  let symbol_count :=
    if export_kind e =? 0 then size (types m)
    else if export_kind e =? 1 then size (functions m)
    else if export_kind e =? 2 then size (fields m) else 0 in
  if symbol_count <=? local_symbol e then invalid EXPORTS "export local symbol is out of range" else Ok tt.

Definition validate_field (m : DecodedModule) (f : Field) : Dia unit :=
  _ ← type_ref m (field_owner f) false;
  _ ← check_string m (field_name f);
  value_type_ref m (Artifact.value_type f).

Definition validate_function (m : DecodedModule) (f : Function) : Dia unit :=
  _ ← type_ref m (fn_owner f) true;
  _ ← check_string m (fn_name f);
  _ ← type_ref m (signature f) false;
  if register_count f <? parameter_count f then invalid FUNCTIONS "parameter count exceeds register count" else
  _ ← checked_range (first_block f) (block_count f) (size (blocks m)) FUNCTIONS "function block range is out of bounds";
  _ ← checked_range (first_exception f) (exception_count f) (size (exceptions m)) FUNCTIONS
        "function exception range is out of bounds";
  each (fun v => value_type_ref m (semantic_type v)) (values f).

Definition root_component (f : Function) (reference : Frame.ValueComponent) : option Frame.PhysicalAtom :=
  v ← zget (values f) (Frame.vc_value reference);
  zget (components v) (Frame.vc_component reference).

Definition validate_roots (f : Function) (roots : SafepointRoots) : Dia unit :=
  if windows2 (fun a b => ge (component_key a) (component_key b)) (references roots)
  then invalid SAFEPOINT_ROOTS "safepoint roots are not strictly ordered" else
  each (fun reference =>
          match root_component f reference with
          | Some Frame.ARef32 => Ok tt
          | _ => invalid SAFEPOINT_ROOTS "safepoint root is not a Ref32 component"
          end) (references roots).

Definition validate_function_roots (m : DecodedModule) (entry : nat * Function) : Dia unit :=
  let '(function_id, f) := entry in
  let function_roots := List.filter (fun r => roots_function r =? Z.of_nat function_id) (safepoint_roots m) in
  if safepoints_per_function limits <? size function_roots then invalid SAFEPOINT_ROOTS "safepoint limit exceeded" else
  each (validate_roots f) function_roots.

Definition validate_block (m : DecodedModule) (entry : nat * Block) : Dia unit :=
  let '(block_id, b) := entry in
  if (size (functions m) <=? owner_function b) || negb (code_record b =? Z.of_nat block_id) || (size (code m) <=? code_record b)
  then invalid BLOCKS "block owner or code record is out of range" else Ok tt.

Definition validate_exception (m : DecodedModule) (e : ExceptionEntry) : Dia unit :=
  if (size (functions m) <=? exc_owner e) || (size (blocks m) <=? first_protected_block e) || (size (blocks m) <=? exc_handler e)
  then invalid EXCEPTIONS "exception reference is out of range" else
  type_ref m (catch_type e) true.

Definition validate_debug (m : DecodedModule) (d : DebugEntry) : Dia unit :=
  if (size (functions m) <=? debug_function d) || (size (blocks m) <=? debug_block d)
  then invalid DEBUG "debug reference is out of range" else Ok tt.

Definition validate_module_tables (modules : list DecodedModule) (m : DecodedModule) : Dia unit :=
  _ ← each (validate_type m) (types m);
  _ ← each (validate_constant m) (constants m);
  _ ← each (validate_import modules m) (imports m);
  bad ← unordered (import_key m) (imports m);
  if (bad : bool) then invalid IMPORTS "imports are not strictly ordered" else
  _ ← each (validate_export m) (exports m);
  bad ← unordered (export_key m) (exports m);
  if (bad : bool) then invalid EXPORTS "exports are not strictly ordered" else
  _ ← each (validate_field m) (fields m);
  _ ← each (validate_function m) (functions m);
  if windows2 (fun a b => ge (roots_key a) (roots_key b)) (safepoint_roots m)
  then invalid SAFEPOINT_ROOTS "safepoint maps are not strictly ordered" else
  _ ← each (validate_function_roots m) (imap pair (functions m));
  if existsb (fun r => size (functions m) <=? roots_function r) (safepoint_roots m)
  then invalid SAFEPOINT_ROOTS "safepoint owner function is out of range" else
  _ ← each (validate_block m) (imap pair (blocks m));
  if negb (length (blocks m) =? length (code m))%nat then invalid CODE "block and code record counts disagree" else
  _ ← each (validate_exception m) (exceptions m);
  each (validate_debug m) (debug m).

(** [filter(..).count()]. *)
Definition count {A} (p : A -> bool) (l : list A) : Z := size (List.filter p l).

Definition validate_local_tables (header : Header) (manifest : Manifest) (capabilities : list CapabilityRecord)
    (modules : list DecodedModule) : Dia unit :=
  entry ← match zget modules (entry_module header) with
          | Some m => Ok m
          | None => invalid MODULES "entry module id is out of range"
          end;
  if size (functions entry) <=? entry_function header then invalid FUNCTIONS "entry function id is out of range" else
  let application_modules := map (fun p => Z.of_nat p.1) (List.filter (fun p => module_flags p.2 =? 1) (imap pair modules)) in
  if negb (bool_decide (application_modules = [entry_module header]))
    || existsb (fun m => negb ((module_flags m =? 1) || (module_flags m =? 2))) modules
  then invalid MODULES "module application/library flags are invalid" else
  let required := count (fun c => cap_flags c =? 1) capabilities in
  let optional := count (fun c => cap_flags c =? 2) capabilities in
  if negb (required =? required_capabilities manifest) || negb (optional =? optional_capabilities manifest)
  then invalid CAPABILITIES "capability flag counts disagree with manifest" else
  _ ← each (fun c => _ ← check_string entry (cap_namespace c); check_string entry (cap_name c)) capabilities;
  bad ← unordered (capability_key entry) capabilities;
  if (bad : bool) then invalid CAPABILITIES "capabilities are not strictly ordered" else
  each (fun m => _ ← check_string m (name_string m); validate_module_tables modules m) modules.

(** ** The artifact *)

Definition optional_entry (container : Container) (sc kind : Z) : option DirectoryEntry :=
  List.find (fun e => (scope e =? sc) && (entry_kind e =? kind)) (directory container).

Definition find (container : Container) (sc kind : Z) : Dia DirectoryEntry :=
  ok_or (optional_entry container sc kind) (single limits (at_ BadSection kind 0 "required section is missing")).

Definition decode_indexed (container : Container) (entry : DirectoryEntry) : Dia IndexedSection :=
  map_err (single limits) (decode_section limits container entry).

Definition indexed (container : Container) (sc kind : Z) : Dia IndexedSection :=
  entry ← find container sc kind;
  decode_indexed container entry.

Definition read_manifest (start : Z) : Code.Dec Manifest :=
  let get {A} (m : Read A) : Code.Dec A := mapped (fun d => single limits (relocate d start)) m in
  v0 ← get read_u32; v1 ← get read_u32; v2 ← get read_u32; v3 ← get read_u32; v4 ← get read_u32;
  v5 ← get read_u32; v6 ← get read_u32; v7 ← get read_u32; v8 ← get read_u32; v9 ← get read_u32;
  compiler_abi ← get (take 32);
  platform_abi ← get (take 32);
  maximum_channels ← get read_u32;
  maximum_channel_values ← get read_u32;
  mret (mkManifest v0 v1 v2 v3 v4 v5 v6 v7 v8 v9 compiler_abi platform_abi maximum_channels maximum_channel_values).

Definition decode_manifest (container : Container) (entry : DirectoryEntry) : Dia Manifest :=
  if negb (entry_length entry =? 112) || negb (element_count entry =? 1)
  then Err (single limits (at_ BadRecord MANIFEST (entry_offset entry) "manifest shape is not v1")) else
  let start := entry_offset entry in
  payload ← expect (slice_get start (start + 112) (container_bytes container));
  (read_manifest start (cursor_new payload)).1.

(** The running totals of [decode_artifact]. *)
Record Totals := mkTotals {
  total_string_bytes : Z; total_utf16_literal_code_units : Z; total_code_bytes : Z; total_debug_bytes : Z;
  total_expanded_root_bytes : Z; total_imports : Z; total_functions : Z; total_blocks : Z; total_exceptions : Z }.

(** The record of a module. *)
Definition module_record (base : Z) (bs : list Z) : Code.Dec (Z * Z * list Z * (Z * Z * Z * Z)) :=
  name_string ← read MODULES base;
  flags ← read MODULES base;
  hash ← mapped (fun d => single limits (relocate d base)) (take 32);
  declared_imports ← read MODULES base;
  declared_exports ← read MODULES base;
  declared_types ← read MODULES base;
  declared_functions ← read MODULES base;
  reserved ← read MODULES base;
  here ← st_read (fun c => Ok (position c));
  _ ← deny (negb (here =? Z.of_nat (length bs)) || negb (reserved =? 0) || negb (Z.ldiff flags 3 =? 0))
        (single limits (at_ BadRecord MODULES base "invalid module record"));
  mret (name_string, flags, hash, (declared_imports, declared_exports, declared_types, declared_functions)).

Definition root_marker (marker : DirectoryEntry) (payload : list Z) : Code.Dec (Z * Z) :=
  version ← ru32;
  count ← ru32;
  length64 ← ru64;
  length ← st_lift (ok_or (try_from_unsigned usize_max length64) (raw LimitExceeded "expanded root length exceeds usize"));
  _ ← finish payload ((element_count marker =? 1) && (version =? 1) && (0 <? count) && (24 <=? length));
  mret (count, length).

Definition expanded_limit (total amount : Z) : Dia Z :=
  add_to_limit limits total amount (artifact_bytes limits) "expanded root byte limit exceeded".

(** The safepoint roots of a module, and the total of their expanded bytes. *)
Definition module_roots (container : Container) (sc : Z) (s : IndexedSection) (blocks : list Block) (function_count total : Z)
    : Dia (list SafepointRoots * Z) :=
  match optional_entry container sc SAFEPOINT_ROOT_RANGES with
  | Some marker =>
      payload ← expect (slice_get (entry_offset marker) (entry_offset marker + entry_length marker) (container_bytes container));
      '(count, length) ← (root_marker marker payload (cursor_new payload)).1;
      if records_per_section limits <? count then Err (raw LimitExceeded "expanded root record limit exceeded") else
      total ← expanded_limit total length;
      roots ← parse_root_ranges limits s count length blocks function_count;
      Ok (roots, total)
  | None =>
      entry ← find container sc SAFEPOINT_ROOTS;
      total ← expanded_limit total (entry_length entry);
      roots ← parse_safepoint_roots limits s;
      Ok (roots, total)
  end.

Definition debug_limit (total : Z) (s : IndexedSection) : Dia Z :=
  add_to_limit limits total (record_bytes_len s) (debug_bytes limits) "total debug byte limit exceeded".

Definition module_debug (container : Container) (sc total : Z) : Dia (list DebugEntry * Z) :=
  let bytes := container_bytes container in
  '(paths, total) ← (match optional_entry container sc DEBUG_PATHS with
                     | Some entry =>
                         match optional_entry container sc DEBUG with
                         | None => Err (raw BadRecord "debug path pool requires DEBUG")
                         | Some _ =>
                             s ← decode_indexed container entry;
                             total ← debug_limit total s;
                             paths ← parse_debug_paths bytes s;
                             Ok (Some paths, total)
                         end
                     | None => Ok (None, total)
                     end : Dia (option (list (list Z)) * Z));
  '(debug, total) ← match optional_entry container sc DEBUG with
                    | Some entry =>
                        s ← decode_indexed container entry;
                        total ← debug_limit total s;
                        debug ← parse_debug limits bytes s paths;
                        Ok (debug, total)
                    | None => Ok ([], total)
                    end;
  match optional_entry container sc DEBUG_SOURCE_POSITIONS with
  | Some entry =>
      s ← decode_indexed container entry;
      total ← debug_limit total s;
      debug ← source_positions s (ids s) None debug;
      Ok (debug, total)
  | None => Ok (debug, total)
  end.

(** The body of [for module_id in 0..module_section.len()]. *)
Definition decode_module (container : Container) (module_section : IndexedSection) (base module_id : Z) (t : Totals)
    : Dia (DecodedModule * Totals) :=
  let bytes := container_bytes container in
  bs ← map_err (single limits) (record module_section module_id);
  '(name, flags, hash, (d_imports, d_exports, d_types, d_functions)) ← (module_record base bs (cursor_new bs)).1;
  let sc := module_id + 1 in
  strings_entry ← find container sc STRINGS;
  _ ← map_err (single limits) (decode_string_table limits container strings_entry);
  string_section ← decode_indexed container strings_entry;
  string_total ← add_to_limit limits (total_string_bytes t) (record_bytes_len string_section) (strings_bytes limits)
                   "total string byte limit exceeded";
  strings ← collect_ranges bytes string_section;
  types_section ← indexed container sc TYPES;
  imports_section ← indexed container sc IMPORTS;
  exports_section ← indexed container sc EXPORTS;
  constants_section ← indexed container sc CONSTANTS;
  fields_section ← indexed container sc FIELDS;
  functions_section ← indexed container sc FUNCTIONS;
  blocks_section ← indexed container sc BLOCKS;
  code_section ← indexed container sc CODE;
  exceptions_section ← indexed container sc EXCEPTIONS;
  literals_section ← indexed container sc UTF16_LITERALS;
  roots_section ← indexed container sc SAFEPOINT_ROOTS;
  imports_total ← add_to_limit limits (total_imports t) (section_len imports_section) (max_imports limits) "total import limit exceeded";
  functions_total ← add_to_limit limits (total_functions t) (section_len functions_section) (max_functions limits)
                      "total function limit exceeded";
  blocks_total ← add_to_limit limits (total_blocks t) (section_len blocks_section) (max_blocks limits) "total block limit exceeded";
  exceptions_total ← add_to_limit limits (total_exceptions t) (section_len exceptions_section) (max_exceptions limits)
                       "total exception limit exceeded";
  code_total ← add_to_limit limits (total_code_bytes t) (record_bytes_len code_section) (code_bytes limits)
                 "total code byte limit exceeded";
  if negb (section_len types_section =? d_types) || negb (section_len imports_section =? d_imports)
    || negb (section_len exports_section =? d_exports) || negb (section_len functions_section =? d_functions)
  then Err (single limits (at_ BadRecord MODULES base "module table counts disagree with module record")) else
  types ← parse_types limits types_section;
  constants ← parse_constants limits constants_section;
  imports ← parse_imports imports_section;
  exports ← parse_exports exports_section;
  fields ← parse_fields fields_section;
  functions ← parse_functions limits functions_section;
  blocks ← parse_blocks blocks_section;
  code ← parse_code limits bytes code_section blocks functions;
  exceptions ← parse_exceptions exceptions_section;
  '(roots, roots_total) ← module_roots container sc roots_section blocks (size functions) (total_expanded_root_bytes t);
  '(literals, literals_total) ← parse_utf16_literals limits bytes literals_section (total_utf16_literal_code_units t);
  '(debug, debug_total) ← module_debug container sc (total_debug_bytes t);
  Ok (mkModule name flags hash d_imports d_exports d_types d_functions strings literals types constants imports exports fields
        functions blocks code exceptions roots debug,
      mkTotals string_total literals_total code_total debug_total roots_total imports_total functions_total blocks_total
        exceptions_total).

Fixpoint decode_modules (container : Container) (module_section : IndexedSection) (base : Z) (ids : list Z) (t : Totals)
    : Dia (list DecodedModule) :=
  match ids with
  | [] => Ok []
  | id :: ids =>
      '(m, t) ← decode_module container module_section base id t;
      ms ← decode_modules container module_section base ids t;
      Ok (m :: ms)
  end.

Definition decode_artifact (bytes : list Z) : Dia DecodedArtifact :=
  container ← decode_container sha256 limits bytes;
  manifest_entry ← find container 0 MANIFEST;
  modules_entry ← find container 0 MODULES;
  capabilities_entry ← find container 0 CAPABILITIES;
  manifest ← decode_manifest container manifest_entry;
  module_section ← decode_indexed container modules_entry;
  capability_section ← decode_indexed container capabilities_entry;
  declared_capabilities ← ok_or (checked_add u32_max (required_capabilities manifest) (optional_capabilities manifest))
    (single limits (at_ BadRecord MANIFEST (entry_offset manifest_entry + 32) "capability counts overflow"));
  if negb (section_len capability_section =? declared_capabilities)
  then Err (single limits (at_ BadRecord CAPABILITIES (entry_offset capabilities_entry) "capability count disagrees with manifest")) else
  if max_capabilities limits <? section_len capability_section
  then limit_error CAPABILITIES (entry_offset capabilities_entry) "capability limit exceeded" else
  capabilities ← parse_capabilities capability_section;
  if max_modules limits <? section_len module_section
  then limit_error MODULES (entry_offset modules_entry) "module limit exceeded" else
  if existsb (fun e => is_module (entry_kind e) && (section_len module_section <? scope e)) (directory container)
  then Err (single limits (at_ BadSection MODULES (entry_offset modules_entry) "module section scope is not dense")) else
  modules ← decode_modules container module_section (entry_offset modules_entry) (ids module_section) (mkTotals 0 0 0 0 0 0 0 0 0);
  _ ← validate_local_tables (container_header container) manifest capabilities modules;
  content ← expect (slice_get 0 (size bytes - DIGEST_SIZE) bytes);
  Ok (mkArtifact bytes (sha256 content) (container_header container) manifest capabilities modules).

End Decode.

End Tables.
