(* ===== verification/Modules.v ===== *)
(** src/verify/modules.rs: the semantic hashes of modules, the order of imports, the
    resolution of imports to exports, and the nominal types.

    The SHA-256 of the sha2 crate is the parameter [sha256]; a hasher fed in pieces
    is the digest of their concatenation.  Both depth-first searches, over the
    imports of modules and over the supertypes of types, are [search]. *)

From S2P Require Import Prelude Words Unicode Bytes BTree Path Value Frame Float Code Artifact Verify Container Records Tables.
Import Diagnostics Artifact Container Records Tables.

Module Modules.
Import Container.

(** ** Depth-first search

    [edges] has the targets of each node; 0, 1 and 2 mark the nodes not seen, on the
    stack and done.  The head of [stack] is its top. *)

Record Search := mkSearch { marks : list Z; order : list Z }.

Section Search.
Context (edges : list (list Z)) (check : Z -> Z -> Dia unit) (cycle : Z -> DiagnosticSet).

(** The [while] loop. *)
Fixpoint search_loop (fuel : nat) (stack : list (Z * Z)) (s : Search) : Dia Search :=
  match stack with
  | [] => Ok s
  | (node, edge) :: stack =>
      match fuel with
      | O => Panic
      | S fuel =>
          targets ← expect (zget edges node);
          if edge =? size targets then
            _ ← expect (zget (marks s) node);
            search_loop fuel stack (mkSearch (zset node 2 (marks s)) (order s ++ [node]))
          else
            target ← expect (zget targets edge);
            _ ← check node target;
            mark ← expect (zget (marks s) target);
            if mark =? 0 then
              search_loop fuel ((target, 0) :: (node, edge + 1) :: stack) (mkSearch (zset target 1 (marks s)) (order s))
            else if mark =? 1 then Err (cycle node)
            else search_loop fuel ((node, edge + 1) :: stack) s
      end
  end.

(** Each node is pushed and popped once, and each edge followed once. *)
Definition search_fuel : nat := S (list_sum (map (fun ts => S (length ts)) edges)).

(** [for root in 0..edges.len()]. *)
Fixpoint search_roots (roots : list Z) (s : Search) : Dia Search :=
  match roots with
  | [] => Ok s
  | root :: roots =>
      mark ← expect (zget (marks s) root);
      if negb (mark =? 0) then search_roots roots s
      else
        s ← search_loop search_fuel [(root, 0)] (mkSearch (zset root 1 (marks s)) (order s));
        search_roots roots s
  end.

Definition search : Dia Search :=
  search_roots (seqZ 0 (size edges)) (mkSearch (replicate (length edges) 0) []).

End Search.

Section Verify.
Context (sha256 : list Z -> list Z) (art : DecodedArtifact) (depth : nat) (limits : ArtifactLimits).

(** ** Errors *)

Definition located (f : Family) (c : Diagnostics.Code) (module : Z) (d : string) : DiagnosticSet :=
  let e := diagnostic f c 0 d in
  let l := location e in
  single limits (mkDiagnostic (family e) (Diagnostics.code e)
    (mkLocation (offset l) (section l) (try_from_unsigned u32_max module) (function l) (block l) (instruction l)) (detail e)).

Definition failure (module : Z) (d : string) : DiagnosticSet := located Module_ BadModule module d.
Definition symbol_failure (module : Z) (d : string) : DiagnosticSet := located Symbol BadSymbol module d.
Definition type_failure (module : Z) (d : string) : DiagnosticSet := located Type_ BadType module d.

(** [iter().enumerate()]. *)
Definition enumerated {A} (l : list A) : list (Z * A) := imap (fun i x => (Z.of_nat i, x)) l.

(** ** Semantic hashes *)

Definition MODULE_DOMAIN : list Z := text "Compukter module v2" ++ [0].
Definition SEMANTIC_MODULE_SECTIONS : list Z :=
  [STRINGS; TYPES; CONSTANTS; IMPORTS; EXPORTS; FIELDS; FUNCTIONS; BLOCKS; CODE; EXCEPTIONS; UTF16_LITERALS; SAFEPOINT_ROOTS].

Definition row_bytes (row : SafepointRoots) : Z := 16 + 4 * size (references row).

(** The offsets of the rows after [off]. *)
Fixpoint row_offsets (off : Z) (roots : list SafepointRoots) : Dia (list Z) :=
  match roots with
  | [] => Ok []
  | row :: roots =>
      off ← expect (checked_add u32_max off (wrap_unsigned 32 (row_bytes row)));
      rest ← row_offsets off roots;
      Ok (le_bytes 4 off ++ rest)
  end.

Definition row_record (row : SafepointRoots) : list Z :=
  le_bytes 4 (roots_function row) ++ le_bytes 4 (roots_block row) ++ le_bytes 4 (instruction_boundary row) ++
  le_bytes 2 (size (references row)) ++ le_bytes 2 0 ++
  concat (map (fun r => le_bytes 2 (Frame.vc_value r) ++ le_bytes 2 (Frame.vc_component r)) (references row)).

Definition hash_canonical_roots (roots : list SafepointRoots) : Dia (list Z) :=
  let count := size roots in
  let records_bytes := foldr Z.add 0 (map row_bytes roots) in
  let prefix := Z.ldiff (16 + 4 * (count + 1) + 7) 7 in
  offs ← row_offsets 0 roots;
  padding ← expect (slice_get 0 (prefix - (16 + 4 * (count + 1))) (replicate 7 0));
  Ok (le_bytes 2 SAFEPOINT_ROOTS ++ le_bytes 8 (prefix + records_bytes) ++ le_bytes 4 count ++ le_bytes 4 0 ++
      le_bytes 8 records_bytes ++ le_bytes 4 0 ++ offs ++ padding ++ concat (map row_record roots)).

Definition hashed_section (container : Container) (module_id scope : Z) (m : DecodedModule) (kind : Z) : Dia (list Z) :=
  entry ← ok_or (optional_entry container scope kind) (failure module_id "semantic module section is missing");
  if (kind =? SAFEPOINT_ROOTS) && bool_decide (is_Some (optional_entry container scope SAFEPOINT_ROOT_RANGES))
  then hash_canonical_roots (safepoint_roots m)
  else
    start ← ok_or (try_from_unsigned usize_max (entry_offset entry)) (failure module_id "section offset does not fit usize");
    length ← ok_or (try_from_unsigned usize_max (entry_length entry)) (failure module_id "section length does not fit usize");
    stop ← ok_or (checked_add usize_max start length) (failure module_id "section range overflows usize");
    payload ← ok_or (slice_get start stop (art_bytes art)) (failure module_id "section range is outside artifact");
    Ok (le_bytes 2 kind ++ le_bytes 8 (entry_length entry) ++ payload).

Definition verify_hash (container : Container) (entry : Z * DecodedModule) : Dia unit :=
  let '(module_id, m) := entry in
  scope ← ok_or (id ← try_from_unsigned u32_max module_id; checked_add u32_max id 1) (failure module_id "module scope overflows u32");
  parts ← collect (hashed_section container module_id scope m) SEMANTIC_MODULE_SECTIONS;
  if negb (bool_decide (sha256 (MODULE_DOMAIN ++ concat parts) = semantic_hash m))
  then Err (failure module_id "module semantic SHA-256 does not match") else Ok tt.

(** ** The order of imports *)

Definition topological_module_order : Dia (list Z) :=
  s ← search (map (fun m => map target_module (imports m)) (modules art))
        (fun module_id target => if size (modules art) <=? target
                                 then Err (symbol_failure module_id "import target module is out of range") else Ok tt)
        (fun module_id => failure module_id "module import graph contains a cycle");
  Ok (order s).

Definition export_matches (module_id : Z) (import : Import) (target_id : Z) (target : DecodedModule) (target_name : list Z)
    (e : Export) : Dia bool :=
  if negb (export_kind e =? import_kind import) then Ok false else
  name ← string_at target (export_name e);
  if negb (bool_decide (name = target_name)) then Ok false else
  signatures_match art depth module_id (expected_signature import) target_id (export_signature e).

(** [matches.next()]: the exports after the next match. *)
Fixpoint next_match (matches : Export -> Dia bool) (exports : list Export) : Dia (option (list Export)) :=
  match exports with
  | [] => Ok None
  | e :: exports => b ← matches e; if (b : bool) then Ok (Some exports) else next_match matches exports
  end.

Definition resolve_import (module_id : Z) (source : DecodedModule) (import : Import) : Dia unit :=
  let target_id := target_module import in
  target ← module_at art target_id;
  if negb (bool_decide (target_hash import = semantic_hash target))
  then Err (symbol_failure module_id "import target semantic hash does not match") else
  target_name ← string_at source (target_name import);
  let matches := export_matches module_id import target_id target target_name in
  first ← next_match matches (exports target);
  match first with
  | None => Err (symbol_failure module_id "import does not resolve to exactly one export")
  | Some rest =>
      second ← next_match matches rest;
      match second with
      | None => Ok tt
      | Some _ => Err (symbol_failure module_id "import does not resolve to exactly one export")
      end
  end.

Definition resolve_imports_and_exports (order : list Z) : Dia unit :=
  each (fun module_id =>
          source ← module_at art module_id;
          each (resolve_import module_id source) (imports source)) order.

(** ** Nominal types *)

Definition check_value (module_id : Z) (v : ValueType) : Dia unit :=
  if (kind v =? 7) || (kind v =? 8) then
    resolved ← resolved_type art module_id (nominal_type v);
    target ← ok_or resolved (type_failure module_id "nominal value type does not resolve");
    t ← type_at art target;
    let inline := match t with InlineValue _ _ => true | _ => false end in
    if negb (eqb (kind v =? 8) inline) || ((kind v =? 8) && (runtime_minor (header art) <? 15))
    then Err (type_failure module_id "inline and managed reference representations must match their nominal type") else Ok tt
  else Ok tt.

(** The values a type is made of. *)
Definition type_values (t : NominalType) : list ValueType :=
  match t with
  | InlineValue _ components => components
  | Array _ _ element _ => [element]
  | Function_ _ _ result parameters => result :: parameters
  | _ => []
  end.

Definition check_storage (module_id : Z) (t : NominalType) : Dia unit :=
  match t with
  | Array _ storage element _ =>
      if negb (storage =? 0) then
        if runtime_minor (header art) <? 14 then Err (type_failure module_id "explicit array storage requires Runtime ABI 1.14")
        else if (6 <? storage) || negb (kind element =? (if storage =? 6 then 2 else 1))
        then Err (type_failure module_id "array storage does not match element scalar kind") else Ok tt
      else Ok tt
  | _ => Ok tt
  end.

Definition check_inline (module_id : Z) (t : NominalType) : Dia unit :=
  match t with
  | InlineValue _ _ =>
      if runtime_minor (header art) <? 15 then Err (type_failure module_id "inline layouts require Runtime ABI 1.15") else Ok tt
  | Array _ _ element _ =>
      if kind element =? 8 then Err (type_failure module_id "heap arrays require boxed inline elements") else Ok tt
  | _ => Ok tt
  end.

Definition is_class (t : NominalType) : bool := match t with Class _ _ _ _ _ _ _ _ _ _ => true | _ => false end.
Definition is_interface (t : NominalType) : bool := match t with Interface _ _ _ _ _ _ _ => true | _ => false end.

(** The class an array or the Throwable root may extend: no state, no parent. *)
Definition stateless_root (t : NominalType) : bool :=
  match t with
  | Class flags generic_arity _ super_type interfaces _ field_count _ method_count None =>
      (flags =? 0) && (generic_arity =? 0) && (field_count =? 0) && (super_type =? u32_max) && bool_decide (interfaces = [])
      && ((method_count =? 0) || (10 <=? runtime_minor (header art)))
  | _ => false
  end.

Definition global_type (prefixes : list Z) (value : Z * Z) : Dia Z :=
  prefix ← expect (zget prefixes value.1); Ok (prefix + value.2).

(** A reference that must resolve to a type of a kind: its node in the graph. *)
Definition edge_to (prefixes : list Z) (module_id reference : Z) (accept : NominalType -> bool) (missing wrong : string) : Dia Z :=
  resolved ← resolved_type art module_id reference;
  target ← ok_or resolved (type_failure module_id missing);
  t ← type_at art target;
  if negb (accept t) then Err (type_failure module_id wrong) else global_type prefixes target.

Definition add_interfaces (prefixes : list Z) (module_id : Z) (interfaces : list Z) : Dia (list Z) :=
  collect (fun i => edge_to prefixes module_id i is_interface "interface reference does not resolve" "implemented type is not an interface")
    interfaces.

Definition verify_owned_range (module_id type_id start count : Z) (fields_ : bool) : Dia unit :=
  m ← module_at art module_id;
  let owners := if fields_ then map field_owner (fields m) else map fn_owner (functions m) in
  match checked_add usize_max start count with
  | Some stop =>
      if stop <=? size owners then
        each (fun id =>
                owner ← expect (zget owners id);
                if negb (owner =? wrap_unsigned 32 type_id)
                then Err (type_failure module_id "owned member range contains a different owner") else Ok tt)
          (seqZ start count)
      else Err (type_failure module_id "owned member range is out of bounds")
  | None => Err (type_failure module_id "owned member range is out of bounds")
  end.

Definition is_async (i : Code.Instruction) : bool :=
  match i with Code.CallSuspend _ _ _ _ | Code.CapabilityCallAsync _ _ _ _ _ => true | _ => false end.

Definition initializer_signature (t : NominalType) : bool :=
  match t with
  | Function_ _ flags result parameters => (flags =? 0) && (kind result =? 0) && bool_decide (parameters = [])
  | _ => false
  end.

Definition verify_initializer (module_id type_id : Z) (m : DecodedModule) (initializer : Z) : Dia unit :=
  f ← ok_or (zget (functions m) initializer) (type_failure module_id "class initializer does not resolve");
  resolved ← resolved_type art module_id (signature f);
  valid_signature ← match resolved with
                    | Some target => m' ← module_at art target.1; Ok (from_option initializer_signature false (zget (types m') target.2))
                    | None => Ok false
                    end;
  if negb (fn_owner f =? wrap_unsigned 32 type_id) || negb (Z.land (fn_flags f) 11 =? 2) || negb (parameter_count f =? 0)
    || negb valid_signature
  then Err (type_failure module_id "class initializer signature or owner is invalid") else
  end_block ← ok_or (checked_add usize_max (first_block f) (block_count f))
                (type_failure module_id "class initializer block range overflows usize");
  codes ← ok_or (slice_get (first_block f) end_block (code m)) (type_failure module_id "class initializer block range does not resolve");
  if existsb (fun c => existsb is_async (instructions c)) codes
  then Err (type_failure module_id "class initializer contains an asynchronous operation") else Ok tt.

(** The supertypes of a type, as nodes of the graph of types. *)
Definition type_edges (prefixes : list Z) (module_id : Z) (m : DecodedModule) (type_id : Z) (t : NominalType) : Dia (list Z) :=
  match t with
  | Class flags _ _ super_type interfaces field_start field_count method_start method_count initializer =>
      if Z.land flags 3 =? 3 then Err (type_failure module_id "class cannot be both abstract and final") else
      super ← (if negb (super_type =? u32_max) then
                 e ← edge_to prefixes module_id super_type is_class "superclass reference does not resolve" "superclass is not a class";
                 Ok [e]
               else Ok []);
      faces ← add_interfaces prefixes module_id interfaces;
      _ ← verify_owned_range module_id type_id field_start field_count true;
      _ ← verify_owned_range module_id type_id method_start method_count false;
      _ ← match initializer with Some i => verify_initializer module_id type_id m i | None => Ok tt end;
      Ok (super ++ faces)
  | Interface _ _ _ super_type interfaces method_start method_count =>
      super ← (if negb (super_type =? u32_max) then
                 e ← edge_to prefixes module_id super_type is_interface "interface parent does not resolve" "interface parent is not an interface";
                 Ok [e]
               else Ok []);
      faces ← add_interfaces prefixes module_id interfaces;
      _ ← verify_owned_range module_id type_id method_start method_count false;
      Ok (super ++ faces)
  | Array _ _ _ (Some parent) =>
      if (runtime_major (header art) <? 1) || ((runtime_major (header art) =? 1) && (runtime_minor (header art) <? 7))
      then Err (type_failure module_id "array superclass requires Runtime ABI 1.7") else
      e ← edge_to prefixes module_id parent stateless_root "array superclass does not resolve" "array superclass must be a stateless root class";
      Ok [e]
  | _ => Ok []
  end.

Definition verify_type (prefixes : list Z) (module_id : Z) (m : DecodedModule) (entry : Z * NominalType) : Dia (list Z) :=
  let '(type_id, t) := entry in
  _ ← each (check_value module_id) (type_values t);
  _ ← check_storage module_id t;
  _ ← check_inline module_id t;
  type_edges prefixes module_id m type_id t.

Definition verify_field (module_id : Z) (f : Field) : Dia unit :=
  if kind (Artifact.value_type f) =? 8 then Err (type_failure module_id "heap fields require boxed inline values") else
  resolved ← resolved_type art module_id (field_owner f);
  owner ← ok_or resolved (type_failure module_id "field owner does not resolve");
  t ← type_at art owner;
  if negb (is_class t) then Err (type_failure module_id "field owner is not a class") else Ok tt.

Definition verify_module_types (prefixes : list Z) (entry : Z * DecodedModule) : Dia (list (list Z)) :=
  let '(module_id, m) := entry in
  _ ← each (fun f => each (fun v => check_value module_id (semantic_type v)) (values f)) (functions m);
  _ ← each (fun f => check_value module_id (Artifact.value_type f)) (fields m);
  edges ← collect (verify_type prefixes module_id m) (enumerated (types m));
  _ ← each (verify_field module_id) (fields m);
  Ok edges.

(** [prefixes]: the node of the first type of each module, and the number of types. *)
Fixpoint type_prefixes (next : Z) (ms : list DecodedModule) : Dia (list Z) :=
  match ms with
  | [] => Ok [next]
  | m :: ms =>
      n ← ok_or (checked_add usize_max next (size (types m))) (type_failure 0 "total type count overflows usize");
      rest ← type_prefixes n ms;
      Ok (next :: rest)
  end.

(** The module of a node: [prefixes.windows(2).position(..)]. *)
Fixpoint module_of_node (prefixes : list Z) (node index : Z) : option Z :=
  match prefixes with
  | a :: (b :: _) as rest => if (a <=? node) && (node <? b) then Some index else module_of_node rest node (index + 1)
  | _ => None
  end.

Definition reject_type_cycles (edges : list (list Z)) (prefixes : list Z) : Dia unit :=
  _ ← search edges (fun _ _ => Ok tt)
        (fun node => type_failure (Z.min (default 0 (module_of_node prefixes node 0)) (saturating_sub (size (modules art)) 1))
                       "nominal type graph contains a cycle");
  Ok tt.

Definition verify_nominal_types : Dia unit :=
  prefixes ← type_prefixes 0 (modules art);
  edges ← collect (verify_module_types prefixes) (enumerated (modules art));
  reject_type_cycles (concat edges) prefixes.

Definition verify_modules : Dia unit :=
  container ← decode_container sha256 limits (art_bytes art);
  _ ← each (verify_hash container) (enumerated (modules art));
  order ← topological_module_order;
  _ ← resolve_imports_and_exports order;
  verify_nominal_types.

End Verify.

End Modules.
