(* ===== verification/TablesProps.v ===== *)
(** [decode_artifact] on arbitrary bytes: it never panics, and an artifact it returns
    has tables whose references are all in range, code that is canonical, roots that
    are references, sizes within the limits and the digest of its contents. *)

From S2P Require Import Prelude Words Unicode Bytes Value Float Code CodeProps Frame Path BTree Artifact Verify Container Records Tables.

(** Total decoding: [safe P o], an outcome that is not a panic and whose value has
    [P], and [reads P m], a read of the cursor with the same guarantee from every
    cursor inside its buffer.  The lemmas follow the shape of the decoders, and the
    database [reads] and the tactic [read_ok] run them. *)

Import Diagnostics Cursor.

Module Total.
Import Artifact Container.

Definition safe {E A} (P : A -> Prop) (o : outcome E A) : Prop :=
  match o with Ok a => P a | Err _ => True | Panic => False end.

Definition reads {E A} (P : A -> Prop) (m : ST Cursor E A) : Prop := forall c, cursor_ok c ->
  match m c with
  | (Ok a, c') => P a /\ cursor_ok c' /\ bytes c' = bytes c
  | (Err _, _) => True
  | (Panic, _) => False
  end.

(** ** Outcomes *)

Lemma safe_bind {E A B} (P : A -> Prop) (Q : B -> Prop) (o : outcome E A) (f : A -> outcome E B) :
  safe P o -> (forall a, o = Ok a -> P a -> safe Q (f a)) -> safe Q (o ≫= f).
Proof. destruct o; simpl; intros Ho Hf; [by apply Hf|done|done]. Qed.

Lemma safe_mono {E A} (P Q : A -> Prop) (o : outcome E A) : safe P o -> (forall a, o = Ok a -> P a -> Q a) -> safe Q o.
Proof. destruct o; simpl; auto. Qed.

Lemma safe_ok_or {E A} (o : option A) (e : E) : safe (fun a => o = Some a) (ok_or o e).
Proof. by destruct o. Qed.

Lemma safe_map_err {E F A} (f : E -> F) P (o : outcome E A) : safe P o -> safe P (map_err f o).
Proof. by destruct o. Qed.

Lemma safe_expect {E A} (o : option A) : is_Some o -> safe (E:=E) (fun a => o = Some a) (expect o).
Proof. by intros [a ->]. Qed.

Lemma safe_slice {E A} (l : list A) start stop : start <= stop <= Z.of_nat (length l) ->
  safe (E:=E) (fun bs => bs = slice start (stop - start) l) (expect (slice_get start stop l)).
Proof.
  intros H. eapply safe_mono; [apply safe_expect|].
  - unfold slice_get. rewrite !(proj2 (Z.leb_le _ _)) by lia. by eexists.
  - simpl. intros bs _ Hs. by apply slice_get_Some in Hs as [-> _].
Qed.

Lemma safe_collect {A B} (f : A -> Dia B) (P : A -> B -> Prop) l : (forall x, x ∈ l -> safe (P x) (f x)) ->
  safe (fun ys => Forall2 P l ys) (Records.collect f l).
Proof.
  induction l as [|x l IH]; intros H; simpl; [constructor|].
  eapply safe_bind; [apply H; set_solver|]. intros y _ Hy. eapply safe_bind; [apply IH; set_solver|].
  intros ys _ Hys. by constructor.
Qed.

Lemma safe_each {A} (f : A -> Dia unit) (P : A -> Prop) l : (forall x, x ∈ l -> safe (fun _ => P x) (f x)) ->
  safe (fun _ => Forall P l) (Records.each f l).
Proof.
  induction l as [|x l IH]; intros H; simpl; [constructor|].
  eapply safe_bind; [apply H; set_solver|]. intros y _ Hy. eapply safe_mono; [apply IH; set_solver|].
  intros ys _ Hys. by constructor.
Qed.

(** ** Total *)

Lemma rd_bind {E A B} (P : A -> Prop) (Q : B -> Prop) (m : ST Cursor E A) (f : A -> ST Cursor E B) :
  reads P m -> (forall a, P a -> reads Q (f a)) -> reads Q (m ≫= f).
Proof.
  intros Hm Hf c Hc. specialize (Hm c Hc). unfold mbind, ST_bind. destruct (m c) as [[a|e|] c1]; [|done|done].
  destruct Hm as (Ha & Hc1 & Hb). specialize (Hf a Ha c1 Hc1). destruct (f a c1) as [[b|e|] c2]; [|done|done].
  destruct Hf as (? & ? & ->). done.
Qed.

Lemma rd_mono {E A} (P Q : A -> Prop) (m : ST Cursor E A) : reads P m -> (forall a, P a -> Q a) -> reads Q m.
Proof. intros Hm H c Hc. specialize (Hm c Hc). destruct (m c) as [[a|e|] c1]; naive_solver. Qed.

Lemma rd_ret {E A} (P : A -> Prop) (a : A) : P a -> reads (E:=E) P (mret a).
Proof. intros Ha c Hc. done. Qed.

Lemma rd_err {E A} (P : A -> Prop) (e : E) : reads P (st_err e).
Proof. by intros c Hc. Qed.

Lemma rd_lift {E A} (P : A -> Prop) (o : outcome E A) : safe P o -> reads P (st_lift o).
Proof. intros Ho c Hc. unfold st_lift. by destruct o. Qed.

Lemma rd_mapped {E F A} (f : E -> F) (P : A -> Prop) (m : ST Cursor E A) : reads P m -> reads P (mapped f m).
Proof. intros Hm c Hc. specialize (Hm c Hc). unfold mapped. by destruct (m c) as [[a|e|] c1]. Qed.

Lemma rd_if {E A} (P : A -> Prop) (b : bool) (m n : ST Cursor E A) :
  (b = true -> reads P m) -> (b = false -> reads P n) -> reads P (if b then m else n).
Proof. destruct b; auto. Qed.

Lemma rd_deny b e : reads (fun _ => b = false) (Records.deny b e).
Proof. apply rd_lift. by destruct b. Qed.

Lemma rd_finish record valid : reads (fun _ => valid = true) (Records.finish record valid).
Proof. intros c Hc. unfold Records.finish. by destruct (valid && _) eqn:E; bsimp. Qed.

Lemma rd_position {E} : reads (E:=E) (fun z => 0 <= z <= usize_max) (st_read (fun c => Ok (position c))).
Proof. intros c Hc. unfold st_read. split; [|done]. destruct Hc as (_ & ? & ?). lia. Qed.

Lemma rd_take n : 0 <= n -> reads (fun bs => is_bytes bs /\ Z.of_nat (length bs) = n) (take n).
Proof.
  intros Hn c Hc. pose proof (rest_length c Hc). destruct (decide (n <= Z.of_nat (length (rest c)))) as [Hle|Hgt].
  - rewrite <- (Z2Nat.id n) by done. rewrite take_ok by (done || lia). split; [|split; [apply advance_ok; [done|lia]|done]].
    split; [|rewrite length_take; lia]. apply Forall_take, Forall_drop, Hc.
  - by destruct (take_short c n Hc) as (e & -> & _); [lia|].
Qed.

Lemma rd_utf8 n : 0 <= n -> reads (fun bs => utf8_valid bs = true) (read_utf8 n).
Proof.
  intros Hn c Hc. unfold read_utf8. apply (rd_bind _ _ _ _ (rd_take n Hn)); [|done]. intros bs [_ _].
  destruct (utf8_valid bs) eqn:E; [by apply rd_ret|apply rd_err].
Qed.

Lemma le_val_range bs (n : nat) : is_bytes bs -> Z.of_nat (length bs) = Z.of_nat n -> 0 <= le_val bs <= 256 ^ Z.of_nat n - 1.
Proof. intros Hb Hn. pose proof (le_val_bound bs Hb) as H. rewrite Hn in H. lia. Qed.

Lemma rd_u8 : reads is_byte read_u8.
Proof.
  eapply rd_bind; [by apply rd_take|]. intros [|b bs] [Hb Hl]; [done|]. apply rd_lift. by inversion Hb.
Qed.

Lemma rd_u16 : reads (fun v => 0 <= v <= u16_max) read_u16.
Proof. eapply rd_bind; [by apply rd_take|]. intros bs [Hb Hl]. apply rd_ret. by apply (le_val_range bs 2). Qed.

Lemma rd_u32 : reads (fun v => 0 <= v <= u32_max) read_u32.
Proof. eapply rd_bind; [by apply rd_take|]. intros bs [Hb Hl]. apply rd_ret. by apply (le_val_range bs 4). Qed.

Lemma rd_u64 : reads (fun v => 0 <= v <= u64_max) read_u64.
Proof. eapply rd_bind; [by apply rd_take|]. intros bs [Hb Hl]. apply rd_ret. by apply (le_val_range bs 8). Qed.

Lemma rd_i32 : reads (fun v => i32_min <= v <= i32_max) read_i32.
Proof.
  eapply rd_bind; [by apply rd_take|]. intros bs [Hb Hl]. apply rd_ret. unfold as_signed.
  pose proof (wrap_signed_range 32 (le_val bs)). unfold i32_min, i32_max. lia.
Qed.

Lemma rd_repeat {A} (P : A -> Prop) (m : Code.Dec A) n : reads P m ->
  reads (fun l => length l = n /\ Forall P l) (Code.repeat_read n m).
Proof.
  intros Hm. induction n as [|n IH]; cbn [Code.repeat_read]; [by apply rd_ret|].
  eapply rd_bind; [exact Hm|]. intros v Hv. eapply rd_bind; [exact IH|]. intros vs [Hl Hvs].
  apply rd_ret. split; [simpl; lia|by constructor].
Qed.

(** Total of one buffer. *)
Definition reads_in {E A} (bs : list Z) (P : A -> Prop) (m : ST Cursor E A) : Prop := forall c, cursor_ok c -> bytes c = bs ->
  match m c with
  | (Ok a, c') => P a /\ cursor_ok c' /\ bytes c' = bs
  | (Err _, _) => True
  | (Panic, _) => False
  end.

Lemma rd_any {E A} bs (P : A -> Prop) (m : ST Cursor E A) : reads P m -> reads_in bs P m.
Proof. intros Hm c Hc Hb. specialize (Hm c Hc). destruct (m c) as [[a|e|] c1]; [|done|done]. by rewrite Hb in Hm. Qed.

Lemma rd_in_bind {E A B} bs (P : A -> Prop) (Q : B -> Prop) (m : ST Cursor E A) (f : A -> ST Cursor E B) :
  reads_in bs P m -> (forall a, P a -> reads_in bs Q (f a)) -> reads_in bs Q (m ≫= f).
Proof.
  intros Hm Hf c Hc Hb. specialize (Hm c Hc Hb). unfold mbind, ST_bind. destruct (m c) as [[a|e|] c1]; [|done|done].
  destruct Hm as (Ha & Hc1 & Hb1). by apply (Hf a Ha c1 Hc1 Hb1).
Qed.

Lemma rd_in_run {E A} (P : A -> Prop) (m : ST Cursor E A) bs :
  reads_in bs P m -> is_bytes bs -> Z.of_nat (length bs) <= usize_max -> safe P (m (cursor_new bs)).1.
Proof.
  intros Hm Hb Hl. specialize (Hm (cursor_new bs) ltac:(split_and!; simpl; done || lia) eq_refl).
  destruct (m (cursor_new bs)) as [[a|e|] c]; simpl; tauto.
Qed.

(** Text, and where in the buffer it is. *)
Lemma read_utf8_in c n s c' : cursor_ok c -> 0 <= n -> read_utf8 n c = (Ok s, c') ->
  s = slice (position c) n (bytes c) /\ position c + n <= Z.of_nat (length (bytes c)) /\ utf8_valid s = true.
Proof.
  intros Hc Hn H. pose proof (rest_length c Hc). unfold read_utf8 in H. apply st_bind_inv in H as (bs & c1 & Ht & H).
  destruct (utf8_valid bs) eqn:E; [|done]. injection H as <- _.
  destruct (decide (n <= Z.of_nat (length (rest c)))) as [Hle|Hgt].
  - rewrite <- (Z2Nat.id n) in Ht by done. rewrite take_ok in Ht by (done || lia). injection Ht as <- _. split; [done|]. split; [lia|done].
  - destruct (take_short c n Hc) as (e & He & _); [lia|]. congruence.
Qed.

(** A read from the start of a buffer. *)
Lemma rd_run {E A} (P : A -> Prop) (m : ST Cursor E A) bs :
  reads P m -> is_bytes bs -> Z.of_nat (length bs) <= usize_max -> safe P (m (cursor_new bs)).1.
Proof.
  intros Hm Hb Hl. specialize (Hm (cursor_new bs) ltac:(split_and!; simpl; done || lia)).
  destruct (m (cursor_new bs)) as [[a|e|] c]; simpl; tauto.
Qed.

End Total.

Create HintDb reads.
#[export] Hint Resolve Total.rd_mapped Total.rd_u8 Total.rd_u16 Total.rd_u32 Total.rd_u64 Total.rd_i32
  Total.rd_deny Total.rd_finish Total.rd_position Total.rd_repeat : reads.
#[export] Hint Extern 2 (Total.reads _ (Cursor.take _)) => apply Total.rd_take; lia : reads.

(** Walks through reads that do not depend on the buffer. *)
Ltac read_in :=
  repeat match goal with
  | |- Total.reads_in _ _ (mbind _ _) => eapply Total.rd_in_bind; [apply Total.rd_any; solve [eauto with reads]|]; intros ? ?; cbv beta in *
  end.

(** Walks through a chain of reads up to its results. *)
Ltac read_ok :=
  repeat match goal with
  | |- Total.reads _ (mbind _ _) => eapply Total.rd_bind; [solve [eauto with reads]|]; intros ? ?; cbv beta in *
  | |- Total.reads _ (mret _) => apply Total.rd_ret
  | |- Total.reads _ (st_err _) => apply Total.rd_err
  | |- Total.reads _ (if _ then _ else _) => apply Total.rd_if; intros ?
  | |- Total.reads _ (st_lift (Err _)) => apply Total.rd_lift; exact I
  end.

(** The container and the indexed sections: decoding never panics, sections lie
    inside the artifact, and the records of a section are slices of it. *)

Import Diagnostics Cursor.

Module ContainerProps.
Import Artifact Container Total.

Definition u16 (v : Z) : Prop := 0 <= v <= u16_max.
Definition u32 (v : Z) : Prop := 0 <= v <= u32_max.

Definition header_ok (h : Header) : Prop :=
  u16 (runtime_major h) /\ u16 (runtime_minor h) /\ u32 (section_count h) /\ 0 <= payload_end h /\
  u32 (entry_module h) /\ u32 (entry_function h).

(** A section of an artifact whose payload has [len] bytes. *)
Definition entry_ok (len : Z) (e : DirectoryEntry) : Prop :=
  u32 (scope e) /\ u32 (element_count e) /\ 0 <= entry_offset e /\ 0 <= entry_length e /\ entry_offset e + entry_length e <= len.

(** What the digest covers, and the digest. *)
Definition payload_of (bytes : list Z) : list Z := slice 0 (Z.of_nat (length bytes) - DIGEST_SIZE) bytes.
Definition digest_of (bytes : list Z) : list Z := slice (Z.of_nat (length bytes) - DIGEST_SIZE) DIGEST_SIZE bytes.

Record container_ok (sha256 : list Z -> list Z) (c : Container) : Prop := {
  co_bytes : is_bytes (container_bytes c);
  co_length : Z.of_nat (length (container_bytes c)) <= usize_max;
  co_digest : DIGEST_SIZE <= Z.of_nat (length (container_bytes c));
  co_header : header_ok (container_header c);
  co_trailer : sha256 (payload_of (container_bytes c)) = digest_of (container_bytes c);
  co_directory : Forall (entry_ok (Z.of_nat (length (container_bytes c)))) (directory c) }.

Section Decode.
Context (sha256 : list Z -> list Z) (limits : ArtifactLimits).

Lemma read_header_ok : reads header_ok (read_header limits).
Proof.
  unfold read_header, plain, fail. eapply rd_bind; [by apply rd_mapped, rd_take|]. intros magic _. read_ok.
  eapply (rd_bind (fun _ => True)).
  { apply rd_lift. repeat destruct (_ =? _); done. }
  intros args _. read_ok. unfold header_ok, u16, u32. simpl. tauto || (split_and!; lia).
Qed.

Lemma check_zero_safe bytes start stop : safe (fun _ => True) (check_zero limits bytes start stop).
Proof. unfold check_zero, fail. by destruct (match slice_get _ _ _ with Some _ => _ | None => _ end). Qed.

Lemma validate_entry_safe e r off : safe (fun _ => True) (validate_entry limits e r off).
Proof.
  unfold validate_entry, fail. destruct (_ || _); [done|]. destruct (_ || _); [done|].
  eapply (safe_bind (fun _ => True)); [repeat case_match; done|]. intros _ _ _. by destruct (_ <? _).
Qed.

Lemma directory_entries_ok n bytes payload : forall index previous expected,
  reads (Forall (entry_ok payload)) (directory_entries limits n bytes payload index previous expected).
Proof.
  induction n as [|n IH]; intros index previous expected; cbn [directory_entries]; [by apply rd_ret|].
  unfold relocated, fail. read_ok.
  eapply rd_bind; [apply rd_lift, validate_entry_safe|]. intros _ _. apply rd_if; [intros _; read_ok|]. intros _.
  eapply rd_bind; [apply rd_lift, safe_ok_or|]. intros off Hoff. apply try_from_unsigned_Some in Hoff.
  eapply rd_bind; [apply rd_lift, safe_ok_or|]. intros len Hlen. apply try_from_unsigned_Some in Hlen.
  apply rd_if; [intros _; read_ok|]. intros _.
  eapply rd_bind; [apply rd_lift, safe_ok_or|]. intros stop Hstop. apply checked_add_Some in Hstop.
  apply rd_if; [intros _; read_ok|]. intros Hs. apply Z.ltb_ge in Hs.
  eapply rd_bind; [apply rd_lift, safe_ok_or|]. intros next _.
  eapply rd_bind; [apply rd_lift, check_zero_safe|]. intros _ _.
  eapply rd_bind; [apply IH|]. intros rest Hrest. apply rd_ret. constructor; [|done].
  unfold entry_ok, u32. simpl. destruct Hoff as [-> ?], Hlen as [-> ?], Hstop as [-> ?]. split_and!; lia.
Qed.

Lemma decode_directory_ok bytes h : is_bytes bytes -> Z.of_nat (length bytes) <= usize_max -> header_ok h ->
  payload_end h <= Z.of_nat (length bytes) ->
  safe (Forall (entry_ok (payload_end h))) (decode_directory limits bytes h).
Proof.
  intros Hb Hl Hh Hp. unfold decode_directory, fail.
  eapply safe_bind; [apply safe_ok_or|]. intros n _ Hn. apply checked_mul_Some in Hn as [-> _].
  eapply safe_bind; [apply safe_ok_or|]. intros stop _ Hs. apply checked_add_Some in Hs as [-> _].
  destruct (Z.ltb_spec (payload_end h) (HEADER_SIZE + section_count h * DIRECTORY_ENTRY_SIZE)) as [|Hle]; [done|].
  assert (0 <= section_count h) by apply Hh. unfold HEADER_SIZE, DIRECTORY_ENTRY_SIZE in *.
  eapply safe_bind; [apply safe_slice; lia|]. intros table _ ->.
  eapply safe_bind; [apply safe_ok_or|]. intros expected _ _.
  eapply safe_bind; [apply check_zero_safe|]. intros _ _ _.
  eapply safe_bind; [eapply rd_run; [apply directory_entries_ok|by apply slice_Forall|rewrite slice_length; lia]|].
  intros entries _ He. by destruct (negb _).
Qed.

Lemma decode_container_ok bytes : is_bytes bytes -> artifact_bytes limits <= usize_max ->
  safe (fun c => container_ok sha256 c /\ container_bytes c = bytes) (decode_container sha256 limits bytes).
Proof.
  intros Hb Hlim. unfold decode_container, fail, HEADER_SIZE, DIGEST_SIZE.
  destruct (Z.ltb_spec (artifact_bytes limits) (Z.of_nat (length bytes))) as [|Hl]; [done|].
  destruct (Z.ltb_spec (Z.of_nat (length bytes)) (64 + 32)) as [|Hge]; [done|].
  eapply safe_bind.
  { unfold decode_header, HEADER_SIZE. eapply safe_bind; [apply safe_slice; lia|]. intros head _ ->.
    eapply rd_run; [apply read_header_ok|by apply slice_Forall|rewrite slice_length; lia]. }
  intros h _ Hh. eapply safe_bind; [apply safe_ok_or|]. intros payload _ Hp. apply try_from_unsigned_Some in Hp as [-> Hp].
  eapply safe_bind; [apply safe_ok_or|]. intros len _ Hn. apply checked_add_Some in Hn as [-> _].
  destruct (Z.eqb_spec (payload_end h + 32) (Z.of_nat (length bytes))) as [He|]; [|done]. simpl.
  eapply safe_bind; [apply safe_slice; lia|]. intros content _ Hcont.
  eapply safe_bind; [apply safe_slice; lia|]. intros trailer _ Htr. case_bool_decide as Hd; [|done]. simpl.
  eapply safe_bind; [apply decode_directory_ok; done || lia|]. intros entries _ Hes. simpl. split; [|done].
  split; simpl; try done; [lia|unfold DIGEST_SIZE; lia| |].
  { unfold payload_of, digest_of, DIGEST_SIZE. rewrite <- He. replace (payload_end h + 32 - 32) with (payload_end h - 0) by lia.
    rewrite <- Hcont, Hd, Htr. f_equal; lia. }
  eapply Forall_impl; [exact Hes|]. intros e (? & ? & ? & ? & ?). split_and!; done || lia.
Qed.

(** ** Indexed sections *)

(** A section of [bytes]: its records are a slice, delimited by ascending offsets. *)
Record section_ok (bytes : list Z) (s : IndexedSection) : Prop := {
  so_first : head (offsets s) = Some 0;
  so_last : last (offsets s) = Some (Z.of_nat (length (records s)));
  so_ascending : windows2 (fun a b => b <? a) (offsets s) = false;
  so_offset : 0 <= records_offset s;
  so_inside : records_offset s + Z.of_nat (length (records s)) <= Z.of_nat (length bytes);
  so_records : records s = slice (records_offset s) (Z.of_nat (length (records s))) bytes;
  so_count : section_len s <= records_per_section limits }.

Lemma align8_some v w : 0 <= v -> align8 v = Some w -> v <= w.
Proof.
  unfold align8. intros Hv H. destruct (checked_add usize_max v 7) as [x|] eqn:E; [|done]. injection H as <-.
  apply checked_add_Some in E as [-> _]. change 7 with (Z.ones 3). rewrite Z.ldiff_ones_r by done.
  rewrite Z.shiftl_mul_pow2, Z.shiftr_div_pow2 by done. change (2 ^ 3) with 8. change (Z.ones 3) with 7.
  pose proof (Z.div_mod (v + 7) 8). pose proof (Z.mod_pos_bound (v + 7) 8). lia.
Qed.

Lemma read_offsets_ok entry off n : reads (fun l => length l = n /\ Forall u32 l)
  ((fix loop (n : nat) : Read (list Z) :=
     match n with
     | O => mret []
     | S n => o ← section_read entry off read_u32; os ← loop n; mret (o :: os)
     end) n).
Proof.
  induction n as [|n IH]; [by apply rd_ret|]. unfold section_read in *.
  eapply rd_bind; [eauto with reads|]. intros o Ho. eapply rd_bind; [exact IH|]. intros os [Hl Hos].
  apply rd_ret. split; [simpl; lia|by constructor].
Qed.

Lemma read_indexed_ok bytes off entry payload : 0 <= off ->
  off + Z.of_nat (length payload) <= Z.of_nat (length bytes) -> payload = slice off (Z.of_nat (length payload)) bytes ->
  reads (section_ok bytes) (read_indexed limits entry off payload).
Proof.
  intros Hoff Hin Hp. unfold read_indexed, section_read. read_ok.
  eapply rd_bind; [apply rd_lift, safe_ok_or|]. intros count Hcount. apply try_from_unsigned_Some in Hcount.
  apply rd_if; intros Hlim; [apply rd_err|]. apply Z.ltb_ge in Hlim.
  eapply rd_bind; [apply rd_lift, safe_ok_or|]. intros n Hn. apply checked_add_Some in Hn as [-> _].
  eapply rd_bind; [apply read_offsets_ok|]. intros os [Hos _].
  eapply rd_bind; [apply rd_position|]. intros here Hhere. cbv beta in Hhere.
  eapply rd_bind; [apply rd_lift, safe_ok_or|]. intros start Hstart. apply align8_some in Hstart; [|lia].
  eapply rd_bind; [apply rd_mapped, rd_take; lia|]. intros padding _.
  apply rd_if; intros _; [apply rd_err|].
  eapply rd_bind; [apply rd_lift, safe_ok_or|]. intros total Htotal. apply try_from_unsigned_Some in Htotal.
  eapply rd_bind; [apply rd_lift, safe_ok_or|]. intros stop Hstop. apply checked_add_Some in Hstop as [-> _].
  apply rd_if; intros Hbad; [apply rd_err|]. apply orb_false_iff in Hbad as [Hbad Hasc].
  apply orb_false_iff in Hbad as [Hbad Hlast]. apply orb_false_iff in Hbad as [Hlen Hfirst]. bsimp.
  eapply rd_bind; [apply rd_lift, safe_slice; lia|]. intros tail ->. apply rd_ret.
  assert (Ht : Z.of_nat (length (slice start (Z.of_nat (length payload) - start) payload)) = total) by (rewrite slice_length; lia).
  split; simpl; try done; rewrite ?Ht; try lia.
  - destruct (last os) as [x|] eqn:E.
    + symmetry in Hlast. apply try_from_unsigned_Some in Hlast as [-> _]. done.
    + apply last_None in E as ->. simpl in Hos. lia.
  - rewrite Hp at 2. rewrite <- slice_slice by lia. f_equal; lia.
  - unfold section_len. simpl. lia.
Qed.

Lemma decode_section_ok c e : container_ok sha256 c -> entry_ok (Z.of_nat (length (container_bytes c))) e ->
  safe (section_ok (container_bytes c)) (decode_section limits c e).
Proof.
  intros Hc (_ & _ & Ho & Hn & Hin). unfold decode_section, indexed_payload. pose proof (co_length _ c Hc).
  eapply safe_bind.
  { eapply safe_bind; [apply safe_ok_or|]. intros off _ Hoff. apply try_from_unsigned_Some in Hoff as [-> _].
    eapply safe_bind; [apply safe_ok_or|]. intros len _ Hlen. apply try_from_unsigned_Some in Hlen as [-> _].
    eapply safe_bind; [apply safe_ok_or|]. intros stop _ Hs. apply checked_add_Some in Hs as [-> _].
    eapply safe_bind; [apply safe_ok_or|]. intros payload _ Hp. apply slice_get_Some in Hp as [-> Hp].
    instantiate (1 := fun r => r = (entry_offset e, slice (entry_offset e) (entry_length e) (container_bytes c))). simpl.
    do 2 f_equal; lia. }
  intros [off payload] _ [= -> ->]. eapply rd_run; [|apply slice_Forall, Hc|rewrite slice_length; lia].
  apply read_indexed_ok; rewrite ?slice_length by lia; try lia. f_equal. lia.
Qed.

(** ** Records *)

Lemma ascending_bounds l : windows2 (fun a b => b <? a) l = false -> forall i x, l !! i = Some x ->
  (forall y, head l = Some y -> y <= x) /\ (forall z, last l = Some z -> x <= z) /\ (forall y, l !! S i = Some y -> x <= y).
Proof.
  induction l as [|a l IH]; intros Hw i x Hi; [done|]. destruct l as [|b l].
  { destruct i; [|done]. injection Hi as ->. split_and!; [intros ? [= ->]; lia|intros ? [= ->]; lia|done]. }
  cbn [windows2] in Hw. apply orb_false_iff in Hw as [Hab Hw]. apply Z.ltb_ge in Hab. specialize (IH Hw). destruct i as [|i].
  - injection Hi as ->. destruct (IH 0%nat b eq_refl) as (_ & Hz & _). split_and!.
    + intros y [= ->]. lia.
    + intros z Hz'. apply Hz in Hz'. lia.
    + intros y [= ->]. done.
  - destruct (IH i x Hi) as (Hy & Hz & Hn). specialize (Hy b eq_refl). split_and!; [intros y [= ->]; lia|done|done].
Qed.

Section Section_.
Context (bytes : list Z) (s : IndexedSection) (Hs : section_ok bytes s).

Lemma section_len_nonneg : 0 <= section_len s.
Proof. unfold section_len. pose proof (so_first _ _ Hs). destruct (offsets s); [done|]. simpl. lia. Qed.

Lemma record_bounds_ok id : 0 <= id -> safe (fun '(start, stop) => 0 <= start <= stop /\ stop <= Z.of_nat (length (records s)) /\
  zget (offsets s) id = Some start /\ zget (offsets s) (id + 1) = Some stop) (record_bounds s id).
Proof.
  intros Hid. unfold record_bounds. eapply safe_bind; [apply safe_ok_or|]. intros i _ Hi. apply try_from_unsigned_Some in Hi as [-> _].
  eapply safe_bind; [apply safe_ok_or|]. intros start _ Hstart.
  eapply safe_bind; [apply safe_ok_or|]. intros stop _ Hstop. simpl.
  destruct (ascending_bounds _ (so_ascending _ _ Hs) _ _ Hstart) as (Hlo & _ & Hn).
  destruct (ascending_bounds _ (so_ascending _ _ Hs) _ _ Hstop) as (_ & Hhi & _).
  specialize (Hlo _ (so_first _ _ Hs)). specialize (Hhi _ (so_last _ _ Hs)).
  unfold zget in Hstop. replace (Z.to_nat (id + 1)) with (S (Z.to_nat id)) in Hstop by lia. specialize (Hn _ Hstop).
  split_and!; try done. unfold zget. by replace (Z.to_nat (id + 1)) with (S (Z.to_nat id)) by lia.
Qed.

(** The bytes of record [id]. *)
Definition record_of (id : Z) : list Z :=
  slice (default 0 (zget (offsets s) id)) (default 0 (zget (offsets s) (id + 1)) - default 0 (zget (offsets s) id)) (records s).

Lemma record_ok id : 0 <= id -> safe (fun bs => bs = record_of id) (record s id).
Proof.
  intros Hid. unfold record. eapply safe_bind; [by apply record_bounds_ok|]. intros [start stop] _ (H1 & H2 & E1 & E2).
  eapply safe_mono; [apply safe_ok_or|]. intros bs _ Hbs. apply slice_get_Some in Hbs as [-> _]. unfold record_of. by rewrite E1, E2.
Qed.

Lemma record_range_ok id : 0 <= id -> safe (fun '(start, stop) => 0 <= records_offset s <= start /\ start <= stop <= Z.of_nat (length bytes) /\
  slice start (stop - start) bytes = record_of id) (record_range s id).
Proof.
  intros Hid. unfold record_range. eapply safe_bind; [by apply record_bounds_ok|]. intros [start stop] _ (H1 & H2 & E1 & E2). simpl.
  pose proof (so_offset _ _ Hs). pose proof (so_inside _ _ Hs). split; [lia|]. split; [lia|]. unfold record_of. rewrite E1, E2. simpl.
  rewrite (so_records _ _ Hs), <- slice_slice by lia. f_equal. lia.
Qed.

(** The records are the bytes of the section, one after the other. *)
Lemma records_total n : Z.of_nat n <= section_len s ->
  foldr Z.add 0 ((fun id => Z.of_nat (length (record_of id))) <$> seqZ 0 (Z.of_nat n)) = default 0 (offsets s !! n).
Proof.
  induction n as [|n IH]; intros Hn.
  { simpl. pose proof (so_first _ _ Hs) as H. destruct (offsets s); [done|]. by injection H as ->. }
  rewrite seqZ_S, fmap_app, foldr_app. simpl.
  assert (Hacc : forall l k, foldr Z.add k l = foldr Z.add 0 l + k) by (intros l k; induction l as [|x l IHl]; simpl; lia).
  rewrite Hacc, IH by lia. unfold section_len in Hn.
  destruct (lookup_lt_is_Some_2 (offsets s) n) as [a Ha]; [lia|]. destruct (lookup_lt_is_Some_2 (offsets s) (S n)) as [b Hb']; [lia|].
  destruct (ascending_bounds _ (so_ascending _ _ Hs) _ _ Ha) as (Hlo & _ & Hn'). specialize (Hn' _ Hb').
  specialize (Hlo _ (so_first _ _ Hs)). destruct (ascending_bounds _ (so_ascending _ _ Hs) _ _ Hb') as (_ & Hhi & _).
  specialize (Hhi _ (so_last _ _ Hs)). rewrite Ha, Hb'. simpl. unfold record_of, zget.
  rewrite Z.add_0_l. replace (Z.to_nat (Z.of_nat n + 1)) with (S n) by lia. rewrite Nat2Z.id, Ha, Hb'. simpl.
  unfold slice. rewrite length_take, length_drop. lia.
Qed.

Lemma section_bytes : foldr Z.add 0 ((fun id => Z.of_nat (length (record_of id))) <$> seqZ 0 (section_len s)) = record_bytes_len s.
Proof.
  pose proof section_len_nonneg as Hp. replace (section_len s) with (Z.of_nat (Z.to_nat (section_len s))) by lia.
  rewrite records_total by lia. pose proof (so_last _ _ Hs) as H. rewrite last_lookup in H. unfold section_len in *.
  replace (Z.to_nat (Z.of_nat (length (offsets s)) - 1)) with (pred (length (offsets s))) by lia. by rewrite H.
Qed.

Hypothesis Hb : is_bytes bytes.
Hypothesis Hl : Z.of_nat (length bytes) <= usize_max.

Lemma record_of_bytes id : is_bytes (record_of id).
Proof. unfold record_of. rewrite (so_records _ _ Hs). by apply slice_Forall, slice_Forall. Qed.

Lemma record_of_length id : Z.of_nat (length (record_of id)) <= Z.of_nat (length (records s)).
Proof. unfold record_of, slice. rewrite length_take, length_drop. lia. Qed.

Lemma record_of_small id : Z.of_nat (length (record_of id)) <= usize_max.
Proof. pose proof (record_of_length id). pose proof (so_inside _ _ Hs). pose proof (so_offset _ _ Hs). lia. Qed.

End Section_.

End Decode.
End ContainerProps.

(** The records of an artifact: every parser is total, and what it returns has the
    shape the format asks for. *)

Import Diagnostics Cursor.

Module RecordsProps.
Import Artifact Container Records Total ContainerProps.

(** ** Shapes *)

(** A reference value type names a type, possibly nullable; an inline one names its
    layout; a scalar names nothing. *)
Record value_type_ok (t : ValueType) : Prop := {
  vt_kind : 0 <= kind t <= 8;
  vt_nominal : u32 (nominal_type t);
  vt_named : kind t = 7 \/ kind t = 8 -> nominal_type t <> NO_TYPE;
  vt_scalar : kind t <> 7 -> flags t = 0;
  vt_absent : kind t <> 7 -> kind t <> 8 -> nominal_type t = NO_TYPE;
  vt_flags : flags t = 0 \/ flags t = 1 }.

Section Shapes.
Context (limits : ArtifactLimits).

Definition ascending (l : list Z) : Prop := windows2 (fun a b => b <=? a) l = false.

Definition nominal_ok (t : NominalType) : Prop :=
  match t with
  | InlineValue name components => u32 name /\ components <> [] /\
      Z.of_nat (length components) <= physical_components_per_value limits /\
      Forall (fun c => value_type_ok c /\ kind c <> 0 /\ kind c <> 8) components
  | Class flags generic_arity name super_type interfaces field_start field_count method_start method_count initializer =>
      is_byte flags /\ u16 generic_arity /\ u32 name /\ u32 super_type /\ Forall u32 interfaces /\ ascending interfaces /\ u32 field_start /\
      u32 field_count /\ u32 method_start /\ u32 method_count /\ from_option u32 True initializer
  | Interface flags generic_arity name super_type interfaces method_start method_count =>
      is_byte flags /\ u16 generic_arity /\ u32 name /\ u32 super_type /\ Forall u32 interfaces /\ ascending interfaces /\ u32 method_start /\ u32 method_count
  | Array name storage element super_type => u32 name /\ 0 <= storage <= 6 /\ value_type_ok element /\ from_option u32 True super_type
  | Function_ name flags result parameters => u32 name /\ (flags = 0 \/ flags = 1) /\ value_type_ok result /\ Forall value_type_ok parameters
  end.

Definition constant_shape (c : Constant) : Prop :=
  match c with
  | CI32 v => i32_min <= v <= i32_max
  | CI64 v => i64_min <= v <= i64_max
  | CF32 v | CString v => u32 v
  | CF64 v => 0 <= v <= u64_max
  | CChar v => u16 v
  | CBool _ | CNull => True
  end.

Definition capability_ok (c : CapabilityRecord) : Prop :=
  u32 (cap_namespace c) /\ u32 (cap_name c) /\ (cap_flags c = 1 \/ cap_flags c = 2).

Definition import_shape (i : Import) : Prop :=
  0 <= import_kind i <= 2 /\ u32 (target_module i) /\ u32 (target_name i) /\ u32 (expected_signature i) /\
  is_bytes (target_hash i) /\ length (target_hash i) = 32%nat.

Definition export_shape (e : Export) : Prop :=
  0 <= export_kind e <= 2 /\ 0 <= visibility e <= 1 /\ u32 (export_name e) /\ u32 (local_symbol e) /\ u32 (export_signature e).

Definition field_shape (f : Field) : Prop :=
  u32 (field_owner f) /\ u32 (field_name f) /\ value_type_ok (Artifact.value_type f).

Definition value_ok (v : FunctionValue) : Prop :=
  value_type_ok (semantic_type v) /\ components v <> [] /\ Z.of_nat (length (components v)) <= physical_components_per_value limits.

Definition function_shape (f : Function) : Prop :=
  u32 (fn_owner f) /\ u32 (fn_name f) /\ u32 (signature f) /\ u16 (register_count f) /\ register_count f <= registers_per_function limits /\
  u16 (parameter_count f) /\ u32 (first_block f) /\ u32 (block_count f) /\ u32 (first_exception f) /\ u32 (exception_count f) /\
  Z.of_nat (length (values f)) = register_count f /\ Forall value_ok (values f).

Definition component_shape (c : Frame.ValueComponent) : Prop := u16 (Frame.vc_value c) /\ u16 (Frame.vc_component c).

Definition roots_shape (r : SafepointRoots) : Prop :=
  u32 (roots_function r) /\ u32 (roots_block r) /\ u32 (instruction_boundary r) /\
  Z.of_nat (length (references r)) <= roots_per_safepoint limits /\ Forall component_shape (references r).

Definition block_shape (b : Block) : Prop :=
  u32 (owner_function b) /\ u32 (code_record b) /\ u32 (instruction_count b) /\ u32 (declared_fixed_cost b) /\
  (block_flags b = 0 \/ block_flags b = 1).

Definition exception_shape (e : ExceptionEntry) : Prop :=
  u32 (exc_owner e) /\ u32 (first_protected_block e) /\ u32 (protected_block_count e) /\ u32 (catch_type e) /\
  u32 (exc_handler e) /\ u16 (exc_register e).

(** ** Parsers *)

Lemma ldiff_one v : 0 <= v -> Z.ldiff v 1 = 0 -> v = 0 \/ v = 1.
Proof.
  intros Hv H. change 1 with (Z.ones 1) in H. rewrite Z.ldiff_ones_r, Z.shiftl_mul_pow2, Z.shiftr_div_pow2 in H by done.
  change (2 ^ 1) with 2 in H. pose proof (Z.div_mod v 2). pose proof (Z.mod_pos_bound v 2). lia.
Qed.

Lemma rd_ru8 : reads is_byte ru8. Proof. apply rd_mapped, rd_u8. Qed.
Lemma rd_ru16 : reads u16 ru16. Proof. apply rd_mapped, rd_u16. Qed.
Lemma rd_ru32 : reads u32 ru32. Proof. apply rd_mapped, rd_u32. Qed.
Lemma rd_ru64 : reads (fun v => 0 <= v <= u64_max) ru64. Proof. apply rd_mapped, rd_u64. Qed.

#[local] Hint Resolve rd_ru8 rd_ru16 rd_ru32 rd_ru64 : reads.

Lemma value_type_reads : reads value_type_ok Records.value_type.
Proof.
  unfold Records.value_type. read_ok. unfold is_byte, u16, u32, NO_TYPE in *.
  repeat match goal with H : _ || _ = false |- _ => apply orb_false_iff in H as [? ?] end.
  assert (Hf : a0 = 0 \/ a0 = 1).
  { destruct (Z.eqb_spec a 7), (Z.eqb_spec a 8); cbn [negb andb Z.eqb Pos.eqb] in *; bsimp; lia || (apply ldiff_one; lia). }
  split; simpl; unfold u32; try lia; intros; destruct (Z.eqb_spec a 7), (Z.eqb_spec a 8);
    cbn [negb andb Z.eqb Pos.eqb] in *; bsimp; unfold NO_TYPE; lia.
Qed.
#[local] Hint Resolve value_type_reads : reads.

Lemma capability_reads bs : reads capability_ok (parse_capability bs).
Proof. unfold parse_capability. read_ok. bsimp. unfold capability_ok. simpl. rewrite !Z.eqb_eq in *. tauto. Qed.

Lemma class_reads bs tag fl arity name : is_byte fl -> u16 arity -> u32 name -> reads nominal_ok (parse_class bs tag fl arity name).
Proof.
  intros Hf Ha Hn. unfold parse_class. read_ok.
  - eapply (rd_bind (from_option u32 True)).
    { apply rd_if; intros _; read_ok; done. }
    intros initializer Hi. read_ok. simpl. tauto.
  - simpl. tauto.
Qed.

Lemma array_reads fl arity name : is_byte fl -> u32 name -> reads nominal_ok (parse_array fl arity name).
Proof.
  intros Hf Hn. unfold parse_array. read_ok.
  eapply (rd_bind (from_option u32 True)).
  { apply rd_if; intros _; read_ok; done. }
  intros super Hs. read_ok. simpl. bsimp. split_and!; try done.
  rewrite Z.shiftr_div_pow2 by done. unfold is_byte in Hf. apply Z.div_pos; lia.
Qed.

Lemma function_type_reads fl name : u32 name -> reads nominal_ok (parse_function_type fl name).
Proof.
  intros Hn. unfold parse_function_type. read_ok. simpl. bsimp. unfold u16 in *. split_and!; try tauto. apply ldiff_one; lia.
Qed.

Lemma inline_component_reads : reads (fun c => value_type_ok c /\ kind c <> 0 /\ kind c <> 8) inline_component.
Proof. unfold inline_component. read_ok. by bsimp. Qed.
#[local] Hint Resolve inline_component_reads : reads.

Lemma inline_reads fl arity name : u32 name -> reads nominal_ok (parse_inline limits fl arity name).
Proof.
  intros Hn. unfold parse_inline. read_ok. simpl. bsimp. unfold u16 in *.
  match goal with H : length ?l = _ |- _ => rewrite H; split_and!; try done; try lia; intros ->; simpl in H; lia end.
Qed.

Lemma type_reads bs : reads nominal_ok (parse_type limits bs).
Proof.
  unfold parse_type. read_ok. eapply (rd_bind nominal_ok).
  { read_ok; auto using class_reads, array_reads, function_type_reads, inline_reads. }
  intros t Ht. read_ok. done.
Qed.

Lemma constant_reads bs : reads constant_shape (parse_constant bs).
Proof.
  unfold parse_constant. read_ok. eapply (rd_bind constant_shape); [|intros c Hc; read_ok; done].
  read_ok; simpl; try done. unfold as_signed. pose proof (wrap_signed_range 64 a0). unfold i64_min, i64_max. lia.
Qed.

Lemma import_reads bs : reads import_shape (parse_import bs).
Proof.
  unfold parse_import. read_ok. bsimp. unfold import_shape, is_byte in *. simpl. split_and!; try done; lia.
Qed.

Lemma export_reads bs : reads export_shape (parse_export bs).
Proof. unfold parse_export. read_ok. bsimp. unfold export_shape, is_byte in *. simpl. split_and!; try done; lia. Qed.

Lemma field_reads bs : reads field_shape (parse_field bs).
Proof. unfold parse_field. read_ok. by unfold field_shape. Qed.

Lemma atom_reads : reads (fun _ => True) physical_atom.
Proof. unfold physical_atom. read_ok; done. Qed.
#[local] Hint Resolve atom_reads : reads.

Lemma value_reads : reads value_ok (function_value limits).
Proof.
  unfold function_value. read_ok. bsimp. unfold value_ok, u16 in *. simpl.
  match goal with H : length ?l = _ |- _ => rewrite H; split_and!; try done; try lia; intros ->; simpl in H; lia end.
Qed.
#[local] Hint Resolve value_reads : reads.

Lemma function_reads bs : reads function_shape (parse_function limits bs).
Proof.
  unfold parse_function. read_ok. bsimp. unfold function_shape. simpl.
  match goal with H : length ?l = _ |- _ => rewrite H end. unfold u16 in *. split_and!; try done; lia.
Qed.

Lemma component_reads : reads component_shape value_component.
Proof. unfold value_component. read_ok. done. Qed.
#[local] Hint Resolve component_reads : reads.

Lemma safepoint_reads bs : reads roots_shape (parse_safepoint limits bs).
Proof.
  unfold parse_safepoint. read_ok. bsimp. unfold roots_shape. simpl.
  match goal with H : length ?l = _ |- _ => rewrite H end. unfold u16 in *. split_and!; try done; lia.
Qed.

Lemma block_reads bs : reads block_shape (parse_block bs).
Proof. unfold parse_block. read_ok. bsimp. unfold block_shape. simpl. split_and!; try done. apply ldiff_one; [unfold u32 in *; lia|done]. Qed.

Lemma exception_reads bs : reads exception_shape (parse_exception bs).
Proof. unfold parse_exception. read_ok. by unfold exception_shape. Qed.

(** ** Tables *)

Lemma imap_pair_snd {A} (l : list A) : (imap pair l).*2 = l.
Proof. apply list_eq. intros i. rewrite list_lookup_fmap, list_lookup_imap. by destruct (l !! i). Qed.

Lemma ids_nonneg s id : id ∈ ids s -> 0 <= id < section_len s.
Proof. unfold ids. rewrite elem_of_seqZ. lia. Qed.

Lemma code_total_safe owner is_ : forall total, safe (fun _ => True) (code_total owner total is_).
Proof.
  induction is_ as [|i is_ IH]; intros total; simpl; [done|].
  eapply (safe_bind (fun _ => True)).
  { apply safe_map_err. unfold Verify.fixed_cost_for_values. eapply (safe_bind (fun _ => True)).
    { generalize 0. induction (Verify.transferred i) as [|r rs IHr]; intros t; simpl; [done|].
      eapply safe_bind; [apply safe_ok_or|]. intros t' _ _. apply IHr. }
    intros add _ _. eapply (safe_bind (fun _ => True)).
    { destruct i; simpl; try done; eapply safe_mono; try apply safe_ok_or; done. }
    intros fixed _ _. eapply safe_mono; [apply safe_ok_or|done]. }
  intros cost _ _. eapply safe_bind; [apply safe_ok_or|]. intros t _ _. apply IH.
Qed.

Lemma add_to_limit_safe total amount maximum d :
  safe (fun next => next = total + amount /\ next <= maximum) (add_to_limit limits total amount maximum d).
Proof.
  unfold add_to_limit. destruct (checked_add usize_max total amount) as [next|] eqn:E; [|done]. bsimp.
  by destruct (Z.ltb_spec maximum next).
Qed.

Section Tables.
Context (bytes : list Z) (Hb : is_bytes bytes) (Hl : Z.of_nat (length bytes) <= usize_max).
Context (s : IndexedSection) (Hs : section_ok limits bytes s).

Lemma parse_record_ok {A} (P : A -> Prop) (parse : list Z -> Code.Dec A) id : 0 <= id -> (forall bs, reads P (parse bs)) ->
  safe P (parse_record s parse id).
Proof.
  intros Hid Hp. unfold parse_record. eapply safe_bind; [by apply safe_map_err, (record_ok _ _ _ Hs)|]. intros bs _ ->.
  eapply rd_run; [apply Hp|by apply (record_of_bytes _ _ _ Hs)|by apply (record_of_small _ _ _ Hs)].
Qed.

Lemma collect_ids_ok {A} (f : Z -> Dia A) P : (forall id, 0 <= id < section_len s -> safe (P id) (f id)) ->
  safe (fun l => Forall2 P (ids s) l) (collect f (ids s)).
Proof. intros H. apply safe_collect. intros id Hid. by apply H, ids_nonneg. Qed.

Lemma parse_each_ok {A} (P : A -> Prop) (parse : list Z -> Code.Dec A) : (forall bs, reads P (parse bs)) ->
  safe (fun l => Z.of_nat (length l) = section_len s /\ Forall P l) (parse_each s parse).
Proof.
  intros Hp. eapply safe_mono; [apply (collect_ids_ok _ (fun _ => P)); intros id Hid; apply parse_record_ok; [lia|done]|].
  intros l _ H2. simpl. split.
  - apply Forall2_length in H2. unfold ids in H2. rewrite length_seqZ in H2. pose proof (section_len_nonneg _ _ _ Hs). lia.
  - clear -H2. induction H2; constructor; done.
Qed.

Lemma range_of_ok id : 0 <= id -> safe (fun bs => bs = record_of s id) (range_of bytes s id).
Proof.
  intros Hid. unfold range_of, byte_range. eapply safe_bind; [by apply safe_map_err, (record_range_ok _ _ _ Hs)|].
  intros [start stop] _ (H1 & H2 & H3). simpl. rewrite <- H3. apply safe_slice. lia.
Qed.

Lemma collect_ranges_ok : safe (fun l => l = record_of s <$> ids s) (collect_ranges bytes s).
Proof.
  eapply safe_mono; [apply (collect_ids_ok _ (fun id bs => bs = record_of s id)); intros; apply range_of_ok; lia|].
  intros l _ H2. simpl. clear -H2. induction H2; csimpl; congruence.
Qed.

Lemma raw_order_safe l d : (forall id, id ∈ l -> 0 <= id) -> forall previous, safe (fun _ => True) (raw_order limits s l previous d).
Proof.
  induction l as [|id l IH]; intros Hn previous; simpl; [done|]. eapply safe_bind; [apply safe_map_err, (record_ok _ _ _ Hs); set_solver|].
  intros bs _ _. destruct previous as [p|]; [destruct (ge p bs); [done|]|]; apply IH; set_solver.
Qed.

Lemma ensure_raw_order_safe d : safe (fun _ => True) (ensure_raw_order limits s d).
Proof. apply raw_order_safe. intros id Hid%ids_nonneg. lia. Qed.

Lemma parse_constants_ok : safe (Forall constant_shape) (parse_constants limits s).
Proof.
  unfold parse_constants. eapply safe_bind; [apply ensure_raw_order_safe|]. intros _ _ _.
  eapply safe_mono; [apply parse_each_ok, constant_reads|]. by intros ? _ [_ ?].
Qed.

Definition even_length (bs : list Z) : Prop := Z.of_nat (length bs) mod 2 = 0.

(** Code units of a literal. *)
Definition units (bs : list Z) : Z := Z.of_nat (length bs) / 2.

Lemma literal_units_ok l : (forall id, id ∈ l -> 0 <= id) -> forall total,
  safe (fun t => Forall (fun id => even_length (record_of s id)) l /\
    t = total + foldr Z.add 0 ((fun id => units (record_of s id)) <$> l) /\ t <= Z.max total (utf16_literal_code_units limits))
    (literal_units limits s l total).
Proof.
  induction l as [|id l IH]; intros Hn total; csimpl; [split_and!; [constructor|lia|lia]|]. eapply safe_bind; [apply safe_map_err, (record_ok _ _ _ Hs); set_solver|].
  intros bs _ ->. destruct (Z.eqb_spec (Z.of_nat (length (record_of s id)) mod 2) 0) as [He|]; [|done]. simpl.
  eapply safe_bind; [apply add_to_limit_safe|]. intros t _ [-> Hle]. eapply safe_mono; [apply IH; set_solver|].
  fold (units (record_of s id)) in *. intros t _ (H & -> & Hm). split_and!; [by constructor|lia|lia].
Qed.

Lemma parse_utf16_literals_ok total : safe (fun r => Forall even_length r.1 /\ r.2 = total + foldr Z.add 0 (units <$> r.1) /\
  r.2 <= Z.max total (utf16_literal_code_units limits)) (parse_utf16_literals limits bytes s total).
Proof.
  unfold parse_utf16_literals. eapply safe_bind; [apply ensure_raw_order_safe|]. intros _ _ _.
  eapply safe_bind; [apply literal_units_ok; intros id Hid%ids_nonneg; lia|]. intros t _ (Ht & -> & Hm).
  eapply safe_bind; [apply collect_ranges_ok|]. intros l _ ->. simpl. split_and!; [by apply Forall_fmap|by rewrite <- list_fmap_compose|done].
Qed.

(** The string table is the records, each UTF-8 and in strict order. *)
Lemma string_table_ok l : (forall id, id ∈ l -> 0 <= id < section_len s) -> forall previous,
  safe (fun vs => vs = record_of s <$> l /\ Forall (fun v => utf8_valid v = true) vs /\
    windows2 ge (option_list previous ++ vs) = false) (string_table s l previous).
Proof.
  assert (Herr : forall id c d, 0 <= id < section_len s -> safe (A:=list (list Z)) (fun _ => False) (table_error s id c d)).
  { intros id c d Hid. unfold table_error, record_offset. eapply safe_bind; [apply safe_expect|done].
    destruct (zget_is_Some (offsets s) id) as [x ->]; [unfold section_len in Hid; lia|done]. }
  induction l as [|id l IH]; intros Hn previous; simpl; [by destruct previous|].
  assert (Hid : 0 <= id < section_len s) by (apply Hn; set_solver).
  eapply safe_bind; [apply (record_ok _ _ _ Hs); lia|]. intros v _ ->.
  destruct (utf8_valid (record_of s id)) eqn:Hu; [|eapply safe_mono; [by apply Herr|done]]. simpl.
  destruct (_ && _); [eapply safe_mono; [by apply Herr|done]|].
  destruct (match previous with Some p => _ | None => _ end) eqn:Hg; [eapply safe_mono; [by apply Herr|done]|].
  eapply safe_bind; [apply IH; set_solver|]. intros rest _ (-> & Hf & Hw). simpl. split_and!; [done|by constructor|].
  destruct previous as [p|]; simpl in *; [by rewrite Hg|done].
Qed.

(** ** Debug records *)

Definition path_ok (p : list Z) : Prop := utf8_valid p = true /\ canonical_source_path p = true.

Definition debug_shape (d : DebugEntry) : Prop :=
  u32 (debug_function d) /\ u32 (debug_block d) /\ u32 (debug_instruction d) /\ path_ok (source_path d).

Lemma debug_paths_ok l : (forall id, id ∈ l -> 0 <= id) -> forall unique, safe (Forall path_ok) (debug_paths bytes s l unique).
Proof.
  induction l as [|id l IH]; intros Hn unique; simpl; [constructor|].
  eapply safe_bind; [apply safe_map_err, (record_ok _ _ _ Hs); set_solver|]. intros path _ ->.
  destruct (utf8_valid (record_of s id)) eqn:Hu; [|done]. simpl.
  destruct (canonical_source_path (record_of s id)) eqn:Hp; [|done]. simpl. destruct (bool_decide _); [done|].
  eapply safe_bind; [apply range_of_ok; set_solver|]. intros r _ ->.
  eapply safe_bind; [apply IH; set_solver|]. intros rest _ Hr. by constructor.
Qed.

Lemma parse_debug_paths_ok : safe (Forall path_ok) (parse_debug_paths bytes s).
Proof. unfold parse_debug_paths. destruct (_ =? _); [done|]. apply debug_paths_ok. intros id Hid%ids_nonneg. lia. Qed.

Lemma debug_source_ok paths record start pv used : from_option (Forall path_ok) True paths -> u32 pv ->
  0 <= start -> start + Z.of_nat (length record) <= Z.of_nat (length bytes) -> slice start (Z.of_nat (length record)) bytes = record ->
  reads_in record (fun r => path_ok r.1) (debug_source bytes paths start pv used).
Proof.
  intros Hps Hpv Hst Hin Hrec. destruct paths as [paths|]; simpl.
  - apply rd_any. eapply rd_bind; [apply rd_lift, safe_ok_or|]. intros r Hr. read_ok. simpl.
    by eapply (Forall_lookup_1 _ paths).
  - intros c Hc Hbc. unfold mbind at 1, ST_bind at 1, st_read. cbv beta iota. unfold mbind at 1, ST_bind at 1, mapped.
    pose proof (rd_utf8 pv ltac:(unfold u32 in Hpv; lia) c Hc) as Hu.
    destruct (read_utf8 pv c) as [[path|e|] c1] eqn:Hr; [|done|done]. simpl. destruct Hu as (_ & Hc1 & Hb1).
    apply read_utf8_in in Hr as (Hpath & Hle & Hu); [|done|unfold u32 in Hpv; lia].
    unfold mbind, ST_bind, deny, st_lift, guard_err. destruct (canonical_source_path path) eqn:Hcan; [|done]. simpl.
    unfold byte_range. simpl. destruct Hc as (_ & Hpos & _). rewrite Hbc in *. unfold u32 in Hpv.
    pose proof (safe_slice (E:=DiagnosticSet) bytes (start + position c) (start + position c + pv) ltac:(lia)) as Hsl.
    destruct (expect _) as [r|e|]; [|done|done]. simpl in Hsl |- *. split; [|by rewrite Hb1].
    replace r with path; [done|]. rewrite Hsl, Hpath, <- Hrec. replace (start + position c + pv - (start + position c)) with pv by lia.
    symmetry. apply slice_slice; lia.
Qed.

Lemma debug_entry_ok paths record start id used : from_option (Forall path_ok) True paths ->
  0 <= start -> start + Z.of_nat (length record) <= Z.of_nat (length bytes) -> slice start (Z.of_nat (length record)) bytes = record ->
  reads_in record (fun r => debug_shape r.1) (debug_entry bytes paths record start id used).
Proof.
  intros Hps Hst Hin Hrec. unfold debug_entry. read_in. eapply rd_in_bind; [by apply debug_source_ok|].
  intros [path used'] Hpath. apply rd_any. read_ok. by unfold debug_shape.
Qed.

Lemma debug_entries_ok paths l : from_option (Forall path_ok) True paths -> (forall id, id ∈ l -> 0 <= id) -> forall used,
  safe (fun r => Forall debug_shape r.1) (debug_entries bytes paths s l used).
Proof.
  intros Hps. induction l as [|id l IH]; intros Hn used; simpl; [constructor|].
  eapply safe_bind; [apply safe_map_err, (record_ok _ _ _ Hs); set_solver|]. intros bs _ ->.
  eapply safe_bind; [apply safe_map_err, (record_range_ok _ _ _ Hs); set_solver|]. intros [start stop] _ (H1 & H2 & H3).
  assert (Hlen : Z.of_nat (length (record_of s id)) = stop - start) by (rewrite <- H3, slice_length; lia).
  eapply safe_bind; [eapply rd_in_run; [apply debug_entry_ok; simpl; rewrite ?Hlen; done || lia|by apply (record_of_bytes _ _ _ Hs)|by apply (record_of_small _ _ _ Hs)]|].
  intros [e used1] _ He. eapply safe_bind; [apply IH; set_solver|]. intros [rest used2] _ Hr. by constructor.
Qed.

Lemma parse_debug_ok paths : from_option (Forall path_ok) True paths -> safe (Forall debug_shape) (parse_debug limits bytes s paths).
Proof.
  intros Hps. unfold parse_debug. destruct (_ <? _); [done|].
  eapply safe_bind; [apply debug_entries_ok; [done|intros id Hid%ids_nonneg; lia]|]. intros [vs used] _ Hv.
  destruct (match paths with Some _ => _ | None => _ end); [done|]. by destruct (windows2 _ _).
Qed.

Lemma source_positions_ok l : (forall id, id ∈ l -> 0 <= id) -> forall previous ds, Forall debug_shape ds ->
  safe (Forall debug_shape) (source_positions s l previous ds).
Proof.
  induction l as [|id l IH]; intros Hn previous ds Hds; simpl; [done|].
  eapply (safe_bind (fun r => u32 r.1.1)).
  { apply parse_record_ok; [set_solver|]. intros bs. unfold source_position_record. read_ok. done. }
  intros [[index line] column] _ Hi. eapply safe_bind; [apply safe_ok_or|]. intros d _ Hd. apply IH; [set_solver|].
  apply zset_Forall; [done|]. by apply (Forall_lookup_1 _ ds _ d Hds) in Hd.
Qed.

(** ** Code *)

Definition code_ok (functions : list Function) (b : Block) (c : DecodedCode) : Prop :=
  CodeProps.block_ok (code_limits limits) (instruction_count b) (instructions c) /\
  code_range c = CodeProps.code_word (instructions c) /\
  code_total (owner_of functions b) 0 (instructions c) = Ok (code_cost c).

Lemma code_entry_ok functions id b : 0 <= id -> block_shape b ->
  safe (fun c => code_ok functions b c /\ code_range c = record_of s id) (code_entry limits bytes s functions id b).
Proof.
  intros Hid Hbl. unfold code_entry. eapply safe_bind; [apply safe_map_err, (record_ok _ _ _ Hs); done|]. intros bs _ ->.
  eapply safe_bind; [apply safe_map_err, (record_range_ok _ _ _ Hs); done|]. intros [start stop] _ (H1 & H2 & H3).
  destruct (CodeProps.code_record_iff (code_limits limits) (record_of s id) (instruction_count b)) as [Hnp Hiff].
  { by apply (record_of_bytes _ _ _ Hs). } { by apply (record_of_small _ _ _ Hs). } { apply Hbl. }
  eapply (safe_bind (fun is_ => CodeProps.block_ok (code_limits limits) (instruction_count b) is_ /\ record_of s id = CodeProps.code_word is_)).
  { destruct (Code.decode_code_record _ _ _) as [is_|e|]; [by apply Hiff|done|done]. }
  intros is_ _ [Hok Hw]. eapply safe_bind; [apply code_total_safe|]. intros cost Hcost _.
  unfold byte_range. eapply safe_bind; [apply safe_slice; simpl; lia|]. intros r _ ->. simpl. unfold code_ok. simpl. by rewrite H3.
Qed.

Lemma parse_code_ok blocks functions : Forall block_shape blocks ->
  safe (fun cs => Forall2 (code_ok functions) blocks cs /\ foldr Z.add 0 ((fun c => Z.of_nat (length (code_range c))) <$> cs) = record_bytes_len s)
    (parse_code limits bytes s blocks functions).
Proof.
  intros Hbl. unfold parse_code, invalid. destruct (Z.eqb_spec (section_len s) (Z.of_nat (length blocks))) as [Hn|]; [|done]. simpl.
  eapply safe_mono; [apply (safe_collect _ (fun p c => code_ok functions p.2 c /\ code_range c = record_of s (Z.of_nat p.1)))|].
  - intros [i b] Hin. apply elem_of_lookup_imap in Hin as (j & b' & [= -> ->] & Hj). simpl. apply code_entry_ok; [lia|].
    by eapply (Forall_lookup_1 _ blocks).
  - intros l _ H2. simpl. split.
    + replace blocks with ((imap pair blocks).*2); [|apply imap_pair_snd].
      clear -H2. induction H2 as [|? ? ? ? [? _]]; constructor; done.
    + rewrite <- (section_bytes _ _ _ Hs), Hn. f_equal.
      assert (E : seqZ 0 (Z.of_nat (length blocks)) = (fun p => Z.of_nat p.1) <$> imap pair blocks).
      { apply list_eq. intros i. rewrite list_lookup_fmap, list_lookup_imap. destruct (blocks !! i) as [x|] eqn:Ei; simpl.
        - apply lookup_seqZ. apply lookup_lt_Some in Ei. split; [lia|]. lia.
        - apply lookup_seqZ_ge. apply lookup_ge_None in Ei. lia. }
      rewrite E, <- list_fmap_compose. clear -H2. induction H2 as [|[i b] c ? ? [_ Hc]]; [done|]. csimpl. simpl in Hc. rewrite Hc. by f_equal.
Qed.

(** ** Root ranges *)

Section RootRanges.
Context (expected_count expected_length prefix : Z) (blocks : list Block) (function_count : Z) (Hfc : 0 <= function_count).

(** The expansion so far. *)
Record ranges_ok (st : Ranges) : Prop := {
  rg_roots : Forall roots_shape (expanded st);
  rg_counts : Z.of_nat (length (per_function st)) = function_count }.

Lemma key_lt f b i first : ge (f, (b, i)) (f, (b, first)) = false -> i < first.
Proof.
  unfold ge. intros H. apply negb_false_iff, bool_decide_eq_true in H. unfold BTree.lt in H. simpl in H.
  unfold BTree.pair_compare in H. simpl in H. unfold BTree.pair_compare in H. simpl in H. rewrite !Z.compare_refl in H. by apply Z.compare_lt_iff.
Qed.

Lemma root_range_reads bs st : ranges_ok st ->
  reads ranges_ok (root_range limits expected_count expected_length prefix blocks function_count bs st).
Proof.
  intros [Hroots Hcounts]. unfold root_range. read_ok.
  eapply rd_bind; [apply rd_lift, safe_ok_or|]. intros owner _. read_ok.
  match goal with H : _ || negb (_ =? 0) = false |- _ => rename H into Hrange end.
  match goal with H : _ || match checked_add usize_max _ _ with _ => _ end = false |- _ => rename H into Hcount end.
  destruct (checked_add u32_max a1 a2) as [stop|] eqn:Hstop; [|by rewrite orb_true_r in Hrange].
  bsimp. unfold u32 in *.
  eapply rd_bind; [apply rd_lift, safe_expect, zget_is_Some; lia|]. intros count Hc. cbv beta zeta in *. read_ok.
  eapply rd_bind; [apply rd_lift, safe_ok_or|]. intros n _.
  eapply rd_bind; [apply rd_lift, safe_ok_or|]. intros total _. read_ok. bsimp.
  eapply (rd_bind (fun _ => True)).
  { destruct (last (expanded st)) as [previous|]; [|by apply rd_ret].
    eapply (rd_bind (fun _ => True)).
    { apply rd_lift. destruct (_ && _) eqn:E; [|done]. bsimp. eapply safe_mono; [apply safe_expect|done].
      unfold roots_key in *. match goal with H1 : roots_function _ = _, H2 : roots_block _ = _ |- _ => rewrite H1, H2 in * end.
      match goal with H : ge _ _ = false |- _ => apply key_lt in H end. rewrite checked_add_le by lia. by eexists. }
    intros next _. eapply rd_mono; [apply rd_deny|done]. }
  intros _ _. read_ok. split; simpl; [|by rewrite zset_length].
  apply Forall_app. split; [done|]. apply Forall_fmap, Forall_forall. intros boundary Hin. apply elem_of_seqZ in Hin.
  unfold roots_shape, u32. simpl. match goal with H : length ?l = _ |- _ => rewrite H end. unfold u16 in *. split_and!; try done; lia.
Qed.

Lemma root_ranges_ok l : (forall id, id ∈ l -> 0 <= id) -> forall st, ranges_ok st ->
  safe ranges_ok (root_ranges limits expected_count expected_length prefix blocks function_count s l st).
Proof.
  induction l as [|id l IH]; intros Hn st Hst; simpl; [done|].
  eapply safe_bind; [apply parse_record_ok; [set_solver|]; intros bs; by apply root_range_reads|].
  intros st' _ Hst'. apply IH; [set_solver|done].
Qed.

End RootRanges.

Lemma parse_root_ranges_ok count len blocks function_count : 0 <= function_count ->
  safe (Forall roots_shape) (parse_root_ranges limits s count len blocks function_count).
Proof.
  intros Hfc. unfold parse_root_ranges. destruct (_ || _); [done|].
  eapply safe_bind; [apply root_ranges_ok; [done|intros id Hid%ids_nonneg; lia|]|].
  { split; simpl; [constructor|]. rewrite length_replicate. lia. }
  intros st _ [Hst _]. by destruct (_ || _).
Qed.

End Tables.

End Shapes.
End RecordsProps.

Import Diagnostics Cursor.

Module TablesProps.
Import Artifact Container Records Tables Total ContainerProps RecordsProps.

(** ** References *)

(** A type of the module, or one it imports. *)
Definition ref_ok (m : DecodedModule) (v : Z) : Prop :=
  v <> NO_TYPE /\
  if Z.land v 0x80000000 =? 0 then v < size (types m)
  else exists i, zget (imports m) (Z.land v 0x7fffffff) = Some i /\ import_kind i = 0.

Definition optional_ref_ok (m : DecodedModule) (v : Z) : Prop := v = NO_TYPE \/ ref_ok m v.
Definition value_ref_ok (m : DecodedModule) (t : ValueType) : Prop := kind t = 7 \/ kind t = 8 -> ref_ok m (nominal_type t).
Definition string_ok (m : DecodedModule) (id : Z) : Prop := is_Some (zget (strings m) id).

Definition nominal_refs (m : DecodedModule) (t : NominalType) : Prop :=
  match t with
  | InlineValue name components => string_ok m name /\ Forall (value_ref_ok m) components
  | Class _ _ name super_type interfaces _ _ _ _ _ | Interface _ _ name super_type interfaces _ _ =>
      string_ok m name /\ optional_ref_ok m super_type /\ Forall (ref_ok m) interfaces
  | Array name _ element super_type => string_ok m name /\ value_ref_ok m element /\ from_option (ref_ok m) True super_type
  | Function_ name _ result parameters => string_ok m name /\ value_ref_ok m result /\ Forall (value_ref_ok m) parameters
  end.

Definition constant_refs (m : DecodedModule) (c : Constant) : Prop :=
  match c with CString id => id < size (utf16_literals m) | _ => True end.

Definition import_refs (modules : list DecodedModule) (m : DecodedModule) (i : Import) : Prop :=
  is_Some (zget modules (target_module i)) /\ string_ok m (target_name i) /\ ref_ok m (expected_signature i).

Definition symbol_count (m : DecodedModule) (kind : Z) : Z :=
  if kind =? 0 then size (types m) else if kind =? 1 then size (functions m) else if kind =? 2 then size (fields m) else 0.

Definition export_refs (m : DecodedModule) (e : Export) : Prop :=
  string_ok m (export_name e) /\ ref_ok m (export_signature e) /\ local_symbol e < symbol_count m (export_kind e).

Definition field_refs (m : DecodedModule) (f : Field) : Prop :=
  ref_ok m (field_owner f) /\ string_ok m (field_name f) /\ value_ref_ok m (Artifact.value_type f).

Definition function_refs (m : DecodedModule) (f : Function) : Prop :=
  optional_ref_ok m (fn_owner f) /\ string_ok m (fn_name f) /\ ref_ok m (signature f) /\ parameter_count f <= register_count f /\
  first_block f + block_count f <= size (blocks m) /\ first_exception f + exception_count f <= size (exceptions m) /\
  Forall (fun v => value_ref_ok m (semantic_type v)) (values f).

(** The roots of a safepoint are reference components of its function, in order. *)
Definition roots_valid (f : Function) (r : SafepointRoots) : Prop :=
  windows2 (fun a b => ge (component_key a) (component_key b)) (references r) = false /\
  Forall (fun c => root_component f c = Some Frame.ARef32) (references r).
Definition roots_refs (m : DecodedModule) (r : SafepointRoots) : Prop :=
  exists f, zget (functions m) (roots_function r) = Some f /\ roots_valid f r.

Definition block_refs (m : DecodedModule) (id : nat) (b : Block) : Prop :=
  owner_function b < size (functions m) /\ code_record b = Z.of_nat id /\ code_record b < size (code m).

Definition exception_refs (m : DecodedModule) (e : ExceptionEntry) : Prop :=
  exc_owner e < size (functions m) /\ first_protected_block e < size (blocks m) /\ exc_handler e < size (blocks m) /\
  optional_ref_ok m (catch_type e).

Definition debug_refs (m : DecodedModule) (d : DebugEntry) : Prop :=
  debug_function d < size (functions m) /\ debug_block d < size (blocks m).

Record refs_ok (modules : list DecodedModule) (m : DecodedModule) : Prop := {
  ro_name : string_ok m (name_string m);
  ro_types : Forall (nominal_refs m) (types m);
  ro_constants : Forall (constant_refs m) (constants m);
  ro_imports : Forall (import_refs modules m) (imports m);
  ro_exports : Forall (export_refs m) (exports m);
  ro_fields : Forall (field_refs m) (fields m);
  ro_functions : Forall (function_refs m) (functions m);
  ro_roots : Forall (roots_refs m) (safepoint_roots m);
  ro_roots_order : windows2 (fun a b => ge (roots_key a) (roots_key b)) (safepoint_roots m) = false;
  ro_blocks : forall i b, blocks m !! i = Some b -> block_refs m i b;
  ro_code : length (blocks m) = length (code m);
  ro_exceptions : Forall (exception_refs m) (exceptions m);
  ro_debug : Forall (debug_refs m) (debug m) }.

Section Decode.
Context (sha256 : list Z -> list Z) (limits : ArtifactLimits).

(** ** What the records of a module are *)

Record shapes_ok (m : DecodedModule) : Prop := {
  sh_strings : Forall (fun v => utf8_valid v = true) (strings m);
  sh_strings_order : windows2 ge (strings m) = false;
  sh_literals : Forall even_length (utf16_literals m);
  sh_types : Forall (nominal_ok limits) (types m);
  sh_constants : Forall constant_shape (constants m);
  sh_imports : Forall import_shape (imports m);
  sh_exports : Forall export_shape (exports m);
  sh_fields : Forall field_shape (fields m);
  sh_functions : Forall (function_shape limits) (functions m);
  sh_blocks : Forall block_shape (blocks m);
  sh_code : Forall2 (code_ok limits (functions m)) (blocks m) (code m);
  sh_exceptions : Forall exception_shape (exceptions m);
  sh_roots : Forall (roots_shape limits) (safepoint_roots m);
  sh_debug : Forall debug_shape (debug m) }.

Lemma invalid_safe {A} (P : A -> Prop) kind d : safe P (invalid limits kind d). Proof. done. Qed.
#[local] Hint Resolve invalid_safe : core.

Lemma type_ref_ok m v (absent : bool) : 0 <= v ->
  safe (fun _ => if absent then optional_ref_ok m v else ref_ok m v) (type_ref limits m v absent).
Proof.
  intros Hv. unfold type_ref, optional_ref_ok, ref_ok, NO_TYPE.
  destruct (Z.eqb_spec v u32_max) as [->|Hne]; [by destruct absent; simpl; auto|].
  destruct (Z.eqb_spec (Z.land v 0x80000000) 0) as [E|E]; simpl.
  - destruct (Z.leb_spec (size (types m)) v); [done|]. simpl. destruct absent; auto.
  - destruct (Z.leb_spec (size (imports m)) (Z.land v 0x7fffffff)) as [|Hlt]; [done|].
    assert (0 <= Z.land v 2147483647) by (apply Z.land_nonneg; lia).
    eapply safe_bind; [apply safe_expect, zget_is_Some; unfold size in Hlt; lia|]. intros i _ Hi.
    destruct (Z.eqb_spec (import_kind i) 0); [|done]. simpl. destruct absent; [right|]; (split; [done|]); by exists i.
Qed.

Lemma value_type_ref_ok m t : value_type_ok t -> safe (fun _ => value_ref_ok m t) (value_type_ref limits m t).
Proof.
  intros Ht. unfold value_type_ref, value_ref_ok. destruct (Z.eqb_spec (kind t) 7) as [E7|E7]; simpl.
  { eapply safe_mono; [apply (type_ref_ok m _ false), Ht|]. simpl. auto. }
  destruct (Z.eqb_spec (kind t) 8) as [E8|E8]; simpl; [|lia].
  eapply safe_mono; [apply (type_ref_ok m _ false), Ht|]. simpl. auto.
Qed.

Lemma check_string_ok m id : safe (fun _ => string_ok m id) (check_string limits m id).
Proof. unfold check_string, string_, string_ok. by destruct (zget (strings m) id); simpl. Qed.

Lemma checked_range_ok start count bound kind d : safe (fun _ => start + count <= bound) (checked_range limits start count bound kind d).
Proof.
  unfold checked_range. destruct (checked_add u32_max start count) as [stop|] eqn:E; [|done]. bsimp. subst stop.
  by destruct (Z.leb_spec (start + count) bound).
Qed.

Lemma unordered_safe {A K} `{BTree.Ordered K} (key : A -> Dia K) l : (forall x, x ∈ l -> safe (fun _ => True) (key x)) ->
  safe (fun _ => True) (unordered key l).
Proof.
  induction l as [|a [|b l] IH]; intros Hk; [done|done|]. cbn [unordered]. eapply safe_bind; [apply Hk; set_solver|]. intros ka _ _.
  eapply safe_bind; [apply Hk; set_solver|]. intros kb _ _. destruct (ge ka kb); [done|]. apply IH. set_solver.
Qed.

Lemma string_at_safe m id : string_ok m id -> safe (fun _ => True) (string_at m id).
Proof. intros H. eapply safe_mono; [by apply safe_expect|done]. Qed.

Lemma nominal_refs_ok m t : nominal_ok limits t -> safe (fun _ => nominal_refs m t) (validate_type limits m t).
Proof.
  intros Ht. unfold validate_type.
  assert (Hsuper : forall v, u32 v -> safe (fun _ => optional_ref_ok m v) (type_ref limits m v true)) by (intros v Hv; apply (type_ref_ok m v true), Hv).
  assert (Hfaces : forall l, Forall u32 l -> safe (fun _ => Forall (ref_ok m) l) (each (fun i => type_ref limits m i false) l)).
  { intros l Hl. apply safe_each. intros i Hi. apply (type_ref_ok m i false). eapply Forall_forall in Hl; [|exact Hi]. apply Hl. }
  assert (Hvalues : forall l, Forall value_type_ok l -> safe (fun _ => Forall (value_ref_ok m) l) (each (value_type_ref limits m) l)).
  { intros l Hl. apply safe_each. intros v Hv. apply value_type_ref_ok. by eapply Forall_forall in Hl. }
  destruct t as [nm cs|fl ga nm sup faces fs fc ms mc ini|fl ga nm sup faces ms mc|nm st el sup|nm fl res ps]; simpl in Ht; simpl.
  - destruct Ht as (_ & _ & _ & Hc). eapply (safe_bind (fun n => n = nm /\ Forall (value_ref_ok m) cs)).
    { eapply safe_bind; [apply Hvalues; eapply Forall_impl; [exact Hc|]; simpl; tauto|]. done. }
    intros n _ [-> Hr]. eapply safe_mono; [apply check_string_ok|]. done.
  - destruct Ht as (_ & _ & _ & Hs & Hi & _). eapply (safe_bind (fun n => n = nm /\ optional_ref_ok m sup /\ Forall (ref_ok m) faces)).
    { eapply safe_bind; [by apply Hsuper|]. intros ? _ H1. eapply safe_bind; [by apply Hfaces|]. done. }
    intros n _ (-> & Hr). eapply safe_mono; [apply check_string_ok|]. done.
  - destruct Ht as (_ & _ & _ & Hs & Hi & _). eapply (safe_bind (fun n => n = nm /\ optional_ref_ok m sup /\ Forall (ref_ok m) faces)).
    { eapply safe_bind; [by apply Hsuper|]. intros ? _ H1. eapply safe_bind; [by apply Hfaces|]. done. }
    intros n _ (-> & Hr). eapply safe_mono; [apply check_string_ok|]. done.
  - destruct Ht as (_ & _ & He & Hs). eapply (safe_bind (fun n => n = nm /\ value_ref_ok m el /\ from_option (ref_ok m) True sup)).
    { eapply safe_bind; [by apply value_type_ref_ok|]. intros ? _ H1. eapply (safe_bind (fun _ => from_option (ref_ok m) True sup)); [|done].
      destruct sup as [p|]; [|done]. apply (type_ref_ok m p false), Hs. }
    intros n _ (-> & Hr). eapply safe_mono; [apply check_string_ok|]. done.
  - destruct Ht as (_ & _ & Hr & Hp). eapply (safe_bind (fun n => n = nm /\ value_ref_ok m res /\ Forall (value_ref_ok m) ps)).
    { eapply safe_bind; [by apply value_type_ref_ok|]. intros ? _ H1. eapply safe_bind; [by apply Hvalues|]. done. }
    intros n _ (-> & H). eapply safe_mono; [apply check_string_ok|]. done.
Qed.

Lemma import_refs_ok modules m i : import_shape i -> safe (fun _ => import_refs modules m i) (validate_import limits modules m i).
Proof.
  intros Hi. unfold validate_import, import_refs. destruct (zget modules (target_module i)); [|done].
  eapply safe_bind; [apply check_string_ok|]. intros ? _ H. eapply safe_mono; [apply (type_ref_ok m _ false), Hi|]. done.
Qed.

Lemma export_refs_ok m e : export_shape e -> safe (fun _ => export_refs m e) (validate_export limits m e).
Proof.
  intros He. unfold validate_export, export_refs. eapply safe_bind; [apply check_string_ok|]. intros ? _ H1.
  eapply safe_bind; [apply (type_ref_ok m _ false), He|]. intros ? _ H2. cbv zeta. fold (symbol_count m (export_kind e)).
  by destruct (Z.leb_spec (symbol_count m (export_kind e)) (local_symbol e)).
Qed.

Lemma field_refs_ok m f : field_shape f -> safe (fun _ => field_refs m f) (validate_field limits m f).
Proof.
  intros (Ho & _ & Ht). unfold validate_field, field_refs. eapply safe_bind; [apply (type_ref_ok m _ false), Ho|]. intros ? _ H1.
  eapply safe_bind; [apply check_string_ok|]. intros ? _ H2. eapply safe_mono; [by apply value_type_ref_ok|]. done.
Qed.

Lemma function_refs_ok m f : function_shape limits f -> safe (fun _ => function_refs m f) (validate_function limits m f).
Proof.
  intros (Ho & _ & Hs & _ & _ & _ & _ & _ & _ & _ & _ & Hv). unfold validate_function, function_refs.
  eapply safe_bind; [apply (type_ref_ok m _ true), Ho|]. intros ? _ H1. eapply safe_bind; [apply check_string_ok|]. intros ? _ H2.
  eapply safe_bind; [apply (type_ref_ok m _ false), Hs|]. intros ? _ H3.
  destruct (Z.ltb_spec (register_count f) (parameter_count f)); [done|].
  eapply safe_bind; [apply checked_range_ok|]. intros ? _ H4. eapply safe_bind; [apply checked_range_ok|]. intros ? _ H5.
  eapply safe_mono; [apply (safe_each _ (fun v => value_ref_ok m (semantic_type v)))|done].
  intros v Hin. apply value_type_ref_ok. eapply Forall_forall in Hv; [|exact Hin]. apply Hv.
Qed.

Lemma roots_refs_ok f r : safe (fun _ => roots_valid f r) (validate_roots limits f r).
Proof.
  unfold validate_roots, roots_valid. destruct (windows2 _ _); [done|]. eapply safe_mono; [apply (safe_each _ (fun c => root_component f c = Some Frame.ARef32))|done].
  intros c _. simpl. by destruct (root_component f c) as [[]|].
Qed.

Lemma function_roots_ok m i f : functions m !! i = Some f ->
  safe (fun _ => Forall (fun r => roots_function r = Z.of_nat i -> roots_refs m r) (safepoint_roots m)) (validate_function_roots limits m (i, f)).
Proof.
  intros Hf. unfold validate_function_roots. destruct (_ <? _); [done|].
  eapply safe_mono; [apply (safe_each _ (roots_valid f)); intros r _; apply roots_refs_ok|]. intros ? _ H. cbv beta in H. apply Forall_forall. intros r Hr Hi.
  rewrite Forall_forall in H. exists f. split; [unfold zget; by rewrite Hi, Nat2Z.id|]. apply H.
  apply list_elem_of_In, filter_In. split; [by apply list_elem_of_In|by apply Z.eqb_eq].
Qed.

Lemma exception_refs_ok m e : exception_shape e -> safe (fun _ => exception_refs m e) (validate_exception limits m e).
Proof.
  intros He. unfold validate_exception, exception_refs. destruct (_ || _) eqn:E; [done|]. bsimp.
  eapply safe_mono; [apply (type_ref_ok m _ true), He|]. simpl. intros ? _ Hc. split_and!; done || lia.
Qed.

Lemma each_ok {A} (f : A -> Dia unit) (P Q : A -> Prop) l : Forall P l -> (forall x, P x -> safe (fun _ => Q x) (f x)) ->
  safe (fun _ => Forall Q l) (each f l).
Proof. intros Hl Hf. apply safe_each. intros x Hx. apply Hf. by eapply Forall_forall in Hl. Qed.

Lemma each_imap_ok {A} (f : nat * A -> Dia unit) (Q : nat -> A -> Prop) l :
  (forall i x, l !! i = Some x -> safe (fun _ => Q i x) (f (i, x))) ->
  safe (fun _ => forall i x, l !! i = Some x -> Q i x) (each f (imap pair l)).
Proof.
  intros Hf. eapply safe_mono; [apply (safe_each _ (fun p => Q p.1 p.2))|].
  - intros [i x] Hin. apply elem_of_lookup_imap in Hin as (j & y & [= -> ->] & Hj). by apply Hf.
  - intros ? _ H i x Hx. cbv beta in H. rewrite Forall_forall in H. apply (H (i, x)). apply elem_of_lookup_imap. eauto.
Qed.

Lemma module_tables_ok modules m : shapes_ok m -> string_ok m (name_string m) ->
  safe (fun _ => refs_ok modules m) (validate_module_tables limits modules m).
Proof.
  intros Sh Hname. unfold validate_module_tables.
  eapply safe_bind; [eapply each_ok; [apply Sh|]; intros t Ht; by apply nominal_refs_ok|]. intros ? _ Htypes.
  eapply safe_bind; [apply (each_ok _ (fun _ => True) (constant_refs m)); [by apply Forall_true|]|].
  { intros [] _; simpl; try done. by destruct (Z.leb_spec (size (utf16_literals m)) literal). }
  intros ? _ Hconstants.
  eapply safe_bind; [eapply each_ok; [apply Sh|]; intros i Hi; by apply import_refs_ok|]. intros ? _ Himports.
  eapply safe_bind; [apply unordered_safe|].
  { intros i Hi. unfold import_key. eapply Forall_forall in Himports as (_ & Hs & _); [|exact Hi].
    eapply safe_bind; [by apply string_at_safe|done]. }
  intros [] _ _; [done|].
  eapply safe_bind; [eapply each_ok; [apply Sh|]; intros e He; by apply export_refs_ok|]. intros ? _ Hexports.
  eapply safe_bind; [apply unordered_safe|].
  { intros e He. unfold export_key. eapply Forall_forall in Hexports as (Hs & _); [|exact He].
    eapply safe_bind; [by apply string_at_safe|done]. }
  intros [] _ _; [done|].
  eapply safe_bind; [eapply each_ok; [apply Sh|]; intros f Hf; by apply field_refs_ok|]. intros ? _ Hfields.
  eapply safe_bind; [eapply each_ok; [apply Sh|]; intros f Hf; by apply function_refs_ok|]. intros ? _ Hfunctions.
  destruct (windows2 _ (safepoint_roots m)) eqn:Horder; [done|].
  eapply safe_bind; [apply each_imap_ok; intros i f Hf; by apply function_roots_ok|]. intros ? _ Hroots.
  destruct (existsb _ (safepoint_roots m)) eqn:Hex; [done|].
  eapply safe_bind; [apply (each_imap_ok _ (block_refs m))|].
  { intros i b Hb. unfold validate_block, block_refs. destruct (_ || _) eqn:E; [done|]. bsimp. simpl. lia. }
  intros ? _ Hblocks. destruct (Nat.eqb_spec (length (blocks m)) (length (code m))) as [Hcode|]; [|done]. simpl.
  eapply safe_bind; [eapply each_ok; [apply Sh|]; intros e He; by apply exception_refs_ok|]. intros ? _ Hexceptions.
  eapply safe_mono; [apply (each_ok _ (fun _ => True) (debug_refs m)); [by apply Forall_true|]|].
  { intros d _. unfold validate_debug, debug_refs. destruct (_ || _) eqn:E; [done|]. bsimp. simpl. lia. }
  intros ? _ Hdebug. split; try done. cbv beta in *.
  apply Forall_forall. intros r Hr. assert (Hrange : 0 <= roots_function r < size (functions m)).
  { pose proof (sh_roots m Sh) as Hsh. eapply Forall_forall in Hsh as ([? _] & _); [|exact Hr]. split; [done|].
    apply Z.leb_gt. apply not_true_is_false. intros Hle. apply not_true_iff_false in Hex. apply Hex, existsb_exists.
    exists r. split; [by apply list_elem_of_In|done]. }
  destruct (zget_is_Some (functions m) (roots_function r) Hrange) as [f Hf].
  specialize (Hroots _ _ Hf). eapply Forall_forall in Hroots; [|exact Hr]. apply Hroots. lia.
Qed.

(** ** Sections of a container *)

Section Sections.
Context (c : Container) (Hc : container_ok sha256 c).
Abbreviation bytes := (container_bytes c).

Lemma optional_entry_ok sc kind e : optional_entry c sc kind = Some e -> entry_ok (Z.of_nat (length bytes)) e.
Proof.
  intros H. apply find_some in H as [H _]. apply list_elem_of_In in H. pose proof (co_directory _ _ Hc) as Hd. by eapply Forall_forall in Hd.
Qed.

Lemma find_ok sc kind : safe (entry_ok (Z.of_nat (length bytes))) (Tables.find limits c sc kind).
Proof. unfold Tables.find. eapply safe_mono; [apply safe_ok_or|]. intros e _. apply optional_entry_ok. Qed.

Lemma decode_indexed_ok e : entry_ok (Z.of_nat (length bytes)) e -> safe (section_ok limits bytes) (decode_indexed limits c e).
Proof. intros He. by apply safe_map_err, (decode_section_ok sha256). Qed.

Lemma indexed_ok sc kind : safe (section_ok limits bytes) (indexed limits c sc kind).
Proof. unfold indexed. eapply safe_bind; [apply find_ok|]. intros e _ He. by apply decode_indexed_ok. Qed.

Definition manifest_ok (m : Manifest) : Prop := u32 (required_capabilities m) /\ u32 (optional_capabilities m).

Lemma decode_manifest_ok e : entry_ok (Z.of_nat (length bytes)) e -> safe manifest_ok (decode_manifest limits c e).
Proof.
  intros (_ & _ & Ho & Hn & Hin). unfold decode_manifest. destruct (Z.eqb_spec (entry_length e) 112) as [El|]; [|done]. simpl.
  destruct (negb _); [done|]. eapply safe_bind; [apply safe_slice; lia|]. intros payload _ ->.
  eapply rd_run; [|apply slice_Forall, Hc|rewrite slice_length by lia; unfold usize_max; lia].
  unfold read_manifest. read_ok. done.
Qed.

Lemma module_record_ok base bs : reads (fun _ => True) (module_record limits base bs).
Proof. unfold module_record, read. read_ok. done. Qed.

Lemma module_roots_ok sc s blocks function_count total : section_ok limits bytes s -> 0 <= function_count ->
  safe (fun r => Forall (roots_shape limits) r.1) (module_roots limits c sc s blocks function_count total).
Proof.
  intros Hs Hf. unfold module_roots, expanded_limit. pose proof (co_length _ _ Hc) as Hl. pose proof (co_bytes _ _ Hc) as Hb.
  destruct (optional_entry c sc SAFEPOINT_ROOT_RANGES) as [marker|] eqn:Em.
  - apply optional_entry_ok in Em as (_ & _ & ? & ? & ?). eapply safe_bind; [apply safe_slice; lia|]. intros payload _ ->.
    eapply (safe_bind (fun _ => True)).
    { eapply rd_run; [|by apply slice_Forall|rewrite slice_length by lia; lia]. unfold root_marker, ru32, ru64. read_ok.
      eapply rd_bind; [apply rd_lift, safe_ok_or|]. intros n _. read_ok. done. }
    intros [count len] _ _. destruct (_ <? _); [done|]. eapply safe_bind; [apply add_to_limit_safe|]. intros t _ _.
    eapply safe_bind; [by eapply parse_root_ranges_ok|]. done.
  - eapply safe_bind; [apply find_ok|]. intros e _ _. eapply safe_bind; [apply add_to_limit_safe|]. intros t _ _.
    eapply safe_bind; [eapply parse_each_ok; [exact Hb|exact Hl|exact Hs|apply safepoint_reads]|]. intros r _ [_ Hr]. done.
Qed.

Lemma module_debug_ok sc total : safe (fun r => Forall debug_shape r.1) (module_debug limits c sc total).
Proof.
  unfold module_debug, debug_limit. pose proof (co_length _ _ Hc) as Hl. pose proof (co_bytes _ _ Hc) as Hb.
  eapply (safe_bind (fun r : option (list (list Z)) * Z => from_option (Forall path_ok) True r.1)).
  { destruct (optional_entry c sc DEBUG_PATHS) as [e|] eqn:Ee; [|done]. destruct (optional_entry c sc DEBUG); [|done].
    eapply safe_bind; [by eapply decode_indexed_ok, optional_entry_ok|]. intros s _ Hs.
    eapply safe_bind; [apply add_to_limit_safe|]. intros t _ _. eapply safe_bind; [by eapply parse_debug_paths_ok|]. done. }
  intros [paths t] _ Hp. eapply (safe_bind (fun r : list DebugEntry * Z => Forall debug_shape r.1)).
  { destruct (optional_entry c sc DEBUG) as [e|] eqn:Ee; [|by constructor].
    eapply safe_bind; [by eapply decode_indexed_ok, optional_entry_ok|]. intros s _ Hs.
    eapply safe_bind; [apply add_to_limit_safe|]. intros t' _ _. eapply safe_bind; [by eapply parse_debug_ok|]. done. }
  intros [ds t'] _ Hd. destruct (optional_entry c sc DEBUG_SOURCE_POSITIONS) as [e|] eqn:Ee; [|done].
  eapply safe_bind; [by eapply decode_indexed_ok, optional_entry_ok|]. intros s _ Hs.
  eapply safe_bind; [apply add_to_limit_safe|]. intros t'' _ _.
  eapply safe_bind; [eapply source_positions_ok; [exact Hb|exact Hl|exact Hs| |exact Hd]; intros id Hid%ids_nonneg; lia|]. done.
Qed.

(** What a module adds to the totals. *)
Record counted (t : Totals) (m : DecodedModule) (t' : Totals) : Prop := {
  ct_imports : total_imports t' = total_imports t + size (imports m) /\ total_imports t' <= max_imports limits;
  ct_functions : total_functions t' = total_functions t + size (functions m) /\ total_functions t' <= max_functions limits;
  ct_blocks : total_blocks t' = total_blocks t + size (blocks m) /\ total_blocks t' <= max_blocks limits;
  ct_exceptions : total_exceptions t' = total_exceptions t + size (exceptions m) /\ total_exceptions t' <= max_exceptions limits;
  ct_strings : total_string_bytes t' = total_string_bytes t + foldr Z.add 0 (size <$> strings m) /\ total_string_bytes t' <= strings_bytes limits;
  ct_code : total_code_bytes t' = total_code_bytes t + foldr Z.add 0 ((fun c => size (code_range c)) <$> code m) /\
    total_code_bytes t' <= code_bytes limits;
  ct_literals : total_utf16_literal_code_units t' = total_utf16_literal_code_units t + foldr Z.add 0 (units <$> utf16_literals m) /\
    total_utf16_literal_code_units t' <= Z.max (total_utf16_literal_code_units t) (utf16_literal_code_units limits) }.

Lemma decode_module_ok s base id t : section_ok limits bytes s -> 0 <= id ->
  safe (fun r => shapes_ok r.1 /\ counted t r.1 r.2) (decode_module limits c s base id t).
Proof.
  intros Hs Hid. unfold decode_module. pose proof (co_length _ _ Hc) as Hl. pose proof (co_bytes _ _ Hc) as Hb.
  eapply safe_bind; [apply safe_map_err, (record_ok _ _ _ Hs); done|]. intros bs _ ->.
  eapply (safe_bind (fun _ => True)).
  { eapply rd_run; [apply module_record_ok|by apply (record_of_bytes _ _ _ Hs)|by apply (record_of_small _ _ _ Hs)]. }
  intros [[[name fl] hash] [[[di de] dt] df]] _ _.
  eapply safe_bind; [apply find_ok|]. intros se _ Hse.
  eapply (safe_bind (fun vs => exists s, decode_section limits c se = Ok s /\ vs = record_of s <$> ids s /\
    Forall (fun v => utf8_valid v = true) vs /\ windows2 ge vs = false)).
  { apply safe_map_err. unfold decode_string_table. eapply safe_bind; [by apply (decode_section_ok sha256)|]. intros ss Ess Hss.
    destruct (_ <? _); [done|]. eapply safe_mono; [eapply string_table_ok; [eassumption..|intros i; apply ids_nonneg]|].
    intros vs _ (-> & Hu & Hw). exists ss. done. }
  intros vs _ (ss & Ess & -> & Hutf & Horder).
  eapply (safe_bind (fun x => x = ss /\ section_ok limits bytes ss)).
  { unfold decode_indexed. pose proof (decode_section_ok sha256 limits c se Hc Hse) as Hss. by rewrite Ess in Hss |- *. }
  intros x _ [-> Hss]. eapply safe_bind; [apply add_to_limit_safe|]. intros st _ [-> Hst].
  eapply safe_bind; [by eapply collect_ranges_ok|]. intros strs _ ->.
  do 11 (eapply safe_bind; [apply indexed_ok|]; intros ? _ ?).
  do 5 (eapply safe_bind; [apply add_to_limit_safe|]; intros ? _ [-> ?]).
  destruct (_ || _) eqn:Hcounts; [done|]. bsimp.
  eapply safe_bind; [eapply parse_each_ok; [exact Hb|exact Hl|eassumption|apply type_reads]|]. intros tys _ [_ Htys].
  eapply safe_bind; [by eapply parse_constants_ok|]. intros cs _ Hcs.
  eapply safe_bind; [eapply parse_each_ok; [exact Hb|exact Hl|eassumption|apply import_reads]|]. intros ims _ [Nims Hims].
  eapply safe_bind; [eapply parse_each_ok; [exact Hb|exact Hl|eassumption|apply export_reads]|]. intros exs _ [_ Hexs].
  eapply safe_bind; [eapply parse_each_ok; [exact Hb|exact Hl|eassumption|apply field_reads]|]. intros fls _ [_ Hfls].
  eapply safe_bind; [eapply parse_each_ok; [exact Hb|exact Hl|eassumption|apply function_reads]|]. intros fns _ [Nfns Hfns].
  eapply safe_bind; [eapply parse_each_ok; [exact Hb|exact Hl|eassumption|apply block_reads]|]. intros bls _ [Nbls Hbls].
  eapply safe_bind; [eapply parse_code_ok; [exact Hb|exact Hl|eassumption|exact Hbls]|]. intros cds _ [Hcds Ncds].
  eapply safe_bind; [eapply parse_each_ok; [exact Hb|exact Hl|eassumption|apply exception_reads]|]. intros xs _ [Nxs Hxs].
  eapply safe_bind; [apply module_roots_ok; [eassumption|unfold size; lia]|]. intros [roots rt] _ Hroots.
  eapply safe_bind; [eapply parse_utf16_literals_ok; eassumption|]. intros [lits lt] _ (Hlits & Elt & Hlt).
  eapply safe_bind; [apply module_debug_ok|]. intros [ds dbt] _ Hds.
  simpl in *. split; [by split|]. split; simpl; try (unfold size; lia).
  split; [|done]. rewrite <- list_fmap_compose. f_equal. symmetry. exact (section_bytes _ _ _ Hss).
Qed.

Definition total (n : DecodedModule -> Z) (ms : list DecodedModule) : Z := foldr Z.add 0 (n <$> ms).

Record within (t : Totals) (ms : list DecodedModule) : Prop := {
  wi_imports : total_imports t + total (fun m => size (imports m)) ms <= max_imports limits;
  wi_functions : total_functions t + total (fun m => size (functions m)) ms <= max_functions limits;
  wi_blocks : total_blocks t + total (fun m => size (blocks m)) ms <= max_blocks limits;
  wi_exceptions : total_exceptions t + total (fun m => size (exceptions m)) ms <= max_exceptions limits;
  wi_strings : total_string_bytes t + total (fun m => foldr Z.add 0 (size <$> strings m)) ms <= strings_bytes limits;
  wi_code : total_code_bytes t + total (fun m => foldr Z.add 0 ((fun c => size (code_range c)) <$> code m)) ms <= code_bytes limits;
  wi_literals : total_utf16_literal_code_units t + total (fun m => foldr Z.add 0 (units <$> utf16_literals m)) ms <=
    Z.max (total_utf16_literal_code_units t) (utf16_literal_code_units limits) }.

Lemma decode_modules_ok s base l : section_ok limits bytes s -> (forall id, id ∈ l -> 0 <= id) -> forall t,
  safe (fun ms => length ms = length l /\ Forall shapes_ok ms /\ (ms <> [] -> within t ms)) (decode_modules limits c s base l t).
Proof.
  intros Hs. induction l as [|id l IH]; intros Hn t; simpl; [done|].
  eapply safe_bind; [apply decode_module_ok; [done|set_solver]|]. intros [m t'] _ [Hm [H1 H2 H3 H4 H5 H6 H7]].
  eapply safe_bind; [apply IH; set_solver|]. intros ms _ (Hl & Hms & Hw). simpl in *. split; [lia|]. split; [by constructor|]. intros _.
  destruct ms as [|m' ms]; [split; cbn in *; lia|]. destruct (Hw ltac:(done)) as [W1 W2 W3 W4 W5 W6 W7]. split; cbn in *; lia.
Qed.

End Sections.

(** ** Artifacts *)

Record artifact_ok (bytes : list Z) (a : DecodedArtifact) : Prop := {
  ao_bytes : art_bytes a = bytes;
  ao_hash : content_hash a = sha256 (payload_of bytes);
  ao_digest : content_hash a = digest_of bytes;
  ao_entry : exists m, zget (modules a) (entry_module (header a)) = Some m /\ module_flags m = 1 /\
    0 <= entry_function (header a) < size (functions m) /\
    Forall (fun c => string_ok m (cap_namespace c) /\ string_ok m (cap_name c)) (capabilities a);
  ao_flags : forall i m, modules a !! i = Some m -> module_flags m = 1 <-> Z.of_nat i = entry_module (header a);
  ao_capabilities : size (capabilities a) = required_capabilities (manifest a) + optional_capabilities (manifest a) /\
    size (capabilities a) <= max_capabilities limits;
  ao_shapes : Forall shapes_ok (modules a);
  ao_refs : Forall (refs_ok (modules a)) (modules a);
  ao_modules : size (modules a) <= max_modules limits;
  ao_within : within (mkTotals 0 0 0 0 0 0 0 0 0) (modules a) }.

Lemma filter_imap_mem {A} (p : A -> bool) (l : list A) i x : l !! i = Some x -> p x = true ->
  Z.of_nat i ∈ map (fun q => Z.of_nat q.1) (List.filter (fun q => p q.2) (imap pair l)).
Proof.
  intros Hi Hp. apply list_elem_of_In, in_map_iff. exists (i, x). split; [done|]. apply filter_In. split; [|done].
  apply list_elem_of_In, elem_of_lookup_imap. eauto.
Qed.

Lemma filter_imap_inv {A} (p : A -> bool) (l : list A) z :
  z ∈ map (fun q => Z.of_nat q.1) (List.filter (fun q => p q.2) (imap pair l)) ->
  exists i x, z = Z.of_nat i /\ l !! i = Some x /\ p x = true.
Proof.
  intros Hz. apply list_elem_of_In, in_map_iff in Hz as ([i x] & <- & Hin). apply filter_In in Hin as [Hin Hp].
  apply list_elem_of_In, elem_of_lookup_imap in Hin as (j & y & [= -> ->] & Hj). eauto.
Qed.

(** What [validate_local_tables] adds. *)
Lemma local_tables_ok h mf caps ms : header_ok h -> Forall shapes_ok ms ->
  safe (fun _ => (exists m, zget ms (entry_module h) = Some m /\ module_flags m = 1 /\ entry_function h < size (functions m) /\
      Forall (fun c => string_ok m (cap_namespace c) /\ string_ok m (cap_name c)) caps) /\
    (forall i m, ms !! i = Some m -> module_flags m = 1 <-> Z.of_nat i = entry_module h) /\
    Forall (refs_ok ms) ms) (validate_local_tables limits h mf caps ms).
Proof.
  intros Hh Hsh. unfold validate_local_tables. destruct (zget ms (entry_module h)) as [m|] eqn:Em; [|done]. simpl.
  destruct (Z.leb_spec (size (functions m)) (entry_function h)) as [|Hef]; [done|].
  destruct (negb _ || existsb _ ms) eqn:Hflags; [done|]. apply orb_false_iff in Hflags as [Happ _].
  apply negb_false_iff, bool_decide_eq_true in Happ. destruct (negb _ || negb _); [done|].
  eapply safe_bind; [apply (safe_each _ (fun c => string_ok m (cap_namespace c) /\ string_ok m (cap_name c)))|].
  { intros cp _. eapply safe_bind; [apply check_string_ok|]. intros ? _ H1. eapply safe_mono; [apply check_string_ok|]. done. }
  intros ? _ Hcaps. cbv beta in Hcaps. eapply safe_bind; [apply unordered_safe|].
  { intros cp Hcp. unfold capability_key. eapply Forall_forall in Hcaps as [H1 H2]; [|exact Hcp].
    eapply safe_bind; [by apply string_at_safe|]. intros ? _ _. eapply safe_bind; [by apply string_at_safe|done]. }
  intros [] _ _; [done|].
  eapply safe_mono; [eapply (each_ok _ _ (refs_ok ms)); [exact Hsh|]|].
  { intros x Hx. eapply safe_bind; [apply check_string_ok|]. intros ? _ Hn. by apply module_tables_ok. }
  intros ? _ Hrefs. cbv beta in Hrefs.
  assert (Hiff : forall i x, ms !! i = Some x -> module_flags x = 1 <-> Z.of_nat i = entry_module h).
  { intros i x Hi. split; intros H.
    - pose proof (filter_imap_mem (fun m => module_flags m =? 1) ms i x Hi ltac:(by apply Z.eqb_eq)) as Hin.
      cbv beta in Hin. rewrite Happ in Hin. by apply list_elem_of_singleton in Hin.
    - destruct (filter_imap_inv (fun m => module_flags m =? 1) ms (entry_module h)) as (j & y & Hj & Hy & Hf).
      { cbv beta. rewrite Happ. by apply list_elem_of_singleton. }
      assert (i = j) by lia. subst j. rewrite Hi in Hy. injection Hy as <-. by apply Z.eqb_eq. }
  split; [|done]. exists m. split; [done|]. split; [|done]. apply (Hiff _ _ Em). destruct Hh as (_ & _ & _ & _ & [? _] & _). lia.
Qed.

Lemma decode_artifact_ok bytes : is_bytes bytes -> artifact_bytes limits <= usize_max ->
  safe (artifact_ok bytes) (decode_artifact sha256 limits bytes).
Proof.
  intros Hb Hlim. unfold decode_artifact. eapply safe_bind; [by apply decode_container_ok|]. intros c _ [Hc <-].
  pose proof (co_length _ _ Hc) as Hl.
  eapply safe_bind; [by apply find_ok|]. intros me _ Hme. eapply safe_bind; [by apply find_ok|]. intros mo _ Hmo.
  eapply safe_bind; [by apply find_ok|]. intros ce _ Hce. eapply safe_bind; [by apply decode_manifest_ok|]. intros mf _ Hmf.
  eapply safe_bind; [by apply decode_indexed_ok|]. intros ms _ Hms. eapply safe_bind; [by apply decode_indexed_ok|]. intros cs _ Hcs.
  eapply safe_bind; [apply safe_ok_or|]. intros declared _ Hdecl. apply checked_add_Some in Hdecl as [-> _].
  destruct (Z.eqb_spec (section_len cs) (required_capabilities mf + optional_capabilities mf)) as [Hcount|]; [|done]. simpl.
  destruct (Z.ltb_spec (max_capabilities limits) (section_len cs)) as [|Hcmax]; [done|]. eapply safe_bind; [eapply parse_each_ok; [exact Hb|exact Hl|exact Hcs|apply capability_reads]|].
  intros caps _ [Hcaps _]. destruct (Z.ltb_spec (max_modules limits) (section_len ms)) as [|Hmax]; [done|]. destruct (existsb _ _); [done|].
  eapply safe_bind; [apply decode_modules_ok; [done|done|intros id Hid%ids_nonneg; lia]|]. intros mods _ (Hlen & Hsh & Hw).
  eapply safe_bind; [apply local_tables_ok; [apply Hc|done]|]. intros ? _ ((m & Em & Hf & He & Hs) & Hfl & Hrefs).
  pose proof (co_digest _ _ Hc) as Hdig. unfold size, DIGEST_SIZE in *.
  eapply safe_bind; [apply safe_slice; lia|]. intros content _ ->. cbn [safe]. pose proof (co_header _ _ Hc) as (_ & _ & _ & _ & _ & [? _]).
  split; cbn [art_bytes content_hash header manifest capabilities modules]; try done.
  - unfold payload_of, DIGEST_SIZE. do 2 f_equal. lia.
  - rewrite <- (co_trailer _ _ Hc). unfold payload_of, DIGEST_SIZE. do 2 f_equal. lia.
  - exists m. unfold size. split_and!; try done; lia.
  - unfold size. lia.
  - unfold size, ids in *. rewrite length_seqZ in Hlen. pose proof (section_len_nonneg _ _ _ Hms). lia.
  - apply Hw. intros ->. done.
Qed.

(** C8. The decoder is total and its results are well formed.  On any bytes whatever,
    within any limits, [decode_artifact] does not panic.  If it returns an artifact,
    the last 32 bytes are the digest of the others; exactly the entry module is an
    application, and the entry function is one of its functions; the references
    of [refs_ok] exist: names, super types and component types of types, literals of
    constants, modules, names and signatures of imports, types and symbols of exports,
    owners, names and types of fields and functions, the block and exception ranges of
    functions, owner and code record of blocks, owner, first block, handler and
    type of exceptions, and the function, and in it the components, of safepoint
    roots; function values, constants and types have the shapes of the format; every
    code record is the canonical encoding of the instructions of its block, as many as
    declared, and its cost is their sum; safepoint roots are reference components, in
    order; strings are UTF-8 and in strict order; and the totals of modules,
    capabilities, imports, functions, blocks, exceptions, string bytes, code bytes and
    code units of literals are within the limits.  Not among the references, because
    the decoder does not check them, are the field and method ranges and the
    initializer of a class and the block of a safepoint. *)
Theorem decode_artifact_sound bytes : is_bytes bytes -> artifact_bytes limits <= usize_max ->
  decode_artifact sha256 limits bytes <> Panic /\
  forall a, decode_artifact sha256 limits bytes = Ok a -> artifact_ok bytes a.
Proof.
  intros Hb Hlim. pose proof (decode_artifact_ok bytes Hb Hlim) as Hsafe.
  destruct (decode_artifact sha256 limits bytes) as [a|e|]; [|done|done]. split; [done|]. by intros a' [= <-].
Qed.

End Decode.
(** ** A small artifact

    One module with one function, [fun f(): f? { val r = null; return r }], whose only
    register is a root. *)

Definition word (v : Z) : list Z := le_bytes 4 v.
Definition half (v : Z) : list Z := le_bytes 2 v.
Definition pad8 (bs : list Z) : list Z := bs ++ replicate (Z.to_nat ((- size bs) mod 8)) 0.

(** A section of records. *)
Definition encode_records (records : list (list Z)) : list Z :=
  let bs := concat records in
  pad8 (word (size records) ++ word 0 ++ le_bytes 8 (size bs) ++
        word 0 ++ concat (imap (fun i _ => word (size (concat (firstn (S i) records)))) records)) ++ bs.

(** The directory of the sections from [off] on, and their bytes. *)
Fixpoint encode_sections (off : Z) (sections : list (Z * Z * Z * Z * list Z)) : list Z * list Z :=
  match sections with
  | [] => ([], [])
  | (sc, kind, flags, count, bs) :: sections =>
      let padded := match sections with [] => bs | _ => pad8 bs end in
      let '(entries, rest) := encode_sections (off + size padded) sections in
      (half kind ++ half flags ++ word sc ++ le_bytes 8 off ++ le_bytes 8 (size bs) ++ word count ++ word 0 ++ entries, padded ++ rest)
  end.

(** An artifact with such features whose entry is function 0 of module 0, and whose
    digest is zero. *)
Definition encode_featured (features : Z) (sections : list (Z * Z * Z * Z * list Z)) : list Z :=
  let start := 64 + 32 * size sections in
  let '(entries, payload) := encode_sections start sections in
  text "CPKT" ++ half 3 ++ half 0 ++ half 1 ++ half 20 ++ half 64 ++ half 32 ++ word (size sections) ++ word features ++
  le_bytes 8 64 ++ le_bytes 8 (start + size payload) ++ word 0 ++ word 0 ++ replicate 16 0 ++ entries ++ payload ++ replicate 32 0.

Definition encode_container : list (Z * Z * Z * Z * list Z) -> list Z := encode_featured 0.

Definition records_section (sc kind : Z) (records : list (list Z)) : Z * Z * Z * Z * list Z :=
  (sc, kind, 3, size records, encode_records records).

Definition small_sections : list (Z * Z * Z * Z * list Z) :=
  let reference := [7; 1] ++ half 0 ++ word 0 in
  [(0, MANIFEST, 3, 1, concat (word <$> [0; 0; 1; 1; 0; 0; 2; 2; 0; 0]) ++ replicate 64 0 ++ word 0 ++ word 0);
   records_section 0 MODULES [word 0 ++ word 1 ++ replicate 32 0 ++ word 0 ++ word 0 ++ word 1 ++ word 1 ++ word 0];
   records_section 0 CAPABILITIES [];
   records_section 1 STRINGS [text "f"];
   records_section 1 TYPES [[3; 0] ++ half 0 ++ word 0 ++ half 0 ++ half 0 ++ reference];
   records_section 1 CONSTANTS [];
   records_section 1 IMPORTS [];
   records_section 1 EXPORTS [];
   records_section 1 FIELDS [];
   records_section 1 FUNCTIONS [word u32_max ++ word 0 ++ word 0 ++ word 0 ++ half 1 ++ half 0 ++ word 0 ++ word 1 ++ word 0 ++ word 0 ++
                                reference ++ half 1 ++ half 0 ++ [4]];
   records_section 1 BLOCKS [word 0 ++ word 0 ++ word 2 ++ word 2 ++ word 0 ++ word 0];
   records_section 1 CODE [CodeProps.code_word [Code.Null 0; Code.Return 0]];
   records_section 1 EXCEPTIONS [];
   records_section 1 UTF16_LITERALS [];
   records_section 1 SAFEPOINT_ROOTS [word 0 ++ word 0 ++ word 1 ++ half 1 ++ half 0 ++ half 0 ++ half 0]].

Definition zero_digest (bs : list Z) : list Z := replicate 32 0.

Lemma decode_artifact_sound_witness : exists a, decode_artifact zero_digest limits_default (encode_container small_sections) = Ok a /\
  (exists m, modules a = [m] /\ code m = [mkCode (CodeProps.code_word [Code.Null 0; Code.Return 0]) [Code.Null 0; Code.Return 0] 2]) /\
  artifact_ok zero_digest limits_default (encode_container small_sections) a.
Proof.
  eexists. split; [vm_compute; reflexivity|]. split; [eexists; split; reflexivity|].
  apply (decode_artifact_sound zero_digest limits_default (encode_container small_sections)).
  - apply is_bytes_forallb. vm_compute. reflexivity.
  - vm_compute. discriminate.
  - vm_compute. reflexivity.
Defined.

End TablesProps.
