(* ===== verification/ModulesProps.v ===== *)
(** The checks of modules: the depth-first search finds a cycle exactly when there is
    one, and otherwise lists every node after its targets. *)

From S2P Require Import Prelude Words Unicode Bytes Value Float Code CodeProps Frame Path BTree Artifact Verify Container Records Tables Modules TablesProps.
Import Diagnostics.

Module SearchProps.
Import Artifact Tables Modules Total.

Section Search.
Context (edges : list (list Z)) (check : Z -> Z -> Dia unit) (cycle : Z -> DiagnosticSet).

Definition edge (a b : Z) : Prop := 0 <= a /\ exists ts, zget edges a = Some ts /\ b ∈ ts.
Definition in_range_node (v : Z) : Prop := 0 <= v < size edges.

Hypothesis Htargets : forall a b, edge a b -> in_range_node b.
Hypothesis Hcheck : forall a b, check a b <> Panic.

(** Every node comes after its targets. *)
Definition topological (l : list Z) : Prop := forall l1 x l2, l = l1 ++ x :: l2 -> forall y, edge x y -> y ∈ l1.

(** The entries of the stack: the targets before the current one are done, and the
    current one is the node above. *)
Fixpoint stack_ok (done : list Z) (above : option Z) (stack : list (Z * Z)) : Prop :=
  match stack with
  | [] => True
  | (v, e) :: stack =>
      (exists ts, zget edges v = Some ts /\ 0 <= v /\ 0 <= e <= size ts /\
        match above with
        | None => Forall (fun t => t ∈ done) (take (Z.to_nat e) ts)
        | Some u => 0 < e /\ zget ts (e - 1) = Some u /\ Forall (fun t => t ∈ done) (take (Z.to_nat (e - 1)) ts)
        end) /\ stack_ok done (Some v) stack
  end.

Record search_inv (stack : list (Z * Z)) (s : Search) : Prop := {
  si_length : length (marks s) = length edges;
  si_done : forall v, 0 <= v -> zget (marks s) v = Some 2 <-> v ∈ order s;
  si_open : forall v, 0 <= v -> zget (marks s) v = Some 1 <-> v ∈ stack.*1;
  si_marks : forall v m, 0 <= v -> zget (marks s) v = Some m -> m = 0 \/ m = 1 \/ m = 2;
  si_nodup : NoDup (order s);
  si_range : Forall in_range_node (order s);
  si_topo : topological (order s);
  si_stack : stack_ok (order s) None stack;
  si_distinct : NoDup stack.*1 }.

Lemma stack_ok_mono done done' above stack : (forall v, v ∈ done -> v ∈ done') -> stack_ok done above stack -> stack_ok done' above stack.
Proof.
  intros Hd. revert above. induction stack as [|[v e] stack IH]; intros above H; [done|]. destruct H as [(ts & H1 & H2 & H3 & H4) H].
  split; [|by apply IH]. exists ts. split; [done|]. split; [done|]. split; [done|]. destruct above as [u|].
  - destruct H4 as (? & ? & H4). split; [done|]. split; [done|]. eapply Forall_impl; [exact H4|]. auto.
  - eapply Forall_impl; [exact H4|]. auto.
Qed.

Lemma stack_node done above stack v : stack_ok done above stack -> v ∈ stack.*1 -> 0 <= v.
Proof.
  revert above. induction stack as [|[u e] stack IH]; intros above H Hv; [by apply elem_of_nil in Hv|].
  destruct H as [(ts & _ & H & _) Hs]. apply elem_of_cons in Hv as [->|Hv]; [done|]. by eapply IH.
Qed.

(** A node on the stack reaches the nodes above it. *)
Lemma stack_reaches done above stack v : stack_ok done above stack -> v ∈ stack.*1 ->
  match above with Some u => tc edge v u | None => True end.
Proof.
  revert above. induction stack as [|[w e] stack IH]; intros above H Hv; [by apply elem_of_nil in Hv|].
  destruct H as [(ts & Hts & Hw & He & Habove) Hs]. destruct above as [u|]; [|done]. destruct Habove as (Hpos & Hu & _).
  assert (Hedge : edge w u). { split; [done|]. exists ts. split; [done|]. by eapply list_elem_of_lookup_2. }
  apply elem_of_cons in Hv as [->|Hv]; [by apply tc_once|]. eapply tc_r; [by apply (IH (Some w) Hs Hv)|done].
Qed.

(** ** Fuel *)

Definition waiting (m : Z) (ts : list Z) : nat := if m =? 0 then S (length ts) else 0.
Definition unseen (ms : list Z) : nat := list_sum (zip_with waiting ms edges).
Definition pending (stack : list (Z * Z)) : nat :=
  list_sum (map (fun p => S (Z.to_nat (size (default [] (zget edges p.1)) - p.2))) stack).

Lemma list_sum_insert (f : Z -> list Z -> nat) : forall (ms : list Z) (es : list (list Z)) i old new ts,
  ms !! i = Some old -> es !! i = Some ts ->
  (list_sum (zip_with f (<[i := new]> ms) es) + f old ts = list_sum (zip_with f ms es) + f new ts)%nat.
Proof.
  induction ms as [|m ms IH]; intros [|e es] [|i] old new ts Hm He; simplify_eq/=; [lia|].
  specialize (IH es i old new ts Hm He). lia.
Qed.

Lemma unseen_set ms v old new ts : 0 <= v -> zget ms v = Some old -> zget edges v = Some ts ->
  (unseen (zset v new ms) + waiting old ts = unseen ms + waiting new ts)%nat.
Proof. intros _. apply list_sum_insert. Qed.

Lemma unseen_bound ms : (unseen ms < search_fuel edges)%nat.
Proof.
  unfold unseen, search_fuel. apply Nat.lt_succ_r. generalize edges. induction ms as [|m ms IH]; intros [|e es]; simpl; try lia.
  specialize (IH es). unfold waiting at 1. destruct (m =? 0); lia.
Qed.

(** ** Steps *)

Lemma zset_spec (ms : list Z) v m w : 0 <= v -> 0 <= w -> is_Some (zget ms v) ->
  zget (zset v m ms) w = if decide (v = w) then Some m else zget ms w.
Proof.
  intros Hv Hw [x Hx]. destruct (decide (v = w)) as [<-|Hne]; [by eapply zget_zset_eq|]. apply zget_zset_ne; lia.
Qed.

Lemma step_pop v stack s ts : search_inv ((v, size ts) :: stack) s -> zget edges v = Some ts ->
  search_inv stack (mkSearch (zset v 2 (marks s)) (order s ++ [v])).
Proof.
  intros [Hl Hd Ho Hm Hn Hr Ht Hs Hx] Hts. destruct Hs as [(ts' & Hts' & Hv & _ & Hdone) Hs]. rewrite Hts in Hts'. injection Hts' as <-.
  rewrite take_ge in Hdone by (unfold size; lia). simpl in Hx. apply NoDup_cons in Hx as [Hvn Hx].
  assert (Hv1 : zget (marks s) v = Some 1) by (apply Ho; [done|set_solver]).
  assert (Hset : forall w, 0 <= w -> zget (zset v 2 (marks s)) w = if decide (v = w) then Some 2 else zget (marks s) w)
    by (intros w Hw; apply zset_spec; eauto).
  assert (Hvo : v ∉ order s) by (rewrite <- Hd by done; congruence).
  split; simpl.
  - by rewrite zset_length.
  - intros w Hw. rewrite Hset, elem_of_app, list_elem_of_singleton by done. destruct (decide (v = w)); [naive_solver|]. rewrite Hd by done. naive_solver.
  - intros w Hw. rewrite Hset by done. destruct (decide (v = w)) as [<-|Hne]; [naive_solver|]. rewrite Ho by done. set_solver.
  - intros w m Hw. rewrite Hset by done. destruct (decide (v = w)); [naive_solver|]. by apply Hm.
  - apply NoDup_app. split; [done|]. split; [set_solver|apply NoDup_singleton].
  - apply Forall_app. split; [done|]. apply Forall_singleton. split; [done|]. apply lookup_lt_Some in Hts. unfold size. lia.
  - intros l1 x l2 El y Hy. destruct (decide (l2 = [])) as [->|Hl2].
    + apply app_inj_tail in El as [<- <-]. destruct Hy as (_ & ts' & Hts' & Hin). rewrite Hts in Hts'. injection Hts' as <-.
      by eapply Forall_forall in Hdone.
    + destruct (exists_last Hl2) as (l2' & z & ->). rewrite app_comm_cons, app_assoc in El. apply app_inj_tail in El as [El _].
      by apply (Ht l1 x l2' El).
  - destruct stack as [|[u e] stack]; [done|]. destruct Hs as [(tu & Hu & Hu0 & He & Hpos & Hnext & Hpre) Hs]. split.
    + exists tu. split_and!; try done; try lia. replace (Z.to_nat e) with (S (Z.to_nat (e - 1))) by lia.
      erewrite take_S_r by exact Hnext. apply Forall_app. split; [|apply Forall_singleton; set_solver].
      eapply Forall_impl; [exact Hpre|]. set_solver.
    + eapply stack_ok_mono; [|exact Hs]. set_solver.
  - done.
Qed.

Lemma step_push v e stack s ts t : search_inv ((v, e) :: stack) s -> zget edges v = Some ts -> zget ts e = Some t ->
  0 <= t -> zget (marks s) t = Some 0 ->
  search_inv ((t, 0) :: (v, e + 1) :: stack) (mkSearch (zset t 1 (marks s)) (order s)).
Proof.
  intros [Hl Hd Ho Hm Hn Hr Ht Hs Hx] Hts Hte Ht0 Hmt. destruct Hs as [(ts' & Hts' & Hv & He & Hdone) Hs]. rewrite Hts in Hts'. injection Hts' as <-.
  assert (Hset : forall w, 0 <= w -> zget (zset t 1 (marks s)) w = if decide (t = w) then Some 1 else zget (marks s) w)
    by (intros w Hw; apply zset_spec; eauto).
  assert (Hto : t ∉ order s) by (rewrite <- Hd by done; congruence).
  assert (Htn : t ∉ v :: stack.*1) by (intros Hin; apply (Ho t Ht0) in Hin; congruence).
  apply lookup_lt_Some in Hte as Hlt. destruct (zget_is_Some edges t) as [tt' Htt].
  { apply lookup_lt_Some in Hmt. rewrite Hl in Hmt. lia. }
  split; simpl.
  - by rewrite zset_length.
  - intros w Hw. rewrite Hset by done. destruct (decide (t = w)) as [<-|]; [naive_solver|]. by apply Hd.
  - intros w Hw. rewrite Hset by done. destruct (decide (t = w)) as [<-|]; [split; [set_solver|done]|]. rewrite Ho by done. set_solver.
  - intros w m Hw. rewrite Hset by done. destruct (decide (t = w)); [naive_solver|]. by apply Hm.
  - done.
  - done.
  - done.
  - split; [exists tt'; split; [done|]; split; [done|]; split; [unfold size; lia|constructor]|].
    split; [|done]. exists ts. split; [done|]. split; [done|]. split; [unfold size; lia|]. split; [lia|].
    replace (e + 1 - 1) with e by lia. done.
  - constructor; [done|]. by simpl in Hx.
Qed.

Lemma step_skip v e stack s ts t : search_inv ((v, e) :: stack) s -> zget edges v = Some ts -> zget ts e = Some t ->
  0 <= t -> zget (marks s) t = Some 2 -> search_inv ((v, e + 1) :: stack) s.
Proof.
  intros [Hl Hd Ho Hm Hn Hr Ht Hs Hx] Hts Hte Ht0 Hmt. destruct Hs as [(ts' & Hts' & Hv & He & Hdone) Hs]. rewrite Hts in Hts'. injection Hts' as <-.
  apply lookup_lt_Some in Hte as Hlt. split; try done. split; [|done]. exists ts. split; [done|]. split; [done|]. split; [unfold size; lia|].
  replace (Z.to_nat (e + 1)) with (S (Z.to_nat e)) by lia. erewrite take_S_r by exact Hte. apply Forall_app. split; [done|].
  apply Forall_singleton. by apply Hd.
Qed.

(** What the loop returns. *)
Definition loop_result (stack : list (Z * Z)) (s : Search) (r : Dia Search) : Prop :=
  match r with
  | Ok s' => search_inv [] s' /\ (forall v, v ∈ order s \/ v ∈ stack.*1 -> v ∈ order s')
  | Err e => (exists a b, edge a b /\ check a b = Err e) \/ (exists v, e = cycle v /\ tc edge v v)
  | Panic => False
  end.

Lemma loop_weaken stack s stack' s' r : loop_result stack' s' r ->
  (forall v, v ∈ order s \/ v ∈ stack.*1 -> v ∈ order s' \/ v ∈ stack'.*1) -> loop_result stack s r.
Proof. destruct r as [s2|e|]; simpl; [|done|done]. intros [Hi Hv] H. split; [done|]. auto. Qed.

Lemma search_loop_spec fuel : forall stack s, search_inv stack s -> (unseen (marks s) + pending stack <= fuel)%nat ->
  loop_result stack s (search_loop edges check cycle fuel stack s).
Proof.
  induction fuel as [|fuel IH]; intros [|[v e] stack] s Inv Hf; cbn [search_loop].
  1,3: simpl; split; [done|]; intros ? [?|Hin]; [done|by apply elem_of_nil in Hin].
  { unfold pending in Hf. simpl in Hf. lia. }
  pose proof (si_stack _ _ Inv) as [(ts & Hts & Hv & He & Hdone) Hs]. rewrite Hts. cbn [expect mbind outcome_bind].
  assert (Hpend : pending ((v, e) :: stack) = (S (Z.to_nat (size ts - e)) + pending stack)%nat) by (unfold pending; simpl; by rewrite Hts).
  assert (Hopen : zget (marks s) v = Some 1) by (apply (si_open _ _ Inv); [done|set_solver]).
  destruct (Z.eqb_spec e (size ts)) as [->|Hne].
  - rewrite Hopen. cbn [expect mbind outcome_bind]. eapply loop_weaken; [apply IH|].
    + by eapply step_pop.
    + simpl. pose proof (unseen_set _ _ _ 2 _ Hv Hopen Hts) as Hu. unfold waiting in Hu. simpl in Hu. lia.
    + simpl. set_solver.
  - destruct (zget_is_Some ts e) as [t Ht]; [unfold size in *; lia|]. rewrite Ht. cbn [expect mbind outcome_bind].
    assert (Hedge : edge v t). { split; [done|]. exists ts. split; [done|]. by eapply list_elem_of_lookup_2. }
    destruct (Htargets _ _ Hedge) as [Ht0 Htn]. pose proof (Hcheck v t) as Hck.
    destruct (check v t) as [[]|err|] eqn:Ec; cbn [mbind outcome_bind]; [|left; eauto|done].
    destruct (zget_is_Some (marks s) t) as [m Hm]; [rewrite (si_length _ _ Inv); unfold size in Htn; lia|].
    rewrite Hm. cbn [expect mbind outcome_bind]. apply lookup_lt_Some in Ht as Hlt.
    destruct (si_marks _ _ Inv t m Ht0 Hm) as [-> | [-> | ->]]; simpl.
    + destruct (zget_is_Some edges t) as [tt' Htt]; [unfold size in Htn; lia|]. eapply loop_weaken; [apply IH|].
      * by eapply step_push.
      * simpl. pose proof (unseen_set _ _ _ 1 _ Ht0 Hm Htt) as Hu. unfold waiting in Hu. simpl in Hu.
        unfold pending in *. simpl in *. rewrite Hts, Htt. simpl. unfold size in *. lia.
      * simpl. set_solver.
    + right. exists v. split; [done|]. apply (si_open _ _ Inv t Ht0) in Hm. simpl in Hm. apply elem_of_cons in Hm as [->|Hin].
      { by apply tc_once. }
      eapply tc_l; [exact Hedge|]. exact (stack_reaches _ (Some v) _ _ Hs Hin).
    + eapply loop_weaken; [apply IH|].
      * by eapply step_skip.
      * unfold pending in *. simpl in *. rewrite Hts. simpl. unfold size in *. lia.
      * simpl. set_solver.
Qed.

(** ** The whole search *)

Lemma start_inv root s : search_inv [] s -> in_range_node root -> zget (marks s) root = Some 0 ->
  search_inv [(root, 0)] (mkSearch (zset root 1 (marks s)) (order s)).
Proof.
  intros [Hl Hd Ho Hm Hn Hr Ht Hs Hx] [Hr0 Hrn] Hmr. destruct (zget_is_Some edges root) as [ts Hts]; [unfold size in Hrn; lia|].
  assert (Hset : forall w, 0 <= w -> zget (zset root 1 (marks s)) w = if decide (root = w) then Some 1 else zget (marks s) w)
    by (intros w Hw; apply zset_spec; eauto).
  split; simpl; try done.
  - by rewrite zset_length.
  - intros w Hw. rewrite Hset by done. destruct (decide (root = w)) as [<-|]; [|by apply Hd]. rewrite <- Hd by done. naive_solver.
  - intros w Hw. rewrite Hset by done. rewrite list_elem_of_singleton. destruct (decide (root = w)) as [<-|]; [done|]. rewrite Ho by done. set_solver.
  - intros w m Hw. rewrite Hset by done. destruct (decide (root = w)); [naive_solver|]. by apply Hm.
  - split; [|done]. exists ts. split; [done|]. split; [done|]. split; [unfold size; lia|constructor].
  - apply NoDup_singleton.
Qed.

Lemma search_roots_spec roots : forall s, Forall in_range_node roots -> search_inv [] s ->
  match search_roots edges check cycle roots s with
  | Ok s' => search_inv [] s' /\ (forall v, v ∈ order s \/ v ∈ roots -> v ∈ order s')
  | Err e => (exists a b, edge a b /\ check a b = Err e) \/ (exists v, e = cycle v /\ tc edge v v)
  | Panic => False
  end.
Proof.
  induction roots as [|root roots IH]; intros s Hr Inv; cbn [search_roots]; [split; [done|]; set_solver|].
  apply Forall_cons in Hr as [Hroot Hr]. destruct (zget_is_Some (marks s) root) as [m Hm].
  { rewrite (si_length _ _ Inv). destruct Hroot. unfold size in *. lia. }
  rewrite Hm. cbn [expect mbind outcome_bind]. destruct (Z.eqb_spec m 0) as [->|Hne]; cbn [negb].
  - pose proof (search_loop_spec (search_fuel edges) [(root, 0)] (mkSearch (zset root 1 (marks s)) (order s))) as Hloop.
    destruct (zget_is_Some edges root) as [ts Hts]; [destruct Hroot; unfold size in *; lia|].
    specialize (Hloop (start_inv _ _ Inv Hroot Hm)). unfold loop_result in Hloop.
    destruct (search_loop _ _ _ _ _ _) as [s1|err|]; cbn [mbind outcome_bind].
    + destruct Hloop as [Inv1 Hin]. { simpl. pose proof (unseen_set _ _ _ 1 _ (proj1 Hroot) Hm Hts) as Hu. unfold waiting in Hu. simpl in Hu.
        pose proof (unseen_bound (marks s)). unfold pending. simpl. rewrite Hts. simpl. unfold size. lia. }
      specialize (IH s1 Hr Inv1). destruct (search_roots _ _ _ _ _) as [s2|err|]; [|done|done]. destruct IH as [Inv2 H2]. split; [done|].
      intros v Hv. apply H2. simpl in Hin. rewrite elem_of_cons in Hv. destruct Hv as [Hv | [-> | Hv]]; [left; apply Hin; auto|left; apply Hin; set_solver|auto].
    + apply Hloop. simpl. pose proof (unseen_set _ _ _ 1 _ (proj1 Hroot) Hm Hts) as Hu. unfold waiting in Hu. simpl in Hu.
      pose proof (unseen_bound (marks s)). unfold pending. simpl. rewrite Hts. simpl. unfold size. lia.
    + apply Hloop. simpl. pose proof (unseen_set _ _ _ 1 _ (proj1 Hroot) Hm Hts) as Hu. unfold waiting in Hu. simpl in Hu.
      pose proof (unseen_bound (marks s)). unfold pending. simpl. rewrite Hts. simpl. unfold size. lia.
  - specialize (IH s Hr Inv). destruct (search_roots _ _ _ _ _) as [s2|err|]; [|done|done]. destruct IH as [Inv2 H2]. split; [done|].
    intros v Hv. apply H2. rewrite elem_of_cons in Hv. destruct Hv as [Hv | [-> | Hv]]; [auto| |auto]. left.
    apply (si_done _ _ Inv); [apply Hroot|]. destruct (si_marks _ _ Inv _ _ (proj1 Hroot) Hm) as [? | [-> | ->]]; [done| |done].
    apply (si_open _ _ Inv root (proj1 Hroot)) in Hm. by apply elem_of_nil in Hm.
Qed.

Lemma topological_acyclic l : topological l -> NoDup l -> forall x, x ∈ l -> ~ tc edge x x.
Proof.
  intros Ht Hn. assert (Hpath : forall x y, tc edge x y -> forall l1 l2, l = l1 ++ x :: l2 -> y ∈ l1).
  { induction 1 as [x y Hxy|x y z Hxy _ IH]; intros l1 l2 El; [by eapply Ht|].
    pose proof (Ht _ _ _ El _ Hxy) as Hy. apply list_elem_of_split in Hy as (m1 & m2 & ->).
    specialize (IH m1 (m2 ++ x :: l2)). rewrite <- app_assoc in El. specialize (IH El). set_solver. }
  intros x Hx Hc. apply list_elem_of_split in Hx as (l1 & l2 & El). pose proof (Hpath _ _ Hc _ _ El) as Hin. subst l.
  apply NoDup_app in Hn as (_ & Hd & _). apply (Hd x Hin). set_solver.
Qed.

(** The search never fails otherwise than by [check] or on a cycle; it ends, and then
    lists every node once, after its targets. *)
Lemma search_spec :
  match search edges check cycle with
  | Ok s => order s ≡ₚ seqZ 0 (size edges) /\ topological (order s) /\ (forall x, ~ tc edge x x)
  | Err e => (exists a b, edge a b /\ check a b = Err e) \/ (exists v, e = cycle v /\ tc edge v v)
  | Panic => False
  end.
Proof.
  unfold search. pose proof (search_roots_spec (seqZ 0 (size edges)) (mkSearch (replicate (length edges) 0) [])) as H.
  assert (Hr : Forall in_range_node (seqZ 0 (size edges))).
  { apply Forall_forall. intros v Hv%elem_of_seqZ. unfold in_range_node. lia. }
  assert (Inv : search_inv [] (mkSearch (replicate (length edges) 0) [])).
  { split; simpl; try done.
    - apply length_replicate.
    - intros v Hv. split; [|set_solver]. unfold zget. intros Hz%lookup_replicate. naive_solver.
    - intros v Hv. split; [|set_solver]. unfold zget. intros Hz%lookup_replicate. naive_solver.
    - intros v m Hv. unfold zget. intros Hz%lookup_replicate. naive_solver.
    - constructor.
    - intros l1 x l2 El. by destruct l1.
    - constructor. }
  specialize (H Hr Inv). destruct (search_roots _ _ _ _ _) as [s|e|]; [|done|done]. destruct H as [Inv' Hin].
  split; [|split].
  - apply NoDup_Permutation; [apply (si_nodup _ _ Inv')|apply NoDup_seqZ|]. intros v. split; [|intros Hv; apply Hin; auto].
    intros Hv. pose proof (si_range _ _ Inv') as Hrange. eapply Forall_forall in Hrange; [|exact Hv]. apply elem_of_seqZ. unfold in_range_node in Hrange. lia.
  - apply (si_topo _ _ Inv').
  - intros x Hx. assert (Hxr : in_range_node x).
    { revert Hx. generalize x at 1. induction 1 as [a b Hab|a b c _ _ IH]; [by apply (Htargets a b)|done]. }
    eapply topological_acyclic; [apply (si_topo _ _ Inv')|apply (si_nodup _ _ Inv')| |exact Hx].
    apply Hin. right. apply elem_of_seqZ. unfold in_range_node in Hxr. lia.
Qed.

End Search.
End SearchProps.

Module ModulesProps.
Import Artifact Container Records Tables Modules Total ContainerProps RecordsProps TablesProps SearchProps.

Section Artifact.
Context (limits : ArtifactLimits) (art : DecodedArtifact).
Hypothesis Hshapes : Forall (shapes_ok limits) (modules art).
Hypothesis Hrefs : Forall (refs_ok (modules art)) (modules art).

(** ** The order of imports *)

(** Module [x] imports a symbol of module [y]. *)
Definition imports_from (x y : Z) : Prop :=
  exists m i, 0 <= x /\ zget (modules art) x = Some m /\ i ∈ imports m /\ target_module i = y.

Definition import_edges : list (list Z) := map (fun m => map target_module (imports m)) (modules art).

Lemma import_edge x y : edge import_edges x y <-> imports_from x y.
Proof.
  unfold edge, imports_from, import_edges, zget. split.
  - intros (Hx & ts & Hts & Hy). rewrite list_lookup_fmap in Hts. destruct (modules art !! Z.to_nat x) as [m|] eqn:Em; [|done].
    injection Hts as <-. apply list_elem_of_fmap in Hy as (i & -> & Hi). by exists m, i.
  - intros (m & i & Hx & Em & Hi & <-). split; [done|]. exists (map target_module (imports m)). rewrite list_lookup_fmap, Em. split; [done|].
    by apply list_elem_of_fmap_2.
Qed.

Lemma import_target x y : imports_from x y -> 0 <= y < size (modules art).
Proof.
  intros (m & i & _ & Em & Hi & <-). pose proof (Forall_lookup_1 _ _ _ _ Hshapes Em) as Sh. pose proof (Forall_lookup_1 _ _ _ _ Hrefs Em) as Rf.
  pose proof (sh_imports _ _ Sh) as H1. eapply Forall_forall in H1 as (_ & [H1 _] & _); [|exact Hi].
  pose proof (ro_imports _ _ Rf) as H2. eapply Forall_forall in H2 as ([t H2] & _); [|exact Hi].
  apply zget_Some_lt in H2; [|done]. done.
Qed.

Lemma module_order_spec :
  match topological_module_order art limits with
  | Ok o => o ≡ₚ seqZ 0 (size (modules art)) /\ (forall l1 x l2, o = l1 ++ x :: l2 -> forall y, imports_from x y -> y ∈ l1) /\
      (forall x, ~ tc imports_from x x)
  | Err e => exists x, tc imports_from x x
  | Panic => False
  end.
Proof.
  unfold topological_module_order. fold import_edges.
  pose proof (search_spec import_edges (fun module_id target => if size (modules art) <=? target
    then Err (symbol_failure limits module_id "import target module is out of range") else Ok tt)
    (fun module_id => failure limits module_id "module import graph contains a cycle")) as H.
  assert (Hsize : size import_edges = size (modules art)) by (unfold size, import_edges; by rewrite length_map).
  assert (Htc : forall x, tc (edge import_edges) x x <-> tc imports_from x x).
  { intros x. split; apply tc_congruence with (f := fun v => v); intros; by apply import_edge. }
  specialize (H ltac:(intros a b Hab%import_edge; apply import_target in Hab; unfold in_range_node; lia)).
  specialize (H ltac:(intros a b; cbv beta; by destruct (size (modules art) <=? b))).
  destruct (search _ _ _) as [s|e|]; cbn [mbind outcome_bind]; [| |done].
  - destruct H as (Hp & Ht & Hc). rewrite Hsize in Hp. split; [done|]. split.
    + intros l1 x l2 El y Hy. apply (Ht l1 x l2 El). by apply import_edge.
    + intros x Hx. by apply (Hc x), Htc.
  - destruct H as [(a & b & Hab%import_edge%import_target & Hbad)|(v & _ & Hv)].
    + destruct (Z.leb_spec (size (modules art)) b); [lia|done].
    + exists v. by apply Htc.
Qed.

(** ** Types *)

(** The identity of a type of the artifact. *)
Definition is_type (x : Z * Z) : Prop :=
  0 <= x.1 /\ 0 <= x.2 /\ exists m, zget (modules art) x.1 = Some m /\ x.2 < size (types m).

Lemma type_at_ok x : is_type x -> exists m t, zget (modules art) x.1 = Some m /\ zget (types m) x.2 = Some t /\ type_at art x = Ok t /\
  nominal_ok limits t /\ nominal_refs m t.
Proof.
  intros (H1 & H2 & m & Em & Ht). destruct (zget_is_Some (types m) x.2) as [t Et]; [unfold size in Ht; lia|]. exists m, t. unfold type_at, module_at.
  rewrite Em. simpl. rewrite Et. split_and!; try done.
  - pose proof (Forall_lookup_1 _ _ _ _ Hshapes Em) as Sh. exact (Forall_lookup_1 _ _ _ _ (sh_types _ _ Sh) Et).
  - pose proof (Forall_lookup_1 _ _ _ _ Hrefs Em) as Rf. exact (Forall_lookup_1 _ _ _ _ (ro_types _ _ Rf) Et).
Qed.

(** An outcome that is a value. *)
Definition returns {E A} (P : A -> Prop) (o : outcome E A) : Prop := exists a, o = Ok a /\ P a.

Lemma returns_bind {E A B} (P : A -> Prop) (Q : B -> Prop) (o : outcome E A) (f : A -> outcome E B) :
  returns P o -> (forall a, P a -> returns Q (f a)) -> returns Q (o ≫= f).
Proof. intros (a & -> & Ha) Hf. by apply Hf. Qed.

Lemma returns_ok {E A} (P : A -> Prop) (a : A) : P a -> returns (E:=E) P (Ok a).
Proof. by exists a. Qed.

Definition resolved_is_type (o : option (Z * Z)) : Prop := match o with Some x => is_type x | None => True end.

Lemma resolved_ok m r : 0 <= m < size (modules art) -> 0 <= r -> returns resolved_is_type (resolved_type art m r).
Proof.
  intros Hm Hr. unfold resolved_type, module_at. destruct (_ =? _); [by apply returns_ok|].
  destruct (zget_is_Some (modules art) m) as [md Em]; [unfold size in Hm; lia|]. rewrite Em. cbn [expect mbind outcome_bind].
  destruct (_ =? 0); apply returns_ok; unfold resolved_is_type.
  { destruct (Z.ltb_spec r (Z.of_nat (length (types md)))); [|done]. split; simpl; [lia|]. split; [done|]. exists md. by split. }
  destruct (zget (imports md) (Z.land r 2147483647)) as [im|] eqn:Ei; [|done]. cbn [mbind option_bind].
  destruct (negb _); [done|]. destruct (zget (modules art) (target_module im)) as [tm|] eqn:Et; [|done]. cbn [mbind option_bind].
  destruct (zget (strings md) (target_name im)); [|done]. cbn [mbind option_bind].
  destruct (List.find _ (exports tm)) as [ex|] eqn:Ef; [|done]. cbn [mbind option_bind].
  destruct (Z.ltb_spec (local_symbol ex) (Z.of_nat (length (types tm)))); [|done].
  pose proof (sh_imports _ _ (Forall_lookup_1 _ _ _ _ Hshapes Em)) as Him. apply (Forall_lookup_1 _ _ _ _ Him) in Ei as (_ & [Hi _] & _).
  apply find_some in Ef as [Ef _]. apply list_elem_of_In in Ef.
  pose proof (sh_exports _ _ (Forall_lookup_1 _ _ _ _ Hshapes Et)) as Hex. eapply Forall_forall in Hex as (_ & _ & _ & [He _] & _); [|exact Ef].
  split; [done|]. split; [done|]. by exists tm.
Qed.

Definition types_up_to (n : nat) (l : list (Z * Z)) : Prop := Forall is_type l /\ (length l <= n)%nat.

Lemma resolve_all_ok m rs : 0 <= m < size (modules art) -> Forall u32 rs -> returns (types_up_to (length rs)) (resolve_all art m rs).
Proof.
  intros Hm Hrs. induction Hrs as [|r rs [Hr _] Hrs IH]; simpl; [by apply returns_ok|]. eapply returns_bind; [by apply resolved_ok|]. intros o Ho.
  eapply returns_bind; [exact IH|]. intros l [Hl Hn]. apply returns_ok. destruct o; split; simpl; try lia; [by constructor|done].
Qed.

Lemma parents_ok x t : is_type x -> type_at art x = Ok t -> returns (types_up_to (parent_count t)) (parents art x.1 t).
Proof.
  intros Hx Ht. destruct (type_at_ok x Hx) as (m & t' & Em & _ & Et & Hok & _). rewrite Ht in Et. injection Et as <-.
  assert (Hm : 0 <= x.1 < size (modules art)). { apply zget_Some_lt in Em; [exact Em|apply Hx]. }
  assert (Hsuper : forall super faces, u32 super -> Forall u32 faces -> returns (types_up_to (S (length faces)))
    (s ← (if super =? NO_TYPE then Ok None else resolved_type art x.1 super); is_ ← resolve_all art x.1 faces;
     Ok (match s with Some s => s :: is_ | None => is_ end))).
  { intros super faces [Hs _] Hf. eapply (returns_bind resolved_is_type).
    { destruct (_ =? _); [by apply returns_ok|by apply resolved_ok]. }
    intros o Ho. eapply returns_bind; [by apply resolve_all_ok|]. intros l [Hl Hn]. apply returns_ok.
    destruct o; split; simpl; try lia; [by constructor|done]. }
  destruct t as [nm cs|fl ga nm sup faces fs fc ms mc ini|fl ga nm sup faces ms mc|nm st el [sup|]|nm fl res ps]; simpl in *;
    try (apply returns_ok; split; [constructor|simpl; lia]).
  - apply Hsuper; apply Hok.
  - apply Hsuper; apply Hok.
  - eapply returns_bind; [apply (resolved_ok _ sup); [done|apply Hok]|]. intros o Ho. apply returns_ok.
    destruct o; split; simpl; try lia; [by constructor|constructor].
Qed.

(** The declared supertypes of a type: its superclass and its interfaces. *)
Definition supertype (x y : Z * Z) : Prop :=
  is_type x /\ exists t ps, type_at art x = Ok t /\ parents art x.1 t = Ok ps /\ y ∈ ps.

Lemma supertypes_of x : is_type x -> exists t ps, type_at art x = Ok t /\ parents art x.1 t = Ok ps /\ types_up_to (parent_count t) ps /\
  (forall y, supertype x y <-> y ∈ ps).
Proof.
  intros Hx. destruct (type_at_ok x Hx) as (m & t & _ & _ & Et & _ & _). destruct (parents_ok x t Hx Et) as (ps & Ep & Hps).
  exists t, ps. split_and!; try done. intros y. split.
  - intros (_ & t' & ps' & Et' & Ep' & Hy). rewrite Et in Et'. injection Et' as <-. rewrite Ep in Ep'. by injection Ep' as <-.
  - intros Hy. split; [done|]. by exists t, ps.
Qed.

(** ** Assignability *)

Definition expansion (x : Z * Z) : nat := match type_at art x with Ok t => parent_count t | _ => 0 end.

Definition all_types : list (Z * Z) :=
  concat (imap (fun i m => map (fun j => (Z.of_nat i, j)) (seqZ 0 (size (types m)))) (modules art)).

Lemma is_type_all x : is_type x -> x ∈ all_types.
Proof.
  intros (H1 & H2 & m & Em & Ht). unfold all_types. apply list_elem_of_In, in_concat.
  exists (map (fun j => (Z.of_nat (Z.to_nat x.1), j)) (seqZ 0 (size (types m)))). split.
  - apply list_elem_of_In, elem_of_lookup_imap. by exists (Z.to_nat x.1), m.
  - apply in_map_iff. exists x.2. rewrite Z2Nat.id by done. destruct x. split; [done|]. apply list_elem_of_In, elem_of_seqZ. simpl in *. lia.
Qed.

Lemma all_types_cost : (list_sum (map expansion all_types) < nominal_fuel art)%nat.
Proof.
  unfold nominal_fuel, all_types. apply Nat.lt_succ_r.
  assert (Hgen : forall (ms pre : list DecodedModule), modules art = pre ++ ms ->
    (list_sum (map expansion (concat (imap (fun i m => map (fun j => (Z.of_nat (length pre + i), j)) (seqZ 0 (size (types m)))) ms)))
     <= list_sum (map (fun m => list_sum (map parent_count (types m))) ms))%nat).
  { induction ms as [|m ms IH]; intros pre E; [simpl; lia|]. cbn [imap concat map list_sum]. rewrite map_app, list_sum_app.
    apply Nat.add_le_mono.
    - rewrite Nat.add_0_r, map_map. assert (Em : zget (modules art) (Z.of_nat (length pre)) = Some m).
      { unfold zget. by rewrite E, Nat2Z.id, list_lookup_middle. }
      apply Nat.eq_le_incl. f_equal. apply list_eq. intros k. rewrite !list_lookup_fmap. unfold size.
      destruct (types m !! k) as [t|] eqn:Ek.
      + apply lookup_lt_Some in Ek as Hk. rewrite lookup_seqZ_lt by lia. simpl. unfold expansion, type_at, module_at. simpl.
        rewrite Em. simpl. unfold zget. replace (Z.to_nat (0 + Z.of_nat k)) with k by lia. by rewrite ?Ek.
      + apply lookup_ge_None in Ek. rewrite lookup_seqZ_ge by lia. done.
    - specialize (IH (pre ++ [m])). rewrite <- app_assoc in IH. specialize (IH E). etrans; [|exact IH]. apply Nat.eq_le_incl. f_equal. f_equal. f_equal.
      apply imap_ext. intros i x _. simpl. apply map_ext. intros j. do 2 f_equal. rewrite length_app. simpl. lia. }
  etrans; [|apply (Hgen (modules art) [] eq_refl)]. done.
Qed.

Lemma visited_cost visited : NoDup visited -> Forall is_type visited -> (list_sum (map expansion visited) < nominal_fuel art)%nat.
Proof.
  intros Hn Ht. eapply Nat.le_lt_trans; [|apply all_types_cost].
  assert (Hsub : visited ⊆+ all_types).
  { apply NoDup_submseteq; [done|]. intros x Hx. apply is_type_all. by eapply Forall_forall in Ht. }
  apply submseteq_Permutation in Hsub as [k Hk]. rewrite Hk, map_app, list_sum_app. lia.
Qed.

Record walk_inv (source destination : Z * Z) (stack visited : list (Z * Z)) : Prop := {
  wk_stack : Forall (fun x => is_type x /\ rtc supertype source x) stack;
  wk_visited : Forall is_type visited;
  wk_distinct : NoDup visited;
  wk_destination : destination ∉ visited;
  wk_closed : forall x y, x ∈ visited -> supertype x y -> y ∈ visited \/ y ∈ stack;
  wk_source : source ∈ visited \/ source ∈ stack }.

Lemma nominal_loop_spec source destination fuel : forall stack visited, walk_inv source destination stack visited ->
  (length stack + nominal_fuel art <= fuel + S (list_sum (map expansion visited)))%nat ->
  exists b, nominal_loop art fuel destination stack visited = Ok b /\ (b = true <-> rtc supertype source destination).
Proof.
  induction fuel as [|fuel IH]; intros [|x stack] visited [Hst Hv Hn Hd Hc Hs] Hf; cbn [nominal_loop].
  1,3: exists false; (split; [done|]); (split; [done|]); intros Hr; exfalso; apply Hd;
    assert (Hall : forall y, rtc supertype source y -> y ∈ visited) by
     (intros y; apply (rtc_ind_r (fun z => z ∈ visited)); [destruct Hs as [|Hs]; [done|by apply elem_of_nil in Hs]|];
      intros u w _ Huw Hu; destruct (Hc u w Hu Huw) as [|Hbad]; [done|by apply elem_of_nil in Hbad]); by apply Hall.
  { pose proof (visited_cost visited Hn Hv). simpl in Hf. lia. }
  apply Forall_cons in Hst as [[Hx Hsx] Hst]. case_bool_decide as Hxd.
  { exists true. split; [done|]. subst x. done. }
  case_bool_decide as Hxv.
  - apply IH; [|simpl in Hf; lia]. split; try done.
    + intros u w Hu Huw. destruct (Hc u w Hu Huw) as [|Hin]; [by left|]. apply elem_of_cons in Hin as [->|]; auto.
    + destruct Hs as [|Hin]; [by left|]. apply elem_of_cons in Hin as [->|]; auto.
  - destruct (supertypes_of x Hx) as (t & ps & Et & Ep & [Hps Hlen] & Hsup). rewrite Et. cbn [mbind outcome_bind]. rewrite Ep. cbn [mbind outcome_bind].
    apply IH.
    + split.
      * apply Forall_app. split; [|done]. apply Forall_rev. apply Forall_forall. intros y Hy. split; [by eapply Forall_forall in Hps|].
        eapply rtc_r; [exact Hsx|]. by apply Hsup.
      * apply Forall_app. split; [done|by apply Forall_singleton].
      * apply NoDup_app. split; [done|]. split; [set_solver|apply NoDup_singleton].
      * set_solver.
      * intros u w Hu Huw. apply elem_of_app in Hu as [Hu|Hu].
        -- destruct (Hc u w Hu Huw) as [|Hin]; set_solver.
        -- apply list_elem_of_singleton in Hu as ->. right. apply elem_of_app. left.
           apply list_elem_of_In. apply -> in_rev. by apply list_elem_of_In, Hsup.
      * set_solver.
    + rewrite length_app, length_rev, map_app, list_sum_app. simpl in *. unfold expansion at 2. rewrite Et. lia.
Qed.

Lemma nominal_assignable_spec source destination : is_type source ->
  exists b, nominal_assignable art source destination = Ok b /\ (b = true <-> rtc supertype source destination).
Proof.
  intros Hs. apply nominal_loop_spec; [|cbn [length map list_sum foldr]; lia]. split; [|constructor|apply NoDup_nil_2|set_solver..].
  apply Forall_singleton. by split.
Qed.

(** ** The hierarchy has no cycle *)

Lemma collect_each {A B} (f : A -> Dia B) l : forall ys, collect f l = Ok ys -> Forall2 (fun x y => f x = Ok y) l ys.
Proof.
  induction l as [|x l IH]; intros ys H; cbn [collect] in H; [by injection H as <-|].
  apply outcome_bind_inv in H as (y & Hy & H). apply outcome_bind_inv in H as (ys' & Hys & H). injection H as <-. constructor; auto.
Qed.

Definition types_before (ms : list DecodedModule) (i : nat) : Z := total (fun m => size (types m)) (take i ms).

Lemma types_before_S m ms i : types_before (m :: ms) (S i) = size (types m) + types_before ms i.
Proof. done. Qed.

Lemma types_before_nonneg ms i : 0 <= types_before ms i.
Proof.
  revert i. induction ms as [|m ms IH]; intros [|i]; [done..|]. rewrite types_before_S. specialize (IH i). unfold size. lia.
Qed.

Lemma types_before_le ms : forall i m, ms !! i = Some m -> types_before ms i + size (types m) <= types_before ms (length ms).
Proof.
  induction ms as [|m0 ms IH]; intros [|i] m Hi; [done|done| |]; simpl in Hi.
  - injection Hi as ->. cbn [length]. rewrite types_before_S. pose proof (types_before_nonneg ms (length ms)). cbn. lia.
  - cbn [length]. rewrite !types_before_S. specialize (IH i m Hi). lia.
Qed.

Lemma type_prefixes_spec ms : forall next ps, type_prefixes limits next ms = Ok ps ->
  forall i, (i <= length ms)%nat -> ps !! i = Some (next + types_before ms i).
Proof.
  induction ms as [|m ms IH]; intros next ps H i Hi; cbn [type_prefixes] in H.
  - injection H as <-. destruct i; [|simpl in Hi; lia]. cbn. f_equal. lia.
  - apply outcome_bind_inv in H as (n & Hn & H). apply ok_or_ok, checked_add_Some in Hn as [-> _].
    apply outcome_bind_inv in H as (rest & Hr & H). injection H as <-. destruct i as [|i]; [cbn; f_equal; lia|].
    change ((next :: rest) !! S i) with (rest !! i). rewrite (IH _ _ Hr i) by (simpl in Hi; lia). f_equal.
    rewrite types_before_S. lia.
Qed.

(** Places of the edges of each type in the concatenation. *)
Lemma concat_place (es : list (list (list Z))) : forall ms i e j, Forall2 (fun m e => length (types m) = length e) ms es ->
  es !! i = Some e -> (j < length e)%nat -> concat es !! (Z.to_nat (types_before ms i) + j)%nat = e !! j.
Proof.
  induction es as [|e0 es IH]; intros ms i e j H2 Hi Hj; [done|]. inversion H2 as [|m ? ms' ? Hlen Hrest]; subst. simpl concat.
  destruct i as [|i]; [injection Hi as ->; cbn; by rewrite lookup_app_l|].
  pose proof (types_before_nonneg ms' i) as Hpos. rewrite types_before_S. unfold size at 1. rewrite lookup_app_r by lia. rewrite <- (IH ms' i e j Hrest Hi Hj). f_equal. lia.
Qed.

Lemma concat_length (es : list (list (list Z))) : forall ms, Forall2 (fun m e => length (types m) = length e) ms es ->
  size (concat es) = types_before ms (length ms).
Proof.
  induction es as [|e0 es IH]; intros ms H2; inversion H2 as [|m ? ms' ? Hlen Hrest]; subst; [done|]. simpl concat.
  unfold size in *. rewrite length_app, Nat2Z.inj_add, (IH ms' Hrest). cbn [length]. rewrite types_before_S. unfold size. lia.
Qed.

Section Hierarchy.
Context (prefixes : list Z) (Hprefixes : type_prefixes limits 0 (modules art) = Ok prefixes).

(** The node of a type in the graph. *)
Definition node (x : Z * Z) : Z := types_before (modules art) (Z.to_nat x.1) + x.2.

Lemma global_type_node x : is_type x -> global_type prefixes x = Ok (node x).
Proof.
  intros (H1 & _ & m & Em & _). unfold global_type, zget. apply lookup_lt_Some in Em. rewrite (type_prefixes_spec _ _ _ Hprefixes) by lia. done.
Qed.

Lemma edge_to_inv m r accept d1 d2 e : 0 <= m < size (modules art) -> 0 <= r -> edge_to art limits prefixes m r accept d1 d2 = Ok e ->
  exists x, resolved_type art m r = Ok (Some x) /\ is_type x /\ e = node x.
Proof.
  intros Hm Hr H. unfold edge_to in H. destruct (resolved_ok m r Hm Hr) as (o & Eo & Ho). rewrite Eo in H. cbn [mbind outcome_bind] in H.
  destruct o as [x|]; [|done]. cbn [ok_or mbind outcome_bind] in H. apply outcome_bind_inv in H as (t & _ & H).
  destruct (negb _); [done|]. rewrite (global_type_node x Ho) in H. injection H as <-. by exists x.
Qed.

Lemma interfaces_inv m faces es : 0 <= m < size (modules art) -> Forall u32 faces -> add_interfaces art limits prefixes m faces = Ok es ->
  exists ps, resolve_all art m faces = Ok ps /\ es = node <$> ps.
Proof.
  intros Hm Hf H. apply collect_each in H. induction H as [|r e faces es He _ IH]; [by exists []|]. apply Forall_cons in Hf as [[Hr _] Hf].
  destruct (edge_to_inv _ _ _ _ _ _ Hm Hr He) as (x & Ex & _ & ->). destruct (IH Hf) as (ps & Eps & ->). exists (x :: ps). split; [|done].
  simpl. rewrite Ex. cbn [mbind outcome_bind]. by rewrite Eps.
Qed.

Lemma type_edges_inv x m t es : is_type x -> zget (modules art) x.1 = Some m -> type_at art x = Ok t ->
  type_edges art limits prefixes x.1 m x.2 t = Ok es -> exists ps, parents art x.1 t = Ok ps /\ es = node <$> ps.
Proof.
  intros Hx Em Ht H. destruct (type_at_ok x Hx) as (m' & t' & _ & _ & Et & Hok & _). rewrite Ht in Et. injection Et as <-.
  assert (Hm : 0 <= x.1 < size (modules art)). { apply zget_Some_lt in Em; [exact Em|apply Hx]. }
  assert (Hsuper : forall sup faces es1 es2 accept d1 d2, u32 sup -> Forall u32 faces ->
    (if negb (sup =? u32_max) then e ← edge_to art limits prefixes x.1 sup accept d1 d2; Ok [e] else Ok []) = Ok es1 ->
    add_interfaces art limits prefixes x.1 faces = Ok es2 ->
    exists ps, (s ← (if sup =? NO_TYPE then Ok None else resolved_type art x.1 sup); is_ ← resolve_all art x.1 faces;
      Ok (match s with Some s => s :: is_ | None => is_ end)) = Ok ps /\ es1 ++ es2 = node <$> ps).
  { intros sup faces es1 es2 accept d1 d2 [Hs _] Hf H1 H2. destruct (interfaces_inv _ _ _ Hm Hf H2) as (ps & Eps & ->).
    unfold NO_TYPE. destruct (sup =? u32_max); simpl in H1 |- *.
    - injection H1 as <-. rewrite Eps. by exists ps.
    - apply outcome_bind_inv in H1 as (e & He & H1). injection H1 as <-. destruct (edge_to_inv _ _ _ _ _ _ Hm Hs He) as (y & Ey & _ & ->).
      rewrite Ey. cbn [mbind outcome_bind]. rewrite Eps. by exists (y :: ps). }
  destruct t as [nm cs|fl ga nm sup faces fs fc ms mc ini|fl ga nm sup faces ms mc|nm st el [sup|]|nm fl res ps]; simpl in Hok;
    cbn [type_edges parents] in H |- *; try (injection H as <-; by exists []).
  - destruct (_ =? 3); [done|]. apply outcome_bind_inv in H as (es1 & H1 & H). apply outcome_bind_inv in H as (es2 & H2 & H).
    do 3 (apply outcome_bind_inv in H as (? & _ & H)). injection H as <-. eapply Hsuper; [..|exact H1|exact H2]; apply Hok.
  - apply outcome_bind_inv in H as (es1 & H1 & H). apply outcome_bind_inv in H as (es2 & H2 & H).
    apply outcome_bind_inv in H as (? & _ & H). injection H as <-. eapply Hsuper; [..|exact H1|exact H2]; apply Hok.
  - destruct (_ || _); [done|]. apply outcome_bind_inv in H as (e & He & H). injection H as <-.
    destruct (edge_to_inv _ _ _ _ _ _ Hm (proj1 (proj2 (proj2 (proj2 Hok)))) He) as (y & Ey & _ & ->). rewrite Ey. by exists [y].
Qed.

Lemma enumerated_collect {A B} (f : Z * A -> Dia B) (l : list A) ys : collect f (enumerated l) = Ok ys ->
  length l = length ys /\ forall i x y, l !! i = Some x -> ys !! i = Some y -> f (Z.of_nat i, x) = Ok y.
Proof.
  intros H%collect_each. split.
  - apply Forall2_length in H. unfold enumerated in H. by rewrite length_imap in H.
  - intros i x y Hx Hy. eapply (Forall2_lookup_lr _ _ _ i (Z.of_nat i, x) y) in H; [exact H| |done].
    unfold enumerated. by rewrite list_lookup_imap, Hx.
Qed.

Lemma module_edges i m e : verify_module_types art limits prefixes (i, m) = Ok e ->
  length (types m) = length e /\ forall j t ts, types m !! j = Some t -> e !! j = Some ts -> type_edges art limits prefixes i m (Z.of_nat j) t = Ok ts.
Proof.
  intros H. unfold verify_module_types in H. do 2 (apply outcome_bind_inv in H as (? & _ & H)).
  apply outcome_bind_inv in H as (e' & He & H). apply outcome_bind_inv in H as (? & _ & H). injection H as ->.
  apply enumerated_collect in He as [Hl Hall]. split; [done|]. intros j t ts Hj Hts. specialize (Hall j t ts Hj Hts). unfold verify_type in Hall.
  by do 3 (apply outcome_bind_inv in Hall as (? & _ & Hall)).
Qed.

Context (es : list (list (list Z))) (Hes : collect (verify_module_types art limits prefixes) (enumerated (modules art)) = Ok es).

Lemma edges_lengths : Forall2 (fun m e => length (types m) = length e) (modules art) es.
Proof.
  apply enumerated_collect in Hes as [Hl Hall]. apply Forall2_same_length_lookup. split; [done|].
  intros i m e Hm He. by apply (module_edges (Z.of_nat i)), Hall.
Qed.

(** The edges of a type are its supertypes. *)
Lemma type_place x : is_type x -> exists e ts, es !! Z.to_nat x.1 = Some e /\ e !! Z.to_nat x.2 = Some ts /\
  forall ps t, type_at art x = Ok t -> parents art x.1 t = Ok ps -> ts = node <$> ps.
Proof.
  intros Hx. pose proof Hx as (H1 & H2 & m & Em & Ht). pose proof Hes as Hcol. apply enumerated_collect in Hcol as [Hlen Hall].
  destruct (lookup_lt_is_Some_2 es (Z.to_nat x.1)) as [e He]; [rewrite <- Hlen; by eapply lookup_lt_Some|].
  destruct (module_edges _ _ _ (Hall _ _ _ Em He)) as [Hl Hedges].
  destruct (lookup_lt_is_Some_2 e (Z.to_nat x.2)) as [ts Hts]; [unfold size in Ht; lia|].
  exists e, ts. split; [done|]. split; [done|]. intros ps t Et Ep. destruct (zget_is_Some (types m) x.2) as [t0 Et0]; [unfold size in Ht; lia|].
  assert (t0 = t) as ->. { unfold type_at, module_at in Et. rewrite Em in Et. simpl in Et. rewrite Et0 in Et. by injection Et. }
  specialize (Hedges _ _ _ Et0 Hts). rewrite !Z2Nat.id in Hedges by done.
  destruct (type_edges_inv x m t ts Hx Em Et Hedges) as (ps' & Ep' & ->). rewrite Ep in Ep'. by injection Ep' as <-.
Qed.

Lemma supertype_edge x y : supertype x y -> edge (concat es) (node x) (node y).
Proof.
  intros (Hx & t & ps & Et & Ep & Hy). destruct (type_place x Hx) as (e & ts & He & Hts & Hps). specialize (Hps ps t Et Ep). subst ts.
  pose proof (types_before_nonneg (modules art) (Z.to_nat x.1)) as Hpos. destruct Hx as (H1 & H2 & _).
  split; [unfold node; lia|]. exists (node <$> ps). split; [|by apply list_elem_of_fmap_2].
  unfold zget, node. rewrite Z2Nat.inj_add by done. rewrite (concat_place es (modules art) _ e _ edges_lengths He); [done|]. by eapply lookup_lt_Some.
Qed.

Lemma node_in_range x : is_type x -> in_range_node (concat es) (node x).
Proof.
  intros (H1 & H2 & m & Em & Ht). unfold in_range_node, node. rewrite (concat_length es _ edges_lengths).
  pose proof (types_before_nonneg (modules art) (Z.to_nat x.1)). pose proof (types_before_le _ _ _ Em). lia.
Qed.

Lemma edge_in_range a b : edge (concat es) a b -> in_range_node (concat es) b.
Proof.
  intros (Ha & ts & Hts & Hb). assert (Hin : ts ∈ concat es) by (by eapply list_elem_of_lookup_2).
  apply list_elem_of_In, in_concat in Hin as (e & He & Htse).
  apply list_elem_of_In, list_elem_of_lookup in He as [i He]. apply list_elem_of_In, list_elem_of_lookup in Htse as [j Hj].
  destruct (Forall2_lookup_r _ _ _ _ _ edges_lengths He) as (m & Hm & Hl).
  assert (Hx : is_type (Z.of_nat i, Z.of_nat j)).
  { split; simpl; [lia|]. split; [lia|]. exists m. unfold zget. rewrite Nat2Z.id. split; [done|]. apply lookup_lt_Some in Hj. unfold size. lia. }
  destruct (type_place _ Hx) as (e' & ts' & He' & Hts' & Hps). simpl in He', Hts'. rewrite !Nat2Z.id in *. rewrite He in He'. injection He' as <-.
  rewrite Hj in Hts'. injection Hts' as <-. destruct (supertypes_of _ Hx) as (t & ps & Et & Ep & [Hall _] & _). rewrite (Hps ps t Et Ep) in Hb.
  apply list_elem_of_fmap in Hb as (y & -> & Hy). apply node_in_range. by eapply Forall_forall in Hall.
Qed.

End Hierarchy.

Lemma verify_nominal_acyclic : verify_nominal_types art limits = Ok tt -> forall x, ~ tc supertype x x.
Proof.
  intros H. unfold verify_nominal_types in H. apply outcome_bind_inv in H as (prefixes & Hp & H). apply outcome_bind_inv in H as (es & Hes & H).
  unfold reject_type_cycles in H. apply outcome_bind_inv in H as (s & Hs & _).
  match type of Hs with search _ ?check ?cycle = _ =>
    pose proof (search_spec (concat es) check cycle (edge_in_range prefixes Hp es Hes) ltac:(done)) as Hsearch end.
  rewrite Hs in Hsearch. destruct Hsearch as (_ & _ & Hac).
  intros x Hx. apply (Hac (node x)). revert Hx. apply (tc_congruence node). by apply (supertype_edge prefixes Hp es Hes).
Qed.

End Artifact.
(** ** What the checks of modules decide *)

(** C11. The order of the modules.  On a decoded artifact the search over the imports ends
    and never panics.  It refuses the artifact exactly when some module imports itself
    through a chain of imports; otherwise it lists every module once, after all the
    modules it imports from. *)
Theorem module_order_correct sha256 limits bytes art :
  is_bytes bytes -> artifact_bytes limits <= usize_max -> decode_artifact sha256 limits bytes = Ok art ->
  topological_module_order art limits <> Panic /\
  (forall o, topological_module_order art limits = Ok o ->
    o ≡ₚ seqZ 0 (size (modules art)) /\ forall l1 x l2, o = l1 ++ x :: l2 -> forall y, imports_from art x y -> y ∈ l1) /\
  ((exists o, topological_module_order art limits = Ok o) <-> forall x, ~ tc (imports_from art) x x).
Proof.
  intros Hb Hl Hd. pose proof (decode_artifact_ok sha256 limits bytes Hb Hl) as Hok. rewrite Hd in Hok.
  pose proof (module_order_spec limits art (ao_shapes _ _ _ _ Hok) (ao_refs _ _ _ _ Hok)) as H.
  destruct (topological_module_order art limits) as [o|e|]; [| |done].
  - destruct H as (Hp & Ht & Hc). split; [done|]. split; [by intros o' [= <-]|]. split; [done|]. intros _. by exists o.
  - destruct H as [x Hx]. split; [done|]. split; [done|]. split; [by intros [o Ho]|]. intros Hc. by destruct (Hc x).
Qed.

(** C12. Assignability of classes and interfaces.  On a decoded artifact
    [nominal_assignable] ends, never panics, and decides the reflexive and transitive
    closure of the declared supertypes.  When [verify_nominal_types] accepts the
    artifact, that relation is a partial order: no two different types are assignable
    to each other. *)
Theorem subtyping_correct sha256 limits bytes art :
  is_bytes bytes -> artifact_bytes limits <= usize_max -> decode_artifact sha256 limits bytes = Ok art ->
  (forall source destination, is_type art source ->
    exists b, nominal_assignable art source destination = Ok b /\ (b = true <-> rtc (supertype art) source destination)) /\
  (verify_nominal_types art limits = Ok tt ->
    forall x y, rtc (supertype art) x y -> rtc (supertype art) y x -> x = y).
Proof.
  intros Hb Hl Hd. pose proof (decode_artifact_ok sha256 limits bytes Hb Hl) as Hok. rewrite Hd in Hok.
  split; [intros; by eapply (nominal_assignable_spec limits art (ao_shapes _ _ _ _ Hok) (ao_refs _ _ _ _ Hok))|].
  intros Hv x y Hxy Hyx. pose proof (verify_nominal_acyclic limits art (ao_shapes _ _ _ _ Hok) (ao_refs _ _ _ _ Hok) Hv x) as Hc.
  destruct (decide (x = y)) as [|Hne]; [done|]. exfalso. apply Hc. apply rtc_tc in Hxy as [|Hxy]; [done|]. by eapply tc_rtc_r.
Qed.

(** An application with a class A that extends the class B of a library. *)
Definition class_record (name super : Z) : list Z := [0; 0] ++ half 0 ++ concat (word <$> [name; super; 0; 0; 0; 0; 0]).

Definition linked_sections : list (Z * Z * Z * Z * list Z) :=
  let module_record flags imports exports types functions :=
    word 0 ++ word flags ++ replicate 32 0 ++ concat (word <$> [imports; exports; types; functions; 0]) in
  let empty sc := map (fun kind => records_section sc kind []) in
  [(0, MANIFEST, 3, 1, concat (word <$> [0; 0; 1; 1; 0; 0; 2; 2; 0; 0]) ++ replicate 64 0 ++ word 0 ++ word 0);
   records_section 0 MODULES [module_record 1 1 0 2 1; module_record 2 0 1 1 0];
   records_section 0 CAPABILITIES [];
   records_section 1 STRINGS [text "A"; text "B"];
   records_section 1 TYPES [class_record 0 0x80000000; [3; 0] ++ half 0 ++ word 0 ++ half 0 ++ half 0 ++ [0; 0] ++ half 0 ++ word u32_max];
   records_section 1 CONSTANTS [];
   records_section 1 IMPORTS [[0; 0; 0; 0] ++ word 1 ++ word 1 ++ word 0x80000000 ++ replicate 32 0]]
  ++ empty 1 [EXPORTS; FIELDS] ++
  [records_section 1 FUNCTIONS [concat (word <$> [u32_max; 0; 1; 0]) ++ half 0 ++ half 0 ++ concat (word <$> [0; 1; 0; 0])];
   records_section 1 BLOCKS [concat (word <$> [0; 0; 1; 1; 0; 0])];
   records_section 1 CODE [CodeProps.code_word [Code.Return u16_max]]]
  ++ empty 1 [EXCEPTIONS; UTF16_LITERALS; SAFEPOINT_ROOTS] ++
  [records_section 2 STRINGS [text "B"];
   records_section 2 TYPES [class_record 0 u32_max];
   records_section 2 CONSTANTS [];
   records_section 2 IMPORTS [];
   records_section 2 EXPORTS [[0; 1] ++ half 0 ++ concat (word <$> [0; 0; 0])]]
  ++ empty 2 [FIELDS; FUNCTIONS; BLOCKS; CODE; EXCEPTIONS; UTF16_LITERALS; SAFEPOINT_ROOTS].

Definition linked_artifact : DecodedArtifact :=
  match decode_artifact zero_digest limits_default (encode_container linked_sections) with
  | Ok a => a
  | _ => mkArtifact [] [] (mkHeader 0 0 0 0 0 0 0 NoArguments) (mkManifest 0 0 0 0 0 0 0 0 0 0 [] [] 0 0) [] []
  end.

Lemma linked_decodes : decode_artifact zero_digest limits_default (encode_container linked_sections) = Ok linked_artifact.
Proof. vm_compute. reflexivity. Qed.

Lemma module_order_correct_witness : topological_module_order linked_artifact limits_default = Ok [1; 0] /\
  forall x, ~ tc (imports_from linked_artifact) x x.
Proof.
  split; [vm_compute; reflexivity|].
  apply (module_order_correct zero_digest limits_default (encode_container linked_sections) linked_artifact).
  - apply is_bytes_forallb. vm_compute. reflexivity.
  - vm_compute. discriminate.
  - exact linked_decodes.
  - exists [1; 0]. vm_compute. reflexivity.
Defined.

Lemma subtyping_correct_witness : rtc (supertype linked_artifact) (0, 0) (1, 0) /\ ~ rtc (supertype linked_artifact) (1, 0) (0, 0).
Proof.
  destruct (subtyping_correct zero_digest limits_default (encode_container linked_sections) linked_artifact) as [Ha Ho].
  - apply is_bytes_forallb. vm_compute. reflexivity.
  - vm_compute. discriminate.
  - exact linked_decodes.
  - assert (Hr : rtc (supertype linked_artifact) (0, 0) (1, 0)).
    { destruct (Ha (0, 0) (1, 0)) as (b & Hb & Hiff).
      - split; [done|]. split; [done|]. eexists. split; vm_compute; reflexivity.
      - apply Hiff. assert (E : nominal_assignable linked_artifact (0, 0) (1, 0) = Ok true) by (vm_compute; reflexivity).
        rewrite E in Hb. by injection Hb as <-. }
    split; [exact Hr|]. intros Hback. assert (E : (0, 0) = (1, 0)) by (apply Ho; [vm_compute; reflexivity|done|done]). discriminate E.
Defined.

End ModulesProps.
