(* ===== verification/Exceptions.v ===== *)
(** src/verify/exceptions.rs and src/verify/mod.rs: the Throwable root, the roles of
    the runtime's exceptions, the handler tables, the feature bits, and
    [verify_artifact], which decodes an artifact and runs every check on it.

    [sort_unstable_by_key] is a sort by the key; handlers with the same range may come
    in any order, and [reject_crossing_ranges] does not depend on which. *)

From S2P Require Import Prelude Words Unicode Bytes Value Float Code Frame Path BTree Artifact Verify Container Records Tables Modules.
Import Diagnostics Artifact Container Records Tables.

Module Exceptions.
Import Container Code.

(** [iter().fold(..)] and [any(..)] over every instruction of a module. *)
Definition module_instructions (m : DecodedModule) : list Instruction := concat (map instructions (code m)).

(** The roles an instruction needs, a bit for each. *)
Definition required_runtime_exception_roles (i : Instruction) : Z :=
  match i with
  | CapabilityCallSync _ _ _ _ | CapabilityCallAsync _ _ _ _ _ => Z.lor (Z.shiftl 1 6) (Z.shiftl 1 7)
  | Div form _ _ _ | Rem form _ _ _ => if existsb (Z.eqb form) [1; 2; 8; 9] then 1 else 0
  | NewArray _ _ _ => Z.shiftl 1 2
  | ArrayLoad _ _ _ | ArrayStore _ _ _ | ArrayCopy _ _ _ _ _ | StringGet _ _ _ | StringSubstring _ _ _ _
  | StringFromCharArray _ _ _ _ => Z.lor (Z.shiftl 1 1) (Z.shiftl 1 3)
  | CheckedCast _ _ _ => Z.lor (Z.shiftl 1 4) (Z.shiftl 1 3)
  | ArrayLength _ _ | FieldGet _ _ _ | FieldSet _ _ _ | StaticGet _ _ | StaticSet _ _ | CallVirtual _ _ _ | CallInterface _ _ _
  | StringLength _ _ | StringEquals _ _ _ | StringCompare _ _ _ | StringHash _ _ | StringConcat _ _ _ => Z.shiftl 1 3
  | ChannelCreate _ _ | ChannelSend _ _ _ | ChannelReceive _ _ _ => Z.shiftl 1 5
  | _ => 0
  end.

Definition is_throw (i : Instruction) : bool := match i with Throw _ => true | _ => false end.

Section Verify.
Context (sha256 : list Z -> list Z) (depth : nat) (limits : ArtifactLimits).

(** [failure] of exceptions.rs. *)
Definition failure (module function : Z) (d : string) : DiagnosticSet := Verify.failure_at limits Exception BadException module function d.

Section Artifact.
Context (art : DecodedArtifact).

(** [(runtime_major, runtime_minor) < (1, minor)]. *)
Definition older_than (minor : Z) : bool :=
  (runtime_major (header art) <? 1) || ((runtime_major (header art) =? 1) && (runtime_minor (header art) <? minor)).

(** ** The Throwable root *)

(** A reference that resolves to the type [x]. *)
Definition resolves_to (module_id reference : Z) (x : Z * Z) : Dia bool :=
  r ← resolved_type art module_id reference;
  Ok (bool_decide (r = Some x)).

Definition is_string_class (module_id reference : Z) : Dia bool :=
  r ← resolved_type art module_id reference;
  match r with
  | None => Ok false
  | Some x =>
      t ← type_at art x;
      match t with
      | Class _ _ name _ _ _ _ _ _ _ => m ← module_at art x.1; Ok (named m name Verify.kotlin_string)
      | _ => Ok false
      end
  end.

(** [all(..)] of a test that may panic. *)
Fixpoint all_of {A} (test : A -> Dia bool) (l : list A) : Dia bool :=
  match l with
  | [] => Ok true
  | x :: l => b ← test x; if (b : bool) then all_of test l else Ok false
  end.

Definition throwable_fields (module_id : Z) (m : DecodedModule) (self : Z * Z) (field_start : Z) : Dia bool :=
  match slice_get field_start (saturating_add usize_max field_start 2) (fields m) with
  | None => Ok false
  | Some fs =>
      owned ← all_of (fun f => if negb (Z.land (field_flags f) 2 =? 0) then Ok false else resolves_to module_id (field_owner f) self) fs;
      if negb owned then Ok false else
      message ← expect (zget fs 0);
      let mt := Artifact.value_type message in
      if negb (kind mt =? 7) || negb (flags mt =? 1) then Ok false else
      text_ ← is_string_class module_id (nominal_type mt);
      if negb text_ then Ok false else
      cause ← expect (zget fs 1);
      let ct := Artifact.value_type cause in
      if negb (kind ct =? 7) || negb (flags ct =? 1) then Ok false else
      resolves_to module_id (nominal_type ct) self
  end.

Definition throwable_parent (module_id super_type : Z) : Dia bool :=
  if super_type =? u32_max then Ok true else
  r ← resolved_type art module_id super_type;
  match r with
  | None => Ok false
  | Some x => t ← type_at art x; Ok (Modules.stateless_root art t)
  end.

(** The body of the loops of [verify_throwable_root]. *)
Definition check_throwable (module_id : Z) (m : DecodedModule) (root : option (Z * Z)) (entry : Z * NominalType) : Dia (option (Z * Z)) :=
  let '(type_id, t) := entry in
  match t with
  | Class flags generic_arity _ super_type interfaces field_start field_count _ method_count initializer =>
      if Z.land flags 4 =? 0 then Ok root else
      if bool_decide (is_Some root) then Err (failure module_id 0 "multiple Throwable roots") else
      if older_than 8 then Err (failure module_id 0 "Throwable root requires Runtime ABI 1.8") else
      valid_fields ← throwable_fields module_id m (module_id, type_id) field_start;
      valid_parent ← throwable_parent module_id super_type;
      if negb (flags =? 4) || negb (generic_arity =? 0) || negb (bool_decide (interfaces = [])) || negb (field_count =? 2)
        || negb (method_count =? 0) || bool_decide (is_Some initializer) || negb valid_fields || negb valid_parent
      then Err (failure module_id 0 "invalid Throwable root layout or superclass")
      else Ok (Some (module_id, type_id))
  | _ => Ok root
  end.

(** [for x in l] with an accumulator. *)
Fixpoint fold_over {A B} (f : B -> A -> Dia B) (acc : B) (l : list A) : Dia B :=
  match l with
  | [] => Ok acc
  | x :: l => acc ← f acc x; fold_over f acc l
  end.

Definition verify_throwable_root : Dia (option (Z * Z)) :=
  fold_over (fun root '(module_id, m) => fold_over (check_throwable module_id m) root (Modules.enumerated (types m)))
    None (Modules.enumerated (modules art)).

(** ** The roles of exceptions *)

(** The walk from a class to the root; [remaining] bounds it. *)
Fixpoint role_walk (remaining : nat) (root current : option (Z * Z)) : Dia (option (Z * Z)) :=
  if bool_decide (current = root) then Ok current
  else
    match remaining, current with
    | O, _ | _, None => Ok current
    | S remaining, Some x =>
        t ← type_at art x;
        match t with
        | Class flags generic_arity _ super_type interfaces _ field_count _ method_count None =>
            if negb (generic_arity =? 0) || negb (field_count =? 0) || negb (method_count =? 0) then Ok current else
            if negb (Z.land flags 5 =? 0) || negb (bool_decide (interfaces = [])) then Ok current else
            current ← resolved_type art x.1 super_type;
            role_walk remaining root current
        | _ => Ok current
        end
    end.

Definition type_total : nat := list_sum (map (fun m => length (types m)) (modules art)).

Definition check_role (root : option (Z * Z)) (module_id : Z) (roles : list (option (Z * Z))) (entry : Z * NominalType)
    : Dia (list (option (Z * Z))) :=
  let '(type_id, t) := entry in
  match t with
  | Class flags _ _ _ _ _ _ _ _ _ =>
      let tag := Z.shiftr flags 3 in
      if tag =? 0 then Ok roles else
      if (8 <? tag) || older_than 9 then Err (failure module_id 0 "runtime exception role requires Runtime ABI 1.9") else
      role ← expect (zget roles (tag - 1));
      if bool_decide (is_Some role) then Err (failure module_id 0 "duplicate runtime exception role") else
      let self := Some (module_id, type_id) in
      last ← role_walk type_total root self;
      if bool_decide (root = None) || negb (bool_decide (last = root)) || bool_decide (self = root)
      then Err (failure module_id 0 "runtime exception role requires a zero-state Throwable subclass")
      else Ok (zset (tag - 1) self roles)
  | _ => Ok roles
  end.

Definition verify_runtime_exception_types (root : option (Z * Z)) : Dia (list (option (Z * Z))) :=
  fold_over (fun roles '(module_id, m) => fold_over (check_role root module_id) roles (Modules.enumerated (types m)))
    (replicate 8 None) (Modules.enumerated (modules art)).

(** ** Handlers *)

Definition root_value (root : Z * Z) : ValueType := mkType 7 0 (wrap_unsigned 32 root.2).

Definition check_entry (root : option (Z * Z)) (module_id function_id : Z) (f : Function) (block_end : Z) (e : ExceptionEntry)
    : Dia Verify.Handler :=
  let fail := failure module_id function_id in
  let block_start := first_block f in
  protected_end ← ok_or (stop ← checked_add usize_max (first_protected_block e) (protected_block_count e);
                         if negb (protected_block_count e =? 0) && (block_start <=? first_protected_block e) && (stop <=? block_end)
                         then Some stop else None)
                    (fail "protected block range is empty or outside function");
  if negb (exc_owner e =? function_id) || (exc_handler e <? block_start) || (block_end <=? exc_handler e)
  then Err (fail "exception owner or handler block is outside function") else
  register ← ok_or (v ← zget (values f) (exc_register e); Some (semantic_type v)) (fail "exception register is out of range");
  if negb (kind register =? 7) || negb (Z.land (flags register) 1 =? 0)
  then Err (fail "exception register is not a non-null reference") else
  root ← ok_or root (fail "missing Throwable root");
  _ ← (if negb (catch_type e =? u32_max) then
         resolved ← resolved_type art module_id (catch_type e);
         catch ← ok_or resolved (fail "catch type does not resolve");
         t ← type_at art catch;
         if negb (Modules.is_class t || Modules.is_interface t) then Err (fail "catch type is not a reference nominal type") else
         let catch_value := mkType 7 0 (catch_type e) in
         throwable ← value_assignable art depth module_id catch_value root.1 (root_value root);
         if negb throwable then Err (fail "catch type is not a Throwable subclass") else
         compatible ← value_assignable art depth module_id catch_value module_id register;
         if negb compatible then Err (fail "exception register and catch type are incompatible") else Ok tt
       else
         all ← resolves_to module_id (nominal_type register) root;
         if negb all then Err (fail "catch-all register must be the Throwable root") else Ok tt);
  Ok (Verify.mkHandler (first_protected_block e) protected_end (exc_handler e) (exc_register e)).

(** [(protected_start, Reverse(protected_end))], and the sort by it. *)
Definition outer_first (a b : Verify.Handler) : Prop :=
  Verify.protected_start a < Verify.protected_start b \/
  (Verify.protected_start a = Verify.protected_start b /\ Verify.protected_end b <= Verify.protected_end a).
#[global] Instance outer_first_dec a b : Decision (outer_first a b).
Proof. unfold outer_first. apply _. Defined.

(** [while stack.last().is_some_and(..) { stack.pop() }]; the head of [stack] is its top. *)
Fixpoint pop_ended (current : Verify.Handler) (stack : list Verify.Handler) : list Verify.Handler :=
  match stack with
  | parent :: rest => if Verify.protected_end parent <=? Verify.protected_start current then pop_ended current rest else stack
  | [] => []
  end.

Fixpoint nest (module_id function_id : Z) (handlers stack : list Verify.Handler) : Dia unit :=
  match handlers with
  | [] => Ok tt
  | current :: handlers =>
      let stack := pop_ended current stack in
      if match stack with parent :: _ => Verify.protected_end parent <? Verify.protected_end current | [] => false end
      then Err (failure module_id function_id "exception protected ranges cross without nesting")
      else nest module_id function_id handlers (current :: stack)
  end.

Definition reject_crossing_ranges (handlers : list Verify.Handler) (module_id function_id : Z) : Dia unit :=
  nest module_id function_id (merge_sort outer_first handlers) [].

Definition check_throw (root : option (Z * Z)) (module_id function_id : Z) (f : Function) (i : Instruction) : Dia unit :=
  let fail := failure module_id function_id in
  match i with
  | Throw exception =>
      value ← ok_or (v ← zget (values f) exception; Some (semantic_type v)) (fail "throw register is out of range");
      root ← ok_or root (fail "missing Throwable root");
      if negb (kind value =? 7) || negb (flags value =? 0) then Err (fail "throw operand is not a non-null Throwable") else
      b ← value_assignable art depth module_id value root.1 (root_value root);
      if negb b then Err (fail "throw operand is not a non-null Throwable") else Ok tt
  | _ => Ok tt
  end.

Definition function_handlers (root : option (Z * Z)) (module_id : Z) (m : DecodedModule) (entry : Z * Function) : Dia (list Verify.Handler) :=
  let '(function_id, f) := entry in
  let fail := failure module_id function_id in
  let start := first_exception f in
  stop ← ok_or (e ← checked_add usize_max start (exception_count f); if e <=? size (exceptions m) then Some e else None)
           (fail "function exception range is out of bounds");
  let block_start := first_block f in
  block_end ← ok_or (e ← checked_add usize_max block_start (block_count f); if e <=? size (blocks m) then Some e else None)
                (fail "function block range is out of bounds");
  entries ← expect (slice_get start stop (exceptions m));
  handlers ← collect (check_entry root module_id function_id f block_end) entries;
  _ ← reject_crossing_ranges handlers module_id function_id;
  codes ← expect (slice_get block_start block_end (code m));
  _ ← each (fun c => each (check_throw root module_id function_id f) (instructions c)) codes;
  Ok handlers.

Definition uses_exceptions (m : DecodedModule) : bool :=
  negb (bool_decide (exceptions m = [])) || existsb is_throw (module_instructions m).

Definition handler_tables (root : option (Z * Z)) : Dia Verify.ExceptionModel :=
  let uses := existsb uses_exceptions (modules art) in
  if uses && older_than 8 then Err (failure 0 0 "legacy exception artifact: rebuild for Runtime ABI 1.8") else
  if uses && bool_decide (root = None)
  then Err (failure 0 0 "exception artifact requires a verified Throwable root; rebuild libraries") else
  collect (fun '(module_id, m) => collect (function_handlers root module_id m) (Modules.enumerated (functions m)))
    (Modules.enumerated (modules art)).

Definition verify_exceptions : Dia Verify.ExceptionModel :=
  root ← verify_throwable_root;
  roles ← verify_runtime_exception_types root;
  let required := foldl Z.lor 0 (map required_runtime_exception_roles (concat (map module_instructions (modules art)))) in
  if negb (required =? 0) && (older_than 9
       || existsb (fun '(index, role) => negb (Z.land required (Z.shiftl 1 index) =? 0) && bool_decide (role = None)) (Modules.enumerated roles))
  then Err (failure 0 0 "operation error artifact: rebuild with exception roles for Runtime ABI 1.9")
  else handler_tables root.

(** ** Feature bits *)

Definition is_suspending (i : Instruction) : bool :=
  match i with
  | CoroutineSpawn _ _ _ | CallSuspend _ _ _ _ | Yield _ | Sleep _ _ | CoroutineJoin _ _ _ | ChannelSend _ _ _ | ChannelReceive _ _ _ => true
  | _ => false
  end.
Definition is_task (i : Instruction) : bool := match i with CoroutineSpawn _ _ _ | CoroutineJoin _ _ _ => true | _ => false end.
Definition is_channel (i : Instruction) : bool :=
  match i with ChannelCreate _ _ | ChannelSend _ _ _ | ChannelReceive _ _ _ => true | _ => false end.
Definition is_array_copy (i : Instruction) : bool := match i with ArrayCopy _ _ _ _ _ => true | _ => false end.
Definition is_string_of (form : Z) (i : Instruction) : bool := match i with StringValueOf f _ _ => f =? form | _ => false end.
Definition is_capability (i : Instruction) : bool :=
  match i with CapabilityCallSync _ _ _ _ | CapabilityCallAsync _ _ _ _ _ => true | _ => false end.

(** Whether a module has such an instruction, and the bit [n] if [b]. *)
Definition has (p : Instruction -> bool) (m : DecodedModule) : bool := existsb p (module_instructions m).
Definition feature (n : Z) (b : bool) : Z := if b then Z.shiftl 1 n else 0.

(** The variables of the loop of [verify_semantic_features]. *)
Record Uses := mkUses {
  expected : Z; uses_tasks : bool; uses_channels : bool; uses_i64_string_conversion : bool; uses_f32_string_conversion : bool;
  uses_array_copy : bool }.

Definition module_features (u : Uses) (m : DecodedModule) : Uses :=
  let tasks := uses_tasks u || has is_task m in
  let channels := uses_channels u || has is_channel m in
  let copies := uses_array_copy u || has is_array_copy m in
  mkUses
    (foldl Z.lor (expected u)
       [feature 0 (uses_exceptions m);
        feature 1 (existsb (fun f => negb (Z.land (fn_flags f) 1 =? 0)) (functions m) || has is_suspending m);
        feature 5 copies;
        feature 2 (negb (bool_decide (length (capabilities art) = 0%nat)) || has is_capability m);
        feature 3 (negb (bool_decide (length (imports m) = 0%nat)));
        feature 4 channels])
    tasks channels
    (uses_i64_string_conversion u || has (is_string_of 2) m) (uses_f32_string_conversion u || has (is_string_of 3) m) copies.

Definition module_error (off : Z) (d : string) : DiagnosticSet := Container.single limits (diagnostic Module_ BadModule off d).

Definition verify_semantic_features : Dia unit :=
  let u := foldl module_features (mkUses 0 false false false false false) (modules art) in
  let channels := maximum_channels (manifest art) in
  let values := maximum_channel_values (manifest art) in
  _ ← guard_err (uses_array_copy u && older_than 5) (module_error 6 "array copying requires minimum runtime ABI 1.5");
  _ ← guard_err (uses_tasks u && older_than 1) (module_error 6 "task instructions require minimum runtime ABI 1.1");
  _ ← guard_err (uses_channels u && older_than 2) (module_error 6 "channel instructions require minimum runtime ABI 1.2");
  _ ← guard_err (uses_i64_string_conversion u && older_than 3) (module_error 6 "I64 string conversion requires minimum runtime ABI 1.3");
  _ ← guard_err (uses_f32_string_conversion u && older_than 4) (module_error 6 "F32 string conversion requires minimum runtime ABI 1.4");
  _ ← guard_err (uses_channels u && ((channels =? 0) || (values =? 0)))
        (module_error 0 "channel instructions require non-zero channel manifest limits");
  _ ← guard_err (negb (uses_channels u) && (negb (channels =? 0) || negb (values =? 0)))
        (module_error 0 "channel manifest limits require channel instructions");
  guard_err (negb (semantic_features (header art) =? expected u)) (module_error 20 "semantic feature bits do not exactly match artifact use").

End Artifact.

(** ** The verifier *)

(** [VerifiedArtifact] holds the decoded artifact. *)
Definition verify_artifact (bytes : list Z) : Dia DecodedArtifact :=
  decoded ← decode_artifact sha256 limits bytes;
  _ ← Modules.verify_modules sha256 decoded depth limits;
  model ← verify_exceptions decoded;
  _ ← Verify.verify_functions decoded depth model limits;
  _ ← Verify.verify_entry_arguments decoded depth limits;
  _ ← verify_semantic_features decoded;
  Ok decoded.

End Verify.

End Exceptions.
