(* ===== verification/ExceptionsProps.v ===== *)
(** The verifier as a whole: handler ranges nest, the handler tables lie inside their
    functions, and in an artifact [verify_artifact] accepts every register is written
    before it is read, on exceptional paths too. *)

From S2P Require Import Prelude Words Unicode Bytes Value Float Code CodeProps Frame Path BTree Artifact Verify VerifyProps Container Records Tables Modules TablesProps ModulesProps Exceptions.
Import Diagnostics Artifact.

Module NestProps.
Import Verify Exceptions.

(** Two ranges are apart, or one contains the other. *)
Definition apart_or_nested (a b : Handler) : Prop :=
  protected_end a <= protected_start b \/ protected_end b <= protected_start a \/
  (protected_start a <= protected_start b /\ protected_end b <= protected_end a) \/
  (protected_start b <= protected_start a /\ protected_end a <= protected_end b).
Definition well_nested (hs : list Handler) : Prop := forall a b, a ∈ hs -> b ∈ hs -> apart_or_nested a b.

Definition non_empty (h : Handler) : Prop := protected_start h < protected_end h.

(** Each range of the stack contains those above it. *)
Definition encloses (inner outer : Handler) : Prop :=
  protected_start outer <= protected_start inner /\ protected_end inner <= protected_end outer.

Lemma pop_ended_spec c stack : StronglySorted encloses stack ->
  exists popped, stack = popped ++ pop_ended c stack /\ Forall (fun p => protected_end p <= protected_start c) popped /\
    Forall (fun p => protected_start c < protected_end p) (pop_ended c stack).
Proof.
  induction 1 as [|p stack Hs IH Hp]; [by exists []|]. cbn [pop_ended].
  destruct (Z.leb_spec (protected_end p) (protected_start c)).
  - destruct IH as (popped & E & H1 & H2). exists (p :: popped). split; [by rewrite E at 1|]. split; [by constructor|done].
  - exists []. split; [done|]. split; [done|]. constructor; [done|]. eapply Forall_impl; [exact Hp|]. intros q [_ ?]. lia.
Qed.

(** The test of the loop fails exactly when the range crosses one of the stack. *)
Definition crosses_top (c : Handler) (stack : list Handler) : bool :=
  match stack with parent :: _ => protected_end parent <? protected_end c | [] => false end.

Lemma crosses_top_spec c stack : StronglySorted encloses stack -> non_empty c ->
  (forall p, p ∈ stack -> outer_first p c /\ protected_start c < protected_end p) ->
  if crosses_top c stack then exists p, p ∈ stack /\ ~ apart_or_nested p c else Forall (encloses c) stack.
Proof.
  intros Hs Hc Ho. unfold non_empty in Hc. destruct Hs as [|p stack Hs Hp]; [constructor|]. cbn [crosses_top].
  destruct (Ho p) as [Hpc Hend]; [by left|]. unfold outer_first in Hpc. destruct (Z.ltb_spec (protected_end p) (protected_end c)).
  - exists p. split; [by left|]. unfold apart_or_nested. lia.
  - constructor; [split; lia|]. eapply Forall_impl; [exact Hp|]. intros q [? ?]. split; lia.
Qed.

Section Nest.
Context (limits : ArtifactLimits) (module_id function_id : Z).

Lemma nest_spec l : forall stack, StronglySorted outer_first l -> StronglySorted encloses stack ->
  Forall non_empty l -> (forall p c, p ∈ stack -> c ∈ l -> outer_first p c) ->
  nest limits module_id function_id l stack = Ok tt <-> well_nested l /\ forall p c, p ∈ stack -> c ∈ l -> apart_or_nested p c.
Proof.
  induction l as [|c l IH]; intros stack Hl Hs Hn Ho; cbn [nest]; [by split; [split; intros ?; set_solver|]|].
  apply StronglySorted_inv in Hl as [Hl Hc]. apply Forall_cons in Hn as [Hne Hn].
  destruct (pop_ended_spec c stack Hs) as (popped & E & Hpop & Hkeep). fold (crosses_top c (pop_ended c stack)).
  generalize dependent (pop_ended c stack). intros kept E Hkeep. rewrite Forall_forall in Hpop, Hkeep, Hc.
  assert (Hk : StronglySorted encloses kept) by (rewrite E in Hs; by apply StronglySorted_app_1_r in Hs).
  assert (Hin : forall p, p ∈ stack <-> p ∈ popped \/ p ∈ kept) by (intros p; by rewrite E, elem_of_app). clear E Hs.
  pose proof (crosses_top_spec c kept Hk Hne) as Ht. destruct (crosses_top c kept).
  - split; [done|]. intros [_ H]. destruct Ht as (p & Hp & Hx); [|exfalso; apply Hx, H; set_solver].
    intros p Hp. split; [apply Ho; set_solver|by apply Hkeep].
  - assert (He : Forall (encloses c) kept) by (apply Ht; intros p Hp; split; [apply Ho; set_solver|by apply Hkeep]). clear Ht.
    rewrite IH; [|done|by constructor|done|intros p d [-> | Hp]%elem_of_cons Hd; [by apply Hc|apply Ho; set_solver]].
    rewrite Forall_forall in He. split; intros [H1 H2].
    + assert (Hcd : forall d, d ∈ l -> apart_or_nested c d) by (intros d Hd; apply H2; [by left|done]). split.
      * intros a b [-> | Ha]%elem_of_cons [-> | Hb]%elem_of_cons; [|by apply Hcd| |by apply H1].
        -- unfold apart_or_nested. lia.
        -- specialize (Hcd a Ha). unfold apart_or_nested in *. lia.
      * intros p d Hp Hd. apply Hin in Hp. apply elem_of_cons in Hd. destruct Hp as [Hp|Hp], Hd as [-> | Hd].
        -- left. by apply Hpop.
        -- left. specialize (Hpop p Hp). specialize (Hc d Hd). unfold outer_first in Hc. lia.
        -- specialize (He p Hp). unfold apart_or_nested, encloses in *. lia.
        -- apply H2; [by right|done].
    + split; [intros a b Ha Hb; apply H1; by right|]. intros p d [-> | Hp]%elem_of_cons Hd; [apply H1; [by left|by right]|].
      apply H2; [|by right]. apply Hin. by right.
Qed.

#[local] Instance outer_first_trans : Transitive outer_first.
Proof. intros a b c. unfold outer_first. lia. Qed.
#[local] Instance outer_first_total : Total outer_first.
Proof. intros a b. unfold outer_first. lia. Qed.

Lemma reject_crossing_spec hs : Forall non_empty hs ->
  reject_crossing_ranges limits hs module_id function_id = Ok tt <-> well_nested hs.
Proof.
  intros Hn. pose proof (merge_sort_Permutation outer_first hs) as Hp. unfold reject_crossing_ranges. rewrite nest_spec.
  - unfold well_nested. setoid_rewrite Hp. split; [intros [H _]; done|]. intros H. split; [done|]. intros ? ?. set_solver.
  - apply StronglySorted_merge_sort; apply _.
  - constructor.
  - by rewrite Hp.
  - set_solver.
Qed.

End Nest.

(** C10. Nesting of protected ranges.  Of handlers with ranges that are not empty, as
    [handler_tables] gives, [reject_crossing_ranges] accepts exactly the lists in which
    any two ranges are apart or one contains the other, whatever their order. *)
Theorem reject_crossing_correct limits hs module_id function_id : Forall non_empty hs ->
  reject_crossing_ranges limits hs module_id function_id = Ok tt <-> well_nested hs.
Proof. apply reject_crossing_spec. Qed.

Lemma reject_crossing_correct_witness :
  well_nested [mkHandler 3 5 9 0; mkHandler 0 6 8 0; mkHandler 6 7 8 0] /\ ~ well_nested [mkHandler 0 4 9 0; mkHandler 3 5 8 0].
Proof.
  split; [|intros H]; [apply (reject_crossing_correct limits_default _ 0 0)|apply (reject_crossing_correct limits_default _ 0 0) in H].
  - repeat constructor; vm_compute; done.
  - vm_compute. reflexivity.
  - vm_compute in H. discriminate H.
  - repeat constructor; vm_compute; done.
Defined.

End NestProps.

Module ExceptionsProps.
Import Container Records Tables Modules Total Code VerifyInv VerifyFlow VerifyProps ContainerProps RecordsProps TablesProps ModulesProps NestProps Exceptions Verify.

(** A handler of the function [f]: its range and its block are inside the function, and
    it delivers the exception in a register of [f] for references that are never null. *)
Record handler_of (m : DecodedModule) (f : Function) (h : Handler) : Prop := {
  ho_range : first_block f <= protected_start h < protected_end h /\ protected_end h <= first_block f + block_count f;
  ho_block : first_block f <= handler_block h < first_block f + block_count f;
  ho_blocks : first_block f + block_count f <= size (blocks m);
  ho_register : 0 <= exception_register h;
  ho_type : exists v, zget (values f) (exception_register h) = Some v /\
    kind (semantic_type v) = 7 /\ Z.land (flags (semantic_type v)) 1 = 0 }.

Section Handlers.
Context (depth : nat) (limits : ArtifactLimits) (art : DecodedArtifact) (root : option (Z * Z)).

Lemma check_entry_spec module_id function_id m f e h : exception_shape e ->
  check_entry depth limits art root module_id function_id f (first_block f + block_count f) e = Ok h ->
  first_block f + block_count f <= size (blocks m) -> handler_of m f h.
Proof.
  intros (_ & H1 & H2 & _ & H3 & H4) H Hb. unfold check_entry in H. apply outcome_bind_inv in H as (stop & Hstop & H).
  apply ok_or_ok, bind_Some in Hstop as (stop' & Hadd & Hstop). apply checked_add_Some in Hadd as [-> _].
  destruct (_ && _) eqn:Hr; [|done]. injection Hstop as <-. apply andb_true_iff in Hr as [[Hz%negb_true_iff Hs]%andb_true_iff Hl].
  destruct (_ || _) eqn:Ho; [done|]. apply orb_false_iff in Ho as [[_ Ho1]%orb_false_iff Ho2].
  apply outcome_bind_inv in H as (register & Hreg & H). apply ok_or_ok, bind_Some in Hreg as (v & Hv & [= <-]).
  destruct (_ || _) eqn:Ht; [done|]. apply orb_false_iff in Ht as [Ht1%negb_false_iff Ht2%negb_false_iff].
  apply outcome_bind_inv in H as (r & _ & H). apply outcome_bind_inv in H as (_ & _ & H). injection H as <-.
  unfold u32, u16 in *. split; simpl; try lia. exists v. split; [done|]. lia.
Qed.

Lemma function_handlers_spec module_id function_id m f hs : Forall exception_shape (exceptions m) ->
  function_handlers depth limits art root module_id m (function_id, f) = Ok hs -> Forall (handler_of m f) hs /\ well_nested hs.
Proof.
  intros He H. unfold function_handlers in H. apply outcome_bind_inv in H as (stop & Hstop & H).
  apply outcome_bind_inv in H as (block_end & Hend & H).
  apply ok_or_ok, bind_Some in Hend as (e & Hadd & Hend). apply checked_add_Some in Hadd as [-> _].
  destruct (Z.leb_spec (first_block f + block_count f) (size (blocks m))) as [Hle|]; [|done]. injection Hend as <-.
  apply outcome_bind_inv in H as (entries & Hent & H). apply expect_ok in Hent.
  apply outcome_bind_inv in H as (hs' & Hhs & H). apply outcome_bind_inv in H as ([] & Hnest & H).
  apply outcome_bind_inv in H as (codes & _ & H). apply outcome_bind_inv in H as (_ & _ & H). injection H as ->.
  assert (Hok : Forall (handler_of m f) hs).
  { apply collect_each in Hhs. assert (Hes : Forall exception_shape entries) by (apply slice_get_Some in Hent as [-> _]; by apply slice_Forall).
    clear -Hhs Hes Hle. induction Hhs; [constructor|]. apply Forall_cons in Hes as [? ?]. constructor; [by eapply check_entry_spec|auto]. }
  split; [done|]. eapply reject_crossing_spec; [|exact Hnest]. eapply Forall_impl; [exact Hok|]. intros h [[? ?] _ _ _ _]. unfold non_empty. lia.
Qed.

End Handlers.

(** The table of [verify_exceptions] has the handlers of each function. *)
Lemma model_handlers depth limits art model module_id m function_id f :
  verify_exceptions depth limits art = Ok model -> 0 <= module_id -> zget (modules art) module_id = Some m ->
  0 <= function_id -> zget (functions m) function_id = Some f ->
  exists root hs, function_handlers depth limits art root module_id m (function_id, f) = Ok hs /\ handlers_of model module_id function_id = Ok hs.
Proof.
  intros H Hi Hm Hj Hf. unfold verify_exceptions in H. apply outcome_bind_inv in H as (root & _ & H).
  apply outcome_bind_inv in H as (roles & _ & H). destruct (_ && _); [done|]. unfold handler_tables in H.
  destruct (_ && _); [done|]. destruct (_ && _); [done|]. apply enumerated_collect in H as [Hl Hall]. unfold zget in Hm, Hf.
  destruct (lookup_lt_is_Some_2 model (Z.to_nat module_id)) as [fs Hfs]; [rewrite <- Hl; by eapply lookup_lt_Some|].
  specialize (Hall _ _ _ Hm Hfs). apply enumerated_collect in Hall as [Hl' Hall].
  destruct (lookup_lt_is_Some_2 fs (Z.to_nat function_id)) as [hs Hhs]; [rewrite <- Hl'; by eapply lookup_lt_Some|].
  specialize (Hall _ _ _ Hf Hhs). rewrite !Z2Nat.id in Hall by done. exists root, hs. split; [done|].
  unfold handlers_of, zget. rewrite Hfs. simpl. by rewrite Hhs.
Qed.

(** What the decoder ensures of a module is what the dataflow needs. *)
Lemma shapes_decoded limits m : shapes_ok limits m -> module_decoded (code_limits limits) m.
Proof.
  intros Hs. split.
  - intros b is_ Hb. unfold code_at in Hb. apply fmap_Some in Hb as (c & Hc & ->). unfold zget in Hc.
    destruct (Forall2_lookup_r _ _ _ _ _ (sh_code _ _ Hs) Hc) as (bl & _ & Hok & _). by destruct Hok.
  - eapply Forall_impl; [apply (sh_functions _ _ Hs)|]. intros f (_ & _ & _ & _ & _ & _ & [? _] & [? _] & _). done.
Qed.

(** C9. What acceptance means.  If [verify_artifact] accepts the bytes, then for every
    function of the artifact the handler table it computed lies inside the function:
    each protected range is not empty and consists of blocks of the function, so does
    the handler, and the exception register is declared and holds a reference that is
    never null; the ranges of the function nest.  And on every path through the code,
    ordinary or through handlers, each register an instruction reads is declared and
    was written before, by the caller, an earlier instruction or a handler; control
    never leaves the code of a block other than by its terminator or a handler. *)
Theorem verified_artifact_sound sha256 depth limits bytes art :
  is_bytes bytes -> artifact_bytes limits <= usize_max -> verify_artifact sha256 depth limits bytes = Ok art ->
  exists model, verify_exceptions depth limits art = Ok model /\
  forall module_id m function_id f,
    0 <= module_id -> zget (modules art) module_id = Some m -> 0 <= function_id -> zget (functions m) function_id = Some f ->
    exists hs, handlers_of model module_id function_id = Ok hs /\ Forall (handler_of m f) hs /\ well_nested hs /\
      (bit 3 (fn_flags f) = false -> forall block k W, on_path m f hs block k W ->
        exists is_ i, code_at m block = Some is_ /\ is_ !! k = Some i /\ Forall (fun r => declared f r /\ r ∈ W) (reads i)).
Proof.
  intros Hb Hl H. unfold verify_artifact in H. apply outcome_bind_inv in H as (a & Hd & H).
  pose proof (decode_artifact_ok sha256 limits bytes Hb Hl) as Hok. rewrite Hd in Hok.
  apply outcome_bind_inv in H as ([] & _ & H). apply outcome_bind_inv in H as (model & He & H).
  apply outcome_bind_inv in H as ([] & Hv & H). apply outcome_bind_inv in H as ([] & _ & H). apply outcome_bind_inv in H as ([] & _ & H).
  injection H as <-. exists model. split; [done|]. intros module_id m function_id f Hi Hm Hj Hf.
  pose proof (Forall_lookup_1 _ _ _ _ (ao_shapes _ _ _ _ Hok) Hm) as Hs.
  destruct (model_handlers _ _ _ _ _ _ _ _ He Hi Hm Hj Hf) as (root & hs & Hfh & Hhs).
  destruct (function_handlers_spec _ _ _ _ _ _ _ _ _ (sh_exceptions _ _ Hs) Hfh) as [Hho Hnest].
  exists hs. split; [done|]. split; [done|]. split; [done|]. intros Habs block k W Hp.
  eapply definite_assignment; [exact Hv|exact Hi|exact Hm|by apply shapes_decoded|exact Hj|exact Hf|done|exact Hhs| |exact Hp].
  eapply Forall_impl; [exact Hho|]. intros h []. done.
Qed.

(** [fun f(): T { try { throw T() } catch (e: T) { return e } }], where [T] is the
    Throwable root. *)
Definition throwing_sections : list (Z * Z * Z * Z * list Z) :=
  let reference flags ty := [7; flags] ++ half 0 ++ word ty in
  let class flags name fields := [0; flags] ++ half 0 ++ concat (word <$> [name; u32_max; 0; 0; fields; 0; 0]) in
  [(0, MANIFEST, 3, 1, concat (word <$> [0; 0; 1; 1; 0; 0; 6; 6; 0; 0]) ++ replicate 64 0 ++ word 0 ++ word 0);
   records_section 0 MODULES [word 0 ++ word 1 ++ replicate 32 0 ++ concat (word <$> [0; 0; 3; 1; 0])];
   records_section 0 CAPABILITIES [];
   records_section 1 STRINGS [text "T"; text "f"; text "kotlin.String"];
   records_section 1 TYPES [class 4 0 2; class 0 2 0; [3; 0] ++ half 0 ++ word 1 ++ half 0 ++ half 0 ++ reference 0 0];
   records_section 1 CONSTANTS [];
   records_section 1 IMPORTS [];
   records_section 1 EXPORTS [];
   records_section 1 FIELDS [word 0 ++ word 1 ++ reference 1 1 ++ word 0 ++ word 0; word 0 ++ word 1 ++ reference 1 0 ++ word 0 ++ word 0];
   records_section 1 FUNCTIONS [concat (word <$> [u32_max; 1; 2; 0]) ++ half 2 ++ half 0 ++ concat (word <$> [0; 2; 0; 1]) ++
                                reference 0 0 ++ half 1 ++ half 0 ++ [4] ++ reference 0 0 ++ half 1 ++ half 0 ++ [4]];
   records_section 1 BLOCKS [concat (word <$> [0; 0; 2; 6; 0; 0]); concat (word <$> [0; 1; 1; 1; 0; 0])];
   records_section 1 CODE [CodeProps.code_word [NewObject 0 0; Throw 0]; CodeProps.code_word [Return 1]];
   records_section 1 EXCEPTIONS [concat (word <$> [0; 0; 1; 0; 1]) ++ half 1 ++ half 0];
   records_section 1 UTF16_LITERALS [];
   records_section 1 SAFEPOINT_ROOTS [concat (word <$> [0; 0; 1]) ++ half 1 ++ half 0 ++ half 0 ++ half 0]].

Definition throwing_bytes : list Z := encode_featured 1 throwing_sections.
Definition throwing_artifact : DecodedArtifact := Eval vm_compute in
  match decode_artifact zero_digest limits_default throwing_bytes with
  | Ok a => a
  | _ => mkArtifact [] [] (mkHeader 0 0 0 0 0 0 0 NoArguments) (mkManifest 0 0 0 0 0 0 0 0 0 0 [] [] 0 0) [] []
  end.

(** In the handler, before [Return 1], the register of the exception is written. *)
Lemma verified_artifact_sound_witness :
  verify_artifact zero_digest 10 limits_default throwing_bytes = Ok throwing_artifact /\
  exists m f W, modules throwing_artifact = [m] /\ functions m = [f] /\ on_path m f [mkHandler 0 1 1 1] 1 0 W /\
    code_at m 1 = Some [Return 1] /\ declared f 1 /\ 1 ∈ W.
Proof.
  assert (Hv : verify_artifact zero_digest 10 limits_default throwing_bytes = Ok throwing_artifact) by (vm_compute; reflexivity).
  split; [exact Hv|]. destruct (verified_artifact_sound zero_digest 10 limits_default throwing_bytes throwing_artifact) as (model & Hm & H).
  - apply is_bytes_forallb. vm_compute. reflexivity.
  - vm_compute. discriminate.
  - exact Hv.
  - assert (E : verify_exceptions 10 limits_default throwing_artifact = Ok [[[mkHandler 0 1 1 1]]]) by (vm_compute; reflexivity).
    rewrite E in Hm. injection Hm as <-. eexists _, _, [1; 0].
    split; [vm_compute; reflexivity|]. split; [vm_compute; reflexivity|].
    destruct (H 0 _ 0 _ ltac:(done) eq_refl ltac:(done) eq_refl) as (hs & Hhs & _ & _ & Hp). injection Hhs as <-.
    match goal with |- ?P /\ _ => assert (Hpath : P) end.
    { eapply (path_throw _ _ _ 0 1 [0] [NewObject 0 0; Throw 0] (Throw 0) (mkHandler 0 1 1 1));
        [|vm_compute; reflexivity|reflexivity|reflexivity|by apply list_elem_of_singleton|reflexivity].
      eapply (path_next _ _ _ 0 0 [] [NewObject 0 0; Throw 0] (NewObject 0 0)); [|vm_compute; reflexivity|reflexivity|reflexivity]. apply path_entry. }
    split; [exact Hpath|]. split; [vm_compute; reflexivity|].
    destruct (Hp eq_refl 1 0%nat [1; 0] Hpath) as (is_ & i & Hc & Hi & Hr). injection Hc as <-. injection Hi as <-.
    apply Forall_cons in Hr as [Hr _]. exact Hr.
Defined.

End ExceptionsProps.
