(* ===== verification/Gc.v ===== *)
(** src/execution/gc.rs, src/execution/heap_ops.rs and
    src/execution/external_roots.rs: the stop-the-world mark and sweep collector,
    typed access to object payloads, incremental initialisation of new objects,
    and the table of references held by the host.

    Of [ExecutionImage] (src/execution/image.rs) the model keeps what the
    collector consults: type keys and layouts, the resolved fields and the
    safepoints of every function.  The collector's [last_action] exists only in
    the source's tests. *)

From S2P Require Import Prelude Words Errors Value Layout Heap Frame.

Module Gc.
Import Errors Layout Heap.

(** ** External roots *)

Record ExternalHandle := mkExternalHandle { eh_slot : Z; eh_generation : Z }.
Record ExternalRootEntry := mkEntry { e_generation : Z; e_value : option Value.Ref32 }.

(** [ExternalRootTable] is its [entries]. *)
Abbreviation ExternalRootTable := (list ExternalRootEntry) (only parsing).

(** [ExternalRootTable::new]; the host allocation is taken to succeed. *)
Definition external_new (capacity : Z) : ExternalRootTable :=
  replicate (Z.to_nat capacity) (mkEntry 1 None).

Definition vacant (e : ExternalRootEntry) : Prop := e_value e = None /\ e_generation e <> 0.

#[global] Instance vacant_dec e : Decision (vacant e).
Proof. unfold vacant. apply _. Defined.

(** The entry is filled before the slot is converted to [u32]. *)
Definition retain (value : Value.Ref32) (t : ExternalRootTable)
    : option ExternalHandle * ExternalRootTable :=
  match list_find vacant t with
  | None => (None, t)
  | Some (slot, entry) =>
      ((fun s => mkExternalHandle s (e_generation entry)) <$> try_from_unsigned u32_max (Z.of_nat slot),
       <[slot := mkEntry (e_generation entry) (Some value)]> t)
  end.

Definition external_get (t : ExternalRootTable) (handle : ExternalHandle) : option Value.Ref32 :=
  e ← zget t (eh_slot handle);
  if e_generation e =? eh_generation handle then e_value e else None.

Definition external_release (handle : ExternalHandle) (t : ExternalRootTable)
    : option Value.Ref32 * ExternalRootTable :=
  match zget t (eh_slot handle) with
  | None => (None, t)
  | Some e =>
      if negb (e_generation e =? eh_generation handle) then (None, t)
      else
        match e_value e with
        | None => (None, t)
        | Some value =>
            (Some value,
             zset (eh_slot handle)
               (mkEntry (default 0 (checked_add u32_max (e_generation e) 1)) None) t)
        end
  end.

Definition external_root (t : ExternalRootTable) (index : nat) : option Value.Ref32 :=
  e ← t !! index; e_value e.

(** ** Typed payload access *)

(** [iN::from_le_bytes] of the first bytes. *)
Definition int_of (w : Z) (n : nat) (bs : list Z) : Z := wrap_signed w (le_val (take n bs)).

Definition load_value (h : Heap) (r : Value.Ref32) (off : Z) (width : ValueWidth)
    : outcome VmFault Value.RuntimeValue :=
  bs ← read_payload h r off (width_bytes width);
  mret (match width with
        | I8 => Value.I32 (int_of 8 1 bs)
        | U8 => Value.I32 (le_val (take 1 bs))
        | I16 => Value.I32 (int_of 16 2 bs)
        | U16 => Value.I32 (le_val (take 2 bs))
        | Bool => Value.Bool (negb (le_val (take 1 bs) =? 0))
        | Char => Value.Char (le_val (take 2 bs))
        | I32 => Value.I32 (int_of 32 4 bs)
        | F32 => Value.F32 (le_val (take 4 bs))
        | I64 => Value.I64 (int_of 64 8 bs)
        | F64 => Value.F64 (le_val bs)
        | Ref => Frame.reference_value (Value.from_bits (le_val (take 4 bs)))
        end).

(** The bytes [store_value] writes, or [None] for its [InvalidValueType]. *)
Definition stored_bytes (width : ValueWidth) (v : Value.RuntimeValue) : option (list Z) :=
  match width, v with
  | (I8 | U8), Value.I32 v => Some (le_bytes 1 (wrap_unsigned 8 v))
  | (I16 | U16), Value.I32 v => Some (le_bytes 2 (wrap_unsigned 16 v))
  | Bool, Value.Bool v => Some (le_bytes 1 (Z.b2z v))
  | Char, Value.Char v => Some (le_bytes 2 v)
  | I32, Value.I32 v => Some (le_bytes 4 (wrap_unsigned 32 v))
  | F32, Value.F32 v => Some (le_bytes 4 v)
  | I64, Value.I64 v => Some (le_bytes 8 (wrap_unsigned 64 v))
  | F64, Value.F64 v => Some (le_bytes 8 v)
  | Ref, Value.Null => Some (le_bytes 4 0)
  | Ref, Value.Reference v => Some (le_bytes 4 (Value.to_bits v))
  | _, _ => None
  end.

Definition store_value (r : Value.Ref32) (off : Z) (width : ValueWidth) (v : Value.RuntimeValue)
    : HeapM unit :=
  match stored_bytes width v with
  | Some bs => write_payload r off bs
  | None => st_err InvalidValueType
  end.

(** ** Pending allocations *)

Record PendingState := mkPending {
  p_request : AllocationRequest;
  p_reservation : ReservedAllocation;
  p_destination : Z;
  p_logical_bytes : Z;
  p_initialized_bytes : Z;
  p_fixed_cost_paid : bool;
  p_collection_attempted : bool }.

Definition set_initialized (n : Z) (s : PendingState) : PendingState :=
  mkPending (p_request s) (p_reservation s) (p_destination s) (p_logical_bytes s) n
    (p_fixed_cost_paid s) (p_collection_attempted s).

Inductive PendingAllocation :=
| PObject (state : PendingState)
| PException (state : PendingState)
| PArray (state : PendingState) (length : Z).

Definition pending_state (p : PendingAllocation) : PendingState :=
  match p with PObject s | PException s | PArray s _ => s end.

Definition set_state (s : PendingState) (p : PendingAllocation) : PendingAllocation :=
  match p with
  | PObject _ => PObject s | PException _ => PException s | PArray _ n => PArray s n
  end.

Definition initialized_bytes (p : PendingAllocation) : Z := p_initialized_bytes (pending_state p).

Definition units_for_budget (p : PendingAllocation) (budget : Z) : Z :=
  let s := pending_state p in
  let remaining_bytes := saturating_sub (p_logical_bytes s) (p_initialized_bytes s) in
  Z.min budget (saturating_add u32_max remaining_bytes 15 / 16).

(** [advance] changes the pending allocation and the heap. *)
Abbreviation PendingM := (ST (PendingAllocation * Heap) VmFault).

Definition in_heap {A} (m : HeapM A) : PendingM A := fun '(p, h) =>
  let '(o, h') := m h in (o, (p, h')).

Definition advance (budget : Z) : PendingM (Z * option Value.Ref32) := fun '(p, h) =>
  let units := units_for_budget p budget in
  let s := pending_state p in
  if negb (p_fixed_cost_paid s) then (Err CorruptLifecycle, (p, h))
  else
    (physical_payload ← st_lift (ok_or (checked_sub (request_block_bytes (p_request s)) (payload_offset h))
                                   InvalidStoragePlan);
     _ ← (if negb (units =? 0)
          then
            bytes ← st_lift (ok_or (checked_mul u32_max units 16) AccountingOverflow);
            stop ← st_lift (ok_or (checked_add u32_max (p_initialized_bytes s) bytes) AccountingOverflow);
            let stop := Z.min stop physical_payload in
            if stop <? p_initialized_bytes s then st_panic
            else
              _ ← in_heap (zero_reserved_payload (p_reservation s) (p_initialized_bytes s)
                             (stop - p_initialized_bytes s));
              done ← st_lift (ok_or (checked_add u32_max (p_initialized_bytes s) (units * 16))
                                AccountingOverflow);
              st_modify (fun '(p, h) =>
                (set_state (set_initialized (Z.min done (p_logical_bytes s)) s) p, h))
          else if p_logical_bytes s =? 0
          then in_heap (zero_reserved_payload (p_reservation s) 0 physical_payload)
          else mret tt);
     '(p, _) ← st_get;
     let s := pending_state p in
     if p_initialized_bytes s <? p_logical_bytes s then mret (units, None)
     else
       _ ← (match p with
            | PArray _ length => in_heap (write_reserved_u32 (p_reservation s) 0 length)
            | _ => mret tt
            end);
       reference ← in_heap (commit (p_reservation s));
       mret (units, Some reference)) (p, h).

Definition pending_abort (p : PendingAllocation) : HeapM unit := abort (p_reservation (pending_state p)).

(** ** The image, as far as the collector reads it *)

Record TypeKey := mkTypeKey { tk_module : Z; tk_ty : Z }.

Record ResolvedSafepoint := mkSafepoint {
  sp_block : Z; sp_boundary : Z; sp_offsets : list Z }.

(** [value_type.kind] and [static_slot] of a [ResolvedField]. *)
Record ResolvedField := mkField { rf_kind : Z; rf_static_slot : option Z }.

Record ExecutionImage := mkImage {
  i_type_offsets : list Z;
  i_type_layouts : list RuntimeTypeLayout;
  i_type_keys : list TypeKey;
  i_fields : list ResolvedField;
  i_safepoints : list (list ResolvedSafepoint) }.

Definition checked_global_index (offsets : list Z) (key : TypeKey) : option Z :=
  start ← zget offsets (tk_module key);
  next ← checked_add usize_max (tk_module key) 1;
  stop ← zget offsets next;
  index ← checked_add usize_max start (tk_ty key);
  if index <? stop then Some index else None.

Definition type_layout (image : ExecutionImage) (key : TypeKey) : option RuntimeTypeLayout :=
  index ← checked_global_index (i_type_offsets image) key;
  zget (i_type_layouts image) index.

Definition type_key (image : ExecutionImage) (index : Z) : option TypeKey :=
  zget (i_type_keys image) index.

(** The order of the keys [(block, instruction_boundary)]. *)
Definition key_compare (s : ResolvedSafepoint) (block boundary : Z) : comparison :=
  match Z.compare (sp_block s) block with
  | Eq => Z.compare (sp_boundary s) boundary
  | c => c
  end.

(** [slice::binary_search_by]: [size] elements from [base] are left. *)
Fixpoint search_loop (fuel : nat) (l : list ResolvedSafepoint) (block boundary : Z) (base size : nat)
    : nat :=
  match fuel with
  | O => base
  | S fuel =>
      if (size <=? 1)%nat then base
      else
        let half := (size / 2)%nat in
        let mid := (base + half)%nat in
        let base := match (s ← l !! mid; Some (key_compare s block boundary)) with
                    | Some Gt => base
                    | _ => mid
                    end in
        search_loop fuel l block boundary base (size - half)
  end.

Definition binary_search (l : list ResolvedSafepoint) (block boundary : Z) : option nat :=
  match length l with
  | O => None
  | size =>
      let base := search_loop size l block boundary 0 size in
      s ← l !! base;
      match key_compare s block boundary with Eq => Some base | _ => None end
  end.

Definition safepoint_map (image : ExecutionImage) (function block boundary : Z) : option (list Z) :=
  safepoints ← zget (i_safepoints image) function;
  index ← binary_search safepoints block boundary;
  sp_offsets <$> safepoints !! index.

(** ** Roots *)

(** The fields of machine.rs's [Frame] that locate its roots. *)
Record MachineFrame := mkMachineFrame {
  mf_function : Z; mf_base : Z; mf_byte_len : Z; mf_block : Z; mf_instruction : Z }.

(** [task_failures] keeps the exceptions of the failures. *)
Record RootSet := mkRootSet {
  statics : Frame.StaticArena;
  frames : list MachineFrame;
  saved_frames : list MachineFrame;
  task_failures : list (option Value.Ref32);
  frame_arena : Frame.FrameArena;
  frame_depth : nat;
  runtime_roots : list (option Value.Ref32);
  external : ExternalRootTable }.

(** ** The collector *)

Inductive CollectorPhase := Idle | Roots | Mark | Sweep.

#[global] Instance CollectorPhase_eq : EqDecision CollectorPhase.
Proof. solve_decision. Defined.

Inductive Scan :=
| ScanObject (reference : Value.Ref32) (next : nat)
| ScanArray (reference : Value.Ref32) (next length : Z).

Record Collector := mkCollector {
  phase : CollectorPhase;
  epoch : Z;
  runtime_root : nat;
  task_failure : nat;
  external_cursor : nat;
  static_field : nat;
  frame : nat;
  saved_frame : nat;
  register : nat;
  gray : GrayQueue;
  scan : option Scan;
  sweep_offset : Z;
  sweep_previous_size : Z }.

Definition Collector_new : Collector :=
  mkCollector Idle 0 0 0 0 0 0 0 0 (mkGray None None) None 0 0.

Definition start (c : Collector) : Collector :=
  mkCollector Roots (if epoch c =? 1 then 2 else 1) 0 0 0 0 0 0 0 (mkGray None None) None 0 0.

Definition is_active (c : Collector) : bool := negb (bool_decide (phase c = Idle)).

Definition set_phase (p : CollectorPhase) (c : Collector) : Collector :=
  mkCollector p (epoch c) (runtime_root c) (task_failure c) (external_cursor c) (static_field c)
    (frame c) (saved_frame c) (register c) (gray c) (scan c) (sweep_offset c) (sweep_previous_size c).
Definition set_runtime (n : nat) (c : Collector) : Collector :=
  mkCollector (phase c) (epoch c) n (task_failure c) (external_cursor c) (static_field c)
    (frame c) (saved_frame c) (register c) (gray c) (scan c) (sweep_offset c) (sweep_previous_size c).
Definition set_failure (n : nat) (c : Collector) : Collector :=
  mkCollector (phase c) (epoch c) (runtime_root c) n (external_cursor c) (static_field c)
    (frame c) (saved_frame c) (register c) (gray c) (scan c) (sweep_offset c) (sweep_previous_size c).
Definition set_external (n : nat) (c : Collector) : Collector :=
  mkCollector (phase c) (epoch c) (runtime_root c) (task_failure c) n (static_field c)
    (frame c) (saved_frame c) (register c) (gray c) (scan c) (sweep_offset c) (sweep_previous_size c).
Definition set_field (n : nat) (c : Collector) : Collector :=
  mkCollector (phase c) (epoch c) (runtime_root c) (task_failure c) (external_cursor c) n
    (frame c) (saved_frame c) (register c) (gray c) (scan c) (sweep_offset c) (sweep_previous_size c).
Definition set_frame (f s r : nat) (c : Collector) : Collector :=
  mkCollector (phase c) (epoch c) (runtime_root c) (task_failure c) (external_cursor c) (static_field c)
    f s r (gray c) (scan c) (sweep_offset c) (sweep_previous_size c).
Definition set_gray (q : GrayQueue) (c : Collector) : Collector :=
  mkCollector (phase c) (epoch c) (runtime_root c) (task_failure c) (external_cursor c) (static_field c)
    (frame c) (saved_frame c) (register c) q (scan c) (sweep_offset c) (sweep_previous_size c).
Definition set_scan (s : option Scan) (c : Collector) : Collector :=
  mkCollector (phase c) (epoch c) (runtime_root c) (task_failure c) (external_cursor c) (static_field c)
    (frame c) (saved_frame c) (register c) (gray c) s (sweep_offset c) (sweep_previous_size c).
Definition set_sweep (off size : Z) (c : Collector) : Collector :=
  mkCollector (phase c) (epoch c) (runtime_root c) (task_failure c) (external_cursor c) (static_field c)
    (frame c) (saved_frame c) (register c) (gray c) (scan c) off size.

(** *** Enumerating the roots *)

Abbreviation CursorM := (ST Collector VmFault).

(** [rest] is what the list still holds at the cursor. *)
Fixpoint next_runtime (rest : list (option Value.Ref32)) : CursorM (option Value.RuntimeValue) :=
  match rest with
  | [] => mret None
  | r :: rest =>
      _ ← st_modify (fun c => set_runtime (S (runtime_root c)) c);
      match r with
      | Some reference => mret (Some (Value.Reference reference))
      | None => next_runtime rest
      end
  end.

Definition next_failure (failures : list (option Value.Ref32)) : CursorM (option Value.RuntimeValue) :=
  c ← st_get;
  match failures !! task_failure c with
  | None => mret None
  | Some failure =>
      _ ← st_modify (fun c => set_failure (S (task_failure c)) c);
      mret (Some (Frame.reference_value failure))
  end.

Fixpoint next_external (rest : ExternalRootTable) : CursorM (option Value.RuntimeValue) :=
  match rest with
  | [] => mret None
  | e :: rest =>
      _ ← st_modify (fun c => set_external (S (external_cursor c)) c);
      match e_value e with
      | Some reference => mret (Some (Value.Reference reference))
      | None => next_external rest
      end
  end.

Fixpoint next_static (s : Frame.StaticArena) (rest : list ResolvedField)
    : CursorM (option Value.RuntimeValue) :=
  match rest with
  | [] => mret None
  | f :: rest =>
      _ ← st_modify (fun c => set_field (S (static_field c)) c);
      match (if rf_kind f =? 7 then rf_static_slot f else None) with
      | Some slot =>
          reference ← st_lift (Frame.reference s slot);
          mret (Some (Frame.reference_value reference))
      | None => next_static s rest
      end
  end.

(** The reference offsets of a frame at its current instruction. *)
Definition frame_map (image : ExecutionImage) (f : MachineFrame) : outcome VmFault (list Z) :=
  boundary ← ok_or (try_from_unsigned u32_max (mf_instruction f)) InvalidRootMap;
  ok_or (safepoint_map image (mf_function f) (mf_block f) boundary) InvalidRootMap.

Definition read_root (a : Frame.FrameArena) (f : MachineFrame) (off : Z)
    : outcome VmFault Value.RuntimeValue :=
  reference ← Frame.read_ref32_offset a (Frame.mkFrameReservation (mf_base f) (mf_byte_len f)) off;
  mret (Frame.reference_value reference).

(** [while self.frame < roots.frame_depth]; [n] frames are left. *)
Fixpoint next_frame (image : ExecutionImage) (roots : RootSet) (n : nat)
    : CursorM (option Value.RuntimeValue) :=
  match n with
  | O => mret None
  | S n =>
      c ← st_get;
      f ← st_lift (ok_or (frames roots !! frame c) CorruptLifecycle);
      map ← st_lift (frame_map image f);
      match map !! register c with
      | Some off =>
          _ ← st_modify (set_frame (frame c) (saved_frame c) (S (register c)));
          v ← st_lift (read_root (frame_arena roots) f off);
          mret (Some v)
      | None =>
          _ ← st_modify (set_frame (S (frame c)) (saved_frame c) 0);
          next_frame image roots n
      end
  end.

Fixpoint next_saved (image : ExecutionImage) (roots : RootSet) (rest : list MachineFrame)
    : CursorM (option Value.RuntimeValue) :=
  match rest with
  | [] => mret None
  | f :: rest =>
      c ← st_get;
      if mf_function f =? usize_max
      then
        _ ← st_modify (set_frame (frame c) (S (saved_frame c)) 0);
        next_saved image roots rest
      else
        map ← st_lift (frame_map image f);
        match map !! register c with
        | Some off =>
            _ ← st_modify (set_frame (frame c) (saved_frame c) (S (register c)));
            v ← st_lift (read_root (frame_arena roots) f off);
            mret (Some v)
        | None =>
            _ ← st_modify (set_frame (frame c) (S (saved_frame c)) 0);
            next_saved image roots rest
        end
  end.

(** The first source that still yields something. *)
Definition or_else (m k : CursorM (option Value.RuntimeValue)) : CursorM (option Value.RuntimeValue) :=
  r ← m; match r with Some v => mret (Some v) | None => k end.

Definition next_root (image : ExecutionImage) (roots : RootSet) : CursorM (option Value.RuntimeValue) :=
  or_else (fun c => next_runtime (drop (runtime_root c) (runtime_roots roots)) c)
 (or_else (next_failure (task_failures roots))
 (or_else (fun c => next_external (drop (external_cursor c) (external roots)) c)
 (or_else (fun c => next_static (statics roots) (drop (static_field c) (i_fields image)) c)
 (or_else (fun c => next_frame image roots (frame_depth roots - frame c) c)
          (fun c => next_saved image roots (drop (saved_frame c) (saved_frames roots)) c))))).

(** *** Marking and sweeping *)

Abbreviation CollectM := (ST (Collector * Heap) VmFault).

Definition on_cursor {A} (m : CursorM A) : CollectM A := fun '(c, h) =>
  let '(o, c') := m c in (o, (c', h)).

(** Heap operations that thread the gray queue kept in the collector. *)
Definition on_gray {A} (m : GrayM A) : CollectM A := fun '(c, h) =>
  let '(o, (h', q)) := m (h, gray c) in (o, (set_gray q c, h')).

Definition reading {A} (f : Heap -> outcome VmFault A) : CollectM A := fun '(c, h) => (f h, (c, h)).
Definition updating (f : Collector -> Collector) : CollectM unit := fun '(c, h) => (Ok tt, (f c, h)).

Definition enqueue_value (v : Value.RuntimeValue) : CollectM unit :=
  match v with
  | Value.Reference r => on_gray (enqueue_gray r)
  | _ => mret tt
  end.

Definition scan_step (image : ExecutionImage) (s : Scan) : CollectM unit :=
  match s with
  | ScanObject r next =>
      type_id ← reading (fun h => managed_type h r);
      ty ← st_lift (ok_or (type_key image type_id) InvalidResolvedId);
      layout ← st_lift (ok_or (type_layout image ty) InvalidResolvedId);
      match layout with
      | Object layout =>
          off ← st_lift (ok_or (reference_offsets layout !! next) CorruptLifecycle);
          value ← reading (fun h => load_value h r off Ref);
          _ ← enqueue_value value;
          updating (set_scan (if (S next <? length (reference_offsets layout))%nat
                              then Some (ScanObject r (S next)) else None))
      | _ => st_err CorruptHeap
      end
  | ScanArray r next length =>
      scaled ← st_lift (ok_or (checked_mul u32_max next 4) CorruptHeap);
      off ← st_lift (ok_or (checked_add u32_max 8 scaled) CorruptHeap);
      value ← reading (fun h => load_value h r off Ref);
      _ ← enqueue_value value;
      updating (set_scan (if next + 1 <? length then Some (ScanArray r (next + 1) length) else None))
  end.

Definition mark_step (image : ExecutionImage) : CollectM unit := fun '(c, h) =>
  match scan c with
  | Some s => scan_step image s (c, h)
  | None =>
      (item ← on_gray dequeue_gray;
       match item with
       | None => updating (fun c => set_sweep 0 0 (set_phase Sweep c))
       | Some (r, type_id) =>
           ty ← st_lift (ok_or (type_key image type_id) InvalidResolvedId);
           layout ← st_lift (ok_or (type_layout image ty) InvalidResolvedId);
           match layout with
           | Object layout =>
               if (length (reference_offsets layout) =? 0)%nat then mret tt
               else updating (set_scan (Some (ScanObject r 0)))
           | Array element =>
               if decide (element = Ref)
               then
                 bs ← reading (fun h => read_payload h r 0 4);
                 let length := le_val (take 4 bs) in
                 if length =? 0 then mret tt else updating (set_scan (Some (ScanArray r 0 length)))
               else mret tt
           | NonHeap => mret tt
           end
       end) (c, h)
  end.

Definition sweep_step : CollectM unit := fun '(c, h) =>
  if sweep_offset c =? arena_bytes h then (Ok tt, (set_phase Idle c, h))
  else
    match sweep_block (sweep_offset c) (sweep_previous_size c) h with
    | (Ok (off, size), h) => (Ok tt, (set_sweep off size c, h))
    | (Err e, h) => (Err e, (c, h))
    | (Panic, h) => (Panic, (c, h))
    end.

Definition step (image : ExecutionImage) (roots : RootSet) : CollectM Z := fun '(c, h) =>
  match phase c with
  | Idle => (Ok 0, (c, h))
  | Roots =>
      (root ← on_cursor (next_root image roots);
       _ ← (match root with
            | Some root => enqueue_value root
            | None => updating (set_phase Mark)
            end);
       mret 1) (c, h)
  | Mark => (_ ← mark_step image; mret 1) (c, h)
  | Sweep => (_ ← sweep_step; mret 1) (c, h)
  end.

(** Size of the buffer [run_maintenance] gathers the runtime roots in. *)
Definition RUNTIME_ROOTS : nat := 41.

(** The loop of machine.rs's [run_maintenance]: steps while a budget lasts and
    the collector is active.  [consumed] is the machine's maintenance cost; more
    runtime roots than the buffer holds and a step that does not report one unit
    are faults.  No instruction runs between the steps of a collection, so what
    [visit_runtime_roots] finds, [runtime_roots roots], stays the same. *)
Fixpoint run_maintenance (image : ExecutionImage) (roots : RootSet) (budget : nat) (consumed : Z)
    : CollectM Z :=
  match budget with
  | O => mret consumed
  | S budget => fun '(c, h) =>
      if is_active c
      then
        match checked_add u64_max consumed 1 with
        | None => (Err AccountingOverflow, (c, h))
        | Some consumed =>
            if (RUNTIME_ROOTS <? length (runtime_roots roots))%nat then (Err InvalidStoragePlan, (c, h))
            else
              (units ← step image roots;
               if units =? 1 then run_maintenance image roots budget consumed
               else st_err CorruptLifecycle) (c, h)
        end
      else (Ok consumed, (c, h))
  end.

End Gc.
