(* ===== verification/GcInv.v ===== *)
(** The collector's invariant: the object graph a heap holds, the tricolour
    invariant of the mark phase (marked objects outside the gray queue have only
    marked successors), and the sweep. *)

From S2P Require Import Prelude Words Fields Errors Value Layout Heap HeapLists HeapInv HeapOps Frame Gc.

(** The roots of src/execution/gc.rs: [next_root] enumerates, one call at a time,
    exactly the references of the root set, source after source.  The reference
    definition [roots_of] reads every source in one go. *)

Module GcRoots.
Import Errors Gc.

Abbreviation values := (list Value.RuntimeValue).

(** ** What the sources hold, from a cursor on *)

Definition given (l : list (option Value.Ref32)) : values := Value.Reference <$> omap id l.

Fixpoint static_values (s : Frame.StaticArena) (fs : list ResolvedField) : outcome VmFault values :=
  match fs with
  | [] => Ok []
  | f :: fs =>
      match (if rf_kind f =? 7 then rf_static_slot f else None) with
      | Some slot =>
          r ← Frame.reference s slot; rest ← static_values s fs;
          Ok (Frame.reference_value r :: rest)
      | None => static_values s fs
      end
  end.

Fixpoint read_roots (a : Frame.FrameArena) (f : MachineFrame) (offs : list Z) : outcome VmFault values :=
  match offs with
  | [] => Ok []
  | off :: offs => v ← read_root a f off; rest ← read_roots a f offs; Ok (v :: rest)
  end.

Definition frame_values (image : ExecutionImage) (roots : RootSet) (reg : nat) (f : MachineFrame)
    : outcome VmFault values :=
  map ← frame_map image f; read_roots (frame_arena roots) f (drop reg map).

(** [n] frames from index [i] on, the first one from reference [reg] on. *)
Fixpoint frames_from (image : ExecutionImage) (roots : RootSet) (n i reg : nat) : outcome VmFault values :=
  match n with
  | O => Ok []
  | S n =>
      f ← ok_or (frames roots !! i) CorruptLifecycle;
      vs ← frame_values image roots reg f;
      rest ← frames_from image roots n (S i) 0;
      Ok (vs ++ rest)
  end.

(** Saved frames without a function are unused. *)
Fixpoint saved_from (image : ExecutionImage) (roots : RootSet) (reg : nat) (fs : list MachineFrame)
    : outcome VmFault values :=
  match fs with
  | [] => Ok []
  | f :: fs =>
      if mf_function f =? usize_max then saved_from image roots 0 fs
      else
        vs ← frame_values image roots reg f;
        rest ← saved_from image roots 0 fs;
        Ok (vs ++ rest)
  end.

(** All roots, in the order the collector visits them. *)
Definition roots_of (image : ExecutionImage) (roots : RootSet) : outcome VmFault values :=
  st ← static_values (statics roots) (i_fields image);
  fr ← frames_from image roots (frame_depth roots) 0 0;
  sv ← saved_from image roots 0 (saved_frames roots);
  Ok (given (runtime_roots roots) ++ (Frame.reference_value <$> task_failures roots) ++
      given (e_value <$> external roots) ++ st ++ fr ++ sv).

(** ** Iterators *)

(** From a cursor in [P], [m] yields what [f] still holds, one value per call;
    [D] holds when nothing is left. *)
Definition iterates (P : Collector -> Prop) (m : CursorM (option Value.RuntimeValue))
    (f : Collector -> outcome VmFault values) (D : Collector -> Prop) : Prop :=
  forall c vs, P c -> f c = Ok vs ->
    match vs with
    | [] => exists c', m c = (Ok None, c') /\ D c' /\ f c' = Ok []
    | v :: vs => exists c', m c = (Ok (Some v), c') /\ f c' = Ok vs
    end.

(** [m] does not change what [g] sees. *)
Definition leaves {B} (m : CursorM (option Value.RuntimeValue)) (g : Collector -> B) : Prop :=
  forall c, g (m c).2 = g c.

Definition then_values (f g : Collector -> outcome VmFault values) (c : Collector) : outcome VmFault values :=
  a ← f c; b ← g c; Ok (a ++ b).

(** One source after another: the first is exhausted ([D]) when the second one
    runs, and stays so. *)
Lemma or_else_iterates m k f g D E : iterates (fun _ => True) m f D -> iterates D k g E -> leaves m g ->
  (forall c, D c -> f c = Ok []) -> (forall c, D c -> D (k c).2) ->
  iterates (fun _ => True) (or_else m k) (then_values f g) (fun c => D c /\ E c).
Proof.
  intros Hm Hk Hg HD HDk c vs _ Hvs. unfold then_values in Hvs.
  apply outcome_bind_inv in Hvs as (a & Ha & Hvs). apply outcome_bind_inv in Hvs as (b & Hb & Hvs).
  injection Hvs as <-. specialize (Hm c a I Ha). pose proof (Hg c) as Hgc. destruct a as [|v a].
  - destruct Hm as (c1 & Hr & Hd & _). rewrite Hr in Hgc. simpl in *. rewrite <- Hgc in Hb.
    specialize (Hk c1 b Hd Hb). pose proof (HDk c1 Hd) as Hd2. unfold or_else. destruct b as [|v b].
    + destruct Hk as (c2 & Hr2 & He & Hg2). rewrite Hr2 in Hd2. simpl in Hd2. exists c2.
      rewrite (st_bind_ok _ _ _ _ _ Hr), Hr2. split_and!; try done.
      unfold then_values. by rewrite (HD _ Hd2), Hg2.
    + destruct Hk as (c2 & Hr2 & Hg2). rewrite Hr2 in Hd2. simpl in Hd2. exists c2.
      rewrite (st_bind_ok _ _ _ _ _ Hr), Hr2. split; [done|].
      unfold then_values. by rewrite (HD _ Hd2), Hg2.
  - destruct Hm as (c1 & Hr & Hf). rewrite Hr in Hgc. simpl in *. exists c1.
    unfold or_else. rewrite (st_bind_ok _ _ _ _ _ Hr). split; [done|].
    unfold then_values. by rewrite Hf, Hgc, Hb.
Qed.

(** ** The sources *)

Section Sources.
Context (image : ExecutionImage) (roots : RootSet).

Definition runtime_values (c : Collector) : outcome VmFault values :=
  Ok (given (drop (runtime_root c) (runtime_roots roots))).
Definition failure_values (c : Collector) : outcome VmFault values :=
  Ok (Frame.reference_value <$> drop (task_failure c) (task_failures roots)).
Definition external_values (c : Collector) : outcome VmFault values :=
  Ok (given (e_value <$> drop (external_cursor c) (external roots))).
Definition field_values (c : Collector) : outcome VmFault values :=
  static_values (statics roots) (drop (static_field c) (i_fields image)).
Definition frame_list (c : Collector) : outcome VmFault values :=
  frames_from image roots (frame_depth roots - frame c) (frame c) (register c).
Definition saved_list (c : Collector) : outcome VmFault values :=
  saved_from image roots (if decide (frame c < frame_depth roots)%nat then 0%nat else register c)
    (drop (saved_frame c) (saved_frames roots)).

Definition pending (c : Collector) : outcome VmFault values :=
  then_values runtime_values (then_values failure_values (then_values external_values
    (then_values field_values (then_values frame_list saved_list)))) c.

Lemma drop_step {A} (l : list A) n x rest : drop n l = x :: rest -> drop (S n) l = rest.
Proof. intros H. rewrite <- (Nat.add_1_r n), <- drop_drop, H. by rewrite drop_0 || done. Qed.

Lemma runtime_iterates : iterates (fun _ => True) (fun c => next_runtime (drop (runtime_root c) (runtime_roots roots)) c)
  runtime_values (fun c => runtime_values c = Ok []).
Proof.
  intros c vs _ [= Hvs]. unfold runtime_values. remember (drop (runtime_root c) (runtime_roots roots)) as rest eqn:E.
  revert c E. induction rest as [|r rest IH]; intros c E.
  - subst vs. exists c. rewrite <- E. done.
  - symmetry in E. pose proof (drop_step _ _ _ _ E) as E'. destruct r as [r|].
    + subst vs. exists (set_runtime (S (runtime_root c)) c). simpl. by rewrite E'.
    + apply (IH Hvs (set_runtime (S (runtime_root c)) c)). done.
Qed.

Lemma failure_iterates : iterates (fun _ => True) (next_failure (task_failures roots)) failure_values
  (fun c => failure_values c = Ok []).
Proof.
  intros c vs _ [= Hvs]. unfold failure_values, next_failure.
  rewrite (st_bind_ok _ _ _ c c) by done.
  destruct (task_failures roots !! task_failure c) as [r|] eqn:E.
  - rewrite (drop_S _ _ _ E) in Hvs. subst vs. simpl.
    by exists (set_failure (S (task_failure c)) c).
  - apply lookup_ge_None in E. rewrite drop_ge in Hvs by done. subst vs. exists c.
    rewrite drop_ge by done. done.
Qed.

Lemma external_iterates : iterates (fun _ => True) (fun c => next_external (drop (external_cursor c) (external roots)) c)
  external_values (fun c => external_values c = Ok []).
Proof.
  intros c vs _ [= Hvs]. unfold external_values. remember (drop (external_cursor c) (external roots)) as rest eqn:E.
  revert c E. induction rest as [|r rest IH]; intros c E.
  - subst vs. exists c. rewrite <- E. done.
  - symmetry in E. pose proof (drop_step _ _ _ _ E) as E'. destruct r as [g [r|]].
    + subst vs. exists (set_external (S (external_cursor c)) c). simpl. by rewrite E'.
    + apply (IH Hvs (set_external (S (external_cursor c)) c)). done.
Qed.

Lemma static_iterates : iterates (fun _ => True) (fun c => next_static (statics roots) (drop (static_field c) (i_fields image)) c)
  field_values (fun c => field_values c = Ok []).
Proof.
  intros c vs _ Hvs. unfold field_values in *. remember (drop (static_field c) (i_fields image)) as rest eqn:E.
  revert c E. induction rest as [|r rest IH]; intros c E.
  - injection Hvs as <-. exists c. rewrite <- E. done.
  - symmetry in E. pose proof (drop_step _ _ _ _ E) as E'. simpl in *.
    set (c1 := set_field (S (static_field c)) c).
    rewrite (st_bind_ok _ _ _ tt c1) by done.
    destruct (if rf_kind r =? 7 then rf_static_slot r else None) as [slot|] eqn:Es.
    + apply outcome_bind_inv in Hvs as (v & Hv & Hvs). apply outcome_bind_inv in Hvs as (tl & Htl & [= <-]).
      exists c1. rewrite (st_bind_ok _ _ _ v c1) by (unfold st_lift; by rewrite Hv).
      split; [done|]. by rewrite <- Htl, <- E'.
    + apply (IH Hvs c1). done.
Qed.

(** Reading on inside one frame. *)
Lemma frame_values_head f reg map vs : frame_map image f = Ok map -> frame_values image roots reg f = Ok vs ->
  match map !! reg with
  | Some off => exists v tl, vs = v :: tl /\ read_root (frame_arena roots) f off = Ok v /\
      frame_values image roots (S reg) f = Ok tl
  | None => vs = []
  end.
Proof.
  intros Hm Hvs. unfold frame_values in *. rewrite Hm in *. simpl in *.
  destruct (map !! reg) as [off|] eqn:E.
  - rewrite (drop_S _ _ _ E) in Hvs. simpl in Hvs.
    apply outcome_bind_inv in Hvs as (v & Hv & Hvs). apply outcome_bind_inv in Hvs as (tl & Htl & [= <-]).
    eauto.
  - apply lookup_ge_None in E. rewrite drop_ge in Hvs by done. by injection Hvs.
Qed.

Lemma frame_values_map f reg vs : frame_values image roots reg f = Ok vs -> exists map, frame_map image f = Ok map.
Proof. unfold frame_values. destruct (frame_map image f); naive_solver. Qed.

Lemma frame_iterates : iterates (fun _ => True) (fun c => next_frame image roots (frame_depth roots - frame c) c)
  frame_list (fun c => frame_depth roots <= frame c)%nat.
Proof.
  intros c vs _ Hvs. unfold frame_list in *.
  remember (frame_depth roots - frame c)%nat as n eqn:En. revert c vs Hvs En.
  induction n as [|n IH]; intros c vs Hvs En.
  - injection Hvs as <-. exists c. split_and!; [done|lia|]. by rewrite <- En.
  - cbn [frames_from next_frame] in *. rewrite (st_bind_ok _ _ _ c c) by done.
    apply outcome_bind_inv in Hvs as (f & Hf & Hvs). apply outcome_bind_inv in Hvs as (a & Ha & Hvs).
    apply outcome_bind_inv in Hvs as (rest & Hrest & [= <-]).
    rewrite (st_bind_ok _ _ _ f c) by (unfold st_lift; by rewrite Hf).
    destruct (frame_values_map _ _ _ Ha) as [map Hmap].
    rewrite (st_bind_ok _ _ _ map c) by (unfold st_lift; by rewrite Hmap).
    pose proof (frame_values_head _ _ _ _ Hmap Ha) as Hd. destruct (map !! register c) as [off|] eqn:Eo.
    + destruct Hd as (v & tl & -> & Hv & Htl). set (c1 := set_frame (frame c) (saved_frame c) (S (register c)) c).
      exists c1. rewrite (st_bind_ok _ _ _ tt c1) by done.
      rewrite (st_bind_ok _ _ _ v c1) by (unfold st_lift; by rewrite Hv).
      split; [done|]. change (frame c1) with (frame c). rewrite <- En. cbn [frames_from]. rewrite Hf. cbn [mbind outcome_bind].
      change (register c1) with (S (register c)). rewrite Htl. cbn [mbind outcome_bind]. by rewrite Hrest.
    + subst a. set (c1 := set_frame (S (frame c)) (saved_frame c) 0 c).
      rewrite (st_bind_ok _ _ _ tt c1) by done. apply (IH c1 rest); [done|]. simpl. lia.
Qed.

Lemma saved_iterates P : iterates P (fun c => next_saved image roots (drop (saved_frame c) (saved_frames roots)) c)
  (fun c => saved_from image roots (register c) (drop (saved_frame c) (saved_frames roots))) (fun _ => True).
Proof.
  intros c vs _ Hvs. remember (drop (saved_frame c) (saved_frames roots)) as fs eqn:En. revert c vs Hvs En.
  induction fs as [|f fs IH]; intros c vs Hvs En.
  - injection Hvs as <-. exists c. split_and!; [done|done|]. by rewrite <- En.
  - symmetry in En. pose proof (drop_step _ _ _ _ En) as En'.
    cbn [saved_from next_saved] in *. rewrite (st_bind_ok _ _ _ c c) by done.
    destruct (mf_function f =? usize_max) eqn:Eu.
    { set (c1 := set_frame (frame c) (S (saved_frame c)) 0 c).
      rewrite (st_bind_ok _ _ _ tt c1) by done. by apply (IH c1 vs). }
    apply outcome_bind_inv in Hvs as (a & Ha & Hvs). apply outcome_bind_inv in Hvs as (rest & Hrest & [= <-]).
    destruct (frame_values_map _ _ _ Ha) as [map Hmap].
    rewrite (st_bind_ok _ _ _ map c) by (unfold st_lift; by rewrite Hmap).
    pose proof (frame_values_head _ _ _ _ Hmap Ha) as Hd. destruct (map !! register c) as [off|] eqn:Eo.
    + destruct Hd as (v & tl & -> & Hv & Htl). set (c1 := set_frame (frame c) (saved_frame c) (S (register c)) c).
      exists c1. rewrite (st_bind_ok _ _ _ tt c1) by done.
      rewrite (st_bind_ok _ _ _ v c1) by (unfold st_lift; by rewrite Hv).
      split; [done|]. change (saved_frame c1) with (saved_frame c). rewrite En. cbn [saved_from]. rewrite Eu.
      change (register c1) with (S (register c)). rewrite Htl. cbn [mbind outcome_bind]. by rewrite Hrest.
    + subst a. set (c1 := set_frame (frame c) (S (saved_frame c)) 0 c).
      rewrite (st_bind_ok _ _ _ tt c1) by done. by apply (IH c1 rest).
Qed.

(** ** What each source leaves alone *)

Lemma next_runtime_leaves {B} (g : Collector -> B) rest :
  (forall n c, g (set_runtime n c) = g c) -> leaves (next_runtime rest) g.
Proof.
  intros Hg. induction rest as [|r rest IH]; intros c; [done|]. cbn [next_runtime].
  rewrite (st_bind_ok _ _ _ tt (set_runtime (S (runtime_root c)) c)) by done.
  destruct r; [apply Hg|]. by rewrite IH.
Qed.

Lemma next_failure_leaves {B} (g : Collector -> B) l :
  (forall n c, g (set_failure n c) = g c) -> leaves (next_failure l) g.
Proof.
  intros Hg c. unfold next_failure. rewrite (st_bind_ok _ _ _ c c) by done. destruct (l !! _); [apply Hg|done].
Qed.

Lemma next_external_leaves {B} (g : Collector -> B) rest :
  (forall n c, g (set_external n c) = g c) -> leaves (next_external rest) g.
Proof.
  intros Hg. induction rest as [|r rest IH]; intros c; [done|]. cbn [next_external].
  rewrite (st_bind_ok _ _ _ tt (set_external (S (external_cursor c)) c)) by done.
  destruct (e_value r); [apply Hg|]. by rewrite IH.
Qed.

Lemma next_static_leaves {B} (g : Collector -> B) s rest :
  (forall n c, g (set_field n c) = g c) -> leaves (next_static s rest) g.
Proof.
  intros Hg. induction rest as [|r rest IH]; intros c; [done|]. cbn [next_static].
  rewrite (st_bind_ok _ _ _ tt (set_field (S (static_field c)) c)) by done.
  destruct (if _ =? 7 then _ else None) as [slot|]; [|by rewrite IH].
  unfold mbind, ST_bind, st_lift. destruct (Frame.reference s slot); apply Hg.
Qed.

Lemma next_frame_leaves {B} (g : Collector -> B) n :
  (forall f s r c, g (set_frame f s r c) = g c) -> leaves (next_frame image roots n) g.
Proof.
  intros Hg. induction n as [|n IH]; intros c; [done|]. cbn [next_frame].
  rewrite (st_bind_ok _ _ _ c c) by done. unfold st_lift. unfold mbind at 1, ST_bind at 1.
  destruct (ok_or _ _) as [f| |]; [|done|done]. unfold mbind at 1, ST_bind at 1.
  destruct (frame_map image f) as [map| |]; [|done|done]. destruct (map !! register c).
  - unfold mbind, ST_bind, st_modify. destruct (read_root _ _ _); apply Hg.
  - unfold mbind, ST_bind, st_modify. rewrite IH. apply Hg.
Qed.

Lemma next_saved_leaves {B} (g : Collector -> B) fs :
  (forall s r c, g (set_frame (frame c) s r c) = g c) -> leaves (next_saved image roots fs) g.
Proof.
  intros Hg. induction fs as [|f fs IH]; intros c; [done|]. cbn [next_saved].
  rewrite (st_bind_ok _ _ _ c c) by done. destruct (_ =? usize_max).
  { unfold mbind, ST_bind, st_modify. rewrite IH. apply Hg. }
  unfold st_lift. unfold mbind at 1, ST_bind at 1.
  destruct (frame_map image f) as [map| |]; [|done|done]. destruct (map !! register c).
  - unfold mbind, ST_bind, st_modify. destruct (read_root _ _ _); apply Hg.
  - unfold mbind, ST_bind, st_modify. rewrite IH. apply Hg.
Qed.

(** While frames remain, the register belongs to the current one. *)
Lemma next_frame_saved : leaves (fun c => next_frame image roots (frame_depth roots - frame c) c) saved_list.
Proof.
  intros c. remember (frame_depth roots - frame c)%nat as n eqn:En. revert c En.
  induction n as [|n IH]; intros c En; [done|]. cbn [next_frame].
  rewrite (st_bind_ok _ _ _ c c) by done. unfold st_lift. unfold mbind at 1, ST_bind at 1.
  destruct (ok_or _ _) as [f| |]; [|done|done]. unfold mbind at 1, ST_bind at 1.
  destruct (frame_map image f) as [map| |]; [|done|done].
  destruct (map !! register c); unfold mbind, ST_bind, st_modify.
  - unfold saved_list. destruct (read_root _ _ _); simpl; rewrite !decide_True by lia; done.
  - rewrite IH by (simpl; lia). unfold saved_list. simpl. rewrite (decide_True (P := (frame c < _)%nat)) by lia.
    by destruct (decide _).
Qed.

Lemma leaves_or_else {B} (g : Collector -> B) m k : leaves m g -> leaves k g -> leaves (or_else m k) g.
Proof.
  intros Hm Hk c. unfold or_else, mbind, ST_bind. pose proof (Hm c) as H. destruct (m c) as [[[v|]|e|] c1]; simpl in *;
    [done| |done|done]. by rewrite Hk.
Qed.

(** ** The whole enumeration *)

(** [next_root] only moves the cursors. *)
Lemma next_root_leaves {B} (g : Collector -> B) :
  (forall n c, g (set_runtime n c) = g c) -> (forall n c, g (set_failure n c) = g c) ->
  (forall n c, g (set_external n c) = g c) -> (forall n c, g (set_field n c) = g c) ->
  (forall f s r c, g (set_frame f s r c) = g c) -> leaves (next_root image roots) g.
Proof.
  intros. unfold next_root. repeat apply leaves_or_else; intros c.
  - by apply next_runtime_leaves.
  - by apply next_failure_leaves.
  - by apply next_external_leaves.
  - by apply next_static_leaves.
  - by apply next_frame_leaves.
  - by apply next_saved_leaves.
Qed.

Lemma then_leaves m f g : leaves m f -> leaves m g -> leaves m (then_values f g).
Proof. intros Hf Hg c. unfold then_values. by rewrite Hf, Hg. Qed.

(** A source whose cursor nothing behind it moves. *)
Lemma chain_iterates m k f g E : iterates (fun _ => True) m f (fun c => f c = Ok []) ->
  iterates (fun _ => True) k g E -> leaves m g -> leaves k f ->
  iterates (fun _ => True) (or_else m k) (then_values f g) (fun _ => True).
Proof.
  intros Hm Hk Hg Hf c vs Hc Hvs.
  assert (H := or_else_iterates m k f g (fun c => f c = Ok []) E Hm (fun c vs _ => Hk c vs I) Hg (fun _ H => H)
    (fun c Hd => eq_trans (Hf c) Hd) c vs Hc Hvs).
  destruct vs; naive_solver.
Qed.

(** The other sources do not depend on the cursor [lem] is about. *)
Ltac leave_all lem := repeat apply then_leaves; intros c; apply lem; done.

(** The sources behind do not touch this one. *)
Ltac stay := repeat apply leaves_or_else; intros c;
  first [ by apply next_failure_leaves | by apply next_external_leaves | by apply next_static_leaves
        | by apply next_frame_leaves | by apply next_saved_leaves ].

Lemma next_root_iterates : iterates (fun _ => True) (next_root image roots) pending (fun _ => True).
Proof.
  assert (H5 : iterates (fun _ => True)
    (or_else (fun c => next_frame image roots (frame_depth roots - frame c) c)
      (fun c => next_saved image roots (drop (saved_frame c) (saved_frames roots)) c))
    (then_values frame_list saved_list) (fun c => (frame_depth roots <= frame c)%nat /\ True)).
  { apply or_else_iterates.
    - apply frame_iterates.
    - intros c vs Hc Hvs. unfold saved_list in *. rewrite decide_False in Hvs by lia.
      pose proof (saved_iterates (fun _ => True) c vs I Hvs) as H.
      assert (Hd : (frame_depth roots <= frame (next_saved image roots (drop (saved_frame c) (saved_frames roots)) c).2)%nat)
        by (rewrite (next_saved_leaves frame) by done; done).
      destruct vs; destruct H as (c' & Hr & H); rewrite Hr in Hd; simpl in Hd; exists c';
        rewrite (decide_False (P := (frame c' < _)%nat)) by lia; done.
    - apply next_frame_saved.
    - intros c Hc. unfold frame_list. by replace (frame_depth roots - frame c)%nat with 0%nat by lia.
    - intros c Hc. by rewrite (next_saved_leaves frame). }
  unfold next_root. eapply (chain_iterates _ _ _ _ _ runtime_iterates);
    [|leave_all @next_runtime_leaves|stay].
  eapply (chain_iterates _ _ _ _ _ failure_iterates); [|leave_all @next_failure_leaves|stay].
  eapply (chain_iterates _ _ _ _ _ external_iterates); [|leave_all @next_external_leaves|stay].
  eapply (chain_iterates _ _ _ _ _ static_iterates); [|leave_all @next_static_leaves|stay].
  exact H5.
Qed.

(** A fresh collector enumerates [roots_of]. *)
Lemma pending_start c : pending (start c) = roots_of image roots.
Proof.
  unfold pending, then_values, roots_of, runtime_values, failure_values, external_values, field_values, frame_list,
    saved_list. cbn [start runtime_root task_failure external_cursor static_field frame saved_frame register].
  rewrite !drop_0, Nat.sub_0_r. cbn [mbind outcome_bind].
  destruct (static_values _ _) as [st| |]; cbn [mbind outcome_bind]; [|done|done].
  destruct (frames_from _ _ _ _ _) as [fr| |]; cbn [mbind outcome_bind]; [|done|done].
  replace (if decide (0 < frame_depth roots)%nat then 0%nat else 0%nat) with 0%nat by (by destruct (decide _)).
  destruct (saved_from _ _ _ _) as [sv| |]; cbn [mbind outcome_bind]; [|done|done]. done.
Qed.

End Sources.
End GcRoots.

(** The heap's side of a collection: what [enqueue_gray], [dequeue_gray] and
    [sweep_block] of src/execution/heap.rs do to the block sequence.  While the
    collector marks, the predecessor field of a block holds a link of the gray
    queue, so the invariant is used with the cut at [-1]; the sweep moves the cut
    forwards and restores the field block by block. *)

Module GcHeap.
Import Errors Layout Heap HeapView HeapClass HeapLists HeapInv HeapOps.

(** ** Rewriting one header *)

Lemma seg_recut h cut cut' off prev B : seg h cut off prev B ->
  (forall x k, at_off off B x k -> x <= cut' -> x <= cut) -> seg h cut' off prev B.
Proof.
  revert off prev. induction B as [|k B IH]; intros off prev; [done|].
  intros (? & ? & Hp & ? & ? & H) Hc. simpl. split_and!; try done.
  - intros Hle. apply Hp, (Hc off k); [by left|done].
  - apply IH; [done|]. intros x k' Hx. apply (Hc x k'). by right.
Qed.

Lemma heap_recut cut cut' h B L : heap_ok cut h B L ->
  (forall x k, at_off 0 B x k -> x <= cut' -> x <= cut) -> heap_ok cut' h B L.
Proof. intros [] Hc. constructor; try done. by eapply seg_recut. Qed.

Lemma ok_geom cut h B L : heap_ok cut h B L -> geom h.
Proof. intros Hok. apply (l_geom _ _ _ (k_lists _ _ _ _ Hok)). Qed.

Lemma ok_all cut h B L : heap_ok cut h B L -> all_ok B.
Proof. intros Hok. eapply seg_all_ok, Hok. Qed.

(** The bytes [x, x + 8) of a block's header meet no other block. *)
Lemma header_apart B x k x' k' i : all_ok B -> at_off 0 B x k -> at_off 0 B x' k' -> x <> x' ->
  rng x 0 8 i -> ~ rng x' 0 (b_size k') i.
Proof.
  intros Hall Hx Hx' Hne. pose proof (at_ok _ _ _ _ Hall Hx) as (? & _).
  destruct (at_sep _ _ _ _ _ _ Hall Hx Hx') as [[? _]|Hd]; [done|]. unfold rng. lia.
Qed.

Section Header.
Context (cut : Z) (h h' : Heap) (B : list blk) (L : list (list Z)) (x : Z) (k : blk).
Context (Hok : heap_ok cut h B L) (Hx : at_off 0 B x k) (Ht : touch (rng x 0 8) h h').

Lemma others_header y ky : at_off 0 B y ky -> y <> x -> same_header h h' y.
Proof using Hok Hx Ht.
  intros Hy Hne. pose proof (ok_all _ _ _ _ Hok) as Hall.
  pose proof (at_range _ _ _ _ Hall Hy). pose proof (at_ok _ _ _ _ Hall Hy) as (? & _).
  eapply touch_header; [by eapply ok_geom|done|lia|]. intros i Hi Hp.
  apply (header_apart B x k y ky i Hall Hx Hy); [done|done|]. unfold rng in *. lia.
Qed.

Lemma header_pay : vtype h' x = vtype h x -> pay_kept h h' 0 B.
Proof using Hok Hx Ht.
  intros Hty y ky Hy Hf. pose proof (ok_all _ _ _ _ Hok) as Hall. pose proof (ok_geom _ _ _ _ Hok) as Hg.
  pose proof (at_range _ _ _ _ Hall Hy). pose proof (at_ok _ _ _ _ Hall Hy) as (? & _).
  destruct (decide (y = x)) as [->|Hne].
  - split; [done|]. eapply touch_slice; [done|done|lia|]. intros i Hi. unfold rng. lia.
  - assert (Ha : forall i, rng y 0 (b_size ky) i -> ~ rng x 0 8 i).
    { intros i Hi Hp. by apply (header_apart B x k y ky i Hall Hx Hy). }
    split; [eapply touch_type|eapply touch_slice]; try done; try lia; intros i Hi; apply Ha;
      unfold rng in *; lia.
Qed.

Lemma header_links : same_links h h' x.
Proof using Hok Hx Ht.
  pose proof (ok_all _ _ _ _ Hok) as Hall. pose proof (at_range _ _ _ _ Hall Hx).
  eapply touch_links; [by eapply ok_geom|done|lia|]. intros i Hi. unfold rng in *. lia.
Qed.

Lemma others_links y ky : at_off 0 B y ky -> y <> x -> same_links h h' y.
Proof using Hok Hx Ht.
  intros Hy Hne. pose proof (ok_all _ _ _ _ Hok) as Hall.
  pose proof (at_range _ _ _ _ Hall Hy). pose proof (at_ok _ _ _ _ Hall Hy) as (? & _).
  eapply touch_links; [by eapply ok_geom|done|lia|]. intros i Hi Hp.
  apply (header_apart B x k y ky i Hall Hx Hy); [done|done|]. unfold rng in *. lia.
Qed.
End Header.

(** A header write that keeps the size and whether the block is free. *)
Lemma rehead cut cut' h h' B1 s f f' B2 L :
  heap_ok cut h (B1 ++ mkBlk s f :: B2) L -> touch (rng (sizes B1) 0 8) h h' ->
  (f = 0 <-> f' = 0) -> flags_ok f' -> Z.land f' LIVE = Z.land f LIVE ->
  vsize h' (sizes B1) = s -> vflags h' (sizes B1) = f' -> vtype h' (sizes B1) = vtype h (sizes B1) ->
  (sizes B1 <= cut' -> vprev h' (sizes B1) = last_size 0 B1) ->
  (forall y, y <> sizes B1 -> y <= cut' -> y <= cut) ->
  heap_ok cut' h' (B1 ++ mkBlk s f' :: B2) L /\ pay_kept h h' 0 (B1 ++ mkBlk s f :: B2).
Proof.
  intros Hok Ht Hz Hf Hl Vs Vf Vt Vp Hc.
  pose proof (at_mid 0 B1 (mkBlk s f) B2) as Hx. rewrite Z.add_0_l in Hx.
  pose proof (ok_all _ _ _ _ Hok) as Hall. pose proof (ok_geom _ _ _ _ Hok) as Hg.
  assert (Hfree : is_free (mkBlk s f') = is_free (mkBlk s f)).
  { unfold is_free. simpl. destruct (Z.eqb_spec f 0), (Z.eqb_spec f' 0); naive_solver. }
  split; [|exact (header_pay _ _ _ _ _ _ _ Hok Hx Ht Vt)].
  assert (Hoth : forall y ky, at_off 0 (B1 ++ mkBlk s f :: B2) y ky -> y <> sizes B1 -> same_header h h' y)
    by exact (others_header _ _ _ _ _ _ _ Hok Hx Ht).
  destruct (pos_ok _ _ _ _ _ _ Hok) as (H1 & H2 & Hs & _). simpl in Hs.
  apply size_ok_true in Hs as Hs'. pose proof (k_seg _ _ _ _ Hok) as Hseg.
  apply seg_app in Hseg as [Hseg1 (_ & _ & _ & _ & _ & Hseg2)]. simpl in Hseg2. rewrite Z.add_0_l in Hseg2.
  assert (Hk1 : hdr_kept h h' 0 B1).
  { intros y ky Hy. apply (Hoth y ky); [apply at_app; by left|].
    pose proof (at_ok _ _ _ _ H1 Hy) as (? & _). apply at_range in Hy; [lia|done]. }
  assert (Hk2 : hdr_kept h h' (sizes B1 + s) B2).
  { intros y ky Hy. apply (Hoth y ky); [apply at_app; right; right; by rewrite Z.add_0_l|].
    apply at_range in Hy; [lia|done]. }
  assert (Hall' : all_ok (mkBlk s f' :: B2)) by by constructor.
  constructor.
  - replace (free_map 0 (B1 ++ mkBlk s f' :: B2)) with (free_map 0 (B1 ++ mkBlk s f :: B2)).
    2:{ rewrite (pos_free_map _ _ _ _ _ _ Hok), free_map_mid, Hfree by done. done. }
    eapply lists_same; [apply Hok|done|]. intros y t Hy. apply at_free in Hy; [|done].
    destruct (decide (y = sizes B1)) as [->|Hne].
    + destruct (pos_seg _ _ _ _ _ _ Hok) as (_ & E & _). simpl in E. split; [congruence|].
      exact (header_links _ _ _ _ _ _ _ Hok Hx Ht).
    + split; [by apply (Hoth _ _ Hy)|exact (others_links _ _ _ _ _ _ _ Hok Hx Ht _ _ Hy Hne)].
  - apply seg_app. rewrite Z.add_0_l. split; [|split_and!; try done].
    + eapply seg_recut; [by eapply seg_kept|]. intros y ky Hy. apply Hc.
      pose proof (at_ok _ _ _ _ H1 Hy) as (? & _). apply at_range in Hy; [lia|done].
    + eapply seg_recut; [by eapply seg_kept|]. simpl. intros y ky Hy. apply Hc.
      apply at_range in Hy; [lia|done].
  - pose proof (k_sum _ _ _ _ Hok) as Hsum. rewrite sizes_app in *. rewrite (touch_size _ _ _ Ht). exact Hsum.
  - eapply coalesced_replace; [apply Hok|]. by rewrite Hfree.
  - pose proof (k_total _ _ _ _ Hok) as Htot. rewrite free_sum_app in *. simpl in *.
    by rewrite (touch_total _ _ _ Ht), Hfree.
  - pose proof (k_live _ _ _ _ Hok) as Hlive. rewrite live_count_app in *. cbn [live_count] in *.
    unfold is_live in *. cbn [b_flags] in *. by rewrite (touch_live _ _ _ Ht), Hl.
Qed.

(** ** Marks

    [paint M] is the block sequence in which the live blocks of [M] carry the
    mark. *)

Definition painted (M : gset Z) (x : Z) (k : blk) : blk :=
  mkBlk (b_size k) (if is_live k && bool_decide (x ∈ M) then 7 else b_flags k).

Fixpoint paint (M : gset Z) (off : Z) (B : list blk) : list blk :=
  match B with
  | [] => []
  | k :: B => painted M off k :: paint M (off + b_size k) B
  end.

(** Free and live blocks only: no reservation is open and nothing is marked. *)
Definition clean (B : list blk) : Prop := Forall (fun k => b_flags k = 0 \/ b_flags k = 5) B.

Lemma painted_live M x k : is_live (painted M x k) = is_live k.
Proof.
  unfold painted, is_live. simpl. destruct (Z.land (b_flags k) LIVE =? 0) eqn:E; simpl; [by rewrite E|].
  case_bool_decide; [done|by rewrite E].
Qed.

Lemma painted_free M x k : is_free (painted M x k) = is_free k.
Proof.
  unfold painted, is_free, is_live. simpl. destruct (Z.eqb_spec (b_flags k) 0) as [->|]; [done|].
  destruct (_ && _); [done|]. by apply Z.eqb_neq.
Qed.

Lemma sizes_paint M off B : sizes (paint M off B) = sizes B.
Proof. revert off. induction B as [|k B IH]; intros off; simpl; [done|]. by rewrite IH. Qed.

Lemma paint_app M off B1 B2 : paint M off (B1 ++ B2) = paint M off B1 ++ paint M (off + sizes B1) B2.
Proof.
  revert off. induction B1 as [|k B1 IH]; intros off; simpl; [by rewrite Z.add_0_r|].
  by rewrite IH, Z.add_assoc.
Qed.

Lemma paint_mid M B1 k B2 : paint M 0 (B1 ++ k :: B2) =
  paint M 0 B1 ++ painted M (sizes B1) k :: paint M (sizes B1 + b_size k) B2.
Proof. rewrite paint_app. simpl. by rewrite Z.add_0_l. Qed.

Lemma at_paint M off B x k' :
  at_off off (paint M off B) x k' <-> exists k, at_off off B x k /\ k' = painted M x k.
Proof.
  revert off. induction B as [|k B IH]; intros off; simpl; [naive_solver|].
  rewrite IH. naive_solver.
Qed.

Lemma paint_ext M M' off B : (forall x k, at_off off B x k -> x ∈ M <-> x ∈ M') ->
  paint M off B = paint M' off B.
Proof.
  revert off. induction B as [|k B IH]; intros off H; simpl; [done|]. f_equal.
  - unfold painted. rewrite (bool_decide_ext (off ∈ M) (off ∈ M')); [done|]. apply (H off k). by left.
  - apply IH. intros x k' Hx. apply (H x k'). by right.
Qed.

Lemma paint_empty off B : paint ∅ off B = B.
Proof.
  revert off. induction B as [|k B IH]; intros off; simpl; [done|]. rewrite IH.
  unfold painted. rewrite bool_decide_eq_false_2 by set_solver. rewrite andb_false_r. by destruct k.
Qed.

Lemma pay_kept_paint M h h' off B : pay_kept h h' off (paint M off B) <-> pay_kept h h' off B.
Proof.
  unfold pay_kept. setoid_rewrite at_paint. split.
  - intros H x k Hx Hf. apply (H x (painted M x k)); [by eexists|]. by rewrite painted_free.
  - intros H x ? (k & Hx & ->) Hf. rewrite painted_free in Hf. by apply (H x k).
Qed.

Lemma clean_live B x k : clean B -> at_off 0 B x k -> is_live k = true -> b_flags k = 5.
Proof.
  intros Hc Hx Hl. apply at_split in Hx as (B1 & B2 & -> & _). apply Forall_app in Hc as [_ Hc].
  apply Forall_inv in Hc as [E|E]; [|done]. unfold is_live in Hl. by rewrite E in Hl.
Qed.

(** ** The gray queue *)

(** The predecessor fields of [Q] link its blocks in order. *)
Fixpoint chain (h : Heap) (Q : list Z) : Prop :=
  match Q with
  | [] => True
  | x :: Q =>
      vprev h x = match Q with [] => null_link h | y :: _ => y + OBJECT_TYPE_ID end /\ chain h Q
  end.

Record gray_queue (h : Heap) (Q : list Z) (q : GrayQueue) : Prop := {
  q_head : gray_head q = (fun x => x + OBJECT_TYPE_ID) <$> head Q;
  q_tail : gray_tail q = (fun x => x + OBJECT_TYPE_ID) <$> last Q;
  q_chain : chain h Q }.

Lemma chain_ext h h' Q : header_format h' = header_format h ->
  (forall x, x ∈ Q -> vprev h' x = vprev h x) -> chain h Q -> chain h' Q.
Proof.
  intros Hf. induction Q as [|x Q IH]; intros Hv; [done|]. intros [Hx HQ]. split.
  - rewrite Hv by left. rewrite Hx. destruct Q; [|done]. unfold null_link. by rewrite Hf.
  - apply IH; [|done]. intros y Hy. apply Hv. by right.
Qed.

(** Appending [x] behind [y]: only the links of these two change. *)
Lemma chain_append h h' Q x : header_format h' = header_format h -> NoDup Q -> chain h Q ->
  (forall z, z ∈ Q -> last Q <> Some z -> vprev h' z = vprev h z) ->
  (forall y, last Q = Some y -> vprev h' y = x + OBJECT_TYPE_ID) ->
  vprev h' x = null_link h -> chain h' (Q ++ [x]).
Proof.
  intros Hf. assert (Hn : null_link h' = null_link h) by (unfold null_link; by rewrite Hf).
  induction Q as [|z Q IH]; intros Hd Hc Hv Hl Hx; simpl; [by rewrite Hn|].
  destruct Hc as [Hz HQ]. apply NoDup_cons in Hd as [Hnz Hd]. destruct Q as [|z' Q].
  - simpl. rewrite Hn. split_and!; [by apply Hl|done|done].
  - rewrite last_cons_cons in *. split.
    + rewrite Hv, Hz; [done|left|]. intros E. apply Hnz. by eapply last_Some_elem_of.
    + apply IH; try done. intros y Hy. apply Hv. by right.
Qed.

(** Writing the link field of any block. *)
Lemma relink h B L y k v : heap_ok (-1) h B L -> at_off 0 B y k -> link_ok h v \/ v = NULL_OFFSET ->
  exists h', write_previous_or_gray y v h = (Ok tt, h') /\ heap_ok (-1) h' B L /\
    pay_kept h h' 0 B /\ header_format h' = header_format h /\ arena_bytes h' = arena_bytes h /\
    vprev h' y = (if v =? NULL_OFFSET then null_link h else v) /\
    (forall z kz, at_off 0 B z kz -> z <> y -> vprev h' z = vprev h z).
Proof.
  intros Hok Hy Hv. pose proof Hy as Hy'. apply at_split in Hy' as (B1 & B2 & -> & ->).
  rewrite Z.add_0_l in *. pose proof (pos_bo _ _ _ _ _ _ Hok) as Hbo. pose proof (ok_geom _ _ _ _ Hok) as Hg.
  destruct (write_prev_gen h (sizes B1) v Hg Hbo Hv) as (h' & Hrun & Ht & Vp & Vs & Vf & _ & Vt).
  destruct (pos_seg _ _ _ _ _ _ Hok) as (_ & Es & Ef & _).
  destruct (pos_ok _ _ _ _ _ _ Hok) as (_ & _ & _ & Hf). destruct k as [s f]. simpl in *.
  destruct (rehead (-1) (-1) h h' B1 s f f B2 L) as [Hok' Hp]; try done; try congruence.
  { pose proof Hbo as (? & _). lia. }
  exists h'. split_and!; try done; [by eapply touch_fmt|by eapply touch_size|].
  intros z kz Hz Hne. destruct (others_header _ _ _ _ _ _ _ Hok Hy Ht z kz Hz Hne) as (_ & _ & E). done.
Qed.

(** A managed reference names its block. *)
Lemma managed_ref r : Value.domain r = Value.Managed ->
  r = ref_of (Value.payload r - OBJECT_TYPE_ID).
Proof.
  intros Hd. rewrite Value.domain_div in Hd. rewrite Value.payload_mod.
  destruct r as [b]. unfold ref_of. cbn [Value.bits] in *. f_equal.
  destruct (Z.eqb_spec (b / 2 ^ 30) 0) as [E|_];
    [|by destruct (b / 2 ^ 30 =? 1); [|destruct (b / 2 ^ 30 =? 2)]].
  rewrite Z.mod_small; [lia|]. Z.to_euclidean_division_equations. lia.
Qed.

(** The blocks of the queue are live and marked. *)
Definition all_marked (B : list blk) (M : gset Z) (Q : list Z) : Prop :=
  forall y, y ∈ Q -> y ∈ M /\ exists k, at_off 0 B y k /\ is_live k = true.

Lemma link_of_block cut h B L x k : heap_ok cut h B L -> at_off 0 B x k -> link_ok h (x + OBJECT_TYPE_ID).
Proof.
  intros Hok Hx. apply at_split in Hx as (B1 & B2 & -> & ->).
  destruct (pos_bo _ _ _ _ _ _ Hok) as (? & ? & ?). unfold link_ok, OBJECT_TYPE_ID, BLOCK_HEADER_BYTES.
  split; [lia|]. Z.to_euclidean_division_equations. lia.
Qed.

Section Queue.
Context (B0 : list blk) (Hclean : clean B0) (L : list (list Z)).

Lemma live_at h M x k : heap_ok (-1) h (paint M 0 B0) L -> at_off 0 B0 x k -> is_live k = true ->
  live_block h (ref_of x) = Ok x /\ read_flags h x = Ok (if decide (x ∈ M) then 7 else 5) /\
  bo h x /\ vsize h x = b_size k.
Proof using Hclean.
  intros Hok Hx Hl. assert (Hxp : at_off 0 (paint M 0 B0) x (painted M x k)) by (apply at_paint; eauto).
  pose proof (live_block_at _ _ _ _ _ _ Hok Hxp) as Hb. rewrite painted_live, Hl in Hb.
  pose proof (clean_live _ _ _ Hclean Hx Hl) as Hf.
  pose proof (ok_geom _ _ _ _ Hok) as Hg.
  apply at_split in Hxp as (B1 & B2 & E & ->). rewrite E in Hok. rewrite Z.add_0_l in *.
  pose proof (pos_bo _ _ _ _ _ _ Hok) as Hbo. destruct (pos_seg _ _ _ _ _ _ Hok) as (_ & Vs & Vf & _).
  split_and!; try done; try apply Hbo. rewrite read_flags_view, Vf by done. unfold painted. simpl.
  rewrite Hl, Hf. simpl. case_bool_decide; by case_decide.
Qed.

(** Setting the mark. *)
Lemma mark_block h M x k : heap_ok (-1) h (paint M 0 B0) L -> at_off 0 B0 x k -> is_live k = true ->
  x ∉ M -> exists h', write_flags x 7 h = (Ok tt, h') /\
    heap_ok (-1) h' (paint ({[x]} ∪ M) 0 B0) L /\ pay_kept h h' 0 B0 /\
    header_format h' = header_format h /\
    (forall z kz, at_off 0 B0 z kz -> vprev h' z = vprev h z).
Proof using Hclean.
  intros Hok Hx Hl Hm. destruct (live_at _ _ _ _ Hok Hx Hl) as (_ & _ & Hbo & _).
  pose proof (ok_geom _ _ _ _ Hok) as Hg. pose proof (clean_live _ _ _ Hclean Hx Hl) as Hf.
  destruct (write_flags_spec h x 7 Hg Hbo) as (h' & Hrun & Ht & Vf & Vs & Vp & _ & Vt); [lia|].
  exists h'. split; [done|].
  assert (Hxp : at_off 0 (paint M 0 B0) x (painted M x k)) by (apply at_paint; eauto).
  assert (Hpv : forall z kz, at_off 0 B0 z kz -> vprev h' z = vprev h z).
  { intros z kz Hz. destruct (decide (z = x)) as [->|Hne]; [done|].
    assert (Hzp : at_off 0 (paint M 0 B0) z (painted M z kz)) by (apply at_paint; eauto).
    by destruct (others_header _ _ _ _ _ _ _ Hok Hxp Ht _ _ Hzp Hne) as (_ & _ & ?). }
  clear Hxp. apply at_split in Hx as (B1 & B2 & -> & ->). rewrite Z.add_0_l in *.
  pose proof (ok_all _ _ _ _ Hok) as Hall. rewrite paint_mid in Hok, Hall. destruct k as [s f]. simpl in Hf. subst f.
  assert (E : painted M (sizes B1) (mkBlk s 5) = mkBlk s 5).
  { unfold painted. simpl. by rewrite bool_decide_eq_false_2. }
  rewrite E in *. simpl b_size in *.
  assert (E' : paint ({[sizes B1]} ∪ M) 0 (B1 ++ mkBlk s 5 :: B2) =
    paint M 0 B1 ++ mkBlk s 7 :: paint M (sizes B1 + s) B2).
  { apply Forall_app in Hall as [H1 H2]. apply Forall_cons in H2 as [[Hs _] H2]. apply size_ok_true in Hs.
    rewrite paint_mid. simpl b_size. f_equal; [|f_equal].
    - apply paint_ext. intros y ky Hy.
      assert (Hyp : at_off 0 (paint M 0 B1) y (painted M y ky)) by (apply at_paint; eauto).
      pose proof (at_ok _ _ _ _ H1 Hyp) as (? & _). apply at_range in Hyp; [|done]. rewrite sizes_paint in Hyp.
      assert (y <> sizes B1) by lia. set_solver.
    - unfold painted. simpl. by rewrite bool_decide_eq_true_2 by set_solver.
    - apply paint_ext. intros y ky Hy.
      assert (Hyp : at_off (sizes B1 + s) (paint M (sizes B1 + s) B2) y (painted M y ky)) by (apply at_paint; eauto).
      apply at_range in Hyp; [|done]. assert (y <> sizes B1) by (simpl in Hs; lia). set_solver. }
  rewrite E'. pose proof (sizes_paint M 0 B1) as Hsz. rewrite <- Hsz in Ht, Vf, Vs, Vt.
  destruct (pos_seg _ _ _ _ _ _ Hok) as (_ & Es & _). simpl in Es.
  destruct (rehead (-1) (-1) h h' (paint M 0 B1) s 5 7 (paint M (sizes B1 + s) B2) L) as [Hok' Hp];
    try done; try (rewrite ?Hsz in *; congruence).
  { by right; right; right. }
  { destruct Hbo as (? & _). rewrite Hsz. lia. }
  split_and!; try done; [|by eapply touch_fmt].
  apply (pay_kept_paint M). by rewrite paint_mid, E.
Qed.

Lemma ref_parts h M x k : heap_ok (-1) h (paint M 0 B0) L -> at_off 0 B0 x k -> is_live k = true ->
  Value.managed (x + OBJECT_TYPE_ID) = Some (ref_of x) /\
  Value.payload (ref_of x) = x + OBJECT_TYPE_ID /\ Value.domain (ref_of x) = Value.Managed.
Proof using Hclean.
  intros Hok Hx Hl. destruct (live_at _ _ _ _ Hok Hx Hl) as (_ & _ & Hbo & _).
  apply (ref_of_managed h); [by eapply ok_geom|done].
Qed.

Lemma relink_live h M y k v : heap_ok (-1) h (paint M 0 B0) L -> at_off 0 B0 y k ->
  link_ok h v \/ v = NULL_OFFSET ->
  exists h', write_previous_or_gray y v h = (Ok tt, h') /\ heap_ok (-1) h' (paint M 0 B0) L /\
    pay_kept h h' 0 B0 /\ header_format h' = header_format h /\ arena_bytes h' = arena_bytes h /\
    vprev h' y = (if v =? NULL_OFFSET then null_link h else v) /\
    (forall z kz, at_off 0 B0 z kz -> z <> y -> vprev h' z = vprev h z).
Proof.
  intros Hok Hy Hv. destruct (relink h (paint M 0 B0) L y (painted M y k) v Hok)
    as (h' & Hrun & Hok' & Hp & Hf & Ha & Vy & Vo); [apply at_paint; eauto|done|].
  exists h'. split_and!; try done; [by apply pay_kept_paint in Hp|].
  intros z kz Hz. apply (Vo z (painted M z kz)). apply at_paint. eauto.
Qed.

Lemma not_null h v : geom h -> link_ok h v -> (v =? NULL_OFFSET) = false.
Proof.
  intros Hg [Hv _]. pose proof (g_size _ Hg) as Hs. rewrite Value.MAX_PAYLOAD_eq in Hs.
  apply Z.eqb_neq. unfold NULL_OFFSET, u32_max. lia.
Qed.

Lemma last_elem {A} (l : list A) x : last l = Some x -> x ∈ l.
Proof. intros H. by eapply last_Some_elem_of. Qed.

(** [enqueue_gray] marks the object and appends it, unless it is marked. *)
Lemma gray_enqueue_ok h M Q q x k :
  heap_ok (-1) h (paint M 0 B0) L -> gray_queue h Q q -> NoDup Q -> all_marked B0 M Q ->
  at_off 0 B0 x k -> is_live k = true ->
  exists h' q', enqueue_gray (ref_of x) (h, q) = (Ok tt, (h', q')) /\
    heap_ok (-1) h' (paint ({[x]} ∪ M) 0 B0) L /\
    gray_queue h' (if decide (x ∈ M) then Q else Q ++ [x]) q' /\
    pay_kept h h' 0 B0 /\ header_format h' = header_format h.
Proof using Hclean.
  intros Hok [Hh Ht Hc] Hd Hm Hx Hl.
  destruct (live_at _ _ _ _ Hok Hx Hl) as (Hlb & Hfl & _). destruct (ref_parts _ _ _ _ Hok Hx Hl) as (_ & Hpl & Hdo).
  unfold enqueue_gray. rewrite Hdo. simpl negb. cbv iota.
  rewrite (st_bind_ok _ _ _ x (h, q)) by (unfold on_heap, st_read; by rewrite Hlb).
  rewrite (st_bind_ok _ _ _ (if decide (x ∈ M) then 7 else 5) (h, q)) by (unfold on_heap, st_read; by rewrite Hfl).
  destruct (decide (x ∈ M)) as [Hin|Hout].
  { exists h, q. replace ({[x]} ∪ M) with M by set_solver. split_and!; try done. }
  change (negb (Z.land 5 MARKED =? 0)) with false. change (Z.lor 5 MARKED) with 7. cbv iota.
  destruct (mark_block _ _ _ _ Hok Hx Hl Hout) as (h1 & Hr1 & Hok1 & Hp1 & Hf1 & Hv1).
  rewrite (st_bind_ok _ _ _ tt (h1, q)) by (unfold on_heap; by rewrite Hr1).
  destruct (relink_live h1 _ x k NULL_OFFSET Hok1 Hx) as (h2 & Hr2 & Hok2 & Hp2 & Hf2 & _ & Vx2 & Vo2); [by right|].
  rewrite (st_bind_ok _ _ _ tt (h2, q)) by (unfold on_heap; by rewrite Hr2).
  assert (Hn : null_link h1 = null_link h) by (unfold null_link; by rewrite Hf1).
  rewrite Z.eqb_refl, Hn in Vx2.
  assert (Hxq : x ∉ Q) by (intros HQ; by destruct (Hm x HQ)).
  assert (Hk2 : forall z, z ∈ Q -> vprev h2 z = vprev h z).
  { intros z Hz. destruct (Hm z Hz) as (_ & kz & Hzk & _). rewrite (Vo2 _ _ Hzk) by congruence. by apply (Hv1 _ kz). }
  rewrite Ht. destruct (last Q) as [y|] eqn:El; simpl.
  - destruct (Hm y (last_elem _ _ El)) as (Hym & ky & Hy & Hly).
    destruct (ref_parts _ _ _ _ Hok Hy Hly) as (Hmy & _). destruct (live_at _ _ _ _ Hok2 Hy Hly) as (Hlby & _).
    destruct (relink_live h2 _ y ky (x + OBJECT_TYPE_ID) Hok2 Hy) as (h3 & Hr3 & Hok3 & Hp3 & Hf3 & _ & Vy3 & Vo3).
    { left. apply (link_of_block _ _ _ _ _ (painted ({[x]} ∪ M) x k) Hok2). apply at_paint. eauto. }
    exists h3, (mkGray (gray_head q) (Some (x + OBJECT_TYPE_ID))). split_and!.
    + rewrite (st_bind_ok _ _ _ tt (h3, q)).
      2:{ rewrite (st_bind_ok _ _ _ (ref_of y) (h2, q)) by (unfold st_lift; by rewrite Hmy).
          rewrite (st_bind_ok _ _ _ y (h2, q)) by (unfold on_heap, st_read; by rewrite Hlby).
          unfold on_heap. by rewrite Hpl, Hr3. }
      by rewrite Hpl.
    + done.
    + constructor; simpl; [|by rewrite last_snoc|].
      * rewrite Hh. destruct Q; done.
      * apply (chain_append h); try done; [congruence| | |].
        -- intros z Hz Hne. destruct (Hm z Hz) as (_ & kz & Hzk & _).
           rewrite (Vo3 z kz Hzk) by congruence. by apply Hk2.
        -- intros y' Hy'. rewrite El in Hy'. injection Hy' as <-. rewrite Vy3, (not_null h2); [done|by eapply ok_geom|].
           apply (link_of_block _ _ _ _ _ (painted ({[x]} ∪ M) x k) Hok2). apply at_paint. eauto.
        -- rewrite (Vo3 x k Hx); [done|]. intros ->. by apply Hxq, last_elem.
    + eapply pay_kept_trans; [exact Hp1|]. by eapply pay_kept_trans.
    + congruence.
  - apply last_None in El as ->. exists h2, (mkGray (Some (x + OBJECT_TYPE_ID)) (Some (x + OBJECT_TYPE_ID))).
    split_and!.
    + unfold st_modify, mbind, ST_bind. by rewrite Hpl.
    + done.
    + constructor; simpl; [done|done|]. split; [|done]. rewrite Vx2. unfold null_link. by rewrite Hf2, Hf1.
    + by eapply pay_kept_trans.
    + congruence.
Qed.

(** [dequeue_gray] takes the first block of the queue. *)
Lemma dequeue_nil h q : gray_queue h [] q -> dequeue_gray (h, q) = (Ok None, (h, q)).
Proof. intros [Hh _ _]. unfold dequeue_gray. by rewrite Hh. Qed.

Lemma dequeue_ok h M Q q x k :
  heap_ok (-1) h (paint M 0 B0) L -> gray_queue h (x :: Q) q -> NoDup (x :: Q) ->
  all_marked B0 M (x :: Q) -> at_off 0 B0 x k -> is_live k = true -> vtype h x <= u32_max ->
  exists h' q', dequeue_gray (h, q) = (Ok (Some (ref_of x, vtype h x)), (h', q')) /\
    heap_ok (-1) h' (paint M 0 B0) L /\ gray_queue h' Q q' /\
    pay_kept h h' 0 B0 /\ header_format h' = header_format h.
Proof using Hclean.
  intros Hok [Hh Ht [Hv Hc]] Hd Hm Hx Hl Hty. apply NoDup_cons in Hd as [Hxq Hd].
  destruct (live_at _ _ _ _ Hok Hx Hl) as (Hlb & Hfl & Hbo & _). destruct (ref_parts _ _ _ _ Hok Hx Hl) as (Hma & Hpl & Hdo).
  pose proof (ok_geom _ _ _ _ Hok) as Hg.
  destruct (relink_live h _ x k NULL_OFFSET Hok Hx) as (h' & Hrun & Hok' & Hp & Hf & _ & Vx & Vo); [by right|].
  set (head' := (fun x => x + OBJECT_TYPE_ID) <$> head Q : option Z).
  assert (Hnext : (if negb (vprev h x =? NULL_OFFSET) && negb (vprev h x =? 0) then Some (vprev h x) else None) = head').
  { rewrite Hv. unfold head'. destruct Q as [|y Q]; simpl.
    - unfold null_link. by destruct (header_format h).
    - destruct (Hm y) as (_ & ky & Hy & _); [by right; left|].
      assert (Hlk : link_ok h (y + OBJECT_TYPE_ID)).
      { apply (link_of_block _ _ _ _ _ (painted M y ky) Hok). apply at_paint. eauto. }
      rewrite (not_null h) by done. pose proof (at_paint M 0 B0 y (painted M y ky)) as Hyp.
      assert (Hyp' : at_off 0 (paint M 0 B0) y (painted M y ky)) by (apply Hyp; eauto).
      apply at_range in Hyp'; [|by eapply ok_all]. unfold OBJECT_TYPE_ID, BLOCK_HEADER_BYTES in *.
      by rewrite (proj2 (Z.eqb_neq _ _)) by lia. }
  exists h', (mkGray head' (match head' with None => None | Some _ => gray_tail q end)). split_and!; try done.
  - unfold dequeue_gray. rewrite Hh. simpl.
    rewrite (st_bind_ok _ _ _ (ref_of x) (h, q)) by (unfold st_lift; by rewrite Hma).
    rewrite (st_bind_ok _ _ _ x (h, q)) by (unfold on_heap, st_read; by rewrite Hlb).
    rewrite (st_bind_ok _ _ _ (vprev h x) (h, q)) by (unfold on_heap, st_read; by rewrite read_prev_view).
    rewrite (st_bind_ok _ _ _ tt (h', q)) by (unfold on_heap; by rewrite Hrun).
    cbv zeta. rewrite Hnext. rewrite (st_bind_ok _ _ _ tt (h', mkGray head' (match head' with None => None | Some _ => gray_tail q end))) by done.
    destruct (live_at _ _ _ _ Hok' Hx Hl) as (Hlb' & _ & Hbo' & _).
    destruct (Hp x k Hx) as [Et _]; [by apply live_flags|].
    unfold on_heap, st_read, mbind, ST_bind, managed_type. rewrite Hlb'. simpl.
    rewrite read_type_view; [by rewrite Et|by eapply ok_geom|done|by rewrite Et].
  - constructor; simpl; [done| |].
    + unfold head'. destruct Q as [|y Q]; simpl; [done|]. rewrite Ht. by rewrite last_cons_cons.
    + apply (chain_ext h); [done| |done]. intros z Hz. destruct (Hm z) as (_ & kz & Hzk & _); [by right|].
      apply (Vo z kz Hzk). congruence.
Qed.
End Queue.

(** ** The header format never changes *)

Class KeepsFormat {A} (m : HeapM A) : Prop :=
  keeps_format : forall h, header_format (m h).2 = header_format h.

#[global] Instance keeps_ret {A} (a : A) : KeepsFormat (mret a).
Proof. done. Qed.
#[global] Instance keeps_get : KeepsFormat st_get.
Proof. done. Qed.
#[global] Instance keeps_err {A} e : KeepsFormat (A := A) (st_err e).
Proof. done. Qed.
#[global] Instance keeps_lift {A} (o : outcome VmFault A) : KeepsFormat (st_lift o).
Proof. done. Qed.
#[global] Instance keeps_read {A} (f : Heap -> outcome VmFault A) : KeepsFormat (st_read f).
Proof. done. Qed.
#[global] Instance keeps_bind {A B} (m : HeapM A) (f : A -> HeapM B) :
  KeepsFormat m -> (forall a, KeepsFormat (f a)) -> KeepsFormat (m ≫= f).
Proof.
  intros Hm Hf h. unfold mbind, ST_bind. specialize (Hm h).
  destruct (m h) as [[a|e|] h']; simpl in *; [|done|done]. by rewrite Hf.
Qed.
#[global] Instance keeps_if {A} (b : bool) (m1 m2 : HeapM A) :
  KeepsFormat m1 -> KeepsFormat m2 -> KeepsFormat (if b then m1 else m2).
Proof. by destruct b. Qed.
#[global] Instance keeps_pair {A B C} (p : B * C) (f : B -> C -> HeapM A) :
  (forall b c, KeepsFormat (f b c)) -> KeepsFormat (let '(b, c) := p in f b c).
Proof. destruct p. auto. Qed.

#[global] Instance keeps_write_word b f v : KeepsFormat (write_word b f v).
Proof. intros h. unfold write_word. repeat case_match; done. Qed.
#[global] Instance keeps_compact b v : KeepsFormat (write_compact_header b v).
Proof. intros h. unfold write_compact_header. case_match; done. Qed.
#[global] Instance keeps_flags b f : KeepsFormat (write_flags b f).
Proof.
  intros h. unfold write_flags. case_match; [done|]. destruct (header_format h) eqn:E; rewrite <- E;
    apply (keeps_format (m := _ ≫= _)).
Qed.
#[global] Instance keeps_prev b v : KeepsFormat (write_previous_or_gray b v).
Proof.
  intros h. unfold write_previous_or_gray. destruct (header_format h) eqn:E; rewrite <- E.
  - apply keeps_write_word.
  - repeat (case_match; [done|]). apply (keeps_format (m := _ ≫= _)).
Qed.
#[global] Instance keeps_block_header b s p a : KeepsFormat (write_block_header b s p a).
Proof.
  intros h. unfold write_block_header. destruct (header_format h) eqn:E; rewrite <- E.
  - apply (keeps_format (m := _ ≫= _)).
  - repeat (case_match; [done|]). apply keeps_compact.
Qed.
#[global] Instance keeps_header b s p a : KeepsFormat (write_header b s p a).
Proof. unfold write_header. apply _. Qed.
#[global] Instance keeps_update b s : KeepsFormat (update_next_previous_size b s).
Proof. unfold update_next_previous_size. apply _. Qed.
#[global] Instance keeps_observe b : KeepsFormat (observe_free_block b).
Proof. intros h. unfold observe_free_block. repeat case_match; done. Qed.
#[global] Instance keeps_mark c : KeepsFormat (mark_class c).
Proof. intros h. unfold mark_class. case_match; done. Qed.
#[global] Instance keeps_clear c : KeepsFormat (clear_class c).
Proof. intros h. unfold clear_class. case_match; done. Qed.
#[global] Instance keeps_heads f : KeepsFormat (st_modify (fun h => set_class_heads (f h) h)).
Proof. done. Qed.
#[global] Instance keeps_live n : KeepsFormat (st_modify (set_live_objects n)).
Proof. done. Qed.
#[global] Instance keeps_unhint b :
  KeepsFormat (st_modify (fun h => if largest_free_hint h =? b then set_hint NULL_OFFSET h else h)).
Proof. intros h. simpl. by destruct (_ =? b). Qed.
#[global] Instance keeps_insert b : KeepsFormat (insert_free b).
Proof. unfold insert_free. apply _. Qed.
#[global] Instance keeps_remove b : KeepsFormat (remove_free b).
Proof. unfold remove_free. apply _. Qed.
#[global] Instance keeps_add n : KeepsFormat (add_total_free n).
Proof. intros h. unfold add_total_free. case_match; done. Qed.
#[global] Instance keeps_free_block b : KeepsFormat (free_block b).
Proof. unfold free_block. apply _. Qed.

Lemma free_format r h : header_format (free r h).2 = header_format h.
Proof. unfold free. case_match; [done|]. case_match; try done. apply (keeps_format (m := _ ≫= _)). Qed.

(** ** Sweeping *)

(** What the sweep makes of the block [k] between the swept part [Bl] and the
    rest [Bt]: the new swept part and the new rest. *)
Definition sweep_spec (Bl : list blk) (k : blk) (Bt : list blk) : list blk * list blk :=
  if is_free k then (Bl ++ [k], Bt)
  else if b_flags k =? 7 then (Bl ++ [mkBlk (b_size k) 5], Bt)
  else ((take_left Bl).1 ++ [mkBlk ((take_left Bl).2 + b_size k + (take_right Bt).2) 0],
        (take_right Bt).1).

Lemma heap_recut_app cut h Bl Bt L : heap_ok cut h (Bl ++ Bt) L ->
  (forall x k, at_off 0 Bl x k -> x <= cut) -> heap_ok (sizes Bl - 1) h (Bl ++ Bt) L.
Proof.
  intros Hok Hc. eapply heap_recut; [done|]. intros x k Hx Hle. pose proof (ok_all _ _ _ _ Hok) as Hall.
  apply Forall_app in Hall as [_ H2]. apply at_app in Hx as [Hx|Hx]; [by eapply Hc|].
  apply at_range in Hx; [lia|done].
Qed.

Lemma last_size_snoc d B k : last_size d (B ++ [k]) = b_size k.
Proof. unfold last_size. by rewrite last_snoc. Qed.

Lemma snoc_starts B k x kx : all_ok B -> at_off 0 (B ++ [k]) x kx -> x <= sizes B.
Proof.
  intros Hall [Hx|[[-> _]|[]]]%at_app; [|lia].
  pose proof (at_ok _ _ _ _ Hall Hx) as (? & _). apply at_range in Hx; [lia|done].
Qed.

(** Recording the predecessor size of the block under the sweep. *)
Lemma restore_prev h Bl k Bt L : heap_ok (sizes Bl - 1) h (Bl ++ k :: Bt) L ->
  exists h', write_previous_or_gray (sizes Bl) (last_size 0 Bl) h = (Ok tt, h') /\
    heap_ok (sizes Bl) h' (Bl ++ k :: Bt) L /\ pay_kept h h' 0 (Bl ++ k :: Bt) /\
    header_format h' = header_format h /\ arena_bytes h' = arena_bytes h /\
    largest_free_hint h' = largest_free_hint h.
Proof.
  intros Hok. pose proof (ok_geom _ _ _ _ Hok) as Hg. pose proof (pos_bo _ _ _ _ _ _ Hok) as Hbo.
  destruct (pos_ok _ _ _ _ _ _ Hok) as (H1 & _ & Hs & Hf). pose proof (last_size_ok _ H1) as [? ?].
  assert (Hlk : link_ok h (last_size 0 Bl)) by (destruct Hbo as (? & ? & ?); split; [lia|done]).
  destruct (write_prev_gen h (sizes Bl) (last_size 0 Bl) Hg Hbo (or_introl Hlk))
    as (h' & Hrun & Ht & Vp & Vs & Vf & _ & Vt).
  destruct (pos_seg _ _ _ _ _ _ Hok) as (_ & Es & Ef & _). destruct k as [s f]. simpl in *.
  rewrite (not_null h) in Vp by done.
  destruct (rehead (sizes Bl - 1) (sizes Bl) h h' Bl s f f Bt L) as [Hok' Hp]; try done; try congruence;
    [intros; lia|].
  exists h'. split_and!; try done; [by eapply touch_fmt|by eapply touch_size|by eapply touch_hint].
Qed.

Lemma heap_set_hint cut h B L x : heap_ok cut h B L -> is_Some (free_map 0 B !! x) ->
  heap_ok cut (set_hint x h) B L.
Proof.
  intros [] Hx. constructor; try done; [apply lists_set_hint; [done|by right]|].
  eapply (seg_kept h); [|done]. by intros y ky _.
Qed.

(** Where the block merges with a free left neighbour. *)
Lemma sweep_merged h Bl k Bt L A (K : Z -> HeapM A) : heap_ok (sizes Bl) h (Bl ++ k :: Bt) L ->
  (previous_size ← st_read (fun h => read_previous_or_gray h (sizes Bl));
   merged ←
     (if sizes Bl =? 0 then mret (sizes Bl)
      else
        previous ← st_lift (ok_or (checked_sub (sizes Bl) previous_size) CorruptHeap);
        previous_allocated ← st_read (fun h => block_allocated h previous);
        mret (if (previous_allocated : bool) then sizes Bl else previous));
   K merged) h = K (sizes (take_left Bl).1) h.
Proof.
  intros Hok. pose proof (ok_geom _ _ _ _ Hok) as Hg. pose proof (pos_bo _ _ _ _ _ _ Hok) as Hbo.
  destruct (pos_seg _ _ _ _ _ _ Hok) as (Hs1 & _ & _ & Hvp & _).
  destruct (pos_ok _ _ _ _ _ _ Hok) as (H1 & _).
  rewrite (st_bind_ok _ _ _ (last_size 0 Bl) h) by (unfold st_read; by rewrite read_prev_view, Hvp by done).
  apply st_bind_ok. destruct Bl as [|q B _] using rev_ind; [done|].
  assert (Esz : sizes (B ++ [q]) = sizes B + b_size q) by (rewrite sizes_app; simpl; lia).
  rewrite last_size_snoc. rewrite Esz in *.
  apply Forall_app in H1 as [H1 Hq]. apply Forall_inv in Hq as [Hqs Hqf]. apply size_ok_true in Hqs as [? ?].
  pose proof (sizes_ok _ H1) as [? ?]. rewrite (proj2 (Z.eqb_neq (sizes B + b_size q) 0)) by lia.
  rewrite (st_bind_ok _ _ _ (sizes B) h).
  2:{ unfold st_lift, checked_sub. rewrite (proj2 (Z.leb_le _ _)) by lia. simpl. do 2 f_equal. lia. }
  apply seg_app in Hs1 as [_ (_ & Vf & _)]. rewrite Z.add_0_l in Vf.
  rewrite (st_bind_ok _ _ _ (negb (is_free q)) h).
  2:{ unfold st_read. destruct Hbo as (? & ? & ?).
      rewrite block_allocated_view, Vf, flags_allocated by (done || split_and!; lia). done. }
  unfold take_left. rewrite last_snoc. unfold mret, ST_ret. destruct (is_free q); simpl.
  - by rewrite removelast_last.
  - by rewrite Esz.
Qed.

Lemma covers_observe h FS b size s : FS !! b = Some size -> s <= size \/ covers h FS s ->
  covers (set_hint (pick_hint h FS b size) h) FS s.
Proof.
  unfold covers, pick_hint. intros Hb Hs. cbn [largest_free_hint set_hint].
  destruct (FS !! largest_free_hint h) as [m|] eqn:E; [destruct (Z.ltb_spec m size)|].
  - exists size. naive_solver lia.
  - exists m. naive_solver lia.
  - exists size. naive_solver lia.
Qed.

(** [sweep_block] implements [sweep_spec] and advances the cut to the next
    block; every object it does not free keeps its type and payload, and the
    hint covers the free blocks passed so far. *)
Lemma sweep_ok h Bl k Bt L : heap_ok (sizes Bl - 1) h (Bl ++ k :: Bt) L -> b_flags k <> 1 ->
  let '(Bl', Bt') := sweep_spec Bl k Bt in
  exists h' L',
    sweep_block (sizes Bl) (last_size 0 Bl) h = (Ok (sizes Bl', last_size 0 Bl'), h') /\
    heap_ok (sizes Bl' - 1) h' (Bl' ++ Bt') L' /\ header_format h' = header_format h /\
    arena_bytes h' = arena_bytes h /\ pay_kept h h' 0 Bl /\
    pay_kept h h' (sizes Bl + b_size k) Bt /\
    (b_flags k = 7 -> pay_kept h h' (sizes Bl) [k]) /\
    (forall s, covers h (free_map 0 (Bl ++ k :: Bt)) s \/
       (exists q, last Bl' = Some q /\ is_free q = true /\ s <= b_size q) ->
       covers h' (free_map 0 (Bl' ++ Bt')) s).
Proof.
  intros Hok Hn1. destruct (pos_bounds _ _ _ _ _ _ Hok) as (? & ? & ? & ? & ? & ? & ?).
  destruct (restore_prev _ _ _ _ _ Hok) as (h1 & Hr1 & Hok1 & Hp1 & Hf1 & Ha1 & Hh1).
  pose proof (ok_geom _ _ _ _ Hok) as Hg. pose proof (pos_bo _ _ _ _ _ _ Hok) as Hbo.
  pose proof (ok_geom _ _ _ _ Hok1) as Hg1. pose proof (pos_bo _ _ _ _ _ _ Hok1) as Hbo1.
  destruct (pos_seg _ _ _ _ _ _ Hok) as (_ & Vs & _). destruct (pos_seg _ _ _ _ _ _ Hok1) as (_ & Vs1 & Vf1 & _).
  destruct (pos_ok _ _ _ _ _ _ Hok) as (HBl & HBt & Hks & Hkf).
  pose proof (proj1 (pay_kept_app _ _ _ _ _) Hp1) as [P1 P2]. rewrite Z.add_0_l in P2.
  assert (P3 : pay_kept h h1 (sizes Bl) [k]) by (intros x kx [[-> ->]|[]]; apply P2; by left).
  assert (P4 : pay_kept h h1 (sizes Bl + b_size k) Bt) by (intros x kx Hx; apply P2; by right).
  assert (Hnext : forall h, st_lift (ok_or (checked_add u32_max (sizes Bl) (b_size k)) CorruptHeap) h =
    (Ok (sizes Bl + b_size k), h : Heap)).
  { intros h'. unfold st_lift, checked_add. by rewrite (proj2 (Z.leb_le _ _)) by (unfold u32_max; lia). }
  unfold sweep_block. rewrite (proj2 (Z.leb_gt _ _)) by lia.
  rewrite (st_bind_ok _ _ _ (b_size k) h) by (unfold st_read; by rewrite block_size_view, Vs, Hks by done).
  rewrite (st_bind_ok _ _ _ _ _ Hr1).
  rewrite (st_bind_ok _ _ _ (negb (is_free k)) h1)
    by (unfold st_read; by rewrite block_allocated_view, Vf1, flags_allocated by done).
  unfold sweep_spec. destruct (is_free k) eqn:Ek; cbn [negb].
  - (* a free block is only looked at *)
    set (h2 := set_hint (pick_hint h1 (free_map 0 (Bl ++ k :: Bt)) (sizes Bl) (b_size k)) h1).
    assert (Hin : free_map 0 (Bl ++ k :: Bt) !! sizes Bl = Some (b_size k))
      by (rewrite (pos_free_map _ _ _ _ _ _ Hok), Ek; apply lookup_insert_eq).
    assert (Hok2 : heap_ok (sizes Bl) h2 (Bl ++ k :: Bt) L).
    { apply heap_set_hint; [done|]. unfold pick_hint.
      destruct (free_map 0 (Bl ++ k :: Bt) !! largest_free_hint h1) eqn:E; [|by eexists].
      destruct (_ <? _); by eexists. }
    exists h2, L. rewrite (st_bind_ok _ _ _ tt h2) by (by eapply observe_ok; [apply Hok1|]).
    rewrite (st_bind_ok _ _ _ _ _ (Hnext h2)), last_size_snoc, sizes_app. simpl sizes.
    split_and!; try done; [by rewrite Z.add_0_r| |].
    2:{ intros s Hs. rewrite <- app_assoc. apply covers_observe; [done|].
        destruct Hs as [Hs|(q & Hq & _ & Hs)]; [right; by eapply covers_ext|left].
        rewrite last_snoc in Hq. by injection Hq as ->. }
    rewrite <- app_assoc. rewrite Z.add_0_r. replace (Bl ++ [k] ++ Bt) with ((Bl ++ [k]) ++ Bt) by (by rewrite <- app_assoc).
    replace (sizes Bl + b_size k) with (sizes (Bl ++ [k])) by (rewrite sizes_app; simpl; lia).
    eapply heap_recut_app; [by rewrite <- app_assoc|]. intros x kx. by apply snoc_starts.
  - rewrite (st_bind_ok _ _ _ (b_flags k) h1) by (unfold st_read; by rewrite read_flags_view, Vf1 by done).
    destruct k as [s f]. simpl in *. unfold is_free in Ek. simpl in Ek.
    destruct Hkf as [->|[->|[->| ->]]]; try done; simpl.
    + (* unreachable *)
      pose proof (free_ok _ _ _ _ _ _ Hok1 ltac:(lia)) as Hfree. simpl in Hfree.
      destruct Hfree as (h2 & L2 & Hr2 & Hok2 & [K1 K2] & Hcov).
      exists h2, L2. rewrite (sweep_merged _ _ _ _ _ _ _ Hok1).
      destruct (ref_of_managed _ _ Hg1 Hbo1) as (Hma & _).
      rewrite (st_bind_ok _ _ _ (sizes Bl + OBJECT_TYPE_ID) h1).
      2:{ unfold st_lift, checked_add. rewrite (proj2 (Z.leb_le _ _)); [done|].
          unfold u32_max, OBJECT_TYPE_ID, BLOCK_HEADER_BYTES. lia. }
      rewrite (st_bind_ok _ _ _ (ref_of (sizes Bl)) h1) by (unfold st_lift; by rewrite Hma).
      rewrite (st_bind_ok _ _ _ _ _ Hr2). simpl negb. cbv iota.
      unfold freed_blocks in Hok2. set (Bm := (take_left Bl).1) in *.
      set (m := (take_left Bl).2 + s + (take_right Bt).2) in *.
      destruct (pos_seg _ _ _ _ _ _ Hok2) as (_ & Vm & _). destruct (pos_ok _ _ _ _ _ _ Hok2) as (HBm & _ & Hms & _).
      destruct (pos_bounds _ _ _ _ _ _ Hok2) as (? & ? & ? & ? & ? & ? & ?). simpl in *.
      rewrite (st_bind_ok _ _ _ m h2).
      2:{ unfold st_read. rewrite block_size_view, Vm, Hms; [done|by eapply ok_geom|exact (pos_bo _ _ _ _ _ _ Hok2)]. }
      rewrite (st_bind_ok _ _ _ (sizes Bm + m) h2).
      2:{ unfold st_lift, checked_add. by rewrite (proj2 (Z.leb_le _ _)) by (unfold u32_max; lia). }
      rewrite last_size_snoc, sizes_app. simpl.
      split_and!; try done.
      * by rewrite Z.add_0_r.
      * rewrite Z.add_0_r. replace (sizes Bm + m) with (sizes (Bm ++ [mkBlk m 0])) by (rewrite sizes_app; simpl; lia).
        eapply heap_recut_app; [by rewrite <- app_assoc|]. intros x kx Hx. apply snoc_starts in Hx; [|done].
        pose proof (take_left_spec Bl) as Hl. unfold Bm in *. destruct (take_left Bl) as [B l]. simpl in *.
        destruct Hl as [(-> & _)| ->]; [done|]. rewrite sizes_app. simpl.
        apply Forall_app in HBl as [_ Hq]. apply Forall_inv in Hq as [Hqs _]. apply size_ok_true in Hqs. simpl in Hqs. lia.
      * rewrite <- Hf1, <- (free_format (ref_of (sizes Bl)) h1), Hr2. done.
      * pose proof (freed_sums Bl s Bt) as (E & _). unfold freed_blocks in E. fold Bm m in E.
        rewrite <- (k_sum _ _ _ _ Hok2), E, <- (k_sum _ _ _ _ Hok), sizes_app. simpl. lia.
      * by eapply pay_kept_trans.
      * by eapply pay_kept_trans.
      * intros t Ht. rewrite <- app_assoc. apply Hcov.
        destruct Ht as [Ht|(q & Hq & _ & Ht)]; [right; by eapply covers_ext|left].
        rewrite last_snoc in Hq. by injection Hq as <-.
    + (* marked *)
      destruct (write_flags_spec h1 (sizes Bl) 5 Hg1 Hbo1) as (h2 & Hr2 & Ht & Vf & Vs2 & Vp & _ & Vt); [lia|].
      destruct (rehead (sizes Bl) (sizes Bl) h1 h2 Bl s 7 5 Bt L) as [Hok2 Hp2]; try done; try congruence.
      { by right; right; left. }
      { intros Hle. rewrite Vp. by apply (pos_seg _ _ _ _ _ _ Hok1). }
      exists h2, L. change (Z.ldiff 7 MARKED) with 5. rewrite (st_bind_ok _ _ _ _ _ Hr2), (st_bind_ok _ _ _ _ _ (Hnext h2)).
      rewrite last_size_snoc, sizes_app. simpl. pose proof (proj1 (pay_kept_app _ _ _ _ _) Hp2) as [Q1 Q2]. rewrite Z.add_0_l in Q2.
      split_and!; try done.
      * by rewrite Z.add_0_r.
      * rewrite Z.add_0_r. replace (sizes Bl + s) with (sizes (Bl ++ [mkBlk s 5])) by (rewrite sizes_app; simpl; lia).
        eapply heap_recut_app; [by rewrite <- app_assoc|]. intros x kx. by apply snoc_starts.
      * rewrite <- Hf1. by eapply touch_fmt.
      * rewrite <- Ha1. by eapply touch_size.
      * by eapply pay_kept_trans.
      * eapply pay_kept_trans; [exact P4|]. intros x kx Hx. apply Q2. by right.
      * intros _. eapply pay_kept_trans; [exact P3|]. intros x kx [[-> ->]|[]]. apply Q2. by left.
      * intros t Ht2. rewrite <- app_assoc. destruct Ht2 as [Ht2|(q & Hq & Hfq & _)].
        -- eapply covers_ext; [rewrite (touch_hint _ _ _ Ht); exact Hh1|].
           rewrite (pos_free_map _ _ _ _ _ _ Hok) in Ht2. cbn [app]. by rewrite (pos_free_map _ _ _ _ _ _ Hok2).
        -- rewrite last_snoc in Hq. by injection Hq as <-.
Qed.

End GcHeap.

Module GcInv.
Import Errors Layout Heap HeapView HeapClass HeapLists HeapInv HeapOps Gc GcRoots GcHeap.

(** ** The object graph *)

(** Payload offsets at which the object at [x] holds references. *)
Definition object_slots (image : ExecutionImage) (h : Heap) (x : Z) : list Z :=
  match (key ← type_key image (vtype h x); type_layout image key) with
  | Some (Object l) => reference_offsets l
  | Some (Array Ref) =>
      (fun i => 8 + 4 * i) <$> seqZ 0 (le_val (slice (x + payload_offset h) 4 (arena h)))
  | _ => []
  end.

Definition slot_value (h : Heap) (x off : Z) : Value.RuntimeValue :=
  Frame.reference_value (Value.from_bits (le_val (slice (x + payload_offset h + off) 4 (arena h)))).

(** The block a value keeps alive. *)
Definition value_target (v : Value.RuntimeValue) : option Z :=
  match v with
  | Value.Reference r =>
      if decide (Value.domain r = Value.Managed) then Some (Value.payload r - OBJECT_TYPE_ID) else None
  | _ => None
  end.

Definition targets (image : ExecutionImage) (h : Heap) (x : Z) : list Z :=
  omap (fun off => value_target (slot_value h x off)) (object_slots image h x).

Definition edge (image : ExecutionImage) (h : Heap) (x y : Z) : Prop := y ∈ targets image h x.

(** Objects some chain of references leads to from the roots [vs]. *)
Definition reachable (image : ExecutionImage) (h : Heap) (vs : values) (x : Z) : Prop :=
  exists r, r ∈ omap value_target vs /\ rtc (edge image h) r x.

Definition live_object (B : list blk) (x : Z) : Prop := exists k, at_off 0 B x k /\ is_live k = true.

(** What the interpreter maintains: every live object has a type of the image
    and room for what its layout says it holds, and refers to live objects. *)
Record graph_ok (image : ExecutionImage) (h : Heap) (B : list blk) : Prop := {
  g_layout : forall x k, at_off 0 B x k -> is_live k = true ->
    vtype h x <= u32_max /\
    exists key layout, type_key image (vtype h x) = Some key /\ type_layout image key = Some layout /\
      (layout = Array Ref -> 4 <= room h k);
  g_slots : forall x k off, at_off 0 B x k -> is_live k = true -> off ∈ object_slots image h x ->
    0 <= off /\ off + 4 <= room h k;
  g_edges : forall x y, live_object B x -> edge image h x y -> live_object B y }.

Definition roots_ok (B : list blk) (vs : values) : Prop :=
  Forall (live_object B) (omap value_target vs).

(** The part of a live object's payload a collection reads. *)
Lemma payload_same h h' B x k off len : pay_kept h h' 0 B -> header_format h' = header_format h ->
  at_off 0 B x k -> all_ok B -> is_live k = true -> 0 <= off -> 0 <= len -> off + len <= room h k ->
  slice (x + payload_offset h' + off) len (arena h') = slice (x + payload_offset h + off) len (arena h).
Proof.
  intros Hp Hf Hx Hall Hl Ho Hn Hr. destruct (Hp x k Hx (live_flags _ Hl)) as [_ E].
  pose proof (at_range _ _ _ _ Hall Hx). unfold room, payload_offset in *. rewrite Hf.
  assert (8 <= header_bytes (header_format h)) by (by destruct (header_format h)).
  set (po := header_bytes (header_format h)) in *.
  replace (x + po + off) with (x + 8 + (po - 8 + off)) by lia.
  rewrite !(slice_slice _ (x + 8) (b_size k - 8)) by lia. by rewrite E.
Qed.

Section Stable.
Context (image : ExecutionImage) (h h' : Heap) (B : list blk).
Context (Hp : pay_kept h h' 0 B) (Hf : header_format h' = header_format h) (Hall : all_ok B).
Context (Hg : graph_ok image h B).

Lemma type_same x k : at_off 0 B x k -> is_live k = true -> vtype h' x = vtype h x.
Proof using Hp. intros Hx Hl. by apply (Hp x k Hx), live_flags. Qed.

Lemma slot_same x k off : at_off 0 B x k -> is_live k = true -> off ∈ object_slots image h x ->
  slot_value h' x off = slot_value h x off.
Proof using Hp Hf Hall Hg.
  intros Hx Hl Ho. destruct (g_slots _ _ _ Hg _ _ _ Hx Hl Ho). unfold slot_value.
  by rewrite (payload_same h h' B x k) by (done || lia).
Qed.

Lemma slots_same x k : at_off 0 B x k -> is_live k = true -> object_slots image h' x = object_slots image h x.
Proof using Hp Hf Hall Hg.
  intros Hx Hl. unfold object_slots. rewrite (type_same _ _ Hx Hl).
  destruct (g_layout _ _ _ Hg _ _ Hx Hl) as (_ & key & lay & -> & Hlay & Hr). simpl. rewrite Hlay.
  destruct lay as [l|e|]; [done| |done]. destruct e; try done.
  pose proof (payload_same h h' B x k 0 4 Hp Hf Hx Hall Hl) as E. rewrite !Z.add_0_r in E.
  by rewrite E by (done || lia || by apply Hr).
Qed.
End Stable.

(** ** Marking *)

Fixpoint live_offsets (off : Z) (B : list blk) : list Z :=
  match B with
  | [] => []
  | k :: B => (if is_live k then [off] else []) ++ live_offsets (off + b_size k) B
  end.

Lemma elem_live_offsets off B x : x ∈ live_offsets off B <-> exists k, at_off off B x k /\ is_live k = true.
Proof.
  revert off. induction B as [|k B IH]; intros off; simpl; [set_solver|].
  rewrite elem_of_app, IH. destruct (is_live k) eqn:E.
  - rewrite list_elem_of_singleton. split; [naive_solver|]. intros (k' & [[-> ->]|H] & Hl); eauto.
  - split; [set_solver|]. intros (k' & [[-> ->]|H] & Hl); [congruence|eauto].
Qed.

Lemma NoDup_live_offsets off B : all_ok B -> NoDup (live_offsets off B).
Proof.
  revert off. induction B as [|k B IH]; intros off Hall; [constructor|].
  apply Forall_cons in Hall as [[Hs _] Hall]. apply size_ok_true in Hs. simpl.
  destruct (is_live k); simpl; [|by apply IH]. constructor; [|by apply IH].
  rewrite elem_live_offsets. intros (k' & Hx & _). apply at_range in Hx; [lia|done].
Qed.

Lemma elem_mark (M : gset Z) x y : x ∈ {[y]} ∪ M <-> x = y \/ x ∈ M.
Proof. set_solver. Qed.

Lemma mark_again (M : gset Z) x : x ∈ M -> {[x]} ∪ M = M.
Proof. set_solver. Qed.

Lemma elem_snoc (Q : list Z) x y : x ∈ Q ++ [y] <-> x ∈ Q \/ x = y.
Proof. rewrite elem_of_app, list_elem_of_singleton. done. Qed.

(** The queue after [y] was offered, as sets. *)
Lemma elem_queue (M : gset Z) (Q : list Z) x y :
  x ∈ (if decide (y ∈ M) then Q else Q ++ [y]) <-> x ∈ Q \/ (x = y /\ y ∉ M).
Proof. destruct (decide (y ∈ M)); [naive_solver|]. rewrite elem_snoc. naive_solver. Qed.

Lemma mark_old (M : gset Z) (Q : list Z) x y : x ∈ {[y]} ∪ M ->
  x ∉ (if decide (y ∈ M) then Q else Q ++ [y]) -> x ∈ M /\ x ∉ Q.
Proof. rewrite elem_mark, elem_queue. destruct (decide (y ∈ M)); naive_solver. Qed.

Section Marking.
Context (image : ExecutionImage) (h0 : Heap) (B0 : list blk) (vs : values).

Abbreviation slots := (object_slots image h0).
Abbreviation reach := (reachable image h0 vs).

(** The scan in progress: the object and how many of its slots are done. *)
Inductive scan_at : option Scan -> option (Z * nat) -> Prop :=
| scan_none : scan_at None None
| scan_object x n key l :
    type_key image (vtype h0 x) = Some key -> type_layout image key = Some (Object l) ->
    (n < length (reference_offsets l))%nat -> scan_at (Some (ScanObject (ref_of x) n)) (Some (x, n))
| scan_array x n len key :
    type_key image (vtype h0 x) = Some key -> type_layout image key = Some (Array Ref) ->
    len = le_val (slice (x + payload_offset h0) 4 (arena h0)) -> Z.of_nat n < len ->
    scan_at (Some (ScanArray (ref_of x) (Z.of_nat n) len)) (Some (x, n)).

(** Slot [i] of [x] was already looked at. *)
Definition visited (P : option (Z * nat)) (x : Z) (i : nat) : Prop :=
  match P with Some (y, n) => x = y -> (i < n)%nat | None => True end.

Record marking (M : gset Z) (Q : list Z) (P : option (Z * nat)) (done : values)
    (c : Collector) (h : Heap) : Prop := {
  m_heap : exists L, heap_ok (-1) h (paint M 0 B0) L;
  m_pay : pay_kept h0 h 0 B0;
  m_fmt : header_format h = header_format h0;
  m_queue : gray_queue h Q (gray c);
  m_nodup : NoDup Q;
  m_gray : forall x, x ∈ Q -> x ∈ M;
  m_live : forall x, x ∈ M -> live_object B0 x;
  m_scan : scan_at (scan c) P;
  m_scanned : forall x n, P = Some (x, n) -> x ∈ M /\ x ∉ Q;
  m_black : forall x i off y, x ∈ M -> x ∉ Q -> slots x !! i = Some off -> visited P x i ->
    value_target (slot_value h0 x off) = Some y -> y ∈ M;
  m_roots : forall v y, v ∈ done -> value_target v = Some y -> y ∈ M;
  m_reach : forall x, x ∈ M -> reach x }.

(** Work left: one unit per object to dequeue and one per slot to look at. *)
Definition cost (x : Z) : nat := S (length (slots x)).
Definition white (M : gset Z) : nat := sum_list_with cost (filter (fun x => x ∉ M) (live_offsets 0 B0)).
Definition scan_left (P : option (Z * nat)) : nat :=
  match P with Some (x, n) => length (slots x) - n | None => 0 end.
Definition mark_work (M : gset Z) (Q : list Z) (P : option (Z * nat)) : nat :=
  white M + sum_list_with cost Q + scan_left P.

Lemma filter_agree (P Q : Z -> Prop) `{!forall x, Decision (P x), !forall x, Decision (Q x)} (l : list Z) :
  (forall z, z ∈ l -> P z <-> Q z) -> filter P l = filter Q l.
Proof.
  induction l as [|z l IH]; intros HPQ; [done|]. rewrite !filter_cons.
  rewrite (decide_ext (P z) (Q z)) by (apply HPQ; left). rewrite IH; [done|]. intros y Hy. apply HPQ. by right.
Qed.

Lemma sum_filter_remove (l : list Z) (M : gset Z) x : NoDup l -> x ∈ l -> x ∉ M ->
  sum_list_with cost (filter (fun y => y ∉ M) l) =
  (cost x + sum_list_with cost (filter (fun y => y ∉ {[x]} ∪ M) l))%nat.
Proof.
  intros Hd Hx Hm. induction Hd as [|y l Hy Hd IH]; [by apply not_elem_of_nil in Hx|].
  rewrite !filter_cons. destruct (decide (y = x)) as [->|Hne].
  - rewrite decide_True, decide_False by set_solver.
    by rewrite (filter_agree _ (fun y => y ∉ {[x]} ∪ M) l) by set_solver.
  - rewrite (decide_ext (y ∉ M) (y ∉ {[x]} ∪ M)) by set_solver.
    assert (Hxl : x ∈ l) by set_solver. specialize (IH Hxl).
    destruct (decide (y ∉ {[x]} ∪ M)); cbn [sum_list_with]; lia.
Qed.

Context (Hclean : clean B0) (Hall : all_ok B0) (Hg : graph_ok image h0 B0) (Hr : roots_ok B0 vs).

Lemma white_mark M x : live_object B0 x -> x ∉ M -> white M = (cost x + white ({[x]} ∪ M))%nat.
Proof using Hall.
  intros Hl Hm. apply sum_filter_remove; [by apply NoDup_live_offsets| |done].
  by apply elem_live_offsets.
Qed.

Lemma set_gray_id c : set_gray (gray c) c = c.
Proof. by destruct c. Qed.

(** A value adds its object to the queue, at no cost. *)
Lemma enqueue_value_ok M Q P done c h v : marking M Q P done c h ->
  (forall y, value_target v = Some y -> live_object B0 y /\ reach y) ->
  exists M' Q' q' h', enqueue_value v (c, h) = (Ok tt, (set_gray q' c, h')) /\
    marking M' Q' P done (set_gray q' c) h' /\
    (forall y, value_target v = Some y -> y ∈ M') /\
    (white M' + sum_list_with cost Q' = white M + sum_list_with cost Q)%nat.
Proof using Hclean Hall.
  intros Hm Hv. destruct (value_target v) as [y|] eqn:Ev.
  2:{ exists M, Q, (gray c), h. rewrite set_gray_id. split_and!; try done.
      destruct v as [| | | | | | |r]; try done. cbn [value_target] in Ev. destruct (decide _) as [|Hd]; [done|].
      unfold enqueue_value, on_gray, enqueue_gray. rewrite bool_decide_eq_false_2 by done. cbn [negb].
      by rewrite set_gray_id. }
  destruct (Hv y eq_refl) as [(k & Hx & Hl) Hre]. clear Hv.
  destruct v as [| | | | | | |r]; try done. cbn [value_target] in Ev. destruct (decide _) as [Hd|]; [|done].
  injection Ev as Ey. pose proof (managed_ref r Hd) as Er. rewrite Ey in Er. subst r.
  destruct Hm as [[L Hok] Hp Hf Hq Hn Hgr Hli Hsc Hsd Hbl Hro Hrc].
  destruct (gray_enqueue_ok B0 Hclean L h M Q (gray c) y k Hok Hq Hn) as (h' & q' & Hrun & Hok' & Hq' & Hp' & Hf');
    [intros x Hxq; split; [by apply Hgr|by apply Hli, Hgr]|done|done|].
  exists ({[y]} ∪ M), (if decide (y ∈ M) then Q else Q ++ [y]), q', h'. split_and!.
  - unfold enqueue_value, on_gray. by rewrite Hrun.
  - constructor; try done.
    + by exists L.
    + by eapply pay_kept_trans.
    + congruence.
    + destruct (decide (y ∈ M)); [done|]. apply NoDup_app. split_and!; [done| |apply NoDup_singleton].
      intros x Hxq Hxy. apply list_elem_of_singleton in Hxy as ->. by apply Hgr in Hxq.
    + intros x [?|[? _]]%elem_queue; apply elem_mark; [right; by apply Hgr|by left].
    + intros x [->|?]%elem_mark; [by exists k|by apply Hli].
    + intros x n HP. destruct (Hsd x n HP) as [? Hxq]. split; [apply elem_mark; by right|].
      rewrite elem_queue. intros [?|[-> ?]]; done.
    + intros x i off z Hx1 Hx2 Hi Hvi Ht. destruct (mark_old _ _ _ _ Hx1 Hx2) as [? ?].
      apply elem_mark. right. by eapply Hbl.
    + intros v z Hv Hz. apply elem_mark. right. by eapply Hro.
    + intros x [->|?]%elem_mark; [done|by apply Hrc].
  - intros z [= <-]. apply elem_mark. by left.
  - destruct (decide (y ∈ M)) as [Hin|Hout].
    + by rewrite mark_again.
    + rewrite (white_mark M y) by (done || by exists k). rewrite sum_list_with_app. simpl. lia.
Qed.

(** *** Reading the objects while they are marked *)

Lemma read_word_ok M L h x k off : heap_ok (-1) h (paint M 0 B0) L -> at_off 0 B0 x k -> is_live k = true ->
  0 <= off -> off + 4 <= room h k ->
  read_payload h (ref_of x) off 4 = Ok (slice (x + payload_offset h + off) 4 (arena h) ++ [0; 0; 0; 0]) /\
  take 4 (slice (x + payload_offset h + off) 4 (arena h) ++ [0; 0; 0; 0]) =
    slice (x + payload_offset h + off) 4 (arena h).
Proof using Type.
  intros Hok Hx Hl Ho Hn. assert (Hxp : at_off 0 (paint M 0 B0) x (painted M x k)) by (apply at_paint; eauto).
  pose proof (ok_geom _ _ _ _ Hok) as Hgeo. pose proof (ok_all _ _ _ _ Hok) as Hall'.
  pose proof (at_range _ _ _ _ Hall' Hxp) as Hrange. rewrite (k_sum _ _ _ _ Hok) in Hrange. simpl in Hrange.
  assert (8 <= payload_offset h) by (unfold payload_offset; by destruct (header_format h)).
  apply at_split in Hxp as (B1 & B2 & E & ->). rewrite E in Hok. rewrite Z.add_0_l in *. split.
  - apply (read_payload_ok _ _ _ _ _ _ Hok); [by rewrite painted_live|done|lia|done].
  - rewrite take_app_length'; [done|]. rewrite slice_length; [done|lia|lia|].
    unfold room in Hn. rewrite (g_len _ Hgeo). lia.
Qed.

Lemma load_ref_ok M L h x k off : heap_ok (-1) h (paint M 0 B0) L -> at_off 0 B0 x k -> is_live k = true ->
  0 <= off -> off + 4 <= room h k -> load_value h (ref_of x) off Ref = Ok (slot_value h x off).
Proof using Type.
  intros Hok Hx Hl Ho Hn. destruct (read_word_ok _ _ _ _ _ _ Hok Hx Hl Ho Hn) as [Hr1 Hr2].
  unfold load_value. change (width_bytes Ref) with 4. rewrite Hr1. cbn [mbind outcome_bind]. by rewrite Hr2.
Qed.

(** The slots of an array are its elements. *)
Lemma array_slots x key : type_key image (vtype h0 x) = Some key -> type_layout image key = Some (Array Ref) ->
  slots x = (fun i => 8 + 4 * i) <$> seqZ 0 (le_val (slice (x + payload_offset h0) 4 (arena h0))).
Proof using Type. intros H1 H2. unfold object_slots. rewrite H1. simpl. by rewrite H2. Qed.

Lemma object_slots_eq x key l : type_key image (vtype h0 x) = Some key -> type_layout image key = Some (Object l) ->
  slots x = reference_offsets l.
Proof using Type. intros H1 H2. unfold object_slots. rewrite H1. simpl. by rewrite H2. Qed.

Lemma slot_edge x i off y : slots x !! i = Some off -> value_target (slot_value h0 x off) = Some y ->
  edge image h0 x y.
Proof using Type. intros Hi Hy. apply list_elem_of_omap. exists off. split; [by eapply list_elem_of_lookup_2|done]. Qed.

Lemma reach_edge x y : reach x -> edge image h0 x y -> reach y.
Proof using Type. intros (r & Hr' & Hx) He. exists r. split; [done|]. by eapply rtc_r. Qed.

(** Looking at slot [n] of the scanned object. *)
Lemma visit_slot M Q x n done c h off :
  marking M Q (Some (x, n)) done c h -> slots x !! n = Some off ->
  load_value h (ref_of x) off Ref = Ok (slot_value h0 x off) /\
  exists M' Q' q' h', enqueue_value (slot_value h0 x off) (c, h) = (Ok tt, (set_gray q' c, h')) /\
    forall P' s', scan_at s' P' -> (P' = Some (x, S n) \/ P' = None /\ length (slots x) = S n) ->
      marking M' Q' P' done (set_scan s' (set_gray q' c)) h' /\
      (mark_work M Q (Some (x, n)) = S (mark_work M' Q' P'))%nat.
Proof using Hclean Hall Hg.
  intros Hm Hoff. destruct (m_scanned _ _ _ _ _ _ Hm x n eq_refl) as [HxM HxQ].
  destruct (m_live _ _ _ _ _ _ Hm x HxM) as (k & Hx & Hl). destruct (m_heap _ _ _ _ _ _ Hm) as [L Hok].
  pose proof (list_elem_of_lookup_2 _ _ _ Hoff) as Hin.
  destruct (g_slots _ _ _ Hg _ _ _ Hx Hl Hin) as [? ?]. split.
  { rewrite (load_ref_ok M L h x k); [|done|done|done|done|].
    - f_equal. eapply slot_same; [apply Hm|apply Hm|done|done|done|done|done].
    - unfold room, payload_offset in *. by rewrite (m_fmt _ _ _ _ _ _ Hm). }
  destruct (enqueue_value_ok _ _ _ _ _ _ (slot_value h0 x off) Hm) as (M' & Q' & q' & h' & Hrun & Hm' & Hin' & Hw).
  { intros y Hy. pose proof (slot_edge _ _ _ _ Hoff Hy) as He. split.
    - eapply (g_edges _ _ _ Hg); [by exists k|done].
    - eapply reach_edge; [by eapply m_reach|done]. }
  exists M', Q', q', h'. split; [done|]. intros P' s' Hs' HP'.
  pose proof (lookup_lt_Some _ _ _ Hoff) as Hlt. split.
  - destruct Hm' as [? ? ? ? ? ? ? _ Hsd Hbl ? ?]. destruct (Hsd x n eq_refl).
    constructor; try done.
    + intros y m E. destruct HP' as [->|[-> _]]; [|done]. injection E as <- <-. done.
    + intros y i off' z Hy1 Hy2 Hi Hvis Ht. destruct (decide (y = x /\ i = n)) as [[-> ->]|Hne].
      * rewrite Hoff in Hi. injection Hi as <-. by apply Hin'.
      * eapply (Hbl y i off' z); try done. simpl. intros ->.
        pose proof (lookup_lt_Some _ _ _ Hi). destruct HP' as [->|[-> El]]; simpl in Hvis.
        -- specialize (Hvis eq_refl). destruct (decide (i = n)); [naive_solver|lia].
        -- destruct (decide (i = n)); [naive_solver|lia].
  - unfold mark_work. assert (scan_left (Some (x, n)) = S (scan_left P')).
    { destruct HP' as [->|[-> El]]; cbn [scan_left]; lia. }
    lia.
Qed.

Lemma managed_type_ok M Q P done c h x : marking M Q P done c h -> x ∈ M ->
  managed_type h (ref_of x) = Ok (vtype h0 x) /\ vtype h x = vtype h0 x.
Proof using Hclean Hg.
  intros Hm Hx. destruct (m_live _ _ _ _ _ _ Hm x Hx) as (k & Hk & Hl). destruct (m_heap _ _ _ _ _ _ Hm) as [L Hok].
  destruct (live_at B0 Hclean L h M x k Hok Hk Hl) as (Hlb & _ & Hbo & _).
  pose proof (type_same h0 h B0 (m_pay _ _ _ _ _ _ Hm) x k Hk Hl) as Ht.
  destruct (g_layout _ _ _ Hg _ _ Hk Hl) as [Hty _].
  split; [|done]. unfold managed_type. rewrite Hlb. cbn [mbind outcome_bind].
  rewrite read_type_view; [by rewrite Ht|by eapply ok_geom|done|by rewrite Ht].
Qed.

Lemma room_bound M Q P done c h x k : marking M Q P done c h -> at_off 0 B0 x k -> room h0 k < 2 ^ 31 - 8.
Proof using Type.
  intros Hm Hk. destruct (m_heap _ _ _ _ _ _ Hm) as [L Hok].
  assert (Hxp : at_off 0 (paint M 0 B0) x (painted M x k)) by (apply at_paint; eauto).
  apply at_split in Hxp as (B1 & B2 & E & _). rewrite E in Hok.
  destruct (pos_bounds _ _ _ _ _ _ Hok) as (? & ? & ? & ? & ? & ? & ?). simpl in *.
  unfold room, payload_offset. assert (8 <= header_bytes (header_format h0)) by (by destruct (header_format h0)). lia.
Qed.

(** One step of the scan: some slot is looked at, at the cost of one unit. *)
Lemma scan_step_ok M Q x n done c h sc : marking M Q (Some (x, n)) done c h -> scan c = Some sc ->
  exists M' Q' P' s' q' h', scan_step image sc (c, h) = (Ok tt, (set_scan s' (set_gray q' c), h')) /\
    marking M' Q' P' done (set_scan s' (set_gray q' c)) h' /\
    (mark_work M Q (Some (x, n)) = S (mark_work M' Q' P'))%nat.
Proof using Hclean Hall Hg.
  intros Hm Hs. pose proof (m_scan _ _ _ _ _ _ Hm) as Hsc. rewrite Hs in Hsc.
  destruct (m_scanned _ _ _ _ _ _ Hm x n eq_refl) as [HxM _].
  destruct (managed_type_ok _ _ _ _ _ _ _ Hm HxM) as [Hty _].
  inversion Hsc as [|? ? key l Hkey Hlay Hn|? ? len key Hkey Hlay Hlen Hn]; subst.
  - pose proof (object_slots_eq _ _ _ Hkey Hlay) as Hslots.
    destruct (lookup_lt_is_Some_2 (reference_offsets l) n Hn) as [off Hoff].
    destruct (visit_slot M Q x n done c h off Hm) as (Hload & M' & Q' & q' & h' & Hrun & Hnext); [by rewrite Hslots|].
    set (s' := if (S n <? length (reference_offsets l))%nat then Some (ScanObject (ref_of x) (S n)) else None).
    set (P' := if (S n <? length (reference_offsets l))%nat then Some (x, S n) else None).
    destruct (Hnext P' s') as [Hm' Hw].
    { unfold P', s'. destruct (Nat.ltb_spec (S n) (length (reference_offsets l))); econstructor; done. }
    { unfold P'. destruct (Nat.ltb_spec (S n) (length (reference_offsets l))); [by left|right].
      split; [done|]. rewrite Hslots. lia. }
    exists M', Q', P', s', q', h'. split_and!; try done. cbn [scan_step].
    rewrite (st_bind_ok _ _ _ (vtype h0 x) (c, h)) by (unfold reading; by rewrite Hty).
    rewrite (st_bind_ok _ _ _ key (c, h)) by (unfold st_lift; by rewrite Hkey).
    rewrite (st_bind_ok _ _ _ (Object l) (c, h)) by (unfold st_lift; by rewrite Hlay).
    rewrite (st_bind_ok _ _ _ off (c, h)) by (unfold st_lift; by rewrite Hoff).
    rewrite (st_bind_ok _ _ _ (slot_value h0 x off) (c, h)) by (unfold reading; by rewrite Hload).
    by rewrite (st_bind_ok _ _ _ _ _ Hrun).
  - pose proof (array_slots _ _ Hkey Hlay) as Hslots.
    set (len := le_val (slice (x + payload_offset h0) 4 (arena h0))) in *.
    assert (Hoff : slots x !! n = Some (8 + 4 * Z.of_nat n)).
    { rewrite Hslots, list_lookup_fmap, lookup_seqZ_lt by done. done. }
    destruct (m_live _ _ _ _ _ _ Hm x HxM) as (k & Hk & Hl).
    destruct (g_slots _ _ _ Hg _ _ _ Hk Hl (list_elem_of_lookup_2 _ _ _ Hoff)) as [_ Hroom].
    pose proof (room_bound _ _ _ _ _ _ _ _ Hm Hk) as Hrb.
    destruct (visit_slot M Q x n done c h _ Hm Hoff) as (Hload & M' & Q' & q' & h' & Hrun & Hnext).
    set (s' := if Z.of_nat n + 1 <? len then Some (ScanArray (ref_of x) (Z.of_nat n + 1) len) else None).
    set (P' := if Z.of_nat n + 1 <? len then Some (x, S n) else None).
    destruct (Hnext P' s') as [Hm' Hw].
    { unfold P', s'. destruct (Z.ltb_spec (Z.of_nat n + 1) len); [|constructor].
      replace (Z.of_nat n + 1) with (Z.of_nat (S n)) by lia. econstructor; try done. lia. }
    { unfold P'. destruct (Z.ltb_spec (Z.of_nat n + 1) len); [by left|right].
      split; [done|]. rewrite Hslots, length_fmap, length_seqZ. lia. }
    exists M', Q', P', s', q', h'. split_and!; try done. cbn [scan_step].
    rewrite (st_bind_ok _ _ _ (Z.of_nat n * 4) (c, h)).
    2:{ unfold st_lift, checked_mul. by rewrite (proj2 (Z.leb_le _ _)) by (unfold u32_max; lia). }
    rewrite (st_bind_ok _ _ _ (8 + 4 * Z.of_nat n) (c, h)).
    2:{ unfold st_lift, checked_add. rewrite (proj2 (Z.leb_le _ _)) by (unfold u32_max; lia).
        cbn [ok_or]. by rewrite (Z.mul_comm 4). }
    rewrite (st_bind_ok _ _ _ (slot_value h0 x (8 + 4 * Z.of_nat n)) (c, h)) by (unfold reading; by rewrite Hload).
    by rewrite (st_bind_ok _ _ _ _ _ Hrun).
Qed.

(** Taking the next object off the queue. *)
Lemma dequeue_step M Q x done c h : marking M (x :: Q) None done c h ->
  exists q' h', on_gray dequeue_gray (c, h) = (Ok (Some (ref_of x, vtype h0 x)), (set_gray q' c, h')) /\
    forall P' s', scan_at s' P' -> (P' = Some (x, 0%nat) \/ P' = None /\ slots x = []) ->
      marking M Q P' done (set_scan s' (set_gray q' c)) h' /\
      (mark_work M (x :: Q) None = S (mark_work M Q P'))%nat.
Proof using Hclean Hg.
  intros Hm. assert (HxM : x ∈ M) by (apply (m_gray _ _ _ _ _ _ Hm); left).
  destruct (managed_type_ok _ _ _ _ _ _ _ Hm HxM) as [_ Hty].
  destruct Hm as [[L Hok] Hp Hf Hq Hn Hgr Hli _ _ Hbl Hro Hrc].
  destruct (Hli x HxM) as (k & Hk & Hl). destruct (g_layout _ _ _ Hg _ _ Hk Hl) as [Htb _].
  destruct (dequeue_ok B0 Hclean L h M Q (gray c) x k Hok Hq Hn) as (h' & q' & Hrun & Hok' & Hq' & Hp' & Hf');
    [intros y Hy; split; [by apply Hgr|by apply Hli, Hgr]|done|done|by rewrite Hty|].
  apply NoDup_cons in Hn as [HxQ Hn].
  exists q', h'. split; [unfold on_gray; by rewrite Hrun, Hty|].
  intros P' s' Hs' HP'. split.
  - constructor; try done.
    + by exists L.
    + by eapply pay_kept_trans.
    + congruence.
    + intros y Hy. apply Hgr. by right.
    + intros y n E. destruct HP' as [->|[-> _]]; [|done]. by injection E as <- <-.
    + intros y i off z Hy1 Hy2 Hi Hvis Ht. destruct (decide (y = x)) as [->|Hne].
      * destruct HP' as [->|[-> E]]; [|by rewrite E in Hi]. simpl in Hvis. specialize (Hvis eq_refl). lia.
      * eapply (Hbl y i off z); try done. rewrite not_elem_of_cons. done.
  - unfold mark_work. cbn [sum_list_with scan_left].
    assert (cost x = S (scan_left P')) as ->.
    { unfold cost. destruct HP' as [->|[-> ->]]; cbn [scan_left length]; lia. }
    lia.
Qed.

Lemma word_same M Q P done c h x k : marking M Q P done c h -> at_off 0 B0 x k -> is_live k = true ->
  4 <= room h0 k ->
  read_payload h (ref_of x) 0 4 = Ok (slice (x + payload_offset h0) 4 (arena h0) ++ [0; 0; 0; 0]) /\
  take 4 (slice (x + payload_offset h0) 4 (arena h0) ++ [0; 0; 0; 0]) = slice (x + payload_offset h0) 4 (arena h0) /\
  0 <= le_val (slice (x + payload_offset h0) 4 (arena h0)).
Proof using Hall.
  intros Hm Hk Hl Hr4. destruct (m_heap _ _ _ _ _ _ Hm) as [L Hok].
  assert (Hroom : room h k = room h0 k) by (unfold room, payload_offset; by rewrite (m_fmt _ _ _ _ _ _ Hm)).
  destruct (read_word_ok M L h x k 0 Hok Hk Hl) as [H1 H2]; [lia|lia|].
  pose proof (payload_same h0 h B0 x k 0 4 (m_pay _ _ _ _ _ _ Hm) (m_fmt _ _ _ _ _ _ Hm) Hk Hall Hl) as E.
  rewrite !Z.add_0_r in *. rewrite <- E by lia. rewrite E in H1 by lia. rewrite E in H2 by lia.
  split_and!; [by rewrite E by lia|by rewrite E by lia|].
  apply le_val_bound, slice_Forall, g_bytes. by eapply ok_geom.
Qed.

(** One step of the mark phase does one unit of the work, or the work is done. *)
Lemma mark_step_ok M Q P done c h : marking M Q P done c h ->
  (exists M' Q' P' s' q' h', mark_step image (c, h) = (Ok tt, (set_scan s' (set_gray q' c), h')) /\
    marking M' Q' P' done (set_scan s' (set_gray q' c)) h' /\ (mark_work M Q P = S (mark_work M' Q' P'))%nat) \/
  (Q = [] /\ P = None /\
    mark_step image (c, h) = (Ok tt, (set_sweep 0 0 (set_phase Sweep c), h))).
Proof using Hclean Hall Hg.
  intros Hm. pose proof (m_scan _ _ _ _ _ _ Hm) as Hsc. unfold mark_step.
  destruct (scan c) as [sc|] eqn:Es.
  { left. destruct P as [[x n]|]; [|by inversion Hsc]. by eapply scan_step_ok. }
  inversion Hsc; subst. destruct Q as [|x Q].
  { right. split_and!; try done. rewrite (st_bind_ok _ _ _ None (c, h)); [done|].
    unfold on_gray. rewrite (dequeue_nil _ _ (m_queue _ _ _ _ _ _ Hm)). by rewrite set_gray_id. }
  left. destruct (dequeue_step _ _ _ _ _ _ Hm) as (q' & h' & Hrun & Hnext).
  assert (HxM : x ∈ M) by (apply (m_gray _ _ _ _ _ _ Hm); left).
  destruct (m_live _ _ _ _ _ _ Hm x HxM) as (k & Hk & Hl).
  destruct (g_layout _ _ _ Hg _ _ Hk Hl) as (_ & key & lay & Hkey & Hlay & Harr).
  assert (Hid : set_scan None (set_gray q' c) = set_gray q' c) by (destruct c; simpl in *; by subst).
  rewrite (st_bind_ok _ _ _ _ _ Hrun). cbv beta iota.
  rewrite (st_bind_ok _ _ _ key (set_gray q' c, h')) by (unfold st_lift; by rewrite Hkey).
  rewrite (st_bind_ok _ _ _ lay (set_gray q' c, h')) by (unfold st_lift; by rewrite Hlay).
  assert (Hleaf : slots x = [] -> exists M' Q' P' s' q'0 h'0,
    (mret tt : CollectM unit) (set_gray q' c, h') = (Ok tt, (set_scan s' (set_gray q'0 c), h'0)) /\
    marking M' Q' P' done (set_scan s' (set_gray q'0 c)) h'0 /\
    (mark_work M (x :: Q) None = S (mark_work M' Q' P'))%nat).
  { intros E. destruct (Hnext None None) as [? ?]; [constructor|by right|].
    exists M, Q, None, None, q', h'. rewrite Hid in *. done. }
  destruct lay as [l|e|].
  - pose proof (object_slots_eq _ _ _ Hkey Hlay) as Hslots. destruct (Nat.eqb_spec (length (reference_offsets l)) 0) as [E|E].
    + apply Hleaf. rewrite Hslots. by apply length_zero_iff_nil.
    + destruct (Hnext (Some (x, 0%nat)) (Some (ScanObject (ref_of x) 0))) as [? ?]; [econstructor; try done; lia|by left|].
      exists M, Q, (Some (x, 0%nat)), (Some (ScanObject (ref_of x) 0)), q', h'. done.
  - destruct (decide (e = Ref)) as [->|Hne].
    2:{ apply Hleaf. unfold object_slots. rewrite Hkey. simpl. rewrite Hlay. by destruct e. }
    pose proof (array_slots _ _ Hkey Hlay) as Hslots.
    set (len := le_val (slice (x + payload_offset h0) 4 (arena h0))) in *.
    specialize (Harr eq_refl). destruct (word_same _ _ _ _ _ _ _ _ Hm Hk Hl Harr) as (_ & _ & Hlen). fold len in Hlen.
    assert (Hread : forall M' Q' P' c', marking M' Q' P' done c' h' ->
      reading (fun h => read_payload h (ref_of x) 0 4) (set_gray q' c, h') =
        (Ok (slice (x + payload_offset h0) 4 (arena h0) ++ [0; 0; 0; 0]), (set_gray q' c, h')) /\
      le_val (take 4 (slice (x + payload_offset h0) 4 (arena h0) ++ [0; 0; 0; 0])) = len).
    { intros M' Q' P' c' Hm'. destruct (word_same _ _ _ _ _ _ _ _ Hm' Hk Hl Harr) as (H1 & H2 & _).
      unfold reading. by rewrite H1, H2. }
    destruct (Z.eqb_spec len 0) as [E|E].
    + assert (Hnil : slots x = []) by (rewrite Hslots, E; done).
      destruct (Hnext None None) as [Hm' _]; [constructor|by right|].
      destruct (Hread _ _ _ _ Hm') as [H1 H2]. rewrite (st_bind_ok _ _ _ _ _ H1). cbv zeta.
      rewrite H2, E, Z.eqb_refl. by apply Hleaf.
    + destruct (Hnext (Some (x, 0%nat)) (Some (ScanArray (ref_of x) (Z.of_nat 0) len))) as [Hm' Hw];
        [econstructor; try done; lia|by left|].
      destruct (Hread _ _ _ _ Hm') as [H1 H2]. rewrite (st_bind_ok _ _ _ _ _ H1). cbv zeta.
      rewrite H2, (proj2 (Z.eqb_neq len 0)) by done.
      exists M, Q, (Some (x, 0%nat)), (Some (ScanArray (ref_of x) (Z.of_nat 0) len)), q', h'. done.
  - apply Hleaf. unfold object_slots. rewrite Hkey. simpl. by rewrite Hlay.
Qed.

(** When the queue is empty and no scan is open, the marks are the objects the
    roots reach. *)
Lemma marked_reachable M c h x : marking M [] None vs c h -> x ∈ M <-> reach x.
Proof using Type.
  intros Hm. split; [apply (m_reach _ _ _ _ _ _ Hm)|]. intros (r & Hr' & Hx).
  apply list_elem_of_omap in Hr' as (v & Hv & Ht). apply (m_roots _ _ _ _ _ _ Hm _ _ Hv) in Ht.
  clear Hv. induction Hx as [|r y z He _ IH]; [done|]. apply IH.
  apply list_elem_of_omap in He as (off & Hoff & Hy). apply list_elem_of_lookup in Hoff as [i Hi].
  eapply (m_black _ _ _ _ _ _ Hm r i off y); try done. apply not_elem_of_nil.
Qed.


End Marking.

End GcInv.

(** The sweep of src/execution/gc.rs: block by block the unmarked objects are
    released and merged with their free neighbours, the marks of the others are
    cleared, the predecessor sizes are restored, and the largest-block hint is
    brought up to date. *)

Module GcSweep.
Import Errors Layout Heap HeapView HeapClass HeapLists HeapInv HeapOps Gc GcRoots GcHeap GcInv.

Section Sweeping.
Context (h0 : Heap) (B0 : list blk) (M : gset Z).
Context (Hclean : clean B0) (Hall : all_ok B0).

(** [Bp] was swept and became [Bl]; [Bs] is still to come. *)
Record sweeping (Bp Bs Bl : list blk) (c : Collector) (h : Heap) : Prop := {
  s_split : B0 = Bp ++ Bs;
  s_size : sizes Bl = sizes Bp;
  s_heap : exists L, heap_ok (sizes Bl - 1) h (Bl ++ paint M (sizes Bp) Bs) L;
  s_fmt : header_format h = header_format h0;
  s_off : sweep_offset c = sizes Bl;
  s_prev : sweep_previous_size c = last_size 0 Bl;
  s_clean : clean Bl;
  s_kept : forall x s, at_off 0 Bl x (mkBlk s 5) <-> at_off 0 Bp x (mkBlk s 5) /\ x ∈ M;
  s_pay : forall x k, at_off 0 B0 x k -> is_live k = true -> x ∈ M ->
    vtype h x = vtype h0 x /\
    slice (x + 8) (b_size k - 8) (arena h) = slice (x + 8) (b_size k - 8) (arena h0);
  s_hint : forall x q, at_off 0 Bl x q -> is_free q = true ->
    covers h (free_map 0 (Bl ++ paint M (sizes Bp) Bs)) (b_size q) }.

Lemma clean_app B1 B2 : clean (B1 ++ B2) <-> clean B1 /\ clean B2.
Proof using Type. apply Forall_app. Qed.

(** Dropping a free left neighbour drops no object. *)
Lemma take_left_live B x s : at_off 0 (take_left B).1 x (mkBlk s 5) <-> at_off 0 B x (mkBlk s 5).
Proof using Type.
  pose proof (take_left_spec B) as H. destruct (take_left B) as [B' l]. simpl.
  destruct H as [(-> & _)| ->]; [done|]. rewrite at_app. simpl. naive_solver.
Qed.

Lemma take_left_at B x q : at_off 0 (take_left B).1 x q -> at_off 0 B x q.
Proof using Type.
  pose proof (take_left_spec B) as H. destruct (take_left B) as [B' l]. simpl.
  destruct H as [(-> & _)| ->]; [done|]. rewrite at_app. naive_solver.
Qed.

Lemma take_left_sizes B : sizes (take_left B).1 + (take_left B).2 = sizes B.
Proof using Type.
  pose proof (take_left_spec B) as H. destruct (take_left B) as [B' l]. simpl.
  destruct H as [(-> & -> & _)| ->]; [lia|]. rewrite sizes_app. simpl. lia.
Qed.

Lemma take_left_clean B : clean B -> clean (take_left B).1.
Proof using Type.
  pose proof (take_left_spec B) as H. destruct (take_left B) as [B' l]. simpl.
  destruct H as [(-> & _)| ->]; [done|]. by intros [? _]%clean_app.
Qed.

(** The blocks a dead object's release takes from the rest. *)
Definition absorbed (Bs : list blk) : list blk :=
  match Bs with k :: _ => if is_free k then [k] else [] | [] => [] end.

Lemma absorbed_spec off Bs : exists Bs', Bs = absorbed Bs ++ Bs' /\ Forall (fun k => is_free k = true) (absorbed Bs) /\
  take_right (paint M off Bs) = (paint M (off + sizes (absorbed Bs)) Bs', sizes (absorbed Bs)).
Proof using Type.
  destruct Bs as [|k Bs]; [by exists []|]. unfold absorbed, take_right. simpl. rewrite painted_free.
  destruct (is_free k) eqn:E; simpl.
  - exists Bs. rewrite Z.add_0_r. split_and!; [done|by constructor|done].
  - exists (k :: Bs). by rewrite Z.add_0_r.
Qed.

Lemma free_not_live B x s : Forall (fun k => is_free k = true) B -> forall off, ~ at_off off B x (mkBlk s 5).
Proof using Type.
  induction 1 as [|k B Hk _ IH]; intros off; [by intros []|]. intros [[_ <-]|H]; [done|by eapply IH].
Qed.

(** One block: [Bn] leaves the rest, [Bl'] is the new swept part. *)
Lemma sweep_next Bp k0 Bs Bl c h : sweeping Bp (k0 :: Bs) Bl c h ->
  exists Bn Bs' Bl' h', k0 :: Bs = Bn ++ Bs' /\ Bn <> [] /\
    sweep_step (c, h) = (Ok tt, (set_sweep (sizes Bl') (last_size 0 Bl') c, h')) /\
    sweeping (Bp ++ Bn) Bs' Bl' (set_sweep (sizes Bl') (last_size 0 Bl') c) h'.
Proof using Hclean Hall.
  intros [Hsplit Hsize [L Hok] Hfmt Hoff Hprev Hcl Hkept Hpay Hhint]. cbn [paint] in *.
  set (k := painted M (sizes Bp) k0) in *. set (Bt := paint M (sizes Bp + b_size k0) Bs) in *.
  assert (Hk0 : b_flags k0 = 0 \/ b_flags k0 = 5).
  { rewrite Hsplit in Hclean. apply clean_app in Hclean as [_ Hc]. by apply Forall_inv in Hc. }
  assert (Hx0 : at_off 0 B0 (sizes Bp) k0) by (rewrite Hsplit; pose proof (at_mid 0 Bp k0 Bs) as H; by rewrite Z.add_0_l in H).
  destruct (pos_bounds _ _ _ _ _ _ Hok) as (? & ? & ? & ? & Hsum & ? & ?).
  assert (Hk1 : b_flags k <> 1).
  { unfold k, painted, is_live. simpl. destruct Hk0 as [-> | ->]; simpl; [done|]. by case_bool_decide. }
  pose proof (sweep_ok h Bl k Bt L Hok Hk1) as Hsw.
  (* surviving objects outside the block keep their payload *)
  assert (Hpay' : forall h', pay_kept h h' 0 Bl -> pay_kept h h' (sizes Bl + b_size k) Bt ->
    (sizes Bp ∈ M -> is_live k0 = true -> pay_kept h h' (sizes Bl) [k]) ->
    forall x kx, at_off 0 B0 x kx -> is_live kx = true -> x ∈ M ->
    vtype h' x = vtype h0 x /\
    slice (x + 8) (b_size kx - 8) (arena h') = slice (x + 8) (b_size kx - 8) (arena h0)).
  { intros h' P1 P2 P3 x kx Hx Hl HxM. destruct (Hpay x kx Hx Hl HxM) as [<- <-].
    pose proof (clean_live _ _ _ Hclean Hx Hl) as H5. rewrite Hsplit in Hx.
    apply at_app in Hx as [Hx|[[-> ->]|Hx]].
    - destruct kx as [s f]. simpl in H5. subst f. apply (P1 x (mkBlk s 5)); [|done]. by apply Hkept.
    - rewrite Z.add_0_l in *. specialize (P3 HxM Hl). destruct (P3 (sizes Bl) k) as [E1 E2]; [by left| |].
      + unfold k. rewrite painted_free. by apply live_flags.
      + rewrite Hsize in E1, E2. exact (conj E1 E2).
    - rewrite Z.add_0_l in Hx. apply (P2 x (painted M x kx)); [|rewrite painted_free; by apply live_flags].
      rewrite Hsize. apply at_paint. eauto. }
  assert (Hstep : forall o h', sweep_block (sizes Bl) (last_size 0 Bl) h = (Ok o, h') ->
    sweep_step (c, h) = (Ok tt, (set_sweep o.1 o.2 c, h'))).
  { intros [o1 o2] h' E. unfold sweep_step. rewrite Hoff, Hprev, (proj2 (Z.eqb_neq _ _)) by lia. by rewrite E. }
  unfold sweep_spec in Hsw. destruct (is_free k) eqn:Ek.
  - (* free *)
    destruct Hsw as (h' & L' & Hrun & Hok' & Hf' & Ha' & P1 & P2 & _ & Hcov).
    unfold k in Ek. rewrite painted_free in Ek. assert (Hkk : k = k0).
    { unfold k, painted. destruct k0 as [s f]. unfold is_free in Ek. simpl in Ek. apply Z.eqb_eq in Ek as ->. done. }
    exists [k0], Bs, (Bl ++ [k0]), h'. rewrite Hkk in *.
    split_and!; try done; [exact (Hstep _ _ Hrun)|]. constructor.
    + rewrite Hsplit, <- app_assoc. done.
    + rewrite !sizes_app. simpl. lia.
    + exists L'. rewrite (sizes_app Bp). simpl. by rewrite Z.add_0_r.
    + congruence.
    + done.
    + done.
    + apply clean_app. split; [done|]. by constructor.
    + intros x s. rewrite !at_app. simpl. rewrite (Hkept x s). destruct k0 as [t f]. unfold is_free in Ek. simpl in Ek.
      apply Z.eqb_eq in Ek as ->. naive_solver.
    + apply Hpay'; try done. intros _ Hl. apply live_flags in Hl. congruence.
    + rewrite (sizes_app Bp). simpl. rewrite Z.add_0_r. intros x q [Hx|[[-> ->]|[]]]%at_app Hfq.
      * apply Hcov. left. by eapply Hhint.
      * apply Hcov. right. exists k0. by rewrite last_snoc.
  - assert (Hlk0 : is_live k0 = true).
    { unfold k in Ek. rewrite painted_free in Ek. unfold is_free in Ek. unfold is_live. bsimp. by destruct Hk0 as [| ->]. }
    assert (Hf5 : b_flags k0 = 5) by (eapply (clean_live B0); done).
    destruct (decide (sizes Bp ∈ M)) as [HM|HM].
    + (* marked *)
      assert (Hk7 : k = mkBlk (b_size k0) 7) by (unfold k, painted; by rewrite Hlk0, bool_decide_eq_true_2).
      rewrite Hk7 in Hsw. simpl in Hsw. destruct Hsw as (h' & L' & Hrun & Hok' & Hf' & Ha' & P1 & P2 & P3 & Hcov).
      exists [k0], Bs, (Bl ++ [mkBlk (b_size k0) 5]), h'.
      split_and!; try done; [exact (Hstep _ _ Hrun)|]. constructor.
      * rewrite Hsplit, <- app_assoc. done.
      * rewrite !sizes_app. simpl. lia.
      * exists L'. rewrite (sizes_app Bp). simpl. by rewrite Z.add_0_r.
      * congruence.
      * done.
      * done.
      * apply clean_app. split; [done|]. by constructor; [right|].
      * intros x s. rewrite !at_app. simpl. rewrite (Hkept x s). destruct k0 as [t f]. simpl in *. subst f. rewrite Hsize. naive_solver.
      * apply Hpay'; [done|by rewrite Hk7|]. intros _ _. rewrite Hk7. by apply P3.
      * rewrite (sizes_app Bp). simpl. rewrite Z.add_0_r. intros x q [Hx|[[-> ->]|[]]]%at_app Hfq; [|done].
        apply Hcov. left. rewrite <- Hk7. by eapply Hhint.
    + (* unreachable *)
      assert (Hk5 : k = mkBlk (b_size k0) 5) by (unfold k, painted; by rewrite Hlk0, bool_decide_eq_false_2, Hf5).
      rewrite Hk5 in Hsw. simpl in Hsw. destruct (absorbed_spec (sizes Bp + b_size k0) Bs) as (Bs' & HBs & Hfree & Htr).
      fold Bt in Htr. rewrite Htr in Hsw. simpl in Hsw.
      destruct Hsw as (h' & L' & Hrun & Hok' & Hf' & Ha' & P1 & P2 & _ & Hcov).
      set (m := (take_left Bl).2 + b_size k0 + sizes (absorbed Bs)) in *.
      assert (Esz : sizes ((take_left Bl).1 ++ [mkBlk m 0]) = sizes (Bp ++ k0 :: absorbed Bs)).
      { pose proof (take_left_sizes Bl). rewrite !sizes_app. simpl. unfold m. lia. }
      assert (Epos : sizes Bp + b_size k0 + sizes (absorbed Bs) = sizes (Bp ++ k0 :: absorbed Bs)) by (rewrite sizes_app; simpl; lia).
      rewrite Epos in *.
      exists (k0 :: absorbed Bs), Bs', ((take_left Bl).1 ++ [mkBlk m 0]), h'.
      split_and!; [simpl; by rewrite <- HBs|done|exact (Hstep _ _ Hrun)|]. constructor.
      * rewrite Hsplit, <- app_assoc. simpl. by rewrite <- HBs.
      * done.
      * by exists L'.
      * congruence.
      * done.
      * done.
      * apply clean_app. split; [by apply take_left_clean|]. by constructor; [left|].
      * intros x s. rewrite at_app, take_left_live, (Hkept x s), at_app. simpl. rewrite Z.add_0_l.
        pose proof (free_not_live _ x s Hfree (sizes Bp + b_size k0)). naive_solver.
      * apply Hpay'; [done|by rewrite Hk5|done].
      * intros x q [Hx|[[-> ->]|[]]]%at_app Hfq.
        -- apply Hcov. left. rewrite <- Hk5. eapply Hhint; [by apply take_left_at|done].
        -- apply Hcov. right. exists (mkBlk m 0). by rewrite last_snoc.
Qed.

End Sweeping.
End GcSweep.
