(* ===== verification/GcProps.v ===== *)
(** What a collection of src/execution/gc.rs achieves.  However its steps are
    sliced into maintenance budgets, it ends within a bound computed from the
    heap, frees exactly the objects the roots do not reach, keeps the others where
    and as they are, and leaves a heap on which the allocator's invariant holds
    and its search misses no free block. *)

From S2P Require Import Prelude Words Fields Errors Value Layout Heap HeapLists HeapInv HeapOps HeapProps Frame Gc GcInv.

Module GcProps.
Import Errors Layout Heap HeapView HeapClass HeapLists HeapInv HeapOps HeapProps Gc GcRoots GcHeap GcInv GcSweep.

Section Collection.
Context (image : ExecutionImage) (roots : RootSet) (h0 : Heap) (B0 : list blk) (vs : values).

(** A collection in progress that needs at most [n] more steps. *)
Inductive collecting : Collector -> Heap -> nat -> Prop :=
| in_roots M Q seen rest c h :
    phase c = Roots -> pending image roots c = Ok rest -> vs = seen ++ rest ->
    marking image h0 B0 vs M Q None seen c h ->
    collecting c h (length rest + mark_work image h0 B0 M Q None + length B0 + 3)
| in_mark M Q P c h :
    phase c = Mark -> marking image h0 B0 vs M Q P vs c h ->
    collecting c h (mark_work image h0 B0 M Q P + length B0 + 2)
| in_sweep M Bp Bs Bl c h :
    phase c = Sweep -> (forall x, x ∈ M <-> reachable image h0 vs x) ->
    sweeping h0 B0 M Bp Bs Bl c h -> collecting c h (length Bs + 1).

(** The objects of [h0] that are reachable, and nothing else, live in [h]. *)
Record collected (h : Heap) (B : list blk) : Prop := {
  d_inv : heap_inv h B;
  d_fmt : header_format h = header_format h0;
  d_clean : clean B;
  d_live : forall x s, at_off 0 B x (mkBlk s 5) <-> at_off 0 B0 x (mkBlk s 5) /\ reachable image h0 vs x;
  d_pay : forall x s, at_off 0 B x (mkBlk s 5) ->
    vtype h x = vtype h0 x /\ slice (x + 8) (s - 8) (arena h) = slice (x + 8) (s - 8) (arena h0);
  d_hint : hint_max h (free_map 0 B) }.

Context (Hclean : clean B0) (Hall : all_ok B0) (Hg : graph_ok image h0 B0) (Hr : roots_ok B0 vs).

Lemma collecting_pos c h n : collecting c h n -> (0 < n)%nat.
Proof using Type. destruct 1; lia. Qed.

Lemma marking_cursor M Q P done c c' h : gray c' = gray c -> scan c' = scan c ->
  marking image h0 B0 vs M Q P done c h -> marking image h0 B0 vs M Q P done c' h.
Proof using Type. intros Eg Es []. constructor; rewrite ?Eg, ?Es; done. Qed.

Lemma marking_root M Q P done c h v : marking image h0 B0 vs M Q P done c h ->
  (forall y, value_target v = Some y -> y ∈ M) -> marking image h0 B0 vs M Q P (done ++ [v]) c h.
Proof using Type.
  intros [? ? ? ? ? ? ? ? ? ? Hro ?] Hv. constructor; try done. intros w y [Hw|Hw]%elem_of_app; [by apply Hro|].
  apply list_elem_of_singleton in Hw as ->. apply Hv.
Qed.

(** The cursor moved and the queue did not. *)
Lemma next_root_keeps c : phase (next_root image roots c).2 = phase c /\ gray (next_root image roots c).2 = gray c /\
  scan (next_root image roots c).2 = scan c.
Proof using Type. split_and!; apply next_root_leaves; done. Qed.

Lemma pending_gray q c : pending image roots (set_gray q c) = pending image roots c.
Proof using Type. done. Qed.

Lemma root_step M Q seen rest c h : phase c = Roots -> pending image roots c = Ok rest -> vs = seen ++ rest ->
  marking image h0 B0 vs M Q None seen c h ->
  exists c' h' n', step image roots (c, h) = (Ok 1, (c', h')) /\ collecting c' h' n' /\
    (n' < length rest + mark_work image h0 B0 M Q None + length B0 + 3)%nat.
Proof using Hclean Hall Hr.
  intros Hph Hpe Hvs Hm. pose proof (next_root_iterates image roots c rest I Hpe) as Hn.
  pose proof (next_root_keeps c) as (Kp & Kg & Ks). unfold step. rewrite Hph. destruct rest as [|v rest].
  - destruct Hn as (c1 & Hrun & _). rewrite Hrun in *. simpl in *. rewrite app_nil_r in Hvs. subst seen.
    exists (set_phase Mark c1), h, (mark_work image h0 B0 M Q None + length B0 + 2)%nat. split_and!.
    + rewrite (st_bind_ok _ _ _ None (c1, h)) by (unfold on_cursor; by rewrite Hrun). done.
    + apply in_mark; [done|]. by apply (marking_cursor _ _ _ _ c).
    + lia.
  - destruct Hn as (c1 & Hrun & Hpe1). rewrite Hrun in *. simpl in *.
    destruct (enqueue_value_ok image h0 B0 vs Hclean Hall M Q None seen c1 h v) as (M' & Q' & q' & h' & He & Hm' & Hin & Hw).
    + by apply (marking_cursor _ _ _ _ c).
    + intros y Hy. assert (Hyr : y ∈ omap value_target vs).
      { apply list_elem_of_omap. exists v. split; [|done]. rewrite Hvs. apply elem_of_app. right. left. }
      split; [by apply (proj1 (Forall_forall _ _) Hr)|]. exists y. split; [done|apply rtc_refl].
    + exists (set_gray q' c1), h', (length rest + mark_work image h0 B0 M' Q' None + length B0 + 3)%nat. split_and!.
      * rewrite (st_bind_ok _ _ _ (Some v) (c1, h)) by (unfold on_cursor; by rewrite Hrun).
        by rewrite (st_bind_ok _ _ _ _ _ He).
      * apply (in_roots M' Q' (seen ++ [v]) rest); [by rewrite <- Hph|done|by rewrite <- app_assoc|].
        by apply marking_root.
      * unfold mark_work in *. simpl. lia.
Qed.

Lemma mark_phase_step M Q P c h : phase c = Mark -> marking image h0 B0 vs M Q P vs c h ->
  exists c' h' n', step image roots (c, h) = (Ok 1, (c', h')) /\ collecting c' h' n' /\
    (n' < mark_work image h0 B0 M Q P + length B0 + 2)%nat.
Proof using Hclean Hall Hg.
  intros Hph Hm. unfold step. rewrite Hph.
  destruct (mark_step_ok image h0 B0 vs Hclean Hall Hg M Q P vs c h Hm)
    as [(M' & Q' & P' & s' & q' & h' & Hrun & Hm' & Hw)|(-> & -> & Hrun)].
  - eexists _, h', _. split_and!; [by rewrite (st_bind_ok _ _ _ _ _ Hrun)|by apply (in_mark M' Q' P')|lia].
  - eexists _, h, _. split_and!; [by rewrite (st_bind_ok _ _ _ _ _ Hrun)| |].
    + apply (in_sweep M [] B0 []); [done| |].
      * intros x. by eapply marked_reachable.
      * destruct Hm as [[L Hok] Hp Hf _ _ _ _ _ _ _ _ _]. constructor; try done; simpl.
        -- by exists L.
        -- constructor.
        -- naive_solver.
        -- intros x k Hx Hl _. apply (Hp x k Hx). by apply live_flags.
    + unfold mark_work. lia.
Qed.

(** The end of the sweep. *)
Lemma sweep_done M Bp Bl c h : (forall x, x ∈ M <-> reachable image h0 vs x) ->
  sweeping h0 B0 M Bp [] Bl c h -> sweep_offset c = arena_bytes h /\ collected h Bl.
Proof using Type.
  intros HM [Hsplit Hsize [L Hok] Hfmt Hoff _ Hcl Hkept Hpay Hhint].
  cbn [paint] in *. rewrite app_nil_r in *. subst Bp. pose proof (k_sum _ _ _ _ Hok) as Hsum.
  split; [congruence|]. constructor.
  - exists L. rewrite <- Hsum. eapply heap_recut; [done|]. intros x k Hx Hle.
    pose proof (ok_all _ _ _ _ Hok) as Ha. pose proof (at_ok _ _ _ _ Ha Hx) as (? & _). apply at_range in Hx; [lia|done].
  - done.
  - done.
  - intros x s. by rewrite Hkept, HM.
  - intros x s Hx. apply Hkept in Hx as [Hx HxM]. by apply (Hpay x (mkBlk s 5)).
  - intros x s Hx. apply at_free in Hx; [|by eapply ok_all]. exact (Hhint x (mkBlk s 0) Hx eq_refl).
Qed.

Lemma sweep_phase_step M Bp Bs Bl c h : phase c = Sweep -> (forall x, x ∈ M <-> reachable image h0 vs x) ->
  sweeping h0 B0 M Bp Bs Bl c h ->
  exists c' h', step image roots (c, h) = (Ok 1, (c', h')) /\
    ((exists n', collecting c' h' n' /\ (n' < length Bs + 1)%nat) \/ (phase c' = Idle /\ collected h' Bl)).
Proof using Hclean Hall.
  intros Hph HM Hs. unfold step. rewrite Hph. destruct Bs as [|k0 Bs].
  - destruct (sweep_done _ _ _ _ _ HM Hs) as [Ho Hd]. exists (set_phase Idle c), h. split; [|by right].
    rewrite (st_bind_ok _ _ _ tt (set_phase Idle c, h)); [done|]. unfold sweep_step. by rewrite Ho, Z.eqb_refl.
  - destruct (sweep_next h0 B0 M Hclean Hall Bp k0 Bs Bl c h Hs) as (Bn & Bs' & Bl' & h' & Hsp & Hne & Hrun & Hs').
    eexists _, h'. split; [by rewrite (st_bind_ok _ _ _ _ _ Hrun)|]. left. eexists. split.
    + by apply (in_sweep M (Bp ++ Bn) Bs' Bl').
    + rewrite Hsp, length_app. destruct Bn; [done|]. simpl. lia.
Qed.

(** Every step succeeds, reports one unit and brings the end nearer. *)
Lemma collecting_step c h n : collecting c h n ->
  exists c' h', step image roots (c, h) = (Ok 1, (c', h')) /\
    ((exists n', collecting c' h' n' /\ (n' < n)%nat) \/ (phase c' = Idle /\ exists B, collected h' B)).
Proof using Hclean Hall Hg Hr.
  destruct 1 as [M Q seen rest c h Hph Hpe Hvs Hm|M Q P c h Hph Hm|M Bp Bs Bl c h Hph HM Hs].
  - destruct (root_step _ _ _ _ _ _ Hph Hpe Hvs Hm) as (c' & h' & n' & ? & ? & ?). eauto 10.
  - destruct (mark_phase_step _ _ _ _ _ Hph Hm) as (c' & h' & n' & ? & ? & ?). eauto 10.
  - destruct (sweep_phase_step _ _ _ _ _ _ Hph HM Hs) as (c' & h' & ? & [?|[? ?]]); eauto 10.
Qed.

Lemma collecting_active c h n : collecting c h n -> is_active c = true.
Proof using Type. destruct 1 as [? ? ? ? c h Hph|? ? ? c h Hph|? ? ? ? c h Hph]; unfold is_active; by rewrite Hph. Qed.

Context (Hn : (length (runtime_roots roots) <= RUNTIME_ROOTS)%nat).

(** A slice ends when its budget or the collection ends. *)
Lemma run_slice b : forall c h n consumed, collecting c h n -> consumed + Z.of_nat b <= u64_max ->
  exists k c' h', run_maintenance image roots b consumed (c, h) = (Ok (consumed + Z.of_nat k), (c', h')) /\
    ((k = b /\ exists n', collecting c' h' n' /\ (n' + k <= n)%nat) \/
     ((k <= b)%nat /\ (k <= n)%nat /\ phase c' = Idle /\ exists B, collected h' B)).
Proof using Hclean Hall Hg Hr Hn.
  induction b as [|b IH]; intros c h n consumed Hc Hb.
  - exists 0%nat, c, h. split; [cbn [run_maintenance]; by rewrite Z.add_0_r|]. left. split; [done|]. exists n. split; [done|lia].
  - destruct (collecting_step _ _ _ Hc) as (c1 & h1 & Hs & Hnext). cbn [run_maintenance].
    rewrite (collecting_active _ _ _ Hc). unfold checked_add. rewrite (proj2 (Z.leb_le _ _)) by lia.
    rewrite (proj2 (Nat.ltb_ge _ _) Hn).
    rewrite (st_bind_ok _ _ _ _ _ Hs). rewrite Z.eqb_refl. destruct Hnext as [(n1 & Hc1 & Hlt)|[Hi Hd]].
    + destruct (IH c1 h1 n1 (consumed + 1) Hc1) as (k & c' & h' & Hrun & Hend); [lia|].
      exists (S k), c', h'. split; [rewrite Hrun; do 2 f_equal; lia|].
      destruct Hend as [(-> & n' & ? & ?)|(? & ? & ? & ?)]; [left|right].
      * split; [done|]. exists n'. split; [done|lia].
      * split_and!; [lia|lia|done|done].
    + exists 1%nat, c1, h1. pose proof (collecting_pos _ _ _ Hc).
      split; [|right; split_and!; [lia|lia|done|done]].
      destruct b; [done|]. cbn [run_maintenance]. unfold is_active. by rewrite Hi.
Qed.

End Collection.

(** A collection spread over slices of the given budgets. *)
Fixpoint run_slices (image : ExecutionImage) (roots : RootSet) (budgets : list nat) (consumed : Z) : CollectM Z :=
  match budgets with
  | [] => mret consumed
  | b :: budgets =>
      consumed ← run_maintenance image roots b consumed;
      run_slices image roots budgets consumed
  end.

Lemma run_idle image roots budgets consumed c h : phase c = Idle ->
  run_slices image roots budgets consumed (c, h) = (Ok consumed, (c, h)).
Proof.
  intros Hi. induction budgets as [|b bs IH]; [done|]. cbn [run_slices].
  rewrite (st_bind_ok _ _ _ consumed (c, h)); [done|]. destruct b; [done|].
  cbn [run_maintenance]. unfold is_active. by rewrite Hi.
Qed.

Lemma run_slices_ok image roots h0 B0 vs budgets :
  clean B0 -> all_ok B0 -> graph_ok image h0 B0 -> roots_ok B0 vs ->
  (length (runtime_roots roots) <= RUNTIME_ROOTS)%nat -> forall c h n consumed,
  collecting image roots h0 B0 vs c h n -> (n <= sum_list budgets)%nat ->
  consumed + Z.of_nat (sum_list budgets) <= u64_max ->
  exists k c' h' B, run_slices image roots budgets consumed (c, h) = (Ok (consumed + Z.of_nat k), (c', h')) /\
    (k <= n)%nat /\ phase c' = Idle /\ collected image h0 B0 vs h' B.
Proof.
  intros Hclean Hall Hg Hr Hrr. induction budgets as [|b bs IH]; intros c h n consumed Hc Hn Hb.
  { simpl in Hn. apply collecting_pos in Hc. lia. }
  cbn [sum_list_with id] in *.
  destruct (run_slice image roots h0 B0 vs Hclean Hall Hg Hr Hrr b c h n consumed Hc) as (k & c1 & h1 & Hrun & Hend); [lia|].
  cbn [run_slices]. rewrite (st_bind_ok _ _ _ _ _ Hrun). destruct Hend as [(-> & n' & Hc1 & Hn')|(? & ? & Hi & B & Hd)].
  - destruct (IH c1 h1 n' (consumed + Z.of_nat b) Hc1) as (k & c' & h' & B & Hrun' & ? & ? & ?); [lia|lia|].
    exists (b + k)%nat, c', h', B. split_and!; try done; [|lia]. rewrite Hrun'. do 2 f_equal. lia.
  - exists k, c1, h1, B. rewrite run_idle by done. done.
Qed.

(** One step per root, per object and per slot of an object, one per block, and
    three changes of phase. *)
Definition collection_bound (image : ExecutionImage) (h : Heap) (B : list blk) (vs : values) : nat :=
  length vs + sum_list_with (fun x => S (length (object_slots image h x))) (live_offsets 0 B) + length B + 3.

Lemma collecting_start image roots h B vs c : heap_inv h B -> clean B -> roots_of image roots = Ok vs ->
  collecting image roots h B vs (start c) h (collection_bound image h B vs).
Proof.
  intros [L Hok] Hc Hv.
  assert (E : collection_bound image h B vs = (length vs + mark_work image h B ∅ [] None + length B + 3)%nat).
  { unfold collection_bound, mark_work, white. simpl. rewrite filter_all; [unfold cost; lia|].
    apply Forall_forall. intros x _. apply not_elem_of_empty. }
  rewrite E. apply (in_roots _ _ _ _ _ ∅ [] [] vs); [done|by rewrite pending_start|done|].
  constructor;
    try first [ done | apply NoDup_nil_2 | by constructor
              | by intros x Hx; apply elem_of_empty in Hx | by intros x Hx; apply not_elem_of_nil in Hx
              | by intros x i off y Hx; apply elem_of_empty in Hx
              | by intros v y Hx; apply not_elem_of_nil in Hx ].
  exists L. rewrite paint_empty. eapply heap_recut; [done|]. intros x k Hx ?.
  apply at_range in Hx; [lia|by eapply ok_all].
Qed.

(** ** The graph after a collection *)

Section After.
Context (image : ExecutionImage) (h h' : Heap) (B B' : list blk) (vs : values).
Context (Hc : clean B) (Hall : all_ok B) (Hg : graph_ok image h B) (Hr : roots_ok B vs).
Context (Hd : collected image h B vs h' B').

Lemma after_live x : live_object B' x <-> live_object B x /\ reachable image h vs x.
Proof using Hc Hd.
  split.
  - intros (k & Hx & Hl). pose proof (clean_live _ _ _ (d_clean _ _ _ _ _ _ Hd) Hx Hl) as H5.
    destruct k as [s f]. simpl in H5. subst f. apply (d_live _ _ _ _ _ _ Hd) in Hx as [Hx ?].
    split; [|done]. by exists (mkBlk s 5).
  - intros [(k & Hx & Hl) HR]. pose proof (clean_live _ _ _ Hc Hx Hl) as H5.
    destruct k as [s f]. simpl in H5. subst f. exists (mkBlk s 5). split; [|done].
    by apply (d_live _ _ _ _ _ _ Hd).
Qed.

(** The surviving objects, as a sequence to which [pay_kept] applies. *)
Lemma after_at x k : at_off 0 B' x k -> is_live k = true -> at_off 0 B x k /\ reachable image h vs x /\
  vtype h' x = vtype h x /\ object_slots image h' x = object_slots image h x /\
  (forall off, off ∈ object_slots image h x -> slot_value h' x off = slot_value h x off) /\ room h' k = room h k.
Proof using Hc Hall Hg Hd.
  intros Hx Hl. pose proof (clean_live _ _ _ (d_clean _ _ _ _ _ _ Hd) Hx Hl) as H5.
  destruct k as [s f]. simpl in H5. subst f. destruct (d_pay _ _ _ _ _ _ Hd x s Hx) as [Ht Hs].
  apply (d_live _ _ _ _ _ _ Hd) in Hx as [Hx HR].
  pose proof (d_fmt _ _ _ _ _ _ Hd) as Hf.
  assert (Hroom : room h' (mkBlk s 5) = room h (mkBlk s 5)) by (unfold room, payload_offset; by rewrite Hf).
  assert (Hsl : forall off len, 0 <= off -> 0 <= len -> off + len <= room h (mkBlk s 5) ->
    slice (x + payload_offset h' + off) len (arena h') = slice (x + payload_offset h + off) len (arena h)).
  { intros off len Ho Hn Hle. pose proof (at_range _ _ _ _ Hall Hx). unfold room, payload_offset in *. rewrite Hf.
    assert (8 <= header_bytes (header_format h)) by (by destruct (header_format h)). simpl in *.
    set (po := header_bytes (header_format h)) in *.
    replace (x + po + off) with (x + 8 + (po - 8 + off)) by lia.
    rewrite !(slice_slice _ (x + 8) (s - 8)) by lia. by rewrite Hs. }
  split_and!; try done.
  - unfold object_slots. rewrite Ht. destruct (g_layout _ _ _ Hg _ _ Hx Hl) as (_ & key & lay & -> & Hlay & Harr).
    simpl. rewrite Hlay. destruct lay as [l|e|]; [done| |done]. destruct e; try done.
    specialize (Harr eq_refl). pose proof (Hsl 0 4 ltac:(lia) ltac:(lia) ltac:(lia)) as E.
    rewrite !Z.add_0_r in E. by rewrite E.
  - intros off Ho. destruct (g_slots _ _ _ Hg _ _ _ Hx Hl Ho). unfold slot_value. by rewrite Hsl by lia.
Qed.

Lemma after_targets x : live_object B' x -> targets image h' x = targets image h x.
Proof using Hc Hall Hg Hd.
  intros (k & Hx & Hl). destruct (after_at x k Hx Hl) as (_ & _ & _ & Es & Ev & _).
  unfold targets. rewrite Es. apply list_omap_ext. apply Forall2_same_length_lookup. split; [done|].
  intros i a b Ha Hb. rewrite Ha in Hb. injection Hb as ->. rewrite Ev; [done|]. by eapply list_elem_of_lookup_2.
Qed.

Lemma after_graph : graph_ok image h' B' /\ roots_ok B' vs.
Proof using Hc Hall Hg Hr Hd.
  split.
  - constructor.
    + intros x k Hx Hl. destruct (after_at x k Hx Hl) as (Hx0 & _ & Ht & _ & _ & Er).
      rewrite Ht, Er. by apply (g_layout _ _ _ Hg).
    + intros x k off Hx Hl Ho. destruct (after_at x k Hx Hl) as (Hx0 & _ & _ & Es & _ & Er).
      rewrite Es in Ho. rewrite Er. by apply (g_slots _ _ _ Hg _ _ _ Hx0 Hl).
    + intros x y Hx He. unfold edge in He. rewrite after_targets in He by done.
      apply after_live in Hx as [Hx HR]. apply after_live. split; [by eapply (g_edges _ _ _ Hg)|].
      by eapply reach_edge.
  - apply Forall_forall. intros y Hy. apply after_live. split; [by apply (proj1 (Forall_forall _ _) Hr)|].
    exists y. split; [done|apply rtc_refl].
Qed.
End After.

(** ** Example: a cycle of two objects and a third that nothing refers to *)

(** An object of type 3 at 0 refers to an array of references at 32, which refers
    back to it; the object of type 2 at 56 is garbage. *)
Definition demo_garbage : Heap := (run_op (OCommit 56 2) (run_op (OReserve 24 2) demo_live).2).2.
Definition demo_object : Heap := (run_op (OWrite 0 0 (le_bytes 4 40)) demo_garbage).2.
Definition demo_graph : Heap := (run_op (OWrite 32 0 (le_bytes 8 2 ++ le_bytes 4 8 ++ le_bytes 4 0)) demo_object).2.
Definition demo_blocks : list blk := [mkBlk 32 5; mkBlk 24 5; mkBlk 24 5; mkBlk 48 0].

Definition demo_image : ExecutionImage :=
  mkImage [0; 4] [NonHeap; Array Ref; NonHeap; Object (mkObjectLayout 8 24 [] [0])]
    [mkTypeKey 0 0; mkTypeKey 0 1; mkTypeKey 0 2; mkTypeKey 0 3] [] [].

Definition demo_roots : RootSet :=
  mkRootSet (Frame.mkStaticArena (Frame.mkFrameArena [] None) (Frame.mkFrameLayout 0 1 []) (Frame.mkFrameReservation 0 0))
    [] [] [] (Frame.mkFrameArena [] None) 0 [None; Some (Value.mkRef32 8)] [].

Lemma demo_graph_inv : heap_inv demo_graph demo_blocks.
Proof.
  apply (demo_step demo_object demo_blocks); [|eexists (mkBlk 24 5)|vm_compute; reflexivity].
  2: { split; [right; by left|]. split_and!; [done|by repeat constructor|done|vm_compute; discriminate]. }
  apply (demo_step demo_garbage demo_blocks); [|eexists (mkBlk 32 5)|vm_compute; reflexivity].
  2: { split; [by left|]. split_and!; [done|by repeat constructor|done|vm_compute; discriminate]. }
  apply (demo_step _ [mkBlk 32 5; mkBlk 24 5; mkBlk 24 1; mkBlk 48 0]); [| |vm_compute; reflexivity].
  - apply (demo_step _ _ _ _ demo_live_inv); [done|vm_compute; reflexivity].
  - split; [apply demo_type; [vm_compute; reflexivity|lia]|exists 24; right; right; by left].
Qed.

Lemma demo_objects x k : at_off 0 demo_blocks x k -> is_live k = true ->
  (x = 0 /\ k = mkBlk 32 5) \/ (x = 32 /\ k = mkBlk 24 5) \/ (x = 56 /\ k = mkBlk 24 5).
Proof. intros [[-> ->]|[[-> ->]|[[-> ->]|[[-> ->]|[]]]]] Hl; [auto..|done]. Qed.

Lemma demo_live_0 : live_object demo_blocks 0.
Proof. exists (mkBlk 32 5). split; [left; split; reflexivity|reflexivity]. Qed.

Lemma demo_live_32 : live_object demo_blocks 32.
Proof. exists (mkBlk 24 5). split; [right; left; split; reflexivity|reflexivity]. Qed.

Lemma demo_slots : object_slots demo_image demo_graph 0 = [0] /\ object_slots demo_image demo_graph 32 = [8; 12] /\
  object_slots demo_image demo_graph 56 = [].
Proof. vm_compute. done. Qed.

Lemma demo_targets : targets demo_image demo_graph 0 = [32] /\ targets demo_image demo_graph 32 = [0] /\
  targets demo_image demo_graph 56 = [].
Proof. vm_compute. done. Qed.

Lemma demo_clean : clean demo_blocks.
Proof. unfold clean. repeat (apply Forall_cons; split); auto. Qed.

Lemma demo_graph_ok : graph_ok demo_image demo_graph demo_blocks.
Proof.
  destruct demo_slots as (S0 & S1 & S2), demo_targets as (T0 & T1 & T2). constructor.
  - intros x k Hx Hl. destruct (demo_objects x k Hx Hl) as [[-> ->]|[[-> ->]|[-> ->]]];
      (split; [vm_compute; discriminate|]).
    1: exists (mkTypeKey 0 3), (Object (mkObjectLayout 8 24 [] [0])).
    2: exists (mkTypeKey 0 1), (Array Ref).
    3: exists (mkTypeKey 0 2), NonHeap.
    all: split_and!; [vm_compute; reflexivity..|by vm_compute].
  - intros x k off Hx Hl. destruct (demo_objects x k Hx Hl) as [[-> ->]|[[-> ->]|[-> ->]]];
      rewrite ?S0, ?S1, ?S2, ?elem_of_cons, ?elem_of_nil; unfold room.
    all: change (payload_offset demo_graph) with 8; simpl; lia.
  - intros x y (k & Hx & Hl). unfold edge.
    destruct (demo_objects x k Hx Hl) as [[-> ->]|[[-> ->]|[-> ->]]]; rewrite ?T0, ?T1, ?T2, ?list_elem_of_singleton; clear.
    + intros ->. apply demo_live_32.
    + intros ->. apply demo_live_0.
    + by intros ?%elem_of_nil.
Qed.

Lemma demo_roots_ok : roots_ok demo_blocks [Value.Reference (Value.mkRef32 8)].
Proof. unfold roots_ok. apply Forall_cons. split; [apply demo_live_0|constructor]. Qed.

Lemma demo_unreachable : ~ reachable demo_image demo_graph [Value.Reference (Value.mkRef32 8)] 56.
Proof.
  destruct demo_targets as (T0 & T1 & _). intros (r & Hr & Hp).
  assert (H : forall a b, rtc (edge demo_image demo_graph) a b -> a = 0 \/ a = 32 -> b = 0 \/ b = 32).
  { induction 1 as [|a b c He _ IH]; [done|]. intros Ha. apply IH. unfold edge in He.
    destruct Ha as [-> | ->]; rewrite ?T0, ?T1, list_elem_of_singleton in He; auto. }
  apply list_elem_of_singleton in Hr. destruct (H r 56 Hp); [by left|done..].
Qed.

(** C2. A collection frees exactly the unreachable objects.  From a heap whose
    objects form a well-formed graph, with no open reservation, and with readable
    roots that refer to live objects and runtime roots that fit their buffer, a started collection whose steps are spread
    over any maintenance slices ends as soon as the slices together allow for the
    computed bound, without a fault and charging at most the bound.  Afterwards
    the live objects are exactly the previously live ones that the roots reach, at
    the same offsets with the same types and payload bytes; the allocator
    invariant holds, the marks are gone, the largest-block hint is current, and
    the object graph and the roots are well formed again. *)
Theorem collection_correct (image : ExecutionImage) (roots : RootSet) (h : Heap) (B : list blk) (c : Collector)
    (vs : values) (budgets : list nat) (consumed : Z) :
  heap_inv h B -> clean B -> graph_ok image h B ->
  roots_of image roots = Ok vs -> roots_ok B vs -> (length (runtime_roots roots) <= RUNTIME_ROOTS)%nat ->
  (collection_bound image h B vs <= sum_list budgets)%nat ->
  consumed + Z.of_nat (sum_list budgets) <= u64_max ->
  exists k c' h' B', run_slices image roots budgets consumed (start c, h) = (Ok (consumed + Z.of_nat k), (c', h')) /\
    (k <= collection_bound image h B vs)%nat /\ phase c' = Idle /\ heap_inv h' B' /\ clean B' /\
    (forall x s, at_off 0 B' x (mkBlk s 5) <-> at_off 0 B x (mkBlk s 5) /\ reachable image h vs x) /\
    (forall x s, at_off 0 B' x (mkBlk s 5) -> vtype h' x = vtype h x /\
       slice (x + 8) (s - 8) (arena h') = slice (x + 8) (s - 8) (arena h)) /\
    hint_max h' (free_map 0 B') /\ graph_ok image h' B' /\ roots_ok B' vs.
Proof.
  intros Hi Hc Hg Hv Hr Hrr Hb Hu. assert (Hall : all_ok B) by (destruct Hi as [L Hok]; by eapply ok_all).
  pose proof (collecting_start image roots h B vs c Hi Hc Hv) as Hst.
  destruct (run_slices_ok _ _ _ _ _ budgets Hc Hall Hg Hr Hrr _ _ _ consumed Hst Hb Hu)
    as (k & c' & h' & B' & Hrun & Hk & Hid & Hd).
  destruct (after_graph image h h' B B' vs Hc Hall Hg Hr Hd) as [Hg' Hr'].
  exists k, c', h', B'. destruct Hd. split_and!; done.
Qed.

Lemma collection_correct_witness : exists k c' h' B',
  run_slices demo_image demo_roots [3; 9; 20]%nat 100 (start Collector_new, demo_graph) = (Ok (100 + Z.of_nat k), (c', h')) /\
  heap_inv h' B' /\ live_object B' 32 /\ ~ live_object B' 56.
Proof.
  destruct (collection_correct demo_image demo_roots demo_graph demo_blocks Collector_new
    [Value.Reference (Value.mkRef32 8)] [3; 9; 20]%nat 100)
    as (k & c' & h' & B' & Hrun & _ & _ & Hi & Hc & Hlive & _).
  - exact demo_graph_inv.
  - exact demo_clean.
  - exact demo_graph_ok.
  - vm_compute. reflexivity.
  - exact demo_roots_ok.
  - vm_compute. lia.
  - vm_compute. lia.
  - vm_compute. discriminate.
  - exists k, c', h', B'. split; [exact Hrun|]. split; [exact Hi|]. split.
    + exists (mkBlk 24 5). split; [|reflexivity]. apply Hlive. split; [right; left; split; reflexivity|].
      exists 0. split; [apply list_elem_of_singleton; reflexivity|].
      apply rtc_once. unfold edge. rewrite (proj1 demo_targets). apply list_elem_of_singleton. reflexivity.
    + intros (q & Hq & Hl). pose proof (clean_live _ _ _ Hc Hq Hl) as H5. destruct q as [s f]. simpl in H5. subst f.
      apply Hlive in Hq as [_ Hq]. exact (demo_unreachable Hq).
Defined.

(** C5. After a collection, allocation succeeds whenever it can: a request of an
    admissible size is served if and only if some free block is large enough, and
    what it takes leaves every other object alone. *)
Theorem collection_then_reserve (image : ExecutionImage) (roots : RootSet) (h : Heap) (B : list blk)
    (c : Collector) (vs : values) (budgets : list nat) (bytes ty : Z) :
  heap_inv h B -> clean B -> graph_ok image h B ->
  roots_of image roots = Ok vs -> roots_ok B vs -> (length (runtime_roots roots) <= RUNTIME_ROOTS)%nat ->
  (collection_bound image h B vs <= sum_list budgets)%nat -> Z.of_nat (sum_list budgets) <= u64_max ->
  size_ok bytes = true -> bytes <= u32_max ->
  exists k c' h' B' r h'', run_slices image roots budgets 0 (start c, h) = (Ok k, (c', h')) /\ heap_inv h' B' /\
    reserve (mkRequest bytes ty) h' = (Ok r, h'') /\
    (is_Some r <-> exists x q, at_off 0 B' x q /\ is_free q = true /\ bytes <= b_size q) /\
    (forall res, r = Some res -> exists B1 s B2, B' = B1 ++ mkBlk s 0 :: B2 /\ bytes <= s /\
       res = mkReserved (sizes B1) ty /\ heap_inv h'' (B1 ++ split_blocks s bytes ++ B2)).
Proof.
  intros Hi Hc Hg Hv Hr Hrr Hb Hu Hs Hmax. assert (Hall : all_ok B) by (destruct Hi as [L Hok]; by eapply ok_all).
  pose proof (collecting_start image roots h B vs c Hi Hc Hv) as Hst.
  destruct (run_slices_ok _ _ _ _ _ budgets Hc Hall Hg Hr Hrr _ _ _ 0 Hst Hb) as (k & c' & h' & B' & Hrun & _ & _ & Hd); [lia|].
  destruct (d_inv _ _ _ _ _ _ Hd) as [L Hok]. pose proof (k_sum _ _ _ _ Hok) as Hsum.
  destruct (reserve_ok _ _ _ _ bytes ty Hok (Z.le_refl _) Hs Hmax) as (r & h'' & Hres & Hro).
  eexists _, c', h', B', r, h''. split_and!; [exact Hrun|by exists L|done| |].
  - destruct r as [res|].
    + destruct Hro as (B1 & s & B2 & L' & -> & Hle & _). split; [|by eexists].
      intros _. exists (sizes B1), (mkBlk s 0). split; [|done]. pose proof (at_mid 0 B1 (mkBlk s 0) B2) as H. by rewrite Z.add_0_l in H.
    + destruct Hro as (_ & Hno & _). split; [by intros [? ?]|]. intros (x & q & Hx & Hf & Hle).
      pose proof (Hno (d_hint _ _ _ _ _ _ Hd) x q Hx Hf). lia.
  - intros res ->. destruct Hro as (B1 & s & B2 & L' & -> & Hle & -> & Hok' & _). exists B1, s, B2.
    split_and!; try done. eapply same_arena; [done|]. rewrite <- Hsum, !sizes_app, split_sizes. done.
Qed.

Lemma collection_then_reserve_witness : exists k c' h' r h'',
  run_slices demo_image demo_roots [40]%nat 0 (start Collector_new, demo_graph) = (Ok k, (c', h')) /\
  reserve (mkRequest 64 2) h' = (Ok (Some r), h'').
Proof.
  destruct (collection_then_reserve demo_image demo_roots demo_graph demo_blocks Collector_new
    [Value.Reference (Value.mkRef32 8)] [40]%nat 64 2)
    as (k & c' & h' & B' & r & h'' & Hrun & _ & Hres & _ & _).
  - exact demo_graph_inv.
  - exact demo_clean.
  - exact demo_graph_ok.
  - vm_compute. reflexivity.
  - exact demo_roots_ok.
  - vm_compute. lia.
  - vm_compute. lia.
  - vm_compute. discriminate.
  - reflexivity.
  - discriminate.
  - assert (E : (reserve (mkRequest 64 2) (run_slices demo_image demo_roots [40]%nat 0 (start Collector_new, demo_graph)).2.2).1
      = Ok (Some (mkReserved 56 2))) by (vm_compute; reflexivity).
    rewrite Hrun in E. simpl in E. rewrite Hres in E. simpl in E. injection E as ->.
    exists k, c', h', (mkReserved 56 2), h''. split; [exact Hrun|exact Hres].
Defined.

End GcProps.
