(* ===== verification/Alloc.v ===== *)
(** Allocating an object: [AllocationRetry::reserve] of src/execution/machine.rs
    takes the block, [PendingAllocation::advance] of src/execution/heap_ops.rs
    clears it in units of sixteen bytes as the budget of each slice allows, and
    publishes the object at the end. *)

From S2P Require Import Prelude Words Fields Errors Value Layout Heap HeapLists HeapInv HeapOps HeapProps Frame Gc GcInv.

Module Alloc.
Import Errors Layout Heap HeapView HeapClass HeapLists HeapInv HeapOps HeapProps Gc GcHeap.

Inductive AllocationShape := ShapeObject | ShapeException | ShapeArray (length : Z).

(** [source] only serves the diagnostic of a failed allocation. *)
Record AllocationRetry := mkRetry {
  ar_request : AllocationRequest; ar_destination : Z; ar_logical_bytes : Z; ar_shape : AllocationShape }.

Definition retry_reserve (r : AllocationRetry) (collection_attempted : bool) : HeapM (option PendingAllocation) :=
  reservation ← reserve (ar_request r);
  match reservation with
  | None => mret None
  | Some reservation =>
      let state := mkPending (ar_request r) reservation (ar_destination r) (ar_logical_bytes r) 0 true
                     collection_attempted in
      mret (Some (match ar_shape r with
                  | ShapeObject => PObject state
                  | ShapeException => PException state
                  | ShapeArray length => PArray state length
                  end))
  end.

(** [resume_pending_allocation] up to the register write: the cost is charged
    first; a failure gives the block back. *)
Definition resume_pending_allocation (budget consumed : Z) : PendingM (Z * option Value.Ref32) := fun '(p, h) =>
  match checked_add u64_max consumed (units_for_budget p budget) with
  | None => (Err AccountingOverflow, (p, (pending_abort p h).2))
  | Some consumed =>
      match advance budget (p, h) with
      | (Ok (_, published), s) => (Ok (consumed, published), s)
      | (Err fault, (p, h)) => (Err fault, (p, (pending_abort p h).2))
      | (Panic, s) => (Panic, s)
      end
  end.

(** The slices of an allocation: each resumes it with its budget until the object
    is published. *)
Fixpoint run_advance (budgets : list Z) (consumed : Z) : PendingM (Z * option Value.Ref32) :=
  match budgets with
  | [] => mret (consumed, None)
  | b :: budgets =>
      '(consumed, published) ← resume_pending_allocation b consumed;
      match published with
      | Some r => mret (consumed, Some r)
      | None => run_advance budgets consumed
      end
  end.

(** ** Writing to a reservation *)

Section Reserved.
Context (cut : Z) (h : Heap) (B1 B2 : list blk) (s ty : Z) (L : list (list Z)).
Context (Hok : heap_ok cut h (B1 ++ mkBlk s 1 :: B2) L).

(** Where the payload starts. *)
Let start (off : Z) : Z := sizes B1 + payload_offset h + off.

(** [h'] is [h] with bytes of the payload overwritten. *)
Definition wrote (off : Z) (bs : list Z) (h' : Heap) : Prop :=
  heap_ok cut h' (B1 ++ mkBlk s 1 :: B2) L /\ sides_kept h h' B1 s B2 /\
  header_format h' = header_format h /\ arena h' = splice (start off) bs (arena h).

Lemma reserved_prefix off : 0 <= off <= room h (mkBlk s 1) ->
  capacity h (sizes B1) = Ok (room h (mkBlk s 1)) /\ payload_start h (sizes B1) off = Ok (start off) /\
  8 <= payload_offset h <= 12 /\ 0 <= start off <= sizes B1 + s /\ sizes B1 + s <= arena_bytes h /\
  arena_bytes h <= Value.MAX_PAYLOAD /\ 0 <= sizes B1.
Proof using Hok.
  intros Hoff. pose proof (l_geom _ _ _ (k_lists _ _ _ _ Hok)) as Hg.
  destruct (pos_bounds _ _ _ _ _ _ Hok) as (? & ? & ? & ? & ? & ? & ?). pose proof (g_size _ Hg) as Hgs.
  destruct (pos_seg _ _ _ _ _ _ Hok) as (_ & Hvs & _). destruct (pos_ok _ _ _ _ _ _ Hok) as (_ & _ & Hks & _).
  pose proof (pos_bo _ _ _ _ _ _ Hok) as Hbo. unfold room, start in *. cbn [b_size] in *.
  assert (Hhb : 8 <= payload_offset h <= 12) by (unfold payload_offset; by destruct (header_format h)).
  rewrite Value.MAX_PAYLOAD_eq in *. split_and!; try lia.
  - unfold capacity. rewrite block_size_view, Hvs, Hks by done. bind_simp.
    unfold checked_sub. by rewrite (proj2 (Z.leb_le _ _)) by lia.
  - unfold payload_start. rewrite checked_add_le by (unfold u32_max; lia). bind_simp.
    by rewrite checked_add_le by (unfold u32_max; lia).
Qed.

Lemma splice_wrote off bs : is_bytes bs -> 0 <= off -> off + Z.of_nat (length bs) <= room h (mkBlk s 1) ->
  wrote off bs (set_arena (splice (start off) bs (arena h)) h).
Proof using Hok.
  intros Hb Ho Hle. destruct (reserved_prefix off) as (_ & _ & ? & ? & ? & ? & ?); [lia|].
  pose proof (l_geom _ _ _ (k_lists _ _ _ _ Hok)) as Hg. unfold room in Hle. cbn [b_size] in Hle.
  set (h' := set_arena (splice (start off) bs (arena h)) h).
  assert (Ht : touch (fun i => start off <= i < start off + Z.of_nat (length bs)) h h')
    by (apply splice_touch; try done; unfold start in *; lia).
  destruct (payload_touch cut h h' B1 (mkBlk s 1) B2 L _ _ Hok eq_refl Ht) as (? & ? & ?);
    [unfold start, payload_offset; lia|unfold start; simpl; lia|]. by split_and!.
Qed.

Lemma zero_reserved_ok off len : 0 <= off -> 0 <= len -> off + len <= room h (mkBlk s 1) ->
  exists h', zero_reserved_payload (mkReserved (sizes B1) ty) off len h = (Ok tt, h') /\
    wrote off (replicate (Z.to_nat len) 0) h'.
Proof using Hok.
  intros Ho Hl Hle. destruct (reserved_prefix off) as (Hcap & Hst & ? & ? & ? & Hmax & ?); [lia|].
  pose proof (l_geom _ _ _ (k_lists _ _ _ _ Hok)) as Hg. rewrite Value.MAX_PAYLOAD_eq in Hmax.
  assert (Hz : is_bytes (replicate (Z.to_nat len) 0)) by (apply Forall_replicate; unfold is_byte; lia).
  eexists. split; [|apply splice_wrote; [done|done|rewrite length_replicate; lia]].
  unfold room in *. cbn [b_size] in *. unfold zero_reserved_payload.
  rewrite (st_bind_ok _ _ _ tt h) by (unfold st_read; by rewrite (validate_ok cut h B1 s B2 L ty Hok)). cbn [block].
  rewrite (st_bind_ok _ _ _ (s - payload_offset h) h) by (unfold st_read; by rewrite Hcap).
  rewrite checked_add_le by (unfold u32_max; lia). rewrite (st_bind_ok _ _ _ (off + len) h) by done.
  rewrite (proj2 (Z.ltb_ge _ _)) by lia.
  rewrite (st_bind_ok _ _ _ (start off) h) by (unfold st_read; by rewrite Hst).
  rewrite (proj2 (Z.ltb_ge _ _)) by (unfold start, u32_max in *; lia).
  apply write_bytes_ok; [done|lia|rewrite length_replicate; unfold start in *; lia|done].
Qed.

Lemma write_length_ok value : 4 <= room h (mkBlk s 1) ->
  exists h', write_reserved_u32 (mkReserved (sizes B1) ty) 0 value h = (Ok tt, h') /\ wrote 0 (le_bytes 4 value) h'.
Proof using Hok.
  intros Hle. destruct (reserved_prefix 0) as (Hcap & Hst & ? & ? & ? & Hmax & ?); [lia|].
  pose proof (l_geom _ _ _ (k_lists _ _ _ _ Hok)) as Hg. rewrite Value.MAX_PAYLOAD_eq in Hmax.
  eexists. split; [|apply splice_wrote; [apply le_bytes_is_bytes|done|rewrite le_bytes_length; lia]].
  unfold room in *. cbn [b_size] in *. unfold write_reserved_u32.
  rewrite (st_bind_ok _ _ _ tt h) by (unfold st_read; by rewrite (validate_ok cut h B1 s B2 L ty Hok)). cbn [block].
  rewrite (st_bind_ok _ _ _ (s - payload_offset h) h) by (unfold st_read; by rewrite Hcap).
  rewrite checked_add_le by (unfold u32_max; lia). rewrite (st_bind_ok _ _ _ (0 + 4) h) by done.
  rewrite (proj2 (Z.ltb_ge _ _)) by lia.
  rewrite (st_bind_ok _ _ _ (start 0) h) by (unfold st_read; by rewrite Hst).
  rewrite <- (write_bytes_ok h (start 0) (le_bytes 4 value)); [|done|lia|rewrite le_bytes_length; unfold start in *; lia|apply le_bytes_is_bytes].
  cbn [le_bytes write_bytes_from]. unfold start in *. unfold u32_max.
  rewrite !(proj2 (Z.ltb_ge _ _)) by lia. done.
Qed.
End Reserved.

(** ** One slice *)

(** What a published object holds. *)
Definition fresh_payload (p : PendingAllocation) (logical : Z) : list Z :=
  match p with
  | PArray _ length => le_bytes 4 length ++ replicate (Z.to_nat (logical - 4)) 0
  | _ => replicate (Z.to_nat logical) 0
  end.

Section Advance.
Context (cut : Z) (h0 : Heap) (B1 B2 : list blk) (s ty : Z) (L : list (list Z)).
Context (rq : AllocationRequest) (logical : Z).
Let po : Z := payload_offset h0.
Context (Hrq : request_block_bytes rq <= s) (Hlog : 0 <= logical <= request_block_bytes rq - po).

(** The first [i] of the [logical] bytes are clear. *)
Record initializing (p : PendingAllocation) (i : Z) (h : Heap) : Prop := {
  a_ok : heap_ok cut h (B1 ++ mkBlk s 1 :: B2) L;
  a_fmt : header_format h = header_format h0;
  a_sides : sides_kept h0 h B1 s B2;
  a_req : p_request (pending_state p) = rq;
  a_res : p_reservation (pending_state p) = mkReserved (sizes B1) ty;
  a_log : p_logical_bytes (pending_state p) = logical;
  a_init : p_initialized_bytes (pending_state p) = i;
  a_paid : p_fixed_cost_paid (pending_state p) = true;
  a_range : 0 <= i <= logical;
  a_clear : slice (sizes B1 + po) i (arena h) = replicate (Z.to_nat i) 0 }.

Lemma initializing_bounds p i h : initializing p i h ->
  payload_offset h = po /\ 8 <= po <= 12 /\ 0 <= sizes B1 /\ sizes B1 + s <= arena_bytes h /\
  arena_bytes h <= 2 ^ 30 - 1 /\ Z.of_nat (length (arena h)) = arena_bytes h /\ 16 <= s.
Proof using Type.
  intros [Hok Hf _ _ _ _ _ _ _ _]. pose proof (l_geom _ _ _ (k_lists _ _ _ _ Hok)) as Hg.
  destruct (reserved_prefix cut h B1 B2 s L Hok 0) as (_ & _ & ? & _ & ? & Hm & ?).
  { destruct (pos_bounds _ _ _ _ _ _ Hok) as (? & ? & ? & ? & ? & ? & ?). unfold room, payload_offset. cbn [b_size] in *.
    destruct (header_format h); unfold header_bytes, LEGACY_HEAP_HEADER_BYTES, BLOCK_HEADER_BYTES in *; lia. }
  rewrite Value.MAX_PAYLOAD_eq in Hm. pose proof (g_len _ Hg) as Hl.
  destruct (pos_bounds _ _ _ _ _ _ Hok) as (? & ? & ? & ? & ? & ? & ?). cbn [b_size] in *.
  assert (payload_offset h = po) by (unfold po, payload_offset; by rewrite Hf).
  split_and!; try done; try lia.
Qed.

(** Clearing bytes from [i] on extends what is clear. *)
Lemma zero_extends p i h len i' : initializing p i h -> 0 <= len -> i + len <= request_block_bytes rq - po ->
  i' <= i + len -> 0 <= i' <= logical ->
  exists h', zero_reserved_payload (mkReserved (sizes B1) ty) i len h = (Ok tt, h') /\
    forall p', pending_state p' = set_initialized i' (pending_state p) -> initializing p' i' h'.
Proof using Hrq Hlog.
  intros Ha Hl Hle Hi Hr. destruct (initializing_bounds _ _ _ Ha) as (Epo & ? & ? & ? & ? & Hlen & ?).
  destruct Ha as [Hok Hf Hsd Er Es El Ei Ep Hi0 Hc].
  destruct (zero_reserved_ok cut h B1 B2 s ty L Hok i len) as (h' & Hrun & Hok' & Hsd' & Hf' & Har);
    [lia|lia|unfold room; simpl; lia|].
  exists h'. split; [done|]. intros p' Ep'. rewrite Epo in Har.
  constructor; rewrite ?Ep'; try done.
  - by rewrite Hf'.
  - by eapply sides_kept_trans.
  - rewrite Har. apply slice_const; [lia|lia|]. intros j Hj.
    pose proof Hc as Hcj. rewrite slice_const in Hcj by lia.
    destruct (decide (Z.of_nat j < sizes B1 + po + i)) as [Hlt|Hge].
    + rewrite splice_lookup_ne by (rewrite ?length_replicate; lia). apply Hcj. lia.
    + rewrite splice_lookup_eq by (rewrite ?length_replicate; lia). apply lookup_replicate. split; [done|lia].
Qed.

Definition length_fits (p : PendingAllocation) : Prop :=
  match p with PArray _ length => 4 <= logical | _ => True end.

(** The end of [advance]. *)
Lemma publish_ok p h : initializing p logical h -> length_fits p -> type_ok h0 ty ->
  exists h', (forall A (f : Value.Ref32 -> PendingM A), (_ ← (match p with
            | PArray _ length => in_heap (write_reserved_u32 (p_reservation (pending_state p)) 0 length)
            | _ => mret tt
            end);
       reference ← in_heap (commit (p_reservation (pending_state p)));
       f reference) (p, h) = f (ref_of (sizes B1)) (p, h')) /\
    heap_ok cut h' (B1 ++ mkBlk s 5 :: B2) L /\ sides_kept h0 h' B1 s B2 /\ vtype h' (sizes B1) = ty /\
    slice (sizes B1 + po) logical (arena h') = fresh_payload p logical.
Proof using Hrq Hlog.
  intros Ha Hfit Hty. destruct (initializing_bounds _ _ _ Ha) as (Epo & ? & ? & ? & ? & Hlen & ?).
  destruct Ha as [Hok Hf Hsd Er Es El Ei Ep Hi0 Hc]. rewrite Es.
  assert (exists h1, (match p with
      | PArray _ length => in_heap (write_reserved_u32 (mkReserved (sizes B1) ty) 0 length)
      | _ => mret tt end) (p, h) = (Ok tt, (p, h1)) /\ heap_ok cut h1 (B1 ++ mkBlk s 1 :: B2) L /\
      sides_kept h h1 B1 s B2 /\ header_format h1 = header_format h /\
      slice (sizes B1 + po) logical (arena h1) = fresh_payload p logical) as (h1 & Hrun1 & Hok1 & Hs1 & Hf1 & Hc1).
  { destruct p as [st|st|st n].
    1,2: exists h; split_and!; try done; apply sides_kept_refl.
    destruct (write_length_ok cut h B1 B2 s ty L Hok n) as (h1 & Hrun & Hok1 & Hs1 & Hf1 & Har).
    { unfold room. simpl in *. lia. }
    exists h1. rewrite Epo, Z.add_0_r in Har. split_and!; try done; [unfold in_heap; by rewrite Hrun|].
    cbn [length_fits fresh_payload] in *. rewrite Har, <- (Z.add_0_r (sizes B1 + po)) at 1.
    rewrite Z.add_0_r. rewrite <- (Z.add_0_r (sizes B1 + po)) at 2.
    rewrite slice_splice_in by (rewrite ?le_bytes_length; lia). rewrite Hc.
    unfold splice. rewrite le_bytes_length, drop_replicate.
    by replace (Z.to_nat (logical - 4)) with (Z.to_nat logical - (Z.to_nat 0 + 4))%nat by lia. }
  assert (Hty1 : type_ok h1 ty) by (unfold type_ok; rewrite Hf1, Hf; exact Hty).
  destruct (commit_ok cut h1 B1 s B2 L ty Hok1 Hty1) as (h2 & Hrun2 & Hok2 & Hs2 & Ht2 & Hf2 & Hc2).
  exists h2. split_and!; [|done| |done|].
  - intros A f. rewrite (st_bind_ok _ _ _ _ _ Hrun1). rewrite (st_bind_ok _ _ _ (ref_of (sizes B1)) (p, h2)); [done|].
    unfold in_heap. by rewrite Hrun2.
  - eapply sides_kept_trans; [exact Hsd|]. by eapply sides_kept_trans.
  - rewrite <- Hc1. assert (E1 : payload_offset h1 = po) by (unfold payload_offset; rewrite Hf1; exact Epo). rewrite E1 in Hc2.
    rewrite <- (Z.add_0_r (sizes B1 + po)), !(slice_slice _ (sizes B1 + po) (s - po)) by lia. by rewrite Hc2.
Qed.

(** Units a slice of budget [b] uses. *)
Definition slice_units (i b : Z) : Z := Z.min b ((logical - i + 15) / 16).

Lemma units_ok p i h b : initializing p i h -> units_for_budget p b = slice_units i b.
Proof using Hrq Hlog.
  intros Ha. destruct (initializing_bounds _ _ _ Ha) as (_ & ? & ? & ? & ? & _ & _).
  unfold units_for_budget, slice_units, saturating_add, saturating_sub.
  rewrite (a_log _ _ _ Ha), (a_init _ _ _ Ha). pose proof (a_range _ _ _ Ha).
  by rewrite Z.max_r, (Z.min_r u32_max) by (unfold u32_max; lia).
Qed.

Lemma slice_units_range i b : 0 <= i <= logical -> 0 <= b ->
  0 <= slice_units i b <= b /\ i + slice_units i b * 16 < logical + 16 /\ (slice_units i b = 0 -> b = 0 \/ i = logical).
Proof using logical.
  clear. intros Hi Hb. unfold slice_units. pose proof (Z.div_pos (logical - i + 15) 16).
  pose proof (Z.mul_div_le (logical - i + 15) 16). pose proof (Z.mul_succ_div_gt (logical - i + 15) 16). lia.
Qed.

(** The clearing part of [advance]. *)
Lemma advance_clear p i h b : initializing p i h -> (i < logical \/ logical = 0) -> 0 <= b ->
  let u := slice_units i b in let st := pending_state p in
  exists p' h', (if negb (u =? 0)
          then
            bytes ← st_lift (ok_or (checked_mul u32_max u 16) AccountingOverflow);
            stop ← st_lift (ok_or (checked_add u32_max (p_initialized_bytes st) bytes) AccountingOverflow);
            let stop := Z.min stop (request_block_bytes rq - po) in
            if stop <? p_initialized_bytes st then st_panic
            else
              _ ← in_heap (zero_reserved_payload (p_reservation st) (p_initialized_bytes st)
                             (stop - p_initialized_bytes st));
              done ← st_lift (ok_or (checked_add u32_max (p_initialized_bytes st) (u * 16)) AccountingOverflow);
              st_modify (fun '(p, h) =>
                (set_state (set_initialized (Z.min done (p_logical_bytes st)) st) p, h))
          else if p_logical_bytes st =? 0
          then in_heap (zero_reserved_payload (p_reservation st) 0 (request_block_bytes rq - po))
          else mret tt) (p, h) = (Ok tt, (p', h')) /\
    initializing p' (Z.min (i + u * 16) logical) h' /\
    (forall n, fresh_payload p' n = fresh_payload p n) /\ (length_fits p' <-> length_fits p).
Proof using Hrq Hlog.
  intros Ha Hlt Hb u st. destruct (initializing_bounds _ _ _ Ha) as (Epo & ? & ? & ? & ? & Hlen & ?).
  pose proof (a_range _ _ _ Ha) as Hi. destruct (slice_units_range i b Hi Hb) as (Hu & Hu16 & Hu0). fold u in Hu, Hu16, Hu0.
  unfold st. rewrite (a_res _ _ _ Ha), (a_init _ _ _ Ha), (a_log _ _ _ Ha). destruct (Z.eqb_spec u 0) as [E|Hne]; cbn [negb].
  - rewrite E, Z.mul_0_l, Z.add_0_r, Z.min_l by lia. destruct (Z.eqb_spec logical 0) as [E0|Hn0]; [|by exists p, h].
    destruct (zero_extends p i h (request_block_bytes rq - po) i Ha) as (h' & Hrun & Hi'); [lia..|].
    assert (i = 0) as Ei by lia. rewrite Ei in Hrun. exists p, h'. split_and!; [unfold in_heap; by rewrite Hrun| |done|done].
    apply Hi'. pose proof (a_init _ _ _ Ha) as Ep. destruct (pending_state p). unfold set_initialized. simpl in *. congruence.
  - unfold checked_mul. rewrite (proj2 (Z.leb_le _ _)) by (unfold u32_max; lia). rewrite (st_bind_ok _ _ _ (u * 16) (p, h)) by done.
    rewrite checked_add_le by (unfold u32_max; lia). rewrite (st_bind_ok _ _ _ (i + u * 16) (p, h)) by done. cbn zeta.
    rewrite (proj2 (Z.ltb_ge _ _)) by lia.
    destruct (zero_extends p i h (Z.min (i + u * 16) (request_block_bytes rq - po) - i) (Z.min (i + u * 16) logical) Ha)
      as (h' & Hrun & Hi'); [lia..|].
    exists (set_state (set_initialized (Z.min (i + u * 16) logical) (pending_state p)) p), h'. split_and!.
    + rewrite (st_bind_ok _ _ _ tt (p, h')) by (unfold in_heap; by rewrite Hrun).
      by rewrite (st_bind_ok _ _ _ (i + u * 16) (p, h')) by done.
    + apply Hi'. by destruct p.
    + by destruct p.
    + by destruct p.
Qed.

Lemma alloc_advance_ok p i h b : initializing p i h -> (i < logical \/ logical = 0) -> 0 <= b -> length_fits p -> type_ok h0 ty ->
  let u := slice_units i b in let i' := Z.min (i + u * 16) logical in
  exists p' h', (forall n, fresh_payload p' n = fresh_payload p n) /\ (length_fits p' <-> length_fits p) /\
  if decide (i' < logical) then
    advance b (p, h) = (Ok (u, None), (p', h')) /\ initializing p' i' h'
  else
    advance b (p, h) = (Ok (u, Some (ref_of (sizes B1))), (p', h')) /\
    heap_ok cut h' (B1 ++ mkBlk s 5 :: B2) L /\ sides_kept h0 h' B1 s B2 /\ vtype h' (sizes B1) = ty /\
    slice (sizes B1 + po) logical (arena h') = fresh_payload p logical.
Proof using Hrq Hlog.
  intros Ha Hlt Hb Hfit Hty u i'. destruct (initializing_bounds _ _ _ Ha) as (Epo & ? & ? & ? & ? & _ & _).
  destruct (advance_clear p i h b Ha Hlt Hb) as (p1 & h1 & Hrun & Ha1 & Hfp & Hlf). fold u i' in Hrun, Ha1.
  assert (Hadv : advance b (p, h) = (
     if p_initialized_bytes (pending_state p1) <? p_logical_bytes (pending_state p1) then mret (u, None)
     else
       _ ← (match p1 with
            | PArray _ length => in_heap (write_reserved_u32 (p_reservation (pending_state p1)) 0 length)
            | _ => mret tt
            end);
       reference ← in_heap (commit (p_reservation (pending_state p1)));
       mret (u, Some reference) : PendingM _) (p1, h1)).
  { unfold advance. rewrite (units_ok p i h b Ha), (a_paid _ _ _ Ha), (a_req _ _ _ Ha), Epo. fold u. cbn [negb].
    unfold checked_sub. rewrite (proj2 (Z.leb_le _ _)) by lia.
    rewrite (st_bind_ok _ _ _ (request_block_bytes rq - po) (p, h)) by done.
    rewrite (st_bind_ok _ _ _ _ _ Hrun). by rewrite (st_bind_ok _ _ _ (p1, h1) (p1, h1)) by done. }
  rewrite (a_log _ _ _ Ha1), (a_init _ _ _ Ha1) in Hadv. destruct (decide (i' < logical)) as [Hl|Hge].
  - exists p1, h1. rewrite (proj2 (Z.ltb_lt _ _)) in Hadv by done. done.
  - rewrite (proj2 (Z.ltb_ge _ _)) in Hadv by lia. assert (i' = logical) as Ei by (unfold i' in *; lia). rewrite Ei in Ha1.
    destruct (publish_ok p1 h1 Ha1) as (h' & Hpub & ? & ? & ? & Hc); [by apply Hlf|done|].
    exists p1, h'. rewrite Hadv, Hpub, <- Hfp. done.
Qed.

(** Any slices that together allow enough units publish the object. *)
Lemma run_advance_ok budgets : forall p i h used, initializing p i h -> (i < logical \/ logical = 0) ->
  Forall (Z.le 0) budgets -> budgets <> [] -> (logical - i + 15) / 16 <= foldr Z.add 0 budgets ->
  length_fits p -> type_ok h0 ty -> used + (logical - i + 15) / 16 <= u64_max ->
  exists p' h', run_advance budgets used (p, h) =
      (Ok (used + (logical - i + 15) / 16, Some (ref_of (sizes B1))), (p', h')) /\
    heap_ok cut h' (B1 ++ mkBlk s 5 :: B2) L /\ sides_kept h0 h' B1 s B2 /\ vtype h' (sizes B1) = ty /\
    slice (sizes B1 + po) logical (arena h') = fresh_payload p logical.
Proof using Hrq Hlog.
  induction budgets as [|b budgets IH]; intros p i h used Ha Hlt Hb Hne Hsum Hfit Hty Hcost; [done|].
  apply Forall_cons in Hb as [Hb Hbs]. pose proof (a_range _ _ _ Ha) as Hi.
  destruct (alloc_advance_ok p i h b Ha Hlt Hb Hfit Hty) as (p1 & h1 & Hfp & Hlf & Hstep).
  destruct (slice_units_range i b Hi Hb) as (Hu & Hu16 & Hu0).
  pose proof (Z.div_mod (logical - i + 15) 16 ltac:(lia)) as Hdm. pose proof (Z.mod_pos_bound (logical - i + 15) 16 ltac:(lia)).
  assert (Hres : forall o st, advance b (p, h) = (Ok (slice_units i b, o), st) ->
    resume_pending_allocation b used (p, h) = (Ok (used + slice_units i b, o), st)).
  { intros o st Hrun. unfold resume_pending_allocation. rewrite (units_ok p i h b Ha), checked_add_le by (unfold slice_units in *; lia).
    by rewrite Hrun. }
  unfold slice_units in *. cbn [run_advance foldr] in *. destruct (decide _) as [Hl|Hge].
  - destruct Hstep as [Hrun Ha1]. rewrite (st_bind_ok _ _ _ _ _ (Hres _ _ Hrun)).
    assert (Eu : Z.min b ((logical - i + 15) / 16) = b) by lia. rewrite Eu in *. rewrite (Z.min_l (i + b * 16)) in Ha1 by lia.
    assert (Er : (logical - (i + b * 16) + 15) / 16 = (logical - i + 15) / 16 - b).
    { replace (logical - (i + b * 16) + 15) with (logical - i + 15 + (- b) * 16) by lia. rewrite Z.div_add by lia. lia. }
    destruct (IH p1 (i + b * 16) h1 (used + b)) as (p' & h' & Hrun' & ? & ? & ? & Hc); try done; [left; lia| |lia|by apply Hlf|lia|].
    + intros ->. cbn [foldr] in Hsum. lia.
    + exists p', h'. rewrite Hrun', <- Hfp. split_and!; try done. rewrite Er. do 3 f_equal. lia.
  - destruct Hstep as (Hrun & ? & ? & ? & Hc). rewrite (st_bind_ok _ _ _ _ _ (Hres _ _ Hrun)).
    exists p1, h1. split_and!; try done.
    by replace (Z.min b ((logical - i + 15) / 16)) with ((logical - i + 15) / 16) by lia.
Qed.
End Advance.

#[local] Instance keeps_option {A C} (o : option C) (m : HeapM A) (f : C -> HeapM A) :
  KeepsFormat m -> (forall x, KeepsFormat (f x)) ->
  KeepsFormat (match o with None => m | Some x => f x end).
Proof. by destruct o. Qed.
#[local] Instance keeps_sub n : KeepsFormat (sub_total_free n).
Proof. intros h. unfold sub_total_free. by case_match. Qed.

Lemma reserve_format rq h : header_format (reserve rq h).2 = header_format h.
Proof. apply keeps_format. Qed.

(** Size of the block [reserve] makes of a free one, and what is left of it. *)
Definition taken (s bytes : Z) : Z := if 16 <=? s - bytes then bytes else s.
Definition remainder (s bytes : Z) : list blk := if 16 <=? s - bytes then [mkBlk (s - bytes) 0] else [].

Lemma split_taken s bytes : split_blocks s bytes = mkBlk (taken s bytes) 1 :: remainder s bytes /\
  taken s bytes + sizes (remainder s bytes) = s.
Proof. unfold split_blocks, taken, remainder. destruct (16 <=? s - bytes); simpl; split; done || lia. Qed.

(** C6. Allocation publishes a cleared object.  A request of an admissible size
    either takes no block, changes nothing and, with a current hint, had no free
    block to fit; or it reserves one, and slices of any budgets that together
    allow one unit per started sixteen bytes of the object then publish it, charging
    exactly these units: the object has the requested type, its bytes are zero (an
    array's begin with its length), the allocator invariant holds, and every other
    object keeps its type and payload. *)
Theorem allocation_correct (h : Heap) (B : list blk) (r : AllocationRetry) (attempted : bool) (budgets : list Z)
    (consumed : Z) :
  let bytes := request_block_bytes (ar_request r) in let ty := request_type_id (ar_request r) in
  let logical := ar_logical_bytes r in let units := (logical + 15) / 16 in
  heap_inv h B -> size_ok bytes = true -> bytes <= u32_max -> type_ok h ty ->
  0 <= logical <= bytes - payload_offset h ->
  match ar_shape r with ShapeArray _ => 4 <= logical | _ => True end ->
  Forall (Z.le 0) budgets -> budgets <> [] -> units <= foldr Z.add 0 budgets -> consumed + units <= u64_max ->
  exists reserved h1, retry_reserve r attempted h = (Ok reserved, h1) /\
  match reserved with
  | None => h1 = h /\
      (hint_max h (free_map 0 B) -> forall x k, at_off 0 B x k -> is_free k = true -> b_size k < bytes)
  | Some p => exists B1 s B2 p' h', B = B1 ++ mkBlk s 0 :: B2 /\ bytes <= s /\
      run_advance budgets consumed (p, h1) = (Ok (consumed + units, Some (ref_of (sizes B1))), (p', h')) /\
      heap_inv h' (B1 ++ mkBlk (taken s bytes) 5 :: remainder s bytes ++ B2) /\
      vtype h' (sizes B1) = ty /\
      slice (sizes B1 + payload_offset h) logical (arena h') =
        (match ar_shape r with
         | ShapeArray length => le_bytes 4 length ++ replicate (Z.to_nat (logical - 4)) 0
         | _ => replicate (Z.to_nat logical) 0
         end) /\
      others_kept h h' B (sizes B1)
  end.
Proof.
  intros bytes ty logical units [L Hok] Hsz Hmax Hty Hlog Hshape Hbs Hne Hsum Hcost.
  pose proof (k_sum _ _ _ _ Hok) as Hk. pose proof (seg_all_ok _ _ _ _ _ (k_seg _ _ _ _ Hok)) as Hall.
  destruct (reserve_ok _ _ _ _ bytes ty Hok (Z.le_refl _) Hsz Hmax) as (res & h1 & Hres & Hr).
  assert (Erq : mkRequest bytes ty = ar_request r) by (unfold bytes, ty; by destruct (ar_request r)).
  rewrite Erq in Hres. unfold retry_reserve. rewrite (st_bind_ok _ _ _ _ _ Hres). destruct res as [rv|]; [|by exists None, h1; naive_solver].
  destruct Hr as (B1 & s & B2 & L' & -> & Hle & -> & Hok' & Hsd). eexists _, h1. split; [done|].
  destruct (split_taken s bytes) as [Esp Etk]. rewrite Esp, <- app_comm_cons in Hok'.
  assert (Hfmt : header_format h1 = header_format h).
  { pose proof (reserve_format (ar_request r) h) as E. by rewrite Hres in E. }
  set (p := match ar_shape r with ShapeObject => _ | ShapeException => _ | ShapeArray _ => _ end).
  assert (Hin : initializing (arena_bytes h) h1 B1 (remainder s bytes ++ B2) (taken s bytes) ty L' (ar_request r) logical p 0 h1).
  { unfold p. destruct (ar_shape r); constructor; try done; unfold logical; simpl; lia. }
  assert (Hst : slice (sizes B1 + payload_offset h) logical = slice (A:=Z) (sizes B1 + payload_offset h1) logical).
  { unfold payload_offset. by rewrite Hfmt. }
  destruct (run_advance_ok (arena_bytes h) h1 B1 (remainder s bytes ++ B2) (taken s bytes) ty L' (ar_request r) logical
    ltac:(unfold taken; fold bytes; destruct (16 <=? s - bytes); lia)
    ltac:(unfold payload_offset in *; rewrite Hfmt; exact Hlog) budgets p 0 h1 consumed) as (p' & h' & Hrun & Hok2 & Hsd2 & Ht & Hc);
    try done.
  - destruct (Z.eq_dec logical 0); [by right|left; lia].
  - by rewrite Z.sub_0_r.
  - unfold p. by destruct (ar_shape r).
  - unfold type_ok in *. by rewrite Hfmt.
  - by rewrite Z.sub_0_r.
  - exists B1, s, B2, p', h'. rewrite Z.sub_0_r in Hrun. split_and!; try done.
    + eapply same_arena; [exact Hok2|]. rewrite <- Hk, !sizes_app. cbn [sizes b_size]. rewrite sizes_app. lia.
    + rewrite Hst, Hc. unfold p. by destruct (ar_shape r).
    + apply (sides_others h h' B1 (mkBlk s 0) B2 Hall). destruct Hsd2 as [K1 K2]. apply pay_kept_app in K2 as [_ K2].
      rewrite <- Z.add_assoc, Etk in K2. apply (sides_kept_trans _ _ _ _ _ _ Hsd). by split.
Qed.

(** An array of twenty bytes, cleared over three slices. *)
Definition demo_retry : AllocationRetry := mkRetry (mkRequest 32 2) 0 20 (ShapeArray 3).

Lemma allocation_correct_witness : exists p h1 p' h',
  retry_reserve demo_retry false demo_live = (Ok (Some p), h1) /\
  run_advance [1; 0; 5] 7 (p, h1) = (Ok (9, Some (Value.mkRef32 64)), (p', h')) /\
  slice 64 20 (arena h') = le_bytes 4 3 ++ replicate 16 0.
Proof.
  destruct (allocation_correct demo_live _ demo_retry false [1; 0; 5] 7 demo_live_inv) as (r & h1 & Hres & Hr).
  - reflexivity.
  - discriminate.
  - apply demo_type; [vm_compute; reflexivity|simpl; lia].
  - vm_compute. split; discriminate.
  - simpl. lia.
  - repeat constructor; discriminate.
  - discriminate.
  - vm_compute. discriminate.
  - vm_compute. discriminate.
  - destruct r as [p|].
    + destruct Hr as (B1 & s & B2 & p' & h' & HB & Hle & Hrun & _ & _ & Hc & _). exists p, h1, p', h'.
      split; [exact Hres|].
      assert (E : (run_advance [1; 0; 5] 7 (p, h1)).1 = Ok (9, Some (Value.mkRef32 64))).
      { assert (Ep : retry_reserve demo_retry false demo_live = (Ok (Some p), h1)) by exact Hres.
        vm_compute in Ep. injection Ep as <- <-. vm_compute. reflexivity. }
      rewrite Hrun in E. simpl in E. unfold ref_of in E. injection E as E.
      assert (Es : sizes B1 = 56) by (unfold OBJECT_TYPE_ID, BLOCK_HEADER_BYTES in E; lia).
      rewrite Es in Hrun, Hc. split; [exact Hrun|exact Hc].
    + exfalso. vm_compute in Hres. discriminate Hres.
Defined.

End Alloc.

(** What the allocator promises as a whole: a table of blocks and, for each
    allocated one, a type and bytes, and what every operation answers and does to
    them. *)

Module HeapSpec.
Import Errors Layout Heap HeapView HeapClass HeapLists HeapInv HeapOps HeapProps Gc GcHeap Alloc.

(** The type (none while the block is only reserved) and the bytes of an
    allocated block. *)
Definition content (h : Heap) (x : Z) (k : blk) : Z * list Z :=
  (if is_live k then vtype h x else 0, slice (x + payload_offset h) (room h k) (arena h)).

Fixpoint contents_from (h : Heap) (off : Z) (B : list blk) : gmap Z (Z * list Z) :=
  match B with
  | [] => ∅
  | k :: B =>
      if is_free k then contents_from h (off + b_size k) B
      else <[off := content h off k]> (contents_from h (off + b_size k) B)
  end.

(** Blocks in address order, and what the allocated ones hold by offset. *)
Record table := mkTable { blocks : list blk; objects : gmap Z (Z * list Z) }.

Definition table_of (h : Heap) : table := mkTable (blocks_of h) (contents_from h 0 (blocks_of h)).

(** What an operation may answer, and the table after it.  [exact] says that
    the hint designates a largest free block. *)
Inductive spec_step (exact : Prop) : table -> op -> answer -> table -> Prop :=
| SReserve B1 s B2 m bytes ty d : bytes <= s ->
    spec_step exact (mkTable (B1 ++ mkBlk s 0 :: B2) m) (OReserve bytes ty)
      (Reserved (Some (mkReserved (sizes B1) ty)))
      (mkTable (B1 ++ split_blocks s bytes ++ B2) (<[sizes B1 := (0, d)]> m))
| SReserveNone t bytes ty :
    Forall (fun k => is_free k = true -> 8 * b_size k < 9 * bytes) (blocks t) ->
    (exact -> Forall (fun k => is_free k = true -> b_size k < bytes) (blocks t)) ->
    spec_step exact t (OReserve bytes ty) (Reserved None) t
| SCommit B1 s B2 m d ty : m !! sizes B1 = Some (0, d) ->
    spec_step exact (mkTable (B1 ++ mkBlk s 1 :: B2) m) (OCommit (sizes B1) ty)
      (Committed (ref_of (sizes B1)))
      (mkTable (B1 ++ mkBlk s 5 :: B2) (<[sizes B1 := (ty, d)]> m))
| SAbort B1 s B2 m ty :
    spec_step exact (mkTable (B1 ++ mkBlk s 1 :: B2) m) (OAbort (sizes B1) ty) Done
      (mkTable (freed_blocks B1 s B2) (delete (sizes B1) m))
| SFree B1 k B2 m : is_live k = true ->
    spec_step exact (mkTable (B1 ++ k :: B2) m) (OFree (sizes B1)) (Freed true)
      (mkTable (freed_blocks B1 (b_size k) B2) (delete (sizes B1) m))
| SFreeNone B1 k B2 m : is_live k = false ->
    spec_step exact (mkTable (B1 ++ k :: B2) m) (OFree (sizes B1)) (Freed false) (mkTable (B1 ++ k :: B2) m)
| SWrite B1 k B2 m ty d off bs : is_live k = true -> m !! sizes B1 = Some (ty, d) ->
    spec_step exact (mkTable (B1 ++ k :: B2) m) (OWrite (sizes B1) off bs) Done
      (mkTable (B1 ++ k :: B2) (<[sizes B1 := (ty, splice off bs d)]> m)).

Lemma contents_app h off B1 B2 :
  contents_from h off (B1 ++ B2) = contents_from h off B1 ∪ contents_from h (off + sizes B1) B2.
Proof.
  revert off. induction B1 as [|k B1 IH]; intros off; simpl; [by rewrite Z.add_0_r, (left_id_L ∅ (∪))|].
  rewrite IH, Z.add_assoc. destruct (is_free k); [done|]. apply insert_union_l.
Qed.

Lemma contents_None h off B x : all_ok B -> x < off \/ off + sizes B <= x -> contents_from h off B !! x = None.
Proof.
  intros Hall. revert off. induction Hall as [|k B [Hs _] Hall IH]; intros off Hx; [done|]. simpl in *.
  apply size_ok_true in Hs. pose proof (sizes_ok _ Hall).
  destruct (is_free k); [|rewrite lookup_insert_ne by lia]; apply IH; lia.
Qed.

(** What the blocks on the two sides of a hole of [s] bytes hold. *)
Definition around_contents (h : Heap) (B1 : list blk) (s : Z) (B2 : list blk) : gmap Z (Z * list Z) :=
  contents_from h 0 B1 ∪ contents_from h (sizes B1 + s) B2.

Lemma around_None h B1 s B2 : all_ok B1 -> all_ok B2 -> 0 < s -> around_contents h B1 s B2 !! sizes B1 = None.
Proof. intros. apply lookup_union_None. split; apply contents_None; (done || lia). Qed.

Lemma contents_mid h B1 k B2 : all_ok B1 ->
  contents_from h 0 (B1 ++ k :: B2) =
  if is_free k then around_contents h B1 (b_size k) B2
  else <[sizes B1 := content h (sizes B1) k]> (around_contents h B1 (b_size k) B2).
Proof.
  intros H1. rewrite contents_app. simpl. destruct (is_free k); [done|].
  unfold around_contents. rewrite insert_union_r; [done|]. apply contents_None; [done|lia].
Qed.

Lemma contents_freed h B1 s B2 : contents_from h 0 (freed_blocks B1 s B2) = around_contents h B1 s B2.
Proof.
  unfold freed_blocks, around_contents. pose proof (take_left_spec B1) as H1. pose proof (take_right_spec B2) as H2.
  destruct (take_left B1) as [Bl l], (take_right B2) as [Br r]. simpl.
  rewrite contents_app. cbn [contents_from is_free b_flags b_size Z.eqb].
  f_equal; [destruct H1 as [(-> & _)| ->]; [done|]; rewrite contents_app; simpl; by rewrite (right_id_L ∅ (∪))|].
  assert (E1 : sizes B1 = sizes Bl + l) by (destruct H1 as [(-> & -> & _)| ->]; [|rewrite sizes_app; simpl]; lia).
  destruct H2 as [(-> & -> & _)| ->]; [|cbn [contents_from is_free b_flags b_size Z.eqb]]; f_equal; lia.
Qed.

Lemma content_kept h h' x k : header_format h' = header_format h ->
  vtype h' x = vtype h x -> slice (x + 8) (b_size k - 8) (arena h') = slice (x + 8) (b_size k - 8) (arena h) ->
  0 <= x -> content h' x k = content h x k.
Proof.
  intros Hf Hv Hs Hx. unfold content, room, payload_offset. rewrite Hf, Hv. f_equal.
  assert (8 <= header_bytes (header_format h)) by (by destruct (header_format h)).
  set (po := header_bytes (header_format h)) in *.
  assert (E : forall l : list Z, slice (x + po) (b_size k - po) l = drop (Z.to_nat (po - 8)) (slice (x + 8) (b_size k - 8) l)).
  { intros l. unfold slice. rewrite skipn_firstn_comm, drop_drop. f_equal; [lia|]. f_equal. lia. }
  by rewrite !E, Hs.
Qed.

Lemma contents_kept h h' off B : header_format h' = header_format h -> all_ok B -> 0 <= off ->
  pay_kept h h' off B -> contents_from h' off B = contents_from h off B.
Proof.
  intros Hf Hall. revert off. induction Hall as [|k B [Hs _] Hall IH]; intros off Ho Hk; [done|]. simpl.
  apply size_ok_true in Hs. rewrite IH; [|lia|intros y q Hy; apply Hk; by right].
  destruct (is_free k) eqn:E; [done|]. f_equal.
  destruct (Hk off k (or_introl (conj eq_refl eq_refl)) E) as [Hv Hp]. by apply content_kept.
Qed.

Lemma around_kept h h' B1 s B2 : header_format h' = header_format h -> all_ok B1 -> all_ok B2 -> 0 <= s ->
  sides_kept h h' B1 s B2 -> around_contents h' B1 s B2 = around_contents h B1 s B2.
Proof.
  intros Hf H1 H2 Hs [K1 K2]. pose proof (sizes_ok _ H1). unfold around_contents.
  by rewrite (contents_kept h h' 0 B1), (contents_kept h h' _ B2) by (done || lia).
Qed.

Lemma republish (m : gmap Z (Z * list Z)) x c' c : <[x := c']> m = <[x := c']> (<[x := c]> m).
Proof. symmetry. apply insert_insert_eq. Qed.

(** Each operation, on the table. *)
Section Steps.
Context (h : Heap) (exact : Prop).

Lemma table_eq h' B : heap_inv h' B -> table_of h' = mkTable B (contents_from h' 0 B).
Proof. intros Hi. unfold table_of. by rewrite (blocks_of_eq _ _ Hi). Qed.

Lemma table_reserve B bytes ty : heap_inv h B -> size_ok bytes = true -> bytes <= u32_max ->
  exists r h', run_op (OReserve bytes ty) h = (Ok r, h') /\
    spec_step (hint_max h (free_map 0 B)) (table_of h) (OReserve bytes ty) r (table_of h') /\
    exists B', heap_inv h' B'.
Proof.
  intros Hi Hb Hmax. pose proof Hi as [L Hok]. pose proof (k_sum _ _ _ _ Hok) as Hsum.
  destruct (reserve_ok _ _ _ _ bytes ty Hok (Z.le_refl _) Hb Hmax) as (r & h' & Hrun & Hr).
  exists (Reserved r), h'. split; [simpl; by rewrite (st_bind_ok _ _ _ _ _ Hrun)|]. rewrite (table_eq _ _ Hi).
  destruct r as [res|].
  - destruct Hr as (B1 & s & B2 & L' & -> & Hle & -> & Hok' & Hk).
    destruct (pos_ok _ _ _ _ _ _ Hok) as (H1 & H2 & Hs & _). apply size_ok_true in Hs. simpl in Hs.
    assert (Hi' : heap_inv h' (B1 ++ split_blocks s bytes ++ B2)).
    { eapply same_arena; [done|]. rewrite <- Hsum, !sizes_app, split_sizes. done. }
    split; [|by eexists]. rewrite (table_eq _ _ Hi'). destruct (split_taken s bytes) as [Esp Etk].
    assert (Hf : header_format h' = header_format h).
    { pose proof (reserve_format (mkRequest bytes ty) h) as E. by rewrite Hrun in E. }
    assert (Hc : contents_from h' 0 (B1 ++ split_blocks s bytes ++ B2) =
      <[sizes B1 := (0, (content h' (sizes B1) (mkBlk (taken s bytes) 1)).2)]> (around_contents h' B1 s B2)).
    { rewrite Esp. simpl. rewrite contents_mid by done. simpl. f_equal. unfold around_contents. f_equal.
      rewrite contents_app. assert (En : forall o, contents_from h' o (remainder s bytes) = ∅)
        by (intros o; unfold remainder; by destruct (16 <=? s - bytes)).
      rewrite En, (left_id_L ∅ (∪)). f_equal. lia. }
    rewrite Hc, contents_mid, (around_kept h h') by (done || lia). by constructor.
  - destruct Hr as (-> & Hm & Hn). split; [|by eexists]. rewrite (table_eq _ _ Hi).
    assert (Hat : forall k, k ∈ B -> exists x, at_off 0 B x k).
    { intros k Hk. apply list_elem_of_split in Hk as (B1 & B2 & ->). eexists. apply at_mid. }
    constructor; simpl; [|intros Hx]; apply Forall_forall; intros k Hk; destruct (Hat k Hk); eauto.
Qed.

Context (B1 B2 : list blk).

Lemma table_commit s ty : heap_inv h (B1 ++ mkBlk s 1 :: B2) -> type_ok h ty ->
  exists h', run_op (OCommit (sizes B1) ty) h = (Ok (Committed (ref_of (sizes B1))), h') /\
    spec_step exact (table_of h) (OCommit (sizes B1) ty) (Committed (ref_of (sizes B1))) (table_of h') /\
    exists B', heap_inv h' B'.
Proof.
  intros Hi Hty. pose proof Hi as [L Hok]. pose proof (k_sum _ _ _ _ Hok) as Hsum.
  destruct (pos_ok _ _ _ _ _ _ Hok) as (H1 & H2 & Hs & _). apply size_ok_true in Hs. simpl in Hs.
  destruct (commit_ok _ _ _ _ _ _ ty Hok Hty) as (h' & Hrun & Hok' & Hk & Hv & Hf & Hp).
  assert (Hi' : heap_inv h' (B1 ++ mkBlk s 5 :: B2)) by (eapply same_arena; [done|]; by rewrite <- Hsum, !sizes_app).
  exists h'. split; [simpl; by rewrite (st_bind_ok _ _ _ _ _ Hrun)|]. split; [|by eexists].
  rewrite (table_eq _ _ Hi), (table_eq _ _ Hi'), !contents_mid by done. simpl.
  rewrite (around_kept h h') by (done || lia).
  assert (Ec : content h' (sizes B1) (mkBlk s 5) = (ty, (content h (sizes B1) (mkBlk s 1)).2)).
  { unfold content. simpl. unfold room, payload_offset in *. simpl in *. by rewrite Hv, Hf, Hp. }
  rewrite Ec, (republish _ _ (ty, _) (content h (sizes B1) (mkBlk s 1))). apply SCommit. by rewrite lookup_insert_eq.
Qed.

Lemma release_table k h' : heap_inv h (B1 ++ k :: B2) -> is_free k = false ->
  heap_inv h' (freed_blocks B1 (b_size k) B2) -> header_format h' = header_format h ->
  sides_kept h h' B1 (b_size k) B2 ->
  table_of h' = mkTable (freed_blocks B1 (b_size k) B2) (delete (sizes B1) (objects (table_of h))).
Proof.
  intros Hi Hnf Hi' Hf Hk. pose proof Hi as [L Hok].
  destruct (pos_ok _ _ _ _ _ _ Hok) as (H1 & H2 & Hs & _). apply size_ok_true in Hs.
  rewrite (table_eq _ _ Hi), (table_eq _ _ Hi'). simpl. rewrite contents_freed, contents_mid, Hnf by done.
  rewrite delete_insert_id by (apply around_None; (done || lia)). rewrite (around_kept h h') by (done || lia). done.
Qed.

Lemma table_abort s ty : heap_inv h (B1 ++ mkBlk s 1 :: B2) ->
  exists h', run_op (OAbort (sizes B1) ty) h = (Ok Done, h') /\
    spec_step exact (table_of h) (OAbort (sizes B1) ty) Done (table_of h') /\ exists B', heap_inv h' B'.
Proof.
  intros Hi. pose proof Hi as [L Hok]. pose proof (k_sum _ _ _ _ Hok) as Hsum.
  destruct (abort_ok _ _ _ _ _ _ ty Hok) as (h' & L' & Hrun & Hok' & Hk); [by eapply mid_below|].
  assert (Hi' : heap_inv h' (freed_blocks B1 s B2)).
  { eapply same_arena; [done|]. rewrite <- Hsum. apply (freed_sizes B1 (mkBlk s 1)). }
  assert (Hf : header_format h' = header_format h).
  { pose proof (keeps_format (m := abort (mkReserved (sizes B1) ty)) h) as E. by rewrite Hrun in E. }
  exists h'. split; [simpl; by rewrite (st_bind_ok _ _ _ _ _ Hrun)|]. split; [|by eexists].
  rewrite (release_table (mkBlk s 1) h') by done. rewrite (table_eq _ _ Hi). constructor.
Qed.

Lemma table_free k : heap_inv h (B1 ++ k :: B2) ->
  exists h', run_op (OFree (sizes B1)) h = (Ok (Freed (is_live k)), h') /\
    spec_step exact (table_of h) (OFree (sizes B1)) (Freed (is_live k)) (table_of h') /\ exists B', heap_inv h' B'.
Proof.
  intros Hi. pose proof Hi as [L Hok]. pose proof (k_sum _ _ _ _ Hok) as Hsum.
  pose proof (free_ok _ _ _ _ _ _ Hok (mid_below _ _ _ _ _ Hok)) as Hfree.
  destruct (is_live k) eqn:El.
  - destruct Hfree as (h' & L' & Hrun & Hok' & Hk & _).
    assert (Hi' : heap_inv h' (freed_blocks B1 (b_size k) B2)).
    { eapply same_arena; [done|]. rewrite <- Hsum. apply freed_sizes. }
    assert (Hf : header_format h' = header_format h).
    { pose proof (free_format (ref_of (sizes B1)) h) as E. by rewrite Hrun in E. }
    exists h'. split; [simpl; by rewrite (st_bind_ok _ _ _ _ _ Hrun)|]. split; [|by eexists].
    rewrite (release_table k h') by (done || by apply live_flags). rewrite (table_eq _ _ Hi). by constructor.
  - exists h. split; [simpl; by rewrite (st_bind_ok _ _ _ _ _ Hfree)|]. split; [|by eexists].
    rewrite (table_eq _ _ Hi). by constructor.
Qed.

Lemma table_write k off bs : heap_inv h (B1 ++ k :: B2) -> is_live k = true -> is_bytes bs -> 0 <= off ->
  off + Z.of_nat (length bs) <= room h k ->
  exists h', run_op (OWrite (sizes B1) off bs) h = (Ok Done, h') /\
    spec_step exact (table_of h) (OWrite (sizes B1) off bs) Done (table_of h') /\ exists B', heap_inv h' B'.
Proof.
  intros Hi Hl Hb Ho Hr. pose proof Hi as [L Hok]. pose proof (k_sum _ _ _ _ Hok) as Hsum.
  destruct (pos_ok _ _ _ _ _ _ Hok) as (H1 & H2 & Hs & _). apply size_ok_true in Hs.
  destruct (payload_prefix _ _ _ _ _ _ Hok Hl off ltac:(lia)) as (_ & _ & _ & Hp8 & _ & _ & Hend & Hb1).
  destruct (write_payload_ok _ _ _ _ _ _ Hok Hl off bs Hb Ho Hr) as (h' & Hrun & Hok' & Hk & Hv & Hf & Ha).
  assert (Hi' : heap_inv h' (B1 ++ k :: B2)) by (by eapply same_arena).
  exists h'. split; [simpl; by rewrite (st_bind_ok _ _ _ _ _ Hrun)|]. split; [|by eexists].
  rewrite (table_eq _ _ Hi), (table_eq _ _ Hi'), !contents_mid, (live_flags _ Hl) by done.
  rewrite (around_kept h h') by (done || lia).
  set (d := slice (sizes B1 + payload_offset h) (room h k) (arena h)).
  assert (Ec : content h' (sizes B1) k = (vtype h (sizes B1), splice off bs d)).
  { unfold content, room, payload_offset in *. rewrite Hl, Hv, Hf, Ha. f_equal. unfold d.
    apply slice_splice_in; try lia. rewrite (g_len _ (l_geom _ _ _ (k_lists _ _ _ _ Hok))). lia. }
  rewrite Ec, (republish _ _ (_, splice off bs d) (content h (sizes B1) k)). apply SWrite; [done|]. rewrite lookup_insert_eq. unfold content. by rewrite Hl.
Qed.

End Steps.

(** C1. The allocator refines its specification.  From any well-formed heap an
    operation a client may issue returns, its answer and the change of the table of
    blocks, types and bytes read from the arena are those of the specification, and
    the heap is well formed again.  So [reserve] takes a free block that is large
    enough and answers its offset, or answers nothing and changes nothing, and the
    latter only when no free block has nine eighths of the requested size (with a
    current hint: when none fits); [commit] publishes the reserved bytes under the
    requested type; [abort] and [free] of a live object remove exactly that object
    and merge its block with free neighbours, and [free] answers [false], without
    effect, exactly for what is not live; a write replaces exactly the bytes
    written. *)
Theorem heap_refinement (h : Heap) (o : op) :
  heap_inv h (blocks_of h) -> enabled h (blocks_of h) o ->
  exists r h', run_op o h = (Ok r, h') /\
    spec_step (hint_max h (free_map 0 (blocks_of h))) (table_of h) o r (table_of h') /\
    heap_inv h' (blocks_of h').
Proof.
  intros Hi He.
  assert (Hstep : exists r h', run_op o h = (Ok r, h') /\
    spec_step (hint_max h (free_map 0 (blocks_of h))) (table_of h) o r (table_of h') /\ exists B', heap_inv h' B').
  { destruct o as [bytes ty|x ty|x ty|x|x off bs]; simpl in He.
    - destruct He. by apply table_reserve.
    - destruct He as [Hty [s Hx]]. apply at_split in Hx as (B1 & B2 & HB & ->). rewrite HB in *.
      eexists. by eapply table_commit.
    - destruct He as [s Hx]. apply at_split in Hx as (B1 & B2 & HB & ->). rewrite HB in *. eexists. by eapply table_abort.
    - destruct He as [k Hx]. apply at_split in Hx as (B1 & B2 & HB & ->). rewrite HB in *. eexists. by eapply table_free.
    - destruct He as (k & Hx & Hl & Hb & Ho & Hr). apply at_split in Hx as (B1 & B2 & HB & ->). rewrite HB in *.
      eexists. by eapply table_write. }
  destruct Hstep as (r & h' & Hrun & Hs & B' & Hi'). exists r, h'. by rewrite (blocks_of_eq _ _ Hi').
Qed.

Lemma heap_refinement_witness : exists h', run_op (OWrite 32 4 [7; 8]) demo_live = (Ok Done, h') /\
  spec_step (hint_max demo_live (free_map 0 (blocks_of demo_live))) (table_of demo_live) (OWrite 32 4 [7; 8]) Done
    (table_of h') /\
  objects (table_of h') !! 32 = Some (1, [255; 255; 255; 255; 7; 8; 255; 255] ++ replicate 8 0).
Proof.
  assert (E : blocks_of demo_live = [mkBlk 32 5; mkBlk 24 5; mkBlk 72 0]) by (vm_compute; reflexivity).
  destruct (heap_refinement demo_live (OWrite 32 4 [7; 8])) as (r & h' & Hrun & Hs & Hi).
  - rewrite E. exact demo_live_inv.
  - rewrite E. exists (mkBlk 24 5). split; [right; left; split; reflexivity|].
    split; [reflexivity|]. split; [repeat constructor; discriminate|]. split; [discriminate|vm_compute; discriminate].
  - assert (Er : (run_op (OWrite 32 4 [7; 8]) demo_live).1 = Ok Done) by (vm_compute; reflexivity).
    rewrite Hrun in Er. injection Er as ->. exists h'. split; [exact Hrun|]. split; [exact Hs|].
    assert (Eh : h' = (run_op (OWrite 32 4 [7; 8]) demo_live).2) by (rewrite Hrun; reflexivity).
    rewrite Eh. vm_compute. reflexivity.
Defined.

End HeapSpec.
