(* ===== verification/ArrayCopy.v ===== *)
(** src/execution/array_copy.rs: the copy of array elements that an instruction makes in
    slices.  A slice copies at most 256 elements at a time; when the ranges are of the
    same array and the destination lies behind, the copy goes from the end to the start.
    However the work is cut into slices, the result is that of one [memmove]. *)

From S2P Require Import Prelude Words Errors Value Layout Heap HeapLists HeapInv HeapOps HeapProps.

Module ArrayCopy.
Import Errors Heap.

Record PendingArrayCopy := mkCopy {
  source : Value.Ref32; destination : Value.Ref32; source_start : Z; destination_start : Z; remaining : Z; width : Z; backward : bool }.

#[global] Instance Ref32_eq : EqDecision Value.Ref32.
Proof. solve_decision. Defined.

(** [PendingArrayCopy::new]; an array is its reference and its length. *)
Definition new (source destination : Value.Ref32 * Z) (source_start destination_start length width : Z) : outcome GuestTrap PendingArrayCopy :=
  let outside start limit := match checked_add i32_max start length with None => true | Some stop => limit <? stop end in
  if (source_start <? 0) || (destination_start <? 0) || (length <? 0) || outside source_start source.2 || outside destination_start destination.2
  then Err IndexOutOfBounds
  else Ok (mkCopy source.1 destination.1 source_start destination_start length width
             (bool_decide (source.1 = destination.1) && (source_start <? destination_start))).

Abbreviation CopyM := (ST (PendingArrayCopy * Heap) VmFault).

(** [start.checked_add(offset)?.checked_mul(width)?.checked_add(8)]. *)
Definition element_offset (start offset width : Z) : outcome VmFault Z :=
  ok_or (index ← checked_add u32_max start offset; bytes ← checked_mul u32_max index width; checked_add u32_max bytes 8) CorruptHeap.

(** One round of the loop, for [count] elements. *)
Definition copy_some (count : Z) : CopyM unit := fun '(p, h) =>
  let '(o, h') :=
    (offset ← st_lift (if backward p then expect (checked_sub (remaining p) count) else Ok 0);
     source_offset ← st_lift (element_offset (source_start p) offset (width p));
     destination_offset ← st_lift (element_offset (destination_start p) offset (width p));
     len ← st_lift (expect (checked_mul u32_max count (width p)));
     copy_payload_range (source p) source_offset (destination p) destination_offset len) h in
  match o with
  | Ok tt =>
      match checked_sub (remaining p) count with
      | None => (Panic, (p, h'))
      | Some remaining =>
          if backward p then (Ok tt, (mkCopy (source p) (destination p) (source_start p) (destination_start p) remaining (width p) true, h'))
          else
            let p' := mkCopy (source p) (destination p) (source_start p) (destination_start p) remaining (width p) false in
            match checked_add u32_max (source_start p) count, checked_add u32_max (destination_start p) count with
            | Some s, Some d => (Ok tt, (mkCopy (source p) (destination p) s d remaining (width p) false, h'))
            | _, _ => (Panic, (p', h'))
            end
      end
  | Err e => (Err e, (p, h'))
  | Panic => (Panic, (p, h'))
  end.

(** [while left != 0]; a round takes one element at least. *)
Fixpoint advance_loop (fuel : nat) (left : Z) : CopyM unit :=
  if left =? 0 then mret tt else
  match fuel with
  | O => st_panic
  | S fuel => let count := Z.min left 256 in _ ← copy_some count; advance_loop fuel (left - count)
  end.

Definition advance (budget : Z) : CopyM (Z * bool) := fun '(p, h) =>
  let used := Z.min (remaining p) budget in
  let '(o, (p, h)) := advance_loop (Z.to_nat used) used (p, h) in
  match o with
  | Ok tt => (Ok (used, remaining p =? 0), (p, h))
  | Err e => (Err e, (p, h))
  | Panic => (Panic, (p, h))
  end.

End ArrayCopy.

Module ArrayCopyProps.
Import Errors Layout Heap HeapView HeapLists HeapInv HeapOps ArrayCopy.

(** [A'] is [A] after the bytes [lo] to [hi] of the range at [src] were copied to [dst]. *)
Definition moved (A : list Z) (src dst lo hi : Z) (A' : list Z) : Prop :=
  length A' = length A /\
  forall i : nat, A' !! i = if (dst + lo <=? Z.of_nat i) && (Z.of_nat i <? dst + hi) then A !! Z.to_nat (Z.of_nat i - dst + src) else A !! i.

Lemma moved_none A src dst lo : moved A src dst lo lo A.
Proof. split; [done|]. intros i. destruct (Z.leb_spec (dst + lo) (Z.of_nat i)), (Z.ltb_spec (Z.of_nat i) (dst + lo)); try done; lia. Qed.

Lemma slice_lookup {A} (l : list A) start len i : 0 <= start -> (i < Z.to_nat len)%nat -> slice start len l !! i = l !! (Z.to_nat start + i)%nat.
Proof. intros Hs Hi. unfold slice. rewrite lookup_take_lt, lookup_drop by done. done. Qed.

(** A copy of the next bytes, behind or before those copied, of a source that was not
    overwritten. *)
Lemma moved_step A src dst lo hi A' a n : moved A src dst lo hi A' -> 0 <= src -> 0 <= dst -> 0 <= a -> 0 <= n -> lo <= hi ->
  src + a + n <= Z.of_nat (length A) -> dst + a + n <= Z.of_nat (length A) -> a = hi \/ a + n = lo ->
  src + a + n <= dst + lo \/ dst + hi <= src + a ->
  moved A src dst (if decide (a = hi) then lo else a) (if decide (a = hi) then a + n else hi) (splice (dst + a) (slice (src + a) n A') A').
Proof.
  intros [Hl Hm] Hs Hd Ha Hn Hlh HA HB Hadj Hdis.
  assert (Hsl : length (slice (src + a) n A') = Z.to_nat n) by (apply slice_length; lia).
  split; [rewrite splice_length; lia|]. intros i. destruct (decide (dst + a <= Z.of_nat i < dst + a + n)) as [Hin|Hout].
  - rewrite splice_lookup_eq by lia. rewrite slice_lookup, Hm by lia.
    replace (Z.of_nat (Z.to_nat (src + a) + (i - Z.to_nat (dst + a)))) with (src + a + (Z.of_nat i - dst - a)) by lia.
    replace ((dst + lo <=? _) && _) with false; [|destruct (Z.leb_spec (dst + lo) (src + a + (Z.of_nat i - dst - a))), (Z.ltb_spec (src + a + (Z.of_nat i - dst - a)) (dst + hi)); simpl; try done; lia].
    replace ((dst + (if decide (a = hi) then lo else a) <=? _) && _) with true.
    { f_equal. lia. }
    symmetry. apply andb_true_iff. rewrite Z.leb_le, Z.ltb_lt. case_decide; lia.
  - rewrite splice_lookup_ne by lia. rewrite Hm. case_decide; repeat match goal with |- context [?x <=? ?y] => destruct (Z.leb_spec x y) | |- context [?x <? ?y] => destruct (Z.ltb_spec x y) end;
      simpl; try done; lia.
Qed.

Lemma moved_all A src dst n A' : moved A src dst 0 n A' -> 0 <= src -> 0 <= dst -> 0 <= n -> src + n <= Z.of_nat (length A) -> dst + n <= Z.of_nat (length A) ->
  A' = splice dst (slice src n A) A.
Proof.
  intros [Hl Hm] Hs Hd Hn HA HB. assert (Hsl : length (slice src n A) = Z.to_nat n) by (apply slice_length; lia). apply list_eq. intros i. rewrite Hm, !Z.add_0_r.
  destruct (decide (dst <= Z.of_nat i < dst + n)) as [Hin|Hout].
  - rewrite splice_lookup_eq, slice_lookup, (proj2 (Z.leb_le _ _)), (proj2 (Z.ltb_lt _ _)) by lia. cbn [andb]. f_equal. lia.
  - rewrite splice_lookup_ne by lia. destruct (Z.leb_spec dst (Z.of_nat i)), (Z.ltb_spec (Z.of_nat i) (dst + n)); simpl; try done; lia.
Qed.

Lemma element_offset_ok start off w : 0 <= start -> 0 <= off -> (start + off) * w + 8 <= u32_max -> start + off <= u32_max ->
  element_offset start off w = Ok ((start + off) * w + 8).
Proof.
  intros H1 H2 H3 H4. unfold element_offset. rewrite checked_add_le by done. cbn [mbind option_bind]. unfold checked_mul. rewrite (proj2 (Z.leb_le _ _)) by lia.
  cbn [mbind option_bind]. by rewrite checked_add_le by done.
Qed.

(** *** A copy between two objects *)

Section Objects.
Context (cut : Z) (h0 : Heap) (B : list blk) (L : list (list Z)) (Hok0 : heap_ok cut h0 B L).
Context (x y : Z) (kx ky : blk) (Hx : at_off 0 B x kx) (Hy : at_off 0 B y ky) (Lx : is_live kx = true) (Ly : is_live ky = true).

(** A heap that differs from [h0] in its bytes only. *)
Definition same_blocks (h : Heap) : Prop := heap_ok cut h B L /\ h = set_arena (arena h) h0.

Lemma same_room h k : same_blocks h -> room h k = room h0 k /\ payload_offset h = payload_offset h0.
Proof using . intros [_ ->]. done. Qed.

Lemma copy_span_ok h z k off len : same_blocks h -> at_off 0 B z k -> is_live k = true -> 0 <= off -> 0 <= len -> off + len <= room h0 k ->
  copy_span h (ref_of z) off len = Ok (z + payload_offset h0 + off) /\ 0 <= z + payload_offset h0 + off /\
  8 <= payload_offset h0 /\ z + payload_offset h0 + off + len <= z + b_size k /\ z + b_size k <= arena_bytes h0.
Proof using .
  intros Hs Hz Lz Hoff Hlen Hroom. destruct (same_room h k Hs) as [Er Ep]. destruct Hs as [Hok Eh].
  apply at_split in Hz as (B1 & B2 & EB & ->). rewrite Z.add_0_l. rewrite EB in Hok.
  destruct (payload_prefix cut h B1 B2 k L Hok Lz off) as (Hlb & Hcap & Hst & H8 & H0 & H1 & H2 & H3); [lia|].
  assert (Ea : arena_bytes h = arena_bytes h0) by (rewrite Eh; done). rewrite Er, Ep, Ea in *.
  pose proof (g_size _ (l_geom _ _ _ (k_lists _ _ _ _ Hok))) as Hg. rewrite Value.MAX_PAYLOAD_eq, Ea in Hg. unfold room in *.
  split_and!; try lia. unfold copy_span. rewrite Hlb. bind_simp. rewrite Hcap. bind_simp. rewrite checked_add_le by (unfold u32_max; lia).
  rewrite (proj2 (Z.ltb_ge _ _)) by lia. rewrite Hst. bind_simp. rewrite checked_add_le by (unfold u32_max; lia). rewrite Ea. by rewrite (proj2 (Z.ltb_ge _ _)) by lia.
Qed.

Lemma copy_range_ok h so to len : same_blocks h -> 0 <= so -> 0 <= to -> 0 <= len -> so + len <= room h0 kx -> to + len <= room h0 ky ->
  let h' := set_arena (splice (y + payload_offset h0 + to) (slice (x + payload_offset h0 + so) len (arena h)) (arena h)) h in
  copy_payload_range (ref_of x) so (ref_of y) to len h = (Ok tt, h') /\ same_blocks h'.
Proof using Hok0 Hx Hy Lx Ly.
  intros Hs Hso Hto Hlen Hrx Hry h'. destruct (copy_span_ok h x kx so len Hs Hx Lx) as (Sx & X0 & _ & X1 & X2); [done..|].
  destruct (copy_span_ok h y ky to len Hs Hy Ly) as (Sy & Y0 & Y8 & Y1 & Y2); [done..|]. destruct (same_room h ky Hs) as [Er Ep]. destruct Hs as [Hok Eh].
  pose proof (l_geom _ _ _ (k_lists _ _ _ _ Hok)) as Hg. pose proof (g_len _ Hg) as Hlena. assert (Ea : arena_bytes h = arena_bytes h0) by (rewrite Eh; done). rewrite Ea in Hlena.
  set (bs := slice _ _ _) in *. assert (Hbs : Z.of_nat (length bs) = len) by (unfold bs; rewrite slice_length; lia).
  assert (Hbb : is_bytes bs) by (apply slice_Forall, Hg). split.
  - unfold copy_payload_range. rewrite (st_bind_ok _ _ _ (x + payload_offset h0 + so) h) by (unfold st_read; by rewrite Sx).
    rewrite (st_bind_ok _ _ _ (y + payload_offset h0 + to) h) by (unfold st_read; by rewrite Sy). cbn zeta. by rewrite !(proj2 (Z.ltb_ge _ _)) by lia.
  - split; [|unfold h'; rewrite Eh; done]. pose proof (splice_touch h (y + payload_offset h0 + to) bs Hg Hbb ltac:(lia) ltac:(lia)) as Ht.
    pose proof Hy as Hy'. apply at_split in Hy' as (B1 & B2 & EB & ->). rewrite Z.add_0_l in *. rewrite EB in *.
    destruct (payload_touch cut h h' B1 ky B2 L _ _ Hok (live_flags _ Ly) Ht) as (H1 & _ & _); [|lia|done].
    fold (payload_offset h). rewrite Ep. lia.
Qed.

(** *** The slices of a copy *)

Context (s d n w : Z) (Hs : 0 <= s) (Hd : 0 <= d) (Hn : 0 <= n) (Hw : 0 < w)
        (Hsx : 8 + (s + n) * w <= room h0 kx) (Hdy : 8 + (d + n) * w <= room h0 ky).

(** Where the ranges lie in the arena, and the direction of the copy. *)
Context (src dst : Z) (bw : bool) (Esrc : src = x + payload_offset h0 + 8 + s * w) (Edst : dst = y + payload_offset h0 + 8 + d * w)
        (Ebw : bw = bool_decide (ref_of x = ref_of y) && (s <? d)).

(** After [m] elements. *)
Definition copying (p : PendingArrayCopy) (h : Heap) (m : Z) : Prop :=
  p = mkCopy (ref_of x) (ref_of y) (if bw then s else s + m) (if bw then d else d + m) (n - m) w bw /\ 0 <= m <= n /\ same_blocks h /\
  moved (arena h0) src dst (if bw then (n - m) * w else 0) (if bw then n * w else m * w) (arena h).

Lemma bounds : (s + n) * w <= 2 ^ 30 /\ (d + n) * w <= 2 ^ 30 /\ s + n <= 2 ^ 30 /\ d + n <= 2 ^ 30 /\
  0 <= src /\ 0 <= dst /\ src + n * w <= x + b_size kx /\ dst + n * w <= y + b_size ky /\ x <= src /\ y <= dst /\
  x + b_size kx <= Z.of_nat (length (arena h0)) /\ y + b_size ky <= Z.of_nat (length (arena h0)).
Proof using Hok0 Hx Hy Lx Ly Hs Hd Hn Hw Hsx Hdy Esrc Edst Ebw.
  assert (H0 : same_blocks h0) by (split; [done|by destruct h0]).
  destruct (copy_span_ok h0 x kx (8 + s * w) (n * w) H0 Hx Lx) as (_ & X0 & X8 & X1 & X2); [nia|nia|nia|].
  destruct (copy_span_ok h0 y ky (8 + d * w) (n * w) H0 Hy Ly) as (_ & Y0 & _ & Y1 & Y2); [nia|nia|nia|].
  pose proof (l_geom _ _ _ (k_lists _ _ _ _ Hok0)) as Hg. pose proof (g_len _ Hg). pose proof (g_size _ Hg) as Hsz. rewrite Value.MAX_PAYLOAD_eq in Hsz.
  pose proof (seg_all_ok _ _ _ _ _ (k_seg _ _ _ _ Hok0)) as Hall. pose proof (at_range _ _ _ _ Hall Hx). pose proof (at_range _ _ _ _ Hall Hy).
  assert ((s + n) * w <= 2 ^ 30 - 1) by (unfold room in *; lia). assert ((d + n) * w <= 2 ^ 30 - 1) by (unfold room in *; lia).
  assert (Hle : forall z, 0 <= z -> z <= z * w) by (intros z Hz; rewrite <- (Z.mul_1_r z) at 1; apply Z.mul_le_mono_nonneg_l; lia).
  pose proof (Hle (s + n) ltac:(lia)). pose proof (Hle (d + n) ltac:(lia)). pose proof (Hle s Hs). pose proof (Hle d Hd).
  rewrite Esrc, Edst. split_and!; lia.
Qed.

(** The range that is read next was not overwritten. *)
Lemma apart m c : 0 <= m -> 1 <= c -> m + c <= n -> let a := (if bw then n - m - c else m) * w in
  src + a + c * w <= dst + (if bw then (n - m) * w else 0) \/ dst + (if bw then n * w else m * w) <= src + a.
Proof using Hok0 Hx Hy Lx Ly Hs Hd Hn Hw Hsx Hdy Esrc Edst Ebw.
  intros Hm Hc Hmc a. destruct bounds as (_ & _ & _ & _ & _ & _ & X1 & Y1 & X0 & Y0 & _). subst a. rewrite Ebw.
  destruct (bool_decide_reflect (ref_of x = ref_of y)) as [E|E]; cbn [andb].
  - unfold ref_of in E. injection E as E. assert (x = y) by lia. subst y. destruct (Z.ltb_spec s d) as [Hlt|Hge].
    + left. rewrite Esrc, Edst. assert (s * w <= d * w) by nia. nia.
    + right. rewrite Esrc, Edst. assert (d * w <= s * w) by nia. lia.
  - assert (Hne : x <> y) by (intros ->; done). pose proof (seg_all_ok _ _ _ _ _ (k_seg _ _ _ _ Hok0)) as Hall.
    destruct (at_sep _ _ _ _ _ _ Hall Hx Hy) as [[? _]|[Hxy|Hyx]]; [done|left|right]; nia.
Qed.

Lemma copy_some_ok p h m c : copying p h m -> 1 <= c -> m + c <= n -> c * w <= u32_max ->
  exists p' h', copy_some c (p, h) = (Ok tt, (p', h')) /\ copying p' h' (m + c).
Proof using Hok0 Hx Hy Lx Ly Hs Hd Hn Hw Hsx Hdy Esrc Edst Ebw.
  intros (-> & Hm & Hh & Hmov) Hc Hmc Hcw. destruct bounds as (W1 & W2 & W3 & W4 & S0 & D0 & X1 & Y1 & _ & _ & X2 & Y2).
  pose proof (apart m c ltac:(lia) Hc Hmc) as Hap. cbn zeta in Hap. set (a := if bw then n - m - c else m) in *. assert (Ha : 0 <= a /\ a + c <= n) by (unfold a; destruct bw; lia).
  assert (Haw : 0 <= a * w /\ a * w + c * w <= n * w).
  { split; [apply Z.mul_nonneg_nonneg; lia|]. rewrite <- Z.mul_add_distr_r. apply Z.mul_le_mono_nonneg_r; lia. }
  assert (Hu : 2 ^ 30 + 8 <= u32_max) by (unfold u32_max; lia).
  assert (A1 : 0 <= s * w /\ (s + a) * w <= (s + n) * w /\ s + a <= s + n) by nia. assert (A2 : 0 <= d * w /\ (d + a) * w <= (d + n) * w /\ d + a <= d + n) by nia.
  destruct (copy_range_ok h ((s + a) * w + 8) ((d + a) * w + 8) (c * w) Hh) as [Hrun Hh']; [nia|nia|nia|nia|nia|].
  replace (y + payload_offset h0 + ((d + a) * w + 8)) with (dst + a * w) in * by (rewrite Edst; lia).
  replace (x + payload_offset h0 + ((s + a) * w + 8)) with (src + a * w) in * by (rewrite Esrc; lia).
  assert (Hstep : forall lo hi, moved (arena h0) src dst lo hi (arena h) -> lo <= hi -> a * w = hi \/ a * w + c * w = lo ->
    src + a * w + c * w <= dst + lo \/ dst + hi <= src + a * w ->
    moved (arena h0) src dst (if decide (a * w = hi) then lo else a * w) (if decide (a * w = hi) then a * w + c * w else hi)
      (splice (dst + a * w) (slice (src + a * w) (c * w) (arena h)) (arena h))).
  { intros lo hi H1 H2 H3 H4. apply moved_step; try done; nia. }
  exists (mkCopy (ref_of x) (ref_of y) (if bw then s else s + (m + c)) (if bw then d else d + (m + c)) (n - (m + c)) w bw), (set_arena (splice (dst + a * w) (slice (src + a * w) (c * w) (arena h)) (arena h)) h). split.
  - unfold copy_some. cbn [backward remaining source_start destination_start width source destination].
    replace (if bw then expect (checked_sub (n - m) c) else Ok 0) with (Ok (E := VmFault) (if bw then a else 0)).
    2: { unfold a. destruct bw; [|done]. unfold checked_sub. by rewrite (proj2 (Z.leb_le _ _)) by lia. }
    assert (Eo : element_offset (if bw then s else s + m) (if bw then a else 0) w = Ok ((s + a) * w + 8) /\
                 element_offset (if bw then d else d + m) (if bw then a else 0) w = Ok ((d + a) * w + 8)).
    { assert (E1 : (if bw then s else s + m) + (if bw then a else 0) = s + a) by (unfold a; destruct bw; lia).
      assert (E2 : (if bw then d else d + m) + (if bw then a else 0) = d + a) by (unfold a; destruct bw; lia).
      rewrite !element_offset_ok; rewrite ?E1, ?E2; try done; try lia; unfold a; destruct bw; lia. }
    rewrite (st_bind_ok _ _ _ (if bw then a else 0) h) by done. rewrite (st_bind_ok _ _ _ ((s + a) * w + 8) h) by (unfold st_lift; by rewrite (proj1 Eo)).
    rewrite (st_bind_ok _ _ _ ((d + a) * w + 8) h) by (unfold st_lift; by rewrite (proj2 Eo)).
    rewrite (st_bind_ok _ _ _ (c * w) h) by (unfold st_lift, checked_mul; by rewrite (proj2 (Z.leb_le _ _)) by done). rewrite Hrun.
    unfold checked_sub. rewrite (proj2 (Z.leb_le _ _)) by lia. destruct bw; [by rewrite Z.sub_add_distr|].
    rewrite !checked_add_le by lia. by rewrite Z.sub_add_distr, !Z.add_assoc.
  - split_and!; [done|lia|lia|done|]. cbn [arena set_arena].
    specialize (Hstep _ _ Hmov). assert (Hcw' : 0 < c * w) by nia. assert (Hnm : 0 <= m * w) by nia.
    destruct bw; subst a; refine (eq_rect _ (fun z => moved _ _ _ z _ _) (eq_rect _ (fun z => moved _ _ _ _ z _) (Hstep _ _ Hap) _ _) _ _); try case_decide; nia.
Qed.

Lemma copy_loop_ok fuel p h m l : copying p h m -> 0 <= l -> m + l <= n -> (Z.to_nat l <= fuel)%nat ->
  exists p' h', advance_loop fuel l (p, h) = (Ok tt, (p', h')) /\ copying p' h' (m + l).
Proof using Hok0 Hx Hy Lx Ly Hs Hd Hn Hw Hsx Hdy Esrc Edst Ebw.
  revert p h m l. induction fuel as [|fuel IH]; intros p h m l Hc Hl Hm Hf; cbn [advance_loop];
    (destruct (Z.eqb_spec l 0) as [->|Hne]; [exists p, h; split; [done|by rewrite Z.add_0_r]|]); [lia|].
  pose proof Hc as (_ & Hm0 & _). destruct bounds as (W1 & _). assert (H1 : Z.min l 256 * w <= (s + n) * w) by (apply Z.mul_le_mono_nonneg_r; lia).
  destruct (copy_some_ok p h m (Z.min l 256) Hc) as (p1 & h1 & Hrun & Hc1); [lia|lia|unfold u32_max; lia|].
  rewrite (st_bind_ok _ _ _ _ _ Hrun). destruct (IH p1 h1 (m + Z.min l 256) (l - Z.min l 256) Hc1) as (p2 & h2 & Hrun2 & Hc2); [lia|lia|lia|].
  exists p2, h2. split; [done|]. by replace (m + l) with (m + Z.min l 256 + (l - Z.min l 256)) by lia.
Qed.

Lemma copy_slice_ok p h m budget : copying p h m -> 0 <= budget -> let used := Z.min (n - m) budget in
  exists p' h', advance budget (p, h) = (Ok (used, m + used =? n), (p', h')) /\ copying p' h' (m + used).
Proof using Hok0 Hx Hy Lx Ly Hs Hd Hn Hw Hsx Hdy Esrc Edst Ebw.
  intros Hc Hb used. pose proof Hc as (Ep & Hm & _). unfold advance. replace (remaining p) with (n - m) by (rewrite Ep; done). fold used.
  destruct (copy_loop_ok (Z.to_nat used) p h m used Hc) as (p' & h' & Hrun & Hc'); [lia|lia|done|]. exists p', h'. rewrite Hrun. split; [|done].
  destruct Hc' as (-> & _). cbn [remaining]. do 3 f_equal. apply eq_true_iff_eq. rewrite !Z.eqb_eq. lia.
Qed.

End Objects.

(** The instruction is resumed with a budget each time; it reports what it used and
    whether it has finished. *)
Fixpoint resumed (budgets : list Z) (st : PendingArrayCopy * Heap) : list (outcome VmFault (Z * bool)) * (PendingArrayCopy * Heap) :=
  match budgets with
  | [] => ([], st)
  | b :: budgets => let '(o, st) := advance b st in let '(os, st) := resumed budgets st in (o :: os, st)
  end.

(** The reports of a copy of which [left] elements are left. *)
Fixpoint reports (left : Z) (budgets : list Z) : list (Z * bool) :=
  match budgets with
  | [] => []
  | b :: budgets => let used := Z.min left b in (used, used =? left) :: reports (left - used) budgets
  end.

Definition total (budgets : list Z) : Z := foldr Z.add 0 budgets.

(** A live array of [n] elements of [w] bytes. *)
Definition array_at (h : Heap) (B : list blk) (x : Z) (n w : Z) : Prop :=
  exists k, at_off 0 B x k /\ is_live k = true /\ 8 + n * w <= room h k.

Lemma new_ok_iff src dst s d n w p : src.2 <= i32_max -> dst.2 <= i32_max -> new src dst s d n w = Ok p ->
  (0 <= s /\ 0 <= d /\ 0 <= n /\ s + n <= src.2 /\ d + n <= dst.2) /\ p = mkCopy src.1 dst.1 s d n w (bool_decide (src.1 = dst.1) && (s <? d)).
Proof.
  intros H1 H2 H. unfold new in H. destruct (_ || _) eqn:E; [done|]. injection H as <-. split; [|done]. rewrite !orb_false_iff, !Z.ltb_ge in E.
  destruct E as ((((Hs & Hd) & Hn) & E1) & E2). destruct (checked_add i32_max s n) as [a|] eqn:Ea; [|done]. destruct (checked_add i32_max d n) as [b|] eqn:Eb; [|done].
  apply checked_add_Some in Ea as [-> _], Eb as [-> _]. apply Z.ltb_ge in E1, E2. lia.
Qed.

Lemma new_err_iff src dst s d n w e : src.2 <= i32_max -> dst.2 <= i32_max -> new src dst s d n w = Err e ->
  e = IndexOutOfBounds /\ ~ (0 <= s /\ 0 <= d /\ 0 <= n /\ s + n <= src.2 /\ d + n <= dst.2).
Proof.
  intros H1 H2 H. unfold new in H. destruct (_ || _) eqn:E; [|done]. injection H as <-. split; [done|]. intros (Hs & Hd & Hn & Hsn & Hdn).
  rewrite !(proj2 (Z.ltb_ge _ _)) in E by lia. cbn [orb] in E. rewrite !checked_add_le in E by lia. rewrite !(proj2 (Z.ltb_ge _ _)) in E by lia. done.
Qed.

Lemma resumed_ok cut h0 B L (Hok : heap_ok cut h0 B L) x y kx ky (Hx : at_off 0 B x kx) (Hy : at_off 0 B y ky) (Lx : is_live kx = true)
    (Ly : is_live ky = true) s d n w (Hs : 0 <= s) (Hd : 0 <= d) (Hn : 0 <= n) (Hw : 0 < w) (Hsx : 8 + (s + n) * w <= room h0 kx)
    (Hdy : 8 + (d + n) * w <= room h0 ky) src dst bw (Esrc : src = x + payload_offset h0 + 8 + s * w) (Edst : dst = y + payload_offset h0 + 8 + d * w)
    (Ebw : bw = bool_decide (ref_of x = ref_of y) && (s <? d)) budgets p h m :
  Forall (Z.le 0) budgets -> copying cut h0 B L x y s d n w src dst bw p h m ->
  exists p' h', resumed budgets (p, h) = (Ok <$> reports (n - m) budgets, (p', h')) /\
    copying cut h0 B L x y s d n w src dst bw p' h' (m + Z.min (n - m) (total budgets)).
Proof.
  intros Hb. revert p h m. induction Hb as [|b budgets Hb0 Hb IH]; intros p h m Hc; pose proof Hc as (_ & Hm & _).
  - exists p, h. split; [done|]. cbn [total foldr]. by rewrite Z.min_r, Z.add_0_r by lia.
  - destruct (copy_slice_ok cut h0 B L Hok x y kx ky Hx Hy Lx Ly s d n w Hs Hd Hn Hw Hsx Hdy src dst bw Esrc Edst Ebw p h m b Hc Hb0) as (p1 & h1 & Hrun & Hc1).
    destruct (IH _ _ _ Hc1) as (p2 & h2 & Hrun2 & Hc2). exists p2, h2. cbn [resumed reports]. rewrite Hrun, Hrun2. split.
    + rewrite fmap_cons. replace (n - (m + Z.min (n - m) b)) with (n - m - Z.min (n - m) b) by lia. do 4 f_equal.
      apply eq_true_iff_eq. rewrite !Z.eqb_eq. lia.
    + assert (0 <= total budgets) by (clear -Hb; induction Hb; simpl; lia). unfold total in *. cbn [foldr].
      by replace (m + Z.min (n - m) (b + foldr Z.add 0 budgets)) with (m + Z.min (n - m) b + Z.min (n - (m + Z.min (n - m) b)) (foldr Z.add 0 budgets)) by lia.
Qed.

(** C36. Copies of array elements.  A copy whose ranges leave an array is refused with an
    index trap before anything is written.  Any other, resumed with whatever budgets,
    uses of each budget what is left to do, reports the end exactly when nothing is left,
    and keeps every block of the heap; when the budgets have covered its length, the heap
    is the one before with the source range, as it was before, written over the
    destination range, also when the two overlap. *)
Theorem array_copy_correct cut h B L x y nx ny s d n w budgets :
  heap_ok cut h B L -> array_at h B x nx w -> array_at h B y ny w -> 0 < w -> nx <= i32_max -> ny <= i32_max -> Forall (Z.le 0) budgets ->
  match new (ref_of x, nx) (ref_of y, ny) s d n w with
  | Ok p => (0 <= s /\ 0 <= d /\ 0 <= n /\ s + n <= nx /\ d + n <= ny) /\
      exists p' h', resumed budgets (p, h) = (Ok <$> reports n budgets, (p', h')) /\ heap_ok cut h' B L /\
        (n <= total budgets ->
         h' = set_arena (splice (y + payload_offset h + 8 + d * w) (slice (x + payload_offset h + 8 + s * w) (n * w) (arena h)) (arena h)) h)
  | Err e => e = IndexOutOfBounds /\ ~ (0 <= s /\ 0 <= d /\ 0 <= n /\ s + n <= nx /\ d + n <= ny)
  | Panic => False
  end.
Proof.
  intros Hok (kx & Hx & Lx & Rx) (ky & Hy & Ly & Ry) Hw Hnx Hny Hb. destruct (new _ _ s d n w) as [p|e|] eqn:En.
  - apply new_ok_iff in En as [(Hs & Hd & Hn & Hsn & Hdn) ->]; [|done|done]. split; [done|].
    set (src := x + payload_offset h + 8 + s * w). set (dst := y + payload_offset h + 8 + d * w).
    cbn [fst snd] in *. remember (bool_decide (ref_of x = ref_of y) && (s <? d)) as bw eqn:Ebw.
    assert (Hsx : 8 + (s + n) * w <= room h kx) by nia. assert (Hdy : 8 + (d + n) * w <= room h ky) by nia.
    assert (Hc : copying cut h B L x y s d n w src dst bw (mkCopy (ref_of x) (ref_of y) s d n w bw) h 0).
    { split_and!; [destruct bw; f_equal; lia|lia|lia|split; [done|by destruct h]|]. destruct bw; [rewrite Z.sub_0_r|]; apply moved_none. }
    destruct (resumed_ok cut h B L Hok x y kx ky Hx Hy Lx Ly s d n w Hs Hd Hn Hw Hsx Hdy src dst bw eq_refl eq_refl Ebw budgets _ _ 0 Hb Hc) as (p' & h' & Hrun & Hc').
    rewrite Z.sub_0_r in Hrun. exists p', h'. destruct Hc' as (_ & _ & [Hok' Eh'] & Hmov). split_and!; [done|done|]. intros Htot.
    rewrite Z.add_0_l, Z.sub_0_r in Hmov. rewrite (Z.min_l _ _ Htot), Z.sub_diag, Z.mul_0_l in Hmov.
    rewrite Eh'. f_equal. apply moved_all; [by destruct bw|..];
      destruct (bounds cut h B L Hok x y kx ky Hx Hy Lx Ly s d n w Hs Hd Hn Hw Hsx Hdy src dst bw eq_refl eq_refl Ebw) as (_ & _ & _ & _ & ? & ? & ? & ? & _ & _ & ? & ?); try lia; nia.
  - by apply new_err_iff in En.
  - unfold new in En. by destruct (_ || _).
Qed.

(** The five elements of an array of sixteen bytes moved up by three, in two
    slices. *)
Definition demo_array : Heap := (HeapProps.run_op (HeapProps.OWrite 0 8 [1; 2; 3; 4; 5]) HeapProps.demo_live).2.

Lemma demo_array_inv : HeapProps.heap_inv demo_array [mkBlk 32 5; mkBlk 24 5; mkBlk 72 0].
Proof.
  apply (HeapProps.demo_step _ _ _ _ HeapProps.demo_live_inv); [|vm_compute; reflexivity].
  exists (mkBlk 32 5). split; [by left|]. split_and!; [done|repeat constructor; discriminate|done|vm_compute; discriminate].
Qed.

Lemma array_copy_correct_witness : exists p p' h', new (ref_of 0, 16) (ref_of 0, 16) 0 3 5 1 = Ok p /\
  resumed [2; 4] (p, demo_array) = ([Ok (2, false); Ok (3, true)], (p', h')) /\
  slice 16 8 (arena h') = [1; 2; 3; 1; 2; 3; 4; 5].
Proof.
  destruct demo_array_inv as [L Hok].
  assert (Ha : array_at demo_array [mkBlk 32 5; mkBlk 24 5; mkBlk 72 0] 0 16 1).
  { exists (mkBlk 32 5). split; [left; split; reflexivity|]. split; [reflexivity|vm_compute; discriminate]. }
  pose proof (array_copy_correct _ demo_array _ L 0 0 16 16 0 3 5 1 [2; 4] Hok Ha Ha) as H.
  assert (E : new (ref_of 0, 16) (ref_of 0, 16) 0 3 5 1 = Ok (mkCopy (ref_of 0) (ref_of 0) 0 3 5 1 true)) by reflexivity.
  rewrite E in H. destruct H as (_ & p' & h' & Hrun & _ & Heq).
  - reflexivity.
  - discriminate.
  - discriminate.
  - repeat constructor; discriminate.
  - exists (mkCopy (ref_of 0) (ref_of 0) 0 3 5 1 true), p', h'. split; [exact E|]. split; [exact Hrun|].
    rewrite Heq by (vm_compute; discriminate). vm_compute. reflexivity.
Defined.

End ArrayCopyProps.
