(* ===== verification/Task.v ===== *)
(** src/execution/task.rs: the cooperative task scheduler.  Task records live in
    a fixed table; runnable tasks wait in a ring of slots; a task may wait for a
    host request, for another task, or for a channel. *)

From S2P Require Import Prelude.

Module Task.

(** [TaskId] (src/execution/host.rs) is a nonzero [u32], [RequestId] a nonzero [u64]. *)
Abbreviation TaskId := Z (only parsing).
Abbreviation RequestId := Z (only parsing).

Definition ROOT : TaskId := 1.
Definition task_id_new (value : Z) : option TaskId := if value =? 0 then None else Some value.

Inductive TaskWait := Host (request : RequestId) | Join (task : TaskId) | Channel (channel : Z).

Inductive TaskState := Vacant | Ready | Running | Waiting (wait : TaskWait) | Completed.

Inductive TaskError :=
| AlreadyStarted | NotStarted | NoCapacity | IdExhausted | NoRunningTask | UnknownTask
| WrongWait | SelfJoin | JoinCycle | CorruptQueue.

#[global] Instance TaskWait_eq : EqDecision TaskWait.
Proof. solve_decision. Defined.
#[global] Instance TaskState_eq : EqDecision TaskState.
Proof. solve_decision. Defined.

Record TaskSnapshot := mkSnapshot {
  s_capacity : Z; s_live : Z; s_runnable : Z; s_suspended : Z; s_completed : Z }.

Record TaskRecord := mkTask { id : option TaskId; state : TaskState }.

Definition EMPTY : TaskRecord := mkTask None Vacant.

Record TaskScheduler := mkScheduler {
  tasks : list TaskRecord;
  ready : list Z;
  ready_head : Z;
  ready_len : Z;
  active : option Z;
  next_id : Z }.

Definition set_tasks (t : list TaskRecord) (s : TaskScheduler) : TaskScheduler :=
  mkScheduler t (ready s) (ready_head s) (ready_len s) (active s) (next_id s).
Definition set_active (a : option Z) (s : TaskScheduler) : TaskScheduler :=
  mkScheduler (tasks s) (ready s) (ready_head s) (ready_len s) a (next_id s).
Definition set_next_id (n : Z) (s : TaskScheduler) : TaskScheduler :=
  mkScheduler (tasks s) (ready s) (ready_head s) (ready_len s) (active s) n.
Definition set_ring (r : list Z) (h l : Z) (s : TaskScheduler) : TaskScheduler :=
  mkScheduler (tasks s) r h l (active s) (next_id s).

Abbreviation TaskM := (ST TaskScheduler TaskError).

Definition len {A} (l : list A) : Z := Z.of_nat (length l).

(** Indexing with [self.tasks[slot]]. *)
Definition task_at (slot : Z) (s : TaskScheduler) : outcome TaskError TaskRecord :=
  expect (zget (tasks s) slot).

(** [self.tasks[slot].state = state]. *)
Definition set_state (slot : Z) (st : TaskState) : TaskM unit := fun s =>
  match zget (tasks s) slot with
  | None => (Panic, s)
  | Some t => (Ok tt, set_tasks (zset slot (mkTask (id t) st) (tasks s)) s)
  end.

Definition new (capacity : Z) : outcome TaskError TaskScheduler :=
  if capacity =? 0 then Err NoCapacity
  else Ok (mkScheduler (replicate (Z.to_nat capacity) EMPTY)
             (replicate (Z.to_nat capacity) usize_max) 0 0 None (ROOT + 1)).

Definition start_root : TaskM unit := fun s =>
  if bool_decide (is_Some (active s)) then (Err AlreadyStarted, s)
  else
    match zget (tasks s) 0 with
    | None => (Panic, s)
    | Some t =>
        if negb (bool_decide (state t = Vacant)) then (Err AlreadyStarted, s)
        else (Ok tt, set_active (Some 0) (set_tasks (zset 0 (mkTask (Some ROOT) Running) (tasks s)) s))
    end.

(** [%] by zero is a panic, as is the write beyond the ring. *)
Definition enqueue (slot : Z) : TaskM unit := fun s =>
  if ready_len s =? len (ready s) then (Err CorruptQueue, s)
  else if len (ready s) =? 0 then (Panic, s)
  else
    let tail := (ready_head s + ready_len s) mod len (ready s) in
    match zget (ready s) tail with
    | None => (Panic, s)
    | Some _ => (Ok tt, set_ring (zset tail slot (ready s)) (ready_head s) (ready_len s + 1) s)
    end.

Definition spawn : TaskM TaskId :=
  s ← st_get;
  _ ← st_lift (ok_or (active s) NoRunningTask);
  slot ← st_lift (ok_or (position (fun t => state t = Vacant) (tasks s)) NoCapacity);
  if i32_max <? next_id s then st_err IdExhausted
  else
    tid ← st_lift (ok_or (task_id_new (next_id s)) IdExhausted);
    next ← st_lift (ok_or (checked_add u32_max (next_id s) 1) IdExhausted);
    _ ← st_modify (fun s => set_tasks (zset slot (mkTask (Some tid) Ready) (tasks s)) (set_next_id next s));
    _ ← enqueue slot;
    mret tid.

Definition current (s : TaskScheduler) : outcome TaskError TaskId :=
  slot ← ok_or (active s) NoRunningTask;
  t ← task_at slot s;
  ok_or (id t) NoRunningTask.

Definition find_id (ts : list TaskRecord) (tid : TaskId) : option Z :=
  position (fun t => id t = Some tid) ts.
Definition slot (s : TaskScheduler) (tid : TaskId) : option Z := find_id (tasks s) tid.

(** [self.active.take()] clears the field even when the rest fails. *)
Definition suspend (wait : TaskWait) : TaskM TaskId :=
  s ← st_get;
  _ ← st_modify (set_active None);
  slot ← st_lift (ok_or (active s) NoRunningTask);
  t ← st_read (task_at slot);
  tid ← st_lift (ok_or (id t) NoRunningTask);
  _ ← set_state slot (Waiting wait);
  mret tid.

Definition suspend_host (request : RequestId) : TaskM TaskId := suspend (Host request).
Definition suspend_channel (channel : Z) : TaskM TaskId := suspend (Channel channel).

(** The [for] loop of [join]: [n] is the number of iterations left. *)
Fixpoint join_loop (n : nat) (current target cursor : TaskId) : TaskM bool :=
  match n with
  | O => st_err JoinCycle
  | S n =>
      s ← st_get;
      slot ← st_lift (ok_or (slot s cursor) UnknownTask);
      t ← st_read (task_at slot);
      match state t with
      | Waiting (Join next) =>
          if next =? current then st_err JoinCycle else join_loop n current target next
      | _ => _ ← suspend (Join target); mret true
      end
  end.

Definition join (target : TaskId) : TaskM bool :=
  current ← st_read current;
  if current =? target then st_err SelfJoin
  else
    s ← st_get;
    target_slot ← st_lift (ok_or (slot s target) UnknownTask);
    t ← st_read (task_at target_slot);
    if bool_decide (state t = Completed) then mret false
    else join_loop (length (tasks s)) current target target.

(** [for waiter in from..len]. *)
Fixpoint wake_joiners (n : nat) (waiter : Z) (completed : TaskId) : TaskM unit :=
  match n with
  | O => mret tt
  | S n =>
      t ← st_read (task_at waiter);
      _ ← (if bool_decide (state t = Waiting (Join completed))
           then _ ← set_state waiter Ready; enqueue waiter
           else mret tt);
      wake_joiners n (waiter + 1) completed
  end.

Definition complete_current : TaskM TaskId :=
  s ← st_get;
  _ ← st_modify (set_active None);
  slot ← st_lift (ok_or (active s) NoRunningTask);
  t ← st_read (task_at slot);
  completed ← st_lift (ok_or (id t) NoRunningTask);
  _ ← set_state slot Completed;
  _ ← wake_joiners (length (tasks s)) 0 completed;
  mret completed.

Definition complete_wait (task : TaskId) (wait : TaskWait) : TaskM unit :=
  s ← st_get;
  slot ← st_lift (ok_or (slot s task) UnknownTask);
  t ← st_read (task_at slot);
  if negb (bool_decide (state t = Waiting wait)) then st_err WrongWait
  else
    _ ← set_state slot Ready;
    enqueue slot.

Definition complete_host (task : TaskId) (request : RequestId) : TaskM unit :=
  complete_wait task (Host request).
Definition complete_channel (task : TaskId) (channel : Z) : TaskM unit :=
  complete_wait task (Channel channel).

Definition activate_next : TaskM (option TaskId) := fun s =>
  if bool_decide (is_Some (active s)) then (Err NoRunningTask, s)
  else if ready_len s =? 0 then (Ok None, s)
  else
    match zget (ready s) (ready_head s) with
    | None => (Panic, s)
    | Some slot =>
        let s1 := set_ring (zset (ready_head s) usize_max (ready s))
                    ((ready_head s + 1) mod len (ready s)) (ready_len s - 1) s in
        match zget (tasks s) slot with
        | None => (Err CorruptQueue, s1)
        | Some t =>
            if negb (bool_decide (state t = Ready)) then (Err CorruptQueue, s1)
            else (Ok (id t),
                  set_active (Some slot) (set_tasks (zset slot (mkTask (id t) Running) (tasks s1)) s1))
        end
    end.

Definition task_state (s : TaskScheduler) (task : TaskId) : option TaskState :=
  i ← slot s task; t ← zget (tasks s) i; Some (state t).

Definition capacity (s : TaskScheduler) : Z := len (tasks s).

Definition snapshot (s : TaskScheduler) : TaskSnapshot :=
  foldl (fun snap t =>
    match state t with
    | Vacant => snap
    | Ready | Running =>
        mkSnapshot (s_capacity snap) (s_live snap + 1) (s_runnable snap + 1) (s_suspended snap) (s_completed snap)
    | Waiting _ =>
        mkSnapshot (s_capacity snap) (s_live snap + 1) (s_runnable snap) (s_suspended snap + 1) (s_completed snap)
    | Completed =>
        mkSnapshot (s_capacity snap) (s_live snap) (s_runnable snap) (s_suspended snap) (s_completed snap + 1)
    end) (mkSnapshot (len (tasks s)) 0 0 0 0) (tasks s).

Definition cancel_all (s : TaskScheduler) : TaskScheduler :=
  mkScheduler (replicate (length (tasks s)) EMPTY) (replicate (length (ready s)) usize_max)
    0 0 None (next_id s).

End Task.
