(* ===== verification/TaskProps.v ===== *)
(** What src/execution/task.rs guarantees: every reachable scheduler is
    well formed and no operation corrupts it, runnable tasks are served in the
    order they became runnable, joins never deadlock, and completion wakes
    exactly the waiting tasks. *)

From S2P Require Import Prelude Task.

(** The scheduler invariant of src/execution/task.rs and its preservation. *)

Module TaskInv.
Import Task.

(** ** The ready ring *)

(** The [length q] cells from [head] on, around the end, hold [q]. *)
Record ring_ok (r : list Z) (head : Z) (q : list Z) : Prop := {
  ring_pos : 0 < len r;
  ring_head : 0 <= head < len r;
  ring_len : len q <= len r;
  ring_cells : forall i x, q !! i = Some x -> zget r ((head + Z.of_nat i) mod len r) = Some x }.

Lemma mod_sep a b n : 0 < n -> 0 <= a -> 0 <= b -> a < b -> b < a + n -> a mod n <> b mod n.
Proof.
  intros Hn Ha Hb Hlt Hd He.
  assert (Hz : (b - a) mod n = 0) by (rewrite Zminus_mod, He, Z.sub_diag; apply Z.mod_0_l; lia).
  rewrite Z.mod_small in Hz by lia. lia.
Qed.

Lemma ring_push r head q x : ring_ok r head q -> len q < len r ->
  ring_ok (zset ((head + len q) mod len r) x r) head (q ++ [x]).
Proof.
  intros [Hp Hh Hl Hc] Hlt. unfold len in *.
  constructor; unfold len; rewrite ?zset_length, ?length_app; simpl; try lia.
  - intros i y Hi.
    pose proof (Z.mod_pos_bound (head + Z.of_nat (length q)) (Z.of_nat (length r)) ltac:(lia)) as Hm.
    apply lookup_app_Some in Hi as [Hi|[Hge Hi]].
    + pose proof (lookup_lt_Some _ _ _ Hi).
      rewrite zget_zset_ne; [by apply Hc|lia|apply Z.mod_pos_bound; lia|].
      apply not_eq_sym, mod_sep; lia.
    + apply list_lookup_singleton_Some in Hi as [Hi ->].
      replace i with (length q) by lia.
      destruct (zget_is_Some r ((head + Z.of_nat (length q)) mod Z.of_nat (length r))) as [z Hz]; [lia|].
      by eapply zget_zset_eq.
Qed.

Lemma ring_pop r head x q y : ring_ok r head (x :: q) ->
  zget r head = Some x /\ ring_ok (zset head y r) ((head + 1) mod len r) q.
Proof.
  intros [Hp Hh Hl Hc]. unfold len in *. simpl in Hl.
  assert (H0 : zget r head = Some x).
  { specialize (Hc 0%nat x eq_refl). by rewrite Z.add_0_r, Z.mod_small in Hc by lia. }
  split; [done|]. constructor; unfold len; rewrite ?zset_length; try lia.
  - apply Z.mod_pos_bound. lia.
  - intros i z Hi. pose proof (lookup_lt_Some _ _ _ Hi).
    rewrite Zplus_mod_idemp_l.
    rewrite zget_zset_ne; [|lia|apply Z.mod_pos_bound; lia|].
    + rewrite <- (Hc (S i) z) by done. f_equal. f_equal. lia.
    + intros E. apply (mod_sep head (head + 1 + Z.of_nat i) (Z.of_nat (length r))); try lia.
      rewrite (Z.mod_small head) by lia. lia.
Qed.

(** Slots without repetition are at most as many as the table has. *)
Lemma slots_bounded (q : list Z) n : NoDup q -> (forall x, x ∈ q -> 0 <= x < Z.of_nat n) -> (length q <= n)%nat.
Proof.
  intros Hn Hq. assert (Hs : q ⊆+ seqZ 0 (Z.of_nat n)).
  { apply NoDup_submseteq; [done|]. intros x Hx. apply elem_of_seqZ. specialize (Hq x Hx). lia. }
  apply submseteq_length in Hs. rewrite length_seqZ in Hs. lia.
Qed.

(** ** The task table *)

(** The state of a task, by identifier. *)
Definition state_of (ts : list TaskRecord) (x : TaskId) : option TaskState :=
  i ← find_id ts x; t ← zget ts i; Some (state t).

Record ids_ok (ts : list TaskRecord) (next : Z) : Prop := {
  i_vacant : forall i t, zget ts i = Some t -> id t = None <-> state t = Vacant;
  i_unique : forall i j t u x, 0 <= i -> 0 <= j -> zget ts i = Some t -> zget ts j = Some u ->
    id t = Some x -> id u = Some x -> i = j;
  i_range : forall i t x, zget ts i = Some t -> id t = Some x -> 1 <= x < next;
  i_root : forall t, zget ts 0 = Some t -> state t = Vacant ->
    forall i u, zget ts i = Some u -> state u = Vacant }.

Record queue_ok (ts : list TaskRecord) (q : list Z) : Prop := {
  q_nodup : NoDup q;
  q_ready : forall i, i ∈ q <-> 0 <= i /\ exists t, zget ts i = Some t /\ state t = Ready }.

Definition active_ok (ts : list TaskRecord) (a : option Z) : Prop :=
  (forall i, a = Some i -> 0 <= i /\ exists t, zget ts i = Some t /\ state t = Running) /\
  (forall i t, 0 <= i -> zget ts i = Some t -> state t = Running -> a = Some i).

(** Waiting for tasks never goes round: a rank decreases along every wait. *)
Definition joins_to (ts : list TaskRecord) (x y : TaskId) : Prop := state_of ts x = Some (Waiting (Join y)).

Record joins_ok (ts : list TaskRecord) (rank : TaskId -> nat) : Prop := {
  j_rank : forall x y, joins_to ts x y -> (rank y < rank x)%nat;
  j_target : forall x y, joins_to ts x y -> exists st, state_of ts y = Some st /\ st <> Completed }.

(** Everything but the waits for tasks. *)
Record base_ok (s : TaskScheduler) (q : list Z) : Prop := {
  c_size : length (ready s) = length (tasks s);
  c_ring : ring_ok (ready s) (ready_head s) q;
  c_len : ready_len s = len q;
  c_queue : queue_ok (tasks s) q;
  c_active : active_ok (tasks s) (active s);
  c_ids : ids_ok (tasks s) (next_id s);
  c_next : 2 <= next_id s <= 2 ^ 31 }.

Definition sched_ok (s : TaskScheduler) (q : list Z) : Prop :=
  base_ok s q /\ exists rank, joins_ok (tasks s) rank.

(** *** Lookup by identifier *)

Definition distinct (ts : list TaskRecord) : Prop := forall i j t u x, 0 <= i -> 0 <= j -> zget ts i = Some t -> zget ts j = Some u ->
  id t = Some x -> id u = Some x -> i = j.

Lemma find_distinct ts i t x : distinct ts -> 0 <= i -> zget ts i = Some t -> id t = Some x -> find_id ts x = Some i.
Proof.
  intros Hok Hi Ht Hx. unfold find_id. destruct (position _ ts) as [j|] eqn:E.
  - apply position_Some in E as (Hj & u & Hu & Hux). f_equal. symmetry. eapply Hok; try done; lia.
  - apply position_None in E. rewrite Forall_lookup in E. by destruct (E _ _ Ht).
Qed.

Lemma state_distinct ts i t x : distinct ts -> 0 <= i -> zget ts i = Some t -> id t = Some x -> state_of ts x = Some (state t).
Proof. intros Hd Hi Ht Hx. unfold state_of. erewrite find_distinct by done. simpl. by rewrite Ht. Qed.

Lemma find_unique ts next i t x : ids_ok ts next -> 0 <= i -> zget ts i = Some t -> id t = Some x ->
  find_id ts x = Some i.
Proof. intros Hok. apply find_distinct. exact (i_unique _ _ Hok). Qed.

Lemma state_of_at ts next i t x : ids_ok ts next -> 0 <= i -> zget ts i = Some t -> id t = Some x ->
  state_of ts x = Some (state t).
Proof. intros. unfold state_of. erewrite find_unique by done. simpl. by rewrite H1. Qed.

Lemma state_of_inv ts x st : state_of ts x = Some st ->
  exists i t, 0 <= i < len ts /\ find_id ts x = Some i /\
    zget ts i = Some t /\ id t = Some x /\ state t = st.
Proof.
  unfold state_of. destruct (find_id ts x) as [i|] eqn:E; [|done]. simpl.
  intros H. pose proof E as E'. apply position_Some in E' as (Hi & t & Ht & Hx). rewrite Ht in H.
  injection H as <-. by exists i, t.
Qed.

Lemma position_slot s x i : slot s x = Some i ->
  exists t, 0 <= i < len (tasks s) /\ zget (tasks s) i = Some t /\ id t = Some x /\ state_of (tasks s) x = Some (state t).
Proof.
  unfold slot. intros E. pose proof E as E'. apply position_Some in E' as (Hi & t & Ht & Hx).
  exists t. split; [exact Hi|]. split_and!; try done. unfold state_of. rewrite E. simpl. by rewrite Ht.
Qed.

(** *** Changing one record of the table *)

Section Cell.
Context (ts : list TaskRecord) (i : Z) (t u : TaskRecord).
Context (Hi : 0 <= i) (Ht : zget ts i = Some t).

Let ts' := zset i u ts.

Lemma cell_eq : zget ts' i = Some u.
Proof using Ht. by eapply zget_zset_eq. Qed.

Lemma cell_ne j : 0 <= j -> j <> i -> zget ts' j = zget ts j.
Proof using Hi. intros. apply zget_zset_ne; lia. Qed.

Lemma cell_inv j v : 0 <= j -> zget ts' j = Some v ->
  (j = i /\ v = u) \/ (j <> i /\ zget ts j = Some v).
Proof using Hi Ht.
  intros Hj Hv. destruct (decide (j = i)) as [->|Hne].
  - rewrite cell_eq in Hv. injection Hv as <-. by left.
  - rewrite cell_ne in Hv by done. by right.
Qed.

(** Negative indices read the first record. *)
Lemma cell_any j v : zget ts' j = Some v -> exists j', 0 <= j' /\ zget ts' j' = Some v.
Proof using Type.
  intros Hv. destruct (Z.le_gt_cases 0 j); [by exists j|]. exists 0. split; [done|].
  unfold zget in *. by replace (Z.to_nat j) with (Z.to_nat 0) in Hv by lia.
Qed.

(** The queue. *)
Lemma upd_queue_same q : queue_ok ts q -> state t <> Ready -> state u <> Ready -> queue_ok ts' q.
Proof using All.
  intros [Hn Hq] H1 H2. constructor; [done|]. intros j. rewrite Hq. split.
  - intros (Hj & v & Hv & Hs). split; [done|]. exists v. split; [|done]. rewrite cell_ne; [done|done|congruence].
  - intros (Hj & v & Hv & Hs). split; [done|].
    destruct (cell_inv j v Hj Hv) as [[_ ->]|[_ Hv']]; [done|by exists v].
Qed.

Lemma upd_queue_push q : queue_ok ts q -> state t <> Ready -> state u = Ready -> queue_ok ts' (q ++ [i]).
Proof using All.
  intros [Hn Hq] H1 H2.
  assert (Hni : i ∉ q) by (rewrite Hq; intros (_ & v & Hv & Hs); congruence).
  constructor.
  - apply NoDup_app. split_and!; [done| |apply NoDup_singleton]. set_solver.
  - intros j. rewrite elem_of_app, list_elem_of_singleton, Hq. split.
    + intros [(Hj & v & Hv & Hs)| ->].
      * split; [done|]. exists v. split; [|done]. rewrite cell_ne; [done|done|congruence].
      * split; [done|]. eexists. split; [apply cell_eq|done].
    + intros (Hj & v & Hv & Hs). destruct (cell_inv j v Hj Hv) as [[-> _]|[_ Hv']]; [by right|left].
      split; [done|by exists v].
Qed.

Lemma upd_queue_pop q : queue_ok ts (i :: q) -> state u <> Ready -> queue_ok ts' q.
Proof using All.
  intros [Hn Hq] H2. apply NoDup_cons in Hn as [Hni Hn]. constructor; [done|]. intros j. split.
  - intros Hj. assert (j <> i) by congruence. destruct (proj1 (Hq j)) as (? & v & Hv & Hs); [by right|].
    split; [done|]. exists v. by rewrite cell_ne.
  - intros (Hj & v & Hv & Hs). destruct (cell_inv j v Hj Hv) as [[_ ->]|[Hne Hv']]; [done|].
    assert (Hin : j ∈ i :: q) by (apply Hq; split; [done|by exists v]).
    by apply elem_of_cons in Hin as [E|E].
Qed.

(** The active task. *)
Lemma upd_active_same a : active_ok ts a -> state t <> Running -> state u <> Running -> active_ok ts' a.
Proof using All.
  intros [H1 H2] Ha Hb. split.
  - intros j Hj. destruct (H1 j Hj) as (? & v & Hv & Hs). split; [done|]. exists v.
    rewrite cell_ne; [done|done|congruence].
  - intros j v Hj Hv Hs. destruct (cell_inv j v Hj Hv) as [[_ ->]|[_ Hv']]; [done|by eapply H2].
Qed.

Lemma upd_active_stop : active_ok ts (Some i) -> state u <> Running -> active_ok ts' None.
Proof using All.
  intros [H1 H2] Hb. split; [done|].
  intros j v Hj Hv Hs. destruct (cell_inv j v Hj Hv) as [[_ ->]|[Hne Hv']]; [done|].
  specialize (H2 j v Hj Hv' Hs). congruence.
Qed.

Lemma upd_active_start : active_ok ts None -> state u = Running -> active_ok ts' (Some i).
Proof using All.
  intros [H1 H2] Hb. split.
  - intros j [= <-]. split; [done|]. eexists. split; [apply cell_eq|done].
  - intros j v Hj Hv Hs. destruct (cell_inv j v Hj Hv) as [[-> _]|[Hne Hv']]; [done|].
    specialize (H2 j v Hj Hv' Hs). congruence.
Qed.

End Cell.

(** *** Changing the state of one task *)

Section Update.
Context (ts : list TaskRecord) (next : Z) (i : Z) (t : TaskRecord) (x : TaskId) (st : TaskState).
Context (Hids : ids_ok ts next) (Hi : 0 <= i) (Ht : zget ts i = Some t) (Hx : id t = Some x).
Context (Hst : st <> Vacant).

Let ts' := zset i (mkTask (id t) st) ts.

Lemma upd_occupied : state t <> Vacant.
Proof using Hids Ht Hx. intros E. apply (i_vacant _ _ Hids _ _ Ht) in E. congruence. Qed.

Lemma upd_ids : ids_ok ts' next.
Proof using All.
  constructor.
  - intros j u Hu. destruct (cell_any _ _ _ _ _ Hu) as (j' & Hj & Hu').
    destruct (cell_inv ts i t _ Hi Ht j' u Hj Hu') as [[_ ->]|[_ Hu'']]; [simpl; rewrite Hx; naive_solver|by apply (i_vacant _ _ Hids j')].
  - intros j l u v y Hj Hl Hu Hv Huy Hvy.
    destruct (cell_inv ts i t _ Hi Ht j u Hj Hu) as [[-> ->]|[Hne Hu']], (cell_inv ts i t _ Hi Ht l v Hl Hv) as [[-> ->]|[Hne' Hv']]; simpl in *.
    + done.
    + eapply (i_unique _ _ Hids i l); done.
    + eapply (i_unique _ _ Hids j i); done.
    + by eapply (i_unique _ _ Hids j l).
  - intros j u y Hu Huy. destruct (cell_any _ _ _ _ _ Hu) as (j' & Hj & Hu').
    destruct (cell_inv ts i t _ Hi Ht j' u Hj Hu') as [[_ ->]|[_ Hu'']]; simpl in *; by eapply (i_range _ _ Hids).
  - intros u Hu Hv. destruct (cell_inv ts i t _ Hi Ht 0 u ltac:(lia) Hu) as [[_ ->]|[_ Hu']]; [done|].
    destruct upd_occupied. by eapply (i_root _ _ Hids u).
Qed.

Lemma upd_state y : state_of ts' y = if decide (y = x) then Some st else state_of ts y.
Proof using All.
  destruct (decide (y = x)) as [->|Hne].
  - erewrite (state_of_at ts' next i); [|apply upd_ids|done|by eapply cell_eq|done]. done.
  - destruct (state_of ts y) as [sy|] eqn:E.
    + apply state_of_inv in E as (j & u & Hj & _ & Hu & Huy & <-).
      assert (j <> i) by (intros ->; congruence).
      erewrite (state_of_at ts' next j); [done|apply upd_ids|lia| |done]. unfold ts'; by rewrite cell_ne by lia.
    + destruct (state_of ts' y) as [sy|] eqn:E'; [|done].
      apply state_of_inv in E' as (j & u & Hj & _ & Hu & Huy & <-).
      destruct (cell_inv ts i t _ Hi Ht j u ltac:(lia) Hu) as [[_ ->]|[_ Hu']]; [simpl in Huy; congruence|].
      by erewrite (state_of_at ts next j) in E by (done || lia).
Qed.

(** Waits for tasks. *)
Lemma upd_joins rank : joins_ok ts rank -> (forall y, st <> Waiting (Join y)) ->
  (st = Completed -> forall y, ~ joins_to ts y x) -> joins_ok ts' rank.
Proof using All.
  intros [Hr Htg] Hnj Hcomp.
  assert (Hold : forall y z, joins_to ts' y z -> joins_to ts y z).
  { unfold joins_to. intros y z. rewrite upd_state. destruct (decide (y = x)); [|done].
    intros [= E]. by destruct (Hnj z). }
  constructor; [eauto|]. intros y z Hyz. apply Hold in Hyz as Hyz'.
  destruct (Htg _ _ Hyz') as (sz & Hsz & Hns). rewrite upd_state.
  destruct (decide (z = x)) as [->|]; [|by exists sz]. exists st. split; [done|].
  intros E. by apply (Hcomp E y).
Qed.

End Update.

(** *** Filling a vacant record *)

Section Occupy.
Context (ts : list TaskRecord) (next next' : Z) (i : Z) (t : TaskRecord) (x : TaskId) (st : TaskState).
Context (Hids : ids_ok ts next) (Hi : 0 <= i) (Ht : zget ts i = Some t) (Hv : state t = Vacant).
Context (Hst : st <> Vacant) (Hnext : next <= next') (Hx : 1 <= x < next').
Context (Hfresh : forall j u, zget ts j = Some u -> id u <> Some x).
Context (Hroot : i = 0 \/ exists u, zget ts 0 = Some u /\ state u <> Vacant).

Let ts' := zset i (mkTask (Some x) st) ts.

Lemma occ_ids : ids_ok ts' next'.
Proof using All.
  constructor.
  - intros j u Hu. destruct (cell_any _ _ _ _ _ Hu) as (j' & Hj & Hu').
    destruct (cell_inv ts i t _ Hi Ht j' u Hj Hu') as [[_ ->]|[_ Hu'']]; [simpl; naive_solver|by apply (i_vacant _ _ Hids j')].
  - intros j l u v y Hj Hl Hu Hw Huy Hvy.
    destruct (cell_inv ts i t _ Hi Ht j u Hj Hu) as [[-> ->]|[Hne Hu']],
      (cell_inv ts i t _ Hi Ht l v Hl Hw) as [[-> ->]|[Hne' Hw']]; simpl in *; simplify_eq; try done.
    + by destruct (Hfresh _ _ Hw').
    + by destruct (Hfresh _ _ Hu').
    + by eapply (i_unique _ _ Hids j l).
  - intros j u y Hu Huy. destruct (cell_any _ _ _ _ _ Hu) as (j' & Hj & Hu').
    destruct (cell_inv ts i t _ Hi Ht j' u Hj Hu') as [[_ ->]|[_ Hu'']]; simpl in *; simplify_eq; [done|].
    pose proof (i_range _ _ Hids _ _ _ Hu'' Huy). lia.
  - intros u Hu Hvac. destruct (cell_inv ts i t _ Hi Ht 0 u ltac:(lia) Hu) as [[_ ->]|[Hne Hu']]; [done|].
    destruct Hroot as [|(v & Hv0 & Hnv)]; [lia|]. congruence.
Qed.

Lemma occ_state y : state_of ts' y = if decide (y = x) then Some st else state_of ts y.
Proof using All.
  destruct (decide (y = x)) as [->|Hne].
  - erewrite (state_of_at ts' next' i); [|apply occ_ids|done|by eapply cell_eq|done]. done.
  - destruct (state_of ts y) as [sy|] eqn:E.
    + apply state_of_inv in E as (j & u & Hj & _ & Hu & Huy & <-).
      assert (j <> i). { intros ->. rewrite Ht in Hu. injection Hu as <-.
        apply (i_vacant _ _ Hids _ _ Ht) in Hv. congruence. }
      erewrite (state_of_at ts' next' j); [done|apply occ_ids|lia| |done]. unfold ts'. by rewrite cell_ne by lia.
    + destruct (state_of ts' y) as [sy|] eqn:E'; [|done].
      apply state_of_inv in E' as (j & u & Hj & _ & Hu & Huy & <-).
      destruct (cell_inv ts i t _ Hi Ht j u ltac:(lia) Hu) as [[_ ->]|[_ Hu']]; [simpl in Huy; congruence|].
      by erewrite (state_of_at ts next j) in E by (done || lia).
Qed.

Lemma occ_joins rank : joins_ok ts rank -> (forall y, st <> Waiting (Join y)) -> st <> Completed -> joins_ok ts' rank.
Proof using All.
  intros [Hr Htg] Hnj Hnc.
  assert (Hold : forall y z, joins_to ts' y z -> joins_to ts y z).
  { unfold joins_to. intros y z. rewrite occ_state. destruct (decide (y = x)); [|done].
    intros [= E]. by destruct (Hnj z). }
  constructor; [eauto|]. intros y z Hyz. destruct (Htg _ _ (Hold _ _ Hyz)) as (sz & Hsz & Hns).
  rewrite occ_state. destruct (decide (z = x)); [by exists st|by exists sz].
Qed.

End Occupy.

(** ** Operations *)

Lemma base_slots s q i : base_ok s q -> i ∈ q -> 0 <= i < len (tasks s).
Proof.
  intros Hb Hi. apply (q_ready _ _ (c_queue _ _ Hb)) in Hi as (H0 & t & Ht & _).
  by apply zget_Some_lt in Ht.
Qed.

Lemma queue_room s q i t : base_ok s q -> 0 <= i -> zget (tasks s) i = Some t -> state t <> Ready ->
  len q < len (ready s).
Proof.
  intros Hb Hi Ht Hn. assert (Hni : i ∉ q).
  { intros Hin. apply (q_ready _ _ (c_queue _ _ Hb)) in Hin as (_ & u & Hu & Hs). congruence. }
  pose proof (slots_bounded (i :: q) (length (tasks s))) as Hl. unfold len.
  rewrite (c_size _ _ Hb). simpl in Hl. specialize (Hl ltac:(apply NoDup_cons; split; [done|apply Hb])).
  assert (forall x, x ∈ i :: q -> 0 <= x < Z.of_nat (length (tasks s))).
  { intros x [->|Hx]%elem_of_cons; [by eapply zget_Some_lt|by eapply base_slots]. }
  specialize (Hl H). lia.
Qed.

Lemma enqueue_ok s q i : ring_ok (ready s) (ready_head s) q -> ready_len s = len q -> len q < len (ready s) ->
  exists r, enqueue i s = (Ok tt, set_ring r (ready_head s) (ready_len s + 1) s) /\
    ring_ok r (ready_head s) (q ++ [i]) /\ length r = length (ready s).
Proof.
  intros Hr Hl Hlt. pose proof (ring_pos _ _ _ Hr). unfold enqueue. rewrite Hl.
  rewrite (proj2 (Z.eqb_neq _ _)), (proj2 (Z.eqb_neq (len (ready s)) 0)) by lia.
  destruct (zget_is_Some (ready s) ((ready_head s + len q) mod len (ready s))) as [y Hy].
  { apply Z.mod_pos_bound. done. }
  rewrite Hy. eexists. split; [done|]. split; [by apply ring_push|apply zset_length].
Qed.

Lemma set_state_at s i t st : zget (tasks s) i = Some t ->
  set_state i st s = (Ok tt, set_tasks (zset i (mkTask (id t) st) (tasks s)) s).
Proof. intros Ht. unfold set_state. by rewrite Ht. Qed.

(** A waiting task becomes runnable, last in the queue. *)
Lemma wake_ok s q i t x w :
  base_ok s q -> 0 <= i -> zget (tasks s) i = Some t -> id t = Some x -> state t = Waiting w ->
  exists s', (_ ← set_state i Ready; enqueue i) s = (Ok tt, s') /\ base_ok s' (q ++ [i]) /\
    tasks s' = zset i (mkTask (id t) Ready) (tasks s) /\ active s' = active s /\ next_id s' = next_id s.
Proof.
  intros Hb Hi Ht Hx Hw. pose proof Hb as [Hsz Hr Hl Hq Ha Hids Hn].
  assert (Hlt : len q < len (ready s)) by (eapply queue_room; [done..|congruence]).
  rewrite (st_bind_ok _ _ _ _ _ (set_state_at s i t Ready Ht)).
  destruct (enqueue_ok (set_tasks (zset i (mkTask (id t) Ready) (tasks s)) s) q i Hr Hl Hlt) as (r & Hrun & Hr' & Hlr).
  eexists. split; [exact Hrun|]. split_and!; try done. constructor; simpl in *; try done.
  - by rewrite Hlr, zset_length.
  - rewrite Hl. unfold len. rewrite length_app. simpl. lia.
  - eapply upd_queue_push; (done || congruence).
  - eapply upd_active_same; (done || congruence).
  - eapply upd_ids; (done || congruence).
Qed.

(** The active task stops running. *)
Lemma stop_ok s q i t x st :
  base_ok s q -> active s = Some i -> zget (tasks s) i = Some t -> id t = Some x ->
  st <> Vacant -> st <> Ready -> st <> Running ->
  base_ok (set_tasks (zset i (mkTask (id t) st) (tasks s)) (set_active None s)) q.
Proof.
  intros [Hsz Hr Hl Hq Ha Hids Hn] Hac Ht Hx H1 H2 H3. rewrite Hac in Ha.
  destruct (proj1 Ha i eq_refl) as (Hi & u & Hu & Hrun). rewrite Ht in Hu. injection Hu as <-.
  constructor; simpl; try done.
  - by rewrite zset_length.
  - eapply upd_queue_same; (done || congruence).
  - by eapply upd_active_stop.
  - by eapply upd_ids.
Qed.

Lemma active_task s q : base_ok s q -> forall i, active s = Some i ->
  exists t x, 0 <= i /\ zget (tasks s) i = Some t /\ state t = Running /\ id t = Some x /\
    state_of (tasks s) x = Some Running /\ current s = Ok x.
Proof.
  intros Hb i Hi. destruct (proj1 (c_active _ _ Hb) i Hi) as (H0 & t & Ht & Hrun).
  destruct (id t) as [x|] eqn:Hx.
  - exists t, x. split_and!; try done.
    + erewrite state_of_at; [by rewrite Hrun|apply Hb|done..].
    + unfold current, task_at. rewrite Hi. simpl. rewrite Ht. simpl. by rewrite Hx.
  - apply (i_vacant _ _ (c_ids _ _ Hb) _ _ Ht) in Hx. congruence.
Qed.

Lemma set_active_id s : active s = None -> set_active None s = s.
Proof. destruct s. simpl. by intros ->. Qed.

Lemma suspend_run s q w i t x : base_ok s q -> active s = Some i -> zget (tasks s) i = Some t -> id t = Some x ->
  suspend w s = (Ok x, set_tasks (zset i (mkTask (id t) (Waiting w)) (tasks s)) (set_active None s)).
Proof.
  intros Hb Hi Ht Hx. unfold suspend. rewrite (st_bind_ok _ _ _ s s) by done.
  rewrite (st_bind_ok _ _ _ tt (set_active None s)) by done. rewrite Hi.
  rewrite (st_bind_ok _ _ _ i (set_active None s)) by done.
  rewrite (st_bind_ok _ _ _ t (set_active None s)) by (unfold st_read, task_at; simpl; by rewrite Ht).
  rewrite Hx, (st_bind_ok _ _ _ x (set_active None s)) by done.
  rewrite (st_bind_ok _ _ _ tt _ (set_state_at (set_active None s) i t (Waiting w) Ht)). by rewrite Hx.
Qed.

Lemma suspend_none s w : active s = None -> suspend w s = (Err NoRunningTask, s).
Proof.
  intros Hi. unfold suspend. rewrite (st_bind_ok _ _ _ s s) by done.
  rewrite (st_bind_ok _ _ _ tt (set_active None s)) by done. rewrite Hi, set_active_id by done. done.
Qed.

(** Suspending on a host request or a channel. *)
Lemma suspend_ok s q w : sched_ok s q -> (forall y, w <> Join y) ->
  match active s with
  | None => suspend w s = (Err NoRunningTask, s)
  | Some i => exists x s', current s = Ok x /\ suspend w s = (Ok x, s') /\ sched_ok s' q /\ active s' = None /\
      forall y, state_of (tasks s') y = if decide (y = x) then Some (Waiting w) else state_of (tasks s) y
  end.
Proof.
  intros [Hb [rank Hj]] Hw. destruct (active s) as [i|] eqn:Hi; [|by apply suspend_none].
  destruct (active_task s q Hb i Hi) as (t & x & H0 & Ht & Hrun & Hx & Hs & Hc).
  eexists x, _. split; [done|]. split; [by eapply suspend_run|]. split; [split|split].
  - eapply stop_ok; done.
  - exists rank. eapply upd_joins; try done; [apply Hb|]. intros y [= ->]. by destruct (Hw y).
  - done.
  - intros y. eapply upd_state; try done. apply Hb.
Qed.

Lemma complete_wait_ok s q x w : sched_ok s q ->
  match state_of (tasks s) x with
  | None => complete_wait x w s = (Err UnknownTask, s)
  | Some st =>
      if decide (st = Waiting w)
      then exists i s', slot s x = Some i /\ complete_wait x w s = (Ok tt, s') /\ sched_ok s' (q ++ [i]) /\
        active s' = active s /\
        forall y, state_of (tasks s') y = if decide (y = x) then Some Ready else state_of (tasks s) y
      else complete_wait x w s = (Err WrongWait, s)
  end.
Proof.
  intros [Hb [rank Hj]]. unfold complete_wait. rewrite (st_bind_ok _ _ _ s s) by done.
  destruct (state_of (tasks s) x) as [st|] eqn:E.
  - apply state_of_inv in E as (i & t & Hi & Hf & Ht & Hx & Hs).
    rewrite (st_bind_ok _ _ _ i s) by (unfold slot; by rewrite Hf).
    rewrite (st_bind_ok _ _ _ t s) by (unfold st_read, task_at; by rewrite Ht).
    rewrite Hs. destruct (decide (st = Waiting w)) as [->|Hne].
    + rewrite bool_decide_eq_true_2 by done. simpl.
      destruct (wake_ok s q i t x w Hb (proj1 Hi) Ht Hx Hs) as (s' & Hrun & Hb' & Hts & Ha & Hn).
      exists i, s'. split; [done|]. split; [done|]. split; [split; [done|]|split; [done|]].
      * rewrite Hts. exists rank. eapply upd_joins; try done; [apply Hb|lia].
      * rewrite Hts. intros y. eapply upd_state; try done; [apply Hb|lia].
    + rewrite bool_decide_eq_false_2 by done. done.
  - unfold state_of in E. destruct (find_id (tasks s) x) as [i|] eqn:Ef.
    + pose proof Ef as Ef'. apply position_slot in Ef' as (t & _ & Ht & _). simpl in E. by rewrite Ht in E.
    + unfold slot. by rewrite Ef.
Qed.

Lemma activate_ok s q : sched_ok s q ->
  match active s, q with
  | Some _, _ => activate_next s = (Err NoRunningTask, s)
  | None, [] => activate_next s = (Ok None, s)
  | None, i :: q' => exists x s', activate_next s = (Ok (Some x), s') /\ sched_ok s' q' /\
      slot s x = Some i /\ current s' = Ok x /\
      forall y, state_of (tasks s') y = if decide (y = x) then Some Running else state_of (tasks s) y
  end.
Proof.
  intros [Hb [rank Hj]]. pose proof Hb as [Hsz Hr Hl Hq Ha Hids Hn]. unfold activate_next.
  destruct (active s) as [a|] eqn:Hac; [done|]. rewrite bool_decide_eq_false_2 by (by intros [? ?]).
  rewrite Hl. destruct q as [|i q']; [done|].
  rewrite (proj2 (Z.eqb_neq _ _)) by (unfold len; simpl; lia).
  destruct (ring_pop _ _ _ _ usize_max Hr) as [Hcell Hr']. rewrite Hcell.
  destruct (proj1 (q_ready _ _ Hq i)) as (Hi & t & Ht & Hs); [left|]. rewrite Ht.
  rewrite bool_decide_eq_true_2 by done. simpl.
  destruct (id t) as [x|] eqn:Hx; [|apply (i_vacant _ _ Hids _ _ Ht) in Hx; congruence].
  eexists x, _. split; [done|].
  assert (Hids' : ids_ok (zset i (mkTask (id t) Running) (tasks s)) (next_id s)) by (by eapply upd_ids).
  rewrite <- Hx. split_and!.
  - split; [|exists rank; by eapply upd_joins].
    constructor; simpl; try done; rewrite ?zset_length; try done.
    + unfold len. simpl. lia.
    + by eapply upd_queue_pop.
    + by eapply upd_active_start.
  - by eapply find_unique.
  - unfold current, task_at. simpl. erewrite zget_zset_eq by done. simpl. by rewrite Hx.
  - intros y. by eapply upd_state.
Qed.

(** *** Construction, start, spawn, cancellation *)

Lemma vacant_table n : forall i t, zget (replicate n EMPTY) i = Some t -> t = EMPTY.
Proof. intros i t Ht. by apply lookup_replicate in Ht as [-> _]. Qed.

Lemma vacant_ok n r next : (0 < n)%nat -> length r = n -> 2 <= next <= 2 ^ 31 ->
  sched_ok (mkScheduler (replicate n EMPTY) r 0 0 None next) [].
Proof.
  intros Hn Hr Hnx. pose proof (vacant_table n) as Hv.
  assert (Hs : forall x, state_of (replicate n EMPTY) x = None).
  { intros x. destruct (state_of _ x) as [st|] eqn:E; [|done].
    apply state_of_inv in E as (i & t & _ & _ & Ht & Hx & _). by rewrite (Hv _ _ Ht) in Hx. }
  split; [|exists (fun _ => 0%nat); split; unfold joins_to; intros x y; by rewrite Hs].
  constructor; simpl; try done.
  - by rewrite length_replicate.
  - constructor; unfold len; simpl; try lia. intros i x Hx. done.
  - constructor; [constructor|]. intros i. split; [by intros ?%not_elem_of_nil|].
    intros (_ & t & Ht & Hs'). by rewrite (Hv _ _ Ht) in Hs'.
  - split; [done|]. intros i t _ Ht Hs'. by rewrite (Hv _ _ Ht) in Hs'.
  - constructor.
    + intros i t Ht. by rewrite (Hv _ _ Ht).
    + intros i j t u x _ _ Ht _ Hx. by rewrite (Hv _ _ Ht) in Hx.
    + intros i t x Ht Hx. by rewrite (Hv _ _ Ht) in Hx.
    + intros _ _ _ i u Hu. by rewrite (Hv _ _ Hu).
Qed.

Lemma start_root_ok s q : sched_ok s q ->
  exists t0, zget (tasks s) 0 = Some t0 /\
  (if bool_decide (is_Some (active s)) || negb (bool_decide (state t0 = Vacant))
   then start_root s = (Err AlreadyStarted, s)
   else exists s', start_root s = (Ok tt, s') /\ sched_ok s' q /\ current s' = Ok ROOT /\
     forall y, state_of (tasks s') y = if decide (y = ROOT) then Some Running else state_of (tasks s) y).
Proof.
  intros [Hb [rank Hj]]. pose proof Hb as [Hsz Hr Hl Hq Ha Hids Hn].
  destruct (zget_is_Some (tasks s) 0) as [t0 Ht0].
  { pose proof (ring_pos _ _ _ Hr). unfold len in *. lia. }
  exists t0. split; [done|]. unfold start_root. rewrite Ht0.
  destruct (bool_decide (is_Some (active s))) eqn:E1; [done|]. simpl.
  destruct (bool_decide (state t0 = Vacant)) eqn:E2; [|done]. simpl. bsimp.
  assert (Hac : active s = None) by (destruct (active s); [destruct E1; by eexists|done]).
  assert (Hfresh : forall j u, zget (tasks s) j = Some u -> id u <> Some ROOT).
  { intros j u Hu Hid. assert (Hvac : state u = Vacant) by (by eapply (i_root _ _ Hids)).
    apply (i_vacant _ _ Hids _ _ Hu) in Hvac. congruence. }
  eexists. split; [done|].
  assert (Hx : 1 <= ROOT < next_id s) by (unfold ROOT; lia).
  split; [split|split].
  - constructor; simpl; try done; [by rewrite zset_length| | |].
    + eapply upd_queue_same; [done|done|done|congruence|done].
    + rewrite Hac in Ha. by eapply upd_active_start.
    + eapply occ_ids; try done. by left.
  - exists rank. eapply occ_joins; try done. by left.
  - unfold current, task_at. simpl. by erewrite zget_zset_eq by done.
  - intros y. eapply occ_state; try done. by left.
Qed.

Lemma spawn_ok s q : sched_ok s q ->
  match active s, position (fun t => state t = Vacant) (tasks s) with
  | None, _ => spawn s = (Err NoRunningTask, s)
  | Some _, None => spawn s = (Err NoCapacity, s)
  | Some _, Some i =>
      if i32_max <? next_id s then spawn s = (Err IdExhausted, s)
      else exists s', spawn s = (Ok (next_id s), s') /\ sched_ok s' (q ++ [i]) /\ active s' = active s /\
        next_id s' = next_id s + 1 /\
        forall y, state_of (tasks s') y = if decide (y = next_id s) then Some Ready else state_of (tasks s) y
  end.
Proof.
  intros [Hb [rank Hj]]. pose proof Hb as [Hsz Hr Hl Hq Ha Hids Hn].
  unfold spawn. rewrite (st_bind_ok _ _ _ s s) by done.
  destruct (active s) as [a|] eqn:Hac; [|done]. rewrite (st_bind_ok _ _ _ a s) by done.
  destruct (position _ (tasks s)) as [i|] eqn:Hp; [|done]. rewrite (st_bind_ok _ _ _ i s) by done.
  apply position_Some in Hp as (Hi & t & Ht & Hv).
  destruct (Z.ltb_spec i32_max (next_id s)) as [|Hmax]; [done|].
  unfold task_id_new. rewrite (proj2 (Z.eqb_neq (next_id s) 0)) by lia.
  rewrite (st_bind_ok _ _ _ (next_id s) s) by done. unfold i32_max in Hmax.
  rewrite (st_bind_ok _ _ _ (next_id s + 1) s).
  2:{ unfold st_lift, checked_add. by rewrite (proj2 (Z.leb_le _ _)) by (unfold u32_max; lia). }
  set (s1 := set_tasks (zset i (mkTask (Some (next_id s)) Ready) (tasks s)) (set_next_id (next_id s + 1) s)).
  rewrite (st_bind_ok _ _ _ tt s1) by done.
  assert (Hlt : len q < len (ready s)) by (eapply queue_room; [done|apply Hi|done|congruence]).
  destruct (enqueue_ok s1 q i Hr Hl Hlt) as (r & Hrun & Hr' & Hlr).
  rewrite (st_bind_ok _ _ _ _ _ Hrun). eexists. split; [done|].
  assert (Hfresh : forall j u, zget (tasks s) j = Some u -> id u <> Some (next_id s)).
  { intros j u Hu Hid. pose proof (i_range _ _ Hids _ _ _ Hu Hid). lia. }
  assert (Hroot : i = 0 \/ exists u, zget (tasks s) 0 = Some u /\ state u <> Vacant).
  { right. destruct (zget_is_Some (tasks s) 0) as [u Hu]; [lia|]. exists u. split; [done|]. intros Hvac.
    destruct (proj1 Ha a eq_refl) as (_ & v & Hv' & Hrn).
    rewrite (i_root _ _ Hids u Hu Hvac _ _ Hv') in Hrn. done. }
  assert (H0 : 0 <= i) by lia. assert (Hnx : 1 <= next_id s < next_id s + 1) by lia.
  split; [split|split; [done|split; [done|]]].
  - constructor; simpl; try done; [by rewrite Hlr, zset_length| | | | |lia].
    + rewrite Hl. unfold len. rewrite length_app. simpl. lia.
    + eapply upd_queue_push; [done|done|done|congruence|done].
    + rewrite Hac. eapply upd_active_same; [done|done|done|congruence|done].
    + eapply (occ_ids _ (next_id s)); (done || lia).
  - exists rank. eapply (occ_joins _ (next_id s) (next_id s + 1)); (done || lia).
  - intros y. eapply (occ_state _ (next_id s) (next_id s + 1)); (done || lia).
Qed.

(** *** Completion *)

(** Slots of the tasks that wait for [c], in slot order. *)
Definition joiners (ts : list TaskRecord) (c : TaskId) (from n : Z) : list Z :=
  filter (fun j => state <$> zget ts j = Some (Waiting (Join c))) (seqZ from n).

Definition wake (c : TaskId) (t : TaskRecord) : TaskRecord :=
  if decide (state t = Waiting (Join c)) then mkTask (id t) Ready else t.

Lemma joiners_ext ts ts' c from n :
  (forall j, from <= j -> j < from + n -> state <$> zget ts j = Some (Waiting (Join c)) <->
    state <$> zget ts' j = Some (Waiting (Join c))) ->
  joiners ts c from n = joiners ts' c from n.
Proof.
  intros H. unfold joiners.
  assert (Hl : forall j, j ∈ seqZ from n -> from <= j < from + n) by (intros j Hj; by apply elem_of_seqZ in Hj).
  induction (seqZ from n) as [|j l IH]; [done|]. rewrite !filter_cons, IH by set_solver.
  specialize (H j ltac:(apply Hl; set_solver) ltac:(apply Hl; set_solver)).
  destruct (decide _), (decide _); tauto.
Qed.

Lemma wake_joiners_ok c n : forall waiter s q, base_ok s q -> 0 <= waiter ->
  waiter + Z.of_nat n = len (tasks s) ->
  exists s', wake_joiners n waiter c s = (Ok tt, s') /\
    base_ok s' (q ++ joiners (tasks s) c waiter (Z.of_nat n)) /\
    active s' = active s /\ next_id s' = next_id s /\
    forall j, 0 <= j -> zget (tasks s') j =
      (if waiter <=? j then wake c <$> zget (tasks s) j else zget (tasks s) j).
Proof.
  induction n as [|n IH]; intros waiter s q Hb Hw Hlen.
  - exists s. unfold joiners. simpl. rewrite app_nil_r. split_and!; try done.
    intros j Hj. destruct (Z.leb_spec waiter j); [|done].
    destruct (zget (tasks s) j) eqn:E; [|done]. apply zget_Some_lt in E; [|done]. unfold len in *. lia.
  - destruct (zget_is_Some (tasks s) waiter) as [t Ht]; [unfold len in *; lia|].
    cbn [wake_joiners].
    rewrite (st_bind_ok _ _ _ t s) by (unfold st_read, task_at; by rewrite Ht).
    assert (Hstep : exists s1 q1,
      (if bool_decide (state t = Waiting (Join c)) then _ ← set_state waiter Ready; enqueue waiter else mret tt) s
        = (Ok tt, s1) /\ base_ok s1 (q ++ q1) /\
      q1 = (if decide (state t = Waiting (Join c)) then [waiter] else []) /\
      active s1 = active s /\ next_id s1 = next_id s /\ length (tasks s1) = length (tasks s) /\
      forall j, 0 <= j -> zget (tasks s1) j = if decide (j = waiter) then Some (wake c t) else zget (tasks s) j).
    { unfold wake. destruct (decide (state t = Waiting (Join c))) as [Hs|Hs].
      - destruct (id t) as [x|] eqn:Hx; [|apply (i_vacant _ _ (c_ids _ _ Hb) _ _ Ht) in Hx; congruence].
        destruct (wake_ok s q waiter t x _ Hb Hw Ht Hx Hs) as (s1 & Hrun & Hb1 & Hts & ? & ?).
        exists s1, [waiter]. rewrite bool_decide_eq_true_2 by done. split_and!; try done; [by rewrite Hts, zset_length|].
        intros j Hj. rewrite Hts. destruct (decide (j = waiter)) as [->|].
        + rewrite Hx. by erewrite zget_zset_eq.
        + by rewrite zget_zset_ne by lia.
      - exists s, []. rewrite bool_decide_eq_false_2 by done. rewrite app_nil_r. split_and!; try done.
        intros j Hj. by destruct (decide (j = waiter)) as [->|]. }
    destruct Hstep as (s1 & q1 & Hrun & Hb1 & Hq1 & Ha1 & Hn1 & Hl1 & Hz1).
    rewrite (st_bind_ok _ _ _ _ _ Hrun).
    assert (Hlen1 : waiter + 1 + Z.of_nat n = len (tasks s1)) by (unfold len in *; lia).
    destruct (IH (waiter + 1) s1 (q ++ q1) Hb1 ltac:(lia) Hlen1) as (s' & Hrun' & Hb' & Ha' & Hn' & Hz').
    exists s'. split; [done|]. split; [|split_and!; [congruence|congruence|]].
    + assert (Hj : joiners (tasks s) c waiter (Z.of_nat (S n)) = q1 ++ joiners (tasks s1) c (waiter + 1) (Z.of_nat n)).
      { unfold joiners. rewrite seqZ_cons by lia. rewrite filter_cons, Ht. simpl.
        replace (Z.pred (Z.of_nat (S n))) with (Z.of_nat n) by lia.
        replace (Z.succ waiter) with (waiter + 1) by lia.
        fold (joiners (tasks s) c (waiter + 1) (Z.of_nat n)). fold (joiners (tasks s1) c (waiter + 1) (Z.of_nat n)).
        rewrite (joiners_ext (tasks s) (tasks s1)).
        - rewrite Hq1. 
          destruct (decide (state t = Waiting (Join c))) as [E|E];
            [rewrite decide_True by (by f_equal)|rewrite decide_False by congruence]; done.
        - intros j H1 H2. rewrite Hz1 by lia. by rewrite decide_False by lia. }
      rewrite Hj, app_assoc. done.
    + intros j Hj. rewrite Hz' by done. rewrite Hz1 by done.
      destruct (decide (j = waiter)) as [->|].
      * rewrite (proj2 (Z.leb_gt _ _)), (proj2 (Z.leb_le _ _)), Ht by lia. done.
      * destruct (Z.leb_spec (waiter + 1) j), (Z.leb_spec waiter j); (done || lia).
Qed.

Lemma wake_state ts ts' next next' c : ids_ok ts next -> ids_ok ts' next' ->
  (forall j, 0 <= j -> zget ts' j = wake c <$> zget ts j) ->
  forall y, state_of ts' y =
    (fun st => if decide (st = Waiting (Join c)) then Ready else st) <$> state_of ts y.
Proof.
  intros H1 H2 Hz y.
  assert (Hid : forall t, id (wake c t) = id t) by (intros t; unfold wake; by destruct (decide _)).
  assert (Hst : forall t, state (wake c t) = if decide (state t = Waiting (Join c)) then Ready else state t)
    by (intros t; unfold wake; by destruct (decide _)).
  destruct (state_of ts y) as [st|] eqn:E; simpl.
  - apply state_of_inv in E as (i & t & Hi & _ & Ht & Hx & <-).
    rewrite <- Hst. eapply (state_of_at ts' next' i); [done|lia|rewrite Hz by lia; by rewrite Ht|by rewrite Hid].
  - destruct (state_of ts' y) as [st|] eqn:E'; [|done].
    apply state_of_inv in E' as (i & t & Hi & _ & Ht & Hx & <-). rewrite Hz in Ht by lia.
    destruct (zget ts i) as [u|] eqn:Hu; [|done]. injection Ht as <-. rewrite Hid in Hx.
    by erewrite (state_of_at ts next i) in E by (done || lia).
Qed.

(** Completion wakes exactly the tasks that wait for the completed one. *)
Lemma complete_current_ok s q : sched_ok s q ->
  match active s with
  | None => complete_current s = (Err NoRunningTask, s)
  | Some i => exists x s', current s = Ok x /\ complete_current s = (Ok x, s') /\
      sched_ok s' (q ++ joiners (tasks s) x 0 (len (tasks s))) /\ active s' = None /\
      forall y, state_of (tasks s') y =
        if decide (y = x) then Some Completed
        else (fun st => if decide (st = Waiting (Join x)) then Ready else st) <$> state_of (tasks s) y
  end.
Proof.
  intros [Hb [rank Hj]]. unfold complete_current. rewrite (st_bind_ok _ _ _ s s) by done.
  rewrite (st_bind_ok _ _ _ tt (set_active None s)) by done.
  destruct (active s) as [i|] eqn:Hi; [|by rewrite set_active_id].
  destruct (active_task s q Hb i Hi) as (t & x & H0 & Ht & Hrun & Hx & Hs & Hc).
  rewrite (st_bind_ok _ _ _ i (set_active None s)) by done.
  rewrite (st_bind_ok _ _ _ t (set_active None s)) by (unfold st_read, task_at; simpl; by rewrite Ht).
  rewrite Hx, (st_bind_ok _ _ _ x (set_active None s)) by done.
  rewrite (st_bind_ok _ _ _ tt _ (set_state_at (set_active None s) i t Completed Ht)).
  set (s1 := set_tasks _ _).
  assert (Hb1 : base_ok s1 q) by (by apply (stop_ok s q i t x Completed)).
  assert (Hst1 : forall y, state_of (tasks s1) y = if decide (y = x) then Some Completed else state_of (tasks s) y).
  { intros y. by apply (upd_state (tasks s) (next_id s) i t x Completed (c_ids _ _ Hb)). }
  assert (Hl1 : length (tasks s1) = length (tasks s)) by apply zset_length.
  destruct (wake_joiners_ok x (length (tasks s)) 0 s1 q Hb1) as (s' & Hrun' & Hb' & Ha' & Hn' & Hz');
    [lia|unfold len; lia|].
  assert (Hstate : forall y, state_of (tasks s') y =
    (fun st => if decide (st = Waiting (Join x)) then Ready else st) <$> state_of (tasks s1) y).
  { eapply wake_state; [apply Hb1|apply Hb'|]. intros j Hj0. rewrite Hz' by done.
    by rewrite (proj2 (Z.leb_le _ _)) by lia. }
  assert (Hstate' : forall y, state_of (tasks s') y =
    if decide (y = x) then Some Completed
    else (fun st => if decide (st = Waiting (Join x)) then Ready else st) <$> state_of (tasks s) y).
  { intros y. rewrite Hstate, Hst1. by destruct (decide (y = x)). }
  exists x, s'. split; [done|]. split; [by rewrite (st_bind_ok _ _ _ _ _ Hrun')|].
  split; [split|split; [done|done]].
  - rewrite (joiners_ext (tasks s) (tasks s1)); [exact Hb'|]. intros j Hj0 _. simpl.
    destruct (decide (j = i)) as [->|Hne]; [|by rewrite zget_zset_ne by lia].
    erewrite zget_zset_eq by done. rewrite Ht. simpl. rewrite Hrun. naive_solver.
  - exists rank. assert (Hold : forall y z, joins_to (tasks s') y z -> joins_to (tasks s) y z /\ z <> x).
    { unfold joins_to. intros y z. rewrite Hstate'. destruct (decide (y = x)); [done|].
      destruct (state_of (tasks s) y) as [st|]; [|done]. simpl.
      destruct (decide (st = Waiting (Join x))); [done|]. intros [= ->]. split; [done|congruence]. }
    constructor.
    + intros y z [Hyz _]%Hold. by apply (j_rank _ _ Hj).
    + intros y z [Hyz Hne]%Hold. destruct (j_target _ _ Hj _ _ Hyz) as (st & Hst & Hnc).
      rewrite Hstate', decide_False, Hst by done. eexists. split; [done|]. by destruct (decide _).
Qed.

(** *** Join *)

#[global] Instance joins_dec ts y : Decision (exists z, joins_to ts y z).
Proof.
  unfold joins_to. destruct (state_of ts y) as [[| | |[|z|]|]|]; try (right; by intros [? ?]). left. by exists z.
Defined.

(** Following waits from [y] for at most [fuel] steps reaches [x]. *)
Fixpoint leads (ts : list TaskRecord) (fuel : nat) (y x : TaskId) : bool :=
  if decide (y = x) then true
  else
    match fuel, state_of ts y with
    | S fuel, Some (Waiting (Join z)) => leads ts fuel z x
    | _, _ => false
    end.

Lemma leads_step ts fuel y z x : joins_to ts y z -> y <> x -> leads ts (S fuel) y x = leads ts fuel z x.
Proof. unfold joins_to. intros Hyz Hne. simpl. by rewrite decide_False, Hyz by done. Qed.

Lemma leads_refl ts fuel x : leads ts fuel x x = true.
Proof. destruct fuel; simpl; by rewrite decide_True. Qed.

Lemma leads_stop ts fuel y x : y <> x -> (forall z, ~ joins_to ts y z) -> leads ts fuel y x = false.
Proof.
  intros Hne Hn. destruct fuel as [|fuel]; simpl; rewrite decide_False by done; [done|].
  destruct (state_of ts y) as [[| | |[|z|]|]|] eqn:E; try done. by destruct (Hn z).
Qed.

(** Enough fuel is the rank. *)
Lemma leads_stable ts rank f y x : joins_ok ts rank -> (rank y <= f)%nat ->
  leads ts f y x = leads ts (rank y) y x.
Proof.
  intros Hj. revert y. induction f as [f IH] using lt_wf_ind; intros y Hf.
  destruct (decide (y = x)) as [->|Hne]; [by rewrite !leads_refl|].
  destruct (decide (exists z, joins_to ts y z)) as [[z E]|Hn].
  2:{ rewrite !leads_stop; [done|done|naive_solver|done|naive_solver]. }
  pose proof (j_rank _ _ Hj y z E) as Hr.
  destruct f as [|f]; [lia|]. destruct (rank y) as [|ry] eqn:Ery; [lia|].
  rewrite !(leads_step ts _ y z x) by done.
  rewrite (IH f ltac:(lia) z ltac:(lia)).
  destruct (decide (ry = f)) as [->|]; [by rewrite (IH f ltac:(lia) z ltac:(lia))|].
  by rewrite (IH ry ltac:(lia) z ltac:(lia)).
Qed.

(** Adding the wait [x -> y] keeps the waits acyclic when [y] does not lead to
    [x] and [x] did not wait. *)
Lemma join_edge ts ts' rank x y sty : joins_ok ts rank ->
  (forall z, ~ joins_to ts x z) -> leads ts (rank y) y x = false ->
  state_of ts y = Some sty -> sty <> Completed -> x <> y ->
  (forall z, state_of ts' z = if decide (z = x) then Some (Waiting (Join y)) else state_of ts z) ->
  exists rank', joins_ok ts' rank'.
Proof.
  intros Hj Hnj Hl Hy Hnc Hne Hts.
  exists (fun z => if leads ts (rank z) z x then (rank z + S (rank y))%nat else rank z). constructor.
  - intros a b. unfold joins_to. rewrite Hts. destruct (decide (a = x)) as [->|Hax].
    + intros [= <-]. rewrite Hl.
      rewrite leads_refl. lia.
    + intros Hab. pose proof (j_rank _ _ Hj a b Hab) as Hr.
      destruct (rank a) as [|ra] eqn:Era; [lia|]. rewrite (leads_step ts ra a b x Hab Hax).
      rewrite (leads_stable ts rank ra b x Hj) by lia. destruct (leads ts (rank b) b x); lia.
  - intros a b. unfold joins_to. rewrite Hts. intros Hab.
    assert (Hb : exists st, state_of ts b = Some st /\ st <> Completed).
    { destruct (decide (a = x)) as [->|]; [injection Hab as <-; by exists sty|by eapply (j_target _ _ Hj)]. }
    destruct Hb as (st & Hst & Hnst). rewrite Hts. destruct (decide (b = x)); [by eexists|by exists st].
Qed.

Lemma ids_bounded ts (l : list TaskId) : NoDup l ->
  (forall x, x ∈ l -> is_Some (state_of ts x)) -> (length l <= length ts)%nat.
Proof.
  intros Hn Hl. rewrite <- (length_fmap (fun x => default 0 (find_id ts x)) l).
  assert (Hf : forall x, x ∈ l -> exists i t, 0 <= i < len ts /\ find_id ts x = Some i /\
    zget ts i = Some t /\ id t = Some x).
  { intros x Hx. destruct (Hl x Hx) as [st Hst]. apply state_of_inv in Hst as (i & t & ? & ? & ? & ? & _).
    by exists i, t. }
  apply slots_bounded.
  - apply NoDup_fmap_2_strong; [|done]. intros x y Hx Hy.
    destruct (Hf x Hx) as (i & t & _ & -> & Ht & Hit), (Hf y Hy) as (j & u & _ & -> & Hu & Hju).
    simpl. intros ->. congruence.
  - intros j Hj. apply list_elem_of_fmap in Hj as (x & -> & Hx).
    destruct (Hf x Hx) as (i & t & Hi & -> & _). done.
Qed.

Lemma join_loop_ok s q rank x target n : forall cursor V,
  base_ok s q -> joins_ok (tasks s) rank -> state_of (tasks s) x = Some Running ->
  is_Some (state_of (tasks s) cursor) -> cursor <> x -> NoDup (x :: V) ->
  (forall v, v ∈ V -> is_Some (state_of (tasks s) v) /\ (rank cursor < rank v)%nat) ->
  (length V + n = length (tasks s))%nat ->
  leads (tasks s) n cursor x = leads (tasks s) (rank cursor) cursor x /\
  join_loop n x target cursor s =
    if leads (tasks s) n cursor x then (Err JoinCycle, s)
    else (_ ← suspend (Join target); mret true) s.
Proof.
  induction n as [|n IH]; intros cursor V Hb Hj Hx Hc Hne Hnd HV Hlen.
  - exfalso. pose proof (ids_bounded (tasks s) (cursor :: x :: V)) as Hbd.
    assert (Hcv : cursor ∉ V) by (intros Hin; destruct (HV _ Hin); lia).
    simpl in Hbd. assert (NoDup (cursor :: x :: V)) by (apply NoDup_cons; split; [set_solver|done]).
    specialize (Hbd H). assert (Hall : forall y, y ∈ cursor :: x :: V -> is_Some (state_of (tasks s) y)).
    { intros y. rewrite !elem_of_cons. intros [->|[->|Hy]]; [done|by eexists|by apply HV]. }
    specialize (Hbd Hall). lia.
  - destruct Hc as [st Hst]. apply state_of_inv in Hst as Hinv. destruct Hinv as (i & t & Hi & Hf & Ht & _ & Hs).
    cbn [join_loop]. rewrite (st_bind_ok _ _ _ s s) by done.
    rewrite (st_bind_ok _ _ _ i s) by (unfold slot; by rewrite Hf).
    rewrite (st_bind_ok _ _ _ t s) by (unfold st_read, task_at; by rewrite Ht). rewrite Hs.
    destruct (decide (exists z, joins_to (tasks s) cursor z)) as [[z Hz]|Hn].
    + unfold joins_to in Hz. rewrite Hst in Hz. injection Hz as ->.
      pose proof (j_rank _ _ Hj cursor z Hst) as Hr.
      assert (Hstep : forall f, leads (tasks s) (S f) cursor x = leads (tasks s) f z x)
        by (intros f; by apply leads_step).
      destruct (rank cursor) as [|rc] eqn:Erc; [lia|]. rewrite !Hstep.
      rewrite (leads_stable _ rank rc z x Hj) by lia.
      destruct (Z.eqb_spec z x) as [->|Hzx]; [by rewrite !leads_refl|].
      apply (IH z (cursor :: V)); try done.
      * destruct (j_target _ _ Hj _ _ Hst) as (st & ? & _). by eexists.
      * apply NoDup_cons in Hnd as [Hxv Hnd]. apply NoDup_cons. split; [set_solver|].
        apply NoDup_cons. split; [|done]. intros Hin. destruct (HV _ Hin). lia.
      * intros v [->|Hv]%elem_of_cons; [split; [by eexists|lia]|]. destruct (HV _ Hv). split; [done|lia].
      * simpl. lia.
    + rewrite !leads_stop by naive_solver. split; [done|].
      destruct st as [| | |[r|z|ch]|]; try done. destruct Hn. by exists z.
Qed.

Lemma join_ok s q target : sched_ok s q ->
  match current s with
  | Ok x =>
      if x =? target then join target s = (Err SelfJoin, s)
      else
        match state_of (tasks s) target with
        | None => join target s = (Err UnknownTask, s)
        | Some Completed => join target s = (Ok false, s)
        | Some _ =>
            if leads (tasks s) (length (tasks s)) target x then join target s = (Err JoinCycle, s)
            else exists s', join target s = (Ok true, s') /\ sched_ok s' q /\ active s' = None /\
              forall y, state_of (tasks s') y = if decide (y = x) then Some (Waiting (Join target)) else state_of (tasks s) y
        end
  | _ => join target s = (Err NoRunningTask, s)
  end.
Proof.
  intros [Hb [rank Hj]]. destruct (active s) as [i|] eqn:Ha.
  2:{ unfold join, current. rewrite Ha. simpl. by unfold mbind, ST_bind, st_read, current; rewrite Ha. }
  destruct (active_task s q Hb i Ha) as (t & x & H0 & Ht & Hrun & Hx & Hsx & Hc). rewrite Hc.
  unfold join. rewrite (st_bind_ok _ _ _ x s) by (unfold st_read; by rewrite Hc).
  destruct (Z.eqb_spec x target) as [->|Hne]; [done|]. rewrite (st_bind_ok _ _ _ s s) by done.
  destruct (state_of (tasks s) target) as [stt|] eqn:E.
  2:{ unfold state_of in E. destruct (find_id (tasks s) target) as [j|] eqn:Ef.
      - pose proof Ef as Ef'. apply position_slot in Ef' as (u & _ & Hu & _). simpl in E. by rewrite Hu in E.
      - unfold slot. by rewrite Ef. }
  apply state_of_inv in E as Hinv. destruct Hinv as (j & u & Hj' & Hf & Hu & _ & Hs).
  rewrite (st_bind_ok _ _ _ j s) by (unfold slot; by rewrite Hf).
  rewrite (st_bind_ok _ _ _ u s) by (unfold st_read, task_at; by rewrite Hu). rewrite Hs.
  destruct (decide (stt = Completed)) as [->|Hnc]; [by rewrite bool_decide_eq_true_2|].
  rewrite bool_decide_eq_false_2 by done.
  destruct (join_loop_ok s q rank x target (length (tasks s)) target []) as [Hld Hrunl]; try done.
  { apply NoDup_singleton. }
  { by intros v ?%not_elem_of_nil. }
  rewrite Hrunl.
  assert (Hcases : if leads (tasks s) (length (tasks s)) target x
    then (if leads (tasks s) (length (tasks s)) target x then (Err JoinCycle, s)
          else (_ ← suspend (Join target); mret true) s) = (Err JoinCycle, s)
    else exists s', (if leads (tasks s) (length (tasks s)) target x then (Err JoinCycle, s)
          else (_ ← suspend (Join target); mret true) s) = (Ok true, s') /\ sched_ok s' q /\ active s' = None /\
      forall y, state_of (tasks s') y = if decide (y = x) then Some (Waiting (Join target)) else state_of (tasks s) y).
  { destruct (leads (tasks s) (length (tasks s)) target x) eqn:El; [done|].
    eexists. rewrite (st_bind_ok _ _ _ x _ (suspend_run s q (Join target) i t x Hb Ha Ht Hx)). split; [done|].
    assert (Hst : forall y, state_of (zset i (mkTask (id t) (Waiting (Join target))) (tasks s)) y =
      if decide (y = x) then Some (Waiting (Join target)) else state_of (tasks s) y).
    { intros y. by apply (upd_state (tasks s) (next_id s) i t x _ (c_ids _ _ Hb)). }
    split; [split|split; [done|exact Hst]].
    - by eapply stop_ok.
    - eapply (join_edge (tasks s) _ rank x target stt); try done.
      intros z Hz. unfold joins_to in Hz. congruence. }
  destruct stt; try done.
Qed.

End TaskInv.

Module TaskProps.
Import Task TaskInv.

(** ** The operations as one interface *)

Inductive top :=
| TStart | TSpawn | TSuspendHost (r : RequestId) | TSuspendChannel (c : Z) | TJoin (t : TaskId)
| TComplete | TCompleteHost (t : TaskId) (r : RequestId) | TCompleteChannel (t : TaskId) (c : Z)
| TActivate | TCancel.

Definition discard {A} (m : TaskM A) : TaskM unit := _ ← m; mret tt.

Definition run_top (o : top) : TaskM unit :=
  match o with
  | TStart => start_root
  | TSpawn => discard spawn
  | TSuspendHost r => discard (suspend_host r)
  | TSuspendChannel c => discard (suspend_channel c)
  | TJoin t => discard (join t)
  | TComplete => discard complete_current
  | TCompleteHost t r => complete_host t r
  | TCompleteChannel t c => complete_channel t c
  | TActivate => discard activate_next
  | TCancel => st_modify cancel_all
  end.

Inductive reachable (capacity : Z) : TaskScheduler -> Prop :=
| reach_new s : new capacity = Ok s -> reachable capacity s
| reach_step s o r s' : reachable capacity s -> run_top o s = (r, s') -> reachable capacity s'.

(** The slots in the ring, from the head. *)
Definition ready_queue (s : TaskScheduler) : list Z :=
  (fun i => default usize_max (zget (ready s) ((ready_head s + i) mod len (ready s)))) <$> seqZ 0 (ready_len s).

Lemma ready_queue_eq s q : base_ok s q -> ready_queue s = q.
Proof.
  intros Hb. unfold ready_queue. rewrite (c_len _ _ Hb). apply list_eq. intros i.
  rewrite list_lookup_fmap. destruct (q !! i) as [x|] eqn:E.
  - pose proof (lookup_lt_Some _ _ _ E). rewrite lookup_seqZ_lt by (unfold len; lia). simpl.
    pose proof (ring_cells _ _ _ (c_ring _ _ Hb) i x E) as Hc. f_equal.
    replace (ready_head s + (0 + Z.of_nat i)) with (ready_head s + Z.of_nat i) by lia. by rewrite Hc.
  - apply lookup_ge_None in E. rewrite lookup_seqZ_ge by (unfold len; lia). done.
Qed.

(** ** No operation breaks the scheduler *)

Definition harmless (o : outcome TaskError unit) : Prop := o <> Panic /\ o <> Err CorruptQueue.

Lemma discard_run {A} (m : TaskM A) s r s' : m s = (r, s') ->
  discard m s = (match r with Ok _ => Ok tt | Err e => Err e | Panic => Panic end, s').
Proof. intros H. unfold discard, mbind, ST_bind. rewrite H. by destruct r. Qed.

(** What a step may do to the queue of runnable slots. *)
Definition queue_step (o : top) (q q' : list Z) : Prop :=
  match o with
  | TCancel => q' = []
  | TActivate => q' = q \/ q' = tail q
  | _ => q `prefix_of` q'
  end.

Ltac settle := eexists _, _; split; [first [eassumption | (eapply discard_run; eassumption)]|];
  split; [split; done|]; eexists; split; [eassumption|];
  simpl; first [done | by eexists | by left | by right | by apply prefix_app_r].

Lemma cancel_ok s q : sched_ok s q -> sched_ok (cancel_all s) [].
Proof.
  intros [Hb _]. pose proof (ring_pos _ _ _ (c_ring _ _ Hb)). unfold len in *.
  unfold cancel_all. apply vacant_ok; [rewrite <- (c_size _ _ Hb); lia| |apply Hb].
  rewrite length_replicate. apply Hb.
Qed.

Lemma step_ok o s q : sched_ok s q ->
  exists r s', run_top o s = (r, s') /\ harmless r /\ exists q', sched_ok s' q' /\ queue_step o q q'.
Proof.
  intros Hok. destruct o as [| |r|c|t| |t r|t c| |]; simpl.
  - destruct (start_root_ok s q Hok) as (t0 & _ & H). destruct (_ || _); [settle|].
    destruct H as (s' & Hrun & Hok' & _). settle.
  - pose proof (spawn_ok s q Hok) as H. destruct (active s); [|settle].
    destruct (position _ _); [|settle]. destruct (_ <? _); [settle|].
    destruct H as (s' & Hrun & Hok' & _). settle.
  - pose proof (suspend_ok s q (Host r) Hok ltac:(done)) as H. destruct (active s); [|settle].
    destruct H as (x & s' & _ & Hrun & Hok' & _). settle.
  - pose proof (suspend_ok s q (Channel c) Hok ltac:(done)) as H. destruct (active s); [|settle].
    destruct H as (x & s' & _ & Hrun & Hok' & _). settle.
  - pose proof (join_ok s q t Hok) as H. destruct (current s) as [x|e|]; [|settle|settle].
    destruct (x =? t); [settle|]. destruct (state_of (tasks s) t) as [st|]; [|settle].
    destruct st; try (destruct (leads _ _ _ _); [settle|]; destruct H as (s' & Hrun & Hok' & _); settle).
    settle.
  - pose proof (complete_current_ok s q Hok) as H. destruct (active s); [|settle].
    destruct H as (x & s' & _ & Hrun & Hok' & _). settle.
  - pose proof (complete_wait_ok s q t (Host r) Hok) as H. destruct (state_of (tasks s) t); [|settle].
    destruct (decide _); [|settle]. destruct H as (i & s' & _ & Hrun & Hok' & _). settle.
  - pose proof (complete_wait_ok s q t (Channel c) Hok) as H. destruct (state_of (tasks s) t); [|settle].
    destruct (decide _); [|settle]. destruct H as (i & s' & _ & Hrun & Hok' & _). settle.
  - pose proof (activate_ok s q Hok) as H. destruct (active s); [settle|].
    destruct q; [settle|]. destruct H as (x & s' & Hrun & Hok' & _). settle.
  - eexists _, _. split; [done|]. split; [done|]. exists []. split; [by eapply cancel_ok|done].
Qed.

Lemma reachable_ok cap s : 0 < cap -> reachable cap s -> exists q, sched_ok s q.
Proof.
  intros Hc. induction 1 as [s Hn|s o r s' _ [q IH] Hrun].
  - unfold new in Hn. rewrite (proj2 (Z.eqb_neq _ _)) in Hn by lia. injection Hn as <-.
    exists []. apply vacant_ok; [lia|by rewrite length_replicate|unfold ROOT; lia].
  - destruct (step_ok o s q IH) as (r' & s'' & Hrun' & _ & q' & Hok & _). rewrite Hrun in Hrun'.
    injection Hrun' as <- <-. by exists q'.
Qed.

(** ** Waits for tasks *)

Lemma task_state_eq s x : task_state s x = state_of (tasks s) x.
Proof. done. Qed.

Lemma leads_rank ts rank n z y : joins_ok ts rank -> leads ts n z y = true -> (rank y <= rank z)%nat.
Proof.
  intros Hj. revert z. induction n as [|n IH]; intros z; simpl; destruct (decide (z = y)) as [->|]; try done.
  destruct (state_of ts z) as [[| | |[|w|]|]|] eqn:E; try done. intros Hl. apply IH in Hl.
  pose proof (j_rank _ _ Hj z w E). lia.
Qed.

(** Following waits ends at a task that is not waiting for another one. *)
Lemma wait_chain ts rank y st : joins_ok ts rank -> state_of ts y = Some st -> st <> Completed ->
  exists z stz, leads ts (rank y) y z = true /\ state_of ts z = Some stz /\ stz <> Completed /\
    forall w, stz <> Waiting (Join w).
Proof.
  intros Hj. remember (rank y) as n eqn:Hn. revert y st Hn.
  induction n as [n IH] using lt_wf_ind; intros y st Hn Hy Hc.
  destruct (decide (exists w, joins_to ts y w)) as [[w Hw]|Hnw].
  - pose proof (j_rank _ _ Hj y w Hw) as Hr. destruct (j_target _ _ Hj y w Hw) as (stw & Hstw & Hcw).
    destruct (IH (rank w) ltac:(lia) w stw eq_refl Hstw Hcw) as (z & stz & Hl & Hz & Hcz & Hnz).
    exists z, stz. split_and!; try done. destruct (decide (y = z)) as [->|Hne]; [apply leads_refl|].
    destruct n as [|n]; [lia|]. rewrite (leads_step ts n y w z Hw Hne).
    by rewrite (leads_stable ts rank n w z Hj) by lia.
  - exists y, st. split_and!; try done; [apply leads_refl|]. intros w ->. apply Hnw. by exists w.
Qed.

(** ** Example scheduler: the root has spawned two tasks *)

Definition demo_new : TaskScheduler := mkScheduler (replicate 3 EMPTY) (replicate 3 usize_max) 0 0 None 2.
Definition demo_ops : list top := [TStart; TSpawn; TSpawn].
Definition demo_run (ops : list top) : TaskScheduler := foldl (fun s o => (run_top o s).2) demo_new ops.

Lemma demo_reach ops : reachable 3 (demo_run ops).
Proof.
  unfold demo_run. assert (H : reachable 3 demo_new) by (by apply reach_new).
  revert H. generalize demo_new. induction ops as [|o ops IH]; intros s H; simpl; [done|].
  apply IH. eapply reach_step; [done|]. apply surjective_pairing.
Qed.

(** ** Properties *)

(** C18. No sequence of operations, with any arguments, panics the scheduler or
    corrupts its queue, and every reachable scheduler satisfies the invariant:
    the ring holds exactly the runnable slots without repetition, one task at
    most is running, identifiers are unique, and waits between tasks are
    acyclic. *)
Theorem scheduler_safe (cap : Z) (s : TaskScheduler) (o : top) :
  0 < cap -> reachable cap s ->
  exists r s', run_top o s = (r, s') /\ r <> Panic /\ r <> Err CorruptQueue /\
    sched_ok s (ready_queue s) /\ sched_ok s' (ready_queue s').
Proof.
  intros Hc Hr. destruct (reachable_ok cap s Hc Hr) as [q Hok].
  destruct (step_ok o s q Hok) as (r & s' & Hrun & [Hp He] & q' & Hok' & _).
  exists r, s'. rewrite (ready_queue_eq s q), (ready_queue_eq s' q') by (apply Hok || apply Hok'). done.
Qed.

Lemma scheduler_safe_witness : exists r s', run_top (TJoin 2) (demo_run demo_ops) = (r, s') /\ r <> Panic.
Proof.
  destruct (scheduler_safe 3 (demo_run demo_ops) (TJoin 2) ltac:(lia) (demo_reach demo_ops))
    as (r & s' & Hrun & Hp & _).
  exists r, s'. split; [exact Hrun|exact Hp].
Defined.

(** Runnable tasks are served first in, first out: activation takes the task
    at the front of the queue and makes it current, and every other operation
    short of cancellation leaves the queued tasks in place and adds behind
    them. *)
Theorem scheduler_fifo (cap : Z) (s : TaskScheduler) :
  0 < cap -> reachable cap s ->
  (active s = None ->
   match ready_queue s with
   | [] => activate_next s = (Ok None, s)
   | i :: q => exists x s', activate_next s = (Ok (Some x), s') /\ slot s x = Some i /\
       ready_queue s' = q /\ current s' = Ok x /\
       forall y, task_state s' y = if decide (y = x) then Some Running else task_state s y
   end) /\
  (forall o r s', run_top o s = (r, s') -> o <> TActivate -> o <> TCancel ->
     ready_queue s `prefix_of` ready_queue s').
Proof.
  intros Hc Hr. destruct (reachable_ok cap s Hc Hr) as [q Hok].
  rewrite (ready_queue_eq s q) by apply Hok. split.
  - intros Ha. pose proof (activate_ok s q Hok) as H. rewrite Ha in H. destruct q as [|i q']; [done|].
    destruct H as (x & s' & Hrun & Hok' & Hs & Hcur & Hst). exists x, s'.
    rewrite (ready_queue_eq s' q') by apply Hok'. done.
  - intros o r s' Hrun H1 H2. destruct (step_ok o s q Hok) as (r' & s'' & Hrun' & _ & q' & Hok' & Hq).
    rewrite Hrun in Hrun'. injection Hrun' as <- <-. rewrite (ready_queue_eq s' q') by apply Hok'.
    by destruct o.
Qed.

Lemma scheduler_fifo_witness : exists s', activate_next (demo_run (demo_ops ++ [TSuspendHost 9])) = (Ok (Some 2), s').
Proof.
  destruct (scheduler_fifo 3 _ ltac:(lia) (demo_reach (demo_ops ++ [TSuspendHost 9]))) as [H _].
  specialize (H ltac:(vm_compute; reflexivity)).
  assert (E : ready_queue (demo_run (demo_ops ++ [TSuspendHost 9])) = [1; 2]) by (vm_compute; reflexivity).
  rewrite E in H. destruct H as (x & s' & Hrun & Hs & _). exists s'. rewrite Hrun. f_equal. f_equal. f_equal.
  assert (F : (activate_next (demo_run (demo_ops ++ [TSuspendHost 9]))).1 = Ok (Some 2)) by (vm_compute; reflexivity).
  rewrite Hrun in F. simpl in F. congruence.
Defined.

(** [join] decides every case of its contract: it refuses to run without a
    current task, on the task itself, on an unknown task and exactly when the
    target already waits, directly or through others, for the current task; it
    returns at once for a completed target; otherwise the current task is
    suspended on the target and nothing else changes. *)
Theorem join_correct (cap : Z) (s : TaskScheduler) (target : TaskId) :
  0 < cap -> reachable cap s ->
  match current s with
  | Ok x =>
      if x =? target then join target s = (Err SelfJoin, s)
      else
        match task_state s target with
        | None => join target s = (Err UnknownTask, s)
        | Some Completed => join target s = (Ok false, s)
        | Some _ =>
            if leads (tasks s) (length (tasks s)) target x then join target s = (Err JoinCycle, s)
            else exists s', join target s = (Ok true, s') /\ active s' = None /\
              ready_queue s' = ready_queue s /\
              forall y, task_state s' y =
                if decide (y = x) then Some (Waiting (Join target)) else task_state s y
        end
  | _ => join target s = (Err NoRunningTask, s)
  end.
Proof.
  intros Hc Hr. destruct (reachable_ok cap s Hc Hr) as [q Hok].
  pose proof (join_ok s q target Hok) as H. rewrite task_state_eq. rewrite (ready_queue_eq s q) by apply Hok.
  destruct (current s) as [x|e|]; [|done|done]. destruct (x =? target); [done|].
  destruct (state_of (tasks s) target) as [st|]; [|done].
  destruct st; try done; (destruct (leads _ _ _ _); [done|]);
    destruct H as (s' & Hrun & Hok' & Ha & Hst); exists s';
    rewrite (ready_queue_eq s' q) by apply Hok'; done.
Qed.

Lemma join_correct_witness : exists s', join 2 (demo_run demo_ops) = (Ok true, s') /\ active s' = None.
Proof.
  pose proof (join_correct 3 _ 2 ltac:(lia) (demo_reach demo_ops)) as H.
  assert (E1 : current (demo_run demo_ops) = Ok 1) by (vm_compute; reflexivity).
  assert (E2 : task_state (demo_run demo_ops) 2 = Some Ready) by (vm_compute; reflexivity).
  assert (E3 : leads (tasks (demo_run demo_ops)) (length (tasks (demo_run demo_ops))) 2 1 = false)
    by (vm_compute; reflexivity).
  rewrite E1, E2, E3 in H. destruct H as (s' & Hrun & Ha & _). exists s'. split; [exact Hrun|exact Ha].
Defined.

(** C19. Joins cannot deadlock: in a reachable scheduler no task waits, directly
    or through others, for itself, the task waited for is known and not
    completed, and every chain of waits ends at a task that can make progress
    without another task finishing. *)
Theorem joins_progress (cap : Z) (s : TaskScheduler) (y z : TaskId) :
  0 < cap -> reachable cap s -> task_state s y = Some (Waiting (Join z)) ->
  (forall n, leads (tasks s) n z y = false) /\
  exists n w st, leads (tasks s) n y w = true /\ task_state s w = Some st /\ st <> Completed /\
    st <> Vacant /\ forall v, st <> Waiting (Join v).
Proof.
  intros Hc Hr Hy. destruct (reachable_ok cap s Hc Hr) as [q [Hb [rank Hj]]]. rewrite task_state_eq in Hy. split.
  - intros n. destruct (leads (tasks s) n z y) eqn:E; [|done].
    apply (leads_rank _ rank) in E; [|done]. pose proof (j_rank _ _ Hj y z Hy). lia.
  - destruct (wait_chain (tasks s) rank y _ Hj Hy ltac:(done)) as (w & st & Hl & Hw & Hnc & Hnj).
    exists (rank y), w, st. split_and!; try done. intros ->.
    apply state_of_inv in Hw as (i & t & Hi & _ & Ht & Hx & Hs).
    apply (i_vacant _ _ (c_ids _ _ Hb) _ _ Ht) in Hs. congruence.
Qed.

Lemma joins_progress_witness : leads (tasks (demo_run (demo_ops ++ [TJoin 2]))) 5 2 1 = false.
Proof.
  refine (proj1 (joins_progress 3 (demo_run (demo_ops ++ [TJoin 2])) 1 2 ltac:(lia) (demo_reach _) _) 5%nat).
  vm_compute. reflexivity.
Defined.

(** Completion wakes exactly the tasks that wait for the completed one, in
    slot order and behind the tasks already runnable; no other task changes. *)
Theorem complete_current_correct (cap : Z) (s : TaskScheduler) :
  0 < cap -> reachable cap s ->
  match active s with
  | None => complete_current s = (Err NoRunningTask, s)
  | Some _ => exists x s', current s = Ok x /\ complete_current s = (Ok x, s') /\ active s' = None /\
      ready_queue s' = ready_queue s ++ joiners (tasks s) x 0 (len (tasks s)) /\
      forall y, task_state s' y =
        if decide (y = x) then Some Completed
        else (fun st => if decide (st = Waiting (Join x)) then Ready else st) <$> task_state s y
  end.
Proof.
  intros Hc Hr. destruct (reachable_ok cap s Hc Hr) as [q Hok].
  pose proof (complete_current_ok s q Hok) as H. rewrite (ready_queue_eq s q) by apply Hok.
  destruct (active s); [|done]. destruct H as (x & s' & Hcur & Hrun & Hok' & Ha & Hst).
  exists x, s'. rewrite (ready_queue_eq s' _) by apply Hok'. done.
Qed.

Definition demo_joined : list top := demo_ops ++ [TJoin 2; TActivate].

Lemma complete_current_correct_witness : exists s', complete_current (demo_run demo_joined) = (Ok 2, s') /\
  ready_queue s' = [2; 0].
Proof.
  pose proof (complete_current_correct 3 _ ltac:(lia) (demo_reach demo_joined)) as H.
  assert (E1 : active (demo_run demo_joined) = Some 1) by (vm_compute; reflexivity).
  assert (E2 : current (demo_run demo_joined) = Ok 2) by (vm_compute; reflexivity).
  rewrite E1 in H. destruct H as (x & s' & Hx & Hrun & _ & Hq & _).
  rewrite E2 in Hx. injection Hx as <-. exists s'. split; [exact Hrun|]. rewrite Hq. vm_compute. reflexivity.
Defined.

End TaskProps.
