(* ===== verification/Channel.v ===== *)
(** src/execution/channel.rs: bounded channels of 32-bit values.  The channels
    of an arena share one buffer, in which each owns a ring, and one table of
    waiting tasks, through which the two wait queues of every channel are
    linked. *)

From S2P Require Import Prelude.

Module Channel.

Abbreviation TaskId := Z (only parsing).

Definition NONE : Z := usize_max.

Inductive ChannelError := InvalidCapacity | InvalidHandle | NoCapacity | CorruptQueue.

Inductive SendResult :=
| Complete
| WakeReceiver (task : TaskId) (destination resume_block : Z)
| SendSuspend.

Inductive ReceiveResult :=
| RValue (value : Z) (wake_sender : option (TaskId * Z))
| ReceiveSuspend.

Inductive WaitKind :=
| WNone
| WSend (value resume_block : Z)
| WReceive (destination resume_block : Z).

#[global] Instance WaitKind_eq : EqDecision WaitKind.
Proof. solve_decision. Defined.

Record Waiter := mkWaiter { w_task : option TaskId; w_next : Z; w_kind : WaitKind }.

Definition Waiter_EMPTY : Waiter := mkWaiter None NONE WNone.

Record Channel := mkChannel {
  values_start : Z; capacity : Z; head : Z; len : Z;
  send_head : Z; send_tail : Z; receive_head : Z; receive_tail : Z }.

Definition Channel_EMPTY : Channel := mkChannel 0 0 0 0 NONE NONE NONE NONE.

Record ChannelArena := mkArena {
  channels : list Channel;
  values : list Z;
  waiters : list Waiter;
  channel_count : Z;
  value_count : Z }.

Abbreviation ChanM := (ST ChannelArena ChannelError).

Definition size {A} (l : list A) : Z := Z.of_nat (length l).

Definition set_channels (c : list Channel) (a : ChannelArena) : ChannelArena :=
  mkArena c (values a) (waiters a) (channel_count a) (value_count a).
Definition set_values (v : list Z) (a : ChannelArena) : ChannelArena :=
  mkArena (channels a) v (waiters a) (channel_count a) (value_count a).
Definition set_waiters (w : list Waiter) (a : ChannelArena) : ChannelArena :=
  mkArena (channels a) (values a) w (channel_count a) (value_count a).

(** [self.channels[i]], and an assignment through it. *)
Definition chan_at (i : Z) (a : ChannelArena) : outcome ChannelError Channel := expect (zget (channels a) i).
Definition put_chan (i : Z) (c : Channel) : ChanM unit := st_modify (fun a => set_channels (zset i c (channels a)) a).
(** [self.values[i] = v]. *)
Definition put_value (i v : Z) : ChanM unit := fun a =>
  match zget (values a) i with
  | None => (Panic, a)
  | Some _ => (Ok tt, set_values (zset i v (values a)) a)
  end.

Definition set_ring (h l : Z) (c : Channel) : Channel :=
  mkChannel (values_start c) (capacity c) h l (send_head c) (send_tail c) (receive_head c) (receive_tail c).
(** The queue a [send] flag selects. *)
Definition queue_ends (send : bool) (c : Channel) : Z * Z :=
  if send then (send_head c, send_tail c) else (receive_head c, receive_tail c).
Definition set_ends (send : bool) (h t : Z) (c : Channel) : Channel :=
  if send
  then mkChannel (values_start c) (capacity c) (head c) (len c) h t (receive_head c) (receive_tail c)
  else mkChannel (values_start c) (capacity c) (head c) (len c) (send_head c) (send_tail c) h t.

Section Resident.
(** [size_of::<Channel>()] and [size_of::<Waiter>()]: the compiler lays these
    records out. *)
Variables (size_of_channel size_of_waiter : Z).

Definition resident_bytes (channels values tasks : Z) : option Z :=
  let tasks := if channels =? 0 then 0 else tasks in
  match checked_mul u64_max size_of_channel channels, checked_mul u64_max 4 values,
        checked_mul u64_max size_of_waiter tasks with
  | Some channel_bytes, Some value_bytes, Some waiter_bytes =>
      bytes ← checked_add u64_max channel_bytes value_bytes;
      checked_add u64_max bytes waiter_bytes
  | _, _, _ => None
  end.

Definition reserved_bytes (a : ChannelArena) : outcome ChannelError Z :=
  let total := size (channels a) * size_of_channel + size (values a) * 4 + size (waiters a) * size_of_waiter in
  if total <=? usize_max then Ok total else Panic.
End Resident.

Definition new (channel_capacity value_capacity task_capacity : Z) : outcome ChannelError ChannelArena :=
  let task_capacity := if channel_capacity =? 0 then 0 else task_capacity in
  Ok (mkArena (replicate (Z.to_nat channel_capacity) Channel_EMPTY)
        (replicate (Z.to_nat value_capacity) 0)
        (replicate (Z.to_nat task_capacity) Waiter_EMPTY) 0 0).

Definition create (capacity : Z) : ChanM Z :=
  capacity ← st_lift (ok_or (try_from_unsigned usize_max capacity) InvalidCapacity);
  a ← st_get;
  if (capacity =? 0) || (channel_count a =? size (channels a)) then st_err NoCapacity
  else
    end_ ← st_lift (ok_or (e ← checked_add usize_max (value_count a) capacity;
                           if e <=? size (values a) then Some e else None) NoCapacity);
    let slot := channel_count a in
    _ ← st_read (chan_at slot);
    _ ← put_chan slot (mkChannel (value_count a) capacity 0 0 NONE NONE NONE NONE);
    _ ← st_modify (fun a => mkArena (channels a) (values a) (waiters a) (channel_count a + 1) end_);
    st_lift (ok_or (try_from_unsigned i32_max (slot + 1)) NoCapacity).

Definition channel_index (handle : Z) (a : ChannelArena) : outcome ChannelError Z :=
  ok_or (h ← try_from_unsigned usize_max handle;
         i ← checked_sub h 1;
         if i <? channel_count a then Some i else None) InvalidHandle.

Definition install_waiter (slot : Z) (task : TaskId) (kind : WaitKind) : ChanM unit :=
  a ← st_get;
  waiter ← st_lift (ok_or (zget (waiters a) slot) CorruptQueue);
  if bool_decide (is_Some (w_task waiter)) then st_err CorruptQueue
  else st_modify (fun a => set_waiters (zset slot (mkWaiter (Some task) NONE kind) (waiters a)) a).

Definition push_waiter (channel_index slot : Z) (send : bool) : ChanM unit :=
  channel ← st_read (chan_at channel_index);
  let '(head, tail) := queue_ends send channel in
  if tail =? NONE then put_chan channel_index (set_ends send slot slot channel)
  else
    a ← st_get;
    w ← st_lift (ok_or (zget (waiters a) tail) CorruptQueue);
    _ ← st_modify (fun a => set_waiters (zset tail (mkWaiter (w_task w) slot (w_kind w)) (waiters a)) a);
    put_chan channel_index (set_ends send head slot channel).

Definition pop_waiter (channel_index : Z) (send : bool) : ChanM Waiter :=
  channel ← st_read (chan_at channel_index);
  let '(slot, tail) := queue_ends send channel in
  a ← st_get;
  waiter ← st_lift (ok_or (zget (waiters a) slot) CorruptQueue);
  _ ← put_chan channel_index
        (set_ends send (w_next waiter) (if w_next waiter =? NONE then NONE else tail) channel);
  _ ← st_modify (fun a => set_waiters (zset slot Waiter_EMPTY (waiters a)) a);
  mret waiter.

(** The write at the tail of a channel's ring, [len] grown by one. *)
Definition ring_push (channel_index value : Z) : ChanM unit :=
  channel ← st_read (chan_at channel_index);
  if capacity channel =? 0 then st_panic
  else
    let tail := (head channel + len channel) mod capacity channel in
    _ ← put_value (values_start channel + tail) value;
    put_chan channel_index (set_ring (head channel) (len channel + 1) channel).

Definition send (handle task_slot : Z) (task : TaskId) (value resume_block : Z) : ChanM SendResult :=
  channel_index ← st_read (channel_index handle);
  channel ← st_read (chan_at channel_index);
  if negb (receive_head channel =? NONE) then
    waiter ← pop_waiter channel_index false;
    match w_kind waiter with
    | WReceive destination resume_block =>
        task ← st_lift (ok_or (w_task waiter) CorruptQueue);
        mret (WakeReceiver task destination resume_block)
    | _ => st_err CorruptQueue
    end
  else if len channel <? capacity channel then
    _ ← ring_push channel_index value;
    mret Complete
  else
    _ ← install_waiter task_slot task (WSend value resume_block);
    _ ← push_waiter channel_index task_slot true;
    mret SendSuspend.

Definition receive (handle task_slot : Z) (task : TaskId) (destination resume_block : Z) : ChanM ReceiveResult :=
  channel_index ← st_read (channel_index handle);
  channel ← st_read (chan_at channel_index);
  if negb (len channel =? 0) then
    a ← st_get;
    value ← st_lift (expect (zget (values a) (values_start channel + head channel)));
    if capacity channel =? 0 then st_panic
    else
      _ ← put_chan channel_index
            (set_ring ((head channel + 1) mod capacity channel) (len channel - 1) channel);
      wake_sender ←
        (if send_head channel =? NONE then mret None
         else
           waiter ← pop_waiter channel_index true;
           match w_kind waiter with
           | WSend value resume_block =>
               _ ← ring_push channel_index value;
               task ← st_lift (ok_or (w_task waiter) CorruptQueue);
               mret (Some (task, resume_block))
           | _ => st_err CorruptQueue
           end);
      mret (RValue value wake_sender)
  else
    _ ← install_waiter task_slot task (WReceive destination resume_block);
    _ ← push_waiter channel_index task_slot false;
    mret ReceiveSuspend.

End Channel.
