(* ===== verification/ChannelProps.v ===== *)
(** What src/execution/channel.rs guarantees: the arena behaves as a table of
    bounded first-in-first-out queues with fair wait queues, loses and reorders
    no value, and leaves nobody waiting that could proceed. *)

From S2P Require Import Prelude Channel.

(** The abstract channel -- a bounded queue of values with the tasks waiting to
    send and to receive -- and the invariant that ties an arena of
    src/execution/channel.rs to a sequence of them. *)

Module ChannelInv.
Import Channel.

(** ** Abstract state *)

Record entry := mkEntry { e_slot : Z; e_task : TaskId; e_kind : WaitKind }.

Record achan := mkAchan { a_cap : Z; a_buf : list Z; a_send : list entry; a_recv : list entry }.

Definition slots (q : list entry) : list Z := e_slot <$> q.
Definition slots_of (c : achan) : list Z := slots (a_send c) ++ slots (a_recv c).
Definition all_slots (C : list achan) : list Z := C ≫= slots_of.

(** Where the ring of channel [i] starts in the shared buffer. *)
Definition zsum (l : list Z) : Z := foldr Z.add 0 l.
Definition start_of (C : list achan) (i : nat) : Z := zsum (take i (a_cap <$> C)).

Lemma zsum_app l k : zsum (l ++ k) = zsum l + zsum k.
Proof. unfold zsum. induction l as [|x l IH]; simpl; [done|]. rewrite IH. lia. Qed.

Lemma zsum_nonneg l : Forall (fun x => 0 < x) l -> 0 <= zsum l.
Proof. induction 1; simpl; lia. Qed.

(** ** Wait queues *)

Fixpoint chain (ws : list Waiter) (h : Z) (q : list entry) : Prop :=
  match q with
  | [] => h = NONE
  | e :: q => h = e_slot e /\ 0 <= h < size ws /\
      exists nx, zget ws h = Some (mkWaiter (Some (e_task e)) nx (e_kind e)) /\ chain ws nx q
  end.

Definition tail_of (q : list entry) : Z := default NONE (last (slots q)).

Definition is_send (k : WaitKind) : bool := match k with WSend _ _ => true | _ => false end.
Definition is_receive (k : WaitKind) : bool := match k with WReceive _ _ => true | _ => false end.
Definition kind_ok (send : bool) (k : WaitKind) : bool := if send then is_send k else is_receive k.

Record queue_ok (ws : list Waiter) (send : bool) (h t : Z) (q : list entry) : Prop := {
  q_chain : chain ws h q;
  q_tail : t = tail_of q;
  q_nodup : NoDup (slots q);
  q_kind : Forall (fun e => kind_ok send (e_kind e) = true) q }.

Lemma chain_frame ws ws' h q :
  size ws' = size ws -> (forall s, s ∈ slots q -> zget ws' s = zget ws s) -> chain ws h q -> chain ws' h q.
Proof.
  intros Hl. revert h. induction q as [|e q IH]; intros h Hf; simpl; [done|].
  intros (-> & Hb & nx & Hw & Hc). split; [done|]. split; [lia|]. exists nx. split.
  - rewrite Hf; [done|]. by left.
  - apply IH; [|done]. intros s Hs. apply Hf. by right.
Qed.

Lemma queue_frame ws ws' b h t q :
  size ws' = size ws -> (forall s, s ∈ slots q -> zget ws' s = zget ws s) ->
  queue_ok ws b h t q -> queue_ok ws' b h t q.
Proof. intros Hl Hf [Hc Ht Hn Hk]. split; try done. by eapply chain_frame. Qed.

Lemma chain_slot ws h q s : chain ws h q -> s ∈ slots q ->
  0 <= s < size ws /\ exists w, zget ws s = Some w /\ is_Some (w_task w).
Proof.
  revert h. induction q as [|e q IH]; intros h; simpl; [by intros _ ?%elem_of_nil|].
  intros (-> & Hb & nx & Hw & Hc) [->|Hs]%elem_of_cons; [|by eapply IH].
  split; [done|]. eexists. split; [exact Hw|]. by eexists.
Qed.

Lemma size_zset {A} i (x : A) l : size (zset i x l) = size l.
Proof. unfold size. by rewrite zset_length. Qed.

Lemma chain_head_none ws h q : size ws <= NONE -> chain ws h q -> (h = NONE <-> q = []).
Proof. intros Hs. destruct q as [|e q]; simpl; [done|]. intros (-> & Hb & _). split; [lia|done]. Qed.

Lemma tail_none ws b h t q : size ws <= NONE -> queue_ok ws b h t q -> (t = NONE <-> q = []).
Proof.
  intros Hs [Hc -> _ _]. unfold tail_of. split; [|by intros ->].
  destruct (last (slots q)) as [s|] eqn:E; simpl; intros H.
  - apply last_Some in E as [l E]. destruct (chain_slot ws h q s Hc) as [? _]; [|lia].
    rewrite E. set_solver.
  - apply last_None in E. by apply fmap_nil_inv in E.
Qed.

(** Linking a freshly installed waiter behind the last one. *)
Lemma chain_snoc ws h q e s w : chain ws h q -> NoDup (slots q) -> last (slots q) = Some s ->
  e_slot e ∉ slots q -> 0 <= e_slot e < size ws ->
  zget ws (e_slot e) = Some (mkWaiter (Some (e_task e)) NONE (e_kind e)) ->
  zget ws s = Some w ->
  chain (zset s (mkWaiter (w_task w) (e_slot e) (w_kind w)) ws) h (q ++ [e]).
Proof.
  revert h. induction q as [|x q IH]; intros h Hc Hn Hl Hne Hb He Hs; [done|].
  destruct Hc as (-> & Hbx & nx & Hw & Hc). simpl in *. rewrite size_zset.
  split; [done|]. split; [done|]. apply not_elem_of_cons in Hne as [Hne1 Hne2].
  apply NoDup_cons in Hn as [Hx Hn]. fold (slots q) in *. destruct q as [|y q].
  - simpl in Hl. injection Hl as <-. rewrite Hw in Hs. injection Hs as <-. exists (e_slot e).
    split; [simpl; by eapply zget_zset_eq|]. simpl. split; [done|]. rewrite size_zset. split; [done|].
    exists NONE. rewrite zget_zset_ne by lia. done.
  - simpl in Hl. assert (Hs' : s ∈ slots (y :: q)).
    { change (last (slots (y :: q)) = Some s) in Hl. apply last_Some in Hl as [l ->]. set_solver. }
    assert (Hsb : 0 <= s) by (eapply chain_slot; [exact Hc|done]).
    exists nx. split.
    + rewrite zget_zset_ne; [done|lia|lia|]. intros ->. done.
    + by apply IH.
Qed.

Lemma slots_app q q' : slots (q ++ q') = slots q ++ slots q'.
Proof. apply fmap_app. Qed.

Lemma tail_snoc q e : tail_of (q ++ [e]) = e_slot e.
Proof. unfold tail_of. rewrite slots_app. simpl. by rewrite last_snoc. Qed.

Lemma queue_push ws b h t q e : size ws <= NONE -> queue_ok ws b h t q ->
  e_slot e ∉ slots q -> 0 <= e_slot e < size ws -> kind_ok b (e_kind e) = true ->
  zget ws (e_slot e) = Some (mkWaiter (Some (e_task e)) NONE (e_kind e)) ->
  if t =? NONE then queue_ok ws b (e_slot e) (e_slot e) (q ++ [e])
  else t ∈ slots q /\ exists w, zget ws t = Some w /\
    queue_ok (zset t (mkWaiter (w_task w) (e_slot e) (w_kind w)) ws) b h (e_slot e) (q ++ [e]).
Proof.
  intros Hs Hq Hne Hb Hk He. pose proof (tail_none _ _ _ _ _ Hs Hq) as Ht. destruct Hq as [Hc Htl Hn Hks].
  assert (Hn' : NoDup (slots (q ++ [e]))).
  { rewrite slots_app. apply NoDup_app. split; [done|]. simpl. split; [set_solver|apply NoDup_singleton]. }
  assert (Hks' : Forall (fun e => kind_ok b (e_kind e) = true) (q ++ [e])) by (apply Forall_app; split; [done|by constructor]).
  destruct (Z.eqb_spec t NONE) as [E|E].
  - apply Ht in E. subst q. split; try done. simpl. split; [done|]. split; [done|].
    exists NONE. done.
  - destruct (last (slots q)) as [s|] eqn:El.
    + unfold tail_of in Htl. rewrite El in Htl. simpl in Htl. subst t.
      assert (Hsq : s ∈ slots q) by (apply last_Some in El as [l ->]; set_solver).
      destruct (chain_slot ws h q s Hc Hsq) as (Hsb & w & Hw & _). split; [done|]. exists w. split; [done|].
      split; try done; [|by rewrite tail_snoc]. eapply chain_snoc; eauto.
    + unfold tail_of in Htl. rewrite El in Htl. done.
Qed.

Lemma queue_pop ws b h t e q : size ws <= NONE -> queue_ok ws b h t (e :: q) ->
  h = e_slot e /\ exists w, zget ws h = Some w /\ w_task w = Some (e_task e) /\ w_kind w = e_kind e /\
    queue_ok (zset h Waiter_EMPTY ws) b (w_next w) (if w_next w =? NONE then NONE else t) q.
Proof.
  intros Hs [Hc Ht Hn Hk]. destruct Hc as (-> & Hb & nx & Hw & Hc). split; [done|].
  apply NoDup_cons in Hn as [Hx Hn]. fold (slots q) in *. apply Forall_cons in Hk as [Hke Hkq].
  exists (mkWaiter (Some (e_task e)) nx (e_kind e)). simpl. split_and!; try done.
  pose proof (chain_head_none ws nx q Hs Hc) as Hnone. split; try done.
  - apply (chain_frame ws); [apply size_zset| |done]. intros s Hsq.
    destruct (chain_slot ws nx q s Hc Hsq) as [? _]. apply zget_zset_ne; [lia|lia|]. intros E. by rewrite E in Hx.
  - destruct (Z.eqb_spec nx NONE) as [E|E].
    + apply Hnone in E. by subst q.
    + unfold tail_of. simpl. destruct q as [|y q]; [by destruct E; apply Hnone|]. done.
Qed.

(** ** Rings *)

Record ring_ok (vs : list Z) (start cap h : Z) (buf : list Z) : Prop := {
  r_cap : 0 < cap;
  r_start : 0 <= start /\ start + cap <= size vs;
  r_head : 0 <= h < cap;
  r_len : size buf <= cap;
  r_cells : forall k x, buf !! k = Some x -> zget vs (start + (h + Z.of_nat k) mod cap) = Some x }.

Lemma ring_frame vs vs' start cap h buf : size vs' = size vs ->
  (forall i, start <= i < start + cap -> zget vs' i = zget vs i) ->
  ring_ok vs start cap h buf -> ring_ok vs' start cap h buf.
Proof.
  intros Hl Hf [Hc Hs Hh Hn Hx]. split; try done; [lia|]. intros k x Hk. rewrite Hf; [by apply Hx|].
  pose proof (Z.mod_pos_bound (h + Z.of_nat k) cap Hc). lia.
Qed.

Lemma ring_slot_ne h cap k n : 0 < cap -> 0 <= k < n -> n < cap -> (h + n) mod cap <> (h + k) mod cap.
Proof.
  intros Hc Hk Hn E. assert (H : ((h + n) - (h + k)) mod cap = 0) by (rewrite Zminus_mod, E, Z.sub_diag; done).
  replace (h + n - (h + k)) with (n - k) in H by lia. rewrite Z.mod_small in H by lia. lia.
Qed.

Lemma ring_push_ok vs start cap h buf v : ring_ok vs start cap h buf -> size buf < cap ->
  let i := start + (h + size buf) mod cap in
  start <= i < start + cap /\ (exists y, zget vs i = Some y) /\ ring_ok (zset i v vs) start cap h (buf ++ [v]).
Proof.
  intros [Hc Hs Hh Hn Hx] Hlt i. pose proof (Z.mod_pos_bound (h + size buf) cap Hc) as Hm.
  assert (Hi : 0 <= i < size vs) by (unfold i; lia).
  destruct (zget_is_Some vs i Hi) as [y Hy]. split; [unfold i; lia|]. split; [by exists y|]. split; try done.
  - rewrite size_zset. done.
  - unfold size in *. rewrite length_app. simpl. lia.
  - intros k x Hk. apply lookup_app_Some in Hk as [Hk|[Hge Hk]].
    + rewrite zget_zset_ne; [by apply Hx|lia| |].
      * pose proof (Z.mod_pos_bound (h + Z.of_nat k) cap Hc). lia.
      * unfold i. pose proof (lookup_lt_Some _ _ _ Hk). intros E.
        apply (ring_slot_ne h cap (Z.of_nat k) (size buf)); unfold size in *; lia.
    + apply list_lookup_singleton_Some in Hk as [Hk <-].
      replace (h + Z.of_nat k) with (h + size buf) by (unfold size; lia). by eapply zget_zset_eq.
Qed.

Lemma ring_pop_ok vs start cap h v buf : ring_ok vs start cap h (v :: buf) ->
  zget vs (start + h) = Some v /\ ring_ok vs start cap ((h + 1) mod cap) buf.
Proof.
  intros [Hc Hs Hh Hn Hx]. split.
  - pose proof (Hx 0%nat v eq_refl) as H. rewrite Z.add_0_r, Z.mod_small in H by lia. done.
  - split; try done; [by apply Z.mod_pos_bound|unfold size in *; simpl in *; lia|].
    intros k x Hk. pose proof (Hx (S k) x Hk) as H. rewrite <- H. f_equal. f_equal.
    rewrite Zplus_mod_idemp_l. f_equal. lia.
Qed.

(** ** The arena *)

Record chan_ok (vs : list Z) (ws : list Waiter) (start : Z) (ch : Channel) (c : achan) : Prop := {
  k_start : values_start ch = start;
  k_cap : capacity ch = a_cap c;
  k_len : len ch = size (a_buf c);
  k_ring : ring_ok vs start (a_cap c) (head ch) (a_buf c);
  k_send : queue_ok ws true (send_head ch) (send_tail ch) (a_send c);
  k_recv : queue_ok ws false (receive_head ch) (receive_tail ch) (a_recv c);
  k_recv_mode : a_recv c <> [] -> a_buf c = [] /\ a_send c = [];
  k_send_mode : a_send c <> [] -> size (a_buf c) = a_cap c }.

(** An arena with its fixed capacities. *)
Record spec := mkSpec { s_channels : Z; s_values : Z; s_tasks : Z; s_chans : list achan }.

Record arena_ok (a : ChannelArena) (s : spec) : Prop := {
  o_channels : size (channels a) = s_channels s;
  o_values : size (values a) = s_values s;
  o_tasks : size (waiters a) = s_tasks s;
  o_count : channel_count a = size (s_chans s);
  o_fits : size (s_chans s) <= s_channels s <= usize_max;
  o_used : value_count a = zsum (a_cap <$> s_chans s);
  o_room : zsum (a_cap <$> s_chans s) <= s_values s <= usize_max;
  o_slots : s_tasks s <= NONE;
  o_chan : forall i c, s_chans s !! i = Some c -> exists ch, channels a !! i = Some ch /\
             chan_ok (values a) (waiters a) (start_of (s_chans s) i) ch c;
  o_disjoint : forall i j ci cj x, s_chans s !! i = Some ci -> s_chans s !! j = Some cj ->
             x ∈ slots_of ci -> x ∈ slots_of cj -> i = j;
  o_vacant : forall x w, 0 <= x -> zget (waiters a) x = Some w -> x ∉ all_slots (s_chans s) -> w_task w = None }.

Definition with_chan (i : nat) (c : achan) (s : spec) : spec :=
  mkSpec (s_channels s) (s_values s) (s_tasks s) (<[i := c]> (s_chans s)).

Lemma all_slots_elem C x : x ∈ all_slots C <-> exists i c, C !! i = Some c /\ x ∈ slots_of c.
Proof.
  unfold all_slots. rewrite list_elem_of_bind. split.
  - intros (c & Hx & Hc). apply list_elem_of_lookup in Hc as [i Hi]. eauto.
  - intros (i & c & Hi & Hx). exists c. split; [done|]. by eapply list_elem_of_lookup_2.
Qed.

Lemma caps_insert (C : list achan) (i : nat) c c' : C !! i = Some c -> a_cap c' = a_cap c -> a_cap <$> (<[i := c']> C) = a_cap <$> C.
Proof. intros Hi Hc. rewrite list_fmap_insert, Hc. apply list_insert_id. by rewrite list_lookup_fmap, Hi. Qed.

(** Rings of different channels do not meet. *)
Lemma start_order (C : list achan) i j ci : (i < j)%nat -> C !! i = Some ci ->
  Forall (fun x => 0 < x) (a_cap <$> C) -> start_of C i + a_cap ci <= start_of C j.
Proof.
  intros Hij Hi Hp. unfold start_of. set (l := a_cap <$> C) in *.
  assert (Hl : l !! i = Some (a_cap ci)) by (unfold l; by rewrite list_lookup_fmap, Hi).
  replace j with (S i + (j - S i))%nat by lia. rewrite <- take_take_drop, (take_S_r _ _ _ Hl), !zsum_app. simpl.
  pose proof (zsum_nonneg (take (j - S i) (drop (S i) l)) ltac:(by apply Forall_take, Forall_drop)). lia.
Qed.

Lemma caps_pos a s : arena_ok a s -> Forall (fun x => 0 < x) (a_cap <$> s_chans s).
Proof.
  intros H. apply Forall_lookup. intros i x Hx. rewrite list_lookup_fmap in Hx.
  apply fmap_Some in Hx as (c & Hc & ->). destruct (o_chan _ _ H i c Hc) as (ch & _ & Hok). apply (k_ring _ _ _ _ _ Hok).
Qed.

Lemma slots_bound vs ws st ch c x : chan_ok vs ws st ch c -> x ∈ slots_of c ->
  0 <= x < size ws /\ exists w, zget ws x = Some w /\ is_Some (w_task w).
Proof.
  intros Hok [Hx|Hx]%elem_of_app; [apply (chain_slot ws (send_head ch) (a_send c))|
    apply (chain_slot ws (receive_head ch) (a_recv c))]; try done; apply Hok.
Qed.

(** One channel changes, with the part of the buffer and the waiters it owns. *)
Lemma arena_update a s i c ch' c' vs' ws' :
  arena_ok a s -> s_chans s !! i = Some c -> a_cap c' = a_cap c ->
  size vs' = size (values a) -> size ws' = size (waiters a) ->
  (forall k, 0 <= k -> ~ (start_of (s_chans s) i <= k < start_of (s_chans s) i + a_cap c) ->
     zget vs' k = zget (values a) k) ->
  (forall x, 0 <= x -> x ∉ slots_of c -> x ∉ slots_of c' -> zget ws' x = zget (waiters a) x) ->
  (forall x, x ∈ slots_of c' -> x ∈ slots_of c \/ x ∉ all_slots (s_chans s)) ->
  (forall x w, x ∈ slots_of c -> x ∉ slots_of c' -> zget ws' x = Some w -> w_task w = None) ->
  chan_ok vs' ws' (start_of (s_chans s) i) ch' c' ->
  arena_ok (mkArena (<[i := ch']> (channels a)) vs' ws' (channel_count a) (value_count a)) (with_chan i c' s).
Proof.
  intros H Hi Hcap Hvs Hws Hv Hw Hnew Hold Hok. pose proof (caps_insert _ _ _ c' Hi Hcap) as Hcaps.
  pose proof (caps_pos _ _ H) as Hpos. destruct (o_chan _ _ H i c Hi) as (ch & Hch & Hcok).
  assert (Hdis : forall j cj x, j <> i -> s_chans s !! j = Some cj -> x ∈ slots_of cj ->
            (x ∉ slots_of c) /\ (x ∉ slots_of c')).
  { intros j cj x Hji Hj Hx. assert (Hxc : x ∉ slots_of c).
    { intros Hxc. apply Hji. eapply (o_disjoint _ _ H); eauto. }
    split; [done|]. intros Hx'. destruct (Hnew x Hx') as [?|Hf]; [done|]. apply Hf, all_slots_elem. eauto. }
  pose proof (lookup_lt_Some _ _ _ Hi) as Hlt. pose proof (lookup_lt_Some _ _ _ Hch) as Hlt'.
  split; simpl; unfold size; rewrite ?length_insert; rewrite ?Hcaps; try apply H.
  - unfold size in Hvs. rewrite Hvs. apply H.
  - unfold size in Hws. rewrite Hws. apply H.
  - intros j cj Hj. apply list_lookup_insert_Some in Hj as [(<- & <- & _)|(Hji & Hj)].
    + exists ch'. split; [by apply list_lookup_insert_eq|]. unfold start_of. by rewrite Hcaps.
    + destruct (o_chan _ _ H j cj Hj) as (chj & Hchj & [K1 K2 K3 K4 K5 K6 K7 K8]).
      exists chj. rewrite list_lookup_insert_ne by done. split; [done|]. unfold start_of. rewrite Hcaps.
      fold (start_of (s_chans s) j).
      assert (Hframe : forall x, x ∈ slots_of cj -> zget ws' x = zget (waiters a) x).
      { intros x Hx. destruct (Hdis j cj x ltac:(done) Hj Hx). apply Hw; [|done|done].
        eapply slots_bound; [|exact Hx]. split; eassumption. }
      split; try done.
      * eapply ring_frame; [exact Hvs| |done]. intros k Hk. apply Hv; [pose proof (r_start _ _ _ _ _ K4); lia|].
        destruct (Nat.lt_total i j) as [Hij|[->|Hij]]; [|done|].
        -- pose proof (start_order _ i j c Hij Hi Hpos). lia.
        -- pose proof (start_order _ j i cj Hij Hj Hpos). lia.
      * eapply queue_frame; [exact Hws| |done]. intros x Hx. apply Hframe, elem_of_app. by left.
      * eapply queue_frame; [exact Hws| |done]. intros x Hx. apply Hframe, elem_of_app. by right.
  - intros j k cj ck x Hj Hk Hxj Hxk.
    apply list_lookup_insert_Some in Hj as [(<- & <- & _)|(Hji & Hj)];
    apply list_lookup_insert_Some in Hk as [(<- & <- & _)|(Hki & Hk)]; try done.
    + destruct (Hdis k ck x ltac:(done) Hk Hxk). done.
    + destruct (Hdis j cj x ltac:(done) Hj Hxj). done.
    + eapply (o_disjoint _ _ H); eauto.
  - intros x w Hx Hwx Hnx.
    assert (Hx' : x ∉ slots_of c').
    { intros Hx'. apply Hnx, all_slots_elem. exists i, c'. split; [by apply list_lookup_insert_eq|done]. }
    destruct (decide (x ∈ slots_of c)) as [Hxc|Hxc]; [by eapply Hold|].
    rewrite Hw in Hwx by done. apply (o_vacant _ _ H x w Hx Hwx). intros (j & cj & Hj & Hxj)%all_slots_elem.
    apply Hnx, all_slots_elem. destruct (decide (j = i)) as [->|Hji].
    + assert (cj = c) by congruence. subst. done.
    + exists j, cj. rewrite list_lookup_insert_ne by done. done.
Qed.

End ChannelInv.

Module ChannelProps.
Import Channel ChannelInv.

(** ** Abstract operations *)

Definition lookup_handle (h : Z) (s : spec) : option (nat * achan) :=
  if (1 <=? h) && (h <=? size (s_chans s))
  then c ← s_chans s !! Z.to_nat (h - 1); Some (Z.to_nat (h - 1), c)
  else None.

(** A task may wait when its slot exists and is not waiting already. *)
Definition may_wait (slot : Z) (s : spec) : bool :=
  (slot <? s_tasks s) && bool_decide (slot ∉ all_slots (s_chans s)).

Definition spec_create (cap : Z) (s : spec) : outcome ChannelError Z * spec :=
  if cap <? 0 then (Err InvalidCapacity, s)
  else if (cap =? 0) || (size (s_chans s) =? s_channels s) ||
          (s_values s <? zsum (a_cap <$> s_chans s) + cap)
  then (Err NoCapacity, s)
  else
    (if size (s_chans s) <? i32_max then Ok (size (s_chans s) + 1) else Err NoCapacity,
     mkSpec (s_channels s) (s_values s) (s_tasks s) (s_chans s ++ [mkAchan cap [] [] []])).

Definition spec_send (h slot : Z) (task : TaskId) (v resume : Z) (s : spec) : outcome ChannelError SendResult * spec :=
  match lookup_handle h s with
  | None => (Err InvalidHandle, s)
  | Some (i, c) =>
      match a_recv c with
      | e :: q =>
          match e_kind e with
          | WReceive d r => (Ok (WakeReceiver (e_task e) d r), with_chan i (mkAchan (a_cap c) (a_buf c) (a_send c) q) s)
          | _ => (Err CorruptQueue, s)
          end
      | [] =>
          if size (a_buf c) <? a_cap c then (Ok Complete, with_chan i (mkAchan (a_cap c) (a_buf c ++ [v]) (a_send c) []) s)
          else if may_wait slot s then
            (Ok SendSuspend,
             with_chan i (mkAchan (a_cap c) (a_buf c) (a_send c ++ [mkEntry slot task (WSend v resume)]) []) s)
          else (Err CorruptQueue, s)
      end
  end.

Definition spec_receive (h slot : Z) (task : TaskId) (dest resume : Z) (s : spec) : outcome ChannelError ReceiveResult * spec :=
  match lookup_handle h s with
  | None => (Err InvalidHandle, s)
  | Some (i, c) =>
      match a_buf c, a_send c with
      | v :: buf, [] => (Ok (RValue v None), with_chan i (mkAchan (a_cap c) buf [] (a_recv c)) s)
      | v :: buf, e :: q =>
          match e_kind e with
          | WSend v' r => (Ok (RValue v (Some (e_task e, r))), with_chan i (mkAchan (a_cap c) (buf ++ [v']) q (a_recv c)) s)
          | _ => (Err CorruptQueue, s)
          end
      | [], _ =>
          if may_wait slot s then
            (Ok ReceiveSuspend,
             with_chan i (mkAchan (a_cap c) [] (a_send c) (a_recv c ++ [mkEntry slot task (WReceive dest resume)])) s)
          else (Err CorruptQueue, s)
      end
  end.

(** ** Runs of the building blocks *)

Lemma lookup_handle_Some h s i c : lookup_handle h s = Some (i, c) ->
  s_chans s !! i = Some c /\ h = Z.of_nat i + 1.
Proof.
  unfold lookup_handle. destruct (_ && _) eqn:E; [|done]. bsimp. intros Hl.
  apply bind_Some in Hl as (c' & Hc & [= <- <-]). split; [done|]. lia.
Qed.

Lemma channel_index_ok a s h : arena_ok a s ->
  channel_index h a = match lookup_handle h s with Some (i, _) => Ok (Z.of_nat i) | None => Err InvalidHandle end.
Proof.
  intros H. pose proof (o_count _ _ H) as Hc. pose proof (o_fits _ _ H).
  unfold channel_index, lookup_handle, try_from_unsigned, in_range, checked_sub.
  destruct (Z.leb_spec 1 h), (Z.leb_spec h (size (s_chans s))); simpl.
  - destruct (lookup_lt_is_Some_2 (s_chans s) (Z.to_nat (h - 1))) as [c Hi]; [unfold size in *; lia|].
    rewrite Hi. simpl. rewrite (proj2 (Z.leb_le 0 h)), (proj2 (Z.leb_le h usize_max)) by lia. simpl.
    rewrite (proj2 (Z.leb_le 1 h)) by lia. simpl. rewrite (proj2 (Z.ltb_lt _ _)) by lia. simpl. f_equal. lia.
  - destruct (_ && _); [|done]. simpl. rewrite (proj2 (Z.leb_le 1 h)) by lia. simpl.
    rewrite (proj2 (Z.ltb_ge _ _)) by lia. done.
  - destruct (_ && _); [|done]. simpl. rewrite (proj2 (Z.leb_gt 1 h)) by lia. done.
  - destruct (_ && _); [|done]. simpl. rewrite (proj2 (Z.leb_gt 1 h)) by lia. done.
Qed.

Definition put (i : nat) (ch : Channel) (vs : list Z) (ws : list Waiter) (a : ChannelArena) : ChannelArena :=
  mkArena (<[i := ch]> (channels a)) vs ws (channel_count a) (value_count a).

Lemma zset_nat {A} i (x : A) l : zset (Z.of_nat i) x l = <[i := x]> l.
Proof. unfold zset. by rewrite Nat2Z.id. Qed.
Lemma zget_nat {A} i (l : list A) : zget l (Z.of_nat i) = l !! i.
Proof. unfold zget. by rewrite Nat2Z.id. Qed.

Lemma chan_at_ok i ch a : channels a !! i = Some ch -> chan_at (Z.of_nat i) a = Ok ch.
Proof. intros H. unfold chan_at. by rewrite zget_nat, H. Qed.

Definition head_of (b : bool) (ch : Channel) : Z := (queue_ends b ch).1.
Definition last_of (b : bool) (ch : Channel) : Z := (queue_ends b ch).2.

Lemma pop_run a i b ch e q : channels a !! i = Some ch -> size (waiters a) <= NONE ->
  queue_ok (waiters a) b (head_of b ch) (last_of b ch) (e :: q) ->
  exists w h t, pop_waiter (Z.of_nat i) b a =
      (Ok w, put i (set_ends b h t ch) (values a) (zset (e_slot e) Waiter_EMPTY (waiters a)) a) /\
    w_task w = Some (e_task e) /\ w_kind w = e_kind e /\
    queue_ok (zset (e_slot e) Waiter_EMPTY (waiters a)) b h t q.
Proof.
  intros Hch Hs Hq. apply queue_pop in Hq as (Hh & w & Hw & Ht & Hk & Hq); [|done]. rewrite Hh in *.
  exists w, (w_next w), (if w_next w =? NONE then NONE else last_of b ch). split_and!; try done.
  unfold pop_waiter, st_read, mbind, ST_bind. rewrite (chan_at_ok i ch a Hch).
  unfold head_of, last_of in *. destruct (queue_ends b ch) as [hd tl]. simpl in *. subst hd.
  rewrite Hw. simpl. unfold put, set_waiters, set_channels. simpl. by rewrite zset_nat.
Qed.

Lemma wait_run a i b ch q slot task kind w0 : channels a !! i = Some ch -> size (waiters a) <= NONE ->
  queue_ok (waiters a) b (head_of b ch) (last_of b ch) q -> 0 <= slot -> slot ∉ slots q ->
  zget (waiters a) slot = Some w0 -> w_task w0 = None -> kind_ok b kind = true ->
  exists ws h t,
    (forall A (f : unit -> ChanM A), (install_waiter slot task kind ≫= fun _ => push_waiter (Z.of_nat i) slot b ≫= f) a =
      f tt (put i (set_ends b h t ch) (values a) ws a)) /\
    size ws = size (waiters a) /\
    queue_ok ws b h t (q ++ [mkEntry slot task kind]) /\
    (forall x, 0 <= x -> x <> slot -> x ∉ slots q -> zget ws x = zget (waiters a) x).
Proof.
  intros Hch Hs Hq H0 Hne Hw0 Htask Hk. set (ws1 := zset slot (mkWaiter (Some task) NONE kind) (waiters a)).
  assert (Hq1 : queue_ok ws1 b (head_of b ch) (last_of b ch) q).
  { eapply queue_frame; [apply size_zset| |exact Hq]. intros x Hx.
    destruct (chain_slot _ _ _ x (q_chain _ _ _ _ _ Hq) Hx) as [? _]. apply zget_zset_ne; [lia|lia|].
    intros ->. done. }
  pose proof (zget_Some_lt _ _ _ H0 Hw0) as Hb.
  pose proof (queue_push ws1 b _ _ q (mkEntry slot task kind) ltac:(unfold ws1; rewrite size_zset; done) Hq1 Hne) as Hp.
  simpl in Hp. specialize (Hp ltac:(unfold ws1; rewrite size_zset; unfold size; lia) Hk
    ltac:(unfold ws1; by eapply zget_zset_eq)).
  assert (Hi : install_waiter slot task kind a = (Ok tt, set_waiters ws1 a)).
  { unfold install_waiter, mbind, ST_bind. simpl. rewrite Hw0. simpl. by rewrite Htask. }
  destruct (last_of b ch =? NONE) eqn:El.
  - exists ws1, slot, slot. split_and!; try done; [|apply size_zset|].
    + intros A f. rewrite (st_bind_ok _ _ _ _ _ Hi). unfold push_waiter, mbind, ST_bind, st_read.
      rewrite (chan_at_ok i ch (set_waiters ws1 a) Hch). unfold last_of, head_of in *.
      destruct (queue_ends b ch) as [hd tl]. simpl in *. rewrite El. unfold put_chan, st_modify. simpl.
      unfold put, set_channels. simpl. by rewrite zset_nat.
    + intros x Hx Hxs _. apply zget_zset_ne; lia.
  - destruct Hp as (Htl & w & Hw & Hq'). exists (zset (last_of b ch) (mkWaiter (w_task w) slot (w_kind w)) ws1), (head_of b ch), slot.
    split_and!; [|unfold ws1; by rewrite !size_zset|exact Hq'|].
    + intros A f. rewrite (st_bind_ok _ _ _ _ _ Hi). unfold push_waiter, mbind, ST_bind, st_read.
      rewrite (chan_at_ok i ch (set_waiters ws1 a) Hch). unfold last_of, head_of in *.
      destruct (queue_ends b ch) as [hd tl]. simpl in *. rewrite El. simpl. rewrite Hw. simpl.
      unfold put, set_channels, set_waiters. simpl. by rewrite zset_nat.
    + intros x Hx Hxs Hxq. destruct (chain_slot _ _ _ _ (q_chain _ _ _ _ _ Hq) Htl) as [? _].
      unfold ws1. rewrite !zget_zset_ne; try lia; [done|]. intros E. by rewrite E in Htl.
Qed.

Lemma ring_push_run a i ch start buf v : channels a !! i = Some ch -> values_start ch = start ->
  len ch = size buf -> size buf < capacity ch -> ring_ok (values a) start (capacity ch) (head ch) buf ->
  exists vs, ring_push (Z.of_nat i) v a = (Ok tt, put i (set_ring (head ch) (len ch + 1) ch) vs (waiters a) a) /\
    size vs = size (values a) /\ ring_ok vs start (capacity ch) (head ch) (buf ++ [v]) /\
    forall k, 0 <= k -> ~ (start <= k < start + capacity ch) -> zget vs k = zget (values a) k.
Proof.
  intros Hch Hst Hlen Hlt Hr. destruct (ring_push_ok _ _ _ _ _ v Hr Hlt) as (Hi & [y Hy] & Hr').
  exists (zset (start + (head ch + size buf) mod capacity ch) v (values a)). split_and!; [|apply size_zset|exact Hr'|].
  - unfold ring_push, mbind, ST_bind, st_read. rewrite (chan_at_ok i ch a Hch).
    pose proof (r_cap _ _ _ _ _ Hr). rewrite (proj2 (Z.eqb_neq _ _)) by lia. unfold put_value.
    rewrite Hst, Hlen, Hy. unfold put_chan, st_modify, put, set_channels, set_values. simpl. by rewrite zset_nat.
  - intros k Hk Hout. pose proof (r_start _ _ _ _ _ Hr). apply zget_zset_ne; lia.
Qed.

(** ** The operations implement the specification *)

Lemma may_wait_true slot a s : arena_ok a s -> 0 <= slot -> may_wait slot s = true ->
  (slot ∉ all_slots (s_chans s)) /\ exists w, zget (waiters a) slot = Some w /\ w_task w = None.
Proof.
  intros H H0 Hm. unfold may_wait in Hm. bsimp. split; [done|].
  destruct (zget_is_Some (waiters a) slot) as [w Hw].
  { pose proof (o_tasks _ _ H). unfold size in *. lia. }
  exists w. split; [done|]. by apply (o_vacant _ _ H slot w).
Qed.

Lemma may_wait_false slot task kind a s : arena_ok a s -> 0 <= slot -> may_wait slot s = false ->
  install_waiter slot task kind a = (Err CorruptQueue, a).
Proof.
  intros H H0 Hm. pose proof (o_tasks _ _ H) as Ht. unfold may_wait in Hm. unfold install_waiter, mbind, ST_bind. simpl.
  destruct (zget (waiters a) slot) as [w|] eqn:Hw; [|done]. simpl.
  pose proof (zget_Some_lt _ _ _ H0 Hw) as Hb. apply andb_false_iff in Hm as [Hm|Hm]; bsimp; [unfold size in *; lia|].
  apply dec_stable in Hm. apply all_slots_elem in Hm as (i & c & Hi & Hx).
  destruct (o_chan _ _ H i c Hi) as (ch & _ & Hok).
  destruct (slots_bound _ _ _ _ _ _ Hok Hx) as (_ & w' & Hw' & Hs). rewrite Hw in Hw'. injection Hw' as <-.
  rewrite bool_decide_eq_true_2 by done. done.
Qed.

Lemma create_ok a s cap : arena_ok a s -> cap <= usize_max ->
  exists a', create cap a = ((spec_create cap s).1, a') /\ arena_ok a' (spec_create cap s).2.
Proof.
  intros H Hmax. pose proof (o_count _ _ H) as Hc. pose proof (o_used _ _ H) as Hu. pose proof (o_room _ _ H) as Hr.
  pose proof (o_channels _ _ H) as Hch. pose proof (o_values _ _ H) as Hv. pose proof (o_fits _ _ H) as Hf.
  assert (Hz : 0 <= zsum (a_cap <$> s_chans s)) by (apply zsum_nonneg; by eapply caps_pos).
  unfold create, spec_create, mbind, ST_bind, st_lift, try_from_unsigned, in_range.
  destruct (Z.ltb_spec cap 0) as [Hneg|Hneg].
  { rewrite (proj2 (Z.leb_gt 0 cap)) by lia. by exists a. }
  rewrite (proj2 (Z.leb_le 0 cap)) by lia. simpl.
  rewrite (proj2 (Z.leb_le cap usize_max)) by lia. simpl. rewrite Hc, Hch, Hu, Hv.
  destruct ((cap =? 0) || (size (s_chans s) =? s_channels s)) eqn:E1; simpl; [by exists a|]. bsimp.
  destruct (Z.ltb_spec (s_values s) (zsum (a_cap <$> s_chans s) + cap)) as [Hov|Hov]; simpl.
  { exists a. split; [|done]. unfold checked_add. destruct (_ <=? usize_max); [|done]. simpl.
    by rewrite (proj2 (Z.leb_gt _ _)) by lia. }
  unfold checked_add. rewrite (proj2 (Z.leb_le _ usize_max)) by lia. simpl.
  rewrite (proj2 (Z.leb_le _ (s_values s))) by lia. simpl.
  destruct (zget_is_Some (channels a) (size (s_chans s))) as [ch0 Hch0]; [unfold size in *; lia|].
  unfold st_read, chan_at. rewrite Hch0. simpl.
  assert (Hzs : forall (x : Channel) l, zset (size (s_chans s)) x l = <[length (s_chans s) := x]> l)
    by (intros; apply zset_nat).
  rewrite Hzs. eexists. split; [f_equal|].
  { destruct (Z.leb_spec 0 (size (s_chans s) + 1)); [|unfold size in *; lia].
    destruct (Z.leb_spec (size (s_chans s) + 1) i32_max), (Z.ltb_spec (size (s_chans s)) i32_max); simpl; try lia; done. }
  set (ch := mkChannel _ _ _ _ _ _ _ _).
  assert (Hsnoc : forall j c, (s_chans s ++ [mkAchan cap [] [] []]) !! j = Some c ->
            s_chans s !! j = Some c \/ j = length (s_chans s) /\ c = mkAchan cap [] [] []).
  { intros j c Hj. apply lookup_app_Some in Hj as [Hj|[Hge Hj]]; [by left|right].
    apply list_lookup_singleton_Some in Hj as [Hj <-]. split; [lia|done]. }
  assert (Hempty : forall x, x ∉ slots_of (mkAchan cap [] [] [])) by (intros x; apply not_elem_of_nil).
  split; simpl; rewrite ?fmap_app, ?zsum_app; simpl; unfold size; rewrite ?length_insert, ?length_app; simpl;
    try (unfold size in *; lia); try apply H.
  - intros j c Hj. assert (Hst : (j <= length (s_chans s))%nat -> start_of (s_chans s ++ [mkAchan cap [] [] []]) j = start_of (s_chans s) j).
    { intros Hle. unfold start_of. rewrite fmap_app, take_app_le; [done|]. by rewrite length_fmap. }
    destruct (Hsnoc j c Hj) as [Hj'|[-> ->]].
    + destruct (o_chan _ _ H j c Hj') as (chj & Hchj & Hok). pose proof (lookup_lt_Some _ _ _ Hj').
      exists chj. rewrite list_lookup_insert_ne by lia. rewrite Hst by lia. done.
    + exists ch. split; [apply list_lookup_insert_eq; unfold size in *; lia|]. rewrite Hst by lia.
      assert (Hstart : start_of (s_chans s) (length (s_chans s)) = zsum (a_cap <$> s_chans s)).
      { unfold start_of. by rewrite take_ge by (rewrite length_fmap; lia). }
      rewrite Hstart. split; simpl; try done.
      * split; simpl; try done; try (unfold size in *; simpl; lia).
      * split; try done. constructor.
      * split; try done. constructor.
  - intros i j ci cj x Hi Hj Hxi Hxj.
    destruct (Hsnoc i ci Hi) as [Hi'|[-> ->]]; [|by destruct (Hempty x)].
    destruct (Hsnoc j cj Hj) as [Hj'|[-> ->]]; [|by destruct (Hempty x)].
    eapply (o_disjoint _ _ H); eauto.
  - intros x w Hx Hw Hn. apply (o_vacant _ _ H x w Hx Hw). intros (j & c & Hj & Hxc)%all_slots_elem.
    apply Hn, all_slots_elem. exists j, c. split; [by apply lookup_app_l_Some|done].
Qed.

Lemma empty_queue ws ws' b h t : queue_ok ws b h t [] -> queue_ok ws' b h t [].
Proof. intros [Hc Ht Hn Hk]. by split. Qed.

(** The hypotheses of a channel operation, once its handle is resolved. *)
Section OneChannel.
Context (a : ChannelArena) (s : spec) (i : nat) (c : achan) (ch : Channel).
Hypothesis (Hok : arena_ok a s) (Hi : s_chans s !! i = Some c) (Hch : channels a !! i = Some ch).
Hypothesis (K : chan_ok (values a) (waiters a) (start_of (s_chans s) i) ch c).

Lemma waiters_bound : size (waiters a) <= NONE.
Proof. rewrite (o_tasks _ _ Hok). apply Hok. Qed.

Lemma own_slot x : x ∈ slots_of c -> x ∈ all_slots (s_chans s).
Proof. intros. apply all_slots_elem. eauto. Qed.

Lemma wake_receiver_ok e q : a_recv c = e :: q ->
  exists w h t, pop_waiter (Z.of_nat i) false a =
      (Ok w, put i (set_ends false h t ch) (values a) (zset (e_slot e) Waiter_EMPTY (waiters a)) a) /\
    w_task w = Some (e_task e) /\ w_kind w = e_kind e /\ is_receive (e_kind e) = true /\
    arena_ok (put i (set_ends false h t ch) (values a) (zset (e_slot e) Waiter_EMPTY (waiters a)) a)
      (with_chan i (mkAchan (a_cap c) (a_buf c) (a_send c) q) s).
Proof.
  intros Hr. destruct K as [K1 K2 K3 K4 K5 K6 K7 K8]. rewrite Hr in *. destruct (K7 ltac:(done)) as [Hb Hs].
  destruct (pop_run a i false ch e q Hch waiters_bound K6) as (w & h & t & Hrun & Ht & Hk & Hq).
  exists w, h, t. split_and!; try done.
  { pose proof (q_kind _ _ _ _ _ K6) as Hks. by apply Forall_cons in Hks as [? _]. }
  pose proof (q_nodup _ _ _ _ _ K6) as Hn. apply NoDup_cons in Hn as [Hn _].
  assert (He : 0 <= e_slot e) by (eapply chain_slot; [apply K6|by left]).
  assert (Hsl : slots_of c = e_slot e :: slots q) by (unfold slots_of; rewrite Hs, Hr; done).
  apply (arena_update a s i c); try done; [apply size_zset| | | |].
  - intros x Hx Hxc _. rewrite Hsl in Hxc. apply not_elem_of_cons in Hxc as [Hne _]. apply zget_zset_ne; lia.
  - intros x Hx. left. rewrite Hsl. unfold slots_of in Hx. simpl in Hx. rewrite Hs in Hx. by right.
  - intros x w' Hx Hx' Hw'. rewrite Hsl in Hx. apply elem_of_cons in Hx as [->|Hx].
    + destruct (chain_slot _ _ _ (e_slot e) (q_chain _ _ _ _ _ K6) ltac:(by left)) as (_ & w0 & Hw0 & _).
      erewrite zget_zset_eq in Hw' by done. by injection Hw' as <-.
    + destruct Hx'. unfold slots_of. simpl. rewrite Hs. done.
  - split; simpl; try done. rewrite Hs in *. by eapply empty_queue.
Qed.

Lemma buffer_ok v : a_recv c = [] -> a_send c = [] -> size (a_buf c) < a_cap c ->
  exists a', ring_push (Z.of_nat i) v a = (Ok tt, a') /\
    arena_ok a' (with_chan i (mkAchan (a_cap c) (a_buf c ++ [v]) [] []) s).
Proof.
  intros Hr Hs Hlt. destruct K as [K1 K2 K3 K4 K5 K6 K7 K8]. rewrite <- K2 in K4.
  destruct (ring_push_run a i ch _ _ v Hch K1 K3 ltac:(lia) K4) as (vs & Hrun & Hsz & Hr' & Hf).
  eexists. split; [exact Hrun|]. rewrite Hr, Hs in *. rewrite K2 in *.
  assert (Hsl : slots_of c = []) by (unfold slots_of; rewrite Hs, Hr; done).
  apply (arena_update a s i c); try done.
  - intros x Hx. by apply elem_of_nil in Hx.
  - intros x w Hx. rewrite Hsl in Hx. by apply elem_of_nil in Hx.
  - split; simpl; try done. unfold size. rewrite length_app. simpl. unfold size in K3. lia.
Qed.

Lemma wait_ok b slot task kind : 0 <= slot -> may_wait slot s = true -> kind_ok b kind = true ->
  (if b then a_recv c = [] /\ size (a_buf c) = a_cap c else a_send c = [] /\ a_buf c = []) ->
  exists a', (forall A (f : unit -> ChanM A),
      (install_waiter slot task kind ≫= fun _ => push_waiter (Z.of_nat i) slot b ≫= f) a = f tt a') /\
    arena_ok a' (with_chan i
      (if b then mkAchan (a_cap c) (a_buf c) (a_send c ++ [mkEntry slot task kind]) []
       else mkAchan (a_cap c) [] (a_send c) (a_recv c ++ [mkEntry slot task kind])) s).
Proof.
  intros H0 Hm Hk Hmode. destruct (may_wait_true slot a s Hok H0 Hm) as (Hfresh & w0 & Hw0 & Ht0).
  assert (Hfc : slot ∉ slots_of c) by (intros ?; by apply Hfresh, own_slot).
  unfold slots_of in Hfc. apply not_elem_of_app in Hfc as [Hfs Hfr]. destruct K as [K1 K2 K3 K4 K5 K6 K7 K8].
  assert (Hq : queue_ok (waiters a) b (head_of b ch) (last_of b ch) (if b then a_send c else a_recv c)) by (by destruct b).
  destruct (wait_run a i b ch _ slot task kind w0 Hch waiters_bound Hq H0 ltac:(by destruct b) Hw0 Ht0 Hk)
    as (ws & h & t & Hrun & Hsz & Hq' & Hf).
  exists (put i (set_ends b h t ch) (values a) ws a). split; [exact Hrun|].
  assert (Hsl : slots_of c = slots (if b then a_send c else a_recv c)).
  { unfold slots_of. destruct b, Hmode as [-> ?]; [apply app_nil_r|done]. }
  assert (Hsl' : slots_of (if b then mkAchan (a_cap c) (a_buf c) (a_send c ++ [mkEntry slot task kind]) []
       else mkAchan (a_cap c) [] (a_send c) (a_recv c ++ [mkEntry slot task kind])) = slots_of c ++ [slot]).
  { rewrite Hsl. unfold slots_of. destruct b, Hmode as [E ?]; simpl; rewrite ?E, ?slots_app; [apply app_nil_r|done]. }
  apply (arena_update a s i c); rewrite ?Hsl'; try done; [by destruct b| | | |].
  - intros x Hx Hxc Hxn. apply not_elem_of_app in Hxn as [_ Hxn]. apply Hf; [done|set_solver|by rewrite <- Hsl].
  - intros x [Hx|Hx]%elem_of_app; [by left|right]. apply list_elem_of_singleton in Hx as ->. done.
  - intros x w Hx Hxn. apply not_elem_of_app in Hxn as [Hxn _]. done.
  - destruct b, Hmode as [E1 E2]; rewrite ?E1, ?E2 in *; split; simpl; try done; try lia; by eapply empty_queue.
Qed.

Lemma drain_ok v buf : a_buf c = v :: buf -> a_send c = [] ->
  arena_ok (put i (set_ring ((head ch + 1) mod capacity ch) (len ch - 1) ch) (values a) (waiters a) a)
    (with_chan i (mkAchan (a_cap c) buf [] (a_recv c)) s).
Proof.
  intros Hb Hs. destruct K as [K1 K2 K3 K4 K5 K6 K7 K8]. rewrite Hb in *.
  destruct (ring_pop_ok _ _ _ _ _ _ K4) as [_ Hr]. rewrite Hs in *.
  assert (Hrecv : a_recv c = []) by (destruct (a_recv c); [done|by destruct K7]).
  assert (Hsl : slots_of c = []) by (unfold slots_of; rewrite Hs, Hrecv; done).
  rewrite Hrecv in *. apply (arena_update a s i c); try done.
  - intros x Hx. by apply elem_of_nil in Hx.
  - intros x w Hx. rewrite Hsl in Hx. by apply elem_of_nil in Hx.
  - split; simpl; try done; [unfold size in *; simpl in *; lia|by rewrite K2].
Qed.

Lemma refill_ok v buf e q v' r : a_buf c = v :: buf -> a_send c = e :: q -> e_kind e = WSend v' r ->
  let a1 := put i (set_ring ((head ch + 1) mod capacity ch) (len ch - 1) ch) (values a) (waiters a) a in
  exists w a2 a', pop_waiter (Z.of_nat i) true a1 = (Ok w, a2) /\ w_task w = Some (e_task e) /\ w_kind w = e_kind e /\
    ring_push (Z.of_nat i) v' a2 = (Ok tt, a') /\
    arena_ok a' (with_chan i (mkAchan (a_cap c) (buf ++ [v']) q (a_recv c)) s).
Proof.
  intros Hb Hs Hke a1. pose proof (lookup_lt_Some _ _ _ Hch) as Hlt.
  destruct K as [K1 K2 K3 K4 K5 K6 K7 K8]. rewrite Hb in *.
  assert (Hfull : size (v :: buf) = a_cap c) by (apply K8; by rewrite Hs).
  destruct (ring_pop_ok _ _ _ _ _ _ K4) as [_ Hr]. rewrite Hs in *.
  assert (Hrecv : a_recv c = []) by (destruct (a_recv c); [done|by destruct K7]).
  set (ch1 := set_ring ((head ch + 1) mod capacity ch) (len ch - 1) ch) in *.
  destruct (pop_run a1 i true ch1 e q ltac:(by apply list_lookup_insert_eq) waiters_bound K5)
    as (w & h & t & Hrun & Ht & Hk & Hq).
  set (a2 := put i (set_ends true h t ch1) _ _ a1) in *.
  assert (Hsb : size buf = a_cap c - 1) by (unfold size in *; simpl in *; lia).
  destruct (ring_push_run a2 i (set_ends true h t ch1) (start_of (s_chans s) i) buf v') as (vs & Hrun' & Hsz & Hr' & Hf).
  { apply list_lookup_insert_eq. simpl. by rewrite length_insert. } { done. }
  { simpl. unfold size in *. simpl in *. lia. } { simpl. lia. } { simpl. by rewrite K2. }
  exists w, a2. eexists. split_and!; try done.
  assert (Hfold : put i (set_ring (head (set_ends true h t ch1)) (len (set_ends true h t ch1) + 1) (set_ends true h t ch1))
    vs (waiters a2) a2 = put i (set_ring (head ch1) (len ch1 + 1) (set_ends true h t ch1)) vs
      (zset (e_slot e) Waiter_EMPTY (waiters a)) a).
  { unfold a2, a1, put. simpl. by rewrite !list_insert_insert_eq. }
  rewrite Hfold. pose proof (q_nodup _ _ _ _ _ K5) as Hn. apply NoDup_cons in Hn as [Hn _].
  assert (He : 0 <= e_slot e) by (eapply chain_slot; [apply K5|by left]).
  assert (Hsl : slots_of c = e_slot e :: slots q) by (unfold slots_of; rewrite Hs, Hrecv; apply app_nil_r).
  assert (Hsl' : slots_of (mkAchan (a_cap c) (buf ++ [v']) q (a_recv c)) = slots q)
    by (unfold slots_of; simpl; rewrite Hrecv; apply app_nil_r).
  simpl in Hf, Hr'. rewrite K2 in Hf, Hr'.
  apply (arena_update a s i c); rewrite ?Hsl'; try done; [apply size_zset| | | |].
  - intros x Hx Hxc _. rewrite Hsl in Hxc. apply not_elem_of_cons in Hxc as [Hne _]. apply zget_zset_ne; lia.
  - intros x Hx. left. rewrite Hsl. by right.
  - intros x w' Hx Hx' Hw'. rewrite Hsl in Hx. apply elem_of_cons in Hx as [->|Hx]; [|done].
    destruct (chain_slot _ _ _ (e_slot e) (q_chain _ _ _ _ _ K5) ltac:(by left)) as (_ & w0 & Hw0 & _).
    erewrite zget_zset_eq in Hw' by done. by injection Hw' as <-.
  - rewrite Hrecv in *. split; simpl; try done; try (unfold size in *; rewrite length_app; simpl in *; lia);
      [by rewrite K2|by eapply empty_queue].
Qed.
End OneChannel.

Lemma send_ok a s h slot task v resume : arena_ok a s -> 0 <= slot ->
  exists a', send h slot task v resume a = ((spec_send h slot task v resume s).1, a') /\
    arena_ok a' (spec_send h slot task v resume s).2.
Proof.
  intros Hok H0. unfold send, spec_send.
  unfold mbind at 1, ST_bind at 1, st_read at 1. rewrite (channel_index_ok a s h Hok).
  destruct (lookup_handle h s) as [[i c]|] eqn:El; [|by exists a].
  apply lookup_handle_Some in El as [Hi _]. destruct (o_chan _ _ Hok i c Hi) as (ch & Hch & K).
  unfold mbind at 1, ST_bind at 1, st_read at 1. rewrite (chan_at_ok i ch a Hch).
  pose proof (waiters_bound a s Hok) as Hwb.
  pose proof (chain_head_none _ _ _ Hwb (q_chain _ _ _ _ _ (k_recv _ _ _ _ _ K))) as Hnone.
  destruct (a_recv c) as [|e q] eqn:Hr.
  - rewrite (proj2 (Z.eqb_eq _ _)) by (by apply Hnone). simpl. rewrite (k_len _ _ _ _ _ K), (k_cap _ _ _ _ _ K).
    destruct (Z.ltb_spec (size (a_buf c)) (a_cap c)) as [Hlt|Hge].
    + assert (Hs : a_send c = []).
      { destruct (a_send c) eqn:E; [done|]. pose proof (k_send_mode _ _ _ _ _ K ltac:(by rewrite E)). lia. }
      destruct (buffer_ok a s i c ch Hok Hi Hch K v Hr Hs Hlt) as (a' & Hrun & Hok').
      exists a'. rewrite (st_bind_ok _ _ _ _ _ Hrun), Hs. done.
    + assert (Hfull : size (a_buf c) = a_cap c) by (pose proof (r_len _ _ _ _ _ (k_ring _ _ _ _ _ K)); lia).
      destruct (may_wait slot s) eqn:Hm.
      * destruct (wait_ok a s i c ch Hok Hi Hch K true slot task (WSend v resume) H0 Hm eq_refl (conj Hr Hfull))
          as (a' & Hrun & Hok'). exists a'. rewrite Hrun. done.
      * exists a. rewrite (st_bind_err _ _ _ _ _ (may_wait_false slot task (WSend v resume) a s Hok H0 Hm)). done.
  - rewrite (proj2 (Z.eqb_neq _ _)) by (intros E; by apply Hnone in E). simpl.
    destruct (wake_receiver_ok a s i c ch Hok Hi Hch K e q Hr) as (w & h' & t & Hrun & Ht & Hk & Hrc & Hok').
    rewrite (st_bind_ok _ _ _ _ _ Hrun), Hk. destruct (e_kind e) as [| |d r]; try done.
    eexists. split; [|exact Hok']. unfold mbind, ST_bind, st_lift. by rewrite Ht.
Qed.

Lemma receive_ok a s h slot task dest resume : arena_ok a s -> 0 <= slot ->
  exists a', receive h slot task dest resume a = ((spec_receive h slot task dest resume s).1, a') /\
    arena_ok a' (spec_receive h slot task dest resume s).2.
Proof.
  intros Hok H0. unfold receive, spec_receive.
  unfold mbind at 1, ST_bind at 1, st_read at 1. rewrite (channel_index_ok a s h Hok).
  destruct (lookup_handle h s) as [[i c]|] eqn:El; [|by exists a].
  apply lookup_handle_Some in El as [Hi _]. destruct (o_chan _ _ Hok i c Hi) as (ch & Hch & K).
  unfold mbind at 1, ST_bind at 1, st_read at 1. rewrite (chan_at_ok i ch a Hch).
  pose proof (waiters_bound a s Hok) as Hwb. rewrite (k_len _ _ _ _ _ K).
  pose proof (chain_head_none _ _ _ Hwb (q_chain _ _ _ _ _ (k_send _ _ _ _ _ K))) as Hnone.
  destruct (a_buf c) as [|v buf] eqn:Hb.
  - simpl. assert (Hs : a_send c = []).
    { destruct (a_send c) eqn:E; [done|]. pose proof (k_send_mode _ _ _ _ _ K ltac:(by rewrite E)) as Hf.
      pose proof (r_cap _ _ _ _ _ (k_ring _ _ _ _ _ K)). rewrite Hb in Hf. unfold size in Hf. simpl in Hf. lia. }
    destruct (may_wait slot s) eqn:Hm.
    + destruct (wait_ok a s i c ch Hok Hi Hch K false slot task (WReceive dest resume) H0 Hm eq_refl (conj Hs Hb))
        as (a' & Hrun & Hok'). exists a'. rewrite Hrun. done.
    + exists a. rewrite (st_bind_err _ _ _ _ _ (may_wait_false slot task (WReceive dest resume) a s Hok H0 Hm)). done.
  - pose proof (k_ring _ _ _ _ _ K) as Hring. rewrite Hb in Hring. destruct (ring_pop_ok _ _ _ _ _ _ Hring) as [Hv _].
    pose proof (r_cap _ _ _ _ _ Hring) as Hcap. rewrite <- (k_start _ _ _ _ _ K) in Hv.
    rewrite (proj2 (Z.eqb_neq (size (v :: buf)) 0)) by (unfold size; simpl; lia). simpl.
    unfold mbind at 1 2, ST_bind at 1 2. simpl. rewrite Hv. simpl.
    rewrite (proj2 (Z.eqb_neq (capacity ch) 0)) by (rewrite (k_cap _ _ _ _ _ K); lia).
    set (a1 := put i (set_ring ((head ch + 1) mod capacity ch) (len ch - 1) ch) (values a) (waiters a) a).
    assert (Hput : put_chan (Z.of_nat i) (set_ring ((head ch + 1) mod capacity ch) (size (v :: buf) - 1) ch) a = (Ok tt, a1)).
    { unfold put_chan, st_modify, set_channels, a1, put. rewrite zset_nat. do 4 f_equal. rewrite (k_len _ _ _ _ _ K), Hb. done. }
    rewrite (st_bind_ok _ _ _ _ _ Hput). destruct (a_send c) as [|e q] eqn:Hs.
    + rewrite (proj2 (Z.eqb_eq _ _)) by (by apply Hnone). exists a1. split; [done|]. by eapply drain_ok.
    + rewrite (proj2 (Z.eqb_neq _ _)) by (intros E; by apply Hnone in E).
      pose proof (q_kind _ _ _ _ _ (k_send _ _ _ _ _ K)) as Hks. rewrite Hs in Hks. apply Forall_cons in Hks as [Hke _].
      destruct (e_kind e) as [|v' r|] eqn:Hkind; try done.
      destruct (refill_ok a s i c ch Hok Hi Hch K v buf e q v' r Hb Hs Hkind) as (w & a2 & a' & Hp & Ht & Hk & Hrp & Hok').
      exists a'. split; [|exact Hok']. fold a1 in Hp. rewrite Hkind in Hk. unfold mbind, ST_bind. rewrite Hp, Hk, Hrp.
      unfold st_lift. rewrite Ht. done.
Qed.

(** ** Runs *)

Inductive cop :=
| CCreate (cap : Z)
| CSend (h slot : Z) (task : TaskId) (value resume : Z)
| CReceive (h slot : Z) (task : TaskId) (dest resume : Z).

Inductive cres := RHandle (h : Z) | RSend (r : SendResult) | RReceive (r : ReceiveResult).

Definition run_cop (o : cop) : ChanM cres :=
  match o with
  | CCreate cap => h ← create cap; mret (RHandle h)
  | CSend h slot task v resume => r ← send h slot task v resume; mret (RSend r)
  | CReceive h slot task d resume => r ← receive h slot task d resume; mret (RReceive r)
  end.

Definition spec_cop (o : cop) (s : spec) : outcome ChannelError cres * spec :=
  match o with
  | CCreate cap => let '(r, s') := spec_create cap s in (RHandle <$> r, s')
  | CSend h slot task v resume => let '(r, s') := spec_send h slot task v resume s in (RSend <$> r, s')
  | CReceive h slot task d resume => let '(r, s') := spec_receive h slot task d resume s in (RReceive <$> r, s')
  end.

(** The ranges the argument types impose. *)
Definition cop_typed (o : cop) : bool :=
  match o with
  | CCreate cap => in_range i32_min i32_max cap
  | CSend _ slot _ _ _ | CReceive _ slot _ _ _ => 0 <=? slot
  end.

Fixpoint run_trace (ops : list cop) (a : ChannelArena) : list (outcome ChannelError cres) * ChannelArena :=
  match ops with
  | [] => ([], a)
  | o :: ops => let '(r, a1) := run_cop o a in let '(rs, a2) := run_trace ops a1 in (r :: rs, a2)
  end.

Fixpoint spec_trace (ops : list cop) (s : spec) : list (outcome ChannelError cres) * spec :=
  match ops with
  | [] => ([], s)
  | o :: ops => let '(r, s1) := spec_cop o s in let '(rs, s2) := spec_trace ops s1 in (r :: rs, s2)
  end.

Lemma cop_ok o a s : arena_ok a s -> cop_typed o = true ->
  exists a', run_cop o a = ((spec_cop o s).1, a') /\ arena_ok a' (spec_cop o s).2.
Proof.
  intros Hok Ht. destruct o as [cap|h slot task v resume|h slot task d resume]; simpl in *.
  - unfold in_range in Ht. bsimp. destruct (create_ok a s cap Hok) as (a' & Hrun & Hok').
    { unfold i32_max, usize_max in *. lia. }
    exists a'. unfold mbind, ST_bind. rewrite Hrun. by destruct (spec_create cap s) as [[| |] s'].
  - apply Z.leb_le in Ht. destruct (send_ok a s h slot task v resume Hok Ht) as (a' & Hrun & Hok').
    exists a'. unfold mbind, ST_bind. rewrite Hrun. by destruct (spec_send h slot task v resume s) as [[| |] s'].
  - apply Z.leb_le in Ht. destruct (receive_ok a s h slot task d resume Hok Ht) as (a' & Hrun & Hok').
    exists a'. unfold mbind, ST_bind. rewrite Hrun. by destruct (spec_receive h slot task d resume s) as [[| |] s'].
Qed.

Lemma trace_ok ops a s : arena_ok a s -> forallb cop_typed ops = true ->
  exists a', run_trace ops a = ((spec_trace ops s).1, a') /\ arena_ok a' (spec_trace ops s).2.
Proof.
  revert a s. induction ops as [|o ops IH]; intros a s Hok Ht; simpl in *; [by exists a|].
  apply andb_true_iff in Ht as [Ho Ht]. destruct (cop_ok o a s Hok Ho) as (a1 & Hrun & Hok1). rewrite Hrun.
  destruct (spec_cop o s) as [r s1]. simpl in *. destruct (IH a1 s1 Hok1 Ht) as (a2 & Hrun2 & Hok2). rewrite Hrun2.
  destruct (spec_trace ops s1) as [rs s2]. by exists a2.
Qed.

Definition sizes_typed (nc nv nt : Z) : Prop := 0 <= nc <= usize_max /\ 0 <= nv <= usize_max /\ 0 <= nt <= usize_max.

Definition initial (nc nv nt : Z) : spec := mkSpec nc nv (if nc =? 0 then 0 else nt) [].

Lemma arena_new_ok nc nv nt : sizes_typed nc nv nt -> exists a, new nc nv nt = Ok a /\ arena_ok a (initial nc nv nt).
Proof.
  intros (Hc & Hv & Ht). eexists. split; [done|].
  split; simpl; unfold size; rewrite ?length_replicate; simpl; try done; try lia.
  - destruct (_ =? _); lia.
  - unfold NONE. destruct (_ =? _); lia.
  - intros x w Hx Hw _. apply lookup_replicate in Hw as [-> _]. done.
Qed.

(** A run from a fresh arena. *)
Definition runs (nc nv nt : Z) (ops : list cop) (rs : list (outcome ChannelError cres)) (a' : ChannelArena) : Prop :=
  exists a, new nc nv nt = Ok a /\ run_trace ops a = (rs, a').

Lemma runs_ok nc nv nt ops rs a' : sizes_typed nc nv nt -> forallb cop_typed ops = true ->
  runs nc nv nt ops rs a' -> rs = (spec_trace ops (initial nc nv nt)).1 /\
    arena_ok a' (spec_trace ops (initial nc nv nt)).2.
Proof.
  intros Hs Ht (a & Hn & Hrun). destruct (arena_new_ok nc nv nt Hs) as (a0 & Hn0 & Hok). rewrite Hn in Hn0.
  injection Hn0 as <-. destruct (trace_ok ops a _ Hok Ht) as (a1 & Hrun1 & Hok1). rewrite Hrun in Hrun1.
  by injection Hrun1 as -> ->.
Qed.

(** ** The values of a channel, from the history of a run *)

Definition accepted (h : Z) (e : cop * outcome ChannelError cres) : list Z :=
  match e with
  | (CSend h' _ _ v _, Ok (RSend _)) => if h' =? h then [v] else []
  | _ => []
  end.

Definition delivered (h : Z) (e : cop * outcome ChannelError cres) : list Z :=
  match e with
  | (CSend h' _ _ v _, Ok (RSend (WakeReceiver _ _ _))) => if h' =? h then [v] else []
  | (CReceive h' _ _ _ _, Ok (RReceive (RValue v _))) => if h' =? h then [v] else []
  | _ => []
  end.

Definition value_of (e : entry) : Z := match e_kind e with WSend v _ => v | _ => 0 end.
Definition pending (c : achan) : list Z := a_buf c ++ (value_of <$> a_send c).
Definition held (h : Z) (s : spec) : list Z :=
  match lookup_handle h s with Some (_, c) => pending c | None => [] end.

Lemma held_with h h' i c c' s : lookup_handle h s = Some (i, c) ->
  held h' (with_chan i c' s) = if h =? h' then pending c' else held h' s.
Proof.
  intros Hl. unfold held, lookup_handle in *. simpl. unfold size in *. rewrite length_insert.
  destruct (_ && _) eqn:E in Hl; [|done]. bsimp. apply bind_Some in Hl as (c0 & Hc & [= <- <-]).
  destruct (Z.eqb_spec h h') as [->|Hne].
  - rewrite (proj2 (Z.leb_le 1 h')), (proj2 (Z.leb_le h' _)) by lia. simpl.
    rewrite list_lookup_insert_eq by (by eapply lookup_lt_Some). done.
  - destruct ((1 <=? h') && _) eqn:E'; [|done]. bsimp. rewrite list_lookup_insert_ne by lia. done.
Qed.

Lemma held_step a s o h : arena_ok a s -> let '(r, s') := spec_cop o s in
  held h s ++ accepted h (o, r) = delivered h (o, r) ++ held h s'.
Proof.
  intros Hok. destruct o as [cap|h' slot task v resume|h' slot task d resume]; simpl.
  - unfold spec_create. destruct (cap <? 0); [apply app_nil_r|]. destruct (_ || _); [apply app_nil_r|].
    rewrite app_nil_r. unfold held, lookup_handle. simpl. unfold size. rewrite length_app. simpl.
    destruct (Z.leb_spec 1 h); simpl; [|done].
    destruct (Z.leb_spec h (Z.of_nat (length (s_chans s)))); simpl.
    + rewrite (proj2 (Z.leb_le _ _)) by lia. by rewrite lookup_app_l by lia.
    + destruct (_ <=? _) eqn:E; [|done]. bsimp. rewrite lookup_app_r by lia.
      replace (Z.to_nat (h - 1) - length (s_chans s))%nat with 0%nat by lia. done.
  - unfold spec_send. destruct (lookup_handle h' s) as [[i c]|] eqn:El; [|apply app_nil_r].
    assert (Hl := El). apply lookup_handle_Some in Hl as [Hi _]. destruct (o_chan _ _ Hok i c Hi) as (ch & _ & K).
    destruct (a_recv c) as [|e q] eqn:Hr.
    + destruct (Z.ltb_spec (size (a_buf c)) (a_cap c)); [|destruct (may_wait slot s); [|apply app_nil_r]];
        simpl; rewrite (held_with h' h i c _ s El); destruct (Z.eqb_spec h' h) as [->|]; try apply app_nil_r;
        unfold held, pending; rewrite El; simpl.
      * assert (Hs : a_send c = []).
        { destruct (a_send c) eqn:E; [done|]. pose proof (k_send_mode _ _ _ _ _ K ltac:(by rewrite E)). lia. }
        rewrite Hs. simpl. by rewrite !app_nil_r.
      * by rewrite fmap_app, app_assoc.
    + destruct (k_recv_mode _ _ _ _ _ K ltac:(by rewrite Hr)) as [Hb Hs].
      destruct (e_kind e) as [| |d r]; try apply app_nil_r. simpl. rewrite (held_with h' h i c _ s El).
      destruct (Z.eqb_spec h' h) as [->|]; [|apply app_nil_r]. unfold held, pending. rewrite El. simpl.
      by rewrite Hb, Hs.
  - unfold spec_receive. destruct (lookup_handle h' s) as [[i c]|] eqn:El; [|apply app_nil_r].
    destruct (a_buf c) as [|v buf] eqn:Hb.
    + destruct (may_wait slot s); [|apply app_nil_r]. simpl. rewrite (held_with h' h i c _ s El), app_nil_r.
      destruct (Z.eqb_spec h' h) as [->|]; [|done]. unfold held, pending. rewrite El, Hb. done.
    + destruct (a_send c) as [|e q] eqn:Hs.
      * simpl. rewrite (held_with h' h i c _ s El), app_nil_r.
        destruct (Z.eqb_spec h' h) as [->|]; [|done]. unfold held, pending. rewrite El, Hb, Hs. done.
      * destruct (e_kind e) as [|v' r|] eqn:Hk; try apply app_nil_r. simpl.
        rewrite (held_with h' h i c _ s El), app_nil_r. destruct (Z.eqb_spec h' h) as [->|]; [|done].
        unfold held, pending. rewrite El, Hb, Hs. simpl. unfold value_of at 1. rewrite Hk.
        by rewrite <- app_assoc.
Qed.

Lemma held_trace ops a s h : arena_ok a s -> forallb cop_typed ops = true ->
  held h s ++ (zip ops (spec_trace ops s).1 ≫= accepted h) =
  (zip ops (spec_trace ops s).1 ≫= delivered h) ++ held h (spec_trace ops s).2.
Proof.
  revert a s. induction ops as [|o ops IH]; intros a s Hok Ht; simpl in *; [apply app_nil_r|].
  apply andb_true_iff in Ht as [Ho Ht]. pose proof (held_step a s o h Hok) as Hstep.
  destruct (cop_ok o a s Hok Ho) as (a1 & _ & Hok1). destruct (spec_cop o s) as [r s1]. simpl in *.
  specialize (IH a1 s1 Hok1 Ht). destruct (spec_trace ops s1) as [rs s2]. simpl in *.
  rewrite app_assoc, Hstep, <- !app_assoc. f_equal. exact IH.
Qed.

(** ** Properties *)

(** C20. Any sequence of create, send and receive calls on a fresh arena returns
    exactly what the abstract table of bounded queues returns, call by call, and
    leaves an arena that represents the abstract state; no call panics. *)
Theorem channel_refinement (nc nv nt : Z) (ops : list cop) :
  sizes_typed nc nv nt -> forallb cop_typed ops = true ->
  exists a a', new nc nv nt = Ok a /\
    run_trace ops a = ((spec_trace ops (initial nc nv nt)).1, a') /\
    arena_ok a' (spec_trace ops (initial nc nv nt)).2 /\
    ~ (Panic ∈ (run_trace ops a).1).
Proof.
  intros Hs Ht. destruct (arena_new_ok nc nv nt Hs) as (a & Hn & Hok).
  destruct (trace_ok ops a _ Hok Ht) as (a' & Hrun & Hok'). exists a, a'. split_and!; try done.
  rewrite Hrun. simpl. clear. generalize (initial nc nv nt). induction ops as [|o ops IH]; intros s; simpl; [by intros ?%elem_of_nil|].
  destruct (spec_cop o s) as [r s1] eqn:E. pose proof (IH s1) as IH1. destruct (spec_trace ops s1) as [rs s2]. simpl in *.
  intros [Er|Hin]%elem_of_cons; [|done]. subst r.
  assert (Hnp : (spec_cop o s).1 <> Panic); [|by rewrite E in Hnp]. clear. destruct o; simpl.
  - unfold spec_create. destruct (_ <? _); [done|]. destruct (_ || _); [done|]. by destruct (_ <? _).
  - unfold spec_send. destruct (lookup_handle _ _) as [[i c]|]; [|done]. destruct (a_recv c) as [|e q].
    + destruct (_ <? _); [done|]. by destruct (may_wait _ _).
    + by destruct (e_kind e).
  - unfold spec_receive. destruct (lookup_handle _ _) as [[i c]|]; [|done]. destruct (a_buf c), (a_send c) as [|e q];
      try (by destruct (may_wait _ _)); [done|]. by destruct (e_kind e).
Qed.

Definition demo_ops : list cop :=
  [CCreate 2; CSend 1 0 1 11 7; CSend 1 1 2 22 8; CSend 1 2 3 33 9; CReceive 1 0 1 0 10; CReceive 1 0 1 0 10].

Lemma channel_refinement_witness :
  exists a a', new 1 2 3 = Ok a /\
    run_trace demo_ops a = ([Ok (RHandle 1); Ok (RSend Complete); Ok (RSend Complete); Ok (RSend SendSuspend);
      Ok (RReceive (RValue 11 (Some (3, 9)))); Ok (RReceive (RValue 22 None))], a').
Proof.
  destruct (channel_refinement 1 2 3 demo_ops) as (a & a' & Hn & Hrun & _).
  - vm_compute. repeat split; discriminate.
  - vm_compute. reflexivity.
  - exists a, a'. split; [exact Hn|]. rewrite Hrun. vm_compute. reflexivity.
Defined.

(** C21. A channel loses, duplicates and reorders nothing: after any run from a
    fresh arena, the values accepted by sends on a handle, in order, are the
    values delivered to receivers, in order, followed by what the channel still
    holds in its buffer and then in its waiting senders. *)
Theorem channel_fifo (nc nv nt : Z) (ops : list cop) rs (a' : ChannelArena) (h : Z) :
  sizes_typed nc nv nt -> forallb cop_typed ops = true -> runs nc nv nt ops rs a' ->
  exists s, arena_ok a' s /\
    (zip ops rs ≫= accepted h) = (zip ops rs ≫= delivered h) ++ held h s.
Proof.
  intros Hs Ht Hr. destruct (runs_ok _ _ _ _ _ _ Hs Ht Hr) as [-> Hok]. eexists. split; [exact Hok|].
  destruct (arena_new_ok nc nv nt Hs) as (a0 & _ & Hok0). pose proof (held_trace ops a0 _ h Hok0 Ht) as H.
  rewrite <- H. unfold held at 1, lookup_handle. simpl. destruct (Z.leb_spec 1 h), (Z.leb_spec h (size (A:=achan) [])); try done.
Qed.

Definition demo_arena : ChannelArena := mkArena [Channel_EMPTY] [0; 0] (replicate 3 Waiter_EMPTY) 0 0.
Definition demo_run (ops : list cop) := run_trace ops demo_arena.

Lemma demo_runs ops : runs 1 2 3 ops (demo_run ops).1 (demo_run ops).2.
Proof. exists demo_arena. split; [done|]. apply surjective_pairing. Qed.

Lemma channel_fifo_witness : exists s, arena_ok (demo_run demo_ops).2 s /\
  [11; 22; 33] = [11; 22] ++ held 1 s.
Proof.
  destruct (channel_fifo 1 2 3 demo_ops _ _ 1 ltac:(vm_compute; repeat split; discriminate) eq_refl (demo_runs demo_ops))
    as (s & Hok & H).
  exists s. split; [exact Hok|]. refine (eq_trans _ H). vm_compute. reflexivity.
Defined.

(** Nobody waits who could proceed: in the arena after any run, a channel with
    a waiting receiver is empty and has no waiting sender, and a channel with a
    waiting sender is full. *)
Theorem channel_no_lost_wakeup (nc nv nt : Z) (ops : list cop) rs (a' : ChannelArena) (i : nat) (ch : Channel) :
  sizes_typed nc nv nt -> forallb cop_typed ops = true -> runs nc nv nt ops rs a' ->
  Z.of_nat i < channel_count a' -> channels a' !! i = Some ch ->
  (receive_head ch <> NONE -> len ch = 0 /\ send_head ch = NONE) /\
  (send_head ch <> NONE -> len ch = capacity ch /\ receive_head ch = NONE).
Proof.
  intros Hs Ht Hr Hi Hch. destruct (runs_ok _ _ _ _ _ _ Hs Ht Hr) as [_ Hok]. set (s := (spec_trace _ _).2) in *.
  rewrite (o_count _ _ Hok) in Hi. destruct (lookup_lt_is_Some_2 (s_chans s) i) as [c Hc]; [unfold size in Hi; lia|].
  destruct (o_chan _ _ Hok i c Hc) as (ch' & Hch' & K). rewrite Hch in Hch'. injection Hch' as <-.
  pose proof (waiters_bound a' s Hok) as Hwb. destruct K as [K1 K2 K3 K4 K5 K6 K7 K8].
  pose proof (chain_head_none _ _ _ Hwb (q_chain _ _ _ _ _ K5)) as Hsn.
  pose proof (chain_head_none _ _ _ Hwb (q_chain _ _ _ _ _ K6)) as Hrn.
  rewrite Hsn, Hrn, K2, K3. split.
  - intros Hne. destruct (K7 Hne) as [-> ?]. done.
  - intros Hne. split; [by apply K8|]. destruct (a_recv c) eqn:E; [done|]. by destruct (K7 ltac:(done)) as [_ ?].
Qed.

Definition demo_chan : Channel := mkChannel 0 2 0 2 2 2 NONE NONE.

Lemma channel_no_lost_wakeup_witness : len demo_chan = capacity demo_chan /\ receive_head demo_chan = NONE.
Proof.
  refine (proj2 (channel_no_lost_wakeup 1 2 3 (take 4 demo_ops) _ _ 0%nat demo_chan _ _ (demo_runs (take 4 demo_ops)) _ _) _).
  - vm_compute; repeat split; discriminate.
  - vm_compute. reflexivity.
  - vm_compute. reflexivity.
  - vm_compute. reflexivity.
  - vm_compute. discriminate.
Defined.

(** The admission-time estimate of an arena's resident size is exact: when it
    does not overflow, it is the size the constructed arena reports. *)
Theorem resident_bytes_exact (sc sw nc nv nt n : Z) (a : ChannelArena) :
  sizes_typed nc nv nt -> resident_bytes sc sw nc nv nt = Some n -> new nc nv nt = Ok a ->
  reserved_bytes sc sw a = Ok n.
Proof.
  intros (Hc & Hv & Ht) Hr [= <-]. unfold resident_bytes in Hr. set (t := if nc =? 0 then 0 else nt) in *.
  destruct (checked_mul _ _ nc) as [x|] eqn:E1; [|done]. destruct (checked_mul _ _ nv) as [y|] eqn:E2; [|done].
  destruct (checked_mul _ _ t) as [z|] eqn:E3; [|done]. apply bind_Some in Hr as (xy & E4 & E5). bsimp.
  assert (0 <= t) by (unfold t; destruct (_ =? _); lia).
  unfold reserved_bytes, size. simpl. rewrite !length_replicate, !Z2Nat.id by lia.
  assert (En : nc * sc + nv * 4 + t * sw = n) by lia. rewrite En.
  rewrite (proj2 (Z.leb_le _ _)); [done|]. unfold usize_max, u64_max in *. lia.
Qed.

Lemma resident_bytes_exact_witness : exists a, new 1 2 3 = Ok a /\ reserved_bytes 64 32 a = Ok 168.
Proof.
  eexists. split; [reflexivity|].
  apply (resident_bytes_exact 64 32 1 2 3 168); [vm_compute; repeat split; discriminate|reflexivity|reflexivity].
Defined.

End ChannelProps.
