(* ===== verification/Requests.v ===== *)
(** src/execution/requests.rs: the table of host requests a session has issued
    and not yet answered, and the reduction of a batch of mergeable requests to
    one effective set of writes. *)

From S2P Require Import Prelude.

Module Requests.

Abbreviation TaskId := Z (only parsing).
Abbreviation RequestId := Z (only parsing).

Record HostRequestIdentity := mkIdentity { task : TaskId; request : RequestId }.
#[global] Instance HostRequestIdentity_eq : EqDecision HostRequestIdentity.
Proof. solve_decision. Defined.

(** [HostMergeGroup(u32)]. *)
Abbreviation HostMergeGroup := Z (only parsing).

Record HostMergeEntry := mkMerge { key : Z; value : Z }.
#[global] Instance HostMergeEntry_eq : EqDecision HostMergeEntry.
Proof. solve_decision. Defined.

(** [HostValueSlot] of src/execution/host.rs. *)
Inductive HostValueSlot :=
| Empty | I32 (v : Z) | I64 (v : Z) | F32 (bits : Z) | F64 (bits : Z) | SBool (b : bool) | Char (unit : Z)
| SString (start length : Z) | ByteArray (start length : Z).

Definition MAXIMUM_HOST_BYTE_ARRAY_BYTES : Z := 4096.

Inductive HostRequestMerge :=
| Ordinary
| LastWriteWins (group : HostMergeGroup) (entries : list HostMergeEntry).

Record PendingHostRequest := mkRequest {
  identity : HostRequestIdentity;
  capability : Z;
  operation : Z;
  arguments : list HostValueSlot;
  utf16 : list Z;
  bytes : list Z;
  merge : HostRequestMerge }.

Definition ordinary (identity : HostRequestIdentity) (capability operation : Z)
    (arguments : list HostValueSlot) (utf16 : list Z) : PendingHostRequest :=
  mkRequest identity capability operation arguments utf16 [] Ordinary.

Definition last_write_wins (identity : HostRequestIdentity) (capability operation : Z)
    (group : HostMergeGroup) (entries : list HostMergeEntry)
    (arguments : list HostValueSlot) (utf16 : list Z) : PendingHostRequest :=
  mkRequest identity capability operation arguments utf16 [] (LastWriteWins group entries).

Definition with_bytes (b : list Z) (r : PendingHostRequest) : PendingHostRequest :=
  mkRequest (identity r) (capability r) (operation r) (arguments r) (utf16 r) b (merge r).

Definition with_merge_group (g : HostMergeGroup) (r : PendingHostRequest) : PendingHostRequest :=
  mkRequest (identity r) (capability r) (operation r) (arguments r) (utf16 r) (bytes r)
    (match merge r with
     | LastWriteWins _ entries => LastWriteWins g entries
     | Ordinary => Ordinary
     end).

Definition size {A} (l : list A) : Z := Z.of_nat (length l).

Definition merge_entry_count (r : PendingHostRequest) : Z :=
  match merge r with
  | Ordinary => 0
  | LastWriteWins _ entries => size entries
  end.

Record RequestTableLimits := mkLimits {
  maximum_requests : Z;
  maximum_arguments_per_request : Z;
  maximum_total_arguments : Z;
  maximum_utf16_per_request : Z;
  maximum_total_utf16 : Z;
  maximum_merge_entries_per_request : Z;
  maximum_total_merge_entries : Z }.

Inductive RequestTableError :=
| DuplicateIdentity | UnknownIdentity | RequestLimit | ArgumentsPerRequestLimit | TotalArgumentsLimit
| Utf16PerRequestLimit | ByteArrayPerRequestLimit | TotalUtf16Limit | MergeEntriesPerRequestLimit
| TotalMergeEntriesLimit | NotMergeable | IncompatibleMergeGroup | EffectiveMergeEntryLimit.

Record PendingRequestTable := mkTable {
  limits : RequestTableLimits;
  requests : list PendingHostRequest;
  total_arguments : Z;
  total_utf16 : Z;
  total_merge_entries : Z }.

Abbreviation TableM := (ST PendingRequestTable RequestTableError).

Definition new (limits : RequestTableLimits) : PendingRequestTable := mkTable limits [] 0 0 0.

Definition is_empty (t : PendingRequestTable) : bool := bool_decide (requests t = []).

Definition clear (t : PendingRequestTable) : PendingRequestTable := mkTable (limits t) [] 0 0 0.

Definition get (i : HostRequestIdentity) (t : PendingRequestTable) : option PendingHostRequest :=
  snd <$> list_find (fun r => identity r = i) (requests t).

Definition insert (r : PendingHostRequest) : TableM unit :=
  t ← st_get;
  if existsb (fun pending => bool_decide (identity pending = identity r)) (requests t)
  then st_err DuplicateIdentity
  else if maximum_requests (limits t) <=? size (requests t) then st_err RequestLimit
  else if maximum_arguments_per_request (limits t) <? size (arguments r) then st_err ArgumentsPerRequestLimit
  else
    ta ← st_lift (ok_or (checked_add usize_max (total_arguments t) (size (arguments r))) TotalArgumentsLimit);
    if maximum_total_arguments (limits t) <? ta then st_err TotalArgumentsLimit
    else if MAXIMUM_HOST_BYTE_ARRAY_BYTES <? size (bytes r) then st_err ByteArrayPerRequestLimit
    else if maximum_utf16_per_request (limits t) <? size (utf16 r) then st_err Utf16PerRequestLimit
    else
      tu ← st_lift (ok_or (checked_add usize_max (total_utf16 t) (size (utf16 r))) TotalUtf16Limit);
      if maximum_total_utf16 (limits t) <? tu then st_err TotalUtf16Limit
      else
        let merge_entries := merge_entry_count r in
        if maximum_merge_entries_per_request (limits t) <? merge_entries then st_err MergeEntriesPerRequestLimit
        else
          tm ← st_lift (ok_or (checked_add usize_max (total_merge_entries t) merge_entries) TotalMergeEntriesLimit);
          if maximum_total_merge_entries (limits t) <? tm then st_err TotalMergeEntriesLimit
          else st_put (mkTable (limits t) (requests t ++ [r]) ta tu tm).

(** Plain subtraction: below zero it is a panic. *)
Definition remove_totals (r : PendingHostRequest) : TableM unit := fun t =>
  let ta := total_arguments t - size (arguments r) in
  let tu := total_utf16 t - size (utf16 r) in
  let tm := total_merge_entries t - merge_entry_count r in
  if (ta <? 0) || (tu <? 0) || (tm <? 0) then (Panic, t)
  else (Ok tt, mkTable (limits t) (requests t) ta tu tm).

(** [Vec::remove], for an index in range. *)
Definition remove_at (index : nat) : TableM PendingHostRequest := fun t =>
  match requests t !! index with
  | None => (Panic, t)
  | Some r => (Ok r, mkTable (limits t) (delete index (requests t)) (total_arguments t) (total_utf16 t)
                       (total_merge_entries t))
  end.

Definition take (i : HostRequestIdentity) : TableM PendingHostRequest :=
  t ← st_get;
  index ← st_lift (ok_or (position (fun r => identity r = i) (requests t)) UnknownIdentity);
  r ← remove_at (Z.to_nat index);
  _ ← remove_totals r;
  mret r.

(** The [while] loop: an iteration removes a request or advances the index, so
    the initial length bounds their number. *)
Fixpoint cancel_loop (fuel : nat) (tk : TaskId) (index : nat) (cancelled : list HostRequestIdentity)
    : TableM (list HostRequestIdentity) :=
  match fuel with
  | O => mret cancelled
  | S fuel =>
      t ← st_get;
      match requests t !! index with
      | None => mret cancelled
      | Some r0 =>
          if task (identity r0) =? tk then
            r ← remove_at index;
            _ ← remove_totals r;
            cancel_loop fuel tk index (cancelled ++ [identity r])
          else cancel_loop fuel tk (S index) cancelled
      end
  end.

Definition cancel_task (tk : TaskId) : TableM (list HostRequestIdentity) := fun t =>
  cancel_loop (length (requests t)) tk 0 [] t.

Record ReducedHostRequests := mkReduced {
  reduced_requests : list HostRequestIdentity;
  reduced_entries : list HostMergeEntry }.

(** One iteration of the inner [for]: replace the entry of the same key where it
    stands, or append. *)
Definition write_entry (maximum : Z) (entries : list HostMergeEntry) (e : HostMergeEntry)
    : outcome RequestTableError (list HostMergeEntry) :=
  match position (fun x => key x = key e) entries with
  | Some i => Ok (zset i e entries)
  | None => if maximum <=? size entries then Err EffectiveMergeEntryLimit else Ok (entries ++ [e])
  end.

Fixpoint write_entries (maximum : Z) (entries new : list HostMergeEntry)
    : outcome RequestTableError (list HostMergeEntry) :=
  match new with
  | [] => Ok entries
  | e :: new => entries ← write_entry maximum entries e; write_entries maximum entries new
  end.

Fixpoint reduce_loop (maximum : Z) (rs : list PendingHostRequest) (group : option HostMergeGroup)
    (identities : list HostRequestIdentity) (entries : list HostMergeEntry)
    : outcome RequestTableError (option HostMergeGroup * list HostRequestIdentity * list HostMergeEntry) :=
  match rs with
  | [] => Ok (group, identities, entries)
  | r :: rs =>
      match merge r with
      | Ordinary => Err NotMergeable
      | LastWriteWins request_group request_entries =>
          if (match group with Some g => negb (g =? request_group) | None => false end)
          then Err IncompatibleMergeGroup
          else
            entries ← write_entries maximum entries request_entries;
            reduce_loop maximum rs (Some request_group) (identities ++ [identity r]) entries
      end
  end.

Definition key_le (a b : HostMergeEntry) : Prop := key a <= key b.
#[global] Instance key_le_dec a b : Decision (key_le a b).
Proof. unfold key_le. apply _. Defined.

(** [sort_unstable_by_key]: the keys are distinct, so every sort gives one result. *)
Definition sort_by_key (l : list HostMergeEntry) : list HostMergeEntry := merge_sort key_le l.

Definition reduce_last_write_wins (rs : list PendingHostRequest) (maximum_effective_entries : Z)
    : outcome RequestTableError ReducedHostRequests :=
  '(group, identities, entries) ← reduce_loop maximum_effective_entries rs None [] [];
  match group with
  | None => Err NotMergeable
  | Some _ => Ok (mkReduced identities (sort_by_key entries))
  end.

End Requests.
