(* ===== verification/RequestsProps.v ===== *)
(** What src/execution/requests.rs guarantees: the request table keeps its
    accounting exact and its limits, a request is found and taken once, and
    reducing a mergeable batch keeps exactly the last write of every key. *)

From S2P Require Import Prelude Requests.

Module RequestsProps.
Import Requests.

(** ** Accounting *)

Definition total (f : PendingHostRequest -> Z) (rs : list PendingHostRequest) : Z :=
  foldr (fun r n => f r + n) 0 rs.

Definition argument_count (r : PendingHostRequest) : Z := size (arguments r).
Definition utf16_count (r : PendingHostRequest) : Z := size (utf16 r).

Lemma total_app f a b : total f (a ++ b) = total f a + total f b.
Proof. unfold total. induction a as [|r a IH]; simpl; [done|]. rewrite IH. lia. Qed.

Lemma total_nonneg f rs : (forall r, 0 <= f r) -> 0 <= total f rs.
Proof. intros Hf. unfold total. induction rs as [|r rs IH]; simpl; [done|]. pose proof (Hf r). lia. Qed.

Lemma argument_count_nonneg r : 0 <= argument_count r.
Proof. unfold argument_count, size. lia. Qed.
Lemma utf16_count_nonneg r : 0 <= utf16_count r.
Proof. unfold utf16_count, size. lia. Qed.
Lemma merge_entry_count_nonneg r : 0 <= merge_entry_count r.
Proof. unfold merge_entry_count, size. destruct (merge r); lia. Qed.

Definition request_fits (l : RequestTableLimits) (r : PendingHostRequest) : Prop :=
  argument_count r <= maximum_arguments_per_request l /\
  size (bytes r) <= MAXIMUM_HOST_BYTE_ARRAY_BYTES /\
  utf16_count r <= maximum_utf16_per_request l /\
  merge_entry_count r <= maximum_merge_entries_per_request l.

Record table_ok (t : PendingRequestTable) : Prop := {
  t_ids : NoDup (identity <$> requests t);
  t_count : size (requests t) <= maximum_requests (limits t);
  t_each : Forall (request_fits (limits t)) (requests t);
  t_arguments : total_arguments t = total argument_count (requests t) /\ total_arguments t <= maximum_total_arguments (limits t);
  t_utf16 : total_utf16 t = total utf16_count (requests t) /\ total_utf16 t <= maximum_total_utf16 (limits t);
  t_merge : total_merge_entries t = total merge_entry_count (requests t) /\ total_merge_entries t <= maximum_total_merge_entries (limits t) }.

Definition limits_typed (l : RequestTableLimits) : Prop :=
  0 <= maximum_requests l /\ 0 <= maximum_total_arguments l <= usize_max /\
  0 <= maximum_total_utf16 l <= usize_max /\ 0 <= maximum_total_merge_entries l <= usize_max.

(** The table with a request appended and accounted for. *)
Definition extended (r : PendingHostRequest) (t : PendingRequestTable) : PendingRequestTable :=
  mkTable (limits t) (requests t ++ [r]) (total_arguments t + argument_count r)
    (total_utf16 t + utf16_count r) (total_merge_entries t + merge_entry_count r).

Lemma table_new_ok l : limits_typed l -> table_ok (new l).
Proof. intros (? & ? & ? & ?). split; simpl; try done; [constructor|lia..]. Qed.

Lemma duplicate_spec r rs :
  existsb (fun p => bool_decide (identity p = identity r)) rs = false <-> identity r ∉ identity <$> rs.
Proof.
  rewrite list_elem_of_fmap. split.
  - intros Hf (p & Hp & Hin). apply list_elem_of_In in Hin.
    assert (existsb (fun p => bool_decide (identity p = identity r)) rs = true); [|congruence].
    apply existsb_exists. exists p. split; [done|]. by apply bool_decide_eq_true_2.
  - intros Hn. destruct (existsb _ rs) eqn:E; [|done]. apply existsb_exists in E as (p & Hin & Hp). bsimp.
    destruct Hn. exists p. split; [done|]. by apply list_elem_of_In.
Qed.

Lemma insert_outcome r t : limits_typed (limits t) -> table_ok t ->
  (insert r t = (Ok tt, extended r t) /\ table_ok (extended r t)) \/
  (exists e, insert r t = (Err e, t)) /\ ~ table_ok (extended r t).
Proof.
  intros (_ & La & Lu & Lm) [Hi Hc He Ha Hu Hm]. unfold insert, mbind, ST_bind, st_get, st_lift, ok_or, checked_add.
  assert (Happ : requests (extended r t) = requests t ++ [r]) by done.
  destruct (existsb _ _) eqn:E0.
  { right. split; [by eexists|]. intros [Hi' _ _ _ _ _]. rewrite Happ, fmap_app in Hi'.
    apply NoDup_app in Hi' as (_ & Hd & _). destruct (decide (identity r ∈ identity <$> requests t)) as [Hin|Hin].
    - apply (Hd _ Hin). simpl. by left.
    - apply duplicate_spec in Hin. congruence. }
  apply duplicate_spec in E0.
  destruct (Z.leb_spec (maximum_requests (limits t)) (size (requests t))).
  { right. split; [by eexists|]. intros [_ Hc' _ _ _ _]. simpl in Hc'. unfold size in *. rewrite length_app in Hc'. simpl in Hc'. lia. }
  assert (Heach : forall P, table_ok (extended r t) -> (request_fits (limits t) r -> P) -> P).
  { intros P [_ _ He' _ _ _] HP. apply HP. simpl in He'. apply Forall_app in He' as [_ He'].
    by apply Forall_cons in He' as [? _]. }
  destruct (Z.ltb_spec (maximum_arguments_per_request (limits t)) (size (arguments r))).
  { right. split; [by eexists|]. intros Hok. apply (Heach _ Hok). intros (? & _). unfold argument_count in *. lia. }
  assert (Htot : table_ok (extended r t) -> total_arguments t + argument_count r <= maximum_total_arguments (limits t) /\
    total_utf16 t + utf16_count r <= maximum_total_utf16 (limits t) /\
    total_merge_entries t + merge_entry_count r <= maximum_total_merge_entries (limits t)).
  { intros [_ _ _ Ha' Hu' Hm']. simpl in *. lia. }
  unfold argument_count, utf16_count in Htot.
  destruct (Z.leb_spec (total_arguments t + size (arguments r)) usize_max).
  2:{ right. split; [by eexists|]. intros Hok. apply Htot in Hok. lia. }
  destruct (Z.ltb_spec (maximum_total_arguments (limits t)) (total_arguments t + size (arguments r))).
  { right. split; [by eexists|]. intros Hok. apply Htot in Hok. lia. }
  destruct (Z.ltb_spec MAXIMUM_HOST_BYTE_ARRAY_BYTES (size (bytes r))).
  { right. split; [by eexists|]. intros Hok. apply (Heach _ Hok). intros (_ & ? & _). lia. }
  destruct (Z.ltb_spec (maximum_utf16_per_request (limits t)) (size (utf16 r))).
  { right. split; [by eexists|]. intros Hok. apply (Heach _ Hok). intros (_ & _ & ? & _). unfold utf16_count in *. lia. }
  destruct (Z.leb_spec (total_utf16 t + size (utf16 r)) usize_max).
  2:{ right. split; [by eexists|]. intros Hok. apply Htot in Hok. lia. }
  destruct (Z.ltb_spec (maximum_total_utf16 (limits t)) (total_utf16 t + size (utf16 r))).
  { right. split; [by eexists|]. intros Hok. apply Htot in Hok. lia. }
  destruct (Z.ltb_spec (maximum_merge_entries_per_request (limits t)) (merge_entry_count r)).
  { right. split; [by eexists|]. intros Hok. apply (Heach _ Hok). intros (_ & _ & _ & ?). lia. }
  destruct (Z.leb_spec (total_merge_entries t + merge_entry_count r) usize_max).
  2:{ right. split; [by eexists|]. intros Hok. apply Htot in Hok. lia. }
  destruct (Z.ltb_spec (maximum_total_merge_entries (limits t)) (total_merge_entries t + merge_entry_count r)).
  { right. split; [by eexists|]. intros Hok. apply Htot in Hok. lia. }
  left. split; [done|]. split; simpl; rewrite ?total_app; simpl; unfold argument_count, utf16_count in *; try lia.
  - rewrite fmap_app. apply NoDup_app. split; [done|]. split; [|apply NoDup_singleton]. simpl. set_solver.
  - unfold size in *. rewrite length_app. simpl. lia.
  - apply Forall_app. split; [done|]. constructor; [|constructor]. repeat split; done.
Qed.

(** ** Removal *)

Definition without (l : nat) (r : PendingHostRequest) (t : PendingRequestTable) : PendingRequestTable :=
  mkTable (limits t) (delete l (requests t)) (total_arguments t - argument_count r)
    (total_utf16 t - utf16_count r) (total_merge_entries t - merge_entry_count r).

Lemma total_delete f rs i r : rs !! i = Some r -> total f (delete i rs) = total f rs - f r.
Proof.
  intros Hi. rewrite <- (take_drop_middle rs i r Hi) at 2. rewrite delete_take_drop, !total_app.
  unfold total at 4. simpl. fold (total f (drop (S i) rs)). lia.
Qed.

Lemma delete_sub {A} i (l : list A) : delete i l `sublist_of` l.
Proof. apply sublist_delete. Qed.

Lemma remove_run t i r : table_ok t -> requests t !! i = Some r ->
  (forall A (f : PendingHostRequest -> TableM A),
     (remove_at i ≫= fun r => remove_totals r ≫= fun _ => f r) t = f r (without i r t)) /\
  table_ok (without i r t).
Proof.
  intros [Hi Hc He Ha Hu Hm] Hr.
  pose proof (total_nonneg argument_count (delete i (requests t)) argument_count_nonneg) as Na.
  pose proof (total_nonneg utf16_count (delete i (requests t)) utf16_count_nonneg) as Nu.
  pose proof (total_nonneg merge_entry_count (delete i (requests t)) merge_entry_count_nonneg) as Nm.
  rewrite (total_delete _ _ _ _ Hr) in Na. rewrite (total_delete _ _ _ _ Hr) in Nu. rewrite (total_delete _ _ _ _ Hr) in Nm.
  pose proof (argument_count_nonneg r) as Pa. pose proof (utf16_count_nonneg r) as Pu.
  pose proof (merge_entry_count_nonneg r) as Pm. split.
  - intros A f. unfold remove_at, remove_totals, mbind, ST_bind. rewrite Hr. simpl.
    unfold without, argument_count, utf16_count in *.
    rewrite !(proj2 (Z.ltb_ge _ _)) by lia. done.
  - split; simpl; rewrite ?(total_delete argument_count _ _ _ Hr), ?(total_delete utf16_count _ _ _ Hr),
      ?(total_delete merge_entry_count _ _ _ Hr); try lia.
    + eapply sublist_NoDup; [exact Hi|apply fmap_sublist, delete_sub].
    + pose proof (lookup_lt_Some _ _ _ Hr). unfold size in *. rewrite length_delete by done. lia.
    + rewrite delete_take_drop. apply Forall_app. split; [by apply Forall_take|by apply Forall_drop].
Qed.

Lemma position_id rs i r : NoDup (identity <$> rs) -> rs !! i = Some r ->
  position (fun x => identity x = identity r) rs = Some (Z.of_nat i).
Proof.
  intros Hn Hi. unfold position. assert (Hf : list_find (fun x => identity x = identity r) rs = Some (i, r)).
  { apply list_find_Some. split_and!; try done. intros j y Hj Hlt Hid.
    assert (j = i); [|lia]. eapply NoDup_lookup; [exact Hn| |]; rewrite list_lookup_fmap; [by rewrite Hj|].
    rewrite Hi. simpl. by rewrite Hid. }
  by rewrite Hf.
Qed.

Lemma take_run t i r : table_ok t -> requests t !! i = Some r ->
  take (identity r) t = (Ok r, without i r t) /\ table_ok (without i r t).
Proof.
  intros Hok Hr. destruct (remove_run t i r Hok Hr) as [Hrun Hok']. split; [|done].
  unfold take. unfold mbind at 1, ST_bind at 1, st_get. unfold mbind at 1, ST_bind at 1, st_lift.
  rewrite (position_id _ _ _ (t_ids _ Hok) Hr). simpl. rewrite Nat2Z.id. apply Hrun.
Qed.

Lemma take_missing t j : j ∉ identity <$> requests t -> take j t = (Err UnknownIdentity, t).
Proof.
  intros Hn. unfold take, mbind, ST_bind, st_get, st_lift.
  assert (Hp : position (fun r => identity r = j) (requests t) = None).
  { apply position_None, Forall_forall. intros r Hr Hid. apply Hn. rewrite <- Hid. by apply list_elem_of_fmap_2. }
  by rewrite Hp.
Qed.

(** ** Cancelling a task's requests *)

Definition of_task (tk : TaskId) (r : PendingHostRequest) : Prop := task (identity r) = tk.
#[global] Instance of_task_dec tk r : Decision (of_task tk r).
Proof. unfold of_task. apply _. Defined.

Lemma cancel_loop_ok tk fuel : forall t index done_, table_ok t -> length (requests t) = (index + fuel)%nat ->
  exists t', cancel_loop fuel tk index done_ t =
      (Ok (done_ ++ (identity <$> filter (of_task tk) (drop index (requests t)))), t') /\
    table_ok t' /\ limits t' = limits t /\
    requests t' = List.firstn index (requests t) ++ filter (fun r => ~ of_task tk r) (drop index (requests t)).
Proof.
  induction fuel as [|fuel IH]; intros t index d Hok Hlen; simpl.
  - exists t. rewrite drop_ge by lia. simpl. rewrite firstn_all2, !app_nil_r by lia. done.
  - destruct (lookup_lt_is_Some_2 (requests t) index) as [r Hr]; [lia|]. unfold mbind at 1, ST_bind at 1, st_get. rewrite Hr.
    rewrite (drop_S _ _ _ Hr), !filter_cons. destruct (Z.eqb_spec (task (identity r)) tk) as [Heq|Hne].
    + rewrite (decide_True (P := of_task tk r)) by done. rewrite (decide_False (P := ~ of_task tk r)) by (intros Hn; by apply Hn).
      destruct (remove_run t index r Hok Hr) as [Hrun Hok']. rewrite Hrun.
      destruct (IH (without index r t) index (d ++ [identity r]) Hok') as (t' & Hl & Hok'' & Hlim & Hreq).
      { simpl. rewrite length_delete by done. lia. }
      exists t'. simpl in *. rewrite delete_take_drop in Hl, Hreq. pose proof (lookup_lt_Some _ _ _ Hr).
      rewrite drop_app_length' in Hl, Hreq by (rewrite length_take; lia). rewrite Hl, <- app_assoc. split_and!; try done.
      rewrite Hreq. f_equal. by rewrite firstn_app, length_take, firstn_firstn, !Nat.min_l, Nat.sub_diag, firstn_O, app_nil_r by lia.
    + rewrite (decide_False (P := of_task tk r)) by done. rewrite (decide_True (P := ~ of_task tk r)) by done.
      destruct (IH t (S index) d Hok ltac:(lia)) as (t' & Hl & Hok' & Hlim & Hreq). exists t'. rewrite Hl.
      split_and!; try done. rewrite Hreq. rewrite (take_S_r _ _ _ Hr), <- app_assoc. done.
Qed.

(** ** Reduction of mergeable requests *)

Definition entries_of (r : PendingHostRequest) : list HostMergeEntry :=
  match merge r with LastWriteWins _ es => es | Ordinary => [] end.

(** The last of a sequence of writes to a key. *)
Definition last_write (k : Z) (es : list HostMergeEntry) : option HostMergeEntry :=
  last (filter (fun e => key e = k) es).

Definition distinct_keys (es : list HostMergeEntry) : Z := size (remove_dups (key <$> es)).

Definition in_group (g : HostMergeGroup) (r : PendingHostRequest) : Prop := merge r = LastWriteWins g (entries_of r).

Record reduced (entries seen : list HostMergeEntry) : Prop := {
  d_nodup : NoDup (key <$> entries);
  d_last : forall e, e ∈ entries <-> last_write (key e) seen = Some e }.

Lemma last_write_snoc k seen e :
  last_write k (seen ++ [e]) = if decide (key e = k) then Some e else last_write k seen.
Proof.
  unfold last_write. rewrite filter_app. destruct (decide (key e = k)) as [He|He].
  - rewrite filter_cons_True, filter_nil by done. apply last_snoc.
  - by rewrite filter_cons_False, filter_nil, app_nil_r by done.
Qed.

Lemma last_write_key k seen e : last_write k seen = Some e -> key e = k /\ e ∈ seen.
Proof.
  unfold last_write. intros H. apply last_Some in H as [l H].
  assert (He : e ∈ filter (fun e => key e = k) seen) by (rewrite H; set_solver).
  by apply list_elem_of_filter in He.
Qed.

Lemma last_write_exists k seen : k ∈ key <$> seen -> exists e, last_write k seen = Some e.
Proof.
  intros (e & -> & He)%list_elem_of_fmap. unfold last_write. destruct (last _) eqn:E; [by eexists|].
  apply last_None in E. assert (Hin : e ∈ filter (fun x => key x = key e) seen) by (by apply list_elem_of_filter).
  rewrite E in Hin. by apply elem_of_nil in Hin.
Qed.

Lemma reduced_keys entries seen : reduced entries seen -> forall k, k ∈ key <$> entries <-> k ∈ key <$> seen.
Proof.
  intros [Hn Hl] k. split.
  - intros (e & -> & He)%list_elem_of_fmap. apply Hl, last_write_key in He as [_ He]. by apply list_elem_of_fmap_2.
  - intros Hk. destruct (last_write_exists k seen Hk) as [e He]. pose proof (last_write_key _ _ _ He) as [<- _].
    apply list_elem_of_fmap_2. by apply Hl.
Qed.

Lemma reduced_size entries seen : reduced entries seen -> size entries = distinct_keys seen.
Proof.
  intros Hr. unfold distinct_keys, size. f_equal. rewrite <- (length_fmap key entries). apply Permutation_length.
  apply NoDup_Permutation; [apply Hr|apply NoDup_remove_dups|]. intros k.
  rewrite elem_of_remove_dups. by apply reduced_keys.
Qed.

Lemma distinct_keys_mono a b : distinct_keys a <= distinct_keys (a ++ b).
Proof.
  unfold distinct_keys, size. apply inj_le, submseteq_length, NoDup_submseteq; [apply NoDup_remove_dups|].
  intros k. rewrite !elem_of_remove_dups, fmap_app. set_solver.
Qed.

Lemma write_entry_ok maximum entries seen e : reduced entries seen -> size entries <= maximum ->
  if maximum <? distinct_keys (seen ++ [e]) then write_entry maximum entries e = Err EffectiveMergeEntryLimit
  else exists entries', write_entry maximum entries e = Ok entries' /\ reduced entries' (seen ++ [e]) /\
    size entries' <= maximum.
Proof.
  intros Hr Hsz. assert (Hfit : forall entries', write_entry maximum entries e = Ok entries' -> size entries' <= maximum ->
    reduced entries' (seen ++ [e]) -> if maximum <? distinct_keys (seen ++ [e])
      then write_entry maximum entries e = Err EffectiveMergeEntryLimit
      else exists entries', write_entry maximum entries e = Ok entries' /\ reduced entries' (seen ++ [e]) /\ size entries' <= maximum).
  { intros entries' Hw Hs' Hr'. rewrite <- (reduced_size _ _ Hr'). rewrite (proj2 (Z.ltb_ge _ _)) by lia. eauto. }
  unfold write_entry in *. destruct (position _ entries) as [i|] eqn:Ep.
  - apply position_Some in Ep as (Hi & x & Hx & Hk). unfold zget in Hx. unfold zset in *.
    apply (Hfit (<[Z.to_nat i := e]> entries)); [done|unfold size; by rewrite length_insert|]. destruct Hr as [Hn Hl].
    split; [rewrite list_fmap_insert, list_insert_id; [done|by rewrite list_lookup_fmap, Hx, <- Hk]|].
    assert (Hxin : x ∈ entries) by (by eapply list_elem_of_lookup_2).
    intros y. rewrite last_write_snoc. destruct (decide (key e = key y)) as [Hey|Hey].
    + split; [|intros [= <-]; apply list_elem_of_lookup; exists (Z.to_nat i); apply list_lookup_insert_eq; by eapply lookup_lt_Some].
      intros (j & Hj)%list_elem_of_lookup. apply list_lookup_insert_Some in Hj as [(_ & <- & _)|[Hne Hj]]; [done|].
      destruct Hne. eapply NoDup_lookup; [exact Hn| |]; rewrite list_lookup_fmap; [by rewrite Hx|]. rewrite Hj. simpl. by rewrite Hk, Hey.
    + rewrite <- Hl, !list_elem_of_lookup. split; intros (j & Hj).
      * apply list_lookup_insert_Some in Hj as [(_ & <- & _)|[Hne Hj]]; [done|eauto].
      * exists j. rewrite list_lookup_insert_ne; [done|]. intros <-. rewrite Hx in Hj. injection Hj as <-. congruence.
  - apply position_None in Ep. rewrite Forall_forall in Ep.
    assert (Hfresh : key e ∉ key <$> entries).
    { intros (y & Hy & Hin)%list_elem_of_fmap. by apply (Ep y Hin). }
    assert (Hr' : reduced (entries ++ [e]) (seen ++ [e])).
    { destruct Hr as [Hn Hl]. split.
      - rewrite fmap_app. apply NoDup_app. split; [done|]. split; [|apply NoDup_singleton]. simpl. set_solver.
      - intros y. rewrite elem_of_app, list_elem_of_singleton, last_write_snoc, Hl. destruct (decide (key e = key y)) as [Hey|Hey].
        + split; [|intros [= <-]; by right]. intros [Hy| ->]; [|done]. destruct Hfresh. rewrite Hey.
          apply list_elem_of_fmap_2. by apply Hl.
        + split; [|by left]. intros [Hy| ->]; done. }
    pose proof (reduced_size _ _ Hr') as Hs'. unfold size in *. rewrite length_app in Hs'. simpl in Hs'.
    destruct (Z.leb_spec maximum (Z.of_nat (length entries))).
    + rewrite (proj2 (Z.ltb_lt _ _)) by lia. done.
    + apply (Hfit _ eq_refl); [rewrite length_app; simpl; lia|done].
Qed.

Lemma write_entries_ok maximum es : forall entries seen, reduced entries seen -> size entries <= maximum ->
  if maximum <? distinct_keys (seen ++ es) then write_entries maximum entries es = Err EffectiveMergeEntryLimit
  else exists entries', write_entries maximum entries es = Ok entries' /\ reduced entries' (seen ++ es) /\
    size entries' <= maximum.
Proof.
  induction es as [|e es IH]; intros entries seen Hr Hsz; simpl.
  - rewrite app_nil_r, <- (reduced_size _ _ Hr), (proj2 (Z.ltb_ge _ _)) by lia. eauto.
  - pose proof (write_entry_ok maximum entries seen e Hr Hsz) as H.
    assert (Happ : seen ++ e :: es = (seen ++ [e]) ++ es) by (by rewrite <- app_assoc). rewrite Happ.
    destruct (Z.ltb_spec maximum (distinct_keys (seen ++ [e]))) as [Hov|Hov].
    + pose proof (distinct_keys_mono (seen ++ [e]) es). rewrite (proj2 (Z.ltb_lt _ _)) by lia. by rewrite H.
    + destruct H as (entries' & Hw & Hr' & Hs'). rewrite Hw. simpl. by apply IH.
Qed.

Lemma in_group_inj g g' r : in_group g r -> in_group g' r -> g = g'.
Proof. unfold in_group. intros -> [= ->]. done. Qed.

(** The loop succeeds exactly on a one-group batch that fits. *)
Lemma reduce_loop_ok maximum rs : forall group ids entries seen, reduced entries seen -> size entries <= maximum ->
  let all := seen ++ (rs ≫= entries_of) in
  (exists g' entries', reduce_loop maximum rs group ids entries = Ok (g', ids ++ (identity <$> rs), entries') /\
     (if decide (rs = []) then g' = group else is_Some g') /\
     reduced entries' all /\ distinct_keys all <= maximum /\
     exists g, Forall (in_group g) rs /\ (forall g0, group = Some g0 -> rs <> [] -> g0 = g)) \/
  ((exists e, reduce_loop maximum rs group ids entries = Err e) /\
   ~ (distinct_keys all <= maximum /\ exists g, Forall (in_group g) rs /\ (forall g0, group = Some g0 -> rs <> [] -> g0 = g))).
Proof.
  induction rs as [|r rs IH]; intros group ids entries seen Hr Hsz; cbn [reduce_loop].
  - left. exists group, entries. simpl. rewrite !app_nil_r. split_and!; try done.
    + rewrite <- (reduced_size _ _ Hr). done.
    + exists 0. split; [constructor|done].
  - destruct (merge r) as [|g es] eqn:Em.
    { right. split; [by eexists|]. intros (_ & g & Hg & _). apply Forall_cons in Hg as [Hg _].
      unfold in_group in Hg. by rewrite Em in Hg. }
    assert (Hes : entries_of r = es) by (unfold entries_of; by rewrite Em).
    assert (Hgr : in_group g r) by (unfold in_group; by rewrite Em, Hes).
    destruct (match group with Some g0 => negb (g0 =? g) | None => false end) eqn:Eg.
    { right. split; [by eexists|]. intros (_ & g' & Hg & Hsame). apply Forall_cons in Hg as [Hg _].
      destruct group as [g0|]; [|done]. specialize (Hsame g0 eq_refl ltac:(done)). subst g0.
      rewrite (in_group_inj _ _ _ Hg Hgr), Z.eqb_refl in Eg. done. }
    assert (Hsame : forall g0, group = Some g0 -> g0 = g).
    { intros g0 ->. apply negb_false_iff in Eg. by apply Z.eqb_eq in Eg. }
    cbn zeta. rewrite bind_cons, Hes, app_assoc. pose proof (write_entries_ok maximum es entries seen Hr Hsz) as Hw.
    destruct (Z.ltb_spec maximum (distinct_keys (seen ++ es))) as [Hov|Hov].
    { right. rewrite Hw. simpl. split; [by eexists|]. intros (Hle & _).
      pose proof (distinct_keys_mono (seen ++ es) (rs ≫= entries_of)). lia. }
    destruct Hw as (entries' & Hw & Hr' & Hs'). rewrite Hw. simpl.
    destruct (IH (Some g) (ids ++ [identity r]) entries' (seen ++ es) Hr' Hs') as
      [(g' & en & Hl & Hg' & Hred & Hle & gg & Hall & Hgg)|[(e & He) Hno]]; simpl in *.
    + left. exists g', en. rewrite Hl, <- app_assoc. split_and!; try done.
      * destruct (decide (rs = [])); [by subst; eexists|done].
      * exists g. split; [|intros g0 Hg0 _; by apply Hsame]. constructor; [done|].
        destruct rs as [|r1 rs1]; [constructor|]. by rewrite (Hgg g eq_refl ltac:(done)).
    + right. split; [by eexists|]. intros (Hle & gg & Hall & _). apply Forall_cons in Hall as [Hgg Hall].
      pose proof (in_group_inj _ _ _ Hgg Hgr) as ->. apply Hno. split; [done|]. exists g. split; [done|].
      by intros g0 [= ->].
Qed.

Lemma sort_by_key_ok entries seen : reduced entries seen ->
  StronglySorted key_le (sort_by_key entries) /\ reduced (sort_by_key entries) seen.
Proof.
  intros [Hn Hl]. unfold sort_by_key. assert (Hp : merge_sort key_le entries ≡ₚ entries) by apply merge_sort_Permutation.
  split.
  - apply StronglySorted_merge_sort; unfold key_le; [intros x y z; lia|intros x y; lia].
  - split; [by rewrite Hp|]. intros e. by rewrite Hp.
Qed.

(** ** Runs of the table *)

Inductive rop := RInsert (r : PendingHostRequest) | RTake (i : HostRequestIdentity) | RCancel (tk : TaskId) | RClear.

Definition run_rop (o : rop) : TableM unit :=
  match o with
  | RInsert r => insert r
  | RTake i => _ ← take i; mret tt
  | RCancel tk => _ ← cancel_task tk; mret tt
  | RClear => st_modify clear
  end.

Inductive reachable (l : RequestTableLimits) : PendingRequestTable -> Prop :=
| reach_new : reachable l (new l)
| reach_step t o r t' : reachable l t -> run_rop o t = (r, t') -> reachable l t'.

Lemma rop_ok o t : limits_typed (limits t) -> table_ok t ->
  exists r t', run_rop o t = (r, t') /\ r <> Panic /\ table_ok t' /\ limits t' = limits t.
Proof.
  intros Hl Hok. destruct o as [r|i|tk|]; simpl.
  - destruct (insert_outcome r t Hl Hok) as [[Hrun Hok']|[[e Hrun] _]]; eexists _, _; split_and!; try done; exact Hrun || done.
  - destruct (decide (i ∈ identity <$> requests t)) as [Hin|Hin].
    + apply list_elem_of_fmap in Hin as (r & -> & Hr). apply list_elem_of_lookup in Hr as [k Hk].
      destruct (take_run t k r Hok Hk) as [Hrun Hok']. eexists _, _. split; [unfold mbind, ST_bind; rewrite Hrun; done|]. done.
    + eexists _, _. split; [unfold mbind, ST_bind; rewrite (take_missing t i Hin); done|]. done.
  - destruct (cancel_loop_ok tk (length (requests t)) t 0%nat [] Hok eq_refl) as (t' & Hrun & Hok' & Hlim & _).
    eexists _, t'. split; [unfold mbind, ST_bind, cancel_task; rewrite Hrun; done|]. done.
  - eexists _, _. split; [done|]. split; [done|]. split; [|done]. by apply (table_new_ok (limits t)).
Qed.

Lemma table_reachable_ok l t : limits_typed l -> reachable l t -> table_ok t /\ limits t = l.
Proof.
  intros Hl. induction 1 as [|t o r t' _ [IH Hlim] Hrun]; [split; [by apply table_new_ok|done]|].
  destruct (rop_ok o t ltac:(by rewrite Hlim) IH) as (r' & t'' & Hrun' & _ & Hok & Hlim').
  rewrite Hrun in Hrun'. injection Hrun' as <- <-. split; [done|congruence].
Qed.

(** ** Properties *)

Definition demo_limits : RequestTableLimits := mkLimits 3 2 4 4 6 3 5.
Definition demo_request (tk rq : Z) (es : list HostMergeEntry) : PendingHostRequest :=
  last_write_wins (mkIdentity tk rq) 2 3 7 es [I32 rq] [].

Lemma demo_typed : limits_typed demo_limits.
Proof. vm_compute. repeat split; discriminate. Qed.

(** C37. No sequence of table operations panics, and in every reachable table the
    identities are distinct, the totals are exactly the sums over the pending
    requests, and every count and total respects its limit; a request is
    accepted exactly when accepting it keeps the table within its limits, and a
    refused one changes nothing. *)
Theorem request_table_safe (l : RequestTableLimits) (t : PendingRequestTable) (o : rop) :
  limits_typed l -> reachable l t ->
  table_ok t /\ (run_rop o t).1 <> Panic /\ table_ok (run_rop o t).2 /\
  (forall r, (insert r t = (Ok tt, extended r t) /\ table_ok (extended r t)) \/
             (exists e, insert r t = (Err e, t)) /\ ~ table_ok (extended r t)).
Proof.
  intros Hl Hr. destruct (table_reachable_ok l t Hl Hr) as [Hok Hlim]. subst l.
  destruct (rop_ok o t Hl Hok) as (r & t' & Hrun & Hp & Hok' & _). rewrite Hrun. split_and!; try done.
  intros r'. by apply insert_outcome.
Qed.

Lemma request_table_safe_witness : (run_rop (RTake (mkIdentity 1 1)) (new demo_limits)).1 <> Panic.
Proof. exact (proj1 (proj2 (request_table_safe demo_limits (new demo_limits) (RTake (mkIdentity 1 1)) demo_typed (reach_new _)))). Defined.

(** A request that was inserted is found under its identity and taken exactly
    once: taking it returns it and restores the table as it was, so a second
    take reports an unknown identity; other identities are unaffected. *)
Theorem insert_take_roundtrip (l : RequestTableLimits) (t t' : PendingRequestTable) (r : PendingHostRequest) :
  limits_typed l -> reachable l t -> insert r t = (Ok tt, t') ->
  get (identity r) t' = Some r /\ take (identity r) t' = (Ok r, t) /\
  take (identity r) t = (Err UnknownIdentity, t) /\
  forall j, j <> identity r -> get j t' = get j t.
Proof.
  intros Hl Hr Hins. destruct (table_reachable_ok l t Hl Hr) as [Hok Hlim]. subst l.
  destruct (insert_outcome r t Hl Hok) as [[Hrun Hok']|[[e Hrun] _]]; rewrite Hins in Hrun; [|done].
  injection Hrun as ->. set (n := length (requests t)).
  assert (Hn : requests (extended r t) !! n = Some r) by (simpl; by apply list_lookup_middle).
  assert (Hfresh : identity r ∉ identity <$> requests t).
  { pose proof (t_ids _ Hok') as Hd. simpl in Hd. rewrite fmap_app in Hd. apply NoDup_app in Hd as (_ & Hd & _).
    intros Hin. apply (Hd _ Hin). simpl. by left. }
  assert (Hmiss : forall j, j = identity r -> list_find (fun x => identity x = j) (requests t) = None).
  { intros j ->. apply list_find_None, Forall_forall. intros x Hx Hid. apply Hfresh. rewrite <- Hid. by apply list_elem_of_fmap_2. }
  split_and!.
  - unfold get. simpl. rewrite list_find_app_r by (by apply Hmiss). simpl. by rewrite decide_True by done.
  - destruct (take_run _ _ _ Hok' Hn) as [Ht _]. rewrite Ht. f_equal. unfold without, extended. simpl.
    destruct t as [lim rs ta tu tm]. simpl in *. f_equal; try lia. rewrite delete_take_drop, drop_ge, app_nil_r.
    + unfold n. apply take_app_length.
    + unfold n. rewrite length_app. simpl. lia.
  - by apply take_missing.
  - intros j Hj. unfold get. simpl. destruct (list_find (fun x => identity x = j) (requests t)) as [[k x]|] eqn:E.
    + by rewrite (list_find_app_l _ _ _ _ _ E).
    + rewrite list_find_app_r by done. simpl. by rewrite decide_False by done.
Qed.

Lemma insert_take_roundtrip_witness :
  take (mkIdentity 4 9) (extended (demo_request 4 9 []) (new demo_limits)) = (Ok (demo_request 4 9 []), new demo_limits).
Proof.
  exact (proj1 (proj2 (insert_take_roundtrip demo_limits (new demo_limits) (extended (demo_request 4 9 []) (new demo_limits))
    (demo_request 4 9 []) demo_typed (reach_new _) eq_refl))).
Defined.

(** Cancelling a task removes exactly its requests, keeps the others in their
    order, and reports the identities it removed in the order they were issued. *)
Theorem cancel_task_correct (l : RequestTableLimits) (t : PendingRequestTable) (tk : TaskId) :
  limits_typed l -> reachable l t ->
  exists t', cancel_task tk t = (Ok (identity <$> filter (of_task tk) (requests t)), t') /\
    requests t' = filter (fun r => ~ of_task tk r) (requests t) /\ table_ok t'.
Proof.
  intros Hl Hr. destruct (table_reachable_ok l t Hl Hr) as [Hok _].
  destruct (cancel_loop_ok tk (length (requests t)) t 0%nat [] Hok eq_refl) as (t' & Hrun & Hok' & _ & Hreq).
  exists t'. split_and!; try done.
Qed.

Lemma cancel_task_correct_witness : exists t', cancel_task 4 (extended (demo_request 4 9 []) (new demo_limits)) =
  (Ok [mkIdentity 4 9], t') /\ requests t' = [].
Proof.
  destruct (cancel_task_correct demo_limits (extended (demo_request 4 9 []) (new demo_limits)) 4 demo_typed) as (t' & H & Hreq & _).
  - apply (reach_step _ (new demo_limits) (RInsert (demo_request 4 9 [])) (Ok tt)); [apply reach_new|reflexivity].
  - exists t'. split; [exact H|exact Hreq].
Defined.

(** A batch reduces exactly when it is nonempty, its requests are mergeable
    and of one group, and its distinct keys fit the limit.  The reduction names
    every request in order, lists its entries by strictly increasing key, and
    contains an entry exactly when it is the last write of its key. *)
Theorem reduce_last_write_wins_correct (rs : list PendingHostRequest) (maximum : Z) :
  0 <= maximum ->
  let all := rs ≫= entries_of in
  match reduce_last_write_wins rs maximum with
  | Ok red => rs <> [] /\ (exists g, Forall (in_group g) rs) /\ distinct_keys all <= maximum /\
      reduced_requests red = identity <$> rs /\
      StronglySorted key_le (reduced_entries red) /\ NoDup (key <$> reduced_entries red) /\
      forall e, e ∈ reduced_entries red <-> last_write (key e) all = Some e
  | Err _ => ~ (rs <> [] /\ (exists g, Forall (in_group g) rs) /\ distinct_keys all <= maximum)
  | Panic => False
  end.
Proof.
  intros Hm all. unfold reduce_last_write_wins.
  assert (H0 : reduced [] []) by (split; [constructor|intros e; split; [by intros ?%elem_of_nil|done]]).
  destruct (reduce_loop_ok maximum rs None [] [] [] H0 Hm) as
    [(g' & en & Hl & Hg' & Hred & Hle & g & Hall & _)|[(e & He) Hno]]; simpl in *.
  - rewrite Hl. simpl. destruct (decide (rs = [])) as [->|Hne].
    + subst g'. intros (Hn & _). done.
    + destruct Hg' as [g0 ->]. destruct (sort_by_key_ok _ _ Hred) as [Hsort [Hn Hlast]]. split_and!; try done. by exists g.
  - rewrite He. simpl. intros (_ & [g Hg] & Hle). apply Hno. split; [done|]. exists g. split; done.
Qed.

Lemma reduce_last_write_wins_correct_witness :
  exists red, reduce_last_write_wins [demo_request 1 1 [mkMerge 5 1; mkMerge 2 1]; demo_request 2 2 [mkMerge 5 9]] 2 = Ok red /\
    reduced_entries red = [mkMerge 2 1; mkMerge 5 9] /\ StronglySorted key_le (reduced_entries red).
Proof.
  set (rs := [demo_request 1 1 [mkMerge 5 1; mkMerge 2 1]; demo_request 2 2 [mkMerge 5 9]]).
  set (red := mkReduced [mkIdentity 1 1; mkIdentity 2 2] [mkMerge 2 1; mkMerge 5 9]).
  assert (E : reduce_last_write_wins rs 2 = Ok red) by (vm_compute; reflexivity).
  pose proof (reduce_last_write_wins_correct rs 2 ltac:(lia)) as H. cbn zeta in H. rewrite E in H.
  exists red. split; [exact E|]. split; [reflexivity|]. exact (proj1 (proj2 (proj2 (proj2 (proj2 H))))).
Defined.

End RequestsProps.
