(* ===== verification/Checkpoint.v ===== *)
(** src/execution/checkpoint.rs and src/checkpoint/envelope.rs: the writer and the
    reader of checkpoints, the codecs of the basic types, and the envelope.

    [impl Checkpoint for T] is a value of [Codec]; the macros [checkpoint_struct] and
    [checkpoint_enum] are combinators of codecs.  [size_of] is the size Rust gives to
    the type: it is fixed for the integers, and a parameter for structs and enums. *)

From S2P Require Import Prelude Words Unicode Bytes.
Import Diagnostics.

Module Checkpoint.

Inductive CheckpointError := Limit | Allocation | Truncated | InvalidState | TrailingBytes | Incompatible | Integrity.

Definition size {A} (l : list A) : Z := Z.of_nat (length l).

(** ** Writer and reader *)

Record Writer := mkWriter { written : list Z; maximum : Z }.
Abbreviation WriteM := (ST Writer CheckpointError).

Definition Writer_new (maximum : Z) : Writer := mkWriter [] maximum.

Definition put (bs : list Z) : WriteM unit := fun w =>
  match checked_add usize_max (size (written w)) (size bs) with
  | None => (Err Limit, w)
  | Some length =>
      if maximum w <? length then (Err Limit, w) else (Ok tt, mkWriter (written w ++ bs) (maximum w))
  end.

Record Reader := mkReader { bytes : list Z; allocation_left : Z; depth : Z }.
Abbreviation ReadM := (ST Reader CheckpointError).

Definition Reader_new (bs : list Z) (maximum_bytes maximum_allocation : Z) : outcome CheckpointError Reader :=
  if maximum_bytes <? size bs then Err Limit else Ok (mkReader bs maximum_allocation 0).

Definition take (length : Z) : ReadM (list Z) := fun r =>
  if length <=? size (bytes r)
  then (Ok (list.take (Z.to_nat length) (bytes r)), mkReader (drop (Z.to_nat length) (bytes r)) (allocation_left r) (depth r))
  else (Err Truncated, r).

(** [allocate::<T>], for a type of [bytes_of_T] bytes. *)
Definition allocate (bytes_of_T length : Z) : ReadM unit := fun r =>
  match checked_mul usize_max length (Z.max bytes_of_T 1) with
  | None => (Err Limit, r)
  | Some amount =>
      match checked_sub (allocation_left r) amount with
      | None => (Err Limit, r)
      | Some remaining => (Ok tt, mkReader (bytes r) remaining (depth r))
      end
  end.

Definition set_depth (d : Z) (r : Reader) : Reader := mkReader (bytes r) (allocation_left r) d.

Definition nested {A} (read : ReadM A) : ReadM A := fun r =>
  if depth r =? 64 then (Err Limit, r)
  else let '(result, r) := read (set_depth (depth r + 1) r) in (result, set_depth (depth r - 1) r).

Definition finish (r : Reader) : outcome CheckpointError unit :=
  if bool_decide (bytes r = []) then Ok tt else Err TrailingBytes.

(** ** Codecs *)

Record Codec (A : Type) := mkCodec { write : A -> WriteM unit; read : ReadM A; size_of : Z }.
Arguments mkCodec {A}.
Arguments write {A}.
Arguments read {A}.
Arguments size_of {A}.

(** [integers!]: the unsigned and the signed ones, of [n] bytes. *)
Definition unsigned (n : nat) : Codec Z := mkCodec
  (fun v => put (le_bytes n v))
  (bs ← take (Z.of_nat n); mret (le_val bs))
  (Z.of_nat n).

Definition signed (n : nat) : Codec Z := mkCodec
  (fun v => put (le_bytes n v))
  (bs ← take (Z.of_nat n); mret (as_signed (8 * Z.of_nat n) (le_val bs)))
  (Z.of_nat n).

Definition u8 : Codec Z := unsigned 1.
Definition u16 : Codec Z := unsigned 2.
Definition u32 : Codec Z := unsigned 4.
Definition u64 : Codec Z := unsigned 8.
Definition i32 : Codec Z := signed 4.
Definition i64 : Codec Z := signed 8.

Definition usize : Codec Z := mkCodec
  (fun v => write u64 (if v =? usize_max then u64_max else v))
  (v ← read u64;
   if v =? u64_max then mret usize_max else st_lift (ok_or (try_from_unsigned usize_max v) Limit))
  8.

Definition bool_ : Codec bool := mkCodec
  (fun v : bool => write u8 (if v then 1 else 0))
  (v ← read u8;
   if v =? 0 then mret false else if v =? 1 then mret true else st_err InvalidState)
  1.

(** [()], and the fields of a variant without fields. *)
Definition nothing : Codec unit := mkCodec (fun _ => mret tt) (mret tt) 0.

Definition option_ {A} (bytes_of : Z) (c : Codec A) : Codec (option A) := mkCodec
  (fun o =>
     _ ← write bool_ (bool_decide (is_Some o));
     match o with Some v => write c v | None => mret tt end)
  (nested (b ← read bool_;
           if (b : bool) then v ← read c; mret (Some v) else mret None))
  bytes_of.

(** [for value in self]. *)
Fixpoint write_all {A} (c : Codec A) (l : list A) : WriteM unit :=
  match l with
  | [] => mret tt
  | v :: l => _ ← write c v; write_all c l
  end.

Fixpoint read_all {A} (c : Codec A) (n : nat) : ReadM (list A) :=
  match n with
  | O => mret []
  | S n => v ← read c; l ← read_all c n; mret (v :: l)
  end.

(** [Vec<T>], [Box<[T]>] and [VecDeque<T>]: a pointer, a length and a capacity, or less. *)
Definition vec_of {A} (bytes_of : Z) (c : Codec A) : Codec (list A) := mkCodec
  (fun l => _ ← write usize (size l); write_all c l)
  (nested (length ← read usize;
           _ ← allocate (size_of c) length;
           read_all c (Z.to_nat length)))
  bytes_of.
Definition vec {A} (c : Codec A) : Codec (list A) := vec_of 24 c.
Definition boxed {A} (c : Codec A) : Codec (list A) := vec_of 16 c.

(** [[T; N]]. *)
Definition array {A} (n : nat) (c : Codec A) : Codec (list A) := mkCodec
  (write_all c)
  (_ ← allocate (size_of c) (Z.of_nat n); read_all c n)
  (Z.of_nat n * size_of c).

(** [Box<T>]. *)
Definition box {A} (c : Codec A) : Codec A := mkCodec
  (write c) (_ ← allocate (size_of c) 1; nested (read c)) 8.

(** [String] and [Box<str>], as their bytes. *)
Definition string_ : Codec (list Z) := mkCodec
  (fun s => _ ← write usize (size s); put s)
  (s ← read (vec u8); if utf8_valid s then mret s else st_err InvalidState)
  24.

(** [arc_bytes], and [Arc<[u8]>]. *)
Definition arc_bytes (maximum : Z) : ReadM (list Z) :=
  length ← read usize;
  if maximum <? length then st_err Limit else
  _ ← allocate 1 length;
  _ ← allocate 8 2;
  take length.

Definition arc : Codec (list Z) := mkCodec
  (fun s => _ ← write usize (size s); put s)
  (arc_bytes usize_max)
  16.

(** Consecutive values: the tuples, and the fields of a struct. *)
Definition pair_ {A B} (bytes_of : Z) (a : Codec A) (b : Codec B) : Codec (A * B) := mkCodec
  (fun v => _ ← write a v.1; write b v.2)
  (x ← read a; y ← read b; mret (x, y))
  bytes_of.
Definition fields {A B} : Codec A -> Codec B -> Codec (A * B) := pair_ 0.

(** [checkpoint_struct]: [to] lists the fields, [build] makes the struct. *)
Definition checkpoint_struct {A F} (bytes_of : Z) (c : Codec F) (to : A -> F) (build : F -> A) : Codec A := mkCodec
  (fun v => write c (to v))
  (f ← read c; mret (build f))
  bytes_of.

(** A line of [checkpoint_enum]: the tag, the fields, and the constructor. *)
Record Variant (A : Type) := mkVariant {
  v_tag : Z; v_fields : Type; v_codec : Codec v_fields; v_make : v_fields -> A; v_match : A -> option v_fields }.
Arguments mkVariant {A}.
Arguments v_tag {A}.
Arguments v_fields {A}.
Arguments v_codec {A}.
Arguments v_make {A}.
Arguments v_match {A}.

Fixpoint write_variant {A} (vs : list (Variant A)) (a : A) : WriteM unit :=
  match vs with
  | [] => st_panic
  | v :: vs =>
      match v_match v a with
      | Some f => _ ← write u8 (v_tag v); write (v_codec v) f
      | None => write_variant vs a
      end
  end.

Fixpoint read_variant {A} (vs : list (Variant A)) (tag : Z) : ReadM A :=
  match vs with
  | [] => st_err InvalidState
  | v :: vs => if tag =? v_tag v then f ← read (v_codec v); mret (v_make v f) else read_variant vs tag
  end.

Definition checkpoint_enum {A} (bytes_of : Z) (vs : list (Variant A)) : Codec A := mkCodec
  (write_variant vs)
  (nested (tag ← read u8; read_variant vs tag))
  bytes_of.

(** A variant without fields. *)
Definition constant_variant {A} `{EqDecision A} (tag : Z) (a : A) : Variant A :=
  mkVariant tag unit nothing (fun _ => a) (fun b => if decide (b = a) then Some tt else None).

(** ** The envelope *)

Definition MAGIC : list Z := [67; 80; 75; 84; 72; 73; 66; 0].
Definition FORMAT : Z := 5.
Definition HEADER_BYTES : Z := 84.
Definition CHECKSUM_BYTES : Z := 32.
Definition SCHEMA : list Z := text "compukters.computer.logical-checkpoint/5".
(** The minor version of the package, [env!("CARGO_PKG_VERSION_MINOR")]. *)
Definition RUNTIME_ABI : Z := 24.

Record Limits := mkLimits { execution_bytes : Z; host_bytes : Z; allocation_bytes : Z }.

Definition total_bytes (l : Limits) : outcome CheckpointError Z :=
  ok_or (value ← checked_add usize_max HEADER_BYTES (execution_bytes l);
         value ← checked_add usize_max value (host_bytes l);
         checked_add usize_max value CHECKSUM_BYTES) Limit.

Record Envelope := mkEnvelope { generation : Z; execution : list Z; host : list Z }.

Section Envelope.
(** SHA-256; the identifier of a computer is its 16 bytes. *)
Context (sha256 : list Z -> list Z).

Definition runtime_identity : list Z := sha256 (SCHEMA ++ [0] ++ le_bytes 4 RUNTIME_ABI).

Definition write_envelope (id : list Z) (generation : Z) (execution host : list Z) : WriteM unit :=
  _ ← write (array 8 u8) MAGIC;
  _ ← write u32 FORMAT;
  _ ← write (array 32 u8) runtime_identity;
  _ ← put id;
  _ ← write u64 generation;
  _ ← write usize (size execution);
  _ ← write usize (size host);
  _ ← put execution;
  put host.

Definition encode (id : list Z) (generation : Z) (execution host : list Z) (limits : Limits) : outcome CheckpointError (list Z) :=
  if (execution_bytes limits <? size execution) || (host_bytes limits <? size host) then Err Limit else
  total ← total_bytes limits;
  let '(result, w) := write_envelope id generation execution host (Writer_new total) in
  _ ← result;
  Ok (written w ++ sha256 (written w)).

Definition read_envelope (id : list Z) (limits : Limits) : ReadM Envelope :=
  magic ← read (array 8 u8);
  format ← read u32;
  runtime ← read (array 32 u8);
  computer ← read (array 16 u8);
  if negb (bool_decide (magic = MAGIC)) || negb (format =? FORMAT) || negb (bool_decide (runtime = runtime_identity))
    || negb (bool_decide (computer = id))
  then st_err Incompatible else
  generation ← read u64;
  execution_length ← read usize;
  host_length ← read usize;
  if (execution_bytes limits <? execution_length) || (host_bytes limits <? host_length) then st_err Limit else
  execution ← take execution_length;
  host ← take host_length;
  mret (mkEnvelope generation execution host).

Definition decode (bs id : list Z) (limits : Limits) : outcome CheckpointError Envelope :=
  total ← total_bytes limits;
  if total <? size bs then Err Limit else
  body_length ← ok_or (length ← checked_sub (size bs) CHECKSUM_BYTES; if HEADER_BYTES <=? length then Some length else None) Truncated;
  let body := list.take (Z.to_nat body_length) bs in
  let checksum := drop (Z.to_nat body_length) bs in
  if negb (bool_decide (sha256 body = checksum)) then Err Integrity else
  reader ← Reader_new body total HEADER_BYTES;
  let '(result, r) := read_envelope id limits reader in
  envelope ← result;
  _ ← finish r;
  Ok envelope.

End Envelope.

End Checkpoint.
