(* ===== verification/CheckpointLaws.v ===== *)
(** What a codec of a checkpoint does: [Lawful] says that it writes an encoding of the
    value, and reads back exactly the encodings, within a charge and a depth that the
    value determines.  The codecs of the basic types are lawful, and the combinators
    make lawful codecs of lawful codecs. *)

From S2P Require Import Prelude Words Unicode Bytes Checkpoint.
Import Checkpoint.

Module CheckpointLaws.

(** ** What a writer writes *)

Definition writer_ok (w : Writer) : Prop := size (written w) <= maximum w <= usize_max.

Definition writes (m : WriteM unit) (bs : list Z) : Prop := forall w, writer_ok w ->
  if size (written w) + size bs <=? maximum w then m w = (Ok tt, mkWriter (written w ++ bs) (maximum w)) else (m w).1 = Err Limit.

Lemma ck_size_app {A} (l1 l2 : list A) : size (l1 ++ l2) = size l1 + size l2.
Proof. unfold size. rewrite length_app. lia. Qed.

Lemma writes_put bs : writes (put bs) bs.
Proof.
  intros w [H1 H2]. unfold put. destruct (Z.leb_spec (size (written w) + size bs) (maximum w)).
  - rewrite checked_add_le by lia. by rewrite (proj2 (Z.ltb_ge _ _)) by lia.
  - destruct (checked_add _ _ _) as [n|] eqn:E; [|done]. apply checked_add_Some in E as [-> _]. by rewrite (proj2 (Z.ltb_lt _ _)) by lia.
Qed.

Lemma writes_nothing : writes (mret tt) [].
Proof.
  intros w [H1 H2]. unfold size in *. cbn [length]. rewrite (proj2 (Z.leb_le _ _)) by lia. rewrite app_nil_r. by destruct w.
Qed.

Lemma writes_bind m1 m2 bs1 bs2 : writes m1 bs1 -> writes m2 bs2 -> writes (m1 ≫= fun _ => m2) (bs1 ++ bs2).
Proof.
  intros H1 H2 w Hw. specialize (H1 w Hw). rewrite ck_size_app. unfold mbind, ST_bind. destruct Hw as [Hw1 Hw2].
  destruct (Z.leb_spec (size (written w) + size bs1) (maximum w)) as [Hle|Hgt].
  - rewrite H1. specialize (H2 (mkWriter (written w ++ bs1) (maximum w))). cbn [written maximum] in H2. unfold writer_ok in H2.
    cbn [written maximum] in H2. rewrite ck_size_app in H2. specialize (H2 ltac:(lia)). rewrite <- app_assoc, <- Z.add_assoc in H2. exact H2.
  - destruct (m1 w) as [o s]. cbn [fst] in H1. subst o. rewrite (proj2 (Z.leb_gt _ _)); [done|]. unfold size in *. lia.
Qed.

(** ** What a reader accepts *)

Definition reader_ok (r : Reader) : Prop := is_bytes (bytes r) /\ 0 <= allocation_left r /\ 0 <= depth r <= 64.

(** [r'] is [r] after [bs] was read, with a charge of [c] and [h] levels more. *)
Record consumed (bs : list Z) (c h : Z) (r r' : Reader) : Prop := {
  co_bytes : bytes r = bs ++ bytes r';
  co_charge : allocation_left r = c + allocation_left r';
  co_left : 0 <= allocation_left r';
  co_depth : depth r' = depth r;
  co_room : depth r + h <= 64 }.

Definition reads {A} (m : ReadM A) (ok : A -> Prop) (enc : A -> list Z) (charge height : A -> Z) : Prop := forall r, reader_ok r ->
  (m r).1 <> Panic /\ forall a r', m r = (Ok a, r') <-> ok a /\ consumed (enc a) (charge a) (height a) r r'.

Lemma consumed_ok bs c h r r' : reader_ok r -> consumed bs c h r r' -> reader_ok r'.
Proof.
  intros (Hb & Ha & Hd) [E1 E2 E3 E4 E5]. rewrite E1 in Hb. apply Forall_app in Hb as [_ Hb]. split; [done|]. split; [done|]. lia.
Qed.

Lemma consumed_nothing r r' : reader_ok r -> consumed [] 0 0 r r' <-> r = r'.
Proof.
  intros (_ & Ha & Hd). split; [|intros <-; split; simpl; lia || done]. intros [E1 E2 E3 E4 E5]. destruct r, r'. simpl in *. by subst.
Qed.

Lemma consumed_app bs1 bs2 c1 c2 h1 h2 r r' : 0 <= c2 ->
  consumed (bs1 ++ bs2) (c1 + c2) (Z.max h1 h2) r r' <-> exists m, consumed bs1 c1 h1 r m /\ consumed bs2 c2 h2 m r'.
Proof.
  intros Hc. split.
  - intros [E1 E2 E3 E4 E5]. exists (mkReader (bs2 ++ bytes r') (c2 + allocation_left r') (depth r)).
    split; split; simpl; rewrite ?app_assoc; lia || done.
  - intros (m & [E1 E2 E3 E4 E5] & [F1 F2 F3 F4 F5]). split; [|lia..]. by rewrite E1, F1, app_assoc.
Qed.

Lemma reads_mono {A} (m : ReadM A) (ok ok' : A -> Prop) (enc enc' : A -> list Z) (c c' h h' : A -> Z) : reads m ok enc c h ->
  (forall a, ok a <-> ok' a) -> (forall a, ok' a -> enc a = enc' a /\ c a = c' a /\ h a = h' a) -> reads m ok' enc' c' h'.
Proof.
  intros H Ho He r Hr. destruct (H r Hr) as [Hp Hi]. split; [done|]. intros a r'. rewrite Hi, Ho. split; intros [Ha Hc]; split; try done;
    destruct (He a Ha) as (E1 & E2 & E3); [by rewrite <- E1, <- E2, <- E3|by rewrite E1, E2, E3].
Qed.

Lemma read_ret {A} (x : A) : reads (mret x) (fun a => a = x) (fun _ => []) (fun _ => 0) (fun _ => 0).
Proof.
  intros r Hr. split; [done|]. intros a r'. rewrite consumed_nothing by done. unfold mret, ST_ret. naive_solver.
Qed.

Lemma read_err {A} (e : CheckpointError) : reads (A:=A) (st_err e) (fun _ => False) (fun _ => []) (fun _ => 0) (fun _ => 0).
Proof. intros r Hr. split; [done|]. intros a r'. split; [done|]. by intros [[] _]. Qed.

Lemma reads_never {A} (e : CheckpointError) (ok : A -> Prop) enc c h : (forall a, ~ ok a) -> reads (st_err e) ok enc c h.
Proof. intros Hn r Hr. split; [done|]. intros a r'. split; [done|]. intros [Ha _]. by destruct (Hn a). Qed.

(** Reading [a], and then a [b] that determines [a]. *)
Lemma read_bind {A B} (m : ReadM A) (f : A -> ReadM B) (ok1 : A -> Prop) enc1 c1 h1 (ok2 : A -> B -> Prop) enc2 c2 h2
    (ok : B -> Prop) (enc : B -> list Z) (c h : B -> Z) :
  reads m ok1 enc1 c1 h1 -> (forall a, ok1 a -> reads (f a) (ok2 a) (enc2 a) (c2 a) (h2 a)) ->
  (forall a b, ok2 a b -> 0 <= c2 a b) ->
  (forall b, ok b <-> exists a, ok1 a /\ ok2 a b) ->
  (forall a b, ok1 a -> ok2 a b -> enc b = enc1 a ++ enc2 a b /\ c b = c1 a + c2 a b /\ h b = Z.max (h1 a) (h2 a b)) ->
  reads (m ≫= f) ok enc c h.
Proof.
  intros H1 H2 Hc Ho He r Hr. destruct (H1 r Hr) as [Hp Hi]. unfold mbind, ST_bind.
  destruct (m r) as [[a|e|] r1] eqn:Em; [|split; [done|]|done].
  - pose proof (proj1 (Hi a r1) eq_refl) as [Ha Hcons]. pose proof (consumed_ok _ _ _ _ _ Hr Hcons) as Hr1.
    destruct (H2 a Ha r1 Hr1) as [Hp2 Hi2]. split; [done|]. intros b r'. rewrite Hi2. split.
    + intros [Hb Hcons2]. split; [apply Ho; eauto|]. destruct (He a b Ha Hb) as (-> & -> & ->). apply consumed_app; eauto.
    + intros [Hb Hcons']. apply Ho in Hb as (a' & Ha' & Hb). destruct (He a' b Ha' Hb) as (E1 & E2 & E3). rewrite E1, E2, E3 in Hcons'.
      apply consumed_app in Hcons' as (r1' & Hc1 & Hc2); [|by eauto].
      pose proof (proj2 (Hi a' r1') (conj Ha' Hc1)) as E. injection E as <- <-. by split.
  - intros b r'. split; [done|]. intros [Hb Hcons']. apply Ho in Hb as (a' & Ha' & Hb). destruct (He a' b Ha' Hb) as (E1 & E2 & E3).
    rewrite E1, E2, E3 in Hcons'. apply consumed_app in Hcons' as (r1' & Hc1 & Hc2); [|by eauto].
    by pose proof (proj2 (Hi a' r1') (conj Ha' Hc1)) as E.
Qed.

Lemma reads_take n : 0 <= n -> reads (take n) (fun bs => is_bytes bs /\ size bs = n) (fun bs => bs) (fun _ => 0) (fun _ => 0).
Proof.
  intros Hn r (Hb & Ha & Hd). unfold take. destruct (Z.leb_spec n (size (bytes r))) as [Hle|Hgt]; (split; [done|]); intros bs r'; split.
  - intros [= <- <-]. unfold size in *. rewrite length_take. split; [split; [by apply Forall_take|lia]|].
    split; simpl; [by rewrite take_drop|lia..].
  - intros [[_ Hs] [E1 E2 E3 E4 E5]]. unfold size in Hs. rewrite E1, take_app_length', drop_app_length' by lia. f_equal. destruct r'. simpl in *. f_equal; lia.
  - done.
  - intros [[_ Hs] [E1 _ _ _ _]]. unfold size in *. rewrite E1, length_app in Hgt. lia.
Qed.

Lemma reads_allocate {A} b n (m : ReadM A) (ok : A -> Prop) enc (c : A -> Z) (h : A -> Z) : 0 <= n ->
  (n * Z.max b 1 <= usize_max -> reads m ok enc c h) -> (forall a, ok a -> 0 <= c a /\ n * Z.max b 1 <= usize_max) ->
  reads (allocate b n ≫= fun _ => m) ok enc (fun a => n * Z.max b 1 + c a) h.
Proof.
  intros Hn Hm Hc r (Hb & Ha & Hd). unfold mbind, ST_bind, allocate. destruct (checked_mul _ _ _) as [amount|] eqn:Em.
  - apply checked_mul_Some in Em as [-> Hle]. destruct (checked_sub _ _) as [l|] eqn:Es.
    + apply checked_sub_Some in Es as [-> Hs]. destruct (Hm Hle (mkReader (bytes r) (allocation_left r - n * Z.max b 1) (depth r))) as [Hp Hi].
      { split; [done|]. simpl. lia. }
      split; [done|]. intros a r'. rewrite Hi. split; intros [H1 [E1 E2 E3 E4 E5]]; (split; [done|]); split; simpl in *; lia || done.
    + split; [done|]. intros a r'. split; [done|]. intros [H1 [E1 E2 E3 E4 E5]]. destruct (Hc a H1).
      unfold checked_sub in Es. destruct (Z.leb_spec (n * Z.max b 1) (allocation_left r)); [done|lia].
  - split; [done|]. intros a r'. split; [done|]. intros [H1 _]. destruct (Hc a H1).
    unfold checked_mul in Em. destruct (Z.leb_spec (n * Z.max b 1) usize_max); [done|lia].
Qed.

Lemma reads_nested {A} (m : ReadM A) (ok : A -> Prop) enc (c h : A -> Z) : reads m ok enc c h -> (forall a, ok a -> 0 <= h a) ->
  reads (nested m) ok enc c (fun a => h a + 1).
Proof.
  intros Hm Hh r (Hb & Ha & Hd). unfold nested. destruct (Z.eqb_spec (depth r) 64) as [E|Hne].
  { split; [done|]. intros a r'. split; [done|]. intros [H1 [E1 E2 E3 E4 E5]]. specialize (Hh a H1). lia. }
  destruct (Hm (set_depth (depth r + 1) r)) as [Hp Hi]; [split; [done|]; simpl; lia|].
  destruct (m (set_depth (depth r + 1) r)) as [o r1]. split; [done|]. intros a r'. split.
  - intros [= -> <-]. pose proof (proj1 (Hi a r1) eq_refl) as [H1 [E1 E2 E3 E4 E5]]. simpl in *. split; [done|]. split; simpl; lia || done.
  - intros [H1 [E1 E2 E3 E4 E5]]. assert (E : (o, r1) = (Ok a, set_depth (depth r + 1) r')).
    { apply Hi. split; [done|]. split; simpl; lia || done. }
    injection E as -> ->. simpl. f_equal. destruct r'. unfold set_depth. simpl in *. f_equal. lia.
Qed.

(** ** Lawful codecs *)

Class Lawful {A} (c : Codec A) := {
  ok : A -> Prop;
  encoding : A -> list Z;
  charge : A -> Z;
  height : A -> Z;
  l_charge : forall a, ok a -> 0 <= charge a;
  l_height : forall a, ok a -> 0 <= height a;
  l_bytes : forall a, ok a -> is_bytes (encoding a);
  l_write : forall a, ok a -> writes (write c a) (encoding a);
  l_read : reads (read c) ok encoding charge height }.
Arguments ok {A} c {_}.
Arguments encoding {A} c {_}.
Arguments charge {A} c {_}.
Arguments height {A} c {_}.

(** A reader followed by a function. *)
Lemma reads_map {A B} (m : ReadM A) (f : A -> B) (ok1 : A -> Prop) enc1 c1 h1 (ok : B -> Prop) enc c h :
  reads m ok1 enc1 c1 h1 -> (forall a, ok1 a -> ok (f a) /\ enc (f a) = enc1 a /\ c (f a) = c1 a /\ h (f a) = h1 a) ->
  (forall b, ok b -> exists a, ok1 a /\ b = f a) -> reads (a ← m; mret (f a)) ok enc c h.
Proof.
  intros Hm Hf Hg r Hr. destruct (Hm r Hr) as [Hp Hi]. unfold mbind, ST_bind, mret, ST_ret.
  destruct (m r) as [[a|e|] r1]; [|split; [done|]|done].
  - split; [done|]. intros b r'. pose proof (proj1 (Hi a r1) eq_refl) as [Ha Hc]. destruct (Hf a Ha) as (Hb & E1 & E2 & E3). split.
    + intros [= <- <-]. by rewrite E1, E2, E3.
    + intros [Hb' Hc']. destruct (Hg b Hb') as (a' & Ha' & ->). destruct (Hf a' Ha') as (_ & F1 & F2 & F3). rewrite F1, F2, F3 in Hc'.
      by pose proof (proj2 (Hi a' r') (conj Ha' Hc')) as [= -> ->].
  - intros b r'. split; [done|]. intros [Hb' Hc']. destruct (Hg b Hb') as (a' & Ha' & ->). destruct (Hf a' Ha') as (_ & F1 & F2 & F3).
    rewrite F1, F2, F3 in Hc'. by pose proof (proj2 (Hi a' r') (conj Ha' Hc')).
Qed.

(** A reader followed by a check. *)
Lemma reads_check {A} (m : ReadM A) (p : A -> bool) e (ok1 : A -> Prop) enc c h : reads m ok1 enc c h ->
  reads (a ← m; if p a then mret a else st_err e) (fun a => ok1 a /\ p a = true) enc c h.
Proof.
  intros Hm r Hr. destruct (Hm r Hr) as [Hp Hi]. unfold mbind, ST_bind, mret, ST_ret.
  destruct (m r) as [[a|e'|] r1]; [|split; [done|]|done].
  - pose proof (proj1 (Hi a r1) eq_refl) as [Ha Hc]. destruct (p a) eqn:Ep; (split; [done|]); intros b r'; split; try done.
    + by intros [= <- <-].
    + intros [[Hb _] Hc']. by pose proof (proj2 (Hi b r') (conj Hb Hc')) as [= -> ->].
    + intros [[Hb Ep'] Hc']. pose proof (proj2 (Hi b r') (conj Hb Hc')) as E. injection E as -> ->. congruence.
  - intros b r'. split; [done|]. intros [[Hb _] Hc']. by pose proof (proj2 (Hi b r') (conj Hb Hc')).
Qed.

Definition unsigned_ok (n : nat) (v : Z) : Prop := 0 <= v < 256 ^ Z.of_nat n.

#[export] Instance unsigned_lawful n : Lawful (unsigned n).
Proof.
  refine {| ok := unsigned_ok n; encoding v := le_bytes n v; charge _ := 0; height _ := 0 |}; [done|done| | |].
  - intros v _. apply le_bytes_is_bytes.
  - intros v _. apply writes_put.
  - eapply reads_map; [apply (reads_take (Z.of_nat n)); lia| |].
    + intros bs [Hb Hs]. unfold size in Hs. assert (length bs = n) by lia. subst n. split; [by apply le_val_bound|]. by rewrite le_bytes_val.
    + intros v Hv. exists (le_bytes n v). rewrite le_val_bytes_small by done. split; [|done]. split; [apply le_bytes_is_bytes|].
      unfold size. by rewrite le_bytes_length.
Defined.

Definition signed_ok (n : nat) (v : Z) : Prop := - 2 ^ (8 * Z.of_nat n - 1) <= v < 2 ^ (8 * Z.of_nat n - 1).

Lemma pow_256 n : 256 ^ Z.of_nat n = 2 ^ (8 * Z.of_nat n).
Proof. change 256 with (2 ^ 8). rewrite <- Z.pow_mul_r by lia. done. Qed.

Lemma le_bytes_mod n z : le_bytes n (z mod 256 ^ Z.of_nat n) = le_bytes n z.
Proof.
  pose proof (le_bytes_val (le_bytes n z) (le_bytes_is_bytes n z)) as H. by rewrite le_bytes_length, le_val_bytes in H.
Qed.

#[export] Instance signed_lawful n : Lawful (signed (S n)).
Proof.
  refine {| ok := signed_ok (S n); encoding v := le_bytes (S n) v; charge _ := 0; height _ := 0 |}; [done|done| | |].
  - intros v _. apply le_bytes_is_bytes.
  - intros v _. apply writes_put.
  - eapply reads_map; [apply (reads_take (Z.of_nat (S n))); lia| |].
    + intros bs [Hb Hs]. unfold size in Hs. assert (Hl : length bs = S n) by lia. unfold as_signed. split; [apply wrap_signed_range; lia|].
      split; [|done]. rewrite <- (le_bytes_mod (S n)), pow_256, wrap_signed_congr, <- pow_256, le_bytes_mod by lia. rewrite <- Hl. by apply le_bytes_val.
    + intros v Hv. exists (le_bytes (S n) v). split; [split; [apply le_bytes_is_bytes|unfold size; by rewrite le_bytes_length]|]. unfold as_signed.
      symmetry. rewrite le_val_bytes, pow_256, (wrap_signed_ext _ _ v) by (apply Z.mod_mod; lia). apply wrap_signed_id; [lia|done].
Defined.

#[export] Instance usize_lawful : Lawful usize.
Proof.
  refine {| ok v := 0 <= v <= usize_max; encoding v := le_bytes 8 v; charge _ := 0; height _ := 0 |}; [done|done| | |].
  - intros v _. apply le_bytes_is_bytes.
  - intros v _. unfold write, usize. replace (if v =? usize_max then u64_max else v) with v; [apply writes_put|]. destruct (Z.eqb_spec v usize_max); by subst.
  - assert (E : forall r, reader_ok r -> read usize r = read u64 r).
    { intros r Hr. unfold usize. cbn [read]. unfold mbind, ST_bind. destruct (@l_read _ _ (unsigned_lawful 8) r Hr) as [_ Hi].
      destruct (read u64 r) as [[v| |] r1] eqn:E; [|done..]. destruct (proj1 (Hi v r1) E) as [Hv _]. simpl in Hv. unfold unsigned_ok in Hv.
      change (256 ^ Z.of_nat 8) with (2 ^ 64) in Hv.
      destruct (Z.eqb_spec v u64_max) as [->|]; [done|]. unfold st_lift, try_from_unsigned, in_range, usize_max.
      rewrite !(proj2 (Z.leb_le _ _)) by lia. done. }
    intros r Hr. rewrite E by done. eapply reads_mono; [apply (@l_read _ _ (unsigned_lawful 8))| |done|done].
    intros v. simpl. unfold unsigned_ok. change (256 ^ Z.of_nat 8) with (2 ^ 64). unfold usize_max. lia.
Defined.

#[export] Instance bool_lawful : Lawful bool_.
Proof.
  refine {| ok _ := True; encoding b := [if (b : bool) then 1 else 0]; charge _ := 0; height _ := 0 |}; [done|done| | |].
  - intros b _. apply Forall_singleton. unfold is_byte. destruct b; lia.
  - intros b _. destruct b; apply writes_put.
  - eapply read_bind with (ok2 := fun v (b : bool) => v = if b then 1 else 0) (enc2 := fun _ _ => []) (c2 := fun _ _ => 0) (h2 := fun _ _ => 0);
      [apply (@l_read _ _ (unsigned_lawful 1))| |done| |].
    + intros v Hv. destruct (Z.eqb_spec v 0) as [->|]; [|destruct (Z.eqb_spec v 1) as [->|]].
      * eapply reads_mono; [apply read_ret| |done]. by intros [].
      * eapply reads_mono; [apply read_ret| |done]. by intros [].
      * eapply reads_mono; [apply read_err| |done]. intros []; split; [done|lia|done|lia].
    + intros b. split; [|done]. intros _. exists (if b then 1 else 0). split; [|done]. simpl. unfold unsigned_ok. destruct b; simpl; lia.
    + intros v b _ ->. by destruct b.
Defined.

#[export] Instance nothing_lawful : Lawful nothing.
Proof.
  refine {| ok _ := True; encoding _ := []; charge _ := 0; height _ := 0 |}; [done|done|done| |].
  - intros [] _. apply writes_nothing.
  - eapply reads_mono; [apply read_ret| |done]. by intros [].
Defined.

Lemma size_charge {A} (l : list A) s : 0 <= size l <= size l * Z.max s 1.
Proof. unfold size. nia. Qed.

Section Combinators.
Context {A : Type} (c : Codec A) {Lc : Lawful c}.

Definition sum_charge (l : list A) : Z := foldr (fun a n => charge c a + n) 0 l.
Definition max_height (l : list A) : Z := foldr (fun a n => Z.max (height c a) n) 0 l.
Definition encode_all (l : list A) : list Z := concat (map (encoding c) l).

Lemma sum_charge_nonneg l : Forall (ok c) l -> 0 <= sum_charge l.
Proof. induction 1 as [|a l Ha _ IH]; simpl; [done|]. pose proof (l_charge a Ha). lia. Qed.

Lemma max_height_nonneg l : 0 <= max_height l.
Proof. induction l; simpl; lia. Qed.

Lemma encode_all_bytes l : Forall (ok c) l -> is_bytes (encode_all l).
Proof. unfold encode_all. induction 1 as [|a l Ha _ IH]; simpl; [done|]. apply is_bytes_app; [by apply l_bytes|done]. Qed.

Lemma writes_all l : Forall (ok c) l -> writes (write_all c l) (encode_all l).
Proof. induction 1 as [|a l Ha _ IH]; [apply writes_nothing|]. apply writes_bind; [by apply l_write|done]. Qed.

Lemma reads_all n : reads (read_all c n) (fun l => Forall (ok c) l /\ length l = n) encode_all sum_charge max_height.
Proof.
  induction n as [|n IH]; cbn [read_all].
  { eapply reads_mono; [apply read_ret| |by intros ? [_ ->%nil_length_inv]]. intros l. split; [by intros ->|]. by intros [_ ?%nil_length_inv]. }
  eapply read_bind with (ok2 := fun a l => exists t, l = a :: t /\ Forall (ok c) t /\ length t = n)
    (enc2 := fun _ l => encode_all (tail l)) (c2 := fun _ l => sum_charge (tail l)) (h2 := fun _ l => max_height (tail l)); [apply l_read| | | |].
  - intros a Ha. eapply reads_map; [apply IH| |].
    + intros t Ht. split; [by exists t|done].
    + intros ? (t & -> & Ht). by exists t.
  - intros a ? (t & -> & Ht & _). by apply sum_charge_nonneg.
  - intros l. split.
    + intros [Hl Hn]. destruct l as [|a t]; [done|]. apply Forall_cons in Hl as [Ha Ht]. exists a. split; [done|]. exists t. by injection Hn.
    + intros (a & Ha & t & -> & Ht & <-). split; [by constructor|done].
  - by intros a ? Ha (t & -> & Ht).
Qed.

#[export] Instance option_lawful b : Lawful (option_ b c).
Proof using Lc.
  refine {| ok o := from_option (ok c) True o; encoding o := match o with Some a => 1 :: encoding c a | None => [0] end;
            charge o := from_option (charge c) 0 o; height o := from_option (height c) 0 o + 1 |}.
  - intros [a|] Ha; [by apply l_charge|done].
  - intros [a|] Ha; simpl; [|lia]. pose proof (l_height a Ha). lia.
  - intros [a|] Ha; [|by apply Forall_singleton]. constructor; [done|]. by apply l_bytes.
  - intros [a|] Ha.
    + apply (writes_bind _ _ [1]); [apply (@l_write _ _ bool_lawful true I)|by apply l_write].
    + apply (writes_bind _ _ [0] []); [apply (@l_write _ _ bool_lawful false I)|apply writes_nothing].
  - apply (reads_nested _ _ _ _ (from_option (height c) 0)); [|intros [a|] Ha; [by apply l_height|done]].
    eapply read_bind with (ok2 := fun (v : bool) o => match o with Some a => v = true /\ ok c a | None => v = false end)
      (enc2 := fun _ o => from_option (encoding c) [] o) (c2 := fun _ => from_option (charge c) 0) (h2 := fun _ => from_option (height c) 0);
      [apply (@l_read _ _ bool_lawful)| | | |].
    + intros [] _.
      * eapply reads_map; [apply l_read|done|]. intros [a|] Ha; [|done]. exists a. by destruct Ha.
      * eapply reads_mono; [apply read_ret| |by intros [a|] Ha; [destruct Ha|]]. intros [a|]; naive_solver.
    + intros v [a|] Ha; [by apply l_charge, Ha|done].
    + intros [a|]; simpl; naive_solver.
    + intros v [a|] _ Ha; simpl; [destruct Ha as [-> Ha]|subst v; done]. pose proof (l_height a Ha). split; [done|]. lia.
Defined.

#[export] Instance vec_lawful b : Lawful (vec_of b c).
Proof using Lc.
  refine {| ok l := Forall (ok c) l /\ size l * Z.max (size_of c) 1 <= usize_max; encoding l := le_bytes 8 (size l) ++ encode_all l;
            charge l := size l * Z.max (size_of c) 1 + sum_charge l; height l := max_height l + 1 |}.
  - intros l [Hl _]. pose proof (sum_charge_nonneg l Hl). pose proof (size_charge l (size_of c)). lia.
  - intros l _. pose proof (max_height_nonneg l). lia.
  - intros l [Hl _]. apply is_bytes_app; [apply le_bytes_is_bytes|by apply encode_all_bytes].
  - intros l [Hl Hs]. apply writes_bind; [|by apply writes_all]. apply (@l_write _ _ usize_lawful). simpl. pose proof (size_charge l (size_of c)). lia.
  - apply (reads_nested _ _ _ _ max_height); [|intros; apply max_height_nonneg].
    eapply read_bind with (ok2 := fun n l => n = size l /\ Forall (ok c) l /\ size l * Z.max (size_of c) 1 <= usize_max)
      (enc2 := fun _ => encode_all) (c2 := fun n l => n * Z.max (size_of c) 1 + sum_charge l) (h2 := fun _ => max_height);
      [apply (@l_read _ _ usize_lawful)| | | |].
    + intros n [Hn _]. apply (reads_allocate _ _ _ _ _ sum_charge); [done| |intros l (-> & Hl & ?); split; [by apply sum_charge_nonneg|done]].
      intros Hle. eapply reads_mono; [apply reads_all| |done]. intros l. unfold size. split.
      * intros [Hl Hs]. assert (Z.of_nat (length l) = n) as -> by lia. done.
      * intros (-> & Hl & _). split; [done|]. lia.
    + intros n l (-> & Hl & _). pose proof (sum_charge_nonneg l Hl). pose proof (size_charge l (size_of c)). lia.
    + intros l. split.
      * intros [Hl Hs]. exists (size l). split; [|done]. simpl. pose proof (size_charge l (size_of c)). lia.
      * by intros (n & _ & _ & Hl).
    + intros n l _ (-> & _). simpl. pose proof (max_height_nonneg l). split; [done|]. lia.
Defined.

#[export] Instance array_lawful n : Lawful (array n c).
Proof using Lc.
  refine {| ok l := Forall (ok c) l /\ length l = n /\ Z.of_nat n * Z.max (size_of c) 1 <= usize_max; encoding := encode_all;
            charge l := Z.of_nat n * Z.max (size_of c) 1 + sum_charge l; height := max_height |}.
  - intros l [Hl _]. pose proof (sum_charge_nonneg l Hl). lia.
  - intros l _. apply max_height_nonneg.
  - intros l [Hl _]. by apply encode_all_bytes.
  - intros l [Hl Hs]. by apply writes_all.
  - apply (reads_allocate _ _ _ _ _ sum_charge); [lia| |intros l (Hl & _ & ?); split; [by apply sum_charge_nonneg|done]].
    intros Hle. eapply reads_mono; [apply reads_all| |done]. naive_solver.
Defined.

#[export] Instance box_lawful : Lawful (box c).
Proof using Lc.
  refine {| ok a := ok c a /\ size_of c <= usize_max; encoding := encoding c; charge a := 1 * Z.max (size_of c) 1 + charge c a;
            height a := height c a + 1 |}.
  - intros a [Ha _]. pose proof (l_charge a Ha). lia.
  - intros a [Ha _]. pose proof (l_height a Ha). lia.
  - intros a [Ha _]. by apply l_bytes.
  - intros a [Ha _]. by apply (@l_write _ c Lc).
  - apply (reads_allocate _ _ _ _ _ (charge c)); [lia| |intros a [Ha Hs]; split; [by apply l_charge|unfold usize_max in *; lia]].
    intros Hle. apply reads_nested; [|intros a [Ha _]; by apply l_height]. eapply reads_mono; [apply l_read| |done].
    intros a. split; [|naive_solver]. intros Ha. split; [done|]. lia.
Defined.

End Combinators.

Lemma encode_bytes s : Forall (ok u8) s -> encode_all u8 s = s.
Proof.
  unfold encode_all. induction 1 as [|b s Hb _ IH]; [done|]. cbn [map concat]. rewrite IH. simpl in *. unfold unsigned_ok in Hb. by rewrite Z.mod_small by lia.
Qed.

Lemma ok_bytes s : Forall (ok u8) s <-> is_bytes s.
Proof. done. Qed.

#[export] Instance string_lawful : Lawful string_.
Proof.
  refine {| ok s := ok (vec u8) s /\ utf8_valid s = true; encoding := encoding (vec u8); charge := charge (vec u8); height := height (vec u8) |}.
  - intros s [Hs _]. by apply l_charge.
  - intros s [Hs _]. by apply l_height.
  - intros s [Hs _]. by apply l_bytes.
  - intros s [[Hs Hn] _]. apply writes_bind; [|simpl; rewrite encode_bytes by done; apply writes_put].
    apply (@l_write _ _ usize_lawful). simpl. pose proof (size_charge s (size_of u8)). lia.
  - apply reads_check, (@l_read _ (vec u8)).
Defined.

#[export] Instance arc_lawful : Lawful arc.
Proof.
  refine {| ok s := is_bytes s /\ size s <= usize_max; encoding s := le_bytes 8 (size s) ++ s; charge s := size s * Z.max 1 1 + (2 * Z.max 8 1 + 0);
            height _ := 0 |}.
  - intros s _. unfold size. lia.
  - done.
  - intros s [Hs _]. apply is_bytes_app; [apply le_bytes_is_bytes|done].
  - intros s [Hs Hn]. apply writes_bind; [|apply writes_put]. apply (@l_write _ _ usize_lawful). simpl. unfold size in *. lia.
  - eapply read_bind with (ok2 := fun n s => n = size s /\ is_bytes s /\ size s <= usize_max) (enc2 := fun _ s => s)
      (c2 := fun n _ => n * Z.max 1 1 + (2 * Z.max 8 1 + 0)) (h2 := fun _ _ => 0); [apply (@l_read _ _ usize_lawful)| | | |].
    + intros n [Hn Hm]. rewrite (proj2 (Z.ltb_ge _ _)) by done.
      apply (reads_allocate _ _ _ _ _ (fun _ => 2 * Z.max 8 1 + 0)); [done| |intros s (-> & Hs & ?); unfold usize_max in *; lia].
      intros _. apply (reads_allocate _ _ _ _ _ (fun _ => 0)); [done| |unfold usize_max; lia]. intros _.
      eapply reads_mono; [by apply reads_take| |done]. intros s. split; [|naive_solver]. intros [? <-]. done.
    + intros n s (-> & _). unfold size. lia.
    + intros s. split; [|naive_solver]. intros [Hs Hn]. exists (size s). split; [|done]. simpl. unfold size in *. lia.
    + intros n s _ (-> & _). done.
Defined.

Section Products.
Context {A B : Type} (a : Codec A) (b : Codec B) {La : Lawful a} {Lb : Lawful b}.

#[export] Instance pair_lawful n : Lawful (pair_ n a b).
Proof using La Lb.
  refine {| ok v := ok a v.1 /\ ok b v.2; encoding v := encoding a v.1 ++ encoding b v.2; charge v := charge a v.1 + charge b v.2;
            height v := Z.max (height a v.1) (height b v.2) |}.
  - intros [x y] [Hx Hy]. pose proof (l_charge x Hx). pose proof (l_charge y Hy). simpl in *. lia.
  - intros [x y] [Hx Hy]. pose proof (l_height x Hx). simpl in *. lia.
  - intros [x y] [Hx Hy]. apply is_bytes_app; by apply l_bytes.
  - intros [x y] [Hx Hy]. apply writes_bind; by apply l_write.
  - eapply read_bind with (ok2 := fun x v => v.1 = x /\ ok b v.2) (enc2 := fun _ v => encoding b v.2) (c2 := fun _ v => charge b v.2)
      (h2 := fun _ v => height b v.2); [apply l_read| | | |].
    + intros x Hx. eapply reads_map; [apply l_read|done|]. intros [x' y] [<- Hy]. by exists y.
    + intros x v [_ Hv]. by apply l_charge.
    + intros [x y]. split; [intros [Hx Hy]; by exists x|]. by intros (x' & Hx & <- & Hy).
    + by intros x [x' y] Hx [<- Hy].
Defined.

End Products.

(** [to] and [build] are inverse to each other. *)
Class Iso {A F} (to : A -> F) (build : F -> A) : Prop := { iso_to : forall a, build (to a) = a; iso_build : forall f, to (build f) = f }.

#[export] Instance struct_lawful {A F} n (c : Codec F) (to : A -> F) (build : F -> A) {Lc : Lawful c} {Hiso : Iso to build} :
  Lawful (checkpoint_struct n c to build).
Proof.
  refine {| ok v := ok c (to v); encoding v := encoding c (to v); charge v := charge c (to v); height v := height c (to v) |}.
  - intros v. apply l_charge.
  - intros v. apply l_height.
  - intros v. apply l_bytes.
  - intros v. apply (@l_write _ c Lc).
  - eapply reads_map; [apply l_read| |].
    + intros f Hf. by rewrite !(@iso_build _ _ to build).
    + intros v Hv. exists (to v). by rewrite (@iso_to _ _ to build).
Defined.

(** ** Enums *)

Lemma writes_u8 v : 0 <= v < 256 -> writes (write u8 v) [v].
Proof. intros Hv. replace [v] with (le_bytes 1 v) by (simpl; by rewrite Z.mod_small). apply writes_put. Qed.

Class Matches {A} (v : Variant A) : Prop := v_matches : forall a f, v_match v a = Some f <-> a = v_make v f.

(** The first variant that matches, with its fields' properties. *)
Class LawfulVariants {A} (vs : list (Variant A)) := {
  vs_ok : A -> Prop;
  vs_tag : A -> Z;
  vs_encoding : A -> list Z;
  vs_charge : A -> Z;
  vs_height : A -> Z;
  vs_tags : forall a, vs_ok a -> unsigned_ok 1 (vs_tag a) /\ vs_tag a ∈ map v_tag vs;
  vs_some : forall a, vs_ok a -> Exists (fun v => v_match v a <> None) vs;
  vs_charge_nonneg : forall a, vs_ok a -> 0 <= vs_charge a;
  vs_height_nonneg : forall a, vs_ok a -> 0 <= vs_height a;
  vs_bytes : forall a, vs_ok a -> is_bytes (vs_encoding a);
  vs_write : forall a, vs_ok a -> writes (write_variant vs a) (vs_tag a :: vs_encoding a);
  vs_read : forall t, reads (read_variant vs t) (fun a => vs_ok a /\ vs_tag a = t) vs_encoding vs_charge vs_height }.

#[export] Instance no_variants A : LawfulVariants (@nil (Variant A)).
Proof.
  refine {| vs_ok _ := False; vs_tag _ := 0; vs_encoding _ := []; vs_charge _ := 0; vs_height _ := 0 |}; try done.
  intros t. eapply reads_mono; [apply read_err| |done]. naive_solver.
Defined.

(** A tag that no line below uses, and a constructor that none below matches. *)
Class Fresh {A} (v : Variant A) (vs : list (Variant A)) : Prop := {
  f_tag : 0 <= v_tag v < 256;
  f_tags : v_tag v ∉ map v_tag vs;
  f_apart : forall f, Forall (fun u => v_match u (v_make v f) = None) vs }.

#[export] Instance more_variants {A} (v : Variant A) (vs : list (Variant A)) {Lv : Lawful (v_codec v)} {Lvs : LawfulVariants vs}
  {Hm : Matches v} {Hf : Fresh v vs} : LawfulVariants (v :: vs).
Proof.
  refine {| vs_ok a := match v_match v a with Some f => ok (v_codec v) f | None => vs_ok a end;
            vs_tag a := match v_match v a with Some f => v_tag v | None => vs_tag a end;
            vs_encoding a := match v_match v a with Some f => encoding (v_codec v) f | None => vs_encoding a end;
            vs_charge a := match v_match v a with Some f => charge (v_codec v) f | None => vs_charge a end;
            vs_height a := match v_match v a with Some f => height (v_codec v) f | None => vs_height a end |}.
  - intros a Ha. destruct (v_match v a) as [f|]; [split; [apply Hf|by left]|]. destruct (vs_tags a Ha). split; [done|by right].
  - intros a Ha. destruct (v_match v a) as [f|] eqn:E; [left; by rewrite E|right; by apply vs_some].
  - intros a Ha. destruct (v_match v a) as [f|]; [by apply l_charge|by apply vs_charge_nonneg].
  - intros a Ha. destruct (v_match v a) as [f|]; [by apply l_height|by apply vs_height_nonneg].
  - intros a Ha. destruct (v_match v a) as [f|]; [by apply l_bytes|by apply vs_bytes].
  - intros a Ha. cbn [write_variant]. destruct (v_match v a) as [f|]; [|by apply vs_write].
    apply (writes_bind _ _ [v_tag v]); [apply writes_u8, f_tag|by apply l_write].
  - intros t. cbn [read_variant]. destruct (Z.eqb_spec t (v_tag v)) as [->|Hne].
    + eapply reads_map; [apply l_read| |].
      * intros f Hf'. by rewrite (proj2 (Hm (v_make v f) f)).
      * intros a [Ha Ht]. destruct (v_match v a) as [f|] eqn:E; [exists f; split; [done|by apply Hm]|].
        destruct (vs_tags a Ha) as [_ Hin]. rewrite Ht in Hin. by destruct (f_tags Hin).
    + eapply reads_mono; [apply vs_read| |].
      * intros a. destruct (v_match v a) as [f|] eqn:E; [|done]. split; [|naive_solver]. intros [Ha Ht].
        apply Hm in E as ->. exfalso. eapply Exists_not_Forall; [by apply vs_some|]. eapply Forall_impl; [apply f_apart|]. intros u Hu. by rewrite Hu.
      * intros a [Ha Ht]. destruct (v_match v a); [naive_solver|done].
Defined.

#[export] Instance enum_lawful {A} n (vs : list (Variant A)) {Lvs : LawfulVariants vs} : Lawful (checkpoint_enum n vs).
Proof.
  refine {| ok := vs_ok; encoding a := vs_tag a :: vs_encoding a; charge := vs_charge; height a := vs_height a + 1 |}.
  - apply vs_charge_nonneg.
  - intros a Ha. pose proof (vs_height_nonneg a Ha). lia.
  - intros a Ha. constructor; [apply vs_tags, Ha|by apply vs_bytes].
  - apply vs_write.
  - apply (reads_nested _ _ _ _ vs_height); [|apply vs_height_nonneg].
    eapply read_bind with (ok2 := fun t a => vs_ok a /\ vs_tag a = t) (enc2 := fun _ => vs_encoding) (c2 := fun _ => vs_charge) (h2 := fun _ => vs_height);
      [apply (@l_read _ _ (unsigned_lawful 1))| | | |].
    + intros t _. apply vs_read.
    + intros t a [Ha _]. by apply vs_charge_nonneg.
    + intros a. split; [|naive_solver]. intros Ha. exists (vs_tag a). split; [by apply vs_tags|done].
    + intros t a _ [Ha <-]. pose proof (vs_height_nonneg a Ha). destruct (vs_tags a Ha) as [Ht _]. simpl. unfold unsigned_ok in Ht. simpl in Ht.
      rewrite Z.mod_small by lia. split; [done|]. lia.
Defined.

(** The side conditions of structs and enums hold by case analysis. *)
Ltac solve_iso := split; [by intros [] | intros; by repeat match goal with x : (_ * _)%type |- _ => destruct x end].
#[export] Hint Extern 1 (Iso _ _) => solve_iso : typeclass_instances.

Ltac solve_matches :=
  intros a f; cbn [v_fields constant_variant] in f; repeat match goal with x : (_ * _)%type |- _ => destruct x | x : unit |- _ => destruct x end; destruct a;
  cbn [v_match v_make constant_variant]; repeat case_decide; naive_solver.
#[export] Hint Extern 1 (Matches _) => solve_matches : typeclass_instances.

#[export] Hint Extern 0 (Lawful (v_codec _)) => progress cbn [v_codec constant_variant] : typeclass_instances.

Ltac solve_fresh :=
  split; [cbn; lia | cbn; rewrite ?elem_of_cons, ?elem_of_nil; lia | intros f; cbn [v_fields constant_variant] in f;
    repeat match goal with x : (_ * _)%type |- _ => destruct x end; cbn; repeat constructor; cbn; by repeat case_decide].
#[export] Hint Extern 1 (Fresh _ _) => solve_fresh : typeclass_instances.

End CheckpointLaws.
