(* ===== verification/CheckpointState.v ===== *)
(** src/execution/checkpoint/value.rs, host.rs, task.rs, channel.rs, external_roots.rs and
    requests.rs: how the states of the runtime's components are written, and what is
    checked of a state that was read.

    The sizes of structs and enums, which Rust does not fix, are parameters. *)

From S2P Require Import Prelude Words Value Checkpoint Heap Gc Task Channel Requests.
Import Checkpoint.

Module CheckpointState.

(** [if cond { return Err(InvalidState) }]. *)
Abbreviation Check := (outcome CheckpointError).
Definition reject (b : bool) : Check unit := if b then Err InvalidState else Ok tt.

(** [TaskId(u32)], [RequestId(u64)]. *)
Definition TaskId : Codec Z := u32.
Definition RequestId : Codec Z := u64.

Definition Ref32 : Codec Value.Ref32 := checkpoint_struct 4 u32 Value.bits Value.mkRef32.

Section Sizes.
Context (size_value size_option_u32 size_option_usize size_option_ref : Z)
        (size_wait size_state size_task size_scheduler : Z)
        (size_kind size_waiter size_channel size_arena : Z)
        (size_entry size_slot size_merge size_request size_limits size_table : Z).

Definition RuntimeValue : Codec Value.RuntimeValue := checkpoint_enum size_value
  [mkVariant 0 _ i32 Value.I32 (fun v => match v with Value.I32 x => Some x | _ => None end);
   mkVariant 1 _ i64 Value.I64 (fun v => match v with Value.I64 x => Some x | _ => None end);
   mkVariant 2 _ u32 Value.F32 (fun v => match v with Value.F32 x => Some x | _ => None end);
   mkVariant 3 _ u64 Value.F64 (fun v => match v with Value.F64 x => Some x | _ => None end);
   mkVariant 4 _ bool_ Value.Bool (fun v => match v with Value.Bool x => Some x | _ => None end);
   mkVariant 5 _ u16 Value.Char (fun v => match v with Value.Char x => Some x | _ => None end);
   constant_variant 6 Value.Null;
   mkVariant 7 _ Ref32 Value.Reference (fun v => match v with Value.Reference x => Some x | _ => None end)].

(** ** Tasks *)

Definition TaskWait : Codec Task.TaskWait := checkpoint_enum size_wait
  [mkVariant 0 _ RequestId Task.Host (fun w => match w with Task.Host x => Some x | _ => None end);
   mkVariant 1 _ TaskId Task.Join (fun w => match w with Task.Join x => Some x | _ => None end);
   mkVariant 2 _ u32 Task.Channel (fun w => match w with Task.Channel x => Some x | _ => None end)].

Definition TaskState : Codec Task.TaskState := checkpoint_enum size_state
  [constant_variant 0 Task.Vacant;
   constant_variant 1 Task.Ready;
   constant_variant 2 Task.Running;
   mkVariant 3 _ TaskWait Task.Waiting (fun s => match s with Task.Waiting w => Some w | _ => None end);
   constant_variant 4 Task.Completed].

Definition TaskRecord : Codec Task.TaskRecord := checkpoint_struct size_task
  (fields (option_ size_option_u32 TaskId) TaskState)
  (fun t => (Task.id t, Task.state t)) (fun '(i, s) => Task.mkTask i s).

Definition TaskScheduler : Codec Task.TaskScheduler := checkpoint_struct size_scheduler
  (fields (boxed TaskRecord) (fields (boxed usize) (fields usize (fields usize (fields (option_ size_option_usize usize) u32)))))
  (fun s => (Task.tasks s, (Task.ready s, (Task.ready_head s, (Task.ready_len s, (Task.active s, Task.next_id s))))))
  (fun '(t, (r, (h, (l, (a, n))))) => Task.mkScheduler t r h l a n).

(** ** Channels *)

Definition WaitKind : Codec Channel.WaitKind := checkpoint_enum size_kind
  [constant_variant 0 Channel.WNone;
   mkVariant 1 _ (fields i32 usize) (fun '(v, r) => Channel.WSend v r) (fun k => match k with Channel.WSend v r => Some (v, r) | _ => None end);
   mkVariant 2 _ (fields u16 usize) (fun '(d, r) => Channel.WReceive d r) (fun k => match k with Channel.WReceive d r => Some (d, r) | _ => None end)].

Definition Waiter : Codec Channel.Waiter := checkpoint_struct size_waiter
  (fields (option_ size_option_u32 TaskId) (fields usize WaitKind))
  (fun w => (Channel.w_task w, (Channel.w_next w, Channel.w_kind w))) (fun '(t, (n, k)) => Channel.mkWaiter t n k).

Definition Channel_ : Codec Channel.Channel := checkpoint_struct size_channel
  (fields usize (fields usize (fields usize (fields usize (fields usize (fields usize (fields usize usize)))))))
  (fun c => (Channel.values_start c, (Channel.capacity c, (Channel.head c, (Channel.len c, (Channel.send_head c, (Channel.send_tail c,
             (Channel.receive_head c, Channel.receive_tail c))))))))
  (fun '(vs, (cap, (h, (l, (sh, (st, (rh, rt))))))) => Channel.mkChannel vs cap h l sh st rh rt).

Definition ChannelArena : Codec Channel.ChannelArena := checkpoint_struct size_arena
  (fields (boxed Channel_) (fields (boxed i32) (fields (boxed Waiter) (fields usize usize))))
  (fun a => (Channel.channels a, (Channel.values a, (Channel.waiters a, (Channel.channel_count a, Channel.value_count a)))))
  (fun '(c, (v, (w, (n, m)))) => Channel.mkArena c v w n m).

(** ** External roots *)

Definition ExternalHandle : Codec Gc.ExternalHandle := checkpoint_struct 8
  (fields u32 u32) (fun h => (Gc.eh_slot h, Gc.eh_generation h)) (fun '(s, g) => Gc.mkExternalHandle s g).

Definition ExternalRootEntry : Codec Gc.ExternalRootEntry := checkpoint_struct size_entry
  (fields u32 (option_ size_option_ref Ref32)) (fun e => (Gc.e_generation e, Gc.e_value e)) (fun '(g, v) => Gc.mkEntry g v).

Definition ExternalRootTable : Codec (list Gc.ExternalRootEntry) := boxed ExternalRootEntry.

(** ** Host requests *)

Definition HostRequestIdentity : Codec Requests.HostRequestIdentity := checkpoint_struct 16
  (fields TaskId RequestId) (fun i => (Requests.task i, Requests.request i)) (fun '(t, r) => Requests.mkIdentity t r).

Definition HostMergeEntry : Codec Requests.HostMergeEntry := checkpoint_struct 8
  (fields u32 u32) (fun e => (Requests.key e, Requests.value e)) (fun '(k, v) => Requests.mkMerge k v).

Definition HostRequestMerge : Codec Requests.HostRequestMerge := checkpoint_enum size_merge
  [mkVariant 0 _ nothing (fun _ => Requests.Ordinary) (fun m => match m with Requests.Ordinary => Some tt | _ => None end);
   mkVariant 1 _ (fields u32 (boxed HostMergeEntry)) (fun '(g, e) => Requests.LastWriteWins g e)
     (fun m => match m with Requests.LastWriteWins g e => Some (g, e) | _ => None end)].

Definition HostValueSlot : Codec Requests.HostValueSlot := checkpoint_enum size_slot
  [mkVariant 0 _ nothing (fun _ => Requests.Empty) (fun v => match v with Requests.Empty => Some tt | _ => None end);
   mkVariant 1 _ i32 Requests.I32 (fun v => match v with Requests.I32 x => Some x | _ => None end);
   mkVariant 2 _ i64 Requests.I64 (fun v => match v with Requests.I64 x => Some x | _ => None end);
   mkVariant 3 _ u32 Requests.F32 (fun v => match v with Requests.F32 x => Some x | _ => None end);
   mkVariant 4 _ u64 Requests.F64 (fun v => match v with Requests.F64 x => Some x | _ => None end);
   mkVariant 5 _ bool_ Requests.SBool (fun v => match v with Requests.SBool x => Some x | _ => None end);
   mkVariant 6 _ u16 Requests.Char (fun v => match v with Requests.Char x => Some x | _ => None end);
   mkVariant 7 _ (fields u32 u32) (fun '(s, l) => Requests.SString s l) (fun v => match v with Requests.SString s l => Some (s, l) | _ => None end);
   mkVariant 9 _ (fields u32 u32) (fun '(s, l) => Requests.ByteArray s l) (fun v => match v with Requests.ByteArray s l => Some (s, l) | _ => None end)].

Definition PendingHostRequest : Codec Requests.PendingHostRequest := checkpoint_struct size_request
  (fields HostRequestIdentity (fields u32 (fields u32 (fields (boxed HostValueSlot) (fields (boxed u16) (fields (boxed u8) HostRequestMerge))))))
  (fun r => (Requests.identity r, (Requests.capability r, (Requests.operation r, (Requests.arguments r, (Requests.utf16 r, (Requests.bytes r,
             Requests.merge r)))))))
  (fun '(i, (c, (o, (a, (u, (b, m)))))) => Requests.mkRequest i c o a u b m).

Definition RequestTableLimits : Codec Requests.RequestTableLimits := checkpoint_struct size_limits
  (fields usize (fields usize (fields usize (fields usize (fields usize (fields usize usize))))))
  (fun l => (Requests.maximum_requests l, (Requests.maximum_arguments_per_request l, (Requests.maximum_total_arguments l,
             (Requests.maximum_utf16_per_request l, (Requests.maximum_total_utf16 l, (Requests.maximum_merge_entries_per_request l,
              Requests.maximum_total_merge_entries l)))))))
  (fun '(a, (b, (c, (d, (e, (f, g)))))) => Requests.mkLimits a b c d e f g).

Definition PendingRequestTable : Codec Requests.PendingRequestTable := checkpoint_struct size_table
  (fields RequestTableLimits (fields (vec PendingHostRequest) (fields usize (fields usize usize))))
  (fun t => (Requests.limits t, (Requests.requests t, (Requests.total_arguments t, (Requests.total_utf16 t, Requests.total_merge_entries t)))))
  (fun '(l, (r, (a, (u, m)))) => Requests.mkTable l r a u m).

End Sizes.

(** ** Checks of a scheduler *)

Module Tasks.
Import Task.

(** The [for] loop over the waits of a task; [n] iterations are left. *)
Fixpoint join_chain (s : TaskScheduler) (slot_ : Z) (n : nat) (cursor : Z) : Check unit :=
  match n with
  | O => Ok tt
  | S remaining =>
      target ← ok_or (slot s cursor) InvalidState;
      t ← expect (zget (tasks s) target);
      if (target =? slot_) || bool_decide (state t = Completed) then Err InvalidState else
      match state t with
      | Waiting (Join next) => if (remaining =? 0)%nat then Err InvalidState else join_chain s slot_ remaining next
      | _ => Ok tt
      end
  end.

(** The identifiers seen so far, with that of the task. *)
Definition check_id (s : TaskScheduler) (ids : list Z) (t : TaskRecord) : Check (list Z) :=
  match id t with
  | None => if bool_decide (state t = Vacant) then Ok ids else Err InvalidState
  | Some tid =>
      if negb (tid =? 0) && (tid <? next_id s) && negb (bool_decide (state t = Vacant)) && negb (bool_decide (tid ∈ ids))
      then Ok (tid :: ids) else Err InvalidState
  end.

Definition check_task (s : TaskScheduler) (capacity : Z) (ids : list Z) (slot_ : Z) (t : TaskRecord) : Check (list Z) :=
  ids ← check_id s ids t;
  _ ← reject (negb (eqb (bool_decide (state t = Running)) (bool_decide (active s = Some slot_))));
  _ ← reject match state t with Waiting (Host request) => request =? 0 | Waiting (Channel channel) => channel =? 0 | _ => false end;
  _ ← match state t with Waiting (Join target) => join_chain s slot_ (Z.to_nat capacity) target | _ => Ok tt end;
  Ok ids.

Fixpoint check_tasks (s : TaskScheduler) (capacity : Z) (ids : list Z) (slot_ : Z) (ts : list TaskRecord) : Check unit :=
  match ts with
  | [] => Ok tt
  | t :: ts => ids ← check_task s capacity ids slot_ t; check_tasks s capacity ids (slot_ + 1) ts
  end.

(** The slots in the ring from [index] on, [n] of them, into [queued]. *)
Fixpoint check_ready (s : TaskScheduler) (capacity : Z) (queued : list Z) (n : nat) (index : Z) : Check (list Z) :=
  match n with
  | O => Ok queued
  | S n =>
      slot_ ← expect (zget (ready s) ((ready_head s + index) mod capacity));
      if capacity <=? slot_ then Err InvalidState else
      t ← expect (zget (tasks s) slot_);
      if negb (bool_decide (state t = Ready)) || bool_decide (slot_ ∈ queued) then Err InvalidState
      else check_ready s capacity (slot_ :: queued) n (index + 1)
  end.

Definition validate_checkpoint (s : TaskScheduler) (capacity : Z) : Check unit :=
  _ ← reject ((capacity =? 0) || negb (len (tasks s) =? capacity) || negb (len (ready s) =? capacity) || (capacity <=? ready_head s)
              || (capacity <? ready_len s) || (next_id s <? 2) || (i32_max + 1 <? next_id s));
  _ ← check_tasks s capacity [] 0 (tasks s);
  _ ← reject match active s with Some slot_ => capacity <=? slot_ | None => false end;
  queued ← check_ready s capacity [] (Z.to_nat (ready_len s)) 0;
  reject (negb (Z.of_nat (length (filter (fun t => state t = Ready) (tasks s))) =? Z.of_nat (length queued))).

End Tasks.

(** ** Checks of channels *)

Module Channels.
Import Channel.

(** The slots and the tasks of the waiters seen so far. *)
Record Seen := mkSeen { visited : list Z; task_ids : list Z }.

Definition of_kind (send : bool) (k : WaitKind) : bool :=
  match send, k with true, WSend _ _ | false, WReceive _ _ => true | _, _ => false end.

(** [while current != NONE]; a waiter is visited once at most, so [fuel] is their number. *)
Fixpoint check_waiters (a : ChannelArena) (send : bool) (fuel : nat) (seen : Seen) (current last : Z) : Check (Seen * Z) :=
  if current =? NONE then Ok (seen, last) else
  match fuel with
  | O => Panic
  | S fuel =>
      if bool_decide (current ∈ visited seen) then Err InvalidState else
      w ← ok_or (zget (waiters a) current) InvalidState;
      task ← ok_or (t ← w_task w; if negb (t =? 0) then Some t else None) InvalidState;
      if bool_decide (task ∈ task_ids seen) || negb (of_kind send (w_kind w)) then Err InvalidState else
      check_waiters a send fuel (mkSeen (current :: visited seen) (task :: task_ids seen)) (w_next w) current
  end.

Definition check_queue (a : ChannelArena) (c : Channel) (send : bool) (head_ tail_ : Z) (seen : Seen) : Check Seen :=
  _ ← reject (negb (eqb (head_ =? NONE) (tail_ =? NONE))
              || (negb (head_ =? NONE) && (if send then negb (len c =? capacity c) else negb (len c =? 0))));
  '(seen, last) ← check_waiters a send (S (length (waiters a))) seen head_ NONE;
  _ ← reject (negb (last =? tail_));
  Ok seen.

Fixpoint check_channels (a : ChannelArena) (values_ : Z) (start : Z) (seen : Seen) (cs : list Channel) : Check (Z * Seen) :=
  match cs with
  | [] => Ok (start, seen)
  | c :: cs =>
      _ ← reject (negb (values_start c =? start) || (capacity c =? 0) || (capacity c <=? head c) || (capacity c <? len c));
      start ← ok_or (stop ← checked_add usize_max start (capacity c); if stop <=? values_ then Some stop else None) InvalidState;
      seen ← check_queue a c true (send_head c) (send_tail c) seen;
      seen ← check_queue a c false (receive_head c) (receive_tail c) seen;
      check_channels a values_ start seen cs
  end.

Definition check_waiter (seen : Seen) (slot : Z) (w : Waiter) : bool :=
  eqb (bool_decide (is_Some (w_task w))) (bool_decide (slot ∈ visited seen))
  && (bool_decide (is_Some (w_task w)) || (bool_decide (w_kind w = WNone) && (w_next w =? NONE))).

Definition validate_checkpoint (a : ChannelArena) (channels_ values_ tasks : Z) : Check unit :=
  let tasks := if channels_ =? 0 then 0 else tasks in
  _ ← reject (negb (size (channels a) =? channels_) || negb (size (values a) =? values_) || negb (size (waiters a) =? tasks)
              || (channels_ <? channel_count a) || (values_ <? value_count a));
  cs ← expect (slice_get 0 (channel_count a) (channels a));
  '(start, seen) ← check_channels a values_ 0 (mkSeen [] []) cs;
  _ ← reject (negb (start =? value_count a));
  reject (negb (forallb id (imap (fun i w => check_waiter seen (Z.of_nat i) w) (waiters a)))).

End Channels.

(** ** Checks of external roots and of host requests *)

Definition validate_external_roots (entries : list Gc.ExternalRootEntry) : Check unit :=
  reject (existsb (fun e => (Gc.e_generation e =? 0) && bool_decide (is_Some (Gc.e_value e))) entries).

Module Requests_.
Import Requests.

Definition slot_outside (r : PendingHostRequest) (v : HostValueSlot) : bool :=
  let outside start length bound := match checked_add u32_max start length with Some stop => bound <? stop | None => true end in
  match v with
  | ByteArray start length => outside start length (size (bytes r))
  | SString start length => outside start length (size (utf16 r))
  | _ => false
  end.

(** The variables of the loop. *)
Record Totals := mkTotals { identities : list HostRequestIdentity; n_arguments : Z; n_utf16 : Z; n_merges : Z }.

Definition check_request (l : RequestTableLimits) (acc : Totals) (r : PendingHostRequest) : Check Totals :=
  _ ← reject ((task (identity r) =? 0) || (request (identity r) =? 0) || bool_decide (identity r ∈ identities acc)
              || (maximum_arguments_per_request l <? size (arguments r)) || (MAXIMUM_HOST_BYTE_ARRAY_BYTES <? size (bytes r))
              || (maximum_utf16_per_request l <? size (utf16 r)) || (maximum_merge_entries_per_request l <? merge_entry_count r)
              || existsb (slot_outside r) (arguments r));
  arguments ← ok_or (checked_add usize_max (n_arguments acc) (size (arguments r))) Limit;
  utf16 ← ok_or (checked_add usize_max (n_utf16 acc) (size (utf16 r))) Limit;
  merges ← ok_or (checked_add usize_max (n_merges acc) (merge_entry_count r)) Limit;
  Ok (mkTotals (identity r :: identities acc) arguments utf16 merges).

Fixpoint check_requests (l : RequestTableLimits) (acc : Totals) (rs : list PendingHostRequest) : Check Totals :=
  match rs with
  | [] => Ok acc
  | r :: rs => acc ← check_request l acc r; check_requests l acc rs
  end.

#[global] Instance RequestTableLimits_eq : EqDecision RequestTableLimits.
Proof. solve_decision. Defined.

Definition validate_checkpoint (t expected : PendingRequestTable) : Check unit :=
  _ ← reject (negb (bool_decide (limits t = limits expected)) || (maximum_requests (limits t) <? size (requests t)));
  totals ← check_requests (limits t) (mkTotals [] 0 0 0) (requests t);
  reject (negb (n_arguments totals =? total_arguments t) || (maximum_total_arguments (limits t) <? n_arguments totals)
          || negb (n_utf16 totals =? total_utf16 t) || (maximum_total_utf16 (limits t) <? n_utf16 totals)
          || negb (n_merges totals =? total_merge_entries t) || (maximum_total_merge_entries (limits t) <? n_merges totals)).

End Requests_.

End CheckpointState.
