(* ===== verification/CheckpointProps.v ===== *)
(** What checkpoints promise: a saved state is read back and nothing else is accepted
    for it, and the checks of a scheduler and of channels accept exactly the states
    that keep the invariants of the running components. *)

From S2P Require Import Prelude Words Unicode Bytes Value Checkpoint CheckpointLaws Heap Gc Task TaskProps Channel ChannelProps Requests CheckpointState.
Import Checkpoint CheckpointLaws CheckpointState.

Module TaskCheckpoint.
Import Task TaskInv Tasks.

(** Unsigned fields are not negative. *)
Record machine_ints (s : TaskScheduler) : Prop := {
  mi_head : 0 <= ready_head s;
  mi_len : 0 <= ready_len s;
  mi_active : forall a, active s = Some a -> 0 <= a;
  mi_ready : Forall (fun x => 0 <= x) (ready s);
  mi_ids : Forall (fun t => forall x, id t = Some x -> 0 <= x) (tasks s) }.

(** Requests and channels are numbered from one. *)
Definition wait_ok (t : TaskRecord) : Prop :=
  match state t with Waiting (Host r) => r <> 0 | Waiting (Channel c) => c <> 0 | _ => True end.

(** The invariant of the scheduler but for its last part, [root_first]. *)
Record restored_ok (s : TaskScheduler) (q : list Z) : Prop := {
  r_size : length (ready s) = length (tasks s);
  r_ring : ring_ok (ready s) (ready_head s) q;
  r_len : ready_len s = len q;
  r_queue : queue_ok (tasks s) q;
  r_active : active_ok (tasks s) (active s);
  r_vacant : forall i t, zget (tasks s) i = Some t -> id t = None <-> state t = Vacant;
  r_unique : distinct (tasks s);
  r_range : forall i t x, zget (tasks s) i = Some t -> id t = Some x -> 1 <= x < next_id s;
  r_next : 2 <= next_id s <= 2 ^ 31;
  r_joins : exists rank, joins_ok (tasks s) rank }.

(** The slot of the root is the first to be taken. *)
Definition root_first (ts : list TaskRecord) : Prop :=
  forall t, zget ts 0 = Some t -> state t = Vacant -> forall i u, zget ts i = Some u -> state u = Vacant.

Lemma restored_sched s q : sched_ok s q <-> restored_ok s q /\ root_first (tasks s).
Proof.
  split.
  - intros [[? ? ? ? ? [? ? ? ?] ?] ?]. split; [by split|done].
  - intros [[? ? ? ? ? ? ? ? ? ?] ?]. split; [|done]. by split; [..|split|].
Qed.

Lemma check_reject_ok b : reject b = Ok tt <-> b = false.
Proof. by destruct b. Qed.

Section Scheduler.
Context (s : TaskScheduler) (cap : Z).

(** ** The table of tasks *)

Record task_fine (i : Z) (t : TaskRecord) : Prop := {
  tf_vacant : id t = None <-> state t = Vacant;
  tf_id : forall x, id t = Some x -> x <> 0 /\ x < next_id s;
  tf_running : state t = Running <-> active s = Some i;
  tf_wait : wait_ok t;
  tf_join : forall y, state t = Waiting (Join y) -> join_chain s i (Z.to_nat cap) y = Ok tt }.

Lemma check_task_spec ids i t ids' : check_task s cap ids i t = Ok ids' <->
  task_fine i t /\ ids' = option_list (id t) ++ ids /\ forall x, id t = Some x -> x ∉ ids.
Proof.
  unfold check_task, check_id. split.
  - intros H. apply outcome_bind_inv in H as (ids1 & Hid & H). apply outcome_bind_inv in H as ([] & Hrun%check_reject_ok%negb_false_iff%eqb_prop & H).
    apply outcome_bind_inv in H as ([] & Hw%check_reject_ok & H). apply outcome_bind_inv in H as ([] & Hj & H). injection H as <-.
    assert (Hids : (id t = None <-> state t = Vacant) /\ (forall x, id t = Some x -> x <> 0 /\ x < next_id s) /\
      ids1 = option_list (id t) ++ ids /\ forall x, id t = Some x -> x ∉ ids).
    { destruct (id t) as [x|].
      - destruct (_ && _) eqn:E; [|done]. injection Hid as <-. apply andb_true_iff in E as [[[E1 E2]%andb_true_iff E3]%andb_true_iff E4].
        apply negb_true_iff, Z.eqb_neq in E1. apply Z.ltb_lt in E2. apply negb_true_iff, bool_decide_eq_false in E3, E4. naive_solver.
      - destruct (bool_decide_reflect (state t = Vacant)); [|done]. injection Hid as <-. naive_solver. }
    destruct Hids as (H1 & H2 & H3 & H4). split; [|done]. split; [done|done| | |].
    + by rewrite <- (bool_decide_eq_true (state t = Running)), Hrun, bool_decide_eq_true.
    + unfold wait_ok. destruct (state t) as [| | |[r|y|c]|]; try done; by apply Z.eqb_neq in Hw.
    + intros y E. by rewrite E in Hj.
  - intros ([H1 H2 H3 H4 H5] & -> & H6). unfold wait_ok in H4. destruct (id t) as [x|] eqn:Ei.
    + destruct (H2 x eq_refl) as [Hx Hlt]. rewrite (proj2 (Z.eqb_neq x 0)), (proj2 (Z.ltb_lt _ _)) by done.
      rewrite (bool_decide_eq_false_2 (state t = Vacant)), (bool_decide_eq_false_2 (x ∈ ids)) by naive_solver. simpl.
      rewrite (bool_decide_ext _ _ H3), eqb_reflx. simpl. destruct (state t) as [| | |[r|y|c]|] eqn:Es; simpl in *;
        rewrite ?(proj2 (Z.eqb_neq _ _)) by done; simpl; rewrite ?H5 by done; done.
    + rewrite (bool_decide_eq_true_2 (state t = Vacant)) by naive_solver. simpl.
      rewrite (bool_decide_ext _ _ H3), eqb_reflx. simpl. by rewrite (proj1 H1 eq_refl).
Qed.

Lemma check_tasks_spec ts : forall ids i, check_tasks s cap ids i ts = Ok tt <->
  (forall k t, ts !! k = Some t -> task_fine (i + Z.of_nat k) t /\ forall x, id t = Some x -> x ∉ ids) /\
  (forall j k t u x, ts !! j = Some t -> ts !! k = Some u -> id t = Some x -> id u = Some x -> j = k).
Proof.
  induction ts as [|t ts IH]; intros ids i; cbn [check_tasks]; [done|]. split.
  - intros H. apply outcome_bind_inv in H as (ids' & Ht & H). apply check_task_spec in Ht as (Hf & -> & Hnew). apply IH in H as [Hts Hu].
    assert (Hfresh : forall k u x, ts !! k = Some u -> id u = Some x -> id t <> Some x /\ x ∉ ids).
    { intros k u x Hk Hx. destruct (Hts k u Hk) as [_ Hn]. specialize (Hn x Hx). rewrite not_elem_of_app in Hn. destruct Hn as [Hn1 Hn2].
      split; [|done]. intros E. rewrite E in Hn1. apply Hn1. by left. }
    split.
    + intros [|k] u Hk; [injection Hk as <-; by rewrite Z.add_0_r|]. destruct (Hts k u Hk) as [Hfu _]. split.
      * by replace (i + Z.of_nat (S k)) with (i + 1 + Z.of_nat k) by lia.
      * intros x Hx. by destruct (Hfresh k u x Hk Hx).
    + intros [|j] [|k] u v x Hj Hk Hu1 Hv1; [done|injection Hj as <-; by destruct (Hfresh k v x Hk Hv1)|
        injection Hk as <-; by destruct (Hfresh j u x Hj Hu1)|f_equal; by eapply Hu].
  - intros [Hts Hu]. destruct (Hts 0%nat t eq_refl) as [Hf Hnew]. rewrite Z.add_0_r in Hf.
    rewrite (proj2 (check_task_spec ids i t _)) by done. simpl. apply IH. split.
    + intros k u Hk. destruct (Hts (S k) u Hk) as [Hfu Hn]. split; [by replace (i + 1 + Z.of_nat k) with (i + Z.of_nat (S k)) by lia|].
      intros x Hx. rewrite not_elem_of_app. split; [|by apply Hn]. destruct (id t) as [x'|] eqn:Et; [|set_solver].
      intros ->%list_elem_of_singleton. by specialize (Hu 0%nat (S k) t u x' eq_refl Hk Et Hx).
    + intros j k u v x Hj Hk Hu1 Hv1. by specialize (Hu (S j) (S k) u v x Hj Hk Hu1 Hv1) as [= ->].
Qed.

(** ** The ring *)

Definition ready_slot (x : Z) : Prop := x < cap /\ exists t, zget (tasks s) x = Some t /\ state t = Ready.

Lemma check_ready_spec n : forall queued index queued', check_ready s cap queued n index = Ok queued' <->
  exists q, length q = n /\ (forall i x, q !! i = Some x -> zget (ready s) ((ready_head s + (index + Z.of_nat i)) mod cap) = Some x) /\
    Forall ready_slot q /\ NoDup q /\ (forall x, x ∈ q -> x ∉ queued) /\ queued' = rev q ++ queued.
Proof.
  induction n as [|n IH]; intros queued index queued'; cbn [check_ready].
  { split; [intros [= <-]; exists []; split_and!; try done; [constructor|set_solver]|]. by intros (q & ->%nil_length_inv & _ & _ & _ & _ & ->). }
  split.
  - intros H. apply outcome_bind_inv in H as (x & Hx%expect_ok & H). destruct (Z.leb_spec cap x) as [|Hlt]; [done|].
    apply outcome_bind_inv in H as (t & Ht%expect_ok & H). destruct (_ || _) eqn:E; [done|].
    apply orb_false_iff in E as [E1%negb_false_iff%bool_decide_eq_true E2%bool_decide_eq_false].
    apply IH in H as (q & Hl & Hc & Hr & Hn & Hd & ->). exists (x :: q). split; [simpl; lia|]. split.
    { intros [|i] y Hy; [injection Hy as <-; by rewrite Z.add_0_r|]. specialize (Hc i y Hy).
      by replace (index + Z.of_nat (S i)) with (index + 1 + Z.of_nat i) by lia. }
    split; [constructor; [by split; [|exists t]|done]|]. split; [apply NoDup_cons; set_solver|]. split; [set_solver|].
    simpl. by rewrite <- app_assoc.
  - intros (q & Hl & Hc & Hr & Hn & Hd & ->). destruct q as [|x q]; [done|]. apply Forall_cons in Hr as [[Hlt (t & Ht & Hs)] Hr].
    apply NoDup_cons in Hn as [Hx Hn]. pose proof (Hc 0%nat x eq_refl) as H0. rewrite Z.add_0_r in H0. rewrite H0. simpl.
    rewrite (proj2 (Z.leb_gt _ _)) by done. rewrite Ht. simpl. rewrite bool_decide_eq_true_2, bool_decide_eq_false_2 by set_solver. simpl.
    apply IH. exists q. split; [by injection Hl|]. split.
    { intros i y Hy. specialize (Hc (S i) y Hy). by replace (index + 1 + Z.of_nat i) with (index + Z.of_nat (S i)) by lia. }
    split; [done|]. split; [done|]. split; [set_solver|]. by rewrite <- app_assoc.
Qed.

(** The slots of the runnable tasks. *)
Lemma ready_slots ts : forall off, exists R, NoDup R /\ length R = length (filter (fun t => state t = Ready) ts) /\
  forall i, i ∈ R <-> off <= i /\ exists t, zget ts (i - off) = Some t /\ state t = Ready.
Proof.
  induction ts as [|t ts IH]; intros off.
  { exists []. split; [constructor|]. split; [done|]. intros i. split; [set_solver|]. by intros (_ & t & H & _). }
  destruct (IH (off + 1)) as (R & Hn & Hl & Hr).
  assert (Hhd : forall i, off <= i -> (exists u, zget (t :: ts) (i - off) = Some u /\ state u = Ready) <->
    (i = off /\ state t = Ready) \/ i ∈ R).
  { intros i Hi. rewrite Hr. unfold zget. destruct (decide (i = off)) as [->|Hne].
    - rewrite Z.sub_diag. simpl. split; [by intros (u & [= <-] & ?); left|]. intros [[_ ?]|[? _]]; [by exists t|lia].
    - replace (Z.to_nat (i - off)) with (S (Z.to_nat (i - (off + 1)))) by lia. simpl. split; [intros ?; right; split; [lia|done]|].
      intros [[? _]|[_ ?]]; [lia|done]. }
  destruct (decide (state t = Ready)) as [Ht|Ht]; [exists (off :: R)|exists R].
  - rewrite filter_cons_True by done. split; [apply NoDup_cons; split; [rewrite Hr; lia|done]|]. split; [simpl; by rewrite Hl|].
    intros i. rewrite elem_of_cons. split.
    + intros Hi. assert (Ho : off <= i) by (destruct Hi as [->|Hi]; [lia|apply Hr in Hi; lia]). split; [done|]. apply Hhd; naive_solver.
    + intros [Ho Hi]. apply Hhd in Hi; naive_solver.
  - rewrite filter_cons_False by done. split; [done|]. split; [done|]. intros i. split.
    + intros Hi. assert (Ho : off <= i) by (apply Hr in Hi; lia). split; [done|]. apply Hhd; naive_solver.
    + intros [Ho Hi]. apply Hhd in Hi; naive_solver.
Qed.

(** A queue of as many runnable slots as there are has them all. *)
Lemma queue_complete q : NoDup q -> (forall x, x ∈ q -> 0 <= x /\ ready_slot x) ->
  length q = length (filter (fun t => state t = Ready) (tasks s)) <-> queue_ok (tasks s) q.
Proof.
  intros Hn Hq. destruct (ready_slots (tasks s) 0) as (R & HR & Hl & Hin). rewrite <- Hl.
  assert (Hsub : q ⊆+ R).
  { apply NoDup_submseteq; [done|]. intros x Hx. apply Hin. rewrite Z.sub_0_r. destruct (Hq x Hx) as [? [_ ?]]. done. }
  split.
  - intros Hlen. assert (Hp : q ≡ₚ R) by (apply submseteq_length_Permutation; [done|lia]). split; [done|]. intros i. rewrite Hp, Hin. by rewrite Z.sub_0_r.
  - intros [_ Hr]. apply Permutation_length, NoDup_Permutation; [done|done|]. intros x. rewrite Hr, Hin. by rewrite Z.sub_0_r.
Qed.

(** ** Waits for tasks *)

Inductive ends : nat -> TaskId -> Prop :=
| ends_stop x st : state_of (tasks s) x = Some st -> st <> Completed -> (forall y, st <> Waiting (Join y)) -> ends 0 x
| ends_join x y k : joins_to (tasks s) x y -> ends k y -> ends (S k) x.

(** The number of waits from a task on. *)
Fixpoint chain_len (n : nat) (x : TaskId) : nat :=
  match n with
  | O => O
  | S n => match state_of (tasks s) x with Some (Waiting (Join y)) => S (chain_len n y) | _ => O end
  end.

Lemma ends_len k x : ends k x -> forall n, (k <= n)%nat -> chain_len n x = k.
Proof.
  induction 1 as [x st Hst Hc Hj|x y k Hxy _ IH]; intros [|n] Hn; cbn [chain_len]; try done; [|lia|].
  - rewrite Hst. destruct st as [| | |[r|y|c]|]; try done. by destruct (Hj y).
  - rewrite Hxy. f_equal. apply IH. lia.
Qed.

Lemma slot_state y target t : slot s y = Some target -> zget (tasks s) target = Some t -> state_of (tasks s) y = Some (state t).
Proof. intros Hs Ht. unfold state_of. unfold slot in Hs. rewrite Hs. simpl. by rewrite Ht. Qed.

Lemma join_chain_ends i n : forall y, join_chain s i n y = Ok tt -> (0 < n)%nat -> exists k, (k < n)%nat /\ ends k y.
Proof.
  induction n as [|n IH]; intros y H Hn; [lia|]. cbn [join_chain] in H. apply outcome_bind_inv in H as (target & Hs%ok_or_ok & H).
  apply outcome_bind_inv in H as (t & Ht%expect_ok & H). pose proof (slot_state _ _ _ Hs Ht) as Hst.
  destruct (_ || _) eqn:E; [done|]. apply orb_false_iff in E as [_ E%bool_decide_eq_false].
  assert (Hd : (exists z, state t = Waiting (Join z)) \/ ~ exists z, state t = Waiting (Join z))
    by (destruct (state t) as [| | |[r|z|c]|]; naive_solver). destruct Hd as [[z Hz]|Hno].
  - rewrite Hz in H. destruct (Nat.eqb_spec n 0) as [|Hn0]; [done|]. destruct (IH z H) as (k & Hk & He); [lia|].
    exists (S k). split; [lia|]. eapply ends_join; [|done]. unfold joins_to. by rewrite Hst, Hz.
  - exists 0%nat. split; [lia|]. eapply ends_stop; [done|done|]. intros z Hz. apply Hno. by exists z.
Qed.

Lemma joins_validated : (forall i t y, 0 <= i -> zget (tasks s) i = Some t -> state t = Waiting (Join y) -> join_chain s i (Z.to_nat cap) y = Ok tt) ->
  0 < cap -> joins_ok (tasks s) (chain_len (S (Z.to_nat cap))).
Proof.
  intros H Hcap. assert (He : forall x y, joins_to (tasks s) x y -> exists k, (k < Z.to_nat cap)%nat /\ ends k y /\ ends (S k) x).
  { intros x y Hxy. pose proof Hxy as Hinv. apply state_of_inv in Hinv as (i & t & Hi & _ & Ht & _ & Hs).
    destruct (join_chain_ends i (Z.to_nat cap) y) as (k & Hk & Hy); [eapply H; [|done|done]; lia|lia|].
    exists k. split; [done|]. split; [done|]. by eapply ends_join. }
  split; intros x y Hxy; destruct (He x y Hxy) as (k & Hk & Hy & Hx).
  - rewrite (ends_len _ _ Hy), (ends_len _ _ Hx) by lia. lia.
  - destruct Hy as [z st Hst Hc _|z w k Hzw _]; [by exists st|]. by exists (Waiting (Join w)).
Qed.

Lemma join_chain_passes rank i x n : joins_ok (tasks s) rank -> 0 <= i ->
  (exists t, zget (tasks s) i = Some t /\ id t = Some x) -> forall cursor V,
  (exists st, state_of (tasks s) cursor = Some st /\ st <> Completed) -> NoDup V -> x ∈ V ->
  (forall v, v ∈ V -> is_Some (state_of (tasks s) v) /\ (rank cursor < rank v)%nat) -> (length V + n = S (length (tasks s)))%nat ->
  join_chain s i n cursor = Ok tt.
Proof.
  intros Hj Hi (ti & Hti & Hxi). induction n as [|n IH]; intros cursor V (st & Hst & Hc) Hn Hx HV Hlen; cbn [join_chain]; [done|].
  pose proof Hst as Hinv. apply state_of_inv in Hinv as (target & t & Hr & Hf & Ht & Hid & Hs). unfold slot. rewrite Hf. simpl. rewrite Ht. simpl.
  assert (Hne : target <> i). { intros ->. rewrite Hti in Ht. injection Ht as <-. rewrite Hxi in Hid. injection Hid as <-. destruct (HV x Hx). lia. }
  rewrite (proj2 (Z.eqb_neq _ _)) by done. rewrite bool_decide_eq_false_2 by (by rewrite Hs). simpl. rewrite Hs.
  destruct st as [| | |[r|z|c]|]; try done. assert (Hcv : cursor ∉ V) by (intros Hin; destruct (HV _ Hin); lia).
  destruct (Nat.eqb_spec n 0) as [->|Hn0].
  - exfalso. pose proof (ids_bounded (tasks s) (cursor :: V)) as Hbd. simpl in Hbd.
    assert (S (length V) <= length (tasks s))%nat; [|lia]. apply Hbd; [by apply NoDup_cons|].
    intros v [->|Hv]%elem_of_cons; [by eexists|by apply HV].
  - pose proof (j_rank _ _ Hj cursor z Hst). apply (IH z (cursor :: V)); [by eapply (j_target _ _ Hj)|by apply NoDup_cons|by right| |simpl; lia].
    intros v [->|Hv]%elem_of_cons; [split; [by eexists|done]|]. destruct (HV v Hv). split; [done|lia].
Qed.

(** ** The check as a whole *)

Hypothesis Hints : machine_ints s.

Lemma task_at_nat k t : tasks s !! k = Some t <-> zget (tasks s) (Z.of_nat k) = Some t.
Proof. unfold zget. by rewrite Nat2Z.id. Qed.

Lemma validate_active : (forall k t, tasks s !! k = Some t -> task_fine (Z.of_nat k) t) ->
  (forall a, active s = Some a -> a < len (tasks s)) -> active_ok (tasks s) (active s).
Proof.
  intros Hf Ha. split.
  - intros i Hi. pose proof (mi_active _ Hints i Hi). specialize (Ha i Hi). split; [done|].
    destruct (zget_is_Some (tasks s) i) as [t Ht]; [unfold len in Ha; lia|]. exists t. split; [done|].
    apply (tf_running _ _ (Hf _ _ Ht)). rewrite Hi. f_equal. lia.
  - intros i t Hi Ht Hs. apply (tf_running _ _ (Hf _ _ Ht)) in Hs. rewrite Hs. f_equal. lia.
Qed.

Lemma validate_sound : validate_checkpoint s cap = Ok tt -> (exists q, restored_ok s q) /\ Forall wait_ok (tasks s) /\ len (tasks s) = cap.
Proof.
  intros H. unfold validate_checkpoint in H. apply outcome_bind_inv in H as ([] & Hsizes%check_reject_ok & H).
  repeat rewrite orb_false_iff in Hsizes. destruct Hsizes as ((((((Hc%Z.eqb_neq & Ht%negb_false_iff%Z.eqb_eq) & Hr%negb_false_iff%Z.eqb_eq) & Hh%Z.leb_gt) & Hl%Z.ltb_ge)
    & Hn1%Z.ltb_ge) & Hn2%Z.ltb_ge).
  apply outcome_bind_inv in H as ([] & Htasks & H). apply check_tasks_spec in Htasks as [Hfine Hu].
  apply outcome_bind_inv in H as ([] & Ha%check_reject_ok & H). apply outcome_bind_inv in H as (queued & Hq & H).
  apply check_reject_ok, negb_false_iff, Z.eqb_eq in H. apply check_ready_spec in Hq as (q & Hlen & Hcells & Hready & Hnd & _ & ->).
  rewrite app_nil_r, length_rev in H. assert (Hcap : len (tasks s) = cap) by lia. assert (0 < cap) by (unfold len in *; lia).
  assert (Hf : forall k t, tasks s !! k = Some t -> task_fine (Z.of_nat k) t) by (intros k t Hk; by destruct (Hfine k t Hk)).
  pose proof (mi_head _ Hints). pose proof (mi_len _ Hints).
  assert (Hpos : forall x, x ∈ q -> 0 <= x).
  { intros x Hx. apply list_elem_of_lookup in Hx as [i Hi]. pose proof (Hcells i x Hi) as Hz. by apply (Forall_lookup_1 _ _ _ _ (mi_ready _ Hints)) in Hz. }
  assert (Hlr : len (ready s) = cap) by lia.
  split; [exists q|split; [|done]].
  - split.
    + unfold len in *. lia.
    + split; [lia|unfold len in *; lia|unfold len in *; lia|]. intros i x Hi. specialize (Hcells i x Hi). rewrite Z.add_0_l in Hcells. by rewrite Hlr.
    + unfold len. lia.
    + apply queue_complete; [done| |lia]. intros x Hx. split; [by apply Hpos|]. by eapply Forall_forall in Hready.
    + apply validate_active; [done|]. intros a Ea. rewrite Ea in Ha. apply Z.leb_gt in Ha. lia.
    + intros i t Hi. apply (tf_vacant _ _ (Hf _ _ Hi)).
    + intros i j t u x Hi Hj Ht1 Ht2 Hx Hx'. specialize (Hu _ _ _ _ _ Ht1 Ht2 Hx Hx'). lia.
    + intros i t x Hi Hx. destruct (tf_id _ _ (Hf _ _ Hi) x Hx). pose proof (Forall_lookup_1 _ _ _ _ (mi_ids _ Hints) Hi x Hx). lia.
    + unfold i32_max in *. lia.
    + exists (chain_len (S (Z.to_nat cap))). apply joins_validated; [|done]. intros i t y Hi Ht' Hs. pose proof (tf_join _ _ (Hf _ _ Ht') y Hs) as Hj. by rewrite Z2Nat.id in Hj by done.
  - apply Forall_lookup. intros k t Hk. apply (tf_wait _ _ (Hf k t Hk)).
Qed.

Lemma sched_fine q rank k t : restored_ok s q -> joins_ok (tasks s) rank -> Forall wait_ok (tasks s) -> len (tasks s) = cap ->
  tasks s !! k = Some t -> task_fine (Z.of_nat k) t.
Proof.
  intros Hb Hj Hw Hcap Hk. pose proof (proj1 (task_at_nat k t) Hk) as Hz. split.
  - by eapply (r_vacant _ _ Hb).
  - intros x Hx. pose proof (r_range _ _ Hb _ _ _ Hz Hx). lia.
  - destruct (r_active _ _ Hb) as [Ha1 Ha2]. split; [intros Hs; eapply Ha2; [lia|done|done]|]. intros Ha. destruct (Ha1 _ Ha) as (_ & u & Hu & Hs). congruence.
  - by eapply Forall_lookup_1 in Hw.
  - intros y Hs. destruct (id t) as [x|] eqn:Ex; [|apply (r_vacant _ _ Hb _ _ Hz) in Ex; congruence].
    pose proof (state_distinct _ (Z.of_nat k) t x (r_unique _ _ Hb) ltac:(lia) Hz Ex) as Hst. rewrite Hs in Hst.
    eapply (join_chain_passes rank (Z.of_nat k) x _ Hj) with (V := [x]).
    + lia.
    + by exists t.
    + by eapply (j_target _ _ Hj).
    + apply NoDup_singleton.
    + by left.
    + intros v ->%list_elem_of_singleton. split; [by eexists|]. by apply (j_rank _ _ Hj).
    + unfold len in Hcap. simpl. lia.
Qed.

Lemma validate_complete q : restored_ok s q -> Forall wait_ok (tasks s) -> len (tasks s) = cap -> validate_checkpoint s cap = Ok tt.
Proof.
  intros Hb Hw Hcap. destruct (r_joins _ _ Hb) as [rank Hj]. pose proof (r_ring _ _ Hb) as Hr. pose proof (ring_pos _ _ _ Hr). pose proof (ring_head _ _ _ Hr).
  pose proof (ring_len _ _ _ Hr). pose proof (r_size _ _ Hb). pose proof (r_len _ _ Hb). pose proof (r_next _ _ Hb).
  unfold validate_checkpoint. replace (reject (_ || _)) with (Ok (E := CheckpointError) tt).
  2: { symmetry. apply check_reject_ok. unfold i32_max, len in *. repeat (apply orb_false_iff; split);
       [apply Z.eqb_neq|apply negb_false_iff, Z.eqb_eq|apply negb_false_iff, Z.eqb_eq|apply Z.leb_gt|apply Z.ltb_ge..]; lia. }
  simpl. rewrite (proj2 (check_tasks_spec (tasks s) [] 0)).
  2: { split; [intros k t Hk; split; [rewrite Z.add_0_l; by apply (sched_fine q rank)|set_solver]|]. intros j k t u x Hj' Hk Hx Hx'.
       apply Nat2Z.inj. apply task_at_nat in Hj', Hk. eapply (r_unique _ _ Hb _ _ t u x); [lia|lia|done..]. }
  simpl. replace (reject match active s with Some _ => _ | None => _ end) with (Ok (E := CheckpointError) tt).
  2: { symmetry. apply check_reject_ok. destruct (active s) as [a|] eqn:Ea; [|done]. destruct (proj1 (r_active _ _ Hb) a Ea) as (Ha & t & Ht & _).
       apply zget_Some_lt in Ht; [|done]. apply Z.leb_gt. unfold len in *. lia. }
  simpl. destruct (r_queue _ _ Hb) as [Hnd Hq].
  assert (Hslots : forall x, x ∈ q -> 0 <= x /\ ready_slot x).
  { intros x Hx. apply Hq in Hx as (Hx0 & t & Ht & Hst). split; [done|]. split; [apply zget_Some_lt in Ht; [unfold len in *; lia|done]|by exists t]. }
  rewrite (proj2 (check_ready_spec (Z.to_nat (ready_len s)) [] 0 (rev q))).
  2: { exists q. split; [unfold len in *; lia|]. split.
       { intros i x Hi. rewrite Z.add_0_l. replace cap with (len (ready s)) by (unfold len in *; lia). by apply (ring_cells _ _ _ Hr). }
       split; [apply Forall_forall; intros x Hx; by apply Hslots|]. split; [done|]. split; [set_solver|by rewrite app_nil_r]. }
  simpl. apply check_reject_ok, negb_false_iff, Z.eqb_eq. rewrite length_rev. f_equal. symmetry. apply queue_complete; [done|done|apply (r_queue _ _ Hb)].
Qed.

End Scheduler.

(** C26. The check of a restored scheduler.  Of the schedulers whose fields are in the
    range of their types, [validate_checkpoint] accepts exactly those that have this
    many slots and keep the invariant of the scheduler but for one part: the ring has every
    runnable task once, one task at most runs, vacant slots have no identifier,
    identifiers are distinct and below the next one, no chain of waits goes round or ends at
    a completed task; and whose waits name requests and channels that can exist.  The
    part it does not check is that the first slot, the root's, is taken if any is; a
    scheduler has the whole invariant exactly if it has that part too, and then no
    operation on an accepted one panics or finds a corrupt queue. *)
Theorem validate_scheduler_correct s cap : machine_ints s ->
  (validate_checkpoint s cap = Ok tt <-> (exists q, restored_ok s q) /\ Forall wait_ok (tasks s) /\ len (tasks s) = cap) /\
  (forall q, sched_ok s q <-> restored_ok s q /\ root_first (tasks s)) /\
  (validate_checkpoint s cap = Ok tt -> root_first (tasks s) ->
     forall o r s', TaskProps.run_top o s = (r, s') -> r <> Panic /\ r <> Err CorruptQueue).
Proof.
  intros Hi. assert (Hs : validate_checkpoint s cap = Ok tt -> (exists q, restored_ok s q) /\ Forall wait_ok (tasks s) /\ len (tasks s) = cap)
    by (by apply validate_sound).
  split_and!; [split; [done|intros ((q & Hq) & Hw & Hc); by eapply validate_complete]|apply restored_sched|].
  intros Hv Hr o r s' Hrun. destruct (Hs Hv) as ((q & Hq) & _). assert (Hok : sched_ok s q) by (by apply restored_sched).
  destruct (TaskProps.step_ok o s q Hok) as (r' & s'' & Hrun' & Hh & _).
  rewrite Hrun in Hrun'. injection Hrun' as <- <-. exact Hh.
Qed.

(** The root waits for the second task, which runs, and the third is runnable. *)
Definition saved_scheduler : TaskScheduler :=
  mkScheduler [mkTask (Some 1) (Waiting (Join 2)); mkTask (Some 2) Running; mkTask (Some 3) Ready] [2; usize_max; usize_max] 0 1 (Some 1) 4.
(** The second task waits for the root as well. *)
Definition deadlocked_scheduler : TaskScheduler :=
  mkScheduler [mkTask (Some 1) (Waiting (Join 2)); mkTask (Some 2) (Waiting (Join 1)); mkTask (Some 3) Ready] [2; usize_max; usize_max] 0 1 None 4.

(** The root's slot is vacant; this is accepted. *)
Definition rootless_scheduler : TaskScheduler :=
  mkScheduler [mkTask None Vacant; mkTask (Some 2) Running; mkTask (Some 3) Ready] [2; usize_max; usize_max] 0 1 (Some 1) 4.

Lemma validate_scheduler_correct_witness : (exists q, sched_ok saved_scheduler q) /\ (~ exists q, sched_ok deadlocked_scheduler q) /\
  exists q, restored_ok rootless_scheduler q /\ ~ sched_ok rootless_scheduler q.
Proof.
  assert (Hi : machine_ints saved_scheduler /\ machine_ints deadlocked_scheduler /\ machine_ints rootless_scheduler).
  { split; [|split]; (split; [done|done|by intros a [= <-]|by repeat constructor|repeat constructor; by intros x [= <-]]). }
  destruct Hi as (Hi1 & Hi2 & Hi3). split; [|split].
  - destruct (validate_scheduler_correct saved_scheduler 3 Hi1) as ([H _] & Hs & _).
    destruct (H ltac:(vm_compute; reflexivity)) as ((q & Hq) & _). exists q. apply Hs. split; [exact Hq|]. intros t [= <-]. done.
  - intros [q Hq]. destruct (validate_scheduler_correct deadlocked_scheduler 3 Hi2) as ([_ H] & Hs & _).
    assert (Hv : validate_checkpoint deadlocked_scheduler 3 = Ok tt).
    { apply H. split; [exists q; apply (Hs q), Hq|]. split; [repeat constructor|done]. }
    vm_compute in Hv. discriminate Hv.
  - destruct (validate_scheduler_correct rootless_scheduler 3 Hi3) as ([H _] & Hs & _).
    destruct (H ltac:(vm_compute; reflexivity)) as ((q & Hq) & _). exists q. split; [exact Hq|]. intros [_ Hr]%Hs.
    specialize (Hr (mkTask None Vacant) eq_refl eq_refl 1 (mkTask (Some 2) Running) eq_refl). discriminate Hr.
Defined.

End TaskCheckpoint.

Module RoundTrip.

(** A saved value is read back to the end of the bytes, and the bytes that are read as
    a value are the ones saved for it. *)
Definition roundtrips {A} (c : Codec A) {L : Lawful c} : Prop := forall a maximum allocation,
  ok c a -> size (encoding c a) <= maximum <= usize_max -> charge c a <= allocation -> height c a <= 64 ->
  exists w, write c a (Writer_new maximum) = (Ok tt, w) /\
    (exists r r', Reader_new (written w) maximum allocation = Ok r /\ read c r = (Ok a, r') /\ finish r' = Ok tt) /\
    (forall bs r r', is_bytes bs -> Reader_new bs maximum allocation = Ok r -> read c r = (Ok a, r') -> finish r' = Ok tt -> bs = written w).

(** What is read fits its types, and reading never panics. *)
Definition reads_typed {A} (c : Codec A) {L : Lawful c} : Prop := forall bs maximum allocation r,
  is_bytes bs -> 0 <= allocation -> Reader_new bs maximum allocation = Ok r ->
  (read c r).1 <> Panic /\ forall a r', read c r = (Ok a, r') -> ok c a /\ charge c a <= allocation /\ height c a <= 64.

Lemma reader_new_ok bs maximum allocation r : is_bytes bs -> 0 <= allocation -> Reader_new bs maximum allocation = Ok r ->
  r = mkReader bs allocation 0 /\ reader_ok r.
Proof.
  intros Hb Ha H. unfold Reader_new in H. destruct (_ <? _); [done|]. injection H as <-. split; [done|]. split; [done|]. simpl. lia.
Qed.

Lemma finish_ok r : finish r = Ok tt <-> bytes r = [].
Proof. unfold finish. case_bool_decide; naive_solver. Qed.

Lemma lawful_roundtrips {A} (c : Codec A) {L : Lawful c} : roundtrips c.
Proof.
  intros a maximum allocation Ha Hs Hc Hh. pose proof (l_charge a Ha). pose proof (l_height a Ha).
  exists (mkWriter (encoding c a) maximum). split; [|split].
  - pose proof (l_write a Ha (mkWriter [] maximum)) as Hw. unfold writer_ok in Hw. cbn [written Checkpoint.maximum] in Hw.
    change (size []) with 0 in Hw. rewrite Z.add_0_l, (proj2 (Z.leb_le _ _)) in Hw by lia. apply Hw. unfold size in *. lia.
  - unfold Reader_new. cbn [written]. rewrite (proj2 (Z.ltb_ge _ _)) by lia. exists (mkReader (encoding c a) allocation 0), (mkReader [] (allocation - charge c a) 0).
    split; [done|]. split; [|done]. apply (l_read (mkReader (encoding c a) allocation 0)).
    + split; [by apply l_bytes|]. simpl. lia.
    + split; [done|]. split; simpl; [by rewrite app_nil_r|lia..].
  - intros bs r r' Hb Hr Hread Hf. apply reader_new_ok in Hr as [-> Hok]; [|done|lia]. apply (l_read _ Hok) in Hread as [_ [E _ _ _ _]].
    apply finish_ok in Hf. rewrite Hf, app_nil_r in E. exact E.
Qed.

Lemma lawful_typed {A} (c : Codec A) {L : Lawful c} : reads_typed c.
Proof.
  intros bs maximum allocation r Hb Ha Hr. apply reader_new_ok in Hr as [-> Hok]; [|done|done]. destruct (l_read _ Hok) as [Hp Hi]. split; [done|].
  intros a r' Hread. apply Hi in Hread as [Hoka [E1 E2 E3 E4 E5]]. simpl in *. split; [done|]. lia.
Qed.

Section Sizes.
Context (size_option_u32 size_option_usize size_option_ref size_wait size_state size_task size_scheduler size_kind size_waiter size_channel size_arena
         size_entry size_slot size_merge size_request size_limits size_table : Z).

Abbreviation scheduler := (TaskScheduler size_option_u32 size_option_usize size_wait size_state size_task size_scheduler).
Abbreviation channels := (ChannelArena size_option_u32 size_kind size_waiter size_channel size_arena).
Abbreviation roots := (ExternalRootTable size_option_ref size_entry).
Abbreviation requests := (PendingRequestTable size_slot size_merge size_request size_limits size_table).

#[local] Instance TaskWait_lawful : Lawful (TaskWait size_wait).
Proof. unfold TaskWait, TaskId, RequestId, u32, u64. apply _. Defined.
#[local] Instance TaskState_lawful : Lawful (TaskState size_wait size_state).
Proof. unfold TaskState. apply _. Defined.
#[local] Instance TaskRecord_lawful : Lawful (TaskRecord size_option_u32 size_wait size_state size_task).
Proof. unfold TaskRecord, TaskId, u32, fields. apply _. Defined.
#[export] Instance scheduler_lawful : Lawful scheduler.
Proof. unfold TaskScheduler, fields, boxed, u32. apply _. Defined.

#[local] Instance WaitKind_lawful : Lawful (WaitKind size_kind).
Proof. unfold WaitKind, u16, i32, fields. apply _. Defined.
#[local] Instance Waiter_lawful : Lawful (Waiter size_option_u32 size_kind size_waiter).
Proof. unfold Waiter, TaskId, u32, fields. apply _. Defined.
#[local] Instance Channel_lawful : Lawful (Channel_ size_channel).
Proof. unfold Channel_, fields. apply _. Defined.
#[export] Instance channels_lawful : Lawful channels.
Proof. unfold ChannelArena, fields, boxed, i32. apply _. Defined.

#[export] Instance Ref32_lawful : Lawful Ref32.
Proof. unfold Ref32, u32. apply _. Defined.
#[export] Instance RuntimeValue_lawful n : Lawful (RuntimeValue n).
Proof. unfold RuntimeValue, i32, i64, u16, u32, u64. apply _. Defined.
#[export] Instance roots_lawful : Lawful roots.
Proof. unfold ExternalRootTable, ExternalRootEntry, boxed, fields, u32. apply _. Defined.

#[local] Instance HostMergeEntry_lawful : Lawful HostMergeEntry.
Proof. unfold HostMergeEntry, fields, u32. apply _. Defined.
#[local] Instance HostRequestMerge_lawful : Lawful (HostRequestMerge size_merge).
Proof. unfold HostRequestMerge, fields, boxed, u32. apply _. Defined.
#[local] Instance HostValueSlot_lawful : Lawful (HostValueSlot size_slot).
Proof. unfold HostValueSlot, fields, i32, i64, u16, u32, u64. apply _. Defined.
#[local] Instance HostRequestIdentity_lawful : Lawful HostRequestIdentity.
Proof. unfold HostRequestIdentity, TaskId, RequestId, fields, u32, u64. apply _. Defined.
#[local] Instance PendingHostRequest_lawful : Lawful (PendingHostRequest size_slot size_merge size_request).
Proof. unfold PendingHostRequest, fields, boxed, u8, u16, u32. apply _. Defined.
#[local] Instance RequestTableLimits_lawful : Lawful (RequestTableLimits size_limits).
Proof. unfold RequestTableLimits, fields. apply _. Defined.
#[export] Instance requests_lawful : Lawful requests.
Proof. unfold PendingRequestTable, fields, vec. apply _. Defined.

End Sizes.

Definition saved (s : Task.TaskScheduler) : outcome CheckpointError (list Z) :=
  let '(result, w) := write (TaskScheduler 8 16 16 16 24 80) s (Writer_new 4096) in _ ← result; Ok (written w).

Example saved_scheduler_bytes : exists bs, saved TaskCheckpoint.saved_scheduler = Ok bs /\ size bs = 92 /\
  (r ← Reader_new bs 4096 4096; (read (TaskScheduler 8 16 16 16 24 80) r).1) = Ok TaskCheckpoint.saved_scheduler.
Proof. eexists. split; [vm_compute; reflexivity|]. split; vm_compute; reflexivity. Qed.

End RoundTrip.

Module EnvelopeProps.

Section Envelope.
Context (sha256 : list Z -> list Z) (id : list Z) (limits : Limits).
Hypothesis Hsha : forall m, is_bytes (sha256 m) /\ length (sha256 m) = 32%nat.
Hypothesis Hid : is_bytes id /\ length id = 16%nat.
Hypothesis Hlimits : 0 <= execution_bytes limits /\ 0 <= host_bytes limits.

Definition header : Codec (list Z * (Z * (list Z * list Z))) := fields (array 8 u8) (fields u32 (fields (array 32 u8) (array 16 u8))).
Definition lengths : Codec (Z * (Z * Z)) := fields u64 (fields usize usize).
#[local] Instance header_lawful : Lawful header.
Proof. unfold header, fields, u8, u32. apply _. Defined.
#[local] Instance lengths_lawful : Lawful lengths.
Proof. unfold lengths, fields, u64. apply _. Defined.

Definition expected_header : list Z * (Z * (list Z * list Z)) := (MAGIC, (FORMAT, (runtime_identity sha256, id))).

Definition contents (g x h : Z) : ReadM Envelope := execution ← take x; host ← take h; mret (mkEnvelope g execution host).

Definition by_parts : ReadM Envelope :=
  v ← read header;
  if negb (bool_decide (v = expected_header)) then st_err Incompatible else
  l ← read lengths;
  if (execution_bytes limits <? l.2.1) || (host_bytes limits <? l.2.2) then st_err Limit else contents l.1 l.2.1 l.2.2.

Lemma read_envelope_parts r : read_envelope sha256 id limits r = by_parts r.
Proof.
  unfold read_envelope, by_parts, header, lengths, fields, pair_, contents. cbn [read]. unfold mbind, ST_bind, mret, ST_ret.
  destruct (read (array 8 u8) r) as [[m| |] r1]; [|done..]. destruct (read u32 r1) as [[f| |] r2]; [|done..].
  destruct (read (array 32 u8) r2) as [[i| |] r3]; [|done..]. destruct (read (array 16 u8) r3) as [[c| |] r4]; [|done..].
  replace (negb (bool_decide ((m, (f, (i, c))) = expected_header))) with
    (negb (bool_decide (m = MAGIC)) || negb (f =? FORMAT) || negb (bool_decide (i = runtime_identity sha256)) || negb (bool_decide (c = id))).
  2: { unfold expected_header. destruct (Z.eqb_spec f FORMAT); repeat case_bool_decide; simpl; try done; naive_solver. }
  destruct (_ || _); [done|]. destruct (read u64 r4) as [[g| |] r5]; [|done..]. destruct (read usize r5) as [[x| |] r6]; [|done..].
  by destruct (read usize r6) as [[h| |] r7].
Qed.

Lemma reads_contents g x h : 0 <= x -> 0 <= h -> reads (contents g x h)
  (fun e => generation e = g /\ (is_bytes (execution e) /\ size (execution e) = x) /\ is_bytes (host e) /\ size (host e) = h)
  (fun e => execution e ++ host e) (fun _ => 0) (fun _ => 0).
Proof.
  intros Hx Hh. unfold contents. eapply read_bind with (ok2 := fun ex e => generation e = g /\ execution e = ex /\ is_bytes (host e) /\ size (host e) = h)
    (enc2 := fun _ e => host e) (c2 := fun _ _ => 0) (h2 := fun _ _ => 0); [by apply reads_take| |done| |].
  - intros ex _. eapply reads_map; [by apply reads_take|done|]. intros [g' ex' ho] (? & ? & ?). simpl in *. subst. by exists ho.
  - intros [g' ex ho]. simpl. split; [intros (? & ? & ?); by exists ex|by intros (ex' & ? & ? & <- & ?)].
  - intros ex [g' ex' ho] _ (_ & <- & _). done.
Qed.

Definition envelope_ok (e : Envelope) : Prop :=
  unsigned_ok 8 (generation e) /\ is_bytes (execution e) /\ is_bytes (host e) /\
  size (execution e) <= execution_bytes limits /\ size (host e) <= host_bytes limits /\
  size (execution e) <= usize_max /\ size (host e) <= usize_max.

Definition lengths_of (e : Envelope) : Z * (Z * Z) := (generation e, (size (execution e), size (host e))).
Definition body (e : Envelope) : list Z := encoding header expected_header ++ encoding lengths (lengths_of e) ++ execution e ++ host e.

Lemma expected_ok : ok header expected_header.
Proof.
  destruct Hid as [Hb Hl]. destruct (Hsha (SCHEMA ++ [0] ++ le_bytes 4 RUNTIME_ABI)) as [Hs Hsl].
  change ((Forall (unsigned_ok 1) MAGIC /\ length MAGIC = 8%nat /\ 8 * Z.max 1 1 <= usize_max) /\ unsigned_ok 4 FORMAT /\
    (is_bytes (runtime_identity sha256) /\ length (runtime_identity sha256) = 32%nat /\ 32 * Z.max 1 1 <= usize_max) /\
    is_bytes id /\ length id = 16%nat /\ 16 * Z.max 1 1 <= usize_max).
  split_and!; try done. repeat constructor; done.
Qed.

Lemma expected_charge : charge header expected_header = 56.
Proof.
  assert (Hz : forall l, sum_charge (unsigned 1) l = 0) by (induction l as [|? ? IH]; [done|exact IH]).
  change (8 * Z.max 1 1 + sum_charge (unsigned 1) MAGIC + (0 + (32 * Z.max 1 1 + sum_charge (unsigned 1) (runtime_identity sha256) +
    (16 * Z.max 1 1 + sum_charge (unsigned 1) id))) = 56). by rewrite !Hz.
Qed.

Lemma expected_height : height header expected_header = 0.
Proof.
  assert (Hz : forall l, max_height (unsigned 1) l = 0) by (induction l as [|? ? IH]; [done|]; cbn [max_height foldr]; fold (max_height (unsigned 1) l); by rewrite IH).
  change (Z.max (max_height (unsigned 1) MAGIC) (Z.max 0 (Z.max (max_height (unsigned 1) (runtime_identity sha256)) (max_height (unsigned 1) id))) = 0).
  by rewrite !Hz.
Qed.

Lemma reads_envelope : reads (read_envelope sha256 id limits) envelope_ok body (fun _ => 56) (fun _ => 0).
Proof.
  intros r Hr. rewrite read_envelope_parts. revert r Hr. unfold by_parts.
  eapply read_bind with (ok2 := fun v e => v = expected_header /\ envelope_ok e)
    (enc2 := fun _ e => encoding lengths (lengths_of e) ++ execution e ++ host e) (c2 := fun _ _ => 0) (h2 := fun _ _ => 0); [apply l_read| |done| |].
  - intros v _. case_bool_decide as Hv; cbn [negb]; [|apply reads_never; by intros e [? _]].
    eapply read_bind with (ok2 := fun l e => l = lengths_of e /\ envelope_ok e) (enc2 := fun _ e => execution e ++ host e)
      (c2 := fun _ _ => 0) (h2 := fun _ _ => 0); [apply (@l_read _ lengths _)| |done| |].
    + intros [g [x h]] (Hg & Hx & Hh). cbn [fst snd] in *. simpl in Hg, Hx, Hh. destruct (_ || _) eqn:E.
      * apply reads_never. intros [g' ex ho]. unfold lengths_of, envelope_ok. cbn [generation execution host].
        intros ([= -> -> ->] & _ & _ & _ & ? & ? & _). apply orb_true_iff in E as [E%Z.ltb_lt|E%Z.ltb_lt]; lia.
      * apply orb_false_iff in E as [E1%Z.ltb_ge E2%Z.ltb_ge]. eapply reads_mono; [apply reads_contents; lia| |done].
        intros [g' ex ho]. unfold lengths_of, envelope_ok. cbn [generation execution host]. split.
        -- intros (-> & [? <-] & ? & <-). split; [done|]. split_and!; done || lia.
        -- intros ([= -> -> ->] & _ & ? & ? & _). done.
    + intros e. split; [|by intros (l & _ & _ & ?)]. intros [_ He]. exists (lengths_of e). split; [|done].
      destruct He as (? & _ & _ & _ & _ & ? & ?). unfold lengths_of, size in *. split_and!; simpl; try done; lia.
    + intros l e _ [-> _]. done.
  - intros e. split; [|by intros (v & _ & _ & ?)]. intros He. exists expected_header. split; [apply expected_ok|done].
  - intros v e _ [-> _]. by rewrite expected_charge, expected_height.
Qed.

Lemma body_size e : size (body e) = 84 + size (execution e) + size (host e).
Proof.
  assert (Hl : forall l : list Z, length (encode_all (unsigned 1) l) = length l).
  { induction l as [|x l IH]; [done|]. unfold encode_all in *. cbn [map concat]. rewrite length_app, IH. simpl. lia. }
  destruct Hid as [_ Hi]. destruct (Hsha (SCHEMA ++ [0] ++ le_bytes 4 RUNTIME_ABI)) as [_ Hs]. unfold body. rewrite !ck_size_app.
  assert (E1 : size (encoding header expected_header) = 60).
  { change (encoding header expected_header) with (encode_all (unsigned 1) MAGIC ++ le_bytes 4 FORMAT ++ encode_all (unsigned 1) (runtime_identity sha256)
      ++ encode_all (unsigned 1) id). unfold size. rewrite !length_app, !Hl, le_bytes_length, Hi. unfold runtime_identity. rewrite Hs. done. }
  assert (E2 : size (encoding lengths (lengths_of e)) = 24).
  { change (encoding lengths (lengths_of e)) with (le_bytes 8 (generation e) ++ le_bytes 8 (size (execution e)) ++ le_bytes 8 (size (host e))).
    unfold size. by rewrite !length_app, !le_bytes_length. }
  lia.
Qed.

Lemma writes_envelope e : envelope_ok e -> writes (write_envelope sha256 id (generation e) (execution e) (host e)) (body e).
Proof.
  intros (Hg & He & Hh & _ & _ & Hes & Hhs). destruct Hid as [Hib Hil].
  assert (E : body e = encoding (array 8 u8) MAGIC ++ encoding u32 FORMAT ++ encoding (array 32 u8) (runtime_identity sha256) ++ id ++
    encoding u64 (generation e) ++ encoding usize (size (execution e)) ++ encoding usize (size (host e)) ++ execution e ++ host e).
  { unfold body. change (encoding header expected_header) with (encoding (array 8 u8) MAGIC ++ encoding u32 FORMAT ++
      encoding (array 32 u8) (runtime_identity sha256) ++ encode_all u8 id). rewrite (encode_bytes id) by done. rewrite <- !app_assoc. done. }
  pose proof expected_ok as (Hm & Hf & Hr & _).
  rewrite E. unfold write_envelope.
  apply writes_bind; [by apply (@l_write _ (array 8 u8))|]. apply writes_bind; [by apply (@l_write _ u32)|].
  apply writes_bind; [by apply (@l_write _ (array 32 u8))|]. apply writes_bind; [apply writes_put|].
  apply writes_bind; [by apply (@l_write _ u64)|].
  apply writes_bind; [apply (@l_write _ usize); simpl; unfold size in *; lia|]. apply writes_bind; [apply (@l_write _ usize); simpl; unfold size in *; lia|].
  apply writes_bind; apply writes_put.
Qed.

Lemma total_bytes_ok t : total_bytes limits = Ok t <-> t = 116 + execution_bytes limits + host_bytes limits /\ t <= usize_max.
Proof.
  unfold total_bytes, HEADER_BYTES, CHECKSUM_BYTES, ok_or, checked_add. destruct Hlimits as [? ?].
  destruct (Z.leb_spec (84 + execution_bytes limits) usize_max); simpl; [|split; [done|intros [-> ?]; lia]].
  destruct (Z.leb_spec (84 + execution_bytes limits + host_bytes limits) usize_max); simpl; [|split; [done|intros [-> ?]; lia]].
  destruct (Z.leb_spec (84 + execution_bytes limits + host_bytes limits + 32) usize_max); (split; [intros [= <-]; lia|intros [-> ?]; first [lia|f_equal; lia]]).
Qed.

Definition typed (e : Envelope) : Prop := unsigned_ok 8 (generation e) /\ is_bytes (execution e) /\ is_bytes (host e).

Lemma encode_spec e bs : typed e -> encode sha256 id (generation e) (execution e) (host e) limits = Ok bs <->
  envelope_ok e /\ 116 + execution_bytes limits + host_bytes limits <= usize_max /\ bs = body e ++ sha256 (body e).
Proof.
  intros (Hg & He & Hh). unfold encode. destruct (_ || _) eqn:E.
  { split; [done|]. intros ((_ & _ & _ & ? & ? & _) & _). apply orb_true_iff in E as [E%Z.ltb_lt|E%Z.ltb_lt]; lia. }
  apply orb_false_iff in E as [E1%Z.ltb_ge E2%Z.ltb_ge]. destruct (total_bytes limits) as [t|err|] eqn:Et.
  2: { split; [done|]. intros (_ & Ht & _). assert (total_bytes limits = Ok (116 + execution_bytes limits + host_bytes limits)) by (by apply total_bytes_ok).
       congruence. }
  2: { split; [done|]. intros (_ & Ht & _). assert (total_bytes limits = Ok (116 + execution_bytes limits + host_bytes limits)) by (by apply total_bytes_ok).
       congruence. }
  apply total_bytes_ok in Et as [-> Ht]. assert (Ho : envelope_ok e) by (unfold envelope_ok, size in *; split_and!; done || lia).
  pose proof (writes_envelope e Ho (Writer_new (116 + execution_bytes limits + host_bytes limits))) as Hw. unfold writer_ok, Writer_new in Hw.
  cbn [written maximum] in Hw. change (size []) with 0 in Hw. rewrite body_size in Hw. rewrite (proj2 (Z.leb_le _ _)) in Hw by lia.
  unfold mbind, outcome_bind. unfold Writer_new. rewrite Hw by (unfold size in *; lia). simpl. split; [intros [= <-]; done|]. by intros (_ & _ & ->).
Qed.

Lemma decode_spec e bs : is_bytes bs -> decode sha256 bs id limits = Ok e <->
  envelope_ok e /\ 116 + execution_bytes limits + host_bytes limits <= usize_max /\ bs = body e ++ sha256 (body e).
Proof.
  intros Hb. unfold decode. split.
  - intros H. apply outcome_bind_inv in H as (t & [-> Ht]%total_bytes_ok & H). destruct (Z.ltb_spec (116 + execution_bytes limits + host_bytes limits) (size bs)) as [|Hs]; [done|].
    apply outcome_bind_inv in H as (n & Hn & H). apply ok_or_ok, bind_Some in Hn as (n' & Hn & Hle). apply checked_sub_Some in Hn as [-> Hn].
    destruct (Z.leb_spec HEADER_BYTES (size bs - CHECKSUM_BYTES)) as [Hhead|]; [|done]. injection Hle as <-.
    destruct (bool_decide_reflect (sha256 (list.take (Z.to_nat (size bs - CHECKSUM_BYTES)) bs) = drop (Z.to_nat (size bs - CHECKSUM_BYTES)) bs)) as [Hd|]; [|done]. simpl in H.
    apply outcome_bind_inv in H as (r & Hr & H). apply RoundTrip.reader_new_ok in Hr as [-> Hok]; [|by apply Forall_take|done].
    destruct (read_envelope _ _ _ _) as [o r'] eqn:Er. apply outcome_bind_inv in H as (e' & -> & H). apply outcome_bind_inv in H as ([] & Hf%RoundTrip.finish_ok & H).
    injection H as ->. apply (reads_envelope _ Hok) in Er as [He [E _ _ _ _]]. cbn [bytes] in E. rewrite Hf, app_nil_r in E.
    split; [done|]. split; [done|]. by rewrite <- E, Hd, take_drop.
  - intros (He & Ht & ->). rewrite (proj2 (total_bytes_ok (116 + execution_bytes limits + host_bytes limits))) by done.
    destruct (Hsha (body e)) as [Hsb Hsl]. pose proof He as (_ & _ & _ & Hse & Hsh & _). apply Forall_app in Hb as [Hb _].
    assert (Hr : read_envelope sha256 id limits (mkReader (body e) 84 0) = (Ok e, mkReader [] 28 0)).
    { apply reads_envelope; [split; [done|]; cbn; lia|]. split; [done|]. split; cbn [bytes allocation_left depth]; [by rewrite app_nil_r|lia..]. }
    pose proof (body_size e) as Hbs. generalize dependent (body e). intros bd Hb Hsb Hsl Hr Hbs. cbn [mbind outcome_bind]. unfold size in *.
    rewrite length_app, Hsl. rewrite (proj2 (Z.ltb_ge _ _)) by lia. unfold checked_sub, CHECKSUM_BYTES, HEADER_BYTES. rewrite (proj2 (Z.leb_le 32 _)) by lia.
    cbn [mbind option_bind]. rewrite (proj2 (Z.leb_le 84 _)) by lia. cbn [ok_or mbind outcome_bind].
    replace (Z.to_nat (Z.of_nat (length bd + 32) - 32)) with (length bd) by lia.
    rewrite take_app_length, drop_app_length, bool_decide_eq_true_2 by done. cbn [negb]. unfold Reader_new, size. rewrite (proj2 (Z.ltb_ge _ _)) by lia.
    cbn [mbind outcome_bind]. by rewrite Hr.
Qed.

End Envelope.

(** C25. The envelope of a hibernated computer.  [decode] accepts, for a computer and
    limits, exactly the bytes that [encode] makes for the same computer and limits, and
    returns the generation and the two states that were encoded: any change to a field,
    the length or the checksum of the bytes is refused.  SHA-256 gives 32 bytes; nothing
    else is assumed of it. *)
Theorem envelope_correct sha256 id limits e bs :
  (forall m, is_bytes (sha256 m) /\ length (sha256 m) = 32%nat) -> is_bytes id /\ length id = 16%nat ->
  0 <= execution_bytes limits /\ 0 <= host_bytes limits -> typed e -> is_bytes bs ->
  decode sha256 bs id limits = Ok e <-> encode sha256 id (generation e) (execution e) (host e) limits = Ok bs.
Proof. intros Hs Hi Hl He Hb. rewrite encode_spec, decode_spec; done. Qed.

Definition zero_digest (bs : list Z) : list Z := replicate 32 0.
Definition sample_envelope : Envelope := mkEnvelope 7 [1; 2; 3] [4].
Definition sample_limits : Limits := mkLimits 16 16 1024.
Definition sample_bytes : list Z := Eval vm_compute in
  match encode zero_digest (replicate 16 9) 7 [1; 2; 3] [4] sample_limits with Ok bs => bs | _ => [] end.

Lemma envelope_correct_witness : decode zero_digest sample_bytes (replicate 16 9) sample_limits = Ok sample_envelope.
Proof.
  apply (envelope_correct zero_digest (replicate 16 9) sample_limits sample_envelope sample_bytes).
  - intros m. split; [|done]. repeat constructor; done.
  - split; [|done]. repeat constructor; done.
  - done.
  - split_and!; [done|repeat constructor; done..].
  - unfold sample_bytes. repeat constructor; done.
  - vm_compute. reflexivity.
Defined.

End EnvelopeProps.

Module ChannelCheckpoint.
Import Channel ChannelInv Channels.

(** Unsigned fields are not negative, and tables are not longer than memory. *)
Record chan_ints (a : ChannelArena) : Prop := {
  ci_count : 0 <= channel_count a;
  ci_sizes : size (channels a) <= usize_max /\ size (values a) <= usize_max /\ size (waiters a) <= usize_max;
  ci_channels : Forall (fun c => 0 <= capacity c /\ 0 <= head c /\ 0 <= len c /\ 0 <= send_head c /\ 0 <= receive_head c) (channels a);
  ci_waiters : Forall (fun w => 0 <= w_next w) (waiters a) }.

Lemma rev_elem {A} (x : A) l : x ∈ rev l <-> x ∈ l.
Proof. rewrite !list_elem_of_In. symmetry. apply in_rev. Qed.

Section Arena.
Context (a : ChannelArena) (Hints : chan_ints a).

Lemma of_kind_ok send k : of_kind send k = kind_ok send k.
Proof. by destruct send, k. Qed.

(** The waiters of a list, and the slots seen after it. *)
Lemma check_waiters_spec send fuel : forall seen cur last_ seen' last', 0 <= cur ->
  check_waiters a send fuel seen cur last_ = Ok (seen', last') ->
  exists q, chain (waiters a) cur q /\ NoDup (slots q) /\ Forall (fun e => kind_ok send (e_kind e) = true) q /\
    (forall x, x ∈ slots q -> x ∉ visited seen) /\ visited seen' = rev (slots q) ++ visited seen /\ last' = default last_ (last (slots q)).
Proof.
  induction fuel as [|fuel IH]; intros seen cur last_ seen' last' Hcur H; cbn [check_waiters] in H;
    (destruct (Z.eqb_spec cur NONE) as [->|Hne]; [injection H as <- <-; exists []; split_and!; try done; [constructor|set_solver]|]); [done|].
  destruct (bool_decide_reflect (cur ∈ visited seen)) as [|Hnew]; [done|].
  apply outcome_bind_inv in H as (w & Hw%ok_or_ok & H). apply outcome_bind_inv in H as (task & Ht%ok_or_ok & H).
  apply bind_Some in Ht as (t & Ht & Hz). destruct (negb (t =? 0)); [|done]. injection Hz as ->.
  destruct (_ || _) eqn:E; [done|]. apply orb_false_iff in E as [_ Hk%negb_false_iff]. rewrite of_kind_ok in Hk.
  pose proof (Forall_lookup_1 _ _ _ _ (ci_waiters _ Hints) Hw) as Hnx. simpl in Hnx.
  apply IH in H as (q & Hc & Hn & Hks & Hd & Hv & ->); [|done]. cbn [visited] in Hd, Hv.
  exists (mkEntry cur task (w_kind w) :: q). cbn [slots fmap list_fmap e_slot]. split_and!.
  - split; [done|]. split; [apply (zget_Some_lt _ _ _ Hcur Hw)|]. exists (w_next w). split; [|done]. rewrite Hw. destruct w. simpl in *. by subst.
  - apply NoDup_cons. split; [|done]. intros Hin. apply (Hd cur Hin). by left.
  - by constructor.
  - intros x [->|Hx]%elem_of_cons; [done|]. intros Hin. apply (Hd x Hx). by right.
  - rewrite Hv. simpl. by rewrite <- app_assoc.
  - fold (slots q). rewrite last_cons. by destruct (last (slots q)).
Qed.

Lemma check_queue_spec c send h t seen seen' : 0 <= h -> check_queue a c send h t seen = Ok seen' ->
  exists q, queue_ok (waiters a) send h t q /\ (q <> [] -> len c = if send then capacity c else 0) /\
    (forall x, x ∈ slots q -> x ∉ visited seen) /\ visited seen' = rev (slots q) ++ visited seen.
Proof.
  intros Hh H. unfold check_queue in H. apply outcome_bind_inv in H as ([] & Hr%TaskCheckpoint.check_reject_ok & H).
  apply outcome_bind_inv in H as ([s1 l1] & Hw & H). apply outcome_bind_inv in H as ([] & Hl%TaskCheckpoint.check_reject_ok & H). injection H as <-.
  apply negb_false_iff, Z.eqb_eq in Hl. subst l1. apply check_waiters_spec in Hw as (q & Hc & Hn & Hk & Hd & Hv & Ht); [|done].
  exists q. split; [by split|]. split; [|done]. intros Hq. apply orb_false_iff in Hr as [_ Hr].
  assert (Hne : h <> NONE). { destruct q as [|e q]; [done|]. destruct Hc as (-> & Hb & _). pose proof (ci_sizes _ Hints). unfold NONE. lia. }
  rewrite (proj2 (Z.eqb_neq _ _)) in Hr by done. simpl in Hr. destruct send; by apply negb_false_iff, Z.eqb_eq in Hr.
Qed.

(** The values of a ring. *)
Definition buffer (start cap h n : Z) : list Z := map (fun k => default 0 (zget (values a) (start + (h + k) mod cap))) (seqZ 0 n).

Lemma buffer_ring start cap h n : 0 < cap -> 0 <= start -> start + cap <= size (values a) -> 0 <= h < cap -> 0 <= n <= cap ->
  size (buffer start cap h n) = n /\ ring_ok (values a) start cap h (buffer start cap h n).
Proof.
  intros Hc Hs Hv Hh Hn. assert (Hl : size (buffer start cap h n) = n) by (unfold size, buffer; rewrite length_map, length_seqZ; lia).
  split; [done|]. split; [done|lia|done|lia|]. intros k x Hk. unfold buffer in Hk. rewrite list_lookup_fmap in Hk.
  apply fmap_Some in Hk as (i & Hi & ->). apply lookup_seqZ in Hi as [-> Hi]. rewrite Z.add_0_l.
  pose proof (Z.mod_pos_bound (h + Z.of_nat k) cap Hc). destruct (zget_is_Some (values a) (start + (h + Z.of_nat k) mod cap)) as [v Hv']; [unfold size in Hv; lia|].
  by rewrite Hv'.
Qed.

Lemma check_channels_spec total cs : forall start seen start' seen', total <= size (values a) -> 0 <= start ->
  Forall (fun c => c ∈ channels a) cs -> check_channels a total start seen cs = Ok (start', seen') ->
  exists C, length C = length cs /\ start' = start + zsum (a_cap <$> C) /\ (start <= total -> start' <= total) /\
    (forall i c, C !! i = Some c -> exists ch, cs !! i = Some ch /\ chan_ok (values a) (waiters a) (start + start_of C i) ch c) /\
    (forall i c x, C !! i = Some c -> x ∈ slots_of c -> x ∉ visited seen) /\
    (forall i j ci cj x, C !! i = Some ci -> C !! j = Some cj -> x ∈ slots_of ci -> x ∈ slots_of cj -> i = j) /\
    (forall x, x ∈ visited seen' <-> x ∈ visited seen \/ x ∈ all_slots C).
Proof.
  induction cs as [|ch cs IH]; intros start seen start' seen' Htot Hstart Hin H; cbn [check_channels] in H.
  { injection H as <- <-. exists []. split_and!; simpl; try done; try lia. intros x. set_solver. }
  apply Forall_cons in Hin as [Hch Hin]. apply outcome_bind_inv in H as ([] & Hr%TaskCheckpoint.check_reject_ok & H).
  repeat rewrite orb_false_iff in Hr. destruct Hr as (((Hvs%negb_false_iff%Z.eqb_eq & Hcap%Z.eqb_neq) & Hhead%Z.leb_gt) & Hlen%Z.ltb_ge).
  apply outcome_bind_inv in H as (stop & Hstop%ok_or_ok & H). apply bind_Some in Hstop as (stop' & Hadd & Hstop). apply checked_add_Some in Hadd as [-> _].
  destruct (Z.leb_spec (start + capacity ch) total) as [Hle|]; [|done]. injection Hstop as <-.
  apply list_elem_of_lookup in Hch as [ich Hch]. pose proof (Forall_lookup_1 _ _ _ _ (ci_channels _ Hints) Hch) as (I1 & I2 & I3 & I4 & I5).
  apply outcome_bind_inv in H as (s1 & H1 & H). apply outcome_bind_inv in H as (s2 & H2 & H).
  apply check_queue_spec in H1 as (qs & Hqs & Hms & Hds & Hvis1); [|done]. apply check_queue_spec in H2 as (qr & Hqr & Hmr & Hdr & Hvis2); [|done].
  apply IH in H as (C & HC & -> & Hlim & Hok & Hfresh & Hdis & Hvis); [|done|lia|done].
  destruct (buffer_ring start (capacity ch) (head ch) (len ch)) as [Hbs Hring]; [lia..|].
  set (c := mkAchan (capacity ch) (buffer start (capacity ch) (head ch) (len ch)) qs qr).
  assert (Hseen2 : forall x, x ∈ visited s2 <-> x ∈ slots_of c \/ x ∈ visited seen).
  { intros x. rewrite Hvis2, Hvis1, !elem_of_app, !rev_elem. unfold slots_of. cbn [a_send a_recv c]. rewrite elem_of_app. tauto. }
  exists (c :: C). split_and!.
  - simpl. by rewrite HC.
  - change (zsum (a_cap <$> c :: C)) with (capacity ch + zsum (a_cap <$> C)). lia.
  - intros _. apply Hlim. lia.
  - intros [|i] c' Hi.
    + injection Hi as <-. exists ch. split; [done|]. unfold start_of. simpl. rewrite Z.add_0_r. split; cbn [a_cap a_buf a_send a_recv c]; try done.
      * intros Hq. specialize (Hmr Hq). simpl in Hmr. split; [apply nil_length_inv; unfold size in Hbs; lia|].
        destruct qs; [done|]. specialize (Hms ltac:(done)). simpl in Hms. lia.
      * intros Hq. specialize (Hms Hq). simpl in Hms. lia.
    + destruct (Hok i c' Hi) as (ch' & Hch' & Hco). exists ch'. split; [done|].
      change (start_of (c :: C) (S i)) with (capacity ch + start_of C i). by rewrite Z.add_assoc.
  - intros [|i] c' x Hi Hx.
    + injection Hi as <-. unfold slots_of in Hx. cbn [a_send a_recv c] in Hx. apply elem_of_app in Hx as [Hx|Hx]; [by apply Hds|].
      intros Hs. apply (Hdr x Hx). rewrite Hvis1. apply elem_of_app. by right.
    + intros Hs. apply (Hfresh i c' x Hi Hx). apply Hseen2. by right.
  - intros [|i] [|j] ci cj x Hi Hj Hxi Hxj; [done|injection Hi as <-|injection Hj as <-|f_equal; by eapply Hdis].
    + exfalso. apply (Hfresh j cj x Hj Hxj). apply Hseen2. by left.
    + exfalso. apply (Hfresh i ci x Hi Hxi). apply Hseen2. by left.
  - intros x. rewrite Hvis, Hseen2. unfold all_slots. cbn [mbind list_bind]. rewrite elem_of_app. tauto.
Qed.

Lemma validate_arena_ok nc nv nt : validate_checkpoint a nc nv nt = Ok tt ->
  exists s, arena_ok a s /\ s_channels s = nc /\ s_values s = nv /\ s_tasks s = if nc =? 0 then 0 else nt.
Proof.
  intros H. unfold validate_checkpoint in H. apply outcome_bind_inv in H as ([] & Hr%TaskCheckpoint.check_reject_ok & H).
  repeat rewrite orb_false_iff in Hr.
  destruct Hr as ((((H1%negb_false_iff%Z.eqb_eq & H2%negb_false_iff%Z.eqb_eq) & H3%negb_false_iff%Z.eqb_eq) & H4%Z.ltb_ge) & H5%Z.ltb_ge).
  apply outcome_bind_inv in H as (cs & Hcs%expect_ok & H). apply slice_get_Some in Hcs as [-> Hcs].
  apply outcome_bind_inv in H as ([start seen] & Hch & H). apply outcome_bind_inv in H as ([] & Hst%TaskCheckpoint.check_reject_ok%negb_false_iff%Z.eqb_eq & H).
  apply TaskCheckpoint.check_reject_ok, negb_false_iff in H. rewrite forallb_forall in H. destruct (ci_sizes _ Hints) as (S1 & S2 & S3).
  apply check_channels_spec in Hch as (C & HC & -> & Hlim & Hok & _ & Hdis & Hvis); [|lia|done|].
  2: { apply Forall_forall. intros c Hc. unfold slice in Hc. apply list_elem_of_lookup in Hc as [i Hi]. rewrite Z.sub_0_r in Hi.
       apply lookup_take_Some in Hi as [Hi _]. rewrite lookup_drop in Hi. by eapply list_elem_of_lookup_2. }
  unfold slice in *. change (Z.to_nat 0) with 0%nat in *. rewrite drop_0, Z.sub_0_r in *. rewrite length_take in HC.
  exists (mkSpec nc nv (if nc =? 0 then 0 else nt) C). split; [|done]. pose proof (ci_count _ Hints). unfold size in *. split; cbn [s_channels s_values s_tasks s_chans]; unfold size; try done; try lia.
  - unfold NONE. lia.
  - intros i c Hi. destruct (Hok i c Hi) as (ch & Hch' & Hco). exists ch. apply lookup_take_Some in Hch' as [Hch' _]. by rewrite Z.add_0_l in Hco.
  - intros x w Hx Hw Hno. destruct (w_task w) as [t|] eqn:Et; [|done]. exfalso. apply Hno.
    assert (Hin : In (check_waiter seen x w) (imap (fun i w => check_waiter seen (Z.of_nat i) w) (waiters a))).
    { apply list_elem_of_In, list_elem_of_lookup. exists (Z.to_nat x). rewrite list_lookup_imap. unfold zget in Hw. rewrite Hw. simpl. by rewrite Z2Nat.id. }
    specialize (H _ Hin). unfold id, check_waiter in H. apply andb_true_iff in H as [H _]. rewrite Et in H. apply eqb_prop in H.
    rewrite bool_decide_eq_true_2 in H by (by eexists). symmetry in H. apply bool_decide_eq_true in H. apply Hvis in H. set_solver.
Qed.

End Arena.

(** C27. Restored channels.  An arena of channels that [validate_checkpoint] accepts
    represents a table of bounded queues: the rings do not meet, the wait lists are
    disjoint, end, and have waiters of their kind, senders wait only at full channels
    and receivers at empty ones.  So any calls that follow the restoration return what
    the abstract queues return, and none panics. *)
Theorem validate_channels_correct a nc nv nt ops :
  chan_ints a -> validate_checkpoint a nc nv nt = Ok tt -> forallb ChannelProps.cop_typed ops = true ->
  exists s a', arena_ok a s /\ s_channels s = nc /\ s_values s = nv /\
    ChannelProps.run_trace ops a = ((ChannelProps.spec_trace ops s).1, a') /\ arena_ok a' (ChannelProps.spec_trace ops s).2.
Proof.
  intros Hi Hv Ht. destruct (validate_arena_ok a Hi nc nv nt Hv) as (s & Hok & Hc & Hn & _).
  destruct (ChannelProps.trace_ok ops a s Hok Ht) as (a' & Hrun & Hok'). by exists s, a'.
Qed.

(** A channel of two values that is full, at which task 2 waits to send 30. *)
Definition saved_arena : ChannelArena :=
  mkArena [mkChannel 0 2 1 2 1 1 NONE NONE; Channel_EMPTY] [20; 10; 0] [Waiter_EMPTY; mkWaiter (Some 2) NONE (WSend 30 7)] 1 2.

Lemma validate_channels_correct_witness : exists s a', arena_ok saved_arena s /\
  ChannelProps.run_trace [ChannelProps.CReceive 1 0 1 5 6] saved_arena = ((ChannelProps.spec_trace [ChannelProps.CReceive 1 0 1 5 6] s).1, a').
Proof.
  destruct (validate_channels_correct saved_arena 2 3 2 [ChannelProps.CReceive 1 0 1 5 6]) as (s & a' & Hok & _ & _ & Hrun & _).
  - split; [done|split_and!; vm_compute; discriminate|repeat constructor; vm_compute; done|repeat constructor; vm_compute; done].
  - vm_compute. reflexivity.
  - reflexivity.
  - exists s, a'. split; [exact Hok|exact Hrun].
Defined.

End ChannelCheckpoint.
