(* ===== verification/CheckpointMemory.v ===== *)
(** src/execution/checkpoint/layout.rs, frame.rs, heap.rs and heap_ops.rs: how the memory
    of a machine is written, and what is checked of an arena of frames and of a heap
    that were read.  The checks accept exactly the memory the running components
    represent their state with. *)

From S2P Require Import Prelude Words Fields Errors Value Layout Heap HeapLists HeapInv HeapOps HeapProps Frame FrameProps Gc Checkpoint CheckpointLaws CheckpointState CheckpointProps.
Import Checkpoint CheckpointLaws CheckpointState.

Module MemoryCodecs.

Section Sizes.
Context (size_format size_width size_atom size_component size_value size_layout : Z)
        (size_option_u32 size_frames size_statics size_heap size_pending size_allocation : Z).

(** ** Layouts *)

Definition HeaderFormat : Codec Layout.HeaderFormat := checkpoint_enum size_format
  [mkVariant 0 _ nothing (fun _ => Layout.Legacy) (fun f => match f with Layout.Legacy => Some tt | _ => None end);
   mkVariant 1 _ (fields u32 u32) (fun '(s, l) => Layout.Compact s l) (fun f => match f with Layout.Compact s l => Some (s, l) | _ => None end)].

Definition ValueWidth : Codec Layout.ValueWidth := checkpoint_enum size_width
  [constant_variant 0 Layout.I8; constant_variant 1 Layout.I16; constant_variant 2 Layout.U8; constant_variant 3 Layout.U16;
   constant_variant 4 Layout.Bool; constant_variant 5 Layout.Char; constant_variant 6 Layout.I32; constant_variant 7 Layout.F32;
   constant_variant 8 Layout.I64; constant_variant 9 Layout.F64; constant_variant 10 Layout.Ref].

Definition ArrayLayout : Codec Layout.ArrayLayout := checkpoint_struct 16
  (fields u32 (fields u32 (fields u32 u32)))
  (fun l => (Layout.element_bytes l, (Layout.array_length l, (Layout.array_payload_bytes l, Layout.array_block_bytes l))))
  (fun '(e, (n, (p, b))) => Layout.mkArrayLayout e n p b).

(** ** Frames *)

Definition PhysicalAtom : Codec Frame.PhysicalAtom := checkpoint_enum size_atom
  [constant_variant 0 Frame.AI32; constant_variant 1 Frame.AI64; constant_variant 2 Frame.AF32; constant_variant 3 Frame.AF64;
   constant_variant 4 Frame.ARef32].

Definition ComponentLayout : Codec Frame.ComponentLayout := checkpoint_struct size_component
  (fields u32 PhysicalAtom) (fun c => (Frame.c_offset c, Frame.c_atom c)) (fun '(o, a) => Frame.mkComponent o a).

Definition ValueLayout : Codec (list Frame.ComponentLayout) := boxed ComponentLayout.

Definition FrameLayout : Codec Frame.FrameLayout := checkpoint_struct size_layout
  (fields u32 (fields u8 (boxed ValueLayout)))
  (fun l => (Frame.fl_byte_len l, (Frame.fl_alignment l, Frame.fl_values l))) (fun '(b, (a, v)) => Frame.mkFrameLayout b a v).

Definition FrameReservation : Codec Frame.FrameReservation := checkpoint_struct 8
  (fields u32 u32) (fun r => (Frame.r_base r, Frame.r_byte_len r)) (fun '(b, n) => Frame.mkFrameReservation b n).

Definition FrameArena : Codec Frame.FrameArena := checkpoint_struct size_frames
  (fields (boxed u8) (option_ size_option_u32 u32)) (fun a => (Frame.bytes a, Frame.free_head a)) (fun '(b, f) => Frame.mkFrameArena b f).

Definition StaticArena : Codec Frame.StaticArena := checkpoint_struct size_statics
  (fields FrameArena (fields FrameLayout FrameReservation))
  (fun s => (Frame.s_arena s, (Frame.s_layout s, Frame.s_reservation s))) (fun '(a, (l, r)) => Frame.mkStaticArena a l r).

(** ** The heap *)

(** The units of an arena, of sixteen bytes each. *)
Fixpoint chunks (n : nat) (bs : list Z) : list (list Z) :=
  match n with
  | O => []
  | S n => list.take 16 bs :: chunks n (drop 16 bs)
  end.
Definition units (bs : list Z) : list (list Z) := chunks (length bs / 16) bs.

(** [ArenaUnit([u8; 16])]. *)
Definition ArenaUnit : Codec (list Z) := array 16 u8.
Definition Arena : Codec (list Z) := checkpoint_struct 16 (boxed ArenaUnit) units (@concat Z).

Definition AllocationRequest : Codec Heap.AllocationRequest := checkpoint_struct 8
  (fields u32 u32) (fun r => (Heap.request_block_bytes r, Heap.request_type_id r)) (fun '(b, t) => Heap.mkRequest b t).

Definition ReservedAllocation : Codec Heap.ReservedAllocation := checkpoint_struct 8
  (fields u32 u32) (fun r => (Heap.block r, Heap.type_id r)) (fun '(b, t) => Heap.mkReserved b t).

Definition Heap_ : Codec Heap.Heap := checkpoint_struct size_heap
  (fields HeaderFormat (fields Arena (fields u32 (fields (boxed u32) (fields u32 (fields (array 32 u8) (fields u32 (fields u32 u32))))))))
  (fun h => (Heap.header_format h, (Heap.arena h, (Heap.arena_bytes h, (Heap.class_heads h, (Heap.first_bitmap h, (Heap.second_bitmaps h,
             (Heap.largest_free_hint h, (Heap.total_free h, Heap.live_objects h)))))))))
  (fun '(f, (a, (n, (c, (b, (s, (x, (t, l)))))))) => Heap.mkHeap f a n c b s x t l).

Definition PendingState : Codec Gc.PendingState := checkpoint_struct size_pending
  (fields AllocationRequest (fields ReservedAllocation (fields u16 (fields u32 (fields u32 (fields bool_ bool_))))))
  (fun s => (Gc.p_request s, (Gc.p_reservation s, (Gc.p_destination s, (Gc.p_logical_bytes s, (Gc.p_initialized_bytes s,
             (Gc.p_fixed_cost_paid s, Gc.p_collection_attempted s)))))))
  (fun '(q, (r, (d, (l, (i, (p, c)))))) => Gc.mkPending q r d l i p c).

Definition PendingAllocation : Codec Gc.PendingAllocation := checkpoint_enum size_allocation
  [mkVariant 0 _ PendingState Gc.PObject (fun p => match p with Gc.PObject s => Some s | _ => None end);
   mkVariant 1 _ PendingState Gc.PException (fun p => match p with Gc.PException s => Some s | _ => None end);
   mkVariant 2 _ (fields PendingState u32) (fun '(s, n) => Gc.PArray s n) (fun p => match p with Gc.PArray s n => Some (s, n) | _ => None end)].

End Sizes.
End MemoryCodecs.

(** [map_err(|_| InvalidState)]. *)
Definition or_invalid {E A} (o : outcome E A) : Check A := Frame.map_err o InvalidState.

(** ** Checks of frames *)

Module FrameCheck.
Import Frame.

Abbreviation Range := (Z * Z)%type.

(** The order of tuples, by which [sort_unstable] sorts. *)
Definition range_le (x y : Range) : Prop := x.1 < y.1 \/ (x.1 = y.1 /\ x.2 <= y.2).
#[global] Instance range_le_dec : RelDecision range_le.
Proof. intros x y. unfold range_le. apply _. Defined.

Fixpoint live_ranges (capacity active : Z) (live : list FrameReservation) : Check (list Range) :=
  match live with
  | [] => Ok []
  | f :: live =>
      if r_byte_len f =? 0 then live_ranges capacity active live else
      stop ← ok_or (checked_add u32_max (r_base f) (r_byte_len f)) InvalidState;
      _ ← reject (negb (r_base f mod 8 =? 0) || negb (r_byte_len f mod 8 =? 0) || (capacity <? stop));
      active ← ok_or (checked_add u32_max active (r_byte_len f)) InvalidState;
      rest ← live_ranges capacity active live;
      Ok ((r_base f, stop) :: rest)
  end.

(** [while let Some(base) = cursor]; the bases of free regions grow. *)
Fixpoint free_ranges (a : FrameArena) (capacity : Z) (fuel : nat) (previous cursor : option Z) : Check (list Range) :=
  match cursor with
  | None => Ok []
  | Some base =>
      match fuel with
      | O => Panic
      | S fuel =>
          _ ← reject (negb (base mod 8 =? 0) || match previous with Some previous => base <=? previous | None => false end);
          '(next, length) ← or_invalid (read_free a base);
          stop ← ok_or (checked_add u32_max base length) InvalidState;
          _ ← reject ((length <? 8) || negb (length mod 8 =? 0) || (capacity <? stop));
          rest ← free_ranges a capacity fuel (Some base) next;
          Ok ((base, stop) :: rest)
      end
  end.

Fixpoint covered (stop : Z) (ranges : list Range) : Check Z :=
  match ranges with
  | [] => Ok stop
  | (base, next) :: ranges => if negb (base =? stop) then Err InvalidState else covered next ranges
  end.

Definition validate_checkpoint (a : FrameArena) (capacity : Z) (live : list FrameReservation) : Check unit :=
  _ ← reject (negb (arena_len a =? capacity));
  used ← live_ranges capacity 0 live;
  free ← free_ranges a capacity (S (loop_fuel a)) None (free_head a);
  stop ← covered 0 (merge_sort range_le (used ++ free));
  reject (negb (stop =? capacity)).

#[global] Instance ComponentLayout_eq : EqDecision ComponentLayout.
Proof. solve_decision. Defined.
#[global] Instance FrameLayout_eq : EqDecision FrameLayout.
Proof. solve_decision. Defined.

(** [u32::checked_next_multiple_of]. *)
Definition checked_next_multiple_of (max n m : Z) : option Z := if n mod m =? 0 then Some n else checked_add max n (m - n mod m).

Definition validate_statics (s : StaticArena) (expected : FrameLayout) : Check unit :=
  if negb (bool_decide (s_layout s = expected)) || negb (r_base (s_reservation s) =? 0) then Err InvalidState else
  byte_len ← ok_or (checked_next_multiple_of u32_max (fl_byte_len expected) 8) InvalidState;
  _ ← reject (negb (r_byte_len (s_reservation s) =? byte_len));
  validate_checkpoint (s_arena s) (r_byte_len (s_reservation s)) [s_reservation s].

End FrameCheck.

(** ** Checks of the heap *)

Module HeapCheck.
Import Layout Heap.

#[global] Instance HeaderFormat_eq : EqDecision HeaderFormat.
Proof. solve_decision. Defined.

(** An element of [blocks], and what the walk over the arena has counted. *)
Record Block := mkBlock { k_offset : Z; k_size : Z; k_flags : Z }.
Record Walk := mkWalk { w_offset : Z; w_total_free : Z; w_live_objects : Z; w_blocks : list Block }.

(** [while offset < self.arena_bytes]; a block has sixteen bytes at least. *)
Fixpoint walk_blocks (h : Heap) (fuel : nat) (offset total_free live_objects : Z) : Check Walk :=
  if offset <? arena_bytes h then
    match fuel with
    | O => Panic
    | S fuel =>
        size ← or_invalid (block_size h offset);
        flags ← or_invalid (read_flags h offset);
        _ ← reject ((Z.land flags ALLOCATED =? 0) && negb (flags =? 0) || negb (Z.land flags MARKED =? 0) && (Z.land flags LIVE =? 0));
        next ← ok_or (stop ← checked_add u32_max offset size; if stop <=? arena_bytes h then Some stop else None) InvalidState;
        total_free ← (if flags =? 0 then ok_or (checked_add u32_max total_free size) InvalidState else Ok total_free);
        live_objects ← (if negb (flags =? 0) && negb (Z.land flags LIVE =? 0)
                        then ok_or (checked_add u32_max live_objects 1) InvalidState else Ok live_objects);
        w ← walk_blocks h fuel next total_free live_objects;
        Ok (mkWalk (w_offset w) (w_total_free w) (w_live_objects w) (mkBlock offset size flags :: w_blocks w))
    end
  else Ok (mkWalk offset total_free live_objects []).

(** [binary_search_by_key]: the offsets of the blocks grow, so there is one at most. *)
Definition search (blocks : list Block) (offset : Z) : option (nat * Block) := list_find (fun b => k_offset b = offset) blocks.

(** [while cursor != NULL_OFFSET]; a block is visited once at most. *)
Fixpoint check_list (h : Heap) (blocks : list Block) (class : Z) (fuel : nat) (visited : list bool) (previous cursor : Z) : Check (list bool) :=
  if cursor =? NULL_OFFSET then Ok visited else
  match fuel with
  | O => Panic
  | S fuel =>
      '(index, b) ← ok_or (search blocks cursor) InvalidState;
      seen ← expect (visited !! index);
      _ ← reject (seen || negb (k_flags b =? 0) || negb (bool_decide (class_index <$> free_size_class (k_size b) = Some class)));
      back ← or_invalid (read_word h cursor PREVIOUS_FREE);
      _ ← reject (negb (back =? previous));
      next ← or_invalid (read_word h cursor NEXT_FREE);
      check_list h blocks class fuel (<[index := true]> visited) cursor next
  end.

Record Lists := mkLists { l_visited : list bool; l_first : Z; l_second : list Z }.

Fixpoint check_classes (h : Heap) (blocks : list Block) (class : Z) (heads : list Z) (s : Lists) : Check Lists :=
  match heads with
  | [] => Ok s
  | head :: heads =>
      '(first, second) ←
        (if head =? NULL_OFFSET then Ok (l_first s, l_second s) else
         byte ← expect (zget (l_second s) (class / 8));
         Ok (Z.lor (l_first s) (Z.shiftl 1 (class / 8)), zset (class / 8) (Z.lor byte (Z.shiftl 1 (class mod 8))) (l_second s)));
      visited ← check_list h blocks class (S (length blocks)) (l_visited s) NULL_OFFSET head;
      check_classes h blocks (class + 1) heads (mkLists visited first second)
  end.

Definition hint_valid (blocks : list Block) (hint : Z) : bool :=
  (hint =? NULL_OFFSET) || match search blocks hint with Some (_, b) => k_flags b =? 0 | None => false end.

Definition validate_checkpoint (h : Heap) (plan : StoragePlan) : Check unit :=
  _ ← reject (negb (bool_decide (header_format h = Layout.header_format plan)) || negb (arena_bytes h =? heap_arena_bytes plan)
              || negb (bool_decide (checked_mul usize_max (size (arena h) / 16) 16 = Some (arena_bytes h)))
              || negb (size (class_heads h) =? CLASS_COUNT));
  w ← walk_blocks h (S (Z.to_nat (arena_bytes h / 16))) 0 0 0;
  _ ← reject (negb (w_offset w =? arena_bytes h) || negb (w_total_free w =? total_free h) || negb (w_live_objects w =? live_objects h));
  let blocks := w_blocks w in
  s ← check_classes h blocks 0 (class_heads h) (mkLists (replicate (length blocks) false) 0 (replicate 32 0));
  reject (negb (l_first s =? first_bitmap h) || negb (bool_decide (l_second s = second_bitmaps h))
          || existsb (fun '(b, seen) => negb (eqb (k_flags b =? 0) seen)) (zip blocks (l_visited s))
          || negb (hint_valid blocks (largest_free_hint h))).

(** [checkpoint_reservation_capacity]. *)
Fixpoint reservation_capacity (h : Heap) (r : ReservedAllocation) (fuel : nat) (offset : Z) : Check Z :=
  if offset <? arena_bytes h then
    match fuel with
    | O => Panic
    | S fuel =>
        size ← or_invalid (block_size h offset);
        if offset =? block r then
          _ ← or_invalid (validate_reservation h r);
          ok_or (checked_sub size (payload_offset h)) InvalidState
        else
          next ← ok_or (checked_add u32_max offset size) InvalidState;
          reservation_capacity h r fuel next
    end
  else Err InvalidState.
Definition checkpoint_reservation_capacity (h : Heap) (r : ReservedAllocation) : Check Z :=
  reservation_capacity h r (S (Z.to_nat (arena_bytes h / 16))) 0.

(** [checkpoint_live_references]. *)
Fixpoint live_references (h : Heap) (fuel : nat) (offset : Z) : Check (list Value.Ref32) :=
  if offset <? arena_bytes h then
    match fuel with
    | O => Panic
    | S fuel =>
        size ← or_invalid (block_size h offset);
        flags ← or_invalid (read_flags h offset);
        found ← (if negb (Z.land flags LIVE =? 0) then
                   payload ← ok_or (checked_add u32_max offset OBJECT_TYPE_ID) InvalidState;
                   reference ← ok_or (Value.managed payload) InvalidState;
                   Ok [reference]
                 else Ok []);
        next ← ok_or (stop ← checked_add u32_max offset size; if stop <=? arena_bytes h then Some stop else None) InvalidState;
        rest ← live_references h fuel next;
        Ok (found ++ rest)
    end
  else Ok [].
Definition checkpoint_live_references (h : Heap) : Check (list Value.Ref32) :=
  live_references h (S (Z.to_nat (arena_bytes h / 16))) 0.

End HeapCheck.

(** ** The codecs are lawful *)

Module MemoryRoundTrip.
Import MemoryCodecs CheckpointProps.RoundTrip.

Lemma chunks_concat n bs : length bs = (16 * n)%nat -> concat (chunks n bs) = bs.
Proof.
  revert bs. induction n as [|n IH]; intros bs Hn; cbn [chunks concat]; [by destruct bs|].
  rewrite IH; [apply take_drop|]. rewrite length_drop. lia.
Qed.

Lemma concat_chunks f : Forall (fun u => length u = 16%nat) f -> chunks (length f) (concat f) = f /\ length (concat f) = (16 * length f)%nat.
Proof.
  induction 1 as [|u f Hu Hf [IH1 IH2]]; [done|]. cbn [concat length chunks]. rewrite length_app, IH2, Hu. split; [|lia].
  by rewrite take_app_length', drop_app_length', IH1 by lia.
Qed.

Lemma units_concat f : Forall (fun u => length u = 16%nat) f -> units (concat f) = f.
Proof.
  intros Hf. apply concat_chunks in Hf as [E1 E2]. unfold units. rewrite E2. by rewrite Nat.mul_comm, Nat.div_mul.
Qed.

#[export] Instance Arena_lawful : Lawful Arena.
Proof.
  refine {| ok v := length v = (16 * (length v / 16))%nat /\ ok (boxed ArenaUnit) (units v); encoding v := encoding (boxed ArenaUnit) (units v);
            charge v := charge (boxed ArenaUnit) (units v); height v := height (boxed ArenaUnit) (units v) |}.
  - intros v [_ Hv]. by apply l_charge.
  - intros v [_ Hv]. by apply l_height.
  - intros v [_ Hv]. by apply l_bytes.
  - intros v [_ Hv]. by apply (@l_write _ (boxed ArenaUnit) _).
  - eapply reads_map; [apply l_read| |].
    + intros f Hf. assert (H16 : Forall (fun u => length u = 16%nat) f).
      { destruct Hf as [Hf _]. eapply Forall_impl; [exact Hf|]. by intros u (_ & Hu & _). }
      rewrite units_concat by done. split; [|done]. split; [|done]. apply concat_chunks in H16 as [_ E]. rewrite E. rewrite (Nat.mul_comm 16 (length f)), Nat.div_mul by done. lia.
    + intros v [Hv Hu]. exists (units v). split; [done|]. symmetry. by apply chunks_concat.
Defined.

Section Sizes.
Context (size_format size_width size_atom size_component size_layout : Z)
        (size_option_u32 size_frames size_statics size_heap size_pending size_allocation : Z).

#[export] Instance HeaderFormat_lawful : Lawful (HeaderFormat size_format).
Proof. unfold HeaderFormat, fields, u32. apply _. Defined.
#[local] Instance PhysicalAtom_lawful : Lawful (PhysicalAtom size_atom).
Proof. unfold PhysicalAtom. apply _. Defined.
#[export] Instance FrameLayout_lawful : Lawful (FrameLayout size_atom size_component size_layout).
Proof. unfold FrameLayout, ValueLayout, ComponentLayout, fields, boxed, u32, u8. apply _. Defined.
#[export] Instance FrameReservation_lawful : Lawful FrameReservation.
Proof. unfold FrameReservation, fields, u32. apply _. Defined.
#[export] Instance FrameArena_lawful : Lawful (FrameArena size_option_u32 size_frames).
Proof. unfold FrameArena, fields, boxed, u32, u8. apply _. Defined.
#[export] Instance StaticArena_lawful : Lawful (StaticArena size_atom size_component size_layout size_option_u32 size_frames size_statics).
Proof. unfold StaticArena, fields. apply _. Defined.
#[export] Instance Heap_lawful : Lawful (Heap_ size_format size_heap).
Proof. unfold Heap_, fields, boxed, u32, u8. apply _. Defined.
#[local] Instance PendingState_lawful : Lawful (PendingState size_pending).
Proof. unfold PendingState, AllocationRequest, ReservedAllocation, fields, u32, u16. apply _. Defined.
#[export] Instance PendingAllocation_lawful : Lawful (PendingAllocation size_pending size_allocation).
Proof. unfold PendingAllocation, fields, u32. apply _. Defined.

(** What [Checkpoint] promises of a type. *)
Definition restorable {A} (c : Codec A) {L : Lawful c} : Prop := roundtrips c /\ reads_typed c.

Context (size_option_usize size_option_ref size_wait size_state size_task size_scheduler size_kind size_waiter size_channel size_arena
         size_entry size_slot size_merge size_request size_limits size_table : Z).

(** C22. Saving and restoring the runtime.  For the heap and the allocations in progress,
    the arena of frames and the statics, the scheduler, the channels, the external roots
    and the pending host requests: a state that fits its types and the limits is
    written, and read back to the end of the bytes as the same state; no other bytes
    read as that state.  Whatever bytes the reader is given it does not panic, and a
    state it returns fits its types and was charged within the allocation allowed and
    64 levels of nesting. *)
Theorem runtime_state_roundtrip :
  restorable (Heap_ size_format size_heap) /\ restorable (PendingAllocation size_pending size_allocation) /\
  restorable (FrameArena size_option_u32 size_frames) /\
  restorable (StaticArena size_atom size_component size_layout size_option_u32 size_frames size_statics) /\
  restorable (TaskScheduler size_option_u32 size_option_usize size_wait size_state size_task size_scheduler) /\
  restorable (ChannelArena size_option_u32 size_kind size_waiter size_channel size_arena) /\
  restorable (ExternalRootTable size_option_ref size_entry) /\
  restorable (PendingRequestTable size_slot size_merge size_request size_limits size_table).
Proof. unfold restorable. split_and!; first [apply lawful_roundtrips | apply lawful_typed]. Qed.

End Sizes.
End MemoryRoundTrip.

(** ** The check of frames *)

Module FrameCheckpoint.
Import Frame FrameInv FrameProps FrameCheck.

(** An arena that free regions and frames tile; free regions may touch. *)
Record tiled (a : FrameArena) (T : list tile) : Prop := {
  t_len : arena_len a = tsizes T;
  t_max : arena_len a <= u32_max;
  t_tiles : Forall tile_ok T;
  t_head : free_head a = first_free 0 T None;
  t_links : links a 0 T None }.

Definition region (f : FrameReservation) : Range := (r_base f, r_base f + r_byte_len f).
Definition nonempty (live : list FrameReservation) : list FrameReservation := filter (fun f => r_byte_len f <> 0) live.
Definition frame_region (f : Z * list Z) : Range := (f.1, f.1 + Z.of_nat (length f.2)).

(** The frames that take space are those of [F]. *)
Definition lists_frames (live : list FrameReservation) (F : gmap Z (list Z)) : Prop :=
  region <$> nonempty live ≡ₚ frame_region <$> map_to_list F.

(** Fields are in the range of their types. *)
Record arena_ints (a : FrameArena) : Prop := {
  ai_bytes : is_bytes (bytes a);
  ai_len : arena_len a <= usize_max;
  ai_head : forall b, free_head a = Some b -> 0 <= b }.
Definition frame_ints (f : FrameReservation) : Prop := 0 <= r_base f /\ 0 <= r_byte_len f.

(** *** The loops of the check *)

Definition fits (cap : Z) (r : Range) : Prop := 0 <= r.1 /\ r.1 < r.2 /\ r.1 mod 8 = 0 /\ (r.2 - r.1) mod 8 = 0 /\ r.2 <= cap /\ r.2 <= u32_max.

Lemma fits_span cap r : fits cap r -> r.1 + 8 <= r.2.
Proof. intros (_ & H1 & _ & H2 & _). apply Z.mod_divide in H2 as [k Hk]; lia. Qed.

Fixpoint total (rs : list Range) : Z := match rs with [] => 0 | r :: rs => (r.2 - r.1) + total rs end.

#[export] Instance total_perm : Proper ((≡ₚ) ==> eq) total.
Proof. intros l l' H. induction H; simpl; lia. Qed.

Lemma total_pos cap rs : Forall (fits cap) rs -> 0 <= total rs.
Proof. induction 1 as [|r rs (? & ? & ? & _) _ IH]; simpl; lia. Qed.

Lemma nonempty_cons f live : nonempty (f :: live) = if r_byte_len f =? 0 then nonempty live else f :: nonempty live.
Proof.
  unfold nonempty. rewrite filter_cons. destruct (Z.eqb_spec (r_byte_len f) 0); [rewrite decide_False|rewrite decide_True]; tauto.
Qed.

Lemma live_ranges_spec cap active live rs : Forall frame_ints live -> 0 <= active <= u32_max ->
  live_ranges cap active live = Ok rs <-> rs = region <$> nonempty live /\ Forall (fits cap) rs /\ active + total rs <= u32_max.
Proof.
  intros Hl. revert active rs. induction Hl as [|f live [Hb Hn] Hl IH]; intros active rs Ha.
  - simpl. split; [intros [= <-]; split_and!; [done|constructor|simpl; lia]|by intros (-> & _)].
  - cbn [live_ranges]. rewrite nonempty_cons. destruct (Z.eqb_spec (r_byte_len f) 0) as [E|E]; [by apply IH|].
    unfold checked_add. destruct (Z.leb_spec (r_base f + r_byte_len f) u32_max) as [Hs|Hs]; cbn [ok_or mbind outcome_bind].
    2: { split; [done|]. intros (-> & Hf & _). apply Forall_cons in Hf as [(_ & _ & _ & _ & _ & ?) _]. simpl in *. lia. }
    destruct (reject _) as [[]| |] eqn:Er; cbn [mbind outcome_bind].
    2, 3: split; [done|]; intros (-> & Hf & _); apply Forall_cons in Hf as [(_ & _ & E1 & E2 & ? & _) _]; simpl in *;
      replace (r_base f + r_byte_len f - r_base f) with (r_byte_len f) in E2 by lia;
      rewrite E1, E2, (proj2 (Z.ltb_ge _ _)) in Er by lia; done.
    apply CheckpointProps.TaskCheckpoint.check_reject_ok in Er. rewrite !orb_false_iff, !negb_false_iff, !Z.eqb_eq, Z.ltb_ge in Er. destruct Er as [[Hm1 Hm2] Hc].
    assert (Hfit : fits cap (region f)).
    { unfold fits, region. simpl. replace (r_base f + r_byte_len f - r_base f) with (r_byte_len f) by lia. lia. }
    destruct (Z.leb_spec (active + r_byte_len f) u32_max) as [Ht|Ht]; cbn [ok_or mbind outcome_bind].
    2: { split; [done|]. intros (-> & Hf & Hsum). rewrite fmap_cons in Hf, Hsum. apply Forall_cons in Hf as [_ Hf]. apply total_pos in Hf. cbn [total region fst snd] in *. lia. }
    specialize (IH (active + r_byte_len f)).
    destruct (live_ranges cap (active + r_byte_len f) live) as [rest|e|] eqn:Er; cbn [mbind outcome_bind].
    + pose proof (proj1 (IH rest ltac:(lia)) eq_refl) as (-> & Hf & Hsum). split.
      * intros [= <-]. split_and!; [done|by constructor|rewrite ?fmap_cons; cbn [total region fst snd] in *; lia].
      * by intros (-> & _).
    + split; [done|]. intros (-> & Hf & Hsum). rewrite fmap_cons in Hf, Hsum. apply Forall_cons in Hf as [_ Hf].
      assert (Hx : @Err CheckpointError (list Range) e = Ok (region <$> nonempty live)); [|done]. apply IH; [lia|]. split_and!; [done|done|cbn [total region fst snd] in *; lia].
    + split; [done|]. intros (-> & Hf & Hsum). rewrite fmap_cons in Hf, Hsum. apply Forall_cons in Hf as [_ Hf].
      assert (Hx : @Panic CheckpointError (list Range) = Ok (region <$> nonempty live)); [|done]. apply IH; [lia|]. split_and!; [done|done|cbn [total region fst snd] in *; lia].
Qed.

Lemma read_free_inv a b next len : is_bytes (bytes a) -> 0 <= b -> read_free a b = Ok (next, len) ->
  knows a b (region_header next len) /\ 8 <= len /\ len mod 8 = 0 /\ b + 8 <= arena_len a /\ link_ok next.
Proof.
  intros Hbytes Hb H. unfold read_free in H. apply outcome_bind_inv in H as (stop & Hs & H). apply ok_or_ok, checked_add_Some in Hs as [-> _].
  apply outcome_bind_inv in H as (bs & Hbs & H). apply ok_or_ok, slice_get_Some in Hbs as [Ebs Hr].
  replace (b + 8 - b) with 8 in Ebs by lia. assert (Hlen : length bs = 8%nat) by (rewrite Ebs, slice_length; lia).
  assert (Hbb : is_bytes bs) by (rewrite Ebs; by apply slice_Forall).
  assert (H1 : length (slice 0 4 bs) = 4%nat) by (rewrite slice_length; lia). assert (H2 : length (slice 4 4 bs) = 4%nat) by (rewrite slice_length; lia).
  assert (B1 : is_bytes (slice 0 4 bs)) by (by apply slice_Forall). assert (B2 : is_bytes (slice 4 4 bs)) by (by apply slice_Forall).
  destruct ((le_val (slice 4 4 bs) <? 8) || negb (le_val (slice 4 4 bs) mod 8 =? 0)) eqn:E; [done|]. injection H as <- <-.
  apply orb_false_iff in E as [E1%Z.ltb_ge E2%negb_false_iff%Z.eqb_eq].
  pose proof (le_val_bound _ B1) as V1. rewrite H1 in V1. change (256 ^ Z.of_nat 4) with (u32_max + 1) in V1.
  split_and!; [|done|done|unfold arena_len; lia|].
  - unfold knows. rewrite header_length. change (Z.of_nat 8) with 8. rewrite <- Ebs. unfold region_header.
    replace (default u32_max _) with (le_val (slice 0 4 bs)) by (destruct (Z.eqb_spec (le_val (slice 0 4 bs)) u32_max); simpl; lia).
    rewrite <- H1 at 1. rewrite <- H2 at 1. rewrite !le_bytes_val by done.
    rewrite <- (take_drop 4 bs) at 1. f_equal. unfold slice. change (Z.to_nat 4) with 4%nat. rewrite take_ge; [done|]. rewrite length_drop. lia.
  - intros x. destruct (Z.eqb_spec (le_val (slice 0 4 bs)) u32_max); [done|]. intros [= <-]. lia.
Qed.

Definition below (previous : option Z) (b : Z) : Prop := match previous with Some p => p < b | None => True end.

(** The free regions [rs], from [cursor] on and behind [previous]. *)
Fixpoint chain (a : FrameArena) (cap : Z) (previous cursor : option Z) (rs : list Range) : Prop :=
  match rs with
  | [] => cursor = None
  | r :: rs => cursor = Some r.1 /\ below previous r.1 /\ fits cap r /\
      exists next, read_free a r.1 = Ok (next, r.2 - r.1) /\ chain a cap (Some r.1) next rs
  end.

Lemma free_ranges_sound a cap fuel previous cursor rs : is_bytes (bytes a) -> (forall b, cursor = Some b -> 0 <= b) ->
  free_ranges a cap fuel previous cursor = Ok rs -> chain a cap previous cursor rs.
Proof.
  intros Hbytes. revert previous cursor rs. induction fuel as [|fuel IH]; intros previous [b|] rs Hb; cbn [free_ranges]; try done; try by intros [= <-].
  specialize (Hb b eq_refl). intros H. apply outcome_bind_inv in H as ([] & Hr & H). apply CheckpointProps.TaskCheckpoint.check_reject_ok, orb_false_iff in Hr as [Hm%negb_false_iff%Z.eqb_eq Hp].
  apply outcome_bind_inv in H as ([next len] & Hread & H). unfold or_invalid, map_err in Hread. destruct (read_free a b) as [v| |] eqn:Ef; try done.
  injection Hread as ->. apply outcome_bind_inv in H as (stop & Hs & H). apply ok_or_ok, checked_add_Some in Hs as [-> Hs].
  apply outcome_bind_inv in H as ([] & Hr & H). apply CheckpointProps.TaskCheckpoint.check_reject_ok in Hr.
  rewrite !orb_false_iff, negb_false_iff, Z.eqb_eq, !Z.ltb_ge in Hr. destruct Hr as [[H8 Hlm] Hcap].
  apply outcome_bind_inv in H as (rest & Hrest & [= <-]). pose proof Ef as Hinv. apply read_free_inv in Hinv as (_ & _ & _ & _ & Hn); [|done|done].
  cbn [chain fst snd]. replace (b + len - b) with len by lia. split_and!; [done| | |].
  - destruct previous as [p|]; [|done]. simpl. by apply Z.leb_gt in Hp.
  - unfold fits. simpl. replace (b + len - b) with len by lia. lia.
  - exists next. split; [done|]. apply IH; [|done]. intros x Hx. apply Hn in Hx. lia.
Qed.

Lemma chain_length a cap previous cursor rs : is_bytes (bytes a) -> (forall p, previous = Some p -> 0 <= p /\ p mod 8 = 0) ->
  chain a cap previous cursor rs -> rs <> [] -> match previous with Some p => p + 8 | None => 0 end + 8 * Z.of_nat (length rs) <= arena_len a.
Proof.
  intros Hbytes. revert previous cursor. induction rs as [|r rs IH]; intros previous cursor Hp; [done|]. intros (-> & Hbel & Hf & next & Hread & Hc) _.
  pose proof Hf as (Hr0 & _ & Hm & _). apply read_free_inv in Hread as (_ & _ & _ & Hr & _); [|done|done].
  assert (Hlo : match previous with Some p => p + 8 | None => 0 end <= r.1).
  { destruct previous as [p|]; [|done]. simpl in Hbel. destruct (Hp p eq_refl) as [_ [k Hk]%Z.mod_divide]; [|done]. apply Z.mod_divide in Hm as [j Hj]; lia. }
  destruct rs as [|r' rs]; [cbn [length]; lia|]. specialize (IH (Some r.1) next). cbn [length] in *. apply IH in Hc; [lia| |done]. by intros p [= <-].
Qed.

Lemma free_ranges_complete a cap fuel previous cursor rs : is_bytes (bytes a) -> (length rs < fuel)%nat ->
  chain a cap previous cursor rs -> free_ranges a cap fuel previous cursor = Ok rs.
Proof.
  intros Hbytes. revert previous cursor rs. induction fuel as [|fuel IH]; intros previous cursor [|r rs] Hf; [simpl in *; lia|simpl in *; lia|by intros ->|].
  intros (-> & Hb & Hfit & next & Hread & Hc). destruct r as [b e]. cbn [fst snd] in *. destruct Hfit as (H0 & H1 & H2 & H3 & H4 & H5). cbn [fst snd] in *.
  pose proof Hread as Hinv. apply read_free_inv in Hinv as (_ & H8 & _ & _ & _); [|done|done]. cbn [free_ranges].
  rewrite H2. replace (match previous with Some previous => b <=? previous | None => false end) with false.
  2: { destruct previous as [p|]; [|done]. simpl in Hb. symmetry. by apply Z.leb_gt. }
  cbn [reject negb orb Z.eqb mbind outcome_bind]. unfold or_invalid, map_err. rewrite Hread. cbn [mbind outcome_bind]. unfold checked_add.
  replace (b + (e - b)) with e by lia. rewrite (proj2 (Z.leb_le _ _)) by lia. cbn [ok_or mbind outcome_bind].
  rewrite H3, !(proj2 (Z.ltb_ge _ _)) by lia. cbn [reject negb orb Z.eqb mbind outcome_bind]. rewrite (IH _ _ rs); [done|simpl in *; lia|done].
Qed.

(** *** Ranges side by side *)

#[export] Instance range_le_trans : Transitive range_le.
Proof. intros x y z. unfold range_le. lia. Qed.
#[export] Instance range_le_total : Total range_le.
Proof. intros x y. unfold range_le. lia. Qed.
#[export] Instance range_le_antisymm : AntiSymm (=) range_le.
Proof. intros [b e] [b' e']. unfold range_le. simpl. intros H1 H2. assert (b = b' /\ e = e') as [-> ->] by lia. done. Qed.

Fixpoint consec (off : Z) (rs : list Range) (stop : Z) : Prop :=
  match rs with
  | [] => off = stop
  | r :: rs => r.1 = off /\ consec r.2 rs stop
  end.

Lemma covered_spec off rs stop : covered off rs = Ok stop <-> consec off rs stop.
Proof.
  revert off. induction rs as [|[b e] rs IH]; intros off; cbn [covered consec fst snd]; [split; [by intros [= ->]|by intros ->]|].
  destruct (Z.eqb_spec b off); cbn [negb]; [rewrite IH; tauto|]. split; [done|]. by intros [-> _].
Qed.

Lemma consec_sorted off rs stop : Forall (fun r => r.1 < r.2) rs -> consec off rs stop ->
  StronglySorted range_le rs /\ Forall (fun r => off <= r.1) rs /\ NoDup rs.
Proof.
  intros Hp. revert off. induction Hp as [|r rs Hr Hp IH]; intros off; [intros _; split_and!; constructor|]. cbn [consec]. intros [<- Hc].
  destruct (IH _ Hc) as (H1 & H2 & H3). rewrite Forall_forall in H2. split_and!.
  - constructor; [done|]. apply Forall_forall. intros x Hx. apply H2 in Hx. left. lia.
  - constructor; [done|]. apply Forall_forall. intros x Hx. apply H2 in Hx. lia.
  - constructor; [|done]. intros Hx. apply H2 in Hx. lia.
Qed.

Fixpoint spans (off : Z) (T : list tile) : list Range :=
  match T with [] => [] | t :: T => (off, off + tsize t) :: spans (off + tsize t) T end.
Fixpoint used_spans (off : Z) (T : list tile) : list Range :=
  match T with
  | [] => []
  | TFree s :: T => used_spans (off + s) T
  | TUsed bs :: T => (off, off + Z.of_nat (length bs)) :: used_spans (off + Z.of_nat (length bs)) T
  end.
Fixpoint free_spans (off : Z) (T : list tile) : list Range :=
  match T with
  | [] => []
  | TFree s :: T => (off, off + s) :: free_spans (off + s) T
  | TUsed bs :: T => free_spans (off + Z.of_nat (length bs)) T
  end.

Lemma spans_split off T : spans off T ≡ₚ used_spans off T ++ free_spans off T.
Proof.
  revert off. induction T as [|[s|bs] T IH]; intros off; cbn [spans used_spans free_spans tsize]; [done| |by rewrite IH].
  rewrite IH. by rewrite Permutation_middle.
Qed.

Lemma spans_consec off T : consec off (spans off T) (off + tsizes T).
Proof.
  revert off. induction T as [|t T IH]; intros off; cbn [spans consec tsizes fst snd]; [lia|]. split; [done|]. by rewrite Z.add_assoc.
Qed.

Lemma spans_fit cap off T : Forall tile_ok T -> 0 <= off -> off mod 8 = 0 -> off + tsizes T <= cap -> cap <= u32_max -> Forall (fits cap) (spans off T).
Proof.
  intros HT. revert off. induction HT as [|t T [Ht Hm] HT IH]; intros off H0 H8 Hc Hu; cbn [spans tsizes] in *; [done|].
  pose proof (tsizes_pos _ HT). constructor.
  - unfold fits. simpl. replace (off + tsize t - off) with (tsize t) by lia. lia.
  - apply IH; [lia| |lia|done]. by rewrite Z.add_mod, H8, Hm.
Qed.

Lemma total_spans off T : total (spans off T) = tsizes T.
Proof. revert off. induction T as [|t T IH]; intros off; cbn [spans total tsizes fst snd]; [done|]. rewrite IH. lia. Qed.

Lemma spans_total_app l1 l2 : total (l1 ++ l2) = total l1 + total l2.
Proof. induction l1; simpl; lia. Qed.

Lemma used_frames off T : Forall tile_ok T -> frame_region <$> map_to_list (frames_from off T) ≡ₚ used_spans off T.
Proof.
  intros HT. revert off. induction HT as [|[s|bs] T [Ht _] HT IH]; intros off; cbn [frames_from used_spans]; [by rewrite map_to_list_empty|apply IH|].
  rewrite map_to_list_insert by (apply frames_before; [done|simpl in Ht; lia]). rewrite fmap_cons, IH. done.
Qed.

(** *** An arena that is tiled is accepted *)

Lemma links_chain a cap previous off T : arena_len a <= u32_max -> Forall tile_ok T -> 0 <= off -> off mod 8 = 0 -> off + tsizes T <= cap -> cap <= u32_max ->
  (forall p, previous = Some p -> p < off) -> links a off T None -> chain a cap previous (first_free off T None) (free_spans off T).
Proof.
  intros Hm HT. revert previous off. induction HT as [|t T Ht HT IH]; intros previous off H0 H8 Hc Hu Hp; [done|].
  pose proof (spans_fit cap off (t :: T) ltac:(by constructor) H0 H8 Hc Hu) as Hfit. cbn [spans] in Hfit. apply Forall_cons in Hfit as [Hfit _].
  destruct Ht as [Ht Hmod]. cbn [links tsizes] in *. intros [Hk Hl].
  assert (H8' : (off + tsize t) mod 8 = 0) by (by rewrite Z.add_mod, H8, Hmod). pose proof (tsizes_pos _ HT).
  destruct t as [s|bs]; cbn [first_free free_spans tsize tile_bytes] in *.
  - cbn [chain fst snd]. split_and!; [done| |done|].
    + destruct previous as [p|]; [|done]. by apply Hp.
    + replace (off + s - off) with s by lia. exists (first_free (off + s) T None). split.
      * apply read_free_ok; try done; [|lia]. apply first_free_ok; [done|lia|lia|apply link_none].
      * apply IH; [lia|done|lia|done| |done]. intros p [= <-]. lia.
  - apply IH; [lia|done|lia|done| |done]. intros p Hp'. apply Hp in Hp'. lia.
Qed.

Lemma tiled_accepted a live T : is_bytes (bytes a) -> Forall frame_ints live -> tiled a T -> region <$> nonempty live ≡ₚ used_spans 0 T ->
  validate_checkpoint a (tsizes T) live = Ok tt.
Proof.
  intros Hbytes Hl [Hlen Hmax HT Hh Hk] Hp. unfold validate_checkpoint. rewrite Hlen, Z.eqb_refl. cbn [negb reject mbind outcome_bind].
  pose proof (spans_fit (tsizes T) 0 T HT ltac:(lia) eq_refl ltac:(lia) ltac:(lia)) as Hfit. pose proof (spans_split 0 T) as Hsplit.
  pose proof (total_spans 0 T) as Htot. rewrite Hsplit in Hfit, Htot. apply Forall_app in Hfit as [Hf1 Hf2]. rewrite spans_total_app in Htot.
  rewrite (proj2 (live_ranges_spec _ 0 live (region <$> nonempty live) Hl ltac:(by split))); cbn [mbind outcome_bind].
  2: { split; [done|]. rewrite Hp. split; [done|]. pose proof (total_pos _ _ Hf2). lia. }
  assert (Hchain : chain a (tsizes T) None (free_head a) (free_spans 0 T)).
  { rewrite Hh. apply links_chain; try done; lia. }
  rewrite (free_ranges_complete _ _ _ _ _ (free_spans 0 T)); [|done| |done].
  2: { destruct (free_spans 0 T) as [|r rs] eqn:E; [simpl; lia|]. pose proof (chain_length a (tsizes T) None (free_head a) (r :: rs) Hbytes ltac:(by intros p) Hchain ltac:(done)) as Hn.
       unfold loop_fuel, arena_len in *. assert (length (r :: rs) <= length (bytes a) / 8)%nat; [|lia].
       apply Nat.div_le_lower_bound; lia. }
  cbn [mbind outcome_bind]. replace (merge_sort range_le _) with (spans 0 T).
  - rewrite (proj2 (covered_spec 0 (spans 0 T) (tsizes T))) by apply (spans_consec 0). cbn [mbind outcome_bind]. by rewrite Z.eqb_refl.
  - apply (StronglySorted_unique range_le); [|apply StronglySorted_merge_sort; apply _|].
    + eapply consec_sorted; [|apply spans_consec]. rewrite Hsplit. apply Forall_app. split; (eapply Forall_impl; [eassumption|]); by intros r (_ & ? & _).
    + rewrite merge_sort_Permutation, Hp. done.
Qed.

(** *** What is accepted is tiled *)

Section Accepted.
Context (a : FrameArena) (cap : Z) (free : list Range) (Hbytes : is_bytes (bytes a)) (Hlen : arena_len a = cap).

Definition tile_of (r : Range) : tile := if decide (r ∈ free) then TFree (r.2 - r.1) else TUsed (slice r.1 (r.2 - r.1) (bytes a)).

Lemma tile_of_size r : fits cap r -> tsize (tile_of r) = r.2 - r.1.
Proof.
  intros (? & ? & _ & _ & ? & _). unfold tile_of. case_decide; [done|]. cbn [tsize]. unfold arena_len in *. rewrite slice_length; lia.
Qed.

Lemma tiles_built previous cursor off rs : Forall (fits cap) rs -> consec off rs cap ->
  chain a cap previous cursor (filter (fun r => r ∈ free) rs) -> let T := tile_of <$> rs in
  Forall tile_ok T /\ off + tsizes T = cap /\ first_free off T None = cursor /\ links a off T None /\ used_spans off T = filter (fun r => r ∉ free) rs.
Proof.
  intros Hf. revert previous cursor off. induction Hf as [|r rs Hr Hf IH]; intros previous cursor off; [intros E ->; simpl in *; split_and!; [done|lia|done..]|].
  cbn [consec]. intros [<- Hc] Hch. pose proof (tile_of_size _ Hr) as Hsz. pose proof (fits_span _ _ Hr). destruct Hr as (H0 & H1 & H2 & H3 & H4 & H5).
  rewrite fmap_cons. cbn [tsizes links]. rewrite Hsz. replace (r.1 + (r.2 - r.1)) with r.2 by lia. rewrite !filter_cons in *.
  destruct (decide (r ∈ free)) as [Hin|Hin].
  - assert (Et : tile_of r = TFree (r.2 - r.1)) by (unfold tile_of; by rewrite decide_True). rewrite Et in *. rewrite decide_False by tauto. destruct Hch as (-> & _ & _ & next & Hread & Hch).
    destruct (IH _ _ _ Hc Hch) as (HT & Hs & Hfirst & Hlinks & Hused). apply read_free_inv in Hread as (Hk & _); [|done|done].
    split_and!; [constructor; [split; simpl; lia|done]|lia|done| |done|].
    + cbn [tile_bytes]. by rewrite Hfirst.
    + cbn [used_spans]. by replace (r.1 + (r.2 - r.1)) with r.2 by lia.
  - assert (Et : tile_of r = TUsed (slice r.1 (r.2 - r.1) (bytes a))) by (unfold tile_of; by rewrite decide_False). rewrite Et in *.
    rewrite decide_True by done. destruct (IH _ _ _ Hc Hch) as (HT & Hs & Hfirst & Hlinks & Hused). cbn [tsize] in Hsz.
    split_and!; [constructor; [split; cbn [tsize]; rewrite Hsz; lia|done]|lia| | |done|].
    + cbn [first_free tsize]. rewrite Hsz. by replace (r.1 + (r.2 - r.1)) with r.2 by lia.
    + cbn [tile_bytes]. unfold knows. by rewrite Hsz.
    + cbn [used_spans]. rewrite Hsz. replace (r.1 + (r.2 - r.1)) with r.2 by lia. rewrite Hused. by destruct r.
Qed.

End Accepted.

Lemma chain_sorted a cap previous cursor rs : chain a cap previous cursor rs ->
  Forall (fits cap) rs /\ StronglySorted range_le rs /\ Forall (fun r => below previous r.1) rs.
Proof.
  revert previous cursor. induction rs as [|r rs IH]; intros previous cursor; [intros _; split_and!; constructor|].
  intros (_ & Hb & Hf & next & _ & Hc). destruct (IH _ _ Hc) as (H1 & H2 & H3). rewrite Forall_forall in H3. cbn [below] in H3. split_and!.
  - by constructor.
  - constructor; [done|]. apply Forall_forall. intros x Hx. left. by apply H3.
  - constructor; [done|]. apply Forall_forall. intros x Hx. apply H3 in Hx. destruct previous; [|done]. simpl in *. lia.
Qed.

Lemma consec_stop off rs stop : consec off rs stop -> off = stop \/ exists r, r ∈ rs /\ r.2 = stop.
Proof.
  revert off. induction rs as [|r rs IH]; intros off; [by left|]. intros [_ H]. right. apply IH in H as [<-|(x & Hx & <-)]; [exists r|exists x]; set_solver.
Qed.

Lemma filter_sorted (P : Range -> Prop) `{!forall x, Decision (P x)} l : StronglySorted range_le l -> StronglySorted range_le (filter P l).
Proof.
  induction 1 as [|x l Hl IH Hx]; [constructor|]. rewrite filter_cons. case_decide; [|done]. constructor; [done|].
  rewrite Forall_forall in *. intros y [_ Hy]%list_elem_of_filter. by apply Hx.
Qed.

(** The ranges of a list without repetitions that are in its second part. *)
Lemma filter_parts (l1 l2 : list Range) : NoDup (l1 ++ l2) ->
  filter (fun r => r ∈ l2) (l1 ++ l2) = l2 /\ filter (fun r => r ∉ l2) (l1 ++ l2) = l1.
Proof.
  intros (H1 & Hd & H2)%NoDup_app. rewrite !filter_app. split.
  - rewrite (filter_none _ l1), (filter_all _ l2); [done|apply Forall_forall; eauto..].
  - rewrite (filter_all _ l1), (filter_none _ l2); [apply app_nil_r|apply Forall_forall; naive_solver|apply Forall_forall; eauto].
Qed.

Lemma accepted_tiled a cap live : arena_ints a -> Forall frame_ints live -> validate_checkpoint a cap live = Ok tt ->
  exists T, tiled a T /\ tsizes T = cap /\ region <$> nonempty live ≡ₚ used_spans 0 T.
Proof.
  intros [Hbytes _ Hhead] Hl H. unfold validate_checkpoint in H.
  apply outcome_bind_inv in H as ([] & Hlen%CheckpointProps.TaskCheckpoint.check_reject_ok%negb_false_iff%Z.eqb_eq & H).
  apply outcome_bind_inv in H as (used & Hu & H). apply live_ranges_spec in Hu as (-> & Hfu & _); [|done|by split].
  apply outcome_bind_inv in H as (free & Hfree & H). apply free_ranges_sound in Hfree; [|done|done].
  apply outcome_bind_inv in H as (stop & Hc%covered_spec & Hs%CheckpointProps.TaskCheckpoint.check_reject_ok%negb_false_iff%Z.eqb_eq). subst stop.
  destruct (chain_sorted _ _ _ _ _ Hfree) as (Hff & Hsf & _). set (rs := merge_sort range_le _) in *.
  assert (Hperm : rs ≡ₚ (region <$> nonempty live) ++ free) by apply merge_sort_Permutation.
  assert (Hf : Forall (fits cap) rs) by (rewrite Hperm; by apply Forall_app).
  destruct (consec_sorted 0 rs cap) as (Hss & _ & Hnd); [eapply Forall_impl; [exact Hf|]; by intros r (_ & ? & _)|done|].
  rewrite Hperm in Hnd. destruct (filter_parts _ _ Hnd) as [E1 E2].
  assert (Hfilter : filter (fun r => r ∈ free) rs = free).
  { apply (StronglySorted_unique range_le); [by apply filter_sorted|done|]. by rewrite Hperm, E1. }
  assert (Hcap : cap <= u32_max).
  { destruct (consec_stop _ _ _ Hc) as [<-|(r & Hr & <-)]; [done|]. rewrite Forall_forall in Hf. by apply Hf. }
  rewrite <- Hfilter in Hfree. destruct (tiles_built a cap free Hbytes Hlen _ _ _ _ Hf Hc Hfree) as (HT & Hsz & Hfirst & Hlinks & Hused).
  exists (tile_of a free <$> rs). split_and!; [split; try done; lia|lia|]. by rewrite Hused, Hperm, E2.
Qed.

(** C24. Restored frames.  [validate_checkpoint] of an arena of frames accepts exactly
    an arena that its free regions and the frames of the call stacks tile: every byte
    belongs to one frame or to one region of the free list, and every frame that takes
    space is listed once.  If moreover no two free regions touch, which every arena in
    use keeps, the restored arena is the map of frames its operations implement; an
    arena in use is accepted for its frames. *)
Theorem validate_frames_correct a cap live : arena_ints a -> Forall frame_ints live ->
  (validate_checkpoint a cap live = Ok tt <-> exists T, tiled a T /\ tsizes T = cap /\ lists_frames live (frames_from 0 T)) /\
  (forall T, tiled a T -> separated T -> holds a (tsizes T) (frames_from 0 T)) /\
  (forall F, holds a cap F -> lists_frames live F -> validate_checkpoint a cap live = Ok tt).
Proof.
  intros Ha Hl. assert (Hiff : validate_checkpoint a cap live = Ok tt <-> exists T, tiled a T /\ tsizes T = cap /\ lists_frames live (frames_from 0 T)).
  { split.
    - intros (T & HT & Hs & Hp)%accepted_tiled; [|done|done]. exists T. split_and!; [done|done|]. unfold lists_frames. by rewrite used_frames by apply HT.
    - intros (T & HT & <- & Hp). unfold lists_frames in Hp. rewrite used_frames in Hp by apply HT. apply tiled_accepted; [apply Ha|done..]. }
  split_and!; [done| |].
  - intros T [] Hsep. by exists T.
  - intros F (T & [] & Hs & <-) Hp. apply Hiff. exists T. split_and!; done.
Qed.

(** Eight bytes of a frame and three more words that are free. *)
Definition saved_arena : FrameArena := mkFrameArena (replicate 8 7 ++ region_header None 24 ++ replicate 16 0) (Some 8).
Definition saved_frame : FrameReservation := mkFrameReservation 0 8.

Lemma validate_frames_correct_witness :
  (exists T, tiled saved_arena T /\ tsizes T = 32 /\ lists_frames [saved_frame; mkFrameReservation 0 0] (frames_from 0 T)) /\
  ~ exists T, tiled saved_arena T /\ tsizes T = 32 /\ lists_frames [saved_frame; saved_frame] (frames_from 0 T).
Proof.
  assert (Ha : arena_ints saved_arena) by (split; [apply is_bytes_forallb; vm_compute; reflexivity|vm_compute; discriminate|intros b [= <-]; done]).
  split.
  - apply (validate_frames_correct saved_arena 32 [saved_frame; mkFrameReservation 0 0]); [exact Ha|repeat constructor; done|vm_compute; reflexivity].
  - intros HT. assert (Hv : validate_checkpoint saved_arena 32 [saved_frame; saved_frame] = Ok tt).
    { apply (validate_frames_correct saved_arena 32 [saved_frame; saved_frame]); [exact Ha|repeat constructor; done|exact HT]. }
    vm_compute in Hv. discriminate Hv.
Defined.

End FrameCheckpoint.

(** ** The check of the heap *)

Module HeapCheckpoint.
Import Layout Heap HeapView HeapClass HeapLists HeapInv HeapCheck.

(** [B] are the blocks of a heap and [L] its free lists: the invariant of the allocator
    but for the sizes of predecessors, which the collector borrows, and for the merging of
    neighbours. *)
Record restored (h : Heap) (B : list blk) (L : list (list Z)) : Prop := {
  r_lists : lists_ok h (free_map 0 B) L;
  r_seg : seg h (-1) 0 0 B;
  r_sum : sizes B = arena_bytes h;
  r_total : total_free h = free_sum B;
  r_live : live_objects h = live_count B }.

(** Fields are in the range of their types. *)
Record heap_ints (h : Heap) : Prop := {
  hi_bytes : is_bytes (arena h);
  hi_units : size (arena h) mod 16 = 0;
  hi_first : 0 <= first_bitmap h < 2 ^ 32;
  hi_second : length (second_bitmaps h) = 32%nat /\ Forall (fun z => 0 <= z < 256) (second_bitmaps h) }.

(** *** The walk over the arena *)

Fixpoint blocks_at (off : Z) (B : list blk) : list Block :=
  match B with [] => [] | k :: B => mkBlock off (b_size k) (b_flags k) :: blocks_at (off + b_size k) B end.

Lemma or_invalid_ok {E A} (o : outcome E A) a : or_invalid o = Ok a -> o = Ok a.
Proof. unfold or_invalid, Frame.map_err. destruct o; naive_solver. Qed.

Lemma block_size_ok h b s : block_size h b = Ok s -> size_ok s = true.
Proof.
  intros H. unfold block_size in H. apply outcome_bind_inv in H as (x & _ & H). destruct (size_ok x) eqn:E; [|done]. by injection H as <-.
Qed.

Lemma flags_checked f : 0 <= f < 8 ->
  ((Z.land f ALLOCATED =? 0) && negb (f =? 0) || negb (Z.land f MARKED =? 0) && (Z.land f LIVE =? 0) = false <-> flags_ok f).
Proof.
  intros H. unfold flags_ok. assert (f = 0 \/ f = 1 \/ f = 2 \/ f = 3 \/ f = 4 \/ f = 5 \/ f = 6 \/ f = 7) as Hf by lia.
  repeat (destruct Hf as [->|Hf]; [vm_compute; intuition congruence|]). subst f. vm_compute. intuition congruence.
Qed.

Lemma vflags_range h b : 0 <= vflags h b < 8.
Proof. unfold vflags, get_field. rewrite Z.land_ones by lia. apply Z.mod_pos_bound. lia. Qed.

Lemma walk_sound h fuel off total live w : geom h -> 0 <= off -> off mod 8 = 0 -> off <= arena_bytes h ->
  walk_blocks h fuel off total live = Ok w -> exists B, (forall prev, seg h (-1) off prev B) /\ off + sizes B = arena_bytes h /\
    w = mkWalk (arena_bytes h) (total + free_sum B) (live + live_count B) (blocks_at off B).
Proof.
  intros Hg. revert off total live w. induction fuel as [|fuel IH]; intros off total live w H0 H8 Hle; cbn [walk_blocks];
    (destruct (Z.ltb_spec off (arena_bytes h)) as [Hlt|Hge]; [|intros [= <-]; exists []; split_and!; [done|simpl; lia|simpl; f_equal; lia]]); [done|].
  intros H. apply outcome_bind_inv in H as (s & Hs%or_invalid_ok & H). pose proof (block_size_ok _ _ _ Hs) as Hok. apply size_ok_true in Hok as [H16 Hm].
  apply outcome_bind_inv in H as (f & Hf%or_invalid_ok & H). apply outcome_bind_inv in H as ([] & Hr & H).
  apply outcome_bind_inv in H as (next & Hn%ok_or_ok & H). unfold checked_add in Hn.
  destruct (Z.leb_spec (off + s) u32_max); [|done]. cbn in Hn. destruct (Z.leb_spec (off + s) (arena_bytes h)) as [Hend|]; [|done]. injection Hn as <-.
  assert (Hbo : bo h off) by (unfold bo; lia). rewrite block_size_view in Hs by done. destruct (size_ok (vsize h off)) eqn:Eok; [|done]. injection Hs as <-.
  rewrite read_flags_view in Hf by done. injection Hf as <-. apply CheckpointProps.TaskCheckpoint.check_reject_ok, flags_checked in Hr; [|apply vflags_range].
  apply outcome_bind_inv in H as (total' & Ht & H). apply outcome_bind_inv in H as (live' & Hl & H). apply outcome_bind_inv in H as (w' & Hw & [= <-]).
  apply IH in Hw as (B & HB & Hsum & ->); [|lia|by rewrite Z.add_mod, H8, Hm|done]. cbn [w_offset w_total_free w_live_objects w_blocks].
  exists (mkBlk (vsize h off) (vflags h off) :: B). split_and!.
  - intros prev. cbn [seg b_size b_flags]. split_and!; try done; try lia; apply HB.
  - simpl. lia.
  - cbn [free_sum live_count blocks_at b_size b_flags]. unfold is_free, is_live. cbn [b_flags].
    replace total' with (total + (if vflags h off =? 0 then vsize h off else 0)).
    2: { destruct (vflags h off =? 0); [apply ok_or_ok, checked_add_Some in Ht; lia|injection Ht; lia]. }
    replace live' with (live + Z.b2z (negb (Z.land (vflags h off) LIVE =? 0))); [f_equal; lia|].
    destruct (Z.eqb_spec (vflags h off) 0) as [->|]; [injection Hl; simpl; lia|]. cbn [negb andb] in Hl.
    destruct (negb _); [apply ok_or_ok, checked_add_Some in Hl; simpl; lia|injection Hl; simpl; lia].
Qed.

Lemma walk_complete h cut fuel off prev B total live : geom h -> seg h cut off prev B -> 0 <= off -> off mod 8 = 0 -> off + sizes B = arena_bytes h ->
  (length B <= fuel)%nat -> 0 <= total -> total + free_sum B <= u32_max -> 0 <= live -> live + live_count B <= u32_max ->
  walk_blocks h fuel off total live = Ok (mkWalk (arena_bytes h) (total + free_sum B) (live + live_count B) (blocks_at off B)).
Proof.
  intros Hg. revert fuel off prev total live. induction B as [|k B IH]; intros fuel off prev total live Hseg H0 H8 Hsum Hfuel Ht0 Ht Hl0 Hl.
  - simpl in *. destruct fuel; cbn [walk_blocks]; rewrite (proj2 (Z.ltb_ge _ _)) by lia; repeat f_equal; lia.
  - destruct Hseg as (Hs & Hf & _ & Hok & Hfl & Hseg). pose proof (seg_all_ok _ _ _ _ _ Hseg) as Hall. pose proof (proj1 (sizes_ok _ Hall)) as Hpos.
    pose proof (proj1 (size_ok_true _) Hok) as [H16 Hm]. destruct fuel as [|fuel]; [simpl in *; lia|]. cbn [sizes free_sum live_count length] in *.
    assert (Hbo : bo h off) by (unfold bo; lia). pose proof (g_size _ Hg) as Hsz. rewrite Value.MAX_PAYLOAD_eq in Hsz.
    assert (Hpart : 0 <= free_sum B /\ 0 <= live_count B).
    { clear -Hall. induction Hall as [|k B [Hk%size_ok_true _] _ IH]; simpl; [done|]. destruct (is_free k), (is_live k); simpl; lia. }
    cbn [walk_blocks]. rewrite (proj2 (Z.ltb_lt _ _)) by lia. rewrite block_size_view, Hs, Hok, read_flags_view, Hf by done. cbn [or_invalid Frame.map_err mbind outcome_bind].
    rewrite (proj2 (flags_checked (b_flags k) ltac:(rewrite <- Hf; apply vflags_range)) Hfl). cbn [reject mbind outcome_bind].
    rewrite (checked_add_le u32_max off (b_size k)) by (unfold u32_max; lia). cbn [mbind option_bind]. rewrite (proj2 (Z.leb_le _ _)) by lia. cbn [ok_or mbind outcome_bind].
    unfold is_free, is_live in *. destruct (Z.eqb_spec (b_flags k) 0) as [E|E]; cbn [negb andb].
    + rewrite checked_add_le by lia. cbn [ok_or mbind outcome_bind]. rewrite E in *. change (Z.b2z (negb (Z.land 0 LIVE =? 0))) with 0 in *.
      rewrite (IH fuel (off + b_size k) (b_size k)); try done; try lia; [|by rewrite Z.add_mod, H8, Hm]. cbn [blocks_at mbind outcome_bind w_offset w_total_free w_live_objects w_blocks].
      rewrite E. f_equal; f_equal; (lia || done).
    + cbn [mbind outcome_bind]. destruct (negb (Z.land (b_flags k) LIVE =? 0)) eqn:El; cbn [Z.b2z] in *;
        [rewrite checked_add_le by lia|]; cbn [ok_or mbind outcome_bind];
        (rewrite (IH fuel (off + b_size k) (b_size k)); try done; try lia; try (by rewrite Z.add_mod, H8, Hm));
        cbn [blocks_at mbind outcome_bind w_offset w_total_free w_live_objects w_blocks]; f_equal; f_equal; (lia || done).
Qed.

(** *** The free lists *)

Lemma blocks_at_lookup off B i b : blocks_at off B !! i = Some b -> at_off off B (k_offset b) (mkBlk (k_size b) (k_flags b)).
Proof.
  revert off i. induction B as [|k B IH]; intros off [|i]; cbn [blocks_at at_off]; try done.
  - intros [= <-]. left. by destruct k.
  - intros H%IH. by right.
Qed.

Lemma at_blocks off B x k : at_off off B x k -> exists i, blocks_at off B !! i = Some (mkBlock x (b_size k) (b_flags k)).
Proof.
  revert off. induction B as [|k0 B IH]; intros off; [done|]. intros [[-> ->]|H]; [by exists O|]. apply IH in H as [i Hi]. by exists (S i).
Qed.

Lemma blocks_at_inj off B i j b b' : all_ok B -> blocks_at off B !! i = Some b -> blocks_at off B !! j = Some b' -> k_offset b = k_offset b' -> i = j.
Proof.
  revert off i j. induction B as [|k B IH]; intros off i j Hall; [done|]. apply Forall_cons in Hall as [[Hk%size_ok_true _] Hall].
  assert (Hlater : forall n c, blocks_at (off + b_size k) B !! n = Some c -> off < k_offset c).
  { intros n c Hc%blocks_at_lookup. apply at_range in Hc; [lia|done]. }
  destruct i as [|i], j as [|j]; cbn [blocks_at]; [done| | |].
  - intros [= <-] Hb E. apply Hlater in Hb. simpl in E. lia.
  - intros Hb [= <-] E. apply Hlater in Hb. simpl in E. lia.
  - intros Hb Hb' E. f_equal. by eapply IH.
Qed.

Definition marks (V : list Z) (blocks : list Block) : list bool := (fun b => bool_decide (k_offset b ∈ V)) <$> blocks.

Lemma marks_lookup V bs i b : bs !! i = Some b -> marks V bs !! i = Some (bool_decide (k_offset b ∈ V)).
Proof. intros Hi. unfold marks. by rewrite list_lookup_fmap, Hi. Qed.

Section Lists.
Context (h : Heap) (B : list blk) (Hg : geom h) (Hseg : seg h (-1) 0 0 B) (Hsum : sizes B = arena_bytes h).

Abbreviation FS := (free_map 0 B).
Abbreviation blocks := (blocks_at 0 B).

Lemma all_blocks_ok : all_ok B.
Proof using Hseg. by eapply seg_all_ok. Qed.

Lemma at_bo x k : at_off 0 B x k -> bo h x.
Proof using Hseg Hsum.
  intros Hx. pose proof (at_range _ _ _ _ all_blocks_ok Hx). pose proof (at_ok _ _ _ _ all_blocks_ok Hx) as (? & _). split_and!; [lia| |lia].
  apply HeapOps.at_split in Hx as (B1 & B2 & EB & ->). pose proof all_blocks_ok as Hall. rewrite EB in Hall. apply Forall_app in Hall as [H1 _].
  rewrite Z.add_0_l. by apply sizes_ok.
Qed.

Lemma search_found x i b : search blocks x = Some (i, b) <-> blocks !! i = Some b /\ k_offset b = x.
Proof using Hseg.
  unfold search. rewrite list_find_Some. split; [naive_solver|]. intros [Hi Hx]. split_and!; [done|done|].
  intros j y Hj Hlt Hy. assert (i = j); [|lia]. eapply blocks_at_inj; [apply all_blocks_ok|done|done|congruence].
Qed.

Lemma search_free x s : FS !! x = Some s -> exists i, search blocks x = Some (i, mkBlock x s 0).
Proof using Hseg.
  intros Hx%at_free%at_blocks; [|apply all_blocks_ok]. destruct Hx as [i Hi]. exists i. by apply search_found.
Qed.

Lemma marks_insert V i b : blocks !! i = Some b -> <[i := true]> (marks V blocks) = marks (k_offset b :: V) blocks.
Proof using Hg Hseg Hsum.
  intros Hi. apply list_eq. intros j. unfold marks. destruct (decide (j = i)) as [->|Hne].
  - rewrite list_lookup_insert_eq by (rewrite length_fmap; by eapply lookup_lt_Some). rewrite list_lookup_fmap, Hi. simpl. by rewrite bool_decide_eq_true_2 by left.
  - rewrite list_lookup_insert_ne by done. rewrite !list_lookup_fmap. destruct (blocks !! j) as [c|] eqn:Ej; [|done]. simpl. f_equal.
    apply bool_decide_ext. assert (k_offset c <> k_offset b); [|set_solver]. intros E. apply Hne. by eapply blocks_at_inj; [apply all_blocks_ok|..].
Qed.

(** A free list of a class. *)
Definition list_ok (class : Z) (V l : list Z) : Prop :=
  dseg h NULL_OFFSET l NULL_OFFSET /\ NoDup l /\
  (forall x, x ∈ l -> (x ∉ V) /\ (exists size, FS !! x = Some size /\ class_index (class_of size) = class)).

Lemma free_block x s : FS !! x = Some s -> bo h x /\ x <> NULL_OFFSET /\ size_ok s = true /\ free_size_class s = Some (class_of s) /\ x + s <= arena_bytes h.
Proof using Hg Hseg Hsum.
  intros Hx. pose proof Hx as Hat. apply at_free in Hat; [|apply all_blocks_ok]. pose proof (at_bo _ _ Hat) as Hbo.
  pose proof (at_range _ _ _ _ all_blocks_ok Hat) as Hr. simpl in Hr. apply free_map_range in Hx as (_ & _ & Hs); [|apply all_blocks_ok].
  pose proof (g_size _ Hg) as Hsz. rewrite Value.MAX_PAYLOAD_eq in Hsz. pose proof (proj1 (size_ok_true _) Hs).
  split_and!; [done|unfold NULL_OFFSET, u32_max; lia|done|apply free_size_class_eq; [done|unfold u32_max; lia]|lia].
Qed.

Lemma check_list_sound class fuel V previous cursor visited : check_list h blocks class fuel (marks V blocks) previous cursor = Ok visited ->
  exists l, visited = marks (rev l ++ V) blocks /\ cursor = head_or NULL_OFFSET l /\ dseg h previous l NULL_OFFSET /\ NoDup l /\
    (forall x, x ∈ l -> (x ∉ V) /\ (exists size, FS !! x = Some size /\ class_index (class_of size) = class)).
Proof using Hg Hseg Hsum.
  revert V previous cursor. induction fuel as [|fuel IH]; intros V previous cursor; cbn [check_list];
    (destruct (Z.eqb_spec cursor NULL_OFFSET) as [->|Hc]; [intros [= <-]; exists []; split_and!; [done|done|done|constructor|set_solver]|]); [done|].
  intros H. apply outcome_bind_inv in H as ([i b] & Hi%ok_or_ok%search_found & H). destruct Hi as [Hi <-].
  apply outcome_bind_inv in H as (seen & Hseen%expect_ok & H). rewrite (marks_lookup _ _ _ _ Hi) in Hseen. injection Hseen as <-.
  apply outcome_bind_inv in H as ([] & Hr & H). apply CheckpointProps.TaskCheckpoint.check_reject_ok in Hr.
  rewrite !orb_false_iff, !negb_false_iff, Z.eqb_eq, bool_decide_eq_true, bool_decide_eq_false in Hr. destruct Hr as [[HV Hf] Hcl].
  pose proof (blocks_at_lookup _ _ _ _ Hi) as Hat. rewrite Hf in Hat. pose proof (at_bo _ _ Hat) as Hbo. apply at_free in Hat; [|apply all_blocks_ok].
  destruct (free_block _ _ Hat) as (_ & _ & _ & Hclass & _). rewrite Hclass in Hcl. injection Hcl as Hcl.
  rewrite read_pf_view, read_next_view in H by done. cbn [or_invalid Frame.map_err mbind outcome_bind] in H.
  apply outcome_bind_inv in H as ([] & Hp%CheckpointProps.TaskCheckpoint.check_reject_ok%negb_false_iff%Z.eqb_eq & H).
  rewrite (marks_insert _ _ _ Hi) in H. apply IH in H as (l & -> & Hn & Hd & Hnd & Hl).
  exists (k_offset b :: l). split_and!; [cbn [rev]; by rewrite <- app_assoc|done|by cbn [dseg]|constructor; [|done]; intros Hin; apply Hl in Hin; set_solver|].
  intros x [->|Hx]%elem_of_cons; [split; [done|by exists (k_size b)]|]. apply Hl in Hx as [? ?]. split; [set_solver|done].
Qed.

Lemma check_list_complete class fuel V previous l : (length l <= fuel)%nat -> dseg h previous l NULL_OFFSET -> NoDup l ->
  (forall x, x ∈ l -> (x ∉ V) /\ (exists size, FS !! x = Some size /\ class_index (class_of size) = class)) ->
  check_list h blocks class fuel (marks V blocks) previous (head_or NULL_OFFSET l) = Ok (marks (rev l ++ V) blocks).
Proof using Hg Hseg Hsum.
  revert V previous fuel. induction l as [|x l IH]; intros V previous fuel Hf Hd Hnd Hl; [by destruct fuel|]. destruct fuel as [|fuel]; [simpl in Hf; lia|].
  apply NoDup_cons in Hnd as [Hx Hnd]. destruct Hd as (Hp & Hn & Hd). destruct (Hl x) as (HV & s & Hs & Hcl); [left|].
  destruct (free_block _ _ Hs) as (Hbo & Hne & _ & Hclass & _). destruct (search_free _ _ Hs) as [i Hi]. pose proof (proj1 (search_found _ _ _) Hi) as [Hlook _].
  cbn [check_list head_or]. rewrite (proj2 (Z.eqb_neq _ _)), Hi by done. cbn [ok_or mbind outcome_bind].
  rewrite (marks_lookup _ _ _ _ Hlook). cbn [expect mbind outcome_bind k_offset k_flags k_size].
  rewrite bool_decide_eq_false_2 by done. rewrite Hclass. cbn [fmap option_fmap option_map]. rewrite bool_decide_eq_true_2 by (by rewrite Hcl).
  cbn [orb negb Z.eqb reject mbind outcome_bind]. rewrite read_pf_view, read_next_view by done. cbn [or_invalid Frame.map_err mbind outcome_bind].
  rewrite Hp, Z.eqb_refl. cbn [negb reject mbind outcome_bind]. rewrite (marks_insert _ _ _ Hlook), Hn. cbn [k_offset].
  rewrite IH; [cbn [rev]; by rewrite <- app_assoc|simpl in Hf; lia|done|done|].
  intros y Hy. destruct (Hl y) as [HyV Hy']; [by right|]. split; [set_solver|done].
Qed.

Lemma list_ok_length class l : list_ok class [] l -> (length l <= S (length blocks))%nat.
Proof using Hseg.
  intros (_ & Hnd & Hl). transitivity (length (k_offset <$> blocks)); [|rewrite length_fmap; lia]. apply submseteq_length, NoDup_submseteq; [done|].
  intros x Hx. destruct (Hl x Hx) as (_ & s & Hs & _). apply search_free in Hs as [i Hi]. apply search_found in Hi as [Hi _].
  apply list_elem_of_fmap. exists (mkBlock x s 0). split; [done|]. by eapply list_elem_of_lookup_2.
Qed.

End Lists.

(** *** The bitmaps *)

Definition mark_bit (class head : Z) (m : Z * list Z) : Z * list Z :=
  if head =? NULL_OFFSET then m else
  (Z.lor m.1 (Z.shiftl 1 (class / 8)), zset (class / 8) (Z.lor (default 0 (zget m.2 (class / 8))) (Z.shiftl 1 (class mod 8))) m.2).

Fixpoint mark_bits (class : Z) (heads : list Z) (m : Z * list Z) : Z * list Z :=
  match heads with
  | [] => m
  | head :: heads => mark_bits (class + 1) heads (mark_bit class head m)
  end.

(** Class [n] has a list, of the classes from [class] on. *)
Fixpoint listed (class : Z) (heads : list Z) (n : Z) : Prop :=
  match heads with
  | [] => False
  | head :: heads => (n = class /\ head <> NULL_OFFSET) \/ listed (class + 1) heads n
  end.

Lemma listed_lookup class heads n : 0 <= n -> listed class heads n <-> exists head, class <= n /\ heads !! Z.to_nat (n - class) = Some head /\ head <> NULL_OFFSET.
Proof.
  intros Hn. revert class. induction heads as [|head heads IH]; intros class; cbn [listed].
  { split; [done|]. by intros (x & _ & Hx & _). }
  rewrite IH. split.
  - intros [[-> Hne]|(x & Hle & Hx & Hne)]; [exists head; rewrite Z.sub_diag; by split|]. exists x. split; [lia|]. split; [|done].
    replace (Z.to_nat (n - class)) with (S (Z.to_nat (n - (class + 1)))) by lia. done.
  - intros (x & Hle & Hx & Hne). destruct (decide (n = class)) as [->|Hnc]; [left; rewrite Z.sub_diag in Hx; by injection Hx as ->|]. right.
    exists x. split; [lia|]. split; [|done]. replace (Z.to_nat (n - class)) with (S (Z.to_nat (n - (class + 1)))) in Hx by lia. done.
Qed.

Record maps_typed (m : Z * list Z) : Prop := {
  mt_first : 0 <= m.1 < 2 ^ 32;
  mt_length : length m.2 = 32%nat;
  mt_second : Forall (fun z => 0 <= z < 256) m.2 }.

Lemma mark_bit_spec class head m : 0 <= class < 256 -> maps_typed m ->
  maps_typed (mark_bit class head m) /\
  (forall f, 0 <= f -> Z.testbit (mark_bit class head m).1 f = true <-> Z.testbit m.1 f = true \/ (f = class / 8 /\ head <> NULL_OFFSET)) /\
  (forall f s z z', 0 <= f -> 0 <= s < 8 -> zget m.2 f = Some z -> zget (mark_bit class head m).2 f = Some z' ->
     Z.testbit z' s = true <-> Z.testbit z s = true \/ (f * 8 + s = class /\ head <> NULL_OFFSET)).
Proof.
  intros Hc Hm. unfold mark_bit. destruct (Z.eqb_spec head NULL_OFFSET) as [E|E].
  { split; [done|]. split; [tauto|]. intros f s z z' _ _ Hz Hz'. rewrite Hz in Hz'. injection Hz' as <-. tauto. }
  destruct Hm as [Hf Hl Hs]. pose proof (Z.div_mod class 8 ltac:(done)) as Hdiv. pose proof (Z.mod_pos_bound class 8 ltac:(done)) as Hmod.
  assert (Hq : 0 <= class / 8 < 32) by lia. destruct (lookup_lt_is_Some_2 m.2 (Z.to_nat (class / 8)) ltac:(lia)) as [byte Hbyte].
  fold (zget m.2 (class / 8)) in Hbyte. rewrite Hbyte. cbn [default fst snd].
  assert (Hb : 0 <= byte < 2 ^ 8) by (exact (Forall_lookup_1 _ _ _ _ Hs Hbyte)). split_and!.
  - split; cbn [fst snd].
    + apply lor_bit_bound; [done|done].
    + unfold zset. by rewrite length_insert.
    + apply Forall_insert; [done|]. apply (lor_bit_bound byte _ 8); [lia|done].
  - intros f Hf0. rewrite Z.lor_spec, Z.shiftl_1_l, Z.pow2_bits_eqb, orb_true_iff, Z.eqb_eq by lia. naive_solver.
  - intros f s z z' Hf0 Hs0 Hz Hz'. destruct (decide (f = class / 8)) as [->|Hne].
    + rewrite (zget_zset_eq _ _ _ byte) in Hz' by done. injection Hz' as <-. rewrite Hbyte in Hz. injection Hz as ->.
      rewrite Z.lor_spec, Z.shiftl_1_l, Z.pow2_bits_eqb, orb_true_iff, Z.eqb_eq by lia. split; (intros [?|Hx]; [by left|right]); [split; [lia|done]|lia].
    + unfold zget, zset in Hz'. rewrite list_lookup_insert_ne in Hz' by lia. unfold zget in Hz. rewrite Hz in Hz'. injection Hz' as <-.
      split; [by left|]. intros [?|[? _]]; [done|]. exfalso. apply Hne. lia.
Qed.

Lemma mark_bits_spec class heads m : 0 <= class -> class + Z.of_nat (length heads) <= 256 -> maps_typed m ->
  maps_typed (mark_bits class heads m) /\
  (forall f, 0 <= f -> Z.testbit (mark_bits class heads m).1 f = true <-> Z.testbit m.1 f = true \/ exists s, 0 <= s < 8 /\ listed class heads (f * 8 + s)) /\
  (forall f s z z', 0 <= f -> 0 <= s < 8 -> zget m.2 f = Some z -> zget (mark_bits class heads m).2 f = Some z' ->
     Z.testbit z' s = true <-> Z.testbit z s = true \/ listed class heads (f * 8 + s)).
Proof.
  revert class m. induction heads as [|head heads IH]; intros class m Hc Hl Hm; cbn [mark_bits listed length] in *.
  { split; [done|]. split; [intros f _; split; [by left|by intros [?|(s & _ & [])]]|]. intros f s z z' _ _ Hz Hz'. rewrite Hz in Hz'. injection Hz' as <-. tauto. }
  destruct (mark_bit_spec class head m) as (Hm1 & Hf1 & Hs1); [lia|done|]. destruct (IH (class + 1) (mark_bit class head m)) as (Hm2 & Hf2 & Hs2); [lia|lia|done|].
  pose proof (Z.div_mod class 8 ltac:(done)) as Hdiv. pose proof (Z.mod_pos_bound class 8 ltac:(done)) as Hmod. split; [done|]. split.
  - intros f Hf. rewrite Hf2, Hf1 by done. split.
    + intros [[?|[-> Hne]]|(s & Hs & Hx)]; [by left| |right; eauto]. right. exists (class mod 8). split; [done|]. left. split; [lia|done].
    + intros [?|(s & Hs & [[Hx Hne]|Hx])]; [by left; left| |right; eauto]. left. right. split; [lia|done].
  - intros f s z z' Hf Hs Hz Hz'. destruct (lookup_lt_is_Some_2 (mark_bit class head m).2 (Z.to_nat f)) as [y Hy].
    { rewrite (mt_length _ Hm1), <- (mt_length _ Hm). by eapply lookup_lt_Some. }
    rewrite (Hs2 f s y z' Hf Hs Hy Hz'), (Hs1 f s z y Hf Hs Hz Hy). tauto.
Qed.

Lemma byte_bit z : 0 <= z < 256 -> z <> 0 <-> exists s, 0 <= s < 8 /\ Z.testbit z s = true.
Proof.
  intros Hz. split.
  - intros Hne. exists (Z.log2 z). split; [|apply Z.bit_log2; lia]. split; [apply Z.log2_nonneg|]. apply Z.log2_lt_pow2; simpl; lia.
  - intros (s & Hs & Hb) ->. by rewrite Z.bits_0 in Hb.
Qed.

Definition no_marks : Z * list Z := (0, replicate 32 0).

Lemma computed_bitmaps L : length L = 256%nat -> (forall i l x, L !! i = Some l -> x ∈ l -> x <> NULL_OFFSET) ->
  bitmaps_ok (mark_bits 0 (head_or NULL_OFFSET <$> L) no_marks).1 (mark_bits 0 (head_or NULL_OFFSET <$> L) no_marks).2 L.
Proof.
  intros HL Hne. destruct (mark_bits_spec 0 (head_or NULL_OFFSET <$> L) no_marks) as ([M1 M2 M3] & Hf & Hs); [done|rewrite length_fmap, HL; done| |].
  { split; [done|done|]. by apply Forall_replicate. }
  set (m := mark_bits 0 _ _) in *. assert (Hzero : forall f, 0 <= f < 32 -> zget no_marks.2 f = Some 0) by (intros f Hr; apply lookup_replicate; lia).
  assert (Hbit : forall f s z, 0 <= f < 32 -> 0 <= s < 8 -> zget m.2 f = Some z -> Z.testbit z s = true <-> listed 0 (head_or NULL_OFFSET <$> L) (f * 8 + s)).
  { intros f s z Hr Hs' Hz. rewrite (Hs f s 0 z) by (done || lia || by apply Hzero). rewrite Z.bits_0. naive_solver. }
  constructor; try done.
  - intros f s z l Hr Hs' Hz Hl. rewrite (Hbit f s z) by done. rewrite listed_lookup by lia. rewrite Z.sub_0_r, list_lookup_fmap, Hl. simpl. split.
    + by intros (x & _ & [= <-] & Hx) ->.
    + intros Hl'. exists (head_or NULL_OFFSET l). split; [lia|]. split; [done|]. destruct l as [|x l]; [done|]. simpl. eapply Hne; [done|left].
  - intros f z Hr Hz. rewrite Hf by lia. rewrite (byte_bit z) by exact (Forall_lookup_1 _ _ _ _ M3 Hz). cbn [no_marks fst]. rewrite Z.bits_0. split.
    + intros [?|(s & Hs' & Hx)]; [done|]. exists s. split; [done|]. by apply (Hbit f).
    + intros (s & Hs' & Hx). right. exists s. split; [done|]. by apply (Hbit f s z) in Hx.
Qed.

Lemma bitmaps_unique fb fb' sb sb' L : length L = 256%nat -> bitmaps_ok fb sb L -> bitmaps_ok fb' sb' L -> fb = fb' /\ sb = sb'.
Proof.
  intros HL [A1 A2 A3 A4 A5] [B1 B2 B3 B4 B5].
  assert (Hsb : sb = sb').
  { apply (list_eq_same_length _ _ 32); [done|done|]. intros i z z' Hi Hz Hz'.
    assert (Hzz : zget sb (Z.of_nat i) = Some z /\ zget sb' (Z.of_nat i) = Some z') by (unfold zget; by rewrite Nat2Z.id).
    assert (Hv : 0 <= z < 2 ^ 8) by exact (Forall_lookup_1 _ _ _ _ A2 Hz). assert (Hv' : 0 <= z' < 2 ^ 8) by exact (Forall_lookup_1 _ _ _ _ B2 Hz'). apply Z.bits_inj'. intros s Hs.
    destruct (Z.lt_ge_cases s 8) as [H8|H8]; [|by rewrite !(testbit_small 8) by lia].
    destruct (lookup_lt_is_Some_2 L (Z.to_nat (Z.of_nat i * 8 + s)) ltac:(lia)) as [l Hl]. apply eq_true_iff_eq.
    rewrite (A3 (Z.of_nat i) s z l), (B3 (Z.of_nat i) s z' l) by (done || lia || apply Hzz). done. }
  split; [|done]. subst sb'. apply Z.bits_inj'. intros f Hf. destruct (Z.lt_ge_cases f 32) as [H32|H32]; [|by rewrite !(testbit_small 32) by lia].
  destruct (lookup_lt_is_Some_2 sb (Z.to_nat f) ltac:(lia)) as [z Hz]. apply eq_true_iff_eq. by rewrite (A5 f z), (B5 f z).
Qed.

Section Classes.
Context (h : Heap) (B : list blk) (Hg : geom h) (Hseg : seg h (-1) 0 0 B) (Hsum : sizes B = arena_bytes h).

Abbreviation blocks := (blocks_at 0 B).

(** [W] has the elements of [V] and of the lists [L]. *)
Definition visited_lists (V : list Z) (L : list (list Z)) (W : list Z) : Prop :=
  forall x, x ∈ W <-> x ∈ V \/ exists i l, L !! i = Some l /\ x ∈ l.

Lemma check_classes_step class head heads V m : 0 <= class -> class < 256 -> length m.2 = 32%nat ->
  check_classes h blocks class (head :: heads) (mkLists (marks V blocks) m.1 m.2) =
  (visited ← check_list h blocks class (S (length blocks)) (marks V blocks) NULL_OFFSET head;
   check_classes h blocks (class + 1) heads (mkLists visited (mark_bit class head m).1 (mark_bit class head m).2)).
Proof using .
  intros Hc Hc' Hm. cbn [check_classes l_first l_second l_visited]. unfold mark_bit. destruct (head =? NULL_OFFSET); [done|].
  destruct (lookup_lt_is_Some_2 m.2 (Z.to_nat (class / 8))) as [byte Hb]; [|unfold zget; by rewrite Hb].
  rewrite Hm. pose proof (Z.div_mod class 8 ltac:(done)). pose proof (Z.mod_pos_bound class 8 ltac:(done)). lia.
Qed.

Lemma mark_bit_length class head m : length (mark_bit class head m).2 = length m.2.
Proof using . unfold mark_bit. destruct (head =? NULL_OFFSET); [done|]. cbn [snd]. unfold zset. by rewrite length_insert. Qed.

Lemma check_classes_sound class heads V m s : 0 <= class -> class + Z.of_nat (length heads) <= 256 -> length m.2 = 32%nat ->
  check_classes h blocks class heads (mkLists (marks V blocks) m.1 m.2) = Ok s ->
  exists L W, heads = head_or NULL_OFFSET <$> L /\ visited_lists V L W /\
    s = mkLists (marks W blocks) (mark_bits class heads m).1 (mark_bits class heads m).2 /\
    (forall i l, L !! i = Some l -> list_ok h B (class + Z.of_nat i) [] l).
Proof using Hg Hseg Hsum.
  revert class V m. induction heads as [|head heads IH]; intros class V m Hc Hl Hm.
  { intros [= <-]. exists [], V. split_and!; [done|intros x; split; [by left|by intros [?|(i & l & Hl' & _)]]|done|done]. }
  cbn [length] in Hl. rewrite check_classes_step by (done || lia). intros H. apply outcome_bind_inv in H as (visited & Hv & H).
  apply check_list_sound in Hv as (l & -> & -> & Hd & Hnd & Hls); [|done..].
  apply IH in H as (L & W & -> & HW & -> & HL); [|lia|lia|by rewrite mark_bit_length].
  exists (l :: L), W. split_and!; [done| |done|].
  - intros x. rewrite (HW x), elem_of_app, CheckpointProps.ChannelCheckpoint.rev_elem. split.
    + intros [[Hx|Hx]|(i & k & Hk & Hx)]; [right; by exists 0%nat, l|by left|right; by exists (S i), k].
    + intros [Hx|([|i] & k & Hk & Hx)]; [by left; right|injection Hk as <-; by left; left|right; eauto].
  - intros [|i] k; cbn [lookup list_lookup].
    + intros [= <-]. rewrite Z.add_0_r. split_and!; [done|done|]. intros x Hx. split; [set_solver|]. by apply Hls.
    + intros Hk. apply HL in Hk. by replace (class + Z.of_nat (S i)) with (class + 1 + Z.of_nat i) by lia.
Qed.

Lemma check_classes_complete class L V m : 0 <= class -> class + Z.of_nat (length L) <= 256 -> length m.2 = 32%nat ->
  (forall i l, L !! i = Some l -> list_ok h B (class + Z.of_nat i) [] l) ->
  (forall x, x ∈ V -> exists size, free_map 0 B !! x = Some size /\ class_index (class_of size) < class) ->
  exists W, visited_lists V L W /\ let heads := head_or NULL_OFFSET <$> L in
    check_classes h blocks class heads (mkLists (marks V blocks) m.1 m.2) =
    Ok (mkLists (marks W blocks) (mark_bits class heads m).1 (mark_bits class heads m).2).
Proof using Hg Hseg Hsum.
  revert class V m. induction L as [|l L IH]; intros class V m Hc Hl Hm HL HV.
  { exists V. split; [intros x; split; [by left|by intros [?|(i & l & Hl' & _)]]|done]. }
  cbn [length] in Hl. cbn zeta. rewrite fmap_cons. rewrite check_classes_step by (done || lia).
  pose proof (HL 0%nat l eq_refl) as Hlok. rewrite Z.add_0_r in Hlok. pose proof (list_ok_length _ _ Hseg _ _ Hlok) as Hfuel. destruct Hlok as (Hd & Hnd & Hls).
  rewrite check_list_complete; [|done..|].
  2: { intros x Hx. destruct (Hls x Hx) as (_ & s & Hs & Hcl). split; [|eauto]. intros (s' & Hs' & Hlt)%HV. rewrite Hs in Hs'. injection Hs' as <-. lia. }
  cbn [mbind outcome_bind]. destruct (IH (class + 1) (rev l ++ V) (mark_bit class (head_or NULL_OFFSET l) m)) as (W & HW & Hrun); [lia|lia|by rewrite mark_bit_length| | |].
  - intros i k Hk. replace (class + 1 + Z.of_nat i) with (class + Z.of_nat (S i)) by lia. by apply HL.
  - intros x [Hx|Hx]%elem_of_app; [rewrite CheckpointProps.ChannelCheckpoint.rev_elem in Hx; destruct (Hls x Hx) as (_ & s & Hs & Hcl)|destruct (HV x Hx) as (s & Hs & Hcl)]; exists s; (split; [done|lia]).
  - exists W. split; [|exact Hrun]. intros x. rewrite (HW x), elem_of_app, CheckpointProps.ChannelCheckpoint.rev_elem. split.
    + intros [[Hx|Hx]|(i & k & Hk & Hx)]; [right; by exists 0%nat, l|by left|right; by exists (S i), k].
    + intros [Hx|([|i] & k & Hk & Hx)]; [by left; right|injection Hk as <-; by left; left|right; eauto].
Qed.

End Classes.

(** *** The whole check *)

Lemma marks_none bs : marks [] bs = replicate (length bs) false.
Proof. unfold marks. induction bs as [|b bs IH]; [done|]. rewrite fmap_cons, IH. rewrite bool_decide_eq_false_2 by set_solver. done. Qed.

Lemma zip_marks W bs : existsb (fun '(b, seen) => negb (eqb (k_flags b =? 0) seen)) (zip bs (marks W bs)) = false <->
  Forall (fun b => k_flags b = 0 <-> k_offset b ∈ W) bs.
Proof.
  unfold marks. induction bs as [|b bs IH]; [by split|]. rewrite fmap_cons. cbn [zip zip_with existsb]. rewrite orb_false_iff, Forall_cons, negb_false_iff. rewrite <- IH.
  apply and_iff_compat_r. destruct (Z.eqb_spec (k_flags b) 0), (bool_decide_reflect (k_offset b ∈ W)); simpl; intuition congruence.
Qed.

Lemma hint_valid_spec h B x : seg h (-1) 0 0 B -> hint_valid (blocks_at 0 B) x = true <-> x = NULL_OFFSET \/ is_Some (free_map 0 B !! x).
Proof.
  intros Hseg. pose proof (seg_all_ok _ _ _ _ _ Hseg) as Hall. unfold hint_valid. rewrite orb_true_iff, Z.eqb_eq. apply or_iff_compat_l. split.
  - destruct (search _ _) as [[i b]|] eqn:Es; [|done]. intros Hf%Z.eqb_eq. apply (search_found _ _ Hseg) in Es as [Hi <-].
    apply blocks_at_lookup in Hi. rewrite Hf in Hi. apply at_free in Hi; [by eexists|done].
  - intros [s Hs]. destruct (search_free _ _ Hseg _ _ Hs) as [i ->]. done.
Qed.

Lemma seg_weaken h cut off prev B : 0 <= off -> seg h cut off prev B -> seg h (-1) off prev B.
Proof.
  revert off prev. induction B as [|k B IH]; intros off prev H0; [done|]. intros (H1 & H2 & _ & H4 & H5 & H6). pose proof (proj1 (size_ok_true _) H4).
  split_and!; try done; try lia. apply IH; [lia|done].
Qed.

Lemma sums_bound B : all_ok B -> 0 <= free_sum B <= sizes B /\ 0 <= live_count B <= sizes B.
Proof. induction 1 as [|k B [Hk%size_ok_true _] _ IH]; simpl; [done|]. destruct (is_free k), (is_live k); simpl; lia. Qed.

Definition plan_ok (plan : StoragePlan) : Prop :=
  32 <= heap_arena_bytes plan <= Value.MAX_PAYLOAD /\ heap_arena_bytes plan mod 16 = 0 /\ HeapOps.plan_format_ok plan.

Lemma planned_geom h plan : plan_ok plan -> heap_ints h -> header_format h = Layout.header_format plan -> arena_bytes h = heap_arena_bytes plan ->
  Z.of_nat (length (arena h)) = arena_bytes h -> geom h.
Proof.
  intros (Hp1 & Hp2 & Hp3) Hi Hf Hn Hl. pose proof (HeapOps.new_geom _ _ Hp1 Hp2 Hp3 [] 0 [] 0 0 0) as [_ _ _ _ Hfmt]. simpl in Hfmt.
  split; [done|by rewrite Hn|by rewrite Hn|apply Hi|]. by rewrite Hf, Hn.
Qed.

(** Lists that index the free blocks of [B]. *)
Lemma lists_indexed h B L W : geom h -> seg h (-1) 0 0 B -> sizes B = arena_bytes h -> length L = 256%nat -> class_heads h = head_or NULL_OFFSET <$> L ->
  (forall i l, L !! i = Some l -> list_ok h B (0 + Z.of_nat i) [] l) -> visited_lists [] L W ->
  Forall (fun b => k_flags b = 0 <-> k_offset b ∈ W) (blocks_at 0 B) -> bitmaps_ok (first_bitmap h) (second_bitmaps h) L ->
  hint_valid (blocks_at 0 B) (largest_free_hint h) = true -> lists_ok h (free_map 0 B) L.
Proof.
  intros Hg Hseg Hsum HL Hh Hlists HW Hmarks Hmaps Hhint. pose proof (seg_all_ok _ _ _ _ _ Hseg) as Hall. constructor; try done.
  - constructor; [done| | |].
    + intros i l Hl. by apply Hlists in Hl as (_ & ? & _).
    + intros i l b Hl Hb. apply Hlists in Hl as (_ & _ & Hx). by apply Hx in Hb as (_ & ?).
    + intros b s Hb. pose proof Hb as Hat. apply at_free, at_blocks in Hat as [i Hi]; [|done]. rewrite Forall_lookup in Hmarks. apply Hmarks in Hi as [Hi _].
      simpl in Hi. specialize (Hi eq_refl). apply HW in Hi as [Hi|(j & l & Hj & Hx)]; [set_solver|]. exists l. split; [|done].
      destruct (Hlists j l Hj) as (_ & _ & Hel). destruct (Hel b Hx) as (_ & s' & Hs' & Hcl). rewrite Hb in Hs'. injection Hs' as <-. rewrite Hcl. by replace (Z.to_nat _) with j by lia.
  - intros i l Hl. by apply Hlists in Hl as (? & _).
  - intros b s Hb. destruct (free_block _ _ Hg Hseg Hsum _ _ Hb) as (Hbo & _ & Hs & _ & Hle). split_and!; try done.
    apply at_free in Hb; [|done]. by apply (seg_at _ _ _ _ _ _ _ Hseg) in Hb as [? _].
  - intros b b' [s Hb] [s' Hb'] Hne. apply at_free in Hb, Hb'; [|done..]. pose proof (at_ok _ _ _ _ Hall Hb) as (? & _). pose proof (at_ok _ _ _ _ Hall Hb') as (? & _).
    destruct (at_sep _ _ _ _ _ _ Hall Hb Hb') as [[? _]|Hd]; [done|]. simpl in *. lia.
  - by apply (hint_valid_spec h B _ Hseg) in Hhint.
Qed.

Lemma validate_heap_sound h plan : plan_ok plan -> heap_ints h -> validate_checkpoint h plan = Ok tt ->
  header_format h = Layout.header_format plan /\ arena_bytes h = heap_arena_bytes plan /\ exists B L, restored h B L.
Proof.
  intros Hp Hi H. unfold validate_checkpoint in H. apply outcome_bind_inv in H as ([] & Hr%CheckpointProps.TaskCheckpoint.check_reject_ok & H).
  rewrite !orb_false_iff, !negb_false_iff, !bool_decide_eq_true, !Z.eqb_eq in Hr. destruct Hr as [[[Hf Hn] Hu] Hc].
  apply checked_mul_Some in Hu as [Hu _]. split; [done|]. split; [done|].
  assert (Hlen : Z.of_nat (length (arena h)) = arena_bytes h).
  { pose proof (hi_units _ Hi) as H16. unfold size in *. pose proof (Z.div_mod (Z.of_nat (length (arena h))) 16 ltac:(done)). lia. }
  pose proof (planned_geom h plan Hp Hi Hf Hn Hlen) as Hg. apply outcome_bind_inv in H as (w & Hw & H).
  apply walk_sound in Hw as (B & HB & Hsum & ->); [|done|done|done|pose proof (g_size _ Hg); lia]. specialize (HB 0). rewrite Z.add_0_l in Hsum.
  apply outcome_bind_inv in H as ([] & Hr%CheckpointProps.TaskCheckpoint.check_reject_ok & H). cbn [w_offset w_total_free w_live_objects w_blocks] in *.
  rewrite !orb_false_iff, !negb_false_iff, !Z.eqb_eq in Hr. destruct Hr as [[_ Ht] Hl]. apply outcome_bind_inv in H as (s & Hs & H).
  rewrite <- marks_none in Hs. apply (check_classes_sound h B Hg HB Hsum 0 (class_heads h) [] no_marks) in Hs as (L & W & Hheads & HW & -> & Hlists);
    [|done|unfold size, CLASS_COUNT in Hc; lia|done].
  apply CheckpointProps.TaskCheckpoint.check_reject_ok in H. cbn [l_first l_second l_visited] in H.
  rewrite !orb_false_iff, !negb_false_iff, Z.eqb_eq, bool_decide_eq_true, zip_marks in H. destruct H as [[[Hb1 Hb2] Hm] Hhint].
  assert (HL : length L = 256%nat) by (unfold size, CLASS_COUNT in Hc; rewrite Hheads, length_fmap in Hc; lia).
  exists B, L. split; try done; try lia. eapply lists_indexed; try done. rewrite <- Hb1, <- Hb2, Hheads. apply computed_bitmaps; [done|].
  intros i l x Hil Hx. destruct (Hlists i l Hil) as (_ & _ & Hel). destruct (Hel x Hx) as (_ & s & Hs & _).
  by destruct (free_block _ _ Hg HB Hsum _ _ Hs) as (_ & ? & _).
Qed.

Lemma validate_heap_complete h plan B L : header_format h = Layout.header_format plan -> arena_bytes h = heap_arena_bytes plan -> restored h B L ->
  validate_checkpoint h plan = Ok tt.
Proof.
  intros Hf Hn [Hlists Hseg Hsum Ht Hl]. pose proof (l_geom _ _ _ Hlists) as Hg. pose proof (seg_all_ok _ _ _ _ _ Hseg) as Hall.
  pose proof (g_len _ Hg) as Hlen. pose proof (g_size _ Hg) as Hsz. rewrite Value.MAX_PAYLOAD_eq in Hsz. destruct (sums_bound B Hall) as [Hs1 Hs2].
  pose proof (x_len _ _ (l_index _ _ _ Hlists)) as HL. unfold validate_checkpoint. unfold size. rewrite Hlen, Hn, Z.eqb_refl, <- Hn.
  rewrite bool_decide_eq_true_2 by done. pose proof (g_align _ Hg) as H16. pose proof (Z.div_mod (arena_bytes h) 16 ltac:(done)) as Hdiv.
  rewrite bool_decide_eq_true_2 by (apply checked_mul_Some; unfold usize_max; lia). rewrite (l_heads _ _ _ Hlists), length_fmap, HL. cbn [negb orb Z.eqb reject mbind outcome_bind].
  rewrite (walk_complete h (-1) _ 0 0 B); try done; try (unfold u32_max; lia).
  2: { pose proof (HeapProps.blocks_bounded B Hall). assert (Z.of_nat (length B) <= arena_bytes h / 16) by (apply Z.div_le_lower_bound; lia). lia. }
  cbn [mbind outcome_bind w_offset w_total_free w_live_objects w_blocks]. rewrite !Z.add_0_l, <- Ht, <- Hl, !Z.eqb_refl. cbn [negb orb reject mbind outcome_bind].
  rewrite <- marks_none. destruct (check_classes_complete h B Hg Hseg Hsum 0 L [] no_marks) as (W & HW & Hrun); [done|rewrite HL; done|done| |set_solver|].
  { intros i l Hil. split_and!; [by apply (l_seg _ _ _ Hlists i)|by apply (x_nodup _ _ (l_index _ _ _ Hlists) i)|]. intros x Hx. split; [set_solver|].
    by apply (x_mem _ _ (l_index _ _ _ Hlists) i l). }
  cbn zeta in Hrun. cbn [no_marks fst snd] in Hrun. rewrite Hrun. cbn [mbind outcome_bind l_first l_second l_visited].
  destruct (bitmaps_unique (first_bitmap h) (mark_bits 0 (head_or NULL_OFFSET <$> L) no_marks).1 (second_bitmaps h) (mark_bits 0 (head_or NULL_OFFSET <$> L) no_marks).2 L) as [E1 E2];
    [done|apply Hlists|apply computed_bitmaps; [done|]|].
  { intros i l x Hil Hx. destruct (x_mem _ _ (l_index _ _ _ Hlists) i l x Hil Hx) as (s & Hs & _). by destruct (free_block _ _ Hg Hseg Hsum _ _ Hs) as (_ & ? & _). }
  apply CheckpointProps.TaskCheckpoint.check_reject_ok. rewrite !orb_false_iff, !negb_false_iff, Z.eqb_eq, bool_decide_eq_true, zip_marks. split_and!; [done|done| |].
  - apply Forall_lookup. intros i b Hb%blocks_at_lookup. rewrite (HW (k_offset b)). split.
    + intros E. right. rewrite E in Hb. apply at_free in Hb; [|done]. destruct (x_all _ _ (l_index _ _ _ Hlists) _ _ Hb) as (l & Hl' & Hx). eauto.
    + intros [Hx|(j & l & Hj & Hx)]; [set_solver|]. destruct (x_mem _ _ (l_index _ _ _ Hlists) j l _ Hj Hx) as (s & Hs & _).
      apply at_free in Hs; [|done]. pose proof (at_ok _ _ _ _ Hall Hs) as (? & _). pose proof (at_ok _ _ _ _ Hall Hb) as (? & _).
      destruct (at_sep _ _ _ _ _ _ Hall Hb Hs) as [[_ E]|Hd]; [by injection E|]. simpl in *. lia.
  - apply (hint_valid_spec h B _ Hseg), Hlists.
Qed.

(** The objects of a heap are found again. *)
Fixpoint live_refs (off : Z) (B : list blk) : list Value.Ref32 :=
  match B with
  | [] => []
  | k :: B => (if is_live k then [HeapOps.ref_of off] else []) ++ live_refs (off + b_size k) B
  end.

Lemma live_references_walk h cut fuel off prev B : geom h -> seg h cut off prev B -> 0 <= off -> off mod 8 = 0 -> off + sizes B = arena_bytes h ->
  (length B <= fuel)%nat -> live_references h fuel off = Ok (live_refs off B).
Proof.
  intros Hg. revert fuel off prev. induction B as [|k B IH]; intros fuel off prev Hseg H0 H8 Hsum Hfuel.
  - simpl in *. by destruct fuel; cbn [live_references]; rewrite (proj2 (Z.ltb_ge _ _)) by lia.
  - destruct Hseg as (Hs & Hf & _ & Hok & Hfl & Hseg). pose proof (proj1 (sizes_ok _ (seg_all_ok _ _ _ _ _ Hseg))) as Hpos.
    pose proof (proj1 (size_ok_true _) Hok) as [H16 Hm]. destruct fuel as [|fuel]; [simpl in *; lia|]. cbn [sizes length] in *.
    assert (Hbo : bo h off) by (unfold bo; lia). pose proof (g_size _ Hg) as Hsz. rewrite Value.MAX_PAYLOAD_eq in Hsz.
    cbn [live_references]. rewrite (proj2 (Z.ltb_lt _ _)) by lia. rewrite block_size_view, Hs, Hok, read_flags_view, Hf by done. cbn [or_invalid Frame.map_err mbind outcome_bind].
    rewrite !(checked_add_le u32_max) by (unfold u32_max, OBJECT_TYPE_ID, BLOCK_HEADER_BYTES; lia). cbn [ok_or mbind outcome_bind option_bind].
    rewrite (proj2 (Z.leb_le _ _)) by lia. cbn [ok_or mbind outcome_bind]. cbn [live_refs]. unfold is_live at 1.
    rewrite (IH fuel (off + b_size k) (b_size k)); try done; try lia; [|by rewrite Z.add_mod, H8, Hm].
    destruct (negb _); [|done]. by rewrite (proj1 (HeapOps.ref_of_managed h off Hg Hbo)).
Qed.

(** C23. Restored heaps.  Of a heap whose fields are in the range of their types,
    [validate_checkpoint] accepts exactly those that have the format and the size of the
    plan, whose blocks tile the arena with consistent flags and exact counters, and
    whose free lists, both levels of bitmaps and hint index the free blocks, each once
    and in the list of its class.  The objects of an accepted heap are then listed, each
    once, by [checkpoint_live_references].  Every heap in use passes, also in the middle
    of a collection, when the sizes of predecessors are lent to the collector. *)
Theorem validate_heap_correct h plan : plan_ok plan -> heap_ints h ->
  (validate_checkpoint h plan = Ok tt <->
   header_format h = Layout.header_format plan /\ arena_bytes h = heap_arena_bytes plan /\ exists B L, restored h B L) /\
  (forall B L, restored h B L -> checkpoint_live_references h = Ok (live_refs 0 B)) /\
  (forall cut B L, heap_ok cut h B L -> header_format h = Layout.header_format plan -> arena_bytes h = heap_arena_bytes plan -> validate_checkpoint h plan = Ok tt).
Proof.
  intros Hp Hi. split_and!; [split; [by apply validate_heap_sound|intros (Hf & Hn & B & L & Hr); by eapply validate_heap_complete]| |].
  { intros B L [Hl Hs Hsum _ _]. unfold checkpoint_live_references. eapply live_references_walk; [apply Hl|exact Hs|done|done|lia|].
    pose proof (HeapProps.blocks_bounded B (seg_all_ok _ _ _ _ _ Hs)). assert (Z.of_nat (length B) <= arena_bytes h / 16) by (apply Z.div_le_lower_bound; lia). lia. }
  intros cut B L [H1 H2 H3 _ H5 H6] Hf Hn. apply (validate_heap_complete h plan B L Hf Hn). split; try done. by eapply seg_weaken.
Qed.

(** Two objects and the rest free; and the same heap with the bitmap of the classes cleared. *)
Definition saved_heap : Heap := Eval vm_compute in HeapProps.demo_live.
Definition unmarked_heap : Heap := Eval vm_compute in set_bitmaps 0 (second_bitmaps saved_heap) saved_heap.

Lemma is_bytes_small l : forallb (in_range 0 255) l = true -> Forall (fun z => 0 <= z < 256) l.
Proof. intros H%is_bytes_forallb. exact H. Qed.

Lemma validate_heap_correct_witness : (exists B L, restored saved_heap B L) /\ ~ exists B L, restored unmarked_heap B L.
Proof.
  assert (Hp : plan_ok HeapProps.demo_plan) by exact HeapProps.demo_plan_ok.
  assert (Hi : heap_ints saved_heap /\ heap_ints unmarked_heap).
  { split; (split; [apply is_bytes_forallb; vm_compute; reflexivity|reflexivity|split; [vm_compute; discriminate|vm_compute; reflexivity]|]);
      (split; [reflexivity|]); apply is_bytes_small; vm_compute; reflexivity. }
  split.
  - apply (validate_heap_correct saved_heap HeapProps.demo_plan); [exact Hp|apply Hi|vm_compute; reflexivity].
  - intros Hr. assert (Hv : validate_checkpoint unmarked_heap HeapProps.demo_plan = Ok tt).
    { apply (validate_heap_correct unmarked_heap HeapProps.demo_plan); [exact Hp|apply Hi|]. split; [reflexivity|]. split; [reflexivity|exact Hr]. }
    vm_compute in Hv. discriminate Hv.
Defined.

End HeapCheckpoint.
