(* ===== verification/FileHandle.v ===== *)
(** src/filesystem/quota.rs and handle.rs: the quota ledger of a filesystem and
    its table of open files. *)

From S2P Require Import Prelude Words Unicode Path.

Module Quota.
Import FsError FsLimits.

Record MutationCost := mkCost {
  logical_bytes_added : Z; nodes_added : Z; journal_bytes : Z; queue_records : Z }.
Definition cost_default : MutationCost := mkCost 0 0 0 0.

(** [QuotaReservation(MutationCost)]. *)
Record QuotaReservation := mkReservation { reserved : MutationCost }.

Record QuotaLedger := mkLedger {
  max_logical_bytes : Z; max_nodes : Z; logical_bytes : Z; nodes : Z }.

Definition QuotaLedger_new (limits : FileSystemLimits) (initial_nodes : Z) : QuotaLedger :=
  mkLedger (maximum_logical_bytes limits) (maximum_nodes limits) 0 initial_nodes.

Definition reserve (q : QuotaLedger) (cost : MutationCost) : outcome FileSystemError QuotaReservation :=
  bytes ← ok_or (checked_add u64_max (logical_bytes q) (logical_bytes_added cost)) QuotaExceeded;
  n ← ok_or (checked_add u32_max (nodes q) (nodes_added cost)) QuotaExceeded;
  if (max_logical_bytes q <? bytes) || (max_nodes q <? n) then Err QuotaExceeded
  else Ok (mkReservation cost).

(** Plain arithmetic: leaving the width of a field is a panic. *)
Definition commit (r : QuotaReservation) (q : QuotaLedger) : outcome FileSystemError QuotaLedger :=
  let b := logical_bytes q + logical_bytes_added (reserved r) in
  let n := nodes q + nodes_added (reserved r) in
  if (u64_max <? b) || (u32_max <? n) then Panic
  else Ok (mkLedger (max_logical_bytes q) (max_nodes q) b n).

Definition release (bytes n : Z) (q : QuotaLedger) : outcome FileSystemError QuotaLedger :=
  if (logical_bytes q <? bytes) || (nodes q <? n) then Panic
  else Ok (mkLedger (max_logical_bytes q) (max_nodes q) (logical_bytes q - bytes) (nodes q - n)).

End Quota.

Module Handle.
Import FsError Path.

Record FileHandle := mkHandle { slot : Z; generation : Z }.
#[global] Instance FileHandle_eq : EqDecision FileHandle.
Proof. solve_decision. Defined.
#[global] Instance FileHandle_countable : Countable FileHandle.
Proof.
  refine (inj_countable' (fun h => (slot h, generation h)) (fun '(s, g) => mkHandle s g) _). by intros [].
Defined.

Inductive OpenMode := Read | Write | ReadWrite.

Definition readable (m : OpenMode) : bool := match m with Read | ReadWrite => true | Write => false end.
Definition writable (m : OpenMode) : bool := match m with Write | ReadWrite => true | Read => false end.

Record OpenFile := mkOpen { path : VirtualPath; mode : OpenMode }.

Record HandleSlot := mkSlot { s_generation : Z; file : option OpenFile; retired : bool }.

Record HandleTable := mkTable { maximum_handles : Z; slots : list HandleSlot }.

Abbreviation HandleM := (ST HandleTable FileSystemError).

Definition HandleTable_new (maximum_handles : Z) : HandleTable := mkTable maximum_handles [].

Definition set_slots (l : list HandleSlot) (t : HandleTable) : HandleTable := mkTable (maximum_handles t) l.

Definition reusable (s : HandleSlot) : Prop := file s = None /\ retired s = false.
#[global] Instance reusable_dec s : Decision (reusable s).
Proof.
  refine (cast_if_and (decide (file s = None)) (decide (retired s = false))); abstract (unfold reusable; tauto).
Defined.

Definition open (f : OpenFile) : HandleM FileHandle := fun t =>
  match list_find reusable (slots t) with
  | Some (i, entry) =>
      (Ok (mkHandle (wrap_unsigned 32 (Z.of_nat i)) (s_generation entry)),
       set_slots (<[i := mkSlot (s_generation entry) (Some f) (retired entry)]> (slots t)) t)
  | None =>
      let n := Z.of_nat (length (slots t)) in
      if (maximum_handles t <=? n) || (u32_max <? n) then (Err QuotaExceeded, t)
      else (Ok (mkHandle (wrap_unsigned 32 n) 1), set_slots (slots t ++ [mkSlot 1 (Some f) false]) t)
  end.

Definition get (h : FileHandle) (t : HandleTable) : outcome FileSystemError OpenFile :=
  s ← ok_or (zget (slots t) (slot h)) StaleHandle;
  if negb (s_generation s =? generation h) then Err StaleHandle
  else ok_or (file s) StaleHandle.

Definition close (h : FileHandle) : HandleM unit := fun t =>
  match zget (slots t) (slot h) with
  | None => (Err StaleHandle, t)
  | Some s =>
      if negb (s_generation s =? generation h) || bool_decide (file s = None) then (Err StaleHandle, t)
      else
        (Ok tt,
         set_slots (zset (slot h)
           (match checked_add u32_max (s_generation s) 1 with
            | Some next => mkSlot next None (retired s)
            | None => mkSlot (s_generation s) None true
            end) (slots t)) t)
  end.

Definition open_count (t : HandleTable) : Z :=
  Z.of_nat (length (filter (fun s => is_Some (file s)) (slots t))).

End Handle.

Module QuotaProps.
Import FsError FsLimits Quota.

Record ledger_ok (q : QuotaLedger) : Prop := {
  l_bytes : 0 <= logical_bytes q <= max_logical_bytes q;
  l_nodes : 0 <= nodes q <= max_nodes q;
  l_max : max_logical_bytes q <= u64_max /\ max_nodes q <= u32_max }.

Definition cost_ok (c : MutationCost) : bool := (0 <=? logical_bytes_added c) && (0 <=? nodes_added c).

Definition charged (c : MutationCost) (q : QuotaLedger) : QuotaLedger :=
  mkLedger (max_logical_bytes q) (max_nodes q) (logical_bytes q + logical_bytes_added c) (nodes q + nodes_added c).

(** The ledger grants a reservation exactly when the charged ledger is within
    its limits; a granted reservation commits without overflow to that ledger,
    and releasing the charge restores the ledger before it. *)
Theorem quota_sound (q : QuotaLedger) (c : MutationCost) :
  ledger_ok q -> cost_ok c = true ->
  match reserve q c with
  | Ok r => ledger_ok (charged c q) /\ commit r q = Ok (charged c q) /\
      release (logical_bytes_added c) (nodes_added c) (charged c q) = Ok q
  | Err e => e = QuotaExceeded /\ ~ ledger_ok (charged c q)
  | Panic => False
  end.
Proof.
  intros [Hb Hn [Hmb Hmn]] Hc. unfold cost_ok in Hc. bsimp. unfold reserve, checked_add.
  destruct (Z.leb_spec (logical_bytes q + logical_bytes_added c) u64_max); simpl.
  2:{ split; [done|]. intros [? ? ?]. simpl in *. lia. }
  destruct (Z.leb_spec (nodes q + nodes_added c) u32_max); simpl.
  2:{ split; [done|]. intros [? ? ?]. simpl in *. lia. }
  destruct (Z.ltb_spec (max_logical_bytes q) (logical_bytes q + logical_bytes_added c)); simpl.
  { split; [done|]. intros [? ? ?]. simpl in *. lia. }
  destruct (Z.ltb_spec (max_nodes q) (nodes q + nodes_added c)); simpl.
  { split; [done|]. intros [? ? ?]. simpl in *. lia. }
  split; [split; simpl; lia|]. unfold commit, release. simpl. rewrite !(proj2 (Z.ltb_ge _ _)) by lia. simpl.
  split; [done|]. rewrite !Z.add_simpl_r. by destruct q.
Qed.

Definition demo_ledger : QuotaLedger := QuotaLedger_new testing 2.

Lemma quota_sound_witness : exists r, reserve demo_ledger (mkCost 10 1 0 0) = Ok r /\
  commit r demo_ledger = Ok (charged (mkCost 10 1 0 0) demo_ledger).
Proof.
  pose proof (quota_sound demo_ledger (mkCost 10 1 0 0)
    ltac:(split; vm_compute; repeat split; discriminate) eq_refl) as H.
  eexists. split; [vm_compute; reflexivity|]. exact (proj1 (proj2 H)).
Defined.

End QuotaProps.

Module HandleProps.
Import FsError Handle.

(** A run of a fresh table, with every handle it issued and the files now open. *)
Inductive history (maximum : Z) : HandleTable -> list FileHandle -> gmap FileHandle OpenFile -> Prop :=
| hist_new : history maximum (HandleTable_new maximum) [] ∅
| hist_open t issued live f h t' : history maximum t issued live -> open f t = (Ok h, t') ->
    history maximum t' (h :: issued) (<[h := f]> live)
| hist_close t issued live h t' : history maximum t issued live -> 0 <= slot h -> close h t = (Ok tt, t') ->
    history maximum t' issued (delete h live).

Record table_ok (t : HandleTable) (issued : list FileHandle) (live : gmap FileHandle OpenFile) : Prop := {
  t_size : Z.of_nat (length (slots t)) <= u32_max + 1;
  t_gen : forall i s, slots t !! i = Some s -> 1 <= s_generation s <= u32_max;
  t_nodup : NoDup issued;
  t_issued : forall h, h ∈ issued -> 0 <= slot h /\ exists s, slots t !! Z.to_nat (slot h) = Some s /\
     (generation h < s_generation s \/ generation h = s_generation s /\ ~ reusable s);
  t_open : forall i s f, slots t !! i = Some s -> file s = Some f ->
     live !! mkHandle (Z.of_nat i) (s_generation s) = Some f;
  t_live : forall h f, live !! h = Some f -> 0 <= slot h /\ exists s, slots t !! Z.to_nat (slot h) = Some s /\
     generation h = s_generation s /\ file s = Some f;
  t_count : open_count t = Z.of_nat (size live) }.

Lemma handle_eta h i g : 0 <= slot h -> Z.to_nat (slot h) = i -> generation h = g -> h = mkHandle (Z.of_nat i) g.
Proof. destruct h as [s g']. simpl. intros Hs <- ->. by rewrite Z2Nat.id. Qed.

(** The number of open slots when one slot changes. *)
Definition occupied (s : HandleSlot) : Z := match file s with Some _ => 1 | None => 0 end.
Definition occupancy (l : list HandleSlot) : Z := foldr (fun s n => occupied s + n) 0 l.

Lemma open_count_occupancy t : open_count t = occupancy (slots t).
Proof.
  unfold open_count, occupancy. induction (slots t) as [|s l IH]; simpl; [done|]. rewrite <- IH. clear IH. unfold occupied.
  rewrite filter_cons. destruct (file s) eqn:E.
  - rewrite decide_True by (by eexists). simpl. lia.
  - rewrite decide_False by (by intros [? ?]). lia.
Qed.

Lemma occupancy_app a b : occupancy (a ++ b) = occupancy a + occupancy b.
Proof. unfold occupancy. induction a as [|s a IH]; simpl; [done|]. rewrite IH. lia. Qed.

Lemma occupancy_insert l i s s' : l !! i = Some s -> occupancy (<[i := s']> l) = occupancy l - occupied s + occupied s'.
Proof.
  intros Hi. pose proof (lookup_lt_Some _ _ _ Hi). rewrite insert_take_drop by done.
  rewrite <- (take_drop_middle l i s Hi) at 3. rewrite !occupancy_app. simpl. lia.
Qed.

Lemma get_ok t issued live h : table_ok t issued live -> 0 <= slot h ->
  get h t = match live !! h with Some f => Ok f | None => Err StaleHandle end.
Proof.
  intros Hok Hs. unfold get, zget. destruct (slots t !! Z.to_nat (slot h)) as [s|] eqn:E; simpl.
  - destruct (Z.eqb_spec (s_generation s) (generation h)) as [Hg|Hg]; simpl.
    + pose proof (handle_eta h _ _ Hs eq_refl (eq_sym Hg)) as Hh. destruct (file s) as [f|] eqn:Ef; simpl.
      * pose proof (t_open _ _ _ Hok _ _ _ E Ef) as Hl. rewrite <- Hh in Hl. by rewrite Hl.
      * destruct (live !! h) as [f|] eqn:El; [|done]. apply (t_live _ _ _ Hok) in El as (_ & s' & Es & _ & Hf). congruence.
    + destruct (live !! h) as [f|] eqn:El; [|done]. apply (t_live _ _ _ Hok) in El as (_ & s' & Es & Hg' & _). congruence.
  - destruct (live !! h) as [f|] eqn:El; [|done]. apply (t_live _ _ _ Hok) in El as (_ & s' & Es & _). congruence.
Qed.

Lemma fresh_live t issued live i g : table_ok t issued live ->
  (forall s, slots t !! i = Some s -> s_generation s = g -> file s = None) -> live !! mkHandle (Z.of_nat i) g = None.
Proof.
  intros Hok Hf. destruct (live !! _) as [f|] eqn:El; [|done]. apply (t_live _ _ _ Hok) in El as (_ & s & Es & Hg & Hfile).
  simpl in *. rewrite Nat2Z.id in Es. rewrite (Hf s Es) in Hfile; done.
Qed.

Lemma open_ok t issued live f h t' : table_ok t issued live -> open f t = (Ok h, t') ->
  (h ∉ issued) /\ live !! h = None /\ table_ok t' (h :: issued) (<[h := f]> live).
Proof.
  intros Hok Ho. unfold open in Ho. destruct (list_find reusable (slots t)) as [[i e]|] eqn:Ef.
  - injection Ho as <- <-. apply list_find_Some in Ef as (Hi & [Hfe Hre] & _). pose proof (lookup_lt_Some _ _ _ Hi) as Hlt.
    pose proof (t_size _ _ _ Hok) as Hsz. unfold wrap_unsigned. rewrite Z.mod_small by (unfold u32_max in *; lia).
    set (h := mkHandle (Z.of_nat i) (s_generation e)). assert (Hh : h ∉ issued).
    { intros Hin. apply (t_issued _ _ _ Hok) in Hin as (_ & s & Hs & Hg). simpl in *. rewrite Nat2Z.id, Hi in Hs.
      injection Hs as <-. destruct Hg as [Hg|[_ Hn]]; [lia|by apply Hn]. }
    assert (Hlive : live !! h = None).
    { apply (fresh_live t issued); [done|]. intros s Hs _. congruence. }
    split; [done|]. split; [done|]. split; simpl; try (rewrite ?length_insert; apply Hok).
    + intros j s Hj. apply list_lookup_insert_Some in Hj as [(_ & <- & _)|[_ Hj]]; simpl; by eapply (t_gen _ _ _ Hok).
    + constructor; [done|apply Hok].
    + intros g [->|Hg]%elem_of_cons.
      * split; [simpl; lia|]. simpl. rewrite Nat2Z.id. eexists. split; [by apply list_lookup_insert_eq|]. right. split; [done|].
        by intros [? _].
      * apply (t_issued _ _ _ Hok) in Hg as (H0 & s & Hs & Hgen). split; [done|].
        destruct (decide (i = Z.to_nat (slot g))) as [E|Hne].
        -- rewrite <- E in *. eexists. split; [by apply list_lookup_insert_eq|]. rewrite Hi in Hs. injection Hs as <-. simpl.
           destruct Hgen as [?|[? _]]; [by left|right]. split; [done|]. by intros [? _].
        -- exists s. rewrite list_lookup_insert_ne by done. done.
    + intros j s f' Hj Hf'. apply list_lookup_insert_Some in Hj as [(<- & <- & _)|[Hne Hj]]; simpl in *.
      * injection Hf' as ->. apply lookup_insert_eq.
      * rewrite lookup_insert_ne; [by eapply (t_open _ _ _ Hok)|]. unfold h. intros [=]. lia.
    + intros g f' Hg. apply lookup_insert_Some in Hg as [[<- ->]|[Hne Hg]].
      * split; [simpl; lia|]. simpl. rewrite Nat2Z.id. eexists. split; [by apply list_lookup_insert_eq|]. done.
      * apply (t_live _ _ _ Hok) in Hg as (H0 & s & Hs & Hgen & Hfile). split; [done|]. exists s.
        rewrite list_lookup_insert_ne; [done|]. intros E. rewrite <- E, Hi in Hs. injection Hs as <-. congruence.
    + rewrite open_count_occupancy. simpl. rewrite (occupancy_insert _ _ _ _ Hi), <- open_count_occupancy.
      rewrite (t_count _ _ _ Hok), map_size_insert_None by done. unfold occupied. rewrite Hfe. simpl. lia.
  - destruct (_ || _) eqn:Elim; [done|]. bsimp. injection Ho as <- <-. set (n := length (slots t)) in *.
    unfold wrap_unsigned. rewrite Z.mod_small by (unfold u32_max in *; lia).
    set (h := mkHandle (Z.of_nat n) 1). assert (Hh : h ∉ issued).
    { intros Hin. apply (t_issued _ _ _ Hok) in Hin as (_ & s & Hs & _). simpl in *. rewrite Nat2Z.id in Hs.
      apply lookup_lt_Some in Hs. unfold n in Hs. lia. }
    assert (Hlive : live !! h = None).
    { apply (fresh_live t issued); [done|]. intros s Hs _. apply lookup_lt_Some in Hs. unfold n in Hs. lia. }
    assert (Hsnoc : forall j s, (slots t ++ [mkSlot 1 (Some f) false]) !! j = Some s ->
              slots t !! j = Some s \/ j = n /\ s = mkSlot 1 (Some f) false).
    { intros j s Hj. apply lookup_app_Some in Hj as [Hj|[Hge Hj]]; [by left|right].
      apply list_lookup_singleton_Some in Hj as [Hj <-]. unfold n. split; [lia|done]. }
    assert (Hlast : (slots t ++ [mkSlot 1 (Some f) false]) !! n = Some (mkSlot 1 (Some f) false)) by (by apply list_lookup_middle).
    split; [done|]. split; [done|]. split; simpl.
    + rewrite length_app. simpl. fold n. unfold u32_max in *. lia.
    + intros j s Hj. apply Hsnoc in Hj as [Hj|[_ ->]]; [by eapply (t_gen _ _ _ Hok)|]. simpl. unfold u32_max. lia.
    + constructor; [done|apply Hok].
    + intros g [->|Hg]%elem_of_cons.
      * split; [simpl; lia|]. simpl. rewrite Nat2Z.id. eexists. split; [exact Hlast|]. right. split; [done|]. by intros [? _].
      * apply (t_issued _ _ _ Hok) in Hg as (H0' & s & Hs & Hgen). split; [done|]. exists s. split; [by apply lookup_app_l_Some|done].
    + intros j s f' Hj Hf'. apply Hsnoc in Hj as [Hj|[-> ->]]; simpl in *.
      * rewrite lookup_insert_ne; [by eapply (t_open _ _ _ Hok)|]. apply lookup_lt_Some in Hj. unfold h, n. intros [=]. lia.
      * injection Hf' as ->. apply lookup_insert_eq.
    + intros g f' Hg. apply lookup_insert_Some in Hg as [[<- ->]|[Hne Hg]].
      * split; [simpl; lia|]. simpl. rewrite Nat2Z.id. eexists. split; [exact Hlast|]. done.
      * apply (t_live _ _ _ Hok) in Hg as (H0' & s & Hs & Hgen & Hfile). split; [done|]. exists s.
        split; [by apply lookup_app_l_Some|done].
    + rewrite open_count_occupancy. simpl. rewrite occupancy_app, <- open_count_occupancy, (t_count _ _ _ Hok).
      rewrite map_size_insert_None by done. simpl. unfold occupied. simpl. lia.
Qed.

Lemma close_ok t issued live h : table_ok t issued live -> 0 <= slot h ->
  match live !! h with
  | Some _ => exists t', close h t = (Ok tt, t') /\ table_ok t' issued (delete h live)
  | None => close h t = (Err StaleHandle, t)
  end.
Proof.
  intros Hok Hs. pose proof (get_ok _ _ _ h Hok Hs) as Hget. unfold get, close, zget, zset in *.
  destruct (live !! h) as [f|] eqn:El.
  - apply (t_live _ _ _ Hok) in El as Hl. destruct Hl as (_ & s & Es & Hg & Hf). rewrite Es, Hf, <- Hg, Z.eqb_refl. simpl.
    eexists. split; [done|].
    pose proof (lookup_lt_Some _ _ _ Es) as Hlt. set (i := Z.to_nat (slot h)) in *.
    set (s' := match checked_add _ _ _ with Some next => _ | None => _ end).
    pose proof (t_gen _ _ _ Hok i s Es) as Hgen.
    assert (Hs' : file s' = None /\ 1 <= s_generation s' <= u32_max /\
              (s_generation s < s_generation s' \/ s_generation s = s_generation s' /\ ~ reusable s')).
    { unfold s'. rewrite <- Hg in Hgen. destruct (checked_add _ _ _) eqn:E; bsimp; simpl; split_and!; try done; try lia.
      right. split; [done|]. by intros [_ ?]. }
    destruct Hs' as (Hf' & Hg' & Hgs). pose proof (handle_eta h i _ Hs eq_refl Hg) as Hh.
    split; simpl; rewrite ?length_insert; try apply Hok.
    + intros j s0 Hj. apply list_lookup_insert_Some in Hj as [(_ & <- & _)|[_ Hj]]; [done|]. by eapply (t_gen _ _ _ Hok).
    + intros g Hin. apply (t_issued _ _ _ Hok) in Hin as (H0 & s0 & Hs0 & Hgen0). split; [done|].
      destruct (decide (i = Z.to_nat (slot g))) as [E|E].
      * rewrite <- E in *. rewrite Es in Hs0. injection Hs0 as <-. exists s'. split; [by apply list_lookup_insert_eq|].
        destruct Hgs as [?|[? ?]]; destruct Hgen0 as [?|[? _]]; [left; lia|left; lia|left; lia|right; split; [lia|done]].
      * exists s0. rewrite list_lookup_insert_ne by done. done.
    + intros j s0 f0 Hj Hf0. apply list_lookup_insert_Some in Hj as [(_ & <- & _)|[Hne Hj]]; [congruence|].
      rewrite lookup_delete_ne; [by eapply (t_open _ _ _ Hok)|]. rewrite Hh. intros [=]. lia.
    + intros g f0 Hg0. apply lookup_delete_Some in Hg0 as [Hne Hg0]. apply (t_live _ _ _ Hok) in Hg0 as (H0 & s0 & Hs0 & Hgen0 & Hf0).
      split; [done|]. exists s0. rewrite list_lookup_insert_ne; [done|]. intros E. rewrite <- E, Es in Hs0. injection Hs0 as <-.
      apply Hne. rewrite Hh. symmetry. by apply handle_eta.
    + rewrite open_count_occupancy. simpl. rewrite (occupancy_insert _ _ _ _ Es), <- open_count_occupancy, (t_count _ _ _ Hok).
      assert (Hsz : size live = S (size (delete h live))).
      { rewrite <- (insert_delete_id live h f El) at 1. rewrite map_size_insert_None by apply lookup_delete_eq. done. }
      unfold occupied. rewrite Hf, Hf'. lia.
  - destruct (slots t !! Z.to_nat (slot h)) as [s|]; [|done]. simpl in Hget.
    destruct (s_generation s =? generation h); simpl in *; [|done]. destruct (file s); [done|].
    by rewrite bool_decide_eq_true_2.
Qed.

Lemma history_ok maximum t issued live : history maximum t issued live -> table_ok t issued live.
Proof.
  induction 1 as [|t issued live f h t' _ IH Ho|t issued live h t' _ IH Hs Hc].
  - split; simpl; try done; [constructor|by intros h ?%elem_of_nil].
  - by eapply open_ok.
  - pose proof (close_ok _ _ _ h IH Hs) as H. destruct (live !! h); [|congruence].
    destruct H as (t'' & Hc' & Hok). rewrite Hc in Hc'. by injection Hc' as <-.
Qed.

(** ** Properties *)

(** C38. A handle never aliases: in any run of the table every handle issued is new,
    a handle resolves to the file it was opened for exactly until it is closed,
    and any other handle is reported stale without effect; the number of open
    slots is the number of open files. *)
Theorem handles_never_alias (maximum : Z) (t : HandleTable) (issued : list FileHandle) (live : gmap FileHandle OpenFile) :
  history maximum t issued live ->
  NoDup issued /\ open_count t = Z.of_nat (size live) /\
  (forall f h t', open f t = (Ok h, t') -> (h ∉ issued) /\ get h t' = Ok f) /\
  (forall h, 0 <= slot h -> get h t = match live !! h with Some f => Ok f | None => Err StaleHandle end) /\
  (forall h, 0 <= slot h -> match live !! h with
     | Some _ => exists t', close h t = (Ok tt, t') /\ get h t' = Err StaleHandle
     | None => close h t = (Err StaleHandle, t)
     end).
Proof.
  intros Hh. pose proof (history_ok _ _ _ _ Hh) as Hok. split_and!; [apply Hok|apply Hok| | |].
  - intros f h t' Ho. destruct (open_ok _ _ _ _ _ _ Hok Ho) as (Hn & _ & Hok'). split; [done|].
    pose proof (t_live _ _ _ Hok' h f (lookup_insert_eq _ _ _)) as [Hs _].
    by rewrite (get_ok _ _ _ h Hok' Hs), lookup_insert_eq.
  - intros h Hs. by eapply get_ok.
  - intros h Hs. pose proof (close_ok _ _ _ h Hok Hs) as Hc. destruct (live !! h); [|done].
    destruct Hc as (t' & Hc & Hok'). exists t'. split; [done|].
    by rewrite (get_ok _ _ _ h Hok' Hs), lookup_delete_eq.
Qed.

Definition demo_file : OpenFile := mkOpen [] ReadWrite.

Lemma handles_never_alias_witness :
  open_count (mkTable 1 [mkSlot 1 (Some demo_file) false]) = 1 /\
  get (mkHandle 0 1) (mkTable 1 [mkSlot 1 (Some demo_file) false]) = Ok demo_file.
Proof.
  pose proof (handles_never_alias 1 (mkTable 1 [mkSlot 1 (Some demo_file) false]) [mkHandle 0 1] (<[mkHandle 0 1 := demo_file]> ∅)) as H.
  destruct H as (_ & Hc & _ & Hg & _).
  - apply (hist_open 1 (HandleTable_new 1) [] ∅ demo_file (mkHandle 0 1)); [apply hist_new|vm_compute; reflexivity].
  - split; [rewrite Hc; vm_compute; reflexivity|]. rewrite (Hg (mkHandle 0 1)); [vm_compute; reflexivity|vm_compute; discriminate].
Defined.

End HandleProps.
