(* ===== verification/Redstone.v ===== *)
(** src/redstone.rs: the redstone device of a computer.  The host submits packed
    snapshots of the six input sides; tasks wait for a side to change or for its
    level to satisfy a predicate. *)

From S2P Require Import Prelude Words.

Module Redstone.

Abbreviation TaskId := Z (only parsing).
Abbreviation RequestId := Z (only parsing).

Definition SIDE_COUNT : Z := 6.
Definition ALL_SIDES_MASK : Z := 63.
Definition REGISTER_MASK : Z := 1073741823.
Definition INPUT_LEVEL_MASK : Z := 16777215.
Definition SIGNAL_MASK : Z := 15.

Inductive RedstoneError := ReservedBits | InvalidSide | InvalidSignal | DuplicateWaiter | WaiterLimit.

Inductive InputPredicate := Changed | Exact (signal : Z) | AtLeast (signal : Z) | AtMost (signal : Z).

Record RedstoneWaiter := mkWaiter { task : TaskId; request : RequestId; side : Z; predicate : InputPredicate }.

Record RedstoneWakeup := mkWakeup { w_task : TaskId; w_request : RequestId; level : Z }.

Inductive WaitRegistration := Ready (level : Z) | Pending.

Record RedstoneDevice := mkDevice {
  input_levels : Z; confirmed_output : Z; waiters : list RedstoneWaiter; maximum_waiters : Z }.

Abbreviation DeviceM := (ST RedstoneDevice RedstoneError).

Definition new (maximum_waiters : Z) : RedstoneDevice := mkDevice 0 0 [] maximum_waiters.

Definition validate_register (value : Z) : outcome RedstoneError unit :=
  if Z.land value (Z.lxor u32_max REGISTER_MASK) =? 0 then Ok tt else Err ReservedBits.
Definition validate_side (side : Z) : outcome RedstoneError unit :=
  if side <? SIDE_COUNT then Ok tt else Err InvalidSide.
Definition validate_signal (signal : Z) : outcome RedstoneError unit :=
  if signal <=? SIGNAL_MASK then Ok tt else Err InvalidSignal.

Definition predicate_matches (p : InputPredicate) (level : Z) : bool :=
  match p with
  | Changed => true
  | Exact signal => level =? signal
  | AtLeast signal => signal <=? level
  | AtMost signal => level <=? signal
  end.

Definition input (side : Z) (d : RedstoneDevice) : outcome RedstoneError Z :=
  _ ← validate_side side;
  Ok (Z.land (Z.shiftr (input_levels d) (side * 4)) SIGNAL_MASK).

Definition same_wait (tk : TaskId) (rq : RequestId) (w : RedstoneWaiter) : bool := (task w =? tk) && (request w =? rq).
Definition contains_waiter (tk : TaskId) (rq : RequestId) (d : RedstoneDevice) : bool := existsb (same_wait tk rq) (waiters d).

Definition confirm_output (packed : Z) : DeviceM unit := fun d =>
  match validate_register packed with
  | Ok _ => (Ok tt, mkDevice (input_levels d) packed (waiters d) (maximum_waiters d))
  | Err e => (Err e, d)
  | Panic => (Panic, d)
  end.

(** The [for] loop of [submit_input]: the waiters were moved out of the device,
    so an error in the middle leaves it without any. *)
Fixpoint submit_loop (changed : Z) (d : RedstoneDevice) (ws pending : list RedstoneWaiter) (ready : list RedstoneWakeup)
    : outcome RedstoneError (list RedstoneWaiter * list RedstoneWakeup) :=
  match ws with
  | [] => Ok (pending, ready)
  | w :: ws =>
      if 32 <=? side w then Panic
      else if Z.land changed (Z.shiftl 1 (side w)) =? 0 then submit_loop changed d ws (pending ++ [w]) ready
      else
        l ← input (side w) d;
        if predicate_matches (predicate w) l
        then submit_loop changed d ws pending (ready ++ [mkWakeup (task w) (request w) l])
        else submit_loop changed d ws (pending ++ [w]) ready
  end.

(** [(wakeup.task, wakeup.request)] compared lexicographically. *)
Definition wakeup_le (a b : RedstoneWakeup) : Prop :=
  w_task a < w_task b \/ w_task a = w_task b /\ w_request a <= w_request b.
#[global] Instance wakeup_le_dec a b : Decision (wakeup_le a b).
Proof. unfold wakeup_le. apply _. Defined.

Definition submit_input (packet : Z) : DeviceM (list RedstoneWakeup) := fun d =>
  match validate_register packet with
  | Err e => (Err e, d)
  | Panic => (Panic, d)
  | Ok _ =>
      let changed := Z.land packet ALL_SIDES_MASK in
      let d1 := mkDevice (Z.land (Z.shiftr packet 6) INPUT_LEVEL_MASK) (confirmed_output d) (waiters d) (maximum_waiters d) in
      if (changed =? 0) || bool_decide (length (waiters d1) = 0%nat) then (Ok [], d1)
      else
        let d2 := mkDevice (input_levels d1) (confirmed_output d1) [] (maximum_waiters d1) in
        match submit_loop changed d2 (waiters d1) [] [] with
        | Ok (pending, ready) =>
            (Ok (merge_sort wakeup_le ready), mkDevice (input_levels d2) (confirmed_output d2) pending (maximum_waiters d2))
        | Err e => (Err e, d2)
        | Panic => (Panic, d2)
        end
  end.

Definition validate_predicate (p : InputPredicate) : outcome RedstoneError unit :=
  match p with
  | Exact signal | AtLeast signal | AtMost signal => validate_signal signal
  | Changed => Ok tt
  end.

Definition register (tk : TaskId) (rq : RequestId) (side : Z) (p : InputPredicate) (level_triggered : bool)
    : DeviceM WaitRegistration :=
  _ ← st_lift (validate_side side);
  _ ← st_lift (validate_predicate p);
  d ← st_get;
  if existsb (same_wait tk rq) (waiters d) then st_err DuplicateWaiter
  else
    current ← st_read (input side);
    if level_triggered && predicate_matches p current then mret (Ready current)
    else if maximum_waiters d <=? Z.of_nat (length (waiters d)) then st_err WaiterLimit
    else
      _ ← st_put (mkDevice (input_levels d) (confirmed_output d) (waiters d ++ [mkWaiter tk rq side p]) (maximum_waiters d));
      mret Pending.

Definition register_changed (tk : TaskId) (rq : RequestId) (side : Z) : DeviceM WaitRegistration :=
  register tk rq side Changed false.
Definition register_exact (tk : TaskId) (rq : RequestId) (side signal : Z) : DeviceM WaitRegistration :=
  register tk rq side (Exact signal) true.
Definition register_at_least (tk : TaskId) (rq : RequestId) (side signal : Z) : DeviceM WaitRegistration :=
  register tk rq side (AtLeast signal) true.
Definition register_at_most (tk : TaskId) (rq : RequestId) (side signal : Z) : DeviceM WaitRegistration :=
  register tk rq side (AtMost signal) true.

End Redstone.

Module RedstoneProps.
Import Redstone.

(** ** Packets and levels *)

(** The level of a side in a packet and its changed bit. *)
Definition packet_level (packet side : Z) : Z := (packet / 2 ^ (6 + 4 * side)) mod 16.
Definition packet_changed (packet side : Z) : bool := Z.testbit packet side.

(** The level of a side the device holds. *)
Definition held_level (d : RedstoneDevice) (side : Z) : Z := (input_levels d / 2 ^ (4 * side)) mod 16.

Definition side_ok (side : Z) : Prop := 0 <= side < 6.

Lemma input_ok d s : side_ok s -> input s d = Ok (held_level d s).
Proof.
  intros Hs. unfold input, validate_side, SIDE_COUNT, held_level, SIGNAL_MASK. unfold side_ok in Hs.
  rewrite (proj2 (Z.ltb_lt _ _)) by lia. simpl. f_equal. change 15 with (Z.ones 4). rewrite Z.land_ones by lia.
  rewrite Z.shiftr_div_pow2 by lia. change (2 ^ 4) with 16. do 3 f_equal. lia.
Qed.

Lemma changed_bit packet s : side_ok s ->
  (Z.land (Z.land packet ALL_SIDES_MASK) (Z.shiftl 1 s) =? 0) = negb (packet_changed packet s).
Proof.
  intros Hs. unfold packet_changed, side_ok in *. unfold ALL_SIDES_MASK. change 63 with (Z.ones 6).
  rewrite Z.shiftl_1_l. destruct (Z.testbit packet s) eqn:E; simpl.
  - apply Z.eqb_neq. intros H0. assert (Hb : Z.testbit (Z.land (Z.land packet (Z.ones 6)) (2 ^ s)) s = true).
    { rewrite !Z.land_spec, E, Z.pow2_bits_true, Z.ones_spec_low by lia. done. }
    rewrite H0, Z.bits_0 in Hb. done.
  - apply Z.eqb_eq, Z.bits_inj'. intros i Hi. rewrite Z.bits_0, !Z.land_spec.
    destruct (decide (i = s)) as [->|Hne]; [by rewrite E|]. rewrite (Z.pow2_bits_false s i) by lia. apply andb_false_r.
Qed.

Lemma new_levels packet s : side_ok s ->
  (Z.land (Z.shiftr packet 6) INPUT_LEVEL_MASK / 2 ^ (4 * s)) mod 16 = packet_level packet s.
Proof.
  intros Hs. unfold packet_level, INPUT_LEVEL_MASK. change 16777215 with (Z.ones 24). change 16 with (2 ^ 4).
  unfold side_ok in Hs. apply Z.bits_inj'. intros i Hi.
  destruct (Z.lt_ge_cases i 4); [|by rewrite !Z.mod_pow2_bits_high by lia].
  rewrite !Z.mod_pow2_bits_low, !Z.div_pow2_bits, Z.land_spec, Z.shiftr_spec, Z.ones_spec_low by lia.
  rewrite andb_true_r. f_equal. lia.
Qed.

(** ** The device invariant *)

Definition wait_id (w : RedstoneWaiter) : Z * Z := (task w, request w).
Definition wakeup_id (w : RedstoneWakeup) : Z * Z := (w_task w, w_request w).

Record device_ok (d : RedstoneDevice) : Prop := {
  v_sides : Forall (fun w => side_ok (side w)) (waiters d);
  v_ids : NoDup (wait_id <$> waiters d);
  v_count : Z.of_nat (length (waiters d)) <= maximum_waiters d }.

(** A waiter is woken by a packet when its side changed and its predicate holds
    at the new level. *)
Definition woken (packet : Z) (w : RedstoneWaiter) : Prop :=
  packet_changed packet (side w) = true /\ predicate_matches (predicate w) (packet_level packet (side w)) = true.
#[global] Instance woken_dec packet w : Decision (woken packet w).
Proof. unfold woken. apply _. Defined.

Definition wakeup_of (packet : Z) (w : RedstoneWaiter) : RedstoneWakeup :=
  mkWakeup (task w) (request w) (packet_level packet (side w)).

Definition after_packet (packet : Z) (ws : list RedstoneWaiter) (d : RedstoneDevice) : RedstoneDevice :=
  mkDevice (Z.land (Z.shiftr packet 6) INPUT_LEVEL_MASK) (confirmed_output d) ws (maximum_waiters d).

Lemma submit_loop_ok packet d ws : forall pending ready, Forall (fun w => side_ok (side w)) ws ->
  (forall s, side_ok s -> held_level d s = packet_level packet s) ->
  submit_loop (Z.land packet ALL_SIDES_MASK) d ws pending ready =
  Ok (pending ++ filter (fun w => ~ woken packet w) ws, ready ++ (wakeup_of packet <$> filter (woken packet) ws)).
Proof.
  induction ws as [|w ws IH]; intros pending ready Hs Hl; simpl; [by rewrite !app_nil_r|].
  apply Forall_cons in Hs as [Hw Hs]. rewrite (proj2 (Z.leb_gt 32 (side w))) by (unfold side_ok in Hw; lia).
  rewrite changed_bit by done. destruct (decide (woken packet w)) as [Hk|Hk].
  - rewrite filter_cons_False by tauto. rewrite filter_cons_True by done. destruct Hk as [Hc Hp].
    rewrite Hc. simpl. rewrite input_ok, Hl by done. simpl. rewrite Hp, IH by done. by rewrite <- app_assoc.
  - rewrite filter_cons_True by done. rewrite filter_cons_False by done.
    assert (Hstay : forall x, (if negb (packet_changed packet (side w)) then x
       else l ← input (side w) d; if predicate_matches (predicate w) l
         then submit_loop (Z.land packet ALL_SIDES_MASK) d ws pending (ready ++ [mkWakeup (task w) (request w) l]) else x) = x).
    { intros x. destruct (packet_changed packet (side w)) eqn:Ec; simpl; [|done]. rewrite input_ok, Hl by done. simpl.
      destruct (predicate_matches _ _) eqn:Ep; [|done]. by destruct Hk. }
    rewrite Hstay, IH by done. by rewrite <- app_assoc.
Qed.

Lemma register_mask packet : 0 <= packet <= u32_max -> (validate_register packet = Ok tt <-> packet < 2 ^ 30).
Proof.
  intros Hp. unfold validate_register, REGISTER_MASK, u32_max in *.
  change (Z.lxor (2 ^ 32 - 1) 1073741823) with (Z.shiftl (Z.ones 2) 30).
  assert (Hland : Z.land packet (Z.shiftl (Z.ones 2) 30) = Z.shiftl (packet / 2 ^ 30) 30).
  { apply Z.bits_inj'. intros i Hi. rewrite Z.land_spec, !Z.shiftl_spec by lia.
    destruct (Z.lt_ge_cases i 30); [rewrite !(Z.testbit_neg_r _ (i - 30)) by lia; apply andb_false_r|].
    rewrite Z.div_pow2_bits by lia. replace (i - 30 + 30) with i by lia.
    destruct (Z.lt_ge_cases (i - 30) 2); [rewrite Z.ones_spec_low by lia; apply andb_true_r|].
    rewrite Z.ones_spec_high, andb_false_r by lia. symmetry. rewrite <- (Z.mod_small packet (2 ^ 32)) by lia.
    apply Z.mod_pow2_bits_high. lia. }
  rewrite Hland, Z.shiftl_mul_pow2 by lia. pose proof (Z.div_pos packet (2 ^ 30) ltac:(lia) ltac:(lia)).
  destruct (Z.eqb_spec (packet / 2 ^ 30 * 2 ^ 30) 0) as [E|E].
  - split; [|done]. intros _. assert (E0 : packet / 2 ^ 30 = 0) by lia. apply Z.div_small_iff in E0; lia.
  - split; [done|]. intros Hlt. rewrite Z.div_small in E by lia. done.
Qed.

Lemma submit_ok packet d : device_ok d -> validate_register packet = Ok tt ->
  submit_input packet d =
    (Ok (merge_sort wakeup_le (wakeup_of packet <$> filter (woken packet) (waiters d))),
     after_packet packet (filter (fun w => ~ woken packet w) (waiters d)) d).
Proof.
  intros [Hs Hi Hc] Hv. unfold submit_input. rewrite Hv. cbn zeta.
  destruct (_ || _) eqn:E.
  - assert (Hn : Forall (fun w => ~ woken packet w) (waiters d)).
    { apply orb_true_iff in E as [E|E]; [|apply bool_decide_eq_true in E; apply nil_length_inv in E; simpl in E; rewrite E; constructor].
      apply Z.eqb_eq in E. eapply Forall_impl; [exact Hs|]. intros w Hw [Hch _].
      pose proof (changed_bit packet (side w) Hw) as Hb. rewrite E, Z.land_0_l, Hch in Hb. done. }
    rewrite filter_none by done. rewrite filter_all by done. done.
  - simpl. rewrite submit_loop_ok with (packet := packet); [done|done|]. intros s Hside. by apply new_levels.
Qed.

Lemma sub_ok packet d (P : RedstoneWaiter -> Prop) `{!forall w, Decision (P w)} : device_ok d ->
  device_ok (after_packet packet (filter P (waiters d)) d).
Proof.
  intros [Hs Hi Hc]. split; simpl.
  - apply Forall_forall. intros w Hw. apply list_elem_of_filter in Hw as [_ Hw]. by apply (proj1 (Forall_forall _ _) Hs).
  - eapply sublist_NoDup; [exact Hi|]. apply fmap_sublist, sublist_filter.
  - pose proof (length_filter P (waiters d)). lia.
Qed.

(** A packet with reserved bits is refused without effect.  Any other packet
    sets every side's level to the packet's, wakes exactly the waiters whose
    side the packet marks as changed and whose predicate holds at the new level,
    reports them with that level ordered by task and request, and leaves the
    others waiting in their order. *)
Lemma submit_input_correct (d : RedstoneDevice) (packet : Z) :
  device_ok d -> 0 <= packet <= u32_max ->
  if packet <? 2 ^ 30 then
    exists ready d', submit_input packet d = (Ok ready, d') /\
      (forall s, side_ok s -> input s d' = Ok (packet_level packet s)) /\
      ready ≡ₚ wakeup_of packet <$> filter (woken packet) (waiters d) /\
      StronglySorted wakeup_le ready /\ NoDup (wakeup_id <$> ready) /\
      waiters d' = filter (fun w => ~ woken packet w) (waiters d) /\
      confirmed_output d' = confirmed_output d /\ device_ok d'
  else submit_input packet d = (Err ReservedBits, d).
Proof.
  intros Hok Hp. pose proof (register_mask packet Hp) as Hm. destruct (Z.ltb_spec packet (2 ^ 30)) as [Hlt|Hge].
  - rewrite (submit_ok packet d Hok) by (by apply Hm). eexists _, _. split; [done|].
    assert (Hperm : merge_sort wakeup_le (wakeup_of packet <$> filter (woken packet) (waiters d)) ≡ₚ
              wakeup_of packet <$> filter (woken packet) (waiters d)) by apply merge_sort_Permutation.
    split_and!; try done.
    + intros s Hs. rewrite input_ok by done. unfold held_level. simpl. by rewrite new_levels.
    + apply StronglySorted_merge_sort; unfold wakeup_le; [intros ? ? ?; lia|intros ? ?; lia].
    + rewrite Hperm, <- list_fmap_compose. eapply sublist_NoDup; [exact (v_ids _ Hok)|].
      change (wakeup_id ∘ wakeup_of packet) with wait_id. apply fmap_sublist, sublist_filter.
    + by apply sub_ok.
  - unfold submit_input. destruct (validate_register packet) as [[]|e|] eqn:E.
    + assert (packet < 2 ^ 30) by (by apply Hm). lia.
    + unfold validate_register in E. destruct (_ =? _); congruence.
    + unfold validate_register in E. destruct (_ =? _); congruence.
Qed.

(** ** No missed wakeup *)

(** A packet is honest when it marks every side whose level it changes. *)
Definition honest (packet : Z) (d : RedstoneDevice) : Prop :=
  0 <= packet <= u32_max /\
  forall s, side_ok s -> packet_level packet s <> held_level d s -> packet_changed packet s = true.

(** The wait a task asks for with a predicate. *)
Definition wait_for (tk : TaskId) (rq : RequestId) (s : Z) (p : InputPredicate) : DeviceM WaitRegistration :=
  match p with
  | Changed => register_changed tk rq s
  | Exact v => register_exact tk rq s v
  | AtLeast v => register_at_least tk rq s v
  | AtMost v => register_at_most tk rq s v
  end.

(** The runs of a device with an honest host: the waits it has accepted, the
    wakeups it has reported, and its state. *)
Inductive history (maximum : Z) : list RedstoneWaiter -> list RedstoneWakeup -> RedstoneDevice -> Prop :=
| history_new : history maximum [] [] (new maximum)
| history_submit ps us d packet ready d' : history maximum ps us d -> honest packet d ->
    submit_input packet d = (Ok ready, d') -> history maximum ps (us ++ ready) d'
| history_refused ps us d packet e d' : history maximum ps us d ->
    submit_input packet d = (Err e, d') -> 0 <= packet <= u32_max -> history maximum ps us d'
| history_confirm ps us d packed r d' : history maximum ps us d -> confirm_output packed d = (r, d') -> history maximum ps us d'
| history_wait ps us d tk rq s p d' : history maximum ps us d -> 0 <= s ->
    wait_for tk rq s p d = (Ok Pending, d') -> history maximum (ps ++ [mkWaiter tk rq s p]) us d'
| history_ready ps us d tk rq s p l d' : history maximum ps us d -> 0 <= s ->
    wait_for tk rq s p d = (Ok (Ready l), d') -> history maximum ps us d'
| history_rejected ps us d tk rq s p e d' : history maximum ps us d -> 0 <= s ->
    wait_for tk rq s p d = (Err e, d') -> history maximum ps us d'.

(** A waiter on a level whose predicate is not met. *)
Definition rests (d : RedstoneDevice) (w : RedstoneWaiter) : Prop :=
  predicate w = Changed \/ predicate_matches (predicate w) (held_level d (side w)) = false.

(** What a registration answers and leaves behind. *)
Lemma register_ok d tk rq s p r d' : device_ok d -> 0 <= s -> wait_for tk rq s p d = (r, d') ->
  match r with
  | Ok Pending => d' = mkDevice (input_levels d) (confirmed_output d) (waiters d ++ [mkWaiter tk rq s p]) (maximum_waiters d) /\
      rests d (mkWaiter tk rq s p) /\ device_ok d'
  | Ok (Ready l) => d' = d /\ input s d = Ok l /\ predicate_matches p l = true
  | Err _ => d' = d
  | Panic => False
  end.
Proof.
  intros Hok Hs. assert (exists lt, wait_for tk rq s p = register tk rq s p lt /\ (p <> Changed -> lt = true)) as (lt & -> & Hp)
    by (destruct p; eexists; (split; [reflexivity|done])). unfold register, mbind, ST_bind, st_lift, st_get, st_read, validate_side, SIDE_COUNT.
  destruct (Z.ltb_spec s 6) as [Hs6|Hs6]; [|by intros [= <- <-]].
  destruct (validate_predicate p) as [[]|e|] eqn:Ev; [|by intros [= <- <-]|].
  2:{ destruct p; simpl in Ev; unfold validate_signal in Ev; try (destruct (_ <=? _)); done. }
  destruct (existsb _ _) eqn:Ed; [by intros [= <- <-]|]. rewrite input_ok by (split; lia).
  destruct (lt && predicate_matches p (held_level d s)) eqn:Em.
  { intros [= <- <-]. apply andb_true_iff in Em as [_ Em]. done. }
  destruct (Z.leb_spec (maximum_waiters d) (Z.of_nat (length (waiters d)))); [by intros [= <- <-]|].
  intros [= <- <-]. destruct Hok as [Hsd Hid Hc]. split_and!; [done| |].
  - unfold rests. simpl. destruct p; [by left|right; by rewrite Hp, andb_true_l in Em..].
  - split; simpl.
    + apply Forall_app. split; [done|]. constructor; [split; simpl; lia|constructor].
    + rewrite fmap_app. apply NoDup_app. split; [done|]. split; [|apply NoDup_singleton]. intros x Hx [->|?%elem_of_nil]%elem_of_cons; [|done].
      apply list_elem_of_fmap in Hx as (w & Hw & Hin). unfold wait_id in Hw. simpl in Hw. injection Hw as Ht Hq.
      assert (existsb (same_wait tk rq) (waiters d) = true); [|congruence]. apply existsb_exists. exists w.
      split; [by apply list_elem_of_In|]. unfold same_wait. apply andb_true_iff. split; apply Z.eqb_eq; congruence.
    + rewrite length_app. simpl. lia.
Qed.

(** A wakeup reports a wait that was accepted, at a level it asked for. *)
Definition reports (ps : list RedstoneWaiter) (u : RedstoneWakeup) : Prop :=
  exists w, w ∈ ps /\ wait_id w = wakeup_id u /\ predicate_matches (predicate w) (level u) = true.

Record accounted (ps : list RedstoneWaiter) (us : list RedstoneWakeup) (d : RedstoneDevice) : Prop := {
  a_device : device_ok d;
  a_held : waiters d ⊆ ps;
  a_rest : Forall (rests d) (waiters d);
  a_once : wait_id <$> ps ≡ₚ (wait_id <$> waiters d) ++ (wakeup_id <$> us);
  a_reports : Forall (reports ps) us }.

Lemma filter_split {A} (P : A -> Prop) `{!forall x, Decision (P x)} (l : list A) : l ≡ₚ filter (fun x => ~ P x) l ++ filter P l.
Proof.
  induction l as [|x l IH]; [done|]. rewrite (filter_cons P), (filter_cons (fun x => ~ P x)).
  destruct (decide (P x)); [rewrite decide_False by tauto|rewrite decide_True by done; simpl; by rewrite <- IH].
  rewrite <- Permutation_middle. by rewrite <- IH.
Qed.

Lemma submit_accounted ps us d packet : accounted ps us d -> honest packet d -> validate_register packet = Ok tt ->
  accounted ps (us ++ merge_sort wakeup_le (wakeup_of packet <$> filter (woken packet) (waiters d)))
    (after_packet packet (filter (fun w => ~ woken packet w) (waiters d)) d).
Proof.
  intros [Hok Hh Hr Ho Hu] Hhon Hv. pose proof (v_sides _ Hok) as Hsides. rewrite Forall_forall in Hsides, Hr. split.
  - by apply sub_ok.
  - intros w [_ Hw]%list_elem_of_filter. by apply Hh.
  - simpl. apply Forall_forall. intros w [Hnw Hw]%list_elem_of_filter. destruct (Hr w Hw) as [Hc|Hc]; [by left|].
    assert (Hlev : held_level (after_packet packet (filter (fun w => ~ woken packet w) (waiters d)) d) (side w) = packet_level packet (side w))
      by (apply new_levels; auto).
    right. rewrite Hlev. destruct (predicate_matches (predicate w) (packet_level packet (side w))) eqn:Em; [|done].
    destruct Hnw. split; [|done]. destruct (decide (packet_level packet (side w) = held_level d (side w))) as [E|E]; [congruence|].
    apply Hhon; auto.
  - rewrite Ho. cbn [waiters after_packet]. rewrite fmap_app, merge_sort_Permutation, <- list_fmap_compose.
    change (wakeup_id ∘ wakeup_of packet) with wait_id. rewrite (filter_split (woken packet) (waiters d)) at 1. rewrite fmap_app. solve_Permutation.
  - apply Forall_app. split; [done|]. apply Forall_forall. intros u Hin. rewrite merge_sort_Permutation in Hin.
    apply list_elem_of_fmap in Hin as (w & -> & Hw). apply list_elem_of_filter in Hw as [[_ Hm] Hw]. exists w. split_and!; [by apply Hh|done|done].
Qed.

Lemma history_accounted maximum ps us d : 0 <= maximum -> history maximum ps us d -> accounted ps us d.
Proof.
  intros Hmax. induction 1 as [|ps us d packet ready d' _ IH Hh Hrun|ps us d packet e d' _ IH Hrun Hp|ps us d packed r d' _ IH Hrun
    |ps us d tk rq s p d' _ IH Hs Hrun|ps us d tk rq s p l d' _ IH Hs Hrun|ps us d tk rq s p e d' _ IH Hs Hrun].
  - split; try done. split; simpl; [constructor|constructor|done].
  - destruct (validate_register packet) as [[]|e|] eqn:Ev; [|unfold submit_input in Hrun; by rewrite Ev in Hrun..].
    rewrite (submit_ok packet d (a_device _ _ _ IH) Ev) in Hrun. injection Hrun as <- <-. by apply submit_accounted.
  - pose proof (submit_input_correct d packet (a_device _ _ _ IH) Hp) as H. destruct (packet <? 2 ^ 30).
    + destruct H as (ready & d1 & E & _). congruence.
    + rewrite H in Hrun. by injection Hrun as _ <-.
  - unfold confirm_output in Hrun. destruct (validate_register packed) as [[]|e|]; injection Hrun as <- <-; try done.
    destruct IH as [[] ? ? ? ?]. by split.
  - destruct (register_ok _ _ _ _ _ _ _ (a_device _ _ _ IH) Hs Hrun) as (-> & Hrest & Hok). destruct IH as [_ Hh Hr Ho Hu]. split; simpl.
    + done.
    + intros w [Hw|Hw]%elem_of_app; apply elem_of_app; [left; by apply Hh|by right].
    + apply Forall_app. split; [exact Hr|]. constructor; [exact Hrest|constructor].
    + rewrite !fmap_app, Ho. simpl. solve_Permutation.
    + eapply Forall_impl; [exact Hu|]. intros u (w & Hw & ?). exists w. split; [|done]. apply elem_of_app. by left.
  - by destruct (register_ok _ _ _ _ _ _ _ (a_device _ _ _ IH) Hs Hrun) as [-> _].
  - by rewrite (register_ok _ _ _ _ _ _ _ (a_device _ _ _ IH) Hs Hrun).
Qed.

(** C39. No wakeup is missed and none is invented.  Over any history of
    registrations, output confirmations and input packets of a host that marks the
    sides whose levels it changes: every wait the device accepted is either still held or has
    been reported, exactly once; a report names a wait that was accepted, at a level
    it asked for; and no wait for a level is held whose predicate the present level
    satisfies.  The next packet, of whatever host, is refused without effect if it
    has reserved bits; otherwise the levels become those of the packet, exactly the
    held waits are reported whose side it marks as changed and whose predicate holds
    at the new level, in the order of tasks and requests, and exactly the others
    stay. *)
Theorem redstone_wakeups_exact (maximum : Z) (ps : list RedstoneWaiter) (us : list RedstoneWakeup) (d : RedstoneDevice) (packet : Z) :
  0 <= maximum -> history maximum ps us d -> 0 <= packet <= u32_max ->
  wait_id <$> ps ≡ₚ (wait_id <$> waiters d) ++ (wakeup_id <$> us) /\
  Forall (reports ps) us /\
  (forall w, w ∈ waiters d -> predicate w <> Changed ->
     exists l, input (side w) d = Ok l /\ predicate_matches (predicate w) l = false) /\
  if packet <? 2 ^ 30 then
    exists ready d', submit_input packet d = (Ok ready, d') /\
      (forall s, side_ok s -> input s d' = Ok (packet_level packet s)) /\
      ready ≡ₚ wakeup_of packet <$> filter (woken packet) (waiters d) /\ StronglySorted wakeup_le ready /\
      waiters d' = filter (fun w => ~ woken packet w) (waiters d) /\ confirmed_output d' = confirmed_output d
  else submit_input packet d = (Err ReservedBits, d).
Proof.
  intros Hmax Hh Hp. destruct (history_accounted _ _ _ _ Hmax Hh) as [Hok _ Hr Ho Hu]. split_and!; [done|done| |].
  - intros w Hw Hne. pose proof (v_sides _ Hok) as Hs. rewrite Forall_forall in Hs, Hr. exists (held_level d (side w)).
    split; [apply input_ok; auto|]. by destruct (Hr w Hw).
  - pose proof (submit_input_correct d packet Hok Hp) as H. destruct (packet <? 2 ^ 30); [|done].
    destruct H as (ready & d' & ? & ? & ? & ? & _ & ? & ? & _). by exists ready, d'.
Qed.

(** Two waits on a side whose level then rises to eight. *)
Lemma redstone_wakeups_exact_witness : exists d ready d',
  history 4 [mkWaiter 2 5 0 (AtLeast 8); mkWaiter 1 9 0 Changed; mkWaiter 1 7 0 (Exact 9)] [] d /\
  submit_input (1 + 8 * 64) d = (Ok ready, d') /\ ready = [mkWakeup 1 9 8; mkWakeup 2 5 8] /\ waiters d' = [mkWaiter 1 7 0 (Exact 9)].
Proof.
  assert (Hh : history 4 [mkWaiter 2 5 0 (AtLeast 8); mkWaiter 1 9 0 Changed; mkWaiter 1 7 0 (Exact 9)] []
    (mkDevice 0 0 [mkWaiter 2 5 0 (AtLeast 8); mkWaiter 1 9 0 Changed; mkWaiter 1 7 0 (Exact 9)] 4)).
  { apply (history_wait 4 [mkWaiter 2 5 0 (AtLeast 8); mkWaiter 1 9 0 Changed] [] (mkDevice 0 0 [mkWaiter 2 5 0 (AtLeast 8); mkWaiter 1 9 0 Changed] 4)
      1 7 0 (Exact 9)); [|lia|vm_compute; reflexivity].
    apply (history_wait 4 [mkWaiter 2 5 0 (AtLeast 8)] [] (mkDevice 0 0 [mkWaiter 2 5 0 (AtLeast 8)] 4) 1 9 0 Changed);
      [|lia|vm_compute; reflexivity].
    apply (history_wait 4 [] [] (new 4) 2 5 0 (AtLeast 8)); [apply history_new|lia|vm_compute; reflexivity]. }
  pose proof (redstone_wakeups_exact 4 _ _ _ (1 + 8 * 64) ltac:(lia) Hh ltac:(vm_compute; split; discriminate)) as (_ & _ & _ & H).
  change (1 + 8 * 64 <? 2 ^ 30) with true in H. cbv iota in H. destruct H as (ready & d' & Hrun & _ & _ & _ & Hw & _).
  eexists _, ready, d'. split; [exact Hh|]. split; [exact Hrun|]. vm_compute in Hrun. injection Hrun as <- <-. split; reflexivity.
Defined.

End RedstoneProps.
