(* ===== verification/Terminal.v ===== *)
(** src/terminal: the text terminal of a computer.  [Input] models input.rs, the
    bounded queue of key and text events; [Replication] replication.rs, the log
    of changes from which remote views are updated; [State] state.rs, the device:
    a ring of rows, the rows scrolled out of it, the cursor and the colors. *)

From S2P Require Import Prelude Words Unicode.

Definition zlen {A} (l : list A) : Z := Z.of_nat (length l).

Module Input.

Inductive TerminalInputError := InvalidLimits | InvalidKey | InvalidModifiers | QueueFull | TextTooLarge.

Record TerminalInputLimits := mkInputLimits { maximum_events : Z; maximum_text_code_points : Z }.

Definition limits_new (events points : Z) : outcome TerminalInputError TerminalInputLimits :=
  if (events =? 0) || (points =? 0) then Err InvalidLimits else Ok (mkInputLimits events points).
Definition limits_default : TerminalInputLimits := mkInputLimits 256 4096.

Inductive TerminalKey :=
| Escape | Backspace | Tab | Enter | KeyC | KeyS | KeyU | KeyT | KeyX | Insert | Delete | Home | End_
| PageUp | PageDown | Up | Left | Down | Right | F1 | F2 | F3 | F4 | F5 | F6 | F7 | F8 | F9 | F10 | F11 | F12.

Definition key_code (k : TerminalKey) : Z :=
  match k with
  | Escape => 1 | Backspace => 8 | Tab => 9 | Enter => 13 | KeyC => 67 | KeyS => 83 | KeyU => 85 | KeyT => 84
  | KeyX => 88 | Insert => 256 | Delete => 257 | Home => 258 | End_ => 259 | PageUp => 260 | PageDown => 261
  | Up => 262 | Left => 263 | Down => 264 | Right => 265 | F1 => 272 | F2 => 273 | F3 => 274 | F4 => 275
  | F5 => 276 | F6 => 277 | F7 => 278 | F8 => 279 | F9 => 280 | F10 => 281 | F11 => 282 | F12 => 283
  end.

Definition key_try_from (value : Z) : outcome TerminalInputError TerminalKey :=
  match value with
  | 1 => Ok Escape | 8 => Ok Backspace | 9 => Ok Tab | 13 => Ok Enter | 67 => Ok KeyC | 83 => Ok KeyS
  | 85 => Ok KeyU | 84 => Ok KeyT | 88 => Ok KeyX | 256 => Ok Insert | 257 => Ok Delete | 258 => Ok Home
  | 259 => Ok End_ | 260 => Ok PageUp | 261 => Ok PageDown | 262 => Ok Up | 263 => Ok Left | 264 => Ok Down
  | 265 => Ok Right | 272 => Ok F1 | 273 => Ok F2 | 274 => Ok F3 | 275 => Ok F4 | 276 => Ok F5 | 277 => Ok F6
  | 278 => Ok F7 | 279 => Ok F8 | 280 => Ok F9 | 281 => Ok F10 | 282 => Ok F11 | 283 => Ok F12
  | _ => Err InvalidKey
  end.

Inductive TerminalKeyAction := Press | Repeat.

Definition SHIFT : Z := Z.shiftl 1 0.
Definition CONTROL : Z := Z.shiftl 1 1.
Definition ALT : Z := Z.shiftl 1 2.
Definition SUPER : Z := Z.shiftl 1 3.
Definition ALL : Z := Z.lor (Z.lor (Z.lor SHIFT CONTROL) ALT) SUPER.

(** [TerminalModifiers(u8)]. *)
Definition modifiers_new (bits : Z) : outcome TerminalInputError Z :=
  if negb (Z.land bits (Z.lxor u8_max ALL) =? 0) then Err InvalidModifiers else Ok bits.

Record TerminalKeyEvent := mkKeyEvent { key : TerminalKey; action : TerminalKeyAction; modifiers : Z }.

(** A text event holds the UTF-8 bytes of the text. *)
Inductive TerminalInputEvent := Key (event : TerminalKeyEvent) | Text (text : list Z).

Record TerminalInputQueue := mkQueue { limits : TerminalInputLimits; events : list TerminalInputEvent }.

Definition queue_new (l : TerminalInputLimits) : TerminalInputQueue := mkQueue l [].

Definition ensure_capacity (q : TerminalInputQueue) : outcome TerminalInputError unit :=
  if maximum_events (limits q) <=? zlen (events q) then Err QueueFull else Ok tt.

Definition push_event (e : TerminalInputEvent) (q : TerminalInputQueue) : TerminalInputQueue :=
  mkQueue (limits q) (events q ++ [e]).

Abbreviation QueueM := (ST TerminalInputQueue TerminalInputError).

Definition queue_push_key (event : TerminalKeyEvent) : QueueM unit :=
  _ ← st_read ensure_capacity;
  st_modify (push_event (Key event)).

(** [text.chars().count()]: every scalar has one byte that is not a continuation. *)
Definition char_count (text : list Z) : Z := zlen (filter (fun b => is_continuation b = false) text).

Definition queue_push_text (text : list Z) : QueueM unit :=
  q ← st_get;
  if maximum_text_code_points (limits q) <? char_count text then st_err TextTooLarge
  else
    _ ← st_read ensure_capacity;
    st_modify (push_event (Text text)).

Definition queue_poll (q : TerminalInputQueue) : option TerminalInputEvent * TerminalInputQueue :=
  match events q with
  | [] => (None, q)
  | e :: es => (Some e, mkQueue (limits q) es)
  end.

Definition queue_is_empty (q : TerminalInputQueue) : bool := match events q with [] => true | _ => false end.

End Input.

Module Cells.

Definition TERMINAL_WIDTH : Z := 51.
Definition TERMINAL_HEIGHT : Z := 19.
Definition TERMINAL_HISTORY_ROWS : Z := 512.
Definition TERMINAL_PALETTE_SIZE : Z := 16.
Definition CELL_COUNT : Z := TERMINAL_WIDTH * TERMINAL_HEIGHT.
Definition DEFAULT_FOREGROUND : Z := 15.
Definition DEFAULT_BACKGROUND : Z := 0.

Inductive TerminalError :=
| InvalidPosition | InvalidRectangle | InvalidUnicodeScalar | InvalidPaletteIndex | PatchOutOfBounds
| ScrollOutOfBounds | InvalidConfig.

Record TerminalCell := mkCell { code_point : Z; foreground : Z; background : Z }.
#[global] Instance TerminalCell_eq : EqDecision TerminalCell.
Proof. solve_decision. Defined.

Definition validate_palette (index : Z) : outcome TerminalError unit :=
  if TERMINAL_PALETTE_SIZE <=? index then Err InvalidPaletteIndex else Ok tt.

Definition cell_new (cp fg bg : Z) : outcome TerminalError TerminalCell :=
  if negb (is_scalar cp) then Err InvalidUnicodeScalar
  else
    _ ← validate_palette fg;
    _ ← validate_palette bg;
    Ok (mkCell cp fg bg).

Definition space : Z := 32.
Definition blank (fg bg : Z) : TerminalCell := mkCell space fg bg.
Definition cell_default : TerminalCell := blank DEFAULT_FOREGROUND DEFAULT_BACKGROUND.

Record TerminalPosition := mkPos { x : Z; y : Z }.
#[global] Instance TerminalPosition_eq : EqDecision TerminalPosition.
Proof. solve_decision. Defined.

Definition position_new (px py : Z) : outcome TerminalError TerminalPosition :=
  if (TERMINAL_WIDTH <=? px) || (TERMINAL_HEIGHT <=? py) then Err InvalidPosition else Ok (mkPos px py).

Record TerminalRectangle := mkRect { rx : Z; ry : Z; width : Z; height : Z }.

Definition past (max start extent : Z) : bool :=
  match checked_add u16_max start extent with Some stop => max <? stop | None => true end.

Definition rectangle_new (px py w h : Z) : outcome TerminalError TerminalRectangle :=
  if (w =? 0) || (h =? 0) || (TERMINAL_WIDTH <=? px) || (TERMINAL_HEIGHT <=? py) ||
     past TERMINAL_WIDTH px w || past TERMINAL_HEIGHT py h
  then Err InvalidRectangle
  else Ok (mkRect px py w h).

End Cells.

Module Replication.
Import Cells.

Definition MAXIMUM_PENDING_CHANGES : Z := 256.
Definition MAXIMUM_ACCUMULATED_CHANGES : Z := 4096.
Definition MAXIMUM_ACCUMULATED_CELLS : Z := 8192.

Inductive TerminalChange :=
| Patch (start : Z) (cells : list TerminalCell)
| Fill (x y width height : Z) (cell : TerminalCell)
| Scroll (rows : Z) (fill : TerminalCell)
| Cursor (position : TerminalPosition) (visible : bool)
| Reset
| HistoryAppend (first_row : Z) (cells : list TerminalCell)
| HistoryReplace (first_row : Z) (cells : list TerminalCell).

Record TerminalDelta := mkDelta { base_revision : Z; target_revision : Z; changes : list TerminalChange }.

Record TerminalSnapshot := mkSnapshot {
  s_revision : Z; s_cells : list TerminalCell; s_cursor : TerminalPosition; s_cursor_visible : bool;
  s_history_start : Z; s_history_cells : list TerminalCell }.

Inductive TerminalCommit := CommitUnchanged (revision : Z) | Committed (delta : TerminalDelta).
Inductive TerminalUpdate := Unchanged (revision : Z) | Delta (delta : TerminalDelta) | Full (snapshot : TerminalSnapshot).

Record ReplicationState := mkReplication {
  revision : Z; journal_capacity : Z; pending : list TerminalChange; journal : list TerminalDelta;
  requires_full_replacement : bool }.

Definition replication_new (capacity : Z) : ReplicationState := mkReplication 0 capacity [] [] false.

Definition set_pending (p : list TerminalChange) (full : bool) (r : ReplicationState) : ReplicationState :=
  mkReplication (revision r) (journal_capacity r) p (journal r) full.

(** A patch that continues the last pending patch is joined to it. *)
Definition join_patch (change : TerminalChange) (p : list TerminalChange) : option (list TerminalChange) :=
  match change, last p with
  | Patch start cells, Some (Patch previous_start previous_cells) =>
      if previous_start + zlen previous_cells =? start
      then Some (removelast p ++ [Patch previous_start (previous_cells ++ cells)])
      else None
  | _, _ => None
  end.

Definition record (change : TerminalChange) (r : ReplicationState) : ReplicationState :=
  if requires_full_replacement r then r
  else
    match join_patch change (pending r) with
    | Some p => set_pending p false r
    | None =>
        let p := pending r ++ [change] in
        if MAXIMUM_PENDING_CHANGES <? zlen p then set_pending [] true r else set_pending p false r
    end.

Definition is_history (c : TerminalChange) : bool :=
  match c with HistoryAppend _ _ | HistoryReplace _ _ => true | _ => false end.

Definition record_reset (r : ReplicationState) : ReplicationState :=
  record Reset (set_pending (filter (fun c => is_history c = true) (pending r)) (requires_full_replacement r) r).

Definition encoded_cell_count (c : TerminalChange) : Z :=
  match c with
  | Patch _ cells | HistoryAppend _ cells | HistoryReplace _ cells => zlen cells
  | Fill _ _ _ _ _ | Scroll _ _ => 1
  | Cursor _ _ | Reset => 0
  end.

Definition cell_total (cs : list TerminalChange) : Z := foldr (fun c n => encoded_cell_count c + n) 0 cs.

(** [while journal.len() > capacity { pop_front }]. *)
Definition trim_journal (capacity : Z) (j : list TerminalDelta) : list TerminalDelta :=
  drop (Z.to_nat (zlen j - capacity)) j.

(** [None] stands for the exhausted revision counter, a panic. *)
Definition push_delta (cs : list TerminalChange) (r : ReplicationState) : option (TerminalCommit * ReplicationState) :=
  next ← checked_add u64_max (revision r) 1;
  let delta := mkDelta (revision r) next cs in
  let j := if MAXIMUM_ACCUMULATED_CELLS <? cell_total cs then [] else journal r ++ [delta] in
  Some (Committed delta, mkReplication next (journal_capacity r) [] (trim_journal (journal_capacity r) j) false).

Definition replication_commit (full_cells : option (list TerminalCell)) (cursor : TerminalPosition)
    (cursor_visible : bool) (history_start : Z) (history_cells : list TerminalCell) (r : ReplicationState)
    : option (TerminalCommit * ReplicationState) :=
  if requires_full_replacement r then
    cells ← full_cells;
    push_delta [Reset; Patch 0 cells; HistoryReplace history_start history_cells; Cursor cursor cursor_visible] r
  else
    match pending r with
    | [] => Some (CommitUnchanged (revision r), r)
    | p => push_delta p r
    end.

(** The [for] loop over the journal. *)
Fixpoint delta_loop (target base expected : Z) (acc : list TerminalChange) (cells : Z) (j : list TerminalDelta)
    : option TerminalDelta :=
  match j with
  | [] => None
  | d :: j =>
      if target_revision d <=? expected then delta_loop target base expected acc cells j
      else if negb (base_revision d =? expected) then None
      else if MAXIMUM_ACCUMULATED_CHANGES <? zlen acc + zlen (changes d) then None
      else
        let cells := cells + cell_total (changes d) in
        if MAXIMUM_ACCUMULATED_CELLS <? cells then None
        else
          let acc := acc ++ changes d in
          if target_revision d =? target then Some (mkDelta base target acc)
          else delta_loop target base (target_revision d) acc cells j
  end.

Definition delta_since (base : Z) (r : ReplicationState) : option TerminalUpdate :=
  if base =? revision r then Some (Unchanged (revision r))
  else if revision r <? base then None
  else Delta <$> delta_loop (revision r) base base [] 0 (journal r).

End Replication.

Module State.
Import Cells Replication.

Record TerminalConfig := mkConfig { config_input : Input.TerminalInputLimits; journal_revisions : Z }.
Definition config_default : TerminalConfig := mkConfig Input.limits_default 64.

Record TerminalDevice := mkTerminal {
  cells : list TerminalCell;
  row_head : Z;
  history : list TerminalCell;
  history_start : Z;
  cursor : TerminalPosition;
  cursor_visible : bool;
  fg : Z;
  bg : Z;
  input : Input.TerminalInputQueue;
  replication : ReplicationState }.

Abbreviation TermM := (ST TerminalDevice TerminalError).

Definition with_config (c : TerminalConfig) : outcome TerminalError TerminalDevice :=
  if journal_revisions c =? 0 then Err InvalidConfig
  else Ok (mkTerminal (replicate (Z.to_nat CELL_COUNT) cell_default) 0 [] 0 (mkPos 0 0) true
             DEFAULT_FOREGROUND DEFAULT_BACKGROUND (Input.queue_new (config_input c))
             (replication_new (journal_revisions c))).

Definition set_grid (cs : list TerminalCell) (rh : Z) (d : TerminalDevice) : TerminalDevice :=
  mkTerminal cs rh (history d) (history_start d) (cursor d) (cursor_visible d) (fg d) (bg d) (input d) (replication d).
Definition set_history (h : list TerminalCell) (s : Z) (d : TerminalDevice) : TerminalDevice :=
  mkTerminal (cells d) (row_head d) h s (cursor d) (cursor_visible d) (fg d) (bg d) (input d) (replication d).
Definition set_cursor_field (p : TerminalPosition) (v : bool) (d : TerminalDevice) : TerminalDevice :=
  mkTerminal (cells d) (row_head d) (history d) (history_start d) p v (fg d) (bg d) (input d) (replication d).
Definition set_color_fields (f b : Z) (d : TerminalDevice) : TerminalDevice :=
  mkTerminal (cells d) (row_head d) (history d) (history_start d) (cursor d) (cursor_visible d) f b (input d) (replication d).
Definition set_input (q : Input.TerminalInputQueue) (d : TerminalDevice) : TerminalDevice :=
  mkTerminal (cells d) (row_head d) (history d) (history_start d) (cursor d) (cursor_visible d) (fg d) (bg d) q (replication d).
Definition set_replication (r : ReplicationState) (d : TerminalDevice) : TerminalDevice :=
  mkTerminal (cells d) (row_head d) (history d) (history_start d) (cursor d) (cursor_visible d) (fg d) (bg d) (input d) r.

Definition physical_index (d : TerminalDevice) (p : TerminalPosition) : Z :=
  (row_head d + y p) mod TERMINAL_HEIGHT * TERMINAL_WIDTH + x p.

Definition log_change (c : TerminalChange) : TermM unit :=
  st_modify (fun d => set_replication (record c (replication d)) d).

Definition record_cursor : TermM unit :=
  d ← st_get;
  log_change (Cursor (cursor d) (cursor_visible d)).

(** [self.cells[self.physical_index(p)]], and the assignment to it. *)
Definition read_cell (d : TerminalDevice) (p : TerminalPosition) : outcome TerminalError TerminalCell :=
  expect (zget (cells d) (physical_index d p)).
Definition put_cell (p : TerminalPosition) (c : TerminalCell) : TermM unit := fun d =>
  match zget (cells d) (physical_index d p) with
  | None => (Panic, d)
  | Some _ => (Ok tt, set_grid (zset (physical_index d p) c (cells d)) (row_head d) d)
  end.

Definition cell (px py : Z) (d : TerminalDevice) : outcome TerminalError TerminalCell :=
  p ← position_new px py;
  read_cell d p.

Definition position_of (logical : Z) : TerminalPosition :=
  mkPos (logical mod TERMINAL_WIDTH) (logical / TERMINAL_WIDTH).
Definition logical_of (p : TerminalPosition) : Z := y p * TERMINAL_WIDTH + x p.

(** An out-of-range read is a panic in the source; the default never shows in a
    well-formed device. *)
Definition logical_cells (d : TerminalDevice) : list TerminalCell :=
  (fun i => default cell_default (zget (cells d) (physical_index d (position_of i)))) <$> seqZ 0 CELL_COUNT.

Definition set_cursor (p : TerminalPosition) : TermM unit :=
  d ← st_get;
  if bool_decide (cursor d = p) then mret tt
  else
    _ ← st_modify (fun d => set_cursor_field p (cursor_visible d) d);
    record_cursor.

Definition set_cursor_visible (v : bool) : TermM unit :=
  d ← st_get;
  if bool_decide (cursor_visible d = v) then mret tt
  else
    _ ← st_modify (fun d => set_cursor_field (cursor d) v d);
    record_cursor.

Definition set_colors (f b : Z) : TermM unit :=
  _ ← st_lift (validate_palette f);
  _ ← st_lift (validate_palette b);
  st_modify (set_color_fields f b).

(** The [for] loop of [patch]. *)
Fixpoint patch_cells (logical : Z) (cs : list TerminalCell) : TermM unit :=
  match cs with
  | [] => mret tt
  | c :: cs =>
      _ ← put_cell (position_of logical) c;
      patch_cells (logical + 1) cs
  end.

Definition patch (start : TerminalPosition) (cs : list TerminalCell) : TermM unit :=
  let logical_start := logical_of start in
  if match checked_add usize_max logical_start (zlen cs) with Some stop => CELL_COUNT <? stop | None => true end
  then st_err PatchOutOfBounds
  else
    _ ← patch_cells logical_start cs;
    match cs with
    | [] => mret tt
    | _ => log_change (Patch (wrap_unsigned 16 logical_start) cs)
    end.

(** [char::REPLACEMENT_CHARACTER]. *)
Definition REPLACEMENT : Z := 65533.

(** [TERMINAL_WIDTH - start.x] is plain [u16] subtraction. *)
Definition write_at (start : TerminalPosition) (units : list Z) : TermM unit :=
  if TERMINAL_WIDTH <? x start then st_panic
  else
    d ← st_get;
    patch start ((fun decoded => mkCell (default REPLACEMENT decoded) (fg d) (bg d)) <$>
                 take (Z.to_nat (TERMINAL_WIDTH - x start)) (decode_utf16 units)).

Fixpoint fill_row (n : nat) (px py : Z) (c : TerminalCell) : TermM unit :=
  match n with
  | O => mret tt
  | S n => _ ← put_cell (mkPos px py) c; fill_row n (px + 1) py c
  end.
Fixpoint fill_rows (n : nat) (r : TerminalRectangle) (py : Z) (c : TerminalCell) : TermM unit :=
  match n with
  | O => mret tt
  | S n => _ ← fill_row (Z.to_nat (width r)) (rx r) py c; fill_rows n r (py + 1) c
  end.

Definition fill (r : TerminalRectangle) (c : TerminalCell) : TermM unit :=
  _ ← fill_rows (Z.to_nat (height r)) r (ry r) c;
  log_change (Fill (rx r) (ry r) (width r) (height r) c).

Definition fill_with_current_colors (r : TerminalRectangle) (cp : Z) : TermM unit :=
  d ← st_get;
  c ← st_lift (cell_new cp (fg d) (bg d));
  fill r c.

(** The [while] loop of [scroll_with], on fuel: an iteration removes a row. *)
Fixpoint trim_history (fuel : nat) (h : list TerminalCell) (start : Z) : option (list TerminalCell * Z) :=
  if TERMINAL_HISTORY_ROWS * TERMINAL_WIDTH <? zlen h then
    match fuel with
    | O => None
    | S fuel =>
        start ← checked_add u64_max start 1;
        trim_history fuel (drop (Z.to_nat TERMINAL_WIDTH) h) start
    end
  else Some (h, start).

(** [cells[start..start + WIDTH].fill(fill)] after the head advanced by a row. *)
Fixpoint scroll_rows (n : nat) (c : TerminalCell) : TermM unit :=
  match n with
  | O => mret tt
  | S n =>
      d ← st_get;
      let rh := (row_head d + 1) mod TERMINAL_HEIGHT in
      let reclaimed_row := (rh + TERMINAL_HEIGHT - 1) mod TERMINAL_HEIGHT in
      let start := reclaimed_row * TERMINAL_WIDTH in
      if zlen (cells d) <? start + TERMINAL_WIDTH then st_panic
      else
        _ ← st_put (set_grid (splice start (replicate (Z.to_nat TERMINAL_WIDTH) c) (cells d)) rh d);
        scroll_rows n c
  end.

(** The cells of the first [rows] logical rows. *)
Definition top_rows (rows : Z) (d : TerminalDevice) : list TerminalCell :=
  (fun i => default cell_default (zget (cells d) (physical_index d (position_of i)))) <$> seqZ 0 (rows * TERMINAL_WIDTH).

(** Plain arithmetic on the row counter: its overflow is a panic. *)
Definition scroll_with (rows : Z) (c : TerminalCell) : TermM unit :=
  d ← st_get;
  let first_row := history_start d + zlen (history d) / TERMINAL_WIDTH in
  if u64_max <? first_row then st_panic
  else
    let removed := top_rows rows d in
    let h := history d ++ removed in
    match trim_history (length h) h (history_start d) with
    | None => st_panic
    | Some (h, start) =>
        _ ← st_modify (set_history h start);
        _ ← (if rows =? 0 then mret tt else log_change (HistoryAppend first_row removed));
        scroll_rows (Z.to_nat rows) c
    end.

Definition scroll (rows : Z) : TermM unit :=
  if TERMINAL_HEIGHT <? rows then st_err ScrollOutOfBounds
  else
    _ ← scroll_with rows cell_default;
    if rows =? 0 then mret tt else log_change (Scroll rows cell_default).

Definition newline : TermM unit :=
  _ ← st_modify (fun d => set_cursor_field (mkPos 0 (y (cursor d))) (cursor_visible d) d);
  d ← st_get;
  if y (cursor d) + 1 <? TERMINAL_HEIGHT
  then st_modify (fun d => set_cursor_field (mkPos 0 (y (cursor d) + 1)) (cursor_visible d) d)
  else
    let c := blank (fg d) (bg d) in
    _ ← scroll_with 1 c;
    log_change (Scroll 1 c).

Definition write_scalar (scalar : Z) : TermM unit :=
  d ← st_get;
  let c := mkCell scalar (fg d) (bg d) in
  _ ← put_cell (cursor d) c;
  _ ← log_change (Patch (wrap_unsigned 16 (logical_of (cursor d))) [c]);
  if x (cursor d) + 1 <? TERMINAL_WIDTH
  then st_modify (fun d => set_cursor_field (mkPos (x (cursor d) + 1) (y (cursor d))) (cursor_visible d) d)
  else newline.

Definition write_decoded (scalar : Z) : TermM unit :=
  if scalar =? 10 then newline
  else if scalar =? 13 then st_modify (fun d => set_cursor_field (mkPos 0 (y (cursor d))) (cursor_visible d) d)
  else write_scalar scalar.

Fixpoint write_loop (scalars : list (option Z)) : TermM unit :=
  match scalars with
  | [] => mret tt
  | s :: scalars => _ ← write_decoded (default REPLACEMENT s); write_loop scalars
  end.

Definition write_utf16 (units : list Z) : TermM unit :=
  d ← st_get;
  let initial_cursor := cursor d in
  _ ← write_loop (decode_utf16 units);
  d ← st_get;
  if bool_decide (cursor d = initial_cursor) then mret tt else record_cursor.

Definition erase_at (p : TerminalPosition) : TermM unit :=
  _ ← st_modify (fun d => set_cursor_field p (cursor_visible d) d);
  d ← st_get;
  let c := blank (fg d) (bg d) in
  _ ← put_cell p c;
  _ ← log_change (Patch (wrap_unsigned 16 (logical_of p)) [c]);
  record_cursor.

Definition erase_previous : TermM unit :=
  d ← st_get;
  if 0 <? x (cursor d) then erase_at (mkPos (x (cursor d) - 1) (y (cursor d)))
  else if 0 <? y (cursor d) then erase_at (mkPos (TERMINAL_WIDTH - 1) (y (cursor d) - 1))
  else mret tt.

Definition clear : TermM unit := st_modify (fun d =>
  mkTerminal (replicate (length (cells d)) cell_default) 0 (history d) (history_start d) (mkPos 0 0) true
    DEFAULT_FOREGROUND DEFAULT_BACKGROUND (input d) (record_reset (replication d))).

(** [(0..n).rev().find(..)] over the rows that show something. *)
Definition row_has_content (d : TerminalDevice) (py : Z) : bool :=
  existsb (fun px => match zget (cells d) (physical_index d (mkPos px py)) with
                     | Some c => negb (code_point c =? space)
                     | None => false
                     end) (seqZ 0 TERMINAL_WIDTH).
Fixpoint last_content_row (d : TerminalDevice) (n : nat) : option Z :=
  match n with
  | O => None
  | S n => if row_has_content d (Z.of_nat n) then Some (Z.of_nat n) else last_content_row d n
  end.

Definition resume_console_output : TermM unit :=
  d ← st_get;
  let last := last_content_row d (Z.to_nat TERMINAL_HEIGHT) in
  _ ← st_modify (set_color_fields DEFAULT_FOREGROUND DEFAULT_BACKGROUND);
  _ ← set_cursor_visible true;
  d ← st_get;
  match last with
  | Some row =>
      if y (cursor d) <=? row then
        _ ← set_cursor (mkPos 0 row);
        _ ← newline;
        record_cursor
      else set_cursor (mkPos 0 (y (cursor d)))
  | None => set_cursor (mkPos 0 (y (cursor d)))
  end.

Definition push_key (e : Input.TerminalKeyEvent) : ST TerminalDevice Input.TerminalInputError unit := fun d =>
  let '(r, q) := Input.queue_push_key e (input d) in (r, set_input q d).
Definition push_text (t : list Z) : ST TerminalDevice Input.TerminalInputError unit := fun d =>
  let '(r, q) := Input.queue_push_text t (input d) in (r, set_input q d).
Definition poll_input (d : TerminalDevice) : option Input.TerminalInputEvent * TerminalDevice :=
  let '(r, q) := Input.queue_poll (input d) in (r, set_input q d).
Definition input_is_empty (d : TerminalDevice) : bool := Input.queue_is_empty (input d).

Definition commit : TermM TerminalCommit := fun d =>
  let full_cells := if requires_full_replacement (replication d) then Some (logical_cells d) else None in
  match replication_commit full_cells (cursor d) (cursor_visible d) (history_start d) (history d) (replication d) with
  | None => (Panic, d)
  | Some (c, r) => (Ok c, set_replication r d)
  end.

Definition snapshot (d : TerminalDevice) : TerminalSnapshot :=
  mkSnapshot (revision (replication d)) (logical_cells d) (cursor d) (cursor_visible d) (history_start d) (history d).

Definition changes_since (base : Z) (d : TerminalDevice) : TerminalUpdate :=
  default (Full (snapshot d)) (delta_since base (replication d)).

End State.
