(* ===== verification/TerminalProps.v ===== *)
(** The promises of src/terminal: whatever a program draws, a replica that applies
    the changes it is sent shows what the terminal shows; no operation panics or
    leaves the grid, the history or the log outside its bounds. *)

From S2P Require Import Prelude Words Unicode Terminal.

(** The view a remote replica of a terminal holds, the meaning of each change it
    receives, and the invariant of src/terminal/state.rs: the rows form a ring
    over which the logical grid is read, and the pending changes lead from the
    last committed view to the present one. *)

Module TerminalInv.
Import Cells Replication State.

(** ** Replicas *)

Record view := mkView {
  v_cells : list TerminalCell; v_cursor : TerminalPosition; v_visible : bool;
  v_start : Z; v_hist : list TerminalCell }.

Definition view_of (d : TerminalDevice) : view :=
  mkView (logical_cells d) (cursor d) (cursor_visible d) (history_start d) (history d).

Definition snapshot_view (s : TerminalSnapshot) : view :=
  mkView (s_cells s) (s_cursor s) (s_cursor_visible s) (s_history_start s) (s_history_cells s).

Definition set_cells (cs : list TerminalCell) (v : view) : view :=
  mkView cs (v_cursor v) (v_visible v) (v_start v) (v_hist v).

(** Overwrites the cells whose logical index satisfies [P]. *)
Definition paint (P : Z -> bool) (c : TerminalCell) (l : list TerminalCell) : list TerminalCell :=
  imap (fun i old => if P (Z.of_nat i) then c else old) l.

Definition in_rect (px py w h i : Z) : bool :=
  (px <=? i mod TERMINAL_WIDTH) && (i mod TERMINAL_WIDTH <? px + w) &&
  (py <=? i / TERMINAL_WIDTH) && (i / TERMINAL_WIDTH <? py + h).

Definition shift (rows : Z) (c : TerminalCell) (l : list TerminalCell) : list TerminalCell :=
  drop (Z.to_nat (rows * TERMINAL_WIDTH)) l ++ replicate (Z.to_nat (rows * TERMINAL_WIDTH)) c.

Definition append_history (cs : list TerminalCell) (h : list TerminalCell) (start : Z) : option (list TerminalCell * Z) :=
  trim_history (length (h ++ cs)) (h ++ cs) start.

(** What a replica does with a change; [None] when it does not fit the replica. *)
Definition apply (c : TerminalChange) (v : view) : option view :=
  match c with
  | Patch start cs =>
      if (0 <=? start) && (start + zlen cs <=? zlen (v_cells v))
      then Some (set_cells (splice start cs (v_cells v)) v) else None
  | Fill px py w h c => Some (set_cells (paint (in_rect px py w h) c (v_cells v)) v)
  | Scroll rows c =>
      if (0 <=? rows) && (rows <=? TERMINAL_HEIGHT) then Some (set_cells (shift rows c (v_cells v)) v) else None
  | Cursor p visible => Some (mkView (v_cells v) p visible (v_start v) (v_hist v))
  | Reset => Some (mkView (replicate (Z.to_nat CELL_COUNT) cell_default) (mkPos 0 0) true (v_start v) (v_hist v))
  | HistoryAppend first_row cs =>
      if first_row =? v_start v + zlen (v_hist v) / TERMINAL_WIDTH then
        '(h, s) ← append_history cs (v_hist v) (v_start v);
        Some (mkView (v_cells v) (v_cursor v) (v_visible v) s h)
      else None
  | HistoryReplace first_row cs => Some (mkView (v_cells v) (v_cursor v) (v_visible v) first_row cs)
  end.

Fixpoint apply_all (cs : list TerminalChange) (v : view) : option view :=
  match cs with
  | [] => Some v
  | c :: cs => w ← apply c v; apply_all cs w
  end.

Lemma apply_all_app a b v : apply_all (a ++ b) v = w ← apply_all a v; apply_all b w.
Proof. revert v. induction a as [|c a IH]; intros v; simpl; [done|]. destruct (apply c v); simpl; [apply IH|done]. Qed.

Lemma apply_all_snoc p c v w w' : apply_all p v = Some w -> apply c w = Some w' -> apply_all (p ++ [c]) v = Some w'.
Proof. intros Hp Hc. rewrite apply_all_app, Hp. simpl. by rewrite Hc. Qed.

(** ** Recording *)

(** The state of a log whose changes lead from [V] to [w]. *)
Definition tracks (r : ReplicationState) (V w : view) : Prop :=
  if requires_full_replacement r then pending r = [] else apply_all (pending r) V = Some w.

Lemma splice_join {A} s (a b l : list A) : 0 <= s -> s + zlen a + zlen b <= zlen l ->
  splice (s + zlen a) b (splice s a l) = splice s (a ++ b) l.
Proof.
  intros Hs Hl. unfold splice, zlen in *.
  assert (Ht : length (take (Z.to_nat s) l) = Z.to_nat s) by (rewrite length_take; lia).
  set (t := take (Z.to_nat s) l) in *. set (r := drop (Z.to_nat s + length a) l).
  assert (Hn : Z.to_nat (s + Z.of_nat (length a)) = length (t ++ a)) by (rewrite length_app; lia).
  rewrite Hn, (app_assoc t a r), take_app_length, drop_app_ge by lia.
  replace (length (t ++ a) + length b - length (t ++ a))%nat with (length b) by lia.
  unfold r. rewrite drop_drop, <- !app_assoc, length_app. do 4 f_equal. lia.
Qed.

Lemma zlen_splice {A} s (a l : list A) : 0 <= s -> s + zlen a <= zlen l -> zlen (splice s a l) = zlen l.
Proof. intros. unfold zlen in *. by rewrite splice_length. Qed.

Lemma join_patch_ok c p q V w w' : join_patch c p = Some q -> apply_all p V = Some w -> apply c w = Some w' ->
  apply_all q V = Some w'.
Proof.
  intros Hj Hp Hc. destruct c as [s cs| | | | | |]; try done. simpl in Hj.
  destruct (last p) as [[ps pc| | | | | |]|] eqn:El; try done. destruct (Z.eqb_spec (ps + zlen pc) s) as [Es|]; [|done].
  injection Hj as <-. apply last_Some in El as [p0 ->]. rewrite removelast_last.
  rewrite apply_all_app in Hp. apply bind_Some in Hp as (u & Hu & Hp). simpl in Hp. apply bind_Some in Hp as (w0 & Hw0 & [= ->]).
  rewrite apply_all_app, Hu. simpl in *. destruct (_ && _) eqn:E1 in Hw0; [|done]. injection Hw0 as <-. bsimp. simpl in *.
  rewrite zlen_splice in Hc by lia. destruct (_ && _) eqn:E2 in Hc; [|done]. injection Hc as <-. bsimp.
  assert (Hl : zlen (pc ++ cs) = zlen pc + zlen cs) by (unfold zlen; rewrite length_app; lia).
  rewrite Hl, (proj2 (Z.leb_le 0 ps)), (proj2 (Z.leb_le _ (zlen (v_cells u)))) by lia. simpl.
  unfold set_cells. simpl. rewrite <- Es, splice_join by lia. done.
Qed.

Lemma record_tracks c r V w w' : tracks r V w -> apply c w = Some w' -> tracks (record c r) V w'.
Proof.
  unfold tracks, record. intros Ht Hc. destruct (requires_full_replacement r) eqn:Ef; [by rewrite Ef|].
  destruct (join_patch c (pending r)) as [q|] eqn:Ej; simpl; [by eapply join_patch_ok|].
  destruct (_ <? _); simpl; [done|]. by eapply apply_all_snoc.
Qed.

Lemma history_only p V w V' : apply_all p V = Some w -> v_start V' = v_start V -> v_hist V' = v_hist V ->
  exists u, apply_all (filter (fun c => is_history c = true) p) V' = Some u /\ v_start u = v_start w /\ v_hist u = v_hist w.
Proof.
  revert V V'. induction p as [|c p IH]; intros V V' Hp Hs Hh; simpl in Hp.
  - injection Hp as <-. exists V'. done.
  - apply bind_Some in Hp as (V1 & Hc & Hp). destruct (is_history c) eqn:Ei.
    + rewrite filter_cons_True by done. simpl. destruct c; try done; simpl in *.
      * rewrite Hs, Hh. destruct (_ =? _); [|done]. apply bind_Some in Hc as ([h s] & Ht & [= <-]). rewrite Ht. simpl.
        by apply (IH _ _ Hp).
      * injection Hc as <-. by apply (IH _ _ Hp).
    + rewrite filter_cons_False by (by rewrite Ei). apply (IH _ _ Hp); destruct c; try done; simpl in Hc;
        try (injection Hc as <-; done); destruct (_ && _); try done; by injection Hc as <-.
Qed.

Definition reset_view (w : view) : view :=
  mkView (replicate (Z.to_nat CELL_COUNT) cell_default) (mkPos 0 0) true (v_start w) (v_hist w).

Lemma reset_tracks r V w : tracks r V w -> tracks (record_reset r) V (reset_view w).
Proof.
  intros Ht. unfold record_reset. unfold tracks in Ht. destruct (requires_full_replacement r) eqn:Ef.
  - unfold tracks, record. simpl. by rewrite Ht.
  - destruct (history_only _ V w V Ht eq_refl eq_refl) as (u & Hu & Hs & Hh).
    apply (record_tracks _ _ _ u); [done|]. simpl. unfold reset_view. by rewrite Hs, Hh.
Qed.

(** ** The grid *)

Definition phys (rh i : Z) : Z := (rh + i / 51) mod 19 * 51 + i mod 51.

Lemma physical_position d i : physical_index d (position_of i) = phys (row_head d) i.
Proof. done. Qed.

Lemma phys_bound rh i : 0 <= phys rh i < 969.
Proof.
  unfold phys. pose proof (Z.mod_pos_bound (rh + i / 51) 19 ltac:(lia)). pose proof (Z.mod_pos_bound i 51 ltac:(lia)). lia.
Qed.

Lemma div_range i : 0 <= i < 969 -> 0 <= i / 51 < 19.
Proof. intros Hi. split; [apply Z.div_pos; lia|apply Z.div_lt_upper_bound; lia]. Qed.

Lemma phys_inj rh i j : 0 <= i < 969 -> 0 <= j < 969 -> phys rh i = phys rh j -> i = j.
Proof.
  intros Hi Hj E. unfold phys in E. pose proof (Z.mod_pos_bound i 51 ltac:(lia)). pose proof (Z.mod_pos_bound j 51 ltac:(lia)).
  pose proof (div_range i Hi). pose proof (div_range j Hj).
  assert (Er : (rh + i / 51) mod 19 = (rh + j / 51) mod 19) by lia.
  assert (Eq : i / 51 = j / 51).
  { assert (Hd : (rh + i / 51 - (rh + j / 51)) mod 19 = 0) by (rewrite Zminus_mod, Er, Z.sub_diag; done).
    replace (rh + i / 51 - (rh + j / 51)) with (i / 51 - j / 51) in Hd by lia.
    apply Z.mod_divide in Hd as [k Hk]; [|lia]. nia. }
  rewrite (Z.div_mod i 51), (Z.div_mod j 51) by lia. lia.
Qed.

Record dev_ok (d : TerminalDevice) : Prop := {
  g_cells : zlen (cells d) = 969;
  g_head : 0 <= row_head d < 19;
  g_cursor : 0 <= x (cursor d) < 51 /\ 0 <= y (cursor d) < 19;
  g_hist : zlen (history d) mod 51 = 0 /\ zlen (history d) <= 26112;
  g_start : 0 <= history_start d }.

(** The grid as a function of the logical index. *)
Definition at_logical (d : TerminalDevice) (i : Z) : TerminalCell :=
  default cell_default (zget (cells d) (phys (row_head d) i)).

Lemma logical_lookup d i : 0 <= i < 969 -> logical_cells d !! Z.to_nat i = Some (at_logical d i).
Proof.
  intros Hi. unfold logical_cells. change CELL_COUNT with 969. rewrite list_lookup_fmap, lookup_seqZ_lt by lia. simpl.
  by rewrite Z2Nat.id by lia.
Qed.

Lemma logical_length d : length (logical_cells d) = 969%nat.
Proof. unfold logical_cells. rewrite length_fmap, length_seqZ. done. Qed.

Lemma logical_eq d l : length l = 969%nat ->
  (forall i, 0 <= i < 969 -> l !! Z.to_nat i = Some (at_logical d i)) -> logical_cells d = l.
Proof.
  intros Hl H. apply (list_eq_same_length _ _ 969); [done|apply logical_length|]. intros i a b Hi Ha Hb.
  specialize (H (Z.of_nat i) ltac:(lia)). pose proof (logical_lookup d (Z.of_nat i) ltac:(lia)) as H'.
  rewrite Nat2Z.id in *. congruence.
Qed.

Lemma cell_present d i : zlen (cells d) = 969 -> exists c, zget (cells d) (phys (row_head d) i) = Some c.
Proof. intros Hl. apply zget_is_Some. unfold zlen in Hl. rewrite Hl. apply phys_bound. Qed.

Lemma at_logical_set d i c rh j : zlen (cells d) = 969 -> rh = row_head d -> 0 <= i < 969 -> 0 <= j < 969 ->
  at_logical (set_grid (zset (phys (row_head d) i) c (cells d)) rh d) j = if decide (j = i) then c else at_logical d j.
Proof.
  intros Hl -> Hi Hj. unfold at_logical. simpl. destruct (decide (j = i)) as [->|Hne].
  - destruct (cell_present d i Hl) as [c0 Hc0]. by erewrite zget_zset_eq.
  - pose proof (phys_bound (row_head d) i). pose proof (phys_bound (row_head d) j).
    rewrite zget_zset_ne; [done|lia|lia|]. intros E. apply Hne. by apply (phys_inj (row_head d)).
Qed.

Definition grid_like (d d' : TerminalDevice) : Prop :=
  history d' = history d /\ history_start d' = history_start d /\ cursor d' = cursor d /\
  cursor_visible d' = cursor_visible d /\ fg d' = fg d /\ bg d' = bg d /\ input d' = input d /\
  replication d' = replication d.

Lemma grid_like_trans a b c : grid_like a b -> grid_like b c -> grid_like a c.
Proof. unfold grid_like. intuition congruence. Qed.

Lemma grid_dev_ok d d' : dev_ok d -> grid_like d d' -> zlen (cells d') = 969 -> 0 <= row_head d' < 19 -> dev_ok d'.
Proof. intros [? ? ? ? ?] (Hh & Hs & Hc & _) ? ?. split; rewrite ?Hh, ?Hs, ?Hc; done. Qed.

Lemma position_logical p : 0 <= x p < 51 -> 0 <= y p < 19 -> position_of (logical_of p) = p /\ 0 <= logical_of p < 969.
Proof.
  intros Hx Hy. unfold position_of, logical_of, TERMINAL_WIDTH. destruct p as [px py]. simpl in *. split; [|lia]. f_equal.
  - rewrite Z.add_comm, Z.mod_add, Z.mod_small by lia. done.
  - rewrite Z.add_comm, Z.div_add, Z.div_small by lia. lia.
Qed.

Lemma put_cell_ok d i c : zlen (cells d) = 969 -> 0 <= i < 969 ->
  exists d', put_cell (position_of i) c d = (Ok tt, d') /\ grid_like d d' /\ zlen (cells d') = 969 /\ row_head d' = row_head d /\
    (forall j, 0 <= j < 969 -> at_logical d' j = if decide (j = i) then c else at_logical d j).
Proof.
  intros Hl Hi. unfold put_cell. rewrite physical_position. destruct (cell_present d i Hl) as [c0 ->].
  eexists. split; [done|]. split; [done|]. split; [simpl; unfold zlen; by rewrite zset_length|]. split; [done|].
  intros j Hj. by apply at_logical_set.
Qed.

Lemma patch_cells_ok cs : forall d i, zlen (cells d) = 969 -> 0 <= i -> i + zlen cs <= 969 ->
  exists d', patch_cells i cs d = (Ok tt, d') /\ grid_like d d' /\ zlen (cells d') = 969 /\ row_head d' = row_head d /\
    (forall j, 0 <= j < 969 -> at_logical d' j = if (i <=? j) && (j <? i + zlen cs) then default cell_default (cs !! Z.to_nat (j - i)) else at_logical d j).
Proof.
  induction cs as [|c cs IH]; intros d i Hl Hi Hb; simpl.
  - exists d. split; [done|]. split; [done|]. split; [done|]. split; [done|]. intros j Hj.
    change (zlen (@nil TerminalCell)) with 0. destruct (Z.leb_spec i j), (Z.ltb_spec j (i + 0)); cbn [andb]; try lia; reflexivity.
  - unfold zlen in Hb. simpl in Hb. destruct (put_cell_ok d i c Hl ltac:(lia)) as (d1 & Hrun & Hg1 & Hl1 & Hh1 & Hat1).
    destruct (IH d1 (i + 1) Hl1 ltac:(lia) ltac:(unfold zlen; lia)) as (d2 & Hrun2 & Hg2 & Hl2 & Hh2 & Hat2).
    exists d2. rewrite (st_bind_ok _ _ _ _ _ Hrun), Hrun2. split; [done|]. split; [by eapply grid_like_trans|].
    split; [done|]. split; [congruence|]. intros j Hj. rewrite Hat2, Hat1 by done. unfold zlen. simpl.
    destruct (Z.leb_spec (i + 1) j), (Z.ltb_spec j (i + 1 + Z.of_nat (length cs))), (Z.leb_spec i j),
      (Z.ltb_spec j (i + Z.of_nat (S (length cs)))), (decide (j = i)); simpl; try lia; try done.
    + replace (Z.to_nat (j - i)) with (S (Z.to_nat (j - (i + 1)))) by lia. done.
    + subst j. replace (Z.to_nat (i - i)) with 0%nat by lia. done.
Qed.

Lemma fill_row_ok n : forall d px py c, zlen (cells d) = 969 -> 0 <= px -> px + Z.of_nat n <= 51 -> 0 <= py < 19 ->
  exists d', fill_row n px py c d = (Ok tt, d') /\ grid_like d d' /\ zlen (cells d') = 969 /\ row_head d' = row_head d /\
    (forall j, 0 <= j < 969 -> at_logical d' j = if in_rect px py (Z.of_nat n) 1 j then c else at_logical d j).
Proof.
  induction n as [|n IH]; intros d px py c Hl Hx Hb Hy; simpl.
  - exists d. split_and!; try done. intros j Hj. unfold in_rect.
    destruct (Z.leb_spec px (j mod TERMINAL_WIDTH)), (Z.ltb_spec (j mod TERMINAL_WIDTH) (px + Z.of_nat 0)); simpl; try lia; done.
  - destruct (position_logical (mkPos px py)) as [Hp Hlo]; [simpl; lia|done|]. rewrite <- Hp.
    destruct (put_cell_ok d _ c Hl Hlo) as (d1 & Hrun & Hg1 & Hl1 & Hh1 & Hat1).
    destruct (IH d1 (px + 1) py c Hl1 ltac:(lia) ltac:(lia) Hy) as (d2 & Hrun2 & Hg2 & Hl2 & Hh2 & Hat2).
    exists d2. rewrite (st_bind_ok _ _ _ _ _ Hrun), Hrun2. split; [done|]. split; [by eapply grid_like_trans|].
    split; [done|]. split; [congruence|]. intros j Hj. rewrite Hat2, Hat1 by done. unfold in_rect.
    pose proof (Z.mod_pos_bound j 51 ltac:(lia)). pose proof (Z.div_mod j 51 ltac:(lia)). unfold TERMINAL_WIDTH.
    unfold logical_of, TERMINAL_WIDTH in *. simpl in *.
    assert (Hij : j = py * 51 + px <-> j mod 51 = px /\ j / 51 = py) by (split; [intros Hj'; split|]; nia).
    destruct (decide (j = py * 51 + px)) as [E|E];
      destruct (Z.leb_spec (px + 1) (j mod 51)), (Z.ltb_spec (j mod 51) (px + 1 + Z.of_nat n)), (Z.leb_spec px (j mod 51)),
        (Z.ltb_spec (j mod 51) (px + Z.of_nat (S n))), (Z.leb_spec py (j / 51)), (Z.ltb_spec (j / 51) (py + 1)); simpl; try done; lia.
Qed.

Lemma fill_rows_ok n : forall d r py c, zlen (cells d) = 969 -> 0 <= rx r -> 0 <= width r -> rx r + width r <= 51 ->
  0 <= py -> py + Z.of_nat n <= 19 ->
  exists d', fill_rows n r py c d = (Ok tt, d') /\ grid_like d d' /\ zlen (cells d') = 969 /\ row_head d' = row_head d /\
    (forall j, 0 <= j < 969 -> at_logical d' j = if in_rect (rx r) py (width r) (Z.of_nat n) j then c else at_logical d j).
Proof.
  induction n as [|n IH]; intros d r py c Hl Hx Hw Hb Hy Hby; simpl.
  - exists d. split_and!; try done. intros j Hj. unfold in_rect.
    destruct (Z.leb_spec py (j / TERMINAL_WIDTH)), (Z.ltb_spec (j / TERMINAL_WIDTH) (py + Z.of_nat 0)); simpl; try lia;
      by rewrite ?andb_false_r.
  - destruct (fill_row_ok (Z.to_nat (width r)) d (rx r) py c Hl Hx ltac:(lia) ltac:(lia)) as (d1 & Hrun & Hg1 & Hl1 & Hh1 & Hat1).
    destruct (IH d1 r (py + 1) c Hl1 Hx Hw Hb ltac:(lia) ltac:(lia)) as (d2 & Hrun2 & Hg2 & Hl2 & Hh2 & Hat2).
    exists d2. rewrite (st_bind_ok _ _ _ _ _ Hrun), Hrun2. split; [done|]. split; [by eapply grid_like_trans|].
    split; [done|]. split; [congruence|]. intros j Hj. rewrite Hat2, Hat1 by done. unfold in_rect.
    rewrite Z2Nat.id by lia. destruct ((rx r <=? j mod TERMINAL_WIDTH) && (j mod TERMINAL_WIDTH <? rx r + width r)); simpl; [|done].
    destruct (Z.leb_spec (py + 1) (j / TERMINAL_WIDTH)), (Z.ltb_spec (j / TERMINAL_WIDTH) (py + 1 + Z.of_nat n)),
      (Z.leb_spec py (j / TERMINAL_WIDTH)), (Z.ltb_spec (j / TERMINAL_WIDTH) (py + 1)),
      (Z.ltb_spec (j / TERMINAL_WIDTH) (py + Z.of_nat (S n))); simpl; try done; lia.
Qed.

(** ** Scrolling *)

Lemma splice_lookup_in {A} (start : Z) (bs l : list A) (k : Z) : 0 <= start -> 0 <= k < zlen bs ->
  start + zlen bs <= zlen l -> splice start bs l !! Z.to_nat (start + k) = bs !! Z.to_nat k.
Proof.
  intros Hs Hk Hl. unfold splice, zlen in *.
  rewrite lookup_app_r by (rewrite length_take; lia). rewrite length_take.
  rewrite lookup_app_l by lia. f_equal. lia.
Qed.

Lemma scroll_step d c : zlen (cells d) = 969 -> 0 <= row_head d < 19 ->
  let rh := (row_head d + 1) mod 19 in
  let d' := set_grid (splice (row_head d * 51) (replicate 51 c) (cells d)) rh d in
  zlen (cells d') = 969 /\ 0 <= row_head d' < 19 /\
  (forall j, 0 <= j < 969 -> at_logical d' j = if j + 51 <? 969 then at_logical d (j + 51) else c).
Proof.
  intros Hl Hrh rh d'. pose proof (Z.mod_pos_bound (row_head d + 1) 19 ltac:(lia)) as Hm.
  assert (Hrep : length (replicate 51 c) = 51%nat) by apply length_replicate.
  assert (Hlen : length (cells d) = 969%nat) by (unfold zlen in Hl; lia).
  split; [cbn [d' cells set_grid]; unfold zlen in *; rewrite splice_length; rewrite ?Hrep; lia|]. split; [done|].
  intros j Hj. unfold at_logical, d'. cbn [cells row_head set_grid]. unfold zget. pose proof (div_range j Hj) as Hd.
  pose proof (Z.mod_pos_bound j 51 ltac:(lia)) as Hmj. pose proof (Z.div_mod j 51 ltac:(lia)) as Hdm.
  assert (Erow : (rh + j / 51) mod 19 = (row_head d + (j / 51 + 1)) mod 19).
  { unfold rh. rewrite Zplus_mod_idemp_l. f_equal. lia. }
  destruct (Z.ltb_spec (j + 51) 969).
  - assert (Ephys : phys rh j = phys (row_head d) (j + 51)).
    { unfold phys. replace (j + 51) with (j + 1 * 51) by lia. rewrite Z.div_add, Z.mod_add by lia. by rewrite Erow. }
    rewrite Ephys. f_equal. apply splice_lookup_ne; [lia|rewrite Hrep; lia|].
    unfold phys. replace (j + 51) with (j + 1 * 51) by lia. rewrite Z.div_add, Z.mod_add by lia.
    rewrite Hrep. pose proof (Z.mod_pos_bound (row_head d + (j / 51 + 1)) 19 ltac:(lia)).
    assert (Hne : (row_head d + (j / 51 + 1)) mod 19 <> row_head d).
    { intros E. assert (Hk : (row_head d + (j / 51 + 1) - row_head d) mod 19 = 0).
      { rewrite Zminus_mod, E, (Z.mod_small (row_head d)), Z.sub_diag by lia. done. }
      replace (row_head d + (j / 51 + 1) - row_head d) with (j / 51 + 1) in Hk by lia. rewrite Z.mod_small in Hk by lia. lia. }
    lia.
  - assert (Ej : j / 51 = 18) by lia. unfold phys. rewrite Erow, Ej. change (18 + 1) with 19.
    replace (row_head d + 19) with (row_head d + 1 * 19) by lia. rewrite Z.mod_add, Z.mod_small by lia.
    rewrite splice_lookup_in; [|lia|unfold zlen; rewrite Hrep; lia|unfold zlen; rewrite Hrep; lia].
    rewrite lookup_replicate_2 by lia. done.
Qed.

Lemma scroll_rows_ok n : forall d c, zlen (cells d) = 969 -> 0 <= row_head d < 19 -> (n <= 19)%nat ->
  exists d', scroll_rows n c d = (Ok tt, d') /\ grid_like d d' /\ zlen (cells d') = 969 /\ 0 <= row_head d' < 19 /\
    (forall j, 0 <= j < 969 -> at_logical d' j = if j + 51 * Z.of_nat n <? 969 then at_logical d (j + 51 * Z.of_nat n) else c).
Proof.
  induction n as [|n IH]; intros d c Hl Hrh Hn; cbn [scroll_rows].
  - exists d. split_and!; try done; try lia. intros j Hj. rewrite (proj2 (Z.ltb_lt _ _)) by lia. f_equal. lia.
  - destruct (scroll_step d c Hl Hrh) as (Hl1 & Hrh1 & Hat1). set (d1 := set_grid _ _ d) in *.
    destruct (IH d1 c Hl1 Hrh1 ltac:(lia)) as (d2 & Hrun & Hg & Hl2 & Hrh2 & Hat2). exists d2.
    assert (Erow : ((row_head d + 1) mod TERMINAL_HEIGHT + TERMINAL_HEIGHT - 1) mod TERMINAL_HEIGHT = row_head d).
    { unfold TERMINAL_HEIGHT. replace ((row_head d + 1) mod 19 + 19 - 1) with ((row_head d + 1) mod 19 + 18) by lia.
      rewrite Zplus_mod_idemp_l. replace (row_head d + 1 + 18) with (row_head d + 1 * 19) by lia.
      rewrite Z.mod_add, Z.mod_small by lia. done. }
    split.
    + unfold mbind, ST_bind, st_get. rewrite Erow, Hl. unfold TERMINAL_WIDTH.
      rewrite (proj2 (Z.ltb_ge _ _)) by lia. unfold st_put. exact Hrun.
    + split; [by apply (grid_like_trans _ d1)|]. split; [done|]. split; [done|]. intros j Hj. rewrite Hat2 by done.
      destruct (Z.ltb_spec (j + 51 * Z.of_nat n) 969), (Z.ltb_spec (j + 51 * Z.of_nat (S n)) 969); try lia; try done.
      * rewrite Hat1 by lia. rewrite (proj2 (Z.ltb_lt _ _)) by lia. f_equal. lia.
      * rewrite Hat1 by lia. by rewrite (proj2 (Z.ltb_ge _ _)) by lia.
Qed.

Lemma shift_length rows c l : length l = 969%nat -> 0 <= rows <= 19 -> length (shift rows c l) = 969%nat.
Proof. intros Hl Hr. unfold shift, TERMINAL_WIDTH. rewrite length_app, length_drop, length_replicate. lia. Qed.

Lemma shift_logical d d' rows c : 0 <= rows <= 19 ->
  (forall j, 0 <= j < 969 -> at_logical d' j = if j + 51 * rows <? 969 then at_logical d (j + 51 * rows) else c) ->
  logical_cells d' = shift rows c (logical_cells d).
Proof.
  intros Hr Hat. apply logical_eq; [apply shift_length; [apply logical_length|done]|]. intros i Hi. rewrite Hat by done.
  unfold shift, TERMINAL_WIDTH. pose proof (logical_length d) as Hl. destruct (Z.ltb_spec (i + 51 * rows) 969).
  - rewrite lookup_app_l by (rewrite length_drop; lia). rewrite lookup_drop.
    replace (Z.to_nat (rows * 51) + Z.to_nat i)%nat with (Z.to_nat (i + 51 * rows)) by lia. by apply logical_lookup; lia.
  - rewrite lookup_app_r by (rewrite length_drop; lia). rewrite length_drop. apply lookup_replicate_2. lia.
Qed.

Lemma top_rows_take rows d : 0 <= rows <= 19 -> top_rows rows d = take (Z.to_nat (rows * 51)) (logical_cells d).
Proof.
  intros Hr. unfold top_rows, logical_cells, TERMINAL_WIDTH. change CELL_COUNT with 969. rewrite <- fmap_take. f_equal.
  apply list_eq. intros i. destruct (decide (i < Z.to_nat (rows * 51))%nat) as [Hi|Hi].
  - rewrite lookup_take_lt by lia. by rewrite !lookup_seqZ_lt by lia.
  - rewrite lookup_take_ge by lia. rewrite lookup_seqZ_ge by lia. done.
Qed.

Lemma top_rows_length rows d : 0 <= rows -> zlen (top_rows rows d) = rows * 51.
Proof. intros. unfold top_rows, zlen, TERMINAL_WIDTH. rewrite length_fmap, length_seqZ. lia. Qed.

Lemma zlen_drop_row {A} (l : list A) : 51 <= zlen l -> zlen (drop (Z.to_nat TERMINAL_WIDTH) l) = zlen l - 51.
Proof. intros. unfold zlen, TERMINAL_WIDTH in *. rewrite length_drop. lia. Qed.

(** The trimming loop ends within its fuel, drops whole rows from the front, and
    keeps the number of the row after the last. *)
Lemma trim_history_ok fuel : forall h start, zlen h mod 51 = 0 -> 0 <= start -> start + zlen h / 51 <= u64_max ->
  zlen h <= 26112 + 51 * Z.of_nat fuel ->
  exists h' start', trim_history fuel h start = Some (h', start') /\ zlen h' mod 51 = 0 /\ zlen h' <= 26112 /\
    0 <= start' /\ start' + zlen h' / 51 = start + zlen h / 51 /\ h' `suffix_of` h.
Proof.
  induction fuel as [|fuel IH]; intros h start Hm Hs Hc Hf; simpl; change (TERMINAL_HISTORY_ROWS * TERMINAL_WIDTH) with 26112;
    destruct (Z.ltb_spec 26112 (zlen h)).
  - lia.
  - exists h, start. split_and!; done.
  - pose proof (zlen_drop_row h ltac:(lia)) as Hd. pose proof (Z.div_mod (zlen h) 51 ltac:(lia)) as Hdm.
    unfold checked_add. rewrite (proj2 (Z.leb_le _ _)) by lia. simpl.
    assert (Hdiv : zlen (drop (Z.to_nat TERMINAL_WIDTH) h) / 51 = zlen h / 51 - 1).
    { rewrite Hd. replace (zlen h - 51) with (zlen h + (-1) * 51) by lia. rewrite Z.div_add by lia. lia. }
    destruct (IH (drop (Z.to_nat TERMINAL_WIDTH) h) (start + 1)) as (h' & s' & Ht & Hm' & Hl' & Hs' & Hsum & Hsuf).
    { rewrite Hd. replace (zlen h - 51) with (zlen h + (-1) * 51) by lia. by rewrite Z.mod_add by lia. }
    { lia. } { lia. } { lia. }
    exists h', s'. split_and!; try done; [lia|]. etrans; [done|]. apply suffix_drop.
  - exists h, start. split_and!; done.
Qed.

(** Number of the row the terminal would scroll out next. *)
Definition counter (d : TerminalDevice) : Z := history_start d + zlen (history d) / 51.

Lemma append_history_ok d rows : dev_ok d -> 0 <= rows <= 19 -> counter d + rows <= u64_max ->
  exists h s, append_history (top_rows rows d) (history d) (history_start d) = Some (h, s) /\
    zlen h mod 51 = 0 /\ zlen h <= 26112 /\ 0 <= s /\ s + zlen h / 51 = counter d + rows /\
    h `suffix_of` history d ++ top_rows rows d.
Proof.
  intros [_ _ _ [Hm Hb] Hs] Hr Hc. unfold append_history, counter in *.
  assert (Hl : zlen (history d ++ top_rows rows d) = zlen (history d) + rows * 51).
  { unfold zlen at 1. rewrite length_app. pose proof (top_rows_length rows d ltac:(lia)). unfold zlen in *. lia. }
  assert (Hdiv : zlen (history d ++ top_rows rows d) / 51 = zlen (history d) / 51 + rows) by (rewrite Hl, Z.div_add by lia; lia).
  destruct (trim_history_ok (length (history d ++ top_rows rows d)) (history d ++ top_rows rows d) (history_start d))
    as (h & s & Ht & Hm' & Hb' & Hs' & Hsum & Hsuf); [rewrite Hl, Z.mod_add by lia; done|done|lia|unfold zlen in *; lia|].
  exists h, s. split_and!; try done. lia.
Qed.

End TerminalInv.

(** Every operation of src/terminal/state.rs keeps the device well formed and the
    pending changes in step with what it shows.  A cursor that moves inside an
    operation is logged at its end; until then the log tracks the shadow of the
    device, its view with the cursor logged last. *)

Module TerminalOps.
Import Cells Replication State TerminalInv.

Definition shadow (d : TerminalDevice) (p : TerminalPosition) (v : bool) : view :=
  mkView (logical_cells d) p v (history_start d) (history d).

(** Well formed, with the log leading from [V] to the shadow at [p], [v]. *)
Definition in_step (V : view) (p : TerminalPosition) (v : bool) (d : TerminalDevice) : Prop :=
  dev_ok d /\ tracks (replication d) V (shadow d p v).

Definition synced (V : view) (d : TerminalDevice) : Prop := in_step V (cursor d) (cursor_visible d) d.

(** What moving through an operation keeps besides. *)
Definition calm (n : Z) (d d' : TerminalDevice) : Prop :=
  counter d' <= counter d + n /\ cursor_visible d' = cursor_visible d.

Lemma calm_refl d : calm 0 d d.
Proof. split; [lia|done]. Qed.

Lemma calm_trans m n a b c : calm m a b -> calm n b c -> calm (m + n) a c.
Proof. intros [? E] [? E']. split; [lia|congruence]. Qed.

Lemma log_run c d : log_change c d = (Ok tt, set_replication (record c (replication d)) d).
Proof. done. Qed.

Lemma log_in_step V w p v c d : dev_ok d -> tracks (replication d) V w -> apply c w = Some (shadow d p v) ->
  in_step V p v (set_replication (record c (replication d)) d).
Proof.
  intros Hok Ht Ha. split; [destruct Hok; by split|]. exact (record_tracks c _ V _ _ Ht Ha).
Qed.

Lemma record_cursor_ok V p v d : in_step V p v d ->
  exists d', record_cursor d = (Ok tt, d') /\ synced V d' /\ calm 0 d d' /\ cursor d' = cursor d.
Proof.
  intros [Hok Ht]. eexists. split; [done|]. split; [|split; [split; [unfold counter; simpl; lia|done]|done]].
  unfold synced. by apply (log_in_step V (shadow d p v)).
Qed.

Lemma move_cursor_ok V p v d q : in_step V p v d -> 0 <= x q < 51 -> 0 <= y q < 19 ->
  in_step V p v (set_cursor_field q (cursor_visible d) d).
Proof. intros [[] Ht] Hx Hy. split; [by split|done]. Qed.

Lemma cursor_field_synced V d p v : in_step V (cursor d) (cursor_visible d) d -> 0 <= x p < 51 -> 0 <= y p < 19 ->
  exists d', record_cursor (set_cursor_field p v d) = (Ok tt, d') /\ synced V d' /\
    counter d' = counter d /\ cursor d' = p /\ cursor_visible d' = v.
Proof.
  intros [[] Ht] Hx Hy. eexists. split; [done|]. split; [|done]. unfold synced.
  apply (log_in_step V (shadow d (cursor d) (cursor_visible d)) p v (Cursor p v) (set_cursor_field p v d)); [by split|done|done].
Qed.

Lemma set_cursor_ok V d p : synced V d -> 0 <= x p < 51 -> 0 <= y p < 19 ->
  exists d', set_cursor p d = (Ok tt, d') /\ synced V d' /\ calm 0 d d' /\ cursor d' = p.
Proof.
  intros Hs Hx Hy. unfold set_cursor, mbind, ST_bind, st_get. destruct (bool_decide (cursor d = p)) eqn:E; [apply bool_decide_eq_true in E|clear E].
  - exists d. split; [done|]. split; [done|]. split; [apply calm_refl|done].
  - destruct (cursor_field_synced V d p (cursor_visible d) Hs Hx Hy) as (d' & Hrun & Hs' & Hc & Hp & Hv).
    exists d'. split; [exact Hrun|]. split; [done|]. split; [split; [lia|done]|done].
Qed.

Lemma set_cursor_visible_ok V d v : synced V d ->
  exists d', set_cursor_visible v d = (Ok tt, d') /\ synced V d' /\ counter d' = counter d /\ cursor d' = cursor d /\
    cursor_visible d' = v.
Proof.
  intros Hs. unfold set_cursor_visible, mbind, ST_bind, st_get. destruct (bool_decide (cursor_visible d = v)) eqn:E; [apply bool_decide_eq_true in E|clear E].
  - exists d. done.
  - pose proof (g_cursor _ (proj1 Hs)) as [Hx Hy].
    destruct (cursor_field_synced V d (cursor d) v Hs Hx Hy) as (d' & Hrun & Hs' & Hc & Hp & Hv). exists d'. done.
Qed.

(** ** Drawing *)

Lemma grid_counter d d' : grid_like d d' -> counter d' = counter d.
Proof. intros (Hh & Hs & _). unfold counter. by rewrite Hh, Hs. Qed.

Lemma grid_calm d d' : grid_like d d' -> calm 0 d d'.
Proof. intros Hg. split; [rewrite (grid_counter _ _ Hg); lia|apply Hg]. Qed.

Lemma splice_logical d d' i cs : 0 <= i -> i + zlen cs <= 969 ->
  (forall j, 0 <= j < 969 -> at_logical d' j = if (i <=? j) && (j <? i + zlen cs) then default cell_default (cs !! Z.to_nat (j - i)) else at_logical d j) ->
  logical_cells d' = splice i cs (logical_cells d).
Proof.
  intros Hi Hb Hat. pose proof (logical_length d) as Hl. assert (Hz : zlen (logical_cells d) = 969) by (unfold zlen; lia).
  apply logical_eq.
  { apply Nat2Z.inj. change (zlen (splice i cs (logical_cells d)) = Z.of_nat 969). rewrite zlen_splice; lia. }
  intros j Hj. rewrite Hat by done. destruct (Z.leb_spec i j), (Z.ltb_spec j (i + zlen cs)); cbn [andb].
  - replace (Z.to_nat j) with (Z.to_nat (i + (j - i))) by lia. rewrite splice_lookup_in by lia.
    destruct (cs !! Z.to_nat (j - i)) eqn:E; [done|]. apply lookup_ge_None in E. unfold zlen in *. lia.
  - rewrite splice_lookup_ne by (unfold zlen in *; lia). by apply logical_lookup.
  - rewrite splice_lookup_ne by (unfold zlen in *; lia). by apply logical_lookup.
  - rewrite splice_lookup_ne by (unfold zlen in *; lia). by apply logical_lookup.
Qed.

Lemma wrap16 i : 0 <= i < 969 -> wrap_unsigned 16 i = i.
Proof. intros. unfold wrap_unsigned. apply Z.mod_small. lia. Qed.

(** Cells written from logical index [i] on, then logged. *)
Lemma draw_ok V p v d i cs : in_step V p v d -> 0 <= i < 969 -> i + zlen cs <= 969 ->
  exists d1 d', patch_cells i cs d = (Ok tt, d1) /\
    log_change (Patch (wrap_unsigned 16 i) cs) d1 = (Ok tt, d') /\ in_step V p v d' /\ calm 0 d d' /\ cursor d' = cursor d /\
    logical_cells d1 = splice i cs (logical_cells d) /\ grid_like d d1 /\ logical_cells d' = logical_cells d1.
Proof.
  intros [Hok Ht] Hi Hb. destruct (patch_cells_ok cs d i (g_cells _ Hok) ltac:(lia) Hb) as (d1 & Hrun & Hg & Hl & Hh & Hat).
  pose proof (splice_logical d d1 i cs ltac:(lia) Hb Hat) as Hsp. exists d1. eexists. split; [done|]. split; [done|].
  assert (Hok1 : dev_ok d1) by (apply (grid_dev_ok d d1 Hok Hg Hl); rewrite Hh; apply Hok).
  split; [|split; [exact (grid_calm d d1 Hg)|split; [apply Hg|done]]]. destruct Hg as (Hh1 & Hs1 & Hc1 & Hv1 & _ & _ & _ & Hr1).
  apply (log_in_step V (shadow d p v)); [done|by rewrite Hr1|]. rewrite wrap16 by done. simpl.
  assert (Hz : zlen (logical_cells d) = 969) by (unfold zlen; rewrite logical_length; done).
  rewrite Hz, (proj2 (Z.leb_le 0 i)), (proj2 (Z.leb_le _ 969)) by lia. simpl. unfold set_cells, shadow. simpl.
  by rewrite Hsp, Hh1, Hs1.
Qed.

Lemma patch_ok V p v d start cs : in_step V p v d -> 0 <= x start < 51 -> 0 <= y start < 19 ->
  if logical_of start + zlen cs <=? 969
  then exists d', patch start cs d = (Ok tt, d') /\ in_step V p v d' /\ calm 0 d d' /\ cursor d' = cursor d /\
    logical_cells d' = splice (logical_of start) cs (logical_cells d)
  else patch start cs d = (Err PatchOutOfBounds, d).
Proof.
  intros Hs Hx Hy. destruct (position_logical start Hx Hy) as [_ Hl]. unfold patch, checked_add.
  change CELL_COUNT with 969. assert (Hz : 0 <= zlen cs) by (unfold zlen; lia).
  destruct (Z.leb_spec (logical_of start + zlen cs) 969) as [Hb|Hb].
  - rewrite (proj2 (Z.leb_le _ usize_max)), (proj2 (Z.ltb_ge _ _)) by (unfold usize_max; lia).
    destruct (draw_ok V p v d _ cs Hs Hl Hb) as (d1 & d' & Hrun & Hlog & Hs' & Hc & Hcur & Hsp & Hg & Heq).
    rewrite (st_bind_ok _ _ _ _ _ Hrun). destruct cs as [|c cs].
    + exists d1. split; [done|]. simpl in Hrun. injection Hrun as <-. split; [done|]. split; [apply calm_refl|]. done.
    + exists d'. split; [done|]. split; [done|]. split; [done|]. split; [done|]. by rewrite Heq.
  - destruct (_ <=? usize_max); [|done]. by rewrite (proj2 (Z.ltb_lt _ _)) by lia.
Qed.

Lemma paint_logical d d' (P : Z -> bool) c :
  (forall j, 0 <= j < 969 -> at_logical d' j = if P j then c else at_logical d j) ->
  logical_cells d' = paint P c (logical_cells d).
Proof.
  intros Hat. apply logical_eq; [unfold paint; rewrite length_imap; apply logical_length|]. intros i Hi.
  unfold paint. rewrite list_lookup_imap, logical_lookup, Hat by done. simpl. by rewrite Z2Nat.id by lia.
Qed.

Definition rect_ok (r : TerminalRectangle) : Prop :=
  0 <= rx r /\ 0 <= ry r /\ 0 < width r /\ 0 < height r /\ rx r + width r <= 51 /\ ry r + height r <= 19.

Lemma fill_ok V p v d r c : in_step V p v d -> rect_ok r ->
  exists d', fill r c d = (Ok tt, d') /\ in_step V p v d' /\ calm 0 d d' /\ cursor d' = cursor d.
Proof.
  intros [Hok Ht] (Hx & Hy & Hw & Hh & Hbx & Hby).
  destruct (fill_rows_ok (Z.to_nat (height r)) d r (ry r) c (g_cells _ Hok) Hx ltac:(lia) Hbx Hy ltac:(lia))
    as (d1 & Hrun & Hg & Hl & Hrh & Hat).
  unfold fill. rewrite (st_bind_ok _ _ _ _ _ Hrun), log_run. eexists. split; [done|].
  rewrite Z2Nat.id in Hat by lia. pose proof (paint_logical d d1 _ c Hat) as Hp.
  assert (Hok1 : dev_ok d1) by (apply (grid_dev_ok d d1 Hok Hg Hl); rewrite Hrh; apply Hok).
  split; [|split; [exact (grid_calm d d1 Hg)|apply Hg]]. destruct Hg as (Hh1 & Hs1 & _ & _ & _ & _ & _ & Hr1).
  apply (log_in_step V (shadow d p v)); [done|by rewrite Hr1|]. simpl. unfold set_cells, shadow. simpl. by rewrite Hp, Hh1, Hs1.
Qed.

(** ** Scrolling *)

(** Everything but the grid, the history and the log. *)
Definition still (d d' : TerminalDevice) : Prop :=
  cursor d' = cursor d /\ cursor_visible d' = cursor_visible d /\ fg d' = fg d /\ bg d' = bg d /\ input d' = input d.

Lemma scroll_with_ok V p v d rows c : in_step V p v d -> 0 <= rows <= 19 -> counter d + rows <= u64_max ->
  exists d', scroll_with rows c d = (Ok tt, d') /\ dev_ok d' /\ still d d' /\ counter d' = counter d + rows /\
    tracks (replication d') V (mkView (logical_cells d) p v (history_start d') (history d')) /\
    logical_cells d' = shift rows c (logical_cells d) /\
    append_history (top_rows rows d) (history d) (history_start d) = Some (history d', history_start d').
Proof.
  intros [Hok Ht] Hr Hc. destruct (append_history_ok d rows Hok Hr Hc) as (h & s & Ha & Hm & Hb & Hs & Hsum & _).
  assert (Hcd : 0 <= counter d).
  { unfold counter. pose proof (g_start _ Hok). pose proof (Z.div_pos (zlen (history d)) 51 ltac:(unfold zlen; lia) ltac:(lia)). lia. }
  set (d1 := set_history h s d).
  set (d2 := if rows =? 0 then d1 else set_replication (record (HistoryAppend (counter d) (top_rows rows d)) (replication d1)) d1).
  assert (Hd2 : cells d2 = cells d /\ row_head d2 = row_head d /\ history d2 = h /\ history_start d2 = s /\ still d d2)
    by (unfold d2; by destruct (rows =? 0)).
  destruct Hd2 as (Ec & Eh & Ehist & Estart & Estill).
  destruct (scroll_rows_ok (Z.to_nat rows) d2 c) as (d3 & Hrun & Hg & Hl & Hrh & Hat);
    [rewrite Ec; apply Hok|rewrite Eh; apply Hok|lia|]. rewrite Z2Nat.id in Hat by lia.
  destruct Hg as (G1 & G2 & G3 & G4 & G5 & G6 & G7 & G8). rewrite Ehist in G1. rewrite Estart in G2.
  assert (Ht2 : tracks (replication d2) V (mkView (logical_cells d) p v s h)).
  { unfold d2. destruct (Z.eqb_spec rows 0) as [->|Hne].
    - assert (E0 : append_history (top_rows 0 d) (history d) (history_start d) = Some (history d, history_start d)).
      { unfold append_history. change (top_rows 0 d) with (@nil TerminalCell). rewrite app_nil_r.
        assert (Hn : (TERMINAL_HISTORY_ROWS * TERMINAL_WIDTH <? zlen (history d)) = false)
          by (apply Z.ltb_ge; apply (g_hist _ Hok)).
        destruct (length (history d)); simpl; by rewrite Hn. }
      rewrite E0 in Ha. injection Ha as <- <-. exact Ht.
    - simpl. apply (record_tracks _ _ _ (shadow d p v)); [exact Ht|]. simpl. unfold counter. change TERMINAL_WIDTH with 51.
      rewrite Z.eqb_refl. by rewrite Ha. }
  exists d3. split; [|split_and!].
  - unfold scroll_with, mbind at 1, ST_bind at 1, st_get. change (history_start d + zlen (history d) / TERMINAL_WIDTH) with (counter d).
    rewrite (proj2 (Z.ltb_ge _ _)) by lia. unfold append_history in Ha. rewrite Ha. rewrite <- Hrun. unfold d2.
    by destruct (rows =? 0).
  - destruct Hok as [O1 O2 O3 O4 O5]. destruct Estill as (S1 & S2 & S3 & S4 & S5). split; [done|done| | |].
    + rewrite G3, S1. done.
    + by rewrite G1.
    + by rewrite G2.
  - destruct Estill as (S1 & S2 & S3 & S4 & S5). unfold still. rewrite G3, G4, G5, G6, G7. done.
  - unfold counter at 1. rewrite G1, G2. done.
  - rewrite G8, G1, G2. exact Ht2.
  - rewrite (shift_logical d2 d3 rows c Hr Hat). f_equal. unfold logical_cells. unfold physical_index. by rewrite Ec, Eh.
  - rewrite G1, G2. exact Ha.
Qed.

Lemma scroll_log_ok V p v d d' rows c : dev_ok d' -> 0 <= rows <= 19 ->
  tracks (replication d') V (mkView (logical_cells d) p v (history_start d') (history d')) ->
  logical_cells d' = shift rows c (logical_cells d) ->
  in_step V p v (set_replication (record (Scroll rows c) (replication d')) d').
Proof.
  intros Hok Hr Ht Hs. apply (log_in_step V _ p v) with (2 := Ht); [done|]. simpl. unfold TERMINAL_HEIGHT.
  rewrite (proj2 (Z.leb_le 0 rows)), (proj2 (Z.leb_le rows 19)) by lia. simpl. unfold set_cells, shadow. simpl. by rewrite Hs.
Qed.

Lemma shift_zero c l : shift 0 c l = l.
Proof. unfold shift. cbn. apply app_nil_r. Qed.

Lemma scroll_ok V d rows : synced V d -> 0 <= rows -> counter d + 19 <= u64_max ->
  if rows <=? 19 then exists d', scroll rows d = (Ok tt, d') /\ synced V d' /\ still d d' /\ counter d' <= counter d + 19 /\
    logical_cells d' = shift rows cell_default (logical_cells d) /\
    append_history (top_rows rows d) (history d) (history_start d) = Some (history d', history_start d')
  else scroll rows d = (Err ScrollOutOfBounds, d).
Proof.
  intros Hs Hr Hc. unfold scroll. change TERMINAL_HEIGHT with 19. destruct (Z.leb_spec rows 19) as [Hle|Hgt].
  - rewrite (proj2 (Z.ltb_ge _ _)) by lia.
    destruct (scroll_with_ok V _ _ d rows cell_default Hs ltac:(lia) ltac:(lia)) as (d1 & Hrun & Hok & Hst & Hcn & Ht & Hl & Ha).
    rewrite (st_bind_ok _ _ _ _ _ Hrun). destruct (Z.eqb_spec rows 0) as [->|Hne].
    + exists d1. split; [done|]. split; [|split_and!; try done; lia]. unfold synced. split; [done|].
      destruct Hst as (-> & -> & _). unfold shadow. by rewrite Hl, shift_zero.
    + rewrite log_run. eexists. split; [done|]. split; [|split_and!; try done; unfold counter in *; simpl; lia].
      unfold synced. simpl. destruct Hst as (-> & -> & _). by apply (scroll_log_ok V _ _ d).
  - by rewrite (proj2 (Z.ltb_lt _ _)) by lia.
Qed.

(** ** Writing *)

Lemma newline_ok V p v d : in_step V p v d -> counter d + 1 <= u64_max ->
  exists d', newline d = (Ok tt, d') /\ in_step V p v d' /\ calm 1 d d'.
Proof.
  intros Hs Hc. pose proof (g_cursor _ (proj1 Hs)) as [Hx Hy]. unfold newline. unfold mbind at 1, ST_bind at 1, st_modify at 1.
  set (d0 := set_cursor_field (mkPos 0 (y (cursor d))) (cursor_visible d) d).
  assert (Hs0 : in_step V p v d0) by (apply move_cursor_ok; [done|simpl; lia|done]).
  unfold mbind at 1, ST_bind at 1, st_get. change TERMINAL_HEIGHT with 19. simpl (y (cursor d0)).
  destruct (Z.ltb_spec (y (cursor d) + 1) 19).
  - eexists. split; [done|]. split; [|split; [unfold counter; simpl; lia|done]].
    apply (move_cursor_ok V p v d0 (mkPos 0 (y (cursor d) + 1)) Hs0); simpl; lia.
  - destruct (scroll_with_ok V p v d0 1 (blank (fg d0) (bg d0)) Hs0 ltac:(lia) ltac:(done)) as (d1 & Hrun & Hok & Hst & Hcn & Ht & Hl & _).
    rewrite (st_bind_ok _ _ _ _ _ Hrun), log_run. eexists. split; [done|]. split; [by apply (scroll_log_ok V p v d0 d1 1)|].
    split; [unfold counter in *; simpl in *; lia|]. exact (proj1 (proj2 Hst)).
Qed.

Lemma write_scalar_ok V p v d s : in_step V p v d -> counter d + 1 <= u64_max ->
  exists d', write_scalar s d = (Ok tt, d') /\ in_step V p v d' /\ calm 1 d d'.
Proof.
  intros Hs Hc. pose proof (g_cursor _ (proj1 Hs)) as [Hx Hy]. destruct (position_logical (cursor d) Hx Hy) as [Hp Hl].
  set (c := mkCell s (fg d) (bg d)).
  destruct (draw_ok V p v d (logical_of (cursor d)) [c] Hs Hl ltac:(unfold zlen; simpl; lia))
    as (d1 & d2 & Hrun & Hlog & Hs2 & Hc2 & Hcur & _).
  assert (Hput : put_cell (cursor d) c d = (Ok tt, d1)).
  { simpl in Hrun. rewrite Hp in Hrun. unfold mbind, ST_bind in Hrun.
    destruct (put_cell (cursor d) c d) as [[[]| |] dd] eqn:E; [|done|done]. by injection Hrun as ->. }
  unfold write_scalar. unfold mbind at 1, ST_bind at 1, st_get. fold c. rewrite (st_bind_ok _ _ _ _ _ Hput), (st_bind_ok _ _ _ _ _ Hlog).
  destruct (Z.ltb_spec (x (cursor d) + 1) TERMINAL_WIDTH) as [Hlt|Hge].
  - eexists. split; [done|]. unfold TERMINAL_WIDTH in Hlt. split.
    + rewrite Hcur. apply (move_cursor_ok V p v d2); [done|simpl; lia|done].
    + destruct Hc2 as [? ?]. split; [unfold counter in *; simpl; lia|done].
  - destruct (newline_ok V p v d2 Hs2) as (d3 & Hn & Hs3 & Hc3); [destruct Hc2; lia|]. exists d3.
    split; [done|]. split; [done|]. by apply (calm_trans 0 1 d d2).
Qed.

Lemma write_decoded_ok V p v d s : in_step V p v d -> counter d + 1 <= u64_max ->
  exists d', write_decoded s d = (Ok tt, d') /\ in_step V p v d' /\ calm 1 d d'.
Proof.
  intros Hs Hc. unfold write_decoded. destruct (s =? 10); [by apply newline_ok|]. destruct (s =? 13); [|by apply write_scalar_ok].
  pose proof (g_cursor _ (proj1 Hs)) as [Hx Hy]. eexists. split; [done|]. split; [apply move_cursor_ok; simpl; [done|lia|done]|].
  split; [unfold counter; simpl; lia|done].
Qed.

Lemma write_loop_ok V p v ss : forall d, in_step V p v d -> counter d + zlen ss <= u64_max ->
  exists d', write_loop ss d = (Ok tt, d') /\ in_step V p v d' /\ calm (zlen ss) d d'.
Proof.
  induction ss as [|s ss IH]; intros d Hs Hc; simpl; [exists d; split; [done|]; split; [done|apply calm_refl]|].
  unfold zlen in Hc. simpl in Hc. destruct (write_decoded_ok V p v d (default REPLACEMENT s) Hs ltac:(lia)) as (d1 & Hrun & Hs1 & Hc1).
  destruct (IH d1 Hs1) as (d2 & Hrun2 & Hs2 & Hc2); [destruct Hc1; unfold zlen; lia|].
  exists d2. rewrite (st_bind_ok _ _ _ _ _ Hrun), Hrun2. split; [done|]. split; [done|].
  replace (zlen (s :: ss)) with (1 + zlen ss) by (unfold zlen; simpl; lia). by eapply calm_trans.
Qed.

Lemma write_utf16_ok V d units : synced V d -> counter d + zlen (decode_utf16 units) <= u64_max ->
  exists d', write_utf16 units d = (Ok tt, d') /\ synced V d'.
Proof.
  intros Hs Hc. destruct (write_loop_ok V _ _ _ d Hs Hc) as (d1 & Hrun & Hs1 & Hv). unfold write_utf16.
  unfold mbind at 1, ST_bind at 1, st_get. rewrite (st_bind_ok _ _ _ _ _ Hrun). unfold mbind, ST_bind, st_get.
  destruct (bool_decide (cursor d1 = cursor d)) eqn:E; [apply bool_decide_eq_true in E|clear E].
  - exists d1. split; [done|]. unfold synced. destruct Hv as [_ ->]. by rewrite E.
  - destruct (record_cursor_ok V _ _ d1 Hs1) as (d2 & Hr & Hs2 & _). exists d2. done.
Qed.

Lemma erase_at_ok V d p : synced V d -> 0 <= x p < 51 -> 0 <= y p < 19 ->
  exists d', erase_at p d = (Ok tt, d') /\ synced V d'.
Proof.
  intros Hs Hx Hy. destruct (position_logical p Hx Hy) as [Hp Hl]. unfold erase_at.
  unfold mbind at 1, ST_bind at 1, st_modify at 1. set (d0 := set_cursor_field p (cursor_visible d) d).
  assert (Hs0 : in_step V (cursor d) (cursor_visible d) d0) by (by apply move_cursor_ok).
  unfold mbind at 1, ST_bind at 1, st_get. set (c := blank (fg d0) (bg d0)).
  destruct (draw_ok V _ _ d0 (logical_of p) [c] Hs0 Hl ltac:(unfold zlen; simpl; lia)) as (d1 & d2 & Hrun & Hlog & Hs2 & _).
  assert (Hput : put_cell p c d0 = (Ok tt, d1)).
  { simpl in Hrun. rewrite Hp in Hrun. unfold mbind, ST_bind in Hrun.
    destruct (put_cell p c d0) as [[[]| |] dd] eqn:E; [|done|done]. by injection Hrun as ->. }
  rewrite (st_bind_ok _ _ _ _ _ Hput), (st_bind_ok _ _ _ _ _ Hlog).
  destruct (record_cursor_ok V _ _ d2 Hs2) as (d3 & Hr & Hs3 & _). exists d3. done.
Qed.

Lemma erase_previous_ok V d : synced V d -> exists d', erase_previous d = (Ok tt, d') /\ synced V d'.
Proof.
  intros Hs. pose proof (g_cursor _ (proj1 Hs)) as [Hx Hy]. unfold erase_previous, mbind at 1, ST_bind at 1, st_get.
  destruct (Z.ltb_spec 0 (x (cursor d))); [apply (erase_at_ok V d); [done|simpl; lia|done]|].
  destruct (Z.ltb_spec 0 (y (cursor d))); [apply (erase_at_ok V d); unfold TERMINAL_WIDTH; simpl; [done|lia|lia]|]. by exists d.
Qed.

Lemma clear_ok V d : synced V d -> exists d', clear d = (Ok tt, d') /\ synced V d'.
Proof.
  intros [Hok Ht]. eexists. split; [done|]. pose proof (g_cells _ Hok) as Hl. split.
  - destruct Hok as [O1 O2 O3 O4 O5]. split; simpl; try done; try lia. unfold zlen in *. by rewrite length_replicate.
  - simpl. apply (reset_tracks _ _ _) in Ht. unfold reset_view in Ht. simpl in Ht. unfold shadow.
    assert (Hg : logical_cells (mkTerminal (replicate (length (cells d)) cell_default) 0 (history d) (history_start d) (mkPos 0 0)
      true DEFAULT_FOREGROUND DEFAULT_BACKGROUND (input d) (record_reset (replication d))) = replicate (Z.to_nat CELL_COUNT) cell_default).
    { apply logical_eq; [apply length_replicate|]. intros i Hi. change (Z.to_nat CELL_COUNT) with 969%nat.
      rewrite lookup_replicate_2 by lia. unfold at_logical. cbn [cells row_head]. pose proof (phys_bound 0 i).
      unfold zget. rewrite lookup_replicate_2 by (unfold zlen in Hl; lia). done. }
    rewrite Hg. exact Ht.
Qed.

Lemma resume_ok V d : synced V d -> counter d + 1 <= u64_max ->
  exists d', resume_console_output d = (Ok tt, d') /\ synced V d'.
Proof.
  intros Hs Hc. unfold resume_console_output, mbind at 1, ST_bind at 1, st_get. set (lr := last_content_row d _).
  assert (Hlr : forall n row, (n <= 19)%nat -> last_content_row d n = Some row -> 0 <= row < 19).
  { clear. induction n as [|n IH]; intros row Hn E; simpl in E; [done|]. destruct (row_has_content _ _); [injection E as <-; lia|].
    apply IH; [lia|done]. }
  unfold mbind at 1, ST_bind at 1, st_modify. set (d0 := set_color_fields _ _ d).
  assert (Hs0 : synced V d0) by (destruct Hs as [[] ?]; split; [by split|done]).
  destruct (set_cursor_visible_ok V d0 true Hs0) as (d1 & Hrun1 & Hs1 & Hc1 & Hcur1 & _).
  rewrite (st_bind_ok _ _ _ _ _ Hrun1). unfold mbind at 1, ST_bind at 1, st_get. pose proof (g_cursor _ (proj1 Hs1)) as [_ Hy1].
  assert (Hcol : exists d', set_cursor (mkPos 0 (y (cursor d1))) d1 = (Ok tt, d') /\ synced V d').
  { destruct (set_cursor_ok V d1 (mkPos 0 (y (cursor d1))) Hs1) as (d2 & Hr & Hs2 & _); simpl; [lia|done|]. by exists d2. }
  destruct lr as [row|] eqn:El; [|done]. destruct (y (cursor d1) <=? row); [|done].
  assert (Hrow : 0 <= row < 19) by (eapply Hlr; [|exact El]; unfold TERMINAL_HEIGHT; lia).
  destruct (set_cursor_ok V d1 (mkPos 0 row) Hs1) as (d2 & Hrun2 & Hs2 & Hc2 & _); [simpl; lia|done|].
  rewrite (st_bind_ok _ _ _ _ _ Hrun2). destruct (newline_ok V _ _ d2 Hs2) as (d3 & Hrun3 & Hs3 & _).
  { destruct Hc2. unfold counter in *. simpl in *. lia. }
  rewrite (st_bind_ok _ _ _ _ _ Hrun3). destruct (record_cursor_ok V _ _ d3 Hs3) as (d4 & Hrun4 & Hs4 & _). exists d4. done.
Qed.

End TerminalOps.

Module TerminalProps.
Import Cells Replication State TerminalInv TerminalOps.

(** ** What operations leave alone *)

Definition keeps {E A} (I : TerminalDevice -> Prop) (m : ST TerminalDevice E A) : Prop :=
  forall d, I d -> I (m d).2.

Section Keeps.
Context {E : Type} (I : TerminalDevice -> Prop).

Lemma keeps_ret {A} (a : A) : keeps (E := E) I (mret a).
Proof. by intros d Hd. Qed.
Lemma keeps_get : keeps (E := E) I st_get.
Proof. by intros d Hd. Qed.
Lemma keeps_err {A} (e : E) : keeps (A := A) I (st_err e).
Proof. by intros d Hd. Qed.
Lemma keeps_panic {A} : keeps (E := E) (A := A) I st_panic.
Proof. by intros d Hd. Qed.
Lemma keeps_lift {A} (o : outcome E A) : keeps I (st_lift o).
Proof. by intros d Hd. Qed.
Lemma keeps_modify (f : TerminalDevice -> TerminalDevice) : (forall d, I d -> I (f d)) -> keeps (E := E) I (st_modify f).
Proof. intros H d Hd. by apply H. Qed.

Lemma keeps_bind {A B} (m : ST TerminalDevice E A) (f : A -> ST TerminalDevice E B) :
  keeps I m -> (forall a, keeps I (f a)) -> keeps I (m ≫= f).
Proof.
  intros Hm Hf d Hd. specialize (Hm d Hd). unfold mbind, ST_bind. destruct (m d) as [[a| |] s]; simpl in *; try done.
  by apply Hf.
Qed.

Lemma keeps_if {A} (b : bool) (m n : ST TerminalDevice E A) : keeps I m -> keeps I n -> keeps I (if b then m else n).
Proof. by destruct b. Qed.

End Keeps.

(** The committed part of the log, the bound on the pending part, the input. *)
Definition frame (r : ReplicationState) (q : Input.TerminalInputQueue) (d : TerminalDevice) : Prop :=
  revision (replication d) = revision r /\ journal_capacity (replication d) = journal_capacity r /\
  journal (replication d) = journal r /\ zlen (pending (replication d)) <= MAXIMUM_PENDING_CHANGES /\ input d = q.

Create HintDb term discriminated.

Ltac keeps_step :=
  first [ assumption | apply keeps_ret | apply keeps_get | apply keeps_err | apply keeps_panic | apply keeps_lift
        | progress (eauto with term nocore) | apply keeps_if | (apply keeps_bind; [|intros ?])
        | (apply keeps_modify; intros ? H; exact H) ].
Ltac keeps_tac := repeat keeps_step.

Lemma record_frame c r : revision (record c r) = revision r /\ journal_capacity (record c r) = journal_capacity r /\
  journal (record c r) = journal r /\ (zlen (pending r) <= MAXIMUM_PENDING_CHANGES -> zlen (pending (record c r)) <= MAXIMUM_PENDING_CHANGES).
Proof.
  unfold record. destruct (requires_full_replacement r); [done|]. destruct (join_patch c (pending r)) as [p|] eqn:Ej; simpl.
  - split_and!; try done. intros Hp. destruct c as [s cs| | | | | |]; try done. simpl in Ej.
    destruct (last (pending r)) as [[ps pc| | | | | |]|] eqn:El; try done. destruct (_ =? _); [|done]. injection Ej as <-.
    apply last_Some in El as [p0 El]. rewrite El in *. rewrite removelast_last. unfold zlen in *. rewrite length_app in *.
    done.
  - destruct (Z.ltb_spec MAXIMUM_PENDING_CHANGES (zlen (pending r ++ [c]))); simpl; split_and!; done.
Qed.

Section Frame.
Context (r : ReplicationState) (q : Input.TerminalInputQueue).
Abbreviation kept m := (keeps (frame r q) m).

Lemma keeps_log c : kept (log_change c).
Proof.
  intros d (H1 & H2 & H3 & H4 & H5). destruct (record_frame c (replication d)) as (E1 & E2 & E3 & E4).
  unfold frame. simpl. split_and!; try congruence. by apply E4.
Qed.

Lemma keeps_put p c : kept (put_cell p c).
Proof. intros d Hd. unfold put_cell. by destruct (zget _ _). Qed.

#[local] Hint Resolve keeps_log keeps_put : term.

Lemma keeps_record_cursor : kept record_cursor.
Proof. unfold record_cursor. keeps_tac. Qed.
#[local] Hint Resolve keeps_record_cursor : term.

Lemma keeps_set_cursor p : kept (set_cursor p).
Proof. unfold set_cursor. keeps_tac. Qed.
Lemma keeps_set_visible v : kept (set_cursor_visible v).
Proof. unfold set_cursor_visible. keeps_tac. Qed.
Lemma keeps_set_colors f b : kept (set_colors f b).
Proof. unfold set_colors. keeps_tac. Qed.

Lemma keeps_patch_cells cs : forall i, kept (patch_cells i cs).
Proof. induction cs as [|c cs IH]; intros i; simpl; keeps_tac. Qed.
#[local] Hint Resolve keeps_set_cursor keeps_set_visible keeps_set_colors keeps_patch_cells : term.

Lemma keeps_patch p cs : kept (patch p cs).
Proof. unfold patch. keeps_tac. destruct cs; keeps_tac. Qed.
#[local] Hint Resolve keeps_patch : term.

Lemma keeps_write_at p us : kept (write_at p us).
Proof. unfold write_at. keeps_tac. Qed.

Lemma keeps_fill_row n : forall px py c, kept (fill_row n px py c).
Proof. induction n as [|n IH]; intros px py c; simpl; keeps_tac. Qed.
#[local] Hint Resolve keeps_fill_row : term.
Lemma keeps_fill_rows n : forall t py c, kept (fill_rows n t py c).
Proof. induction n as [|n IH]; intros t py c; simpl; keeps_tac. Qed.
#[local] Hint Resolve keeps_fill_rows : term.
Lemma keeps_fill t c : kept (fill t c).
Proof. unfold fill. keeps_tac. Qed.
#[local] Hint Resolve keeps_fill : term.
Lemma keeps_fill_current t cp : kept (fill_with_current_colors t cp).
Proof. unfold fill_with_current_colors. keeps_tac. Qed.

Lemma keeps_scroll_rows n : forall c, kept (scroll_rows n c).
Proof.
  induction n as [|n IH]; intros c; [apply keeps_ret|]. intros d Hd. cbn [scroll_rows]. unfold mbind, ST_bind, st_get, st_put.
  destruct (zlen (cells d) <? _); [done|]. apply IH. exact Hd.
Qed.
#[local] Hint Resolve keeps_scroll_rows : term.
Lemma keeps_scroll_with n c : kept (scroll_with n c).
Proof. unfold scroll_with. keeps_tac. destruct (trim_history _ _ _) as [[h s]|]; keeps_tac. Qed.
#[local] Hint Resolve keeps_scroll_with : term.
Lemma keeps_scroll n : kept (scroll n).
Proof. unfold scroll. keeps_tac. Qed.
Lemma keeps_newline : kept newline.
Proof. unfold newline. keeps_tac. Qed.
#[local] Hint Resolve keeps_newline : term.
Lemma keeps_write_scalar s : kept (write_scalar s).
Proof. unfold write_scalar. keeps_tac. Qed.
#[local] Hint Resolve keeps_write_scalar : term.
Lemma keeps_write_decoded s : kept (write_decoded s).
Proof. unfold write_decoded. keeps_tac. Qed.
#[local] Hint Resolve keeps_write_decoded : term.
Lemma keeps_write_loop ss : kept (write_loop ss).
Proof. induction ss as [|s ss IH]; simpl; keeps_tac. Qed.
#[local] Hint Resolve keeps_write_loop : term.
Lemma keeps_write us : kept (write_utf16 us).
Proof. unfold write_utf16. keeps_tac. Qed.
Lemma keeps_erase_at p : kept (erase_at p).
Proof. unfold erase_at. keeps_tac. Qed.
#[local] Hint Resolve keeps_erase_at : term.
Lemma keeps_erase : kept erase_previous.
Proof. unfold erase_previous. keeps_tac. Qed.

Lemma record_reset_frame l : revision (record_reset l) = revision l /\ journal_capacity (record_reset l) = journal_capacity l /\
  journal (record_reset l) = journal l /\ (zlen (pending l) <= MAXIMUM_PENDING_CHANGES -> zlen (pending (record_reset l)) <= MAXIMUM_PENDING_CHANGES).
Proof.
  unfold record_reset. set (p := filter _ (pending l)).
  destruct (record_frame Reset (set_pending p (requires_full_replacement l) l)) as (E1 & E2 & E3 & E4).
  split_and!; [done|done|done|]. intros Hl. apply E4. simpl. unfold p, zlen in *.
  pose proof (length_filter (fun c => is_history c = true) (pending l)). lia.
Qed.

Lemma keeps_clear : kept clear.
Proof.
  intros d (H1 & H2 & H3 & H4 & H5). destruct (record_reset_frame (replication d)) as (E1 & E2 & E3 & E4).
  unfold frame. simpl. split_and!; try congruence. by apply E4.
Qed.

Lemma keeps_resume : kept resume_console_output.
Proof. unfold resume_console_output. keeps_tac. destruct (last_content_row _ _); keeps_tac. Qed.

End Frame.

(** ** Sessions *)

(** A call of the device by its host, with the coordinates it passes. *)
Inductive op :=
| OSetCursor (px py : Z)
| OSetVisible (v : bool)
| OSetColors (f b : Z)
| OPatch (px py : Z) (cs : list TerminalCell)
| OWriteAt (px py : Z) (units : list Z)
| OFill (px py w h : Z) (c : TerminalCell)
| OFillCurrent (px py w h cp : Z)
| OScroll (rows : Z)
| OWrite (units : list Z)
| OErase
| OClear
| OResume.

Definition run_op (o : op) : TermM unit :=
  match o with
  | OSetCursor px py => p ← st_lift (position_new px py); set_cursor p
  | OSetVisible v => set_cursor_visible v
  | OSetColors f b => set_colors f b
  | OPatch px py cs => p ← st_lift (position_new px py); patch p cs
  | OWriteAt px py us => p ← st_lift (position_new px py); write_at p us
  | OFill px py w h c => t ← st_lift (rectangle_new px py w h); fill t c
  | OFillCurrent px py w h cp => t ← st_lift (rectangle_new px py w h); fill_with_current_colors t cp
  | OScroll rows => scroll rows
  | OWrite us => write_utf16 us
  | OErase => erase_previous
  | OClear => clear
  | OResume => resume_console_output
  end.

(** The arguments are unsigned. *)
Definition unsigned_args (o : op) : Prop :=
  match o with
  | OSetCursor px py | OPatch px py _ | OWriteAt px py _ => 0 <= px /\ 0 <= py
  | OFill px py w h _ | OFillCurrent px py w h _ => 0 <= px /\ 0 <= py /\ 0 <= w /\ 0 <= h
  | OScroll rows => 0 <= rows
  | _ => True
  end.

(** Rows an operation may scroll out. *)
Definition cost (o : op) : Z :=
  match o with
  | OScroll _ => TERMINAL_HEIGHT
  | OWrite us => zlen (decode_utf16 us)
  | OResume => 1
  | _ => 0
  end.

Definition enabled (o : op) (d : TerminalDevice) : Prop := unsigned_args o /\ counter d + cost o <= u64_max.

#[local] Hint Resolve keeps_set_cursor keeps_set_visible keeps_set_colors keeps_patch keeps_write_at keeps_fill
  keeps_fill_current keeps_scroll keeps_write keeps_erase keeps_clear keeps_resume : term.

Lemma keeps_op r q o : keeps (frame r q) (run_op o).
Proof.
  destruct o; cbn [run_op]; first [solve [eauto with term] | (apply keeps_bind; [apply keeps_lift|intros ?; eauto with term])].
Qed.

Lemma position_new_ok px py p : position_new px py = Ok p -> 0 <= px -> 0 <= py ->
  p = mkPos px py /\ 0 <= px < 51 /\ 0 <= py < 19.
Proof.
  unfold position_new, TERMINAL_WIDTH, TERMINAL_HEIGHT. intros H Hx Hy. destruct (_ || _) eqn:E; [done|]. injection H as <-. bsimp. done.
Qed.

Lemma rectangle_new_ok px py w h t : rectangle_new px py w h = Ok t -> 0 <= px -> 0 <= py -> 0 <= w -> 0 <= h -> rect_ok t.
Proof.
  unfold rectangle_new, past, checked_add, TERMINAL_WIDTH, TERMINAL_HEIGHT. intros H Hx Hy Hw Hh.
  destruct (_ || _) eqn:E in H; [done|]. injection H as <-. bsimp. unfold rect_ok. simpl.
  destruct (px + w <=? u16_max); [|done]. destruct (py + h <=? u16_max); [|done]. bsimp. lia.
Qed.

(** Safe: it ends in [Ok] with the log in step, or in an error that changed nothing. *)
Definition safe (V : view) (d : TerminalDevice) (res : outcome TerminalError unit * TerminalDevice) : Prop :=
  (exists d', res = (Ok tt, d') /\ synced V d') \/ (exists e, res = (Err e, d)).

Lemma safe_lift {A} V d (o : outcome TerminalError A) (f : A -> TermM unit) :
  o <> Panic -> (forall a, o = Ok a -> safe V d (f a d)) -> safe V d ((a ← st_lift o; f a) d).
Proof. intros Hp Hf. unfold mbind, ST_bind, st_lift. destruct o as [a|e|]; [by apply Hf|right; by exists e|done]. Qed.

Lemma safe_ok V d res : (exists d', res = (Ok tt, d') /\ synced V d') -> safe V d res.
Proof. by left. Qed.

Lemma position_no_panic px py : position_new px py <> Panic.
Proof. unfold position_new. by destruct (_ || _). Qed.
Lemma rectangle_no_panic px py w h : rectangle_new px py w h <> Panic.
Proof. unfold rectangle_new. by destruct (_ || _). Qed.
Lemma palette_no_panic i : validate_palette i <> Panic.
Proof. unfold validate_palette. by destruct (_ <=? _). Qed.
Lemma cell_no_panic cp f b : cell_new cp f b <> Panic.
Proof.
  unfold cell_new, validate_palette. destruct (negb _); [done|]. by destruct (_ <=? f); simpl; [|destruct (_ <=? b)].
Qed.

Lemma patch_safe V d px py cs : synced V d -> 0 <= px < 51 -> 0 <= py < 19 -> safe V d (patch (mkPos px py) cs d).
Proof.
  intros Hs Hx Hy. pose proof (patch_ok V _ _ d (mkPos px py) cs Hs Hx Hy) as H. destruct (_ <=? 969).
  - left. destruct H as (d' & Hr & Hs' & [_ Hv] & Hc & _). exists d'. split; [done|]. unfold synced. by rewrite Hv, Hc.
  - right. by exists PatchOutOfBounds.
Qed.

Lemma fill_safe V d t c : synced V d -> rect_ok t -> safe V d (fill t c d).
Proof.
  intros Hs Ht. left. destruct (fill_ok V _ _ d t c Hs Ht) as (d' & Hr & Hs' & [_ Hv] & Hc). exists d'. split; [done|].
  unfold synced. by rewrite Hv, Hc.
Qed.

Lemma op_safe V d o : synced V d -> enabled o d -> safe V d (run_op o d).
Proof.
  intros Hs [Hu Hc]. destruct o as [px py|v|f b|px py cs|px py us|px py w h c|px py w h cp|rows|us| | |]; cbn [run_op unsigned_args cost] in *.
  - apply safe_lift; [apply position_no_panic|]. intros p Hp. apply position_new_ok in Hp as (-> & Hx & Hy); [|lia|lia].
    destruct (set_cursor_ok V d (mkPos px py) Hs Hx Hy) as (d' & Hr & Hs' & _). apply safe_ok. by exists d'.
  - destruct (set_cursor_visible_ok V d v Hs) as (d' & Hr & Hs' & _). apply safe_ok. by exists d'.
  - apply safe_lift; [apply palette_no_panic|]. intros _ _. apply safe_lift; [apply palette_no_panic|]. intros _ _.
    apply safe_ok. eexists. split; [done|]. destruct Hs as [[] Ht]. split; [by split|done].
  - apply safe_lift; [apply position_no_panic|]. intros p Hp. apply position_new_ok in Hp as (-> & Hx & Hy); [|lia|lia]. by apply patch_safe.
  - apply safe_lift; [apply position_no_panic|]. intros p Hp. apply position_new_ok in Hp as (-> & Hx & Hy); [|lia|lia].
    unfold write_at. unfold TERMINAL_WIDTH at 1. simpl (x _). rewrite (proj2 (Z.ltb_ge _ _)) by lia. by apply (patch_safe V d px py).
  - apply safe_lift; [apply rectangle_no_panic|]. intros t Ht. apply rectangle_new_ok in Ht; [|lia..]. by apply fill_safe.
  - apply safe_lift; [apply rectangle_no_panic|]. intros t Ht. apply rectangle_new_ok in Ht; [|lia..].
    unfold fill_with_current_colors. unfold mbind at 1, ST_bind at 1, st_get. apply safe_lift; [apply cell_no_panic|]. intros c _. by apply fill_safe.
  - pose proof (scroll_ok V d rows Hs Hu Hc) as H. destruct (rows <=? 19).
    + destruct H as (d' & Hr & Hs' & _). apply safe_ok. by exists d'.
    + right. by exists ScrollOutOfBounds.
  - apply safe_ok. by apply write_utf16_ok.
  - apply safe_ok. by apply erase_previous_ok.
  - apply safe_ok. by apply clear_ok.
  - apply safe_ok. by apply resume_ok.
Qed.

Inductive input_call := IKey (e : Input.TerminalKeyEvent) | IText (t : list Z) | IPoll.

Definition run_input (i : input_call) (d : TerminalDevice) : TerminalDevice :=
  match i with
  | IKey e => (push_key e d).2
  | IText t => (push_text t d).2
  | IPoll => (poll_input d).2
  end.

(** The views published so far, by revision. *)
Definition publish (c : TerminalCommit) (G : list view) (d : TerminalDevice) : list view :=
  match c with CommitUnchanged _ => G | Committed _ => G ++ [view_of d] end.

Inductive session (c : TerminalConfig) : TerminalDevice -> list view -> Prop :=
| session_new d : with_config c = Ok d -> session c d [view_of d]
| session_op d G o : session c d G -> enabled o d -> session c (run_op o d).2 G
| session_input d G i : session c d G -> session c (run_input i d) G
| session_commit d G r d' : session c d G -> commit d = (Ok r, d') -> session c d' (publish r G d').

(** A journal leading from the view at revision [b] to the one at [e]. *)
Fixpoint chain (G : list view) (b : Z) (j : list TerminalDelta) (e : Z) : Prop :=
  match j with
  | [] => b = e
  | t :: j =>
      base_revision t = b /\ target_revision t = b + 1 /\
      (exists u w, G !! Z.to_nat b = Some u /\ G !! Z.to_nat (b + 1) = Some w /\ apply_all (changes t) u = Some w) /\
      chain G (b + 1) j e
  end.

Lemma journal_le G j : forall b e, chain G b j e -> b <= e.
Proof. induction j as [|t j IH]; intros b e; simpl; [lia|]. intros (_ & _ & _ & H). apply IH in H. lia. Qed.

Lemma journal_grow G v j : forall b e, chain G b j e -> chain (G ++ [v]) b j e.
Proof.
  induction j as [|t j IH]; intros b e; simpl; [done|]. intros (H1 & H2 & (u & w & Hu & Hw & Ha) & H).
  split_and!; [done|done| |by apply IH]. exists u, w. split_and!; [by apply lookup_app_l_Some|by apply lookup_app_l_Some|done].
Qed.

Lemma journal_snoc G t j u w : forall b e, 0 <= b -> chain G b j e -> base_revision t = e -> target_revision t = e + 1 ->
  G !! Z.to_nat e = Some u -> G !! Z.to_nat (e + 1) = Some w -> apply_all (changes t) u = Some w -> chain G b (j ++ [t]) (e + 1).
Proof.
  induction j as [|t' j IH]; intros b e Hb; simpl.
  - intros <- H1 H2 Hu Hw Ha. split_and!; try done. by exists u, w.
  - intros (H1 & H2 & H3 & H) ? ? ? ? ?. split_and!; try done. apply IH; try done. lia.
Qed.

Lemma journal_drop G n : forall j b e, 0 <= b -> chain G b j e -> exists b', 0 <= b' /\ chain G b' (drop n j) e.
Proof.
  induction n as [|n IH]; intros j b e Hb H; [exists b; done|]. destruct j as [|t j]; [exists b; done|].
  destruct H as (_ & _ & _ & H). apply (IH j (b + 1) e); [lia|done].
Qed.

(** The walk through the journal composes the deltas after [expected]. *)
Lemma delta_loop_ok G base u0 e : forall j b expected acc n t v, 0 <= b -> 0 <= expected -> chain G b j e ->
  apply_all acc u0 = Some v -> G !! Z.to_nat expected = Some v -> delta_loop e base expected acc n j = Some t ->
  base_revision t = base /\ target_revision t = e /\ exists w, G !! Z.to_nat e = Some w /\ apply_all (changes t) u0 = Some w.
Proof.
  induction j as [|s j IH]; intros b expected acc n t v Hb He Hc Ha Hv Hl; simpl in Hl; [done|].
  destruct Hc as (Hb1 & Ht1 & (u & w & Hu & Hw & Hs) & Hc). destruct (Z.leb_spec (target_revision s) expected).
  - apply (IH (b + 1) expected acc n t v); try done. lia.
  - destruct (Z.eqb_spec (base_revision s) expected) as [E|]; simpl in Hl; [|done]. destruct (_ <? _) in Hl; [done|].
    destruct (_ <? _) in Hl; [done|]. assert (Huv : u = v) by congruence. subst v.
    assert (Hacc : apply_all (acc ++ changes s) u0 = Some w) by (rewrite apply_all_app, Ha; done).
    destruct (Z.eqb_spec (target_revision s) e) as [Et|].
    + injection Hl as <-. split_and!; try done. exists w. simpl. split; [|done]. by rewrite <- Et, Ht1.
    + eapply (IH (b + 1)); [lia| |done|exact Hacc| |exact Hl]; [lia|]. by rewrite Ht1.
Qed.

Record session_inv (c : TerminalConfig) (d : TerminalDevice) (G : list view) : Prop := {
  si_sync : exists V, last G = Some V /\ synced V d;
  si_revision : zlen G = revision (replication d) + 1;
  si_chain : exists b, 0 <= b /\ chain G b (journal (replication d)) (revision (replication d));
  si_pending : zlen (pending (replication d)) <= MAXIMUM_PENDING_CHANGES;
  si_capacity : journal_capacity (replication d) = journal_revisions c;
  si_journal : 0 <= journal_revisions c -> zlen (journal (replication d)) <= journal_revisions c;
  si_input : Input.limits (input d) = config_input c;
  si_events : 0 <= Input.maximum_events (config_input c) -> zlen (Input.events (input d)) <= Input.maximum_events (config_input c) }.

Lemma full_replacement d V :
  apply_all [Reset; Patch 0 (logical_cells d); HistoryReplace (history_start d) (history d); Cursor (cursor d) (cursor_visible d)] V =
  Some (view_of d).
Proof.
  cbn [apply_all apply mbind option_bind v_cells].
  assert (Hl : zlen (logical_cells d) = zlen (replicate (Z.to_nat CELL_COUNT) cell_default))
    by (unfold zlen; by rewrite logical_length, length_replicate).
  rewrite Hl. change (0 <=? 0) with true. rewrite (proj2 (Z.leb_le _ _)) by lia. cbn [andb mbind option_bind set_cells v_cells v_cursor v_visible v_start v_hist].
  unfold view_of, splice. cbn [Z.to_nat take app Nat.add]. rewrite drop_ge by (unfold zlen in Hl; lia). by rewrite app_nil_r.
Qed.

Lemma commit_step V d r d' : synced V d -> commit d = (Ok r, d') ->
  (r = CommitUnchanged (revision (replication d)) /\ d' = d /\ V = view_of d) \/
  (exists t, r = Committed t /\ base_revision t = revision (replication d) /\ target_revision t = revision (replication d) + 1 /\
    apply_all (changes t) V = Some (view_of d) /\
    d' = set_replication (mkReplication (revision (replication d) + 1) (journal_capacity (replication d)) []
           (trim_journal (journal_capacity (replication d))
              (if MAXIMUM_ACCUMULATED_CELLS <? cell_total (changes t) then [] else journal (replication d) ++ [t])) false) d).
Proof.
  intros [_ Ht] Hc. unfold tracks in Ht. unfold commit, replication_commit, push_delta, checked_add in Hc.
  destruct (requires_full_replacement (replication d)) eqn:Ef.
  - cbn [mbind option_bind] in Hc. destruct (_ <=? u64_max) in Hc; [|done]. cbn [option_bind] in Hc. injection Hc as <- <-.
    right. eexists. split; [done|]. cbn [base_revision target_revision changes]. split_and!; [done|done|apply full_replacement|done].
  - destruct (pending (replication d)) as [|ch p] eqn:Ep.
    + injection Hc as <- <-. left. split; [done|]. split; [by destruct d|]. simpl in Ht. by injection Ht.
    + destruct (_ <=? u64_max) in Hc; [|done]. injection Hc as <- <-. right. eexists. split; [done|]. cbn [base_revision target_revision changes].
      split_and!; done.
Qed.

Lemma commit_succeeds d : revision (replication d) < u64_max -> exists r d', commit d = (Ok r, d').
Proof.
  intros Hr. unfold commit, replication_commit, push_delta, checked_add. rewrite (proj2 (Z.leb_le _ _)) by lia.
  destruct (requires_full_replacement (replication d)); [|destruct (pending (replication d))]; cbn [mbind option_bind]; by eexists _, _.
Qed.

Lemma clean_synced d r : dev_ok d -> pending r = [] -> requires_full_replacement r = false -> synced (view_of d) (set_replication r d).
Proof.
  intros [] Hp Hf. split; [by split|]. unfold tracks. simpl. by rewrite Hp, Hf.
Qed.

Lemma trim_journal_length n j : 0 <= n -> zlen (trim_journal n j) <= n.
Proof. intros Hn. unfold trim_journal, zlen. rewrite length_drop. lia. Qed.

Lemma commit_inv c d G r d' : session_inv c d G -> commit d = (Ok r, d') -> session_inv c d' (publish r G d').
Proof.
  intros [(V & HV & Hs) Hrev (b & Hb & Hch) Hp Hcap Hj Hi He] Hc. pose proof (g_cells _ (proj1 Hs)) as _.
  destruct (commit_step V d r d' Hs Hc) as [(-> & -> & _)|(t & -> & Hbase & Htarget & Ha & ->)]; [split; try done; eauto|].
  set (rev := revision (replication d)) in *. cbn [publish].
  assert (Hnew : (G ++ [view_of d]) !! Z.to_nat (rev + 1) = Some (view_of d)).
  { replace (Z.to_nat (rev + 1)) with (length G) by (unfold zlen in Hrev; lia). by apply list_lookup_middle. }
  assert (Hold : (G ++ [view_of d]) !! Z.to_nat rev = Some V).
  { apply lookup_app_l_Some. rewrite last_lookup in HV. replace (Z.to_nat rev) with (pred (length G)) by (unfold zlen in Hrev; lia). done. }
  split; cbn [replication set_replication revision journal pending journal_capacity input]; try done.
  - exists (view_of d). split; [by rewrite last_snoc|]. by apply clean_synced; [apply Hs|..].
  - unfold zlen in *. rewrite length_app. simpl. lia.
  - assert (Hall : exists b', 0 <= b' /\ chain (G ++ [view_of d]) b'
      (if MAXIMUM_ACCUMULATED_CELLS <? cell_total (changes t) then [] else journal (replication d) ++ [t]) (rev + 1)).
    { destruct (_ <? _); [exists (rev + 1); split; [apply journal_le in Hch; lia|done]|]. exists b. split; [done|].
      eapply journal_snoc; try done. by apply journal_grow. }
    destruct Hall as (b' & Hb' & Hall). by apply (journal_drop _ _ _ b').
  - rewrite Hcap. intros Hn. by apply trim_journal_length.
Qed.

Lemma op_inv c d G o : session_inv c d G -> enabled o d -> session_inv c (run_op o d).2 G.
Proof.
  intros [(V & HV & Hs) Hrev Hch Hp Hcap Hj Hi He] Ho.
  destruct (keeps_op (replication d) (input d) o d) as (E1 & E2 & E3 & E4 & E5); [done|].
  split; rewrite ?E1, ?E2, ?E3, ?E5; try done. exists V. split; [done|].
  destruct (op_safe V d o Hs Ho) as [(d' & -> & Hs')|(e & ->)]; done.
Qed.

Lemma set_input_inv c d G q : session_inv c d G -> Input.limits q = config_input c ->
  (0 <= Input.maximum_events (config_input c) -> zlen (Input.events q) <= Input.maximum_events (config_input c)) ->
  session_inv c (set_input q d) G.
Proof.
  intros [(V & HV & Hs) Hrev Hch Hp Hcap Hj Hi He] Hl Hb. split; try done. exists V. split; [done|].
  destruct Hs as [[] Ht]. split; [by split|done].
Qed.

Lemma input_inv c d G i : session_inv c d G -> session_inv c (run_input i d) G.
Proof.
  intros H. pose proof (si_input _ _ _ H) as Hi. pose proof (si_events _ _ _ H) as He. destruct i as [e|t|]; simpl.
  - unfold push_key, Input.queue_push_key, Input.ensure_capacity, mbind, ST_bind, st_read, st_modify. rewrite Hi.
    destruct (Z.leb_spec (Input.maximum_events (config_input c)) (zlen (Input.events (input d)))); simpl; apply set_input_inv; try done.
    intros _. unfold zlen in *. simpl. rewrite length_app. simpl. lia.
  - unfold push_text, Input.queue_push_text, Input.ensure_capacity, mbind, ST_bind, st_get, st_read, st_modify. rewrite Hi.
    destruct (_ <? _); simpl; [by apply set_input_inv|]. rewrite Hi.
    destruct (Z.leb_spec (Input.maximum_events (config_input c)) (zlen (Input.events (input d)))); simpl; apply set_input_inv; try done.
    intros _. unfold zlen in *. simpl. rewrite length_app. simpl. lia.
  - unfold poll_input, Input.queue_poll. destruct (Input.events (input d)) as [|e es] eqn:E; simpl; apply set_input_inv; try done.
    + by rewrite E.
    + intros Hn. specialize (He Hn). unfold zlen in *. simpl in *. lia.
Qed.

Lemma new_inv c d : with_config c = Ok d -> session_inv c d [view_of d].
Proof.
  unfold with_config. destruct (_ =? 0); [done|]. intros [= <-].
  split; simpl; try done; [|by exists 0]. eexists. split; [done|]. split; [|done]. by split; simpl.
Qed.

Lemma session_ok c d G : session c d G -> session_inv c d G.
Proof.
  induction 1; [by apply new_inv|by apply op_inv|by apply input_inv|by eapply commit_inv].
Qed.

Lemma commit_publishes c d G r d' : session_inv c d G -> commit d = (Ok r, d') -> last (publish r G d') = Some (view_of d').
Proof.
  intros [(V & HV & Hs) _ _ _ _ _ _ _] Hc.
  destruct (commit_step V d r d' Hs Hc) as [(-> & -> & ->)|(t & -> & _ & _ & _ & ->)]; simpl; [done|]. by rewrite last_snoc.
Qed.

(** What an update of a replica that shows [u] at revision [base] must do, if [V]
    was published last. *)
Definition brings (base : Z) (u V : view) (d : TerminalDevice) (up : TerminalUpdate) : Prop :=
  match up with
  | Unchanged n => n = revision (replication d) /\ u = V
  | Delta t => base_revision t = base /\ target_revision t = revision (replication d) /\ apply_all (changes t) u = Some V
  | Full s => s_revision s = revision (replication d) /\ snapshot_view s = view_of d
  end.

Lemma session_brings c d G base u V : session_inv c d G -> 0 <= base -> G !! Z.to_nat base = Some u -> last G = Some V ->
  brings base u V d (changes_since base d).
Proof.
  intros [_ Hrev (b & Hb0 & Hch) _ _ _ _ _] Hb Hu Hlast. rewrite last_lookup in Hlast.
  assert (Hnow : G !! Z.to_nat (revision (replication d)) = Some V).
  { replace (Z.to_nat (revision (replication d))) with (pred (length G)) by (unfold zlen in Hrev; lia). done. }
  unfold changes_since, delta_since. destruct (Z.eqb_spec base (revision (replication d))) as [->|Hne]; simpl; [split; congruence|].
  destruct (_ <? base); simpl; [done|]. destruct (delta_loop _ _ _ _ _ _) as [t|] eqn:El; simpl; [|done].
  destruct (delta_loop_ok G base u _ _ b base [] 0 t u Hb0 Hb Hch eq_refl Hu El) as (H1 & H2 & w & Hw & Ha).
  split_and!; [done|done|congruence].
Qed.

(** C28. The replication protocol is correct.  After any history of drawing, input
    and commits, let a replica show what was published at revision [base].  The
    answer of [changes_since base] brings it to what the last commit published, as
    long as it is "unchanged" or a delta, composed of those since; a full snapshot
    shows the present screen, under the number of the last commit.  The two are the same when
    nothing was drawn since.  So right after a commit every answer, of whichever
    kind, brings the replica to what the terminal shows. *)
Theorem replication_correct c d G base u :
  session c d G -> 0 <= base ->
  exists V, last G = Some V /\
    (pending (replication d) = [] -> requires_full_replacement (replication d) = false -> V = view_of d) /\
    (G !! Z.to_nat base = Some u -> brings base u V d (changes_since base d)) /\
    (forall r d', commit d = (Ok r, d') -> publish r G d' !! Z.to_nat base = Some u ->
       brings base u (view_of d') d' (changes_since base d')).
Proof.
  intros Hses Hb. apply session_ok in Hses. pose proof Hses as [(V & HV & [_ Ht]) _ _ _ _ _ _ _]. exists V. split_and!; [done| | |].
  - intros Hp Hf. unfold tracks in Ht. rewrite Hp, Hf in Ht. simpl in Ht. by injection Ht.
  - intros Hu. by eapply session_brings.
  - intros r d' Hc Hu. eapply session_brings; [by eapply commit_inv|done|done|by eapply commit_publishes].
Qed.

(** [commit] publishes exactly what was drawn: unless the revision counter is
    exhausted it succeeds, its delta is numbered after the last revision and leads
    from the last published view to the present one, which the commit itself does
    not alter. *)
Theorem terminal_commit_correct c d G :
  session c d G -> revision (replication d) < u64_max ->
  exists V r d', last G = Some V /\ commit d = (Ok r, d') /\ view_of d' = view_of d /\ pending (replication d') = [] /\
    match r with
    | CommitUnchanged n => n = revision (replication d) /\ V = view_of d /\ d' = d
    | Committed t =>
        base_revision t = revision (replication d) /\ target_revision t = revision (replication d) + 1 /\
        revision (replication d') = target_revision t /\ apply_all (changes t) V = Some (view_of d)
    end.
Proof.
  intros Hses Hr. apply session_ok in Hses as [(V & HV & Hs) _ _ _ _ _ _ _]. destruct (commit_succeeds d Hr) as (r & d' & Hc).
  exists V, r, d'. split; [done|]. split; [done|].
  destruct (commit_step V d r d' Hs Hc) as [(-> & -> & ->)|(t & -> & Hb & Ht & Ha & ->)].
  - split_and!; try done. clear -Hc. unfold commit, replication_commit, push_delta in Hc.
    destruct (requires_full_replacement _); [by destruct (checked_add _ _ _)|]. destruct (pending (replication d)); [done|].
    by destruct (checked_add _ _ _).
  - simpl. split_and!; done.
Qed.

(** No call of the terminal panics while its row counter lasts; a refused
    call leaves the device as it was, and every call leaves a well-formed grid and
    cursor, at most 512 rows of history, at most 256 pending changes and a journal
    within its capacity. *)
Theorem terminal_ops_safe c d G o res d' :
  session c d G -> enabled o d -> run_op o d = (res, d') ->
  res <> Panic /\ (forall e, res = Err e -> d' = d) /\ dev_ok d' /\
  zlen (history d') <= TERMINAL_HISTORY_ROWS * TERMINAL_WIDTH /\
  zlen (pending (replication d')) <= MAXIMUM_PENDING_CHANGES /\
  (0 <= journal_revisions c -> zlen (journal (replication d')) <= journal_revisions c).
Proof.
  intros Hses Ho Hrun. apply session_ok in Hses. pose proof (op_inv c d G o Hses Ho) as Hinv. rewrite Hrun in Hinv. simpl in Hinv.
  destruct Hses as [(V & HV & Hs) _ _ _ _ _ _ _]. destruct (op_safe V d o Hs Ho) as [(d1 & Hr & Hs1)|(e & Hr)];
    rewrite Hr in Hrun; injection Hrun as <- <-; destruct Hinv as [(V' & _ & [Hok _]) _ _ Hp _ Hj _ _];
    split_and!; try done; apply (g_hist _ Hok).
Qed.

(** Scrolling moves the grid up by [rows] rows, fills the freed rows with
    default cells and appends the rows that left to the history, of which at most
    the last 512 rows are kept under consecutive row numbers; more rows than the
    screen has are refused without effect. *)
Theorem scroll_correct c d G rows :
  session c d G -> 0 <= rows -> counter d + TERMINAL_HEIGHT <= u64_max ->
  if rows <=? TERMINAL_HEIGHT then
    exists d', scroll rows d = (Ok tt, d') /\
      logical_cells d' = drop (Z.to_nat (rows * TERMINAL_WIDTH)) (logical_cells d) ++
                         replicate (Z.to_nat (rows * TERMINAL_WIDTH)) cell_default /\
      history d' `suffix_of` history d ++ take (Z.to_nat (rows * TERMINAL_WIDTH)) (logical_cells d) /\
      zlen (history d') <= TERMINAL_HISTORY_ROWS * TERMINAL_WIDTH /\ counter d' = counter d + rows
  else scroll rows d = (Err ScrollOutOfBounds, d).
Proof.
  intros Hses Hr Hc. apply session_ok in Hses as [(V & HV & Hs) _ _ _ _ _ _ _].
  pose proof (scroll_ok V d rows Hs Hr Hc) as H. change TERMINAL_HEIGHT with 19 in *. destruct (Z.leb_spec rows 19); [|done].
  destruct H as (d' & Hrun & _ & _ & _ & Hl & Ha).
  destruct (append_history_ok d rows (proj1 Hs) ltac:(lia) ltac:(lia)) as (h & st & Ha' & _ & Hb & _ & Hsum & Hsuf).
  rewrite Ha in Ha'. injection Ha' as <- <-. rewrite top_rows_take in Hsuf by lia.
  exists d'. split_and!; try done.
Qed.

(** ** Witnesses *)

Definition device0 : TerminalDevice :=
  match with_config config_default with
  | Ok d => d
  | _ => mkTerminal [] 0 [] 0 (mkPos 0 0) true 0 0 (Input.queue_new Input.limits_default) (replication_new 1)
  end.
Definition device1 : TerminalDevice := (run_op (OWrite [65; 10]) device0).2.
Definition commit1 : TerminalCommit := match commit device1 with (Ok c, _) => c | _ => CommitUnchanged 0 end.

Lemma session0 : session config_default device0 [view_of device0].
Proof. apply session_new. reflexivity. Qed.
Lemma session1 : session config_default device1 [view_of device0].
Proof.
  apply (session_op config_default device0 [view_of device0] (OWrite [65; 10]) session0). split; [exact I|]. vm_compute. discriminate.
Qed.

Lemma replication_correct_witness : brings 0 (view_of device0) (view_of device0) device1 (changes_since 0 device1) /\
  brings 0 (view_of device0) (view_of (commit device1).2) (commit device1).2 (changes_since 0 (commit device1).2).
Proof.
  destruct (replication_correct config_default device1 [view_of device0] 0 (view_of device0) session1 ltac:(lia)) as (V & HV & _ & H1 & H2).
  injection HV as <-. split; [exact (H1 eq_refl)|]. apply (H2 commit1); vm_compute; reflexivity.
Defined.

Lemma terminal_commit_correct_witness : exists V r d', last [view_of device0] = Some V /\ commit device1 = (Ok r, d') /\ view_of d' = view_of device1.
Proof.
  destruct (terminal_commit_correct config_default device1 [view_of device0] session1) as (V & r & d' & H1 & H2 & H3 & _);
    [vm_compute; reflexivity|]. exists V, r, d'. exact (conj H1 (conj H2 H3)).
Defined.

Lemma terminal_ops_safe_witness : dev_ok (run_op (OFill 1 1 3 2 cell_default) device1).2.
Proof.
  apply (terminal_ops_safe config_default device1 [view_of device0] (OFill 1 1 3 2 cell_default) (Ok tt)
           (run_op (OFill 1 1 3 2 cell_default) device1).2); [apply session1| |].
  - split; [simpl; lia|]. vm_compute. discriminate.
  - vm_compute. reflexivity.
Defined.

Lemma scroll_correct_witness : exists d', scroll 2 device1 = (Ok tt, d') /\ counter d' = 2.
Proof.
  destruct (scroll_correct config_default device1 [view_of device0] 2 session1 ltac:(lia)) as (d' & H1 & _ & _ & _ & H2);
    [vm_compute; discriminate|]. exists d'. split; [exact H1|]. rewrite H2. vm_compute. reflexivity.
Defined.

End TerminalProps.
