(* ===== verification/Stdio.v ===== *)
(** src/stdio.rs: the standard streams of a computer, that is the line discipline
    between the terminal and the guest, and the loop of src/computer.rs that feeds
    it with the events of the terminal. *)

From S2P Require Import Prelude Words Unicode Channel Terminal.

Module Stdio.
Import Cells State.

Record InputOwner := mkOwner { frame : Z; task : Channel.TaskId }.
#[global] Instance InputOwner_eq : EqDecision InputOwner.
Proof. solve_decision. Defined.

Inductive InputOwnershipError := RawBusy | CanonicalBusy | WrongOwner.

Inductive CanonicalLineSubmissionError :=
| NoPendingRead | InputBusy | PartialInput | UnsupportedCodeUnit | SubmittedTooLong | SubmissionTerminal | Resume.

Inductive StandardStreamError :=
| InvalidLimits | LineTooLong | LineReady | OutputTooLarge | NoCanonicalRead | StreamTerminal.

Inductive InputMode := Raw | Canonical.
#[global] Instance InputMode_eq : EqDecision InputMode.
Proof. solve_decision. Defined.

Record CanonicalInput := mkInput { editing : list Z; ready : option (list Z) }.

Definition input_clear : CanonicalInput := mkInput [] None.

Record StandardStreams := mkStreams {
  input : CanonicalInput;
  owner : option (InputMode * InputOwner);
  maximum_line_code_units : Z;
  maximum_output_code_units : Z }.

Definition streams_new (line output : Z) : outcome StandardStreamError StandardStreams :=
  if (line =? 0) || (output =? 0) then Err InvalidLimits else Ok (mkStreams input_clear None line output).

Definition set_owner (o : option (InputMode * InputOwner)) (s : StandardStreams) : StandardStreams :=
  mkStreams (input s) o (maximum_line_code_units s) (maximum_output_code_units s).
Definition set_input (i : CanonicalInput) (s : StandardStreams) : StandardStreams :=
  mkStreams i (owner s) (maximum_line_code_units s) (maximum_output_code_units s).

Definition is_canonical_text_unit (unit : Z) : bool := (32 <=? unit) && negb (unit =? 127).

(** ** Ownership *)

Abbreviation OwnM := (ST StandardStreams InputOwnershipError).

Definition acquire (mode : InputMode) (o : InputOwner) : OwnM unit :=
  s ← st_get;
  if bool_decide (owner s = Some (mode, o)) then mret tt
  else
    match owner s with
    | Some (Raw, _) => st_err RawBusy
    | Some (Canonical, _) => st_err CanonicalBusy
    | None => st_modify (set_owner (Some (mode, o)))
    end.

Definition begin_read (o : InputOwner) : OwnM unit := acquire Canonical o.
Definition begin_raw_wait (o : InputOwner) : OwnM unit := acquire Raw o.

Definition ensure_raw_owner (o : InputOwner) (s : StandardStreams) : outcome InputOwnershipError unit :=
  if bool_decide (owner s = Some (Raw, o)) then Ok tt else Err WrongOwner.

Definition finish_raw (o : InputOwner) : OwnM unit :=
  _ ← st_read (ensure_raw_owner o);
  st_modify (set_owner None).

Definition cancel (o : InputOwner) (s : StandardStreams) : StandardStreams :=
  match owner s with
  | Some (_, current) => if bool_decide (current = o) then set_input input_clear (set_owner None s) else s
  | None => s
  end.

Definition cancel_frame (f : Z) (s : StandardStreams) : StandardStreams :=
  match owner s with
  | Some (_, current) => if frame current =? f then set_input input_clear (set_owner None s) else s
  | None => s
  end.

Definition require_canonical (s : StandardStreams) : outcome StandardStreamError unit :=
  match owner s with Some (Canonical, _) => Ok tt | _ => Err NoCanonicalRead end.

(** ** Over the terminal *)

Abbreviation io := (StandardStreams * TerminalDevice)%type.
Abbreviation IoM := (ST io StandardStreamError).

(** A call on the terminal, its errors mapped to [e]. *)
Definition on_terminal {E A} (e : E) (m : TermM A) : ST io E A := fun '(s, d) =>
  let '(r, d') := m d in
  (match r with Ok a => Ok a | Err _ => Err e | Panic => Panic end, (s, d')).
Definition on_streams {E} (f : StandardStreams -> StandardStreams) : ST io E unit := st_modify (fun '(s, d) => (f s, d)).
Definition streams {E} : ST io E StandardStreams := fun st => (Ok st.1, st).

Definition newline_unit : list Z := [10].

Definition submit_complete_line (o : InputOwner) (units : list Z) : ST io CanonicalLineSubmissionError (list Z) :=
  s ← streams;
  if bool_decide (owner s <> Some (Canonical, o)) then st_err InputBusy
  else if negb (bool_decide (editing (input s) = [])) || bool_decide (is_Some (ready (input s))) then st_err PartialInput
  else if negb (forallb is_canonical_text_unit units) then st_err UnsupportedCodeUnit
  else if maximum_line_code_units s <? zlen units then st_err SubmittedTooLong
  else
    _ ← on_terminal SubmissionTerminal (write_utf16 units);
    _ ← on_terminal SubmissionTerminal (write_utf16 newline_unit);
    _ ← on_streams (set_owner None);
    mret units.

Definition accept_text (units : list Z) : IoM unit :=
  s ← streams;
  _ ← st_lift (require_canonical s);
  if bool_decide (is_Some (ready (input s))) then st_err LineReady
  else
    let units := if forallb is_canonical_text_unit units then units
                 else filter (fun u => is_canonical_text_unit u = true) units in
    if match checked_add usize_max (zlen (editing (input s))) (zlen units) with
       | Some length => maximum_line_code_units s <? length
       | None => true
       end
    then st_err LineTooLong
    else
      _ ← on_terminal StreamTerminal (write_utf16 units);
      on_streams (fun s => set_input (mkInput (editing (input s) ++ units) (ready (input s))) s).

(** [Vec::pop] of the last unit, and of the high half before a low one. *)
Definition pop_character (units : list Z) : option (list Z) :=
  match last units with
  | None => None
  | Some unit =>
      let rest := removelast units in
      Some (if is_low_surrogate unit && match last rest with Some previous => is_high_surrogate previous | None => false end
            then removelast rest else rest)
  end.

Definition accept_key (key : Input.TerminalKey) : IoM unit :=
  s ← streams;
  _ ← st_lift (require_canonical s);
  if bool_decide (is_Some (ready (input s))) then st_err LineReady
  else
    match key with
    | Input.Backspace =>
        match pop_character (editing (input s)) with
        | None => mret tt
        | Some rest =>
            _ ← on_streams (fun s => set_input (mkInput rest (ready (input s))) s);
            on_terminal StreamTerminal erase_previous
        end
    | Input.Enter =>
        _ ← on_terminal StreamTerminal (write_utf16 newline_unit);
        on_streams (fun s => set_input (mkInput [] (Some (editing (input s)))) s)
    | _ => mret tt
    end.

Definition take_line (o : InputOwner) (s : StandardStreams) : option (list Z) * StandardStreams :=
  if bool_decide (owner s <> Some (Canonical, o)) then (None, s)
  else
    match ready (input s) with
    | None => (None, s)
    | Some line => (Some line, set_owner None (set_input (mkInput (editing (input s)) None) s))
    end.

Definition write_endpoint (maximum : Z) (units : list Z) : IoM unit :=
  if maximum <? zlen units then st_err OutputTooLarge else on_terminal StreamTerminal (write_utf16 units).

Definition write_stdout (units : list Z) : IoM unit := s ← streams; write_endpoint (maximum_output_code_units s) units.
Definition write_stderr (units : list Z) : IoM unit := s ← streams; write_endpoint (maximum_output_code_units s) units.

(** ** The read in progress

    [Computer::advance_pending_stdio]: feeds the queued events to the reader until
    its line is complete.  What the session is resumed with, and the outcome of
    the call, are the result. *)

Inductive stdio_answer := Line (line : list Z) | Failed (error : StandardStreamError) | Waiting.

Definition accept_event (e : Input.TerminalInputEvent) : IoM unit :=
  match e with
  | Input.Text text => accept_text (concat (encode_utf16 <$> utf8_chars text))
  | Input.Key event => accept_key (Input.key event)
  end.

(** The [while let] loop; each iteration takes an event from the queue, whose
    length is the fuel. *)
Fixpoint advance_loop (fuel : nat) (o : InputOwner) (st : io) : option (stdio_answer * io) :=
  match poll_input st.2 with
  | (None, d) => Some (Waiting, (st.1, d))
  | (Some event, d) =>
      match fuel with
      | O => None
      | S fuel =>
          let after st :=
            match take_line o st.1 with
            | (Some line, s) => Some (Line line, (s, st.2))
            | (None, s) => advance_loop fuel o (s, st.2)
            end in
          match accept_event event (st.1, d) with
          | (Ok _, st) => after st
          | (Err LineTooLong, st) => advance_loop fuel o st
          | (Err error, (s, d)) => Some (Failed error, (cancel o s, d))
          | (Panic, _) => None
          end
      end
  end.

Definition advance_pending_stdio (o : InputOwner) (st : io) : option (stdio_answer * io) :=
  advance_loop (length (Input.events (State.input st.2))) o st.

End Stdio.
