(* ===== verification/StdioProps.v ===== *)
(** The line discipline of src/stdio.rs against a reference line editor over
    characters: the units edited are the UTF-16 form of the edited line, the line
    delivered is the line of the reference, and the end of the line that fits on
    the screen is what the terminal shows before the cursor. *)

From S2P Require Import Prelude Words Unicode Terminal TerminalProps Stdio.

Module StdioProps.
Import Cells State TerminalInv TerminalOps Stdio.

(** ** Characters and units *)

Definition units (line : list Z) : list Z := concat (encode_utf16 <$> line).
Definition printable (c : Z) : Prop := is_scalar c = true /\ is_canonical_text_unit c = true.

Lemma units_app a b : units (a ++ b) = units a ++ units b.
Proof. unfold units. by rewrite fmap_app, concat_app. Qed.

Lemma units_snoc line c : units (line ++ [c]) = units line ++ encode_utf16 c.
Proof. rewrite units_app. unfold units at 2. cbn. by rewrite app_nil_r. Qed.

(** The two shapes of an encoded scalar. *)
Lemma encode_utf16_shape c : is_scalar c = true ->
  (encode_utf16 c = [c] /\ is_low_surrogate c = false) \/
  (exists h l, encode_utf16 c = [h; l] /\ is_high_surrogate h = true /\ is_low_surrogate l = true /\ 65536 <= c).
Proof.
  intros Hc. apply is_scalar_true in Hc. unfold encode_utf16. destruct (Z.ltb_spec c 65536).
  - left. split; [done|]. apply in_range_false. lia.
  - right. pose proof (Z.div_mod (c - 65536) 1024 ltac:(lia)). pose proof (Z.mod_pos_bound (c - 65536) 1024 ltac:(lia)).
    eexists _, _. split_and!; [done|apply in_range_true; lia|apply in_range_true; lia|lia].
Qed.

Lemma pop_character_snoc line c : is_scalar c = true -> pop_character (units (line ++ [c])) = Some (units line).
Proof.
  intros Hc. rewrite units_snoc. unfold pop_character. destruct (encode_utf16_shape c Hc) as [[-> Hl]|(h & l & -> & Hh & Hl & _)].
  - by rewrite last_snoc, removelast_last, Hl.
  - replace (units line ++ [h; l]) with ((units line ++ [h]) ++ [l]) by (by rewrite <- app_assoc).
    by rewrite last_snoc, removelast_last, last_snoc, Hl, Hh, removelast_last.
Qed.

Lemma canonical_filter us : (if forallb is_canonical_text_unit us then us
  else filter (fun u => is_canonical_text_unit u = true) us) = filter (fun u => is_canonical_text_unit u = true) us.
Proof.
  destruct (forallb _ us) eqn:E; [|done]. symmetry. induction us as [|u us IH]; [done|]. simpl in E. apply andb_true_iff in E as [Hu E].
  rewrite filter_cons_True by done. f_equal. by apply IH.
Qed.

Lemma filter_units cs : Forall (fun c => is_scalar c = true) cs ->
  filter (fun u => is_canonical_text_unit u = true) (units cs) = units (filter (fun c => is_canonical_text_unit c = true) cs).
Proof.
  induction 1 as [|c cs Hc _ IH]; [done|]. change (units (c :: cs)) with (encode_utf16 c ++ units cs). rewrite filter_app, IH.
  destruct (encode_utf16_shape c Hc) as [[E Hl]|(h & l & E & Hh & Hl & Hbig)].
  - rewrite E. destruct (is_canonical_text_unit c) eqn:Ec.
    + rewrite !filter_cons_True, filter_nil by done. unfold units at 2. cbn [fmap list_fmap concat]. by rewrite E.
    + rewrite !filter_cons_False, filter_nil by (by rewrite Ec). done.
  - apply in_range_true in Hh, Hl.
    assert (Hbigc : forall u, 128 <= u -> is_canonical_text_unit u = true).
    { intros u Hu. unfold is_canonical_text_unit. apply andb_true_iff. split; [by apply Z.leb_le; lia|]. apply negb_true_iff, Z.eqb_neq. lia. }
    rewrite (filter_cons_True _ c) by (apply Hbigc; lia). rewrite E, !filter_cons_True, filter_nil by (apply Hbigc; lia).
    unfold units at 2. cbn [fmap list_fmap concat]. by rewrite E.
Qed.

Lemma decode_units cs : Forall (fun c => is_scalar c = true) cs -> decode_utf16 (units cs) = Some <$> cs.
Proof.
  induction 1 as [|c cs Hc _ IH]; [done|]. change (units (c :: cs)) with (encode_utf16 c ++ units cs).
  by rewrite decode_encode_utf16, IH.
Qed.

(** ** The screen *)

(** Right before position [c] of a screen with code points [f], the end of [line]
    that fits. *)
Definition shown_at (line : list Z) (f : Z -> Z) (c : Z) : Prop :=
  forall i ch, rev line !! i = Some ch -> Z.of_nat i < c -> f (c - 1 - Z.of_nat i) = ch.

Definition points (d : TerminalDevice) (i : Z) : Z := code_point (at_logical d i).
Definition at_cursor (d : TerminalDevice) : Z := logical_of (cursor d).
Definition shown (line : list Z) (d : TerminalDevice) : Prop := shown_at line (points d) (at_cursor d).

Lemma shown_nil d : shown [] d.
Proof. intros i ch H. by destruct i. Qed.

Lemma shown_type line f f' c s : shown_at line f c -> f' c = s -> (forall j, 0 <= j < c -> f' j = f j) ->
  shown_at (line ++ [s]) f' (c + 1).
Proof.
  intros Hs Hc Hf i ch Hi Hlt. rewrite rev_app_distr in Hi. simpl in Hi. destruct i as [|i]; simpl in Hi.
  - injection Hi as <-. replace (c + 1 - 1 - Z.of_nat 0) with c by lia. done.
  - replace (c + 1 - 1 - Z.of_nat (S i)) with (c - 1 - Z.of_nat i) by lia. rewrite Hf by lia. apply Hs; [done|lia].
Qed.

Lemma shown_move line f f' c k : shown_at line f c -> 0 <= k -> (forall j, 0 <= j < c - k -> f' j = f (j + k)) ->
  shown_at line f' (c - k).
Proof.
  intros Hs Hk Hf i ch Hi Hlt. rewrite Hf by lia. replace (c - k - 1 - Z.of_nat i + k) with (c - 1 - Z.of_nat i) by lia.
  apply Hs; [done|lia].
Qed.

Lemma shown_erase line f f' c s : shown_at (line ++ [s]) f c -> (forall j, 0 <= j < c - 1 -> f' j = f j) ->
  shown_at line f' (c - 1).
Proof.
  intros Hs Hf i ch Hi Hlt. rewrite Hf by lia. replace (c - 1 - 1 - Z.of_nat i) with (c - 1 - Z.of_nat (S i)) by lia.
  apply Hs; [|lia]. rewrite rev_app_distr. done.
Qed.

Lemma points_of_cells d d' j k : 0 <= j < 969 -> 0 <= k < 969 -> logical_cells d' !! Z.to_nat j = logical_cells d !! Z.to_nat k ->
  points d' j = points d k.
Proof. intros Hj Hk E. rewrite !logical_lookup in E by done. unfold points. congruence. Qed.

(** What a newline does to the grid: nothing, or one row up. *)
Lemma newline_effect V p v d : in_step V p v d -> counter d + 1 <= u64_max ->
  exists d' k, newline d = (Ok tt, d') /\ in_step V p v d' /\ calm 1 d d' /\ State.input d' = State.input d /\ 0 <= k /\
    at_cursor d' = (y (cursor d) + 1) * 51 - k /\ (forall j, 0 <= j < at_cursor d' -> points d' j = points d (j + k)).
Proof.
  intros Hs Hc. pose proof (g_cursor _ (proj1 Hs)) as [Hx Hy]. destruct (newline_ok V p v d Hs Hc) as (d' & Hrun & Hs' & Hcalm).
  exists d'. pose proof Hrun as Hn. unfold newline in Hrun. unfold mbind at 1, ST_bind at 1, st_modify at 1 in Hrun.
  set (d0 := set_cursor_field (mkPos 0 (y (cursor d))) (cursor_visible d) d) in *.
  assert (Hs0 : in_step V p v d0) by (apply move_cursor_ok; [done|simpl; lia|done]).
  unfold mbind at 1, ST_bind at 1, st_get in Hrun. change TERMINAL_HEIGHT with 19 in Hrun. simpl (y (cursor d0)) in Hrun.
  destruct (Z.ltb_spec (y (cursor d) + 1) 19).
  - exists 0. injection Hrun as <-. do 4 (split; [done|]). split; [lia|].
    split; [unfold at_cursor, logical_of, TERMINAL_WIDTH; simpl; lia|]. intros j Hj. by rewrite Z.add_0_r.
  - exists 51. destruct (scroll_with_ok V p v d0 1 (blank (fg d0) (bg d0)) Hs0 ltac:(lia) ltac:(done)) as (d1 & Hrun1 & Hok & Hst & Hcn & Ht & Hl & _).
    rewrite (st_bind_ok _ _ _ _ _ Hrun1), log_run in Hrun. injection Hrun as <-. destruct Hst as (Hcur & _ & _ & _ & Hin).
    assert (Ec : at_cursor (set_replication (Replication.record (Replication.Scroll 1 (blank (fg d0) (bg d0))) (replication d1)) d1) = (y (cursor d) + 1) * 51 - 51).
    { unfold at_cursor, logical_of. cbn [cursor set_replication]. rewrite Hcur. unfold TERMINAL_WIDTH. simpl. lia. }
    do 3 (split; [done|]). split; [exact Hin|]. split; [lia|]. split; [exact Ec|]. intros j Hj0.
    assert (Hj : 0 <= j < (y (cursor d) + 1) * 51 - 51) by (rewrite <- Ec; exact Hj0).
    apply (points_of_cells d0 d1 j (j + 51)); [lia|lia|]. rewrite Hl. unfold shift, TERMINAL_WIDTH.
    rewrite lookup_app_l by (rewrite length_drop, logical_length; lia). rewrite lookup_drop. f_equal. lia.
Qed.

Lemma draw_points d d1 i c j : 0 <= i < 969 -> 0 <= j < 969 -> logical_cells d1 = splice i [c] (logical_cells d) ->
  points d1 j = if decide (j = i) then code_point c else points d j.
Proof.
  intros Hi Hj E. pose proof (logical_length d) as Hl. pose proof (logical_lookup d1 j Hj) as H1. rewrite E in H1. unfold points.
  destruct (decide (j = i)) as [->|Hne].
  - replace (Z.to_nat i) with (Z.to_nat (i + 0)) in H1 by lia.
    rewrite splice_lookup_in in H1; [|lia|unfold zlen; simpl; lia|unfold zlen; rewrite Hl; simpl; lia]. simpl in H1. congruence.
  - rewrite splice_lookup_ne in H1 by (rewrite ?Hl; simpl; lia). rewrite logical_lookup in H1 by done. congruence.
Qed.

Lemma write_char V p v d s line : in_step V p v d -> counter d + 1 <= u64_max -> printable s -> shown line d ->
  exists d', write_decoded s d = (Ok tt, d') /\ in_step V p v d' /\ calm 1 d d' /\ State.input d' = State.input d /\ shown (line ++ [s]) d'.
Proof.
  intros Hs Hc [_ Hp] Hsh. unfold is_canonical_text_unit in Hp. bsimp. unfold write_decoded.
  rewrite (proj2 (Z.eqb_neq s 10)), (proj2 (Z.eqb_neq s 13)) by lia.
  pose proof (g_cursor _ (proj1 Hs)) as [Hx Hy]. destruct (position_logical (cursor d) Hx Hy) as [Hpos Hl].
  set (c := mkCell s (fg d) (bg d)).
  destruct (draw_ok V p v d (logical_of (cursor d)) [c] Hs Hl ltac:(unfold zlen; simpl; lia))
    as (d1 & d2 & Hrun & Hlog & Hs2 & Hc2 & Hcur & Hsp & Hg & Heq).
  assert (Hput : put_cell (cursor d) c d = (Ok tt, d1)).
  { simpl in Hrun. rewrite Hpos in Hrun. unfold mbind, ST_bind in Hrun.
    destruct (put_cell (cursor d) c d) as [[[]| |] dd] eqn:E; [|done|done]. by injection Hrun as ->. }
  assert (Hpts : forall j, 0 <= j < 969 -> points d2 j = if decide (j = at_cursor d) then s else points d j).
  { intros j Hj. apply (draw_points d d2 (at_cursor d) c j Hl Hj). by rewrite Heq, Hsp. }
  assert (Hin : State.input d2 = State.input d).
  { rewrite log_run in Hlog. injection Hlog as <-. simpl. apply Hg. }
  assert (Hsh2 : shown_at (line ++ [s]) (points d2) (at_cursor d + 1)).
  { apply (shown_type line (points d)); [done|rewrite Hpts by done; by rewrite decide_True|].
    intros j Hj. unfold at_cursor in *. rewrite Hpts by lia. by rewrite decide_False by lia. }
  unfold write_scalar. unfold mbind at 1, ST_bind at 1, st_get. fold c. rewrite (st_bind_ok _ _ _ _ _ Hput), (st_bind_ok _ _ _ _ _ Hlog).
  assert (Ecur : at_cursor d = y (cursor d) * 51 + x (cursor d)) by done.
  destruct (Z.ltb_spec (x (cursor d) + 1) TERMINAL_WIDTH) as [Hlt|Hge]; unfold TERMINAL_WIDTH in *.
  - eexists. split; [done|]. split; [|split; [split|split; [exact Hin|]]].
    + rewrite Hcur. apply (move_cursor_ok V p v d2); [done|simpl; lia|done].
    + destruct Hc2 as [? ?]. unfold counter in *. cbn [history history_start set_cursor_field]. lia.
    + apply Hc2.
    + unfold shown. replace (at_cursor _) with (at_cursor d + 1); [done|]. rewrite Hcur. unfold at_cursor, logical_of, TERMINAL_WIDTH.
      cbn [cursor set_cursor_field x y]. lia.
  - destruct (newline_effect V p v d2 Hs2) as (d3 & k & Hn & Hs3 & Hc3 & Hin3 & Hk & Hat & Hpt); [destruct Hc2; lia|]. exists d3.
    split; [done|]. split; [done|]. split; [by apply (calm_trans 0 1 d d2)|]. split; [congruence|].
    unfold shown. rewrite Hat in *. rewrite Hcur in *. replace ((y (cursor d) + 1) * 51) with (at_cursor d + 1) in * by lia.
    by apply (shown_move _ (points d2)).
Qed.

Lemma write_chars V p v cs : forall d line, in_step V p v d -> counter d + zlen cs <= u64_max -> Forall printable cs -> shown line d ->
  exists d', write_loop (Some <$> cs) d = (Ok tt, d') /\ in_step V p v d' /\ calm (zlen cs) d d' /\ State.input d' = State.input d /\
    shown (line ++ cs) d'.
Proof.
  induction cs as [|s cs IH]; intros d line Hs Hc Hp Hsh.
  - exists d. rewrite app_nil_r. split; [done|]. split; [done|]. split; [apply calm_refl|done].
  - apply Forall_cons in Hp as [Hps Hp]. unfold zlen in Hc. simpl in Hc.
    destruct (write_char V p v d s line Hs ltac:(lia) Hps Hsh) as (d1 & Hrun & Hs1 & Hc1 & Hin1 & Hsh1).
    destruct (IH d1 (line ++ [s]) Hs1) as (d2 & Hrun2 & Hs2 & Hc2 & Hin2 & Hsh2); [destruct Hc1; unfold zlen; lia|done|done|].
    exists d2. cbn [fmap list_fmap write_loop default]. rewrite (st_bind_ok _ _ _ _ _ Hrun). split; [done|]. split; [done|].
    replace (zlen (s :: cs)) with (1 + zlen cs) by (unfold zlen; simpl; lia).
    split; [by apply (calm_trans 1 (zlen cs) d d1 d2)|]. split; [congruence|]. by rewrite <- app_assoc in Hsh2.
Qed.

(** A write whose loop is known; it may end by logging the cursor. *)
Lemma write_utf16_finish V d us d1 n : synced V d -> write_loop (decode_utf16 us) d = (Ok tt, d1) ->
  in_step V (cursor d) (cursor_visible d) d1 -> calm n d d1 ->
  exists d', write_utf16 us d = (Ok tt, d') /\ synced V d' /\ counter d' <= counter d + n /\ State.input d' = State.input d1 /\
    cursor d' = cursor d1 /\ points d' = points d1.
Proof.
  intros Hs Hrun Hs1 [Hc Hv]. unfold write_utf16. unfold mbind at 1, ST_bind at 1, st_get. rewrite (st_bind_ok _ _ _ _ _ Hrun).
  unfold mbind, ST_bind, st_get. destruct (bool_decide (cursor d1 = cursor d)) eqn:E; [apply bool_decide_eq_true in E|clear E].
  - exists d1. split_and!; try done. unfold synced. rewrite Hv. by rewrite E.
  - destruct (record_cursor_ok V _ _ d1 Hs1) as (d2 & Hr & Hs2 & [Hc2 _] & Hcur). exists d2. split; [done|]. injection Hr as <-.
    split_and!; try done; lia.
Qed.

Lemma write_text V d cs line : synced V d -> counter d + zlen cs <= u64_max -> Forall printable cs -> shown line d ->
  exists d', write_utf16 (units cs) d = (Ok tt, d') /\ synced V d' /\ counter d' <= counter d + zlen cs /\
    State.input d' = State.input d /\ shown (line ++ cs) d'.
Proof.
  intros Hs Hc Hp Hsh. destruct (write_chars V _ _ cs d line Hs Hc Hp Hsh) as (d1 & Hrun & Hs1 & Hc1 & Hin & Hsh1).
  rewrite <- decode_units in Hrun by (eapply Forall_impl; [exact Hp|intros ? []; done]).
  destruct (write_utf16_finish V d _ d1 _ Hs Hrun Hs1 Hc1) as (d' & Hw & Hs' & Hc' & Hin' & Hcur & Hpts).
  exists d'. split_and!; try done; [congruence|]. unfold shown, at_cursor in *. by rewrite Hcur, Hpts.
Qed.

Lemma write_newline V d : synced V d -> counter d + 1 <= u64_max ->
  exists d', write_utf16 newline_unit d = (Ok tt, d') /\ synced V d' /\ State.input d' = State.input d.
Proof.
  intros Hs Hc. destruct (newline_effect V _ _ d Hs Hc) as (d1 & k & Hrun & Hs1 & Hc1 & Hin & _).
  assert (Hloop : write_loop (decode_utf16 newline_unit) d = (Ok tt, d1)).
  { cbn -[newline]. unfold write_decoded. cbn -[newline]. by rewrite (st_bind_ok _ _ _ _ _ Hrun). }
  destruct (write_utf16_finish V d _ d1 _ Hs Hloop Hs1 Hc1) as (d' & Hw & Hs' & Hc' & Hin' & _). exists d'. split_and!; [done|done|congruence].
Qed.

Lemma erase_at_effect V d p line s : synced V d -> 0 <= x p < 51 -> 0 <= y p < 19 -> logical_of p = at_cursor d - 1 ->
  shown (line ++ [s]) d ->
  exists d', erase_at p d = (Ok tt, d') /\ synced V d' /\ counter d' = counter d /\ State.input d' = State.input d /\ shown line d'.
Proof.
  intros Hs Hx Hy Hlo Hsh. destruct (erase_at_ok V d p Hs Hx Hy) as (d' & Hrun & Hs'). exists d'. split; [done|]. split; [done|].
  destruct (position_logical p Hx Hy) as [Hp Hl]. unfold erase_at in Hrun.
  unfold mbind at 1, ST_bind at 1, st_modify at 1 in Hrun. set (d0 := set_cursor_field p (cursor_visible d) d) in *.
  assert (Hs0 : in_step V (cursor d) (cursor_visible d) d0) by (by apply move_cursor_ok).
  unfold mbind at 1, ST_bind at 1, st_get in Hrun. set (c := blank (fg d0) (bg d0)) in *.
  destruct (draw_ok V _ _ d0 (logical_of p) [c] Hs0 Hl ltac:(unfold zlen; simpl; lia))
    as (d1 & d2 & Hrun1 & Hlog & Hs2 & Hc2 & Hcur & Hsp & Hg & Heq).
  assert (Hput : put_cell p c d0 = (Ok tt, d1)).
  { simpl in Hrun1. rewrite Hp in Hrun1. unfold mbind, ST_bind in Hrun1.
    destruct (put_cell p c d0) as [[[]| |] dd] eqn:E; [|done|done]. by injection Hrun1 as ->. }
  rewrite (st_bind_ok _ _ _ _ _ Hput), (st_bind_ok _ _ _ _ _ Hlog) in Hrun. injection Hrun as <-.
  rewrite log_run in Hlog. injection Hlog as <-. pose proof (grid_counter _ _ Hg) as Hcn. destruct Hg as (_ & _ & Gc & _ & _ & _ & Gi & _).
  split; [exact Hcn|]. split; [exact Gi|]. unfold shown.
  replace (at_cursor _) with (at_cursor d - 1) by (unfold at_cursor at 2; cbn [cursor set_replication]; by rewrite Gc).
  assert (Hb : at_cursor d < 969).
  { pose proof (g_cursor _ (proj1 Hs)) as [Hx' Hy']. apply (position_logical _ Hx' Hy'). }
  apply (shown_erase line (points d) _ _ s); [done|]. intros j Hj.
  change (points d1 j = points d0 j). rewrite (draw_points d0 d1 (logical_of p) c j Hl ltac:(lia) Hsp). by rewrite decide_False by lia.
Qed.

Lemma erase_char V d line s : synced V d -> shown (line ++ [s]) d ->
  exists d', erase_previous d = (Ok tt, d') /\ synced V d' /\ counter d' = counter d /\ State.input d' = State.input d /\ shown line d'.
Proof.
  intros Hs Hsh. pose proof (g_cursor _ (proj1 Hs)) as [Hx Hy]. unfold erase_previous, mbind at 1, ST_bind at 1, st_get.
  destruct (Z.ltb_spec 0 (x (cursor d))).
  { apply (erase_at_effect V d _ line s); [done|simpl; lia|done| |done]. unfold at_cursor, logical_of. simpl. lia. }
  destruct (Z.ltb_spec 0 (y (cursor d))).
  { apply (erase_at_effect V d _ line s); unfold TERMINAL_WIDTH; [done|simpl; lia|simpl; lia| |done].
    unfold at_cursor, logical_of, TERMINAL_WIDTH. simpl. lia. }
  exists d. split_and!; try done. intros i ch _ Hlt. unfold at_cursor, logical_of, TERMINAL_WIDTH in Hlt. lia.
Qed.

(** ** The reference editor *)

Definition event := Input.TerminalInputEvent.
Inductive edited := Editing (line : list Z) | Entered (line : list Z).

(** Over characters: printable text is appended unless the line would exceed its
    limit, backspace drops a character, enter ends the line. *)
Definition edit (max : Z) (line : list Z) (e : event) : edited :=
  match e with
  | Input.Text text =>
      let line' := line ++ filter (fun c => is_canonical_text_unit c = true) (utf8_chars text) in
      Editing (if zlen (units line') <=? max then line' else line)
  | Input.Key k =>
      match Input.key k with
      | Input.Backspace => Editing (removelast line)
      | Input.Enter => Entered line
      | _ => Editing line
      end
  end.

(** The line after all the events, or the line entered and the events left. *)
Fixpoint read_line (max : Z) (line : list Z) (es : list event) : list Z * option (list event) :=
  match es with
  | [] => (line, None)
  | e :: es =>
      match edit max line e with
      | Editing line' => read_line max line' es
      | Entered line' => (line', Some es)
      end
  end.

(** Rows the events may scroll out at most. *)
Definition keystrokes (e : event) : Z := match e with Input.Text text => zlen (utf8_chars text) | Input.Key _ => 1 end.
Definition effort (es : list event) : Z := foldr (fun e n => keystrokes e + n) 0 es.

Definition text_valid (e : event) : Prop := match e with Input.Text text => utf8_valid text = true | Input.Key _ => True end.

Definition queue (st : io) : list event := Input.events (State.input st.2).

(** [o] is reading a line of which [line] has been typed. *)
Record reading (V : view) (o : InputOwner) (line : list Z) (st : io) : Prop := {
  r_owner : owner st.1 = Some (Canonical, o);
  r_input : input st.1 = mkInput (units line) None;
  r_max : 0 <= maximum_line_code_units st.1 <= usize_max;
  r_line : Forall printable line;
  r_synced : synced V st.2;
  r_shown : shown line st.2 }.

Lemma accept_text_step V o line st text : reading V o line st -> utf8_valid text = true ->
  counter st.2 + zlen (utf8_chars text) <= u64_max ->
  let line' := line ++ filter (fun c => is_canonical_text_unit c = true) (utf8_chars text) in
  let us := concat (encode_utf16 <$> utf8_chars text) in
  if zlen (units line') <=? maximum_line_code_units st.1
  then exists st', accept_text us st = (Ok tt, st') /\ reading V o line' st' /\ State.input st'.2 = State.input st.2 /\
         counter st'.2 <= counter st.2 + zlen (utf8_chars text) /\
         maximum_line_code_units st'.1 = maximum_line_code_units st.1
  else accept_text us st = (Err LineTooLong, st).
Proof.
  intros [Ho Hi Hm Hl Hs Hsh] Hv Hc line' us. destruct st as [s d]. simpl in *. pose proof (utf8_chars_scalars text Hv) as Hsc.
  set (cs := filter (fun c => is_canonical_text_unit c = true) (utf8_chars text)) in *.
  assert (Hcs : Forall printable cs).
  { apply Forall_forall. intros c Hc'. apply list_elem_of_filter in Hc' as [? Hin]. rewrite Forall_forall in Hsc. split; [by apply Hsc|done]. }
  assert (Hlen : zlen cs <= zlen (utf8_chars text)) by (unfold zlen, cs; pose proof (length_filter (fun c => is_canonical_text_unit c = true) (utf8_chars text)); lia).
  unfold accept_text, mbind, ST_bind, streams, st_lift, require_canonical. cbn [fst]. rewrite Ho, Hi. cbn [ready editing]. rewrite bool_decide_false by (intros [? ?]; done).
  rewrite canonical_filter. change us with (units (utf8_chars text)). rewrite filter_units by done. fold cs.
  unfold line'. rewrite units_app. assert (Hz : zlen (units line ++ units cs) = zlen (units line) + zlen (units cs)) by (unfold zlen; rewrite length_app; lia).
  rewrite Hz. unfold checked_add. destruct (Z.leb_spec (zlen (units line) + zlen (units cs)) (maximum_line_code_units s)) as [Hle|Hgt].
  - rewrite (proj2 (Z.leb_le _ usize_max)), (proj2 (Z.ltb_ge _ _)) by lia.
    destruct (write_text V d cs line Hs ltac:(lia) Hcs Hsh) as (d' & Hw & Hs' & Hc' & Hin & Hsh').
    unfold on_terminal. rewrite Hw. eexists. split; [done|]. cbn [fst snd]. rewrite Hi.
    split; [|split; [done|split; [lia|done]]]. split; cbn [fst snd]; try done.
    + cbn. by rewrite units_app.
    + apply Forall_app. done.
  - destruct (zlen (units line) + zlen (units cs) <=? usize_max); [|done]. by rewrite (proj2 (Z.ltb_lt _ _)) by lia.
Qed.

Lemma accept_backspace_step V o line st : reading V o line st ->
  exists st', accept_key Input.Backspace st = (Ok tt, st') /\ reading V o (removelast line) st' /\
    State.input st'.2 = State.input st.2 /\ counter st'.2 = counter st.2 /\
    maximum_line_code_units st'.1 = maximum_line_code_units st.1.
Proof.
  intros [Ho Hi Hm Hl Hs Hsh]. destruct st as [s d]. cbn [fst snd] in *.
  unfold accept_key, mbind at 1, ST_bind at 1, streams. cbn [fst]. unfold require_canonical. rewrite Ho, Hi.
  unfold mbind at 1, ST_bind at 1, st_lift. cbn [ready editing]. rewrite bool_decide_false by (intros [? ?]; done).
  destruct line as [|c0 line0] using rev_ind; [exists (s, d); by split_and!|]. clear IHline0.
  apply Forall_app in Hl as [Hl Hc0]. apply Forall_cons in Hc0 as [[Hsc0 _] _]. rewrite pop_character_snoc, removelast_last by done.
  destruct (erase_char V d line0 c0 Hs Hsh) as (d' & Hrun & Hs' & Hc' & Hin & Hsh').
  unfold mbind, ST_bind, on_streams, st_modify, on_terminal. rewrite Hrun, Hi. eexists. split; [done|]. split; [by split|done].
Qed.

Lemma accept_enter_step V o line st : reading V o line st -> counter st.2 + 1 <= u64_max ->
  exists d', accept_key Input.Enter st = (Ok tt, (set_input (mkInput [] (Some (units line))) st.1, d')) /\
    synced V d' /\ State.input d' = State.input st.2.
Proof.
  intros [Ho Hi Hm Hl Hs Hsh] Hc. destruct st as [s d]. cbn [fst snd] in *.
  unfold accept_key, mbind at 1, ST_bind at 1, streams. cbn [fst]. unfold require_canonical. rewrite Ho, Hi.
  unfold mbind at 1, ST_bind at 1, st_lift. cbn [ready editing]. rewrite bool_decide_false by (intros [? ?]; done).
  destruct (write_newline V d Hs Hc) as (d' & Hrun & Hs' & Hin). exists d'.
  unfold mbind, ST_bind, on_streams, st_modify, on_terminal. rewrite Hrun. cbn [editing input]. rewrite Hi. done.
Qed.

Lemma accept_other_step V o line st k : reading V o line st -> k <> Input.Backspace -> k <> Input.Enter ->
  accept_key k st = (Ok tt, st).
Proof.
  intros [Ho Hi Hm Hl Hs Hsh] Hb He. unfold accept_key, mbind at 1, ST_bind at 1, streams, require_canonical. rewrite Ho, Hi.
  unfold mbind at 1, ST_bind at 1, st_lift. cbn [ready]. rewrite bool_decide_false by (intros [? ?]; done). by destruct k.
Qed.

(** A polled event is out of the queue; nothing else changes. *)
Lemma poll_reading V o line s d e es : reading V o line (s, d) -> Input.events (State.input d) = e :: es ->
  exists d1, poll_input d = (Some e, d1) /\ reading V o line (s, d1) /\ Input.events (State.input d1) = es /\ counter d1 = counter d.
Proof.
  intros [Ho Hi Hm Hl Hs Hsh] He. unfold poll_input, Input.queue_poll. rewrite He. eexists. split; [done|]. split; [|done].
  split; try done. destruct Hs as [[] Ht]. split; [by split|exact Ht].
Qed.

Lemma take_line_none V o line st : reading V o line st -> take_line o st.1 = (None, st.1).
Proof.
  intros [Ho Hi _ _ _ _]. unfold take_line. rewrite Hi. cbn [ready]. by destruct (bool_decide _).
Qed.

(** What an iteration of the loop does. *)
Lemma accept_event_step V o line st e : reading V o line st -> text_valid e -> counter st.2 + keystrokes e <= u64_max ->
  match edit (maximum_line_code_units st.1) line e with
  | Editing line' => exists st', (accept_event e st = (Ok tt, st') \/ accept_event e st = (Err LineTooLong, st')) /\
      reading V o line' st' /\ State.input st'.2 = State.input st.2 /\ counter st'.2 <= counter st.2 + keystrokes e /\
      maximum_line_code_units st'.1 = maximum_line_code_units st.1
  | Entered line' => line' = line /\ exists d', accept_event e st = (Ok tt, (set_input (mkInput [] (Some (units line))) st.1, d')) /\
      synced V d' /\ State.input d' = State.input st.2
  end.
Proof.
  intros Hr Hv Hc. destruct e as [k|text]; cbn [edit accept_event keystrokes text_valid] in *.
  - destruct (Input.key k) eqn:Ek; rewrite ?Ek;
      try (exists st; split; [left; by eapply accept_other_step|by split_and!; try lia]).
    + destruct (accept_backspace_step V o line st Hr) as (st' & H1 & H2 & H3 & H4 & H5). exists st'. split_and!; try done; [by left|lia].
    + split; [done|]. by apply (accept_enter_step V o).
  - pose proof (accept_text_step V o line st text Hr Hv Hc) as H. cbv zeta in H. destruct (_ <=? _).
    + destruct H as (st' & H1 & H2 & H3 & H4 & H5). exists st'. split_and!; try done. by left.
    + exists st. split_and!; try done; [by right|unfold zlen; lia].
Qed.

Lemma advance_loop_ok V o es : forall s d line, reading V o line (s, d) -> Input.events (State.input d) = es ->
  Forall text_valid es -> counter d + effort es <= u64_max ->
  exists s' d', synced V d' /\
    match read_line (maximum_line_code_units s) line es with
    | (l, Some rest) => advance_loop (length es) o (s, d) = Some (Line (units l), (s', d')) /\
        owner s' = None /\ input s' = input_clear /\ Input.events (State.input d') = rest
    | (l, None) => advance_loop (length es) o (s, d) = Some (Waiting, (s', d')) /\
        reading V o l (s', d') /\ Input.events (State.input d') = []
    end.
Proof.
  induction es as [|e es IH]; intros s d line Hr Hq Hv Hc.
  - exists s, d. split; [exact (r_synced _ _ _ _ Hr)|]. cbn [read_line length advance_loop snd]. unfold poll_input, Input.queue_poll. rewrite Hq.
    split; [|done]. cbn [fst]. do 3 f_equal. by destruct d.
  - apply Forall_cons in Hv as [Hve Hv]. cbn [effort foldr] in Hc. fold (effort es) in Hc.
    destruct (poll_reading V o line s d e es Hr Hq) as (d1 & Hpoll & Hr1 & Hq1 & Hc1).
    assert (He : 0 <= effort es) by (clear; induction es as [|[|] ? IH]; cbn in *; unfold effort, zlen in *; lia).
    pose proof (accept_event_step V o line (s, d1) e Hr1 Hve) as Hstep. cbn [fst snd] in Hstep. specialize (Hstep ltac:(lia)).
    cbn [read_line length advance_loop snd fst]. rewrite Hpoll. destruct (edit _ line e) as [line'|line'].
    + destruct Hstep as ([s2 d2] & Hacc & Hr2 & Hin2 & Hc2 & Hm2). cbn [fst snd] in *.
      destruct (IH s2 d2 line' Hr2) as (s' & d' & Hs' & Hres); [by rewrite Hin2|done|lia|]. exists s', d'. split; [done|].
      rewrite Hm2 in Hres. pose proof (take_line_none V o line' (s2, d2) Hr2) as Ht. cbn [fst] in Ht.
      destruct Hacc as [->| ->]; [cbn [fst snd]; rewrite Ht|]; exact Hres.
    + destruct Hstep as (-> & d2 & Hacc & Hs2 & Hin2). cbn [fst] in Hacc. rewrite Hacc. unfold take_line. cbn [fst snd owner set_input].
      pose proof (r_owner _ _ _ _ Hr1) as Ho. cbn [fst] in Ho. rewrite Ho, bool_decide_false by (intros H; by apply H). cbn [ready input set_input].
      eexists _, d2. split; [done|]. split; [done|]. split; [done|]. split; [done|]. by rewrite Hin2.
Qed.

(** C29. The standard input is a line editor.  While a task reads, the loop of the
    computer consumes the queued key and text events exactly as the reference
    editor over characters: it answers the reader with the UTF-16 form of the very
    line the reference ends with, as soon as enter is pressed, leaving later
    events in the queue and the input free; otherwise it waits with the queue
    empty, holds the UTF-16 form of the reference's line, and the terminal shows
    right before its cursor the whole of that line or all of it that fits above.
    The loop never fails or panics, and the replicas of the terminal stay in step. *)
Theorem line_discipline_equiv V o line s d :
  reading V o line (s, d) -> Forall text_valid (queue (s, d)) -> counter d + effort (queue (s, d)) <= u64_max ->
  exists s' d', synced V d' /\
    match read_line (maximum_line_code_units s) line (queue (s, d)) with
    | (l, Some rest) => advance_pending_stdio o (s, d) = Some (Line (units l), (s', d')) /\
        owner s' = None /\ input s' = input_clear /\ queue (s', d') = rest
    | (l, None) => advance_pending_stdio o (s, d) = Some (Waiting, (s', d')) /\ reading V o l (s', d') /\ queue (s', d') = []
    end.
Proof. intros Hr Hv Hc. exact (advance_loop_ok V o _ s d line Hr eq_refl Hv Hc). Qed.

Definition sample_key (k : Input.TerminalKey) : event := Input.Key (Input.mkKeyEvent k Input.Press 0).
(** "hé" and a rubout of an astral character, a control character dropped. *)
Definition sample_events : list event :=
  [Input.Text [104; 195; 169]; Input.Text [240; 159; 152; 128]; sample_key Input.Backspace; Input.Text [7; 33]; sample_key Input.Enter;
   Input.Text [120]].
Definition sample_device : TerminalDevice :=
  match with_config config_default with
  | Ok d => State.set_input (Input.mkQueue (Input.limits (State.input d)) sample_events) d
  | _ => mkTerminal [] 0 [] 0 (mkPos 0 0) true 0 0 (Input.queue_new Input.limits_default) (Replication.replication_new 0)
  end.
Definition sample_owner : InputOwner := mkOwner 1 0.
Definition sample_streams : StandardStreams := mkStreams input_clear (Some (Canonical, sample_owner)) 80 80.

Lemma line_discipline_equiv_witness : exists s' d',
  advance_pending_stdio sample_owner (sample_streams, sample_device) = Some (Line [104; 233; 33], (s', d')) /\
  owner s' = None /\ queue (s', d') = [Input.Text [120]].
Proof.
  destruct (line_discipline_equiv (view_of sample_device) sample_owner [] sample_streams sample_device) as (s' & d' & _ & H & Ho & _ & Hq).
  - split; [done|done|cbn; unfold usize_max; lia|constructor| |apply shown_nil].
    split; [split; repeat match goal with |- _ /\ _ => split end; vm_compute; first [reflexivity|discriminate]|vm_compute; reflexivity].
  - repeat constructor.
  - vm_compute. discriminate.
  - exists s', d'. split; [exact H|]. split; [exact Ho|exact Hq].
Defined.

End StdioProps.
