(* ===== verification/Codec.v ===== *)
(** src/filesystem/persistence/codec.rs and mod.rs: the writer and the cursor of
    the persistent formats.  SHA-256 is a parameter.  Each reader is described by
    the words it accepts ([Reads]), so that formats are verified field by field. *)

From S2P Require Import Prelude Words Unicode Path.

Module Codec.
Import FsError FsLimits Path.

Inductive PersistenceCodecError := Malformed | UnsupportedVersion | LimitExceeded | DigestMismatch | NonCanonical.

(** [ComputerId([u8; 16])] and the digests [[u8; 32]] are their bytes. *)
Abbreviation ComputerId := (list Z) (only parsing).
Abbreviation Digest := (list Z) (only parsing).

Definition DIGEST_BYTES : Z := 32.

(** [Writer { bytes }]. *)
Abbreviation Writer := (list Z) (only parsing).

Definition write_bytes (bs : list Z) (w : Writer) : Writer := w ++ bs.
Definition write_u8 (v : Z) (w : Writer) : Writer := w ++ [v].
Definition write_u16 (v : Z) (w : Writer) : Writer := write_bytes (le_bytes 2 v) w.
Definition write_u32 (v : Z) (w : Writer) : Writer := write_bytes (le_bytes 4 v) w.
Definition write_u64 (v : Z) (w : Writer) : Writer := write_bytes (le_bytes 8 v) w.

(** The loop over the components after the first. *)
Fixpoint write_components (cs : list str) (w : Writer) : Writer :=
  match cs with
  | [] => w
  | c :: cs => write_components cs (write_bytes c (write_bytes [slash] w))
  end.

Definition write_path (p : VirtualPath) (w : Writer) : outcome PersistenceCodecError Writer :=
  length ← ok_or (try_from_unsigned u32_max (encoded_len p)) LimitExceeded;
  let w := write_bytes [slash] (write_u32 length w) in
  match p with
  | [] => Ok w
  | first :: components => Ok (write_components components (write_bytes first w))
  end.

Definition path_record_len (p : VirtualPath) : outcome PersistenceCodecError Z :=
  ok_or (checked_add usize_max 4 (encoded_len p)) LimitExceeded.

Record Cursor := mkCursor { bytes : list Z; offset : Z }.

Definition plain (bs : list Z) : Cursor := mkCursor bs 0.

Abbreviation CursorM := (ST Cursor PersistenceCodecError).

Definition exact (length : Z) : CursorM (list Z) := fun c =>
  match checked_add usize_max (offset c) length with
  | None => (Err Malformed, c)
  | Some stop =>
      match slice_get (offset c) stop (bytes c) with
      | None => (Err Malformed, c)
      | Some result => (Ok result, mkCursor (bytes c) stop)
      end
  end.

(** [exact(n)?.try_into().expect(..)]: the slice has the width asked for. *)
Definition read_le (n : Z) : CursorM Z :=
  bs ← exact n;
  mret (le_val bs).
Definition read_u8 : CursorM Z := read_le 1.
Definition read_u16 : CursorM Z := read_le 2.
Definition read_u32 : CursorM Z := read_le 4.
Definition read_u64 : CursorM Z := read_le 8.

Definition read_path (limits : FileSystemLimits) : CursorM VirtualPath :=
  length ← read_u32;
  if maximum_path_bytes limits <? length then st_err LimitExceeded
  else
    text ← exact length;
    if negb (utf8_valid text) then st_err Malformed
    else match parse_utf8 text limits with
         | Ok p => mret p
         | Err _ => st_err NonCanonical
         | Panic => st_panic
         end.

Definition remaining (c : Cursor) : Z := size (bytes c) - offset c.

Definition finish (c : Cursor) : outcome PersistenceCodecError unit :=
  if offset c =? size (bytes c) then Ok tt else Err Malformed.

Definition str_home : str := [104; 111; 109; 101].
Definition str_rom : str := [114; 111; 109].

Definition home_descendant (p : VirtualPath) : bool :=
  match p with
  | first :: _ :: _ => bool_decide (first = str_home)
  | _ => false
  end.

Section Digest.
(** [Sha256::digest]. *)
Context (sha256 : list Z -> Digest).

Definition finish_checked (w : Writer) (maximum : Z) : outcome PersistenceCodecError (list Z) :=
  length ← ok_or (checked_add usize_max (size w) DIGEST_BYTES) LimitExceeded;
  if maximum <? length then Err LimitExceeded
  else Ok (w ++ sha256 w).

Definition verified (bs : list Z) (maximum : Z) : outcome PersistenceCodecError Cursor :=
  if maximum <? size bs then Err LimitExceeded
  else if size bs <? DIGEST_BYTES then Err Malformed
  else
    let payload_end := size bs - DIGEST_BYTES in
    let expected := drop (Z.to_nat payload_end) bs in
    let payload := take (Z.to_nat payload_end) bs in
    if bool_decide (sha256 payload = expected) then Ok (mkCursor payload 0) else Err DigestMismatch.

End Digest.
End Codec.

Module CodecProps.
Import FsError FsLimits Path PathProps Codec.

(** ** Readers and the words they accept *)

Definition rest (c : Cursor) : list Z := drop (Z.to_nat (offset c)) (bytes c).

Record cursor_ok (c : Cursor) : Prop := {
  c_offset : 0 <= offset c <= size (bytes c);
  c_bytes : is_bytes (bytes c);
  c_size : size (bytes c) <= usize_max }.

(** [c'] is [c] moved past the word [w]. *)
Definition past (c : Cursor) (w : list Z) (c' : Cursor) : Prop :=
  rest c = w ++ rest c' /\ bytes c' = bytes c /\ offset c' = offset c + size w.

(** [m] succeeds with [a] exactly when the cursor stands at a word that [P]
    relates to [a], which it consumes. *)
Definition Reads {A} (m : CursorM A) (P : A -> list Z -> Prop) : Prop :=
  forall c, cursor_ok c ->
    (forall a c', m c = (Ok a, c') -> exists w, P a w /\ past c w c') /\
    (forall a w r, rest c = w ++ r -> P a w -> m c = (Ok a, mkCursor (bytes c) (offset c + size w))) /\
    (m c).1 <> Panic.

Lemma size_nonneg {A} (l : list A) : 0 <= size l.
Proof. unfold size. lia. Qed.

Lemma size_app {A} (a b : list A) : size (a ++ b) = size a + size b.
Proof. unfold size. rewrite length_app. lia. Qed.

Lemma rest_size c : cursor_ok c -> size (rest c) = size (bytes c) - offset c.
Proof. intros [Ho _ _]. unfold rest, size in *. rewrite length_drop. lia. Qed.

Lemma past_ok c w c' : cursor_ok c -> past c w c' -> cursor_ok c'.
Proof.
  intros Hc (Hr & Hb & Ho). pose proof (rest_size c Hc) as Hs. rewrite Hr, size_app in Hs. pose proof (size_nonneg w).
  pose proof (size_nonneg (rest c')). destruct Hc as [Hoff Hby Hsz]. split; rewrite ?Hb; try done. lia.
Qed.

Lemma advance_past c w r : cursor_ok c -> rest c = w ++ r -> past c w (mkCursor (bytes c) (offset c + size w)) /\
  rest (mkCursor (bytes c) (offset c + size w)) = r.
Proof.
  intros Hc Hr. assert (E : rest (mkCursor (bytes c) (offset c + size w)) = r).
  { unfold rest in *. simpl. destruct Hc as [Ho _ _]. pose proof (size_nonneg w).
    replace (Z.to_nat (offset c + size w)) with (Z.to_nat (offset c) + length w)%nat by (unfold size in *; lia).
    rewrite <- drop_drop, Hr. apply drop_app_length. }
  split; [|done]. split_and!; [by rewrite E|done|done].
Qed.

Lemma past_trans c w1 c1 w2 c2 : past c w1 c1 -> past c1 w2 c2 -> past c (w1 ++ w2) c2.
Proof.
  intros (H1 & H2 & H3) (H4 & H5 & H6). split_and!; [by rewrite H1, H4, app_assoc|congruence|rewrite size_app; lia].
Qed.

Lemma reads_bind {A B} (m : CursorM A) (f : A -> CursorM B) P Q :
  Reads m P -> (forall a w, P a w -> Reads (f a) (Q a)) ->
  Reads (m ≫= f) (fun b w => exists a w1 w2, P a w1 /\ Q a b w2 /\ w = w1 ++ w2).
Proof.
  intros Hm Hf c Hc. destruct (Hm c Hc) as (Hs & Hcmp & Hnp). split_and!.
  - intros b c' H. apply st_bind_inv in H as (a & c1 & H1 & H2). destruct (Hs _ _ H1) as (w1 & HP & Hp1).
    destruct (Hf a w1 HP c1 (past_ok _ _ _ Hc Hp1)) as (Hs2 & _). destruct (Hs2 _ _ H2) as (w2 & HQ & Hp2).
    exists (w1 ++ w2). split; [by exists a, w1, w2|by eapply past_trans].
  - intros b w r Hr (a & w1 & w2 & HP & HQ & ->). rewrite <- app_assoc in Hr.
    rewrite (st_bind_ok _ _ _ _ _ (Hcmp a w1 _ Hr HP)). destruct (advance_past c w1 _ Hc Hr) as [Hp Hr1].
    destruct (Hf a w1 HP _ (past_ok _ _ _ Hc Hp)) as (_ & Hc2 & _). rewrite (Hc2 b w2 r Hr1 HQ). cbn [bytes offset].
    do 2 f_equal. rewrite size_app. lia.
  - unfold mbind, ST_bind. destruct (m c) as [[a| |] c1] eqn:E; simpl in *; try done.
    destruct (Hs a c1 eq_refl) as (w1 & HP & Hp1). by destruct (Hf a w1 HP c1 (past_ok _ _ _ Hc Hp1)) as (_ & _ & ?).
Qed.

Lemma reads_ret {A} (a : A) : Reads (mret a) (fun b w => b = a /\ w = []).
Proof.
  intros c Hc. split_and!; [|intros b w r _ [-> ->]|done].
  - intros b c' [= <- <-]. exists []. split; [done|]. split_and!; [done|done|unfold size; simpl; lia].
  - unfold mret, ST_ret, size. simpl. rewrite Z.add_0_r. by destruct c.
Qed.

Lemma reads_err {A} e (P : A -> list Z -> Prop) : (forall a w, ~ P a w) -> Reads (st_err e) P.
Proof. intros HP c Hc. split_and!; [done|intros a w r _ Ha; by apply HP in Ha|done]. Qed.

Lemma reads_if {A} (b : bool) (m n : CursorM A) P Q :
  (b = true -> Reads m P) -> (b = false -> Reads n Q) -> Reads (if b then m else n) (fun a w => if b then P a w else Q a w).
Proof. destruct b; auto. Qed.

Lemma reads_iff {A} (m : CursorM A) P Q : Reads m P -> (forall a w, is_bytes w -> P a w <-> Q a w) -> Reads m Q.
Proof.
  intros Hm HPQ c Hc. destruct (Hm c Hc) as (H1 & H2 & H3). assert (Hby : forall w r, rest c = w ++ r -> is_bytes w).
  { intros w r Hr. assert (Hf : is_bytes (rest c)) by (apply Forall_drop, Hc). rewrite Hr in Hf. by apply Forall_app in Hf as [? _]. }
  split_and!; [|intros a w r Hr HQ; eapply H2; [exact Hr|apply HPQ; [by eapply Hby|done]]|done].
  intros a c' H. destruct (H1 a c' H) as (w & HP & Hp). exists w. split; [|done]. apply HPQ; [|done]. destruct Hp as (Hr & _). by eapply Hby.
Qed.

(** ** Primitive readers *)

Lemma reads_exact n : 0 <= n -> Reads (exact n) (fun a w => w = a /\ size a = n).
Proof.
  intros Hn c Hc. pose proof (rest_size c Hc) as Hrs. destruct Hc as [Ho Hby Hsz]. unfold exact, checked_add, slice_get. split_and!.
  - intros a c' H. destruct (_ <=? usize_max); [|done]. destruct (_ && _) eqn:E; [|done]. injection H as <- <-. bsimp.
    assert (Hlen : size (slice (offset c) (offset c + n - offset c) (bytes c)) = n).
    { unfold slice, size in *. rewrite length_take, length_drop. lia. }
    eexists. split; [split; [done|exact Hlen]|]. split_and!; [|done|simpl; lia].
    unfold rest, slice. simpl. replace (offset c + n - offset c) with n by lia.
    replace (Z.to_nat (offset c + n)) with (Z.to_nat (offset c) + Z.to_nat n)%nat by lia.
    rewrite <- drop_drop. by rewrite take_drop.
  - intros a w r Hr [-> Ha]. rewrite Hr, size_app in Hrs. pose proof (size_nonneg r).
    rewrite (proj2 (Z.leb_le _ usize_max)), (proj2 (Z.leb_le (offset c) _)), (proj2 (Z.leb_le _ (Z.of_nat (length (bytes c))))) by (unfold size in *; lia).
    cbn [andb]. rewrite Ha. do 2 f_equal. unfold slice. unfold rest in Hr. rewrite Hr.
    replace (Z.to_nat (offset c + n - offset c)) with (length a) by (unfold size in Ha; lia). apply take_app_length.
  - destruct (_ <=? usize_max); [|done]. by destruct (_ && _).
Qed.

Lemma reads_le (n : nat) : Reads (read_le (Z.of_nat n)) (fun v w => w = le_bytes n v /\ 0 <= v < 256 ^ Z.of_nat n).
Proof.
  eapply reads_iff; [apply reads_bind; [apply reads_exact; lia|intros bs _ _; apply reads_ret]|].
  intros v w Hw. split.
  - intros (bs & w1 & w2 & [-> Hs] & [-> ->] & ->). rewrite app_nil_r in *. assert (Hl : length bs = n) by (unfold size in Hs; lia).
    split; [by rewrite <- Hl, le_bytes_val|]. pose proof (le_val_bound bs Hw). by rewrite Hl in *.
  - intros [-> Hv]. exists (le_bytes n v), (le_bytes n v), []. split_and!; [done|unfold size; by rewrite le_bytes_length| |done|by rewrite app_nil_r].
    by rewrite le_val_bytes_small.
Qed.

Definition enc_u (n : nat) (v : Z) (w : list Z) : Prop := w = le_bytes n v /\ 0 <= v < 256 ^ Z.of_nat n.

Lemma reads_u8 : Reads read_u8 (enc_u 1).
Proof. exact (reads_le 1). Qed.
Lemma reads_u16 : Reads read_u16 (enc_u 2).
Proof. exact (reads_le 2). Qed.
Lemma reads_u32 : Reads read_u32 (enc_u 4).
Proof. exact (reads_le 4). Qed.
Lemma reads_u64 : Reads read_u64 (enc_u 8).
Proof. exact (reads_le 8). Qed.

Record limits_ok (l : FileSystemLimits) : Prop := {
  lo_components : 0 <= maximum_components l;
  lo_component : 0 <= maximum_component_bytes l;
  lo_path : maximum_path_bytes l <= usize_max }.

(** A canonical path, and the words that encode it. *)
Definition path_enc (l : FileSystemLimits) (p : VirtualPath) (w : list Z) : Prop :=
  path_ok l p /\ utf8_valid (fmt p) = true /\ encoded_len p < 2 ^ 32 /\ w = le_bytes 4 (encoded_len p) ++ fmt p.

Lemma reads_parse l text : Reads (match parse_utf8 text l with Ok p => mret p | Err _ => st_err NonCanonical | Panic => st_panic end)
  (fun p w => parse_utf8 text l = Ok p /\ w = []).
Proof.
  destruct (parse_utf8 text l) as [p| |] eqn:E.
  - eapply reads_iff; [apply reads_ret|]. naive_solver.
  - apply reads_err. naive_solver.
  - by apply parse_no_panic in E.
Qed.

Lemma reads_path l : limits_ok l -> Reads (read_path l) (path_enc l).
Proof.
  intros [Hc Hcb _]. eapply reads_iff.
  - apply reads_bind; [apply reads_u32|]. intros n w [_ Hn]. apply reads_if.
    + intros _. apply (reads_err _ (fun _ _ => False)). tauto.
    + intros _. apply reads_bind; [apply reads_exact; lia|]. intros text _ _. apply reads_if.
      * intros _. apply (reads_err _ (fun _ _ => False)). tauto.
      * intros _. apply reads_parse.
  - intros p w _. cbv beta. unfold enc_u, path_enc. split.
    + intros (n & w1 & w2 & [-> Hn] & H & ->). destruct (Z.ltb_spec (maximum_path_bytes l) n); [done|].
      destruct H as (text & w1 & w3 & [-> Ht] & H & ->). destruct (utf8_valid text) eqn:Eu; [|done]. cbn [negb] in H.
      destruct H as [Hp ->]. apply parse_accepts in Hp as [Hp ->]; [|done|done]. rewrite fmt_size in Ht. subst n.
      rewrite app_nil_r. change (2 ^ 32) with (256 ^ Z.of_nat 4). split_and!; try done. lia.
    + intros (Hp & Hu & Hn & ->). assert (0 <= encoded_len p) by (rewrite <- fmt_size; apply size_nonneg).
      exists (encoded_len p), (le_bytes 4 (encoded_len p)), (fmt p). split_and!; [done|done|done| |done].
      rewrite (proj2 (Z.ltb_ge _ _)) by apply Hp. exists (fmt p), (fmt p), []. split_and!; [done|apply fmt_size| |by rewrite app_nil_r].
      rewrite Hu. cbn [negb]. split; [|done]. by apply parse_accepts.
Qed.

(** ** Writers *)

Lemma write_components_app cs : forall w, write_components cs w = w ++ (cs ≫= fun c => slash :: c).
Proof.
  induction cs as [|c cs IH]; intros w; cbn [write_components]; [by rewrite app_nil_r|]. rewrite IH.
  unfold write_bytes. rewrite bind_cons, <- !app_assoc. done.
Qed.

Lemma write_path_app p w : write_path p w = if encoded_len p <? 2 ^ 32 then Ok (w ++ le_bytes 4 (encoded_len p) ++ fmt p) else Err LimitExceeded.
Proof.
  assert (0 <= encoded_len p) by (rewrite <- fmt_size; apply size_nonneg).
  unfold write_path, try_from_unsigned, in_range, u32_max. rewrite (proj2 (Z.leb_le _ _)) by lia. cbn [andb].
  destruct (Z.leb_spec (encoded_len p) (2 ^ 32 - 1)), (Z.ltb_spec (encoded_len p) (2 ^ 32)); try lia; [|done].
  cbn [ok_or mbind outcome_bind]. unfold write_u32, write_bytes. destruct p as [|c p]; [by rewrite <- app_assoc|].
  rewrite write_components_app. unfold fmt. rewrite <- !app_assoc. done.
Qed.

(** ** Whole inputs *)

Lemma reads_run {A B} (m : CursorM A) P (f : A -> CursorM B) c b c' : Reads m P -> cursor_ok c ->
  (m ≫= f) c = (Ok b, c') <-> exists a w c1, P a w /\ past c w c1 /\ f a c1 = (Ok b, c').
Proof.
  intros Hm Hc. destruct (Hm c Hc) as (Hs & Hcmp & _). split.
  - intros H. apply st_bind_inv in H as (a & c1 & H1 & H2). destruct (Hs _ _ H1) as (w & HP & Hp). by exists a, w, c1.
  - intros (a & w & c1 & HP & Hp & Hf). destruct Hp as (Hr & Hb & Ho). rewrite (st_bind_ok _ _ _ _ _ (Hcmp a w _ Hr HP)).
    rewrite <- Hb, <- Ho. by destruct c1.
Qed.

Lemma finish_rest c : cursor_ok c -> finish c = Ok tt <-> rest c = [].
Proof.
  intros Hc. pose proof (rest_size c Hc) as Hs. unfold finish. destruct (Z.eqb_spec (offset c) (size (bytes c))) as [E|E].
  - split; [|done]. intros _. apply nil_length_inv. unfold size in *. lia.
  - split; [done|]. intros Hr. rewrite Hr in Hs. unfold size in *. simpl in Hs. lia.
Qed.

(** A reader that must consume everything. *)
Definition complete {A} (m : CursorM A) : CursorM A := a ← m; _ ← st_read finish; mret a.

Lemma reads_complete {A} (m : CursorM A) P c a : Reads m P -> cursor_ok c -> (complete m c).1 = Ok a <-> P a (rest c).
Proof.
  intros Hm Hc. unfold complete. split.
  - destruct ((a ← m; _ ← st_read finish; mret a) c) as [o c'] eqn:E. simpl. intros ->. apply (reads_run m P) in E as (b & w & c1 & HP & Hp & Hf); [|done|done].
    apply st_bind_inv in Hf as (u & c2 & Hfin & [= <- <-]). destruct u. unfold st_read in Hfin. injection Hfin as Hfin <-.
    apply finish_rest in Hfin; [|by eapply past_ok]. destruct Hp as (-> & _). by rewrite Hfin, app_nil_r.
  - intros HP. set (c1 := mkCursor (bytes c) (offset c + size (rest c))).
    assert (Hr : rest c = rest c ++ []) by (by rewrite app_nil_r). destruct (advance_past c _ _ Hc Hr) as [Hp Hr1].
    assert (E : (a ← m; _ ← st_read finish; mret a) c = (Ok a, c1)); [|by rewrite E].
    apply (reads_run m P); [done|done|]. exists a, (rest c), c1. split_and!; [done|done|].
    apply finish_rest in Hr1; [|by eapply past_ok]. unfold mbind, ST_bind, st_read, c1. by rewrite Hr1.
Qed.

Lemma plain_ok bs : is_bytes bs -> size bs <= usize_max -> cursor_ok (plain bs).
Proof. intros Hb Hs. split; simpl; [|done|done]. pose proof (size_nonneg bs). lia. Qed.

Lemma plain_rest bs : rest (plain bs) = bs.
Proof. done. Qed.

Section Digested.
Context (sha256 : list Z -> Digest).
Hypothesis sha256_size : forall bs, size (sha256 bs) = DIGEST_BYTES.

Lemma finish_checked_ok w maximum bs : maximum <= usize_max ->
  finish_checked sha256 w maximum = Ok bs <-> bs = w ++ sha256 w /\ size w + DIGEST_BYTES <= maximum.
Proof.
  intros Hm. unfold finish_checked, checked_add. destruct (Z.leb_spec (size w + DIGEST_BYTES) usize_max); simpl.
  - destruct (Z.ltb_spec maximum (size w + DIGEST_BYTES)); naive_solver lia.
  - split; [done|]. lia.
Qed.

Lemma verified_ok bs maximum c : verified sha256 bs maximum = Ok c <->
  bs = bytes c ++ sha256 (bytes c) /\ offset c = 0 /\ size bs <= maximum.
Proof.
  unfold verified. destruct (Z.ltb_spec maximum (size bs)); [split; [done|lia]|].
  destruct (Z.ltb_spec (size bs) DIGEST_BYTES).
  { split; [done|]. intros (-> & _). rewrite size_app, sha256_size in *. pose proof (size_nonneg (bytes c)). lia. }
  set (n := Z.to_nat (size bs - DIGEST_BYTES)). destruct (bool_decide _) eqn:E; bsimp.
  - split; [intros [= <-]; simpl; split_and!; [by rewrite E, take_drop|done|done]|]. intros (Hb & Ho & _). f_equal.
    destruct c as [cb co]. simpl in *. subst co. f_equal. subst n. rewrite Hb, size_app, sha256_size.
    replace (size cb + DIGEST_BYTES - DIGEST_BYTES) with (size cb) by lia. unfold size. rewrite Nat2Z.id. by rewrite take_app_length.
  - split; [done|]. intros (Hb & _). exfalso. apply E. subst n. rewrite Hb, size_app, sha256_size.
    replace (size (bytes c) + DIGEST_BYTES - DIGEST_BYTES) with (size (bytes c)) by lia. unfold size. rewrite Nat2Z.id.
    by rewrite take_app_length, drop_app_length.
Qed.

Lemma verified_cursor bs maximum c : is_bytes bs -> maximum <= usize_max -> verified sha256 bs maximum = Ok c ->
  cursor_ok c /\ rest c = bytes c.
Proof.
  intros Hb Hm (E & Ho & Hs)%verified_ok. rewrite E, size_app, sha256_size in Hs. unfold DIGEST_BYTES in Hs.
  pose proof (size_nonneg (bytes c)). rewrite E in Hb. apply Forall_app in Hb as [Hb _].
  split; [split; [lia|done|lia]|]. unfold rest. by rewrite Ho.
Qed.

End Digested.

(** A digest for examples: the first bytes. *)
Definition demo_digest (bs : list Z) : Digest := resize 32 0 ((fun b => b mod 256) <$> bs).

Lemma demo_digest_size bs : size (demo_digest bs) = DIGEST_BYTES.
Proof. unfold size, demo_digest. by rewrite length_resize. Qed.

Lemma demo_digest_bytes bs : is_bytes (demo_digest bs).
Proof.
  apply Forall_resize; [by split|]. apply Forall_fmap, Forall_true. intros b. apply Z.mod_pos_bound. lia.
Qed.

Lemma testing_paths : limits_ok testing.
Proof. by split. Qed.

End CodecProps.
