(* ===== verification/Journal.v ===== *)
(** src/filesystem/persistence/journal.rs: the records of the write-ahead journal,
    one namespace mutation each, and their canonical encoding. *)

From S2P Require Import Prelude Words Unicode Path Codec.

Module Journal.
Import FsError FsLimits Path Codec.

(** [b"CPKTJNL\0"]. *)
Definition MAGIC : list Z := [67; 80; 75; 84; 74; 78; 76; 0].

Inductive JournalOperation :=
| CreateDirectory (path : VirtualPath) (node_generation : Z)
| PutFile (path : VirtualPath) (node_generation logical_size : Z) (object_id : Digest) (executable : bool)
| Remove (path : VirtualPath)
| Rename (source destination : VirtualPath) (replace : bool).

Definition add_path (limits : FileSystemLimits) (p : VirtualPath) (length : Z) : outcome PersistenceCodecError Z :=
  if maximum_path_bytes limits <? encoded_len p then Err LimitExceeded
  else
    n ← path_record_len p;
    ok_or (checked_add usize_max length n) LimitExceeded.

Definition op_encoded_len (op : JournalOperation) (limits : FileSystemLimits) : outcome PersistenceCodecError Z :=
  length ← match op with
           | CreateDirectory p _ | PutFile p _ _ _ _ | Remove p => add_path limits p 4
           | Rename s d _ => length ← add_path limits s 4; add_path limits d length
           end;
  ok_or (checked_add usize_max length
           match op with CreateDirectory _ _ => 8 | PutFile _ _ _ _ _ => 8 + 8 + 32 | Remove _ | Rename _ _ _ => 0 end) LimitExceeded.

Definition of_bool (b : bool) : Z := if b then 1 else 0.

Definition op_encode (op : JournalOperation) (limits : FileSystemLimits) : outcome PersistenceCodecError (list Z) :=
  length ← op_encoded_len op limits;
  if maximum_journal_payload_bytes limits <? length then Err LimitExceeded
  else
    match op with
    | CreateDirectory p g =>
        w ← write_path p (write_u16 0 (write_u8 0 (write_u8 1 [])));
        Ok (write_u64 g w)
    | PutFile p g n o x =>
        w ← write_path p (write_u16 0 (write_u8 (of_bool x) (write_u8 2 [])));
        Ok (write_bytes o (write_u64 n (write_u64 g w)))
    | Remove p => write_path p (write_u16 0 (write_u8 0 (write_u8 3 [])))
    | Rename s d r =>
        w ← write_path s (write_u16 0 (write_u8 (of_bool r) (write_u8 4 [])));
        write_path d w
    end.

(** [flags & !1 == 0] and [flags & 1 != 0] on a byte. *)
Definition only_low_bit (flags : Z) : bool := Z.land flags (Z.lxor u8_max 1) =? 0.
Definition low_bit (flags : Z) : bool := negb (Z.land flags 1 =? 0).

Definition read_operation (limits : FileSystemLimits) : CursorM JournalOperation :=
  operation ← read_u8;
  flags ← read_u8;
  reserved ← read_u16;
  if negb (reserved =? 0) then st_err Malformed
  else if (operation =? 1) && (flags =? 0) then
    p ← read_path limits;
    g ← read_u64;
    mret (CreateDirectory p g)
  else if (operation =? 2) && only_low_bit flags then
    p ← read_path limits;
    g ← read_u64;
    n ← read_u64;
    if maximum_file_bytes limits <? n then st_err LimitExceeded
    else
      o ← exact 32;
      mret (PutFile p g n o (low_bit flags))
  else if (operation =? 3) && (flags =? 0) then
    p ← read_path limits;
    mret (Remove p)
  else if (operation =? 4) && only_low_bit flags then
    s ← read_path limits;
    d ← read_path limits;
    mret (Rename s d (low_bit flags))
  else st_err Malformed.

Definition paths_are_home_descendants (op : JournalOperation) : bool :=
  match op with
  | CreateDirectory p _ | PutFile p _ _ _ _ | Remove p => home_descendant p
  | Rename s d _ => home_descendant s && home_descendant d && negb (bool_decide (s = d))
  end.

Definition op_decode (bs : list Z) (limits : FileSystemLimits) : outcome PersistenceCodecError JournalOperation :=
  result ← ((result ← read_operation limits; _ ← st_read finish; mret result) (plain bs)).1;
  if negb (paths_are_home_descendants result) then Err NonCanonical else Ok result.

Definition generation_is_canonical (op : JournalOperation) (sequence : Z) : bool :=
  match op with
  | CreateDirectory _ g | PutFile _ g _ _ _ => g =? sequence
  | Remove _ | Rename _ _ _ => true
  end.

Record JournalRecord := mkRecord {
  computer_id : ComputerId; sequence : Z; previous_sequence : Z; operation : JournalOperation }.

Definition record_new (id : ComputerId) (seq prev : Z) (op : JournalOperation) : outcome PersistenceCodecError JournalRecord :=
  if (seq =? 0) || negb (bool_decide (checked_add u64_max prev 1 = Some seq)) ||
     negb (paths_are_home_descendants op) || negb (generation_is_canonical op seq)
  then Err NonCanonical
  else Ok (mkRecord id seq prev op).

Section Digest.
Context (sha256 : list Z -> Digest).

Definition record_encode (r : JournalRecord) (limits : FileSystemLimits) : outcome PersistenceCodecError (list Z) :=
  payload ← op_encode (operation r) limits;
  encoded_without_digest ← ok_or (checked_add usize_max 48 (size payload)) LimitExceeded;
  total ← ok_or (checked_add usize_max encoded_without_digest DIGEST_BYTES) LimitExceeded;
  if maximum_journal_record_bytes limits <? total then Err LimitExceeded
  else
    let w := write_u64 (previous_sequence r) (write_u64 (sequence r) (write_bytes (computer_id r)
               (write_u16 0 (write_u16 1 (write_bytes MAGIC []))))) in
    payload_length ← ok_or (try_from_unsigned u32_max (size payload)) LimitExceeded;
    finish_checked sha256 (write_bytes payload (write_u32 payload_length w)) (maximum_journal_record_bytes limits).

(** The fixed fields, in order. *)
Definition record_header : CursorM (ComputerId * Z * Z * Z) :=
  magic ← exact 8;
  if negb (bool_decide (magic = MAGIC)) then st_err Malformed
  else
    version ← read_u16;
    if negb (version =? 1) then st_err UnsupportedVersion
    else
      reserved ← read_u16;
      if negb (reserved =? 0) then st_err Malformed
      else
        id ← exact 16;
        seq ← read_u64;
        prev ← read_u64;
        payload_length ← read_u32;
        mret (id, seq, prev, payload_length).

Definition record_body (limits : FileSystemLimits) : CursorM JournalRecord :=
  '(id, seq, prev, payload_length) ← record_header;
  c ← st_get;
  if (maximum_journal_payload_bytes limits <? payload_length) || negb (payload_length =? remaining c)
  then st_err (if maximum_journal_payload_bytes limits <? payload_length then LimitExceeded else Malformed)
  else
    payload ← exact payload_length;
    op ← st_lift (op_decode payload limits);
    _ ← st_read finish;
    st_lift (record_new id seq prev op).

Definition record_decode (bs : list Z) (limits : FileSystemLimits) : outcome PersistenceCodecError JournalRecord :=
  cursor ← verified sha256 bs (maximum_journal_record_bytes limits);
  (record_body limits cursor).1.

End Digest.
End Journal.

Module JournalProps.
Import FsError FsLimits Path PathProps Codec CodecProps Journal.

(** ** Operations *)

(** An operation whose fields have their machine widths and whose paths are
    canonical. *)
Definition path_valid (l : FileSystemLimits) (p : VirtualPath) : Prop :=
  path_ok l p /\ utf8_valid (fmt p) = true /\ encoded_len p < 2 ^ 32.

Definition op_valid (l : FileSystemLimits) (op : JournalOperation) : Prop :=
  match op with
  | CreateDirectory p g => path_valid l p /\ 0 <= g < 2 ^ 64
  | PutFile p g n o _ => path_valid l p /\ 0 <= g < 2 ^ 64 /\ 0 <= n < 2 ^ 64 /\ n <= maximum_file_bytes l /\ size o = 32
  | Remove p => path_valid l p
  | Rename s d _ => path_valid l s /\ path_valid l d
  end.

Definition path_word (p : VirtualPath) : list Z := le_bytes 4 (encoded_len p) ++ fmt p.

Definition op_word (op : JournalOperation) : list Z :=
  match op with
  | CreateDirectory p g => [1; 0; 0; 0] ++ path_word p ++ le_bytes 8 g
  | PutFile p g n o x => [2; of_bool x; 0; 0] ++ path_word p ++ le_bytes 8 g ++ le_bytes 8 n ++ o
  | Remove p => [3; 0; 0; 0] ++ path_word p
  | Rename s d r => [4; of_bool r; 0; 0] ++ path_word s ++ path_word d
  end.

Lemma encoded_len_nonneg p : 0 <= encoded_len p.
Proof. rewrite <- fmt_size. apply size_nonneg. Qed.

Lemma size_le n z : size (le_bytes n z) = Z.of_nat n.
Proof. unfold size. by rewrite le_bytes_length. Qed.

Lemma size_four {A} (a b c d : A) : size [a; b; c; d] = 4.
Proof. done. Qed.

Lemma path_word_size p : size (path_word p) = 4 + encoded_len p.
Proof. unfold path_word. rewrite size_app, fmt_size. done. Qed.

Lemma add_path_ok l p n : limits_ok l -> path_valid l p -> 0 <= n -> n + (4 + encoded_len p) <= usize_max ->
  add_path l p n = Ok (n + (4 + encoded_len p)).
Proof.
  intros [_ _ _] (Hp & _ & _) Hn Hb. unfold add_path, path_record_len, checked_add. pose proof (encoded_len_nonneg p).
  rewrite (proj2 (Z.ltb_ge _ _)) by apply Hp. rewrite (proj2 (Z.leb_le _ _)) by lia. cbn [ok_or mbind outcome_bind].
  by rewrite (proj2 (Z.leb_le _ _)) by lia.
Qed.

(** The computed length of a valid operation is the length of its encoding. *)
Lemma op_encoded_len_ok l op : limits_ok l -> op_valid l op -> op_encoded_len op l = Ok (size (op_word op)).
Proof.
  intros Hl Hop. unfold op_encoded_len. assert (Hw : forall p, path_valid l p -> 0 <= encoded_len p < 2 ^ 32).
  { intros p (_ & _ & Hp). pose proof (encoded_len_nonneg p). lia. } assert (usize_max = 2 ^ 64 - 1) by done.
  destruct op as [p g|p g n o x|p|s d r]; cbn [op_word op_valid] in *; rewrite !size_app, ?path_word_size, ?size_le, size_four.
  - destruct Hop as [Hp _]. pose proof (Hw p Hp). rewrite add_path_ok by (done || lia). cbn [mbind outcome_bind].
    unfold checked_add. rewrite (proj2 (Z.leb_le _ _)) by lia. cbn [ok_or]. f_equal. lia.
  - destruct Hop as (Hp & _ & _ & _ & Ho). pose proof (Hw p Hp). rewrite add_path_ok by (done || lia). cbn [mbind outcome_bind].
    unfold checked_add. rewrite (proj2 (Z.leb_le _ _)) by lia. rewrite Ho. cbn [ok_or]. f_equal. lia.
  - pose proof (Hw p Hop). rewrite add_path_ok by (done || lia). cbn [mbind outcome_bind].
    unfold checked_add. rewrite (proj2 (Z.leb_le _ _)) by lia. cbn [ok_or]. f_equal. lia.
  - destruct Hop as [Hs Hd]. pose proof (Hw s Hs). pose proof (Hw d Hd). rewrite add_path_ok by (done || lia). cbn [mbind outcome_bind].
    rewrite add_path_ok by (done || lia). cbn [mbind outcome_bind]. unfold checked_add. rewrite (proj2 (Z.leb_le _ _)) by lia.
    cbn [ok_or]. f_equal. lia.
Qed.

Lemma write_valid_path l p w : path_valid l p -> write_path p w = Ok (w ++ path_word p).
Proof. intros (_ & _ & Hp). rewrite write_path_app. by rewrite (proj2 (Z.ltb_lt _ _)). Qed.

Lemma op_encode_ok l op : limits_ok l -> op_valid l op ->
  op_encode op l = if maximum_journal_payload_bytes l <? size (op_word op) then Err LimitExceeded else Ok (op_word op).
Proof.
  intros Hl Hop. unfold op_encode. rewrite op_encoded_len_ok by done. cbn [mbind outcome_bind].
  destruct (_ <? _); [done|]. unfold write_u16, write_u64, write_u8, write_bytes.
  destruct op as [p g|p g n o x|p|s d r]; cbn [op_word op_valid] in *.
  - destruct Hop as [Hp _]. rewrite (write_valid_path l) by done. cbn [mbind outcome_bind]. by rewrite <- !app_assoc.
  - destruct Hop as [Hp _]. rewrite (write_valid_path l) by done. cbn [mbind outcome_bind]. by rewrite <- !app_assoc.
  - by rewrite (write_valid_path l).
  - destruct Hop as [Hs Hd]. rewrite (write_valid_path l) by done. cbn [mbind outcome_bind]. rewrite (write_valid_path l) by done.
    by rewrite <- !app_assoc.
Qed.

Lemma path_enc_valid l p w : path_enc l p w <-> path_valid l p /\ w = path_word p.
Proof. unfold path_enc, path_valid, path_word. tauto. Qed.

Lemma low_bits flags : 0 <= flags < 256 -> only_low_bit flags = true -> flags = of_bool (low_bit flags).
Proof.
  intros Hf Ho. assert (H : forallb (fun b => negb (only_low_bit b) || (b =? of_bool (low_bit b))) (seqZ 0 256) = true) by (vm_compute; reflexivity).
  pose proof (byte_forall _ H flags Hf) as Hb. cbv beta in Hb. rewrite Ho in Hb. simpl in Hb. by apply Z.eqb_eq in Hb.
Qed.

Lemma reads_vpath l : limits_ok l -> Reads (read_path l) (fun p w => path_valid l p /\ w = path_word p).
Proof. intros Hl. eapply reads_iff; [by apply reads_path|]. intros p w _. apply path_enc_valid. Qed.

Lemma reads_create l : limits_ok l -> Reads (p ← read_path l; g ← read_u64; mret (CreateDirectory p g))
  (fun op w => exists p g, op = CreateDirectory p g /\ path_valid l p /\ 0 <= g < 2 ^ 64 /\ w = path_word p ++ le_bytes 8 g).
Proof.
  intros Hl. eapply reads_iff.
  { apply reads_bind; [by apply reads_vpath|]. intros p _ _. apply reads_bind; [apply reads_u64|]. intros g _ _. apply reads_ret. }
  intros op w _. split.
  - intros (p & w1 & w2 & [Hp ->] & (g & w3 & w4 & [-> Hg] & [-> ->] & ->) & ->). exists p, g. rewrite app_nil_r. done.
  - intros (p & g & -> & Hp & Hg & ->). eexists p, _, _. split_and!; [done|done| |done]. eexists g, _, []. split_and!; [split; done|done|done|].
    by rewrite app_nil_r.
Qed.

Lemma reads_put l x : limits_ok l ->
  Reads (p ← read_path l; g ← read_u64; n ← read_u64;
         if maximum_file_bytes l <? n then st_err LimitExceeded else o ← exact 32; mret (PutFile p g n o x))
  (fun op w => exists p g n o, op = PutFile p g n o x /\ op_valid l op /\ w = path_word p ++ le_bytes 8 g ++ le_bytes 8 n ++ o).
Proof.
  intros Hl. eapply reads_iff.
  { apply reads_bind; [by apply reads_vpath|]. intros p _ _. apply reads_bind; [apply reads_u64|]. intros g _ _.
    apply reads_bind; [apply reads_u64|]. intros n _ _. apply reads_if.
    - intros _. apply (reads_err _ (fun _ _ => False)). tauto.
    - intros _. apply reads_bind; [by apply reads_exact|]. intros o _ _. apply reads_ret. }
  intros op w _. cbv beta. split.
  - intros (p & w1 & w2 & [Hp ->] & (g & w3 & w4 & [-> Hg] & (n & w5 & w6 & [-> Hn] & H & ->) & ->) & ->).
    destruct (Z.ltb_spec (maximum_file_bytes l) n); [done|]. destruct H as (o & w7 & w8 & [-> Ho] & [-> ->] & ->).
    exists p, g, n, o. rewrite app_nil_r. done.
  - intros (p & g & n & o & -> & (Hp & Hg & Hn & Hmax & Ho) & ->).
    eexists p, _, _. split_and!; [done|done| |done]. eexists g, _, _. split_and!; [split; done| |done].
    eexists n, _, _. split_and!; [split; done| |done]. rewrite (proj2 (Z.ltb_ge _ _)) by done.
    eexists o, o, []. split_and!; [done|done|done|done|by rewrite app_nil_r].
Qed.

Lemma reads_remove l : limits_ok l -> Reads (p ← read_path l; mret (Remove p))
  (fun op w => exists p, op = Remove p /\ path_valid l p /\ w = path_word p).
Proof.
  intros Hl. eapply reads_iff; [apply reads_bind; [by apply reads_vpath|intros p _ _; apply reads_ret]|]. intros op w _. split.
  - intros (p & w1 & w2 & [Hp ->] & [-> ->] & ->). exists p. by rewrite app_nil_r.
  - intros (p & -> & Hp & ->). eexists p, _, []. split_and!; [done|done|done|done|by rewrite app_nil_r].
Qed.

Lemma reads_rename l r : limits_ok l -> Reads (s ← read_path l; d ← read_path l; mret (Rename s d r))
  (fun op w => exists s d, op = Rename s d r /\ path_valid l s /\ path_valid l d /\ w = path_word s ++ path_word d).
Proof.
  intros Hl. eapply reads_iff.
  { apply reads_bind; [by apply reads_vpath|]. intros p _ _. apply reads_bind; [by apply reads_vpath|]. intros g _ _. apply reads_ret. }
  intros op w _. split.
  - intros (p & w1 & w2 & [Hp ->] & (g & w3 & w4 & [Hg ->] & [-> ->] & ->) & ->). exists p, g. rewrite app_nil_r. done.
  - intros (p & g & -> & Hp & Hg & ->). eexists p, _, _. split_and!; [done|done| |done]. eexists g, _, []. split_and!; [done|done|done|done|].
    by rewrite app_nil_r.
Qed.

Definition no_word (_ : JournalOperation) (_ : list Z) : Prop := False.

Lemma reads_operation l : limits_ok l -> Reads (read_operation l) (fun op w => op_valid l op /\ w = op_word op).
Proof.
  intros Hl. eapply reads_iff.
  { apply reads_bind; [apply reads_u8|]. intros k _ _. apply reads_bind; [apply reads_u8|]. intros f _ _.
    apply reads_bind; [apply reads_u16|]. intros z _ _.
    apply reads_if; [intros _; apply (reads_err _ no_word); tauto|intros _].
    apply reads_if; [intros _; by apply reads_create|intros _].
    apply reads_if; [intros _; by apply reads_put|intros _].
    apply reads_if; [intros _; by apply reads_remove|intros _].
    apply reads_if; [intros _; by apply reads_rename|intros _]. apply (reads_err _ no_word). tauto. }
  intros op w _. cbv beta. split.
  - intros (k & w1 & w2 & [-> Hk] & (f & w3 & w4 & [-> Hf] & (z & w5 & w6 & [-> Hz] & H & ->) & ->) & ->).
    destruct (Z.eqb_spec z 0) as [->|]; [|done]. cbn [negb] in H. change (256 ^ Z.of_nat 1) with 256 in *.
    assert (Ew : le_bytes 1 k ++ le_bytes 1 f ++ le_bytes 2 0 = [k; f; 0; 0]).
    { unfold le_bytes. rewrite !Z.mod_small by lia. done. }
    rewrite !app_assoc, <- (app_assoc (le_bytes 1 k)), Ew. clear Ew. destruct ((k =? 1) && (f =? 0)) eqn:E1; bsimp; subst.
    { destruct H as (p & g & -> & Hp & Hg & ->). done. }
    clear E1. destruct ((k =? 2) && only_low_bit f) eqn:E2; bsimp; subst.
    { destruct H as (p & g & n & o & -> & Hv & ->). split; [done|]. cbn [op_word]. by rewrite <- low_bits. }
    clear E2. destruct ((k =? 3) && (f =? 0)) eqn:E3; bsimp; subst.
    { destruct H as (p & -> & Hp & ->). done. }
    clear E3. destruct ((k =? 4) && only_low_bit f) eqn:E4; bsimp; subst; [|done].
    destruct H as (s & d & -> & Hs & Hd & ->). split; [done|]. cbn [op_word]. by rewrite <- low_bits.
  - intros [Hv ->].
    destruct op as [p g|p g n o x|p|s d r]; cbn [op_word op_valid] in *.
    + eexists 1, [1], _. split_and!; [split; done| |done]. eexists 0, [0], _. split_and!; [split; done| |done].
      eexists 0, [0; 0], _. split_and!; [split; done| |done]. cbn. exists p, g. destruct Hv. done.
    + eexists 2, [2], _. split_and!; [split; done| |done]. eexists (of_bool x), [of_bool x], _. split_and!; [split; by destruct x| |done].
      eexists 0, [0; 0], _. split_and!; [split; done| |done]. destruct x; cbn; exists p, g, n, o; done.
    + eexists 3, [3], _. split_and!; [split; done| |done]. eexists 0, [0], _. split_and!; [split; done| |done].
      eexists 0, [0; 0], _. split_and!; [split; done| |done]. cbn. exists p. done.
    + eexists 4, [4], _. split_and!; [split; done| |done]. eexists (of_bool r), [of_bool r], _. split_and!; [split; by destruct r| |done].
      eexists 0, [0; 0], _. split_and!; [split; done| |done]. destruct r; cbn; exists s, d; naive_solver.
Qed.

Lemma op_decode_ok l bs op : limits_ok l -> is_bytes bs -> size bs <= usize_max ->
  op_decode bs l = Ok op <-> op_valid l op /\ paths_are_home_descendants op = true /\ bs = op_word op.
Proof.
  intros Hl Hb Hs. unfold op_decode. pose proof (fun op => reads_complete _ _ (plain bs) op (reads_operation l Hl) (plain_ok bs Hb Hs)) as Hc.
  unfold complete in Hc. rewrite plain_rest in Hc. set (run := (_ (plain bs)).1) in *. split.
  - intros H. apply outcome_bind_inv in H as (r & Hr & H). apply Hc in Hr as [Hv ->].
    destruct (paths_are_home_descendants r) eqn:E; [|done]. by injection H as <-.
  - intros (Hv & Hp & Hw). assert (Hr : run = Ok op) by (by apply Hc). rewrite Hr. cbn [mbind outcome_bind]. by rewrite Hp.
Qed.

(** ** Records *)

Definition header_word (id : list Z) (seq prev n : Z) : list Z :=
  MAGIC ++ le_bytes 2 1 ++ le_bytes 2 0 ++ id ++ le_bytes 8 seq ++ le_bytes 8 prev ++ le_bytes 4 n.

Lemma reads_header : Reads record_header (fun '(id, seq, prev, n) w =>
  size id = 16 /\ 0 <= seq < 2 ^ 64 /\ 0 <= prev < 2 ^ 64 /\ 0 <= n < 2 ^ 32 /\ w = header_word id seq prev n).
Proof.
  eapply reads_iff.
  { apply reads_bind; [by apply reads_exact|]. intros m _ _.
    apply reads_if; [intros _; apply (reads_err _ (fun _ _ => False)); tauto|intros _].
    apply reads_bind; [apply reads_u16|]. intros v _ _.
    apply reads_if; [intros _; apply (reads_err _ (fun _ _ => False)); tauto|intros _].
    apply reads_bind; [apply reads_u16|]. intros z _ _.
    apply reads_if; [intros _; apply (reads_err _ (fun _ _ => False)); tauto|intros _].
    apply reads_bind; [by apply reads_exact|]. intros id _ _. apply reads_bind; [apply reads_u64|]. intros seq _ _.
    apply reads_bind; [apply reads_u64|]. intros prev _ _. apply reads_bind; [apply reads_u32|]. intros n _ _. apply reads_ret. }
  intros [[[id seq] prev] n] w _. cbv beta. unfold header_word. split.
  - intros (m & w1 & w2 & [-> Hm] & H & ->). destruct (bool_decide (m = MAGIC)) eqn:Em; [|done]. apply bool_decide_eq_true in Em as ->.
    cbn [negb] in H. destruct H as (v & w1 & w3 & [-> Hv] & H & ->). destruct (Z.eqb_spec v 1) as [->|]; [|done].
    cbn [negb] in H. destruct H as (z & w1 & w4 & [-> Hz] & H & ->). destruct (Z.eqb_spec z 0) as [->|]; [|done]. cbn [negb] in H.
    destruct H as (id' & wa & w5 & [-> Hid] & (seq' & wb & w6 & [-> Hseq] & (prev' & wc & w7 & [-> Hprev] & (n' & wd & w8 & [-> Hn] & [E ->] & ->) & ->) & ->) & ->).
    injection E as -> -> -> ->. rewrite app_nil_r. done.
  - intros (Hid & Hseq & Hprev & Hn & ->). eexists MAGIC, _, _. split_and!; [done|done| |done]. rewrite bool_decide_eq_true_2 by done. cbn [negb].
    eexists 1, _, _. split_and!; [split; done| |done]. cbn [negb Z.eqb Pos.eqb]. eexists 0, _, _. split_and!; [split; done| |done].
    cbn [negb Z.eqb]. eexists id, _, _. split_and!; [done|done| |done]. eexists seq, _, _. split_and!; [split; done| |done].
    eexists prev, _, _. split_and!; [split; done| |done]. eexists n, _, []. split_and!; [split; done|done|done|by rewrite app_nil_r].
Qed.

Definition record_word (r : JournalRecord) : list Z :=
  header_word (computer_id r) (sequence r) (previous_sequence r) (size (op_word (operation r))) ++ op_word (operation r).

(** What a record in memory satisfies: its fields have their widths, its paths are
    canonical, and [JournalRecord::new] accepts it. *)
Record record_valid (l : FileSystemLimits) (r : JournalRecord) : Prop := {
  rv_id : size (computer_id r) = 16;
  rv_seq : 0 <= sequence r < 2 ^ 64;
  rv_prev : 0 <= previous_sequence r < 2 ^ 64;
  rv_op : op_valid l (operation r);
  rv_new : record_new (computer_id r) (sequence r) (previous_sequence r) (operation r) = Ok r }.

Lemma record_word_size r : size (computer_id r) = 16 -> size (record_word r) = 48 + size (op_word (operation r)).
Proof. intros Hid. unfold record_word, header_word. rewrite !size_app, !size_le, Hid. change (size MAGIC) with 8. lia. Qed.

Section Digested.
Context (sha256 : list Z -> Digest).
Hypothesis sha256_size : forall bs, size (sha256 bs) = DIGEST_BYTES.
Context (l : FileSystemLimits).
Hypothesis l_ok : limits_ok l.
Hypothesis l_record : maximum_journal_record_bytes l <= usize_max.

Lemma record_encode_ok r bs : record_valid l r ->
  record_encode sha256 r l = Ok bs <->
  size (op_word (operation r)) <= maximum_journal_payload_bytes l /\ size (op_word (operation r)) < 2 ^ 32 /\
  size bs <= maximum_journal_record_bytes l /\ bs = record_word r ++ sha256 (record_word r).
Proof.
  intros [Hid Hseq Hprev Hop Hnew]. unfold record_encode. rewrite op_encode_ok by done. pose proof (record_word_size r Hid) as Hw.
  pose proof (size_nonneg (op_word (operation r))) as Hn. set (n := size (op_word (operation r))) in *.
  assert (Hbs : bs = record_word r ++ sha256 (record_word r) -> size bs = 48 + n + DIGEST_BYTES).
  { intros ->. rewrite size_app, sha256_size, Hw. lia. }
  destruct (Z.ltb_spec (maximum_journal_payload_bytes l) n); [split; [done|]; intros (? & _); lia|].
  cbn [mbind outcome_bind]. fold n. unfold checked_add, try_from_unsigned, in_range, u32_max. unfold DIGEST_BYTES in *.
  destruct (Z.leb_spec (48 + n) usize_max); cbn [ok_or mbind outcome_bind]; [|split; [done|]; intros (_ & _ & Hs & E); specialize (Hbs E); lia].
  destruct (Z.leb_spec (48 + n + 32) usize_max); cbn [ok_or mbind outcome_bind]; [|split; [done|]; intros (_ & _ & Hs & E); specialize (Hbs E); lia].
  destruct (Z.ltb_spec (maximum_journal_record_bytes l) (48 + n + 32)); [split; [done|]; intros (_ & _ & Hs & E); specialize (Hbs E); lia|].
  rewrite (proj2 (Z.leb_le 0 n)) by done. cbn [andb].
  destruct (Z.leb_spec n (2 ^ 32 - 1)); cbn [ok_or mbind outcome_bind]; [|split; [done|lia]].
  rewrite finish_checked_ok by done. assert (E : write_bytes (op_word (operation r)) (write_u32 n (write_u64 (previous_sequence r)
    (write_u64 (sequence r) (write_bytes (computer_id r) (write_u16 0 (write_u16 1 (write_bytes MAGIC []))))))) = record_word r).
  { unfold record_word, header_word, write_u16, write_u32, write_u64, write_bytes. rewrite <- !app_assoc. done. }
  rewrite E, Hw. unfold DIGEST_BYTES. split.
  - intros [-> Hs]. specialize (Hbs eq_refl). split_and!; [lia|lia|lia|done].
  - intros (_ & _ & Hs & ->). specialize (Hbs eq_refl). split; [done|lia].
Qed.

Lemma record_decode_ok r bs : is_bytes bs ->
  record_decode sha256 bs l = Ok r <->
  record_valid l r /\ size (op_word (operation r)) <= maximum_journal_payload_bytes l /\ size (op_word (operation r)) < 2 ^ 32 /\
  size bs <= maximum_journal_record_bytes l /\ bs = record_word r ++ sha256 (record_word r).
Proof.
  intros Hby. unfold record_decode. split.
  - intros H. apply outcome_bind_inv in H as (c & Hc & H). destruct (verified_cursor sha256 sha256_size bs _ c Hby l_record Hc) as [Hcok Hrest].
    apply (verified_ok sha256 sha256_size) in Hc as (Hbs & Ho & Hsz). destruct (record_body l c) as [o c'] eqn:E. simpl in H. subst o.
    unfold record_body in E. apply (reads_run _ _ _ _ _ _ reads_header Hcok) in E as ([[[id seq] prev] n] & w & c1 & (Hid & Hseq & Hprev & Hn & ->) & Hp & E).
    pose proof (past_ok _ _ _ Hcok Hp) as Hc1. unfold mbind at 1, ST_bind at 1, st_get in E.
    destruct (_ || _) eqn:Eg in E; [done|]. bsimp. pose proof (rest_size c1 Hc1) as Hr1. unfold remaining in *.
    apply (reads_run _ _ _ _ _ _ (reads_exact n ltac:(lia)) Hc1) in E as (payload & w & c2 & [-> Hpl] & Hp2 & E).
    unfold mbind at 1, ST_bind at 1, st_lift at 1 in E. destruct (op_decode payload l) as [op| |] eqn:Eop; [|done|done].
    unfold mbind, ST_bind, st_read in E. destruct (finish c2) as [u| |] eqn:Ef; [|done|done]. destruct u. unfold st_lift in E. injection E as E <-.
    apply finish_rest in Ef; [|by eapply past_ok]. destruct Hp as (Hw & Hb1 & _). destruct Hp2 as (Hw2 & _). rewrite Ef, app_nil_r in Hw2.
    assert (Hpb : is_bytes payload). { rewrite <- Hw2. unfold rest. rewrite Hb1. apply Forall_drop, Hcok. }
    apply op_decode_ok in Eop as (Hv & Hh & ->); [|done|done|rewrite Hpl; unfold usize_max; lia].
    assert (Er : r = mkRecord id seq prev op). { unfold record_new in E. destruct (_ || _); [done|]. by injection E as <-. }
    subst r. cbn [operation]. rewrite Hpl. assert (Hword : bytes c = record_word (mkRecord id seq prev op)).
    { rewrite <- Hrest, Hw, Hw2. unfold record_word. cbn [operation computer_id sequence previous_sequence]. by rewrite Hpl. }
    rewrite <- Hword. split_and!; try done.
  - intros ([Hid Hseq Hprev Hop Hnew] & Hmax & H32 & Hsz & Hbs). set (c := mkCursor (record_word r) 0).
    assert (Hc : verified sha256 bs (maximum_journal_record_bytes l) = Ok c) by (by apply (verified_ok sha256 sha256_size)).
    rewrite Hc. cbn [mbind outcome_bind]. destruct (verified_cursor sha256 sha256_size bs _ c Hby l_record Hc) as [Hcok Hrest].
    set (payload := op_word (operation r)) in *. set (h := header_word (computer_id r) (sequence r) (previous_sequence r) (size payload)).
    assert (Hh : rest c = h ++ payload) by done. destruct (advance_past c h payload Hcok Hh) as [Hp Hr1]. set (c1 := mkCursor (bytes c) (offset c + size h)) in *.
    pose proof (past_ok _ _ _ Hcok Hp) as Hc1. pose proof (rest_size c1 Hc1) as Hs1. pose proof (size_nonneg payload) as Hpn.
    assert (Hr1' : rest c1 = payload ++ []) by (by rewrite app_nil_r). destruct (advance_past c1 payload [] Hc1 Hr1') as [Hp2 Hr2]. set (c2 := mkCursor (bytes c1) (offset c1 + size payload)) in *.
    assert (E : record_body l c = (Ok r, c2)); [|by rewrite E]. unfold record_body.
    apply (reads_run _ _ _ _ _ _ reads_header Hcok). exists (computer_id r, sequence r, previous_sequence r, size payload), h, c1.
    split; [split_and!; try done; lia|]. split; [done|]. unfold mbind at 1, ST_bind at 1, st_get.
    assert (Erem : remaining c1 = size payload) by (unfold remaining; rewrite <- Hs1, Hr1; done). rewrite Erem, Z.eqb_refl, (proj2 (Z.ltb_ge _ _)) by done.
    cbn [negb orb]. apply (reads_run _ _ _ _ _ _ (reads_exact (size payload) Hpn) Hc1). exists payload, payload, c2. split; [done|]. split; [done|].
    assert (Hpb : is_bytes payload). { assert (Hb : is_bytes (record_word r)) by apply Hcok. unfold record_word in Hb. by apply Forall_app in Hb as [_ ?]. }
    assert (Eop : op_decode payload l = Ok (operation r)).
    { apply op_decode_ok; [done|done|unfold usize_max; lia|].
      split_and!; [done| |done]. clear -Hnew. unfold record_new in Hnew. destruct (_ || _) eqn:E; [done|]. bsimp. done. }
    unfold mbind, ST_bind, st_lift, st_read. rewrite Eop. apply finish_rest in Hr2; [|by eapply past_ok]. rewrite Hr2. by rewrite Hnew.
Qed.

(** C30. The journal format is canonical: the decoder accepts exactly the encodings
    of the valid records, and returns the record that was encoded.  In particular
    no two byte strings denote the same record, and every record the encoder
    produces can be read back. *)
Theorem journal_roundtrip r bs : is_bytes bs ->
  record_decode sha256 bs l = Ok r <-> record_valid l r /\ record_encode sha256 r l = Ok bs.
Proof.
  intros Hb. rewrite record_decode_ok by done. split.
  - intros (Hv & H). split; [done|]. by apply record_encode_ok.
  - intros (Hv & H). split; [done|]. by apply record_encode_ok in H.
Qed.

End Digested.

Definition demo_id : list Z := replicate 16 7.
Definition demo_record : JournalRecord := mkRecord demo_id 1 0 (CreateDirectory demo_path 1).
Definition demo_bytes : list Z := match record_encode demo_digest demo_record testing with Ok bs => bs | _ => [] end.

Lemma journal_roundtrip_witness : is_bytes demo_bytes /\ record_encode demo_digest demo_record testing = Ok demo_bytes.
Proof.
  assert (Hb : is_bytes demo_bytes) by (vm_compute; repeat constructor; discriminate). split; [exact Hb|].
  refine (proj2 (proj1 (journal_roundtrip demo_digest demo_digest_size testing testing_paths _ demo_record demo_bytes Hb) _));
    [vm_compute; discriminate|vm_compute; reflexivity].
Defined.


End JournalProps.
