(* ===== verification/FsCheckpoint.v ===== *)
(** src/filesystem/persistence/checkpoint.rs: the sorted list of all nodes of a
    computer's home directory, its validation and its canonical encoding. *)

From S2P Require Import Prelude Words Unicode BTree Path Codec Journal.

Module FsCheckpoint.
Import FsError FsLimits Path Codec.

(** [b"CPKTCHK\0"]. *)
Definition MAGIC : list Z := [67; 80; 75; 84; 67; 72; 75; 0].

Inductive CheckpointNode :=
| Directory (path : VirtualPath) (node_generation : Z)
| File (path : VirtualPath) (node_generation logical_size : Z) (object_id : Digest) (executable : bool).
#[global] Instance CheckpointNode_eq : EqDecision CheckpointNode.
Proof. solve_decision. Defined.

Definition node_path (n : CheckpointNode) : VirtualPath := match n with Directory p _ | File p _ _ _ _ => p end.
Definition node_executable (n : CheckpointNode) : bool := match n with File _ _ _ _ x => x | Directory _ _ => false end.
Definition is_directory (n : CheckpointNode) : bool := match n with Directory _ _ => true | File _ _ _ _ _ => false end.
Definition object (n : CheckpointNode) : option (Digest * Z) :=
  match n with File _ _ s o _ => Some (o, s) | Directory _ _ => None end.
Definition with_path (n : CheckpointNode) (p : VirtualPath) (g : Z) : CheckpointNode :=
  match n with Directory _ _ => Directory p g | File _ _ s o x => File p g s o x end.
Definition node_generation (n : CheckpointNode) : Z := match n with Directory _ g | File _ g _ _ _ => g end.

Definition node_encode (n : CheckpointNode) (w : Writer) : outcome PersistenceCodecError Writer :=
  w ← write_path (node_path n) w;
  Ok match n with
     | Directory _ g => write_bytes (replicate 32 0) (write_u64 0 (write_u64 g (write_u16 0 (write_u8 0 (write_u8 1 w)))))
     | File _ g s o x => write_bytes o (write_u64 s (write_u64 g (write_u16 0 (write_u8 (Journal.of_bool x) (write_u8 2 w)))))
     end.

Definition read_node (limits : FileSystemLimits) : CursorM CheckpointNode :=
  p ← read_path limits;
  kind ← read_u8;
  flags ← read_u8;
  reserved ← read_u16;
  if negb (reserved =? 0) then st_err Malformed
  else
    g ← read_u64;
    s ← read_u64;
    o ← exact 32;
    if (kind =? 1) && (flags =? 0) && (s =? 0) && bool_decide (o = replicate 32 0) then mret (Directory p g)
    else if (kind =? 2) && Journal.only_low_bit flags && (s <=? maximum_file_bytes limits)
         then mret (File p g s o (Journal.low_bit flags))
    else if (kind =? 2) && (maximum_file_bytes limits <? s) then st_err LimitExceeded
    else st_err Malformed.

Record Checkpoint := mkCheckpoint { computer_id : ComputerId; generation : Z; nodes : list CheckpointNode }.

(** ["/home"]. *)
Definition home_text : str := slash :: str_home.

(** The [for] loop of [validate_nodes], with the previous path and the directories
    seen so far. *)
Fixpoint validate_loop (generation : Z) (previous : option VirtualPath) (directories : list VirtualPath)
    (nodes : list CheckpointNode) : outcome PersistenceCodecError unit :=
  match nodes with
  | [] => Ok tt
  | n :: nodes =>
      if negb (home_descendant (node_path n)) ||
         match previous with Some q => negb (bool_decide (BTree.lt q (node_path n))) | None => false end ||
         (generation <? node_generation n)
      then Err NonCanonical
      else
        parent ← ok_or (parent (node_path n)) NonCanonical;
        if negb (bool_decide (fmt parent = home_text)) && negb (bool_decide (parent ∈ directories)) then Err NonCanonical
        else validate_loop generation (Some (node_path n))
               (if is_directory n then node_path n :: directories else directories) nodes
  end.

Definition validate_nodes (nodes : list CheckpointNode) (generation : Z) : outcome PersistenceCodecError unit :=
  validate_loop generation None [] nodes.

Definition checkpoint_new (id : ComputerId) (g : Z) (ns : list CheckpointNode) : outcome PersistenceCodecError Checkpoint :=
  _ ← validate_nodes ns g;
  Ok (mkCheckpoint id g ns).

(** The loop that adds up the encoded length. *)
Fixpoint nodes_encoded_len (limits : FileSystemLimits) (ns : list CheckpointNode) (length : Z) : outcome PersistenceCodecError Z :=
  match ns with
  | [] => Ok length
  | n :: ns =>
      if maximum_path_bytes limits <? encoded_len (node_path n) then Err LimitExceeded
      else if match n with File _ _ s _ _ => maximum_file_bytes limits <? s | Directory _ _ => false end then Err LimitExceeded
      else
        record ← path_record_len (node_path n);
        length ← ok_or (checked_add usize_max length record) LimitExceeded;
        length ← ok_or (checked_add usize_max length 52) LimitExceeded;
        nodes_encoded_len limits ns length
  end.

Fixpoint write_nodes (ns : list CheckpointNode) (w : Writer) : outcome PersistenceCodecError Writer :=
  match ns with
  | [] => Ok w
  | n :: ns => w ← node_encode n w; write_nodes ns w
  end.

Fixpoint read_nodes (limits : FileSystemLimits) (count : nat) : CursorM (list CheckpointNode) :=
  match count with
  | O => mret []
  | S count => n ← read_node limits; ns ← read_nodes limits count; mret (n :: ns)
  end.

Section Digest.
Context (sha256 : list Z -> Digest).

Definition checkpoint_encode (c : Checkpoint) (limits : FileSystemLimits) : outcome PersistenceCodecError (list Z) :=
  if saturating_sub (maximum_nodes limits) 2 <? size (nodes c) then Err LimitExceeded
  else
    encoded_without_digest ← nodes_encoded_len limits (nodes c) 40;
    total ← ok_or (checked_add usize_max encoded_without_digest DIGEST_BYTES) LimitExceeded;
    if maximum_checkpoint_bytes limits <? total then Err LimitExceeded
    else
      let w := write_u64 (generation c) (write_bytes (computer_id c) (write_u16 0 (write_u16 1 (write_bytes MAGIC [])))) in
      count ← ok_or (try_from_unsigned u32_max (size (nodes c))) LimitExceeded;
      w ← write_nodes (nodes c) (write_u32 count w);
      finish_checked sha256 w (maximum_checkpoint_bytes limits).

Definition checkpoint_body (limits : FileSystemLimits) : CursorM (ComputerId * Z * list CheckpointNode) :=
  magic ← exact 8;
  if negb (bool_decide (magic = MAGIC)) then st_err Malformed
  else
    version ← read_u16;
    if negb (version =? 1) then st_err UnsupportedVersion
    else
      reserved ← read_u16;
      if negb (reserved =? 0) then st_err Malformed
      else
        id ← exact 16;
        g ← read_u64;
        count ← read_u32;
        if saturating_sub (maximum_nodes limits) 2 <? count then st_err LimitExceeded
        else
          ns ← read_nodes limits (Z.to_nat count);
          mret (id, g, ns).

Definition checkpoint_decode (bs : list Z) (limits : FileSystemLimits) : outcome PersistenceCodecError Checkpoint :=
  cursor ← verified sha256 bs (maximum_checkpoint_bytes limits);
  '(id, g, ns) ← ((r ← checkpoint_body limits; _ ← st_read finish; mret r) cursor).1;
  checkpoint_new id g ns.

End Digest.
End FsCheckpoint.

Module FsCheckpointProps.
Import FsError FsLimits Path PathProps Codec CodecProps Journal JournalProps FsCheckpoint.

Definition node_valid (l : FileSystemLimits) (n : CheckpointNode) : Prop :=
  path_valid l (node_path n) /\ 0 <= node_generation n < 2 ^ 64 /\
  match n with
  | Directory _ _ => True
  | File _ _ s o _ => 0 <= s < 2 ^ 64 /\ s <= maximum_file_bytes l /\ size o = 32
  end.

Definition node_word (n : CheckpointNode) : list Z :=
  path_word (node_path n) ++
  match n with
  | Directory _ g => [1; 0; 0; 0] ++ le_bytes 8 g ++ le_bytes 8 0 ++ replicate 32 0
  | File _ g s o x => [2; of_bool x; 0; 0] ++ le_bytes 8 g ++ le_bytes 8 s ++ o
  end.

Definition nodes_word (ns : list CheckpointNode) : list Z := ns ≫= node_word.

Lemma node_word_size l n : node_valid l n -> size (node_word n) = 4 + encoded_len (node_path n) + 52.
Proof.
  intros (_ & _ & Hn). unfold node_word. rewrite size_app, path_word_size. destruct n as [p g|p g s o x]; cbn [node_path].
  - rewrite !size_app, !size_le. change (size [1; 0; 0; 0]) with 4. change (size (replicate 32 0)) with 32. lia.
  - destruct Hn as (_ & _ & Ho). rewrite !size_app, !size_le, Ho. change (size [2; of_bool x; 0; 0]) with 4. lia.
Qed.

Lemma write_nodes_ok l ns : Forall (node_valid l) ns -> forall w, write_nodes ns w = Ok (w ++ nodes_word ns).
Proof.
  induction 1 as [|n ns Hn _ IH]; intros w; cbn [write_nodes]; [by rewrite app_nil_r|]. unfold node_encode.
  rewrite (write_valid_path l) by apply Hn. cbn [mbind outcome_bind]. rewrite IH. unfold nodes_word. rewrite bind_cons.
  unfold node_word. f_equal. destruct n as [p g|p g s o x]; unfold write_u64, write_u16, write_u8, write_bytes; cbn [node_path]; by rewrite <- !app_assoc.
Qed.

Lemma nodes_encoded_len_ok l ns : Forall (node_valid l) ns -> forall k, 0 <= k <= usize_max ->
  nodes_encoded_len l ns k = if k + size (nodes_word ns) <=? usize_max then Ok (k + size (nodes_word ns)) else Err LimitExceeded.
Proof.
  assert (Hu : usize_max = 2 ^ 64 - 1) by done. induction 1 as [|n ns Hn _ IH]; intros k Hk; cbn [nodes_encoded_len].
  - change (size (nodes_word [])) with 0. rewrite Z.add_0_r, (proj2 (Z.leb_le _ _)) by lia. done.
  - pose proof (node_word_size l n Hn) as Hw. destruct Hn as ((Hp & _ & H32) & _ & Hf). pose proof (encoded_len_nonneg (node_path n)).
    rewrite (proj2 (Z.ltb_ge _ _)) by apply Hp.
    assert (Hs : match n with File _ _ s _ _ => maximum_file_bytes l <? s | Directory _ _ => false end = false).
    { destruct n; [done|]. apply Z.ltb_ge, Hf. }
    rewrite Hs. unfold path_record_len, checked_add. rewrite (proj2 (Z.leb_le _ _)) by lia. cbn [ok_or mbind outcome_bind].
    assert (En : size (nodes_word (n :: ns)) = size (node_word n) + size (nodes_word ns)) by (unfold nodes_word; by rewrite bind_cons, size_app).
    pose proof (size_nonneg (nodes_word ns)). rewrite En, Hw.
    destruct (Z.leb_spec (k + (4 + encoded_len (node_path n))) usize_max); cbn [ok_or mbind outcome_bind];
      [|by rewrite (proj2 (Z.leb_gt _ _)) by lia].
    destruct (Z.leb_spec (k + (4 + encoded_len (node_path n)) + 52) usize_max); cbn [ok_or mbind outcome_bind];
      [|by rewrite (proj2 (Z.leb_gt _ _)) by lia].
    rewrite IH by lia. replace (k + (4 + encoded_len (node_path n)) + 52 + size (nodes_word ns))
      with (k + (4 + encoded_len (node_path n) + 52 + size (nodes_word ns))) by lia. done.
Qed.

Lemma reads_node l : limits_ok l -> Reads (read_node l) (fun n w => node_valid l n /\ w = node_word n).
Proof.
  intros Hl. eapply reads_iff.
  { apply reads_bind; [by apply reads_vpath|]. intros p _ _. apply reads_bind; [apply reads_u8|]. intros k _ _.
    apply reads_bind; [apply reads_u8|]. intros f _ _. apply reads_bind; [apply reads_u16|]. intros z _ _.
    apply reads_if; [intros _; apply (reads_err _ (fun _ _ => False)); tauto|intros _].
    apply reads_bind; [apply reads_u64|]. intros g _ _. apply reads_bind; [apply reads_u64|]. intros s _ _.
    apply reads_bind; [by apply reads_exact|]. intros o _ _.
    apply reads_if; [intros _; apply reads_ret|intros _]. apply reads_if; [intros _; apply reads_ret|intros _].
    apply reads_if; intros _; apply (reads_err _ (fun _ _ => False)); tauto. }
  intros n w _. cbv beta. unfold node_word. split.
  - intros (p & wa & w1 & [Hp ->] & (k & wb & w2 & [-> Hk] & (f & wc & w3 & [-> Hf] & (z & wd & w4 & [-> Hz] & H & ->) & ->) & ->) & ->).
    destruct (Z.eqb_spec z 0) as [->|]; [|done]. cbn [negb] in H.
    destruct H as (g & wa & w5 & [-> Hg] & (s & wb & w6 & [-> Hs] & (o & wc & w7 & [-> Ho] & H & ->) & ->) & ->).
    change (256 ^ Z.of_nat 1) with 256 in *.
    assert (Ew : forall r, le_bytes 1 k ++ le_bytes 1 f ++ le_bytes 2 0 ++ r = [k; f; 0; 0] ++ r).
    { intros r. unfold le_bytes. rewrite !Z.mod_small by lia. done. }
    rewrite Ew. clear Ew. destruct (_ && _) eqn:E1 in H.
    { destruct H as [-> ->]. bsimp. subst. rewrite app_nil_r. done. }
    clear E1. destruct (_ && _) eqn:E2 in H; [|by destruct (_ && _) in H]. destruct H as [-> ->]. bsimp. subst. rewrite app_nil_r.
    split; [done|]. cbn [node_path]. by rewrite <- low_bits.
  - intros [(Hp & Hg & Hn) ->]. eexists (node_path n), _, _. split_and!; [done|done| |done].
    destruct n as [p g|p g s o x]; cbn [node_path node_generation] in *.
    + eexists 1, [1], _. split_and!; [split; done| |done]. eexists 0, [0], _. split_and!; [split; done| |done].
      eexists 0, [0; 0], _. split_and!; [split; done| |done]. cbn [negb Z.eqb]. eexists g, _, _. split_and!; [split; done| |done].
      eexists 0, _, _. split_and!; [split; done| |done]. eexists (replicate 32 0), _, []. split_and!; [done|done| |by rewrite app_nil_r]. done.
    + destruct Hn as (Hs & Hmax & Ho). eexists 2, [2], _. split_and!; [split; done| |done]. eexists (of_bool x), [of_bool x], _. split_and!; [split; by destruct x| |done].
      eexists 0, [0; 0], _. split_and!; [split; done| |done]. cbn [negb Z.eqb]. eexists g, _, _. split_and!; [split; done| |done].
      eexists s, _, _. split_and!; [split; done| |done]. eexists o, _, []. split_and!; [done|done| |by rewrite app_nil_r].
      cbn [Z.eqb Pos.eqb andb]. rewrite (proj2 (Z.leb_le _ _)) by done. by destruct x.
Qed.

Lemma reads_nodes l n : limits_ok l -> Reads (read_nodes l n) (fun ns w => length ns = n /\ Forall (node_valid l) ns /\ w = nodes_word ns).
Proof.
  intros Hl. induction n as [|n IH]; cbn [read_nodes].
  - eapply reads_iff; [apply reads_ret|]. intros ns w _. split; [intros [-> ->]; done|].
    intros (Hn & _ & ->). by apply nil_length_inv in Hn as ->.
  - eapply reads_iff; [apply reads_bind; [by apply reads_node|intros nd _ _; apply reads_bind; [exact IH|intros ns _ _; apply reads_ret]]|].
    intros ns w _. cbv beta. split.
    + intros (nd & w1 & w2 & [Hn ->] & (ns' & w3 & w4 & (Hlen & Hf & ->) & [-> ->] & ->) & ->). rewrite app_nil_r. split_and!; [by simpl; rewrite Hlen|by constructor|].
      unfold nodes_word. by rewrite bind_cons.
    + intros (Hlen & Hf & ->). destruct ns as [|nd ns]; [done|]. apply Forall_cons in Hf as [Hn Hf]. injection Hlen as Hlen.
      exists nd, (node_word nd), (nodes_word ns). split_and!; [done|done| |unfold nodes_word; by rewrite bind_cons].
      exists ns, (nodes_word ns), []. split_and!; try done. by rewrite app_nil_r.
Qed.

Definition body_word (id : list Z) (g : Z) (ns : list CheckpointNode) : list Z :=
  MAGIC ++ le_bytes 2 1 ++ le_bytes 2 0 ++ id ++ le_bytes 8 g ++ le_bytes 4 (size ns) ++ nodes_word ns.

Lemma reads_body l : limits_ok l -> Reads (checkpoint_body l) (fun '(id, g, ns) w =>
  size id = 16 /\ 0 <= g < 2 ^ 64 /\ size ns < 2 ^ 32 /\ size ns <= saturating_sub (maximum_nodes l) 2 /\
  Forall (node_valid l) ns /\ w = body_word id g ns).
Proof.
  intros Hl. eapply reads_iff.
  { apply reads_bind; [by apply reads_exact|]. intros m _ _.
    apply reads_if; [intros _; apply (reads_err _ (fun _ _ => False)); tauto|intros _].
    apply reads_bind; [apply reads_u16|]. intros v _ _.
    apply reads_if; [intros _; apply (reads_err _ (fun _ _ => False)); tauto|intros _].
    apply reads_bind; [apply reads_u16|]. intros z _ _.
    apply reads_if; [intros _; apply (reads_err _ (fun _ _ => False)); tauto|intros _].
    apply reads_bind; [by apply reads_exact|]. intros id _ _. apply reads_bind; [apply reads_u64|]. intros g _ _.
    apply reads_bind; [apply reads_u32|]. intros n _ _.
    apply reads_if; [intros _; apply (reads_err _ (fun _ _ => False)); tauto|intros _].
    apply reads_bind; [by apply reads_nodes|]. intros ns _ _. apply reads_ret. }
  intros [[id g] ns] w _. cbv beta. unfold body_word. split.
  - intros (m & w1 & w2 & [-> Hm] & H & ->). destruct (bool_decide (m = MAGIC)) eqn:Em; [|done]. apply bool_decide_eq_true in Em as ->.
    cbn [negb] in H. destruct H as (v & w1 & w3 & [-> Hv] & H & ->). destruct (Z.eqb_spec v 1) as [->|]; [|done].
    cbn [negb] in H. destruct H as (z & w1 & w4 & [-> Hz] & H & ->). destruct (Z.eqb_spec z 0) as [->|]; [|done]. cbn [negb] in H.
    destruct H as (id' & wa & w5 & [-> Hid] & (g' & wb & w6 & [-> Hg] & (n & wc & w7 & [-> Hn] & H & ->) & ->) & ->).
    destruct (Z.ltb_spec (saturating_sub (maximum_nodes l) 2) n); [done|]. destruct H as (ns' & wa & w8 & (Hlen & Hf & ->) & [E ->] & ->).
    injection E as -> -> ->. rewrite app_nil_r. change (256 ^ Z.of_nat 4) with (2 ^ 32) in Hn.
    assert (En : size ns' = n) by (unfold size; lia). rewrite En. split_and!; try done; lia.
  - intros (Hid & Hg & Hn & Hmax & Hf & ->). pose proof (size_nonneg ns). eexists MAGIC, _, _. split_and!; [done|done| |done]. rewrite bool_decide_eq_true_2 by done. cbn [negb].
    eexists 1, _, _. split_and!; [split; done| |done]. cbn [negb Z.eqb Pos.eqb]. eexists 0, _, _. split_and!; [split; done| |done].
    cbn [negb Z.eqb]. eexists id, _, _. split_and!; [done|done| |done]. eexists g, _, _. split_and!; [split; done| |done].
    eexists (size ns), _, _. split_and!; [split; done| |done]. rewrite (proj2 (Z.ltb_ge _ _)) by done.
    eexists ns, _, []. split_and!; [unfold size; lia|done|done|done|done|by rewrite app_nil_r].
Qed.

(** What a checkpoint in memory satisfies. *)
Record checkpoint_valid (l : FileSystemLimits) (c : Checkpoint) : Prop := {
  cv_id : size (computer_id c) = 16;
  cv_generation : 0 <= generation c < 2 ^ 64;
  cv_nodes : Forall (node_valid l) (nodes c);
  cv_new : checkpoint_new (computer_id c) (generation c) (nodes c) = Ok c }.

Definition checkpoint_word (c : Checkpoint) : list Z := body_word (computer_id c) (generation c) (nodes c).

Lemma checkpoint_word_size c : size (computer_id c) = 16 -> size (checkpoint_word c) = 40 + size (nodes_word (nodes c)).
Proof. intros Hid. unfold checkpoint_word, body_word. rewrite !size_app, !size_le, Hid. change (size MAGIC) with 8. lia. Qed.

Section Digested.
Context (sha256 : list Z -> Digest).
Hypothesis sha256_size : forall bs, size (sha256 bs) = DIGEST_BYTES.
Context (l : FileSystemLimits).
Hypothesis l_ok : limits_ok l.
Hypothesis l_checkpoint : maximum_checkpoint_bytes l <= usize_max.

Lemma checkpoint_encode_ok c bs : checkpoint_valid l c ->
  checkpoint_encode sha256 c l = Ok bs <->
  size (nodes c) <= saturating_sub (maximum_nodes l) 2 /\ size (nodes c) < 2 ^ 32 /\
  size bs <= maximum_checkpoint_bytes l /\ bs = checkpoint_word c ++ sha256 (checkpoint_word c).
Proof.
  intros [Hid Hg Hns Hnew]. unfold checkpoint_encode. pose proof (checkpoint_word_size c Hid) as Hw.
  pose proof (size_nonneg (nodes_word (nodes c))) as Hn0. set (n := size (nodes_word (nodes c))) in *.
  assert (Hbs : bs = checkpoint_word c ++ sha256 (checkpoint_word c) -> size bs = 40 + n + DIGEST_BYTES).
  { intros ->. rewrite size_app, sha256_size, Hw. lia. }
  destruct (Z.ltb_spec (saturating_sub (maximum_nodes l) 2) (size (nodes c))); [split; [done|]; intros (? & _); lia|].
  rewrite (nodes_encoded_len_ok l) by (done || (unfold usize_max; lia)). fold n. unfold checked_add, try_from_unsigned, in_range, u32_max, DIGEST_BYTES in *.
  destruct (Z.leb_spec (40 + n) usize_max); cbn [ok_or mbind outcome_bind]; [|split; [done|]; intros (_ & _ & Hs & E); specialize (Hbs E); lia].
  destruct (Z.leb_spec (40 + n + 32) usize_max); cbn [ok_or mbind outcome_bind]; [|split; [done|]; intros (_ & _ & Hs & E); specialize (Hbs E); lia].
  destruct (Z.ltb_spec (maximum_checkpoint_bytes l) (40 + n + 32)); [split; [done|]; intros (_ & _ & Hs & E); specialize (Hbs E); lia|].
  rewrite (proj2 (Z.leb_le 0 _)) by apply size_nonneg. cbn [andb].
  destruct (Z.leb_spec (size (nodes c)) (2 ^ 32 - 1)); cbn [ok_or mbind outcome_bind]; [|split; [done|lia]].
  rewrite (write_nodes_ok l) by done. cbn [mbind outcome_bind]. rewrite finish_checked_ok by done.
  assert (E : write_u32 (size (nodes c)) (write_u64 (generation c) (write_bytes (computer_id c)
    (write_u16 0 (write_u16 1 (write_bytes MAGIC []))))) ++ nodes_word (nodes c) = checkpoint_word c).
  { unfold checkpoint_word, body_word, write_u16, write_u32, write_u64, write_bytes. rewrite <- !app_assoc. done. }
  rewrite E, Hw. unfold DIGEST_BYTES. split.
  - intros [-> Hs]. specialize (Hbs eq_refl). split_and!; [lia|lia|lia|done].
  - intros (_ & _ & Hs & ->). specialize (Hbs eq_refl). split; [done|lia].
Qed.

Lemma checkpoint_decode_ok c bs : is_bytes bs ->
  checkpoint_decode sha256 bs l = Ok c <->
  checkpoint_valid l c /\ size (nodes c) <= saturating_sub (maximum_nodes l) 2 /\ size (nodes c) < 2 ^ 32 /\
  size bs <= maximum_checkpoint_bytes l /\ bs = checkpoint_word c ++ sha256 (checkpoint_word c).
Proof.
  intros Hby. unfold checkpoint_decode. split.
  - intros H. apply outcome_bind_inv in H as (cur & Hc & H). destruct (verified_cursor sha256 sha256_size bs _ cur Hby l_checkpoint Hc) as [Hcok Hrest].
    apply (verified_ok sha256 sha256_size) in Hc as (Hbs & Ho & Hsz). apply outcome_bind_inv in H as ([[id g] ns] & Hr & H).
    apply (reads_complete _ _ _ _ (reads_body l l_ok) Hcok) in Hr as (Hid & Hg & Hn & Hmax & Hf & Hw). rewrite Hrest in Hw.
    assert (c = mkCheckpoint id g ns) as ->. { unfold checkpoint_new in H. apply outcome_bind_inv in H as (u & _ & [= <-]). done. }
    unfold checkpoint_word. cbn [nodes computer_id generation]. rewrite <- Hw. split_and!; try done.
  - intros ([Hid Hg Hns Hnew] & Hmax & H32 & Hsz & Hbs). set (cur := mkCursor (checkpoint_word c) 0).
    assert (Hc : verified sha256 bs (maximum_checkpoint_bytes l) = Ok cur) by (by apply (verified_ok sha256 sha256_size)).
    rewrite Hc. cbn [mbind outcome_bind]. destruct (verified_cursor sha256 sha256_size bs _ cur Hby l_checkpoint Hc) as [Hcok Hrest].
    pose proof (reads_complete _ _ cur (computer_id c, generation c, nodes c) (reads_body l l_ok) Hcok) as Hr. unfold complete in Hr.
    rewrite (proj2 Hr); [exact Hnew|]. done.
Qed.

(** C31. The checkpoint format is canonical: the decoder accepts exactly the
    encodings of the valid checkpoints, and returns the checkpoint that was
    encoded. *)
Theorem checkpoint_roundtrip c bs : is_bytes bs ->
  checkpoint_decode sha256 bs l = Ok c <-> checkpoint_valid l c /\ checkpoint_encode sha256 c l = Ok bs.
Proof.
  intros Hb. rewrite checkpoint_decode_ok by done. split.
  - intros (Hv & H). split; [done|]. by apply checkpoint_encode_ok.
  - intros (Hv & H). split; [done|]. by apply checkpoint_encode_ok in H.
Qed.

End Digested.

Definition demo_checkpoint : Checkpoint := mkCheckpoint (replicate 16 7) 1 [Directory demo_path 1].
Definition demo_encoded : list Z := match checkpoint_encode demo_digest demo_checkpoint testing with Ok bs => bs | _ => [] end.

Lemma checkpoint_roundtrip_witness : is_bytes demo_encoded /\ checkpoint_encode demo_digest demo_checkpoint testing = Ok demo_encoded.
Proof.
  assert (Hb : is_bytes demo_encoded) by (vm_compute; repeat constructor; discriminate). split; [exact Hb|].
  refine (proj2 (proj1 (checkpoint_roundtrip demo_digest demo_digest_size testing testing_paths _ demo_checkpoint demo_encoded Hb) _));
    [vm_compute; discriminate|vm_compute; reflexivity].
Defined.


End FsCheckpointProps.
