(* ===== verification/Recovery.v ===== *)
(** src/filesystem/persistence/recovery.rs: rebuilding the namespace of a computer
    from its checkpoints and its journal. *)

From S2P Require Import Prelude Words Unicode BTree Path Codec Journal FsCheckpoint.

Module Recovery.
Import FsError FsLimits Path Codec Journal FsCheckpoint.

Inductive RecoveryError := ConfirmedCorruption | RecoveryLimitExceeded.

Record RecoveryCheckpoint := mkRecoveryCheckpoint { claimed_generation : Z; checkpoint_bytes : list Z }.
Record RecoveryJournalRecord := mkRecoveryRecord { claimed_sequence : Z; record_bytes : list Z }.

Record RecoveryInput := mkInput {
  input_computer : ComputerId; confirmed_generation : Z;
  checkpoints : list RecoveryCheckpoint; journal_records : list RecoveryJournalRecord }.

Definition input_new (id : ComputerId) (confirmed : Z) : RecoveryInput := mkInput id confirmed [] [].
Definition with_checkpoint (c : RecoveryCheckpoint) (i : RecoveryInput) : RecoveryInput :=
  mkInput (input_computer i) (confirmed_generation i) (checkpoints i ++ [c]) (journal_records i).
Definition with_journal (r : RecoveryJournalRecord) (i : RecoveryInput) : RecoveryInput :=
  mkInput (input_computer i) (confirmed_generation i) (checkpoints i) (journal_records i ++ [r]).

Abbreviation NodeMap := (list (list (list Z) * CheckpointNode)) (only parsing).

Record RecoveredState := mkRecovered { state_generation : Z; state_nodes : NodeMap }.

(** [try_fold(0, checked_add)]. *)
Fixpoint sum_checked (max : Z) (ns : list Z) (total : Z) : option Z :=
  match ns with
  | [] => Some total
  | n :: ns => total ← checked_add max total n; sum_checked max ns total
  end.

Definition bound_work (i : RecoveryInput) (limits : FileSystemLimits) : outcome RecoveryError unit :=
  records ← ok_or (checked_add usize_max (size (checkpoints i)) (size (journal_records i))) RecoveryLimitExceeded;
  if maximum_recovery_records limits <? records then Err RecoveryLimitExceeded
  else
    total ← ok_or (sum_checked usize_max (((fun c => size (checkpoint_bytes c)) <$> checkpoints i) ++
                                          ((fun r => size (record_bytes r)) <$> journal_records i)) 0) RecoveryLimitExceeded;
    if maximum_recovery_bytes limits <? total then Err RecoveryLimitExceeded else Ok tt.

(** [sort_by_key]: a stable sort. *)
Fixpoint insert_by {A} (key : A -> Z) (a : A) (l : list A) : list A :=
  match l with
  | [] => [a]
  | b :: l' => if key a <=? key b then a :: l else b :: insert_by key a l'
  end.
Definition sort_by_key {A} (key : A -> Z) (l : list A) : list A := foldr (insert_by key) [] l.

(** [windows(2).find(..)]: the first key that occurs twice in a row. *)
Fixpoint first_duplicate {A} (key : A -> Z) (l : list A) : option Z :=
  match l with
  | a :: (b :: _) as l' => if key a =? key b then Some (key a) else first_duplicate key l'
  | _ => None
  end.

(** The entry-count loop of [validate_state]. *)
Fixpoint count_children (limits : FileSystemLimits) (paths : list VirtualPath) (counts : list (list (list Z) * Z)) : outcome unit unit :=
  match paths with
  | [] => Ok tt
  | p :: paths =>
      parent ← ok_or (parent p) tt;
      let count := default 0 (BTree.get parent counts) + 1 in
      if maximum_directory_entries limits <? count then Err tt
      else count_children limits paths (BTree.insert parent count counts)
  end.

Definition file_size (n : CheckpointNode) : Z := match n with Directory _ _ => 0 | File _ _ s _ _ => s end.

Definition validate_state (s : RecoveredState) (limits : FileSystemLimits) : outcome unit unit :=
  if saturating_sub (maximum_nodes limits) 2 <? size (state_nodes s) then Err tt
  else
    total ← ok_or (sum_checked u64_max (file_size <$> BTree.values (state_nodes s)) 0) tt;
    if maximum_logical_bytes limits <? total then Err tt
    else count_children limits (BTree.keys (state_nodes s)) [].

Definition require_parent (nodes : NodeMap) (p : VirtualPath) : outcome unit unit :=
  parent ← ok_or (parent p) tt;
  if bool_decide (fmt parent = home_text) then Ok tt
  else match BTree.get parent nodes with
       | Some n => if is_directory n then Ok tt else Err tt
       | None => Err tt
       end.

Definition rebase (p source destination : VirtualPath) (limits : FileSystemLimits) : outcome unit VirtualPath :=
  match parse_utf8 (fmt destination ++ (drop (length source) p ≫= fun c => slash :: c)) limits with
  | Ok q => Ok q
  | Err _ => Err tt
  | Panic => Panic
  end.

(** [keys().any(|candidate| candidate != path && candidate.is_within(path))]. *)
Definition has_descendants (nodes : NodeMap) (p : VirtualPath) : bool :=
  existsb (fun k => negb (bool_decide (k = p)) && is_within k p) (BTree.keys nodes).

(** [range(source..).take_while(|(path, _)| path.is_within(source))]. *)
Fixpoint range_from {V} (p : VirtualPath) (m : list (list (list Z) * V)) : list (list (list Z) * V) :=
  match m with
  | [] => []
  | (k, v) :: m' => if bool_decide (BTree.lt k p) then range_from p m' else m
  end.
Fixpoint take_while {A} (f : A -> bool) (l : list A) : list A :=
  match l with
  | [] => []
  | a :: l => if f a then a :: take_while f l else []
  end.
Definition subtree (nodes : NodeMap) (source : VirtualPath) : NodeMap :=
  take_while (fun e => is_within e.1 source) (range_from source nodes).

Definition remove_all (paths : list VirtualPath) (nodes : NodeMap) : NodeMap :=
  foldl (fun m p => BTree.remove p m) nodes paths.

Fixpoint insert_moved (moving : NodeMap) (source destination : VirtualPath) (generation : Z) (limits : FileSystemLimits)
    (nodes : NodeMap) : outcome unit NodeMap :=
  match moving with
  | [] => Ok nodes
  | (p, n) :: moving =>
      rebased ← rebase p source destination limits;
      let g := if bool_decide (p = source) then generation else node_generation n in
      insert_moved moving source destination generation limits (BTree.insert rebased (with_path n rebased g) nodes)
  end.

Definition rename (nodes : NodeMap) (source destination : VirtualPath) (replace : bool) (generation : Z)
    (limits : FileSystemLimits) : outcome unit NodeMap :=
  if is_within destination source then Err tt
  else
    _ ← require_parent nodes destination;
    source_node ← ok_or (BTree.get source nodes) tt;
    _ ← match BTree.get destination nodes with
        | Some existing =>
            if negb replace || negb (Bool.eqb (is_directory existing) (is_directory source_node)) then Err tt
            else if is_directory existing && has_descendants nodes destination then Err tt
            else Ok tt
        | None => Ok tt
        end;
    let moving := subtree nodes source in
    match moving with
    | [] => Err tt
    | _ => insert_moved moving source destination generation limits
             (remove_all (BTree.keys moving) (BTree.remove destination nodes))
    end.

Definition apply_nodes (nodes : NodeMap) (op : JournalOperation) (generation : Z) (limits : FileSystemLimits) : outcome unit NodeMap :=
  match op with
  | CreateDirectory p g =>
      if negb (g =? generation) then Err tt
      else
        _ ← require_parent nodes p;
        if BTree.contains_key p nodes then Err tt
        else Ok (BTree.insert p (Directory p generation) nodes)
  | PutFile p g s o x =>
      if negb (g =? generation) then Err tt
      else
        _ ← require_parent nodes p;
        match BTree.get p nodes with
        | Some (Directory _ _) => Err tt
        | _ => Ok (BTree.insert p (File p generation s o x) nodes)
        end
  | Remove p =>
      node ← ok_or (BTree.get p nodes) tt;
      if is_directory node && has_descendants nodes p then Err tt
      else Ok (BTree.remove p nodes)
  | Rename s d r => rename nodes s d r generation limits
  end.

Definition apply (s : RecoveredState) (op : JournalOperation) (generation : Z) (limits : FileSystemLimits) : outcome unit RecoveredState :=
  nodes ← apply_nodes (state_nodes s) op generation limits;
  let s := mkRecovered (state_generation s) nodes in
  _ ← validate_state s limits;
  Ok s.

Section Digest.
Context (sha256 : list Z -> Digest).

(** The [for] loop over the sorted records; [Ok] at a [break]. *)
Fixpoint replay (i : RecoveryInput) (limits : FileSystemLimits) (records : list RecoveryJournalRecord) (s : RecoveredState)
    : outcome RecoveryError RecoveredState :=
  match records with
  | [] => Ok s
  | stored :: records =>
      if claimed_sequence stored <=? state_generation s then replay i limits records s
      else
        expected ← ok_or (checked_add u64_max (state_generation s) 1) ConfirmedCorruption;
        if negb (claimed_sequence stored =? expected) then
          if expected <=? confirmed_generation i then Err ConfirmedCorruption else Ok s
        else
          let failed := if claimed_sequence stored <=? confirmed_generation i then Err ConfirmedCorruption else Ok s in
          match record_decode sha256 (record_bytes stored) limits with
          | Ok r =>
              if bool_decide (Journal.computer_id r = input_computer i) && (sequence r =? claimed_sequence stored) &&
                 (previous_sequence r =? state_generation s)
              then match apply s (operation r) (sequence r) limits with
                   | Ok next => replay i limits records (mkRecovered (sequence r) (state_nodes next))
                   | Err _ => failed
                   | Panic => Panic
                   end
              else failed
          | Err _ => failed
          | Panic => Panic
          end
  end.

(** [Checkpoint::decode] of the newest candidate, or the empty state. *)
Definition start_state (i : RecoveryInput) (limits : FileSystemLimits) : outcome RecoveryError RecoveredState :=
  let candidates := sort_by_key claimed_generation
    (filter (fun c => claimed_generation c <= confirmed_generation i) (checkpoints i)) in
  if match first_duplicate claimed_generation candidates with Some _ => true | None => false end then Err ConfirmedCorruption
  else
    match last candidates with
    | None => Ok (mkRecovered 0 [])
    | Some candidate =>
        match checkpoint_decode sha256 (checkpoint_bytes candidate) limits with
        | Ok c =>
            if negb (bool_decide (FsCheckpoint.computer_id c = input_computer i)) ||
               negb (FsCheckpoint.generation c =? claimed_generation candidate)
            then Err ConfirmedCorruption
            else Ok (mkRecovered (FsCheckpoint.generation c)
                       (foldl (fun m n => BTree.insert (node_path n) n m) [] (nodes c)))
        | Err _ => Err ConfirmedCorruption
        | Panic => Panic
        end
    end.

Definition recover (i : RecoveryInput) (limits : FileSystemLimits) : outcome RecoveryError RecoveredState :=
  _ ← bound_work i limits;
  state ← start_state i limits;
  _ ← match validate_state state limits with Ok _ => Ok tt | Err _ => Err ConfirmedCorruption | Panic => Panic end;
  let records := sort_by_key claimed_sequence (journal_records i) in
  records ← match first_duplicate claimed_sequence records with
            | Some duplicate =>
                if duplicate <=? confirmed_generation i then Err ConfirmedCorruption
                else Ok (filter (fun r => claimed_sequence r < duplicate) records)
            | None => Ok records
            end;
  state ← replay i limits records state;
  if state_generation state <? confirmed_generation i then Err ConfirmedCorruption
  else Ok state.

End Digest.
End Recovery.
