(* ===== verification/Replay.v ===== *)
(** Recovery of a namespace: what a replayed rename does, and that recovery returns
    the state after the last intact record of an unbroken chain. *)

From S2P Require Import Prelude Words Unicode BTree Path Codec Journal FsCheckpoint Recovery.
From Stdlib Require Import Sorting.Permutation.

Module Replay.
Import FsError FsLimits Path PathProps Codec CodecProps Journal JournalProps Recovery.

Abbreviation NodeMap := (list (list (list Z) * FsCheckpoint.CheckpointNode)) (only parsing).

(** ** Subtrees of a sorted map *)

Lemma range_from_elem {V} (p : VirtualPath) (m : list (list (list Z) * V)) e : BTree.sorted m ->
  e ∈ range_from p m <-> e ∈ m /\ ~ BTree.lt e.1 p.
Proof.
  induction m as [|[k v] m IH]; intros Hs; [simpl; split; [by intros ?%elem_of_nil|by intros [?%elem_of_nil _]]|].
  apply BTree.sorted_cons in Hs as [Hs Hall]. simpl. destruct (bool_decide (BTree.lt k p)) eqn:E; bsimp.
  - rewrite IH, elem_of_cons by done. split; [naive_solver|]. intros [[->|?] Hn]; [done|done].
  - split; [|naive_solver]. intros He. split; [done|]. apply elem_of_cons in He as [->|He]; [done|]. rewrite Forall_forall in Hall.
    intros Hlt. apply E. eapply BTree.lt_trans; [exact (Hall _ He)|done].
Qed.

Lemma range_from_sorted {V} (p : VirtualPath) (m : list (list (list Z) * V)) : BTree.sorted m -> BTree.sorted (range_from p m).
Proof.
  induction m as [|[k v] m IH]; intros Hs; [done|]. simpl. destruct (bool_decide _); [|done]. apply BTree.sorted_cons in Hs as [Hs _]. by apply IH.
Qed.

Lemma take_while_sorted {V} (f : list (list Z) * V -> bool) (m : list (list (list Z) * V)) : BTree.sorted m -> BTree.sorted (take_while f m).
Proof.
  induction m as [|[k v] m IH]; intros Hs; [done|]. apply BTree.sorted_cons in Hs as [Hs Hall]. simpl. destruct (f (k, v)); [|constructor].
  apply BTree.sorted_cons. split; [by apply IH|]. clear -Hall. induction Hall as [|e m He Hall IH]; simpl; [constructor|]. destruct (f e); by constructor.
Qed.

(** The entries within [source] follow each other. *)
Lemma subtree_elem (nodes : NodeMap) source k v : BTree.sorted nodes ->
  (k, v) ∈ subtree nodes source <-> (k, v) ∈ nodes /\ source `prefix_of` k.
Proof.
  intros Hs. unfold subtree.
  assert (Hge : forall m : NodeMap, BTree.sorted m -> (forall e, e ∈ m -> ~ BTree.lt e.1 source) ->
    (k, v) ∈ take_while (fun e => is_within e.1 source) m <-> (k, v) ∈ m /\ source `prefix_of` k).
  { clear. induction m as [|[k0 v0] m IH]; intros Hs Hge; [simpl; split; [by intros ?%elem_of_nil|by intros [?%elem_of_nil _]]|].
    apply BTree.sorted_cons in Hs as [Hs Hall]. cbn [take_while fst]. destruct (is_within k0 source) eqn:E.
    - rewrite !elem_of_cons, IH; [|done|intros e He; apply Hge; by right]. apply starts_with_prefix in E. naive_solver.
    - split; [by intros ?%elem_of_nil|]. intros [He Hp]. exfalso. assert (Hn : ~ source `prefix_of` k0).
      { intros Hp0%starts_with_prefix. unfold is_within in E. congruence. }
      apply elem_of_cons in He as [[= -> ->]|He]; [done|]. rewrite Forall_forall in Hall. specialize (Hall _ He). simpl in Hall.
      destruct (BTree.lt_total source k0) as [Hlt|[->|Hlt]]; [|by apply Hn|exact (Hge (k0, v0) ltac:(by left) Hlt)].
      destruct Hp as [z ->]. apply Hn. exact (BTree.lex_between _ _ z Hlt Hall). }
  rewrite Hge; [|by apply range_from_sorted|intros e He; apply (range_from_elem source nodes e Hs) in He; apply He].
  rewrite range_from_elem by done. split; [naive_solver|]. intros [He Hp]. split_and!; [done| |done]. simpl. intros Hlt. destruct Hp as [z ->].
  destruct z as [|c z]; [rewrite app_nil_r in Hlt; by apply BTree.lt_irrefl in Hlt|].
  apply (BTree.lt_asym _ _ Hlt). by apply BTree.lex_prefix.
Qed.

Lemma subtree_sorted nodes source : BTree.sorted nodes -> BTree.sorted (subtree nodes source).
Proof. intros Hs. by apply take_while_sorted, range_from_sorted. Qed.

Lemma remove_all_sorted ps (m : NodeMap) : BTree.sorted m -> BTree.sorted (remove_all ps m).
Proof. revert m. induction ps as [|p ps IH]; intros m Hs; [done|]. simpl. by apply IH, BTree.remove_sorted. Qed.

Lemma remove_all_get ps (m : NodeMap) k : BTree.sorted m -> BTree.get k (remove_all ps m) = if decide (k ∈ ps) then None else BTree.get k m.
Proof.
  revert m. induction ps as [|p ps IH]; intros m Hs; [done|]. cbn [remove_all foldl]. fold (remove_all ps (BTree.remove p m)).
  rewrite IH by (by apply BTree.remove_sorted). rewrite BTree.get_remove by done.
  destruct (decide (k = p)), (decide (k ∈ ps)), (decide (k ∈ p :: ps)) as [Hin|Hin]; try done; rewrite elem_of_cons in Hin; tauto.
Qed.

(** ** Moved entries *)

Definition rebased (source destination p : VirtualPath) : VirtualPath := destination ++ drop (length source) p.

Lemma fmt_app (a b : VirtualPath) : a <> [] -> fmt (a ++ b) = fmt a ++ (b ≫= fun c => slash :: c).
Proof. destruct a as [|c a]; [done|]. intros _. unfold fmt. cbn [app]. rewrite bind_app, <- !app_assoc. done. Qed.

Lemma rebase_ok l p source destination : limits_ok l -> destination <> [] -> path_ok l (rebased source destination p) ->
  rebase p source destination l = Ok (rebased source destination p).
Proof.
  intros [Hc Hcb _] Hd Hp. unfold rebase. rewrite <- fmt_app by done. rewrite (proj2 (parse_accepts l _ (rebased source destination p) Hc Hcb)); [done|]. done.
Qed.

Definition move_entry (source destination : VirtualPath) (g : Z) (e : VirtualPath * FsCheckpoint.CheckpointNode) : VirtualPath * FsCheckpoint.CheckpointNode :=
  let q := rebased source destination e.1 in (q, FsCheckpoint.with_path e.2 q (if bool_decide (e.1 = source) then g else FsCheckpoint.node_generation e.2)).

Definition insert_all (es nodes : NodeMap) : NodeMap := foldl (fun m e => BTree.insert e.1 e.2 m) nodes es.

Lemma insert_moved_ok l source destination g moving nodes : limits_ok l -> destination <> [] ->
  (forall e, e ∈ moving -> path_ok l (rebased source destination e.1)) ->
  insert_moved moving source destination g l nodes = Ok (insert_all (move_entry source destination g <$> moving) nodes).
Proof.
  intros Hl Hd. revert nodes. induction moving as [|[p n] moving IH]; intros nodes Hp; [done|]. cbn [insert_moved].
  rewrite rebase_ok by (try done; by apply (Hp (p, n)); left). cbn [mbind outcome_bind]. rewrite IH by (intros e He; apply Hp; by right). done.
Qed.

Lemma insert_all_sorted es (m : NodeMap) : BTree.sorted m -> BTree.sorted (insert_all es m).
Proof. revert m. induction es as [|e es IH]; intros m Hs; [done|]. simpl. by apply IH, BTree.insert_sorted. Qed.

Lemma insert_all_get es (m : NodeMap) : BTree.sorted m -> NoDup (es.*1) ->
  (forall k v, (k, v) ∈ es -> BTree.get k (insert_all es m) = Some v) /\
  (forall k, k ∉ es.*1 -> BTree.get k (insert_all es m) = BTree.get k m).
Proof.
  revert m. induction es as [|[k0 v0] es IH]; intros m Hs Hnd; [split; [by intros k v ?%elem_of_nil|done]|].
  cbn [insert_all foldl fst snd]. fold (insert_all es (BTree.insert k0 v0 m)). apply NoDup_cons in Hnd as [Hn Hnd].
  destruct (IH (BTree.insert k0 v0 m)) as [H1 H2]; [by apply BTree.insert_sorted|done|]. split.
  - intros k v [[= -> ->]|He]%elem_of_cons; [|by apply H1]. rewrite H2 by done. rewrite BTree.get_insert by done. by rewrite decide_True.
  - intros k [Hk Hks]%not_elem_of_cons. rewrite H2 by done. rewrite BTree.get_insert by done. by rewrite decide_False.
Qed.

(** ** Rename *)

(** The namespace after [source] has moved to [destination]. *)
Definition moved (source destination : VirtualPath) (g : Z) (view : NodeMap) (k : VirtualPath) : option FsCheckpoint.CheckpointNode :=
  if decide (destination `prefix_of` k) then
    let q := source ++ drop (length destination) k in
    (fun n => FsCheckpoint.with_path n k (if decide (q = source) then g else FsCheckpoint.node_generation n)) <$> BTree.get q view
  else if decide (source `prefix_of` k) then None else BTree.get k view.

Section Rename.
Context (l : FileSystemLimits) (nodes : NodeMap) (source destination : VirtualPath) (replace : bool) (g : Z) (n : FsCheckpoint.CheckpointNode).
Context (Hl : limits_ok l) (Hs : BTree.sorted nodes) (Hd : destination <> []).
Context (Hout : is_within destination source = false) (Hparent : require_parent nodes destination = Ok tt) (Hn : BTree.get source nodes = Some n).
Context (Hexisting : forall e, BTree.get destination nodes = Some e -> replace = true /\
  FsCheckpoint.is_directory e = FsCheckpoint.is_directory n /\ has_descendants nodes destination = false).
Context (Hvacant : forall r, r <> [] -> BTree.get (destination ++ r) nodes = None).
Context (Hpaths : forall k v, moved source destination g nodes k = Some v -> destination `prefix_of` k -> path_ok l k).

Let moving := subtree nodes source.
Let es := move_entry source destination g <$> moving.
Let base := remove_all (BTree.keys moving) (BTree.remove destination nodes).

Lemma moving_elem k v : (k, v) ∈ moving <-> BTree.get k nodes = Some v /\ source `prefix_of` k.
Proof. unfold moving. rewrite subtree_elem by done. by rewrite BTree.get_elem. Qed.

Lemma moving_keys k : k ∈ BTree.keys moving <-> is_Some (BTree.get k nodes) /\ source `prefix_of` k.
Proof.
  unfold BTree.keys. rewrite list_elem_of_fmap. split.
  - intros ([k' v] & -> & [Hv Hp]%moving_elem). simpl. split; [by exists v|done].
  - intros [[v Hv] Hp]. exists (k, v). split; [done|]. by apply moving_elem.
Qed.

Lemma rebased_prefix r : rebased source destination (source ++ r) = destination ++ r.
Proof. unfold rebased. by rewrite drop_app_length. Qed.

Lemma es_keys k : k ∈ es.*1 <-> exists r v, k = destination ++ r /\ BTree.get (source ++ r) nodes = Some v.
Proof.
  unfold es. rewrite list_elem_of_fmap. split.
  - intros (e & -> & He). apply list_elem_of_fmap in He as ([p v] & -> & [Hv [r ->]]%moving_elem). exists r, v. cbn [move_entry fst]. by rewrite rebased_prefix.
  - intros (r & v & -> & Hv). eexists. split; [|apply list_elem_of_fmap; exists (source ++ r, v); split; [done|]].
    + cbn [move_entry fst]. by rewrite rebased_prefix.
    + apply moving_elem. split; [done|by apply prefix_app_r].
Qed.

Lemma es_nodup : NoDup es.*1.
Proof.
  unfold es. rewrite <- list_fmap_compose. apply NoDup_fmap_2_strong.
  - intros [k v] [k' v'] [Hk [r ->]]%moving_elem [Hk' [r' ->]]%moving_elem. unfold compose. cbn [move_entry fst]. rewrite !rebased_prefix.
    intros E%app_inv_head. subst r'. congruence.
  - apply (NoDup_fmap_1 fst). apply BTree.keys_NoDup. by apply subtree_sorted.
Qed.

Lemma base_sorted : BTree.sorted base.
Proof. by apply remove_all_sorted, BTree.remove_sorted. Qed.

Lemma base_get k : BTree.get k base = if decide (source `prefix_of` k) then None else if decide (k = destination) then None else BTree.get k nodes.
Proof.
  unfold base. rewrite remove_all_get, BTree.get_remove by (try apply BTree.remove_sorted; done).
  destruct (decide (k ∈ BTree.keys moving)) as [Hk|Hk]; rewrite moving_keys in Hk; destruct (decide (source `prefix_of` k)); [done|naive_solver| |done].
  destruct (decide (k = destination)); [done|]. destruct (BTree.get k nodes) eqn:E; [|done]. exfalso. apply Hk. split; [by eexists|done].
Qed.

Lemma moved_get k : BTree.get k (insert_all es base) = moved source destination g nodes k.
Proof.
  destruct (insert_all_get es base base_sorted es_nodup) as [Hin Hnotin]. unfold moved. destruct (decide (destination `prefix_of` k)) as [[r ->]|Hp].
  - rewrite drop_app_length. destruct (BTree.get (source ++ r) nodes) as [v|] eqn:Ev; cbn [fmap option_fmap option_map].
    + apply Hin. unfold es. apply list_elem_of_fmap. exists (source ++ r, v). split; [|apply moving_elem; split; [done|by apply prefix_app_r]].
      unfold move_entry. cbn [fst snd]. rewrite rebased_prefix. f_equal. f_equal. destruct (decide (source ++ r = source)).
      * by rewrite bool_decide_eq_true_2.
      * by rewrite bool_decide_eq_false_2.
    + rewrite Hnotin, base_get; [|intros (r' & v & E%app_inv_head & Hv)%es_keys; subst r'; congruence].
      destruct (decide _); [done|]. destruct (decide _) as [|Hne]; [done|]. apply Hvacant. intros ->. apply Hne. by rewrite app_nil_r.
  - rewrite Hnotin, base_get.
    + destruct (decide _); [done|]. rewrite decide_False; [done|]. by intros ->; apply Hp.
    + intros (r & v & -> & _)%es_keys. apply Hp. by apply prefix_app_r.
Qed.

Lemma rename_moved : exists nodes', rename nodes source destination replace g l = Ok nodes' /\ BTree.sorted nodes' /\
  forall k, BTree.get k nodes' = moved source destination g nodes k.
Proof.
  exists (insert_all es base). split_and!; [|by apply insert_all_sorted, base_sorted|apply moved_get].
  unfold rename. rewrite Hout, Hparent. cbn [mbind outcome_bind]. rewrite Hn. cbn [ok_or mbind outcome_bind].
  assert (E : (match BTree.get destination nodes with
    | Some existing => if negb replace || negb (Bool.eqb (FsCheckpoint.is_directory existing) (FsCheckpoint.is_directory n)) then Err tt
        else if FsCheckpoint.is_directory existing && has_descendants nodes destination then Err tt else Ok tt
    | None => Ok tt end) = @Ok unit unit tt).
  { destruct (BTree.get destination nodes) as [e|] eqn:Ee; [|done]. destruct (Hexisting e eq_refl) as (-> & -> & ->). rewrite eqb_reflx, andb_false_r. done. }
  rewrite E. cbn [mbind outcome_bind]. assert (Hne : moving <> []).
  { intros Em. assert (Hin : (source, n) ∈ moving) by (by apply moving_elem). rewrite Em in Hin. by apply elem_of_nil in Hin. }
  assert (Hm : forall x : outcome unit NodeMap, match moving with [] => Err tt | _ :: _ => x end = x) by (intros x; clear -Hne; clearbody moving; by destruct moving).
  unfold moving in Hm at 1. rewrite Hm. apply insert_moved_ok; [done|done|]. intros [p v] Hp. fold moving in Hp.
  assert (Hes : move_entry source destination g (p, v) ∈ es) by (unfold es; by apply list_elem_of_fmap_2).
  destruct (insert_all_get es base base_sorted es_nodup) as [Hin _]. apply moving_elem in Hp as [_ [r ->]]. unfold move_entry in Hes. cbn [fst snd] in Hes |- *.
  apply Hin in Hes. rewrite moved_get in Hes. eapply Hpaths; [exact Hes|]. rewrite rebased_prefix. by apply prefix_app_r.
Qed.

End Rename.

(** ** The stable sort *)

Section Sort.
Context {A : Type} (key : A -> Z).

Definition ordered (m : list A) : Prop := StronglySorted (fun a b => key a <= key b) m.

Lemma insert_by_perm a m : insert_by key a m ≡ₚ a :: m.
Proof. induction m as [|b m IH]; simpl; [done|]. destruct (_ <=? _); [done|]. rewrite IH. by constructor. Qed.

Lemma insert_by_ordered a m : ordered m -> ordered (insert_by key a m).
Proof.
  unfold ordered. induction 1 as [|b m Hm IH Hall]; simpl; [by repeat constructor|]. destruct (Z.leb_spec (key a) (key b)).
  - constructor; [by constructor|]. constructor; [done|]. eapply Forall_impl; [exact Hall|]. simpl. lia.
  - constructor; [done|]. rewrite insert_by_perm. constructor; [lia|done].
Qed.

Lemma sort_perm m : sort_by_key key m ≡ₚ m.
Proof. induction m as [|a m IH]; simpl; [done|]. rewrite insert_by_perm. by constructor. Qed.

Lemma sort_ordered m : ordered (sort_by_key key m).
Proof. induction m as [|a m IH]; simpl; [constructor|]. by apply insert_by_ordered. Qed.

Lemma first_duplicate_some m d : first_duplicate key m = Some d -> exists m1 a b m2, m = m1 ++ a :: b :: m2 /\ key a = d /\ key b = d.
Proof.
  induction m as [|a [|b m] IH]; [done|done|]. cbn [first_duplicate]. destruct (Z.eqb_spec (key a) (key b)).
  - intros [= <-]. by exists [], a, b, m.
  - intros H. destruct (IH H) as (m1 & a' & b' & m2 & E & Ha & Hb). exists (a :: m1), a', b', m2. by rewrite E.
Qed.

Lemma ordered_filter P `{!forall a, Decision (P a)} m : ordered m -> ordered (filter P m).
Proof.
  unfold ordered. induction 1 as [|b m Hm IH Hall]; [constructor|]. rewrite filter_cons. destruct (decide (P b)); [|done].
  constructor; [done|]. rewrite Forall_forall in Hall |- *. intros x [_ Hx]%list_elem_of_filter. by apply Hall.
Qed.

(** A key that occurs twice occurs twice in any rearrangement. *)
Lemma duplicate_above m d bound (low high : list A) : first_duplicate key m = Some d -> m ≡ₚ low ++ high ->
  NoDup (key <$> low) -> Forall (fun a => key a <= bound) low -> Forall (fun a => bound < key a) high -> bound < d.
Proof.
  intros (m1 & a & b & m2 & -> & Ha & Hb)%first_duplicate_some Hp Hnd Hlow Hhigh. apply Z.nle_gt. intros Hle.
  assert (Hf : filter (fun x => key x <= bound) (m1 ++ a :: b :: m2) ≡ₚ low).
  { rewrite Hp, filter_app. rewrite (filter_all _ low) by done. rewrite (filter_none _ high); [by rewrite app_nil_r|].
    eapply Forall_impl; [exact Hhigh|]. intros x Hx. simpl in *. lia. }
  rewrite filter_app, !filter_cons in Hf. rewrite !decide_True in Hf by lia. rewrite <- Hf in Hnd. rewrite fmap_app in Hnd. cbn [fmap list_fmap] in Hnd.
  apply NoDup_app in Hnd as (_ & _ & Hnd). apply NoDup_cons in Hnd as [Hn _]. apply Hn. rewrite Ha, Hb. by left.
Qed.

End Sort.

(** ** Chains of records *)

Section Digest.
Context (sha256 : list Z -> Digest) (l : FileSystemLimits) (id : ComputerId).

(** [rec] is an intact record of the mutation that follows [st], and leads to [st']. *)
Definition follows (st : RecoveredState) (rec : RecoveryJournalRecord) (st' : RecoveredState) : Prop :=
  exists r next, record_decode sha256 (record_bytes rec) l = Ok r /\ Journal.computer_id r = id /\
    sequence r = state_generation st + 1 /\ previous_sequence r = state_generation st /\ claimed_sequence rec = state_generation st + 1 /\
    state_generation st + 1 <= u64_max /\ apply st (operation r) (sequence r) l = Ok next /\
    st' = mkRecovered (state_generation st + 1) (state_nodes next).

Inductive chain : RecoveredState -> list RecoveryJournalRecord -> RecoveredState -> Prop :=
| chain_nil st : chain st [] st
| chain_cons st rec st1 recs st2 : follows st rec st1 -> chain st1 recs st2 -> chain st (rec :: recs) st2.

Lemma follows_generation st rec st' : follows st rec st' -> claimed_sequence rec = state_generation st + 1 /\ state_generation st' = state_generation st + 1.
Proof. intros (r & next & _ & _ & _ & _ & Hc & _ & _ & ->). done. Qed.

Lemma chain_generation st recs st' : chain st recs st' -> state_generation st <= state_generation st' /\
  Forall (fun r => state_generation st < claimed_sequence r <= state_generation st') recs /\ NoDup (claimed_sequence <$> recs).
Proof.
  induction 1 as [st|st rec st1 recs st2 Hf _ (IH1 & IH2 & IH3)]; [split_and!; [lia|constructor|constructor]|]. apply follows_generation in Hf as [Hc Hg].
  split_and!; [lia| |].
  - constructor; [lia|]. eapply Forall_impl; [exact IH2|]. simpl. lia.
  - cbn [fmap list_fmap]. constructor; [|done]. rewrite list_elem_of_fmap. intros (r & E & Hr). rewrite Forall_forall in IH2. specialize (IH2 _ Hr). lia.
Qed.

Lemma chain_app st recs st' recs' st'' : chain st recs st' -> chain st' recs' st'' -> chain st (recs ++ recs') st''.
Proof. induction 1; [done|]. intros Hc. simpl. econstructor; [done|]. auto. Qed.

(** A chain has a record for every generation it passes. *)
Lemma chain_covers st recs st' : chain st recs st' -> forall g, state_generation st < g <= state_generation st' ->
  exists rec, rec ∈ recs /\ claimed_sequence rec = g.
Proof.
  induction 1 as [st|st rec st1 recs st2 Hf Hc IH]; intros g Hg; [lia|]. apply follows_generation in Hf as [Hc1 Hg1].
  destruct (Z.eq_dec g (state_generation st + 1)) as [->|]; [exists rec; split; [left|done]|].
  destruct (IH g ltac:(lia)) as (r & Hr & E). exists r. split; [by right|done].
Qed.

(** The record that would come next was not written completely. *)
Definition torn (st : RecoveredState) (rec : RecoveryJournalRecord) : Prop :=
  state_generation st < claimed_sequence rec /\
  (claimed_sequence rec = state_generation st + 1 -> exists e, record_decode sha256 (record_bytes rec) l = Err e).

(** Replaying the records in order skips the old ones, follows the chain and stops
    at the first record that does not continue it. *)
Lemma replay_chain i recs : forall st st' old rest, input_computer i = id -> (rest <> [] -> state_generation st' + 1 <= u64_max) ->
  chain st recs st' -> Forall (fun r => claimed_sequence r <= state_generation st) old -> Forall (torn st') rest ->
  confirmed_generation i <= state_generation st' ->
  forall m, ordered claimed_sequence m -> m ≡ₚ old ++ recs ++ rest -> replay sha256 i l m st = Ok st'.
Proof.
  intros st st' old rest Hid Hmax Hc Hold Hrest Hconf m Hm Hp. revert recs st old Hc Hold Hp. induction Hm as [|e m Hm IH Hall]; intros recs st old Hc Hold Hp.
  { apply Permutation_nil_l in Hp. symmetry in Hp. apply app_eq_nil in Hp as [_ Hp]. apply app_eq_nil in Hp as [-> _]. by inversion Hc. }
  pose proof (chain_generation _ _ _ Hc) as (Hle & Hrecs & _). cbn [replay].
  assert (He : e ∈ old ++ recs ++ rest) by (rewrite <- Hp; by left). rewrite !elem_of_app in He. rewrite Forall_forall in Hold, Hrest, Hrecs, Hall.
  destruct (Z.leb_spec (claimed_sequence e) (state_generation st)) as [Hskip|Hskip].
  - destruct He as [He|[He|He]]; [|apply Hrecs in He; lia|apply Hrest in He as [? _]; lia].
    apply elem_of_Permutation in He as [old' Ho]. apply (IH recs st old'); [done| |].
    + apply Forall_forall. intros x Hx. apply Hold. rewrite Ho. by right.
    + rewrite Ho in Hp. simpl in Hp. by apply Permutation_cons_inv in Hp.
  - destruct He as [He|He]; [apply Hold in He; lia|]. assert (old = []) as ->.
    { destruct old as [|o old]; [done|]. exfalso. assert (Ho : o ∈ e :: m) by (rewrite Hp; by left). pose proof (Hold o ltac:(by left)) as Hoo. simpl in Hoo.
      apply elem_of_cons in Ho as [->|Ho]; [lia|]. specialize (Hall _ Ho). simpl in *. lia. }
    simpl in Hp. assert (Hb : state_generation st + 1 <= u64_max).
    { inversion Hc as [|st0 r0 st1 rs0 st2 Hf Hchain]; subst; [|by destruct Hf as (? & ? & _ & _ & _ & _ & _ & ? & _)].
      destruct He as [He%elem_of_nil|He]; [done|]. apply Hmax. by intros ->; apply elem_of_nil in He. }
    unfold checked_add. rewrite (proj2 (Z.leb_le (state_generation st + 1) u64_max)) by lia. cbn [ok_or mbind outcome_bind]. destruct recs as [|rec recs].
    + assert (st = st') as -> by (by inversion Hc). destruct He as [He%elem_of_nil|He]; [done|]. apply Hrest in He as [_ Ht].
      destruct (Z.eqb_spec (claimed_sequence e) (state_generation st' + 1)) as [Eq|Eq]; cbn [negb].
      * destruct (Ht Eq) as [err Herr]. rewrite Herr. by rewrite (proj2 (Z.leb_gt _ _)) by lia.
      * by rewrite (proj2 (Z.leb_gt _ _)) by lia.
    + inversion Hc as [|st0 r0 st1 rs0 st2 Hf Hchain]; subst. pose proof (follows_generation _ _ _ Hf) as [Hcl Hg]. pose proof (chain_generation _ _ _ Hchain) as (Hle1 & Hrecs1 & _).
      assert (e = rec) as ->.
      { assert (Hin : rec ∈ e :: m) by (rewrite Hp; by left). apply elem_of_cons in Hin as [->|Hin]; [done|]. specialize (Hall _ Hin). simpl in Hall.
        destruct He as [He|He]; [|apply Hrest in He as [? _]; lia]. apply elem_of_cons in He as [->|He]; [done|]. rewrite Forall_forall in Hrecs1. specialize (Hrecs1 _ He). lia. }
      destruct Hf as (r & next & Hd & Hi & Hseq & Hprev & Hclaim & _ & Happ & ->). rewrite Hclaim, Z.eqb_refl. cbn [negb]. rewrite Hd, Hi, Hseq, Hprev, !Z.eqb_refl.
      rewrite bool_decide_eq_true_2 by done. cbn [andb]. rewrite Hseq in Happ. rewrite Happ. apply (IH recs _ []); [done|constructor|]. simpl. by apply Permutation_cons_inv in Hp.
Qed.

(** Recovery from the newest usable checkpoint, records it makes obsolete, a chain
    and whatever a crash left behind it, in the order the directory lists them. *)
Lemma recover_chain i st st' old recs rest : input_computer i = id -> bound_work i l = Ok tt ->
  start_state sha256 i l = Ok st -> validate_state st l = Ok tt -> journal_records i ≡ₚ old ++ recs ++ rest ->
  Forall (fun r => claimed_sequence r <= state_generation st) old -> NoDup (claimed_sequence <$> old) ->
  chain st recs st' -> Forall (torn st') rest -> confirmed_generation i <= state_generation st' -> (rest <> [] -> state_generation st' + 1 <= u64_max) ->
  recover sha256 i l = Ok st'.
Proof.
  intros Hid Hb Hst Hv Hp Hold Hnd Hc Hrest Hconf Hmax. pose proof (chain_generation _ _ _ Hc) as (Hle & Hrecs & Hnd').
  unfold recover. rewrite Hb. cbn [mbind outcome_bind]. rewrite Hst. cbn [mbind outcome_bind]. rewrite Hv. cbn [mbind outcome_bind].
  set (m := sort_by_key claimed_sequence (journal_records i)).
  assert (Hm : m ≡ₚ old ++ recs ++ rest) by (unfold m; by rewrite sort_perm). pose proof (sort_ordered claimed_sequence (journal_records i)) as Ho. fold m in Ho.
  assert (Hdone : forall m' rest', ordered claimed_sequence m' -> m' ≡ₚ old ++ recs ++ rest' -> Forall (torn st') rest' -> (rest' <> [] -> rest <> []) ->
    (state ← replay sha256 i l m' st; if state_generation state <? confirmed_generation i then Err ConfirmedCorruption else Ok state) = Ok st').
  { intros m' rest' Ho' Hp' Hr' Hne. rewrite (replay_chain i recs st st' old rest') by auto. cbn [mbind outcome_bind]. by rewrite (proj2 (Z.ltb_ge _ _)) by lia. }
  destruct (first_duplicate claimed_sequence m) as [d|] eqn:Ed; [|cbn [mbind outcome_bind]; by apply (Hdone m rest)].
  assert (Hd : state_generation st' < d).
  { apply (duplicate_above claimed_sequence m d (state_generation st') (old ++ recs) rest); [done|by rewrite <- app_assoc| | |].
    - rewrite fmap_app. apply NoDup_app. split_and!; [done| |done]. intros k (a & -> & Ha)%list_elem_of_fmap (b & E & Hb')%list_elem_of_fmap.
      rewrite Forall_forall in Hold, Hrecs. specialize (Hold _ Ha). specialize (Hrecs _ Hb'). lia.
    - apply Forall_app. split; eapply Forall_impl; [exact Hold|simpl; lia|exact Hrecs|simpl; lia].
    - eapply Forall_impl; [exact Hrest|]. by intros x [? _]. }
  rewrite (proj2 (Z.leb_gt _ _)) by lia. cbn [mbind outcome_bind]. apply (Hdone _ (filter (fun r => claimed_sequence r < d) rest)).
  - by apply ordered_filter.
  - rewrite Hm, !filter_app. rewrite (filter_all _ old), (filter_all _ recs); [done|..].
    + eapply Forall_impl; [exact Hrecs|]. simpl. lia.
    + eapply Forall_impl; [exact Hold|]. simpl. lia.
  - apply Forall_forall. intros x [_ Hx]%list_elem_of_filter. rewrite Forall_forall in Hrest. by apply Hrest.
  - intros Hne ->. by apply Hne.
Qed.

Lemma sum_checked_ok max ns : Forall (fun n => 0 <= n) ns -> forall t, 0 <= t -> t + foldr Z.add 0 ns <= max ->
  sum_checked max ns t = Some (t + foldr Z.add 0 ns).
Proof.
  induction 1 as [|n ns Hn Hns IH]; intros t Ht Hmax; simpl in *; [f_equal; lia|]. assert (0 <= foldr Z.add 0 ns) by (clear -Hns; induction Hns; simpl; lia).
  unfold checked_add. rewrite (proj2 (Z.leb_le _ _)) by lia. simpl. rewrite IH by lia. f_equal. lia.
Qed.

End Digest.
End Replay.
