(* ===== verification/Gate.v ===== *)
(** src/filesystem/worker.rs, the admission side: the bounded queue between the
    filesystems of a world and the thread that writes to disk.  A method that
    holds the lock for one critical section is one transition; the conditions a
    blocked thread waits for are the [_ready] predicates.  The thread's disk
    operations are a parameter of its step: they succeed or they fail. *)

From S2P Require Import Prelude Words Unicode BTree Path Codec Journal.

Module Gate.
Import FsError FsLimits Path Codec Journal.

Inductive StoreError := SNotFound | SBusy | SStorageFaulted | SClosed | SInvalidGeneration | SIo.

Record MutationCommand := mkMutation {
  m_computer : ComputerId; m_generation : Z; m_object : option (Digest * list Z); m_journal : list Z }.

(** The completions of the control commands only wake their waiting caller. *)
Inductive Command :=
| Mutation (command : MutationCommand)
| Tombstone (computer : ComputerId) (present : bool)
| Collect (objects : list Digest)
| Stop.

Definition saturating_mul (max a b : Z) : Z := Z.min max (a * b).

Definition byte_cost (c : Command) : Z :=
  match c with
  | Mutation m => saturating_add usize_max (match m_object m with Some (_, bs) => size bs | None => 0 end) (size (m_journal m))
  | Tombstone _ _ => 0
  | Collect objects => saturating_mul usize_max (size objects) 32
  | Stop => 0
  end.

Record QueueState := mkQueue {
  health : StoreHealth;
  queue : list Command;
  queued_bytes : Z;
  reserved_records : Z;
  reserved_bytes : Z;
  maximum_records : Z;
  maximum_bytes : Z;
  admitted : list (list Z * Z);
  durable : list (list Z * Z);
  stop_enqueued : bool }.

Definition gate_start (limits : FileSystemLimits) : QueueState :=
  mkQueue Active [] 0 0 0 (maximum_persistence_queue_records limits) (maximum_persistence_queue_bytes limits) [] [] false.

Definition set_health (h : StoreHealth) (q : QueueState) : QueueState :=
  mkQueue h (queue q) (queued_bytes q) (reserved_records q) (reserved_bytes q) (maximum_records q) (maximum_bytes q)
    (admitted q) (durable q) (stop_enqueued q).
Definition set_reserved (n b : Z) (q : QueueState) : QueueState :=
  mkQueue (health q) (queue q) (queued_bytes q) n b (maximum_records q) (maximum_bytes q) (admitted q) (durable q) (stop_enqueued q).
Definition set_queue (cs : list Command) (b : Z) (q : QueueState) : QueueState :=
  mkQueue (health q) cs b (reserved_records q) (reserved_bytes q) (maximum_records q) (maximum_bytes q) (admitted q) (durable q) (stop_enqueued q).
Definition set_admitted (a : list (list Z * Z)) (q : QueueState) : QueueState :=
  mkQueue (health q) (queue q) (queued_bytes q) (reserved_records q) (reserved_bytes q) (maximum_records q) (maximum_bytes q)
    a (durable q) (stop_enqueued q).
Definition set_durable (d : list (list Z * Z)) (q : QueueState) : QueueState :=
  mkQueue (health q) (queue q) (queued_bytes q) (reserved_records q) (reserved_bytes q) (maximum_records q) (maximum_bytes q)
    (admitted q) d (stop_enqueued q).

Definition require_active_store (h : StoreHealth) : outcome StoreError unit :=
  match h with Active => Ok tt | Draining | HealthClosed => Err SClosed | Faulted => Err SStorageFaulted end.
Definition require_active_filesystem (h : StoreHealth) : outcome FileSystemError unit :=
  match h with Active => Ok tt | Draining | HealthClosed => Err Closed | Faulted => Err StorageFaulted end.

Definition codec_to_filesystem (e : PersistenceCodecError) : FileSystemError :=
  match e with LimitExceeded => QuotaExceeded | Malformed | UnsupportedVersion | DigestMismatch | NonCanonical => StorageFaulted end.

Definition filesystem_to_store (e : FileSystemError) : StoreError :=
  match e with Busy => SBusy | Closed => SClosed | StorageFaulted => SStorageFaulted | _ => SIo end.

(** A reservation is its [byte_cost] while it is active. *)
Definition reserve (cost : Z) : ST QueueState FileSystemError unit :=
  q ← st_get;
  _ ← st_lift (require_active_filesystem (health q));
  records ← st_lift (ok_or (checked_add usize_max (size (queue q)) (reserved_records q)) Busy);
  bytes ← st_lift (ok_or (b ← checked_add usize_max (queued_bytes q) (reserved_bytes q); checked_add usize_max b cost) Busy);
  if (maximum_records q <=? records) || (maximum_bytes q <? bytes) then st_err Busy
  else st_put (set_reserved (reserved_records q + 1) (reserved_bytes q + cost) q).

(** [QueueReservation::drop]; plain subtraction. *)
Definition drop_reservation (cost : Z) : ST QueueState FileSystemError unit :=
  q ← st_get;
  if (reserved_records q <? 1) || (reserved_bytes q <? cost) then st_panic
  else st_put (set_reserved (reserved_records q - 1) (reserved_bytes q - cost) q).

Definition publish (cost : Z) (c : Command) : ST QueueState FileSystemError unit :=
  _ ← drop_reservation cost;
  q ← st_get;
  if usize_max <? queued_bytes q + cost then st_panic
  else
    let q := match c with Mutation m => set_admitted (BTree.insert (m_computer m) (m_generation m) (admitted q)) q | _ => q end in
    st_put (set_queue (queue q ++ [c]) (queued_bytes q + cost) q).

Definition register_computer (id : ComputerId) (generation : Z) : ST QueueState StoreError unit :=
  q ← st_get;
  _ ← st_lift (require_active_store (health q));
  st_put (set_durable (BTree.insert id generation (durable q)) (set_admitted (BTree.insert id generation (admitted q)) q)).

Definition durable_generation (id : ComputerId) (q : QueueState) : outcome StoreError Z :=
  match health q with
  | Faulted => Err SStorageFaulted
  | HealthClosed => Err SClosed
  | Active | Draining => ok_or (BTree.get id (durable q)) SNotFound
  end.

(** One round of [flush]: [None] while the caller has to wait. *)
Definition flush_round (id : ComputerId) (generation : Z) (q : QueueState) : option (outcome StoreError unit) :=
  match health q with
  | Faulted => Some (Err SStorageFaulted)
  | HealthClosed => Some (Err SClosed)
  | Active | Draining => if generation <=? default 0 (BTree.get id (durable q)) then Some (Ok tt) else None
  end.
Definition flush (id : ComputerId) (generation : Z) (q : QueueState) : option (outcome StoreError unit) :=
  if default 0 (BTree.get id (admitted q)) <? generation then Some (Err SInvalidGeneration) else flush_round id generation q.

(** [flush_admitted]: everything admitted so far. *)
Definition flush_admitted (id : ComputerId) (q : QueueState) : option (outcome StoreError unit) :=
  match require_active_store (health q) with
  | Ok _ => match BTree.get id (admitted q) with Some generation => flush id generation q | None => Some (Ok tt) end
  | Err e => Some (Err e)
  | Panic => Some Panic
  end.

Definition begin_draining (q : QueueState) : QueueState :=
  match health q with Active => set_health Draining q | _ => q end.

(** [stop] waits for the outstanding reservations. *)
Definition stop_ready (q : QueueState) : bool :=
  (reserved_records q =? 0) || match health q with Faulted | HealthClosed => true | _ => false end.
Definition stop (q : QueueState) : QueueState :=
  if stop_enqueued q then q
  else mkQueue (health q) (queue q ++ [Stop]) (queued_bytes q) (reserved_records q) (reserved_bytes q) (maximum_records q)
         (maximum_bytes q) (admitted q) (durable q) true.

Definition mark_closed (q : QueueState) : QueueState :=
  match health q with Faulted => q | _ => set_health HealthClosed q end.
Definition fault (q : QueueState) : QueueState := set_health Faulted q.

(** The worker thread: it takes the oldest command, ... *)
Definition take_command : ST QueueState StoreError (option Command) :=
  q ← st_get;
  match queue q with
  | [] => mret None
  | c :: cs =>
      if queued_bytes q <? byte_cost c then st_panic
      else _ ← st_put (set_queue cs (queued_bytes q - byte_cost c) q); mret (Some c)
  end.

Definition fault_worker (q : QueueState) : QueueState := set_queue [] 0 (set_health Faulted q).

(** ... carries it out, and records the outcome; [true] when it keeps running. *)
Definition finish_command (c : Command) (persisted : bool) (q : QueueState) : bool * QueueState :=
  match c with
  | Mutation m =>
      (true, if persisted then set_durable (BTree.insert (m_computer m) (m_generation m) (durable q)) q else fault_worker q)
  | Tombstone _ _ | Collect _ => (true, if persisted then q else fault_worker q)
  | Stop => (false, q)
  end.

Record ComputerPersistence := mkPersistence { p_computer : ComputerId; p_limits : FileSystemLimits }.

Section Digest.
Context (sha256 : list Z -> Digest).

(** [ComputerPersistence::prepare] returns the reservation and the command. *)
Definition prepare (p : ComputerPersistence) (generation : Z) (object : option (Digest * list Z)) (op : JournalOperation)
    : ST QueueState FileSystemError (Z * Command) :=
  if generation <? 1 then st_panic
  else
    journal ← st_lift match (r ← record_new (p_computer p) generation (generation - 1) op; record_encode sha256 r (p_limits p)) with
                      | Ok bs => Ok bs
                      | Err e => Err (codec_to_filesystem e)
                      | Panic => Panic
                      end;
    let command := Mutation (mkMutation (p_computer p) generation object journal) in
    _ ← reserve (byte_cost command);
    mret (byte_cost command, command).

End Digest.
End Gate.
