(* ===== verification/Rom.v ===== *)
(** src/filesystem/rom.rs: the bounded, canonical image of a read-only mount. *)

From S2P Require Import Prelude Words Unicode BTree Path Codec Journal.

Module Rom.
Import FsError FsLimits Path Codec.

(** [b"CPKTROM\0"]. *)
Definition MAGIC : list Z := [67; 80; 75; 84; 82; 79; 77; 0].

Inductive RomImageError := RMalformed | RUnsupportedVersion | RLimitExceeded | RDigestMismatch | RNonCanonical.

Inductive RomEntryKind := RomDirectory | RomFile.

Record RomEntry := mkEntry { entry_path : VirtualPath; entry_kind : RomEntryKind; entry_executable : bool; entry_content : list Z }.

Record RomImage := mkImage { identity : Digest; entries : list RomEntry }.

(** The cursor of rom.rs, with its own error type. *)
Abbreviation RomM := (ST Cursor RomImageError).

Definition read_exact (length : Z) : RomM (list Z) := fun c =>
  match checked_add usize_max (offset c) length with
  | None => (Err RMalformed, c)
  | Some stop =>
      match slice_get (offset c) stop (bytes c) with
      | None => (Err RMalformed, c)
      | Some result => (Ok result, mkCursor (bytes c) stop)
      end
  end.
Definition rom_u8 : RomM Z := bs ← read_exact 1; mret (le_val bs).
Definition rom_u16 : RomM Z := bs ← read_exact 2; mret (le_val bs).
Definition rom_u32 : RomM Z := bs ← read_exact 4; mret (le_val bs).
Definition rom_u64 : RomM Z := bs ← read_exact 8; mret (le_val bs).
Definition is_finished (c : Cursor) : bool := offset c =? size (bytes c).

(** The path of an entry: length, bytes, canonical form, order and parent. *)
Definition read_entry_path (limits : FileSystemLimits) (rom_root : VirtualPath) (previous : option VirtualPath)
    (directories : list VirtualPath) : RomM VirtualPath :=
  path_length ← rom_u32;
  if maximum_path_bytes limits <? path_length then st_err RLimitExceeded
  else
    path_text ← read_exact path_length;
    if negb (utf8_valid path_text) then st_err RMalformed
    else
      p ← st_lift match parse_utf8 path_text limits with Ok p => Ok p | Err _ => Err RNonCanonical | Panic => Panic end;
      if negb (is_within p rom_root) || bool_decide (p = rom_root) then st_err RNonCanonical
      else if match previous with Some q => negb (bool_decide (BTree.lt q p)) | None => false end then st_err RNonCanonical
      else
        parent ← st_lift (ok_or (parent p) RNonCanonical);
        if negb (bool_decide (parent ∈ directories)) then st_err RNonCanonical
        else mret p.

Definition read_entry_body (limits : FileSystemLimits) (p : VirtualPath) : RomM RomEntry :=
  kind ← rom_u8;
  flags ← rom_u8;
  reserved ← rom_u16;
  if negb (reserved =? 0) then st_err RMalformed
  else
    content_length ← rom_u64;
    if (kind =? 1) && (flags =? 0) && (content_length =? 0) then mret (mkEntry p RomDirectory false [])
    else if (kind =? 2) && Journal.only_low_bit flags then
      if maximum_file_bytes limits <? content_length then st_err RLimitExceeded
      else
        content ← read_exact content_length;
        mret (mkEntry p RomFile (Journal.low_bit flags) content)
    else st_err RMalformed.

(** The [for _ in 0..count] loop. *)
Fixpoint read_entries (limits : FileSystemLimits) (rom_root : VirtualPath) (count : nat) (previous : option VirtualPath)
    (directories : list VirtualPath) : RomM (list RomEntry) :=
  match count with
  | O => mret []
  | S count =>
      p ← read_entry_path limits rom_root previous directories;
      e ← read_entry_body limits p;
      es ← read_entries limits rom_root count (Some p)
             (match entry_kind e with RomDirectory => p :: directories | RomFile => directories end);
      mret (e :: es)
  end.

Definition rom_body (limits : FileSystemLimits) (identity : Digest) : RomM RomImage :=
  magic ← read_exact 8;
  if negb (bool_decide (magic = MAGIC)) then st_err RMalformed
  else
    version ← rom_u16;
    if negb (version =? 1) then st_err RUnsupportedVersion
    else
      reserved ← rom_u16;
      if negb (reserved =? 0) then st_err RUnsupportedVersion
      else
        count ← rom_u32;
        if saturating_sub (maximum_nodes limits) 2 <? count then st_err RLimitExceeded
        else
          rom_root ← st_lift match parse_utf8 (slash :: str_rom) limits with
                             | Ok p => Ok p | Err _ => Err RLimitExceeded | Panic => Panic end;
          entries ← read_entries limits rom_root (Z.to_nat count) None [rom_root];
          c ← st_get;
          if negb (is_finished c) then st_err RMalformed
          else mret (mkImage identity entries).

Section Digest.
Context (sha256 : list Z -> Digest).

Definition admit_image (bs : list Z) (limits : FileSystemLimits) : outcome RomImageError RomImage :=
  if maximum_rom_bytes limits <? size bs then Err RLimitExceeded
  else if size bs <? 16 + DIGEST_BYTES then Err RMalformed
  else
    let payload_end := size bs - DIGEST_BYTES in
    let identity := drop (Z.to_nat payload_end) bs in
    let payload := take (Z.to_nat payload_end) bs in
    if negb (bool_decide (sha256 payload = identity)) then Err RDigestMismatch
    else (rom_body limits identity (mkCursor payload 0)).1.

End Digest.
End Rom.
