(* ===== verification/Tree.v ===== *)
(** src/filesystem/tree.rs: one computer's namespace and its content-addressed
    object store.  The filesystem and the gate it publishes to form one state;
    the digest is a parameter. *)

From S2P Require Import Prelude Words Unicode BTree Path FileHandle Codec Journal FsCheckpoint Recovery Rom Gate.

Module Tree.
Import FsError FsLimits Path Capability Quota Codec Journal.

Inductive NodeKind := KFile | KDirectory.
#[global] Instance NodeKind_eq : EqDecision NodeKind.
Proof. solve_decision. Defined.

Record NodeMetadata := mkMeta { kind : NodeKind; logical_size : Z; node_generation : Z; executable : bool }.
#[global] Instance NodeMetadata_eq : EqDecision NodeMetadata.
Proof. solve_decision. Defined.

Inductive ExecutableRevision := Absent | Present (generation : Z).
#[global] Instance ExecutableRevision_eq : EqDecision ExecutableRevision.
Proof. solve_decision. Defined.
Definition revision_generation (r : ExecutableRevision) : option Z := match r with Absent => None | Present g => Some g end.

(** [Directory = BTreeMap<Box<str>, Node>]. *)
Inductive Node := mkNode (metadata : NodeMetadata) (contents : NodeContents)
with NodeContents := CFile (object : Digest) | CDirectory (children : list (list Z * Node)).

Abbreviation Directory := (list (list Z * Node)) (only parsing).

Definition metadata (n : Node) : NodeMetadata := let 'mkNode m _ := n in m.
Definition contents (n : Node) : NodeContents := let 'mkNode _ c := n in c.

Definition directory_node (g : Z) : Node := mkNode (mkMeta KDirectory 0 g false) (CDirectory []).
Definition file_node (o : Digest) (s g : Z) (x : bool) : Node := mkNode (mkMeta KFile s g x) (CFile o).
Definition object_id_of (n : Node) : option Digest := match contents n with CFile o => Some o | CDirectory _ => None end.

Record StoredObject := mkStored { stored_bytes : list Z; references : Z }.

Abbreviation ObjectStore := (list (list Z * StoredObject)) (only parsing).

Definition store_bytes (o : Digest) (s : ObjectStore) : outcome FileSystemError (list Z) :=
  stored ← expect (BTree.get o s);
  Ok (stored_bytes stored).

Definition store_remove (o : Digest) (s : ObjectStore) : outcome FileSystemError ObjectStore :=
  stored ← expect (BTree.get o s);
  if references stored <? 1 then Panic
  else if references stored - 1 =? 0 then Ok (BTree.remove o s)
  else Ok (BTree.insert o (mkStored (stored_bytes stored) (references stored - 1)) s).

Definition store_replace (previous : option Digest) (next : Digest) (bs : list Z) (s : ObjectStore) : outcome FileSystemError ObjectStore :=
  if bool_decide (previous = Some next) then Ok s
  else
    let stored := default (mkStored bs 0) (BTree.get next s) in
    n ← expect (checked_add u32_max (references stored) 1);
    let s := BTree.insert next (mkStored (stored_bytes stored) n) s in
    match previous with
    | Some p => store_remove p s
    | None => Ok s
    end.

Inductive Mount := MRom | MHome.
#[global] Instance Mount_eq : EqDecision Mount.
Proof. solve_decision. Defined.

Record ComputerFileSystem := mkFs {
  rom : Directory;
  home : Directory;
  handles : Handle.HandleTable;
  objects : ObjectStore;
  quota : QuotaLedger;
  limits : FileSystemLimits;
  generation : Z;
  persistence : option Gate.ComputerPersistence }.

Definition with_limits (l : FileSystemLimits) : ComputerFileSystem :=
  mkFs [] [] (Handle.HandleTable_new (maximum_open_handles l)) [] (QuotaLedger_new l 2) l 0 None.

Definition set_rom (d : Directory) (f : ComputerFileSystem) : ComputerFileSystem :=
  mkFs d (home f) (handles f) (objects f) (quota f) (limits f) (generation f) (persistence f).
Definition set_home (d : Directory) (f : ComputerFileSystem) : ComputerFileSystem :=
  mkFs (rom f) d (handles f) (objects f) (quota f) (limits f) (generation f) (persistence f).
Definition set_handles (h : Handle.HandleTable) (f : ComputerFileSystem) : ComputerFileSystem :=
  mkFs (rom f) (home f) h (objects f) (quota f) (limits f) (generation f) (persistence f).
Definition set_objects (o : ObjectStore) (f : ComputerFileSystem) : ComputerFileSystem :=
  mkFs (rom f) (home f) (handles f) o (quota f) (limits f) (generation f) (persistence f).
Definition set_quota (q : QuotaLedger) (f : ComputerFileSystem) : ComputerFileSystem :=
  mkFs (rom f) (home f) (handles f) (objects f) q (limits f) (generation f) (persistence f).
Definition set_generation (g : Z) (f : ComputerFileSystem) : ComputerFileSystem :=
  mkFs (rom f) (home f) (handles f) (objects f) (quota f) (limits f) g (persistence f).
Definition attach_persistence (p : Gate.ComputerPersistence) (f : ComputerFileSystem) : ComputerFileSystem :=
  mkFs (rom f) (home f) (handles f) (objects f) (quota f) (limits f) (generation f) (Some p).

Definition directory (m : Mount) (f : ComputerFileSystem) : Directory := match m with MRom => rom f | MHome => home f end.
Definition set_directory (m : Mount) (d : Directory) : ComputerFileSystem -> ComputerFileSystem :=
  match m with MRom => set_rom d | MHome => set_home d end.

(** ** Paths *)

Definition require (c : FileCapability) (p : VirtualPath) (r : FileRights) : outcome FileSystemError unit :=
  if permits c p r then Ok tt else Err PermissionDenied.

Definition split_mount (p : VirtualPath) : outcome FileSystemError (Mount * list str) :=
  match p with
  | [] => Err PermissionDenied
  | mount :: rest =>
      if bool_decide (mount = str_rom) then Ok (MRom, rest)
      else if bool_decide (mount = str_home) then Ok (MHome, rest)
      else Err NotFound
  end.

Definition split_name (cs : list str) : outcome FileSystemError (str * list str) :=
  name ← ok_or (last cs) PermissionDenied;
  Ok (name, removelast cs).

Definition writable_path (p : VirtualPath) : outcome FileSystemError (Mount * list str) :=
  '(mount, cs) ← split_mount p;
  if bool_decide (mount = MRom) then Err ReadOnly else Ok (mount, cs).

Definition mutable_target (c : FileCapability) (p : VirtualPath) (r : FileRights) : outcome FileSystemError (Mount * list str) :=
  '(mount, cs) ← writable_path p;
  _ ← require c p r;
  Ok (mount, cs).

Fixpoint find_node (d : Directory) (cs : list str) : outcome FileSystemError Node :=
  match cs with
  | [] => Err NotFound
  | first :: rest =>
      node ← ok_or (BTree.get first d) NotFound;
      match rest with
      | [] => Ok node
      | _ => match contents node with CDirectory children => find_node children rest | CFile _ => Err NotDirectory end
      end
  end.

(** [*find_node_mut(..)? = node]. *)
Fixpoint replace_node (node : Node) (d : Directory) (cs : list str) : outcome FileSystemError Directory :=
  match cs with
  | [] => Err NotFound
  | first :: rest =>
      old ← ok_or (BTree.get first d) NotFound;
      match rest with
      | [] => Ok (BTree.insert first node d)
      | _ => match contents old with
             | CDirectory children =>
                 children ← replace_node node children rest;
                 Ok (BTree.insert first (mkNode (metadata old) (CDirectory children)) d)
             | CFile _ => Err NotDirectory
             end
      end
  end.

Fixpoint find_directory (d : Directory) (cs : list str) : outcome FileSystemError Directory :=
  match cs with
  | [] => Ok d
  | c :: cs =>
      node ← ok_or (BTree.get c d) NotFound;
      match contents node with CDirectory children => find_directory children cs | CFile _ => Err NotDirectory end
  end.

(** [find_directory_mut(..)?] followed by an update of the directory it returns. *)
Fixpoint update_directory (f : Directory -> Directory) (d : Directory) (cs : list str) : outcome FileSystemError Directory :=
  match cs with
  | [] => Ok (f d)
  | c :: cs =>
      node ← ok_or (BTree.get c d) NotFound;
      match contents node with
      | CDirectory children =>
          children ← update_directory f children cs;
          Ok (BTree.insert c (mkNode (metadata node) (CDirectory children)) d)
      | CFile _ => Err NotDirectory
      end
  end.

(** ** Reading *)

Definition stat (c : FileCapability) (p : VirtualPath) (f : ComputerFileSystem) : outcome FileSystemError NodeMetadata :=
  _ ← require c p INSPECT;
  if bool_decide (p = []) then Ok (metadata (directory_node 0))
  else
    '(mount, cs) ← split_mount p;
    if bool_decide (cs = []) then Ok (metadata (directory_node 0))
    else
      node ← find_node (directory mount f) cs;
      Ok (metadata node).

Definition list_directory (c : FileCapability) (p : VirtualPath) (f : ComputerFileSystem) : outcome FileSystemError (list str) :=
  _ ← require c p LIST;
  if bool_decide (p = []) then Ok [str_home; str_rom]
  else
    '(mount, cs) ← split_mount p;
    d ← (if bool_decide (cs = []) then Ok (directory mount f)
         else
           node ← find_node (directory mount f) cs;
           match contents node with CDirectory children => Ok children | CFile _ => Err NotDirectory end);
    Ok (BTree.keys d).

Definition read_snapshot (c : FileCapability) (p : VirtualPath) (f : ComputerFileSystem) : outcome FileSystemError (list Z) :=
  _ ← require c p READ;
  if bool_decide (p = []) then Err IsDirectory
  else
    '(mount, cs) ← split_mount p;
    if bool_decide (cs = []) then Err IsDirectory
    else
      node ← find_node (directory mount f) cs;
      o ← ok_or (object_id_of node) IsDirectory;
      store_bytes o (objects f).

Definition file_bytes (p : VirtualPath) (f : ComputerFileSystem) : outcome FileSystemError (list Z) :=
  '(mount, cs) ← split_mount p;
  node ← find_node (directory mount f) cs;
  match contents node with CFile o => store_bytes o (objects f) | CDirectory _ => Err IsDirectory end.

Definition next_generation (f : ComputerFileSystem) : outcome FileSystemError Z :=
  ok_or (checked_add u64_max (generation f) 1) StorageFaulted.

Definition check_file_size (s : Z) (f : ComputerFileSystem) : outcome FileSystemError unit :=
  if s <=? maximum_file_bytes (limits f) then Ok tt else Err QuotaExceeded.

Definition check_directory_entry_limit (current : Z) (f : ComputerFileSystem) : outcome FileSystemError unit :=
  if current <? maximum_directory_entries (limits f) then Ok tt else Err QuotaExceeded.

Definition read (h : Handle.FileHandle) (offset maximum_bytes : Z) (f : ComputerFileSystem) : outcome FileSystemError (list Z) :=
  open ← Handle.get h (handles f);
  if negb (Handle.readable (Handle.mode open)) then Err PermissionDenied
  else
    bs ← file_bytes (Handle.path open) f;
    let start := Z.min offset (size bs) in
    let accepted := Z.min maximum_bytes (maximum_io_bytes (limits f)) in
    let stop := Z.min (saturating_add usize_max start accepted) (size bs) in
    Ok (slice start (stop - start) bs).

(** [executable_install_revision] is the same function. *)
Definition replacement_revision (c : FileCapability) (p : VirtualPath) (f : ComputerFileSystem) : outcome FileSystemError ExecutableRevision :=
  '(mount, cs) ← writable_path p;
  '(name, parent_cs) ← split_name cs;
  parent ← find_directory (directory mount f) parent_cs;
  match BTree.get name parent with
  | Some node =>
      _ ← require c p WRITE;
      if negb (bool_decide (kind (metadata node) = KFile)) then Err IsDirectory
      else Ok (Present (node_generation (metadata node)))
  | None =>
      _ ← require c p (bitor CREATE WRITE);
      _ ← check_directory_entry_limit (size parent) f;
      Ok Absent
  end.

(** ** Writing *)

Record Sys := mkSys { fs : ComputerFileSystem; gate : Gate.QueueState }.

Abbreviation TreeM := (ST Sys FileSystemError).

Definition with_fs (g : ComputerFileSystem -> ComputerFileSystem) (s : Sys) : Sys := mkSys (g (fs s)) (gate s).
Definition read_fs {A} (g : ComputerFileSystem -> outcome FileSystemError A) : TreeM A := st_read (fun s => g (fs s)).
Definition update_fs (g : ComputerFileSystem -> outcome FileSystemError ComputerFileSystem) : TreeM unit := fun s =>
  match g (fs s) with
  | Ok f => (Ok tt, mkSys f (gate s))
  | Err e => (Err e, s)
  | Panic => (Panic, s)
  end.
Definition on_gate {A} (m : ST Gate.QueueState FileSystemError A) : TreeM A := fun s =>
  let '(r, q) := m (gate s) in (r, mkSys (fs s) q).

Definition publish (p : option (Z * Gate.Command)) : TreeM unit :=
  match p with Some (cost, c) => on_gate (Gate.publish cost c) | None => mret tt end.

(** [?] on a later step drops the reservation. *)
Definition or_drop {A} (p : option (Z * Gate.Command)) (m : TreeM A) : TreeM A := fun s =>
  match m s with
  | (Err e, s) =>
      match p with
      | Some (cost, _) => let '(r, s) := on_gate (Gate.drop_reservation cost) s in
                          (match r with Panic => Panic | _ => Err e end, s)
      | None => (Err e, s)
      end
  | r => r
  end.

Definition commit_quota (r : QuotaReservation) : TreeM unit :=
  update_fs (fun f => q ← commit r (quota f); Ok (set_quota q f)).
Definition release_quota (b n : Z) : TreeM unit :=
  update_fs (fun f => q ← release b n (quota f); Ok (set_quota q f)).
Definition update_home (g : Directory -> outcome FileSystemError Directory) (mount : Mount) : TreeM unit :=
  update_fs (fun f => d ← g (directory mount f); Ok (set_directory mount d f)).

Section Digest.
Context (sha256 : list Z -> Digest).

Definition object_id (bs : list Z) : Digest := sha256 bs.

Definition prepare_persistence (g : Z) (object : option (Digest * list Z)) (op : JournalOperation) : TreeM (option (Z * Gate.Command)) :=
  s ← st_get;
  match persistence (fs s) with
  | None => mret None
  | Some p => r ← on_gate (Gate.prepare sha256 p g object op); mret (Some r)
  end.

Definition create_directory (c : FileCapability) (p : VirtualPath) : TreeM unit :=
  '(mount, cs) ← st_lift (mutable_target c p CREATE);
  '(name, parent_cs) ← st_lift (split_name cs);
  parent ← read_fs (fun f => find_directory (directory mount f) parent_cs);
  if BTree.contains_key name parent then st_err AlreadyExists
  else
    _ ← read_fs (check_directory_entry_limit (size parent));
    reservation ← read_fs (fun f => reserve (quota f) (mkCost 0 1 0 0));
    g ← read_fs next_generation;
    prepared ← prepare_persistence g None (CreateDirectory p g);
    _ ← or_drop prepared (update_home (fun d => update_directory (BTree.insert name (directory_node g)) d parent_cs) mount);
    _ ← commit_quota reservation;
    _ ← st_modify (with_fs (set_generation g));
    publish prepared.

Definition write_file (c : FileCapability) (p : VirtualPath) (bs : list Z) (x : bool) : TreeM unit :=
  '(mount, cs) ← st_lift (writable_path p);
  '(name, parent_cs) ← st_lift (split_name cs);
  parent ← read_fs (fun f => find_directory (directory mount f) parent_cs);
  let previous := BTree.get name parent in
  _ ← match previous with
      | Some _ => st_lift (require c p WRITE)
      | None =>
          _ ← st_lift (require c p (bitor CREATE WRITE));
          read_fs (check_directory_entry_limit (size parent))
      end;
  if match previous with Some node => match contents node with CDirectory _ => true | CFile _ => false end | None => false end
  then st_err IsDirectory
  else
    let s := size bs in
    _ ← read_fs (check_file_size s);
    let previous_size := match previous with Some node => logical_size (metadata node) | None => 0 end in
    reservation ← read_fs (fun f => reserve (quota f)
      (mkCost (saturating_sub s previous_size) (match previous with Some _ => 0 | None => 1 end) 0 0));
    g ← read_fs next_generation;
    let o := object_id bs in
    prepared ← prepare_persistence g (Some (o, bs)) (PutFile p g s o x);
    _ ← or_drop prepared (update_home (fun d => update_directory (BTree.insert name (file_node o s g x)) d parent_cs) mount);
    _ ← update_fs (fun f => objs ← store_replace (previous ≫= object_id_of) o bs (objects f); Ok (set_objects objs f));
    _ ← commit_quota reservation;
    _ ← release_quota (saturating_sub previous_size s) 0;
    _ ← st_modify (with_fs (set_generation g));
    publish prepared.

Definition replace_file_if_revision (c : FileCapability) (p : VirtualPath) (bs : list Z) (expected : ExecutableRevision) (x : bool) : TreeM unit :=
  actual ← read_fs (replacement_revision c p);
  if negb (bool_decide (actual = expected)) then st_err Busy
  else write_file c p bs x.

Definition install_executable (c : FileCapability) (p : VirtualPath) (bs : list Z) (expected : ExecutableRevision) : TreeM unit :=
  replace_file_if_revision c p bs expected true.

Definition install_executable_from_rom (c : FileCapability) (source destination : VirtualPath) : TreeM unit :=
  '(source_mount, source_cs) ← st_lift (split_mount source);
  if negb (bool_decide (source_mount = MRom)) then st_err PermissionDenied
  else
    node ← read_fs (fun f => find_node (directory source_mount f) source_cs);
    if negb (bool_decide (kind (metadata node) = KFile)) || negb (executable (metadata node)) then st_err NotExecutable
    else
      bs ← match contents node with
           | CFile o => read_fs (fun f => store_bytes o (objects f))
           | CDirectory _ => st_err NotExecutable
           end;
      '(mount, cs) ← st_lift (writable_path destination);
      '(name, parent_cs) ← st_lift (split_name cs);
      parent ← read_fs (fun f => find_directory (directory mount f) parent_cs);
      if BTree.contains_key name parent then st_err AlreadyExists
      else write_file c destination bs true.

Definition open (c : FileCapability) (p : VirtualPath) (m : Handle.OpenMode) : TreeM Handle.FileHandle :=
  let rights := INSPECT in
  let rights := if Handle.readable m then bitor rights READ else rights in
  let rights := if Handle.writable m then bitor rights WRITE else rights in
  _ ← st_lift (require c p rights);
  '(mount, cs) ← st_lift (split_mount p);
  node ← read_fs (fun f => find_node (directory mount f) cs);
  match contents node with
  | CDirectory _ => st_err IsDirectory
  | CFile _ =>
      s ← st_get;
      if handle_limit c <=? Handle.open_count (handles (fs s)) then st_err QuotaExceeded
      else fun s =>
        let '(r, t) := Handle.open (Handle.mkOpen p m) (handles (fs s)) in (r, with_fs (set_handles t) s)
  end.

Definition close (h : Handle.FileHandle) : TreeM unit := fun s =>
  let '(r, t) := Handle.close h (handles (fs s)) in (r, with_fs (set_handles t) s).

Definition replace_existing (p : VirtualPath) (bs : list Z) : TreeM unit :=
  '(mount, cs) ← st_lift (writable_path p);
  previous ← read_fs (fun f => find_node (directory mount f) cs);
  previous_object ← st_lift (ok_or (object_id_of previous) IsDirectory);
  let s := size bs in
  let previous_size := logical_size (metadata previous) in
  let x := executable (metadata previous) in
  _ ← read_fs (check_file_size s);
  reservation ← read_fs (fun f => reserve (quota f) (mkCost (saturating_sub s previous_size) 0 0 0));
  g ← read_fs next_generation;
  let o := object_id bs in
  prepared ← prepare_persistence g (Some (o, bs)) (PutFile p g s o x);
  _ ← or_drop prepared (update_home (fun d => replace_node (file_node o s g x) d cs) mount);
  _ ← update_fs (fun f => objs ← store_replace (Some previous_object) o bs (objects f); Ok (set_objects objs f));
  _ ← commit_quota reservation;
  _ ← release_quota (saturating_sub previous_size s) 0;
  _ ← st_modify (with_fs (set_generation g));
  publish prepared.

(** [Vec::resize(n, 0)]. *)
Definition resized (n : Z) (bs : list Z) : list Z := resize (Z.to_nat n) 0 bs.

Definition write (h : Handle.FileHandle) (offset : Z) (bs : list Z) : TreeM Z :=
  open ← read_fs (fun f => Handle.get h (handles f));
  if negb (Handle.writable (Handle.mode open)) then st_err PermissionDenied
  else
    s ← st_get;
    let accepted := Z.min (size bs) (maximum_io_bytes (limits (fs s))) in
    if accepted =? 0 then mret 0
    else
      stop ← st_lift (ok_or (checked_add u64_max offset accepted) QuotaExceeded);
      _ ← read_fs (check_file_size stop);
      old ← read_fs (file_bytes (Handle.path open));
      let replacement := resized (Z.max (size old) stop) old in
      _ ← replace_existing (Handle.path open) (splice offset (take (Z.to_nat accepted) bs) replacement);
      mret accepted.

Definition truncate (h : Handle.FileHandle) (s : Z) : TreeM unit :=
  open ← read_fs (fun f => Handle.get h (handles f));
  if negb (Handle.writable (Handle.mode open)) then st_err PermissionDenied
  else
    _ ← read_fs (check_file_size s);
    old ← read_fs (file_bytes (Handle.path open));
    if size old =? s then mret tt
    else replace_existing (Handle.path open) (resized s old).

Definition is_nonempty_directory (n : Node) : bool :=
  match contents n with CDirectory (_ :: _) => true | _ => false end.

Definition remove (c : FileCapability) (p : VirtualPath) : TreeM unit :=
  '(mount, cs) ← st_lift (mutable_target c p DELETE);
  '(name, parent_cs) ← st_lift (split_name cs);
  parent ← read_fs (fun f => find_directory (directory mount f) parent_cs);
  node ← st_lift (ok_or (BTree.get name parent) NotFound);
  if is_nonempty_directory node then st_err NotEmpty
  else
    g ← read_fs next_generation;
    prepared ← prepare_persistence g None (Remove p);
    _ ← or_drop prepared (update_home (fun d => update_directory (BTree.remove name) d parent_cs) mount);
    _ ← match object_id_of node with
        | Some o => update_fs (fun f => objs ← store_remove o (objects f); Ok (set_objects objs f))
        | None => mret tt
        end;
    _ ← release_quota (logical_size (metadata node)) 1;
    _ ← st_modify (with_fs (set_generation g));
    publish prepared.

Definition with_node_generation (g : Z) (n : Node) : Node :=
  mkNode (mkMeta (kind (metadata n)) (logical_size (metadata n)) g (executable (metadata n))) (contents n).

(** The checks of [rename] on an existing destination. *)
Definition check_replace (replace : bool) (source existing : Node) : outcome FileSystemError unit :=
  if negb replace then Err AlreadyExists
  else if is_nonempty_directory existing then Err NotEmpty
  else if negb (bool_decide (kind (metadata existing) = kind (metadata source)))
       then Err match kind (metadata existing) with KDirectory => IsDirectory | KFile => NotDirectory end
  else Ok tt.

(** Taking the source out of its directory; its absence would be a panic. *)
Definition take_node (name : str) (parent_cs : list str) (mount : Mount) : TreeM Node :=
  parent ← read_fs (fun f => find_directory (directory mount f) parent_cs);
  node ← st_lift (expect (BTree.get name parent));
  _ ← update_home (fun d => update_directory (BTree.remove name) d parent_cs) mount;
  mret node.

Definition expect_ok {A} (o : outcome FileSystemError A) : outcome FileSystemError A :=
  match o with Ok a => Ok a | _ => Panic end.

Definition rename (c : FileCapability) (source destination : VirtualPath) (replace : bool) : TreeM unit :=
  '(source_mount, source_cs) ← st_lift (mutable_target c source RENAME);
  '(destination_mount, destination_cs) ← st_lift (mutable_target c destination RENAME);
  if negb (bool_decide (source_mount = destination_mount)) then st_err PermissionDenied
  else if bool_decide (source = destination) then mret tt
  else if is_within destination source then st_err InvalidPath
  else
    '(source_name, source_parent) ← st_lift (split_name source_cs);
    '(destination_name, destination_parent) ← st_lift (split_name destination_cs);
    source_directory ← read_fs (fun f => find_directory (directory source_mount f) source_parent);
    source_node ← st_lift (ok_or (BTree.get source_name source_directory) NotFound);
    destination_directory ← read_fs (fun f => find_directory (directory source_mount f) destination_parent);
    let existing := BTree.get destination_name destination_directory in
    _ ← match existing with
        | Some e => st_lift (check_replace replace source_node e)
        | None => read_fs (check_directory_entry_limit (size destination_directory))
        end;
    g ← read_fs next_generation;
    prepared ← prepare_persistence g None (Rename source destination replace);
    node ← or_drop prepared (take_node source_name source_parent source_mount);
    _ ← update_home (fun d => expect_ok (update_directory (fun dd =>
          BTree.insert destination_name (with_node_generation g node) (BTree.remove destination_name dd)) d destination_parent))
          destination_mount;
    _ ← match existing with
        | Some e =>
            _ ← match object_id_of e with
                | Some o => update_fs (fun f => objs ← store_remove o (objects f); Ok (set_objects objs f))
                | None => mret tt
                end;
            release_quota (logical_size (metadata e)) 1
        | None => mret tt
        end;
    _ ← st_modify (with_fs (set_generation g));
    publish prepared.

(** The [while offset < size] loop of [read_executable]. *)
Fixpoint read_loop (fuel : nat) (h : Handle.FileHandle) (offset total : Z) (acc : list Z) (f : ComputerFileSystem)
    : option (outcome FileSystemError (list Z)) :=
  if offset <? total then
    match fuel with
    | O => None
    | S fuel =>
        match read h offset (total - offset) f with
        | Ok chunk =>
            if bool_decide (chunk = []) then Some (Err StorageFaulted)
            else match checked_add u64_max offset (size chunk) with
                 | None => Some (Err StorageFaulted)
                 | Some offset => read_loop fuel h offset total (acc ++ chunk) f
                 end
        | Err e => Some (Err e)
        | Panic => Some Panic
        end
    end
  else Some (Ok acc).

(** The handle is closed whatever was read. *)
Definition finish_read (h : Handle.FileHandle) (result : outcome FileSystemError (list Z)) : TreeM (list Z) := fun s =>
  let '(closed, s) := close h s in
  (match result, closed with Err e, _ => Err e | Ok _, Err e => Err e | Ok bs, Ok _ => Ok bs | _, _ => Panic end, s).

(** The fuel is the size of the file; [st_panic] stands for its exhaustion. *)
Definition read_executable (c : FileCapability) (p : VirtualPath) : TreeM (list Z) :=
  _ ← st_lift (require c p (bitor (bitor INSPECT READ) EXECUTE));
  m ← read_fs (stat c p);
  if negb (bool_decide (kind m = KFile)) || negb (executable m) then st_err NotExecutable
  else
    s ← st_get;
    if maximum_file_bytes (limits (fs s)) <? logical_size m then st_err QuotaExceeded
    else
      h ← open c p Handle.Read;
      s ← st_get;
      match read_loop (Z.to_nat (logical_size m)) h 0 (logical_size m) [] (fs s) with
      | None | Some Panic => st_panic
      | Some result => finish_read h result
      end.

(** ** Loading *)

(** The body of the loop of [with_rom]. *)
Definition rom_insert (e : Rom.RomEntry) (f : ComputerFileSystem) : outcome Rom.RomImageError ComputerFileSystem :=
  let canonical {A} (o : outcome FileSystemError A) : outcome Rom.RomImageError A :=
    match o with Ok a => Ok a | Err _ => Err Rom.RNonCanonical | Panic => Panic end in
  match Rom.entry_path e with
  | [] => Err Rom.RNonCanonical
  | _ :: relative =>
      '(name, parent_cs) ← canonical (split_name relative);
      match Rom.entry_kind e with
      | Rom.RomDirectory =>
          d ← canonical (update_directory (BTree.insert name (directory_node 0)) (rom f) parent_cs);
          Ok (set_rom d f)
      | Rom.RomFile =>
          let o := object_id (Rom.entry_content e) in
          d ← canonical (update_directory (BTree.insert name
                 (file_node o (size (Rom.entry_content e)) 0 (Rom.entry_executable e))) (rom f) parent_cs);
          match store_replace None o (Rom.entry_content e) (objects f) with
          | Ok objs => Ok (set_objects objs (set_rom d f))
          | _ => Panic
          end
      end
  end.

Fixpoint rom_insert_all (es : list Rom.RomEntry) (f : ComputerFileSystem) : outcome Rom.RomImageError ComputerFileSystem :=
  match es with
  | [] => Ok f
  | e :: es => f ← rom_insert e f; rom_insert_all es f
  end.

Definition with_rom (l : FileSystemLimits) (image : Rom.RomImage) : outcome Rom.RomImageError ComputerFileSystem :=
  rom_insert_all (Rom.entries image) (with_limits l).

(** The body of the loop of [restore_recovered]. *)
Definition restore_node (objs : list (list Z * list Z)) (n : FsCheckpoint.CheckpointNode) (f : ComputerFileSystem)
    : outcome FileSystemError ComputerFileSystem :=
  '(_, cs) ← writable_path (FsCheckpoint.node_path n);
  '(name, parent_cs) ← split_name cs;
  '(restored, f) ← match n with
                   | FsCheckpoint.Directory _ g => Ok (directory_node g, f)
                   | FsCheckpoint.File _ g s o x =>
                       bs ← ok_or (BTree.get o objs) StorageFaulted;
                       if negb (size bs =? s) then Err StorageFaulted
                       else
                         store ← store_replace None o bs (objects f);
                         Ok (file_node o s g x, set_objects store f)
                   end;
  d ← update_directory (BTree.insert name restored) (home f) parent_cs;
  Ok (set_home d f).

Fixpoint restore_nodes (objs : list (list Z * list Z)) (ns : list FsCheckpoint.CheckpointNode) (f : ComputerFileSystem)
    : outcome FileSystemError ComputerFileSystem :=
  match ns with
  | [] => Ok f
  | n :: ns => f ← restore_node objs n f; restore_nodes objs ns f
  end.

(** A filesystem whose restoration fails is discarded, so its state then is not
    returned. *)
Definition restore_recovered (r : Recovery.RecoveredState) (objs : list (list Z * list Z)) (f : ComputerFileSystem)
    : outcome FileSystemError ComputerFileSystem :=
  let ns := BTree.values (Recovery.state_nodes r) in
  total ← ok_or (Recovery.sum_checked u64_max ((fun n => match FsCheckpoint.object n with Some (_, s) => s | None => 0 end) <$> ns) 0) StorageFaulted;
  count ← ok_or (try_from_unsigned u32_max (size ns)) StorageFaulted;
  reservation ← reserve (quota f) (mkCost total count 0 0);
  f ← restore_nodes objs ns f;
  q ← commit reservation (quota f);
  Ok (set_generation (Recovery.state_generation r) (set_quota q f)).

End Digest.
End Tree.
