(* ===== verification/TreeInv.v ===== *)
(** The invariant of a computer's filesystem: the ledger counts the nodes and bytes
    of the home tree, the object store counts the files that name each object, and
    an admitted mutation reaches the gate exactly once. *)

From S2P Require Import Prelude Words Unicode Path BTree FileHandle Codec Journal FsCheckpoint Recovery Gate Rom Tree.

(** Trees of directories seen through paths: what each path names, the flat list of
    all nodes in path order, and sums over a tree, with the effect an update of one
    directory has on each. *)

Module TreeView.
Import FsError FsLimits Path PathProps Codec Tree.

(** ** Induction and well-formedness *)

Lemma node_induction (P : Node -> Prop) :
  (forall m o, P (mkNode m (CFile o))) ->
  (forall m ch, Forall (fun e => P e.2) ch -> P (mkNode m (CDirectory ch))) -> forall n, P n.
Proof.
  intros Hf Hd. fix IH 1. intros [m [o|ch]]; [apply Hf|]. apply Hd. induction ch as [|[c n] ch IHch]; constructor; [apply IH|exact IHch].
Qed.

Inductive node_wf : Node -> Prop :=
| wf_file m o : kind m = KFile -> 0 <= logical_size m -> node_wf (mkNode m (CFile o))
| wf_directory m ch : kind m = KDirectory -> logical_size m = 0 -> executable m = false -> BTree.sorted ch ->
    (forall e, e ∈ ch -> node_wf e.2) -> node_wf (mkNode m (CDirectory ch)).

Definition dir_wf (d : list (list Z * Node)) : Prop := BTree.sorted d /\ Forall (fun e => node_wf e.2) d.

Lemma wf_children m ch : node_wf (mkNode m (CDirectory ch)) -> dir_wf ch.
Proof. inversion 1; subst. split; [done|by apply Forall_forall]. Qed.

Lemma wf_dnode m ch : kind m = KDirectory -> logical_size m = 0 -> executable m = false -> dir_wf ch -> node_wf (mkNode m (CDirectory ch)).
Proof. intros ? ? ? [? Hf]. rewrite Forall_forall in Hf. by constructor. Qed.

Lemma dir_wf_get d c n : dir_wf d -> BTree.get c d = Some n -> node_wf n.
Proof. intros [Hs Hf] Hg. apply BTree.get_elem in Hg; [|done]. rewrite Forall_forall in Hf. exact (Hf _ Hg). Qed.

Lemma dir_wf_insert d c n : dir_wf d -> node_wf n -> dir_wf (BTree.insert c n d).
Proof.
  intros [Hs Hf] Hn. split; [by apply BTree.insert_sorted|]. apply Forall_forall. intros [c' n'] Hin.
  apply BTree.get_elem in Hin; [|by apply BTree.insert_sorted]. rewrite BTree.get_insert in Hin by done.
  destruct (decide (c' = c)); [by injection Hin as <-|]. exact (dir_wf_get d c' n' (conj Hs Hf) Hin).
Qed.

Lemma dir_wf_remove d c : dir_wf d -> dir_wf (BTree.remove c d).
Proof. intros [Hs Hf]. split; [by apply BTree.remove_sorted|by apply BTree.remove_Forall]. Qed.

(** ** Paths *)

Definition dnode (m : NodeMetadata) (d : list (list Z * Node)) : Node := mkNode m (CDirectory d).

Fixpoint at_path (n : Node) (cs : list str) : option Node :=
  match cs with
  | [] => Some n
  | c :: cs => match contents n with CDirectory ch => m ← BTree.get c ch; at_path m cs | CFile _ => None end
  end.

Definition node_at (d : list (list Z * Node)) (cs : list str) : option Node := at_path (dnode (metadata (directory_node 0)) d) cs.

Lemma at_path_app n a b : at_path n (a ++ b) = m ← at_path n a; at_path m b.
Proof.
  revert n. induction a as [|c a IH]; intros n; simpl; [done|]. destruct (contents n); [done|].
  destruct (BTree.get c children); simpl; [apply IH|done].
Qed.

Lemma at_path_wf n cs m : node_wf n -> at_path n cs = Some m -> node_wf m.
Proof.
  revert n. induction cs as [|c cs IH]; intros n Hn H; simpl in H; [by injection H as <-|].
  destruct n as [md [o|ch]]; [done|]. simpl in H. apply bind_Some in H as (k & Hk & H). apply wf_children in Hn.
  eapply IH; [|exact H]. by eapply dir_wf_get.
Qed.

Lemma find_node_at d cs : cs <> [] -> forall n, find_node d cs = Ok n <-> node_at d cs = Some n.
Proof.
  revert d. induction cs as [|c cs IH]; intros d Hne n; [done|]. unfold node_at. cbn [at_path contents dnode].
  change (find_node d (c :: cs)) with (node ← ok_or (BTree.get c d) NotFound;
    match cs with [] => Ok node | _ => match contents node with CDirectory ch => find_node ch cs | CFile _ => Err NotDirectory end end).
  destruct (BTree.get c d) as [m|]; cbn [ok_or mbind outcome_bind option_bind]; [|done]. destruct cs as [|c' cs]; [simpl; naive_solver|].
  destruct m as [md [o|ch]]; cbn [contents]; [done|]. rewrite IH by done. done.
Qed.

Lemma find_node_no_panic d cs : find_node d cs <> Panic.
Proof.
  revert d. induction cs as [|c cs IH]; intros d; simpl; [done|]. destruct (BTree.get c d) as [m|]; simpl; [|done].
  destruct cs; [done|]. destruct (contents m); [done|apply IH].
Qed.

Lemma find_directory_no_panic d cs : find_directory d cs <> Panic.
Proof.
  revert d. induction cs as [|c cs IH]; intros d; simpl; [done|]. destruct (BTree.get c d) as [m|]; simpl; [|done].
  destruct (contents m); [done|apply IH].
Qed.

Lemma find_directory_at d cs dd : find_directory d cs = Ok dd <-> exists m, node_at d cs = Some (dnode m dd).
Proof.
  assert (H : forall md, find_directory d cs = Ok dd <-> exists m, at_path (dnode md d) cs = Some (dnode m dd)); [|apply H].
  revert d. induction cs as [|c cs IH]; intros d md; simpl; [unfold dnode; naive_solver|].
  destruct (BTree.get c d) as [[m [o|ch]]|]; simpl; [|apply IH|].
  - split; [done|]. intros (m' & H). destruct cs; done.
  - split; [done|]. by intros (m' & H).
Qed.

Lemma find_directory_wf d cs dd : dir_wf d -> find_directory d cs = Ok dd -> dir_wf dd.
Proof.
  intros Hd (m & H)%find_directory_at. apply at_path_wf in H; [by eapply wf_children|]. by apply wf_dnode.
Qed.

(** What a path names, without its children. *)
Definition shallow (n : Node) : NodeMetadata * option Digest := (metadata n, object_id_of n).

(** ** Updating one directory *)

Lemma update_directory_ok f d cs dd : find_directory d cs = Ok dd -> exists d', update_directory f d cs = Ok d'.
Proof.
  revert d. induction cs as [|c cs IH]; intros d H; simpl in *; [by eexists|]. destruct (BTree.get c d) as [m|]; simpl in *; [|done].
  destruct (contents m); [done|]. destruct (IH _ H) as [d' Hd']. rewrite Hd'. simpl. by eexists.
Qed.

Lemma update_directory_wf f d cs d' : dir_wf d -> (forall dd, find_directory d cs = Ok dd -> dir_wf dd -> dir_wf (f dd)) ->
  update_directory f d cs = Ok d' -> dir_wf d'.
Proof.
  revert d d'. induction cs as [|c cs IH]; intros d d' Hd Hf H; simpl in *; [injection H as <-; by apply Hf|].
  destruct (BTree.get c d) as [[m [o|ch]]|] eqn:Eg; simpl in *; [done| |done]. apply outcome_bind_inv in H as (ch' & Hch & [= <-]).
  pose proof (dir_wf_get _ _ _ Hd Eg) as Hn. pose proof (wf_children _ _ Hn) as Hc. specialize (IH ch ch' Hc Hf Hch).
  apply dir_wf_insert; [done|]. inversion Hn; subst. by apply wf_dnode.
Qed.

(** The node a path names after the update: inside the directory what [f] put
    there, elsewhere what was there before, up to the children of its ancestors. *)
Lemma at_update f d cs d' dd : dir_wf d -> find_directory d cs = Ok dd -> update_directory f d cs = Ok d' ->
  forall k, shallow <$> node_at d' k =
    if decide (cs `prefix_of` k) then
      match drop (length cs) k with
      | [] => shallow <$> node_at d k
      | c :: r => shallow <$> (n ← BTree.get c (f dd); at_path n r)
      end
    else shallow <$> node_at d k.
Proof.
  intros Hwf Hfd Hup k.
  enough (H : forall md, shallow <$> at_path (dnode md d') k = if decide (cs `prefix_of` k) then
    match drop (length cs) k with [] => shallow <$> at_path (dnode md d) k | c :: r => shallow <$> (n ← BTree.get c (f dd); at_path n r) end
    else shallow <$> at_path (dnode md d) k) by apply H.
  revert d d' k Hwf Hfd Hup. induction cs as [|c cs IH]; intros d d' k Hwf Hfd Hup md; simpl in Hfd, Hup.
  - injection Hfd as <-. injection Hup as <-. rewrite decide_True by apply prefix_nil. destruct k as [|c k]; done.
  - destruct (BTree.get c d) as [[m [o|ch]]|] eqn:Eg; simpl in Hfd, Hup; [done| |done]. apply outcome_bind_inv in Hup as (ch' & Hch & [= <-]).
    pose proof (wf_children _ _ (dir_wf_get _ _ _ Hwf Eg)) as Hc. destruct k as [|c' k].
    { rewrite decide_False; [done|]. intros Hp%prefix_nil_inv. done. }
    cbn [at_path contents dnode length drop]. rewrite BTree.get_insert by apply Hwf. destruct (decide (c' = c)) as [->|Hne].
    + rewrite Eg. cbn [mbind option_bind metadata]. specialize (IH ch ch' k Hc Hfd Hch m). unfold dnode in IH. rewrite IH.
      destruct (decide (cs `prefix_of` k)) as [Hp|Hp].
      * rewrite decide_True by (by apply prefix_cons). done.
      * rewrite decide_False; [done|]. intros Hq. apply Hp. by eapply prefix_cons_inv_2.
    + rewrite decide_False; [done|]. intros Hq. apply prefix_cons_inv_1 in Hq. done.
Qed.

(** [replace_node] is an update of the directory the node sits in. *)
Lemma replace_node_update n d cs c : replace_node n d (cs ++ [c]) =
  match find_directory d cs with
  | Ok dd => match BTree.get c dd with Some _ => update_directory (BTree.insert c n) d cs | None => Err NotFound end
  | Err e => Err e
  | Panic => Panic
  end.
Proof.
  revert d. induction cs as [|c' cs IH]; intros d; [simpl; by destruct (BTree.get c d)|].
  rewrite <- app_comm_cons. change (replace_node n d (c' :: cs ++ [c])) with (old ← ok_or (BTree.get c' d) NotFound;
    match cs ++ [c] with
    | [] => Ok (BTree.insert c' n d)
    | _ => match contents old with
           | CDirectory children => children ← replace_node n children (cs ++ [c]);
                                    Ok (BTree.insert c' (mkNode (metadata old) (CDirectory children)) d)
           | CFile _ => Err NotDirectory
           end
    end).
  cbn [find_directory update_directory]. destruct (BTree.get c' d) as [m|]; cbn [ok_or mbind outcome_bind]; [|done].
  assert (Hne : cs ++ [c] <> []) by (by destruct cs). destruct (cs ++ [c]) as [|x y]; [done|].
  destruct (contents m) as [o|ch]; [done|]. rewrite IH. destruct (find_directory ch cs) as [dd| |]; [|done|done].
  by destruct (BTree.get c dd).
Qed.

(** ** Sums over a tree *)

Section Sum.
Context (w : NodeMetadata -> option Digest -> Z).

Fixpoint tsum (n : Node) : Z :=
  match n with
  | mkNode m (CFile o) => w m (Some o)
  | mkNode m (CDirectory ch) => w m None + (fix go ch := match ch with [] => 0 | (_, n) :: ch => tsum n + go ch end) ch
  end.

Definition dsum (d : list (list Z * Node)) : Z := foldr (fun e s => tsum e.2 + s) 0 d.

Lemma tsum_directory m ch : tsum (mkNode m (CDirectory ch)) = w m None + dsum ch.
Proof. simpl. f_equal. unfold dsum. induction ch as [|[c n] ch IH]; simpl; [done|]. by rewrite IH. Qed.

Lemma dsum_app a b : dsum (a ++ b) = dsum a + dsum b.
Proof. unfold dsum. induction a as [|e a IH]; simpl; [done|]. rewrite IH. lia. Qed.

Definition osum (o : option Node) : Z := match o with Some n => tsum n | None => 0 end.

Lemma dsum_insert d c n : BTree.sorted d -> dsum (BTree.insert c n d) = dsum d - osum (BTree.get c d) + tsum n.
Proof.
  intros Hs. destruct (BTree.get c d) as [m|] eqn:Eg.
  - destruct (BTree.get_split c m d Hs Eg) as (a & b & -> & Hi & _). rewrite Hi, !dsum_app. unfold dsum. simpl. lia.
  - destruct (BTree.insert_split c n d Hs Eg) as (a & b & -> & Hi). rewrite Hi, !dsum_app. unfold dsum. simpl. lia.
Qed.

Lemma dsum_remove d c : BTree.sorted d -> dsum (BTree.remove c d) = dsum d - osum (BTree.get c d).
Proof.
  intros Hs. destruct (BTree.get c d) as [m|] eqn:Eg.
  - destruct (BTree.get_split c m d Hs Eg) as (a & b & -> & _ & Hr). rewrite Hr, !dsum_app. unfold dsum. simpl. lia.
  - rewrite BTree.remove_none by done. simpl. lia.
Qed.

Lemma dsum_update f d cs dd d' : dir_wf d -> find_directory d cs = Ok dd -> update_directory f d cs = Ok d' ->
  dsum d' = dsum d + (dsum (f dd) - dsum dd).
Proof.
  revert d d'. induction cs as [|c cs IH]; intros d d' Hd Hf Hu; simpl in *.
  - injection Hf as <-. injection Hu as <-. lia.
  - destruct (BTree.get c d) as [[m [o|ch]]|] eqn:Eg; simpl in *; [done| |done]. apply outcome_bind_inv in Hu as (ch' & Hch & [= <-]).
    pose proof (wf_children _ _ (dir_wf_get _ _ _ Hd Eg)) as Hc. rewrite dsum_insert by apply Hd. rewrite Eg. unfold osum.
    rewrite !tsum_directory, (IH ch ch' Hc Hf Hch). lia.
Qed.

Lemma dsum_nonneg d : (forall m o, 0 <= w m o) -> 0 <= dsum d.
Proof.
  intros Hw. assert (Hn : forall n, 0 <= tsum n).
  { apply node_induction; [intros m o; apply Hw|]. intros m ch Hch. rewrite tsum_directory. pose proof (Hw m None).
    assert (0 <= dsum ch); [|lia]. induction Hch as [|[c n] ch Hn _ IH]; unfold dsum in *; simpl in *; lia. }
  unfold dsum. induction d as [|[c n] d IH]; simpl; [lia|]. pose proof (Hn n). lia.
Qed.

End Sum.

(** ** The flat list of nodes *)

Definition cp_of (p : VirtualPath) (i : NodeMetadata * option Digest) : FsCheckpoint.CheckpointNode :=
  match i with
  | (m, Some o) => FsCheckpoint.File p (node_generation m) (logical_size m) o (executable m)
  | (m, None) => FsCheckpoint.Directory p (node_generation m)
  end.

Abbreviation NodeMap := (list (list (list Z) * FsCheckpoint.CheckpointNode)) (only parsing).

Fixpoint flat (p : VirtualPath) (n : Node) : NodeMap :=
  (p, cp_of p (shallow n)) ::
  match n with
  | mkNode _ (CFile _) => []
  | mkNode _ (CDirectory ch) => (fix go ch := match ch with [] => [] | (c, n) :: ch => flat (p ++ [c]) n ++ go ch end) ch
  end.

Definition flat_dir (p : VirtualPath) (d : list (list Z * Node)) : NodeMap := d ≫= fun e => flat (p ++ [e.1]) e.2.

Lemma flat_directory p m ch : flat p (mkNode m (CDirectory ch)) = (p, cp_of p (m, None)) :: flat_dir p ch.
Proof.
  simpl. f_equal. unfold flat_dir. induction ch as [|[c n] ch IH]; [done|]. rewrite bind_cons. simpl. by rewrite IH.
Qed.

Lemma flat_dir_elem p d e : e ∈ flat_dir p d <-> exists c n, (c, n) ∈ d /\ e ∈ flat (p ++ [c]) n.
Proof. unfold flat_dir. rewrite list_elem_of_bind. split; [intros ([c n] & ? & ?); by exists c, n|intros (c & n & ? & ?); by exists (c, n)]. Qed.

(** The entries of the flat list are the nodes the paths below [p] name. *)
Lemma flat_elem n : node_wf n -> forall p k v,
  (k, v) ∈ flat p n <-> exists cs m, k = p ++ cs /\ at_path n cs = Some m /\ v = cp_of k (shallow m).
Proof.
  induction n as [m o|m ch IH] using node_induction; intros Hwf p k v.
  - simpl. rewrite list_elem_of_singleton. split.
    + intros [= -> ->]. exists [], (mkNode m (CFile o)). by rewrite app_nil_r.
    + intros (cs & k' & -> & Ha & ->). destruct cs as [|c cs]; [|done]. injection Ha as <-. by rewrite app_nil_r.
  - rewrite flat_directory, elem_of_cons, flat_dir_elem. pose proof (wf_children _ _ Hwf) as [Hs Hf]. rewrite Forall_forall in IH, Hf. split.
    + intros [[= -> ->]|(c & n & Hin & He)]; [exists [], (mkNode m (CDirectory ch)); by rewrite app_nil_r|].
      apply (IH _ Hin (Hf _ Hin)) in He as (cs & m' & -> & Ha & ->). exists (c :: cs), m'. rewrite <- app_assoc. split_and!; [done| |done].
      simpl. apply BTree.get_elem in Hin; [|done]. by rewrite Hin.
    + intros (cs & m' & -> & Ha & ->). destruct cs as [|c cs]; [left; injection Ha as <-; by rewrite app_nil_r|right].
      simpl in Ha. apply bind_Some in Ha as (n & Hn & Ha). apply BTree.get_elem in Hn; [|done]. exists c, n. split; [done|].
      apply (IH _ Hn (Hf _ Hn)). exists cs, m'. by rewrite <- app_assoc.
Qed.

Lemma lt_siblings (p a b x y : list str) c c' : BTree.lt c c' -> BTree.lt ((p ++ [c]) ++ x) ((p ++ [c']) ++ y).
Proof.
  intros Hc. unfold BTree.lt, BTree.compare, BTree.list_ordered in *. induction p as [|z p IH]; simpl; [by rewrite Hc|].
  unfold BTree.compare in *. fold (@BTree.lex Z BTree.Z_ordered). by rewrite (proj2 (BTree.lex_eq z z)).
Qed.

Lemma flat_sorted n : node_wf n -> forall p, BTree.sorted (flat p n).
Proof.
  induction n as [m o|m ch IH] using node_induction; intros Hwf p; [by repeat constructor|].
  rewrite flat_directory. pose proof (wf_children _ _ Hwf) as [Hs Hf]. apply BTree.sorted_cons. split.
  - clear Hwf. induction ch as [|[c n] ch IHch]; [constructor|]. apply Forall_cons in IH as [IHn IH]. apply Forall_cons in Hf as [Hn Hf].
    apply BTree.sorted_cons in Hs as [Hs Hlt]. unfold flat_dir in *. rewrite bind_cons. apply BTree.sorted_app. split_and!; [by apply IHn|by apply IHch|].
    intros [k v] [k' v'] Hk Hk'. apply flat_elem in Hk as (cs & m1 & -> & _); [|done]. apply flat_dir_elem in Hk' as (c' & n' & Hin & Hk').
    rewrite Forall_forall in Hf, Hlt. apply flat_elem in Hk' as (cs' & m2 & -> & _); [|exact (Hf _ Hin)]. simpl.
    apply lt_siblings; try exact []. exact (Hlt _ Hin).
  - apply Forall_forall. intros [k v] He. apply flat_dir_elem in He as (c & n & Hin & He). rewrite Forall_forall in Hf.
    apply flat_elem in He as (cs & m' & -> & _); [|exact (Hf _ Hin)]. simpl. rewrite <- app_assoc. by apply BTree.lex_prefix.
Qed.

Lemma flat_dir_sorted p d : dir_wf d -> BTree.sorted (flat_dir p d).
Proof.
  intros Hd. assert (Hn : node_wf (dnode (metadata (directory_node 0)) d)) by (by apply wf_dnode).
  pose proof (flat_sorted _ Hn p) as Hs. unfold dnode in Hs. rewrite flat_directory in Hs. by apply BTree.sorted_cons in Hs as [? _].
Qed.

(** Looking a path up in the flat list. *)
Lemma flat_dir_get p d k : dir_wf d -> BTree.get (p ++ k) (flat_dir p d) =
  if decide (k = []) then None else cp_of (p ++ k) <$> (shallow <$> node_at d k).
Proof.
  intros Hd. pose proof (flat_dir_sorted p d Hd) as Hs. assert (Hn : node_wf (dnode (metadata (directory_node 0)) d)) by (by apply wf_dnode).
  assert (Hin : forall v, (p ++ k, v) ∈ flat_dir p d <-> k <> [] /\ exists m, node_at d k = Some m /\ v = cp_of (p ++ k) (shallow m)).
  { intros v. pose proof (flat_elem _ Hn p (p ++ k) v) as He. unfold dnode in He at 1. rewrite flat_directory, elem_of_cons in He. split.
    - intros H. split.
      + intros ->. rewrite app_nil_r in H. apply flat_dir_elem in H as (c & n & Hc & H). destruct Hd as [_ Hf]. rewrite Forall_forall in Hf.
        apply flat_elem in H as (cs & m & E & _); [|exact (Hf _ Hc)]. apply (f_equal length) in E. rewrite !length_app in E. simpl in E. lia.
      + destruct (proj1 He (or_intror H)) as (cs & m & E & Ha & ->). apply app_inv_head in E as <-. by exists m.
    - intros (Hk & m & Ha & ->). destruct (proj2 He) as [E|?]; [by exists k, m| |done]. exfalso. apply Hk.
      injection E as E _. apply (f_equal length) in E. rewrite length_app in E. apply nil_length_inv. lia. }
  destruct (decide (k = [])) as [->|Hk].
  - destruct (BTree.get _ _) as [v|] eqn:E; [|done]. apply BTree.get_elem in E; [|done]. apply Hin in E as [? _]. done.
  - destruct (node_at d k) as [m|] eqn:Em; simpl.
    + apply BTree.get_elem; [done|]. apply Hin. split; [done|]. by exists m.
    + destruct (BTree.get _ _) as [v|] eqn:E; [|done]. apply BTree.get_elem in E; [|done]. apply Hin in E as (_ & m & ? & _). done.
Qed.

Lemma flat_dir_get_other p d k : dir_wf d -> ~ p `prefix_of` k -> BTree.get k (flat_dir p d) = None.
Proof.
  intros Hd Hp. destruct (BTree.get k _) as [v|] eqn:E; [|done]. apply BTree.get_elem in E; [|by apply flat_dir_sorted].
  apply flat_dir_elem in E as (c & n & Hc & H). destruct Hd as [_ Hf]. rewrite Forall_forall in Hf.
  apply flat_elem in H as (cs & m & -> & _); [|exact (Hf _ Hc)]. exfalso. apply Hp. rewrite <- app_assoc. by apply prefix_app_r.
Qed.

End TreeView.

Module TreeInv.
Import FsError FsLimits Path Quota QuotaProps Codec CodecProps Journal JournalProps Tree TreeView.

(** ** The object store *)

Definition refs (o : Digest) (s : list (list Z * StoredObject)) : Z :=
  match BTree.get o s with Some st => references st | None => 0 end.

Record store_ok (s : list (list Z * StoredObject)) : Prop := {
  st_sorted : BTree.sorted s;
  st_refs : forall o st, BTree.get o s = Some st -> 1 <= references st <= u32_max }.

Definition one_if (P : Prop) `{Decision P} : Z := if decide P then 1 else 0.

(** Every object of [s'] is one of [s], or the new one. *)
Definition grows (s s' : list (list Z * StoredObject)) (o : Digest) (bs : list Z) : Prop :=
  forall o' st', BTree.get o' s' = Some st' ->
    match BTree.get o' s with Some st => stored_bytes st' = stored_bytes st | None => o' = o /\ stored_bytes st' = bs end.

(** Every object of [s'] is one of [s]. *)
Definition shrinks (s s' : list (list Z * StoredObject)) : Prop :=
  forall o st', BTree.get o s' = Some st' -> exists st, BTree.get o s = Some st /\ stored_bytes st' = stored_bytes st.

Lemma refs_some o st s : BTree.get o s = Some st -> refs o s = references st.
Proof. intros H. unfold refs. by rewrite H. Qed.

Lemma refs_pos o s : store_ok s -> 1 <= refs o s -> exists st, BTree.get o s = Some st /\ references st = refs o s.
Proof. intros Hs H. unfold refs in *. destruct (BTree.get o s) as [st|]; [by exists st|lia]. Qed.

Lemma store_remove_ok o s : store_ok s -> 1 <= refs o s ->
  exists s', store_remove o s = Ok s' /\ store_ok s' /\ (forall o', refs o' s' = refs o' s - one_if (o' = o)) /\
    shrinks s s'.
Proof.
  intros Hs H. destruct (refs_pos o s Hs H) as (st & Hg & Hr). unfold store_remove. rewrite Hg. cbn [expect mbind outcome_bind].
  rewrite (proj2 (Z.ltb_ge _ _)) by lia. pose proof (st_refs _ Hs _ _ Hg). destruct Hs as [Hso Hre].
  destruct (Z.eqb_spec (references st - 1) 0) as [E|E]; eexists; (split; [done|]).
  - split; [split; [by apply BTree.remove_sorted|]|split].
    + intros o' st' H'. rewrite BTree.get_remove in H' by done. destruct (decide (o' = o)); [done|]. by eapply Hre.
    + intros o'. unfold refs, one_if. rewrite BTree.get_remove by done. destruct (decide (o' = o)) as [->|]; [rewrite Hg; lia|lia].
    + intros o' st' H'. rewrite BTree.get_remove in H' by done. destruct (decide (o' = o)); [done|]. by exists st'.
  - split; [split; [by apply BTree.insert_sorted|]|split].
    + intros o' st' H'. rewrite BTree.get_insert in H' by done. destruct (decide (o' = o)); [injection H' as <-; simpl; lia|]. by eapply Hre.
    + intros o'. unfold refs, one_if. rewrite BTree.get_insert by done. destruct (decide (o' = o)) as [->|]; [rewrite Hg; done|lia].
    + intros o' st' H'. rewrite BTree.get_insert in H' by done. destruct (decide (o' = o)) as [->|]; [|by exists st'].
      injection H' as <-. by exists st.
Qed.

Lemma store_replace_ok prev o bs s : store_ok s -> refs o s + 1 <= u32_max ->
  (forall p, prev = Some p -> 1 <= refs p s) ->
  exists s', store_replace prev o bs s = Ok s' /\ store_ok s' /\
    (forall o', refs o' s' = refs o' s + one_if (o' = o) - one_if (prev = Some o')) /\ grows s s' o bs.
Proof.
  intros Hs Hmax Hprev. unfold store_replace. destruct (bool_decide (prev = Some o)) eqn:E; bsimp.
  { exists s. split; [done|]. split; [done|]. split; [|intros o' st' H'; by rewrite H'].
    intros o'. unfold one_if. subst prev. destruct (decide (o' = o)), (decide (Some o = Some o')); try lia; naive_solver. }
  set (st := default (mkStored bs 0) (BTree.get o s)). assert (Est : references st = refs o s) by (unfold st, refs; by destruct (BTree.get o s)).
  unfold checked_add. rewrite (proj2 (Z.leb_le _ _)) by lia. cbn [expect mbind outcome_bind].
  assert (H0 : 0 <= refs o s). { unfold refs. destruct (BTree.get o s) as [x|] eqn:Ex; [|lia]. pose proof (st_refs _ Hs _ _ Ex). lia. }
  destruct Hs as [Hso Hre]. set (s1 := BTree.insert o _ s).
  assert (Hs1 : store_ok s1).
  { split; [by apply BTree.insert_sorted|]. intros o' st' H'. unfold s1 in H'. rewrite BTree.get_insert in H' by done.
    destruct (decide (o' = o)); [injection H' as <-; simpl; lia|by eapply Hre]. }
  assert (Hr1 : forall o', refs o' s1 = refs o' s + one_if (o' = o)).
  { intros o'. unfold refs, s1, one_if. rewrite BTree.get_insert by done. destruct (decide (o' = o)) as [->|]; [simpl; fold (refs o s); lia|lia]. }
  assert (Hg1 : grows s s1 o bs).
  { intros o' st' H'. unfold s1 in H'. rewrite BTree.get_insert in H' by done. destruct (decide (o' = o)) as [->|].
    - injection H' as <-. simpl. unfold st. by destruct (BTree.get o s).
    - by rewrite H'. }
  destruct prev as [p|].
  - assert (Hp : 1 <= refs p s1) by (rewrite Hr1; specialize (Hprev p eq_refl); unfold one_if; destruct (decide _); lia).
    destruct (store_remove_ok p s1 Hs1 Hp) as (s2 & Hrun & Hok & Hr2 & Hb2). exists s2. split; [done|]. split; [done|]. split.
    + intros o'. rewrite Hr2, Hr1. unfold one_if. destruct (decide (o' = p)), (decide (Some p = Some o')); try lia; naive_solver.
    + intros o' st' H'. apply Hb2 in H' as (st1 & H1 & ->). by apply Hg1.
  - exists s1. split; [done|]. split; [done|]. split; [|done]. intros o'. rewrite Hr1. unfold one_if at 3. rewrite decide_False by done. lia.
Qed.

(** ** The filesystem *)

Definition w_nodes (_ : NodeMetadata) (_ : option Digest) : Z := 1.
(** Sizes are unsigned. *)
Definition w_bytes (m : NodeMetadata) (_ : option Digest) : Z := Z.max 0 (logical_size m).
Definition w_refs (o : Digest) (_ : NodeMetadata) (o' : option Digest) : Z := one_if (o' = Some o).

(** Limits as both profiles have them; the bound on the nodes keeps the reference
    counts of the home and the ROM tree together within 32 bits. *)
Record fs_limits_ok (l : FileSystemLimits) : Prop := {
  fl_nodes : 2 <= maximum_nodes l <= 2 ^ 31;
  fl_bytes : 0 <= maximum_logical_bytes l <= u64_max;
  fl_file : 0 <= maximum_file_bytes l <= u64_max;
  fl_io : 0 < maximum_io_bytes l <= usize_max;
  fl_entries : 0 <= maximum_directory_entries l }.

(** The ledger of a home tree: the two mount points are nodes as well. *)
Definition ledger (l : FileSystemLimits) (d : list (list Z * Node)) : QuotaLedger :=
  mkLedger (maximum_logical_bytes l) (maximum_nodes l) (dsum w_bytes d) (2 + dsum w_nodes d).

Record within (l : FileSystemLimits) (d : list (list Z * Node)) : Prop := {
  wi_bytes : dsum w_bytes d <= maximum_logical_bytes l;
  wi_nodes : 2 + dsum w_nodes d <= maximum_nodes l;
  wi_entries : forall cs dd, find_directory d cs = Ok dd -> size dd <= maximum_directory_entries l }.

Record fs_ok (f : ComputerFileSystem) : Prop := {
  f_limits : fs_limits_ok (limits f);
  f_home : dir_wf (home f);
  f_rom : dir_wf (rom f);
  f_rom_nodes : dsum w_nodes (rom f) <= maximum_nodes (limits f) - 2;
  f_within : within (limits f) (home f);
  f_quota : quota f = ledger (limits f) (home f);
  f_store : store_ok (objects f);
  f_refs : forall o, refs o (objects f) = dsum (w_refs o) (home f) + dsum (w_refs o) (rom f);
  f_generation : 0 <= generation f <= u64_max }.

Lemma one_if_bound (P : Prop) `{Decision P} : 0 <= one_if P <= 1.
Proof. unfold one_if. destruct (decide P); lia. Qed.

Lemma one_if_ext (P Q : Prop) `{Decision P, Decision Q} : (P <-> Q) -> one_if P = one_if Q.
Proof. intros E. unfold one_if. destruct (decide P), (decide Q); tauto. Qed.

Lemma dsum_le w w' d : (forall m o, w m o <= w' m o) -> dsum w d <= dsum w' d.
Proof.
  intros Hw. assert (Hn : forall n, tsum w n <= tsum w' n).
  { apply node_induction; [intros m o; apply Hw|]. intros m ch Hch. rewrite !tsum_directory. pose proof (Hw m None).
    assert (dsum w ch <= dsum w' ch); [|lia]. induction Hch as [|[c n] ch Hn _ IH]; unfold dsum in *; simpl in *; lia. }
  unfold dsum. induction d as [|[c n] d IH]; simpl; [lia|]. pose proof (Hn n). lia.
Qed.

Lemma refs_bound f o : fs_ok f -> refs o (objects f) + 1 <= u32_max.
Proof.
  intros Hf. rewrite (f_refs _ Hf). pose proof (dsum_le (w_refs o) w_nodes (home f) ltac:(intros m o'; apply one_if_bound)).
  pose proof (dsum_le (w_refs o) w_nodes (rom f) ltac:(intros m o'; apply one_if_bound)). pose proof (wi_nodes _ _ (f_within _ Hf)).
  pose proof (fl_nodes _ (f_limits _ Hf)). pose proof (f_rom_nodes _ Hf). unfold u32_max. change (2 ^ 31) with 2147483648 in *. change (2 ^ 32) with 4294967296. lia.
Qed.

Lemma dsum_get w d c n : dir_wf d -> (forall m o, 0 <= w m o) -> BTree.get c d = Some n -> tsum w n <= dsum w d.
Proof.
  intros [Hs _] Hw Hg. pose proof (dsum_remove w d c Hs) as H. rewrite Hg in H. simpl in H.
  pose proof (dsum_nonneg w (BTree.remove c d) Hw). lia.
Qed.

Lemma dsum_at w d cs n : dir_wf d -> (forall m o, 0 <= w m o) -> cs <> [] -> node_at d cs = Some n -> tsum w n <= dsum w d.
Proof.
  intros Hd Hw Hne Ha. unfold node_at in Ha. revert Hd Hne Ha. generalize (metadata (directory_node 0)). revert d.
  induction cs as [|c cs IH]; intros d md Hd Hne Ha; [done|]. simpl in Ha. apply bind_Some in Ha as (m & Hm & Ha).
  pose proof (dsum_get w d c m Hd Hw Hm) as Hle. destruct cs as [|c' cs]; [by injection Ha as <-|].
  destruct m as [mm [o|ch]]; [done|]. rewrite tsum_directory in Hle. pose proof (Hw mm None).
  specialize (IH ch mm (wf_children _ _ (dir_wf_get _ _ _ Hd Hm)) ltac:(done) Ha). lia.
Qed.

(** Every file of the tree is in the store. *)
Lemma file_stored f d cs n o : fs_ok f -> (d = home f \/ d = rom f) -> cs <> [] -> node_at d cs = Some n -> object_id_of n = Some o ->
  1 <= refs o (objects f).
Proof.
  intros Hf Hd Hne Ha Ho. assert (Hw : forall m o', 0 <= w_refs o m o') by (intros; apply one_if_bound).
  pose proof (dsum_nonneg (w_refs o) (home f) Hw). pose proof (dsum_nonneg (w_refs o) (rom f) Hw).
  assert (Hn : 1 <= tsum (w_refs o) n).
  { destruct n as [m [o'|ch]]; [|done]. injection Ho as ->. simpl. unfold w_refs, one_if. rewrite decide_True by done. lia. }
  rewrite (f_refs _ Hf). destruct Hd as [->| ->].
  - pose proof (dsum_at (w_refs o) (home f) cs n (f_home _ Hf) Hw Hne Ha). lia.
  - pose proof (dsum_at (w_refs o) (rom f) cs n (f_rom _ Hf) Hw Hne Ha). lia.
Qed.

(** ** The gate *)

Record gate_ok (q : Gate.QueueState) : Prop := {
  q_queued : 0 <= Gate.queued_bytes q;
  q_records : 0 <= Gate.reserved_records q;
  q_reserved : 0 <= Gate.reserved_bytes q }.

(** A command appended to the queue. *)
Definition pushed (c : Gate.Command) (q : Gate.QueueState) : Gate.QueueState :=
  Gate.set_queue (Gate.queue q ++ [c]) (Gate.queued_bytes q + Gate.byte_cost c)
    match c with Gate.Mutation m => Gate.set_admitted (BTree.insert (Gate.m_computer m) (Gate.m_generation m) (Gate.admitted q)) q | _ => q end.

Lemma byte_cost_nonneg c : 0 <= Gate.byte_cost c.
Proof.
  destruct c as [m|i b|objs|]; simpl; unfold saturating_add, Gate.saturating_mul, usize_max.
  - pose proof (size_nonneg (Gate.m_journal m)). destruct (Gate.m_object m) as [[o bs]|]; [pose proof (size_nonneg bs)|]; lia.
  - lia.
  - pose proof (size_nonneg objs). lia.
  - lia.
Qed.

Lemma pushed_ok c q : gate_ok q -> gate_ok (pushed c q).
Proof. intros [? ? ?]. pose proof (byte_cost_nonneg c). unfold pushed, Gate.set_queue, Gate.set_admitted.
  split; destruct c; cbn [Gate.queued_bytes Gate.reserved_records Gate.reserved_bytes]; lia.
Qed.

(** A granted reservation is published exactly once, and leaves the other
    reservations as they were; a refused one changes nothing. *)
Lemma reserve_publish c q : gate_ok q ->
  (exists e, Gate.reserve (Gate.byte_cost c) q = (Err e, q)) \/
  (exists q1, Gate.reserve (Gate.byte_cost c) q = (Ok tt, q1) /\ Gate.publish (Gate.byte_cost c) c q1 = (Ok tt, pushed c q) /\
     size (Gate.queue q) + Gate.reserved_records q + 1 <= Gate.maximum_records q /\
     Gate.queued_bytes q + Gate.reserved_bytes q + Gate.byte_cost c <= Gate.maximum_bytes q /\ Gate.health q = Active).
Proof.
  intros [Hq Hr Hb]. pose proof (byte_cost_nonneg c) as Hc. unfold Gate.reserve, mbind, ST_bind, st_get, st_lift.
  destruct (Gate.require_active_filesystem (Gate.health q)) as [u|e|] eqn:Eh; [|left; by exists e|by destruct (Gate.health q)].
  unfold checked_add. destruct (_ <=? usize_max); cbn [ok_or option_bind]; [|left; by exists Busy].
  destruct (_ <=? usize_max); cbn [ok_or option_bind]; [|left; by exists Busy].
  destruct (Z.leb_spec (Gate.queued_bytes q + Gate.reserved_bytes q + Gate.byte_cost c) usize_max) as [Hu|]; cbn [ok_or]; [|left; by exists Busy].
  destruct (_ || _) eqn:E; [left; by exists Busy|]. bsimp. right. eexists. split; [done|].
  split; [|split; [lia|split; [lia|by destruct (Gate.health q)]]].
  unfold Gate.publish, Gate.drop_reservation, mbind, ST_bind, st_get, st_put. cbn [Gate.set_reserved Gate.reserved_records Gate.reserved_bytes].
  rewrite (proj2 (Z.ltb_ge _ 1)), (proj2 (Z.ltb_ge _ (Gate.byte_cost c))) by lia. cbn [orb Gate.queued_bytes Gate.set_reserved].
  rewrite (proj2 (Z.ltb_ge usize_max _)) by lia. f_equal. unfold pushed.
  replace (Gate.reserved_records q + 1 - 1) with (Gate.reserved_records q) by lia.
  replace (Gate.reserved_bytes q + Gate.byte_cost c - Gate.byte_cost c) with (Gate.reserved_bytes q) by lia. destruct q, c; done.
Qed.

(** ** Runs

    [atomic m s Q]: from [s], [m] does not panic, an error leaves [s] as it was, and
    a result satisfies [Q]. *)

Definition atomic {A} (m : TreeM A) (s : Sys) (Q : A -> Sys -> Prop) : Prop :=
  match m s with (Ok a, s') => Q a s' | (Err _, s') => s' = s | (Panic, _) => False end.

Lemma atomic_mono {A} (m : TreeM A) s (Q Q' : A -> Sys -> Prop) : atomic m s Q -> (forall a s', Q a s' -> Q' a s') -> atomic m s Q'.
Proof. unfold atomic. destruct (m s) as [[a|e|] s']; auto. Qed.

Lemma atomic_lift {A B} (o : outcome FileSystemError A) (k : A -> TreeM B) s Q :
  o <> Panic -> (forall a, o = Ok a -> atomic (k a) s Q) -> atomic (st_lift o ≫= k) s Q.
Proof. intros Hp Hk. unfold atomic, mbind, ST_bind, st_lift in *. destruct o; [by apply Hk|done|done]. Qed.

Lemma atomic_read {A B} (g : ComputerFileSystem -> outcome FileSystemError A) (k : A -> TreeM B) s Q :
  g (fs s) <> Panic -> (forall a, g (fs s) = Ok a -> atomic (k a) s Q) -> atomic (read_fs g ≫= k) s Q.
Proof. intros Hp Hk. unfold atomic, mbind, ST_bind, read_fs, st_read in *. destruct (g (fs s)); [by apply Hk|done|done]. Qed.

Lemma atomic_ok {A B} (m : TreeM A) (k : A -> TreeM B) s a s1 (Q : B -> Sys -> Prop) :
  m s = (Ok a, s1) -> (exists b s', k a s1 = (Ok b, s') /\ Q b s') -> atomic (m ≫= k) s Q.
Proof. intros Hm (b & s' & Hk & HQ). unfold atomic. rewrite (st_bind_ok _ _ _ _ _ Hm), Hk. done. Qed.

Lemma atomic_check {A B} (m : TreeM A) (k : A -> TreeM B) s (P : A -> Prop) Q :
  atomic m s (fun a s' => s' = s /\ P a) -> (forall a, P a -> atomic (k a) s Q) -> atomic (m ≫= k) s Q.
Proof.
  unfold atomic, mbind, ST_bind. destruct (m s) as [[a|e|] s']; [|done|done]. intros [-> HP] Hk. by apply Hk.
Qed.

Lemma atomic_err {A} e s (Q : A -> Sys -> Prop) : atomic (st_err e) s Q.
Proof. done. Qed.

Lemma atomic_ret {A} (a : A) s (Q : A -> Sys -> Prop) : Q a s -> atomic (mret a) s Q.
Proof. done. Qed.

Lemma update_home_ok g s d : g (home (fs s)) = Ok d -> update_home g MHome s = (Ok tt, mkSys (set_home d (fs s)) (gate s)).
Proof. intros H. unfold update_home, update_fs. simpl. by rewrite H. Qed.

Lemma or_drop_ok {A} p (m : TreeM A) s a s' : m s = (Ok a, s') -> or_drop p m s = (Ok a, s').
Proof. intros H. unfold or_drop. by rewrite H. Qed.

Lemma update_fs_ok g s f : g (fs s) = Ok f -> update_fs g s = (Ok tt, mkSys f (gate s)).
Proof. intros H. unfold update_fs. by rewrite H. Qed.

(** ** The journal record of a mutation *)

Lemma write_path_no_panic p w : write_path p w <> Panic.
Proof. rewrite write_path_app. by destruct (_ <? _). Qed.

Lemma op_encode_no_panic l op : op_encode op l <> Panic.
Proof.
  assert (Ha : forall p n, add_path l p n <> Panic).
  { intros p n. unfold add_path, path_record_len. destruct (_ <? _); [done|]. destruct (checked_add _ _ _); cbn [ok_or mbind outcome_bind]; [|done].
    by destruct (checked_add _ _ _). }
  unfold op_encode. destruct (op_encoded_len op l) as [n| |] eqn:E; cbn [mbind outcome_bind]; [|done|].
  - destruct (_ <? _); [done|]. destruct op as [p g|p g z o x|p|a b r].
    + pose proof (write_path_no_panic p (write_u16 0 (write_u8 0 (write_u8 1 [])))). by destruct (write_path _ _).
    + pose proof (write_path_no_panic p (write_u16 0 (write_u8 (of_bool x) (write_u8 2 [])))). by destruct (write_path _ _).
    + apply write_path_no_panic.
    + pose proof (write_path_no_panic a (write_u16 0 (write_u8 (of_bool r) (write_u8 4 [])))).
      destruct (write_path _ _) as [w| |]; [|done|done]. apply write_path_no_panic.
  - unfold op_encoded_len in E. revert E. destruct op as [p g|p g z o x|p|a b r].
    4: pose proof (Ha a 4); destruct (add_path l a 4) as [k| |]; cbn [mbind outcome_bind]; [|done|done]; specialize (Ha b k); revert Ha;
       destruct (add_path l b k) as [i| |]; cbn [mbind outcome_bind]; [by destruct (checked_add _ _ _)|done|done].
    all: specialize (Ha p 4); destruct (add_path l p 4) as [k| |]; cbn [mbind outcome_bind]; [by destruct (checked_add _ _ _)|done|done].
Qed.

Section Digest.
Context (sha256 : list Z -> Digest).

Lemma record_encode_no_panic r l : record_encode sha256 r l <> Panic.
Proof.
  unfold record_encode. pose proof (op_encode_no_panic l (operation r)). destruct (op_encode _ _) as [w| |]; cbn [mbind outcome_bind]; [|done|done].
  destruct (checked_add _ _ _) as [n|]; cbn [ok_or mbind outcome_bind]; [|done]. destruct (checked_add _ _ _); cbn [ok_or mbind outcome_bind]; [|done].
  destruct (_ <? _); [done|]. destruct (try_from_unsigned _ _); cbn [ok_or mbind outcome_bind]; [|done]. unfold finish_checked.
  destruct (checked_add _ _ _); cbn [ok_or mbind outcome_bind]; [|done]. by destruct (_ <? _).
Qed.

(** What a committed mutation leaves in the gate: nothing without persistence, else
    one command that carries the canonical record of the mutation. *)
Definition publishes (f : ComputerFileSystem) (g : Z) (object : option (Digest * list Z)) (op : JournalOperation)
    (q q' : Gate.QueueState) : Prop :=
  match persistence f with
  | None => q' = q
  | Some p => Gate.health q = Active /\ exists r journal, record_new (Gate.p_computer p) g (g - 1) op = Ok r /\
      record_encode sha256 r (Gate.p_limits p) = Ok journal /\
      q' = pushed (Gate.Mutation (Gate.mkMutation (Gate.p_computer p) g object journal)) q
  end.

Lemma publishes_ok f g object op q q' : gate_ok q -> publishes f g object op q q' -> gate_ok q'.
Proof.
  intros Hq. unfold publishes. destruct (persistence f); [|by intros ->]. intros (_ & r & journal & _ & _ & ->). by apply pushed_ok.
Qed.

(** Preparation fails without a trace, or the prepared command is what [publish]
    adds to the gate later, whatever happened to the filesystem in between. *)
Lemma atomic_prepare {A} g object op (k : option (Z * Gate.Command) -> TreeM A) s Q :
  gate_ok (gate s) -> 1 <= g ->
  (forall prepared q q', publishes (fs s) g object op (gate s) q' ->
     (forall f, publish prepared (mkSys f q) = (Ok tt, mkSys f q')) ->
     exists a s', k prepared (mkSys (fs s) q) = (Ok a, s') /\ Q a s') ->
  atomic (prepare_persistence sha256 g object op ≫= k) s Q.
Proof.
  intros Hq Hg Hk. unfold prepare_persistence, publishes in *. destruct (persistence (fs s)) as [p|] eqn:Ep.
  - unfold atomic, mbind at 1, ST_bind at 1. unfold mbind at 1, ST_bind at 1, st_get. cbv beta iota. rewrite Ep.
    unfold mbind at 1, ST_bind at 1, on_gate, Gate.prepare. rewrite (proj2 (Z.ltb_ge _ _)) by lia.
    unfold mbind at 1, ST_bind at 1, st_lift.
    destruct (record_new (Gate.p_computer p) g (g - 1) op) as [r|e|] eqn:En; cbn [mbind outcome_bind].
    2: by destruct s. 2: unfold record_new in En; by destruct (_ || _).
    pose proof (record_encode_no_panic r (Gate.p_limits p)) as Hn. destruct (record_encode _ _ _) as [journal|e|] eqn:Ee; [|by destruct s|done].
    set (c := Gate.Mutation _). unfold mbind at 1, ST_bind at 1.
    destruct (reserve_publish c (gate s) Hq) as [(e & Hr)|(q1 & Hr & Hp & _ & _ & Ha)]; rewrite Hr; [by destruct s|].
    unfold mret, ST_ret. destruct (Hk (Some (Gate.byte_cost c, c)) q1 (pushed c (gate s))) as (a & s' & Hrun & HQ); [split; [done|by eauto]| |by rewrite Hrun].
    intros f. unfold publish, on_gate. cbn [gate fs]. by rewrite Hp.
  - unfold atomic, mbind at 1, ST_bind at 1. unfold mbind at 1, ST_bind at 1, st_get. cbv beta iota. rewrite Ep.
    unfold mret, ST_ret. destruct (Hk None (gate s) (gate s) eq_refl) as (a & s' & Hrun & HQ); [done|]. destruct s. simpl in *. by rewrite Hrun.
Qed.

End Digest.

(** ** A new filesystem *)

Lemma with_limits_ok l : fs_limits_ok l -> fs_ok (with_limits l).
Proof.
  intros Hl. pose proof (fl_nodes _ Hl). pose proof (fl_bytes _ Hl). pose proof (fl_entries _ Hl). assert (Hd : dir_wf []) by (split; constructor).
  split; try done; simpl.
  - change (0 <= maximum_nodes l - 2). lia.
  - split; [change (0 <= maximum_logical_bytes l)|change (2 <= maximum_nodes l)|]; [lia|lia|]. intros [|c cs] dd; [|done]. intros [= <-]. done.
  - split; [constructor|done].
Qed.

Lemma gate_start_ok l : gate_ok (Gate.gate_start l).
Proof. by split. Qed.

Lemma testing_ok : fs_limits_ok testing.
Proof. by split. Qed.

Definition demo_sys : Sys := mkSys (with_limits testing) (Gate.gate_start testing).

Lemma demo_fs_ok : fs_ok (fs demo_sys).
Proof. apply with_limits_ok, testing_ok. Qed.

End TreeInv.
