(* ===== verification/TreeOps.v ===== *)
(** The mutations of a computer's filesystem: each one fails without a trace, or
    makes one change to the flat namespace, charges the ledger and the object store
    for it, and hands its journal record to the gate. *)

From S2P Require Import Prelude Words Unicode Path BTree FileHandle Codec Journal FsCheckpoint Recovery Gate Rom Tree TreeInv.

Module TreeOps.
Import FsError FsLimits Path PathProps Capability Quota Codec CodecProps Journal Tree TreeView TreeInv.

(** ** Paths *)

Lemma require_ok c p r u : require c p r = Ok u -> permits c p r = true.
Proof. unfold require. by destruct (permits c p r). Qed.

Lemma require_no_panic c p r : require c p r <> Panic.
Proof. unfold require. by destruct (permits c p r). Qed.

Lemma writable_path_ok p mount cs : writable_path p = Ok (mount, cs) <-> mount = MHome /\ p = str_home :: cs.
Proof.
  unfold writable_path, split_mount. destruct p as [|c p]; [naive_solver|]. destruct (decide (c = str_rom)) as [->|H].
  - rewrite bool_decide_eq_true_2 by done. simpl. naive_solver.
  - rewrite bool_decide_eq_false_2 by done. destruct (decide (c = str_home)) as [->|H'].
    + rewrite bool_decide_eq_true_2 by done. simpl. naive_solver.
    + rewrite bool_decide_eq_false_2 by done. simpl. naive_solver.
Qed.

Lemma split_mount_no_panic p : split_mount p <> Panic.
Proof. unfold split_mount. destruct p; [done|]. by repeat destruct (bool_decide _). Qed.

Lemma writable_path_no_panic p : writable_path p <> Panic.
Proof.
  unfold writable_path. pose proof (split_mount_no_panic p). destruct (split_mount p) as [[m cs]| |]; cbn [mbind outcome_bind]; [|done|done].
  by destruct (bool_decide _).
Qed.

Lemma mutable_target_ok c p r mount cs : mutable_target c p r = Ok (mount, cs) -> permits c p r = true /\ mount = MHome /\ p = str_home :: cs.
Proof.
  intros H. unfold mutable_target in H. apply outcome_bind_inv in H as ([m' cs'] & Hw & H). apply outcome_bind_inv in H as (u & Hr & [= <- <-]).
  apply writable_path_ok in Hw. by apply require_ok in Hr.
Qed.

Lemma mutable_target_no_panic c p r : mutable_target c p r <> Panic.
Proof.
  unfold mutable_target. pose proof (writable_path_no_panic p). destruct (writable_path p) as [[m cs]| |]; cbn [mbind outcome_bind]; [|done|done].
  pose proof (require_no_panic c p r). by destruct (require c p r).
Qed.

Lemma split_name_ok cs name pcs : split_name cs = Ok (name, pcs) <-> cs = pcs ++ [name].
Proof.
  unfold split_name. destruct cs as [|c0 cs0] using rev_ind; [split; [done|by destruct pcs]|]. rewrite last_snoc. cbn [ok_or mbind outcome_bind].
  rewrite removelast_last. split; [by intros [= <- <-]|]. intros [<- [= <-]]%app_inj_tail. done.
Qed.

Lemma split_name_no_panic cs : split_name cs <> Panic.
Proof. unfold split_name. by destruct (last cs). Qed.

(** ** Directories and their sizes *)

Lemma find_update f d cs dd d' k e : dir_wf d -> find_directory d cs = Ok dd -> update_directory f d cs = Ok d' -> find_directory d' k = Ok e ->
  (exists r, k = cs ++ r /\ find_directory (f dd) r = Ok e) \/ (exists e0, find_directory d k = Ok e0 /\ size e = size e0).
Proof.
  revert d d' k. induction cs as [|c cs IH]; intros d d' k Hd Hf Hu Hk; simpl in Hf, Hu.
  - injection Hf as <-. injection Hu as <-. left. by exists k.
  - destruct (BTree.get c d) as [[m [o|ch]]|] eqn:Eg; simpl in Hf, Hu; [done| |done]. apply outcome_bind_inv in Hu as (ch' & Hch & [= <-]).
    destruct k as [|c' k]; simpl in Hk.
    + injection Hk as <-. right. exists d. split; [done|]. unfold size. by erewrite BTree.length_insert_old; [|apply Hd|exact Eg].
    + rewrite BTree.get_insert in Hk by apply Hd. destruct (decide (c' = c)) as [->|Hne].
      * simpl in Hk. destruct (IH ch ch' k (wf_children _ _ (dir_wf_get _ _ _ Hd Eg)) Hf Hch Hk) as [(r & -> & Hr)|(e0 & He & Hs)].
        -- left. by exists r.
        -- right. exists e0. simpl. rewrite Eg. done.
      * right. exists e. done.
Qed.

Lemma find_directory_app d cs r dd : find_directory d cs = Ok dd -> find_directory d (cs ++ r) = find_directory dd r.
Proof.
  revert d. induction cs as [|c cs IH]; intros d H; simpl in *; [by injection H as <-|].
  destruct (BTree.get c d) as [m|]; simpl in *; [|done]. destruct (contents m); [done|]. by apply IH.
Qed.

Definition leaf (n : Node) : bool := negb (is_nonempty_directory n).

Lemma leaf_below n c r : leaf n = true -> at_path n (c :: r) = None.
Proof. destruct n as [m [o|[|e ch]]]; done. Qed.

Lemma leaf_directory n m ch : leaf n = true -> n = mkNode m (CDirectory ch) -> ch = [].
Proof. intros H ->. by destruct ch. Qed.

(** The entry limit survives putting a leaf into a directory with room for it, and
    removing an entry. *)
Lemma entries_put l d pcs name n dd d' : dir_wf d -> find_directory d pcs = Ok dd -> update_directory (BTree.insert name n) d pcs = Ok d' ->
  leaf n = true -> (BTree.get name dd = None -> size dd < maximum_directory_entries l) -> 0 <= maximum_directory_entries l ->
  (forall cs e, find_directory d cs = Ok e -> size e <= maximum_directory_entries l) ->
  forall cs e, find_directory d' cs = Ok e -> size e <= maximum_directory_entries l.
Proof.
  intros Hd Hf Hu Hl Hroom H0 Hall cs e He. pose proof (find_directory_wf _ _ _ Hd Hf) as [Hs _].
  destruct (find_update _ _ _ _ _ _ _ Hd Hf Hu He) as [(r & -> & Hr)|(e0 & He0 & ->)]; [|by eapply Hall].
  destruct r as [|c r]; simpl in Hr.
  - injection Hr as <-. unfold size. destruct (BTree.get name dd) as [n0|] eqn:E.
    + erewrite BTree.length_insert_old by done. exact (Hall _ _ Hf).
    + rewrite BTree.length_insert_new by done. specialize (Hroom eq_refl). unfold size in Hroom. lia.
  - rewrite BTree.get_insert in Hr by done. destruct (decide (c = name)) as [->|Hne].
    + destruct n as [m [o|ch]]; simpl in Hr; [done|]. rewrite (leaf_directory _ m ch Hl eq_refl) in Hr. destruct r; [injection Hr as <-; done|done].
    + apply (Hall (pcs ++ c :: r)). by rewrite (find_directory_app _ _ _ _ Hf).
Qed.

Lemma entries_remove l d pcs name dd d' : dir_wf d -> find_directory d pcs = Ok dd -> update_directory (BTree.remove name) d pcs = Ok d' ->
  (forall cs e, find_directory d cs = Ok e -> size e <= maximum_directory_entries l) ->
  forall cs e, find_directory d' cs = Ok e -> size e <= maximum_directory_entries l.
Proof.
  intros Hd Hf Hu Hall cs e He. pose proof (find_directory_wf _ _ _ Hd Hf) as [Hs _].
  destruct (find_update _ _ _ _ _ _ _ Hd Hf Hu He) as [(r & -> & Hr)|(e0 & He0 & ->)]; [|by eapply Hall].
  destruct r as [|c r]; simpl in Hr.
  - injection Hr as <-. specialize (Hall _ _ Hf). unfold size in *. destruct (BTree.get name dd) as [n0|] eqn:E.
    + pose proof (BTree.length_remove_some _ _ _ Hs E). lia.
    + by rewrite BTree.remove_none.
  - rewrite BTree.get_remove in Hr by done. destruct (decide (c = name)) as [->|Hne]; [done|].
    apply (Hall (pcs ++ c :: r)). by rewrite (find_directory_app _ _ _ _ Hf).
Qed.

(** ** The change to the namespace *)

Lemma node_at_under d pcs dd c r : find_directory d pcs = Ok dd -> node_at d (pcs ++ c :: r) = n ← BTree.get c dd; at_path n r.
Proof. intros (m & H)%find_directory_at. unfold node_at in *. rewrite at_path_app, H. done. Qed.

(** One entry of a directory becomes [new]; the old and the new one are leaves. *)
Section OneEntry.
Context (f : list (list Z * Node) -> list (list Z * Node)) (d d' dd : list (list Z * Node)) (pcs : list str) (name : str) (new : option Node).
Context (Hd : dir_wf d) (Hf : find_directory d pcs = Ok dd) (Hu : update_directory f d pcs = Ok d').
Context (Hget : forall c, BTree.get c (f dd) = if decide (c = name) then new else BTree.get c dd).
Context (Hnew : forall n, new = Some n -> leaf n = true) (Hold : forall n, BTree.get name dd = Some n -> leaf n = true).

Lemma at_one k : shallow <$> node_at d' k = if decide (k = pcs ++ [name]) then shallow <$> new else shallow <$> node_at d k.
Proof.
  rewrite (at_update f d pcs d' dd Hd Hf Hu). destruct (decide (pcs `prefix_of` k)) as [[r ->]|Hp].
  2:{ rewrite decide_False; [done|]. intros ->. apply Hp. by apply prefix_app_r. }
  rewrite drop_app_length. destruct r as [|c r].
  { rewrite decide_False; [done|]. intros E. by apply app_inv_head in E. }
  rewrite (node_at_under _ _ _ _ _ Hf), Hget. destruct (decide (c = name)) as [->|Hne].
  - destruct r as [|c r].
    + rewrite decide_True by done. by destruct new.
    + rewrite decide_False by (intros E; by apply app_inv_head in E).
      transitivity (@None (NodeMetadata * option Digest)).
      * destruct new as [n|] eqn:En; cbn [mbind option_bind]; [|done]. by rewrite leaf_below by (by apply Hnew).
      * destruct (BTree.get name dd) as [n|] eqn:En; cbn [mbind option_bind]; [|done]. by rewrite leaf_below by (by apply Hold).
  - rewrite decide_False; [done|]. intros E. apply app_inv_head in E. by injection E.
Qed.

Lemma flat_one base k : dir_wf d' -> BTree.get k (flat_dir base d') =
  if decide (k = base ++ pcs ++ [name]) then (fun n => cp_of k (shallow n)) <$> new else BTree.get k (flat_dir base d).
Proof.
  intros Hd'. destruct (decide (base `prefix_of` k)) as [[r ->]|Hp].
  2:{ rewrite !flat_dir_get_other by done. rewrite decide_False; [done|]. intros ->. apply Hp. by apply prefix_app_r. }
  rewrite !flat_dir_get by done. destruct (decide (r = [])) as [->|Hr].
  { rewrite decide_False; [done|]. intros E. apply app_inv_head in E. by destruct pcs. }
  rewrite at_one. destruct (decide (r = pcs ++ [name])) as [->|Hne].
  - rewrite decide_True by done. by destruct new.
  - rewrite decide_False; [done|]. intros E. by apply app_inv_head in E.
Qed.

End OneEntry.

Lemma flat_put base d pcs name n dd d' : dir_wf d -> node_wf n -> find_directory d pcs = Ok dd ->
  update_directory (BTree.insert name n) d pcs = Ok d' -> leaf n = true -> (forall n0, BTree.get name dd = Some n0 -> leaf n0 = true) ->
  dir_wf d' /\ flat_dir base d' = BTree.insert (base ++ pcs ++ [name]) (cp_of (base ++ pcs ++ [name]) (shallow n)) (flat_dir base d).
Proof.
  intros Hd Hn Hf Hu Hl Hold. pose proof (find_directory_wf _ _ _ Hd Hf) as [Hs _].
  assert (Hd' : dir_wf d'). { eapply update_directory_wf; [done| |done]. intros e _ He. by apply dir_wf_insert. }
  split; [done|]. apply BTree.sorted_ext; [by apply flat_dir_sorted|by apply BTree.insert_sorted, flat_dir_sorted|]. intros k.
  rewrite (flat_one (BTree.insert name n) d d' dd pcs name (Some n)); [|done..|intros c; by apply BTree.get_insert|by intros ? [= <-]|done|done].
  rewrite BTree.get_insert by (by apply flat_dir_sorted). destruct (decide _) as [->|]; done.
Qed.

Lemma flat_remove base d pcs name dd d' : dir_wf d -> find_directory d pcs = Ok dd ->
  update_directory (BTree.remove name) d pcs = Ok d' -> (forall n0, BTree.get name dd = Some n0 -> leaf n0 = true) ->
  dir_wf d' /\ flat_dir base d' = BTree.remove (base ++ pcs ++ [name]) (flat_dir base d).
Proof.
  intros Hd Hf Hu Hold. pose proof (find_directory_wf _ _ _ Hd Hf) as [Hs _].
  assert (Hd' : dir_wf d'). { eapply update_directory_wf; [done| |done]. intros e _ He. by apply dir_wf_remove. }
  split; [done|]. apply BTree.sorted_ext; [by apply flat_dir_sorted|by apply BTree.remove_sorted, flat_dir_sorted|]. intros k.
  rewrite (flat_one (BTree.remove name) d d' dd pcs name None); [|done..|intros c; by apply BTree.get_remove|done|done|done].
  rewrite BTree.get_remove by (by apply flat_dir_sorted). destruct (decide _) as [->|]; done.
Qed.

(** ** The ledger *)

Lemma reserve_ledger l d a n r : reserve (ledger l d) (mkCost a n 0 0) = Ok r ->
  dsum w_bytes d + a <= maximum_logical_bytes l /\ 2 + dsum w_nodes d + n <= maximum_nodes l /\
  commit r (ledger l d) = Ok (mkLedger (maximum_logical_bytes l) (maximum_nodes l) (dsum w_bytes d + a) (2 + dsum w_nodes d + n)).
Proof.
  unfold reserve, ledger. cbn [logical_bytes nodes max_logical_bytes max_nodes logical_bytes_added nodes_added].
  destruct (checked_add u64_max _ _) as [b|] eqn:E1; cbn [ok_or mbind outcome_bind]; [|done].
  destruct (checked_add u32_max _ _) as [k|] eqn:E2; cbn [ok_or mbind outcome_bind]; [|done]. destruct (_ || _) eqn:E; [done|]. intros [= <-]. bsimp.
  split; [lia|]. split; [lia|]. unfold commit. cbn [logical_bytes nodes max_logical_bytes max_nodes logical_bytes_added nodes_added reserved].
  by rewrite (proj2 (Z.ltb_ge u64_max _)), (proj2 (Z.ltb_ge u32_max _)) by lia.
Qed.

Lemma reserve_no_panic q c : reserve q c <> Panic.
Proof.
  unfold reserve. destruct (checked_add u64_max _ _); cbn [ok_or mbind outcome_bind]; [|done].
  destruct (checked_add u32_max _ _); cbn [ok_or mbind outcome_bind]; [|done]. by destruct (_ || _).
Qed.

Lemma release_ok mb mn b n a k : a <= b -> k <= n -> release a k (mkLedger mb mn b n) = Ok (mkLedger mb mn (b - a) (n - k)).
Proof. intros. unfold release. simpl. by rewrite !(proj2 (Z.ltb_ge _ _)) by lia. Qed.

Lemma next_generation_ok f g : next_generation f = Ok g -> g = generation f + 1 /\ generation f + 1 <= u64_max.
Proof. unfold next_generation. destruct (checked_add _ _ _) eqn:E; [|done]. intros [= <-]. by bsimp. Qed.

Lemma next_generation_no_panic f : next_generation f <> Panic.
Proof. unfold next_generation. by destruct (checked_add _ _ _). Qed.

(** The filesystem after a committed mutation. *)
Definition next (f : ComputerFileSystem) (d : list (list Z * Node)) (objs : list (list Z * StoredObject)) : ComputerFileSystem :=
  mkFs (rom f) d (handles f) objs (ledger (limits f) d) (limits f) (generation f + 1) (persistence f).

Lemma next_ok f d objs : fs_ok f -> dir_wf d -> within (limits f) d -> store_ok objs ->
  (forall o, refs o objs = dsum (w_refs o) d + dsum (w_refs o) (rom f)) -> generation f + 1 <= u64_max -> fs_ok (next f d objs).
Proof. intros Hf Hd Hw Hs Hr Hg. destruct Hf. split; simpl; try done. lia. Qed.

Lemma w_bytes_nonneg m o : 0 <= w_bytes m o.
Proof. unfold w_bytes. lia. Qed.

Lemma w_nodes_nonneg m o : 0 <= w_nodes m o.
Proof. done. Qed.

Definition home_view (d : list (list Z * Node)) : NodeMap := flat_dir [str_home] d.

(** The parent of a new or changed entry is a directory of the flat namespace. *)
Lemma require_parent_ok d pcs name dd : dir_wf d -> find_directory d pcs = Ok dd ->
  Recovery.require_parent (home_view d) (str_home :: pcs ++ [name]) = Ok tt.
Proof.
  intros Hd Hf. unfold Recovery.require_parent, parent. rewrite bool_decide_eq_false_2 by done. cbn [ok_or mbind outcome_bind].
  replace (take _ _) with ([str_home] ++ pcs).
  2:{ rewrite (app_comm_cons pcs). rewrite take_app_le by (rewrite length_app; simpl; lia). rewrite take_ge by (rewrite length_app; simpl; lia). done. }
  destruct (decide (pcs = [])) as [->|Hne]; [done|]. destruct (bool_decide _); [done|]. unfold home_view. rewrite flat_dir_get by done.
  rewrite decide_False by done. apply find_directory_at in Hf as (m & ->). done.
Qed.

(** ** Putting a leaf *)

Lemma leaf_sums n : node_wf n -> leaf n = true ->
  tsum w_nodes n = 1 /\ tsum w_bytes n = logical_size (metadata n) /\ (forall o, tsum (w_refs o) n = one_if (object_id_of n = Some o)).
Proof.
  intros Hw Hl. destruct n as [m [o|ch]].
  - inversion Hw; subst. split; [done|]. split; [simpl; unfold w_bytes; lia|]. intros o'. done.
  - rewrite (leaf_directory _ m ch Hl eq_refl) in *. inversion Hw; subst. split; [done|]. split; [simpl; unfold w_bytes; lia|]. intros o'. done.
Qed.

Definition osize (o : option Node) : Z := match o with Some n => logical_size (metadata n) | None => 0 end.

Lemma osum_leaf d c : dir_wf d -> (forall n, BTree.get c d = Some n -> leaf n = true) ->
  osum w_nodes (BTree.get c d) = match BTree.get c d with Some _ => 1 | None => 0 end /\
  osum w_bytes (BTree.get c d) = osize (BTree.get c d) /\ 0 <= osize (BTree.get c d) /\
  (forall o, osum (w_refs o) (BTree.get c d) = one_if ((BTree.get c d ≫= object_id_of) = Some o)).
Proof.
  intros Hd Hl. destruct (BTree.get c d) as [n|] eqn:E; [|split_and!; done]. pose proof (dir_wf_get _ _ _ Hd E) as Hn.
  destruct (leaf_sums n Hn (Hl n eq_refl)) as (H1 & H2 & H3). split_and!; [done|done| |done]. simpl. inversion Hn; subst; simpl; lia.
Qed.

Section Put.
Context (f : ComputerFileSystem) (pcs : list str) (name : str) (n : Node) (dd d : list (list Z * Node)).
Context (objs : list (list Z * StoredObject)).
Context (Hok : fs_ok f) (Hf : find_directory (home f) pcs = Ok dd) (Hu : update_directory (BTree.insert name n) (home f) pcs = Ok d).
Context (Hn : node_wf n) (Hl : leaf n = true) (Hold : forall n0, BTree.get name dd = Some n0 -> leaf n0 = true).

Let fresh : Z := match BTree.get name dd with Some _ => 0 | None => 1 end.

Lemma put_ledger : ledger (limits f) d = mkLedger (maximum_logical_bytes (limits f)) (maximum_nodes (limits f))
    (dsum w_bytes (home f) + logical_size (metadata n) - osize (BTree.get name dd)) (2 + dsum w_nodes (home f) + fresh) /\
  (forall o, dsum (w_refs o) d = dsum (w_refs o) (home f) + one_if (object_id_of n = Some o) - one_if ((BTree.get name dd ≫= object_id_of) = Some o)) /\
  0 <= osize (BTree.get name dd) <= dsum w_bytes (home f).
Proof.
  pose proof (find_directory_wf _ _ _ (f_home _ Hok) Hf) as Hdd. destruct (leaf_sums n Hn Hl) as (N1 & N2 & N3).
  destruct (osum_leaf dd name Hdd Hold) as (O1 & O2 & O4 & O3).
  assert (H : forall w, dsum w d = dsum w (home f) + (tsum w n - osum w (BTree.get name dd))).
  { intros w. rewrite (dsum_update w _ _ _ _ _ (f_home _ Hok) Hf Hu), dsum_insert by apply Hdd. lia. }
  split; [|split].
  - unfold ledger. rewrite !H, N1, N2, O1, O2. unfold fresh. f_equal; destruct (BTree.get name dd); lia.
  - intros o. rewrite H, N3, O3. lia.
  - split; [done|]. rewrite <- O2. destruct (BTree.get name dd) as [m|] eqn:E; [|apply (dsum_nonneg w_bytes), w_bytes_nonneg]. unfold osum.
    apply (dsum_at w_bytes (home f) (pcs ++ [name])); [apply Hok|apply w_bytes_nonneg|by destruct pcs|].
    rewrite (node_at_under _ _ _ _ _ Hf), E. done.
Qed.

Lemma put_ok : (BTree.get name dd = None -> size dd < maximum_directory_entries (limits f)) ->
  dsum w_bytes (home f) + logical_size (metadata n) - osize (BTree.get name dd) <= maximum_logical_bytes (limits f) ->
  2 + dsum w_nodes (home f) + fresh <= maximum_nodes (limits f) -> store_ok objs ->
  (forall o, refs o objs = refs o (objects f) + one_if (object_id_of n = Some o) - one_if ((BTree.get name dd ≫= object_id_of) = Some o)) ->
  generation f + 1 <= u64_max ->
  fs_ok (next f d objs) /\
  home_view d = BTree.insert (str_home :: pcs ++ [name]) (cp_of (str_home :: pcs ++ [name]) (shallow n)) (home_view (home f)).
Proof.
  intros Hroom Hb Hnodes Hs Hr Hg. destruct (flat_put [str_home] _ _ _ _ _ _ (f_home _ Hok) Hn Hf Hu Hl Hold) as [Hd Hflat].
  destruct put_ledger as (L & R & _). split; [|exact Hflat]. apply next_ok; try done.
  - injection L as L1 L2. split; [lia|lia|]. apply (entries_put _ _ _ _ _ _ _ (f_home _ Hok) Hf Hu); try done; apply Hok.
  - intros o. rewrite Hr, R, (f_refs _ Hok). lia.
Qed.

End Put.

Lemma home_descendant_entry pcs (name : str) : home_descendant (str_home :: pcs ++ [name]) = true.
Proof. by destruct pcs. Qed.

Lemma view_get d pcs name dd : dir_wf d -> find_directory d pcs = Ok dd ->
  BTree.get (str_home :: pcs ++ [name]) (home_view d) = (fun n => cp_of (str_home :: pcs ++ [name]) (shallow n)) <$> BTree.get name dd.
Proof.
  intros Hd Hf. pose proof (flat_dir_get [str_home] d (pcs ++ [name]) Hd) as E. rewrite decide_False in E by (by destruct pcs).
  rewrite (node_at_under _ _ _ _ _ Hf) in E. unfold home_view. simpl in E |- *. rewrite E. by destruct (BTree.get name dd).
Qed.

Lemma find_node_split d cs n : find_node d cs = Ok n -> exists pcs name dd, cs = pcs ++ [name] /\ find_directory d pcs = Ok dd /\ BTree.get name dd = Some n.
Proof.
  intros H. destruct cs as [|name pcs] using rev_ind; [done|clear IHpcs]. apply find_node_at in H; [|by destruct pcs]. unfold node_at in H.
  rewrite at_path_app in H. apply bind_Some in H as (m & Hm & H). simpl in H. destruct m as [md [o|dd]]; [done|]. simpl in H.
  apply bind_Some in H as (n' & Hn & [= ->]). exists pcs, name, dd. split_and!; [done| |done]. apply find_directory_at. by exists md.
Qed.

Lemma leaf_no_descendants d pcs name n : dir_wf d -> node_at d (pcs ++ [name]) = Some n -> leaf n = true ->
  Recovery.has_descendants (home_view d) (str_home :: pcs ++ [name]) = false.
Proof.
  intros Hd Ha Hl. unfold Recovery.has_descendants. apply not_true_is_false. intros (k & Hk & Hw)%existsb_exists. bsimp.
  apply starts_with_prefix in H0 as [r ->]. apply list_elem_of_In in Hk. apply BTree.get_keys in Hk as [v Hv]; [|by apply flat_dir_sorted].
  destruct r as [|c r]; [by rewrite app_nil_r in H|].
  pose proof (flat_dir_get [str_home] d ((pcs ++ [name]) ++ c :: r) Hd) as E. rewrite decide_False in E by (by destruct pcs).
  unfold node_at in E, Ha. rewrite at_path_app, Ha in E. cbn [mbind option_bind] in E. rewrite leaf_below in E by done. unfold home_view in Hv. simpl in *. congruence.
Qed.

(** Runs the first step of a sequence. *)
Ltac run_ok tac := cbv beta; erewrite st_bind_ok; [|tac].

(** The state a run ends in is [next], up to arithmetic in the ledger. *)
Ltac fs_eq L :=
  unfold next; rewrite L; unfold set_generation, set_quota, set_objects, set_home;
  cbn [fs rom home handles objects quota limits generation persistence]; f_equal; f_equal; lia.

Section Digest.
Context (sha256 : list Z -> Digest).

(** What every successful mutation does. *)
Record committed (s : Sys) (object : option (Digest * list Z)) (op : JournalOperation) (d : list (list Z * Node))
    (objs : list (list Z * StoredObject)) (s' : Sys) : Prop := {
  c_fs : fs s' = next (fs s) d objs;
  c_ok : fs_ok (fs s');
  c_gate : publishes sha256 (fs s) (generation (fs s) + 1) object op (gate s) (gate s') }.

Lemma committed_next s object op d objs s' : fs s' = next (fs s) d objs -> fs_ok (next (fs s) d objs) ->
  publishes sha256 (fs s) (generation (fs s) + 1) object op (gate s) (gate s') -> committed s object op d objs s'.
Proof. intros E H Hp. split; [done|by rewrite E|done]. Qed.

Lemma create_directory_ok c p s : fs_ok (fs s) -> gate_ok (gate s) ->
  atomic (create_directory sha256 c p) s (fun _ s' => exists d,
    let g := generation (fs s) + 1 in
    committed s None (CreateDirectory p g) d (objects (fs s)) s' /\ permits c p CREATE = true /\ home_descendant p = true /\
    Recovery.require_parent (home_view (home (fs s))) p = Ok tt /\ BTree.get p (home_view (home (fs s))) = None /\
    home_view d = BTree.insert p (FsCheckpoint.Directory p g) (home_view (home (fs s)))).
Proof.
  intros Hok Hq. unfold create_directory. apply atomic_lift; [apply mutable_target_no_panic|]. intros [mount cs] Ht.
  apply mutable_target_ok in Ht as (Hperm & -> & ->). apply atomic_lift; [apply split_name_no_panic|]. intros [name pcs] Hn.
  apply split_name_ok in Hn as ->. apply atomic_read; [apply find_directory_no_panic|]. intros dd Hf. simpl in Hf.
  destruct (BTree.contains_key name dd) eqn:Ec; [done|]. unfold BTree.contains_key in Ec. destruct (BTree.get name dd) eqn:Eg; [done|].
  apply atomic_read; [unfold check_directory_entry_limit; by destruct (_ <? _)|]. intros [] Hroom.
  unfold check_directory_entry_limit in Hroom. destruct (Z.ltb_spec (size dd) (maximum_directory_entries (limits (fs s)))); [|done].
  apply atomic_read; [apply reserve_no_panic|]. intros r Hr. rewrite (f_quota _ Hok) in Hr. apply reserve_ledger in Hr as (Hb & Hnodes & Hcommit).
  apply atomic_read; [apply next_generation_no_panic|]. intros g Hg. apply next_generation_ok in Hg as [-> Hmax].
  pose proof (f_generation _ Hok). apply atomic_prepare; [done|lia|]. intros prepared q q' Hpub Hrun.
  set (g := generation (fs s) + 1) in *. destruct (update_directory_ok (BTree.insert name (directory_node g)) _ _ _ Hf) as [d Hd].
  assert (Hold : forall n0, BTree.get name dd = Some n0 -> leaf n0 = true) by (rewrite Eg; done).
  destruct (put_ledger (fs s) pcs name (directory_node g) dd d Hok Hf Hd ltac:(by apply wf_dnode; [..|split; constructor]) eq_refl Hold) as (L & R & _).
  rewrite Eg in L, R. simpl in L, R.
  destruct (put_ok (fs s) pcs name (directory_node g) dd d (objects (fs s)) Hok Hf Hd) as [Hnext Hview]; try done.
  { by apply wf_dnode; [..|split; constructor]. }
  { rewrite Eg. simpl. lia. }
  { rewrite Eg. lia. }
  { apply Hok. }
  { intros o. rewrite Eg. unfold one_if. rewrite !decide_False by done. lia. }
  run_ok ltac:(apply or_drop_ok, update_home_ok; exact Hd).
  run_ok ltac:(apply update_fs_ok; cbn [fs quota set_home]; rewrite (f_quota _ Hok), Hcommit; reflexivity).
  run_ok ltac:(reflexivity). unfold with_fs. cbn [fs gate]. rewrite Hrun. exists tt. eexists. split; [reflexivity|]. exists d. split_and!; try done.
  - apply committed_next; [|done|done]. fs_eq L.
  - apply home_descendant_entry.
  - by eapply require_parent_ok; [apply Hok|].
  - rewrite (view_get _ _ _ _ (f_home _ Hok) Hf), Eg. done.
Qed.

(** The commit phase of [write_file] and [replace_existing]. *)
Lemma put_file_ok s pcs name dd bs x r prepared q q' (U : list (list Z * Node) -> outcome FileSystemError (list (list Z * Node))) :
  let g := generation (fs s) + 1 in
  let o := object_id sha256 bs in
  let prev := BTree.get name dd in
  let p := str_home :: pcs ++ [name] in
  fs_ok (fs s) -> find_directory (home (fs s)) pcs = Ok dd ->
  U (home (fs s)) = update_directory (BTree.insert name (file_node o (size bs) g x)) (home (fs s)) pcs ->
  (forall n, prev = Some n -> exists o', object_id_of n = Some o') -> (prev = None -> size dd < maximum_directory_entries (limits (fs s))) ->
  reserve (quota (fs s)) (mkCost (saturating_sub (size bs) (osize prev)) (match prev with Some _ => 0 | None => 1 end) 0 0) = Ok r ->
  g <= u64_max -> publishes sha256 (fs s) g (Some (o, bs)) (PutFile p g (size bs) o x) (gate s) q' ->
  (forall f, publish prepared (mkSys f q) = (Ok tt, mkSys f q')) ->
  exists d objs s', (
    _ ← or_drop prepared (update_home U MHome);
    _ ← update_fs (fun f => objs ← store_replace (prev ≫= object_id_of) o bs (objects f); Ok (set_objects objs f));
    _ ← commit_quota r;
    _ ← release_quota (saturating_sub (osize prev) (size bs)) 0;
    _ ← st_modify (with_fs (set_generation g));
    publish prepared) (mkSys (fs s) q) = (Ok tt, s') /\
    committed s (Some (o, bs)) (PutFile p g (size bs) o x) d objs s' /\ grows (objects (fs s)) objs o bs /\
    home_view d = BTree.insert p (FsCheckpoint.File p g (size bs) o x) (home_view (home (fs s))).
Proof.
  intros g o prev p Hok Hf HU Hfile Hroom Hr Hg Hpub Hrun.
  destruct (update_directory_ok (BTree.insert name (file_node o (size bs) g x)) _ _ _ Hf) as [d Hd]. rewrite Hd in HU.
  assert (Hn : node_wf (file_node o (size bs) g x)) by (constructor; [done|apply size_nonneg]).
  assert (Hold : forall n0, BTree.get name dd = Some n0 -> leaf n0 = true).
  { intros n0 E. destruct (Hfile n0 E) as [o' Ho]. by destruct n0 as [m [?|?]]. }
  destruct (put_ledger (fs s) pcs name _ dd d Hok Hf Hd Hn eq_refl Hold) as (L & R & Hprev). fold prev in L, R, Hprev. cbn [metadata file_node logical_size] in L.
  rewrite (f_quota _ Hok) in Hr. apply reserve_ledger in Hr as (Hb & Hnodes & Hcommit). pose proof (size_nonneg bs). unfold saturating_sub in *.
  destruct (store_replace_ok (prev ≫= object_id_of) o bs (objects (fs s)) (f_store _ Hok) (refs_bound _ o Hok)) as (objs & Hstore & Hs & Hrefs & Hgrow).
  { intros o' Ho. apply bind_Some in Ho as (n & E & Ho). apply (file_stored (fs s) (home (fs s)) (pcs ++ [name]) n); try done; [by left|by destruct pcs|].
    rewrite (node_at_under _ _ _ _ _ Hf). unfold prev in E. by rewrite E. }
  destruct (put_ok (fs s) pcs name (file_node o (size bs) g x) dd d objs Hok Hf Hd) as [Hnext Hview]; try done.
  { fold prev. cbn [metadata file_node logical_size]. lia. }
  { intros o'. fold prev. rewrite Hrefs. do 2 f_equal. apply one_if_ext. split; [by intros ->|by intros [= <-]]. }
  exists d, objs, (mkSys (next (fs s) d objs) q'). split_and!; [|by apply committed_next|done|exact Hview].
  pose proof (dsum_nonneg w_nodes (home (fs s)) w_nodes_nonneg). assert (0 <= match prev with Some _ => 0 | None => 1 end) by (by destruct prev).
  run_ok ltac:(apply or_drop_ok, update_home_ok; exact HU).
  run_ok ltac:(apply update_fs_ok; cbn [fs objects set_home]; rewrite Hstore; reflexivity).
  run_ok ltac:(apply update_fs_ok; cbn [fs quota set_home set_objects]; rewrite (f_quota _ Hok), Hcommit; reflexivity).
  run_ok ltac:(apply update_fs_ok; cbn [fs quota set_quota]; rewrite release_ok by lia; reflexivity).
  run_ok ltac:(reflexivity). unfold with_fs. cbn [fs gate]. rewrite Hrun. do 2 f_equal. fs_eq L.
Qed.

Lemma check_file_size_ok n f u : check_file_size n f = Ok u -> n <= maximum_file_bytes (limits f).
Proof. unfold check_file_size. by destruct (Z.leb_spec n (maximum_file_bytes (limits f))). Qed.

Lemma check_file_size_no_panic n f : check_file_size n f <> Panic.
Proof. unfold check_file_size. by destruct (_ <=? _). Qed.

Lemma check_entry_ok n f u : check_directory_entry_limit n f = Ok u -> n < maximum_directory_entries (limits f).
Proof. unfold check_directory_entry_limit. by destruct (Z.ltb_spec n (maximum_directory_entries (limits f))). Qed.

Lemma check_entry_no_panic n f : check_directory_entry_limit n f <> Panic.
Proof. unfold check_directory_entry_limit. by destruct (_ <? _). Qed.

(** What a successful write of a whole file does. *)
Record put_file (s : Sys) (p : VirtualPath) (bs : list Z) (x : bool) (s' : Sys) : Prop := {
  pf_size : size bs <= maximum_file_bytes (limits (fs s));
  pf_descendant : home_descendant p = true;
  pf_parent : Recovery.require_parent (home_view (home (fs s))) p = Ok tt;
  pf_file : forall n, BTree.get p (home_view (home (fs s))) = Some n -> FsCheckpoint.is_directory n = false;
  pf_commit : exists d objs, let g := generation (fs s) + 1 in let o := sha256 bs in
    committed s (Some (o, bs)) (PutFile p g (size bs) o x) d objs s' /\ grows (objects (fs s)) objs o bs /\
    home_view d = BTree.insert p (FsCheckpoint.File p g (size bs) o x) (home_view (home (fs s))) }.

Lemma file_contents (prev : option Node) :
  (match prev with Some node => match contents node with CDirectory _ => true | CFile _ => false end | None => false end) = false ->
  forall n, prev = Some n -> exists o, object_id_of n = Some o.
Proof. intros H n ->. destruct n as [m [o|ch]]; [by exists o|done]. Qed.

Lemma write_file_ok c p bs x s : fs_ok (fs s) -> gate_ok (gate s) ->
  atomic (write_file sha256 c p bs x) s (fun _ s' => put_file s p bs x s' /\
    permits c p (if BTree.contains_key p (home_view (home (fs s))) then WRITE else bitor CREATE WRITE) = true).
Proof.
  intros Hok Hq. unfold write_file. apply atomic_lift; [apply writable_path_no_panic|]. intros [mount cs] Ht.
  apply writable_path_ok in Ht as [-> ->]. apply atomic_lift; [apply split_name_no_panic|]. intros [name pcs] Hn.
  apply split_name_ok in Hn as ->. apply atomic_read; [apply find_directory_no_panic|]. intros dd Hf. simpl in Hf.
  pose proof (view_get _ _ name _ (f_home _ Hok) Hf) as Hview. set (p := str_home :: pcs ++ [name]) in *.
  apply (atomic_check _ _ _ (fun _ => permits c p (if BTree.contains_key p (home_view (home (fs s))) then WRITE else bitor CREATE WRITE) = true /\
    (BTree.get name dd = None -> size dd < maximum_directory_entries (limits (fs s))))).
  { unfold BTree.contains_key. rewrite Hview. destruct (BTree.get name dd) as [n|]; simpl.
    - unfold atomic, st_lift, require. by destruct (permits c p WRITE).
    - apply atomic_lift; [apply require_no_panic|]. intros [] Hp%require_ok. unfold atomic, read_fs, st_read.
      destruct (check_directory_entry_limit _ _) eqn:E; [by apply check_entry_ok in E|done|by apply check_entry_no_panic in E]. }
  intros _ [Hperm Hroom]. destruct (match BTree.get name dd with Some _ => _ | None => false end) eqn:Efile; [done|].
  pose proof (file_contents _ Efile) as Hfile. apply atomic_read; [apply check_file_size_no_panic|]. intros [] Hsize%check_file_size_ok.
  apply atomic_read; [apply reserve_no_panic|]. intros r Hr. apply atomic_read; [apply next_generation_no_panic|]. intros g Hg.
  apply next_generation_ok in Hg as [-> Hmax]. pose proof (f_generation _ Hok). apply atomic_prepare; [done|lia|]. intros prepared q q' Hpub Hrun.
  destruct (put_file_ok s pcs name dd bs x r prepared q q' (fun d => update_directory (BTree.insert name
    (file_node (object_id sha256 bs) (size bs) (generation (fs s) + 1) x)) d pcs)) as (d & objs & s' & Hend & Hcommit); try done.
  exists tt, s'. split; [exact Hend|]. split; [|done]. split; [done|apply home_descendant_entry|by eapply require_parent_ok; [apply Hok|]| |].
  - intros n. rewrite Hview. intros (n0 & E & ->)%fmap_Some. destruct (Hfile n0 E) as [o Ho]. destruct n0 as [m [?|?]]; done.
  - by exists d, objs.
Qed.

Lemma replace_existing_ok p bs s : fs_ok (fs s) -> gate_ok (gate s) ->
  atomic (replace_existing sha256 p bs) s (fun _ s' => exists x, put_file s p bs x s' /\
    (exists g n o, BTree.get p (home_view (home (fs s))) = Some (FsCheckpoint.File p g n o x))).
Proof.
  intros Hok Hq. unfold replace_existing. apply atomic_lift; [apply writable_path_no_panic|]. intros [mount cs] Ht.
  apply writable_path_ok in Ht as [-> ->]. apply atomic_read; [apply find_node_no_panic|]. intros n Hn. simpl in Hn.
  apply find_node_split in Hn as (pcs & name & dd & -> & Hf & Eg).
  pose proof (view_get _ _ name _ (f_home _ Hok) Hf) as Hview. set (p := str_home :: pcs ++ [name]) in *.
  apply atomic_lift; [by destruct (object_id_of n)|]. intros o Ho%ok_or_ok.
  apply atomic_read; [apply check_file_size_no_panic|]. intros [] Hsize%check_file_size_ok.
  apply atomic_read; [apply reserve_no_panic|]. intros r Hr. apply atomic_read; [apply next_generation_no_panic|]. intros g Hg.
  apply next_generation_ok in Hg as [-> Hmax]. pose proof (f_generation _ Hok). apply atomic_prepare; [done|lia|]. intros prepared q q' Hpub Hrun.
  set (x := executable (metadata n)) in *.
  destruct (put_file_ok s pcs name dd bs x r prepared q q' (fun d => replace_node
    (file_node (object_id sha256 bs) (size bs) (generation (fs s) + 1) x) d (pcs ++ [name]))) as (d & objs & s' & Hend & Hcommit); try done.
  { rewrite replace_node_update, Hf, Eg. done. }
  { intros n0 E. rewrite Eg in E. injection E as <-. by exists o. }
  { by rewrite Eg. }
  { rewrite Eg. exact Hr. }
  rewrite Eg in Hend, Hview. simpl in Hend, Hview. rewrite Ho in Hend. exists tt, s'. split; [exact Hend|]. exists x.
  destruct n as [m [o'|?]]; [|done]. injection Ho as ->. split; [|rewrite Hview; unfold cp_of, shallow; by eauto].
  split; [done|apply home_descendant_entry|by eapply require_parent_ok; [apply Hok|]| |by exists d, objs].
  rewrite Hview. by intros ? [= <-].
Qed.

Lemma file_bytes_ok p f : fs_ok f -> file_bytes p f <> Panic.
Proof.
  intros Hok. unfold file_bytes. pose proof (split_mount_no_panic p) as Hm. destruct (split_mount p) as [[mount cs]| |]; cbn [mbind outcome_bind]; [|done|done].
  pose proof (find_node_no_panic (directory mount f) cs) as Hn. destruct (find_node _ cs) as [n| |] eqn:E; cbn [mbind outcome_bind]; [|done|done].
  destruct n as [m [o|ch]]; simpl; [|done]. assert (Hcs : cs <> []) by (by intros ->).
  assert (Hr : 1 <= refs o (objects f)).
  { apply (file_stored f (directory mount f) cs (mkNode m (CFile o))); try done; [by destruct mount; [right|left]|]. by apply find_node_at. }
  apply refs_pos in Hr as (st & Hst & _); [|apply Hok]. unfold store_bytes. by rewrite Hst.
Qed.

(** Dropping the reference an entry holds. *)
Lemma drop_object_ok objs n : store_ok objs -> (forall o, object_id_of n = Some o -> 1 <= refs o objs) ->
  exists objs', (forall s, objects (fs s) = objs ->
      (match object_id_of n with
       | Some o => update_fs (fun f => objs ← store_remove o (objects f); Ok (set_objects objs f))
       | None => mret tt
       end) s = (Ok tt, mkSys (set_objects objs' (fs s)) (gate s))) /\
    store_ok objs' /\ (forall o, refs o objs' = refs o objs - one_if (object_id_of n = Some o)) /\ shrinks objs objs'.
Proof.
  intros Hs Hr. destruct (object_id_of n) as [o|] eqn:Eo.
  - destruct (store_remove_ok o objs Hs (Hr o eq_refl)) as (objs' & Hrun & Hok & Hrefs & Hshrink). exists objs'. split_and!; [|done| |done].
    + intros s E. apply update_fs_ok. by rewrite E, Hrun.
    + intros o'. rewrite Hrefs. f_equal. apply one_if_ext. split; [by intros ->|by intros [= <-]].
  - exists objs. split_and!; [|done| |].
    + intros [[] q] E. simpl in E. by subst.
    + intros o. unfold one_if. rewrite decide_False by done. lia.
    + intros o st H. by exists st.
Qed.

Lemma remove_ok c p s : fs_ok (fs s) -> gate_ok (gate s) ->
  atomic (remove sha256 c p) s (fun _ s' => exists d objs n,
    committed s None (Remove p) d objs s' /\ permits c p DELETE = true /\ home_descendant p = true /\
    BTree.get p (home_view (home (fs s))) = Some n /\
    (FsCheckpoint.is_directory n = true -> Recovery.has_descendants (home_view (home (fs s))) p = false) /\
    shrinks (objects (fs s)) objs /\
    home_view d = BTree.remove p (home_view (home (fs s)))).
Proof.
  intros Hok Hq. unfold remove. apply atomic_lift; [apply mutable_target_no_panic|]. intros [mount cs] Ht.
  apply mutable_target_ok in Ht as (Hperm & -> & ->). apply atomic_lift; [apply split_name_no_panic|]. intros [name pcs] Hn.
  apply split_name_ok in Hn as ->. apply atomic_read; [apply find_directory_no_panic|]. intros dd Hf. simpl in Hf.
  apply atomic_lift; [by destruct (BTree.get name dd)|]. intros n Eg%ok_or_ok. destruct (is_nonempty_directory n) eqn:El; [done|].
  assert (Hleaf : leaf n = true) by (unfold leaf; by rewrite El).
  apply atomic_read; [apply next_generation_no_panic|]. intros g Hg. apply next_generation_ok in Hg as [-> Hmax].
  pose proof (f_generation _ Hok). apply atomic_prepare; [done|lia|]. intros prepared q q' Hpub Hrun.
  destruct (update_directory_ok (BTree.remove name) _ _ _ Hf) as [d Hd].
  pose proof (find_directory_wf _ _ _ (f_home _ Hok) Hf) as Hdd. pose proof (dir_wf_get _ _ _ Hdd Eg) as Hn.
  destruct (leaf_sums n Hn Hleaf) as (N1 & N2 & N3).
  assert (Hsum : forall w, dsum w d = dsum w (home (fs s)) - tsum w n).
  { intros w. rewrite (dsum_update w _ _ _ _ _ (f_home _ Hok) Hf Hd), dsum_remove by apply Hdd. rewrite Eg. simpl. lia. }
  assert (Hat : node_at (home (fs s)) (pcs ++ [name]) = Some n) by (rewrite (node_at_under _ _ _ _ _ Hf), Eg; done).
  assert (Hne : pcs ++ [name] <> []) by (by destruct pcs).
  destruct (flat_remove [str_home] _ _ _ _ _ (f_home _ Hok) Hf Hd) as [Hwf Hview]; [by intros n0 E; rewrite Eg in E; injection E as <-|].
  destruct (drop_object_ok (objects (fs s)) n (f_store _ Hok)) as (objs & Hdrop & Hs & Hrefs & Hshrink).
  { intros o Ho. by apply (file_stored (fs s) (home (fs s)) (pcs ++ [name]) n); [|left| | |]. }
  pose proof (dsum_at w_bytes _ _ _ (f_home _ Hok) w_bytes_nonneg Hne Hat). pose proof (dsum_at w_nodes _ _ _ (f_home _ Hok) w_nodes_nonneg Hne Hat).
  assert (Hnext : fs_ok (next (fs s) d objs)).
  { apply next_ok; try done.
    - destruct (f_within _ Hok). split; rewrite ?Hsum; [|lia|by eapply entries_remove; [apply Hok|..]].
      assert (0 <= tsum w_bytes n); [|lia]. rewrite N2. inversion Hn; simpl; lia.
    - intros o. rewrite Hrefs, Hsum, N3, (f_refs _ Hok). lia. }
  exists tt, (mkSys (next (fs s) d objs) q'). split.
  - run_ok ltac:(apply or_drop_ok, update_home_ok; exact Hd). run_ok ltac:(apply Hdrop; reflexivity).
    run_ok ltac:(apply update_fs_ok; cbn [fs quota set_home set_objects]; rewrite (f_quota _ Hok); unfold ledger; rewrite release_ok by lia; reflexivity).
    run_ok ltac:(reflexivity). unfold with_fs. cbn [fs gate]. rewrite Hrun. do 2 f_equal. unfold next, ledger. rewrite !Hsum.
    unfold set_generation, set_quota, set_objects, set_home. cbn [fs rom home handles objects quota limits generation persistence].
    f_equal. f_equal; lia.
  - exists d, objs. eexists. split_and!; [by apply committed_next|done|apply home_descendant_entry| | |done|exact Hview].
    + rewrite (view_get _ _ _ _ (f_home _ Hok) Hf), Eg. reflexivity.
    + intros _. apply (leaf_no_descendants _ _ _ n); [apply Hok|exact Hat|exact Hleaf].
Qed.

End Digest.
End TreeOps.
