(* ===== verification/TreeRename.v ===== *)
(** The mutations of a computer's filesystem, continued: moving a subtree. *)

From S2P Require Import Prelude Words Unicode Path BTree FileHandle Codec Journal FsCheckpoint Recovery Replay Gate Rom Tree TreeInv TreeOps.

Module TreeRename.
Import FsError FsLimits Path PathProps Capability Quota Codec CodecProps Journal Tree TreeView TreeInv TreeOps.

(** ** Nodes beside an updated directory *)

(** A path that does not lead to the updated directory names the very same node, or
    one the update put there. *)
Lemma node_at_update f d cs d' dd : dir_wf d -> find_directory d cs = Ok dd -> update_directory f d cs = Ok d' ->
  forall k, ~ k `prefix_of` cs -> node_at d' k =
    if decide (cs `prefix_of` k) then match drop (length cs) k with [] => node_at d k | c :: r => n ← BTree.get c (f dd); at_path n r end
    else node_at d k.
Proof.
  intros Hwf Hfd Hup k.
  enough (H : forall md, ~ k `prefix_of` cs -> at_path (dnode md d') k = if decide (cs `prefix_of` k) then
    match drop (length cs) k with [] => at_path (dnode md d) k | c :: r => n ← BTree.get c (f dd); at_path n r end
    else at_path (dnode md d) k) by apply H.
  revert d d' k Hwf Hfd Hup. induction cs as [|c cs IH]; intros d d' k Hwf Hfd Hup md Hk; simpl in Hfd, Hup.
  - injection Hfd as <-. injection Hup as <-. rewrite decide_True by apply prefix_nil. destruct k as [|c k]; [|done]. by destruct Hk.
  - destruct (BTree.get c d) as [[m [o|ch]]|] eqn:Eg; simpl in Hfd, Hup; [done| |done]. apply outcome_bind_inv in Hup as (ch' & Hch & [= <-]).
    pose proof (wf_children _ _ (dir_wf_get _ _ _ Hwf Eg)) as Hc. destruct k as [|c' k]; [destruct Hk; apply prefix_nil|].
    cbn [at_path contents dnode length drop]. rewrite BTree.get_insert by apply Hwf. destruct (decide (c' = c)) as [->|Hne].
    + rewrite Eg. cbn [mbind option_bind metadata]. assert (Hk' : ~ k `prefix_of` cs) by (intros Hp; by apply Hk, prefix_cons).
      specialize (IH ch ch' k Hc Hfd Hch m Hk'). unfold dnode in IH. rewrite IH. destruct (decide (cs `prefix_of` k)) as [Hp|Hp].
      * rewrite decide_True by (by apply prefix_cons). done.
      * rewrite decide_False; [done|]. intros Hq. apply Hp. by eapply prefix_cons_inv_2.
    + rewrite decide_False; [done|]. intros Hq. apply prefix_cons_inv_1 in Hq. done.
Qed.

Lemma at_path_prefix n a b m : at_path n (a ++ b) = Some m -> exists m', at_path n a = Some m' /\ at_path m' b = Some m.
Proof. rewrite at_path_app. by intros (m' & ? & ?)%bind_Some; exists m'. Qed.

Lemma with_generation_at g n r : at_path (with_node_generation g n) r = if decide (r = []) then Some (with_node_generation g n) else at_path n r.
Proof. destruct r as [|c r]; [done|]. rewrite decide_False by done. by destruct n as [m [o|ch]]. Qed.

Lemma with_generation_wf g n : node_wf n -> node_wf (with_node_generation g n).
Proof. intros H. inversion H; subst; by constructor. Qed.

Lemma with_generation_sums g n w : (forall m o, w (mkMeta (kind m) (logical_size m) g (executable m)) o = w m o) -> tsum w (with_node_generation g n) = tsum w n.
Proof. intros Hw. destruct n as [m [o|ch]]; simpl; by rewrite Hw. Qed.

(** ** Moving an entry *)

Section Move.
Context (l : FileSystemLimits) (d sdd ddd : list (list Z * Node)) (spcs dpcs : list str) (sname dname : str) (n : Node) (g : Z).
Context (Hd : dir_wf d) (Hs : find_directory d spcs = Ok sdd) (Hn : BTree.get sname sdd = Some n).
Context (Ht : find_directory d dpcs = Ok ddd) (Hleaf : forall e, BTree.get dname ddd = Some e -> leaf e = true).
Context (Hout : ~ (spcs ++ [sname]) `prefix_of` (dpcs ++ [dname])).

Let src := spcs ++ [sname].
Let dst := dpcs ++ [dname].
Let existing := BTree.get dname ddd.

Lemma source_at : node_at d src = Some n.
Proof. unfold src. rewrite (node_at_under _ _ _ _ _ Hs), Hn. done. Qed.

Lemma target_at : node_at d dst = existing.
Proof. unfold dst. rewrite (node_at_under _ _ _ _ _ Ht). unfold existing. by destruct (BTree.get dname ddd). Qed.

(** The source is not below the destination. *)
Lemma source_outside : ~ dst `prefix_of` src \/ dst = src.
Proof.
  destruct (decide (dst `prefix_of` src)) as [[r E]|]; [right|by left]. pose proof source_at as Ha. rewrite E in Ha. unfold node_at in Ha.
  apply at_path_prefix in Ha as (e & He & Hr). fold (node_at d dst) in He. rewrite target_at in He. destruct r as [|c r]; [by rewrite app_nil_r in E|].
  rewrite leaf_below in Hr by (by apply Hleaf). done.
Qed.

Context (Hne : spcs ++ [sname] <> dpcs ++ [dname]) (d1 : list (list Z * Node)) (H1 : update_directory (BTree.remove sname) d spcs = Ok d1).

Lemma d1_wf : dir_wf d1.
Proof. eapply update_directory_wf; [done| |done]. intros e _ He. by apply dir_wf_remove. Qed.

Lemma d1_below k : src `prefix_of` k -> node_at d1 k = None.
Proof.
  intros [r ->]. unfold src. rewrite <- app_assoc. simpl. pose proof (find_directory_wf _ _ _ Hd Hs) as [Hso _].
  rewrite (node_at_update _ _ _ _ _ Hd Hs H1).
  2:{ intros [z E]. apply (f_equal length) in E. rewrite !length_app in E. simpl in E. lia. }
  rewrite decide_True by (by apply prefix_app_r). rewrite drop_app_length, BTree.get_remove by done. by rewrite decide_True.
Qed.

Lemma d1_shallow k : shallow <$> node_at d1 k = if decide (src `prefix_of` k) then None else shallow <$> node_at d k.
Proof.
  destruct (decide (src `prefix_of` k)) as [Hp|Hp]; [by rewrite d1_below|]. rewrite (at_update _ _ _ _ _ Hd Hs H1).
  destruct (decide (spcs `prefix_of` k)) as [[r ->]|]; [|done]. rewrite drop_app_length. destruct r as [|c r]; [done|].
  rewrite (node_at_under _ _ _ _ _ Hs). rewrite BTree.get_remove by (apply (find_directory_wf _ _ _ Hd Hs)).
  rewrite decide_False; [done|]. intros ->. apply Hp. unfold src. exists r. by rewrite <- app_assoc.
Qed.

Lemma d1_target : node_at d1 dst = existing.
Proof.
  rewrite <- target_at. destruct source_outside as [Ho|Ho]; [|by destruct Hne].
  rewrite (node_at_update _ _ _ _ _ Hd Hs H1).
  2:{ intros Hp. apply Ho. unfold src. by apply prefix_app_r. }
  destruct (decide (spcs `prefix_of` dst)) as [[r E]|]; [|done]. rewrite E, drop_app_length. destruct r as [|c r]; [done|].
  rewrite (node_at_under _ _ _ _ _ Hs), BTree.get_remove by (apply (find_directory_wf _ _ _ Hd Hs)).
  rewrite decide_False; [done|]. intros ->. apply Hout. fold dst. rewrite E. exists r. by rewrite <- app_assoc.
Qed.

(** The destination's directory is still there, and no larger. *)
Lemma d1_directory : exists ddd1, find_directory d1 dpcs = Ok ddd1 /\ BTree.get dname ddd1 = existing /\ size ddd1 <= size ddd.
Proof.
  pose proof (d1_shallow dpcs) as E. rewrite decide_False in E by (intros Hp; by apply Hout, prefix_app_r).
  apply find_directory_at in Ht as Hm. destruct Hm as [md Hm]. rewrite Hm in E. apply fmap_Some in E as (x & Hx & Ex).
  destruct x as [m [o|ddd1]]; [done|]. assert (Hf : find_directory d1 dpcs = Ok ddd1) by (apply find_directory_at; by exists m).
  exists ddd1. split; [done|]. split.
  - pose proof d1_target as E1. unfold dst in E1. rewrite (node_at_under _ _ _ _ _ Hf) in E1. rewrite <- E1. by destruct (BTree.get dname ddd1).
  - destruct (find_update _ _ _ _ _ _ _ Hd Hs H1 Hf) as [(r & -> & Hr)|(e0 & He & ->)]; [|rewrite Ht in He; by injection He as ->].
    rewrite (find_directory_app _ _ _ _ Hs) in Ht. destruct r as [|c r]; simpl in *.
    + injection Hr as <-. injection Ht as <-. unfold size. pose proof (BTree.length_remove_some _ _ _ (proj1 (find_directory_wf _ _ _ Hd Hs)) Hn). lia.
    + rewrite BTree.get_remove in Hr by (apply (find_directory_wf _ _ _ Hd Hs)). destruct (decide (c = sname)); [done|]. rewrite Ht in Hr. by injection Hr as ->.
Qed.

Let put (dd : list (list Z * Node)) := BTree.insert dname (with_node_generation g n) (BTree.remove dname dd).

Context (d2 : list (list Z * Node)) (H2 : update_directory put d1 dpcs = Ok d2).

Lemma n_wf : node_wf n.
Proof. eapply dir_wf_get; [|exact Hn]. by eapply find_directory_wf. Qed.

Lemma d2_wf : dir_wf d2.
Proof.
  eapply update_directory_wf; [apply d1_wf| |exact H2]. intros e _ He. apply dir_wf_insert; [by apply dir_wf_remove|apply with_generation_wf, n_wf].
Qed.

Lemma put_get dd c : BTree.sorted dd -> BTree.get c (put dd) = if decide (c = dname) then Some (with_node_generation g n) else BTree.get c dd.
Proof.
  intros Hdd. unfold put. rewrite BTree.get_insert, BTree.get_remove by (try apply BTree.remove_sorted; done). by destruct (decide (c = dname)).
Qed.

Lemma d2_shallow k : shallow <$> node_at d2 k =
  if decide (dst `prefix_of` k) then shallow <$> at_path (with_node_generation g n) (drop (length dst) k)
  else if decide (src `prefix_of` k) then None else shallow <$> node_at d k.
Proof.
  destruct d1_directory as (ddd1 & Hf1 & Hg1 & _). pose proof d1_wf as Hw. pose proof (find_directory_wf _ _ _ Hw Hf1) as [Hso _].
  rewrite (at_update _ _ _ _ _ Hw Hf1 H2). destruct (decide (dpcs `prefix_of` k)) as [[r ->]|Hp].
  2:{ rewrite decide_False; [by rewrite d1_shallow|]. intros Hq. apply Hp. etrans; [|exact Hq]. by apply prefix_app_r. }
  rewrite drop_app_length. destruct r as [|c r].
  { rewrite decide_False; [by rewrite d1_shallow|]. rewrite app_nil_r. intros [z E]. apply (f_equal length) in E.
    unfold dst in E. rewrite !length_app in E. simpl in E. lia. }
  rewrite put_get by done. destruct (decide (c = dname)) as [->|Hc].
  - replace (dpcs ++ dname :: r) with (dst ++ r) by (unfold dst; by rewrite <- app_assoc).
    rewrite decide_True by (by apply prefix_app_r). by rewrite drop_app_length.
  - rewrite decide_False.
    2:{ intros [z E]. unfold dst in E. rewrite <- app_assoc in E. apply app_inv_head in E. by injection E. }
    rewrite <- d1_shallow. by rewrite (node_at_under _ _ _ _ _ Hf1).
Qed.

Lemma d2_sum w : (forall m o, w (mkMeta (kind m) (logical_size m) g (executable m)) o = w m o) ->
  dsum w d2 = dsum w d - osum w existing.
Proof.
  intros Hgen. destruct d1_directory as (ddd1 & Hf1 & Hg1 & _). pose proof d1_wf as Hw. pose proof (find_directory_wf _ _ _ Hw Hf1) as [Hso _].
  rewrite (dsum_update w _ _ _ _ _ Hw Hf1 H2), (dsum_update w _ _ _ _ _ Hd Hs H1). unfold put.
  rewrite dsum_insert by (by apply BTree.remove_sorted). rewrite BTree.get_remove by done. rewrite decide_True by done.
  rewrite !dsum_remove by (apply Hso || apply (find_directory_wf _ _ _ Hd Hs)). rewrite Hg1, Hn, with_generation_sums by done. simpl. lia.
Qed.

Lemma d2_entries : (existing = None -> size ddd < maximum_directory_entries l) ->
  (forall cs e, find_directory d cs = Ok e -> size e <= maximum_directory_entries l) ->
  forall cs e, find_directory d2 cs = Ok e -> size e <= maximum_directory_entries l.
Proof.
  intros Hroom Hall cs e He. pose proof (entries_remove l _ _ _ _ _ Hd Hs H1 Hall) as Hall1.
  destruct d1_directory as (ddd1 & Hf1 & Hg1 & Hsize). pose proof d1_wf as Hw. pose proof (find_directory_wf _ _ _ Hw Hf1) as [Hso _].
  destruct (find_update _ _ _ _ _ _ _ Hw Hf1 H2 He) as [(r & -> & Hr)|(e0 & He0 & ->)]; [|by eapply Hall1]. destruct r as [|c r]; simpl in Hr.
  - injection Hr as <-. unfold put, size. rewrite BTree.length_insert_new; [|by apply BTree.remove_sorted|rewrite BTree.get_remove by done; by rewrite decide_True].
    unfold size in *. specialize (Hall1 _ _ Hf1). destruct existing as [x|] eqn:Ex.
    + pose proof (BTree.length_remove_some _ _ _ Hso Hg1). lia.
    + rewrite BTree.remove_none by done. specialize (Hroom eq_refl). lia.
  - rewrite put_get in Hr by done. destruct (decide (c = dname)) as [->|Hc].
    + simpl in Hr. destruct n as [m [o|ch]] eqn:En; simpl in Hr; [done|]. apply (Hall (spcs ++ sname :: r)).
      rewrite (find_directory_app _ _ _ _ Hs). simpl. rewrite Hn. exact Hr.
    + apply (Hall1 (dpcs ++ c :: r)). by rewrite (find_directory_app _ _ _ _ Hf1).
Qed.

End Move.
(** ** The namespace after a move *)

Lemma with_path_cp p k i g : FsCheckpoint.with_path (cp_of p i) k g = cp_of k (mkMeta (kind i.1) (logical_size i.1) g (executable i.1), i.2).
Proof. by destruct i as [m [o|]]. Qed.

Lemma with_path_same p k i : FsCheckpoint.with_path (cp_of p i) k (FsCheckpoint.node_generation (cp_of p i)) = cp_of k i.
Proof. by destruct i as [m [o|]]. Qed.

Lemma view_get_path d k : dir_wf d -> k <> [] -> BTree.get (str_home :: k) (home_view d) = cp_of (str_home :: k) <$> (shallow <$> node_at d k).
Proof. intros Hd Hk. pose proof (flat_dir_get [str_home] d k Hd) as E. rewrite decide_False in E by done. exact E. Qed.

Lemma view_moved d d2 src dst n g : dir_wf d -> dir_wf d2 -> node_at d src = Some n -> src <> [] -> dst <> [] ->
  (forall k, shallow <$> node_at d2 k = if decide (dst `prefix_of` k) then shallow <$> at_path (with_node_generation g n) (drop (length dst) k)
     else if decide (src `prefix_of` k) then None else shallow <$> node_at d k) ->
  forall k, BTree.get k (home_view d2) = Replay.moved (str_home :: src) (str_home :: dst) g (home_view d) k.
Proof.
  intros Hd Hd2 Hn Hs Ht Hsh k. unfold Replay.moved. destruct (decide ([str_home] `prefix_of` k)) as [[j ->]|Hp].
  2:{ assert (Hcons : forall x, ~ (str_home :: x) `prefix_of` k).
      { intros x [z ->]. apply Hp. by exists (x ++ z). }
      rewrite !decide_False by apply Hcons. unfold home_view. by rewrite !flat_dir_get_other. }
  cbn [app length drop]. destruct (decide (j = [])) as [->|Hj].
  { rewrite !decide_False.
    - unfold home_view. pose proof (flat_dir_get [str_home] d2 [] Hd2) as E2. pose proof (flat_dir_get [str_home] d [] Hd) as E. simpl in *. congruence.
    - by intros ?%prefix_cons_inv_2%prefix_nil_inv.
    - by intros ?%prefix_cons_inv_2%prefix_nil_inv. }
  rewrite (view_get_path d2) by done. rewrite Hsh. destruct (decide (dst `prefix_of` j)) as [[r ->]|Hdj].
  - rewrite decide_True by (by apply prefix_cons, prefix_app_r). rewrite drop_app_length, view_get_path by (by destruct src).
    unfold node_at. rewrite at_path_app. fold (node_at d src). rewrite Hn. cbn [mbind option_bind]. rewrite with_generation_at.
    destruct (decide (r = [])) as [->|Hr].
    + cbn [fmap option_fmap option_map at_path]. rewrite decide_True by (by rewrite app_nil_r). by rewrite with_path_cp.
    + destruct (at_path n r) as [x|]; [|done]. cbn [fmap option_fmap option_map]. rewrite decide_False; [by rewrite with_path_same|].
      intros [= E]. apply Hr. rewrite <- (app_nil_r src) in E at 2. by apply app_inv_head in E.
  - assert (Hdj' : ~ (str_home :: dst) `prefix_of` str_home :: j) by (intros Hq; apply prefix_cons_inv_2 in Hq; done).
    destruct (decide (src `prefix_of` j)) as [Hsj|Hsj].
    + rewrite (decide_False _ _ Hdj'), decide_True by (by apply prefix_cons). done.
    + rewrite (decide_False _ _ Hdj'), decide_False by (intros Hq; apply prefix_cons_inv_2 in Hq; done). by rewrite view_get_path.
Qed.

Lemma kind_directory n p : node_wf n -> FsCheckpoint.is_directory (cp_of p (shallow n)) = bool_decide (kind (metadata n) = KDirectory).
Proof. intros H. inversion H; subst; simpl; rewrite ?H0; done. Qed.

Lemma check_replace_ok replace n e u : node_wf n -> node_wf e -> check_replace replace n e = Ok u ->
  replace = true /\ leaf e = true /\ forall p, FsCheckpoint.is_directory (cp_of p (shallow e)) = FsCheckpoint.is_directory (cp_of p (shallow n)).
Proof.
  intros Hn He H. unfold check_replace in H. destruct replace; [|done]. simpl in H. unfold leaf. destruct (is_nonempty_directory e); [done|].
  destruct (bool_decide _) eqn:E; [|done]. bsimp. split_and!; [done|done|]. intros p. by rewrite !kind_directory, E.
Qed.

Lemma check_replace_no_panic replace n e : check_replace replace n e <> Panic.
Proof. unfold check_replace. destruct (negb replace); [done|]. destruct (is_nonempty_directory e); [done|]. by destruct (negb _). Qed.

Section Digest.
Context (sha256 : list Z -> Digest).

(** What a successful move does. *)
Record rename_done (s : Sys) (source destination : VirtualPath) (replace : bool) (s' : Sys) : Prop := {
  rd_descendants : home_descendant source = true /\ home_descendant destination = true /\ source <> destination;
  rd_outside : is_within destination source = false;
  rd_parent : Recovery.require_parent (home_view (home (fs s))) destination = Ok tt;
  rd_source : exists n, BTree.get source (home_view (home (fs s))) = Some n /\
    forall e, BTree.get destination (home_view (home (fs s))) = Some e ->
      replace = true /\ FsCheckpoint.is_directory e = FsCheckpoint.is_directory n /\
      Recovery.has_descendants (home_view (home (fs s))) destination = false;
  rd_commit : exists d objs, committed sha256 s None (Rename source destination replace) d objs s' /\ shrinks (objects (fs s)) objs /\
    forall k, BTree.get k (home_view d) = Replay.moved source destination (generation (fs s) + 1) (home_view (home (fs s))) k }.

(** Discarding the entry a move replaces. *)
Lemma drop_entry_ok f pcs name dd : fs_ok f -> find_directory (home f) pcs = Ok dd -> (forall e, BTree.get name dd = Some e -> leaf e = true) ->
  exists objs, (forall s, objects (fs s) = objects f -> quota (fs s) = quota f ->
      (match BTree.get name dd with
       | Some e =>
           _ ← match object_id_of e with
               | Some o => update_fs (fun f => objs ← store_remove o (objects f); Ok (set_objects objs f))
               | None => mret tt
               end;
           release_quota (logical_size (metadata e)) 1
       | None => mret tt
       end) s = (Ok tt, mkSys (set_quota (mkLedger (maximum_logical_bytes (limits f)) (maximum_nodes (limits f))
          (dsum w_bytes (home f) - osum w_bytes (BTree.get name dd)) (2 + dsum w_nodes (home f) - osum w_nodes (BTree.get name dd)))
          (set_objects objs (fs s))) (gate s))) /\
    store_ok objs /\ (forall o, refs o objs = refs o (objects f) - osum (w_refs o) (BTree.get name dd)) /\ shrinks (objects f) objs.
Proof.
  intros Hok Hf Hleaf. pose proof (find_directory_wf _ _ _ (f_home _ Hok) Hf) as Hdd.
  destruct (BTree.get name dd) as [e|] eqn:Eg; cbn [osum].
  - destruct (leaf_sums e (dir_wf_get _ _ _ Hdd Eg) (Hleaf e eq_refl)) as (N1 & N2 & N3).
    assert (Hat : node_at (home f) (pcs ++ [name]) = Some e) by (rewrite (node_at_under _ _ _ _ _ Hf), Eg; done).
    assert (Hne : pcs ++ [name] <> []) by (by destruct pcs).
    pose proof (dsum_at w_bytes _ _ _ (f_home _ Hok) w_bytes_nonneg Hne Hat). pose proof (dsum_at w_nodes _ _ _ (f_home _ Hok) w_nodes_nonneg Hne Hat).
    destruct (drop_object_ok (objects f) e (f_store _ Hok)) as (objs & Hdrop & Hs & Hrefs & Hshrink).
    { intros o Ho. by apply (file_stored f (home f) (pcs ++ [name]) e); [|left| | |]. }
    exists objs. split_and!; [|done|intros o; by rewrite Hrefs, N3|done]. intros s Eo Eq. run_ok ltac:(by apply Hdrop).
    unfold release_quota, update_fs. cbn [fs gate quota set_objects]. rewrite Eq, (f_quota _ Hok). unfold ledger. rewrite release_ok by lia. by rewrite N1, N2.
  - exists (objects f). split_and!; [|apply Hok|intros o; lia|intros o st H; by exists st]. intros s Eo Eq. rewrite !Z.sub_0_r.
    rewrite (f_quota _ Hok) in Eq. unfold ledger in Eq. rewrite <- Eq, <- Eo. by destruct s as [[] ?].
Qed.

(** The commit phase. *)
Lemma move_ok s spcs sname dpcs dname sdd ddd n replace prepared q q' :
  let g := generation (fs s) + 1 in
  let source := str_home :: spcs ++ [sname] in
  let destination := str_home :: dpcs ++ [dname] in
  let existing := BTree.get dname ddd in
  fs_ok (fs s) -> find_directory (home (fs s)) spcs = Ok sdd -> BTree.get sname sdd = Some n ->
  find_directory (home (fs s)) dpcs = Ok ddd -> (forall e, existing = Some e -> leaf e = true) ->
  ~ (spcs ++ [sname]) `prefix_of` (dpcs ++ [dname]) -> (existing = None -> size ddd < maximum_directory_entries (limits (fs s))) ->
  g <= u64_max -> publishes sha256 (fs s) g None (Rename source destination replace) (gate s) q' ->
  (forall f, publish prepared (mkSys f q) = (Ok tt, mkSys f q')) ->
  exists d objs s', (
    node ← or_drop prepared (take_node sname spcs MHome);
    _ ← update_home (fun d => Tree.expect_ok (update_directory (fun dd =>
          BTree.insert dname (with_node_generation g node) (BTree.remove dname dd)) d dpcs)) MHome;
    _ ← match existing with
        | Some e =>
            _ ← match object_id_of e with
                | Some o => update_fs (fun f => objs ← store_remove o (objects f); Ok (set_objects objs f))
                | None => mret tt
                end;
            release_quota (logical_size (metadata e)) 1
        | None => mret tt
        end;
    _ ← st_modify (with_fs (set_generation g));
    publish prepared) (mkSys (fs s) q) = (Ok tt, s') /\
    committed sha256 s None (Rename source destination replace) d objs s' /\ shrinks (objects (fs s)) objs /\
    forall k, BTree.get k (home_view d) = Replay.moved source destination g (home_view (home (fs s))) k.
Proof.
  intros g source destination existing Hok Hs Hn Ht Hleaf Hout Hroom Hg Hpub Hrun. pose proof (f_home _ Hok) as Hd.
  assert (Hne : spcs ++ [sname] <> dpcs ++ [dname]) by (intros E; apply Hout; by rewrite E).
  destruct (update_directory_ok (BTree.remove sname) _ _ _ Hs) as [d1 H1].
  destruct (d1_directory _ _ _ _ _ _ _ _ Hd Hs Hn Ht Hleaf Hout Hne d1 H1) as (ddd1 & Hf1 & Hg1 & _).
  destruct (update_directory_ok (fun dd => BTree.insert dname (with_node_generation g n) (BTree.remove dname dd)) _ _ _ Hf1) as [d2 H2].
  pose proof (d2_wf _ _ _ _ _ _ _ g Hd Hs Hn d1 H1 d2 H2) as Hw2.
  assert (Hsum : forall w, (forall m o, w (mkMeta (kind m) (logical_size m) g (executable m)) o = w m o) -> dsum w d2 = dsum w (home (fs s)) - osum w existing)
    by (by intros w Hw; apply (d2_sum (home (fs s)) sdd ddd spcs dpcs sname dname n g Hd Hs Hn Ht Hleaf Hout Hne d1 H1 d2 H2)).
  destruct (drop_entry_ok (fs s) dpcs dname ddd Hok Ht Hleaf) as (objs & Hdrop & Hstore & Hrefs & Hshrink). fold existing in Hdrop, Hrefs.
  assert (Hpos : forall w, (forall m o, 0 <= w m o) -> 0 <= osum w existing).
  { intros w Hw. destruct existing as [e|]; [|done]. pose proof (dsum_nonneg w [(dname, e)] Hw) as H. unfold dsum in H. simpl in H. simpl. lia. }
  assert (Hnext : fs_ok (next (fs s) d2 objs)).
  { apply next_ok; try done.
    - destruct (f_within _ Hok). split; [rewrite Hsum by done; pose proof (Hpos w_bytes w_bytes_nonneg); lia|
        rewrite Hsum by done; pose proof (Hpos w_nodes w_nodes_nonneg); lia|].
      by apply (d2_entries (limits (fs s)) (home (fs s)) sdd ddd spcs dpcs sname dname n g Hd Hs Hn Ht Hleaf Hout Hne d1 H1 d2 H2).
    - intros o. rewrite Hrefs, Hsum, (f_refs _ Hok) by done. lia. }
  exists d2, objs, (mkSys (next (fs s) d2 objs) q'). split_and!; [|by apply committed_next|done|].
  - run_ok ltac:(apply (or_drop_ok prepared (take_node sname spcs MHome) _ n (mkSys (set_home d1 (fs s)) q));
      unfold take_node; erewrite st_bind_ok by (unfold read_fs, st_read; cbn [directory fs]; rewrite Hs; reflexivity);
      erewrite st_bind_ok by (unfold st_lift; rewrite Hn; reflexivity); erewrite st_bind_ok by (apply update_home_ok; exact H1); reflexivity).
    run_ok ltac:(apply (update_home_ok _ _ d2); cbn [fs home set_home]; rewrite H2; reflexivity). run_ok ltac:(by apply Hdrop). run_ok ltac:(reflexivity).
    unfold with_fs. cbn [fs gate]. rewrite Hrun. do 2 f_equal. unfold next, ledger. rewrite !Hsum by done.
    unfold set_generation, set_quota, set_objects, set_home. cbn [fs rom home handles objects quota limits generation persistence]. f_equal. f_equal; lia.
  - apply (view_moved _ _ _ _ n); [done|done|by eapply source_at|by destruct spcs|by destruct dpcs|].
    apply (d2_shallow (home (fs s)) sdd ddd spcs dpcs sname dname n g Hd Hs Hn Ht Hleaf Hout Hne d1 H1 d2 H2).
Qed.

Lemma rename_ok c source destination replace s : fs_ok (fs s) -> gate_ok (gate s) ->
  atomic (rename sha256 c source destination replace) s (fun _ s' =>
    permits c source RENAME = true /\ permits c destination RENAME = true /\
    (source = destination /\ s' = s \/ rename_done s source destination replace s')).
Proof.
  intros Hok Hq. unfold rename. apply atomic_lift; [apply mutable_target_no_panic|]. intros [m1 cs1] H1. apply mutable_target_ok in H1 as (P1 & -> & ->).
  apply atomic_lift; [apply mutable_target_no_panic|]. intros [m2 cs2] H2. apply mutable_target_ok in H2 as (P2 & -> & ->).
  rewrite bool_decide_eq_true_2 by done. cbn [negb]. destruct (bool_decide _) eqn:Esame; bsimp; [by apply atomic_ret; auto|].
  destruct (is_within _ _) eqn:Ewithin; [done|]. apply atomic_lift; [apply split_name_no_panic|]. intros [sname spcs] Hsn. apply split_name_ok in Hsn as ->.
  apply atomic_lift; [apply split_name_no_panic|]. intros [dname dpcs] Hdn. apply split_name_ok in Hdn as ->.
  apply atomic_read; [apply find_directory_no_panic|]. intros sdd Hs. simpl in Hs. apply atomic_lift; [by destruct (BTree.get sname sdd)|]. intros n Hn%ok_or_ok.
  apply atomic_read; [apply find_directory_no_panic|]. intros ddd Ht. simpl in Ht.
  pose proof (find_directory_wf _ _ _ (f_home _ Hok) Hs) as Hsdd. pose proof (find_directory_wf _ _ _ (f_home _ Hok) Ht) as Hddd.
  apply (atomic_check _ _ _ (fun _ => match BTree.get dname ddd with
    | Some e => replace = true /\ leaf e = true /\ forall p, FsCheckpoint.is_directory (cp_of p (shallow e)) = FsCheckpoint.is_directory (cp_of p (shallow n))
    | None => size ddd < maximum_directory_entries (limits (fs s)) end)).
  { destruct (BTree.get dname ddd) as [e|] eqn:Ee.
    - unfold atomic, st_lift. destruct (check_replace _ _ _) as [u| |] eqn:E; [|done|by apply check_replace_no_panic in E].
      split; [done|]. eapply check_replace_ok; [eapply dir_wf_get; [exact Hsdd|exact Hn]|eapply dir_wf_get; [exact Hddd|exact Ee]|exact E].
    - unfold atomic, read_fs, st_read. destruct (check_directory_entry_limit _ _) eqn:E; [by apply check_entry_ok in E|done|by apply check_entry_no_panic in E]. }
  intros _ Hchecks. apply atomic_read; [apply next_generation_no_panic|]. intros g Hg. apply next_generation_ok in Hg as [-> Hmax].
  pose proof (f_generation _ Hok). apply atomic_prepare; [done|lia|]. intros prepared q q' Hpub Hrun.
  assert (Hout : ~ (spcs ++ [sname]) `prefix_of` (dpcs ++ [dname])).
  { intros Hp. apply (prefix_cons str_home) in Hp. unfold is_within in Ewithin. apply starts_with_prefix in Hp. congruence. }
  destruct (move_ok s spcs sname dpcs dname sdd ddd n replace prepared q q') as (d & objs & s' & Hend & Hcommit); try done.
  { intros e Ee. rewrite Ee in Hchecks. apply Hchecks. }
  { intros Ee. by rewrite Ee in Hchecks. }
  exists tt, s'. split; [exact Hend|]. split; [done|]. split; [done|]. right.
  split; [|done|by eapply require_parent_ok; [apply Hok|]| |by exists d, objs].
  - split_and!; [apply home_descendant_entry|apply home_descendant_entry|done].
  - exists (cp_of (str_home :: spcs ++ [sname]) (shallow n)). split; [rewrite (view_get _ _ _ _ (f_home _ Hok) Hs), Hn; done|].
    rewrite (view_get _ _ _ _ (f_home _ Hok) Ht). intros e0 (e & Ee & ->)%fmap_Some. rewrite Ee in Hchecks. destruct Hchecks as (? & Hl & Hk).
    split_and!; [done| |].
    + specialize (Hk []). by destruct e as [? []], n as [? []].
    + apply (leaf_no_descendants _ _ _ e); [apply Hok| |done]. rewrite (node_at_under _ _ _ _ _ Ht), Ee. done.
Qed.

End Digest.
End TreeRename.
