(* ===== verification/TreeSpec.v ===== *)
(** What a computer's filesystem promises: an abstract namespace of directories and
    files with their bytes, what each request means there, and the proof that the
    tree, the content-addressed store and the ledger implement it. *)

From S2P Require Import Prelude Words Unicode Path BTree FileHandle Codec Journal FsCheckpoint Recovery Replay Gate Rom Tree TreeInv TreeOps TreeRename.

Module TreeSpec.
Import FsError FsLimits Path PathProps Capability Quota Codec CodecProps Journal Tree TreeView TreeInv TreeOps TreeRename.

(** ** The abstract filesystem *)

Inductive ANode := ADirectory | AFile (bytes : list Z) (executable : bool).

Definition AState : Type := VirtualPath -> option ANode.

Definition same (a b : AState) : Prop := forall k, a k = b k.
Definition put (p : VirtualPath) (n : ANode) (a : AState) : AState := fun k => if decide (k = p) then Some n else a k.
Definition del (p : VirtualPath) (a : AState) : AState := fun k => if decide (k = p) then None else a k.
Definition move (s d : VirtualPath) (a : AState) : AState := fun k =>
  if decide (d `prefix_of` k) then a (s ++ drop (length d) k) else if decide (s `prefix_of` k) then None else a k.

Definition directory_of (n : ANode) : bool := match n with ADirectory => true | AFile _ _ => false end.

(** The directory an entry sits in exists. *)
Definition has_parent (a : AState) (p : VirtualPath) : Prop := exists q c, p = q ++ [c] /\ (q = [str_home] \/ a q = Some ADirectory).
Definition is_empty (a : AState) (p : VirtualPath) : Prop := forall k, p `prefix_of` k -> k <> p -> a k = None.

(** [data] written over [old] at [offset], past its end if need be. *)
Definition overwrite (offset : Z) (data old : list Z) : list Z :=
  resize (Z.to_nat offset) 0 old ++ data ++ drop (Z.to_nat offset + length data) old.

Inductive Request :=
| RCreate (c : FileCapability) (p : VirtualPath)
| RPut (c : FileCapability) (p : VirtualPath) (bs : list Z) (x : bool)
| RReplace (c : FileCapability) (p : VirtualPath) (bs : list Z) (expected : ExecutableRevision) (x : bool)
| RInstallRom (c : FileCapability) (source destination : VirtualPath)
| ROpen (c : FileCapability) (p : VirtualPath) (m : Handle.OpenMode)
| RClose (h : Handle.FileHandle)
| RWrite (h : Handle.FileHandle) (offset : Z) (bs : list Z)
| RTruncate (h : Handle.FileHandle) (n : Z)
| RRemove (c : FileCapability) (p : VirtualPath)
| RRename (c : FileCapability) (source destination : VirtualPath) (replace : bool).

Definition put_spec (c : FileCapability) (l : FileSystemLimits) (p : VirtualPath) (bs : list Z) (x : bool) (a a' : AState) : Prop :=
  permits c p (match a p with Some _ => WRITE | None => bitor CREATE WRITE end) = true /\ a p <> Some ADirectory /\
  has_parent a p /\ size bs <= maximum_file_bytes l /\ same a' (put p (AFile bs x) a).

(** What a request that succeeds has found and done, with the handles open before. *)
Definition spec (t : Handle.HandleTable) (l : FileSystemLimits) (r : Request) (a a' : AState) : Prop :=
  match r with
  | RCreate c p => permits c p CREATE = true /\ a p = None /\ has_parent a p /\ same a' (put p ADirectory a)
  | RPut c p bs x | RReplace c p bs _ x => put_spec c l p bs x a a'
  | RInstallRom c s d => exists bs, head s = Some str_rom /\ a s = Some (AFile bs true) /\ a d = None /\ put_spec c l d bs true a a'
  | ROpen c p m => (exists bs x, a p = Some (AFile bs x)) /\
      (let r := if Handle.readable m then bitor INSPECT READ else INSPECT in permits c p (if Handle.writable m then bitor r WRITE else r) = true) /\ same a' a
  | RClose _ => same a' a
  | RWrite h offset bs => exists p m, Handle.get h t = Ok (Handle.mkOpen p m) /\ Handle.writable m = true /\
      let data := take (Z.to_nat (maximum_io_bytes l)) bs in
      (data = [] /\ same a' a \/
       exists old x, a p = Some (AFile old x) /\ size (overwrite offset data old) <= maximum_file_bytes l /\
         same a' (put p (AFile (overwrite offset data old) x) a))
  | RTruncate h n => exists p m old x, Handle.get h t = Ok (Handle.mkOpen p m) /\ Handle.writable m = true /\ n <= maximum_file_bytes l /\
      a p = Some (AFile old x) /\ same a' (put p (AFile (resize (Z.to_nat n) 0 old) x) a)
  | RRemove c p => permits c p DELETE = true /\ a p <> None /\ is_empty a p /\ same a' (del p a)
  | RRename c s d replace => permits c s RENAME = true /\ permits c d RENAME = true /\
      (s = d /\ same a' a \/
       exists n, a s = Some n /\ ~ s `prefix_of` d /\ has_parent a d /\
         (forall e, a d = Some e -> replace = true /\ directory_of e = directory_of n /\ is_empty a d) /\ same a' (move s d a))
  end.

(** ** The abstraction *)

(** A path names a node of the home tree or of the ROM tree. *)
Definition lookup (f : ComputerFileSystem) (k : VirtualPath) : option FsCheckpoint.CheckpointNode :=
  match BTree.get k (home_view (home f)) with
  | Some v => Some v
  | None => BTree.get k (flat_dir [str_rom] (rom f))
  end.

Definition abs_node (objs : list (list Z * StoredObject)) (v : FsCheckpoint.CheckpointNode) : option ANode :=
  match v with
  | FsCheckpoint.Directory _ _ => Some ADirectory
  | FsCheckpoint.File _ _ _ o x => (fun st => AFile (stored_bytes st) x) <$> BTree.get o objs
  end.

Definition abs (f : ComputerFileSystem) : AState := fun k => v ← lookup f k; abs_node (objects f) v.

Lemma view_prefix base d k v : dir_wf d -> BTree.get k (flat_dir base d) = Some v -> exists j n, k = base ++ j /\ j <> [] /\ node_at d j = Some n /\ v = cp_of k (shallow n).
Proof.
  intros Hd H. destruct (decide (base `prefix_of` k)) as [[j ->]|Hp]; [|by rewrite flat_dir_get_other in H].
  rewrite flat_dir_get in H by done. destruct (decide (j = [])) as [?|Hj]; [done|]. destruct (node_at d j) as [n|] eqn:E; [|done]. injection H as <-. by exists j, n.
Qed.

Lemma lookup_some f k v : fs_ok f -> lookup f k = Some v ->
  exists mount j n, k = match mount with MRom => str_rom | MHome => str_home end :: j /\ j <> [] /\
    node_at (directory mount f) j = Some n /\ v = cp_of k (shallow n).
Proof.
  intros Hok H. unfold lookup in H. destruct (BTree.get k (home_view (home f))) as [w|] eqn:E.
  - injection H as <-. apply view_prefix in E as (j & n & -> & Hj & Hn & ->); [|apply Hok]. by exists MHome, j, n.
  - apply view_prefix in H as (j & n & -> & Hj & Hn & ->); [|apply Hok]. by exists MRom, j, n.
Qed.

Lemma lookup_at f mount j n : fs_ok f -> j <> [] -> node_at (directory mount f) j = Some n ->
  let k := match mount with MRom => str_rom | MHome => str_home end :: j in lookup f k = Some (cp_of k (shallow n)).
Proof.
  intros Hok Hj Hn k. unfold lookup, k. destruct mount.
  - unfold home_view. rewrite flat_dir_get_other; [|apply Hok|by intros [z E]]. pose proof (flat_dir_get [str_rom] (rom f) j (f_rom _ Hok)) as E.
    rewrite decide_False in E by done. simpl in Hn. rewrite Hn in E. exact E.
  - rewrite view_get_path by (done || apply Hok). simpl in Hn. by rewrite Hn.
Qed.

(** The object of a file is stored. *)
Lemma lookup_stored f k p g n o x : fs_ok f -> lookup f k = Some (FsCheckpoint.File p g n o x) -> exists st, BTree.get o (objects f) = Some st.
Proof.
  intros Hok H. apply lookup_some in H as (mount & j & [m [o'|ch]] & -> & Hj & Hn & E); [|done|done]. injection E as _ _ _ -> _.
  assert (Hr : 1 <= refs o' (objects f)).
  { apply (file_stored f (directory mount f) j (mkNode m (CFile o'))); try done. destruct mount; [by right|by left]. }
  apply refs_pos in Hr as (st & Hst & _); [by exists st|apply Hok].
Qed.

(** A stored object never changes its bytes. *)
Definition keeps (s s' : list (list Z * StoredObject)) : Prop :=
  forall o st st', BTree.get o s = Some st -> BTree.get o s' = Some st' -> stored_bytes st' = stored_bytes st.

Lemma grows_keeps s s' o bs : grows s s' o bs -> keeps s s'.
Proof. intros H o' st st' E E'. specialize (H _ _ E'). by rewrite E in H. Qed.

Lemma shrinks_keeps s s' : shrinks s s' -> keeps s s'.
Proof. intros H o st st' E E'. apply H in E' as (st0 & E0 & ->). congruence. Qed.

Lemma keeps_refl s : keeps s s.
Proof. intros o st st' E E'. congruence. Qed.

Lemma abs_keeps f f' k k' v v' : fs_ok f -> fs_ok f' -> keeps (objects f) (objects f') -> lookup f k = Some v -> lookup f' k' = Some v' ->
  (exists p g, v' = FsCheckpoint.with_path v p g) -> abs_node (objects f') v' = abs_node (objects f) v.
Proof.
  intros Hok Hok' Hk Hv Hv' (p & g & ->). destruct v as [q h|q h n o x]; [done|]. simpl in *.
  destruct (lookup_stored _ _ _ _ _ _ _ Hok Hv) as [st E]. destruct (lookup_stored _ _ _ _ _ _ _ Hok' Hv') as [st' E'].
  rewrite E, E'. simpl. by rewrite (Hk _ _ _ E E').
Qed.

Lemma with_path_id v : exists p g, v = FsCheckpoint.with_path v p g.
Proof. destruct v as [q h|q h n o x]; by exists q, h. Qed.

Lemma abs_none f k : fs_ok f -> abs f k = None <-> lookup f k = None.
Proof.
  intros Hok. unfold abs. destruct (lookup f k) as [v|] eqn:E; [|done]. split; [|done]. destruct v as [p g|p g n o x]; [done|].
  destruct (lookup_stored _ _ _ _ _ _ _ Hok E) as [st Hst]. simpl. by rewrite Hst.
Qed.

Lemma abs_directory f k v n : fs_ok f -> lookup f k = Some v -> abs f k = Some n -> directory_of n = FsCheckpoint.is_directory v.
Proof.
  intros Hok E. unfold abs. rewrite E. destruct v as [p g|p g z o x]; simpl; [by intros [= <-]|]. by destruct (BTree.get o (objects f)); [intros [= <-]|].
Qed.

(** ** Guards *)

Lemma fmt_home q : fmt q = FsCheckpoint.home_text -> q = [str_home].
Proof.
  rewrite fmt_join. unfold FsCheckpoint.home_text. intros E. assert (Ej : join q = str_home) by congruence. revert Ej. clear E.
  destruct q as [|c [|c' q]]; intros E; [done|simpl in E; rewrite app_nil_r in E; by subst|].
  rewrite join_cons in E by done. assert (H : slash ∈ str_home) by (rewrite <- E; apply elem_of_app; right; left).
  apply (bool_decide_eq_true_2 (slash ∈ str_home)) in H. vm_compute in H. done.
Qed.

Lemma parent_snoc p q : parent p = Some q -> exists c, p = q ++ [c].
Proof.
  unfold parent. destruct (decide (p = [])) as [->|Hp]; [done|]. rewrite bool_decide_eq_false_2 by done. intros [= <-].
  destruct p as [|c p] using rev_ind; [done|]. exists c. rewrite length_app. simpl. rewrite Nat.add_sub, take_app_length. done.
Qed.

Lemma lookup_home f k v : BTree.get k (home_view (home f)) = Some v -> lookup f k = Some v.
Proof. unfold lookup. by intros ->. Qed.

Lemma parent_found f p : Recovery.require_parent (home_view (home f)) p = Ok tt -> has_parent (abs f) p.
Proof.
  intros H. unfold Recovery.require_parent in H. apply outcome_bind_inv in H as (q & Hq & H). apply ok_or_ok in Hq.
  apply parent_snoc in Hq as [c ->]. exists q, c. split; [done|]. destruct (bool_decide _) eqn:E; bsimp; [left; by apply fmt_home|].
  destruct (BTree.get q _) as [v|] eqn:Ev; [|done]. right. unfold abs. rewrite (lookup_home _ _ _ Ev). by destruct v.
Qed.

Lemma home_descendant_inv p : home_descendant p = true -> exists c j, p = str_home :: c :: j.
Proof. destruct p as [|x [|c j]]; simpl; [done|done|]. intros ->%bool_decide_eq_true. by exists c, j. Qed.

Lemma lookup_under_home f p k : fs_ok f -> home_descendant p = true -> p `prefix_of` k -> lookup f k = BTree.get k (home_view (home f)).
Proof.
  intros Hok (c & j & ->)%home_descendant_inv [z ->]. unfold lookup. destruct (BTree.get _ (home_view _)); [done|].
  apply flat_dir_get_other; [apply Hok|]. by intros [y E].
Qed.

Lemma empty_found f p : fs_ok f -> home_descendant p = true -> Recovery.has_descendants (home_view (home f)) p = false -> is_empty (abs f) p.
Proof.
  intros Hok Hp H k Hk Hne. apply abs_none; [done|]. rewrite (lookup_under_home _ p) by done.
  destruct (BTree.get k (home_view (home f))) as [v|] eqn:E; [|done]. exfalso. apply not_true_iff_false in H. apply H.
  apply existsb_exists. exists k. split; [apply list_elem_of_In, BTree.get_keys; [apply flat_dir_sorted, Hok|by eexists]|].
  rewrite bool_decide_eq_false_2 by done. by apply starts_with_prefix.
Qed.

(** A file of the home tree has no descendants. *)
Lemma file_empty f p g n o x : fs_ok f -> home_descendant p = true -> BTree.get p (home_view (home f)) = Some (FsCheckpoint.File p g n o x) -> is_empty (abs f) p.
Proof.
  intros Hok Hp H. apply view_prefix in H as (j & m & -> & Hj & Hm & E); [|apply Hok]. apply empty_found; [done|done|].
  destruct j as [|name pcs] using rev_ind; [done|]. apply (leaf_no_descendants _ _ _ m); [apply Hok|done|]. by destruct m as [? [?|?]].
Qed.

(** ** The effect of the mutations *)

Section Digest.
Context (sha256 : list Z -> Digest).

(** No other bytes are stored under the digest of the bytes to be stored. *)
Definition collision_free (f : ComputerFileSystem) (bs : list Z) : Prop :=
  forall st, BTree.get (sha256 bs) (objects f) = Some st -> stored_bytes st = bs.

Section Put.
Context (s : Sys) (p : VirtualPath) (d : list (list Z * Node)) (objs : list (list Z * StoredObject)) (s' : Sys).
Context (object : option (Digest * list Z)) (op : JournalOperation).
Context (Hok : fs_ok (fs s)) (Hc : committed sha256 s object op d objs s') (Hkeep : keeps (objects (fs s)) objs).

Lemma lookup_next k : lookup (fs s') k = match BTree.get k (home_view d) with Some v => Some v | None => BTree.get k (flat_dir [str_rom] (rom (fs s))) end.
Proof. unfold lookup. by rewrite (c_fs _ _ _ _ _ _ _ Hc). Qed.

Lemma objects_next : objects (fs s') = objs.
Proof. by rewrite (c_fs _ _ _ _ _ _ _ Hc). Qed.

(** An entry that is as it was. *)
Lemma abs_unchanged k : BTree.get k (home_view d) = BTree.get k (home_view (home (fs s))) -> abs (fs s') k = abs (fs s) k.
Proof.
  intros E. assert (El : lookup (fs s') k = lookup (fs s) k) by (rewrite lookup_next, E; done). unfold abs. rewrite El.
  destruct (lookup (fs s) k) as [v|] eqn:Ev; [|done]. cbn [mbind option_bind].
  apply (abs_keeps (fs s) (fs s') k k); [done|apply Hc|by rewrite objects_next|done|by rewrite El|apply with_path_id].
Qed.

Lemma abs_put v : home_view d = BTree.insert p v (home_view (home (fs s))) ->
  forall n, abs_node objs v = Some n -> same (abs (fs s')) (put p n (abs (fs s))).
Proof.
  intros E n Hn k. unfold put. pose proof (flat_dir_sorted [str_home] _ (f_home _ Hok)) as Hs. destruct (decide (k = p)) as [->|Hne].
  - unfold abs. rewrite lookup_next, E, objects_next, BTree.get_insert by done. by rewrite decide_True.
  - apply abs_unchanged. rewrite E, BTree.get_insert by done. by rewrite decide_False.
Qed.

Lemma abs_del : home_descendant p = true -> home_view d = BTree.remove p (home_view (home (fs s))) -> same (abs (fs s')) (del p (abs (fs s))).
Proof.
  intros Hp E k. unfold del. pose proof (flat_dir_sorted [str_home] _ (f_home _ Hok)) as Hs. destruct (decide (k = p)) as [->|Hne].
  - apply abs_none; [apply Hc|]. rewrite lookup_next, E, BTree.get_remove by done. rewrite decide_True by done.
    apply home_descendant_inv in Hp as (c & j & ->). apply flat_dir_get_other; [apply Hok|]. by intros [y Ey].
  - apply abs_unchanged. rewrite E, BTree.get_remove by done. by rewrite decide_False.
Qed.

Lemma abs_move source destination g : home_descendant source = true -> home_descendant destination = true ->
  (forall k, BTree.get k (home_view d) = Replay.moved source destination g (home_view (home (fs s))) k) ->
  same (abs (fs s')) (move source destination (abs (fs s))).
Proof.
  intros Hsrc Hdst E k. specialize (E k). unfold Replay.moved in E. unfold move. destruct (decide (destination `prefix_of` k)) as [Hp|Hp].
  - assert (El : lookup (fs s') k = BTree.get k (home_view d)).
    { rewrite (lookup_under_home _ destination) by (done || apply Hc). by rewrite (c_fs _ _ _ _ _ _ _ Hc). }
    set (q := source ++ _) in *. assert (Eq : lookup (fs s) q = BTree.get q (home_view (home (fs s)))).
    { apply (lookup_under_home _ source); [done|done|]. by apply prefix_app_r. }
    unfold abs. rewrite El, Eq, E. destruct (BTree.get q _) as [v|] eqn:Ev; [|done]. cbn [fmap option_fmap option_map mbind option_bind].
    apply (abs_keeps (fs s) (fs s') q k); [done|apply Hc|by rewrite objects_next|done|by rewrite El, E|by eexists _, _].
  - destruct (decide (source `prefix_of` k)) as [Hq|Hq]; [|by apply abs_unchanged].
    apply abs_none; [apply Hc|]. rewrite (lookup_under_home _ source) by (done || apply Hc). by rewrite (c_fs _ _ _ _ _ _ _ Hc).
Qed.

End Put.

Lemma committed_gate s object op d objs s' : gate_ok (gate s) -> committed sha256 s object op d objs s' -> gate_ok (gate s').
Proof. intros Hq Hc. eapply publishes_ok; [exact Hq|apply Hc]. Qed.

(** The size of a file is the number of its bytes. *)
Definition sized (objs : list (list Z * StoredObject)) (v : FsCheckpoint.CheckpointNode) : Prop :=
  match v with
  | FsCheckpoint.Directory _ _ => True
  | FsCheckpoint.File _ _ n o _ => forall st, BTree.get o objs = Some st -> size (stored_bytes st) = n
  end.
Definition sizes_ok (f : ComputerFileSystem) : Prop := forall k v, lookup f k = Some v -> sized (objects f) v.

(** What no request changes or breaks. *)
Definition frame (s s' : Sys) : Prop :=
  fs_ok (fs s') /\ gate_ok (gate s') /\ rom (fs s') = rom (fs s) /\ limits (fs s') = limits (fs s) /\ (sizes_ok (fs s) -> sizes_ok (fs s')).

(** An entry after a mutation is sized, or stems from one before it. *)
Definition stems (d0 d : list (list Z * Node)) (objs : list (list Z * StoredObject)) : Prop :=
  forall k v, BTree.get k (home_view d) = Some v ->
    sized objs v \/ exists k0 v0 p g, BTree.get k0 (home_view d0) = Some v0 /\ v = FsCheckpoint.with_path v0 p g.

Lemma sized_keeps f objs k v p g : fs_ok f -> keeps (objects f) objs -> lookup f k = Some v -> sized (objects f) v -> sized objs (FsCheckpoint.with_path v p g).
Proof.
  intros Hok Hk Hl Hs. destruct v as [q h|q h n o x]; [done|]. simpl in *. intros st' Hst'.
  destruct (lookup_stored _ _ _ _ _ _ _ Hok Hl) as [st Hst]. rewrite (Hk _ _ _ Hst Hst'). by apply Hs.
Qed.

Lemma committed_frame s object op d objs s' : fs_ok (fs s) -> gate_ok (gate s) -> committed sha256 s object op d objs s' ->
  keeps (objects (fs s)) objs -> stems (home (fs s)) d objs -> frame s s'.
Proof.
  intros Hok Hq Hc Hk Hst. split_and!; [apply Hc|by eapply committed_gate|by rewrite (c_fs _ _ _ _ _ _ _ Hc)..|].
  intros Hs k v Hv. rewrite (objects_next _ _ _ _ _ _ Hc). rewrite (lookup_next _ _ _ _ _ _ Hc) in Hv. unfold stems in Hst.
  destruct (BTree.get k (home_view d)) as [w|] eqn:E.
  - injection Hv as <-. destruct (Hst _ _ E) as [?|(k0 & v0 & p & g & E0 & ->)]; [done|]. apply lookup_home in E0. eapply sized_keeps; [done|done|exact E0|by eapply Hs].
  - apply view_prefix in Hv as Hj; [|apply Hok]. destruct Hj as (j & n & -> & Hj & Hn & ->). pose proof (lookup_at (fs s) MRom j n Hok Hj Hn) as Hl.
    destruct (with_path_id (cp_of ([str_rom] ++ j) (shallow n))) as (p & g & ->). eapply sized_keeps; [done|done|exact Hl|by eapply Hs].
Qed.

Lemma stems_insert d0 d objs p v : dir_wf d0 -> home_view d = BTree.insert p v (home_view d0) -> sized objs v -> stems d0 d objs.
Proof.
  intros Hd E Hv k w Hw. rewrite E, BTree.get_insert in Hw by (by apply flat_dir_sorted). destruct (decide (k = p)); [left; by injection Hw as <-|right].
  destruct (with_path_id w) as (q & g & Ew). by exists k, w, q, g.
Qed.

Lemma stems_remove d0 d objs p : dir_wf d0 -> home_view d = BTree.remove p (home_view d0) -> stems d0 d objs.
Proof.
  intros Hd E k w Hw. rewrite E, BTree.get_remove in Hw by (by apply flat_dir_sorted). destruct (decide (k = p)); [done|right].
  destruct (with_path_id w) as (q & g & Ew). by exists k, w, q, g.
Qed.

Lemma stems_moved d0 d objs s t g : (forall k, BTree.get k (home_view d) = Replay.moved s t g (home_view d0) k) -> stems d0 d objs.
Proof.
  intros E k w Hw. right. rewrite E in Hw. unfold Replay.moved in Hw. destruct (decide (t `prefix_of` k)).
  - apply fmap_Some in Hw as (v0 & E0 & ->). by eexists _, _, _, _.
  - destruct (decide (s `prefix_of` k)); [done|]. destruct (with_path_id w) as (q & h & Ew). by exists k, w, q, h.
Qed.

Lemma put_file_spec s p bs x s' : fs_ok (fs s) -> gate_ok (gate s) -> collision_free (fs s) bs -> put_file sha256 s p bs x s' ->
  frame s s' /\ abs (fs s) p <> Some ADirectory /\ has_parent (abs (fs s)) p /\ size bs <= maximum_file_bytes (limits (fs s)) /\
  same (abs (fs s')) (put p (AFile bs x) (abs (fs s))).
Proof.
  intros Hok Hq Hfree [Hsize Hp Hparent Hfile (d & objs & Hc & Hgrow & Hview)].
  assert (Hst : forall st, BTree.get (sha256 bs) objs = Some st -> stored_bytes st = bs).
  { intros st Hst. specialize (Hgrow _ _ Hst). destruct (BTree.get (sha256 bs) (objects (fs s))) as [st0|] eqn:E0; [rewrite Hgrow; by apply Hfree|by destruct Hgrow]. }
  split; [|split; [|split; [by apply parent_found|split; [done|]]]].
  - eapply committed_frame; [done|done|exact Hc|by eapply grows_keeps|]. eapply stems_insert; [apply Hok|exact Hview|]. simpl. intros st E. by rewrite (Hst st E).
  - intros E. unfold abs in E. rewrite (lookup_under_home _ p) in E by done. destruct (BTree.get p (home_view _)) as [v|]; [|done].
    specialize (Hfile v eq_refl). destruct v as [|? ? ? o ?]; [done|]. simpl in E. by destruct (BTree.get o (objects (fs s))).
  - eapply abs_put; [done|exact Hc|by eapply grows_keeps|exact Hview|]. simpl.
    assert (Hex : exists st, BTree.get (sha256 bs) objs = Some st).
    { pose proof (lookup_stored (fs s') p) as Hl. rewrite (c_fs _ _ _ _ _ _ _ Hc) in Hl. simpl in Hl. eapply Hl; [rewrite <- (c_fs _ _ _ _ _ _ _ Hc); apply Hc|].
      apply lookup_home. simpl. rewrite Hview, BTree.get_insert by (apply flat_dir_sorted, Hok). by rewrite decide_True. }
    destruct Hex as [st Hex]. rewrite Hex. simpl. by rewrite (Hst st Hex).
Qed.

(** ** Requests *)

Inductive Answer := Done | Opened (h : Handle.FileHandle) | Accepted (n : Z).

Definition perform (r : Request) : TreeM Answer :=
  match r with
  | RCreate c p => _ ← create_directory sha256 c p; mret Done
  | RPut c p bs x => _ ← write_file sha256 c p bs x; mret Done
  | RReplace c p bs expected x => _ ← replace_file_if_revision sha256 c p bs expected x; mret Done
  | RInstallRom c s d => _ ← install_executable_from_rom sha256 c s d; mret Done
  | ROpen c p m => h ← open c p m; mret (Opened h)
  | RClose h => _ ← close h; mret Done
  | RWrite h offset bs => n ← write sha256 h offset bs; mret (Accepted n)
  | RTruncate h n => _ ← truncate sha256 h n; mret Done
  | RRemove c p => _ ← remove sha256 c p; mret Done
  | RRename c s d replace => _ ← rename sha256 c s d replace; mret Done
  end.

Definition bytes_of (f : ComputerFileSystem) (p : VirtualPath) : list Z :=
  match abs f p with Some (AFile bs _) => bs | _ => [] end.

(** The bytes a request stores. *)
Definition stored_by (f : ComputerFileSystem) (r : Request) : option (list Z) :=
  match r with
  | RPut _ _ bs _ | RReplace _ _ bs _ _ => Some bs
  | RInstallRom _ s _ => Some (bytes_of f s)
  | RWrite h offset bs =>
      match Handle.get h (handles f) with
      | Ok o => Some (overwrite offset (take (Z.to_nat (maximum_io_bytes (limits f))) bs) (bytes_of f (Handle.path o)))
      | _ => None
      end
  | RTruncate h n =>
      match Handle.get h (handles f) with
      | Ok o => Some (resize (Z.to_nat n) 0 (bytes_of f (Handle.path o)))
      | _ => None
      end
  | _ => None
  end.

(** Arguments are unsigned. *)
Definition request_ok (r : Request) : bool := match r with RWrite _ offset _ => 0 <=? offset | RTruncate _ n => 0 <=? n | _ => true end.

Lemma atomic_then {A B} (m : TreeM A) (g : A -> B) s Q : atomic m s (fun a => Q (g a)) -> atomic (a ← m; mret (g a)) s Q.
Proof. unfold atomic, mbind, ST_bind. by destruct (m s) as [[a|e|] s']. Qed.

(** A node found in a tree is what its path names. *)
Lemma found_lookup p f mount cs n : fs_ok f -> split_mount p = Ok (mount, cs) -> find_node (directory mount f) cs = Ok n ->
  lookup f p = Some (cp_of p (shallow n)) /\ head p = Some match mount with MRom => str_rom | MHome => str_home end.
Proof.
  intros Hok Hm Hn. assert (Hne : cs <> []) by (by intros ->). apply find_node_at in Hn; [|done]. pose proof (lookup_at f mount cs _ Hok Hne Hn) as Hl.
  assert (Ep : p = match mount with MRom => str_rom | MHome => str_home end :: cs); [|by subst].
  unfold split_mount in Hm. destruct p as [|c p]; [done|]. destruct (bool_decide (c = str_rom)) eqn:E1; bsimp; [by injection Hm as <- <-; subst|].
  destruct (bool_decide (c = str_home)) eqn:E2; bsimp; [by injection Hm as <- <-; subst|done].
Qed.

(** Reading the bytes of a file. *)
Lemma file_bytes_abs p f bs : fs_ok f -> file_bytes p f = Ok bs -> exists x, abs f p = Some (AFile bs x).
Proof.
  intros Hok H. unfold file_bytes in H. apply outcome_bind_inv in H as ([mount cs] & Hm & H). apply outcome_bind_inv in H as (n & Hn & H).
  destruct n as [m [o|ch]]; [|done]. simpl in H. unfold store_bytes in H. destruct (BTree.get o (objects f)) as [st|] eqn:E; [|done]. injection H as <-.
  destruct (found_lookup _ _ _ _ _ Hok Hm Hn) as [Hl _]. unfold abs. rewrite Hl. simpl. rewrite E. by eexists.
Qed.

Lemma overwrite_code offset data old : 0 <= offset -> data <> [] ->
  splice offset data (resized (Z.max (size old) (offset + size data)) old) = overwrite offset data old.
Proof.
  intros Ho Hd. unfold splice, overwrite, resized, size. set (N := Z.to_nat (Z.max _ _)).
  assert (HN : (length old <= N)%nat) by (unfold N; lia). rewrite !resize_spec. rewrite (take_ge old) by done. f_equal; [|f_equal].
  - rewrite take_app, take_replicate. do 2 f_equal. unfold N. lia.
  - rewrite drop_app, drop_replicate. replace (N - length old - (Z.to_nat offset + length data - length old))%nat with O by (unfold N; lia).
    by rewrite app_nil_r.
Qed.

Lemma put_request c p bs x s m : fs_ok (fs s) -> gate_ok (gate s) -> collision_free (fs s) bs ->
  atomic m s (fun (_ : unit) s' => put_file sha256 s p bs x s' /\
    permits c p (if BTree.contains_key p (home_view (home (fs s))) then WRITE else bitor CREATE WRITE) = true) ->
  atomic m s (fun _ s' => frame s s' /\ put_spec c (limits (fs s)) p bs x (abs (fs s)) (abs (fs s'))).
Proof.
  intros Hok Hq Hfree Hm. eapply atomic_mono; [exact Hm|]. intros _ s' [Hput Hperm].
  destruct (put_file_spec s p bs x s' Hok Hq Hfree Hput) as (Hfr & Hdir & Hparent & Hsize & Hsame). split; [done|]. split_and!; try done.
  unfold BTree.contains_key in Hperm. rewrite <- (lookup_under_home (fs s) p p) in Hperm by (apply Hput || done).
  destruct (lookup (fs s) p) as [v|] eqn:E; destruct (abs (fs s) p) as [n|] eqn:E'; try done.
  - by apply abs_none in E'; [congruence|].
  - unfold abs in E'. by rewrite E in E'.
Qed.

Lemma get_no_panic h t : Handle.get h t <> Panic.
Proof. unfold Handle.get. destruct (zget _ _) as [sl|]; simpl; [|done]. destruct (negb _); [done|]. by destruct (Handle.file sl). Qed.

Lemma replace_request p bs s old x0 : fs_ok (fs s) -> gate_ok (gate s) -> collision_free (fs s) bs -> abs (fs s) p = Some (AFile old x0) ->
  atomic (replace_existing sha256 p bs) s (fun _ s' => frame s s' /\ size bs <= maximum_file_bytes (limits (fs s)) /\
    same (abs (fs s')) (put p (AFile bs x0) (abs (fs s)))).
Proof.
  intros Hok Hq Hfree Hold. eapply atomic_mono; [by apply replace_existing_ok|]. intros _ s' (x & Hput & (g & n & o & Hfile)).
  destruct (put_file_spec s p bs x s' Hok Hq Hfree Hput) as (Hfr & _ & _ & Hsize & Hsame). split_and!; try done.
  replace x0 with x; [done|]. unfold abs in Hold. rewrite (lookup_home _ _ _ Hfile) in Hold. simpl in Hold.
  destruct (BTree.get o (objects (fs s))); [|done]. by injection Hold.
Qed.

(** Only the handle table changes. *)
Lemma handles_frame s t : fs_ok (fs s) -> gate_ok (gate s) -> frame s (with_fs (set_handles t) s) /\ same (abs (fs (with_fs (set_handles t) s))) (abs (fs s)).
Proof. intros Hok Hq. split; [|done]. split_and!; try done. by destruct Hok. Qed.

Section Requests.
Context (s : Sys) (Hok : fs_ok (fs s)) (Hq : gate_ok (gate s)).

Let serves (r : Request) (s' : Sys) : Prop := frame s s' /\ spec (handles (fs s)) (limits (fs s)) r (abs (fs s)) (abs (fs s')).

Lemma create_request c p : atomic (create_directory sha256 c p) s (fun _ => serves (RCreate c p)).
Proof.
  eapply atomic_mono; [by apply create_directory_ok|]. intros _ s' (d & Hc & Hperm & Hp & Hparent & Hnone & Hview).
  split; [eapply committed_frame; [done|done|exact Hc|apply keeps_refl|by eapply stems_insert; [apply Hok|..]]|]. simpl. split_and!; [done| |by apply parent_found|].
  - apply abs_none; [done|]. by rewrite (lookup_under_home _ p).
  - eapply abs_put; [done|exact Hc|apply keeps_refl|exact Hview|done].
Qed.

Lemma revision_no_panic c p f : replacement_revision c p f <> Panic.
Proof.
  unfold replacement_revision. pose proof (writable_path_no_panic p). destruct (writable_path p) as [[m cs]| |]; cbn [mbind outcome_bind]; [|done|done].
  pose proof (split_name_no_panic cs). destruct (split_name cs) as [[nm pcs]| |]; cbn [mbind outcome_bind]; [|done|done].
  pose proof (find_directory_no_panic (directory m f) pcs). destruct (find_directory _ pcs) as [dd| |]; cbn [mbind outcome_bind]; [|done|done].
  destruct (BTree.get nm dd) as [n|].
  - pose proof (require_no_panic c p WRITE). destruct (require c p WRITE); cbn [mbind outcome_bind]; [|done|done]. by destruct (negb _).
  - pose proof (require_no_panic c p (bitor CREATE WRITE)). destruct (require c p _); cbn [mbind outcome_bind]; [|done|done].
    pose proof (check_entry_no_panic (size dd) f). by destruct (check_directory_entry_limit _ f).
Qed.

Lemma replace_revision_request c p bs e x : collision_free (fs s) bs -> atomic (replace_file_if_revision sha256 c p bs e x) s (fun _ => serves (RReplace c p bs e x)).
Proof.
  intros Hfree. unfold replace_file_if_revision. apply atomic_read; [apply revision_no_panic|]. intros a _. destruct (negb _); [done|].
  apply put_request; try done. by apply write_file_ok.
Qed.

Lemma install_rom_request c source destination : collision_free (fs s) (bytes_of (fs s) source) ->
  atomic (install_executable_from_rom sha256 c source destination) s (fun _ => serves (RInstallRom c source destination)).
Proof.
  intros Hfree. unfold install_executable_from_rom. apply atomic_lift; [apply split_mount_no_panic|]. intros [mount cs] Hm.
  destruct (bool_decide (mount = MRom)) eqn:Erom; [|done]. bsimp. subst mount. cbn [negb]. apply atomic_read; [apply find_node_no_panic|]. intros n Hn.
  destruct (_ || _) eqn:Ex; [done|]. destruct (found_lookup _ _ _ _ _ Hok Hm Hn) as [Hl Hhead]. destruct n as [m [o|ch]]; [|done]. cbn [contents].
  destruct (lookup_stored (fs s) source _ _ _ _ _ Hok Hl) as [st Hst].
  apply atomic_read; [unfold store_bytes; by rewrite Hst|]. intros bs Hbs. unfold store_bytes in Hbs. rewrite Hst in Hbs. injection Hbs as <-.
  assert (Ea : abs (fs s) source = Some (AFile (stored_bytes st) true)).
  { unfold abs. rewrite Hl. simpl. rewrite Hst. simpl. bsimp. simpl in *. congruence. }
  unfold bytes_of in Hfree. rewrite Ea in Hfree. apply atomic_lift; [apply writable_path_no_panic|]. intros [m2 cs2] Hw. apply writable_path_ok in Hw as [-> ->].
  apply atomic_lift; [apply split_name_no_panic|]. intros [name pcs] Hsn. apply split_name_ok in Hsn as ->.
  apply atomic_read; [apply find_directory_no_panic|]. intros dd Hf. simpl in Hf. destruct (BTree.contains_key name dd) eqn:Ec; [done|].
  eapply atomic_mono; [apply put_request; [done|done|exact Hfree|by apply write_file_ok]|]. intros _ s' [Hfr Hspec]. split; [done|].
  exists (stored_bytes st). split_and!; try done. apply abs_none; [done|].
  rewrite (lookup_under_home _ (str_home :: pcs ++ [name])) by (done || apply home_descendant_entry).
  rewrite (view_get _ _ _ _ (f_home _ Hok) Hf). unfold BTree.contains_key in Ec. by destruct (BTree.get name dd).
Qed.

(** Opening and closing change only the handle table. *)
Lemma open_handles c p m : atomic (open c p m) s (fun _ s' => (exists t, s' = with_fs (set_handles t) s) /\ (exists bs x, abs (fs s) p = Some (AFile bs x)) /\
  (let r := if Handle.readable m then bitor INSPECT READ else INSPECT in permits c p (if Handle.writable m then bitor r WRITE else r) = true)).
Proof.
  unfold open. apply atomic_lift; [apply require_no_panic|]. intros [] Hperm%require_ok. apply atomic_lift; [apply split_mount_no_panic|]. intros [mount cs] Hm.
  apply atomic_read; [apply find_node_no_panic|]. intros n Hn. destruct n as [md [o|ch]]; cbn [contents]; [|done].
  destruct (found_lookup _ _ _ _ _ Hok Hm Hn) as [Hl _]. destruct (lookup_stored (fs s) p _ _ _ _ _ Hok Hl) as [st Hst].
  unfold atomic, mbind, ST_bind, st_get. cbv beta iota. destruct (_ <=? _); [done|]. destruct (Handle.open _ (handles (fs s))) as [[h|e|] t] eqn:Eo.
  - split_and!; [by exists t| |done]. unfold abs. rewrite Hl. simpl. rewrite Hst. simpl. by eauto.
  - unfold Handle.open in Eo. destruct (list_find _ _) as [[? ?]|]; [done|]. destruct (_ || _); [|done]. injection Eo as _ <-. by destruct s as [[] ?].
  - unfold Handle.open in Eo. destruct (list_find _ _) as [[? ?]|]; [done|]. by destruct (_ || _).
Qed.

Lemma close_handles h : atomic (close h) s (fun _ s' => exists t, s' = with_fs (set_handles t) s).
Proof.
  unfold atomic, close. destruct (Handle.close h (handles (fs s))) as [[u|e|] t] eqn:Ec; [by exists t|..]; unfold Handle.close in Ec;
    (destruct (zget _ _) as [sl|]; [destruct (_ || _)|]); try done; injection Ec as _ <-; by destruct s as [[] ?].
Qed.

Lemma open_request c p m : atomic (open c p m) s (fun _ => serves (ROpen c p m)).
Proof.
  eapply atomic_mono; [apply open_handles|]. intros h s' ((t & ->) & Hfile & Hperm). destruct (handles_frame s t Hok Hq) as [Hfr Hs]. by split.
Qed.

Lemma close_request h : atomic (close h) s (fun _ => serves (RClose h)).
Proof. eapply atomic_mono; [apply close_handles|]. intros _ s' [t ->]. by apply handles_frame. Qed.

Lemma write_request h offset bs : 0 <= offset -> (forall b, stored_by (fs s) (RWrite h offset bs) = Some b -> collision_free (fs s) b) ->
  atomic (write sha256 h offset bs) s (fun _ => serves (RWrite h offset bs)).
Proof.
  intros Ho Hfree. unfold write. apply atomic_read; [apply get_no_panic|]. intros [p m] Hg. simpl in Hfree. rewrite Hg in Hfree. simpl in Hfree |- *.
  destruct (Handle.writable m) eqn:Ew; [|done]. cbn [negb]. pose proof (fl_io _ (f_limits _ Hok)) as Hio.
  unfold atomic at 1, mbind at 1, ST_bind at 1, st_get. cbv beta iota. set (data := take (Z.to_nat (maximum_io_bytes (limits (fs s)))) bs) in *.
  assert (Hacc : Z.min (size bs) (maximum_io_bytes (limits (fs s))) = size data) by (unfold data, size; rewrite length_take; lia).
  assert (Hdata : take (Z.to_nat (size data)) bs = data).
  { unfold size. rewrite Nat2Z.id. unfold data. rewrite length_take. destruct (Nat.min_spec (Z.to_nat (maximum_io_bytes (limits (fs s)))) (length bs)) as [[_ ->]|[? ->]]; [done|].
    by rewrite !take_ge by lia. }
  rewrite Hacc. destruct (Z.eqb_spec (size data) 0) as [E0|E0].
  { split; [done|]. exists p, m. split_and!; [done|done|]. left. split; [|done].
    assert (Hnil : data = []); [|exact Hnil]. clear -E0. clearbody data. unfold size in E0. destruct data; [done|]. simpl in E0. lia. }
  assert (Hne : data <> []) by (by intros E; apply E0; rewrite E). rewrite Hdata.
  match goal with |- match ?m s with _ => _ end => change (atomic m s (fun _ => serves (RWrite h offset bs))) end.
  apply atomic_lift; [by destruct (checked_add _ _ _)|]. intros stop Hstop%ok_or_ok. apply checked_add_Some in Hstop as [-> Hmax].
  apply atomic_read; [apply check_file_size_no_panic|]. intros [] Hsize%check_file_size_ok. apply atomic_read; [by apply file_bytes_ok|]. intros old Hold.
  apply file_bytes_abs in Hold as [x Hold]; [|done]. rewrite overwrite_code by done. unfold bytes_of in Hfree. rewrite Hold in Hfree.
  apply (atomic_then _ (fun _ => size data)). eapply atomic_mono; [eapply replace_request; [done|done|by apply Hfree|exact Hold]|].
  intros _ s' (Hfr & Hs & Hsame). split; [done|]. exists p, m. split_and!; [done|done|]. right. by exists old, x.
Qed.

Lemma truncate_request h n : (forall b, stored_by (fs s) (RTruncate h n) = Some b -> collision_free (fs s) b) ->
  0 <= n -> atomic (truncate sha256 h n) s (fun _ => serves (RTruncate h n)).
Proof.
  intros Hfree Hn. unfold truncate. apply atomic_read; [apply get_no_panic|]. intros [p m] Hg. simpl in Hfree. rewrite Hg in Hfree. simpl in Hfree |- *.
  destruct (Handle.writable m) eqn:Ew; [|done]. cbn [negb]. apply atomic_read; [apply check_file_size_no_panic|]. intros [] Hsize%check_file_size_ok.
  apply atomic_read; [by apply file_bytes_ok|]. intros old Hold. apply file_bytes_abs in Hold as [x Hold]; [|done].
  unfold bytes_of in Hfree. rewrite Hold in Hfree. destruct (Z.eqb_spec (size old) n) as [E|E].
  - split; [done|]. exists p, m, old, x. split_and!; try done. intros k. unfold put. destruct (decide (k = p)) as [->|]; [|done].
    rewrite Hold. do 2 f_equal. unfold size in E. rewrite <- E, Nat2Z.id. by rewrite resize_all.
  - eapply atomic_mono; [eapply replace_request; [done|done|by apply Hfree|exact Hold]|]. intros _ s' (Hfr & Hs & Hsame). split; [done|].
    by exists p, m, old, x.
Qed.

Lemma remove_request c p : atomic (remove sha256 c p) s (fun _ => serves (RRemove c p)).
Proof.
  eapply atomic_mono; [by apply remove_ok|]. intros _ s' (d & objs & n & Hc & Hperm & Hp & Hn & Hdesc & Hshrink & Hview).
  split; [eapply committed_frame; [done|done|exact Hc|by apply shrinks_keeps|by eapply stems_remove; [apply Hok|]]|]. simpl. split_and!; [done| | |].
  - rewrite abs_none by done. by rewrite (lookup_home _ _ _ Hn).
  - destruct n as [q g|q g z o x]; [by apply empty_found; [..|apply Hdesc]|]. apply view_prefix in Hn as Hn'; [|apply Hok]. destruct Hn' as (j & nn & -> & _ & _ & E).
    destruct nn as [md [?|?]]; [|done]. injection E as -> -> -> -> ->. by eapply file_empty.
  - eapply abs_del; [done|exact Hc|by apply shrinks_keeps|done|done].
Qed.

Lemma rename_request c source destination replace : atomic (rename sha256 c source destination replace) s (fun _ => serves (RRename c source destination replace)).
Proof.
  eapply atomic_mono; [by apply rename_ok|]. intros _ s' (P1 & P2 & [[-> ->]|[(D1 & D2 & Dne) Hout Hparent (n & Hn & Hexisting) (d & objs & Hc & Hshrink & Hview)]]).
  { split; [done|]. simpl. split_and!; [done|done|]. by left. }
  split; [eapply committed_frame; [done|done|exact Hc|by apply shrinks_keeps|by eapply stems_moved]|]. simpl. split_and!; [done|done|]. right.
  destruct (abs (fs s) source) as [an|] eqn:Ea; [|by apply abs_none in Ea; [rewrite (lookup_home _ _ _ Hn) in Ea|]].
  exists an. split_and!; [done| |by apply parent_found| |].
  - intros Hp%starts_with_prefix. unfold is_within in Hout. congruence.
  - intros e He. destruct (BTree.get destination (home_view (home (fs s)))) as [v|] eqn:Ev.
    + destruct (Hexisting v eq_refl) as (Hr & Hk & Hd). split_and!; [done| |by apply empty_found].
      rewrite (abs_directory _ _ _ _ Hok (lookup_home _ _ _ Ev) He), (abs_directory _ _ _ _ Hok (lookup_home _ _ _ Hn) Ea). done.
    + unfold abs in He. by rewrite (lookup_under_home _ destination), Ev in He.
  - eapply abs_move; [done|exact Hc|by apply shrinks_keeps|done|done|done].
Qed.

End Requests.

(** C4. The filesystem implements the abstract one.  A request that succeeds has met
    its permission and existence guards and changes the abstract namespace exactly
    as specified, wherever its bytes end up in the object store; a request that
    fails leaves the filesystem and the persistence queue untouched; no request
    panics, changes the ROM tree, or breaks the ledger, the reference counts or the
    entry limits.  The one assumption on the digest is that the bytes to be stored
    do not collide with an object already stored. *)
Theorem filesystem_refines (s : Sys) (r : Request) :
  fs_ok (fs s) -> gate_ok (gate s) -> request_ok r = true ->
  (forall bs, stored_by (fs s) r = Some bs -> collision_free (fs s) bs) ->
  match perform r s with
  | (Ok _, s') => fs_ok (fs s') /\ gate_ok (gate s') /\ rom (fs s') = rom (fs s) /\ limits (fs s') = limits (fs s) /\
      (sizes_ok (fs s) -> sizes_ok (fs s')) /\ spec (handles (fs s)) (limits (fs s)) r (abs (fs s)) (abs (fs s'))
  | (Err _, s') => s' = s
  | (Panic, _) => False
  end.
Proof.
  intros Hok Hq Hr Hfree. set (Q := fun (_ : Answer) (s' : Sys) => frame s s' /\ spec (handles (fs s)) (limits (fs s)) r (abs (fs s)) (abs (fs s'))).
  assert (H : atomic (perform r) s Q).
  { destruct r; unfold perform; (eapply atomic_then; unfold Q).
    - by apply create_request.
    - apply put_request; [done|done|by apply Hfree|by apply write_file_ok].
    - by apply replace_revision_request; [..|apply Hfree].
    - by apply install_rom_request; [..|apply Hfree].
    - by apply open_request.
    - by apply close_request.
    - apply write_request; [done|done|by apply Z.leb_le|done].
    - apply truncate_request; [done|done|done|by apply Z.leb_le].
    - by apply remove_request.
    - by apply rename_request. }
  unfold atomic in H. destruct (perform r s) as [[a|e|] s']; [|done|done]. destruct H as [(? & ? & ? & ? & ?) ?]. done.
Qed.

End Digest.

Definition demo_put : Request := RPut (Capability.new [] OWNER) demo_path [104; 105] true.

Lemma filesystem_refines_witness : exists s', perform demo_digest demo_put demo_sys = (Ok Done, s') /\
  abs (fs s') demo_path = Some (AFile [104; 105] true) /\ abs (fs demo_sys) demo_path = None.
Proof.
  eexists. split; [vm_compute; reflexivity|]. split; [|reflexivity].
  pose proof (filesystem_refines demo_digest demo_sys demo_put demo_fs_ok (gate_start_ok testing) eq_refl ltac:(done)) as H.
  destruct H as (_ & _ & _ & _ & _ & _ & _ & _ & _ & Hsame). exact (Hsame demo_path).
Defined.
End TreeSpec.
