(* ===== verification/TreeRead.v ===== *)
(** What a computer's filesystem shows: every read returns what the abstract
    namespace holds, and loading an executable terminates with the whole file. *)

From S2P Require Import Prelude Words Unicode Path BTree FileHandle Codec Journal FsCheckpoint Recovery Gate Rom Tree TreeInv TreeOps TreeRename TreeSpec.

Module TreeRead.
Import FsError FsLimits Path PathProps Capability Quota Codec CodecProps Journal Tree TreeView TreeInv TreeOps TreeRename TreeSpec.

(** ** Reading by path *)

Lemma split_mount_ok p mount cs : split_mount p = Ok (mount, cs) <-> p = match mount with MRom => str_rom | MHome => str_home end :: cs.
Proof.
  unfold split_mount. destruct p as [|c p]; [by destruct mount|]. destruct (decide (c = str_rom)) as [->|H].
  - rewrite bool_decide_eq_true_2 by done. destruct mount; naive_solver.
  - rewrite bool_decide_eq_false_2 by done. destruct (decide (c = str_home)) as [->|H'].
    + rewrite bool_decide_eq_true_2 by done. destruct mount; naive_solver.
    + rewrite bool_decide_eq_false_2 by done. destruct mount; naive_solver.
Qed.

Lemma abs_file f p bs x : fs_ok f -> abs f p = Some (AFile bs x) <->
  exists mount cs n o st, split_mount p = Ok (mount, cs) /\ cs <> [] /\ find_node (directory mount f) cs = Ok n /\ contents n = CFile o /\
    BTree.get o (objects f) = Some st /\ stored_bytes st = bs /\ executable (metadata n) = x.
Proof.
  intros Hok. split.
  - intros H. unfold abs in H. apply bind_Some in H as (v & Hv & H). apply lookup_some in Hv as (mount & cs & n & -> & Hne & Hn & ->); [|done].
    destruct n as [m [o|ch]]; [|done]. simpl in H. apply fmap_Some in H as (st & Hst & [= -> ->]).
    exists mount, cs, (mkNode m (CFile o)), o, st. split_and!; try done; [by apply split_mount_ok|by apply find_node_at].
  - intros (mount & cs & n & o & st & Hm & Hne & Hn & Ho & Hst & <- & <-). destruct (found_lookup _ _ _ _ _ Hok Hm Hn) as [Hl _].
    unfold abs. rewrite Hl. destruct n as [m [o'|ch]]; [|done]. simpl in *. injection Ho as ->. by rewrite Hst.
Qed.

Lemma read_snapshot_abs c p f bs : fs_ok f ->
  read_snapshot c p f = Ok bs <-> permits c p READ = true /\ exists x, abs f p = Some (AFile bs x).
Proof.
  intros Hok. unfold read_snapshot. split.
  - intros H. apply outcome_bind_inv in H as ([] & Hr%require_ok & H). split; [done|]. destruct (bool_decide _); [done|].
    apply outcome_bind_inv in H as ([mount cs] & Hm & H). destruct (bool_decide (cs = [])) eqn:Ecs; [done|]. bsimp.
    apply outcome_bind_inv in H as (n & Hn & H). apply outcome_bind_inv in H as (o & Ho%ok_or_ok & H). unfold store_bytes in H.
    destruct (BTree.get o (objects f)) as [st|] eqn:E; [|done]. injection H as <-. exists (executable (metadata n)).
    apply abs_file; [done|]. exists mount, cs, n, o, st. destruct n as [m [o'|ch]]; [|done]. injection Ho as ->. done.
  - intros [Hr (x & H)]. unfold require. rewrite Hr. cbn [mbind outcome_bind]. apply abs_file in H as (mount & cs & n & o & st & Hm & Hne & Hn & Ho & Hst & Hb & Hx); [|done].
    rewrite bool_decide_eq_false_2 by (intros ->; done). rewrite Hm. cbn [mbind outcome_bind]. rewrite bool_decide_eq_false_2 by done. rewrite Hn. cbn [mbind outcome_bind].
    unfold object_id_of. rewrite Ho. cbn [ok_or mbind outcome_bind]. unfold store_bytes. rewrite Hst. simpl. by rewrite Hb.
Qed.

Lemma read_snapshot_no_panic c p f : fs_ok f -> read_snapshot c p f <> Panic.
Proof.
  intros Hok. unfold read_snapshot. pose proof (require_no_panic c p READ). destruct (require c p READ); cbn [mbind outcome_bind]; [|done|done].
  destruct (bool_decide _); [done|]. pose proof (file_bytes_ok p f Hok) as Hb. unfold file_bytes in Hb. destruct (split_mount p) as [[mount cs]| |]; cbn [mbind outcome_bind] in *; [|done|done].
  destruct (bool_decide _); [done|]. destruct (find_node _ cs) as [n| |]; cbn [mbind outcome_bind] in *; [|done|done].
  destruct n as [m [o|ch]]; [|done]. exact Hb.
Qed.

(** The names in a directory, in order. *)
Lemma list_directory_abs c p f names : fs_ok f -> list_directory c p f = Ok names -> p <> [] ->
  permits c p LIST = true /\ (tail p = [] \/ abs f p = Some ADirectory) /\ StronglySorted BTree.lt names /\
  forall name, name ∈ names <-> abs f (p ++ [name]) <> None.
Proof.
  intros Hok H Hp. unfold list_directory in H. apply outcome_bind_inv in H as ([] & Hr%require_ok & H). rewrite bool_decide_eq_false_2 in H by done.
  apply outcome_bind_inv in H as ([mount cs] & Hm & H). apply outcome_bind_inv in H as (d & Hd & [= <-]).
  assert (Hfd : find_directory (directory mount f) cs = Ok d /\ (cs = [] \/ exists m, node_at (directory mount f) cs = Some (mkNode m (CDirectory d)))).
  { destruct (bool_decide (cs = [])) eqn:E; bsimp; [subst; split; [done|by left]|]. apply outcome_bind_inv in Hd as (n & Hn & Hd).
    destruct n as [m [o|ch]]; [done|]. injection Hd as ->. apply find_node_at in Hn; [|done]. split; [apply find_directory_at; by exists m|right; by exists m]. }
  destruct Hfd as [Hfd Hat]. assert (Hwf : dir_wf (directory mount f)) by (destruct mount; apply Hok). pose proof (find_directory_wf _ _ _ Hwf Hfd) as [Hs _].
  apply split_mount_ok in Hm as ->. split_and!; [done| | |].
  - destruct Hat as [->|(m & Hm)]; [by left|]. destruct cs as [|c0 cs]; [by left|right]. unfold abs. by rewrite (lookup_at f mount (c0 :: cs) _ Hok ltac:(done) Hm).
  - unfold BTree.keys. clear -Hs. induction Hs as [|[k v] l Hl IH Hall]; simpl; constructor; [done|]. apply Forall_fmap. exact Hall.
  - intros name. rewrite <- BTree.get_keys by done. rewrite abs_none by done. assert (Hne : cs ++ [name] <> []) by (by destruct cs). split.
    + intros [n Hn]. assert (Ha : node_at (directory mount f) (cs ++ [name]) = Some n) by (rewrite (node_at_under _ _ _ _ _ Hfd), Hn; done).
      pose proof (lookup_at f mount _ _ Hok Hne Ha) as Hl. simpl in Hl |- *. by rewrite Hl.
    + intros Hl. destruct (lookup f _) as [v|] eqn:E; [|done]. apply lookup_some in E as (mount' & j & n & Ek & _ & Hn & _); [|done].
      simpl in Ek. injection Ek as Em <-. assert (mount' = mount) as -> by (destruct mount, mount'; done).
      rewrite (node_at_under _ _ _ _ _ Hfd) in Hn. apply bind_Some in Hn as (n' & Hn' & _). by exists n'.
Qed.

(** ** Reading through a handle *)

Lemma read_chunk (bs : list Z) offset n : 0 <= offset -> 0 <= n <= usize_max -> size bs <= usize_max ->
  let start := Z.min offset (size bs) in slice start (Z.min (saturating_add usize_max start n) (size bs) - start) bs = take (Z.to_nat n) (drop (Z.to_nat offset) bs).
Proof.
  intros Ho Hn Hb start. unfold slice, start, saturating_add. pose proof (size_nonneg bs). destruct (Z.le_gt_cases (size bs) offset).
  - rewrite Z.min_r by lia. rewrite !(drop_ge bs) by (unfold size in *; lia). by rewrite !take_nil.
  - rewrite (Z.min_l offset) by lia. destruct (Z.le_gt_cases (offset + n) (size bs)).
    + rewrite (Z.min_r usize_max), Z.min_l by lia. do 2 f_equal. lia.
    + rewrite !take_ge; [done|rewrite length_drop; unfold size in *; lia..].
Qed.

Lemma read_abs h offset n f bs : fs_ok f -> 0 <= offset -> 0 <= n -> (forall p m b x, Handle.get h (handles f) = Ok (Handle.mkOpen p m) -> abs f p = Some (AFile b x) -> size b <= usize_max) ->
  read h offset n f = Ok bs <-> exists p m all x, Handle.get h (handles f) = Ok (Handle.mkOpen p m) /\ Handle.readable m = true /\
    abs f p = Some (AFile all x) /\ bs = take (Z.to_nat (Z.min n (maximum_io_bytes (limits f)))) (drop (Z.to_nat offset) all).
Proof.
  intros Hok Ho Hn Hsz. pose proof (fl_io _ (f_limits _ Hok)) as Hio. unfold read. split.
  - intros H. apply outcome_bind_inv in H as ([p m] & Hg & H). simpl in H. destruct (Handle.readable m) eqn:Er; [|done]. simpl in H.
    apply outcome_bind_inv in H as (all & Hall & [= <-]). apply file_bytes_abs in Hall as [x Hall]; [|done]. exists p, m, all, x. split_and!; try done.
    apply read_chunk; [done|lia|by eapply Hsz].
  - intros (p & m & all & x & Hg & Hr & Ha & ->). rewrite Hg. cbn [mbind outcome_bind Handle.mode Handle.path]. rewrite Hr. cbn [negb].
    assert (Hb : file_bytes p f = Ok all).
    { apply abs_file in Ha as (mount & cs & nd & o & st & Hm & Hne & Hnd & Hc & Hst & Hb & _); [|done]. unfold file_bytes. rewrite Hm. cbn [mbind outcome_bind].
      rewrite Hnd. cbn [mbind outcome_bind]. rewrite Hc. unfold store_bytes. rewrite Hst. simpl. by rewrite Hb. }
    rewrite Hb. cbn [mbind outcome_bind]. f_equal. apply read_chunk; [done|lia|by eapply Hsz].
Qed.

(** ** Loading an executable *)

Section Loop.
Context (f : ComputerFileSystem) (h : Handle.FileHandle) (p : VirtualPath) (all : list Z) (x : bool).
Context (Hok : fs_ok f) (Hget : Handle.get h (handles f) = Ok (Handle.mkOpen p Handle.Read)) (Hall : abs f p = Some (AFile all x)).
Context (Hsize : size all <= u64_max).

(** The loop ends within one iteration per byte and returns the bytes. *)
Lemma read_loop_ok fuel : forall offset, 0 <= offset <= size all -> size all - offset <= Z.of_nat fuel ->
  read_loop fuel h offset (size all) (take (Z.to_nat offset) all) f = Some (Ok all).
Proof.
  pose proof (fl_io _ (f_limits _ Hok)) as Hio. induction fuel as [|fuel IH]; intros offset Ho Hf; simpl.
  - rewrite (proj2 (Z.ltb_ge _ _)) by lia. rewrite take_ge; [done|]. unfold size in *. lia.
  - destruct (Z.ltb_spec offset (size all)) as [Hlt|]; [|rewrite take_ge; [done|unfold size in *; lia]].
    assert (Hread : read h offset (size all - offset) f = Ok (take (Z.to_nat (Z.min (size all - offset) (maximum_io_bytes (limits f)))) (drop (Z.to_nat offset) all))).
    { apply read_abs; [done|lia|lia| |by exists p, Handle.Read, all, x]. intros p' m b y E E'. rewrite Hget in E. injection E as <- <-. rewrite Hall in E'. by injection E' as <- <-. }
    rewrite Hread. set (n := Z.min _ _). assert (Hn : 0 < n <= size all - offset) by (unfold n; lia).
    set (chunk := take _ _). assert (Hc : size chunk = n) by (unfold chunk, size in *; rewrite length_take, length_drop; lia).
    rewrite bool_decide_eq_false_2 by (intros E; rewrite E in Hc; unfold size in Hc; simpl in Hc; lia). rewrite Hc.
    unfold checked_add. rewrite (proj2 (Z.leb_le _ _)) by lia. specialize (IH (offset + n) ltac:(lia) ltac:(lia)).
    replace (take (Z.to_nat offset) all ++ chunk) with (take (Z.to_nat (offset + n)) all); [done|].
    unfold chunk. rewrite take_take_drop. f_equal. lia.
Qed.

End Loop.

Lemma stat_file c p f m : fs_ok f -> sizes_ok f -> stat c p f = Ok m -> kind m = KFile ->
  exists all, abs f p = Some (AFile all (executable m)) /\ size all = logical_size m.
Proof.
  intros Hok Hsz H Hk. unfold stat in H. apply outcome_bind_inv in H as (u & _ & H). destruct (bool_decide _); [by injection H as <-|].
  apply outcome_bind_inv in H as ([mount cs] & Hm & H). destruct (bool_decide (cs = [])) eqn:Ecs; [by injection H as <-|]. bsimp.
  apply outcome_bind_inv in H as (n & Hn & [= <-]). destruct (found_lookup _ _ _ _ _ Hok Hm Hn) as [Hl _].
  destruct n as [md [o|ch]].
  - destruct (lookup_stored _ _ _ _ _ _ _ Hok Hl) as [st Hst]. exists (stored_bytes st). split; [|by apply (Hsz _ _ Hl)].
    unfold abs. rewrite Hl. simpl. by rewrite Hst.
  - apply find_node_at in Hn; [|done]. assert (Hw : node_wf (mkNode md (CDirectory ch))).
    { eapply at_path_wf; [|exact Hn]. apply wf_dnode; try done. destruct mount; apply Hok. }
    inversion Hw; subst. simpl in *. congruence.
Qed.

Lemma stat_complete c p f all x : fs_ok f -> abs f p = Some (AFile all x) -> permits c p INSPECT = true ->
  exists m, stat c p f = Ok m /\ kind m = KFile /\ executable m = x.
Proof.
  intros Hok Ha Hp. apply abs_file in Ha as (mount & cs & n & o & st & Hm & Hne & Hn & Ho & Hst & Hb & Hx); [|done]. exists (metadata n). split_and!; [|..|done].
  - unfold stat, require. rewrite Hp. cbn [mbind outcome_bind]. rewrite bool_decide_eq_false_2 by (by intros ->). rewrite Hm. cbn [mbind outcome_bind].
    rewrite bool_decide_eq_false_2 by done. by rewrite Hn.
  - apply find_node_at in Hn; [|done]. assert (Hw : node_wf n).
    { eapply at_path_wf; [|exact Hn]. apply wf_dnode; try done. destruct mount; apply Hok. }
    inversion Hw; subst; simpl in *; done.
Qed.

Lemma stat_no_panic c p f : stat c p f <> Panic.
Proof.
  unfold stat. pose proof (require_no_panic c p INSPECT). destruct (require c p INSPECT); cbn [mbind outcome_bind]; [|done|done].
  destruct (bool_decide _); [done|]. pose proof (split_mount_no_panic p). destruct (split_mount p) as [[mount cs]| |]; cbn [mbind outcome_bind]; [|done|done].
  destruct (bool_decide _); [done|]. pose proof (find_node_no_panic (directory mount f) cs). by destruct (find_node _ cs).
Qed.

(** Opening a file that is there, with the rights to read it. *)
Lemma open_read c p s all x : fs_ok (fs s) -> abs (fs s) p = Some (AFile all x) -> permits c p (bitor INSPECT READ) = true ->
  open c p Handle.Read s = (Err QuotaExceeded, s) \/
  exists h t, Handle.open (Handle.mkOpen p Handle.Read) (handles (fs s)) = (Ok h, t) /\ open c p Handle.Read s = (Ok h, with_fs (set_handles t) s).
Proof.
  intros Hok Ha Hp. apply abs_file in Ha as (mount & cs & n & o & st & Hm & Hne & Hn & Ho & _); [|done].
  assert (Hrun : open c p Handle.Read s = if handle_limit c <=? Handle.open_count (handles (fs s)) then (Err QuotaExceeded, s)
    else let '(r, t) := Handle.open (Handle.mkOpen p Handle.Read) (handles (fs s)) in (r, with_fs (set_handles t) s)).
  { unfold open, require. cbn [Handle.readable Handle.writable]. rewrite Hp. unfold mbind at 1, ST_bind at 1, st_lift at 1. rewrite Hm.
    unfold mbind at 1, ST_bind at 1, st_lift at 1. unfold mbind at 1, ST_bind at 1, read_fs, st_read. rewrite Hn, Ho.
    unfold mbind, ST_bind, st_get. by destruct (_ <=? _). }
  rewrite Hrun. destruct (_ <=? _); [by left|]. destruct (Handle.open _ (handles (fs s))) as [[h|e|] t] eqn:E.
  - right. by exists h, t.
  - left. unfold Handle.open in E. destruct (list_find _ _) as [[? ?]|]; [done|]. destruct (_ || _); [|done]. injection E as <- <-. by destruct s as [[] ?].
  - unfold Handle.open in E. destruct (list_find _ _) as [[? ?]|]; [done|]. by destruct (_ || _).
Qed.

Definition execute_rights : FileRights := bitor (bitor INSPECT READ) EXECUTE.

Lemma execute_permits c p r : contains execute_rights r = true -> permits c p execute_rights = true -> permits c p r = true.
Proof. unfold permits. rewrite !andb_true_iff. intros Hr [Hw Hc]. split; [done|]. by eapply contains_trans. Qed.

(** The part of [read_executable] after the checks. *)
Lemma read_open_file c p s all x issued live : fs_ok (fs s) -> HandleProps.table_ok (handles (fs s)) issued live ->
  abs (fs s) p = Some (AFile all x) -> permits c p (bitor INSPECT READ) = true -> size all <= u64_max ->
  exists r t issued', HandleProps.table_ok t issued' live /\ (r = Ok all \/ r = Err QuotaExceeded) /\ (
    h ← open c p Handle.Read;
    s ← st_get;
    match read_loop (Z.to_nat (size all)) h 0 (size all) [] (fs s) with
    | None | Some Panic => st_panic
    | Some result => finish_read h result
    end) s = (r, with_fs (set_handles t) s).
Proof.
  intros Hok Ht Ha Hp Hsz. destruct (open_read c p s all x Hok Ha Hp) as [E|(h & t & Ho & E)].
  - exists (Err QuotaExceeded), (handles (fs s)), issued. split_and!; [done|by right|]. unfold mbind, ST_bind. rewrite E. by destruct s as [[] ?].
  - destruct (HandleProps.open_ok _ _ _ _ _ _ Ht Ho) as (_ & Hfresh & Ht').
    pose proof (HandleProps.t_live _ _ _ Ht' h _ (lookup_insert_eq _ _ _)) as [Hslot _].
    pose proof (HandleProps.get_ok _ _ _ h Ht' Hslot) as Hget. rewrite lookup_insert_eq in Hget.
    pose proof (HandleProps.close_ok _ _ _ h Ht' Hslot) as Hclose. rewrite lookup_insert_eq in Hclose. destruct Hclose as (t' & Hclose & Ht2).
    rewrite delete_insert_id in Ht2 by done. exists (Ok all), t', (h :: issued). split_and!; [done|by left|].
    unfold mbind, ST_bind. rewrite E. unfold st_get. cbn [fs with_fs].
    pose proof (read_loop_ok (set_handles t (fs s)) h p all x) as Hloop. specialize (Hloop ltac:(by destruct Hok) Hget Ha Hsz (Z.to_nat (size all)) 0).
    pose proof (size_nonneg all). rewrite take_0 in Hloop. rewrite Hloop by lia. unfold finish_read, close. cbn [fs with_fs handles set_handles]. rewrite Hclose. done.
Qed.

(** C33. Loading an executable terminates within one read per byte of the file, and
    returns exactly the bytes the path names, of a file marked executable that the
    capability may inspect, read and execute.  A permitted executable fails to load
    only when it is too large or no handle is free.  Whatever happens, the files
    open before are the files open after. *)
Theorem read_executable_complete (c : FileCapability) (p : VirtualPath) (s : Sys) (issued : list Handle.FileHandle)
    (live : gmap Handle.FileHandle Handle.OpenFile) :
  fs_ok (fs s) -> sizes_ok (fs s) -> HandleProps.table_ok (handles (fs s)) issued live ->
  exists r t issued', read_executable c p s = (r, with_fs (set_handles t) s) /\ HandleProps.table_ok t issued' live /\
  match r with
  | Ok bs => permits c p execute_rights = true /\ abs (fs s) p = Some (AFile bs true) /\ size bs <= maximum_file_bytes (limits (fs s))
  | Err e => permits c p execute_rights = true -> (exists bs, abs (fs s) p = Some (AFile bs true)) -> e = QuotaExceeded
  | Panic => False
  end.
Proof.
  intros Hok Hsz Ht. assert (Hid : s = with_fs (set_handles (handles (fs s))) s) by (by destruct s as [[] ?]).
  unfold read_executable. unfold mbind at 1, ST_bind at 1, st_lift. unfold require. fold execute_rights. destruct (permits c p execute_rights) eqn:Hp.
  2:{ exists (Err PermissionDenied), (handles (fs s)), issued. rewrite <- Hid. split_and!; done. }
  unfold mbind at 1, ST_bind at 1, read_fs, st_read.
  assert (Hperm : permits c p INSPECT = true) by (by eapply execute_permits; [|exact Hp]).
  destruct (stat c p (fs s)) as [m|e|] eqn:Es; [|exists (Err e), (handles (fs s)), issued; rewrite <- Hid; split_and!; [done|done|]|by apply stat_no_panic in Es].
  2:{ intros _ (bs & Hbs). destruct (stat_complete c p _ _ _ Hok Hbs Hperm) as (m & Hm & _). congruence. }
  destruct (_ || _) eqn:Ex.
  { exists (Err NotExecutable), (handles (fs s)), issued. rewrite <- Hid. split_and!; [done|done|]. intros _ (bs & Hbs).
    destruct (stat_complete c p _ _ _ Hok Hbs Hperm) as (m' & Hm & Hk & Hx). assert (m' = m) as -> by congruence. rewrite Hk, Hx in Ex. done. }
  bsimp. destruct (stat_file _ _ _ _ Hok Hsz Es H) as (all & Ha & Hall). rewrite H0 in Ha.
  unfold mbind at 1, ST_bind at 1, st_get at 1. destruct (Z.ltb_spec (maximum_file_bytes (limits (fs s))) (logical_size m)) as [Hbig|Hbig].
  { exists (Err QuotaExceeded), (handles (fs s)), issued. rewrite <- Hid. split_and!; done. }
  pose proof (fl_file _ (f_limits _ Hok)). rewrite <- Hall in *.
  destruct (read_open_file c p s all true issued live Hok Ht Ha) as (r & t & issued' & Ht' & Hr & Hrun); [by eapply execute_permits; [|exact Hp]|lia|].
  exists r, t, issued'. split; [exact Hrun|]. split; [done|]. destruct Hr as [->| ->]; done.
Qed.

Definition demo_stored : Sys := (perform demo_digest demo_put demo_sys).2.

Lemma demo_stored_ok : fs_ok (fs demo_stored) /\ sizes_ok (fs demo_stored).
Proof.
  pose proof (put_request demo_digest (Capability.new [] OWNER) demo_path [104; 105] true demo_sys _ demo_fs_ok (gate_start_ok testing) ltac:(done)
    (write_file_ok demo_digest _ demo_path [104; 105] true demo_sys demo_fs_ok (gate_start_ok testing))) as H.
  unfold atomic in H. destruct (write_file _ _ _ _ _ _) as [[u|e|] s'] eqn:E; [|vm_compute in E; done|done].
  assert (demo_stored = s') as ->. { unfold demo_stored, perform, demo_put, mbind, ST_bind. by rewrite E. }
  destruct H as [(H1 & _ & _ & _ & H2) _]. split; [exact H1|apply H2]. intros k v Hk. done.
Qed.

Lemma read_executable_complete_witness :
  exists t, read_executable (Capability.new [] OWNER) demo_path demo_stored = (Ok [104; 105], with_fs (set_handles t) demo_stored) /\
    (exists issued, HandleProps.table_ok t issued ∅) /\ abs (fs demo_stored) demo_path = Some (AFile [104; 105] true).
Proof.
  assert (Ht : HandleProps.table_ok (handles (fs demo_stored)) [] ∅).
  { assert (E : handles (fs demo_stored) = Handle.HandleTable_new 32) by (vm_compute; reflexivity). rewrite E.
    apply (HandleProps.history_ok 32), HandleProps.hist_new. }
  destruct (read_executable_complete (Capability.new [] OWNER) demo_path demo_stored [] ∅ (proj1 demo_stored_ok) (proj2 demo_stored_ok) Ht)
    as (r & t & issued & Hr & Ht' & H).
  assert (E : (read_executable (Capability.new [] OWNER) demo_path demo_stored).1 = Ok [104; 105]) by (vm_compute; reflexivity).
  rewrite Hr in E. simpl in E. subst r. exists t. destruct H as (_ & Ha & _). split; [exact Hr|]. split; [exists issued; exact Ht'|exact Ha].
Defined.

End TreeRead.
