(* ===== verification/TreeReplay.v ===== *)
(** The journal of a running filesystem: every committed mutation is a record that
    recovery replays to the same namespace, so that what was written completely
    before a crash is what recovery returns. *)

From S2P Require Import Prelude Words Unicode Path BTree FileHandle Codec Journal FsCheckpoint Recovery Replay Gate Rom Tree TreeInv TreeOps TreeRename TreeSpec.

Module TreeReplay.
Import FsError FsLimits Path PathProps Capability Quota Codec CodecProps Journal JournalProps Tree TreeView TreeInv TreeOps TreeRename TreeSpec.

Definition state_of (f : ComputerFileSystem) : Recovery.RecoveredState := Recovery.mkRecovered (generation f) (home_view (home f)).

(** ** A live namespace passes the checks of recovery *)

Lemma flat_length p n : size (flat p n) = tsum w_nodes n.
Proof.
  revert p. induction n as [m o|m ch IH] using node_induction; intros p; [done|]. rewrite flat_directory, tsum_directory. unfold size. simpl length.
  assert (E : size (flat_dir p ch) = dsum w_nodes ch).
  { unfold flat_dir, dsum. induction IH as [|[c n] ch Hn _ IHch]; [done|]. rewrite bind_cons, size_app, IHch. simpl. by rewrite Hn. }
  unfold size in E. unfold w_nodes at 1. lia.
Qed.

Lemma flat_dir_length p d : size (flat_dir p d) = dsum w_nodes d.
Proof. unfold flat_dir, dsum. induction d as [|[c n] d IH]; [done|]. rewrite bind_cons, size_app, IH. simpl. by rewrite flat_length. Qed.

Definition total (m : NodeMap) : Z := foldr (fun e t => Recovery.file_size e.2 + t) 0 m.

Lemma sizes_total_app a b : total (a ++ b) = total a + total b.
Proof. unfold total. induction a as [|e a IH]; simpl; [done|]. rewrite IH. lia. Qed.

Lemma flat_dir_cons p c n d : flat_dir p ((c, n) :: d) = flat (p ++ [c]) n ++ flat_dir p d.
Proof. unfold flat_dir. by rewrite bind_cons. Qed.

Lemma flat_total n : node_wf n -> forall p, total (flat p n) = tsum w_bytes n.
Proof.
  induction n as [m o|m ch IH] using node_induction; intros Hw p.
  - inversion Hw; subst. unfold total. simpl. unfold w_bytes. lia.
  - rewrite flat_directory, tsum_directory. inversion Hw as [|m' ch' Hk Hz Hx Hs Hall]; subst. unfold w_bytes at 1. rewrite Hz.
    change (total (flat_dir p ch) = 0 `max` 0 + dsum w_bytes ch). clear Hs Hw. induction IH as [|[c n] ch Hn _ IHch]; [done|].
    rewrite flat_dir_cons, sizes_total_app, IHch by (intros e He; apply Hall; by right). rewrite Hn by (apply (Hall (c, n)); by left). unfold dsum. simpl. lia.
Qed.

Lemma flat_dir_total p d : dir_wf d -> total (flat_dir p d) = dsum w_bytes d.
Proof.
  intros [_ Hf]. induction Hf as [|[c n] d Hn _ IH]; [done|]. rewrite flat_dir_cons, sizes_total_app, IH, flat_total by done. done.
Qed.

Lemma total_sum m : total m = foldr Z.add 0 (Recovery.file_size <$> BTree.values m).
Proof. unfold total. induction m as [|e m IH]; simpl; [done|]. by rewrite IH. Qed.

Lemma sum_checked_total max m : (forall e, e ∈ m -> 0 <= Recovery.file_size e.2) -> total m <= max ->
  Recovery.sum_checked max (Recovery.file_size <$> BTree.values m) 0 = Some (total m).
Proof.
  intros Hpos Hmax. rewrite total_sum in *. rewrite Replay.sum_checked_ok by (try done; apply Forall_fmap, Forall_fmap, Forall_forall; exact Hpos). done.
Qed.

(** ** Directory sizes *)

Definition children (q : VirtualPath) (ks : list VirtualPath) : list VirtualPath := filter (fun k => parent k = Some q) ks.

Lemma count_children_ok l ks : forall counts, BTree.sorted counts -> Forall (fun k => k <> []) ks ->
  (forall q, default 0 (BTree.get q counts) + size (children q ks) <= maximum_directory_entries l) ->
  Recovery.count_children l ks counts = Ok tt.
Proof.
  induction ks as [|k ks IH]; intros counts Hs Hne Hq; [done|]. apply Forall_cons in Hne as [Hk Hne]. cbn [Recovery.count_children].
  assert (exists q, parent k = Some q) as [q Hp] by (unfold parent; rewrite bool_decide_eq_false_2 by done; by eexists). rewrite Hp. cbn [ok_or mbind outcome_bind].
  assert (Hcount : forall q', size (children q' (k :: ks)) = (if decide (q' = q) then 1 else 0) + size (children q' ks)).
  { intros q'. unfold children, size. rewrite filter_cons. rewrite Hp. destruct (decide (q' = q)) as [->|Hn].
    - rewrite decide_True by done. simpl. lia.
    - rewrite decide_False by congruence. lia. }
  pose proof (Hq q) as Hqq. rewrite Hcount, decide_True in Hqq by done. pose proof (size_nonneg (children q ks)). rewrite (proj2 (Z.ltb_ge _ _)) by lia.
  apply IH; [by apply BTree.insert_sorted|done|]. intros q'. specialize (Hq q'). rewrite Hcount in Hq. rewrite BTree.get_insert by done.
  destruct (decide (q' = q)) as [->|]; simpl; lia.
Qed.

(** The entries of one parent are the entries of one directory. *)
Lemma children_bound d q : dir_wf d -> exists dd, size (children q (BTree.keys (home_view d))) <= size dd /\
  (dd = [] \/ exists cs, find_directory d cs = Ok dd).
Proof.
  intros Hd. pose proof (flat_dir_sorted [str_home] d Hd) as Hs. set (ks := children q _).
  assert (Hnd : NoDup ks) by (apply NoDup_filter, BTree.keys_NoDup, Hs).
  assert (Hin : forall k, k ∈ ks -> exists cs name dd n, q = str_home :: cs /\ k = q ++ [name] /\ find_directory d cs = Ok dd /\ BTree.get name dd = Some n).
  { intros k [Hp Hk]%list_elem_of_filter. apply BTree.get_keys in Hk as [v Hv]; [|done]. apply view_prefix in Hv as (j & n & -> & Hj & Hn & _); [|done].
    apply parent_snoc in Hp as [name E]. destruct j as [|name' cs] using rev_ind; [done|clear IHcs]. rewrite app_assoc in E. apply app_inj_tail in E as [<- <-].
    apply find_node_at, find_node_split in Hn as (cs' & nm & dd & E & Hf & Hg); [|done]. apply app_inj_tail in E as [<- <-]. by exists cs, name', dd, n. }
  destruct ks as [|k0 ks'] eqn:Ek; [exists []; split; [done|by left]|]. rewrite <- Ek in *.
  destruct (Hin k0) as (cs & name & dd & n & Eq & _ & Hf & _); [rewrite Ek; by left|]. exists dd. split; [|right; by exists cs].
  unfold size. apply inj_le. rewrite <- (length_fmap fst dd), <- (length_fmap (fun c => q ++ [c]) (dd.*1)). apply submseteq_length, NoDup_submseteq; [done|].
  intros k Hk. destruct (Hin k Hk) as (cs' & name' & dd' & n' & Eq' & -> & Hf' & Hg). rewrite Eq in Eq'. injection Eq' as <-. rewrite Hf in Hf'. injection Hf' as <-.
  apply list_elem_of_fmap. exists name'. split; [done|]. apply (BTree.get_keys name' dd); [by apply (find_directory_wf _ _ _ Hd Hf)|by eexists].
Qed.

Lemma valid_state f g : fs_ok f -> Recovery.validate_state (Recovery.mkRecovered g (home_view (home f))) (limits f) = Ok tt.
Proof.
  intros Hok. destruct (f_within _ Hok) as [Hb Hn He]. destruct (f_limits _ Hok). unfold Recovery.validate_state. simpl. unfold home_view.
  rewrite flat_dir_length, (proj2 (Z.ltb_ge _ _)) by (unfold saturating_sub; lia). rewrite sum_checked_total.
  - cbn [ok_or mbind outcome_bind]. rewrite flat_dir_total by apply Hok. rewrite (proj2 (Z.ltb_ge _ _)) by lia. apply count_children_ok; [constructor| |].
    + apply Forall_forall. intros k Hk. apply BTree.get_keys in Hk as [v Hv]; [|apply flat_dir_sorted, Hok]. apply view_prefix in Hv as (j & n & -> & _); [|apply Hok]. done.
    + intros q. simpl. destruct (children_bound (home f) q (f_home _ Hok)) as (dd & Hle & Hdd). unfold home_view in Hle.
      destruct Hdd as [->|(cs & Hf)]; [change (size []) with 0 in Hle; lia|]. specialize (He _ _ Hf). lia.
  - intros [k v] Hv. apply BTree.get_elem in Hv; [|apply flat_dir_sorted, Hok]. apply view_prefix in Hv as (j & n & -> & _ & Hn' & ->); [|apply Hok].
    assert (Hw : node_wf n) by (eapply at_path_wf; [|exact Hn']; apply wf_dnode; try done; apply Hok). inversion Hw; subst; simpl; lia.
  - rewrite flat_dir_total by apply Hok. lia.
Qed.

(** ** A mutation and its record *)

Section Digest.
Context (sha256 : list Z -> Digest).
Hypothesis sha256_size : forall bs, size (sha256 bs) = DIGEST_BYTES.
Hypothesis sha256_bytes : forall bs, is_bytes (sha256 bs).

(** A filesystem with persistence. *)
Record persistent (f : ComputerFileSystem) (p : Gate.ComputerPersistence) : Prop := {
  pe_attached : persistence f = Some p;
  pe_limits : Gate.p_limits p = limits f;
  pe_id : size (Gate.p_computer p) = 16 /\ is_bytes (Gate.p_computer p);
  pe_paths : limits_ok (limits f);
  pe_record : maximum_journal_record_bytes (limits f) <= usize_max }.

(** Every path of the home tree is one the parser accepts. *)
Definition path_fits (l : FileSystemLimits) (k : VirtualPath) : Prop := path_valid l k /\ is_bytes (fmt k).
Definition names_ok (f : ComputerFileSystem) : Prop := forall k v, BTree.get k (home_view (home f)) = Some v -> path_fits (limits f) k.

(** The fields of a record fit its encoding. *)
Definition op_fits (l : FileSystemLimits) (op : JournalOperation) : Prop :=
  match op with
  | CreateDirectory p g => path_fits l p /\ 0 <= g < 2 ^ 64
  | PutFile p g n o _ => path_fits l p /\ 0 <= g < 2 ^ 64 /\ 0 <= n < 2 ^ 64 /\ n <= maximum_file_bytes l /\ size o = 32 /\ is_bytes o
  | Remove p => path_fits l p
  | Rename s d _ => path_fits l s /\ path_fits l d
  end.

Lemma op_fits_valid l op : op_fits l op -> op_valid l op.
Proof. unfold op_fits, path_fits. destruct op; simpl; tauto. Qed.

Lemma path_word_bytes p : is_bytes (fmt p) -> is_bytes (path_word p).
Proof. intros H. unfold path_word. apply is_bytes_app; [apply le_bytes_is_bytes|done]. Qed.

Lemma small_bytes a b c d : forallb (in_range 0 255) [a; b; c; d] = true -> is_bytes [a; b; c; d].
Proof. apply is_bytes_forallb. Qed.

Lemma op_word_bytes l op : op_fits l op -> is_bytes (op_word op).
Proof.
  unfold op_fits, path_fits. destruct op as [p g|p g n o x|p|a b x]; cbn [op_word]; intros H; repeat apply is_bytes_app; try apply le_bytes_is_bytes;
    try (apply path_word_bytes; tauto); try (apply small_bytes; by try destruct x); tauto.
Qed.

Lemma record_word_bytes l r : is_bytes (computer_id r) -> op_fits l (operation r) -> is_bytes (record_word r ++ sha256 (record_word r)).
Proof.
  intros Hid Hop. apply is_bytes_app; [|apply sha256_bytes]. unfold record_word, header_word. repeat apply is_bytes_app; try apply le_bytes_is_bytes; try done.
  - by apply is_bytes_forallb.
  - by eapply op_word_bytes.
Qed.

(** The record a mutation hands to the gate. *)
Definition publishes_record (p : Gate.ComputerPersistence) (s : Sys) (object : option (Digest * list Z)) (rec : Recovery.RecoveryJournalRecord) (s' : Sys) : Prop :=
  Gate.health (gate s) = Active /\
  gate s' = pushed (Gate.Mutation (Gate.mkMutation (Gate.p_computer p) (Recovery.claimed_sequence rec) object (Recovery.record_bytes rec))) (gate s).

(** The files after a mutation have the object it carries, or one from before it. *)
Definition objects_from (object : option (Digest * list Z)) (view view' : NodeMap) : Prop :=
  forall k v o n, BTree.get k view' = Some v -> FsCheckpoint.object v = Some (o, n) ->
    (exists k0 v0, BTree.get k0 view = Some v0 /\ FsCheckpoint.object v0 = Some (o, n)) \/
    (exists bs, object = Some (o, bs) /\ o = sha256 bs /\ n = size bs).

Definition store_from (object : option (Digest * list Z)) (objs objs' : list (list Z * StoredObject)) : Prop :=
  forall o st', BTree.get o objs' = Some st' ->
    (exists st, BTree.get o objs = Some st /\ stored_bytes st' = stored_bytes st) \/
    (exists bs, object = Some (o, bs) /\ o = sha256 bs /\ stored_bytes st' = bs).

Lemma grows_from objs objs' bs : grows objs objs' (sha256 bs) bs -> store_from (Some (sha256 bs, bs)) objs objs'.
Proof.
  intros H o st' E. specialize (H o st' E). destruct (BTree.get o objs) as [st|]; [left; by exists st|right]. destruct H as [-> Hb]. by exists bs.
Qed.

Lemma shrinks_from objs objs' : shrinks objs objs' -> store_from None objs objs'.
Proof. intros H o st' E. left. by apply H. Qed.

(** Everything persistent that one mutation does. *)
Record advance (p : Gate.ComputerPersistence) (s : Sys) (object : option (Digest * list Z)) (rec : Recovery.RecoveryJournalRecord) (s' : Sys) : Prop := {
  ad_ok : fs_ok (fs s');
  ad_record : publishes_record p s object rec s';
  ad_follows : Replay.follows sha256 (limits (fs s)) (Gate.p_computer p) (state_of (fs s)) rec (state_of (fs s'));
  ad_objects : objects_from object (home_view (home (fs s))) (home_view (home (fs s')));
  ad_store : store_from object (objects (fs s)) (objects (fs s'));
  ad_frame : limits (fs s') = limits (fs s) /\ persistence (fs s') = persistence (fs s) /\ rom (fs s') = rom (fs s) }.

Lemma mutation_advances p s object op d objs s' : fs_ok (fs s) -> persistent (fs s) p -> committed sha256 s object op d objs s' ->
  op_fits (limits (fs s)) op -> Recovery.apply_nodes (home_view (home (fs s))) op (generation (fs s) + 1) (limits (fs s)) = Ok (home_view d) ->
  objects_from object (home_view (home (fs s))) (home_view d) -> store_from object (objects (fs s)) objs ->
  exists rec, advance p s object rec s'.
Proof.
  intros Hok Hp Hc Hfits Happ Hfrom Hstore. destruct Hp as [Hatt Hlim [Hid Hidb] Hpaths Hrec]. pose proof (c_gate _ _ _ _ _ _ _ Hc) as Hpub. unfold publishes in Hpub. rewrite Hatt in Hpub.
  destruct Hpub as (Hactive & r & journal & Hnew & Henc & Hgate). set (g := generation (fs s) + 1) in *. rewrite Hlim in Henc. pose proof (f_generation _ Hok).
  pose proof (c_ok _ _ _ _ _ _ _ Hc) as Hok'. pose proof (f_generation _ Hok') as Hg'. rewrite (c_fs _ _ _ _ _ _ _ Hc) in Hg'. simpl in Hg'. fold g in Hg'.
  assert (Er : r = mkRecord (Gate.p_computer p) g (g - 1) op) by (unfold record_new in Hnew; destruct (_ || _); [done|by injection Hnew as <-]).
  assert (Hv : record_valid (limits (fs s)) r).
  { subst r. split; simpl; [done|unfold u64_max in *; lia|unfold u64_max in *; lia|by apply op_fits_valid|done]. }
  pose proof (proj1 (record_encode_ok sha256 sha256_size (limits (fs s)) Hpaths Hrec r journal Hv) Henc) as Henc'.
  assert (Hb : is_bytes journal). { destruct Henc' as (_ & _ & _ & ->). apply (record_word_bytes (limits (fs s))); by subst r. }
  assert (Hd : record_decode sha256 journal (limits (fs s)) = Ok r) by (by apply (record_decode_ok sha256 sha256_size)).
  exists (Recovery.mkRecoveryRecord g journal). split; [done|by split| |by rewrite (c_fs _ _ _ _ _ _ _ Hc)..].
  exists r, (Recovery.mkRecovered (generation (fs s)) (home_view d)). subst r. cbn [Recovery.record_bytes Recovery.claimed_sequence computer_id sequence previous_sequence operation state_of Recovery.state_generation].
  split_and!; try done; [lia|lia| |].
  - unfold Recovery.apply. cbn [Recovery.state_nodes state_of Recovery.state_generation]. rewrite Happ. cbn [mbind outcome_bind].
    pose proof (valid_state (fs s') (generation (fs s)) Hok') as Hvs. rewrite (c_fs _ _ _ _ _ _ _ Hc) in Hvs. simpl in Hvs. by rewrite Hvs.
  - unfold state_of. by rewrite (c_fs _ _ _ _ _ _ _ Hc).
Qed.

(** ** Each mutation as recovery replays it *)

Section Requests.
Context (p : Gate.ComputerPersistence) (s s' : Sys).
Context (Hok : fs_ok (fs s)) (Hq : gate_ok (gate s)) (Hp : persistent (fs s) p) (Hn : names_ok (fs s)) (Hn' : names_ok (fs s')).

Let advances : Prop := exists object rec, advance p s object rec s'.

Lemma new_name k v object op d objs : committed sha256 s object op d objs s' -> BTree.get k (home_view d) = Some v -> path_fits (limits (fs s)) k.
Proof. intros Hc Hk. pose proof (Hn' k v) as H. rewrite (c_fs _ _ _ _ _ _ _ Hc) in H. by apply H. Qed.

Lemma next_generation_bound object op d objs : committed sha256 s object op d objs s' -> 0 <= generation (fs s) + 1 < 2 ^ 64.
Proof.
  intros Hc. pose proof (f_generation _ Hok). pose proof (f_generation _ (c_ok _ _ _ _ _ _ _ Hc)) as Hg. rewrite (c_fs _ _ _ _ _ _ _ Hc) in Hg. simpl in Hg. unfold u64_max in Hg. lia.
Qed.

Lemma view_sorted : BTree.sorted (home_view (home (fs s))).
Proof. apply flat_dir_sorted, Hok. Qed.

Lemma put_advances q bs x : put_file sha256 s q bs x s' -> advances.
Proof.
  intros [Hsize Hd Hparent Hfile (d & objs & Hc & Hgrow & Hview)]. pose proof (fl_file _ (f_limits _ Hok)) as Hff.
  eexists. eapply mutation_advances; [done|done|exact Hc| | | |by apply grows_from].
  - simpl. split; [|split; [by eapply next_generation_bound|split; [|split; [done|split; [apply sha256_size|apply sha256_bytes]]]]].
    + eapply new_name; [exact Hc|]. rewrite Hview, BTree.get_insert by apply view_sorted. by rewrite decide_True.
    + pose proof (size_nonneg bs). unfold u64_max in Hff. lia.
  - simpl. rewrite Z.eqb_refl. cbn [negb]. rewrite Hparent. cbn [mbind outcome_bind]. rewrite Hview.
    destruct (BTree.get q (home_view (home (fs s)))) as [v|] eqn:E; [|done]. specialize (Hfile v eq_refl). by destruct v.
  - intros k v o n E Eo. rewrite Hview, BTree.get_insert in E by apply view_sorted. destruct (decide (k = q)); [right|left; by exists k, v].
    injection E as <-. injection Eo as <- <-. by exists bs.
Qed.

Lemma create_advances c q : atomic (create_directory sha256 c q) s (fun _ t => t = s' -> advances).
Proof.
  eapply atomic_mono; [by apply create_directory_ok|]. intros _ t (d & Hc & _ & Hd & Hparent & Hnone & Hview) ->.
  eexists. eapply mutation_advances; [done|done|exact Hc| | | |apply shrinks_from; by intros o st ?; exists st].
  - simpl. split; [|by eapply next_generation_bound]. eapply new_name; [exact Hc|]. rewrite Hview, BTree.get_insert by apply view_sorted. by rewrite decide_True.
  - simpl. rewrite Z.eqb_refl. cbn [negb]. rewrite Hparent. cbn [mbind outcome_bind]. unfold BTree.contains_key. by rewrite Hnone, Hview.
  - intros k v o n E Eo. rewrite Hview, BTree.get_insert in E by apply view_sorted. destruct (decide (k = q)); [by injection E as <-|left; by exists k, v].
Qed.

Lemma remove_advances c q : atomic (remove sha256 c q) s (fun _ t => t = s' -> advances).
Proof.
  eapply atomic_mono; [by apply remove_ok|]. intros _ t (d & objs & n & Hc & _ & Hd & Hq' & Hdesc & Hshrink & Hview) ->.
  eexists. eapply mutation_advances; [done|done|exact Hc| | | |by apply shrinks_from].
  - simpl. by eapply Hn.
  - simpl. rewrite Hq'. cbn [ok_or mbind outcome_bind]. destruct (FsCheckpoint.is_directory n); [rewrite Hdesc by done|]; by rewrite Hview.
  - intros k v o m E Eo. rewrite Hview, BTree.get_remove in E by apply view_sorted. destruct (decide (k = q)); [done|left; by exists k, v].
Qed.

(** Nothing is below the destination of a rename. *)
Lemma rename_vacant source destination replace r : rename_done sha256 s source destination replace s' -> r <> [] ->
  BTree.get (destination ++ r) (home_view (home (fs s))) = None.
Proof.
  intros [(D1 & D2 & _) _ _ (n & _ & Hex) _] Hr. destruct (BTree.get (destination ++ r) _) as [v|] eqn:E; [|done]. exfalso.
  destruct (BTree.get destination (home_view (home (fs s)))) as [e|] eqn:Ee.
  - destruct (Hex e eq_refl) as (_ & _ & Hd). apply not_true_iff_false in Hd. apply Hd. apply existsb_exists. exists (destination ++ r). split.
    + apply list_elem_of_In, BTree.get_keys; [apply view_sorted|by eexists].
    + rewrite bool_decide_eq_false_2; [by apply starts_with_prefix, prefix_app_r|]. intros E'. apply Hr. rewrite <- (app_nil_r destination) in E' at 2. by apply app_inv_head in E'.
  - apply home_descendant_inv in D2 as (c & j & ->). apply view_prefix in E as (k & m & Ek & _ & Hm & _); [|apply Hok]. simpl in Ek. injection Ek as <-.
    rewrite app_comm_cons in Hm. apply at_path_prefix in Hm as (m' & Hm' & _). fold (node_at (home (fs s)) (c :: j)) in Hm'.
    rewrite view_get_path, Hm' in Ee by (done || apply Hok). done.
Qed.

Lemma rename_advances source destination replace : rename_done sha256 s source destination replace s' -> advances.
Proof.
  intros Hr. pose proof (fun r => rename_vacant source destination replace r Hr) as Hvac.
  destruct Hr as [(D1 & D2 & Dne) Hout Hparent (n & Hsrc & Hex) (d & objs & Hc & Hshrink & Hview)].
  assert (Hd : BTree.sorted (home_view d)).
  { pose proof (c_ok _ _ _ _ _ _ _ Hc) as Hok'. rewrite (c_fs _ _ _ _ _ _ _ Hc) in Hok'. apply flat_dir_sorted. apply Hok'. }
  assert (Hdst : exists v, BTree.get destination (home_view d) = Some v).
  { rewrite Hview. unfold Replay.moved. rewrite decide_True by done. rewrite drop_all, app_nil_r, Hsrc. by eexists. }
  destruct Hdst as [v Hdst]. assert (Hne : destination <> []) by (by intros ->).
  eexists. eapply mutation_advances; [done|done|exact Hc| | | |by apply shrinks_from].
  - simpl. split; [by eapply Hn|by eapply new_name].
  - simpl. destruct (Replay.rename_moved (limits (fs s)) (home_view (home (fs s))) source destination replace (generation (fs s) + 1) n) as (nodes & -> & Hs & Hget); try done.
    + apply Hp.
    + apply view_sorted.
    + intros k w Hk _. rewrite <- Hview in Hk. by destruct (new_name _ _ _ _ _ _ Hc Hk) as [[? _] _].
    + f_equal. apply BTree.sorted_ext; [done|done|]. intros k. by rewrite Hget, Hview.
  - intros k w o m E Eo. left. rewrite Hview in E. unfold Replay.moved in E. destruct (decide (destination `prefix_of` k)).
    + apply fmap_Some in E as (v0 & E0 & ->). eexists _, v0. split; [exact E0|]. by destruct v0.
    + destruct (decide (source `prefix_of` k)); [done|]. by exists k, w.
Qed.

Let continues : Prop := (exists t, s' = with_fs (set_handles t) s) \/ advances.
Let Q {A} (_ : A) (t : Sys) : Prop := t = s' -> continues.

Lemma put_continues {A} (m : TreeM A) : atomic m s (fun _ t => exists q bs x, put_file sha256 s q bs x t) -> atomic m s Q.
Proof. intros H. eapply atomic_mono; [exact H|]. intros a t (q & bs & x & Hput) ->. right. by eapply put_advances. Qed.

Lemma write_file_continues c q bs x : atomic (write_file sha256 c q bs x) s Q.
Proof. apply put_continues. eapply atomic_mono; [by apply write_file_ok|]. intros _ t [Hput _]. by exists q, bs, x. Qed.

Lemma replace_continues q bs : atomic (replace_existing sha256 q bs) s Q.
Proof. apply put_continues. eapply atomic_mono; [by apply replace_existing_ok|]. intros _ t (x & Hput & _). by exists q, bs, x. Qed.

Lemma replace_revision_continues c q bs e x : atomic (replace_file_if_revision sha256 c q bs e x) s Q.
Proof. unfold replace_file_if_revision. apply atomic_read; [apply revision_no_panic|]. intros a _. destruct (negb _); [done|]. apply write_file_continues. Qed.

Lemma install_continues c source destination : atomic (install_executable_from_rom sha256 c source destination) s Q.
Proof.
  unfold install_executable_from_rom. apply atomic_lift; [apply split_mount_no_panic|]. intros [mount cs] Hm. destruct (negb _); [done|].
  apply atomic_read; [apply find_node_no_panic|]. intros n Hfind. destruct (_ || _); [done|]. destruct n as [m [o|ch]]; [|done]. cbn [contents].
  destruct (found_lookup _ _ _ _ _ Hok Hm Hfind) as [Hl _]. destruct (lookup_stored _ _ _ _ _ _ _ Hok Hl) as [st Hst].
  apply atomic_read; [unfold store_bytes; by rewrite Hst|]. intros bs _. apply atomic_lift; [apply writable_path_no_panic|]. intros [m2 cs2] _.
  apply atomic_lift; [apply split_name_no_panic|]. intros [name pcs] _. apply atomic_read; [apply find_directory_no_panic|]. intros dd _.
  destruct (BTree.contains_key name dd); [done|]. apply write_file_continues.
Qed.

Lemma unchanged_continues : s = s' -> continues.
Proof. intros <-. left. exists (handles (fs s)). by destruct s as [[] ?]. Qed.

Lemma write_continues h offset bs : atomic (write sha256 h offset bs) s Q.
Proof.
  unfold write. apply atomic_read; [apply get_no_panic|]. intros [q m] _. destruct (negb _); [done|]. apply (atomic_check _ _ _ (fun t => t = s)); [done|]. intros t ->.
  destruct (_ =? 0); [apply atomic_ret; exact unchanged_continues|]. apply atomic_lift; [by destruct (checked_add _ _ _)|]. intros stop _.
  apply atomic_read; [apply check_file_size_no_panic|]. intros [] _. apply atomic_read; [by apply file_bytes_ok|]. intros old _.
  apply (atomic_then _ (fun _ => _)). eapply atomic_mono; [apply replace_continues|done].
Qed.

Lemma truncate_continues h n : atomic (truncate sha256 h n) s Q.
Proof.
  unfold truncate. apply atomic_read; [apply get_no_panic|]. intros [q m] _. destruct (negb _); [done|]. apply atomic_read; [apply check_file_size_no_panic|]. intros [] _.
  apply atomic_read; [by apply file_bytes_ok|]. intros old _. destruct (_ =? _); [apply atomic_ret; exact unchanged_continues|apply replace_continues].
Qed.

Lemma rename_continues c source destination replace : atomic (rename sha256 c source destination replace) s Q.
Proof.
  eapply atomic_mono; [by apply rename_ok|]. intros _ t (_ & _ & [[_ ->]|Hr]) E; [by apply unchanged_continues|]. subst t. right. by eapply rename_advances.
Qed.

(** A request that succeeds changes nothing that is persistent, or advances the
    journal by the record of its change; one that fails changes nothing. *)
Lemma perform_atomic r : atomic (perform sha256 r) s Q.
Proof.
  destruct r as [c q|c q bs x|c q bs e x|c a0 b0|c q m|h|h o bs|h n|c q|c a0 b0 rep]; unfold perform; (eapply (atomic_then _ (fun _ => _)) || eapply atomic_then).
  - eapply atomic_mono; [apply create_advances|]. intros u t H E. right. by apply H.
  - apply write_file_continues.
  - apply replace_revision_continues.
  - apply install_continues.
  - eapply atomic_mono; [by apply open_handles|]. intros h t ((tb & ->) & _) E. left. by exists tb.
  - eapply atomic_mono; [by apply close_handles|]. intros u t (tb & ->) E. left. by exists tb.
  - apply write_continues.
  - apply truncate_continues.
  - eapply atomic_mono; [apply remove_advances|]. intros u t H E. right. by apply H.
  - apply rename_continues.
Qed.

Lemma perform_continues r o : perform sha256 r s = (o, s') -> continues /\ o <> Panic.
Proof.
  intros Hrun. pose proof (perform_atomic r) as H. unfold atomic in H. rewrite Hrun in H. destruct o; [split; [by apply H|done]|split; [by apply unchanged_continues|done]|done].
Qed.

End Requests.
End Digest.
End TreeReplay.
