(* ===== verification/TreeLoad.v ===== *)
(** Building a filesystem from an image and from a recovered state: [with_rom] and
    [restore_recovered] of src/filesystem/tree.rs rebuild exactly the tree the
    entries describe. *)

From S2P Require Import Prelude Words Unicode Path BTree FileHandle Codec Journal FsCheckpoint Recovery Replay Gate Rom Tree TreeInv TreeOps TreeRename TreeSpec TreeReplay.

Module TreeLoad.
Import FsError FsLimits Path PathProps Capability Quota Codec CodecProps Journal Tree TreeView TreeInv TreeOps TreeRename TreeSpec TreeReplay.

(** ** A tree is determined by its flat view *)

Lemma node_ext n : forall n', node_wf n -> node_wf n' -> (forall k, shallow <$> at_path n k = shallow <$> at_path n' k) -> n = n'.
Proof.
  induction n as [m o|m ch IH] using node_induction; intros [m' [o'|ch']] Hw Hw' H; pose proof (H []) as H0; simpl in H0; try (injection H0 as ??; congruence); try done.
  injection H0 as ->. do 2 f_equal. pose proof (wf_children _ _ Hw) as [Hs Hf]. pose proof (wf_children _ _ Hw') as [Hs' Hf'].
  apply BTree.sorted_ext; [done|done|]. intros c. pose proof (H [c]) as Hc. simpl in Hc.
  destruct (BTree.get c ch) as [x|] eqn:E, (BTree.get c ch') as [x'|] eqn:E'; simpl in Hc; try done. f_equal.
  rewrite Forall_forall in IH. apply BTree.get_elem in E as Hin; [|done]. apply (IH _ Hin); [eapply dir_wf_get; [|exact E]; by split|eapply dir_wf_get; [|exact E']; by split|].
  intros k. pose proof (H (c :: k)) as Hk. simpl in Hk. by rewrite E, E' in Hk.
Qed.

Lemma dir_ext base d d' : dir_wf d -> dir_wf d' -> flat_dir base d = flat_dir base d' -> d = d'.
Proof.
  intros Hd Hd' H. set (m := metadata (directory_node 0)).
  assert (E : dnode m d = dnode m d'); [|by injection E].
  apply node_ext; [by apply wf_dnode|by apply wf_dnode|]. intros k. destruct (decide (k = [])) as [->|Hk]; [done|].
  assert (Hg : BTree.get (base ++ k) (flat_dir base d) = BTree.get (base ++ k) (flat_dir base d')) by (by rewrite H).
  rewrite !flat_dir_get, !decide_False in Hg by done. unfold node_at in Hg. fold m in Hg.
  destruct (at_path (dnode m d) k) as [[[k1 s1 g1 x1] c1]|] eqn:E1, (at_path (dnode m d') k) as [[[k2 s2 g2 x2] c2]|] eqn:E2; simpl in Hg; try done. simpl.
  assert (W1 : node_wf (mkNode (mkMeta k1 s1 g1 x1) c1)) by (eapply at_path_wf; [|exact E1]; by apply wf_dnode).
  assert (W2 : node_wf (mkNode (mkMeta k2 s2 g2 x2) c2)) by (eapply at_path_wf; [|exact E2]; by apply wf_dnode).
  inversion W1; subst; inversion W2; subst; simpl in *; subst; injection Hg as ?; subst; done.
Qed.

(** ** Adding one entry *)

Lemma find_directory_flat base d pcs : dir_wf d ->
  pcs = [] \/ (exists q g, BTree.get (base ++ pcs) (flat_dir base d) = Some (FsCheckpoint.Directory q g)) -> exists dd, find_directory d pcs = Ok dd.
Proof.
  intros Hd [->|(q & g & H)]; [by exists d|]. rewrite flat_dir_get in H by done. destruct (decide (pcs = [])) as [->|Hne]; [by exists d|].
  destruct (node_at d pcs) as [[m [o|dd]]|] eqn:E; simpl in H; try done. exists dd. apply find_directory_at. by exists m.
Qed.

Lemma load_entry base d pcs name n : dir_wf d -> node_wf n -> leaf n = true ->
  pcs = [] \/ (exists q g, BTree.get (base ++ pcs) (flat_dir base d) = Some (FsCheckpoint.Directory q g)) ->
  BTree.get (base ++ pcs ++ [name]) (flat_dir base d) = None ->
  exists d', update_directory (BTree.insert name n) d pcs = Ok d' /\ dir_wf d' /\
    flat_dir base d' = BTree.insert (base ++ pcs ++ [name]) (cp_of (base ++ pcs ++ [name]) (shallow n)) (flat_dir base d) /\
    forall w, dsum w d' = dsum w d + tsum w n.
Proof.
  intros Hd Hn Hl Hp Hnone. destruct (find_directory_flat base d pcs Hd Hp) as [dd Hdd].
  assert (Hget : BTree.get name dd = None).
  { rewrite flat_dir_get, decide_False in Hnone by (done || by destruct pcs). rewrite (node_at_under _ _ _ _ _ Hdd) in Hnone. by destruct (BTree.get name dd). }
  destruct (update_directory_ok (BTree.insert name n) d pcs dd Hdd) as [d' Hu]. exists d'. split; [done|].
  destruct (flat_put base d pcs name n dd d' Hd Hn Hdd Hu Hl) as [Hd' Hflat]; [by rewrite Hget|]. split; [done|]. split; [done|]. intros w.
  rewrite (dsum_update w _ d pcs dd d' Hd Hdd Hu), dsum_insert by (apply (find_directory_wf _ _ _ Hd Hdd)). rewrite Hget. simpl. lia.
Qed.

(** ** The object store while loading *)

Section Digest.
Context (sha256 : list Z -> Digest).
(** The digest does not collide on the contents in use. *)
Context (Content : list Z -> Prop).
Hypothesis sha256_free : forall a b, Content a -> Content b -> sha256 a = sha256 b -> a = b.

(** An object of the store has the digest it is stored under. *)
Definition store_digests (f : ComputerFileSystem) : Prop :=
  forall o st, BTree.get o (objects f) = Some st -> sha256 (stored_bytes st) = o /\ Content (stored_bytes st).

(** The store of a filesystem under construction. *)
Record store_sound (f : ComputerFileSystem) : Prop := {
  ss_store : store_ok (objects f);
  ss_refs : forall o, refs o (objects f) = dsum (w_refs o) (home f) + dsum (w_refs o) (rom f);
  ss_digests : store_digests f }.

Lemma store_load f o bs : store_sound f -> dsum w_nodes (home f) + dsum w_nodes (rom f) < u32_max -> sha256 bs = o -> Content bs ->
  exists objs, store_replace None o bs (objects f) = Ok objs /\ store_ok objs /\ (forall o', refs o' objs = refs o' (objects f) + one_if (o' = o)) /\
    forall o' st, BTree.get o' objs = Some st -> sha256 (stored_bytes st) = o' /\ Content (stored_bytes st).
Proof.
  intros [Hs Hr Hd] Hn Ho Hc. destruct (store_replace_ok None o bs (objects f) Hs) as (objs & Hrep & Hs' & Hr' & Hg); [|done|].
  - rewrite Hr. pose proof (dsum_le (w_refs o) w_nodes (home f) ltac:(intros m o'; apply one_if_bound)).
    pose proof (dsum_le (w_refs o) w_nodes (rom f) ltac:(intros m o'; apply one_if_bound)). lia.
  - exists objs. split; [done|]. split; [done|]. split; [intros o'; rewrite Hr'; unfold one_if at 2; rewrite decide_False by done; lia|].
    intros o' st E. specialize (Hg o' st E). destruct (BTree.get o' (objects f)) as [st0|] eqn:E0.
    + rewrite Hg. by apply Hd.
    + destruct Hg as [-> ->]. done.
Qed.

Lemma leaf_refs n o' : node_wf n -> leaf n = true -> tsum (w_refs o') n = one_if (object_id_of n = Some o').
Proof. intros Hw Hl. by apply leaf_sums. Qed.

(** ** Restoring a recovered namespace *)

(** The leaf [restore_recovered] makes of a node. *)
Definition node_of (v : FsCheckpoint.CheckpointNode) : Node :=
  match v with
  | FsCheckpoint.Directory _ g => directory_node g
  | FsCheckpoint.File _ g s o x => file_node o s g x
  end.

Lemma node_of_ok v : 0 <= Recovery.file_size v -> node_wf (node_of v) /\ leaf (node_of v) = true /\ cp_of (FsCheckpoint.node_path v) (shallow (node_of v)) = v.
Proof. destruct v; simpl; intros H; split_and!; try done; [apply wf_dnode; try done; split; constructor|by constructor]. Qed.

Section Restore.
Context (d0 : list (list Z * Node)) (objs : list (list Z * list Z)) (f1 : ComputerFileSystem).
Context (Hd0 : dir_wf d0) (Hw0 : within (limits f1) d0) (Hok1 : fs_ok f1) (Hh1 : home f1 = []) (Hs1 : store_digests f1).
Context (Hobjs : forall k v o n, BTree.get k (home_view d0) = Some v -> FsCheckpoint.object v = Some (o, n) ->
  exists bs, BTree.get o objs = Some bs /\ size bs = n /\ sha256 bs = o /\ Content bs).

Record restored (a : list (list (list Z) * FsCheckpoint.CheckpointNode)) (f : ComputerFileSystem) : Prop := {
  re_view : home_view (home f) = a;
  re_home : dir_wf (home f);
  re_store : store_sound f;
  re_frame : f = set_home (home f) (set_objects (objects f) f1) }.

Lemma view_sizes k v : BTree.get k (home_view d0) = Some v -> FsCheckpoint.node_path v = k /\ 0 <= Recovery.file_size v.
Proof.
  intros H. apply view_prefix in H as (j & n & -> & Hj & Hn & ->); [|done].
  assert (Hw : node_wf n) by (eapply at_path_wf; [|exact Hn]; by apply wf_dnode). inversion Hw; subst; simpl; split; (done || lia).
Qed.

(** The parent of an entry is a directory that comes before it. *)
Lemma parent_before a k v b : home_view d0 = a ++ (k, v) :: b -> exists pcs name, k = [str_home] ++ pcs ++ [name] /\
  (pcs = [] \/ exists q g, BTree.get ([str_home] ++ pcs) a = Some (FsCheckpoint.Directory q g)) /\ BTree.get k a = None.
Proof.
  intros Hv. pose proof (flat_dir_sorted [str_home] d0 Hd0) as Hs. fold (home_view d0) in Hs. rewrite Hv in Hs. pose proof Hs as (Ha & Hb & Hab)%BTree.sorted_app.
  assert (Hk : BTree.get k (home_view d0) = Some v). { rewrite Hv. apply BTree.get_elem; [done|]. apply elem_of_app. right. by left. }
  assert (Hnone : BTree.get k a = None).
  { destruct (BTree.get k a) as [u|] eqn:E; [|done]. apply BTree.get_elem in E; [|done]. exfalso. apply (BTree.lt_irrefl k), (Hab (k, u) (k, v) E). by left. }
  apply view_prefix in Hk as (j & n & -> & Hj & Hn & ->); [|done]. apply find_node_at, find_node_split in Hn as (pcs & name & dd & -> & Hdd & Hg); [|done].
  exists pcs, name. split; [done|]. split; [|done]. destruct (decide (pcs = [])) as [?|Hne]; [by left|right]. apply find_directory_at in Hdd as (m & Hm).
  exists ([str_home] ++ pcs), (node_generation m).
  assert (Hp : BTree.get ([str_home] ++ pcs) (home_view d0) = Some (FsCheckpoint.Directory ([str_home] ++ pcs) (node_generation m))).
  { unfold home_view. rewrite flat_dir_get, decide_False by done. by rewrite Hm. }
  rewrite Hv in Hp. apply BTree.get_elem in Hp; [|done]. apply BTree.get_elem; [done|]. apply elem_of_app in Hp as [Hp|Hp]; [done|]. exfalso.
  assert (Hlt : BTree.lt ([str_home] ++ pcs) ([str_home] ++ pcs ++ [name])) by (rewrite app_assoc; by apply BTree.lex_prefix).
  apply elem_of_cons in Hp as [E|Hp]; [injection E as E _; apply (f_equal length) in E; rewrite length_app in E; simpl in E; lia|].
  apply BTree.sorted_cons in Hb as [_ Hall]. rewrite Forall_forall in Hall. specialize (Hall _ Hp). simpl in Hall. by apply BTree.lt_asym in Hall.
Qed.

Lemma nodes_room a k v b f : home_view d0 = a ++ (k, v) :: b -> restored a f -> dsum w_nodes (home f) + dsum w_nodes (rom f) < u32_max.
Proof.
  intros Hv [Hview Hd _ Hframe]. rewrite <- (flat_dir_length [str_home] (home f)). fold (home_view (home f)). rewrite Hview.
  pose proof (flat_dir_length [str_home] d0) as Hlen. fold (home_view d0) in Hlen. rewrite Hv, size_app in Hlen.
  pose proof (wi_nodes _ _ Hw0). pose proof (f_rom_nodes _ Hok1). pose proof (fl_nodes _ (f_limits _ Hok1)). rewrite Hframe. cbn [rom set_home set_objects].
  assert (size ((k, v) :: b) >= 1) by (unfold size; simpl; lia). unfold u32_max. lia.
Qed.

Lemma restore_step a k v b f : home_view d0 = a ++ (k, v) :: b -> restored a f ->
  exists f', restore_node objs v f = Ok f' /\ restored (a ++ [(k, v)]) f'.
Proof.
  intros Hv Hre. pose proof (nodes_room _ _ _ _ _ Hv Hre) as Hroom. destruct (parent_before _ _ _ _ Hv) as (pcs & name & Ek & Hparent & Hnone).
  destruct Hre as [Hview Hd Hst Hframe].
  pose proof (flat_dir_sorted [str_home] d0 Hd0) as Hs. fold (home_view d0) in Hs. rewrite Hv in Hs.
  assert (Hk : BTree.get k (home_view d0) = Some v). { rewrite Hv. apply BTree.get_elem; [done|]. apply elem_of_app. right. by left. }
  destruct (view_sizes _ _ Hk) as [Hpath Hsize]. destruct (node_of_ok v Hsize) as (Hwf & Hleaf & Hcp).
  destruct (load_entry [str_home] (home f) pcs name (node_of v) Hd Hwf Hleaf) as (d & Hu & Hd' & Hflat & Hsum).
  { by rewrite <- Hview in Hparent. } { rewrite <- Ek. fold (home_view (home f)). by rewrite Hview. }
  assert (Hwrite : writable_path (FsCheckpoint.node_path v) = Ok (MHome, pcs ++ [name])) by (apply writable_path_ok; by rewrite Hpath, Ek).
  assert (Hsplit : split_name (pcs ++ [name]) = Ok (name, pcs)) by (by apply split_name_ok).
  assert (Hview' : home_view d = a ++ [(k, v)]).
  { unfold home_view. rewrite Hflat, <- Ek, <- Hpath, Hcp, Hpath. fold (home_view (home f)). rewrite Hview. apply BTree.insert_last.
    rewrite (cons_middle (k, v)), app_assoc in Hs. by apply BTree.sorted_app in Hs as [? _]. }
  unfold restore_node. rewrite Hwrite. cbn [mbind outcome_bind]. rewrite Hsplit. cbn [mbind outcome_bind].
  destruct v as [q g|q g s o x]; cbn [node_of] in *.
  - cbn [mbind outcome_bind]. rewrite Hu. cbn [mbind outcome_bind]. eexists. split; [done|]. split; cbn [home set_home]; [done|done| |].
    + destruct Hst as [H1 H2 H3]. split; cbn [objects home rom set_home]; [done| |done]. intros o. rewrite H2, Hsum, leaf_refs by done. simpl. unfold one_if. rewrite decide_False by done. lia.
    + rewrite Hframe. done.
  - destruct (Hobjs _ _ o s Hk eq_refl) as (bs & Hbs & Hn & Ho & Hc). rewrite Hbs. cbn [ok_or mbind outcome_bind]. rewrite Hn, Z.eqb_refl. cbn [negb].
    destruct (store_load f o bs Hst Hroom Ho Hc) as (store & Hrep & Hs' & Hr' & Hdig). rewrite Hrep. cbn [mbind outcome_bind home set_objects]. rewrite Hu. cbn [mbind outcome_bind].
    eexists. split; [done|]. split; cbn [home set_home]; [done|done| |].
    + destruct Hst as [H1 H2 H3]. split; cbn [objects home rom set_home set_objects]; [done| |done]. intros o'. rewrite Hr', H2, Hsum, leaf_refs by done. simpl.
      rewrite (one_if_ext (Some o = Some o') (o' = o)) by naive_solver. lia.
    + rewrite Hframe. done.
Qed.

Lemma restore_all b : forall a f, home_view d0 = a ++ b -> restored a f -> exists f', restore_nodes objs (BTree.values b) f = Ok f' /\ restored (a ++ b) f'.
Proof.
  induction b as [|[k v] b IH]; intros a f Hv Hre; [exists f; by rewrite app_nil_r|]. destruct (restore_step _ _ _ _ _ Hv Hre) as (f2 & Hn & Hre2).
  destruct (IH (a ++ [(k, v)]) f2) as (f' & Hns & Hre'); [by rewrite <- app_assoc|done|]. exists f'. rewrite <- app_assoc in Hre'. split; [|done].
  cbn [BTree.values fmap list_fmap snd restore_nodes]. rewrite Hn. exact Hns.
Qed.

Lemma reserve_all n b : 0 <= n -> 0 <= b -> b <= maximum_logical_bytes (limits f1) -> 2 + n <= maximum_nodes (limits f1) ->
  reserve (quota f1) (mkCost b n 0 0) = Ok (mkReservation (mkCost b n 0 0)).
Proof.
  intros Hn Hb Hmb Hmn. destruct (f_limits _ Hok1). rewrite (f_quota _ Hok1), Hh1. unfold reserve, ledger, checked_add. cbn [logical_bytes nodes max_logical_bytes max_nodes logical_bytes_added nodes_added].
  change (dsum w_bytes []) with 0. change (dsum w_nodes []) with 0. rewrite (proj2 (Z.leb_le (0 + b) _)) by lia. cbn [ok_or mbind outcome_bind].
  rewrite (proj2 (Z.leb_le _ u32_max)) by (unfold u32_max; lia). cbn [ok_or mbind outcome_bind]. by rewrite !(proj2 (Z.ltb_ge _ _)) by lia.
Qed.

(** Restoring what was recovered rebuilds the very tree. *)
Lemma restore_ok g : 0 <= g <= u64_max -> exists f', restore_recovered (Recovery.mkRecovered g (home_view d0)) objs f1 = Ok f' /\ fs_ok f' /\ store_digests f' /\
  f' = mkFs (rom f1) d0 (handles f1) (objects f') (ledger (limits f1) d0) (limits f1) g (persistence f1).
Proof.
  intros Hg. destruct (f_limits _ Hok1) as [Hln Hlb _ _ _]. destruct Hw0 as [Hwb Hwn Hwe].
  pose proof (dsum_nonneg w_bytes d0 w_bytes_nonneg) as Hb0. pose proof (dsum_nonneg w_nodes d0 w_nodes_nonneg) as Hn0.
  pose proof (flat_dir_length [str_home] d0) as Hlen. fold (home_view d0) in Hlen. pose proof (flat_dir_total [str_home] d0 Hd0) as Htot. fold (home_view d0) in Htot.
  unfold restore_recovered. cbn [Recovery.state_nodes Recovery.state_generation].
  assert (Hsum : Recovery.sum_checked u64_max ((fun n => match FsCheckpoint.object n with Some (_, s) => s | None => 0 end) <$> BTree.values (home_view d0)) 0 = Some (dsum w_bytes d0)).
  { rewrite <- Htot, <- (sum_checked_total u64_max); [f_equal; apply list_fmap_ext; by intros ? []| |lia].
    intros [k v] Hv. apply BTree.get_elem in Hv; [|by apply flat_dir_sorted]. by apply view_sizes in Hv as [_ ?]. }
  rewrite Hsum. cbn [ok_or mbind outcome_bind]. assert (Hcount : size (BTree.values (home_view d0)) = dsum w_nodes d0) by (rewrite <- Hlen; unfold size, BTree.values; by rewrite length_fmap).
  rewrite Hcount. assert (Htry : try_from_unsigned u32_max (dsum w_nodes d0) = Some (dsum w_nodes d0)) by (unfold try_from_unsigned, in_range, u32_max; rewrite !(proj2 (Z.leb_le _ _)) by lia; done). rewrite Htry. cbn [ok_or mbind outcome_bind]. rewrite reserve_all by lia. cbn [mbind outcome_bind].
  destruct (restore_all (home_view d0) [] f1 eq_refl) as (f2 & Hrun & [Hview Hd Hst Hframe]).
  { split; [by rewrite Hh1|apply Hok1|split; [apply Hok1|apply Hok1|done]|by destruct f1; simpl in *]. }
  rewrite Hrun. cbn [mbind outcome_bind]. assert (Ed : home f2 = d0) by (eapply dir_ext; [done|done|exact Hview]).
  assert (Eq : commit (mkReservation (mkCost (dsum w_bytes d0) (dsum w_nodes d0) 0 0)) (quota f2) = Ok (ledger (limits f1) d0)).
  { rewrite Hframe. cbn [quota set_home set_objects]. rewrite (f_quota _ Hok1), Hh1. unfold commit, ledger. cbn [logical_bytes nodes max_logical_bytes max_nodes logical_bytes_added nodes_added reserved].
    change (dsum w_bytes []) with 0. change (dsum w_nodes []) with 0. rewrite (proj2 (Z.ltb_ge u64_max _)), (proj2 (Z.ltb_ge u32_max _)) by (unfold u32_max in *; lia). done. }
  rewrite Eq. cbn [mbind outcome_bind]. eexists. split; [done|]. destruct Hst as [Hst1 Hst2 Hst3]. split; [|split; [exact Hst3|]].
  - assert (Er : rom f2 = rom f1) by (by rewrite Hframe). assert (El : limits f2 = limits f1) by (by rewrite Hframe). rewrite Ed, Er in Hst2.
    split; cbn [home rom objects quota limits generation set_generation set_quota]; rewrite ?Ed, ?Er, ?El; try apply Hok1; try done.
  - unfold set_generation, set_quota. cbn [rom home handles objects limits persistence]. f_equal; try done; by rewrite Hframe.
Qed.

End Restore.
End Digest.
End TreeLoad.
