(* ===== verification/RomLoad.v ===== *)
(** Mounting a ROM image: what an admitted image contains (src/filesystem/rom.rs) and
    that [with_rom] (tree.rs) makes of it exactly the tree its entries describe. *)

From S2P Require Import Prelude Words Unicode Path BTree FileHandle Codec Journal FsCheckpoint Recovery Replay Gate Rom Tree TreeInv TreeOps TreeRename TreeSpec TreeReplay TreeLoad.

Module RomLoad.
Import FsError FsLimits Path PathProps Capability Quota Codec CodecProps Journal Rom Tree TreeView TreeInv TreeOps TreeRename TreeSpec TreeReplay TreeLoad.

(** ** Admitted images *)

(** Each entry comes after all before it and after the directory it is in. *)
Definition placed (a : list RomEntry) (e : RomEntry) : Prop :=
  (exists pcs name, entry_path e = [str_rom] ++ pcs ++ [name] /\
     (pcs = [] \/ exists e', e' ∈ a /\ entry_kind e' = RomDirectory /\ entry_path e' = [str_rom] ++ pcs)) /\
  (forall e', e' ∈ a -> BTree.lt (entry_path e') (entry_path e)).
Definition ordered (es : list RomEntry) : Prop := forall a e b, es = a ++ e :: b -> placed a e.

Lemma entry_path_ok l root prev dirs c p c' : read_entry_path l root prev dirs c = (Ok p, c') ->
  root `prefix_of` p /\ p <> root /\ (forall q, prev = Some q -> BTree.lt q p) /\ exists q, parent p = Some q /\ q ∈ dirs.
Proof.
  intros H. unfold read_entry_path in H. apply st_bind_inv in H as (n & c1 & _ & H). destruct (_ <? _); [done|].
  apply st_bind_inv in H as (text & c2 & _ & H). destruct (negb _); [done|]. apply st_bind_inv in H as (p' & c3 & _ & H).
  destruct (negb (is_within p' root) || bool_decide (p' = root)) eqn:E1; [done|]. destruct (match prev with Some q => _ | None => _ end) eqn:E2; [done|].
  apply st_bind_inv in H as (q & c4 & Hq & H). destruct (negb (bool_decide (q ∈ dirs))) eqn:E3; [done|]. injection H as <- _.
  apply orb_false_iff in E1 as [E1 E1']. apply negb_false_iff in E1. apply bool_decide_eq_false in E1'. apply negb_false_iff, bool_decide_eq_true in E3.
  split; [by apply starts_with_prefix|]. split; [done|]. split; [intros q' ->; by apply negb_false_iff, bool_decide_eq_true in E2|]. exists q. split; [|done].
  unfold st_lift in Hq. destruct (parent p') as [q'|]; simpl in Hq; [by injection Hq as ->|done].
Qed.

Lemma entry_body_ok l p c e c' : read_entry_body l p c = (Ok e, c') -> entry_path e = p.
Proof.
  intros H. unfold read_entry_body in H. apply st_bind_inv in H as (k & c1 & _ & H). apply st_bind_inv in H as (fl & c2 & _ & H).
  apply st_bind_inv in H as (r & c3 & _ & H). destruct (negb _); [done|]. apply st_bind_inv in H as (n & c4 & _ & H). destruct (_ && _); [by injection H as <- _|].
  destruct (_ && _); [|done]. destruct (_ <? _); [done|]. apply st_bind_inv in H as (bs & c5 & _ & H). by injection H as <- _.
Qed.

Lemma placed_below p q : [str_rom] `prefix_of` p -> p <> [str_rom] -> parent p = Some q ->
  exists pcs name, p = [str_rom] ++ pcs ++ [name] /\ q = [str_rom] ++ pcs.
Proof.
  intros [j ->] Hne Hp. destruct j as [|name pcs _] using rev_ind; [done|]. exists pcs, name. split; [done|]. unfold parent in Hp. rewrite bool_decide_eq_false_2 in Hp by done.
  injection Hp as <-. change (take (length ((str_rom :: pcs) ++ [name]) - 1) ((str_rom :: pcs) ++ [name]) = str_rom :: pcs).
  rewrite length_app, Nat.add_sub. apply take_app_length.
Qed.

Lemma read_entries_ok l count : forall prev dirs a c es c',
  (forall e, e ∈ a -> exists q, prev = Some q /\ (entry_path e = q \/ BTree.lt (entry_path e) q)) ->
  (forall q, q ∈ dirs -> q = [str_rom] \/ exists e, e ∈ a /\ entry_kind e = RomDirectory /\ entry_path e = q) ->
  read_entries l [str_rom] count prev dirs c = (Ok es, c') ->
  length es = count /\ forall b e b', es = b ++ e :: b' -> placed (a ++ b) e.
Proof.
  induction count as [|count IH]; intros prev dirs a c es c' Hprev Hdirs H; cbn [read_entries] in H; [injection H as <- _; split; [done|]; by intros [] ? ?|].
  apply st_bind_inv in H as (p & c1 & Hpath & H). apply st_bind_inv in H as (e & c2 & Hbody & H). apply st_bind_inv in H as (es' & c3 & Hes & H). injection H as <- _.
  apply entry_path_ok in Hpath as (Hroot & Hne & Hlt & q & Hq & Hqd). apply entry_body_ok in Hbody.
  assert (Hp : placed a e).
  { split; rewrite Hbody.
    - destruct (placed_below p q Hroot Hne Hq) as (pcs & name & -> & ->). exists pcs, name. split; [done|]. destruct (Hdirs _ Hqd) as [E|(e' & He' & Hk & E)].
      + left. by destruct pcs.
      + right. by exists e'.
    - intros e' He'. destruct (Hprev e' He') as (q' & -> & Hq'). specialize (Hlt q' eq_refl). destruct Hq' as [->|Hq']; [done|by eapply BTree.lt_trans]. }
  destruct (IH (Some p) (match entry_kind e with RomDirectory => p :: dirs | RomFile => dirs end) (a ++ [e]) c2 es' c3) as [Hlen Hall]; [| |done|].
  - intros e' He'. exists p. split; [done|]. apply elem_of_app in He' as [He'|He'%list_elem_of_singleton]; [right; rewrite <- Hbody; by apply Hp|left; by subst].
  - intros q' Hq'. assert (Hcase : q' ∈ dirs \/ (entry_kind e = RomDirectory /\ q' = p)).
    { destruct (entry_kind e); [apply elem_of_cons in Hq' as [->|?]; [by right|by left]|by left]. }
    destruct Hcase as [Hd|[Hk ->]].
    + destruct (Hdirs _ Hd) as [?|(e' & ? & ?)]; [by left|right]. exists e'. split; [apply elem_of_app; by left|done].
    + right. exists e. split; [apply elem_of_app; right; by left|done].
  - split; [simpl; by rewrite Hlen|]. intros [|b0 b] e0 b' E; injection E as -> E.
    + by rewrite app_nil_r.
    + rewrite cons_middle, app_assoc. by eapply Hall.
Qed.

Lemma rom_root_ok l p : parse_utf8 (slash :: str_rom) l = Ok p -> p = [str_rom].
Proof.
  unfold parse_utf8. destruct (_ || _); [done|]. rewrite bool_decide_eq_false_2 by done. rewrite bool_decide_eq_false_2 by done. simpl.
  destruct (component_rejected _ _); [done|]. simpl. destruct (_ <? _); [done|]. by intros [= <-].
Qed.

Section Digest.
Context (sha256 : list Z -> Digest).

(** An admitted image lists at most as many entries as fit, each after its directory. *)
Lemma admit_ok l bs image : admit_image sha256 bs l = Ok image -> 2 <= maximum_nodes l -> ordered (entries image) /\ size (entries image) <= maximum_nodes l - 2.
Proof.
  intros H Hl. unfold admit_image in H. destruct (_ <? _); [done|]. destruct (_ <? _); [done|]. destruct (negb _); [done|].
  destruct (rom_body _ _ _) as [o c'] eqn:E. simpl in H. subst o. unfold rom_body in E.
  apply st_bind_inv in E as (magic & c1 & _ & E). destruct (negb _); [done|]. apply st_bind_inv in E as (v & c2 & _ & E). destruct (negb _); [done|].
  apply st_bind_inv in E as (r & c3 & _ & E). destruct (negb _); [done|]. apply st_bind_inv in E as (count & c4 & Hcount & E).
  destruct (Z.ltb_spec (saturating_sub (maximum_nodes l) 2) count); [done|]. apply st_bind_inv in E as (root & c5 & Hroot & E).
  apply st_bind_inv in E as (es & c6 & Hes & E). apply st_bind_inv in E as (c7 & c8 & _ & E). destruct (negb _); [done|]. injection E as <- _.
  assert (root = [str_rom]) as ->. { unfold st_lift in Hroot. destruct (parse_utf8 _ l) eqn:Ep; [|done|done]. injection Hroot as -> _. by apply rom_root_ok in Ep. }
  apply (read_entries_ok l _ None [[str_rom]] []) in Hes as [Hlen Hall].
  - split; [exact Hall|]. cbn [entries]. unfold size. rewrite Hlen. unfold saturating_sub in *. lia.
  - by intros e ?%elem_of_nil.
  - intros q ->%list_elem_of_singleton. by left.
Qed.

(** ** Mounting *)

Context (Content : list Z -> Prop).
Hypothesis sha256_free : forall a b, Content a -> Content b -> sha256 a = sha256 b -> a = b.

Definition rom_node (e : RomEntry) : Node :=
  match entry_kind e with
  | RomDirectory => directory_node 0
  | RomFile => file_node (sha256 (entry_content e)) (size (entry_content e)) 0 (entry_executable e)
  end.

Lemma rom_node_ok e : node_wf (rom_node e) /\ leaf (rom_node e) = true.
Proof.
  unfold rom_node. destruct (entry_kind e); split; try done; [apply wf_dnode; try done; split; constructor|]. constructor; [done|apply size_nonneg].
Qed.

Section Mount.
Context (l : FileSystemLimits) (Hl : fs_limits_ok l).

Record mounted (a : list RomEntry) (f : ComputerFileSystem) : Prop := {
  mo_frame : f = set_objects (objects f) (set_rom (rom f) (with_limits l));
  mo_rom : dir_wf (rom f);
  mo_store : store_sound sha256 Content f;
  mo_nodes : dsum w_nodes (rom f) = size a;
  mo_view : forall k v, BTree.get k (flat_dir [str_rom] (rom f)) = Some v <-> exists e, e ∈ a /\ entry_path e = k /\ v = cp_of k (shallow (rom_node e)) }.

Lemma mounted_empty : mounted [] (with_limits l).
Proof.
  split; try done; [by split; constructor| |].
  - split; [split; [constructor|done]|done|done].
  - intros k v. split; [done|]. by intros (e & ?%elem_of_nil & _).
Qed.

Lemma mount_step a e f : mounted a f -> placed a e -> Content (entry_content e) -> size a + 1 <= maximum_nodes l - 2 ->
  exists f', rom_insert sha256 e f = Ok f' /\ mounted (a ++ [e]) f'.
Proof.
  intros [Hframe Hd Hst Hn Hview] [(pcs & name & Ep & Hparent) Hlt] Hc Hsize. destruct (rom_node_ok e) as [Hwf Hleaf].
  destruct (load_entry [str_rom] (rom f) pcs name (rom_node e) Hd Hwf Hleaf) as (d & Hu & Hd' & Hflat & Hsum).
  { destruct Hparent as [->|(e' & He' & Hk & Epath)]; [by left|right]. exists ([str_rom] ++ pcs), 0. apply Hview. exists e'. split; [done|]. split; [done|]. unfold rom_node. by rewrite Hk. }
  { rewrite <- Ep. destruct (BTree.get _ _) as [v|] eqn:E; [|done]. apply Hview in E as (e' & He' & E & _). specialize (Hlt e' He'). rewrite E in Hlt. by apply BTree.lt_irrefl in Hlt. }
  assert (Hsplit : split_name (pcs ++ [name]) = Ok (name, pcs)) by (by apply split_name_ok).
  assert (Hview' : forall k v, BTree.get k (flat_dir [str_rom] d) = Some v <-> exists e0, e0 ∈ a ++ [e] /\ entry_path e0 = k /\ v = cp_of k (shallow (rom_node e0))).
  { intros k v. rewrite Hflat, BTree.get_insert, <- Ep by (by apply flat_dir_sorted). destruct (decide (k = entry_path e)) as [->|Hne].
    - split; [intros [= <-]; exists e; split; [apply elem_of_app; right; by left|done]|]. intros (e0 & [He0|He0%list_elem_of_singleton]%elem_of_app & Ek & ->); [|by subst].
      specialize (Hlt e0 He0). rewrite Ek in Hlt. by apply BTree.lt_irrefl in Hlt.
    - rewrite Hview. split; intros (e0 & He0 & Ek & Ev); exists e0; (split; [|done]); [apply elem_of_app; by left|].
      apply elem_of_app in He0 as [He0|He0%list_elem_of_singleton]; [done|by subst]. }
  assert (Hcount : dsum w_nodes d = size (a ++ [e])). { rewrite Hsum, Hn, size_app. destruct (leaf_sums _ Hwf Hleaf) as (-> & _). done. }
  assert (Hhome : home f = []) by (by rewrite Hframe). unfold rom_insert. rewrite Ep. cbn [app]. rewrite Hsplit. cbn [mbind outcome_bind]. unfold rom_node in Hu. destruct (entry_kind e) eqn:Ek.
  - rewrite Hu. cbn [mbind outcome_bind]. eexists. split; [done|]. destruct Hst as [H1 H2 H3]. split; cbn [rom set_rom objects]; [by rewrite Hframe|done| |done|done].
    split; cbn [rom set_rom objects home]; [done| |done]. intros o. rewrite H2, Hsum, leaf_refs by done. unfold rom_node. rewrite Ek. simpl. unfold one_if. rewrite decide_False by done. lia.
  - unfold object_id. rewrite Hu. cbn [mbind outcome_bind].
    destruct (store_load sha256 Content f (sha256 (entry_content e)) (entry_content e) Hst) as (store & Hrep & Hs' & Hr' & Hdig); [|done|done|].
    { rewrite Hhome, Hn. pose proof (fl_nodes _ Hl). change (dsum w_nodes []) with 0. unfold u32_max. lia. }
    rewrite Hrep. eexists. split; [done|]. destruct Hst as [H1 H2 H3]. split; cbn [rom set_rom objects set_objects]; [by rewrite Hframe|done| |done|done].
    split; cbn [rom set_rom objects home set_objects]; [done| |done]. intros o. rewrite Hr', H2, Hsum, leaf_refs by done. unfold rom_node. rewrite Ek. simpl.
    rewrite (one_if_ext (Some (sha256 (entry_content e)) = Some o) (o = sha256 (entry_content e))) by naive_solver. lia.
Qed.

Lemma mount_all b : forall a f, mounted a f -> ordered (a ++ b) -> (forall e, e ∈ b -> Content (entry_content e)) -> size (a ++ b) <= maximum_nodes l - 2 ->
  exists f', rom_insert_all sha256 b f = Ok f' /\ mounted (a ++ b) f'.
Proof.
  induction b as [|e b IH]; intros a f Hm Ho Hc Hsize; [exists f; by rewrite app_nil_r|].
  destruct (mount_step a e f Hm) as (f1 & H1 & Hm1); [by eapply Ho|apply Hc; by left|rewrite size_app in Hsize; unfold size in *; simpl in Hsize; lia|].
  destruct (IH (a ++ [e]) f1 Hm1) as (f' & H2 & Hm2); [by rewrite <- app_assoc|intros e' He'; apply Hc; by right|by rewrite <- app_assoc|].
  exists f'. rewrite <- app_assoc in Hm2. split; [|done]. cbn [rom_insert_all]. rewrite H1. exact H2.
Qed.

Lemma mounted_ok a f : mounted a f -> size a <= maximum_nodes l - 2 -> fs_ok f.
Proof.
  intros [Hframe Hd [H1 H2 H3] Hn _] Hsize. destruct (with_limits_ok l Hl). rewrite Hframe in *. cbn [objects rom home set_objects set_rom] in *. split; cbn [objects rom home set_objects set_rom limits quota generation]; try done.
  cbn [limits with_limits]. lia.
Qed.

(** What an entry stands for. *)
Definition entry_node (e : RomEntry) : ANode :=
  match entry_kind e with RomDirectory => ADirectory | RomFile => AFile (entry_content e) (entry_executable e) end.

Lemma mounted_abs a f : mounted a f -> size a <= maximum_nodes l - 2 -> (forall e, e ∈ a -> Content (entry_content e)) ->
  sizes_ok f /\ forall k n, abs f k = Some n <-> exists e, e ∈ a /\ entry_path e = k /\ n = entry_node e.
Proof.
  intros Hm Hsize Hc. pose proof (mounted_ok a f Hm Hsize) as Hok. destruct Hm as [Hframe Hd [_ _ Hdig] Hn Hview].
  assert (Hlook : forall k, lookup f k = BTree.get k (flat_dir [str_rom] (rom f))) by (intros k; unfold lookup; by rewrite Hframe).
  assert (Hbytes : forall e st, e ∈ a -> BTree.get (sha256 (entry_content e)) (objects f) = Some st -> stored_bytes st = entry_content e).
  { intros e st He Hst. destruct (Hdig _ _ Hst) as [E1 E2]. apply sha256_free; [done|by apply Hc|done]. }
  assert (Habs : forall e, e ∈ a -> abs_node (objects f) (cp_of (entry_path e) (shallow (rom_node e))) = Some (entry_node e)).
  { intros e He. assert (Hl0 : lookup f (entry_path e) = Some (cp_of (entry_path e) (shallow (rom_node e)))) by (rewrite Hlook; apply Hview; by exists e).
    unfold rom_node, entry_node in *. destruct (entry_kind e); [done|]. simpl in *. destruct (lookup_stored _ _ _ _ _ _ _ Hok Hl0) as [st Hst]. rewrite Hst. simpl.
    by rewrite (Hbytes e st He Hst). }
  split.
  - intros k v. rewrite Hlook. intros (e & He & <- & ->)%Hview. unfold rom_node. destruct (entry_kind e); [done|]. simpl. intros st Hst. by rewrite (Hbytes e st He Hst).
  - intros k n. unfold abs. rewrite Hlook. destruct (BTree.get k _) as [v|] eqn:E; simpl.
    + apply Hview in E as Hex. destruct Hex as (e & He & Ek & ->). rewrite <- Ek in *. rewrite Habs by done. split; [intros [= <-]; by exists e|]. intros (e' & He' & E' & ->).
      assert (E2 : Some (cp_of (entry_path e) (shallow (rom_node e))) = Some (cp_of (entry_path e) (shallow (rom_node e')))).
      { rewrite <- E. apply Hview. exists e'. done. }
      apply (inj Some) in E2. rewrite <- (Habs e He), E2, <- E'. by apply Habs.
    + split; [done|]. intros (e & He & Ek & ->). assert (E' : BTree.get k (flat_dir [str_rom] (rom f)) = Some (cp_of k (shallow (rom_node e)))) by (apply Hview; by exists e). congruence.
Qed.

Lemma with_rom_ok bs image : admit_image sha256 bs l = Ok image -> (forall e, e ∈ entries image -> Content (entry_content e)) ->
  exists f, with_rom sha256 l image = Ok f /\ mounted (entries image) f /\ fs_ok f /\ size (entries image) <= maximum_nodes l - 2.
Proof.
  intros Ha Hc. destruct (admit_ok _ _ _ Ha) as [Ho Hsize]; [apply Hl|]. destruct (mount_all (entries image) [] _ mounted_empty) as (f & Hf & Hm); try done.
  exists f. split_and!; [done|done|by eapply mounted_ok|done].
Qed.

End Mount.

(** C32. An admitted ROM image can be mounted, and the mounted tree is the image: a
    path names a node exactly when an entry of the image has that path, and the
    node is the directory, or the file with the bytes and the executable bit, of
    that entry.  The filesystem is well formed, so every theorem about requests
    applies to it; the digest is assumed not to collide on the contents. *)
Theorem rom_mounts (l : FileSystemLimits) (bs : list Z) (image : RomImage) :
  fs_limits_ok l -> admit_image sha256 bs l = Ok image -> (forall e, e ∈ entries image -> Content (entry_content e)) ->
  exists f, with_rom sha256 l image = Ok f /\ fs_ok f /\ sizes_ok f /\
    forall k n, abs f k = Some n <-> exists e, e ∈ entries image /\ entry_path e = k /\ n = entry_node e.
Proof.
  intros Hl Ha Hc. destruct (with_rom_ok l Hl bs image Ha Hc) as (f & Hf & Hm & Hok & Hsize). exists f. destruct (mounted_abs l Hl _ f Hm Hsize Hc) as [Hs Habs]. by split_and!.
Qed.

End Digest.

(** An image with one executable file, [/rom/a]. *)
Definition demo_image : list Z :=
  let payload := Rom.MAGIC ++ le_bytes 2 1 ++ le_bytes 2 0 ++ le_bytes 4 1 ++
    le_bytes 4 6 ++ [47; 114; 111; 109; 47; 97] ++ [2; 1; 0; 0] ++ le_bytes 8 2 ++ [104; 105] in
  payload ++ demo_digest payload.

Definition demo_entry : RomEntry := mkEntry [str_rom; [97]] RomFile true [104; 105].

Lemma rom_mounts_witness : exists f,
  admit_image demo_digest demo_image testing = Ok (mkImage (demo_digest demo_image) [demo_entry]) /\
  with_rom demo_digest testing (mkImage (demo_digest demo_image) [demo_entry]) = Ok f /\ abs f [str_rom; [97]] = Some (AFile [104; 105] true).
Proof.
  assert (Ha : admit_image demo_digest demo_image testing = Ok (mkImage (demo_digest demo_image) [demo_entry])) by (vm_compute; reflexivity).
  destruct (rom_mounts demo_digest (fun bs => bs = [104; 105]) (fun a b Ha Hb _ => eq_trans Ha (eq_sym Hb)) testing demo_image _ testing_ok Ha) as (f & Hf & _ & _ & Habs).
  - intros e He. apply list_elem_of_singleton in He as ->. reflexivity.
  - exists f. split; [exact Ha|]. split; [exact Hf|]. apply Habs. exists demo_entry. split; [left|split; reflexivity].
Defined.

End RomLoad.
