(* ===== verification/Store.v ===== *)
(** src/filesystem/worker.rs, the disk side, and store.rs: what the persistence
    thread writes for one computer and how the store reads it back.  A directory of
    numbered files is a map; [write_atomic] writes a temporary file and renames it,
    so that a crash leaves the old file, and possibly a temporary one.  Errors of
    the operating system are not modelled: a worker step either happens or the
    worker stops before it. *)

From S2P Require Import Prelude Words Unicode BTree Path FileHandle Codec Journal FsCheckpoint Recovery Rom Gate Tree.

Module Store.
Import FsError FsLimits Path Codec Journal Gate.

(** The directories [journal] and [checkpoints], file names decoded. *)
Record Files := mkFiles { published : list (Z * list Z); temporaries : list (Z * list Z) }.

Record Disk := mkDisk {
  disk_objects : list (list Z * list Z);
  disk_checkpoints : Files;
  disk_journal : Files;
  disk_confirmed : option (list Z);
  disk_tombstone : option (list Z) }.

Definition no_files : Files := mkFiles [] [].
Definition empty_disk : Disk := mkDisk [] no_files no_files None None.

(** [write_atomic] up to the rename, with as many bytes as were written, ... *)
Definition write_temporary (name : Z) (partial : list Z) (d : Files) : Files := mkFiles (published d) (BTree.insert name partial (temporaries d)).
(** ... and all of it. *)
Definition write_atomic (name : Z) (bs : list Z) (d : Files) : Files := mkFiles (BTree.insert name bs (published d)) (BTree.remove name (temporaries d)).

Definition set_objects (o : list (list Z * list Z)) (d : Disk) : Disk :=
  mkDisk o (disk_checkpoints d) (disk_journal d) (disk_confirmed d) (disk_tombstone d).
Definition set_journal (j : Files) (d : Disk) : Disk :=
  mkDisk (disk_objects d) (disk_checkpoints d) j (disk_confirmed d) (disk_tombstone d).
Definition set_confirmed (c : list Z) (d : Disk) : Disk :=
  mkDisk (disk_objects d) (disk_checkpoints d) (disk_journal d) (Some c) (disk_tombstone d).
Definition set_tombstone (t : option (list Z)) (d : Disk) : Disk :=
  mkDisk (disk_objects d) (disk_checkpoints d) (disk_journal d) (disk_confirmed d) t.

(** What [read_dir] yields: a name, whether it ends in [.tmp], and the bytes. *)
Abbreviation Listing := (list (Z * bool * list Z)) (only parsing).

(** [read_generation_files], with the two running totals. *)
Fixpoint read_generation_files (maximum_file_bytes maximum_bytes maximum_records : Z) (entries : Listing) (bytes records : Z)
    : outcome StoreError (list (Z * list Z) * Z * Z) :=
  match entries with
  | [] => Ok ([], bytes, records)
  | (name, temporary, content) :: entries =>
      records ← ok_or (checked_add usize_max records 1) SStorageFaulted;
      if maximum_records <? records then Err SStorageFaulted
      else
        bytes ← ok_or (checked_add usize_max bytes (size content)) SStorageFaulted;
        if (maximum_file_bytes <? size content) || (maximum_bytes <? bytes) then Err SStorageFaulted
        else
          '(rest, bytes, records) ← read_generation_files maximum_file_bytes maximum_bytes maximum_records entries bytes records;
          Ok (if temporary then rest else (name, content) :: rest, bytes, records)
  end.

Record RecoveredComputer := mkRecoveredComputer {
  recovered_state : Recovery.RecoveredState; recovered_objects : list (list Z * list Z); recovered_confirmed : Z }.

(** [b"CPKTTOMB\0"]. *)
Definition TOMBSTONE : list Z := [67; 80; 75; 84; 84; 79; 77; 66; 0].

(** ** Names of directories and files *)

Definition hex_digit (n : Z) : Z := if n <? 10 then 48 + n else 87 + n.

(** [hex]. *)
Fixpoint hex (bytes : list Z) : list Z :=
  match bytes with
  | [] => []
  | byte :: bytes => hex_digit (Z.shiftr byte 4) :: hex_digit (Z.land byte 15) :: hex bytes
  end.

Definition is_hex (byte : Z) : bool := ((48 <=? byte) && (byte <=? 57)) || ((97 <=? byte) && (byte <=? 102)).

(** [u8::from_str_radix(.., 16)] on the pairs of a string of hex digits. *)
Definition hex_value (byte : Z) : Z := if byte <=? 57 then byte - 48 else byte - 87.
Fixpoint hex_pairs (value : list Z) : list Z :=
  match value with
  | high :: low :: value => 16 * hex_value high + hex_value low :: hex_pairs value
  | _ => []
  end.

(** A name that is not UTF-8 is no hex string either, so [to_str] needs no step of
    its own. *)
Definition decode_hex (n : Z) (value : list Z) : option (list Z) :=
  if negb (size value =? n * 2) || negb (forallb is_hex value) then None else Some (hex_pairs value).

(** [str::strip_suffix]. *)
Definition strip_suffix (suffix value : list Z) : option (list Z) :=
  let n := (length value - length suffix)%nat in
  if bool_decide (value = take n value ++ suffix) then Some (take n value) else None.

(** [".tmp"]. *)
Definition TMP : list Z := [46; 116; 109; 112].

(** What [std::fs::FileType] tells of a directory entry. *)
Inductive FileType := RegularFile | Directory | Symlink | OtherFile.
Definition is_symlink (t : FileType) : bool := match t with Symlink => true | _ => false end.
Definition is_dir (t : FileType) : bool := match t with Directory => true | _ => false end.
Definition is_file (t : FileType) : bool := match t with RegularFile => true | _ => false end.

(** An entry of the directory [computers]: its name and what it holds; the objects
    are in a directory of their own, which all computers share. *)
Record ComputerDirectory := mkComputerDirectory {
  cd_name : list Z; cd_type : FileType; cd_checkpoints : Listing; cd_journal : Listing; cd_files : Disk }.

(** An entry of the directory [objects]. *)
Record Shard := mkShard { shard_name : list Z; shard_type : FileType; shard_files : list (list Z * FileType) }.

Section Digest.
Context (sha256 : list Z -> Digest).

(** ** Writing *)

Definition verify_object (o : Digest) (d : Disk) : outcome StoreError (list Z) :=
  match BTree.get o (disk_objects d) with
  | Some bs => if bool_decide (sha256 bs = o) then Ok bs else Err SIo
  | None => Err SIo
  end.

(** The three parts of [persist_mutation], in order. *)
Definition persist_object (m : MutationCommand) (d : Disk) : outcome StoreError Disk :=
  match m_object m with
  | None => Ok d
  | Some (o, bs) =>
      if negb (bool_decide (sha256 bs = o)) then Err SIo
      else if BTree.contains_key o (disk_objects d) then _ ← verify_object o d; Ok d
      else Ok (set_objects (BTree.insert o bs (disk_objects d)) d)
  end.

Definition persist_journal (m : MutationCommand) (d : Disk) : Disk :=
  set_journal (write_atomic (m_generation m) (m_journal m) (disk_journal d)) d.

Definition write_confirmed (generation : Z) (d : Disk) : Disk :=
  let bs := le_bytes 8 generation in set_confirmed (bs ++ sha256 bs) d.

Definition persist_mutation (m : MutationCommand) (d : Disk) : outcome StoreError Disk :=
  d ← persist_object m d;
  Ok (write_confirmed (m_generation m) (persist_journal m d)).

Definition tombstone_bytes (id : ComputerId) : list Z := (TOMBSTONE ++ id) ++ sha256 (TOMBSTONE ++ id).

Definition persist_tombstone (id : ComputerId) (present : bool) (d : Disk) : outcome StoreError Disk :=
  if present then Ok (set_tombstone (Some (tombstone_bytes id)) d)
  else match disk_tombstone d with Some _ => Ok (set_tombstone None d) | None => Err SIo end.

Fixpoint collect_objects (os : list Digest) (d : Disk) : outcome StoreError Disk :=
  match os with
  | [] => Ok d
  | o :: os =>
      if BTree.contains_key o (disk_objects d) then collect_objects os (set_objects (BTree.remove o (disk_objects d)) d)
      else Err SIo
  end.

(** ** Reading *)

Definition read_confirmed (file : option (list Z)) : outcome StoreError Z :=
  match file with
  | None => Ok 0
  | Some bs =>
      if negb (size bs =? 40) then Err SStorageFaulted
      else if negb (bool_decide (sha256 (take 8 bs) = drop 8 bs)) then Err SStorageFaulted
      else Ok (le_val (take 8 bs))
  end.

Definition read_tombstone (file : option (list Z)) (id : ComputerId) : outcome StoreError bool :=
  match file with
  | None => Ok false
  | Some bs =>
      if negb (size bs =? 57) then Err SStorageFaulted
      else if negb (bool_decide (take 9 bs = TOMBSTONE)) || negb (bool_decide (take 16 (drop 9 bs) = id)) ||
              negb (bool_decide (sha256 (take 25 bs) = drop 25 bs))
      then Err SStorageFaulted
      else Ok true
  end.

(** The loop over the recovered nodes that loads their objects. *)
Fixpoint load_objects (ns : list FsCheckpoint.CheckpointNode) (loaded : list (list Z * list Z)) (d : Disk)
    : outcome StoreError (list (list Z * list Z)) :=
  match ns with
  | [] => Ok loaded
  | n :: ns =>
      match FsCheckpoint.object n with
      | None => load_objects ns loaded d
      | Some (o, s) =>
          if BTree.contains_key o loaded then load_objects ns loaded d
          else
            match verify_object o d with
            | Ok bs => if negb (size bs =? s) then Err SStorageFaulted else load_objects ns (BTree.insert o bs loaded) d
            | Err _ => Err SStorageFaulted
            | Panic => Panic
            end
      end
  end.

(** The directories are listed in any order. *)
Definition recover_computer (id : ComputerId) (l : FileSystemLimits) (checkpoints journal : Listing) (d : Disk)
    : outcome StoreError RecoveredComputer :=
  confirmed ← read_confirmed (disk_confirmed d);
  '(cs, bytes, records) ← read_generation_files (maximum_checkpoint_bytes l) (maximum_recovery_bytes l) (maximum_recovery_records l) checkpoints 0 0;
  '(js, _, _) ← read_generation_files (maximum_journal_record_bytes l) (maximum_recovery_bytes l) (maximum_recovery_records l) journal bytes records;
  let input := Recovery.mkInput id confirmed ((fun '(g, bs) => Recovery.mkRecoveryCheckpoint g bs) <$> cs)
                 ((fun '(s, bs) => Recovery.mkRecoveryRecord s bs) <$> js) in
  state ← match Recovery.recover sha256 input l with Ok s => Ok s | Err _ => Err SStorageFaulted | Panic => Panic end;
  objects ← load_objects (BTree.values (Recovery.state_nodes state)) [] d;
  Ok (mkRecoveredComputer state objects confirmed).

Definition on_queue {A} (m : ST QueueState StoreError A) : ST (Disk * QueueState) StoreError A := fun '(d, q) =>
  let '(r, q) := m q in (r, (d, q)).

(** [open_computer] after [flush_admitted]; the error is what the caller sees, and
    the health of the gate tells whether it was faulted. *)
Definition open_computer (id : ComputerId) (l : FileSystemLimits) (rom : Rom.RomImage) (checkpoints journal : Listing)
    : ST (Disk * QueueState) StoreError Tree.ComputerFileSystem :=
  '(d, q) ← st_get;
  _ ← match health q with
      | Active => mret tt
      | Draining | HealthClosed => st_err SClosed
      | Faulted => st_err SStorageFaulted
      end;
  tombstoned ← st_lift (read_tombstone (disk_tombstone d) id);
  if (tombstoned : bool) then st_err SNotFound
  else
    match recover_computer id l checkpoints journal d with
    | Panic => st_panic
    | Err e => _ ← st_put (d, fault q); st_err e
    | Ok r =>
        let g := Recovery.state_generation (recovered_state r) in
        _ ← st_put (if recovered_confirmed r <? g then write_confirmed g d else d, q);
        f ← st_lift match Tree.with_rom sha256 l rom with Ok f => Ok f | Err _ => Err SIo | Panic => Panic end;
        f ← st_lift match Tree.restore_recovered (recovered_state r) (recovered_objects r) f with
                    | Ok f => Ok f | Err _ => Err SStorageFaulted | Panic => Panic end;
        _ ← on_queue (register_computer id g);
        mret (Tree.attach_persistence (mkPersistence id l) f)
    end.

(** One round of [worker_loop]: take the oldest command, carry it out, note the
    outcome; [false] once the thread stops. *)
Definition carry_out (c : Command) (d : Disk) : bool * Disk :=
  let done o := match o with Ok d' => (true, d') | _ => (false, d) end in
  match c with
  | Mutation m => done (persist_mutation m d)
  | Tombstone id present => done (persist_tombstone id present d)
  | Collect os => done (collect_objects os d)
  | Stop => (true, d)
  end.

Definition worker_round : ST (Disk * QueueState) StoreError bool :=
  command ← on_queue take_command;
  match command with
  | None => mret true
  | Some c =>
      '(d, q) ← st_get;
      let '(persisted, d) := carry_out c d in
      let '(running, q) := finish_command c persisted q in
      _ ← st_put (d, q);
      mret running
  end.

(** ** Collection *)

(** The loop of [collect_unreachable_objects] over the directories of the
    computers, which share the objects of the store; the [BTreeSet] of reachable ones
    is a finite set. *)
Fixpoint reachable_objects (maximum_computers : Z) (l : FileSystemLimits) (objects : list (list Z * list Z)) (computers : list ComputerDirectory)
    (computer_count : Z) (reachable : gset (list Z)) : outcome StoreError (gset (list Z)) :=
  match computers with
  | [] => Ok reachable
  | c :: computers =>
      if is_symlink (cd_type c) || negb (is_dir (cd_type c)) then Err SStorageFaulted
      else
        computer_count ← ok_or (checked_add usize_max computer_count 1) SBusy;
        if maximum_computers <? computer_count then Err SBusy
        else
          id ← ok_or (decode_hex 16 (cd_name c)) SStorageFaulted;
          recovered ← recover_computer id l (cd_checkpoints c) (cd_journal c) (set_objects objects (cd_files c));
          reachable_objects maximum_computers l objects computers computer_count (reachable ∪ list_to_set (BTree.keys (recovered_objects recovered)))
  end.

(** The loop over the files of a shard, with the number of files scanned so far. *)
Fixpoint scan_shard (maximum_objects : Z) (shard_name : list Z) (files : list (list Z * FileType)) (scanned_objects : Z)
    : outcome StoreError (list Digest * Z) :=
  match files with
  | [] => Ok ([], scanned_objects)
  | (name, object_type) :: files =>
      scanned_objects ← ok_or (checked_add usize_max scanned_objects 1) SBusy;
      if maximum_objects <? scanned_objects then Err SBusy
      else if is_symlink object_type || negb (is_file object_type) then Err SStorageFaulted
      else
        let canonical_name := default name (strip_suffix TMP name) in
        id ← ok_or (decode_hex 32 canonical_name) SStorageFaulted;
        if negb (bool_decide (take 2 canonical_name = shard_name)) then Err SStorageFaulted
        else
          '(stored, scanned_objects) ← scan_shard maximum_objects shard_name files scanned_objects;
          Ok (match strip_suffix TMP name with Some _ => stored | None => id :: stored end, scanned_objects)
  end.

(** The loop over the shards. *)
Fixpoint scan_shards (maximum_objects : Z) (shards : list Shard) (scanned_objects : Z) : outcome StoreError (list Digest * Z) :=
  match shards with
  | [] => Ok ([], scanned_objects)
  | shard :: shards =>
      if is_symlink (shard_type shard) || negb (is_dir (shard_type shard)) then Err SStorageFaulted
      else if negb (size (shard_name shard) =? 2) || negb (bool_decide (is_Some (decode_hex 1 (shard_name shard)))) then Err SStorageFaulted
      else
        '(stored, scanned_objects) ← scan_shard maximum_objects (shard_name shard) (shard_files shard) scanned_objects;
        '(rest, scanned_objects) ← scan_shards maximum_objects shards scanned_objects;
        Ok (stored ++ rest, scanned_objects)
  end.

(** What [collect_unreachable_objects] asks the thread to remove, between
    [flush_all] and [collect]. *)
Definition unreachable_objects (maximum_computers maximum_objects : Z) (l : FileSystemLimits) (computers : list ComputerDirectory)
    (shards : list Shard) (objects : list (list Z * list Z)) : outcome StoreError (list Digest) :=
  reachable ← reachable_objects maximum_computers l objects computers 0 ∅;
  '(stored, _) ← scan_shards maximum_objects shards 0;
  Ok (filter (fun o => o ∉ reachable) stored).

End Digest.
End Store.
