(* ===== verification/Crash.v ===== *)
(** A computer, the persistence thread and the disk together: whenever the machine
    stops, the store recovers a state the filesystem was in, no older than what was
    reported durable. *)

From S2P Require Import Prelude Words Unicode Path BTree FileHandle Codec Journal FsCheckpoint Recovery Replay Gate Rom Tree TreeInv TreeOps TreeRename TreeSpec TreeReplay TreeLoad RomLoad Store.

Module Crash.
Import FsError FsLimits Path PathProps Codec CodecProps Journal JournalProps Gate Tree TreeView TreeInv TreeOps TreeSpec TreeReplay TreeLoad RomLoad Store.

(** ** The system *)

(** How far [persist_mutation] has come with the command the thread has taken. *)
Inductive Stage := WriteObject | WriteJournal | WriteConfirmed | Finish.

Record World := mkWorld { sys : Sys; in_flight : option (MutationCommand * Stage); disk : Disk }.

Lemma persistence_eta (p : ComputerPersistence) : mkPersistence (p_computer p) (p_limits p) = p.
Proof. by destruct p. Qed.

Section Digest.
Context (sha256 : list Z -> Digest).
Hypothesis sha256_size : forall bs, size (sha256 bs) = DIGEST_BYTES.
Hypothesis sha256_bytes : forall bs, is_bytes (sha256 bs).
(** The digest does not collide on the contents in use. *)
Context (Content : list Z -> Prop).
Hypothesis sha256_free : forall a b, Content a -> Content b -> sha256 a = sha256 b -> a = b.
Context (p : ComputerPersistence).
Let id := p_computer p.
Let l := p_limits p.

Definition object_content (m : MutationCommand) : Prop := forall o bs, m_object m = Some (o, bs) -> Content bs.

(** One step of the computer or of the thread; a crash may come between any two.
    Requests name contents the digest keeps apart, and leave no path too long. *)
Inductive step : World -> World -> Prop :=
| step_request r o s s' fl d :
    perform sha256 r s = (o, s') -> names_ok (fs s') -> (forall m, Mutation m ∈ queue (gate s') -> object_content m) ->
    step (mkWorld s fl d) (mkWorld s' fl d)
| step_take s q m d :
    take_command (gate s) = (Ok (Some (Mutation m)), q) -> step (mkWorld s None d) (mkWorld (mkSys (fs s) q) (Some (m, WriteObject)) d)
| step_object s m d d' :
    persist_object sha256 m d = Ok d' -> step (mkWorld s (Some (m, WriteObject)) d) (mkWorld s (Some (m, WriteJournal)) d')
| step_temporary s m d partial :
    step (mkWorld s (Some (m, WriteJournal)) d) (mkWorld s (Some (m, WriteJournal)) (set_journal (write_temporary (m_generation m) partial (disk_journal d)) d))
| step_journal s m d :
    step (mkWorld s (Some (m, WriteJournal)) d) (mkWorld s (Some (m, WriteConfirmed)) (persist_journal m d))
| step_confirmed s m d :
    step (mkWorld s (Some (m, WriteConfirmed)) d) (mkWorld s (Some (m, Finish)) (write_confirmed sha256 (m_generation m) d))
| step_finish s m d :
    step (mkWorld s (Some (m, Finish)) d) (mkWorld (mkSys (fs s) (finish_command (Mutation m) true (gate s)).2) None d)
| step_fail s m st d :
    step (mkWorld s (Some (m, st)) d) (mkWorld (mkSys (fs s) (finish_command (Mutation m) false (gate s)).2) None d).

(** The files of a directory, published and temporary. *)
Definition listing_of (d : Files) : list (Z * bool * list Z) :=
  ((fun '(g, bs) => (g, false, bs)) <$> published d) ++ ((fun '(g, bs) => (g, true, bs)) <$> temporaries d).

Definition content_total (entries : list (Z * bool * list Z)) : Z := foldr (fun e n => size e.2 + n) 0 entries.

(** The journal is within the limits of recovery. *)
Record recovery_fits (entries : list (Z * bool * list Z)) : Prop := {
  rf_records : size entries <= maximum_recovery_records l <= usize_max;
  rf_bytes : content_total entries <= maximum_recovery_bytes l <= usize_max;
  rf_files : Forall (fun e => size e.2 <= maximum_journal_record_bytes l) entries }.

(** What the store needs to open the computer: an admitted ROM image and the listing
    of its journal, in any order. *)
Record openable (image : Rom.RomImage) (entries : list (Z * bool * list Z)) (d : Disk) : Prop := {
  op_rom : exists bs, Rom.admit_image sha256 bs l = Ok image;
  op_contents : forall e, e ∈ Rom.entries image -> Content (Rom.entry_content e);
  op_listing : entries ≡ₚ listing_of (disk_journal d);
  op_fits : recovery_fits entries }.

(** A run, with the filesystems since the computer was opened last.  A crash may come
    at any time; a new store then opens the computer from the disk. *)
Inductive run (w0 : World) : list ComputerFileSystem -> World -> Prop :=
| run_start : run w0 [fs (sys w0)] w0
| run_step fs_seen w w' : run w0 fs_seen w -> step w w' -> run w0 (fs_seen ++ [fs (sys w')]) w'
| run_reopen fs_seen w image entries f d q : run w0 fs_seen w -> openable image entries (disk w) ->
    open_computer sha256 id l image [] entries (disk w, gate_start l) = (Ok f, (d, q)) -> run w0 [f] (mkWorld (mkSys f q) None d).

(** A new computer on an empty disk. *)
Record fresh (w : World) : Prop := {
  fr_flight : in_flight w = None;
  fr_disk : disk w = empty_disk;
  fr_fs : fs_ok (fs (sys w)) /\ home (fs (sys w)) = [] /\ generation (fs (sys w)) = 0;
  fr_gate : gate_ok (gate (sys w)) /\ queue (gate (sys w)) = [] /\ BTree.get id (durable (gate (sys w))) = None /\ BTree.sorted (durable (gate (sys w)));
  fr_persistent : persistent (fs (sys w)) p;
  fr_store : store_digests sha256 Content (fs (sys w)) }.

(** ** The invariant *)

Definition record_of (m : MutationCommand) : Recovery.RecoveryJournalRecord := Recovery.mkRecoveryRecord (m_generation m) (m_journal m).
Definition mutations (q : list Command) : list MutationCommand := omap (fun c => match c with Mutation m => Some m | _ => None end) q.

(** [ms] lead from the filesystem [f] to [f'], through filesystems that were seen. *)
Inductive pending (seen : list ComputerFileSystem) : ComputerFileSystem -> list MutationCommand -> ComputerFileSystem -> Prop :=
| pending_nil f f' : state_of f = state_of f' -> pending seen f [] f'
| pending_cons f m f1 ms f' : f1 ∈ seen -> Replay.follows sha256 l id (state_of f) (record_of m) (state_of f1) ->
    objects_from sha256 (m_object m) (home_view (home f)) (home_view (home f1)) -> object_content m ->
    pending seen f1 ms f' -> pending seen f (m :: ms) f'.

(** The objects of the files of [f] are on disk. *)
Definition objects_on_disk (f : ComputerFileSystem) (d : Disk) : Prop :=
  forall k v o n, BTree.get k (home_view (home f)) = Some v -> FsCheckpoint.object v = Some (o, n) ->
    exists bs, BTree.get o (disk_objects d) = Some bs /\ size bs = n.

Definition digests_ok (d : Disk) : Prop := BTree.sorted (disk_objects d) /\
  forall o bs, BTree.get o (disk_objects d) = Some bs -> sha256 bs = o /\ Content bs.

(** The command the thread works on, as far as it is not in the journal yet. *)
Definition unwritten (fl : option (MutationCommand * Stage)) : list MutationCommand :=
  match fl with Some (m, WriteObject) | Some (m, WriteJournal) => [m] | _ => [] end.

Record stored (seen : list ComputerFileSystem) (f : ComputerFileSystem) (d : Disk) : Prop := {
  so_seen : f ∈ seen;
  so_chain : exists recs, Replay.chain sha256 l id (Recovery.mkRecovered 0 []) recs (state_of f) /\
    recs ≡ₚ (fun '(g, bs) => Recovery.mkRecoveryRecord g bs) <$> published (disk_journal d);
  so_sorted : BTree.sorted (published (disk_journal d)) /\ BTree.sorted (temporaries (disk_journal d)) /\ disk_checkpoints d = no_files;
  so_objects : objects_on_disk f d;
  so_digests : digests_ok d }.

Record consistent (seen : list ComputerFileSystem) (w : World) : Prop := {
  co_fs : fs_ok (fs (sys w)) /\ gate_ok (gate (sys w)) /\ persistent (fs (sys w)) p /\ names_ok (fs (sys w));
  co_seen : fs (sys w) ∈ seen;
  co_all : forall f, f ∈ seen -> fs_ok f /\ store_digests sha256 Content f /\ limits f = l /\ names_ok f;
  co_stored : exists f c, stored seen f (disk w) /\ read_confirmed sha256 (disk_confirmed (disk w)) = Ok c /\ c <= generation f /\
    (health (gate (sys w)) <> Faulted -> pending seen f (unwritten (in_flight w) ++ mutations (queue (gate (sys w)))) (fs (sys w))) /\
    match in_flight w with
    | Some (m, WriteJournal) => forall o bs, m_object m = Some (o, bs) -> exists bs', BTree.get o (disk_objects (disk w)) = Some bs' /\ size bs' = size bs
    | Some (m, WriteConfirmed) => m_generation m = generation f
    | Some (m, Finish) => m_generation m = generation f /\ c = generation f
    | _ => True
    end /\ default 0 (BTree.get id (durable (gate (sys w)))) <= c;
  co_gate : health (gate (sys w)) = Faulted -> queue (gate (sys w)) = [] /\ in_flight w = None;
  co_computer : (forall m st, in_flight w = Some (m, st) -> m_computer m = id) /\ (forall m, m ∈ mutations (queue (gate (sys w))) -> m_computer m = id);
  co_durable : BTree.sorted (durable (gate (sys w))) }.

(** ** Facts about pending commands *)

Lemma mutations_app a b : mutations (a ++ b) = mutations a ++ mutations b.
Proof. apply omap_app. Qed.

Lemma pending_mono seen seen' f ms f' : (forall g, g ∈ seen -> g ∈ seen') -> pending seen f ms f' -> pending seen' f ms f'.
Proof. intros Hs. induction 1; [by constructor|]. econstructor; eauto. Qed.

Lemma pending_end seen f ms f' f'' : state_of f' = state_of f'' -> pending seen f ms f' -> pending seen f ms f''.
Proof. intros E. induction 1; [constructor; congruence|]. econstructor; eauto. Qed.

Lemma state_view f f' : state_of f = state_of f' -> home_view (home f) = home_view (home f').
Proof. unfold state_of. congruence. Qed.

Lemma pending_snoc seen f ms f' m f'' : pending seen f ms f' -> f'' ∈ seen -> Replay.follows sha256 l id (state_of f') (record_of m) (state_of f'') ->
  objects_from sha256 (m_object m) (home_view (home f')) (home_view (home f'')) -> object_content m -> pending seen f (ms ++ [m]) f''.
Proof.
  induction 1 as [f f' E|f m0 f1 ms f' Hin Hf Ho Hc Hp IH]; intros Hseen Hfol Hobj Hcont.
  - simpl. econstructor; [exact Hseen|by rewrite E|by rewrite (state_view _ _ E)|done|by constructor].
  - simpl. econstructor; [exact Hin|exact Hf|exact Ho|exact Hc|by apply IH].
Qed.

Lemma insert_perm (k : Z) (v : list Z) (m : list (Z * list Z)) : BTree.sorted m -> BTree.get k m = None -> BTree.insert k v m ≡ₚ m ++ [(k, v)].
Proof. intros Hs Hg. destruct (BTree.insert_split k v m Hs Hg) as (a & b & -> & ->). rewrite <- app_assoc. apply Permutation_app_head. by rewrite Permutation_app_comm. Qed.

Lemma stored_mono seen seen' f d : (forall g, g ∈ seen -> g ∈ seen') -> stored seen f d -> stored seen' f d.
Proof. intros Hs [? ? ? ? ?]. by split; auto. Qed.

Lemma journal_keys seen f d g : stored seen f d -> generation f < g -> BTree.get g (published (disk_journal d)) = None.
Proof.
  intros [_ (recs & Hc & Hp) (Hs & _) _ _] Hg. destruct (BTree.get g _) as [bs|] eqn:E; [|done]. exfalso. apply BTree.get_elem in E; [|done].
  apply Replay.chain_generation in Hc as (_ & Hall & _). rewrite Forall_forall in Hall.
  assert (Hin : Recovery.mkRecoveryRecord g bs ∈ recs). { rewrite Hp. apply list_elem_of_fmap. by exists (g, bs). }
  specialize (Hall _ Hin). simpl in Hall. lia.
Qed.

Lemma read_confirmed_written g : 0 <= g <= u64_max -> read_confirmed sha256 (Some (le_bytes 8 g ++ sha256 (le_bytes 8 g))) = Ok g.
Proof.
  intros Hg. unfold read_confirmed. rewrite size_app, sha256_size. unfold size at 1. rewrite le_bytes_length. cbn [negb].
  change (Z.of_nat 8 + DIGEST_BYTES =? 40) with true. cbn [negb]. rewrite take_app_length', drop_app_length' by (by rewrite le_bytes_length).
  rewrite bool_decide_eq_true_2 by done. cbn [negb]. rewrite le_val_bytes_small; [done|]. unfold u64_max in Hg. change (256 ^ Z.of_nat 8) with (2 ^ 64). lia.
Qed.

(** ** The parts of the thread's work *)

Lemma object_written seen f d d' m : stored seen f d -> object_content m -> persist_object sha256 m d = Ok d' ->
  stored seen f d' /\ disk_confirmed d' = disk_confirmed d /\
  forall o bs, m_object m = Some (o, bs) -> exists bs', BTree.get o (disk_objects d') = Some bs' /\ size bs' = size bs.
Proof.
  intros Hst Hcont H. unfold persist_object in H. destruct (m_object m) as [[o bs]|] eqn:Em; [|injection H as <-; split_and!; [done|done|naive_solver]].
  destruct (bool_decide (sha256 bs = o)) eqn:Eo; [|done]. bsimp. cbn [negb] in H. specialize (Hcont o bs Em).
  destruct Hst as [Hseen Hch Hsort Hobj [Hso Hdig]]. destruct (BTree.contains_key o (disk_objects d)) eqn:Ec.
  - apply outcome_bind_inv in H as (u & _ & [= <-]). split; [by split|]. split; [done|]. intros o' bs' [= <- <-]. apply BTree.contains_key_true in Ec as [b Hb].
    exists b. split; [done|]. destruct (Hdig _ _ Hb) as [Hb1 Hb2]. by rewrite (sha256_free b bs Hb2 Hcont) by congruence.
  - injection H as <-. unfold BTree.contains_key in Ec. destruct (BTree.get o (disk_objects d)) as [?|] eqn:Eg; [done|].
    assert (Hget : forall o', BTree.get o' (BTree.insert o bs (disk_objects d)) = if decide (o' = o) then Some bs else BTree.get o' (disk_objects d)) by (intros; by apply BTree.get_insert).
    split; [|split; [done|]].
    + split; [done|done|done| |split; [by apply BTree.insert_sorted|]].
      * intros k v o' n Hk Hv. destruct (Hobj k v o' n Hk Hv) as (b & Hb & Hn). exists b. split; [|done]. cbn [disk_objects set_objects]. rewrite Hget. rewrite decide_False by congruence. done.
      * cbn [disk_objects set_objects]. intros o' b. rewrite Hget. destruct (decide (o' = o)) as [->|]; [intros [= <-]; done|apply Hdig].
    + intros o' bs' [= <- <-]. exists bs. cbn [disk_objects set_objects]. rewrite Hget. by rewrite decide_True.
Qed.

Lemma journal_written seen f f1 d m : stored seen f d -> f1 ∈ seen -> Replay.follows sha256 l id (state_of f) (record_of m) (state_of f1) ->
  objects_from sha256 (m_object m) (home_view (home f)) (home_view (home f1)) ->
  (forall o bs, m_object m = Some (o, bs) -> exists bs', BTree.get o (disk_objects d) = Some bs' /\ size bs' = size bs) ->
  stored seen f1 (persist_journal m d) /\ m_generation m = generation f1 /\ generation f1 = generation f + 1.
Proof.
  intros Hst Hseen Hfol Hfrom Hobj. pose proof (Replay.follows_generation _ _ _ _ _ _ Hfol) as [Hg1 Hg2]. simpl in Hg1, Hg2.
  pose proof (journal_keys _ _ _ (m_generation m) Hst ltac:(lia)) as Hnone. destruct Hst as [_ (recs & Hch & Hp) (Hs1 & Hs2 & Hs3) Hdisk Hdig].
  split; [|split; lia]. split; [done| |split_and!; [by apply BTree.insert_sorted|by apply BTree.remove_sorted|done]| |done].
  - exists (recs ++ [record_of m]). split; [eapply Replay.chain_app; [exact Hch|]; econstructor; [exact Hfol|constructor]|].
    unfold persist_journal, write_atomic. cbn [disk_journal set_journal published]. rewrite insert_perm by done. rewrite fmap_app, Hp. done.
  - intros k v o n Hk Hv. destruct (Hfrom k v o n Hk Hv) as [(k0 & v0 & Hk0 & Hv0)|(bs & Hm & _ & ->)]; [by eapply Hdisk|by apply Hobj].
Qed.

(** ** Steps keep the invariant *)

Lemma seen_more {A} (x : A) seen y : x ∈ seen -> x ∈ seen ++ [y].
Proof. intros H. apply elem_of_app. by left. Qed.

Lemma persistent_limits f : persistent f p -> limits f = l.
Proof. intros H. unfold l. by rewrite (pe_limits _ _ H). Qed.

Lemma request_keeps seen r o s s' fl d : consistent seen (mkWorld s fl d) -> perform sha256 r s = (o, s') -> names_ok (fs s') ->
  (forall m, Mutation m ∈ queue (gate s') -> object_content m) -> consistent (seen ++ [fs s']) (mkWorld s' fl d).
Proof.
  intros [(Hok & Hq & Hp & Hn) Hin Hall (f & c & Hst & Hc & Hle & Hpend & Hfl & Hdur) Hgate [Hid1 Hid2] Hds] Hrun Hn' Hcont. cbn [sys in_flight disk] in *.
  destruct (perform_continues sha256 sha256_size sha256_bytes p s s' Hok Hq Hp Hn Hn' r o Hrun) as [[(t & E)|(object & rec & [Hok' [Hact Hpub] Hfol Hfrom Hstore (Hlim & Hper & Hrom)])] _].
  - assert (Hsub : forall g, g ∈ seen -> g ∈ seen ++ [fs s']) by (intros g Hg; by apply seen_more). split; cbn [sys in_flight disk].
    + subst s'. split_and!; try done; [by destruct Hok|by destruct Hp].
    + apply elem_of_app. right. by left.
    + intros g [Hg|Hg%list_elem_of_singleton]%elem_of_app; [by apply Hall|]. subst g s'. destruct (Hall _ Hin) as (? & ? & ? & ?). split; [by destruct Hok|done].
    + exists f, c. subst s'. split_and!; try done; [by eapply stored_mono|]. intros Hh. eapply pending_mono; [exact Hsub|]. by eapply pending_end; [|apply Hpend].
    + subst s'. done.
    + subst s'. done.
    + by subst s'.
  - set (m := mkMutation (p_computer p) (Recovery.claimed_sequence rec) object (Recovery.record_bytes rec)) in *.
    assert (Hrec : record_of m = rec) by (by destruct rec). assert (Hm : object_content m).
    { apply Hcont. rewrite Hpub. unfold pushed. cbn [queue set_queue]. apply elem_of_app. right. by left. }
    assert (Hsub : forall g, g ∈ seen -> g ∈ seen ++ [fs s']) by (intros g Hg; by apply seen_more). split; cbn [sys in_flight disk].
    + split_and!; [done|rewrite Hpub; by apply pushed_ok| |done]. destruct Hp. split; rewrite ?Hlim, ?Hper; done.
    + apply elem_of_app. right. by left.
    + intros g [Hg|Hg%list_elem_of_singleton]%elem_of_app; [by apply Hall|]. subst g. destruct (Hall _ Hin) as (_ & Hsd & Hfl0 & _). split_and!; [done| |by rewrite Hlim|done]. intros o' st' E.
      destruct (Hstore o' st' E) as [(st & E0 & ->)|(bs & Eo & -> & ->)]; [by apply Hsd|]. split; [done|]. by eapply Hm.
    + exists f, c. rewrite Hpub. split_and!; try done; [by eapply stored_mono|]. intros _. cbn [queue set_queue pushed set_admitted]. rewrite mutations_app, app_assoc.
      eapply pending_snoc; [eapply pending_mono; [exact Hsub|]; apply Hpend; by rewrite Hact|apply elem_of_app; right; by left| |done|done].
      rewrite Hrec. by rewrite <- (persistent_limits (fs s)).
    + rewrite Hpub. cbn [health set_queue pushed set_admitted]. rewrite Hact. done.
    + split; [done|]. rewrite Hpub. cbn [queue set_queue pushed set_admitted]. intros m'. rewrite mutations_app. intros [?|Hm'%list_elem_of_singleton]%elem_of_app; [by apply Hid2|by subst m'].
    + by rewrite Hpub.
Qed.

Lemma same_fs_seen {A} (x y : A) seen : y ∈ seen -> x ∈ seen ++ [y] <-> x ∈ seen.
Proof. intros Hy. rewrite elem_of_app, list_elem_of_singleton. naive_solver. Qed.

(** The thread never changes the filesystem. *)
Lemma thread_seen seen w : fs (sys w) ∈ seen -> consistent seen w -> consistent (seen ++ [fs (sys w)]) w.
Proof.
  intros Hy [Hfs Hin Hall (f & c & Hst & Hc & Hle & Hpend & Hfl & Hdur) Hgate Hid Hds].
  assert (Hsub : forall g, g ∈ seen -> g ∈ seen ++ [fs (sys w)]) by (intros g Hg; by apply seen_more).
  split; try done; [by apply seen_more|intros g Hg; apply Hall; by rewrite same_fs_seen in Hg|].
  exists f, c. split_and!; try done; [by eapply stored_mono|]. intros Hh. eapply pending_mono; [exact Hsub|by apply Hpend].
Qed.

Lemma not_faulted seen s m st d : consistent seen (mkWorld s (Some (m, st)) d) -> health (gate s) <> Faulted.
Proof. intros H E. by destruct (co_gate _ _ H E) as [_ ?]. Qed.

Section Thread.
Context (seen : list ComputerFileSystem).

Lemma take_keeps s q m d : consistent seen (mkWorld s None d) -> take_command (gate s) = (Ok (Some (Mutation m)), q) ->
  consistent seen (mkWorld (mkSys (fs s) q) (Some (m, WriteObject)) d).
Proof.
  intros [(Hok & Hq & Hp & Hn) Hin Hall (f & c & Hst & Hc & Hle & Hpend & Hfl & Hdur) Hgate [Hid1 Hid2] Hds] Ht. cbn [sys in_flight disk fs gate] in *.
  unfold take_command, mbind, ST_bind, st_get in Ht. destruct (queue (gate s)) as [|cmd cs] eqn:Eq; [done|]. destruct (Z.ltb_spec (queued_bytes (gate s)) (byte_cost cmd)); [done|].
  unfold st_put, mret, ST_ret in Ht. injection Ht as -> <-. split; cbn [sys in_flight disk fs gate]; try done.
  - split_and!; try done. destruct Hq. split; cbn [queued_bytes set_queue reserved_records reserved_bytes]; [lia|done|done].
  - exists f, c. by split_and!.
  - cbn [health set_queue]. intros Hh. by destruct (Hgate Hh).
  - split; [intros m' st [= <- <-]; apply Hid2; by left|]. intros m' Hm'. apply Hid2. by right.
Qed.

Lemma object_keeps s m d d' : consistent seen (mkWorld s (Some (m, WriteObject)) d) -> persist_object sha256 m d = Ok d' ->
  consistent seen (mkWorld s (Some (m, WriteJournal)) d').
Proof.
  intros Hcon Ho. pose proof (not_faulted _ _ _ _ _ Hcon) as Hh. destruct Hcon as [Hfs Hin Hall (f & c & Hst & Hc & Hle & Hpend & Hfl & Hdur) Hgate [Hid1 Hid2] Hds]. cbn [sys in_flight disk fs gate] in *.
  specialize (Hpend Hh). inversion Hpend as [|f0 m0 f1 ms f' Hin1 Hfol Hfrom Hcont Hrest]; subst.
  destruct (object_written _ _ _ _ _ Hst Hcont Ho) as (Hst' & Hconf & Hobj). split; cbn [sys in_flight disk fs gate]; try done.
  - exists f, c. rewrite Hconf. by split_and!.
  - split; [intros m' st [= <- <-]; by eapply Hid1|done].
Qed.

Lemma temporary_keeps s m d partial : consistent seen (mkWorld s (Some (m, WriteJournal)) d) ->
  consistent seen (mkWorld s (Some (m, WriteJournal)) (set_journal (write_temporary (m_generation m) partial (disk_journal d)) d)).
Proof.
  intros [Hfs Hin Hall (f & c & [Hseen Hch (Hs1 & Hs2 & Hs3) Hobj Hdig] & Hc & Hle & Hpend & Hfl & Hdur) Hgate [Hid1 Hid2] Hds]. split; cbn [sys in_flight disk fs gate] in *; try done.
  exists f, c. split_and!; try done. split; try done. split_and!; [done|by apply BTree.insert_sorted|done].
Qed.

Lemma journal_keeps s m d : consistent seen (mkWorld s (Some (m, WriteJournal)) d) -> consistent seen (mkWorld s (Some (m, WriteConfirmed)) (persist_journal m d)).
Proof.
  intros Hcon. pose proof (not_faulted _ _ _ _ _ Hcon) as Hh. destruct Hcon as [Hfs Hin Hall (f & c & Hst & Hc & Hle & Hpend & Hfl & Hdur) Hgate [Hid1 Hid2] Hds]. cbn [sys in_flight disk fs gate] in *.
  specialize (Hpend Hh). inversion Hpend as [|f0 m0 f1 ms f' Hin1 Hfol Hfrom Hcont Hrest]; subst.
  destruct (journal_written _ _ _ _ _ Hst Hin1 Hfol Hfrom Hfl) as (Hst' & Hg & Hg'). split; cbn [sys in_flight disk fs gate]; try done.
  - exists f1, c. split_and!; try done. lia.
  - split; [intros m' st [= <- <-]; by eapply Hid1|done].
Qed.

Lemma confirmed_keeps s m d : consistent seen (mkWorld s (Some (m, WriteConfirmed)) d) ->
  consistent seen (mkWorld s (Some (m, Finish)) (write_confirmed sha256 (m_generation m) d)).
Proof.
  intros [Hfs Hin Hall (f & c & Hst & Hc & Hle & Hpend & Hfl & Hdur) Hgate [Hid1 Hid2] Hds]. cbn [sys in_flight disk fs gate] in *.
  pose proof (f_generation _ (proj1 (Hall _ (so_seen _ _ _ Hst)))). split; cbn [sys in_flight disk fs gate]; try done.
  - exists f, (generation f). split_and!; try done; [by destruct Hst as [? ? ? ? ?]; split| |lia]. cbn [write_confirmed set_confirmed disk_confirmed].
    rewrite Hfl. by apply read_confirmed_written.
  - intros E. by destruct (Hgate E).
  - split; [intros m' st [= <- <-]; by eapply Hid1|done].
Qed.

Lemma finish_keeps s m d : consistent seen (mkWorld s (Some (m, Finish)) d) ->
  consistent seen (mkWorld (mkSys (fs s) (finish_command (Mutation m) true (gate s)).2) None d).
Proof.
  intros [(Hok & Hq & Hp & Hn) Hin Hall (f & c & Hst & Hc & Hle & Hpend & [Hfl1 Hfl2] & Hdur) Hgate [Hid1 Hid2] Hds]. cbn [sys in_flight disk fs gate] in *.
  split; cbn [sys in_flight disk fs gate finish_command snd]; try done.
  - split_and!; try done. by destruct Hq.
  - exists f, c. split_and!; try done. cbn [durable set_durable]. rewrite BTree.get_insert by done. rewrite (Hid1 m Finish eq_refl), decide_True by done. simpl. lia.
  - intros E. by destruct (Hgate E).
  - by apply BTree.insert_sorted.
Qed.

Lemma fail_keeps s m st d : consistent seen (mkWorld s (Some (m, st)) d) ->
  consistent seen (mkWorld (mkSys (fs s) (finish_command (Mutation m) false (gate s)).2) None d).
Proof.
  intros [(Hok & Hq & Hp & Hn) Hin Hall (f & c & Hst & Hc & Hle & Hpend & Hfl & Hdur) Hgate [Hid1 Hid2] Hds]. cbn [sys in_flight disk fs gate] in *.
  split; cbn [sys in_flight disk fs gate finish_command snd]; try done.
  - split_and!; try done. by destruct Hq.
  - by exists f, c.
  - split; [done|]. by intros m' ?%elem_of_nil.
Qed.

End Thread.

Lemma fresh_consistent w : fresh w -> consistent [fs (sys w)] w.
Proof.
  intros [Hfl Hd (Hok & Hh & Hg) (Hq & Hqe & Hdur & Hds) Hp Hst]. destruct w as [s fl d]. cbn [sys in_flight disk] in *. subst fl d.
  assert (Est : state_of (fs s) = Recovery.mkRecovered 0 []) by (unfold state_of; by rewrite Hh, Hg).
  split; cbn [sys in_flight disk]; try done.
  - split_and!; try done. intros k v. by rewrite Hh.
  - by left.
  - intros f ->%list_elem_of_singleton. split_and!; [done|done|by apply persistent_limits|]. intros k v. by rewrite Hh.
  - exists (fs s), 0. rewrite Hqe, Hdur. split_and!; try done; [|lia|intros _; by constructor].
    split; [by left| |by split_and!; try constructor| |split; [constructor|done]].
    + exists []. rewrite Est. split; [constructor|done].
    + intros k v. by rewrite Hh.
  - rewrite Hqe. split; [done|]. by intros m ?%elem_of_nil.
Qed.

(** ** Recovery *)

Definition visible (entries : list (Z * bool * list Z)) : list (Z * list Z) :=
  entries ≫= fun '(g, temporary, bs) => if (temporary : bool) then [] else [(g, bs)].

Lemma visible_listing d : visible (listing_of d) = published d.
Proof.
  unfold visible, listing_of. rewrite bind_app.
  assert (E1 : forall m : list (Z * list Z), ((fun '(g, bs) => (g, false, bs)) <$> m) ≫= (fun '(g, temporary, bs) => if (temporary : bool) then [] else [(g, bs)]) = m).
  { induction m as [|[g bs] m IH]; [done|]. rewrite fmap_cons, bind_cons, IH. done. }
  assert (E2 : forall m : list (Z * list Z), ((fun '(g, bs) => (g, true, bs)) <$> m) ≫= (fun '(g, temporary, bs) => if (temporary : bool) then [] else [(g, bs)]) = []).
  { induction m as [|[g bs] m IH]; [done|]. rewrite fmap_cons, bind_cons, IH. done. }
  by rewrite E1, E2, app_nil_r.
Qed.

Lemma content_total_nonneg entries : 0 <= content_total entries.
Proof. unfold content_total. induction entries as [|e es IH]; simpl; [lia|]. pose proof (size_nonneg e.2). lia. Qed.

Lemma read_files_ok mf mb mr entries : mb <= usize_max -> mr <= usize_max -> Forall (fun e => size e.2 <= mf) entries -> forall b r, 0 <= b -> 0 <= r ->
  r + size entries <= mr -> b + content_total entries <= mb ->
  read_generation_files mf mb mr entries b r = Ok (visible entries, b + content_total entries, r + size entries).
Proof.
  intros Hmb Hmr. induction 1 as [|[[g t] bs] es Hs Hes IH]; intros b r Hb Hr Hrr Hbb; [unfold content_total, size in *; simpl in *; do 2 f_equal; [f_equal; lia|lia]|].
  assert (Esz : size ((g, t, bs) :: es) = 1 + size es) by (unfold size; simpl; lia). rewrite Esz in *.
  change (content_total ((g, t, bs) :: es)) with (size bs + content_total es) in *. pose proof (size_nonneg bs). pose proof (size_nonneg es). pose proof (content_total_nonneg es). simpl in Hs.
  cbn [read_generation_files]. unfold checked_add. rewrite (proj2 (Z.leb_le (r + 1) usize_max)) by lia. cbn [ok_or mbind outcome_bind].
  rewrite (proj2 (Z.ltb_ge mr _)) by lia. rewrite (proj2 (Z.leb_le (b + size bs) usize_max)) by lia. cbn [ok_or mbind outcome_bind].
  rewrite (proj2 (Z.ltb_ge mf _)), (proj2 (Z.ltb_ge mb _)) by lia. cbn [orb]. rewrite IH by lia. cbn [mbind outcome_bind]. unfold visible. rewrite bind_cons.
  do 2 f_equal; [f_equal; [by destruct t|lia]|lia].
Qed.

Lemma visible_total entries : foldr Z.add 0 ((fun r => size (Recovery.record_bytes r)) <$> ((fun '(s, bs) => Recovery.mkRecoveryRecord s bs) <$> visible entries)) <= content_total entries /\
  size (visible entries) <= size entries.
Proof.
  induction entries as [|[[g t] bs] es [IH1 IH2]]; [split; done|]. change (content_total ((g, t, bs) :: es)) with (size bs + content_total es).
  unfold visible in *. rewrite bind_cons. pose proof (size_nonneg bs). assert (Esz : size ((g, t, bs) :: es) = 1 + size es) by (unfold size; simpl; lia). rewrite Esz. destruct t.
  - simpl app. split; lia.
  - rewrite !fmap_app, size_app. simpl. change (size [(g, bs)]) with 1. split; lia.
Qed.

(** The objects of the recovered files are loaded from the disk. *)
Lemma load_objects_ok d ns : digests_ok d ->
  (forall n o s, n ∈ ns -> FsCheckpoint.object n = Some (o, s) -> exists bs, BTree.get o (disk_objects d) = Some bs /\ size bs = s) ->
  forall loaded, BTree.sorted loaded -> (forall o bs, BTree.get o loaded = Some bs -> BTree.get o (disk_objects d) = Some bs) ->
  exists loaded', load_objects sha256 ns loaded d = Ok loaded' /\
    (forall o bs, BTree.get o loaded' = Some bs -> BTree.get o (disk_objects d) = Some bs) /\
    (forall o, is_Some (BTree.get o loaded) -> is_Some (BTree.get o loaded')) /\
    (forall n o s, n ∈ ns -> FsCheckpoint.object n = Some (o, s) -> is_Some (BTree.get o loaded')).
Proof.
  intros [Hso Hdig]. induction ns as [|n ns IH]; intros Hns loaded Hs Hl; [exists loaded; split_and!; try done; by intros n o s ?%elem_of_nil|].
  assert (Hns' : forall m o s, m ∈ ns -> FsCheckpoint.object m = Some (o, s) -> exists bs, BTree.get o (disk_objects d) = Some bs /\ size bs = s)
    by (intros m o s Hm; apply Hns; by right).
  simpl. destruct (FsCheckpoint.object n) as [[o s]|] eqn:Eo.
  - destruct (BTree.contains_key o loaded) eqn:Ec.
    + destruct (IH Hns' loaded Hs Hl) as (loaded' & Hrun & H1 & H2 & H3). exists loaded'. split_and!; [done|done|done|].
      intros m o' s' [->|Hm]%elem_of_cons E; [|by eapply H3]. rewrite Eo in E. injection E as <- <-. apply H2. by apply BTree.contains_key_true in Ec.
    + destruct (Hns n o s ltac:(by left) Eo) as (bs & Hbs & Hsz). unfold verify_object. rewrite Hbs. destruct (Hdig _ _ Hbs) as [Hd _]. rewrite bool_decide_eq_true_2 by done.
      rewrite Hsz, Z.eqb_refl. cbn [negb].
      assert (Hget : forall o', BTree.get o' (BTree.insert o bs loaded) = if decide (o' = o) then Some bs else BTree.get o' loaded) by (intros; by apply BTree.get_insert).
      destruct (IH Hns' (BTree.insert o bs loaded)) as (loaded' & Hrun & H1 & H2 & H3); [by apply BTree.insert_sorted| |].
      { intros o' b. rewrite Hget. destruct (decide (o' = o)) as [->|]; [by intros [= <-]|apply Hl]. }
      exists loaded'. split_and!; [done|done| |].
      * intros o' Ho'. apply H2. rewrite Hget. by destruct (decide (o' = o)).
      * intros m o' s' [->|Hm]%elem_of_cons E; [|by eapply H3]. rewrite Eo in E. injection E as <- <-. apply H2. rewrite Hget. by rewrite decide_True.
  - destruct (IH Hns' loaded Hs Hl) as (loaded' & Hrun & H1 & H2 & H3). exists loaded'. split_and!; [done|done|done|].
    intros m o' s' [->|Hm]%elem_of_cons E; [congruence|by eapply H3].
Qed.

Lemma recover_stored seen f d c entries : stored seen f d -> fs_ok f -> limits f = l ->
  read_confirmed sha256 (disk_confirmed d) = Ok c -> c <= generation f -> entries ≡ₚ listing_of (disk_journal d) -> recovery_fits entries ->
  exists objs, recover_computer sha256 id l [] entries d = Ok (mkRecoveredComputer (state_of f) objs c) /\
    (forall o bs, BTree.get o objs = Some bs -> BTree.get o (disk_objects d) = Some bs) /\
    (forall k v o n, BTree.get k (home_view (home f)) = Some v -> FsCheckpoint.object v = Some (o, n) -> is_Some (BTree.get o objs)).
Proof.
  intros Hst Hok Hlim Hc Hle Hp [Hrec Hbytes Hfiles]. pose proof (so_digests _ _ _ Hst) as Hdig. pose proof (so_objects _ _ _ Hst) as Hobj.
  destruct (so_chain _ _ _ Hst) as (recs & Hch & Hrecs). unfold recover_computer. rewrite Hc. cbn [mbind outcome_bind read_generation_files].
  rewrite read_files_ok by (done || lia). cbn [mbind outcome_bind fmap list_fmap].
  set (i := Recovery.mkInput id c [] ((fun '(s, bs) => Recovery.mkRecoveryRecord s bs) <$> visible entries)).
  destruct (visible_total entries) as [Hvt Hvs]. pose proof (size_nonneg (visible entries)).
  assert (Hjournal : Recovery.journal_records i ≡ₚ [] ++ recs ++ []).
  { cbn [i Recovery.journal_records]. rewrite app_nil_r. simpl. rewrite Hrecs. apply fmap_Permutation. rewrite <- visible_listing. unfold visible. by rewrite Hp. }
  assert (Hbound : Recovery.bound_work i l = Ok tt).
  { unfold Recovery.bound_work. cbn [i Recovery.checkpoints Recovery.journal_records]. change (size []) with 0. unfold checked_add.
    assert (Es : size ((fun '(s, bs) => Recovery.mkRecoveryRecord s bs) <$> visible entries) = size (visible entries)) by (unfold size; by rewrite length_fmap). rewrite Es.
    rewrite (proj2 (Z.leb_le _ _)) by lia. cbn [ok_or mbind outcome_bind]. rewrite (proj2 (Z.ltb_ge _ _)) by lia. simpl app.
    rewrite Replay.sum_checked_ok by (try lia; apply Forall_fmap, Forall_forall; intros r _; apply size_nonneg). cbn [ok_or mbind outcome_bind]. by rewrite (proj2 (Z.ltb_ge _ _)) by lia. }
  pose proof (f_limits _ Hok) as [Hnodes Hmax _ _ _]. rewrite Hlim in *.
  assert (Hvalid : Recovery.validate_state (Recovery.mkRecovered 0 []) l = Ok tt).
  { unfold Recovery.validate_state. simpl. unfold saturating_sub. rewrite (proj2 (Z.ltb_ge _ _)) by (change (size []) with 0; lia). cbn [mbind outcome_bind ok_or]. by rewrite (proj2 (Z.ltb_ge _ _)) by lia. }
  rewrite (Replay.recover_chain sha256 l id i (Recovery.mkRecovered 0 []) (state_of f) [] recs []); try done; try constructor.
  cbn [mbind outcome_bind]. destruct (load_objects_ok d (BTree.values (home_view (home f))) Hdig) with (loaded := @nil (list Z * list Z)) as (objs & Hrun & H1 & _ & H3); [|constructor|done|].
  { intros n o s Hn Ho. apply list_elem_of_fmap in Hn as ([k v] & -> & Hk). apply BTree.get_elem in Hk; [|apply flat_dir_sorted, Hok]. by eapply Hobj. }
  change (Recovery.state_nodes (state_of f)) with (home_view (home f)). rewrite Hrun. cbn [mbind outcome_bind]. exists objs. split_and!; [done|done|].
  intros k v o n Hk Ho. eapply H3; [|exact Ho]. apply list_elem_of_fmap. exists (k, v). split; [done|]. apply BTree.get_elem; [apply flat_dir_sorted, Hok|done].
Qed.

(** ** Opening the computer again *)

(** What a filesystem opened after a crash has to do with the one before. *)
Record reopened (f f' : ComputerFileSystem) (d' : Disk) (q' : QueueState) : Prop := {
  ro_home : home f' = home f;
  ro_generation : generation f' = generation f;
  ro_ok : fs_ok f';
  ro_digests : store_digests sha256 Content f';
  ro_persistence : persistence f' = Some p /\ limits f' = l;
  ro_gate : q' = set_durable [(id, generation f)] (set_admitted [(id, generation f)] (gate_start l));
  ro_confirmed : read_confirmed sha256 (disk_confirmed d') = Ok (generation f) }.

Lemma open_computer_ok seen f d c image entries : stored seen f d -> fs_ok f -> limits f = l -> read_confirmed sha256 (disk_confirmed d) = Ok c -> c <= generation f ->
  disk_tombstone d = None -> openable image entries d ->
  exists f' d' q', open_computer sha256 id l image [] entries (d, gate_start l) = (Ok f', (d', q')) /\ reopened f f' d' q' /\ (d' = d \/ d' = write_confirmed sha256 (generation f) d).
Proof.
  intros Hst Hok Hlim Hc Hle Htomb [[bs Hrom] Hcont Hp Hfits].
  destruct (recover_stored seen f d c entries Hst Hok Hlim Hc Hle Hp Hfits) as (objs & Hrec & Hobjs & Hloaded).
  pose proof (f_limits _ Hok) as Hl. rewrite Hlim in Hl. destruct (with_rom_ok sha256 Content l Hl bs image Hrom Hcont) as (f1 & Hf1 & [Hframe _ [_ _ Hdig1] _ _] & Hok1 & _).
  assert (El : limits f1 = l) by (by rewrite Hframe). assert (Eh : home f1 = []) by (by rewrite Hframe). assert (Ew : within (limits f1) (home f)) by (rewrite El, <- Hlim; apply Hok).
  destruct (restore_ok sha256 Content (home f) objs f1 (f_home _ Hok) Ew Hok1 Eh Hdig1) with (g := generation f) as (f2 & Hf2 & Hok2 & Hdig2 & Hframe2); [|apply Hok|].
  { intros k v o n Hk Ho. destruct (Hloaded k v o n Hk Ho) as [b Hb]. destruct (so_digests _ _ _ Hst) as [_ Hdd]. destruct (Hdd _ _ (Hobjs _ _ Hb)) as [E1 E2].
    destruct (so_objects _ _ _ Hst k v o n Hk Ho) as (b' & Hb' & Hn). rewrite (Hobjs _ _ Hb) in Hb'. injection Hb' as <-. by exists b. }
  exists (attach_persistence (mkPersistence id l) f2). eexists _, _. split.
  - unfold open_computer. unfold mbind at 1, ST_bind at 1, st_get. cbn [gate_start health]. unfold mbind at 1, ST_bind at 1, mret at 1, ST_ret at 1.
    unfold mbind at 1, ST_bind at 1, st_lift at 1. rewrite Htomb. cbn [read_tombstone]. rewrite Hrec. cbn [recovered_state recovered_confirmed recovered_objects].
    change (Recovery.state_generation (state_of f)) with (generation f). unfold mbind at 1, ST_bind at 1, st_put at 1. unfold mbind at 1, ST_bind at 1, st_lift at 1. rewrite Hf1.
    unfold mbind at 1, ST_bind at 1, st_lift at 1. change (state_of f) with (Recovery.mkRecovered (generation f) (home_view (home f))). rewrite Hf2.
    unfold mbind at 1, ST_bind at 1, on_queue, register_computer, mbind at 1, ST_bind at 1, st_get. cbn [gate_start health require_active_store]. unfold mbind at 1, ST_bind at 1, st_lift at 1, st_put. cbv beta iota. reflexivity.
  - cbn [attach_persistence]. split.
    + split; cbn [home generation persistence limits objects attach_persistence]; try (by rewrite Hframe2).
      * destruct Hok2. by split.
      * split; [f_equal; apply persistence_eta|by rewrite Hframe2].
      * done.
      * pose proof (f_generation _ Hok). destruct (Z.ltb_spec c (generation f)); [by apply read_confirmed_written|]. rewrite Hc. f_equal. lia.
    + destruct (c <? generation f); [by right|by left].
Qed.

Lemma confirmed_stored seen f d g : stored seen f d -> stored seen f (write_confirmed sha256 g d).
Proof. intros [? ? ? ? ?]. by split. Qed.

Lemma reopened_consistent seen g f f' d d' q' : stored seen f d -> names_ok f -> limits f = l -> persistent g p -> reopened f f' d' q' -> d' = d \/ d' = write_confirmed sha256 (generation f) d ->
  consistent [f'] (mkWorld (mkSys f' q') None d').
Proof.
  intros Hst Hn Hlf Hp [Hh Hg Hok Hdig [Hper Hlim] -> Hconf] Hd'.
  assert (Hst' : stored [f'] f' d').
  { assert (H : stored seen f d') by (destruct Hd' as [->| ->]; [done|by apply confirmed_stored]). destruct H as [_ Hch Hs Hobj Hdg].
    assert (Es : state_of f' = state_of f) by (unfold state_of; by rewrite Hh, Hg). split; [by left|by rewrite Es|done| |done].
    unfold objects_on_disk. by rewrite Hh. }
  assert (Hp' : persistent f' p). { pose proof (persistent_limits g Hp) as E. destruct Hp as [? ? ? Hpa Hpr]. rewrite E in Hpa, Hpr. by split; rewrite ?Hlim. }
  assert (Hn' : names_ok f') by (unfold names_ok; rewrite Hh, Hlim, <- Hlf; exact Hn).
  split; cbn [sys in_flight disk fs gate]; try done.
  - by left.
  - by intros g' ->%list_elem_of_singleton.
  - exists f', (generation f). split_and!; try done; [lia|intros _; by constructor|]. cbn [durable set_durable set_admitted]. rewrite BTree.get_cons by (by repeat constructor). rewrite decide_True by done. simpl. lia.
  - split; [done|]. by intros m ?%elem_of_nil.
  - by repeat constructor.
Qed.

Lemma consistent_reopens seen w image entries : consistent seen w -> disk_tombstone (disk w) = None -> openable image entries (disk w) ->
  exists f f' d' q', open_computer sha256 id l image [] entries (disk w, gate_start l) = (Ok f', (d', q')) /\ f ∈ seen /\ store_digests sha256 Content f /\ fs_ok f /\
    default 0 (BTree.get id (durable (gate (sys w)))) <= generation f /\ reopened f f' d' q' /\ consistent [f'] (mkWorld (mkSys f' q') None d') /\ disk_tombstone d' = None.
Proof.
  intros [(_ & _ & Hp & _) _ Hall (f & c & Hst & Hc & Hle & _ & _ & Hdur) _ _ _] Htomb Hopen. destruct (Hall f (so_seen _ _ _ Hst)) as (Hok & Hsd & Hlim & Hn).
  destruct (open_computer_ok seen f (disk w) c image entries Hst Hok Hlim Hc Hle Htomb Hopen) as (f' & d' & q' & Hrun & Hre & Hd').
  exists f, f', d', q'. split_and!; try done; [apply Hst|lia|by eapply reopened_consistent|by destruct Hd' as [->| ->]].
Qed.

Lemma step_tombstone w w' : step w w' -> disk_tombstone (disk w') = disk_tombstone (disk w).
Proof.
  destruct 1 as [| |s m d d' H| | | | |]; try done. simpl. unfold persist_object in H. destruct (m_object m) as [[o bs]|]; [|by injection H as <-].
  destruct (negb _); [done|]. destruct (BTree.contains_key _ _); [|by injection H as <-]. by apply outcome_bind_inv in H as (? & _ & [= <-]).
Qed.

Lemma step_consistent seen w w' : consistent seen w -> step w w' -> consistent (seen ++ [fs (sys w')]) w'.
Proof.
  intros IH Hs. destruct Hs as [r o s s' fl d Hrun Hn Hcont| | | | | | |]; [by eapply request_keeps|..]; (apply thread_seen; [exact (co_seen _ _ IH)|]).
  - by eapply take_keeps.
  - by eapply object_keeps.
  - by apply temporary_keeps.
  - by apply journal_keeps.
  - by apply confirmed_keeps.
  - by apply finish_keeps.
  - by eapply fail_keeps.
Qed.

Lemma run_consistent w0 seen w : fresh w0 -> run w0 seen w -> consistent seen w /\ disk_tombstone (disk w) = None.
Proof.
  intros Hf. induction 1 as [|seen w w' _ [IH IHt] Hs|seen w image entries f d q _ [IH IHt] Hopen Hrun].
  - split; [by apply fresh_consistent|by rewrite (fr_disk _ Hf)].
  - split; [by eapply step_consistent|by rewrite (step_tombstone _ _ Hs)].
  - destruct (consistent_reopens _ _ _ _ IH IHt Hopen) as (f0 & f' & d' & q' & Hrun' & _ & _ & _ & _ & Hre & Hcon & Ht). rewrite Hrun in Hrun'. injection Hrun' as <- <- <-. done.
Qed.

(** The namespace below [/home] depends on the tree and the contents alone. *)
Lemma abs_home f f' k : fs_ok f -> fs_ok f' -> store_digests sha256 Content f -> store_digests sha256 Content f' -> home f' = home f ->
  [str_home] `prefix_of` k -> abs f' k = abs f k.
Proof.
  intros Hok Hok' Hsd Hsd' Hh [j ->].
  assert (Hl : forall g, fs_ok g -> lookup g ([str_home] ++ j) = BTree.get ([str_home] ++ j) (home_view (home g))).
  { intros g Hg. unfold lookup. destruct (BTree.get _ (home_view (home g))); [done|]. rewrite flat_dir_get_other; [done|apply Hg|by intros [z E]]. }
  pose proof (Hl f Hok) as H1. pose proof (Hl f' Hok') as H2. rewrite Hh in H2. unfold abs. rewrite H1, H2.
  destruct (BTree.get _ (home_view (home f))) as [[q g|q g n o x]|]; [done| |done]. simpl.
  destruct (lookup_stored _ _ _ _ _ _ _ Hok H1) as [st Hst]. destruct (lookup_stored _ _ _ _ _ _ _ Hok' H2) as [st' Hst']. rewrite Hst, Hst'. simpl.
  destruct (Hsd _ _ Hst) as [E1 C1]. destruct (Hsd' _ _ Hst') as [E2 C2]. by rewrite (sha256_free _ _ C2 C1) by congruence.
Qed.

(** C3. No crash loses a durable mutation or shows a state that never was, under four
    conditions: a request and the publication of its mutation are one step for the
    persistence thread ([late_publish_breaks_recovery] shows a run where they are
    not); every request leaves all paths of the home directory within the limits on paths
    ([names_ok], [rename_breaks_recovery]); the journal found after the crash is within the
    limits of recovery ([recovery_fits], [journal_outgrows_recovery]); and the digest does
    not collide on the contents in use.  Take a new computer and any interleaving, of such
    requests with the steps of the thread, which writes the object, then the journal
    record, then the confirmed generation, each atomically, and may fail or stop
    anywhere, leaving a temporary file; after a crash the computer may be opened again,
    any number of times.  Whenever the machine stops, the store can open the computer
    from what is then on disk, with any admitted ROM image, and the home directory is
    exactly the one the computer had at some moment since it was last opened, at least
    as recent as the generation reported durable: same tree, same generation, same
    bytes. *)
Theorem crash_recovers (w0 w : World) (seen : list ComputerFileSystem) (image : Rom.RomImage) (entries : list (Z * bool * list Z)) :
  fresh w0 -> run w0 seen w -> openable image entries (disk w) ->
  exists f f' d' q', open_computer sha256 id l image [] entries (disk w, gate_start l) = (Ok f', (d', q')) /\ f ∈ seen /\
    home f' = home f /\ generation f' = generation f /\ default 0 (BTree.get id (durable (gate (sys w)))) <= generation f /\
    (forall k, [str_home] `prefix_of` k -> abs f' k = abs f k) /\
    fs_ok f' /\ durable_generation id q' = Ok (generation f) /\ persistence f' = Some p.
Proof.
  intros Hf Hrun Hopen. destruct (run_consistent _ _ _ Hf Hrun) as [Hcon Htomb].
  destruct (consistent_reopens _ _ _ _ Hcon Htomb Hopen) as (f & f' & d' & q' & Hrun' & Hin & Hsd & Hok & Hdur & [Hh Hg Hok' Hsd' [Hper Hlim] -> Hconf] & _ & _).
  exists f, f', d', (set_durable [(id, generation f)] (set_admitted [(id, generation f)] (gate_start l))). split_and!; try done; [intros k Hk; by apply abs_home|].
  unfold durable_generation. cbn [health set_durable set_admitted gate_start durable]. rewrite BTree.get_cons by (by repeat constructor). by rewrite decide_True.
Qed.

End Digest.

Definition demo_persistence : ComputerPersistence := mkPersistence demo_id testing.
Definition demo_start : World :=
  mkWorld (mkSys (attach_persistence demo_persistence (with_limits testing)) (gate_start testing)) None empty_disk.
Definition demo_written : Sys := (perform demo_digest demo_put (sys demo_start)).2.
Definition demo_mutation : MutationCommand := match queue (gate demo_written) with Mutation m :: _ => m | _ => mkMutation [] 0 None [] end.
Definition demo_taken : Sys := mkSys (fs demo_written) (take_command (gate demo_written)).2.
Definition demo_object : Disk := match persist_object demo_digest demo_mutation empty_disk with Ok d => d | _ => empty_disk end.
Definition demo_crashed : World := mkWorld demo_taken (Some (demo_mutation, WriteConfirmed)) (persist_journal demo_mutation demo_object).
Definition demo_content (bs : list Z) : Prop := bs = [104; 105].

Lemma demo_fresh : fresh demo_digest demo_content demo_persistence demo_start.
Proof.
  pose proof (with_limits_ok testing testing_ok) as H. split; try done.
  - split_and!; try done. destruct H. by split.
  - split_and!; try done. constructor.
  - split; try done. split; [done|]. by repeat constructor.
Qed.

Lemma demo_fits : path_fits testing demo_path.
Proof.
  assert (E : parse_utf8 (fmt demo_path) testing = Ok demo_path) by (vm_compute; reflexivity).
  apply parse_accepts in E as [E _]; [|done|done]. split; [split; [exact E|done]|]. vm_compute. by repeat constructor.
Qed.

Lemma demo_run : exists seen, run demo_digest demo_content demo_persistence demo_start seen demo_crashed /\ length seen = 5%nat.
Proof.
  eexists. split.
  - eapply run_step; [eapply run_step; [eapply run_step; [eapply run_step; [apply run_start|]|]|]|].
    + apply (step_request _ _ demo_put (Ok Done) (sys demo_start) demo_written None empty_disk); [vm_compute; reflexivity| |].
      * intros k v Hk. assert (k = demo_path) as ->; [|apply demo_fits].
        assert (E : home_view (home (fs demo_written)) = [(demo_path, FsCheckpoint.File demo_path 1 2 (demo_digest [104; 105]) true)]) by (vm_compute; reflexivity).
        rewrite E in Hk. apply BTree.get_elem in Hk; [|by repeat constructor]. apply list_elem_of_singleton in Hk. by injection Hk.
      * intros m Hm o bs Ho. assert (E : queue (gate demo_written) = [Mutation demo_mutation]) by (vm_compute; reflexivity).
        rewrite E in Hm. apply list_elem_of_singleton in Hm as [= ->]. vm_compute in Ho. by injection Ho as <- <-.
    + apply step_take. vm_compute. reflexivity.
    + apply step_object. vm_compute. reflexivity.
    + apply step_journal.
  - reflexivity.
Qed.

Lemma demo_openable : openable demo_digest demo_content demo_persistence (Rom.mkImage (demo_digest demo_image) [demo_entry])
  (listing_of (disk_journal (disk demo_crashed))) (disk demo_crashed).
Proof.
  split.
  - exists demo_image. vm_compute. reflexivity.
  - by intros e ->%list_elem_of_singleton.
  - done.
  - split; [vm_compute; split; discriminate|vm_compute; split; discriminate|]. vm_compute. repeat constructor. discriminate.
Qed.

Lemma crash_recovers_witness : exists f' d' q',
  open_computer demo_digest demo_id testing (Rom.mkImage (demo_digest demo_image) [demo_entry]) [] (listing_of (disk_journal (disk demo_crashed)))
    (disk demo_crashed, gate_start testing) = (Ok f', (d', q')) /\
  fs_ok f' /\ abs f' demo_path = Some (AFile [104; 105] true) /\ abs f' [str_rom; [97]] = Some (AFile [104; 105] true).
Proof.
  destruct demo_run as (seen & Hrun & _).
  destruct (crash_recovers demo_digest demo_digest_size demo_digest_bytes demo_content (fun a b Ha Hb _ => eq_trans Ha (eq_sym Hb)) demo_persistence
    demo_start demo_crashed seen _ _ demo_fresh Hrun demo_openable) as (f & f' & d' & q' & Hr & _ & _ & _ & _ & _ & Hok & _).
  exists f', d', q'. split; [exact Hr|]. split; [exact Hok|]. assert (E := Hr). vm_compute in E. injection E as <- _ _. split; vm_compute; reflexivity.
Defined.

End Crash.
