(* ===== verification/StoreProps.v ===== *)
(** The store over time: what recovery answers whatever is on disk, collecting the
    objects no computer needs, and runs after which a computer cannot be opened
    again. *)

From S2P Require Import Prelude Words Unicode Path BTree FileHandle Codec Journal FsCheckpoint Recovery Replay Gate Rom Tree TreeInv TreeOps TreeRename TreeSpec TreeReplay Store Crash.

Module StoreProps.
Import FsError FsLimits Path PathProps Capability Codec CodecProps Journal JournalProps Tree TreeView TreeInv TreeSpec Gate Store Crash.

(** ** Names *)

Lemma hex_digit_ok n : 0 <= n < 16 -> is_hex (hex_digit n) = true /\ hex_value (hex_digit n) = n.
Proof.
  intros Hn. unfold is_hex, hex_value, hex_digit. destruct (Z.ltb_spec n 10).
  - rewrite !(proj2 (Z.leb_le _ _)) by lia. split; [done|lia].
  - rewrite (proj2 (Z.leb_gt (87 + n) 57)), !(proj2 (Z.leb_le _ _)) by lia. split; [by rewrite andb_false_r|lia].
Qed.

Lemma hex_value_ok b : is_hex b = true -> 0 <= hex_value b < 16 /\ hex_digit (hex_value b) = b.
Proof.
  unfold is_hex, hex_value, hex_digit. intros H. bsimp. destruct H; bsimp.
  - rewrite (proj2 (Z.leb_le b 57)), (proj2 (Z.ltb_lt _ 10)) by lia. lia.
  - rewrite (proj2 (Z.leb_gt b 57)), (proj2 (Z.ltb_ge _ 10)) by lia. lia.
Qed.

Lemma nibbles b : Z.shiftr b 4 = b / 16 /\ Z.land b 15 = b mod 16.
Proof. split; [by rewrite Z.shiftr_div_pow2|]. change 15 with (Z.ones 4). by rewrite Z.land_ones. Qed.

Lemma hex_length bs : size (hex bs) = size bs * 2.
Proof. unfold size. induction bs; simpl; lia. Qed.

Lemma hex_is_hex bs : is_bytes bs -> Forall (fun b => is_hex b = true) (hex bs).
Proof.
  induction 1 as [|b bs Hb _ IH]; [constructor|]. unfold is_byte in Hb. destruct (nibbles b) as [E1 E2]. simpl. rewrite E1, E2.
  repeat constructor; [apply hex_digit_ok..|done]; Z.to_euclidean_division_equations; lia.
Qed.

Lemma hex_pairs_hex bs : is_bytes bs -> hex_pairs (hex bs) = bs.
Proof.
  induction 1 as [|b bs Hb _ IH]; [done|]. unfold is_byte in Hb. destruct (nibbles b) as [E1 E2]. simpl. rewrite E1, E2, IH. f_equal.
  assert (H1 : 0 <= b / 16 < 16) by (Z.to_euclidean_division_equations; lia).
  assert (H2 : 0 <= b mod 16 < 16) by (Z.to_euclidean_division_equations; lia).
  rewrite (proj2 (hex_digit_ok _ H1)), (proj2 (hex_digit_ok _ H2)). Z.to_euclidean_division_equations. lia.
Qed.

Lemma hex_inj a b : is_bytes a -> is_bytes b -> hex a = hex b -> a = b.
Proof. intros Ha Hb E. by rewrite <- (hex_pairs_hex a), <- (hex_pairs_hex b), E. Qed.

(** Names are decoded exactly when they are the encoding of that many bytes. *)
Lemma decode_hex_iff n v bs : decode_hex n v = Some bs <-> v = hex bs /\ is_bytes bs /\ size bs = n.
Proof.
  unfold decode_hex. split.
  - destruct (negb (size v =? n * 2)) eqn:E1; [done|]. destruct (forallb is_hex v) eqn:E2; [|done]. bsimp. cbn [orb negb]. intros [= <-].
    assert (Hall : Forall (fun b => is_hex b = true) v) by (apply Forall_forall; intros x Hx; by apply (proj1 (forallb_forall is_hex v) E2), list_elem_of_In).
    clear E2. revert v n E1 Hall. fix IH 1. intros [|h [|lo v]] n E1 Hall.
    + unfold size in *. simpl in *. split_and!; [done|constructor|lia].
    + unfold size in E1. simpl in E1. lia.
    + apply Forall_cons in Hall as [Hh Hall]. apply Forall_cons in Hall as [Hlo Hall].
      destruct (hex_value_ok _ Hh) as [Bh Eh]. destruct (hex_value_ok _ Hlo) as [Bl El].
      destruct (IH v (n - 1)) as (E & Hb & Hs); [unfold size in *; simpl in *; lia|done|]. simpl.
      destruct (nibbles (16 * hex_value h + hex_value lo)) as [N1 N2]. rewrite N1, N2.
      replace ((16 * hex_value h + hex_value lo) / 16) with (hex_value h) by (Z.to_euclidean_division_equations; lia).
      replace ((16 * hex_value h + hex_value lo) mod 16) with (hex_value lo) by (Z.to_euclidean_division_equations; lia).
      rewrite Eh, El, <- E. split_and!; [done|constructor; [unfold is_byte; lia|done]|]. unfold size in *. simpl. lia.
  - intros (-> & Hb & Hs). rewrite hex_length, Hs, Z.eqb_refl, hex_pairs_hex by done. cbn [negb orb].
    assert (E : forallb is_hex (hex bs) = true).
    { apply forallb_forall. intros x Hx. pose proof (hex_is_hex bs Hb) as H. rewrite Forall_forall in H. apply H. by apply list_elem_of_In. }
    by rewrite E.
Qed.

Lemma hex_not_tmp bs : is_bytes bs -> strip_suffix TMP (hex bs) = None.
Proof.
  intros Hb. unfold strip_suffix. destruct (bool_decide _) eqn:E; [|done]. bsimp. exfalso.
  pose proof (hex_is_hex bs Hb) as H. rewrite E in H. apply Forall_app in H as [_ H]. by apply Forall_cons in H as [? _].
Qed.

(** ** The directory of objects *)

Definition is_digest (o : list Z) : Prop := is_bytes o /\ size o = 32.

Lemma scan_shard_ok mo name files : forall n stored n', scan_shard mo name files n = Ok (stored, n') -> NoDup files.*1 ->
  NoDup stored /\ forall o, o ∈ stored <-> is_digest o /\ take 2 (hex o) = name /\ hex o ∈ files.*1.
Proof.
  induction files as [|[f t] files IH]; intros n stored n' H Hn; simpl in H.
  { injection H as <- <-. split; [constructor|]. intros o. cbn. rewrite !elem_of_nil. naive_solver. }
  apply outcome_bind_inv in H as (m & _ & H). destruct (mo <? m); [done|]. destruct (is_symlink t || negb (is_file t)); [done|].
  apply outcome_bind_inv in H as (id & Hid & H). destruct (decode_hex 32 _) as [id'|] eqn:Ed; [|done]. injection Hid as ->.
  apply decode_hex_iff in Ed as (Ec & Hb & Hsz). destruct (bool_decide (take 2 _ = name)) eqn:Et; [|done]. bsimp. cbn [negb] in H.
  apply outcome_bind_inv in H as ([st n1] & Hr & H). injection H as <- <-. cbn [fmap list_fmap fst] in *.
  apply NoDup_cons in Hn as [Hnf Hn]. destruct (IH _ _ _ Hr Hn) as [IHn IHi]. destruct (strip_suffix TMP f) as [f'|] eqn:Es.
  - split; [done|]. intros o. rewrite IHi, elem_of_cons. split; [by intuition|]. intros (Ho & Hp & [Ef|Hin]); [|done].
    exfalso. rewrite <- Ef in Es. by rewrite hex_not_tmp in Es by apply Ho.
  - simpl in *. subst f. split.
    + apply NoDup_cons. split; [|done]. intros (_ & _ & Hin)%IHi. done.
    + intros o. rewrite !elem_of_cons, IHi. split.
      * intros [->|Hin]; [by split_and!; [..|left]|by intuition].
      * intros (Ho & Hp & [Ef|Hin]); [left|by right]. apply hex_inj; [apply Ho|done|done].
Qed.

(** The shards are a directory that holds the objects under their names, each in the
    shard of its first two digits; other entries are temporary files. *)
Record lists_objects (shards : list Shard) (objects : list (list Z * list Z)) : Prop := {
  lo_names : NoDup (shard_name <$> shards) /\ Forall (fun s => NoDup (shard_files s).*1) shards;
  lo_objects : forall o, is_Some (BTree.get o objects) <->
    is_digest o /\ exists s, s ∈ shards /\ shard_name s = take 2 (hex o) /\ hex o ∈ (shard_files s).*1 }.

Lemma scan_shards_ok mo shards : forall n stored n', scan_shards mo shards n = Ok (stored, n') ->
  NoDup (shard_name <$> shards) -> Forall (fun s => NoDup (shard_files s).*1) shards ->
  NoDup stored /\ forall o, o ∈ stored <-> is_digest o /\ exists s, s ∈ shards /\ shard_name s = take 2 (hex o) /\ hex o ∈ (shard_files s).*1.
Proof.
  induction shards as [|s shards IH]; intros n stored n' H Hn Hf; simpl in H.
  { injection H as <- <-. split; [constructor|]. intros o. rewrite elem_of_nil. split; [done|]. intros (_ & s & Hs & _). by apply elem_of_nil in Hs. }
  destruct (is_symlink _ || _); [done|]. destruct (_ || _); [done|]. apply outcome_bind_inv in H as ([st n1] & H1 & H).
  apply outcome_bind_inv in H as ([rest n2] & H2 & H). injection H as <- <-. rewrite fmap_cons in Hn. apply NoDup_cons in Hn as [Hns Hn].
  apply Forall_cons in Hf as [Hf1 Hf]. destruct (scan_shard_ok _ _ _ _ _ _ H1 Hf1) as [A1 A2]. destruct (IH _ _ _ H2 Hn Hf) as [B1 B2]. split.
  - apply NoDup_app. split_and!; [done| |done]. intros o (_ & E & _)%A2 (_ & s' & Hs' & E' & _)%B2. apply Hns, list_elem_of_fmap. exists s'. split; [congruence|done].
  - intros o. rewrite elem_of_app, A2, B2. setoid_rewrite elem_of_cons. naive_solver.
Qed.

Section Digest.
Context (sha256 : list Z -> Digest).

(** ** Collection *)

Lemma collect_objects_ok os : forall d, BTree.sorted (disk_objects d) -> NoDup os -> (forall o, o ∈ os -> is_Some (BTree.get o (disk_objects d))) ->
  exists objs, collect_objects os d = Ok (set_objects objs d) /\ BTree.sorted objs /\
    forall o, BTree.get o objs = if decide (o ∈ os) then None else BTree.get o (disk_objects d).
Proof.
  induction os as [|o os IH]; intros d Hs Hn Hin; simpl.
  - exists (disk_objects d). split; [by destruct d|]. done.
  - apply NoDup_cons in Hn as [Ho Hn]. rewrite (proj2 (BTree.contains_key_true _ _)) by (apply Hin; left).
    destruct (IH (set_objects (BTree.remove o (disk_objects d)) d)) as (objs & -> & Hs' & Hg).
    + by apply BTree.remove_sorted.
    + done.
    + intros o' Ho'. simpl. rewrite BTree.get_remove by done. rewrite decide_False by (by intros ->). apply Hin. by right.
    + exists objs. split; [done|]. split; [done|]. intros o'. rewrite Hg. simpl. rewrite BTree.get_remove by done.
      destruct (decide (o' ∈ os)); [rewrite decide_True by (by right); done|]. destruct (decide (o' = o)) as [->|Hne].
      * by rewrite decide_True by left.
      * by rewrite decide_False by (rewrite elem_of_cons; naive_solver).
Qed.

(** Loading reads the objects it returns. *)
Lemma load_objects_same d d' ns : forall loaded objs, BTree.sorted loaded -> load_objects sha256 ns loaded d = Ok objs ->
  (forall o, BTree.contains_key o loaded = true -> BTree.contains_key o objs = true) /\
  ((forall o, BTree.contains_key o objs = true -> BTree.get o (disk_objects d') = BTree.get o (disk_objects d)) ->
   load_objects sha256 ns loaded d' = Ok objs).
Proof.
  induction ns as [|n ns IH]; intros loaded objs Hs H; simpl in *; [by injection H as <-|].
  destruct (FsCheckpoint.object n) as [[o s]|]; [|by apply IH]. destruct (BTree.contains_key o loaded) eqn:Ec; [by apply IH|].
  destruct (verify_object sha256 o d) as [bs| |] eqn:Ev; [|done|done]. destruct (negb (size bs =? s)) eqn:Es; [done|].
  destruct (IH _ _ (BTree.insert_sorted o bs _ Hs) H) as [Hk Hl].
  assert (Ho : BTree.contains_key o objs = true).
  { apply Hk, BTree.contains_key_true. rewrite BTree.get_insert by done. by rewrite decide_True. }
  split.
  - intros o' Ho'. apply Hk, BTree.contains_key_true. rewrite BTree.get_insert by done. destruct (decide _); [done|]. by apply BTree.contains_key_true.
  - intros Hsame. unfold verify_object in *. rewrite (Hsame o Ho), Ev, Es. by apply Hl.
Qed.

Lemma recover_same id l cs js d objs r : recover_computer sha256 id l cs js d = Ok r ->
  (forall o, BTree.contains_key o (recovered_objects r) = true -> BTree.get o objs = BTree.get o (disk_objects d)) ->
  recover_computer sha256 id l cs js (set_objects objs d) = Ok r.
Proof.
  intros H Hsame. unfold recover_computer in *. cbn [disk_confirmed set_objects].
  apply outcome_bind_inv in H as (c & -> & H). cbn [mbind outcome_bind]. apply outcome_bind_inv in H as ([[cs' b] n] & -> & H). cbn [mbind outcome_bind].
  apply outcome_bind_inv in H as ([[js' b'] n'] & -> & H). cbn [mbind outcome_bind]. apply outcome_bind_inv in H as (st & -> & H). cbn [mbind outcome_bind].
  apply outcome_bind_inv in H as (objs' & Hl & [= <-]).
  apply (load_objects_same d (set_objects objs d)) in Hl as [_ Hl]; [|constructor]. by rewrite Hl.
Qed.

(** ** Reachable objects *)

(** [c] is the directory of a computer that recovers to [r]. *)
Definition recovers (l : FileSystemLimits) (objects : list (list Z * list Z)) (c : ComputerDirectory) (r : RecoveredComputer) : Prop :=
  exists id, cd_name c = hex id /\ is_bytes id /\ size id = 16 /\
    recover_computer sha256 id l (cd_checkpoints c) (cd_journal c) (set_objects objects (cd_files c)) = Ok r.

Lemma recovers_unique l objects c r r' : recovers l objects c r -> recovers l objects c r' -> r = r'.
Proof. intros (id & E & Hb & _ & H) (id' & E' & Hb' & _ & H'). rewrite E in E'. apply hex_inj in E'; [|done|done]. congruence. Qed.

Definition needed (l : FileSystemLimits) (objects : list (list Z * list Z)) (computers : list ComputerDirectory) (o : Digest) : Prop :=
  exists c r, c ∈ computers /\ recovers l objects c r /\ BTree.contains_key o (recovered_objects r) = true.

Lemma load_objects_sorted d ns : forall loaded objs, BTree.sorted loaded -> load_objects sha256 ns loaded d = Ok objs -> BTree.sorted objs.
Proof.
  induction ns as [|n ns IH]; intros loaded objs Hs H; simpl in H; [by injection H as <-|].
  destruct (FsCheckpoint.object n) as [[o s]|]; [|by eapply IH]. destruct (BTree.contains_key o loaded); [by eapply IH|].
  destruct (verify_object sha256 o d); [|done|done]. destruct (negb _); [done|]. eapply IH; [|exact H]. by apply BTree.insert_sorted.
Qed.

Lemma recovered_sorted id l cs js d r : recover_computer sha256 id l cs js d = Ok r -> BTree.sorted (recovered_objects r).
Proof.
  unfold recover_computer. intros H. apply outcome_bind_inv in H as (c & _ & H). apply outcome_bind_inv in H as ([[? ?] ?] & _ & H).
  apply outcome_bind_inv in H as ([[? ?] ?] & _ & H). apply outcome_bind_inv in H as (st & _ & H). apply outcome_bind_inv in H as (objs & Hl & [= <-]).
  eapply load_objects_sorted; [|exact Hl]. constructor.
Qed.

Lemma reachable_objects_ok mc l objects computers : forall n R R', reachable_objects sha256 mc l objects computers n R = Ok R' ->
  Forall (fun c => exists r, recovers l objects c r) computers /\ forall o, o ∈ R' <-> o ∈ R \/ needed l objects computers o.
Proof.
  induction computers as [|c computers IH]; intros n R R' H; simpl in H.
  { injection H as <-. split; [constructor|]. intros o. split; [by left|]. intros [|(c & r & Hc & _)]; [done|by apply elem_of_nil in Hc]. }
  destruct (_ || _); [done|]. apply outcome_bind_inv in H as (m & _ & H). destruct (mc <? m); [done|].
  apply outcome_bind_inv in H as (id & Hid & H). destruct (decode_hex 16 _) as [id'|] eqn:Ed; [|done]. injection Hid as ->.
  apply outcome_bind_inv in H as (r & Hr & H). apply IH in H as [Hall Hiff]. apply decode_hex_iff in Ed as (En & Hb & Hs).
  assert (Hrec : recovers l objects c r) by (by exists id). pose proof (recovered_sorted _ _ _ _ _ _ Hr) as Hsort.
  assert (Hk : forall o, o ∈ BTree.keys (recovered_objects r) <-> BTree.contains_key o (recovered_objects r) = true).
  { intros o. rewrite BTree.contains_key_true. symmetry. by apply BTree.get_keys. }
  split; [constructor; [by exists r|done]|]. intros o. rewrite Hiff, elem_of_union, elem_of_list_to_set, Hk. unfold needed. setoid_rewrite elem_of_cons. split.
  - intros [[|Ho]|(c' & r' & ?)]; [by left|right; exists c, r; by intuition|right; exists c', r'; by intuition].
  - intros [|(c' & r' & [->|Hc] & Hr' & Ho)]; [by left; left|left; right; by rewrite (recovers_unique _ _ _ _ _ Hrec Hr')|right; by exists c', r'].
Qed.

(** C34. Collecting garbage is safe for every computer of a store.  The objects are
    shared; the collector keeps what any of the computers needs.  If it computes what
    to remove, while nothing else happens, then all of it can be removed; afterwards
    every computer in the store recovers to exactly the state and the objects it
    recovered to before; what is left are the objects that some computer needs, and
    nothing else; and another collection finds nothing to remove. *)
Theorem collection_keeps_recovery (l : FileSystemLimits) (mc mo : Z) (computers : list ComputerDirectory) (shards : list Shard)
    (objects : list (list Z * list Z)) (os : list Digest) :
  BTree.sorted objects -> lists_objects shards objects -> unreachable_objects sha256 mc mo l computers shards objects = Ok os ->
  exists kept, (forall d, collect_objects os (set_objects objects d) = Ok (set_objects kept d)) /\
    (forall c, c ∈ computers -> exists r, recovers l objects c r /\ recovers l kept c r) /\
    (forall o, is_Some (BTree.get o kept) <-> is_Some (BTree.get o objects) /\ needed l objects computers o) /\
    (forall mc' mo' shards' os', lists_objects shards' kept ->
       unreachable_objects sha256 mc' mo' l computers shards' kept = Ok os' -> os' = []).
Proof.
  intros Hs Hl Hu. unfold unreachable_objects in Hu. apply outcome_bind_inv in Hu as (R & HR & Hu). apply outcome_bind_inv in Hu as ([st n] & Hst & [= <-]).
  apply reachable_objects_ok in HR as [Hall HR]. destruct Hl as [[Hn1 Hn2] Hobj]. destruct (scan_shards_ok _ _ _ _ _ Hst Hn1 Hn2) as [Hnd Hst'].
  assert (HR' : forall o, o ∈ R <-> needed l objects computers o) by (intros o; rewrite HR; set_solver).
  set (os := filter _ st). assert (Hos : forall o, o ∈ os <-> (o ∉ R) /\ is_Some (BTree.get o objects)).
  { intros o. unfold os. by rewrite list_elem_of_filter, Hst', Hobj. }
  destruct (collect_objects_ok os (set_objects objects empty_disk) Hs) as (kept & _ & Hsk & Hg); [by apply NoDup_filter|intros o Ho; by apply Hos|].
  assert (Hcol : forall d, collect_objects os (set_objects objects d) = Ok (set_objects kept d)).
  { intros d. destruct (collect_objects_ok os (set_objects objects d) Hs) as (k & -> & Hk & Hg'); [by apply NoDup_filter|intros o Ho; by apply Hos|].
    f_equal. change (set_objects k (set_objects objects d)) with (set_objects k d). f_equal. apply BTree.sorted_ext; [done|done|]. intros o. by rewrite Hg, Hg'. }
  assert (Hkept : forall o, needed l objects computers o -> BTree.get o kept = BTree.get o objects).
  { intros o Ho. rewrite Hg, decide_False; [done|]. intros [Hno _]%Hos. by apply Hno, HR'. }
  assert (Hrec : forall c r, c ∈ computers -> recovers l objects c r -> recovers l kept c r).
  { intros c r Hc Hr. pose proof Hr as (id & E & Hb & Hi & Hrun). exists id. split_and!; [done..|].
    apply (recover_same id l (cd_checkpoints c) (cd_journal c) (set_objects objects (cd_files c)) kept r Hrun).
    intros o Ho. apply Hkept. by exists c, r. }
  assert (Hleft : forall o, is_Some (BTree.get o kept) <-> is_Some (BTree.get o objects) /\ needed l objects computers o).
  { intros o. rewrite Hg. destruct (decide (o ∈ os)) as [Ho|Ho].
    - split; [by intros [? ?]|]. intros [_ Hne%HR']. by apply Hos in Ho as [? _].
    - split; [|naive_solver]. intros H. split; [done|]. apply HR'. destruct (decide (o ∈ R)); [done|]. by destruct Ho; apply Hos. }
  exists kept. split_and!; [done| |done|].
  - intros c Hc. rewrite Forall_forall in Hall. destruct (Hall c Hc) as [r Hr]. exists r. split; [done|by apply Hrec].
  - intros mc' mo' shards' os' [[Hm1 Hm2] Hobj'] Hu. unfold unreachable_objects in Hu. apply outcome_bind_inv in Hu as (R2 & HR2 & Hu).
    apply outcome_bind_inv in Hu as ([st2 n2] & Hst2 & [= <-]). apply reachable_objects_ok in HR2 as [_ HR2]. destruct (scan_shards_ok _ _ _ _ _ Hst2 Hm1 Hm2) as [_ Hst2'].
    destruct (filter _ st2) as [|o os'] eqn:E; [done|]. exfalso. assert (Hin : o ∈ o :: os') by left. rewrite <- E in Hin. apply list_elem_of_filter in Hin as [Hno Ho].
    rewrite Hst2', <- Hobj', Hleft in Ho. destruct Ho as [_ (c & r & Hc & Hr & Ho)]. apply Hno, HR2. right. exists c, r. by split_and!; [|apply Hrec|].
Qed.

(** ** What recovery answers *)

Lemma replay_sound i l recs : forall st st', Recovery.replay sha256 i l recs st = Ok st' ->
  exists used, Replay.chain sha256 l (Recovery.input_computer i) st used st' /\ used ⊆ recs.
Proof.
  induction recs as [|rec recs IH]; intros st st' H; simpl in H; [injection H as <-; exists []; split; [constructor|done]|].
  assert (Hstop : st = st' -> exists used, Replay.chain sha256 l (Recovery.input_computer i) st used st' /\ used ⊆ rec :: recs)
    by (intros <-; exists []; split; [constructor|set_solver]).
  destruct (Recovery.claimed_sequence rec <=? Recovery.state_generation st); [destruct (IH _ _ H) as (u & ? & ?); exists u; split; [done|set_solver]|].
  unfold checked_add in H. destruct (Z.leb_spec (Recovery.state_generation st + 1) u64_max) as [Hu|]; cbn [ok_or mbind outcome_bind] in H; [|done].
  destruct (Recovery.claimed_sequence rec =? _) eqn:Ec; cbn [negb] in H; [|destruct (_ <=? _); [done|injection H as ->; auto]].
  apply Z.eqb_eq in Ec. set (failed := if Recovery.claimed_sequence rec <=? Recovery.confirmed_generation i then _ else _) in H.
  assert (Hfail : failed = Ok st' -> st = st') by (unfold failed; destruct (_ <=? _); [done|by intros [= ->]]).
  destruct (record_decode sha256 _ l) as [r| |] eqn:Ed; [|auto|done].
  destruct (_ && _) eqn:Eq; [|auto]. bsimp. destruct (Recovery.apply st _ _ l) as [next| |] eqn:Ea; [|auto|done].
  destruct (IH _ _ H) as (u & Hu1 & Hu2). exists (rec :: u). split; [|set_solver]. econstructor; [|exact Hu1].
  exists r, next. split_and!; try done; congruence.
Qed.

(** Where the replay starts: at nothing, or at an intact checkpoint of this
    computer that is not newer than the confirmed generation. *)
Definition starts_at (id : ComputerId) (l : FileSystemLimits) (confirmed : Z) (cs : list (Z * bool * list Z)) (st : Recovery.RecoveredState) : Prop :=
  st = Recovery.mkRecovered 0 [] \/
  exists g bs ck, (g, false, bs) ∈ cs /\ g <= confirmed /\ FsCheckpoint.checkpoint_decode sha256 bs l = Ok ck /\
    FsCheckpoint.computer_id ck = id /\ FsCheckpoint.generation ck = g /\
    st = Recovery.mkRecovered g (foldl (fun m n => BTree.insert (FsCheckpoint.node_path n) n m) [] (FsCheckpoint.nodes ck)).

Lemma read_files_elem mf mb mr es : forall b n out b' n', read_generation_files mf mb mr es b n = Ok (out, b', n') ->
  forall g bs, (g, bs) ∈ out -> (g, false, bs) ∈ es.
Proof.
  induction es as [|[[g t] bs] es IH]; intros b n out b' n' H g' bs' Hin; simpl in H; [injection H as <- _ _; by apply elem_of_nil in Hin|].
  apply outcome_bind_inv in H as (m & _ & H). destruct (_ <? m); [done|]. apply outcome_bind_inv in H as (b1 & _ & H). destruct (_ || _); [done|].
  apply outcome_bind_inv in H as ([[out1 b2] n2] & H1 & [= <- <- <-]). destruct t; [right; by eapply IH|].
  apply elem_of_cons in Hin as [[= -> ->]|Hin]; [left|right; by eapply IH].
Qed.

Lemma start_state_sound i l st cs : Recovery.start_state sha256 i l = Ok st ->
  (forall c, c ∈ Recovery.checkpoints i -> (Recovery.claimed_generation c, false, Recovery.checkpoint_bytes c) ∈ cs) ->
  starts_at (Recovery.input_computer i) l (Recovery.confirmed_generation i) cs st.
Proof.
  unfold Recovery.start_state. intros H Hcs. destruct (match Recovery.first_duplicate _ _ with Some _ => true | None => false end); [done|].
  destruct (last _) as [c|] eqn:El; [|injection H as <-; by left]. right. apply last_Some in El as [cs' El].
  assert (Hc : c ∈ filter (fun c => Recovery.claimed_generation c <= Recovery.confirmed_generation i) (Recovery.checkpoints i)).
  { rewrite <- (Replay.sort_perm Recovery.claimed_generation), El, elem_of_app. right. by left. }
  apply list_elem_of_filter in Hc as [Hle Hc]. destruct (FsCheckpoint.checkpoint_decode _ _ _) as [ck| |] eqn:Ed; [|done|done].
  destruct (_ || _) eqn:E; [done|]. injection H as <-. bsimp.
  exists (Recovery.claimed_generation c), (Recovery.checkpoint_bytes c), ck. split_and!; try done; [by apply Hcs|by f_equal].
Qed.

Lemma load_objects_sound d ns : forall loaded objs, BTree.sorted loaded -> load_objects sha256 ns loaded d = Ok objs ->
  (forall o bs, BTree.get o loaded = Some bs -> BTree.get o objs = Some bs) /\
  (forall o bs, BTree.get o objs = Some bs -> BTree.get o loaded = Some bs \/ (BTree.get o (disk_objects d) = Some bs /\ sha256 bs = o)) /\
  (forall n o s, n ∈ ns -> FsCheckpoint.object n = Some (o, s) -> is_Some (BTree.get o objs)).
Proof.
  induction ns as [|n ns IH]; intros loaded objs Hs H; simpl in H.
  { injection H as <-. split_and!; [done|by left|]. intros n o s Hn. by apply elem_of_nil in Hn. }
  assert (Hold : forall o, FsCheckpoint.object n = Some o -> BTree.contains_key o.1 loaded = true -> load_objects sha256 ns loaded d = Ok objs ->
    (forall o bs, BTree.get o loaded = Some bs -> BTree.get o objs = Some bs) /\
    (forall o bs, BTree.get o objs = Some bs -> BTree.get o loaded = Some bs \/ (BTree.get o (disk_objects d) = Some bs /\ sha256 bs = o)) /\
    (forall n' o s, n' ∈ n :: ns -> FsCheckpoint.object n' = Some (o, s) -> is_Some (BTree.get o objs))).
  { intros [o s] Ho Hc H'. destruct (IH _ _ Hs H') as (I1 & I2 & I3). split_and!; [done|done|]. intros n' o' s' [->|Hn]%elem_of_cons Ho'; [|by eapply I3].
    rewrite Ho in Ho'. injection Ho' as -> ->. apply BTree.contains_key_true in Hc as [b Hb]. exists b. by apply I1. }
  destruct (FsCheckpoint.object n) as [[o s]|] eqn:En.
  2:{ destruct (IH _ _ Hs H) as (I1 & I2 & I3). split_and!; [done|done|]. intros n' o' s' [->|Hn]%elem_of_cons Ho'; [congruence|by eapply I3]. }
  destruct (BTree.contains_key o loaded) eqn:Ec; [by apply (Hold (o, s))|]. clear Hold.
  destruct (verify_object sha256 o d) as [bs| |] eqn:Ev; [|done|done]. destruct (negb (size bs =? s)); [done|].
  assert (Hv : BTree.get o (disk_objects d) = Some bs /\ sha256 bs = o).
  { unfold verify_object in Ev. destruct (BTree.get o (disk_objects d)) as [b|]; [|done]. destruct (bool_decide _) eqn:Eb; [|done]. bsimp. by injection Ev as <-. }
  destruct (IH _ _ (BTree.insert_sorted o bs _ Hs) H) as (I1 & I2 & I3). split_and!.
  - intros o' bs' Ho'. apply I1. rewrite BTree.get_insert by done. destruct (decide (o' = o)) as [->|]; [|done].
    exfalso. unfold BTree.contains_key in Ec. by rewrite Ho' in Ec.
  - intros o' bs' Ho'. destruct (I2 _ _ Ho') as [Hi|]; [|by right]. rewrite BTree.get_insert in Hi by done.
    destruct (decide (o' = o)) as [->|]; [right; by injection Hi as <-|by left].
  - intros n' o' s' [->|Hn]%elem_of_cons Ho'; [|by eapply I3]. rewrite En in Ho'. injection Ho' as -> ->.
    exists bs. apply I1. rewrite BTree.get_insert by done. by rewrite decide_True.
Qed.

(** C35. Recovery never makes anything up.  Whatever bytes are on disk, if a computer
    recovers, then to the result of replaying, from nothing or from an intact
    checkpoint of this computer that is not newer than the confirmed generation,
    intact journal records of this computer, one for each generation up to that of
    the result, so that a missing one below it is noticed; the result is at least as
    recent as the confirmed generation; and the object of each of its files was
    read from disk, with the digest its name says. *)
Theorem recovery_sound (id : ComputerId) (l : FileSystemLimits) (cs js : list (Z * bool * list Z)) (d : Disk) (r : RecoveredComputer) :
  recover_computer sha256 id l cs js d = Ok r ->
  let st := recovered_state r in
  read_confirmed sha256 (disk_confirmed d) = Ok (recovered_confirmed r) /\ recovered_confirmed r <= Recovery.state_generation st /\
  (exists st0 recs, starts_at id l (recovered_confirmed r) cs st0 /\ Replay.chain sha256 l id st0 recs st /\
     (forall rec, rec ∈ recs -> (Recovery.claimed_sequence rec, false, Recovery.record_bytes rec) ∈ js) /\
     (forall g, Recovery.state_generation st0 < g <= Recovery.state_generation st -> exists bs, (g, false, bs) ∈ js)) /\
  (forall n o s, n ∈ BTree.values (Recovery.state_nodes st) -> FsCheckpoint.object n = Some (o, s) ->
     exists bs, BTree.get o (recovered_objects r) = Some bs /\ BTree.get o (disk_objects d) = Some bs /\ sha256 bs = o).
Proof.
  unfold recover_computer. intros H. apply outcome_bind_inv in H as (c & Hc & H). apply outcome_bind_inv in H as ([[cs' b] n] & Hcs & H).
  apply outcome_bind_inv in H as ([[js' b'] n'] & Hjs & H). apply outcome_bind_inv in H as (st & Hst & H). apply outcome_bind_inv in H as (objs & Hl & [= <-]). simpl.
  destruct (Recovery.recover sha256 _ l) as [st'| |] eqn:Hr; [|done|done]. injection Hst as ->. unfold Recovery.recover in Hr. set (i := Recovery.mkInput _ _ _ _) in Hr.
  apply outcome_bind_inv in Hr as (? & _ & Hr). apply outcome_bind_inv in Hr as (st0 & H0 & Hr). apply outcome_bind_inv in Hr as (? & _ & Hr).
  apply outcome_bind_inv in Hr as (recs & Hrecs & Hr). apply outcome_bind_inv in Hr as (st1 & Hrep & Hr). destruct (Z.ltb_spec (Recovery.state_generation st1) (Recovery.confirmed_generation i)); [done|].
  injection Hr as ->. assert (Hsub : recs ⊆ Recovery.journal_records i).
  { intros rec Hrec. rewrite <- (Replay.sort_perm Recovery.claimed_sequence). destruct (Recovery.first_duplicate _ _).
    - destruct (_ <=? _); [done|]. injection Hrecs as <-. by apply list_elem_of_filter in Hrec as [_ ?].
    - by injection Hrecs as <-. }
  destruct (replay_sound _ _ _ _ _ Hrep) as (used & Hch & Hus).
  assert (Hon : forall rec, rec ∈ used -> (Recovery.claimed_sequence rec, false, Recovery.record_bytes rec) ∈ js).
  { intros rec Hrec. apply Hus, Hsub in Hrec. unfold i in Hrec. simpl in Hrec. apply list_elem_of_fmap in Hrec as ([g bs] & -> & Hin). by eapply read_files_elem. }
  destruct (load_objects_sound d _ _ _ ltac:(constructor) Hl) as (_ & L2 & L3).
  split_and!; [done|done| |].
  - exists st0, used. split_and!; [| |done|].
    + apply (start_state_sound i l st0 cs H0). unfold i. simpl. intros ck Hck. apply list_elem_of_fmap in Hck as ([g bs] & -> & Hin). by eapply read_files_elem.
    + exact Hch.
    + intros g Hg. destruct (Replay.chain_covers _ _ _ _ _ _ Hch g Hg) as (rec & Hin & <-). eauto.
  - intros nd o s Hn Ho. destruct (L3 _ _ _ Hn Ho) as [bs Hb]. exists bs. split; [done|]. by destruct (L2 _ _ Hb).
Qed.

(** ** Growth *)

Lemma read_files_records mf mb mr js : forall b n, 0 <= n <= mr -> mr <= usize_max -> mr < n + size js ->
  read_generation_files mf mb mr js b n = Err SStorageFaulted.
Proof.
  induction js as [|[[g t] bs] js IH]; intros b n Hn Hm Hlt; [unfold size in Hlt; simpl in Hlt; lia|].
  cbn [read_generation_files]. unfold checked_add. destruct (n + 1 <=? usize_max); cbn [ok_or mbind outcome_bind]; [|done].
  destruct (Z.ltb_spec mr (n + 1)); [done|]. destruct (b + size bs <=? usize_max); cbn [ok_or mbind outcome_bind]; [|done].
  destruct (_ || _); [done|]. rewrite IH; [done|lia|done|]. unfold size in *. simpl in Hlt. lia.
Qed.

Lemma read_files_ok_records mf mb mr js : forall b n out b' n', read_generation_files mf mb mr js b n = Ok (out, b', n') -> 0 <= n <= mr -> 0 <= n' <= mr.
Proof.
  induction js as [|[[g t] bs] js IH]; intros b n out b' n' H Hn; simpl in H; [by injection H as <- <- <-|].
  apply outcome_bind_inv in H as (m & Hm & H). unfold checked_add in Hm. destruct (_ <=? _); [|done]. injection Hm as <-.
  destruct (Z.ltb_spec mr (n + 1)); [done|]. apply outcome_bind_inv in H as (b1 & _ & H). destruct (_ || _); [done|].
  apply outcome_bind_inv in H as ([[out1 b2] n2] & H1 & [= <- <- <-]). apply IH in H1; lia.
Qed.

Lemma read_files_error mf mb mr js e : forall b n, read_generation_files mf mb mr js b n = Err e -> e = SStorageFaulted.
Proof.
  induction js as [|[[g t] bs] js IH]; intros b n; cbn [read_generation_files]; [done|].
  destruct (checked_add _ n _) as [n1|]; cbn [ok_or mbind outcome_bind]; [|by intros [= <-]]. destruct (_ <? n1); [by intros [= <-]|].
  destruct (checked_add _ b _) as [b1|]; cbn [ok_or mbind outcome_bind]; [|by intros [= <-]]. destruct (_ || _); [by intros [= <-]|].
  specialize (IH b1 n1). destruct (read_generation_files _ _ _ js _ _) as [[[o b2] n2]| |]; cbn [mbind outcome_bind]; [done|exact IH|done].
Qed.

Lemma read_files_no_panic mf mb mr js : forall b n, read_generation_files mf mb mr js b n <> Panic.
Proof.
  induction js as [|[[g t] bs] js IH]; intros b n; cbn [read_generation_files]; [done|].
  destruct (checked_add _ n _) as [n1|]; cbn [ok_or mbind outcome_bind]; [|done]. destruct (_ <? n1); [done|].
  destruct (checked_add _ b _) as [b1|]; cbn [ok_or mbind outcome_bind]; [|done]. destruct (_ || _); [done|].
  specialize (IH b1 n1). by destruct (read_generation_files _ _ _ js _ _) as [[[o b2] n2]| |].
Qed.

Lemma persist_object_frame m d d1 : persist_object sha256 m d = Ok d1 -> disk_checkpoints d1 = disk_checkpoints d /\ disk_journal d1 = disk_journal d.
Proof.
  intros E. unfold persist_object in E. destruct (m_object m) as [[o bs]|]; [|by injection E as <-]. destruct (negb _); [done|].
  destruct (BTree.contains_key _ _); [|by injection E as <-]. by apply outcome_bind_inv in E as (? & _ & [= <-]).
Qed.

Lemma journal_kept c d : disk_checkpoints (carry_out sha256 c d).2 = disk_checkpoints d /\
  (BTree.sorted (published (disk_journal d)) -> size (published (disk_journal d)) <= size (published (disk_journal (carry_out sha256 c d).2))).
Proof.
  destruct c as [m|i b|os|]; simpl.
  - unfold persist_mutation. destruct (persist_object sha256 m d) as [d1| |] eqn:E; cbn [mbind outcome_bind]; [|done|done].
    apply persist_object_frame in E as [E1 E2]. split; [done|]. simpl. rewrite E2. intros Hs. unfold size. destruct (BTree.get (m_generation m) (published (disk_journal d))) eqn:Eg.
    + by rewrite (BTree.length_insert_old _ _ _ _ Hs Eg).
    + rewrite BTree.length_insert_new by done. lia.
  - unfold persist_tombstone. destruct b; [done|]. by destruct (disk_tombstone d).
  - assert (H : forall os d d', collect_objects os d = Ok d' -> disk_checkpoints d' = disk_checkpoints d /\ disk_journal d' = disk_journal d).
    { clear. induction os as [|o os IH]; intros d d' H; simpl in H; [by injection H as <-|]. destruct (BTree.contains_key _ _); [|done]. by apply IH in H. }
    destruct (collect_objects os d) as [d'| |] eqn:E; [|done|done]. apply H in E as [E1 E2]. simpl. by rewrite E1, E2.
  - done.
Qed.

(** The journal only grows, and a journal that is too long is not read.  No
    command of the persistence thread writes a namespace checkpoint or removes a
    journal file, each new mutation adds one, and a computer with more journal
    files than [maximum_recovery_records] is refused, whatever they contain. *)
Theorem journal_outgrows_recovery (id : ComputerId) (l : FileSystemLimits) (cs js : list (Z * bool * list Z)) (d : Disk) :
  0 <= maximum_recovery_records l <= usize_max -> maximum_recovery_records l < size js ->
  recover_computer sha256 id l cs js d = Err SStorageFaulted /\
  (forall c, disk_checkpoints (carry_out sha256 c d).2 = disk_checkpoints d /\
     (BTree.sorted (published (disk_journal d)) -> size (published (disk_journal d)) <= size (published (disk_journal (carry_out sha256 c d).2)))) /\
  (forall m d', BTree.sorted (published (disk_journal d)) -> BTree.get (m_generation m) (published (disk_journal d)) = None ->
     carry_out sha256 (Mutation m) d = (true, d') -> size (published (disk_journal d')) = size (published (disk_journal d)) + 1).
Proof.
  intros Hl Hlt. split; [|split; [intros c; apply journal_kept|]].
  - unfold recover_computer. destruct (read_confirmed sha256 (disk_confirmed d)) as [c|e|] eqn:Ec; cbn [mbind outcome_bind].
    2, 3: unfold read_confirmed in Ec; destruct (disk_confirmed d); [|done]; repeat (destruct (negb _); [congruence|]); done.
    destruct (read_generation_files _ _ _ cs 0 0) as [[[cs' b] n]|e|] eqn:E1; cbn [mbind outcome_bind].
    + apply read_files_ok_records in E1; [|lia]. by rewrite read_files_records by lia.
    + by apply read_files_error in E1 as ->.
    + by apply read_files_no_panic in E1.
  - intros m d' Hs Hn. simpl. unfold persist_mutation. destruct (persist_object sha256 m d) as [d1| |] eqn:E; cbn [mbind outcome_bind]; [|done|done].
    intros [= <-]. apply persist_object_frame in E as [_ E]. simpl. rewrite E. unfold size. rewrite BTree.length_insert_new by done. lia.
Qed.

End Digest.

(** ** Runs on a small store *)

(** Requests that all succeed, each carried to the disk before the next. *)
Fixpoint requests (rs : list Request) (s : Sys) (d : Disk) : option (Sys * Disk) :=
  match rs with
  | [] => Some (s, d)
  | r :: rs =>
      match perform demo_digest r s with
      | (Ok _, s) =>
          match worker_round demo_digest (d, gate s) with
          | (Ok true, (d, q)) => requests rs (mkSys (fs s) q) d
          | _ => None
          end
      | _ => None
      end
  end.

Definition demo_recover (d : Disk) : outcome StoreError RecoveredComputer :=
  recover_computer demo_digest demo_id testing [] (listing_of (disk_journal d)) d.

Definition owner : FileCapability := Capability.new [] OWNER.
Definition letter (c : Z) : list Z := [c].

(** The disk after a file was written and removed. *)
Definition demo_garbage : Disk :=
  match requests [demo_put; RRemove owner demo_path] (sys demo_start) empty_disk with Some (_, d) => d | None => empty_disk end.

(** Another computer of the store, with a file of its own. *)
Definition other_id : list Z := replicate 16 9.
Definition other_start : Sys := mkSys (attach_persistence (mkPersistence other_id testing) (with_limits testing)) (gate_start testing).
Definition other_disk : Disk :=
  match requests [RPut owner demo_path [121; 111] true] other_start empty_disk with Some (_, d) => d | None => empty_disk end.

Definition directory_of (id : ComputerId) (d : Disk) : ComputerDirectory :=
  mkComputerDirectory (hex id) Directory [] (listing_of (disk_journal d)) d.
Definition demo_computers : list ComputerDirectory := [directory_of other_id other_disk; directory_of demo_id demo_garbage].

(** Their objects, and the directory that holds these and a temporary file. *)
Definition demo_hi : Digest := demo_digest [104; 105].
Definition demo_yo : Digest := demo_digest [121; 111].
Definition demo_objects : list (list Z * list Z) := [(demo_hi, [104; 105]); (demo_yo, [121; 111])].
Definition demo_shards : list Shard :=
  [mkShard (take 2 (hex demo_yo)) Directory [(hex demo_yo, RegularFile); (hex demo_yo ++ TMP, RegularFile)];
   mkShard (take 2 (hex demo_hi)) Directory [(hex demo_hi, RegularFile)]].

Lemma demo_lists : lists_objects demo_shards demo_objects.
Proof.
  assert (Hb : forall bs, is_digest (demo_digest bs)) by (intros bs; split; [apply demo_digest_bytes|apply demo_digest_size]).
  assert (Hg : forall o, is_Some (BTree.get o demo_objects) <-> o = demo_hi \/ o = demo_yo).
  { intros o. rewrite BTree.get_keys by (vm_compute; repeat constructor). unfold demo_objects, BTree.keys. cbn [fmap list_fmap fst].
    rewrite !elem_of_cons, elem_of_nil. tauto. }
  split.
  - split; [vm_compute; repeat constructor; set_solver|]. unfold demo_shards. repeat constructor; vm_compute; repeat constructor; set_solver.
  - intros o. rewrite Hg. split.
    + intros [->| ->]; (split; [apply Hb|]).
      * exists (mkShard (take 2 (hex demo_hi)) Directory [(hex demo_hi, RegularFile)]). split; [right; left|]. split; [done|left].
      * exists (mkShard (take 2 (hex demo_yo)) Directory [(hex demo_yo, RegularFile); (hex demo_yo ++ TMP, RegularFile)]). split; [left|]. split; [done|left].
    + intros ([Ho _] & s & Hs & _ & Hin). unfold demo_shards in Hs. rewrite !elem_of_cons, elem_of_nil in Hs. destruct Hs as [->|[->|[]]];
        cbn [shard_files fmap list_fmap fst] in Hin; rewrite !elem_of_cons, elem_of_nil in Hin.
      * destruct Hin as [E|[E|[]]]; [right; exact (hex_inj o demo_yo Ho (proj1 (Hb _)) E)|].
        exfalso. pose proof (hex_is_hex o Ho) as H. rewrite E in H. apply Forall_app in H as [_ H]. by apply Forall_cons in H as [? _].
      * destruct Hin as [E|[]]. left. exact (hex_inj o demo_hi Ho (proj1 (Hb _)) E).
Qed.

Lemma collection_keeps_recovery_witness : exists kept,
  collect_objects [demo_hi] (set_objects demo_objects empty_disk) = Ok (set_objects kept empty_disk) /\
  (forall c, c ∈ demo_computers -> exists r, recovers demo_digest testing demo_objects c r /\ recovers demo_digest testing kept c r) /\
  is_Some (BTree.get demo_yo kept).
Proof.
  destruct (collection_keeps_recovery demo_digest testing 2 8 demo_computers demo_shards demo_objects [demo_hi]
    ltac:(vm_compute; repeat constructor) demo_lists ltac:(vm_compute; reflexivity)) as (kept & Hc & Hr & _).
  exists kept. split; [exact (Hc empty_disk)|]. split; [exact Hr|].
  assert (E : collect_objects [demo_hi] (set_objects demo_objects empty_disk) = Ok (set_objects kept empty_disk)) by exact (Hc empty_disk).
  vm_compute in E. injection E as <-. vm_compute. eexists. reflexivity.
Defined.

Lemma recovery_sound_witness : exists r, recover_computer demo_digest other_id testing [] (listing_of (disk_journal other_disk)) other_disk = Ok r /\
  recovered_confirmed r = 1 /\ recovered_confirmed r <= Recovery.state_generation (recovered_state r) /\
  exists bs, BTree.get demo_yo (recovered_objects r) = Some bs /\ demo_digest bs = demo_yo.
Proof.
  assert (E : exists r, recover_computer demo_digest other_id testing [] (listing_of (disk_journal other_disk)) other_disk = Ok r)
    by (eexists; vm_compute; reflexivity).
  destruct E as [r Hr]. destruct (recovery_sound demo_digest other_id testing [] (listing_of (disk_journal other_disk)) other_disk r Hr) as (_ & Hg & _ & Ho).
  exists r. split; [exact Hr|]. assert (Er := Hr). vm_compute in Er. injection Er as <-. split; [reflexivity|]. split; [exact Hg|].
  destruct (Ho (FsCheckpoint.File demo_path 1 2 demo_yo true) demo_yo 2 ltac:(vm_compute; left) eq_refl) as (bs & H1 & _ & H2).
  exists bs. split; [exact H1|exact H2].
Defined.

Lemma journal_outgrows_recovery_witness : recover_computer demo_digest demo_id testing [] (replicate 1025 (1, false, [])) empty_disk = Err SStorageFaulted.
Proof.
  exact (proj1 (journal_outgrows_recovery demo_digest demo_id testing [] (replicate 1025 (1, false, [])) empty_disk
    ltac:(vm_compute; split; discriminate) ltac:(vm_compute; reflexivity))).
Defined.

(** Evaluates a run step by step. *)
Ltac run_scenario :=
  lazymatch goal with
  | |- _ /\ _ => split; [run_scenario|run_scenario]
  | |- exists _, _ => eexists; run_scenario
  | |- _ => vm_compute; reflexivity
  end.

(** A collection that races with a write destroys the file.  The set of
    unreachable objects is computed outside the persistence thread; a file with the
    bytes of one of them that is written before the thread removes them is
    confirmed durable without storing its object again, and the computer cannot be
    recovered afterwards. *)
Example collection_race_loses_file : exists s1 d1 os s2 d2 d3,
  requests [demo_put; RRemove owner demo_path] (sys demo_start) empty_disk = Some (s1, d1) /\
  unreachable_objects demo_digest 1 8 testing [directory_of demo_id d1] [mkShard (take 2 (hex demo_hi)) Directory [(hex demo_hi, RegularFile)]]
    (disk_objects d1) = Ok os /\
  requests [demo_put] s1 d1 = Some (s2, d2) /\ durable_generation demo_id (gate s2) = Ok 3 /\
  collect_objects os d2 = Ok d3 /\ demo_recover d3 = Err SStorageFaulted.
Proof. eexists _, _, _, _, _, _. run_scenario. Qed.

(** [/home/a], [/home/a/b] and fourteen nested directories. *)
Definition nested (n : nat) : VirtualPath := str_home :: replicate n (letter 100).
Definition deep : list Request :=
  RCreate owner [str_home; letter 97] :: RCreate owner [str_home; letter 97; letter 98] :: ((fun n => RCreate owner (nested n)) <$> seq 1 14).

(** A rename can make a computer unrecoverable.  Moving a directory checks only
    the destination path, so its descendants may end up beyond the limits on paths;
    the mutation is confirmed durable, but recovery parses the moved paths with the
    limits and gives up on the computer. *)
Example rename_breaks_recovery : exists s1 d1 s2 d2,
  requests deep (sys demo_start) empty_disk = Some (s1, d1) /\ (exists r, demo_recover d1 = Ok r) /\
  requests [RRename owner [str_home; letter 97] (nested 14 ++ [letter 97]) false] s1 d1 = Some (s2, d2) /\
  durable_generation demo_id (gate s2) = Ok 17 /\ demo_recover d2 = Err SStorageFaulted.
Proof. eexists _, _, _, _. run_scenario. Qed.

(** A mutation published after the persistence thread failed is written all the
    same.  Publication does not look at the health of the store: if the thread
    fails on one mutation while the next is between its reservation and its
    publication, the next is journalled and confirmed, the journal has a gap below
    the confirmed generation, and the computer cannot be recovered, not even to
    the generation that was durable before. *)
Example late_publish_breaks_recovery : exists s1 d1 s2 cost c q3 m q4 q5 d6 q6,
  requests [RCreate owner demo_path] (sys demo_start) empty_disk = Some (s1, d1) /\ (exists r, demo_recover d1 = Ok r) /\
  perform demo_digest (RCreate owner [str_home; letter 98]) s1 = (Ok Done, s2) /\
  prepare demo_digest demo_persistence 3 None (CreateDirectory [str_home; letter 99] 3) (gate s2) = (Ok (cost, c), q3) /\
  take_command q3 = (Ok (Some (Mutation m)), q4) /\ publish cost c (finish_command (Mutation m) false q4).2 = (Ok tt, q5) /\
  worker_round demo_digest (d1, q5) = (Ok true, (d6, q6)) /\ health q6 = Faulted /\ demo_recover d6 = Err SStorageFaulted.
Proof. eexists _, _, _, _, _, _, _, _, _, _, _. run_scenario. Qed.

End StoreProps.
